(* ===== verification/_CoqProject ===== *)
-Q . S2P
Prelude.v
Matchers.v
MatcherGroups.v
GroupFacts.v
AcAutomaton.v
AcFacts.v
Mph.v
MphFacts.v
IndexMatchers.v
Net.v
Segment.v
SegmentFacts.v
Buffer.v
BufferFacts.v
Pipe.v
KcpRoundTrip.v
KcpSending.v
KcpSendingFacts.v
KcpReceiving.v
KcpReceivingFacts.v
KcpDelivery.v
KcpConnection.v
KcpConnectionFacts.v
KcpTasks.v
Lru.v
NetFacts.v
FakeDns.v
FakeDnsFacts.v
AddressCodec.v
AddressCodecFacts.v
BufReader.v
Chunk.v
AuthStream.v
Mux.v
RoutingContext.v
Conditions.v
OutboundManager.v
Balancing.v
Router.v
Dispatcher.v
RoutingFacts.v
BalancingFacts.v
DispatchFacts.v
RangeList.v
Sniffing.v
SniffTls.v
SniffQuic.v
SniffQuicFacts.v
NetText.v
SniffHttp.v
Sniffer.v
SnifferFacts.v
Handshake.v
Socks.v
SocksFacts.v
Users.v
Trojan.v
Vision.v
VisionFacts.v
VisionSession.v
VisionStream.v
Vless.v
VlessFacts.v
Fallback.v
Dns.v
DnsFacts.v
DnsTasks.v
DnsCache.v
Heap.v
XhttpQueue.v
NetIp.v
ConnectIp.v
Capsule.v
ConnectIpFacts.v
ConnectIpRoutes.v
ConnectIpPackets.v
ConnectIpPacketsFacts.v
ConnectIpConn.v
ConnectIpSystem.v
