(* ===== verification/Prelude.v ===== *)
(** * Exclave core: the verified parts

    Exclave is a proxy platform written in Go: inbound and outbound proxies
    joined by a dispatcher and a router, running over many transports.  This
    library translates the parts that hold its own data structures and
    protocols into Gallina, function by function, and proves what makes each
    of them correct.  Go's names are kept; a prefix ([mph_], [r_], [multi_],
    [conn_]) tells apart functions that share one.

    ** The parts

    - Strings against rules ([common/strmatcher/]), used by routing and DNS:
      [Matchers] (the four kinds of pattern, [Type.New], [ToDomain]),
      [MatcherGroups] (the full map, the domain trie, the substring scan and
      the list of matchers), [AcAutomaton] (Aho-Corasick), [Mph] (the minimal
      perfect hash) and [IndexMatchers] (the linear and the hashed index over
      all of them).  [GroupFacts], [AcFacts] and [MphFacts] prove them.
    - mKCP ([transport/internet/kcp/]), a reliable stream over UDP: [Segment]
      (wire format, packets, the legacy authenticator, settings),
      [KcpRoundTrip] (the RFC 6298 estimator), [KcpSending] (sending window
      and worker), [KcpReceiving] (receiving window, pending
      acknowledgements), [KcpConnection] (connection states, Input, flush,
      Write, Read, each as it runs by itself), [KcpTasks] (the same operations
      as single turns that interleave, since a connection has no lock), and
      [KcpDelivery] (sender, receiver and a network between them).  The larger ones have their proofs in a [Facts] file; so it is
      with the other parts, and a part of moderate size has its definitions
      and then its proofs in one file.
    - Buffers ([common/buf/]): [Buffer], proved in [BufferFacts]; a byte array
      with two 32-bit cursors, and lists of them; arrays come from a pool
      ([common/bytespool/]) and are as long as the pool makes them.  [BufReader] has the
      buffered reader and the copy loop over any reader.
    - Chunk streams ([common/crypto/chunk.go]): [Chunk]; and the authenticated
      ones ([common/crypto/auth.go]) with the nonces, sizes and paddings that
      Shadowsocks and VMess give them ([proxy/vmess/encoding/auth.go],
      [client.go], [proxy/shadowsocks/config.go]): [AuthStream].
    - The pipe ([transport/pipe/]) that joins every inbound to its outbound:
      [Pipe].
    - Addresses ([common/net/]): [Net], with the parsers of Go's package [net]
      that the code calls, proved in [NetFacts]; and their byte formats
      ([common/protocol/address.go]): [AddressCodec], [AddressCodecFacts].
    - The LRU cache ([common/cache/lru.go]): [Lru]; and its client, the fake
      DNS pool ([app/dns/fakedns/fake.go]): [FakeDns],
      [FakeDnsFacts].
    - Multiplexing ([common/mux/]): [Mux]; frames, sessions and the frame
      writer.
    - Routing: [RoutingContext] ([features/routing/], what a route is chosen
      by), [Conditions] and [Router] ([app/router/], conditions, rules and the
      walk over them), [Balancing] (weights, strategies, balancers),
      [OutboundManager] ([app/proxyman/outbound/outbound.go]) and [Dispatcher]
      ([app/dispatcher/]).  [RoutingFacts], [BalancingFacts] and
      [DispatchFacts] prove them.
    - Sniffing: [Sniffing] (what the sniffers share), [RangeList] (a set of
      byte ranges, [common/protocol/quic/]), [SniffTls] ([common/protocol/tls/]),
      [SniffQuic] ([common/protocol/quic/]), [SniffHttp] (HTTP, BitTorrent and
      DNS), [NetText] (addresses and destinations as text) and [Sniffer]
      ([app/dispatcher/sniffer.go] and the cached reader of the dispatcher).
      [SniffQuicFacts] and [SnifferFacts] prove the last ones.
    - Handshakes: [Handshake] has the monad in which the proxies' handshakes
      are written, a connection's input, its reads and its writes, and the
      request headers and users they share ([common/protocol/]).  Two
      handshakes talk to each other in [talk], the least fixed point of what
      one writes and the other reads.  [Users] has UUIDs and the validators
      ([common/uuid/], [proxy/trojan/validator.go],
      [proxy/vless/validator.go]); over these stand [Socks] ([proxy/socks/]),
      [Trojan] ([proxy/trojan/]), [Vless] ([proxy/vless/encoding/] and the
      inbound's and outbound's processing), [Vision] (the padding of XTLS
      Vision, [proxy/vless/encoding/vision.go]) with [VisionSession] (one
      write) and [VisionStream] (all writes of one end and all reads of the
      other), and
      [Fallback] (where an inbound sends what is not its own protocol,
      [proxy/vless/inbound/inbound.go] and [proxy/trojan/server.go]).
    - The DNS client ([app/dns/]): [Dns] (configuration, static hosts, domain
      rules, the order of the name servers, lookups and raw queries),
      [DnsCache] (the classic name server's cache, pending requests and
      responses) and [DnsTasks] (closing against running lookups), proved
      in [DnsFacts] and in the files themselves.
    - CONNECT-IP ([proxy/masque/internal/connectip/]): [NetIp] has the
      standard library's addresses and prefixes; [ConnectIp] the ranges of
      addresses and the three capsules that assign, ask for and advertise
      them ([iprange.go], [capsule.go]); [ConnectIpPackets] the IP packets
      that pass through a tunnel ([ip.go], [ipv4.go], [ipv6.go], [icmp.go],
      and the packets of [conn.go]); [ConnectIpConn] a connection, its
      queues, its requests and the turns of its goroutines ([conn.go],
      [address.go]); [ConnectIpSystem] two connections with the streams
      between them.  [ConnectIpFacts] proves the capsules, [ConnectIpRoutes]
      the order of routes and the prefixes of a range, and
      [ConnectIpPacketsFacts] the packets.
    - UDP over HTTP capsules ([proxy/http3/capsule.go], the same code as
      [proxy/http/capsule.go]): [Capsule].
    - The upload queue of XHTTP ([transport/internet/splithttp/]):
      [XhttpQueue], over the standard library's [container/heap] in [Heap].

    The parts meet where the code's do: segments carry buffers; the sender and
    the receiver are the fields of a connection, whose state machine calls
    them; the index matchers are built from the groups; the fake DNS pool
    keeps its names in the LRU cache and hands out addresses; the codec reads
    through a buffer and mux frames carry targets in it; a rule's domains are an
    index matcher, its balancer selects from the outbound manager, and the
    dispatcher asks the router and then the manager; the sniffers read what the
    dispatcher has cached from the pipe; the handshakes read and write
    addresses through the codec and find users in the validators; the DNS
    client finds its rules with the index matchers, its expected addresses
    with the router's sets and its fake servers with the fake DNS pool; a
    connection of CONNECT-IP queues what the capsules' writers make, learns
    from what their parsers read, and its packets are judged by what it has
    learnt.  Facts about a client are proved from the facts of what it calls.

    ** Conventions

    State is a record passed and returned.  Mutated structures are new
    records; where two names share one object the model has a store: LRU
    elements are numbers in a map because two hash maps and a list share
    them, holders of fake DNS are positions in a list because groups share
    them, a trie or automaton node is its index.  Integers are [Z] with every
    wrap-around written out ([u16], [u32], [i32]).  A call that may fail
    returns an [outcome], whose [Panic] is a Go panic, or an option where the
    only failure is said beside it.  Code outside the repository is a
    parameter: the regular expressions, Punycode and Unicode tables
    ([StringLibs]), the runtime's memory hash ([MphRuntime]), the unstable
    sort ([SortSlice]), the order of a map's range ([MapRange]), AEAD ciphers
    ([AEAD] with [AEADLaws], and [Cipher] with [CipherLaws] in
    [AuthStream]), the mask stream of VMess, sets of addresses ([NetIPX] with [NetIPXLaws]),
    the DNS client's answers ([DnsClient]), the observatory's reports
    ([Observatory]), the header protection and ciphers of QUIC ([QuicCrypto]),
    the parser of DNS messages ([DnsMessages]), hashes of passwords and names
    (arguments of the validators and the Trojan client), the protobuf codec of
    VLESS add-ons ([AddonsCodec]), what lies in arrays that come from a
    pool and what random draws give, the answers of name servers and the DNS
    library's messages (arguments of the lookups), the numbers of QUIC and the
    HTTP capsules around them ([QuicVarint] with [QuicVarintLaws],
    [CapsuleParser] with [CapsuleParserLaws]), the ICMP library and the
    connections that dialing gives (arguments), and what a processor makes of
    a float out of range ([FloatOverflow]).  The language's
    own library is modelled: [encoding/binary], [net], [net/netip], [math/big], FNV,
    [container/list], [container/heap], and floating point as the standard library's IEEE 754
    numbers.

    A loop whose end is a property of the data has fuel.  Where the bound is
    simple it is passed by the caller and the theorem says it is enough: the
    packet's length for [read_segments], twice the number of nodes for a fail
    path, the number of nodes for the breadth-first build ([ac_Build_terminates]),
    one turn more than the cache's size for the search of a free address
    ([fake_dns_always_answers]), eight groups for an IPv6 address, one turn per
    byte for the loops of the sniffers, where running out is the outcome
    [Panic] that [content_sniffers_never_panic] excludes.  The handshakes'
    loops have one turn more than their buffer has bytes ([until_null],
    [unpad_loop]) or one per byte that is there ([complete_loop],
    [read_packet]); the static hosts follow a name five times, as the code
    does ([hosts_lookup]); the linear index takes one turn more than the name
    has bytes.  The capsules' loops have one turn more than the payload has
    bytes, the chain of IPv6 extension headers one more than the packet, a
    checksum is folded three times, which is enough for 32 bits, and a range
    of addresses has two prefixes for each length at most
    ([range_prefixes_exact]); a read of the upload queue pops each packet of
    the heap once.  Loops that
    may run for ever return [None] without enough fuel; [mph_Build_terminates]
    shows that a seed is found when the memory hash has one, and
    [substr_empty_pattern_diverges] that the substring scan never ends on an
    empty pattern.

    ** What the theorems show

    - Matching: each group returns what its specification, a filter of the
      registered patterns, says ([domain_trie_is_reference],
      [substr_Match_is_reference], [mph_Match_is_reference],
      [ac_Match_correct]), and the two index matchers agree
      ([index_matchers_agree]).  The automaton may repeat a value
      ([ac_Match_repeats_values]).
    - Wire formats: segments, packets and the authenticator round-trip
      ([segment_read_write], [packet_read_write], [simple_authenticator_exact]);
      addresses and ports do too ([address_port_roundtrip]), and reading one
      never panics ([read_address_never_panics]); the same for the frames of
      the multiplexer ([mux_frame_roundtrip], [mux_unmarshal_never_panics]); a
      chunk stream gives back what was written ([chunk_stream_roundtrip]), and
      so does an authenticated one for every codec with [AuthCodecLaws], of
      which there are three instances ([auth_stream_roundtrip]); increasing
      nonces do not come again before all have come
      ([increasing_nonces_count]).
    - mKCP: over a network that loses, repeats and reorders packets the reader
      gets a prefix of what was written, each byte once
      ([kcp_exactly_once_in_order]); nothing is forgotten before it arrived
      ([kcp_keeps_until_received]); and no state is a dead end
      ([kcp_can_always_finish]).  The operations are characterised one by one
      ([sending_acks_exact], [sending_flush_writes_due],
      [receiver_reads_longest_run], [acklist_flush_exact],
      [write_cuts_losslessly]), the estimator never wraps
      ([rtt_estimator_exact]).  Operations that run one after another move a
      connection's state only forward; however n of them interleave, each
      store follows from the state its operation loaded, and there are at most
      n + n^2 + n^3 + n^4 of them ([connection_state_machine]).  A closing
      connection ends ([closing_terminates], for whole operations).
    - Buffers and pipe: the buffer lists are queues of bytes
      ([multibuffer_fifo], [split_size_partition],
      [compact_preserves_or_panics]); the pipe delivers every write once and
      in order in every interleaving ([pipe_fifo]), loses no wake-up
      ([pipe_no_lost_wakeup]) and is bounded ([pipe_bounded]).
    - Caches: the LRU cache refines a list in order of use
      ([lru_refines_list]); the fake DNS pool always answers
      ([fake_dns_always_answers]), leads back to the right name
      ([fake_dns_roundtrip]), and pools are disjoint ([fake_pools_disjoint]).
    - Routing: a rule applies when every field that is set accepts the
      connection ([rule_applies_as_configured]); the first such rule is taken
      ([router_takes_first_accepting_rule]); a balancer picks a tag it may
      pick ([balancer_picks_known_tag], [least_load_selects_cheapest],
      [least_ping_picks_least]); the default outbound is a registered one
      ([manager_default_registered]); and a connection is served by a
      registered outbound or refused for a reason, and panics only where a
      balancer's strategy cannot observe ([dispatch_serves_or_refuses],
      [missing_observatory_panics]).
    - Sniffing: the name in a TLS hello is found however the hello is cut into
      records and reads ([tls_server_name_found]), and in a QUIC hello whose
      pieces come in any order ([quic_hello_reassembled]); the connection is
      then routed by it ([tls_target_is_sniffed]).  Looking at the stream
      changes nothing of it ([sniffing_keeps_the_stream]) and the sniffers of
      streams never panic ([content_sniffers_never_panic]).
    - Handshakes: the two ends of SOCKS 5 agree on user, target and outcome
      ([socks5_handshake_agrees]), the SOCKS server never panics on what a
      client sends ([socks_server_never_panics]), and its packets come back
      ([socks_udp_roundtrip]); what a Trojan or VLESS client writes the
      server reads ([trojan_stream_roundtrip], [trojan_packets_roundtrip],
      [vless_header_roundtrip], [vless_packets_roundtrip]); what is not VLESS
      goes to the fallback as it came ([vless_fallback_untouched]), which is
      the one the configuration names ([fallback_chooses]) and is found
      whenever there is one for everything ([fallback_always_found]); Vision's
      padding is taken off exactly ([vision_unpadding_exact]) and the stream
      is the same behind it, in whatever pieces it comes that do not end inside
      the head of the last block ([vision_stream_roundtrip]); complete TLS records
      are recognised ([complete_records_recognised]); a validator is the list
      of its users ([validator_is_user_list]).
    - DNS: the clients are asked in the order of rules and configuration
      ([dns_order]); a lookup returns exactly the addresses of the hosts or
      of the first client in that order whose answer counts, of the families
      asked for and expected ([dns_lookup_returns]); what the cache answers was
      made of a message received for the same question, and has not expired
      ([cache_answers_sound]); closing the client is safe when no lookup is on
      its threshold ([calm_close]).
    - CONNECT-IP: the capsules come back as they were written and are checked
      when they are read ([connect_ip_capsules_roundtrip],
      [connect_ip_capsules_checked]); the routes that are accepted are those
      that are ordered and disjoint ([routes_accepted_exactly]) and a range
      is cut into prefixes exactly ([range_prefixes_exact]); two ends that
      have nothing under way, and none of whose streams broke, know the same of
      each other and no operation of theirs panics ([tunnel_states_agree]), and then the packets that one
      lets out, the other lets in ([tunnel_ends_agree]).
    - UDP packets come back out of their capsules ([udp_capsules_roundtrip]),
      and an upload of XHTTP is read in order ([xhttp_upload_in_order]).
    - What modelling found is stated as theorems too:
      [quic_close_frame_panics], [tls_longer_second_record_missed],
      [clock_tick_skips_terminating], [fresh_segments_stall],
      [lru_overwrite_leaves_stale_reverse], [mph_full_leading_dot_matches],
      [router_close_races], [fallback_follows_the_map],
      [vision_split_head_is_content], [filter_cuts_behind_array],
      [socks4_setting_speaks_socks5], [socks_long_source_panics],
      [shared_key_locks_out], [default_not_reached], [tie_by_order],
      [local_client_never_asked], [raw_id_lost], [last_ttl_counts],
      [empty_address_panics], [record_lost], [late_record_panics],
      [close_twice], [late_lookup], [routed_source_refused],
      [repeated_packet_read_twice], [closing_drops_data],
      [negative_buffer_panics], [oversize_packet_desynchronises],
      [short_chunk_panics], [chunk_nonces_repeat],
      [stale_flush_restarts_termination], [second_flush_resets_the_time],
      [missing_observatory_panics], [close_loses_capsules].

    ** Not modelled

    Sockets, TLS, QUIC and HTTP stacks, generated protobuf code, configuration
    loading and dependency injection are third-party code or glue around it.
    Of the program's own code the encryption of VLESS, the headers of VMess
    and Shadowsocks and the further proxies, the DNS transports over TCP, HTTPS and QUIC, the
    stream transports, the inbound manager's workers and the small
    applications (policy, statistics, observatory, commander) are left out.
    Goroutines are modelled where their interleaving matters (the pipe, the
    operations of an mKCP connection, the two ends of an mKCP link and of a
    CONNECT-IP tunnel, the upload queue of
    XHTTP, the closing of the router and of the DNS client, the cache of a
    name server); elsewhere a mutex makes a call one step. *)

From stdpp Require Export base tactics list gmap option numbers sorting.
From stdpp Require Export strings.
From Stdlib Require Export ZArith Lia Init.Byte.
From Stdlib Require Strings.Byte.

(** ** Notations and automation of the development *)

Declare Scope go_scope.
Delimit Scope go_scope with go.

(** Go byte slices and strings are both lists of bytes here. *)
Abbreviation bytes := (list byte).

(** Every integer of the Go program is a [Z]; [solve_wrap] exposes division
    and remainder to [lia], so that wrap-around is decided where it occurs. *)
Ltac solve_wrap := Z.div_mod_to_equations; lia.

(** Case analysis on the scrutinee of the goal's or a hypothesis' match, and
    on a [decide] test, followed by stdpp's simplification. *)
Ltac case_matches :=
  repeat (case_match || case_decide || case_bool_decide); simplify_eq/=; try done.

Create HintDb go.
Create Rewrite HintDb go_rw.

(** ** Fixed-width integers *)

Section Widths.
Local Open Scope Z_scope.

Definition u8 (z : Z) : Z := z mod 2 ^ 8.
Definition u16 (z : Z) : Z := z mod 2 ^ 16.
Definition u32 (z : Z) : Z := z mod 2 ^ 32.
Definition u64 (z : Z) : Z := z mod 2 ^ 64.
(** Two's complement reading of a 32-bit pattern, Go's [int32(z)]. *)
Definition i32 (z : Z) : Z := (z + 2 ^ 31) mod 2 ^ 32 - 2 ^ 31.

Lemma u8_range z : 0 <= u8 z < 2 ^ 8.
Proof. apply Z.mod_pos_bound; lia. Qed.
Lemma u16_range z : 0 <= u16 z < 2 ^ 16.
Proof. apply Z.mod_pos_bound; lia. Qed.
Lemma u32_range z : 0 <= u32 z < 2 ^ 32.
Proof. apply Z.mod_pos_bound; lia. Qed.
Lemma u16_small z : 0 <= z < 2 ^ 16 -> u16 z = z.
Proof. apply Z.mod_small. Qed.
Lemma u32_small z : 0 <= z < 2 ^ 32 -> u32 z = z.
Proof. apply Z.mod_small. Qed.
Lemma i32_small z : - 2 ^ 31 <= z < 2 ^ 31 -> i32 z = z.
Proof. intros. unfold i32. rewrite Z.mod_small; lia. Qed.
Lemma u32_u32 z : u32 (u32 z) = u32 z.
Proof. apply Z.mod_mod. lia. Qed.
End Widths.

#[export] Hint Resolve u8_range u16_range u32_range : go.
#[export] Hint Rewrite u16_small u32_small i32_small using lia : go_rw.

(** ** Bytes *)

Definition byte_to_Z (b : byte) : Z := Z.of_N (Byte.to_N b).
Definition byte_of_Z (z : Z) : byte := default x00 (Byte.of_N (Z.to_N (u8 z))).

(** A Go string literal. *)
Definition bs (s : string) : bytes := String.list_byte_of_string s.
Arguments bs s%_string_scope.

#[export] Instance byte_eq_dec : EqDecision byte.
Proof.
  intros a b. destruct (Byte.eqb a b) eqn:E.
  - left. by apply Byte.byte_dec_bl.
  - right. intros ->. pose proof (Byte.byte_dec_lb (x:=b) (y:=b) eq_refl). congruence.
Defined.

Lemma byte_to_Z_range b : (0 <= byte_to_Z b < 256)%Z.
Proof. unfold byte_to_Z. pose proof (Byte.to_N_bounded b). lia. Qed.

Lemma byte_of_to_Z b : byte_of_Z (byte_to_Z b) = b.
Proof.
  unfold byte_of_Z, u8. rewrite Z.mod_small by apply byte_to_Z_range.
  unfold byte_to_Z. rewrite N2Z.id, Byte.of_to_N. done.
Qed.

Lemma byte_to_of_Z z : byte_to_Z (byte_of_Z z) = u8 z.
Proof.
  unfold byte_of_Z. pose proof (u8_range z) as Hz.
  destruct (Byte.of_N _) as [b|] eqn:E; simpl.
  - apply Byte.to_of_N in E. unfold byte_to_Z. rewrite E. lia.
  - apply Byte.of_N_None_iff in E. lia.
Qed.

#[export] Instance byte_countable : Countable byte.
Proof. apply (inj_countable' byte_to_Z byte_of_Z), byte_of_to_Z. Defined.

#[export] Instance byte_inhabited : Inhabited byte := populate x00.

#[export] Instance byte_to_Z_inj : Inj (=) (=) byte_to_Z.
Proof. intros a b H. by rewrite <-(byte_of_to_Z a), H, byte_of_to_Z. Qed.

#[export] Hint Resolve byte_to_Z_range : go.

(** ** Outcomes: Go's value or error return, and panics *)

Inductive outcome (E A : Type) :=
  | Ok (a : A)
  | Err (e : E)
  | Panic.
Arguments Ok {E A} a.
Arguments Err {E A} e.
Arguments Panic {E A}.

#[export] Instance outcome_ret E : MRet (outcome E) := fun A a => Ok a.
#[export] Instance outcome_bind E : MBind (outcome E) := fun A B f m =>
  match m with Ok a => f a | Err e => Err e | Panic => Panic end.
#[export] Instance outcome_fmap E : FMap (outcome E) := fun A B f m =>
  match m with Ok a => Ok (f a) | Err e => Err e | Panic => Panic end.

Lemma outcome_bind_ok {E A B} (f : A -> outcome E B) m b :
  m ≫= f = Ok b <-> exists a, m = Ok a /\ f a = Ok b.
Proof.
  split; [|by intros (a & -> & H)]. destruct m; simpl; [by eauto|done..].
Qed.

#[export] Instance Ok_inj {E A} : Inj (=) (=) (@Ok E A).
Proof. by intros a b [= ->]. Qed.

(** ** Slices *)

(** [b[lo:hi]] with Go's bounds check, for a slice whose capacity is its
    length; [None] is the run-time panic. *)
Definition slice {A} (lo hi : Z) (b : list A) : option (list A) :=
  if decide (0 <= lo /\ lo <= hi /\ hi <= Z.of_nat (length b))%Z
  then Some (take (Z.to_nat hi - Z.to_nat lo) (drop (Z.to_nat lo) b))
  else None.

Lemma slice_ok {A} lo hi (b : list A) :
  (0 <= lo)%Z -> (lo <= hi)%Z -> (hi <= Z.of_nat (length b))%Z ->
  slice lo hi b = Some (take (Z.to_nat (hi - lo)) (drop (Z.to_nat lo) b)).
Proof.
  intros. unfold slice. rewrite decide_True by done. do 2 f_equal. lia.
Qed.

(** For examples: a computation known to succeed equals its own result. *)
Lemma some_default {A} (d : A) (x : option A) :
  (if x then true else false) = true -> x = Some (default d x).
Proof. by destruct x. Qed.

(** ** Lists *)

(** Overwrite the elements of [l] from position [at_] with [src], the effect
    of Go's [copy(l[at_:], src)] when it fits. *)
Definition splice {A} (at_ : nat) (src l : list A) : list A :=
  take at_ l ++ src ++ drop (at_ + length src) l.

Lemma length_splice {A} at_ (src l : list A) :
  at_ + length src <= length l -> length (splice at_ src l) = length l.
Proof.
  intros. unfold splice. rewrite !length_app, length_take, length_drop. lia.
Qed.

Lemma drop_splice {A} at_ (src l : list A) :
  at_ <= length l -> drop at_ (splice at_ src l) = src ++ drop (at_ + length src) l.
Proof.
  intros. unfold splice. rewrite drop_app_ge by (rewrite length_take; lia).
  rewrite length_take. replace (at_ - _) with 0 by lia. done.
Qed.

Lemma take_splice {A} n at_ (src l : list A) :
  n <= at_ -> at_ <= length l -> take n (splice at_ src l) = take n l.
Proof.
  intros. unfold splice. rewrite take_app_le by (rewrite length_take; lia).
  rewrite take_take. f_equal. lia.
Qed.

Lemma concat_app {A} (l1 l2 : list (list A)) :
  concat (l1 ++ l2) = concat l1 ++ concat l2.
Proof. induction l1; simpl; [done|]. by rewrite IHl1, (assoc_L (++)). Qed.

Lemma elem_of_concat {A} (x : A) (ls : list (list A)) :
  x ∈ concat ls <-> exists l, x ∈ l /\ l ∈ ls.
Proof.
  induction ls as [|l ls IH]; simpl.
  - split; [by intros ?%not_elem_of_nil|]. by intros (? & _ & ?%not_elem_of_nil).
  - rewrite elem_of_app, IH. setoid_rewrite elem_of_cons. naive_solver.
Qed.

Lemma existsb_map {A B} (f : B -> bool) (g : A -> B) l : existsb f (map g l) = existsb (fun x => f (g x)) l.
Proof. induction l as [|x l IH]; [done|]. cbn [map existsb]. by rewrite IH. Qed.

Lemma existsb_filter {A} (P : A -> Prop) `{!forall x, Decision (P x)} (f : A -> bool) l : (forall x, f x = true -> P x) -> existsb f (filter P l) = existsb f l.
Proof.
  intros Hf. induction l as [|x l IH]; [done|]. rewrite filter_cons. case_decide as Hx; cbn [existsb]; [by rewrite IH|].
  rewrite IH. by destruct (f x) eqn:Hfx; [destruct Hx; apply Hf|].
Qed.

Lemma filter_none {A} (P : A -> Prop) `{forall x, Decision (P x)} (l : list A) :
  (forall x, x ∈ l -> ~ P x) -> filter P l = [].
Proof.
  induction l as [|x l IH]; intros Hl; [done|]. rewrite filter_cons, decide_False.
  - apply IH. intros. apply Hl. by right.
  - apply Hl. by left.
Qed.

(** The first element that passes a test. *)
Lemma head_filter_Some {A} (f : A -> bool) l x : head (filter (fun y => f y = true) l) = Some x <->
  exists before after, l = before ++ x :: after /\ f x = true /\ Forall (fun y => f y = false) before.
Proof.
  split.
  - induction l as [|y l IH]; [done|]. rewrite filter_cons. case_decide as Hd.
    + intros [= ->]. by exists [], l.
    + intros (before & after & -> & ? & ?)%IH. exists (y :: before), after. split; [done|]. split; [done|]. constructor; [by destruct (f y)|done].
  - intros (before & after & -> & Hx & Hb). rewrite filter_app, (filter_none _ before).
    + cbn [app]. by rewrite filter_cons, decide_True.
    + rewrite Forall_forall in Hb. intros y Hy. by rewrite (Hb y Hy).
Qed.

Lemma length_snoc {A} (l : list A) x : length (l ++ [x]) = S (length l).
Proof. rewrite length_app. simpl. lia. Qed.

(** Rotating the last element of a [rev] in and out. *)
Lemma rev_snoc {A} (x : A) l : rev (l ++ [x]) = x :: rev l.
Proof. apply rev_app_distr. Qed.

Lemma elem_of_rev {A} (x : A) l : x ∈ rev l <-> x ∈ l.
Proof. by rewrite !list_elem_of_In, <-in_rev. Qed.

Lemma nonempty_elem {A} (l : list A) : l ≠ [] <-> exists x, x ∈ l.
Proof.
  destruct l as [|x l]; split; try done.
  - by intros [x ?%not_elem_of_nil].
  - intros _. exists x. by left.
Qed.

Lemma exists_swap {A B} (P : A -> B -> Prop) : (exists a b, P a b) <-> (exists b a, P a b).
Proof. naive_solver. Qed.

Lemma snoc_inj {A} (l k : list A) x y : l ++ [x] = k ++ [y] -> l = k /\ x = y.
Proof. intros [? [= ?]]%app_inj_2; done. Qed.

Lemma Forall_rev_iff {A} (P : A -> Prop) l : Forall P (rev l) <-> Forall P l.
Proof. rewrite !Forall_forall. by setoid_rewrite elem_of_rev. Qed.

Lemma rev_eq {A} (l k : list A) : rev l = k <-> l = rev k.
Proof. split; [intros <-|intros ->]; by rewrite rev_involutive. Qed.

(** A list built block by block from a sorted list of block names is sorted
    when the blocks are, and when they are ordered as their names. *)
Lemma StronglySorted_bind {A B} (R : relation B) (S : relation A) (f : A -> list B) l :
  StronglySorted S l ->
  (forall x, x ∈ l -> StronglySorted R (f x)) ->
  (forall x y a b, x ∈ l -> y ∈ l -> S x y -> a ∈ f x -> b ∈ f y -> R a b) ->
  StronglySorted R (l ≫= f).
Proof.
  intros Hs. induction Hs as [|x l _ IH Hx]; intros Hf Hr; simpl; [constructor|].
  apply StronglySorted_app_2.
  - intros a b Ha Hb. apply list_elem_of_bind in Hb as (y & Hb & Hy).
    rewrite Forall_forall in Hx. eapply (Hr x y); [by left|by right|by apply Hx|done|done].
  - apply Hf. by left.
  - apply IH; [intros; apply Hf; by right|]. intros y z a b Hy Hz. apply Hr; by right.
Qed.

Lemma StronglySorted_seq i n : StronglySorted lt (seq i n).
Proof.
  revert i. induction n as [|n IH]; intros i; simpl; constructor; [apply IH|].
  apply Forall_forall. intros j ?%elem_of_seq. lia.
Qed.

Lemma StronglySorted_filter {A} (R : relation A) (P : A -> Prop) `{forall x, Decision (P x)} (l : list A) :
  StronglySorted R l -> StronglySorted R (filter P l).
Proof.
  induction 1 as [|x l _ IH Hx]; [constructor|]. rewrite filter_cons. case_decide; [|done].
  constructor; [done|]. apply Forall_forall. intros y [_ Hy]%list_elem_of_filter.
  rewrite Forall_forall in Hx. by apply Hx.
Qed.

Lemma StronglySorted_mono {A} (R S : relation A) l :
  (forall x y, R x y -> S x y) -> StronglySorted R l -> StronglySorted S l.
Proof.
  intros HRS. induction 1 as [|x l _ IH Hx]; constructor; [done|].
  eapply Forall_impl; [done|]. simpl. auto.
Qed.

Lemma StronglySorted_NoDup {A} (R : relation A) `{!Irreflexive R} l :
  StronglySorted R l -> NoDup l.
Proof.
  induction 1 as [|x l _ IH Hx]; constructor; [|done].
  rewrite Forall_forall in Hx. intros Hin. by apply (irreflexivity R x), Hx.
Qed.

Lemma fmap_filter_ext {A B} (f g : A -> B) (P Q : A -> Prop)
    `{forall x, Decision (P x)} `{forall x, Decision (Q x)} (l : list A) :
  (forall x, x ∈ l -> (P x <-> Q x) /\ f x = g x) -> f <$> filter P l = g <$> filter Q l.
Proof.
  induction l as [|x l IH]; intros Hl; [done|]. rewrite !filter_cons.
  destruct (Hl x) as [HPQ Hfg]; [by left|].
  assert (f <$> filter P l = g <$> filter Q l) as IHl by (apply IH; intros; apply Hl; by right).
  destruct (decide (P x)), (decide (Q x)); rewrite ?fmap_cons, ?Hfg, ?IHl; first [done|tauto].
Qed.

Lemma map_bind {A B C} (f : B -> C) (g : A -> list B) (l : list A) :
  map f (l ≫= g) = l ≫= (fun x => map f (g x)).
Proof.
  induction l as [|x l IH]; [done|]. change (map f (g x ++ (l ≫= g)) = map f (g x) ++ (l ≫= (fun x => map f (g x)))).
  by rewrite map_app, IH.
Qed.

Lemma bind_ext_in {A B} (f g : A -> list B) (l : list A) :
  (forall x, x ∈ l -> f x = g x) -> l ≫= f = l ≫= g.
Proof.
  induction l as [|x l IH]; intros Hfg; simpl; [done|].
  rewrite Hfg by left. f_equal. apply IH. intros. apply Hfg. by right.
Qed.

Lemma length_omap_le {A B} (f : A -> option B) (l : list A) : length (omap f l) <= length l.
Proof. induction l as [|x l IH]; [done|]. csimpl. destruct (f x); csimpl; lia. Qed.

Lemma bind_nil_r {A B} (l : list A) : l ≫= (fun _ => @nil B) = [].
Proof. by induction l. Qed.

Lemma bind_singleton {A B} (f : A -> B) (l : list A) : l ≫= (fun x => [f x]) = f <$> l.
Proof. induction l as [|x l IH]; [done|]. by rewrite fmap_cons, <-IH. Qed.

(** ** Package [sort] *)

(** [sort.Slice] is not stable: any function that permutes its argument into
    an order where no element is less than an earlier one. *)
Class SortSlice := {
  sort_Slice : forall {A : Type}, (A -> A -> bool) -> list A -> list A;
  sort_Slice_perm : forall {A : Type} (less : A -> A -> bool) l, sort_Slice less l ≡ₚ l;
  sort_Slice_sorted : forall {A : Type} (less : A -> A -> bool) l,
    (forall a b, less b a = false \/ less a b = false) ->
    (forall a b c, less b a = false -> less c b = false -> less c a = false) ->
    StronglySorted (fun a b => less b a = false) (sort_Slice less l);
}.

(** Merge sort is such a function. *)
Section MergeSort.
Context {A : Type} (less : A -> A -> bool).
Definition not_greater (a b : A) : Prop := less b a = false.
#[local] Instance not_greater_dec : RelDecision not_greater.
Proof. intros a b. unfold not_greater. apply _. Defined.
Definition merge_sort_less (l : list A) : list A := merge_sort not_greater l.
Lemma merge_sort_less_perm l : merge_sort_less l ≡ₚ l.
Proof. apply merge_sort_Permutation. Qed.
Lemma merge_sort_less_sorted l :
  (forall a b, less b a = false \/ less a b = false) ->
  (forall a b c, less b a = false -> less c b = false -> less c a = false) ->
  StronglySorted not_greater (merge_sort_less l).
Proof.
  intros Htot Htrans. apply StronglySorted_merge_sort; [|intros a b; apply Htot].
  intros a b c. apply Htrans.
Qed.
End MergeSort.

Definition merge_sort_slice : SortSlice := {|
  sort_Slice := @merge_sort_less;
  sort_Slice_perm := @merge_sort_less_perm;
  sort_Slice_sorted := @merge_sort_less_sorted;
|}.

(** ** Big-endian integers, [encoding/binary] *)

Section BigEndian.
Local Open Scope Z_scope.

(** [be_split n z] is the [n]-byte big-endian encoding of [z]. *)
Fixpoint be_split (n : nat) (z : Z) : bytes :=
  match n with
  | O => []
  | S n' => byte_of_Z (Z.shiftr z (8 * Z.of_nat n')) :: be_split n' z
  end.

Definition be_combine (b : bytes) : Z :=
  foldl (fun acc x => Z.lor (Z.shiftl acc 8) (byte_to_Z x)) 0 b.

(** The same value as sums, which [lia] understands. *)
Definition be_sum (b : bytes) : Z := foldl (fun acc x => acc * 256 + byte_to_Z x) 0 b.

Lemma lor_byte_add acc x : Z.lor (Z.shiftl acc 8) (byte_to_Z x) = acc * 256 + byte_to_Z x.
Proof.
  rewrite Z.shiftl_mul_pow2 by lia.
  pose proof (byte_to_Z_range x) as Hx.
  pose proof (Z.add_lor_land (acc * 2 ^ 8) (byte_to_Z x)) as Hsum.
  enough (Z.land (acc * 2 ^ 8) (byte_to_Z x) = 0) by lia.
  apply Z.bits_inj'. intros n Hn. rewrite Z.land_spec, Z.bits_0.
  destruct (decide (n < 8)).
  - by rewrite Z.mul_pow2_bits_low.
  - rewrite (Z.bits_above_log2 (byte_to_Z x)), andb_false_r; [done|lia|].
    destruct (decide (byte_to_Z x = 0)) as [->|]; [simpl; lia|].
    apply Z.log2_lt_pow2; [lia|]. apply Z.lt_le_trans with (2 ^ 8); [lia|].
    apply Z.pow_le_mono_r; lia.
Qed.

Lemma be_combine_sum b : be_combine b = be_sum b.
Proof.
  unfold be_combine, be_sum. generalize 0. induction b as [|x b IH]; intros acc; simpl;
    [done|]. by rewrite lor_byte_add, IH.
Qed.

Lemma be_sum_acc b acc :
  foldl (fun acc x => acc * 256 + byte_to_Z x) acc b = acc * 256 ^ Z.of_nat (length b) + be_sum b.
Proof.
  revert acc. induction b as [|x b IH]; intros acc; [unfold be_sum; simpl; lia|].
  unfold be_sum. simpl foldl. rewrite !IH. cbn [length].
  rewrite Nat2Z.inj_succ, Z.pow_succ_r by lia. lia.
Qed.

Lemma be_sum_split n z : be_sum (be_split n z) = z mod 256 ^ Z.of_nat n.
Proof.
  induction n as [|n IH]; [unfold be_sum; simpl; by rewrite Z.mod_1_r|].
  cbn [be_split]. unfold be_sum. simpl foldl. rewrite be_sum_acc, IH, byte_to_of_Z.
  assert (length (be_split n z) = n) as -> by (clear; induction n; simpl; auto).
  rewrite Nat2Z.inj_succ, Z.pow_succ_r by lia.
  rewrite Z.shiftr_div_pow2 by lia. unfold u8.
  replace (2 ^ (8 * Z.of_nat n)) with (256 ^ Z.of_nat n)
    by (rewrite Z.pow_mul_r by lia; done).
  change (2 ^ 8) with 256. rewrite (Z.mul_comm 256), Z.rem_mul_r by lia. lia.
Qed.

Lemma length_be_split n z : length (be_split n z) = n.
Proof. induction n; simpl; auto. Qed.

Lemma be_combine_split n z : be_combine (be_split n z) = z mod 256 ^ Z.of_nat n.
Proof. by rewrite be_combine_sum, be_sum_split. Qed.

Lemma be_combine_range b : 0 <= be_combine b < 256 ^ Z.of_nat (length b).
Proof.
  rewrite be_combine_sum. induction b as [|x b IH]; [unfold be_sum; simpl; lia|].
  unfold be_sum. simpl foldl. rewrite be_sum_acc. cbn [length].
  rewrite Nat2Z.inj_succ, Z.pow_succ_r by lia.
  pose proof (byte_to_Z_range x). nia.
Qed.

Lemma be_split_combine n b : length b = n -> be_split n (be_combine b) = b.
Proof.
  rewrite be_combine_sum. intros <-. induction b as [|x b IH]; [done|]. cbn [length be_split].
  pose proof (be_combine_range b) as Hr. rewrite be_combine_sum in Hr.
  assert (be_sum (x :: b) = byte_to_Z x * 256 ^ Z.of_nat (length b) + be_sum b) as ->.
  { unfold be_sum. cbn [foldl]. rewrite be_sum_acc. unfold be_sum. lia. }
  set (s := be_sum b) in *. set (k := length b) in *. set (p := 256 ^ Z.of_nat k) in *.
  assert (0 < p) by (unfold p; apply Z.pow_pos_nonneg; lia).
  assert (2 ^ (8 * Z.of_nat k) = p) as Hp by (unfold p; rewrite Z.pow_mul_r by lia; done).
  f_equal.
  - rewrite Z.shiftr_div_pow2, Hp by lia.
    rewrite Z.div_add_l, (Z.div_small s p), Z.add_0_r by lia. apply byte_of_to_Z.
  - rewrite <-IH. fold s k. clear IH Hr.
    assert (forall m, (m <= k)%nat -> be_split m (byte_to_Z x * p + s) = be_split m s) as Hm; [|by apply Hm].
    induction m as [|m IH]; intros Hm; [done|]. cbn [be_split]. rewrite IH by lia. f_equal.
    apply (inj byte_to_Z). rewrite !byte_to_of_Z, !Z.shiftr_div_pow2 by lia. unfold u8.
    assert (p = 2 ^ (8 * Z.of_nat m) * (2 ^ 8 * 2 ^ (8 * Z.of_nat (k - S m)))) as ->.
    { rewrite <-Hp, <-!Z.pow_add_r by lia. f_equal. lia. }
    replace (byte_to_Z x * (2 ^ (8 * Z.of_nat m) * (2 ^ 8 * 2 ^ (8 * Z.of_nat (k - S m)))) + s)
      with (s + (byte_to_Z x * 2 ^ (8 * Z.of_nat (k - S m)) * 2 ^ 8) * 2 ^ (8 * Z.of_nat m)) by lia.
    rewrite Z.div_add by (apply Z.pow_nonzero; lia). by rewrite Z.mod_add by lia.
Qed.

Lemma be_combine_snoc b x : be_combine (b ++ [x]) = Z.lor (Z.shiftl (be_combine b) 8) (byte_to_Z x).
Proof. unfold be_combine. by rewrite foldl_app. Qed.

Lemma be_combine_inj a b : length a = length b -> be_combine a = be_combine b -> a = b.
Proof. intros Hl He. rewrite <-(be_split_combine (length a) a), He, Hl by done. by apply be_split_combine. Qed.

(** [binary.BigEndian.PutUint16], [PutUint32] as the bytes they store, and
    [Uint16], [Uint32] on the first bytes of a slice. *)
Definition put16 (z : Z) : bytes := be_split 2 z.
Definition put32 (z : Z) : bytes := be_split 4 z.
Definition get16 (b : bytes) : Z := be_combine (take 2 b).
Definition get32 (b : bytes) : Z := be_combine (take 4 b).

Lemma get16_put16 z rest : get16 (put16 z ++ rest) = u16 z.
Proof.
  unfold get16, put16. rewrite take_app_le, take_ge by (rewrite length_be_split; lia).
  apply be_combine_split.
Qed.

Lemma get32_put32 z rest : get32 (put32 z ++ rest) = u32 z.
Proof.
  unfold get32, put32. rewrite take_app_le, take_ge by (rewrite length_be_split; lia).
  apply be_combine_split.
Qed.

Lemma drop_put16 z rest : drop 2 (put16 z ++ rest) = rest.
Proof. done. Qed.

Lemma drop_put32 z rest : drop 4 (put32 z ++ rest) = rest.
Proof. done. Qed.

Lemma length_put16 z : length (put16 z) = 2%nat.
Proof. apply length_be_split. Qed.

Lemma length_put32 z : length (put32 z) = 4%nat.
Proof. apply length_be_split. Qed.

Lemma get16_range b : 0 <= get16 b < 2 ^ 16.
Proof.
  unfold get16. pose proof (be_combine_range (take 2 b)) as H. rewrite length_take in H.
  assert (256 ^ Z.of_nat (2 `min` length b) <= 256 ^ 2) by (apply Z.pow_le_mono_r; lia).
  lia.
Qed.

Lemma get32_range b : 0 <= get32 b < 2 ^ 32.
Proof.
  unfold get32. pose proof (be_combine_range (take 4 b)) as H. rewrite length_take in H.
  assert (256 ^ Z.of_nat (4 `min` length b) <= 256 ^ 4) by (apply Z.pow_le_mono_r; lia).
  lia.
Qed.
End BigEndian.

#[export] Hint Rewrite get16_put16 get32_put32 drop_put16 drop_put32 : go_rw.
#[export] Hint Resolve get16_range get32_range : go.
#[global] Arguments put16 : simpl never.
#[global] Arguments put32 : simpl never.
#[global] Arguments get16 : simpl never.
#[global] Arguments get32 : simpl never.
