(* ===== verification/Matchers.v ===== *)
(** * Basic string matchers, [common/strmatcher/matchers.go]

    The four kinds of pattern ([Full], [Domain], [Substr], [Regex]), their
    [Match] methods, the constructors [Type.New] and [Type.NewDomainPattern]
    with the domain validation [ToDomain], and the two ways of flattening
    match lists.  The Go packages [regexp], [idna] and the Unicode case tables
    are outside the repository and are the methods of [StringLibs]. *)

From S2P Require Import Prelude.

(** ** Package [strings] *)

Definition HasSuffix (s suffix : bytes) : bool :=
  (length suffix <=? length s) && bool_decide (drop (length s - length suffix) s = suffix).

Definition HasPrefix (s prefix : bytes) : bool := bool_decide (take (length prefix) s = prefix).

(** [strings.LastIndex], searching downwards from position [k]. *)
Fixpoint last_index_from (s sub : bytes) (k : nat) : option nat :=
  if bool_decide (take (length sub) (drop k s) = sub) then Some k
  else match k with O => None | S k' => last_index_from s sub k' end.

Definition LastIndex (s sub : bytes) : option nat :=
  if length sub <=? length s then last_index_from s sub (length s - length sub) else None.

Definition Contains (s sub : bytes) : bool := bool_decide (is_Some (LastIndex s sub)).

Definition isASCII (b : byte) : bool := (byte_to_Z b <? 128)%Z.

(** What the matchers use of packages outside the repository: compiled
    regular expressions, Punycode, and the Unicode lower-case mapping that
    [strings.ToLower] falls back to on non-ASCII input. *)
Class StringLibs := {
  Regexp : Type;
  regexp_Compile : bytes -> option Regexp;
  regexp_MatchString : Regexp -> bytes -> bool;
  regexp_String : Regexp -> bytes;
  idna_Punycode_ToASCII : bytes -> option bytes;
  unicode_Map_ToLower : bytes -> bytes;
}.

(** An instance to evaluate examples with: a regular expression is a literal
    to be contained, Punycode fails, non-ASCII text has no case. *)
Definition ascii_libs : StringLibs := {|
  Regexp := bytes;
  regexp_Compile := Some;
  regexp_MatchString := fun re s => Contains s re;
  regexp_String := fun re => re;
  idna_Punycode_ToASCII := fun _ => None;
  unicode_Map_ToLower := fun s => s;
|}.

Definition lower_byte (b : byte) : byte :=
  let c := byte_to_Z b in
  if ((65 <=? c) && (c <=? 90))%Z then byte_of_Z (c + 32) else b.

Definition ToLower `{StringLibs} (s : bytes) : bytes :=
  if forallb isASCII s then map lower_byte s else unicode_Map_ToLower s.

(** ** Matcher types *)

(** src/common/strmatcher/strmatcher.go:4-15 Type *)
Inductive Type_ := Full | Domain | Substr | Regex | OtherType (t : Z).

#[export] Instance Type__eq_dec : EqDecision Type_.
Proof. solve_decision. Defined.

Section Matchers.
Context `{StringLibs}.

(** src/common/strmatcher/matchers.go:12-13 FullMatcher *)
Inductive Matcher :=
  | FullMatcher (pattern : bytes)
  | DomainMatcher (pattern : bytes)
  | SubstrMatcher (pattern : bytes)
  | RegexMatcher (pattern : Regexp).

(** src/common/strmatcher/matchers.go:15-17 Matcher.Type *)
Definition matcher_Type (m : Matcher) : Type_ :=
  match m with
  | FullMatcher _ => Full
  | DomainMatcher _ => Domain
  | SubstrMatcher _ => Substr
  | RegexMatcher _ => Regex
  end.

(** src/common/strmatcher/matchers.go:19-21 Matcher.Pattern *)
Definition matcher_Pattern (m : Matcher) : bytes :=
  match m with
  | FullMatcher p | DomainMatcher p | SubstrMatcher p => p
  | RegexMatcher re => regexp_String re
  end.

(** src/common/strmatcher/matchers.go:23-25 Matcher.String *)
Definition matcher_String (m : Matcher) : bytes :=
  match m with
  | FullMatcher _ => bs "full:"
  | DomainMatcher _ => bs "domain:"
  | SubstrMatcher _ => bs "keyword:"
  | RegexMatcher _ => bs "regexp:"
  end ++ matcher_Pattern m.

(** src/common/strmatcher/matchers.go:46-52 DomainMatcher.Match *)
Definition domain_Match (pattern s : bytes) : bool :=
  if negb (HasSuffix s pattern) then false
  else (length s =? length pattern) ||
       bool_decide (s !! (length s - length pattern - 1) = Some "."%byte).

(** src/common/strmatcher/matchers.go:27-29 Matcher.Match *)
Definition matcher_Match (m : Matcher) (s : bytes) : bool :=
  match m with
  | FullMatcher p => bool_decide (p = s)
  | DomainMatcher p => domain_Match p s
  | SubstrMatcher p => Contains s p
  | RegexMatcher re => regexp_MatchString re s
  end.

(** The three patterns without compiled state, by type. *)
Definition type_Match (t : Type_) (p s : bytes) : bool :=
  match t with
  | Full => bool_decide (p = s)
  | Domain => domain_Match p s
  | Substr => Contains s p
  | _ => false
  end.

(** ** Construction *)

(** src/common/strmatcher/matchers.go:112-115 Type.New *)
Inductive new_error := UnknownMatcherType | NotLDH | IdnaError | RegexpError.

(** src/common/strmatcher/matchers.go:166-174 ToDomain *)
Definition ldh_byte (b : byte) : bool :=
  let c := byte_to_Z b in
  ((65 <=? c) && (c <=? 90) || (97 <=? c) && (c <=? 122) || (48 <=? c) && (c <=? 57)
   || (c =? 45) || (c =? 46))%Z.

(** One pass of the byte loop: stops at the first byte that is either not
    ASCII or not in the LDH subset.
    src/common/strmatcher/matchers.go:159-175 ToDomain *)
Fixpoint scan_ldh (pattern : bytes) : option bool :=
  match pattern with
  | [] => Some true
  | c :: rest =>
      if negb (isASCII c) then Some false
      else if ldh_byte c then scan_ldh rest else None
  end.

(** The [for] loop converts once and scans again; [None] is fuel exhausted.
    src/common/strmatcher/matchers.go:157-187 ToDomain *)
Fixpoint ToDomain_loop (fuel : nat) (pattern : bytes) : option (outcome new_error bytes) :=
  match fuel with
  | O => None
  | S fuel' =>
      match scan_ldh pattern with
      | None => Some (Err NotLDH)
      | Some true => Some (Ok pattern)
      | Some false =>
          match idna_Punycode_ToASCII pattern with
          | None => Some (Err IdnaError)
          | Some pattern' => ToDomain_loop fuel' pattern'
          end
      end
  end.

(** Two passes are enough ([ToDomain_loop_two] below): the fuel is never
    exhausted when [ToASCII] returns ASCII text.
    src/common/strmatcher/matchers.go ToDomain *)
Definition ToDomain (pattern : bytes) : outcome new_error bytes :=
  default Panic (ToDomain_loop 2 pattern).

Definition compile_regex (pattern : bytes) : outcome new_error Matcher :=
  match regexp_Compile pattern with
  | None => Err RegexpError
  | Some re => Ok (RegexMatcher re)
  end.

(** src/common/strmatcher/matchers.go Type.New *)
Definition Type_New (t : Type_) (pattern : bytes) : outcome new_error Matcher :=
  match t with
  | Full => Ok (FullMatcher pattern)
  | Substr => Ok (SubstrMatcher pattern)
  | Domain => DomainMatcher <$> ToDomain pattern
  | Regex => compile_regex pattern
  | OtherType _ => Err UnknownMatcherType
  end.

(** src/common/strmatcher/matchers.go Type.NewDomainPattern *)
Definition Type_NewDomainPattern (t : Type_) (pattern : bytes) : outcome new_error Matcher :=
  match t with
  | Full => FullMatcher <$> ToDomain pattern
  | Substr => SubstrMatcher <$> ToDomain pattern
  | Domain => DomainMatcher <$> ToDomain pattern
  | Regex => compile_regex pattern
  | OtherType _ => Err UnknownMatcherType
  end.
End Matchers.

(** ** Flattening of match lists *)

(** src/common/strmatcher/matchers.go CompositeMatches *)
Definition CompositeMatches (matches : list (list Z)) : list Z :=
  match matches with
  | [] => []
  | [m] => m
  | _ => foldl (fun result m => result ++ m) [] matches
  end.

(** src/common/strmatcher/matchers.go CompositeMatchesReverse *)
Definition CompositeMatchesReverse (matches : list (list Z)) : list Z :=
  match matches with
  | [] => []
  | [m] => m
  | _ => foldl (fun result m => result ++ m) [] (rev matches)
  end.

(** ** Registered values *)

(** What a group has been told, in order: a key (a string, or a word of an
    automaton), the kind of pattern, the value. *)
Definition reg_values {K} `{EqDecision K} (regs : list (K * Type_ * Z)) (w : K) (t : Type_) : list Z :=
  (filter (fun r => r.1 = (w, t)) regs).*2.

(** ** Lemmas *)

Section RegValues.
Context {K : Type} `{EqDecision K}.
Implicit Types (regs : list (K * Type_ * Z)) (w : K) (t : Type_).

Lemma reg_values_snoc regs w' t' v w t :
  reg_values (regs ++ [(w', t', v)]) w t =
    reg_values regs w t ++ (if decide ((w', t') = (w, t)) then [v] else []).
Proof.
  unfold reg_values. rewrite filter_app, fmap_app. f_equal.
  rewrite filter_cons, filter_nil. cbn [fst]. by repeat case_decide.
Qed.

Lemma reg_values_in regs w t v : v ∈ reg_values regs w t <-> (w, t, v) ∈ regs.
Proof.
  unfold reg_values. rewrite list_elem_of_fmap. split.
  - intros ([[w' t'] v'] & -> & [Heq Hr]%list_elem_of_filter). simpl in *. by simplify_eq.
  - intros Hr. exists (w, t, v). split; [done|]. by apply list_elem_of_filter.
Qed.
End RegValues.

Lemma HasSuffix_spec s p : HasSuffix s p = true <-> p `suffix_of` s.
Proof.
  unfold HasSuffix. rewrite andb_true_iff, Nat.leb_le, bool_decide_eq_true. split.
  - intros [Hle Hd]. exists (take (length s - length p) s).
    rewrite <-(take_drop (length s - length p) s) at 1. by rewrite Hd.
  - intros [k ->]. rewrite length_app. split; [lia|].
    replace (length k + length p - length p) with (length k) by lia. by rewrite drop_app_length.
Qed.

(** A domain pattern matches exactly itself and its sub-domains. *)
Lemma domain_Match_spec p s :
  domain_Match p s = true <-> s = p \/ ("."%byte :: p) `suffix_of` s.
Proof.
  unfold domain_Match. destruct (HasSuffix s p) eqn:Hs; simpl.
  - apply HasSuffix_spec in Hs as [k ->].
    rewrite orb_true_iff, Nat.eqb_eq, bool_decide_eq_true, length_app.
    replace (length k + length p - length p - 1) with (length k - 1) by lia.
    destruct k as [|c k _] using rev_ind.
    { simpl. split; [by left|by left]. }
    rewrite length_app. simpl. rewrite lookup_app_l by (rewrite length_app; simpl; lia).
    replace (length k + 1 - 1) with (length k) by lia. rewrite list_lookup_middle by done.
    split.
    + intros [?|[= ->]]; [lia|]. right. exists k. by rewrite <-(assoc_L (++)).
    + intros [Hp|[k' Hk]].
      { apply (f_equal length) in Hp. rewrite !length_app in Hp. simpl in Hp. lia. }
      right. f_equal. rewrite <-(assoc_L (++)) in Hk. simpl in Hk.
      apply app_inj_2 in Hk as [_ [= ->]]; done.
  - split; [done|]. intros Hm. apply not_true_iff_false in Hs. destruct Hs.
    apply HasSuffix_spec. destruct Hm as [->|[k ->]]; [done|].
    exists (k ++ ["."%byte]). by rewrite <-(assoc_L (++)).
Qed.

(** [occurs_at s sub j]: the occurrence test of the substring searches. *)
Definition occurs_at (s sub : bytes) (j : nat) : Prop := take (length sub) (drop j s) = sub.

Lemma last_index_from_Some s sub k j :
  last_index_from s sub k = Some j ->
  j <= k /\ occurs_at s sub j /\ forall j', j < j' <= k -> ~ occurs_at s sub j'.
Proof.
  unfold occurs_at. induction k as [|k IH]; simpl; case_bool_decide as Ho; intros [= Hj].
  - subst. repeat split; try done. intros; lia.
  - subst. repeat split; try done. intros; lia.
  - apply IH in Hj as (? & ? & Hmax). repeat split; [lia|done|].
    intros j' ?. destruct (decide (j' = S k)) as [->|]; [done|]. apply Hmax. lia.
Qed.

Lemma last_index_from_None s sub k :
  last_index_from s sub k = None -> forall j, j <= k -> ~ occurs_at s sub j.
Proof.
  unfold occurs_at. induction k as [|k IH]; simpl; case_bool_decide as Ho; intros Hk j Hj; try done.
  - by replace j with 0 by lia.
  - destruct (decide (j = S k)) as [->|]; [done|]. apply IH; [done|lia].
Qed.

Lemma occurs_at_length s sub j : sub <> [] -> occurs_at s sub j -> j + length sub <= length s.
Proof.
  unfold occurs_at. intros Hne Ho. apply (f_equal length) in Ho.
  rewrite length_take, length_drop in Ho.
  assert (0 < length sub) by (destruct sub; simpl; [done|lia]). lia.
Qed.

Lemma LastIndex_Some s sub j :
  LastIndex s sub = Some j -> j + length sub <= length s /\ occurs_at s sub j.
Proof.
  unfold LastIndex. destruct (Nat.leb_spec (length sub) (length s)); [|done].
  intros Hl. apply last_index_from_Some in Hl as (? & ? & _). split; [lia|done].
Qed.

Lemma LastIndex_None s sub :
  sub <> [] -> LastIndex s sub = None -> forall j, ~ occurs_at s sub j.
Proof.
  unfold LastIndex. intros Hne Hn j Ho.
  pose proof (occurs_at_length _ _ _ Hne Ho) as Hl.
  destruct (Nat.leb_spec (length sub) (length s)); [|lia].
  eapply last_index_from_None; [done| |done]. lia.
Qed.

Lemma occurs_at_spec s sub j :
  j <= length s ->
  occurs_at s sub j <-> exists a b, s = a ++ sub ++ b /\ length a = j.
Proof.
  unfold occurs_at. intros Hj. split.
  - intros Ho. exists (take j s), (drop (length sub) (drop j s)).
    split; [|rewrite length_take; lia]. rewrite <-Ho at 1. by rewrite !take_drop.
  - intros (a & b & -> & <-). rewrite drop_app_length. apply take_app_length.
Qed.

Lemma Contains_spec s sub :
  Contains s sub = true <-> exists a b, s = a ++ sub ++ b.
Proof.
  unfold Contains. rewrite bool_decide_eq_true. split.
  - intros [j Hj]. apply LastIndex_Some in Hj as [? Ho]. apply occurs_at_spec in Ho; [|lia].
    naive_solver.
  - intros (a & b & Hs). destruct (decide (sub = [])) as [->|Hne].
    { unfold LastIndex. simpl. destruct (_ - 0); simpl; by eauto. }
    destruct (LastIndex s sub) as [|] eqn:Hl; [by eauto|].
    exfalso. eapply LastIndex_None; [done..|]. apply occurs_at_spec with (j := length a).
    + rewrite Hs, length_app. lia.
    + by eauto.
Qed.

Lemma Contains_occurs s sub :
  sub <> [] -> Contains s sub = true <-> exists j, occurs_at s sub j.
Proof.
  intros Hne. unfold Contains. rewrite bool_decide_eq_true. split.
  - intros [j Hj]. exists j. by apply LastIndex_Some.
  - intros [j Hj]. destruct (LastIndex s sub) as [|] eqn:Hl; [by eauto|].
    exfalso. by eapply LastIndex_None.
Qed.

Lemma foldl_app_concat {A} (acc : list A) ms :
  foldl (fun result m => result ++ m) acc ms = acc ++ concat ms.
Proof.
  revert acc. induction ms as [|m ms IH]; intros acc; simpl; [by rewrite app_nil_r|].
  by rewrite IH, (assoc_L (++)).
Qed.

Lemma CompositeMatches_concat ms : CompositeMatches ms = concat ms.
Proof.
  unfold CompositeMatches. case_match; simpl; [done|]. case_match; [by rewrite app_nil_r|].
  by rewrite foldl_app_concat.
Qed.

Lemma CompositeMatchesReverse_concat ms : CompositeMatchesReverse ms = concat (rev ms).
Proof.
  unfold CompositeMatchesReverse. destruct ms as [|m [|m' ms]]; simpl; [done|by rewrite app_nil_r|].
  by rewrite foldl_app_concat.
Qed.

#[export] Hint Rewrite CompositeMatches_concat CompositeMatchesReverse_concat : go_rw.

Section ToDomainProps.
Context `{StringLibs}.
Context (Hascii : forall p p', idna_Punycode_ToASCII p = Some p' -> forallb isASCII p' = true).

Lemma scan_ldh_ascii p : forallb isASCII p = true -> scan_ldh p <> Some false.
Proof.
  induction p as [|c p IH]; simpl; [done|]. intros [Hc Hp]%andb_true_iff.
  rewrite Hc. simpl. destruct (ldh_byte c); [by apply IH|done].
Qed.

Lemma scan_ldh_true p : scan_ldh p = Some true <-> forallb ldh_byte p = true.
Proof.
  induction p as [|c p IH]; simpl; [done|].
  assert (ldh_byte c = true -> isASCII c = true) as Hl by (unfold ldh_byte, isASCII; lia).
  rewrite andb_true_iff. destruct (isASCII c) eqn:Ha, (ldh_byte c); simpl; naive_solver.
Qed.

Lemma ToDomain_loop_two fuel p :
  2 <= fuel -> ToDomain_loop fuel p = Some (ToDomain p).
Proof.
  intros Hf. destruct fuel as [|[|fuel]]; [lia..|]. unfold ToDomain. simpl.
  destruct (scan_ldh p) as [[]|]; [done| |done].
  destruct (idna_Punycode_ToASCII p) as [p'|] eqn:Hp; [|done].
  apply Hascii, scan_ldh_ascii in Hp. by destruct (scan_ldh p') as [[]|].
Qed.

Lemma ToDomain_ok p d : ToDomain p = Ok d -> forallb ldh_byte d = true.
Proof.
  unfold ToDomain. simpl. destruct (scan_ldh p) as [[]|] eqn:Hp; simpl.
  - intros [= <-]. by apply scan_ldh_true.
  - destruct (idna_Punycode_ToASCII p) as [p'|] eqn:Hp'; simpl; [|done].
    destruct (scan_ldh p') as [[]|] eqn:Hp''; simpl; try done.
    + intros [= <-]. by apply scan_ldh_true.
    + by case_match.
  - done.
Qed.
End ToDomainProps.
