(* ===== verification/MatcherGroups.v ===== *)
(** * Elementary matcher groups, [common/strmatcher/matchergroup_*.go]

    [FullMatcherGroup] (a hash table), [DomainMatcherGroup] (a trie of domain
    labels read from the right), [SubstrMatcherGroup] (repeated [LastIndex]
    with a packed sort key) and [SimpleMatcherGroup] (a list). *)

From S2P Require Import Prelude Matchers.

(** ** FullMatcherGroup *)

Module FullGroup.
(** src/common/strmatcher/matchergroup_full.go FullMatcherGroup *)
Record FullMatcherGroup := { matchers : gmap bytes (list Z) }.

(** src/common/strmatcher/matchergroup_full.go NewFullMatcherGroup *)
Definition NewFullMatcherGroup : FullMatcherGroup := {| matchers := ∅ |}.

(** src/common/strmatcher/matchergroup_full.go FullMatcherGroup.AddFullMatcher *)
Definition AddFullMatcher (g : FullMatcherGroup) (pattern : bytes) (value : Z) : FullMatcherGroup :=
  {| matchers := <[pattern := default [] (matchers g !! pattern) ++ [value]]> (matchers g) |}.

(** src/common/strmatcher/matchergroup_full.go FullMatcherGroup.Match *)
Definition Match (g : FullMatcherGroup) (input : bytes) : list Z :=
  default [] (matchers g !! input).

(** src/common/strmatcher/matchergroup_full.go FullMatcherGroup.MatchAny *)
Definition MatchAny (g : FullMatcherGroup) (input : bytes) : bool :=
  bool_decide (is_Some (matchers g !! input)).
End FullGroup.

(** ** DomainMatcherGroup *)

Module DomainGroup.
(** A [nil] child pointer is an absent key; the map is [nil] in the code
    exactly when it has no key.
    src/common/strmatcher/matchergroup_domain.go trieNode *)
Inductive trieNode := TrieNode (values : list Z) (children : gmap bytes trieNode).

Definition values (n : trieNode) : list Z := let 'TrieNode v _ := n in v.
Definition children (n : trieNode) : gmap bytes trieNode := let 'TrieNode _ c := n in c.

Definition new_trieNode : trieNode := TrieNode [] ∅.

(** src/common/strmatcher/matchergroup_domain.go DomainMatcherGroup *)
Record DomainMatcherGroup := { root : trieNode }.

(** src/common/strmatcher/matchergroup_domain.go NewDomainMatcherGroup *)
Definition NewDomainMatcherGroup : DomainMatcherGroup := {| root := new_trieNode |}.

(** The inner loop over [j]: the label that ends at [i] and the position
    from which the outer loop goes on.
    src/common/strmatcher/matchergroup_domain.go:26-37 DomainMatcherGroup.AddDomainMatcher *)
Fixpoint next_label (s : bytes) (i j : nat) : bytes * nat :=
  if bool_decide (s !! j = Some "."%byte) then (take (i - (j + 1)) (drop (j + 1) s), j)
  else match j with
       | O => (take (i - 0) (drop 0 s), 0)
       | S j' => next_label s i j'
       end.

(** The outer loop of AddDomainMatcher from position [i] on, at [node]; the
    position strictly decreases, so [fuel >= i] is enough.
    src/common/strmatcher/matchergroup_domain.go DomainMatcherGroup.AddDomainMatcher *)
Fixpoint add_loop (fuel : nat) (pattern : bytes) (i : nat) (node : trieNode) (value : Z) : trieNode :=
  match i, fuel with
  | S i', S fuel' =>
      let '(part, j) := next_label pattern i i' in
      let next := default new_trieNode (children node !! part) in
      TrieNode (values node) (<[part := add_loop fuel' pattern j next value]> (children node))
  | _, _ => TrieNode (values node ++ [value]) (children node)
  end.

(** src/common/strmatcher/matchergroup_domain.go DomainMatcherGroup.AddDomainMatcher *)
Definition AddDomainMatcher (g : DomainMatcherGroup) (pattern : bytes) (value : Z) : DomainMatcherGroup :=
  {| root := add_loop (length pattern) pattern (length pattern) (root g) value |}.

(** src/common/strmatcher/matchergroup_domain.go:56-78 DomainMatcherGroup.Match *)
Fixpoint match_loop (fuel : nat) (input : bytes) (i : nat) (node : trieNode)
    (matches : list (list Z)) : list (list Z) :=
  match i, fuel with
  | S i', S fuel' =>
      let '(part, j) := next_label input i i' in
      match children node !! part with
      | None => matches
      | Some node' =>
          let matches' := match values node' with [] => matches | v => matches ++ [v] end in
          if bool_decide (children node' = ∅) then matches'
          else match_loop fuel' input j node' matches'
      end
  | _, _ => matches
  end.

(** src/common/strmatcher/matchergroup_domain.go DomainMatcherGroup.Match *)
Definition Match (g : DomainMatcherGroup) (input : bytes) : list Z :=
  CompositeMatchesReverse (match_loop (length input) input (length input) (root g) []).

(** src/common/strmatcher/matchergroup_domain.go:85-108 DomainMatcherGroup.MatchAny *)
Fixpoint any_loop (fuel : nat) (input : bytes) (i : nat) (node : trieNode) : bool :=
  match i, fuel with
  | S i', S fuel' =>
      let '(part, j) := next_label input i i' in
      match children node !! part with
      | None => false
      | Some node' =>
          match values node' with
          | _ :: _ => true
          | [] => if bool_decide (children node' = ∅) then false else any_loop fuel' input j node'
          end
      end
  | _, _ => false
  end.

(** src/common/strmatcher/matchergroup_domain.go DomainMatcherGroup.MatchAny *)
Definition MatchAny (g : DomainMatcherGroup) (input : bytes) : bool :=
  any_loop (length input) input (length input) (root g).
End DomainGroup.

(** ** SubstrMatcherGroup *)

Module SubstrGroup.
(** src/common/strmatcher/matchergroup_substr.go SubstrMatcherGroup *)
Record SubstrMatcherGroup := { patterns : list bytes; values : list Z }.

Definition new_SubstrMatcherGroup : SubstrMatcherGroup := {| patterns := []; values := [] |}.

(** src/common/strmatcher/matchergroup_substr.go SubstrMatcherGroup.AddSubstrMatcher *)
Definition AddSubstrMatcher (g : SubstrMatcherGroup) (pattern : bytes) (value : Z) : SubstrMatcherGroup :=
  {| patterns := patterns g ++ [pattern]; values := values g ++ [value] |}.

(** [uint32(j)<<16|uint32(i)&0xffff].
    src/common/strmatcher/matchergroup_substr.go:26-26 SubstrMatcherGroup.Match *)
Definition entry (j i : nat) : Z :=
  Z.lor (u32 (Z.shiftl (u32 (Z.of_nat j)) 16)) (Z.land (u32 (Z.of_nat i)) 0xffff).

(** The occurrences of one pattern, searched again to the left of the
    last hit; [None] when the fuel runs out.
    src/common/strmatcher/matchergroup_substr.go:25-27 SubstrMatcherGroup.Match *)
Fixpoint scan_pattern (fuel : nat) (input pattern : bytes) (i : nat) (j : option nat)
    (result : list Z) : option (list Z) :=
  match fuel with
  | O => None
  | S fuel' =>
      match j with
      | None => Some result
      | Some j' =>
          scan_pattern fuel' input pattern i (LastIndex (take j' input) pattern)
            (result ++ [entry j' i])
      end
  end.

(** src/common/strmatcher/matchergroup_substr.go:24-28 SubstrMatcherGroup.Match *)
Fixpoint scan_patterns (fuel : nat) (input : bytes) (ps : list bytes) (i : nat)
    (result : list Z) : option (list Z) :=
  match ps with
  | [] => Some result
  | p :: ps' =>
      result' ← scan_pattern fuel input p i (LastIndex input p) result;
      scan_patterns fuel input ps' (S i) result'
  end.

(** src/common/strmatcher/matchergroup_substr.go:31-46 SubstrMatcherGroup.Match *)
Definition sort_result `{SortSlice} (result : list Z) : list Z :=
  match result with
  | [] => []
  | [a] => [a]
  | [a; b] => if (b <? a)%Z then [b; a] else [a; b]
  | _ => sort_Slice Z.ltb result
  end.

(** src/common/strmatcher/matchergroup_substr.go SubstrMatcherGroup.Match *)
Definition Match `{SortSlice} (fuel : nat) (g : SubstrMatcherGroup) (input : bytes) : option (list Z) :=
  result ← scan_patterns fuel input (patterns g) 0 [];
  Some (map (fun entry => values g !!! Z.to_nat (Z.land entry 0xffff)) (sort_result result)).

(** src/common/strmatcher/matchergroup_substr.go SubstrMatcherGroup.MatchAny *)
Definition MatchAny (g : SubstrMatcherGroup) (input : bytes) : bool :=
  existsb (fun pattern => Contains input pattern) (patterns g).
End SubstrGroup.

(** ** SimpleMatcherGroup *)

Module SimpleGroup.
Section SimpleGroup.
Context `{StringLibs}.

(** src/common/strmatcher/matchergroup_simple.go matcherEntry *)
Record matcherEntry := { matcher : Matcher; value : Z }.

(** src/common/strmatcher/matchergroup_simple.go SimpleMatcherGroup *)
Record SimpleMatcherGroup := { matchers : list matcherEntry }.

(** src/common/strmatcher/matchergroup_simple.go SimpleMatcherGroup.AddMatcher *)
Definition AddMatcher (g : SimpleMatcherGroup) (m : Matcher) (v : Z) : SimpleMatcherGroup :=
  {| matchers := matchers g ++ [{| matcher := m; value := v |}] |}.

(** src/common/strmatcher/matchergroup_simple.go SimpleMatcherGroup.Match *)
Definition Match (g : SimpleMatcherGroup) (input : bytes) : list Z :=
  foldl (fun result e => if matcher_Match (matcher e) input then result ++ [value e] else result)
    [] (matchers g).

(** src/common/strmatcher/matchergroup_simple.go SimpleMatcherGroup.MatchAny *)
Definition MatchAny (g : SimpleMatcherGroup) (input : bytes) : bool :=
  existsb (fun e => matcher_Match (matcher e) input) (matchers g).
End SimpleGroup.
End SimpleGroup.
