(* ===== verification/GroupFacts.v ===== *)
(** * Facts about the Full, Domain, Substr and list groups

    Each group built from a list of patterns, against a reference list that
    uses only the matchers' own [Match]. *)

From S2P Require Import Prelude Matchers MatcherGroups.

(** ** The domain trie against a reference *)

Module DomainGroupFacts.
Import DomainGroup.

Definition dotfree (l : bytes) : Prop := "."%byte ∉ l.

(** The labels of a domain from the right, as all three loops visit them. *)
Fixpoint labels_from (fuel : nat) (s : bytes) (i : nat) : list bytes :=
  match i, fuel with
  | S i', S fuel' => let '(part, j) := next_label s i i' in part :: labels_from fuel' s j
  | _, _ => []
  end.

Definition labels (s : bytes) : list bytes := labels_from (length s) s (length s).

Lemma next_label_le s i j : (next_label s i j).2 <= j.
Proof. induction j as [|j IH]; simpl; case_bool_decide; simpl; lia. Qed.

Lemma next_label_app s t i j :
  i <= length s -> j < i -> next_label (s ++ t) i j = next_label s i j.
Proof.
  intros Hi. induction j as [|j IH]; intros Hj; cbn [next_label];
    rewrite lookup_app_l, !drop_app_le by lia; rewrite ?take_app_le by (rewrite length_drop; lia).
  - done.
  - case_bool_decide; [done|]. apply IH. lia.
Qed.

Lemma labels_from_app fuel s t i : i <= length s -> labels_from fuel (s ++ t) i = labels_from fuel s i.
Proof.
  revert i. induction fuel as [|fuel IH]; intros [|i] Hi; simpl; try done.
  rewrite next_label_app by lia. pose proof (next_label_le s (S i) i).
  destruct (next_label s (S i) i) as [part j]; simpl in *. rewrite IH by lia. done.
Qed.

Lemma labels_from_fuel fuel s i : i <= fuel -> labels_from fuel s i = labels_from i s i.
Proof.
  revert i. induction fuel as [fuel IH] using lt_wf_ind; intros i Hi.
  destruct i as [|i], fuel as [|fuel]; simpl; try done; [lia|].
  pose proof (next_label_le s (S i) i).
  destruct (next_label s (S i) i) as [part j]; simpl in *. f_equal.
  etrans; [apply IH; lia|symmetry; apply IH; lia].
Qed.

Lemma lookup_dotfree l i : dotfree l -> l !! i <> Some "."%byte.
Proof. intros Hl Hi. by apply Hl, list_elem_of_lookup_2 with i. Qed.

(** Scanning down inside a dot-free label finds the dot before it... *)
Lemma next_label_dot s l m :
  dotfree l -> m <= length l ->
  next_label (s ++ "."%byte :: l) (length (s ++ "."%byte :: l)) (length s + m) = (l, length s).
Proof.
  intros Hl. rewrite length_app. cbn [length]. induction m as [|m IH]; intros Hm.
  - rewrite Nat.add_0_r. destruct (length s) as [|n] eqn:Hn; cbn [next_label].
    + destruct s; [|done]. simpl. by rewrite drop_0, firstn_all2 by lia.
    + rewrite <-Hn, list_lookup_middle by done. rewrite bool_decide_true by done.
      rewrite drop_app_add. simpl. rewrite drop_0, take_ge by lia. done.
  - replace (length s + S m) with (S (length s + m)) by lia. cbn [next_label]. rewrite bool_decide_false; [apply IH; lia|].
    replace (S (length s + m)) with (length s + S m) by lia.
    rewrite lookup_app_r by lia. replace (_ + _ - _) with (S m) by lia.
    exact (lookup_dotfree l m Hl).
Qed.

(** ... or the beginning of the string. *)
Lemma next_label_nodot l m :
  dotfree l -> m < length l -> next_label l (length l) m = (l, 0).
Proof.
  intros Hl. induction m as [|m IH]; intros Hm; cbn [next_label];
    rewrite bool_decide_false by (by apply lookup_dotfree).
  - by rewrite drop_0, Nat.sub_0_r, take_ge by lia.
  - apply IH. lia.
Qed.

Lemma labels_nil : labels [] = [].
Proof. done. Qed.

Lemma labels_single l : dotfree l -> l <> [] -> labels l = [l].
Proof.
  intros Hl Hne. unfold labels. destruct (length l) as [|n] eqn:Hn; [by destruct l|].
  simpl. rewrite <-Hn at 1. rewrite next_label_nodot by (done || lia).
  by destruct n.
Qed.

Lemma labels_snoc s l : dotfree l -> labels (s ++ "."%byte :: l) = l :: labels s.
Proof.
  intros Hl. unfold labels.
  assert (length (s ++ "."%byte :: l) = S (length s + length l)) as Hn
    by (rewrite length_app; simpl; lia).
  rewrite Hn. cbn [labels_from]. rewrite <-Hn, next_label_dot by done.
  f_equal. rewrite labels_from_app by done. apply labels_from_fuel. lia.
Qed.

Lemma last_dot s : dotfree s \/ exists a l, s = a ++ "."%byte :: l /\ dotfree l.
Proof.
  induction s as [|c s IH] using rev_ind; [left; apply not_elem_of_nil|].
  destruct (decide (c = "."%byte)) as [->|Hc].
  { right. exists s, []. split; [done|apply not_elem_of_nil]. }
  destruct IH as [Hs|(a & l & -> & Hl)].
  - left. unfold dotfree. rewrite elem_of_app, list_elem_of_singleton. naive_solver.
  - right. exists a, (l ++ [c]). split; [by rewrite <-(assoc_L (++))|].
    unfold dotfree. rewrite elem_of_app, list_elem_of_singleton. naive_solver.
Qed.

(** Every string is dot-free or splits at its last dot. *)
Lemma last_dot_ind (P : bytes -> Prop) :
  (forall l, dotfree l -> P l) ->
  (forall s l, dotfree l -> P s -> P (s ++ "."%byte :: l)) ->
  forall s, P s.
Proof.
  intros Hbase Hstep s. remember (length s) as n eqn:Hn. revert s Hn.
  induction n as [n IH] using lt_wf_ind; intros s Hn.
  destruct (last_dot s) as [?|(a & l & -> & ?)]; [by apply Hbase|].
  apply Hstep; [done|]. eapply IH; [|done]. rewrite Hn, length_app. simpl. lia.
Qed.

(** The inverse of [labels]. *)
Fixpoint join (ls : list bytes) : bytes :=
  match ls with
  | [] => []
  | [l] => l
  | l :: ls' => join ls' ++ "."%byte :: l
  end.

(** A pattern as [Type.New] and the router build them: not empty and
    without a leading dot. *)
Definition wf_domain (p : bytes) : Prop := p <> [] /\ head p <> Some "."%byte.

Lemma join_cons l ls : ls <> [] -> join (l :: ls) = join ls ++ "."%byte :: l.
Proof. by destruct ls. Qed.

Lemma wf_domain_app p t : p <> [] -> wf_domain (p ++ t) -> wf_domain p.
Proof. intros Hp [_ Hh]. split; [done|]. by destruct p. Qed.

Lemma labels_dotfree s : Forall dotfree (labels s).
Proof.
  induction s as [l Hl|s l Hl IH] using last_dot_ind.
  - destruct (decide (l = [])) as [->|]; [constructor|].
    rewrite labels_single by done. by constructor.
  - rewrite labels_snoc by done. by constructor.
Qed.

Lemma labels_ne s : s <> [] -> labels s <> [].
Proof.
  destruct (last_dot s) as [?|(a & l & -> & ?)]; intros Hs.
  - by rewrite labels_single.
  - by rewrite labels_snoc.
Qed.

Lemma join_labels p : wf_domain p -> join (labels p) = p.
Proof.
  induction p as [l Hl|s l Hl IH] using last_dot_ind; intros Hp.
  - rewrite labels_single; [done..|]. apply Hp.
  - rewrite labels_snoc by done. destruct (decide (s = [])) as [->|Hs]; [by destruct Hp|].
    rewrite join_cons by (by apply labels_ne). by rewrite IH by (by eapply wf_domain_app).
Qed.

Lemma labels_join ls : Forall dotfree ls -> ls <> [] -> wf_domain (join ls) -> labels (join ls) = ls.
Proof.
  induction ls as [|l ls IH]; intros Hd Hne Hwf; [done|].
  apply Forall_cons in Hd as [Hl Hls]. destruct (decide (ls = [])) as [->|Hlsne].
  { apply labels_single; [done|apply Hwf]. }
  rewrite join_cons in Hwf |- * by done. rewrite labels_snoc by done. f_equal.
  destruct (decide (join ls = [])) as [E|]; [rewrite E in Hwf; by destruct Hwf|].
  apply IH; [done..|]. by eapply wf_domain_app.
Qed.

Lemma labels_eq_iff p ls :
  wf_domain p -> Forall dotfree ls -> ls <> [] -> labels p = ls <-> p = join ls.
Proof.
  intros Hp Hd Hne. split; [intros <-; by rewrite join_labels|intros ->; by apply labels_join].
Qed.

(** *** The trie as a map from label paths *)

Fixpoint find_path (ls : list bytes) (n : trieNode) : list Z :=
  match ls with
  | [] => values n
  | l :: ls' => match children n !! l with None => [] | Some n' => find_path ls' n' end
  end.

Fixpoint add_path (ls : list bytes) (n : trieNode) (v : Z) : trieNode :=
  match ls with
  | [] => TrieNode (values n ++ [v]) (children n)
  | l :: ls' =>
      TrieNode (values n)
        (<[l := add_path ls' (default new_trieNode (children n !! l)) v]> (children n))
  end.

Lemma add_loop_path fuel p i n v : add_loop fuel p i n v = add_path (labels_from fuel p i) n v.
Proof.
  revert i n. induction fuel as [|fuel IH]; intros [|i] n; simpl; try done.
  destruct (next_label p (S i) i) as [part j]; simpl. by rewrite IH.
Qed.

Lemma find_path_new ls : find_path ls new_trieNode = [].
Proof. by destruct ls. Qed.

Lemma find_add_path ls ls' n v :
  find_path ls' (add_path ls n v) = find_path ls' n ++ (if decide (ls = ls') then [v] else []).
Proof.
  revert ls' n. induction ls as [|l ls IH]; intros [|l' ls'] n; simpl;
    rewrite ?app_nil_r; try done.
  destruct (decide (l = l')) as [->|Hl].
  - rewrite lookup_insert_eq, IH.
    assert (find_path ls' (default new_trieNode (children n !! l'))
            = match children n !! l' with None => [] | Some n' => find_path ls' n' end) as ->.
    { destruct (children n !! l'); simpl; [done|apply find_path_new]. }
    f_equal. repeat case_decide; naive_solver.
  - rewrite lookup_insert_ne by done. rewrite decide_False by naive_solver. by rewrite app_nil_r.
Qed.

(** The group built by registering patterns in order. *)
Definition build (ps : list (bytes * Z)) : DomainMatcherGroup :=
  foldl (fun g pv => AddDomainMatcher g pv.1 pv.2) NewDomainMatcherGroup ps.

Lemma build_find ps ls :
  find_path ls (root (build ps)) = (filter (fun pv => labels pv.1 = ls) ps).*2.
Proof.
  unfold build. induction ps as [|[p v] ps IH] using rev_ind; [apply find_path_new|].
  rewrite foldl_app. simpl. rewrite add_loop_path, find_add_path, IH.
  rewrite filter_app, fmap_app. f_equal. rewrite filter_cons, filter_nil. simpl.
  by repeat case_decide.
Qed.

(** *** Matching *)

Fixpoint match_path (ls : list bytes) (n : trieNode) (matches : list (list Z)) : list (list Z) :=
  match ls with
  | [] => matches
  | l :: ls' =>
      match children n !! l with
      | None => matches
      | Some n' =>
          let matches' := match values n' with [] => matches | v => matches ++ [v] end in
          if bool_decide (children n' = ∅) then matches' else match_path ls' n' matches'
      end
  end.

Lemma match_loop_path fuel s i n acc :
  match_loop fuel s i n acc = match_path (labels_from fuel s i) n acc.
Proof.
  revert i n acc. induction fuel as [|fuel IH]; intros [|i] n acc; simpl; try done.
  destruct (next_label s (S i) i) as [part j]; simpl.
  destruct (children n !! part); [|done]. case_bool_decide; [done|]. apply IH.
Qed.

(** The values met along a path, the deepest node first. *)
Fixpoint path_values (ls : list bytes) (n : trieNode) : list Z :=
  match ls with
  | [] => []
  | l :: ls' =>
      match children n !! l with None => [] | Some n' => path_values ls' n' ++ values n' end
  end.

Lemma path_values_leaf ls n : children n = ∅ -> path_values ls n = [].
Proof. intros Hc. destruct ls; simpl; [done|]. by rewrite Hc, lookup_empty. Qed.

Lemma match_path_values ls n acc :
  concat (rev (match_path ls n acc)) = path_values ls n ++ concat (rev acc).
Proof.
  revert n acc. induction ls as [|l ls IH]; intros n acc; simpl; [done|].
  destruct (children n !! l) as [n'|]; [|done].
  assert (concat (rev (match values n' with [] => acc | v => acc ++ [v] end))
          = values n' ++ concat (rev acc)) as Hacc.
  { destruct (values n'); [done|]. by rewrite rev_snoc. }
  case_bool_decide as Hc.
  - simpl in *. by rewrite path_values_leaf, Hacc by done.
  - rewrite IH, Hacc. by rewrite (assoc_L (++)).
Qed.

Lemma concat_map_nil {A B} (f : A -> list B) l :
  (forall x, x ∈ l -> f x = []) -> concat (map f l) = [].
Proof.
  induction l as [|x l IH]; simpl; intros Hf; [done|].
  rewrite Hf by left. apply IH. intros y ?. apply Hf. by right.
Qed.

Lemma rev_seq_S m : rev (seq 1 (S m)) = map S (rev (seq 1 m)) ++ [1].
Proof. simpl. by rewrite map_rev, seq_shift. Qed.

Lemma path_values_find ls n :
  path_values ls n = concat (map (fun k => find_path (take k ls) n) (rev (seq 1 (length ls)))).
Proof.
  revert n. induction ls as [|l ls IH]; intros n; [done|]. cbn [path_values length].
  rewrite rev_seq_S, map_app, concat_app, map_map. cbn [map take find_path concat].
  destruct (children n !! l) as [n'|].
  - by rewrite IH, take_0, app_nil_r.
  - by rewrite concat_map_nil.
Qed.

(** *** Specification

    The registered values of every suffix of the input that is the input
    itself or starts after a dot, the longest suffix first, and for one
    suffix in order of registration. *)
Definition values_of (ps : list (bytes * Z)) (p : bytes) : list Z :=
  (filter (fun pv => pv.1 = p) ps).*2.

Definition reference (ps : list (bytes * Z)) (input : bytes) : list Z :=
  concat (map (fun k =>
    let s := drop k input in
    if domain_Match s input then values_of ps s else []) (seq 0 (length input))).

Definition wf_patterns (ps : list (bytes * Z)) : Prop := Forall (fun pv => wf_domain pv.1) ps.

Lemma values_of_labels ps ls :
  wf_patterns ps -> Forall dotfree ls -> ls <> [] ->
  (filter (fun pv => labels pv.1 = ls) ps).*2 = values_of ps (join ls).
Proof.
  intros Hps Hd Hne. unfold values_of. f_equal. induction Hps as [|[p v] ps Hp _ IH]; [done|].
  rewrite !filter_cons, IH. simpl in *.
  pose proof (labels_eq_iff p ls Hp Hd Hne). repeat case_decide; naive_solver.
Qed.

Lemma values_of_ill ps p : wf_patterns ps -> ~ wf_domain p -> values_of ps p = [].
Proof.
  intros Hps Hp. unfold values_of. induction Hps as [|[p' v] ps Hp' _ IH]; [done|].
  rewrite filter_cons, decide_False; [done|]. simpl in *. by intros ->.
Qed.

Lemma Match_labels ps input :
  wf_patterns ps ->
  Match (build ps) input
  = concat (map (fun k => values_of ps (join (take k (labels input))))
                (rev (seq 1 (length (labels input))))).
Proof.
  intros Hps. unfold Match.
  rewrite CompositeMatchesReverse_concat, match_loop_path, match_path_values, app_nil_r.
  fold (labels input). rewrite path_values_find. f_equal. apply map_ext_in.
  intros k Hk%in_rev%in_seq. rewrite build_find, values_of_labels; [done..| |].
  - apply Forall_take, labels_dotfree.
  - destruct k as [|k]; [lia|]. destruct (labels input); simpl in *; [lia|done].
Qed.

(** A suffix start: the beginning of [s] or the position after a dot. *)
Definition boundary (s : bytes) (k : nat) : bool :=
  (k =? 0) || bool_decide (s !! (k - 1) = Some "."%byte).

Lemma domain_Match_boundary s k :
  k < length s -> domain_Match (drop k s) s = boundary s k.
Proof.
  intros Hk. apply eq_true_iff_eq. rewrite domain_Match_spec. unfold boundary.
  rewrite orb_true_iff, Nat.eqb_eq, bool_decide_eq_true.
  assert (forall k' : bytes, s = k' ++ "."%byte :: drop k s <->
            k = S (length k') /\ s !! (k - 1) = Some "."%byte /\ k' = take (k - 1) s) as Hsuf.
  { intros k'. split.
    - intros Hs. assert (k = S (length k')) as ->.
      { apply (f_equal length) in Hs. rewrite length_app in Hs. simpl in Hs.
        rewrite length_drop in Hs. lia. }
      simpl. rewrite Nat.sub_0_r. rewrite Hs. split; [done|].
      by rewrite list_lookup_middle, take_app_length.
    - intros (-> & Hl & Hk'). simpl in *. rewrite Nat.sub_0_r in *.
      rewrite Hk' at 1. by rewrite take_drop_middle. }
  split.
  - intros [Hs|[k' Hs]].
    + left. apply (f_equal length) in Hs. rewrite length_drop in Hs. lia.
    + right. by apply Hsuf in Hs as (_ & ? & _).
  - intros [->|Hl]; [by left|]. destruct k as [|k]; [by left|]. right.
    exists (take k s). apply Hsuf. simpl in *. rewrite Nat.sub_0_r in *.
    rewrite length_take. split; [f_equal; lia|done].
Qed.

Definition suffix_values (ps : list (bytes * Z)) (s t : bytes) (k : nat) : list Z :=
  if boundary s k then values_of ps (drop k s ++ t) else [].

(** After a dot, only the position right behind it starts a pattern. *)
Lemma suffix_values_last ps s l t :
  wf_patterns ps -> dotfree l -> t = [] \/ head t = Some "."%byte ->
  concat (map (suffix_values ps (s ++ "."%byte :: l) t) (seq (length s) (S (length l))))
  = values_of ps (l ++ t).
Proof.
  intros Hps Hl Ht. cbn [seq map concat].
  assert (suffix_values ps (s ++ "."%byte :: l) t (length s) = []) as ->.
  { unfold suffix_values. case_match; [|done]. rewrite drop_app_length.
    apply values_of_ill; [done|]. by intros [_ ?]. }
  destruct l as [|b l]; simpl.
  { rewrite values_of_ill; [done..|]. intros [??]. by destruct Ht. }
  unfold suffix_values at 1. assert (boundary (s ++ "."%byte :: b :: l) (S (length s)) = true) as ->.
  { unfold boundary. simpl. rewrite Nat.sub_0_r, list_lookup_middle by done. done. }
  replace (S (length s)) with (length s + 1) at 1 by lia. rewrite drop_app_add. simpl.
  rewrite concat_map_nil, app_nil_r; [done|].
  intros k Hk%list_elem_of_In%in_seq. unfold suffix_values, boundary.
  destruct k as [|k]; [lia|]. simpl. rewrite Nat.sub_0_r, bool_decide_false; [done|].
  rewrite lookup_app_r by lia. replace (k - length s) with (S (k - length s - 1)) by lia.
  by apply (lookup_dotfree (b :: l)).
Qed.

Lemma suffix_values_labels ps s t :
  wf_patterns ps -> t = [] \/ head t = Some "."%byte ->
  concat (map (suffix_values ps s t) (seq 0 (length s)))
  = concat (map (fun k => values_of ps (join (take k (labels s)) ++ t))
                (rev (seq 1 (length (labels s))))).
Proof.
  intros Hps. revert t. induction s as [l Hl|s l Hl IH] using last_dot_ind; intros t Ht.
  - destruct l as [|b l]; [done|]. rewrite labels_single by done. cbn [length seq map concat].
    rewrite concat_map_nil; [done|]. intros k Hk%list_elem_of_In%in_seq.
    unfold suffix_values, boundary. destruct k as [|k]; [lia|]. simpl.
    rewrite Nat.sub_0_r, bool_decide_false; [done|]. by apply (lookup_dotfree (b :: l)).
  - rewrite labels_snoc by done. cbn [length]. rewrite length_app. cbn [length].
    rewrite seq_app, map_app, concat_app. simpl (0 + _).
    rewrite suffix_values_last by done.
    rewrite rev_seq_S, map_app, concat_app, map_map. cbn [map take join concat].
    rewrite take_0, app_nil_r. f_equal.
    specialize (IH ("."%byte :: l ++ t)). etrans; [|etrans; [apply IH; by right|]].
    + f_equal. apply map_ext_in. intros k Hk%in_seq. unfold suffix_values, boundary.
      rewrite drop_app_le by lia. rewrite <-(assoc_L (++)).
      destruct k; simpl; [done|]. by rewrite lookup_app_l by lia.
    + f_equal. apply map_ext_in. intros k Hk%in_rev%in_seq. f_equal.
      destruct (take k (labels s)) as [|l' ls'] eqn:Htk.
      { destruct k, (labels s); simpl in *; try lia; done. }
      simpl. by rewrite <-(assoc_L (++)).
Qed.

Lemma domain_Match_reference ps input :
  wf_patterns ps -> Match (build ps) input = reference ps input.
Proof.
  intros Hps. rewrite Match_labels by done. unfold reference.
  pose proof (suffix_values_labels ps input [] Hps (or_introl eq_refl)) as Hs.
  etrans; [|etrans; [symmetry; apply Hs|]]; f_equal; apply map_ext_in.
  - intros k _. by rewrite app_nil_r.
  - intros k Hk%in_seq. unfold suffix_values. simpl.
    rewrite domain_Match_boundary, app_nil_r by lia. done.
Qed.

Lemma any_loop_match fuel s i n :
  any_loop fuel s i n = negb (bool_decide (match_loop fuel s i n [] = [])).
Proof.
  assert (forall fuel i n acc, acc <> [] -> match_loop fuel s i n acc <> []) as Hacc.
  { clear. induction fuel as [|fuel IH]; intros [|i] n acc Hne; simpl; try done.
    destruct (next_label s (S i) i) as [part j]. destruct (children n !! part) as [n'|]; [|done].
    assert (match values n' with [] => acc | v => acc ++ [v] end <> []) as Hv
      by (destruct (values n'), acc; done).
    case_bool_decide; [done|]. by apply IH. }
  revert i n. induction fuel as [|fuel IH]; intros [|i] n; simpl; try done.
  destruct (next_label s (S i) i) as [part j]. destruct (children n !! part) as [n'|]; [|done].
  destruct (values n') as [|v vs] eqn:Hv; simpl.
  - case_bool_decide; [done|]. apply IH.
  - rewrite bool_decide_false; [done|]. case_bool_decide; [done|]. by apply Hacc.
Qed.

Lemma match_loop_nonempty fuel s i n acc :
  Forall (.≠ []) acc -> Forall (.≠ []) (match_loop fuel s i n acc).
Proof.
  revert i n acc. induction fuel as [|fuel IH]; intros [|i] n acc Hacc; simpl; try done.
  destruct (next_label s (S i) i) as [part j]. destruct (children n !! part) as [n'|]; [|done].
  assert (Forall (.≠ []) match values n' with [] => acc | v => acc ++ [v] end).
  { destruct (values n'); [done|]. apply Forall_app. split; [done|]. by repeat constructor. }
  case_bool_decide; [done|]. by apply IH.
Qed.

Lemma concat_rev_nil {A} (l : list (list A)) : Forall (.≠ []) l -> concat (rev l) = [] <-> l = [].
Proof.
  intros Hl. split; [|by intros ->]. destruct l as [|x l] using rev_ind; [done|].
  rewrite rev_snoc. simpl. intros [-> _]%app_nil. apply Forall_app in Hl as [_ [? _]%Forall_cons]. done.
Qed.

Lemma domain_MatchAny_Match g input : MatchAny g input = true <-> Match g input ≠ [].
Proof.
  unfold MatchAny, Match. rewrite any_loop_match, negb_true_iff, bool_decide_eq_false.
  rewrite CompositeMatchesReverse_concat, concat_rev_nil; [done|]. by apply match_loop_nonempty.
Qed.

Lemma domain_reference_elem ps input v :
  wf_patterns ps ->
  v ∈ reference ps input <-> exists p, (p, v) ∈ ps /\ domain_Match p input = true.
Proof.
  intros Hps. unfold reference, values_of. rewrite elem_of_concat. split.
  - intros (l & Hv & Hl). apply list_elem_of_In, in_map_iff in Hl as (k & <- & _).
    simpl in Hv. destruct (domain_Match _ _) eqn:Hm; [|by apply elem_of_nil in Hv].
    apply list_elem_of_fmap in Hv as ([p v'] & -> & [Hp ?]%list_elem_of_filter). simpl in *.
    exists p. split; [done|]. by rewrite Hp.
  - intros (p & Hp & Hm). exists (values_of ps p). split.
    { apply list_elem_of_fmap. exists (p, v). split; [done|]. by apply list_elem_of_filter. }
    assert (p `suffix_of` input) as [t ->].
    { apply domain_Match_spec in Hm as [->|Hm]; [done|]. etrans; [|done]. by exists ["."%byte]. }
    unfold wf_patterns in Hps. rewrite Forall_forall in Hps. pose proof (Hps _ Hp) as [Hne _]. simpl in Hne.
    apply list_elem_of_In, in_map_iff. exists (length t). rewrite drop_app_length, Hm.
    split; [done|]. apply in_seq. rewrite length_app. destruct p; simpl in *; [done|lia].
Qed.
End DomainGroupFacts.

(** ** The substring group against a reference *)

Module SubstrGroupFacts.
Import SubstrGroup.

(** Right-to-left, non-overlapping occurrences. *)
Fixpoint hits_from (fuel : nat) (input p : bytes) (j : option nat) : list nat :=
  match fuel, j with
  | S fuel', Some j' => j' :: hits_from fuel' input p (LastIndex (take j' input) p)
  | _, _ => []
  end.

Definition hits (input p : bytes) : list nat :=
  hits_from (S (length input)) input p (LastIndex input p).

Definition measure (j : option nat) : nat := match j with None => 0 | Some j' => S j' end.

Lemma LastIndex_take_measure j input p :
  p <> [] -> measure (LastIndex (take j input) p) <= j.
Proof.
  intros Hp. destruct (LastIndex _ _) as [j'|] eqn:Hl; simpl; [|lia].
  apply LastIndex_Some in Hl as [Hl _]. rewrite length_take in Hl.
  assert (0 < length p) by (destruct p; simpl; [done|lia]). lia.
Qed.

Lemma LastIndex_measure input p : p <> [] -> measure (LastIndex input p) <= length input.
Proof.
  intros Hp. rewrite <-(take_ge input (length input)) at 1 by done.
  by apply LastIndex_take_measure.
Qed.

Lemma scan_pattern_hits fuel input p i j result :
  p <> [] -> measure j < fuel ->
  scan_pattern fuel input p i j result
  = Some (result ++ ((fun j' => entry j' i) <$> hits_from fuel input p j)).
Proof.
  intros Hp. revert j result. induction fuel as [|fuel IH]; intros j result Hm; [lia|].
  destruct j as [j|]; simpl; [|by rewrite app_nil_r].
  rewrite IH by (pose proof (LastIndex_take_measure j input p Hp); simpl in *; lia).
  by rewrite <-(assoc_L (++)).
Qed.

(** An empty pattern is found again at the same place, for ever. *)
Lemma LastIndex_empty s : LastIndex s [] = Some (length s).
Proof. unfold LastIndex. simpl. rewrite Nat.sub_0_r. by destruct (length s). Qed.

Lemma scan_pattern_empty fuel input i j result :
  j <= length input -> scan_pattern fuel input [] i (Some j) result = None.
Proof.
  revert result. induction fuel as [|fuel IH]; intros result Hj; simpl; [done|].
  rewrite LastIndex_empty, length_take, Nat.min_l by done. by apply IH.
Qed.

Lemma scan_patterns_empty fuel input ps i result :
  [] ∈ ps -> scan_patterns fuel input ps i result = None.
Proof.
  intros Hin. revert i result. induction ps as [|p ps IH]; intros i result; simpl.
  { by apply elem_of_nil in Hin. }
  apply elem_of_cons in Hin as [<-|Hin].
  - by rewrite LastIndex_empty, scan_pattern_empty.
  - destruct (scan_pattern _ _ _ _ _ _); simpl; [by apply IH|done].
Qed.

Lemma hits_from_le fuel input p j j' :
  p <> [] -> j' ∈ hits_from fuel input p j -> S j' <= measure j.
Proof.
  intros Hp. revert j. induction fuel as [|fuel IH]; intros [j|]; simpl;
    try (by intros ?%elem_of_nil).
  intros [->|Hj]%elem_of_cons; [done|]. apply IH in Hj.
  pose proof (LastIndex_take_measure j input p Hp). lia.
Qed.

Lemma hits_from_NoDup fuel input p j : p <> [] -> NoDup (hits_from fuel input p j).
Proof.
  intros Hp. revert j. induction fuel as [|fuel IH]; intros [j|]; simpl; try constructor.
  - intros Hj%hits_from_le; [|done]. pose proof (LastIndex_take_measure j input p Hp). lia.
  - apply IH.
Qed.

Lemma hits_lt input p j : p <> [] -> j ∈ hits input p -> j < length input.
Proof.
  intros Hp Hj. apply hits_from_le in Hj; [|done].
  pose proof (LastIndex_measure input p Hp). lia.
Qed.

Lemma occurs_at_take n s p j : p <> [] -> occurs_at (take n s) p j -> occurs_at s p j.
Proof.
  intros Hp Ho. pose proof (occurs_at_length _ _ _ Hp Ho) as Hlen.
  rewrite length_take in Hlen. unfold occurs_at in *.
  rewrite <-Ho at 2. rewrite skipn_firstn_comm, take_take. f_equal. lia.
Qed.

Lemma hits_from_occurs fuel input p j n :
  p <> [] -> (forall m, j = Some m -> occurs_at input p m) ->
  n ∈ hits_from fuel input p j -> occurs_at input p n.
Proof.
  intros Hp. revert j. induction fuel as [|fuel IH]; intros [j|] Hj; simpl;
    try (by intros ?%elem_of_nil).
  intros [->|Hn]%elem_of_cons; [by apply Hj|]. eapply IH, Hn.
  intros m Hm%LastIndex_Some. eapply occurs_at_take; [done|apply Hm].
Qed.

Lemma hits_occurs input p j : p <> [] -> j ∈ hits input p -> occurs_at input p j.
Proof.
  intros Hp. apply hits_from_occurs; [done|]. by intros m [_ ?]%LastIndex_Some.
Qed.

Lemma hits_nonempty input p :
  p <> [] -> (exists j, j ∈ hits input p) <-> Contains input p = true.
Proof.
  intros Hp. unfold Contains. rewrite bool_decide_eq_true. unfold hits. split.
  - intros [j Hj]. destruct (LastIndex input p); [by eauto|]. by apply elem_of_nil in Hj.
  - intros [j ->]. exists j. left.
Qed.

(** *** The packed keys *)

Lemma entry_small j i :
  (Z.of_nat j < 2 ^ 16)%Z -> (Z.of_nat i < 2 ^ 16)%Z ->
  entry j i = (Z.of_nat j * 2 ^ 16 + Z.of_nat i)%Z.
Proof.
  intros Hj Hi. unfold entry.
  rewrite Z.shiftl_mul_pow2 by lia. change (2 ^ 16)%Z with 65536%Z.
  rewrite !u32_small by (rewrite ?u32_small; lia).
  change 0xffff%Z with (Z.ones 16). rewrite Z.land_ones by lia.
  rewrite Z.mod_small by lia.
  pose proof (Z.add_lor_land (Z.of_nat j * 65536) (Z.of_nat i)) as Hs.
  enough (Z.land (Z.of_nat j * 65536) (Z.of_nat i) = 0)%Z by lia.
  change 65536%Z with (2 ^ 16)%Z. apply Z.bits_inj'. intros n Hn.
  rewrite Z.land_spec, Z.bits_0. destruct (decide (n < 16)%Z).
  - by rewrite Z.mul_pow2_bits_low.
  - rewrite <-(Z.mod_small (Z.of_nat i) (2 ^ 16)) by lia.
    by rewrite Z.mod_pow2_bits_high, andb_false_r by lia.
Qed.

Lemma entry_index j i :
  (Z.of_nat j < 2 ^ 16)%Z -> (Z.of_nat i < 2 ^ 16)%Z ->
  Z.to_nat (Z.land (entry j i) 0xffff) = i.
Proof.
  intros Hj Hi. rewrite entry_small by done.
  change 0xffff%Z with (Z.ones 16). rewrite Z.land_ones by lia.
  rewrite Z.add_comm, Z.mod_add, Z.mod_small by lia. lia.
Qed.

Lemma sort_result_spec `{SortSlice} l :
  sort_result l ≡ₚ l /\ StronglySorted Z.le (sort_result l).
Proof.
  assert (forall l, StronglySorted Z.le (sort_Slice Z.ltb l)) as Hsorted.
  { intros l'. pose proof (sort_Slice_sorted Z.ltb l') as Hs.
          specialize (Hs ltac:(lia) ltac:(lia)). revert Hs. generalize (sort_Slice Z.ltb l'). clear.
    induction 1 as [|a l'' _ IH Ha]; constructor; [done|].
    eapply Forall_impl; [exact Ha|]. simpl. lia. }
  destruct l as [|a [|b [|c l]]]; simpl.
  - split; [done|constructor].
  - split; [done|repeat constructor].
  - destruct (Z.ltb_spec b a); (split; [|repeat constructor; lia]); [apply perm_swap|done].
  - split; [apply sort_Slice_perm|apply Hsorted].
Qed.

(** *** Specification *)

(** The group built by registering patterns in order. *)
Definition build (ps : list (bytes * Z)) : SubstrMatcherGroup :=
  foldl (fun g pv => AddSubstrMatcher g pv.1 pv.2) new_SubstrMatcherGroup ps.

(** Values by position of the match, and at one position in order of
    registration. *)
Definition reference (ps : list (bytes * Z)) (input : bytes) : list Z :=
  j ← seq 0 (length input); (filter (fun pv => j ∈ hits input pv.1) ps).*2.

Lemma build_fields ps : patterns (build ps) = ps.*1 /\ values (build ps) = ps.*2.
Proof.
  unfold build. induction ps as [|[p v] ps [IH1 IH2]] using rev_ind; [done|].
  rewrite foldl_app, !fmap_app. simpl. by rewrite IH1, IH2.
Qed.

Definition keys (input : bytes) (ps : list bytes) (from : nat) : list Z :=
  concat (imap (fun i p => (fun j => entry j (from + i)) <$> hits input p) ps).

Lemma scan_patterns_keys input ps i result :
  Forall (.≠ []) ps ->
  scan_patterns (S (length input)) input ps i result = Some (result ++ keys input ps i).
Proof.
  intros Hps. revert i result. induction Hps as [|p ps Hp _ IH]; intros i result.
  { unfold keys. simpl. by rewrite app_nil_r. }
  cbn [scan_patterns].
  rewrite scan_pattern_hits by (pose proof (LastIndex_measure input p Hp); done || lia).
  simpl. rewrite IH. f_equal. unfold keys. simpl. rewrite <-(assoc_L (++)). do 2 f_equal.
  - apply list_fmap_ext. intros ???. f_equal. lia.
  - f_equal. apply imap_ext. intros k ??. simpl. apply list_fmap_ext. intros ???. f_equal. lia.
Qed.

(** The reference as the list of its keys, in increasing order. *)
Definition ref_keys (input : bytes) (ps : list bytes) : list Z :=
  j ← seq 0 (length input);
  i ← filter (fun i => j ∈ hits input (ps !!! i)) (seq 0 (length ps)); [entry j i].

Lemma elem_of_keys input ps k :
  k ∈ keys input ps 0 <->
  exists i p j, ps !! i = Some p /\ j ∈ hits input p /\ k = entry j i.
Proof.
  unfold keys. rewrite elem_of_concat. setoid_rewrite elem_of_lookup_imap. split.
  - intros (l & Hk & i & p & -> & Hp). apply list_elem_of_fmap in Hk as (j & -> & Hj).
    by exists i, p, j.
  - intros (i & p & j & Hi & Hj & ->). exists ((fun j => entry j i) <$> hits input p).
    split; [|by eauto]. apply list_elem_of_fmap. by eauto.
Qed.

Section Bounded.
Context (input : bytes) (ps : list bytes).
Context (Hne : Forall (.≠ []) ps).
Context (Hlen : (Z.of_nat (length input) <= 2 ^ 16)%Z).
Context (Hcount : (Z.of_nat (length ps) <= 2 ^ 16)%Z).

Lemma elem_of_ref_keys k :
  k ∈ ref_keys input ps <->
  exists i p j, ps !! i = Some p /\ j ∈ hits input p /\ k = entry j i.
Proof.
  unfold ref_keys. rewrite list_elem_of_bind. setoid_rewrite list_elem_of_bind.
  setoid_rewrite list_elem_of_singleton. setoid_rewrite list_elem_of_filter. setoid_rewrite elem_of_seq. split.
  - intros (j & (i & -> & Hj & Hi) & Hjl). exists i, (ps !!! i), j.
    split; [|done]. apply list_lookup_lookup_total_lt. lia.
  - intros (i & p & j & Hi & Hj & ->). exists j.
    assert (p <> []) by (rewrite Forall_lookup in Hne; by eapply Hne).
    pose proof (hits_lt _ _ _ ltac:(done) Hj). pose proof (lookup_lt_Some _ _ _ Hi).
    split; [|lia]. exists i. rewrite (list_lookup_total_correct _ _ _ Hi).
    repeat split; [done|lia..].
Qed.


Lemma ref_keys_sorted : StronglySorted Z.lt (ref_keys input ps).
Proof.
  unfold ref_keys. eapply StronglySorted_bind; [apply StronglySorted_seq| |].
  - intros j Hj%elem_of_seq. eapply StronglySorted_bind.
    + apply StronglySorted_filter, StronglySorted_seq.
    + intros i _. repeat constructor.
    + intros i i' a b [_ Hi%elem_of_seq]%list_elem_of_filter
        [_ Hi'%elem_of_seq]%list_elem_of_filter Hlt ->%list_elem_of_singleton
        ->%list_elem_of_singleton. rewrite !entry_small by lia. lia.
  - intros j j' a b Hj%elem_of_seq Hj'%elem_of_seq Hlt
      (i & ->%list_elem_of_singleton & [_ Hi%elem_of_seq]%list_elem_of_filter)%list_elem_of_bind
      (i' & ->%list_elem_of_singleton & [_ Hi'%elem_of_seq]%list_elem_of_filter)%list_elem_of_bind.
    rewrite !entry_small by lia. lia.
Qed.

Lemma keys_NoDup : NoDup (keys input ps 0).
Proof.
  unfold keys. revert Hne Hcount. induction ps as [|p ps' IH] using rev_ind; [constructor|].
  rewrite imap_app, concat_app. simpl. rewrite app_nil_r, Nat.add_0_r.
  intros [Hps' [Hp _]%Forall_cons]%Forall_app Hc. rewrite length_app in Hc. simpl in Hc.
  apply NoDup_app. repeat split; [apply IH; [done|lia]| |].
  - intros k (i & q & j & Hi & Hj & ->)%elem_of_keys Hk.
    apply list_elem_of_fmap in Hk as (j' & Heq & Hj').
    rewrite Forall_lookup in Hps'. pose proof (lookup_lt_Some _ _ _ Hi).
    apply hits_lt in Hj; [|by eapply Hps']. apply hits_lt in Hj'; [|done].
    apply (f_equal (fun e => Z.to_nat (Z.land e 0xffff))) in Heq.
    rewrite !entry_index in Heq by lia. lia.
  - apply NoDup_fmap_2_strong; [|by apply hits_from_NoDup].
    intros j j' Hj%hits_lt Hj'%hits_lt Heq; [|done..].
    rewrite !entry_small in Heq by lia. lia.
Qed.

Lemma sort_keys `{SortSlice} : sort_result (keys input ps 0) = ref_keys input ps.
Proof.
  destruct (sort_result_spec (keys input ps 0)) as [Hperm Hsorted].
  pose proof ref_keys_sorted as Href.
  eapply StronglySorted_unique with (R := Z.le); [exact _|done| |].
  - eapply StronglySorted_mono, Href. lia.
  - rewrite Hperm. apply NoDup_Permutation; [apply keys_NoDup|exact (StronglySorted_NoDup Z.lt _ Href)|].
    intros k. by rewrite elem_of_keys, elem_of_ref_keys.
Qed.
End Bounded.

Lemma filter_indices {A} `{Inhabited A} (l : list A) (P : A -> Prop) `{forall x, Decision (P x)} :
  (fun i => l !!! i) <$> filter (fun i => P (l !!! i)) (seq 0 (length l)) = filter P l.
Proof.
  induction l as [|x l IH] using rev_ind; [done|].
  rewrite length_app, seq_app, !filter_app, fmap_app. simpl. f_equal.
  - rewrite <-IH. apply fmap_filter_ext.
    intros i Hi%elem_of_seq. by rewrite lookup_total_app_l by lia.
  - rewrite !filter_cons, filter_nil, list_lookup_total_middle by done.
    by case_decide; simpl; rewrite ?list_lookup_total_middle.
Qed.

Lemma substr_Match_reference `{SortSlice} ps input :
  Forall (fun pv => pv.1 ≠ []) ps ->
  (Z.of_nat (length input) <= 2 ^ 16)%Z -> (Z.of_nat (length ps) <= 2 ^ 16)%Z ->
  Match (S (length input)) (build ps) input = Some (reference ps input).
Proof.
  intros Hne Hlen Hcount. destruct (build_fields ps) as [Hp Hv]. unfold Match.
  assert (Forall (.≠ []) ps.*1) as Hne1 by (by apply Forall_fmap).
  rewrite Hp, Hv, scan_patterns_keys by done. simpl.
  rewrite sort_keys by (rewrite ?length_fmap; done). f_equal. unfold ref_keys, reference.
  rewrite map_bind. apply bind_ext_in. intros j Hj%elem_of_seq.
  rewrite map_bind. simpl. rewrite bind_singleton, length_fmap.
  rewrite <-(filter_indices ps (fun pv => j ∈ hits input pv.1)), <-list_fmap_compose. apply fmap_filter_ext.
  intros i Hi%elem_of_seq. rewrite entry_index by lia.
  by rewrite (list_lookup_total_fmap fst ps), (list_lookup_total_fmap snd ps) by lia.
Qed.

Lemma Match_empty_diverges `{SortSlice} fuel ps input v :
  ([], v) ∈ ps -> Match fuel (build ps) input = None.
Proof.
  intros Hin. unfold Match. destruct (build_fields ps) as [-> _].
  rewrite scan_patterns_empty; [done|]. apply list_elem_of_fmap. by exists ([], v).
Qed.

Lemma substr_reference_elem ps input v :
  Forall (fun pv => pv.1 ≠ []) ps ->
  v ∈ reference ps input <-> exists p, (p, v) ∈ ps /\ Contains input p = true.
Proof.
  intros Hne. rewrite Forall_forall in Hne. unfold reference. rewrite list_elem_of_bind. split.
  - intros (j & Hv & Hj). apply list_elem_of_fmap in Hv as ([p v'] & -> & [Hh Hp]%list_elem_of_filter).
    exists p. split; [done|]. apply hits_nonempty; [by apply (Hne _ Hp)|by exists j].
  - intros (p & Hp & Hc). apply hits_nonempty in Hc as [j Hj]; [|by apply (Hne _ Hp)].
    exists j. split.
    + apply list_elem_of_fmap. exists (p, v). split; [done|]. by apply list_elem_of_filter.
    + apply elem_of_seq. apply hits_lt in Hj; [lia|by apply (Hne _ Hp)].
Qed.

Lemma substr_MatchAny_exists ps input :
  MatchAny (build ps) input = true <-> exists p v, (p, v) ∈ ps /\ Contains input p = true.
Proof.
  unfold MatchAny. destruct (build_fields ps) as [-> _]. rewrite existsb_exists.
  setoid_rewrite <-list_elem_of_In. setoid_rewrite list_elem_of_fmap. split.
  - intros (p & ([p' v] & -> & Hp) & Hc). by exists p', v.
  - intros (p & v & Hp & Hc). exists p. split; [|done]. by exists (p, v).
Qed.
End SubstrGroupFacts.

(** ** Hash table and list groups *)

Module FullGroupFacts.
Import FullGroup.

Definition build (ps : list (bytes * Z)) : FullMatcherGroup :=
  foldl (fun g pv => AddFullMatcher g pv.1 pv.2) NewFullMatcherGroup ps.

Definition values_of (ps : list (bytes * Z)) (p : bytes) : list Z :=
  (filter (fun pv => pv.1 = p) ps).*2.

Lemma build_lookup ps p :
  matchers (build ps) !! p = match values_of ps p with [] => None | vs => Some vs end.
Proof.
  unfold build, values_of. induction ps as [|[q v] ps IH] using rev_ind; [done|].
  rewrite foldl_app. simpl. rewrite filter_app, fmap_app, filter_cons, filter_nil. simpl.
  destruct (decide (q = p)) as [->|Hq].
  - rewrite lookup_insert_eq, IH. by destruct (filter _ ps).*2.
  - rewrite lookup_insert_ne, IH, app_nil_r by done. done.
Qed.

Lemma Match_values ps input : Match (build ps) input = values_of ps input.
Proof. unfold Match. rewrite build_lookup. by destruct (values_of ps input). Qed.

Lemma MatchAny_Match ps input :
  MatchAny (build ps) input = negb (bool_decide (Match (build ps) input = [])).
Proof.
  unfold MatchAny, Match. rewrite build_lookup. by destruct (values_of ps input).
Qed.

Lemma elem_of_values ps p v : v ∈ values_of ps p <-> (p, v) ∈ ps.
Proof.
  unfold values_of. rewrite list_elem_of_fmap. split.
  - intros ([q v'] & -> & [Hq ?]%list_elem_of_filter). simpl in *. by subst.
  - intros Hp. exists (p, v). split; [done|]. by apply list_elem_of_filter.
Qed.
End FullGroupFacts.

Module SimpleGroupFacts.
Import SimpleGroup.
Section SimpleGroupFacts.
Context `{StringLibs}.

Definition build (ms : list (Matcher * Z)) : SimpleMatcherGroup :=
  foldl (fun g mv => AddMatcher g mv.1 mv.2) {| matchers := [] |} ms.

Lemma build_matchers ms :
  matchers (build ms) = (fun mv => {| matcher := mv.1; value := mv.2 |}) <$> ms.
Proof.
  unfold build. induction ms as [|[m v] ms IH] using rev_ind; [done|].
  rewrite foldl_app, fmap_app. simpl. by rewrite IH.
Qed.

Lemma Match_filter ms input :
  Match (build ms) input = (filter (fun mv => matcher_Match mv.1 input = true) ms).*2.
Proof.
  unfold Match. rewrite build_matchers. induction ms as [|[m v] ms IH] using rev_ind; [done|].
  rewrite fmap_app, foldl_app, IH, filter_app, fmap_app, filter_cons, filter_nil. simpl.
  case_match; case_decide; simpl; try done. by rewrite app_nil_r.
Qed.

Lemma simple_MatchAny_exists ms input :
  MatchAny (build ms) input = true <->
  exists m v, (m, v) ∈ ms /\ matcher_Match m input = true.
Proof.
  unfold MatchAny. rewrite build_matchers, existsb_exists.
  setoid_rewrite <-list_elem_of_In. setoid_rewrite list_elem_of_fmap. split.
  - intros (e & ([m v] & -> & Hm) & Hc). by exists m, v.
  - intros (m & v & Hm & Hc). exists {| matcher := m; value := v |}. split; [|done].
    by exists (m, v).
Qed.
End SimpleGroupFacts.
End SimpleGroupFacts.

(** ** Properties *)

(** The label trie returns, for every list of patterns, exactly the
    values of the suffixes of the input that match as domains: longest
    suffix first and, for one pattern, in order of registration. *)
Theorem domain_trie_is_reference ps input :
  DomainGroupFacts.wf_patterns ps ->
  DomainGroup.Match (DomainGroupFacts.build ps) input = DomainGroupFacts.reference ps input.
Proof. apply DomainGroupFacts.domain_Match_reference. Qed.

(** The trie's MatchAny, which stops at the first node with values,
    accepts an input exactly when some registered domain does. *)
Theorem domain_trie_MatchAny_correct ps input :
  DomainGroupFacts.wf_patterns ps ->
  DomainGroup.MatchAny (DomainGroupFacts.build ps) input = true <->
  exists p v, (p, v) ∈ ps /\ domain_Match p input = true.
Proof.
  intros Hps. rewrite DomainGroupFacts.domain_MatchAny_Match, DomainGroupFacts.domain_Match_reference by done.
  setoid_rewrite (exists_swap (A:=bytes)). setoid_rewrite <-DomainGroupFacts.domain_reference_elem; [|done].
  apply nonempty_elem.
Qed.

(** The substring group's sort of packed keys yields the matches by
    position and, at one position, by registration, for inputs and pattern
    lists within the 16-bit fields of the key; the fuel, one search per input
    byte and one more, is enough for every pattern. *)
Theorem substr_Match_is_reference `{SortSlice} ps input :
  Forall (fun pv => pv.1 ≠ []) ps ->
  (Z.of_nat (length input) <= 2 ^ 16)%Z -> (Z.of_nat (length ps) <= 2 ^ 16)%Z ->
  SubstrGroup.Match (S (length input)) (SubstrGroupFacts.build ps) input
  = Some (SubstrGroupFacts.reference ps input).
Proof. apply SubstrGroupFacts.substr_Match_reference. Qed.

(** One empty pattern makes the substring group's Match loop forever, on
    every input: no amount of fuel is enough. *)
Theorem substr_empty_pattern_diverges `{SortSlice} fuel ps input v :
  ([], v) ∈ ps -> SubstrGroup.Match fuel (SubstrGroupFacts.build ps) input = None.
Proof. apply SubstrGroupFacts.Match_empty_diverges. Qed.

(** *** Witnesses *)

Definition sample_domains : list (bytes * Z) := [(bs "com", 1%Z); (bs "a.com", 2%Z); (bs "com", 3%Z)].

Lemma sample_domains_wf : DomainGroupFacts.wf_patterns sample_domains.
Proof. repeat constructor; done. Defined.

Lemma domain_trie_is_reference_witness :
  DomainGroup.Match (DomainGroupFacts.build sample_domains) (bs "x.a.com") = [2; 1; 3]%Z.
Proof.
  refine (eq_trans (domain_trie_is_reference sample_domains (bs "x.a.com") sample_domains_wf) _).
  vm_compute. reflexivity.
Defined.

Lemma domain_trie_MatchAny_correct_witness :
  DomainGroup.MatchAny (DomainGroupFacts.build sample_domains) (bs "x.com") = true.
Proof.
  refine (proj2 (domain_trie_MatchAny_correct sample_domains (bs "x.com") sample_domains_wf) _).
  exists (bs "com"), 1%Z. split; [left|vm_compute; reflexivity].
Defined.

Lemma substr_Match_is_reference_witness :
  @SubstrGroup.Match merge_sort_slice 5 (SubstrGroupFacts.build [(bs "bb", 1%Z); (bs "a", 2%Z)]) (bs "abba")
  = Some [2; 1; 2]%Z.
Proof.
  refine (eq_trans (@substr_Match_is_reference merge_sort_slice [(bs "bb", 1%Z); (bs "a", 2%Z)] (bs "abba") _ _ _) _).
  - repeat constructor; done.
  - vm_compute. discriminate.
  - vm_compute. discriminate.
  - vm_compute. reflexivity.
Defined.

Lemma substr_empty_pattern_diverges_witness :
  @SubstrGroup.Match merge_sort_slice 1000 (SubstrGroupFacts.build [(bs "a", 1%Z); ([], 2%Z)]) (bs "abba") = None.
Proof. refine (@substr_empty_pattern_diverges merge_sort_slice 1000 _ _ 2%Z _). right. left. Defined.
