(* ===== verification/AcAutomaton.v ===== *)
(** * The Aho-Corasick group, [common/strmatcher/matchergroup_ac_automation.go]

    One automaton, read from the end of the input to its beginning, answers
    Full, Domain and Substr patterns at once.  Patterns first grow a trie
    ([addPattern]); [Build] then completes it breadth first into an automaton
    and compresses the fail links to nodes that carry Substr patterns.

    The facts below relate a group built from any list of patterns to the
    three [Match] methods of [Matchers]. *)

From S2P Require Import Prelude Matchers.

(** ** Data *)

(** src/common/strmatcher/matchergroup_ac_automation.go:7-10 acValidCharCount *)
Definition acValidCharCount : nat := 39.

(** [acTrieEdge] is [true] and [acFailEdge] is [false].
    src/common/strmatcher/matchergroup_ac_automation.go acNode *)
Record acNode := { next : list nat; edge : list bool; fail : nat; match_ : nat }.

(** src/common/strmatcher/matchergroup_ac_automation.go acValue *)
Record acValue := { vFull : list Z; vDomain : list Z; vSubstr : list Z }.

(** src/common/strmatcher/matchergroup_ac_automation.go ACAutomatonMatcherGroup *)
Record ACAutomatonMatcherGroup := { nodes : list acNode; values : list acValue }.

Definition new_acNode : acNode :=
  {| next := replicate acValidCharCount 0; edge := replicate acValidCharCount false;
     fail := 0; match_ := 0 |}.
Definition new_acValue : acValue := {| vFull := []; vDomain := []; vSubstr := [] |}.

#[export] Instance acNode_inhabited : Inhabited acNode := populate new_acNode.
#[export] Instance acValue_inhabited : Inhabited acValue := populate new_acValue.

(** [values[m][t]] and appending to it; the group has no Regex row. *)
Definition acValue_get (t : Type_) (v : acValue) : list Z :=
  match t with Full => vFull v | Domain => vDomain v | Substr => vSubstr v | _ => [] end.

Definition acValue_append (t : Type_) (x : Z) (v : acValue) : acValue :=
  match t with
  | Full => {| vFull := vFull v ++ [x]; vDomain := vDomain v; vSubstr := vSubstr v |}
  | Domain => {| vFull := vFull v; vDomain := vDomain v ++ [x]; vSubstr := vSubstr v |}
  | Substr => {| vFull := vFull v; vDomain := vDomain v; vSubstr := vSubstr v ++ [x] |}
  | _ => v
  end.

Definition set_next (e i : nat) (n : acNode) : acNode :=
  {| next := <[e := i]> (next n); edge := edge n; fail := fail n; match_ := match_ n |}.
Definition set_edge (e : nat) (b : bool) (n : acNode) : acNode :=
  {| next := next n; edge := <[e := b]> (edge n); fail := fail n; match_ := match_ n |}.
Definition set_fail (i : nat) (n : acNode) : acNode :=
  {| next := next n; edge := edge n; fail := i; match_ := match_ n |}.
Definition set_match (m : nat) (n : acNode) : acNode :=
  {| next := next n; edge := edge n; fail := fail n; match_ := m |}.

(** The character classes: letters without case, hyphen, dot, digits, and 0
    for everything else.
    src/common/strmatcher/matchergroup_ac_automation.go acCharset *)
Definition acCharset (b : byte) : nat :=
  let c := byte_to_Z b in
  Z.to_nat (if ((65 <=? c) && (c <=? 90))%Z then c - 64
            else if ((97 <=? c) && (c <=? 122))%Z then c - 96
            else if (c =? 45)%Z then 27
            else if (c =? 46)%Z then 28
            else if ((48 <=? c) && (c <=? 57))%Z then c - 19
            else 0)%Z.

(** ** Registration *)

(** src/common/strmatcher/matchergroup_ac_automation.go ACAutomatonMatcherGroup.addNode *)
Definition addNode (ac : ACAutomatonMatcherGroup) : ACAutomatonMatcherGroup * nat :=
  ({| nodes := nodes ac ++ [new_acNode]; values := values ac |}, length (nodes ac)).

(** src/common/strmatcher/matchergroup_ac_automation.go ACAutomatonMatcherGroup.addMatchEntry *)
Definition addMatchEntry (ac : ACAutomatonMatcherGroup) : ACAutomatonMatcherGroup * nat :=
  ({| nodes := nodes ac; values := values ac ++ [new_acValue] |}, length (values ac)).

Definition update_node (i : nat) (f : acNode -> acNode) (ac : ACAutomatonMatcherGroup) :
    ACAutomatonMatcherGroup :=
  {| nodes := alter f i (nodes ac); values := values ac |}.

(** src/common/strmatcher/matchergroup_ac_automation.go NewACAutomatonMatcherGroup *)
Definition NewACAutomatonMatcherGroup : ACAutomatonMatcherGroup :=
  (addMatchEntry (addNode {| nodes := []; values := [] |}).1).1.

(** The loop of addPattern; [codes] are the character classes of the pattern
    from its last byte to its first.
    src/common/strmatcher/matchergroup_ac_automation.go:62-73 ACAutomatonMatcherGroup.addPattern *)
Fixpoint add_path (ac : ACAutomatonMatcherGroup) (nodeIdx : nat) (codes : list nat) :
    ACAutomatonMatcherGroup * nat :=
  match codes with
  | [] => (ac, nodeIdx)
  | edgeIdx :: codes' =>
      let nextIdx := next (nodes ac !!! nodeIdx) !!! edgeIdx in
      if decide (nextIdx = 0) then
        let '(ac1, newIdx) := addNode ac in
        let ac2 := update_node nodeIdx (set_next edgeIdx newIdx) ac1 in
        let ac3 := update_node nodeIdx (set_edge edgeIdx true) ac2 in
        add_path ac3 newIdx codes'
      else add_path ac nextIdx codes'
  end.

(** src/common/strmatcher/matchergroup_ac_automation.go ACAutomatonMatcherGroup.addPattern *)
Definition addPattern (ac : ACAutomatonMatcherGroup) (nodeIdx : nat) (pattern : bytes)
    (matcherType : Type_) (value : Z) : ACAutomatonMatcherGroup * nat :=
  let '(ac1, nodeIdx') := add_path ac nodeIdx (acCharset <$> rev pattern) in
  let ac2 :=
    if decide (match_ (nodes ac1 !!! nodeIdx') = 0) then
      let '(ac', m) := addMatchEntry ac1 in update_node nodeIdx' (set_match m) ac'
    else ac1 in
  ({| nodes := nodes ac2;
      values := alter (acValue_append matcherType value) (match_ (nodes ac2 !!! nodeIdx')) (values ac2) |},
   nodeIdx').

(** src/common/strmatcher/matchergroup_ac_automation.go ACAutomatonMatcherGroup.AddFullMatcher *)
Definition AddFullMatcher (ac : ACAutomatonMatcherGroup) (pattern : bytes) (value : Z) :=
  (addPattern ac 0 pattern Full value).1.

(** src/common/strmatcher/matchergroup_ac_automation.go ACAutomatonMatcherGroup.AddDomainMatcher *)
Definition AddDomainMatcher (ac : ACAutomatonMatcherGroup) (pattern : bytes) (value : Z) :=
  let '(ac1, node) := addPattern ac 0 pattern Domain value in
  (addPattern ac1 node ["."%byte] Domain value).1.

(** src/common/strmatcher/matchergroup_ac_automation.go ACAutomatonMatcherGroup.AddSubstrMatcher *)
Definition AddSubstrMatcher (ac : ACAutomatonMatcherGroup) (pattern : bytes) (value : Z) :=
  (addPattern ac 0 pattern Substr value).1.

(** ** Build *)

(** The local state of Build: the group, the full fail links and the queue.
    src/common/strmatcher/matchergroup_ac_automation.go:92-93 ACAutomatonMatcherGroup.Build *)
Record build_state := { b_ac : ACAutomatonMatcherGroup; b_fail : list nat; b_queue : list nat }.

(** One turn of the inner loop for node [nodeIdx] and its fail node.
    src/common/strmatcher/matchergroup_ac_automation.go:108-122 ACAutomatonMatcherGroup.Build *)
Definition build_edge (nodeIdx failNodeIdx : nat) (st : build_state) (edgeIdx : nat) : build_state :=
  let ac := b_ac st in
  let nextIdx := next (nodes ac !!! nodeIdx) !!! edgeIdx in
  let failIdx := next (nodes ac !!! failNodeIdx) !!! edgeIdx in
  if decide (nextIdx ≠ 0) then
    let m := match_ (nodes ac !!! failIdx) in
    let f := if decide (m ≠ 0 /\ vSubstr (values ac !!! m) ≠ []) then failIdx
             else fail (nodes ac !!! failIdx) in
    {| b_ac := update_node nextIdx (set_fail f) ac;
       b_fail := <[nextIdx := failIdx]> (b_fail st);
       b_queue := b_queue st ++ [nextIdx] |}
  else
    {| b_ac := update_node nodeIdx (set_edge edgeIdx false)
                 (update_node nodeIdx (set_next edgeIdx failIdx) ac);
       b_fail := b_fail st; b_queue := b_queue st |}.

(** The loop over the queue; every node is queued once, so as many turns as
    there are nodes are enough.
    src/common/strmatcher/matchergroup_ac_automation.go:99-124 ACAutomatonMatcherGroup.Build *)
Fixpoint build_loop (fuel : nat) (st : build_state) : option build_state :=
  match b_queue st with
  | [] => Some st
  | nodeIdx :: queue =>
      match fuel with
      | O => None
      | S fuel' =>
          let st' := {| b_ac := b_ac st; b_fail := b_fail st; b_queue := queue |} in
          build_loop fuel'
            (foldl (build_edge nodeIdx (b_fail st !!! nodeIdx)) st' (seq 0 acValidCharCount))
      end
  end.

(** src/common/strmatcher/matchergroup_ac_automation.go:92-98 ACAutomatonMatcherGroup.Build *)
Definition build_init (ac : ACAutomatonMatcherGroup) : build_state :=
  {| b_ac := ac; b_fail := replicate (length (nodes ac)) 0;
     b_queue := filter (.≠ 0)
       ((fun edgeIdx => next (nodes ac !!! 0) !!! edgeIdx) <$> seq 0 acValidCharCount) |}.

(** src/common/strmatcher/matchergroup_ac_automation.go ACAutomatonMatcherGroup.Build *)
Definition Build (ac : ACAutomatonMatcherGroup) : option ACAutomatonMatcherGroup :=
  b_ac <$> build_loop (length (nodes ac)) (build_init ac).

(** ** Matching *)

(** The fail path from node [failIdx]; the second variable of the Go loop
    lags one step behind the first.
    src/common/strmatcher/matchergroup_ac_automation.go:144-148 ACAutomatonMatcherGroup.Match *)
Fixpoint fail_path (fuel : nat) (ac : ACAutomatonMatcherGroup) (failIdx failNode : nat)
    (substrMatches : list (list Z)) : list (list Z) :=
  match fuel with
  | O => substrMatches
  | S fuel' =>
      if decide (failIdx = 0) then substrMatches
      else fail_path fuel' ac (fail (nodes ac !!! failNode)) failIdx
             (substrMatches ++ [vSubstr (values ac !!! match_ (nodes ac !!! failNode))])
  end.

(** src/common/strmatcher/matchergroup_ac_automation.go:130-133 ACAutomatonMatcherGroup.Match *)
Record match_state := {
  fullMatch : bool; node : nat;
  suffixMatches : list (list Z); substrMatches : list (list Z)
}.

(** One turn of the loop, for input byte [c].
    src/common/strmatcher/matchergroup_ac_automation.go:137-164 ACAutomatonMatcherGroup.Match *)
Definition match_step (ac : ACAutomatonMatcherGroup) (st : match_state) (c : byte) : match_state :=
  let e := acCharset c in
  let full := fullMatch st && (edge (nodes ac !!! node st) !!! e) in
  let n := next (nodes ac !!! node st) !!! e in
  let nd := nodes ac !!! n in
  let substr1 :=
    if decide (fail nd ≠ 0) then
      fail_path (2 * length (nodes ac)) ac (fail nd) (fail nd) (substrMatches st)
    else substrMatches st in
  if decide (match_ nd ≠ 0) then
    let vs := values ac !!! match_ nd in
    {| fullMatch := full; node := n;
       substrMatches := match vSubstr vs with [] => substr1 | v => substr1 ++ [v] end;
       suffixMatches :=
         if full && bool_decide (c = "."%byte) then
           match vDomain vs with [] => suffixMatches st | v => suffixMatches st ++ [v] end
         else suffixMatches st |}
  else {| fullMatch := full; node := n; substrMatches := substr1; suffixMatches := suffixMatches st |}.

(** src/common/strmatcher/matchergroup_ac_automation.go ACAutomatonMatcherGroup.Match *)
Definition Match (ac : ACAutomatonMatcherGroup) (input : bytes) : list Z :=
  let st := foldl (match_step ac)
    {| fullMatch := true; node := 0; suffixMatches := []; substrMatches := [] |} (rev input) in
  let nd := nodes ac !!! node st in
  let suffix :=
    if fullMatch st && bool_decide (match_ nd ≠ 0) then
      let vs := values ac !!! match_ nd in
      let s1 := match vDomain vs with [] => suffixMatches st | v => suffixMatches st ++ [v] end in
      match vFull vs with [] => s1 | v => s1 ++ [v] end
    else suffixMatches st in
  match substrMatches st with
  | [] => CompositeMatchesReverse suffix
  | _ => CompositeMatchesReverse (substrMatches st ++ suffix)
  end.

(** src/common/strmatcher/matchergroup_ac_automation.go:188-207 ACAutomatonMatcherGroup.MatchAny *)
Fixpoint any_loop (ac : ACAutomatonMatcherGroup) (full : bool) (n : nat) (rinput : bytes) : bool :=
  match rinput with
  | [] => full && bool_decide (match_ (nodes ac !!! n) ≠ 0)
  | c :: rest =>
      let e := acCharset c in
      let full' := full && (edge (nodes ac !!! n) !!! e) in
      let n' := next (nodes ac !!! n) !!! e in
      let nd := nodes ac !!! n' in
      if decide (fail nd ≠ 0) then true
      else if decide (match_ nd ≠ 0) then
        let vs := values ac !!! match_ nd in
        match vSubstr vs with
        | _ :: _ => true
        | [] =>
            if full' && bool_decide (c = "."%byte) then
              match vDomain vs with _ :: _ => true | [] => any_loop ac full' n' rest end
            else any_loop ac full' n' rest
        end
      else any_loop ac full' n' rest
  end.

(** src/common/strmatcher/matchergroup_ac_automation.go ACAutomatonMatcherGroup.MatchAny *)
Definition MatchAny (ac : ACAutomatonMatcherGroup) (input : bytes) : bool :=
  any_loop ac true 0 (rev input).
