(* ===== verification/AcFacts.v ===== *)
(** * Facts about the Aho-Corasick group

    From words and their suffixes, over the trie that registration grows and
    the invariant of [Build]'s queue, to the correspondence of [Match] and
    [MatchAny] with the matchers a group was built from. *)

From S2P Require Import Prelude Matchers AcAutomaton.

(** ** Words and their suffixes

    A node stands for the word of character classes on the path from the
    root to it; [ws] lists the words in node order. *)

Abbreviation word := (list nat).

Lemma suffix_cons_cases {A} (s u : list A) x :
  s `suffix_of` x :: u -> s = x :: u \/ s `suffix_of` u.
Proof. destruct s; [right; apply suffix_nil|]. apply suffix_cons_inv. Qed.

Section Suffixes.
Context (ws : list word).

(** The longest suffix of [u] among the words. *)
Fixpoint lsuf (u : word) : word :=
  if decide (u ∈ ws) then u else match u with [] => [] | _ :: u' => lsuf u' end.

(** The longest non-empty suffix of [u] that satisfies [P]; [[]] if none. *)
Fixpoint ssuf (P : word -> Prop) `{forall u, Decision (P u)} (u : word) : word :=
  match u with [] => [] | _ :: u' => if decide (P u) then u else ssuf P u' end.

Context (Hroot : [] ∈ ws).

Lemma lsuf_in u : lsuf u ∈ ws.
Proof. induction u; simpl; by case_decide. Qed.

Lemma lsuf_suffix u : lsuf u `suffix_of` u.
Proof.
  induction u as [|x u IH]; simpl; case_decide; try done. by apply suffix_cons_r.
Qed.

Lemma lsuf_max u s : s `suffix_of` u -> s ∈ ws -> s `suffix_of` lsuf u.
Proof.
  induction u as [|x u IH]; intros Hs Hin; simpl; case_decide; try done.
  apply suffix_cons_cases in Hs as [->|Hs]; [done|by apply IH].
Qed.

Lemma suffix_antisym (s t : word) : s `suffix_of` t -> t `suffix_of` s -> s = t.
Proof.
  intros Hst Hts. apply suffix_length_eq; [done|]. by apply suffix_length.
Qed.

Lemma lsuf_unique u x :
  x ∈ ws -> x `suffix_of` u -> (forall s, s `suffix_of` u -> s ∈ ws -> s `suffix_of` x) ->
  lsuf u = x.
Proof.
  intros Hx Hs Hmax. apply suffix_antisym.
  - apply Hmax; [apply lsuf_suffix|apply lsuf_in].
  - by apply lsuf_max.
Qed.

Lemma lsuf_id u : u ∈ ws -> lsuf u = u.
Proof. intros. destruct u; simpl; by rewrite decide_True. Qed.

Lemma lsuf_length u : length (lsuf u) <= length u.
Proof. apply suffix_length, lsuf_suffix. Qed.

Context (Hprefix : forall w e, w ++ [e] ∈ ws -> w ∈ ws).

(** The longest suffix can be computed one symbol at a time. *)
Lemma lsuf_step u e : lsuf (u ++ [e]) = lsuf (lsuf u ++ [e]).
Proof.
  apply lsuf_unique; [apply lsuf_in| |].
  - etrans; [apply lsuf_suffix|]. apply suffix_app, lsuf_suffix.
  - intros s Hs Hin. destruct s as [|s0 s' _] using rev_ind; [apply suffix_nil|].
    apply lsuf_max; [|done].
    assert (s0 = e) as -> by (by eapply suffix_snoc_inv_1).
    apply suffix_snoc_inv_2 in Hs. apply suffix_app, lsuf_max; [done|]. by eapply Hprefix.
Qed.

Lemma lsuf_step_out w e :
  w ++ [e] ∉ ws -> w ≠ [] -> lsuf (w ++ [e]) = lsuf (lsuf (tail w) ++ [e]).
Proof.
  intros Hout Hne. rewrite <-lsuf_step. destruct w as [|x w]; [done|].
  simpl. by rewrite decide_False.
Qed.

Context (P : word -> Prop) `{!forall u, Decision (P u)}.
Context (HP : forall u, P u -> u ∈ ws).

Lemma ssuf_spec u :
  ssuf P u `suffix_of` u /\ (ssuf P u ≠ [] -> P (ssuf P u)) /\
  (forall s, s `suffix_of` u -> s ≠ [] -> P s -> s `suffix_of` ssuf P u).
Proof.
  induction u as [|x u (IH1 & IH2 & IH3)]; simpl.
  { split; [done|]. split; [done|]. intros s ->%suffix_nil_inv ?; done. }
  case_decide; [done|]. split; [by apply suffix_cons_r|]. split; [done|].
  intros s Hs Hne HPs. apply suffix_cons_cases in Hs as [->|Hs]; [done|by apply IH3].
Qed.

Lemma ssuf_unique u x :
  x `suffix_of` u -> (x ≠ [] -> P x) ->
  (forall s, s `suffix_of` u -> s ≠ [] -> P s -> s `suffix_of` x) -> ssuf P u = x.
Proof.
  intros Hx HPx Hmax. destruct (ssuf_spec u) as (Hs & HPs & Hsmax). apply suffix_antisym.
  - destruct (decide (ssuf P u = [])) as [->|]; [apply suffix_nil|]. apply Hmax; auto.
  - destruct (decide (x = [])) as [->|]; [apply suffix_nil|]. apply Hsmax; auto.
Qed.

(** Registered suffixes are suffixes of the longest word. *)
Lemma ssuf_lsuf u : ssuf P u = ssuf P (lsuf u).
Proof.
  destruct (ssuf_spec (lsuf u)) as (Hs & HPs & Hmax). apply ssuf_unique.
  - etrans; [done|apply lsuf_suffix].
  - done.
  - intros s Hsu Hne HPs'. apply Hmax; [|done..]. apply lsuf_max; [done|by apply HP].
Qed.

Lemma ssuf_cases u :
  ssuf P u = if decide (u ≠ [] /\ P u) then u else ssuf P (tail u).
Proof. destruct u as [|x u]; simpl; repeat case_decide; naive_solver. Qed.

Lemma ssuf_in u : ssuf P u ∈ ws.
Proof.
  destruct (ssuf_spec u) as (_ & HPs & _).
  destruct (decide (ssuf P u = [])) as [->|]; auto.
Qed.
End Suffixes.

(** ** The trie *)

Abbreviation nd ac i := (nodes ac !!! i).

(** What has been registered: the word of a node, the row, the value. *)
Abbreviation registration := (word * Type_ * Z)%type.

Definition has_row (t : Type_) : Prop := t = Full \/ t = Domain \/ t = Substr.

#[export] Instance has_row_dec t : Decision (has_row t).
Proof. unfold has_row. apply _. Defined.

(** The child of node [i] along [e]: a trie edge to the node of the longer
    word if it is one of the words, otherwise no edge. *)
Definition trie_edge (ac : ACAutomatonMatcherGroup) (ws : list word) (i : nat) (w : word) (e : nat) : Prop :=
  (exists j, j ≠ 0 /\ ws !! j = Some (w ++ [e]) /\ next (nd ac i) !!! e = j /\ edge (nd ac i) !!! e = true)
  \/ (w ++ [e] ∉ ws /\ next (nd ac i) !!! e = 0 /\ edge (nd ac i) !!! e = false).

Record words_ok (ac : ACAutomatonMatcherGroup) (ws : list word) : Prop := {
  wo_len : length ws = length (nodes ac);
  wo_root : ws !! 0 = Some [];
  wo_nodup : NoDup ws;
  wo_prefix : forall w e, w ++ [e] ∈ ws -> w ∈ ws /\ e < acValidCharCount;
  wo_shape : forall i, i < length ws ->
    length (next (nd ac i)) = acValidCharCount /\ length (edge (nd ac i)) = acValidCharCount;
}.

Record matches_ok (ac : ACAutomatonMatcherGroup) (ws : list word) (regs : list registration) : Prop := {
  mo_lt : forall i, i < length ws -> match_ (nd ac i) < length (values ac);
  mo_inj : forall i j, i < length ws -> j < length ws ->
    match_ (nd ac i) = match_ (nd ac j) -> match_ (nd ac i) ≠ 0 -> i = j;
  mo_zero : values ac !!! 0 = new_acValue;
  mo_values : forall i w t, ws !! i = Some w -> has_row t ->
    acValue_get t (values ac !!! match_ (nd ac i)) = reg_values regs w t;
  mo_matched : forall i w, ws !! i = Some w ->
    match_ (nd ac i) ≠ 0 <-> exists r, r ∈ regs /\ r.1.1 = w;
  mo_in : forall r, r ∈ regs -> r.1.1 ∈ ws /\ has_row r.1.2;
}.

Record trie_ok (ac : ACAutomatonMatcherGroup) (ws : list word) (regs : list registration) : Prop := {
  to_words : words_ok ac ws;
  to_matches : matches_ok ac ws regs;
  to_edges : forall i w e, ws !! i = Some w -> e < acValidCharCount -> trie_edge ac ws i w e;
  to_fail : forall i, i < length ws -> fail (nd ac i) = 0;
}.

Lemma wo_root_in ac ws : words_ok ac ws -> [] ∈ ws.
Proof. intros H. eapply list_elem_of_lookup_2, wo_root, H. Qed.

Lemma wo_inj ac ws i j w : words_ok ac ws -> ws !! i = Some w -> ws !! j = Some w -> i = j.
Proof. intros H Hi Hj. eapply NoDup_lookup; [by eapply wo_nodup|done..]. Qed.

Lemma wo_nonroot ac ws i w : words_ok ac ws -> ws !! i = Some w -> w ≠ [] -> i ≠ 0.
Proof. intros H Hi Hw ->. rewrite (wo_root _ _ H) in Hi. naive_solver. Qed.

(** *** Growing the trie *)

Lemma nodes_add ac i : i < length (nodes ac) -> nd (addNode ac).1 i = nd ac i.
Proof. intros. simpl. by rewrite lookup_total_app_l. Qed.

Lemma nodes_add_new ac : nd (addNode ac).1 (length (nodes ac)) = new_acNode.
Proof. simpl. by rewrite list_lookup_total_middle. Qed.

(** The three updates of the loop of addPattern that add a trie edge. *)
Definition grow (ac : ACAutomatonMatcherGroup) (i e : nat) : ACAutomatonMatcherGroup :=
  update_node i (set_edge e true) (update_node i (set_next e (length (nodes ac))) (addNode ac).1).

Lemma grow_nodes ac i e k :
  i < length (nodes ac) -> k <= length (nodes ac) ->
  nd (grow ac i e) k =
    if decide (k = length (nodes ac)) then new_acNode
    else if decide (k = i) then set_edge e true (set_next e (length (nodes ac)) (nd ac i))
    else nd ac k.
Proof.
  intros Hi Hk. unfold grow, update_node. simpl.
  destruct (decide (k = length (nodes ac))) as [->|Hkl].
  { rewrite !list_lookup_total_alter_ne by lia. by rewrite list_lookup_total_middle. }
  case_decide as Hki.
  - subst. rewrite !list_lookup_total_alter_eq by (rewrite ?length_alter, length_app; simpl; lia).
    by rewrite lookup_total_app_l.
  - rewrite !list_lookup_total_alter_ne by done. by rewrite lookup_total_app_l by lia.
Qed.

Lemma length_grow ac i e : length (nodes (grow ac i e)) = S (length (nodes ac)).
Proof. unfold grow, update_node. simpl. rewrite !length_alter, length_app. simpl. lia. Qed.

Lemma values_grow ac i e : values (grow ac i e) = values ac.
Proof. done. Qed.

Lemma grow_match ac i e k :
  i < length (nodes ac) -> k < length (nodes ac) ->
  match_ (nd (grow ac i e) k) = match_ (nd ac k).
Proof. intros. rewrite grow_nodes by lia. repeat case_decide; subst; simpl; (done || lia). Qed.

Lemma grow_ok ac ws regs i w e :
  trie_ok ac ws regs -> ws !! i = Some w -> e < acValidCharCount -> w ++ [e] ∉ ws ->
  trie_ok (grow ac i e) (ws ++ [w ++ [e]]) regs.
Proof.
  intros [[Hlen Hroot Hnd Hpre Hsh] [Hlt Hinj Hz Hv Hm Hin] Hed Hf] Hi He Hout.
  pose proof (lookup_lt_Some _ _ _ Hi) as Hil.
  assert (forall k v, (ws ++ [w ++ [e]]) !! k = Some v ->
    (k < length ws /\ ws !! k = Some v) \/ (k = length ws /\ v = w ++ [e])) as Hcases.
  { intros k v [?|[? ?]]%lookup_app_Some; [left; eauto using lookup_lt_Some|].
    right. apply list_lookup_singleton_Some in H0 as [??]. split; [lia|done]. }
  split; [split|split| |].
  - rewrite length_snoc, length_grow. lia.
  - rewrite lookup_app_l; [done|]. by apply lookup_lt_Some in Hroot.
  - apply NoDup_app. split; [done|]. split; [|apply NoDup_singleton].
    intros x Hx ->%list_elem_of_singleton. done.
  - intros v e' [Hv'|Hv'%list_elem_of_singleton]%elem_of_app; rewrite elem_of_app.
    + apply Hpre in Hv' as [??]. auto.
    + apply snoc_inj in Hv' as [-> ->]. split; [|done]. left. by eapply list_elem_of_lookup_2.
  - intros k. rewrite length_snoc. intros Hk. rewrite grow_nodes by lia.
    repeat case_decide; subst; simpl; rewrite ?length_replicate, ?length_insert; try done;
      apply Hsh; lia.
  - intros k. rewrite length_snoc. intros Hk. rewrite values_grow, grow_nodes by lia.
    repeat case_decide; subst; simpl; [|apply Hlt; lia..].
    pose proof (Hlt i Hil). lia.
  - intros j k. rewrite length_snoc. intros Hj Hk.
    rewrite !grow_nodes by lia. repeat case_decide; subst; simpl; try done; try lia;
      intros ??; apply Hinj; try lia; done.
  - done.
  - intros k v t Hk Ht. apply Hcases in Hk as [[Hkl Hk]|[-> ->]].
    + rewrite values_grow, grow_match by lia. by apply Hv.
    + rewrite values_grow, grow_nodes, decide_True by lia. simpl. rewrite Hz.
      transitivity (@nil Z); [by destruct Ht as [-> | [-> | ->]]|].
      unfold reg_values. rewrite filter_none; [done|].
      intros r Hr Heq. apply Hin in Hr as [Hr _]. by rewrite Heq in Hr.
  - intros k v Hk. apply Hcases in Hk as [[Hkl Hk]|[-> ->]].
    + rewrite grow_match by lia. by apply Hm.
    + rewrite grow_nodes, decide_True by lia. simpl. split; [done|].
      intros (r & Hr & Heq). apply Hin in Hr as [Hr _]. by rewrite Heq in Hr.
  - intros r Hr. apply Hin in Hr as [??]. rewrite elem_of_app. auto.
  - intros k v e' Hk He'. unfold trie_edge. apply Hcases in Hk as [[Hkl Hk]|[-> ->]].
    + rewrite grow_nodes, decide_False by lia. case_decide as Hki; subst.
      * replace v with w in * by congruence. destruct (Hsh i Hil) as [Hn He2]. simpl.
        destruct (decide (e' = e)) as [->|Hee].
        { left. exists (length (nodes ac)). rewrite !list_lookup_total_insert_eq by lia.
          split; [lia|]. rewrite <-Hlen, list_lookup_middle by done. done. }
        rewrite !list_lookup_total_insert_ne by done.
        destruct (Hed _ _ e' Hi He') as [(j & Hj & Hjw & ?)|[Ho ?]].
        { left. exists j. rewrite lookup_app_l by (by eapply lookup_lt_Some). done. }
        right. rewrite not_elem_of_app, list_elem_of_singleton. split; [|done].
        split; [done|]. by intros [_ ?]%snoc_inj.
      * destruct (Hed _ _ e' Hk He') as [(j & Hj & Hjw & ?)|[Ho ?]].
        { left. exists j. rewrite lookup_app_l by (by eapply lookup_lt_Some). done. }
        right. rewrite not_elem_of_app, list_elem_of_singleton. split; [|done].
        split; [done|]. intros [-> _]%snoc_inj. apply Hki.
        by eapply NoDup_lookup.
    + right. rewrite grow_nodes, decide_True by lia. unfold new_acNode. cbn [next edge].
      rewrite !lookup_total_replicate_2 by done. split; [|done].
      rewrite not_elem_of_app, list_elem_of_singleton. split.
      * by intros [? _]%Hpre.
      * intros Heq. apply (f_equal length) in Heq. rewrite !length_app in Heq. simpl in Heq. lia.
  - intros k. rewrite length_snoc. intros Hk. rewrite grow_nodes by lia.
    repeat case_decide; subst; simpl; [done|apply Hf; lia..].
Qed.

Lemma add_path_ok codes ac ws regs i w :
  trie_ok ac ws regs -> ws !! i = Some w -> Forall (fun e => e < acValidCharCount) codes ->
  exists ws', trie_ok (add_path ac i codes).1 ws' regs /\
    ws' !! (add_path ac i codes).2 = Some (w ++ codes) /\
    (forall k v, ws !! k = Some v -> ws' !! k = Some v).
Proof.
  intros Hok Hi Hc. revert ac ws i w Hok Hi. induction Hc as [|e codes He _ IH]; intros ac ws i w Hok Hi.
  { exists ws. simpl. rewrite app_nil_r. done. }
  cbn [add_path]. destruct (to_edges _ _ _ Hok i w e Hi He) as [(j & Hj & Hjw & Hn & _)|(Hout & Hn & _)].
  - rewrite Hn, decide_False by done. destruct (IH ac ws j (w ++ [e]) Hok Hjw) as (ws' & ? & Hw & ?).
    exists ws'. rewrite <-(assoc_L (++)) in Hw. done.
  - rewrite Hn, decide_True by done. fold (grow ac i e).
    destruct (IH (grow ac i e) (ws ++ [w ++ [e]]) (length (nodes ac)) (w ++ [e])) as (ws' & ? & Hw & Hext).
    + by apply grow_ok.
    + by rewrite <-(wo_len _ _ (to_words _ _ _ Hok)), list_lookup_middle.
    + exists ws'. rewrite <-(assoc_L (++)) in Hw. split; [done|]. split; [done|].
      intros k v Hk. apply Hext. by apply lookup_app_l_Some.
Qed.

(** *** Registering a value at a node *)

(** The part of addPattern after its loop. *)
Definition register (ac : ACAutomatonMatcherGroup) (i : nat) (t : Type_) (v : Z) : ACAutomatonMatcherGroup :=
  let ac2 :=
    if decide (match_ (nd ac i) = 0) then
      let '(ac', m) := addMatchEntry ac in update_node i (set_match m) ac'
    else ac in
  {| nodes := nodes ac2; values := alter (acValue_append t v) (match_ (nd ac2 i)) (values ac2) |}.

Lemma addPattern_register ac i p t v :
  addPattern ac i p t v =
    (register (add_path ac i (acCharset <$> rev p)).1 (add_path ac i (acCharset <$> rev p)).2 t v,
     (add_path ac i (acCharset <$> rev p)).2).
Proof. unfold addPattern. by destruct (add_path _ _ _). Qed.

Lemma acValue_get_append t t' x v : has_row t ->
  acValue_get t' (acValue_append t x v) =
    acValue_get t' v ++ (if decide (t = t') then [x] else []).
Proof.
  intros [-> | [-> | ->]]; destruct t'; simpl; rewrite ?app_nil_r; done.
Qed.

Record registered_at (ac ac' : ACAutomatonMatcherGroup) (i m : nat) (t : Type_) (v : Z) : Prop := {
  ra_len : length (nodes ac') = length (nodes ac);
  ra_i : match_ (nd ac' i) = m;
  ra_ne : forall k, k ≠ i -> nd ac' k = nd ac k;
  ra_i_rest : next (nd ac' i) = next (nd ac i) /\ edge (nd ac' i) = edge (nd ac i) /\
              fail (nd ac' i) = fail (nd ac i);
  ra_m : m ≠ 0 /\ m < length (values ac') /\ length (values ac) <= length (values ac');
  ra_val : values ac' !!! m =
    acValue_append t v (if decide (match_ (nd ac i) = 0) then new_acValue else values ac !!! m);
  ra_val_ne : forall k, k < length (values ac) -> k ≠ m -> values ac' !!! k = values ac !!! k;
  ra_old : match_ (nd ac i) = 0 /\ m = length (values ac) \/ match_ (nd ac i) = m;
}.

Lemma register_at ac i t v :
  i < length (nodes ac) -> 0 < length (values ac) -> match_ (nd ac i) < length (values ac) ->
  exists m, registered_at ac (register ac i t v) i m t v.
Proof.
  intros Hi Hv Hm. unfold register. destruct (decide (match_ (nd ac i) = 0)) as [H0|Hne].
  - exists (length (values ac)). simpl. rewrite list_lookup_total_alter_eq by done. simpl.
    split; simpl.
    + by rewrite length_alter.
    + by rewrite list_lookup_total_alter_eq.
    + intros k Hk. by rewrite list_lookup_total_alter_ne.
    + by rewrite list_lookup_total_alter_eq.
    + rewrite length_alter, length_snoc. lia.
    + rewrite list_lookup_total_alter_eq by (rewrite length_snoc; lia).
      rewrite list_lookup_total_middle by done. by rewrite decide_True.
    + intros k Hk ?. rewrite list_lookup_total_alter_ne by done. by rewrite lookup_total_app_l.
    + auto.
  - exists (match_ (nd ac i)). split; simpl; rewrite ?length_alter; try done.
    + rewrite list_lookup_total_alter_eq by done. by rewrite decide_False.
    + intros k Hk ?. by rewrite list_lookup_total_alter_ne.
    + auto.
Qed.

Lemma register_ok ac ws regs i w t v :
  trie_ok ac ws regs -> ws !! i = Some w -> has_row t ->
  trie_ok (register ac i t v) ws (regs ++ [(w, t, v)]).
Proof.
  intros [[Hlen Hroot Hnd Hpre Hsh] [Hlt Hinj Hz Hv Hm Hin] Hed Hf] Hi Ht.
  pose proof (lookup_lt_Some _ _ _ Hi) as Hil. pose proof (Hlt i Hil) as Hmi.
  destruct (register_at ac i t v) as (m & Hra); [lia..|]. revert Hra.
  generalize (register ac i t v). intros ac' [HL Hi' Hne (Hn & He & Hfl) (Hm0 & Hml & Hvl) Hval Hvne Hold].
  assert (forall k, next (nd ac' k) = next (nd ac k) /\ edge (nd ac' k) = edge (nd ac k) /\
              fail (nd ac' k) = fail (nd ac k)) as Hrest.
  { intros k. destruct (decide (k = i)) as [->|]; [done|]. by rewrite Hne. }
  assert (forall k, k < length ws -> k ≠ i -> match_ (nd ac k) ≠ m) as Hmne.
  { intros k Hk Hki. destruct Hold as [[_ ->]|<-]; [pose proof (Hlt k Hk); lia|].
    intros Heq. apply Hki, Hinj; [done..|]. lia. }
  split; [split|split| |].
  - by rewrite HL.
  - done.
  - done.
  - done.
  - intros k Hk. destruct (Hrest k) as (-> & -> & _). by apply Hsh.
  - intros k Hk. destruct (decide (k = i)) as [->|]; [lia|]. rewrite Hne by done.
    pose proof (Hlt k Hk). lia.
  - intros j k Hj Hk. destruct (decide (j = i)) as [->|]; destruct (decide (k = i)) as [->|]; try done.
    + rewrite Hi', (Hne k) by done. intros Heq. by destruct (Hmne k Hk).
    + rewrite Hi', (Hne j) by done. intros Heq. by destruct (Hmne j Hj).
    + rewrite !Hne by done. by apply Hinj.
  - rewrite Hvne by lia. done.
  - intros k w' t' Hk Ht'. rewrite reg_values_snoc, <-(Hv k) by done.
    destruct (decide (k = i)) as [->|Hki].
    + rewrite Hi', Hval, acValue_get_append by done. assert (w' = w) as -> by congruence.
      f_equal; [|repeat case_decide; naive_solver].
      case_decide as H0; [rewrite H0, Hz; done|]. destruct Hold as [[? _]|Hold]; [done|]. by rewrite Hold.
    + rewrite Hne by done. pose proof (lookup_lt_Some _ _ _ Hk).
      rewrite Hvne by auto. rewrite decide_False; [by rewrite app_nil_r|].
      intros [= -> _]. apply Hki. by eapply NoDup_lookup.
  - intros k w' Hk. destruct (decide (k = i)) as [->|Hki].
    + rewrite Hi'. split; [|done]. intros _. exists (w, t, v). rewrite elem_of_app, list_elem_of_singleton.
      split; [by right|]. simpl. congruence.
    + rewrite Hne, (Hm k) by done. setoid_rewrite elem_of_app. setoid_rewrite list_elem_of_singleton.
      split; [naive_solver|]. intros (r & [Hr|Hr] & Hw); [eauto|]. subst. simpl in *.
      destruct Hki. by eapply NoDup_lookup.
  - intros r [Hr|Hr%list_elem_of_singleton]%elem_of_app; [by apply Hin|]. subst. simpl. split; [|done].
    by eapply list_elem_of_lookup_2.
  - intros k w' e Hk Hee. unfold trie_edge. destruct (Hrest k) as (-> & -> & _). by apply Hed.
  - intros k Hk. destruct (Hrest k) as (_ & _ & ->). by apply Hf.
Qed.

Definition codes (p : bytes) : word := acCharset <$> rev p.

Lemma acCharset_lt b : acCharset b < acValidCharCount.
Proof.
  unfold acCharset, acValidCharCount. pose proof (byte_to_Z_range b).
  repeat case_match; lia.
Qed.

Lemma codes_valid p : Forall (fun e => e < acValidCharCount) (codes p).
Proof. apply Forall_fmap, Forall_forall. intros b _. apply acCharset_lt. Qed.

Lemma addPattern_ok ac ws regs i w p t v :
  trie_ok ac ws regs -> ws !! i = Some w -> has_row t ->
  exists ws', trie_ok (addPattern ac i p t v).1 ws' (regs ++ [(w ++ codes p, t, v)]) /\
    ws' !! (addPattern ac i p t v).2 = Some (w ++ codes p).
Proof.
  intros Hok Hi Ht. rewrite addPattern_register. cbn [fst snd].
  destruct (add_path_ok (codes p) ac ws regs i w) as (ws' & Hok' & Hw & _); [done..|apply codes_valid|].
  exists ws'. split; [|done]. by apply register_ok.
Qed.

(** *** Registered groups *)

(** What the three Add methods register for a matcher. *)
Definition registrations (m : bytes * Type_ * Z) : list registration :=
  let '(p, t, v) := m in
  match t with
  | Full => [(codes p, Full, v)]
  | Domain => [(codes p, Domain, v); (codes p ++ [28], Domain, v)]
  | Substr => [(codes p, Substr, v)]
  | _ => []
  end.

(** Calls of the three Add methods, in order. *)
Definition add_entry (ac : ACAutomatonMatcherGroup) (m : bytes * Type_ * Z) : ACAutomatonMatcherGroup :=
  let '(p, t, v) := m in
  match t with
  | Full => AddFullMatcher ac p v
  | Domain => AddDomainMatcher ac p v
  | Substr => AddSubstrMatcher ac p v
  | _ => ac
  end.

Definition add_entries (ms : list (bytes * Type_ * Z)) : ACAutomatonMatcherGroup :=
  foldl add_entry NewACAutomatonMatcherGroup ms.

Lemma new_ok : trie_ok NewACAutomatonMatcherGroup [[]] [].
Proof.
  assert (forall w e, w ++ [e] ∉ [@nil nat]) as Hno.
  { intros w e Hw%list_elem_of_singleton. by destruct w. }
  split; [split|split| |].
  - done.
  - done.
  - apply NoDup_singleton.
  - intros w e []%Hno.
  - intros [|i] ?; [|simpl in *; lia]. done.
  - intros [|i] ?; [|simpl in *; lia]. simpl. lia.
  - intros [|i] [|j] ??; simpl in *; lia.
  - done.
  - intros [|i] w t [= <-] Ht. by destruct Ht as [-> | [-> | ->]].
  - intros [|i] w [= <-]. simpl. split; [done|]. intros (r & ?%not_elem_of_nil & _). done.
  - intros r ?%not_elem_of_nil. done.
  - intros [|i] w e [= <-] He. right. split; [apply Hno|].
    change (nd NewACAutomatonMatcherGroup 0) with new_acNode. unfold new_acNode. cbn [next edge]. by rewrite !lookup_total_replicate_2.
  - intros [|i] ?; [done|simpl in *; lia].
Qed.

Lemma add_entry_ok ac ws regs m :
  trie_ok ac ws regs -> exists ws', trie_ok (add_entry ac m) ws' (regs ++ registrations m).
Proof.
  intros Hok. pose proof (wo_root _ _ (to_words _ _ _ Hok)) as Hr.
  destruct m as [[p t] v]. unfold add_entry, registrations.
  assert (forall t', has_row t' -> exists ws', trie_ok (addPattern ac 0 p t' v).1 ws' (regs ++ [(codes p, t', v)])
    /\ ws' !! (addPattern ac 0 p t' v).2 = Some (codes p)) as Hadd.
  { intros t' Ht. by apply (addPattern_ok ac ws regs 0 [] p t' v). }
  unfold has_row in Hadd. destruct t; try (exists ws; by rewrite app_nil_r).
  - destruct (Hadd Full) as (ws' & ? & _); eauto.
  - destruct (Hadd Domain) as (ws' & Hok' & Hn); [eauto|]. unfold AddDomainMatcher.
    destruct (addPattern ac 0 p Domain v) as [ac1 n]. simpl in Hok', Hn.
    destruct (addPattern_ok ac1 ws' _ n (codes p) ["."%byte] Domain v Hok' Hn) as (ws'' & Hok'' & _).
    { right. by left. }
    exists ws''. by rewrite <-(assoc_L (++)) in Hok''.
  - destruct (Hadd Substr) as (ws' & ? & _); eauto.
Qed.

Lemma add_entries_ok ms : exists ws, trie_ok (add_entries ms) ws (ms ≫= registrations).
Proof.
  unfold add_entries. induction ms as [|m ms IH] using rev_ind; [exists [[]]; apply new_ok|].
  destruct IH as [ws Hok]. rewrite foldl_app, bind_app. simpl. rewrite app_nil_r.
  by eapply add_entry_ok.
Qed.

(** ** Build completes the automaton *)

Section BuildOk.
Context (ac0 : ACAutomatonMatcherGroup) (ws : list word) (regs : list registration).
Context (Hok : trie_ok ac0 ws regs).

(** The words that carry Substr values. *)
Definition substr_word (u : word) : Prop := reg_values regs u Substr ≠ [].

#[local] Instance substr_word_dec u : Decision (substr_word u).
Proof. unfold substr_word. apply _. Defined.

Definition depth (i : nat) : nat := length (ws !!! i).

(** A completed edge: to the node of the longest suffix, marked as a trie
    edge exactly when it is one. *)
Definition goto_edge (ac : ACAutomatonMatcherGroup) (i : nat) (w : word) (e : nat) : Prop :=
  ws !! (next (nd ac i) !!! e) = Some (lsuf ws (w ++ [e])) /\
  edge (nd ac i) !!! e = bool_decide (w ++ [e] ∈ ws).

Record same_trie (ac : ACAutomatonMatcherGroup) : Prop := {
  st_len : length (nodes ac) = length ws;
  st_values : values ac = values ac0;
  st_match : forall i, match_ (nd ac i) = match_ (nd ac0 i);
  st_shape : forall i, i < length ws ->
    length (next (nd ac i)) = acValidCharCount /\ length (edge (nd ac i)) = acValidCharCount;
}.

Record fail_ok (ac : ACAutomatonMatcherGroup) (fl : list nat) (i : nat) : Prop := {
  fo_full : ws !! (fl !!! i) = Some (lsuf ws (tail (ws !!! i)));
  fo_substr : ws !! fail (nd ac i) = Some (ssuf substr_word (tail (ws !!! i)));
}.

(** The state of Build when [V] lists the nodes queued so far and [dn i e]
    says which edges have been treated. *)
Record build_inv (dn : nat -> nat -> Prop) (V : list nat) (ac : ACAutomatonMatcherGroup) (fl : list nat) : Prop := {
  bi_same : same_trie ac;
  bi_fl : length fl = length ws;
  bi_nodup : NoDup V;
  bi_range : forall i, i ∈ V -> i ≠ 0 /\ i < length ws;
  bi_sorted : StronglySorted (fun i j => depth i <= depth j) V;
  bi_visit : forall p j w e, ws !! p = Some w -> ws !! j = Some (w ++ [e]) -> (j ∈ V <-> dn p e);
  bi_done : forall i w e, ws !! i = Some w -> e < acValidCharCount -> dn i e -> goto_edge ac i w e;
  bi_todo : forall i w e, ws !! i = Some w -> e < acValidCharCount -> ~ dn i e -> trie_edge ac ws i w e;
  bi_fail : forall i, i = 0 \/ i ∈ V -> fail_ok ac fl i;
}.

Lemma ws_root_in : [] ∈ ws.
Proof. eapply wo_root_in, to_words, Hok. Qed.

Lemma ws_prefix w e : w ++ [e] ∈ ws -> w ∈ ws.
Proof. intros H. by eapply wo_prefix in H as [? _]; [|by apply (to_words _ _ _ Hok)]. Qed.

Lemma ws_inj i j w : ws !! i = Some w -> ws !! j = Some w -> i = j.
Proof. eapply wo_inj, to_words, Hok. Qed.

Lemma ws_lookup i w : ws !! i = Some w -> ws !!! i = w.
Proof. apply list_lookup_total_correct. Qed.

Lemma ws_zero : ws !! 0 = Some [].
Proof. apply (wo_root _ _ (to_words _ _ _ Hok)). Qed.

Lemma depth_word i w : ws !! i = Some w -> depth i = length w.
Proof. intros H. unfold depth. by rewrite (ws_lookup _ _ H). Qed.

Lemma substr_word_in u : substr_word u -> u ∈ ws.
Proof.
  unfold substr_word, reg_values. intros H.
  destruct (filter _ regs) as [|r l] eqn:E; [done|].
  assert (r ∈ filter (fun r => r.1 = (u, Substr)) regs) as Hr by (rewrite E; by left).
  apply list_elem_of_filter in Hr as [Hr1 Hr].
  apply (mo_in _ _ _ (to_matches _ _ _ Hok)) in Hr as [Hr _]. by rewrite Hr1 in Hr.
Qed.

(** Every non-root word has a parent node. *)
Lemma ws_parent j w : ws !! j = Some w -> w ≠ [] ->
  exists p w' e, w = w' ++ [e] /\ e < acValidCharCount /\ ws !! p = Some w'.
Proof.
  intros Hj Hw. destruct w as [|e w' _] using rev_ind; [done|].
  assert (w' ++ [e] ∈ ws) as Hin by (by eapply list_elem_of_lookup_2).
  apply (wo_prefix _ _ (to_words _ _ _ Hok)) in Hin as [[p Hp]%list_elem_of_lookup ?]. eauto 10.
Qed.

(** What the test for Substr values of Build reads. *)
Lemma substr_test ac i u : same_trie ac -> ws !! i = Some u ->
  vSubstr (values ac !!! match_ (nd ac i)) = reg_values regs u Substr.
Proof.
  intros [_ -> Hm _] Hi. rewrite Hm.
  apply (mo_values _ _ _ (to_matches _ _ _ Hok) i u Substr Hi). right. by right.
Qed.

Lemma substr_test_P ac i u : same_trie ac -> ws !! i = Some u ->
  (match_ (nd ac i) ≠ 0 /\ vSubstr (values ac !!! match_ (nd ac i)) ≠ []) <-> substr_word u.
Proof.
  intros Hs Hi. rewrite (substr_test _ _ _ Hs Hi). unfold substr_word. split; [tauto|].
  intros HP. split; [|done]. intros H0. apply HP.
  rewrite <-(substr_test _ _ _ Hs Hi), H0, (st_values _ Hs).
  by rewrite (mo_zero _ _ _ (to_matches _ _ _ Hok)).
Qed.

(** The fail link the Go code computes for a child from the fail node's
    successor. *)
Lemma fail_link ac fl f u :
  same_trie ac -> fail_ok ac fl f -> ws !! f = Some u ->
  ws !! (if decide (match_ (nd ac f) ≠ 0 /\ vSubstr (values ac !!! match_ (nd ac f)) ≠ [])
         then f else fail (nd ac f)) = Some (ssuf substr_word u).
Proof.
  intros Hs [_ Hf] Hu. rewrite (ws_lookup _ _ Hu) in Hf. rewrite ssuf_cases.
  assert (substr_word u \/ ~ substr_word u) as HP by (destruct (decide (substr_word u)); auto).
  pose proof (substr_test_P ac f u Hs Hu) as Ht.
  destruct u as [|x u].
  - simpl. case_decide; [done|]. simpl in Hf. done.
  - case_decide as H1; [rewrite decide_True by (split; [done|by apply Ht]); done|].
    rewrite decide_False; [done|]. intros [_ ?]. by apply H1, Ht.
Qed.

(** *** One turn of the queue *)

(** Edges treated while node [h] is being processed: all edges of the root
    and of the processed nodes [D], and the edges of [h] below [k]. *)
Definition treated (D : list nat) (h k : nat) (i e : nat) : Prop :=
  i = 0 \/ i ∈ D \/ (i = h /\ e < k).

Lemma nd_update ac i g k : i < length (nodes ac) ->
  nd (update_node i g ac) k = if decide (k = i) then g (nd ac i) else nd ac k.
Proof.
  intros Hi. unfold update_node. cbn [nodes]. case_decide as Hk.
  - subst. by rewrite list_lookup_total_alter_eq.
  - by rewrite list_lookup_total_alter_ne.
Qed.

Lemma same_trie_update ac i g :
  same_trie ac -> i < length ws ->
  (forall n, match_ (g n) = match_ n /\ length (next (g n)) = length (next n) /\
             length (edge (g n)) = length (edge n)) ->
  same_trie (update_node i g ac).
Proof.
  intros [Hl Hv Hm Hs] Hi Hg. split.
  - unfold update_node. cbn [nodes]. by rewrite length_alter.
  - done.
  - intros k. rewrite nd_update by lia. rewrite <-Hm. case_decide; [subst; apply Hg|done].
  - intros k Hk. rewrite nd_update by lia. case_decide; [|by apply Hs].
    subst. destruct (Hg (nd ac i)) as (_ & -> & ->). by apply Hs.
Qed.

Lemma build_inv_ext dn dn' V ac fl :
  (forall i e, e < acValidCharCount -> dn i e <-> dn' i e) ->
  build_inv dn V ac fl -> build_inv dn' V ac fl.
Proof.
  intros Hdn [? ? ? ? ? Hv Hd Ht ?]. split; try done.
  - intros p j w e Hp Hj. rewrite <-Hdn; [by eapply Hv|].
    eapply (wo_prefix _ _ (to_words _ _ _ Hok) w). by eapply list_elem_of_lookup_2.
  - intros i w e Hi He Hie. apply Hd; [done..|]. by apply Hdn.
  - intros i w e Hi He Hie. apply Ht; [done..|]. by rewrite Hdn.
Qed.

(** Nodes shallower than the head of the queue have been processed. *)
Lemma shallow_done D h Q k ac fl x w :
  build_inv (treated D h k) (D ++ h :: Q) ac fl ->
  ws !! x = Some w -> length w < depth h -> x = 0 \/ x ∈ D.
Proof.
  intros Hinv. revert x. induction w as [|e w IH] using rev_ind; intros x Hx Hlt.
  { left. eapply ws_inj; [done|apply ws_zero]. }
  destruct (ws_parent _ _ Hx) as (p & w' & e' & [<- <-]%snoc_inj & _ & Hp); [by destruct w|].
  rewrite length_app in Hlt. simpl in Hlt.
  assert (x ∈ D ++ h :: Q) as HxV.
  { apply (proj2 (bi_visit _ _ _ _ Hinv p x w e Hp Hx)). unfold treated.
    destruct (IH p Hp); [lia|auto..]. }
  apply elem_of_app in HxV as [?|HxV]; [by right|].
  pose proof (bi_sorted _ _ _ _ Hinv) as Hs%StronglySorted_app_1_r.
  apply StronglySorted_inv in Hs as [_ Hs]. rewrite Forall_forall in Hs.
  pose proof (depth_word _ _ Hx) as Hdx. rewrite length_app in Hdx. simpl in Hdx.
  apply elem_of_cons in HxV as [->|HxV]; [lia|]. specialize (Hs _ HxV). lia.
Qed.

(** A node at most as deep as the head has been queued. *)
Lemma shallow_queued D h Q k ac fl x w :
  build_inv (treated D h k) (D ++ h :: Q) ac fl ->
  ws !! x = Some w -> length w <= depth h -> x = 0 \/ x ∈ D ++ h :: Q.
Proof.
  intros Hinv Hx Hle. destruct (decide (w = [])) as [->|Hne].
  { left. eapply ws_inj; [done|apply ws_zero]. }
  destruct (ws_parent _ _ Hx Hne) as (p & w' & e & -> & _ & Hp).
  right. apply (proj2 (bi_visit _ _ _ _ Hinv p x w' e Hp Hx)). unfold treated.
  rewrite length_app in Hle. simpl in Hle.
  destruct (shallow_done _ _ _ _ _ _ _ _ Hinv Hp); [lia|auto..].
Qed.

Record turn_inv (D : list nat) (h f k : nat) (st : build_state) : Prop := {
  ti_inv : build_inv (treated D h k) (D ++ h :: b_queue st) (b_ac st) (b_fail st);
  ti_fail : b_fail st !!! h = f;
  ti_spread : forall v, v ∈ b_queue st -> depth v <= S (depth h);
}.

Lemma turn_head D h f k st : turn_inv D h f k st ->
  exists w, ws !! h = Some w /\ w ≠ [] /\ h ≠ 0 /\ h ∉ D /\ h < length ws.
Proof.
  intros [Hinv _ _]. pose proof (bi_nodup _ _ _ _ Hinv) as Hnd.
  destruct (bi_range _ _ _ _ Hinv h) as [H0 Hl]; [rewrite elem_of_app; right; by left|].
  destruct (lookup_lt_is_Some_2 ws h Hl) as [w Hw]. exists w. split; [done|]. split.
  - intros ->. apply H0. eapply ws_inj; [done|apply ws_zero].
  - split; [done|]. split; [|done]. apply NoDup_app in Hnd as (_ & Hnd & _).
    intros HD. eapply Hnd; [done|]. by left.
Qed.

(** The successor of the fail node that the inner loop looks up. *)
Lemma turn_fail_successor D h f k st w : turn_inv D h f k st -> ws !! h = Some w -> k < acValidCharCount ->
  f < length ws /\ f ≠ h /\
  ws !! (next (nd (b_ac st) f) !!! k) = Some (lsuf ws (tail w ++ [k])) /\
  (next (nd (b_ac st) f) !!! k = 0 \/ next (nd (b_ac st) f) !!! k ∈ D ++ h :: b_queue st).
Proof.
  intros Ht Hw Hk. destruct (turn_head _ _ _ _ _ Ht) as (w' & Hw' & Hne & H0 & HD & _).
  assert (w' = w) as -> by congruence. destruct Ht as [Hinv Hf _].
  destruct (bi_fail _ _ _ _ Hinv h) as [Hff _]; [right; rewrite elem_of_app; right; by left|].
  rewrite Hf, (ws_lookup _ _ Hw) in Hff.
  pose proof (depth_word _ _ Hw) as Hdw.
  assert (length (tail w) < length w) as Htl by (destruct w; [done|simpl; lia]).
  pose proof (lsuf_length ws (tail w)) as Hll.
  assert (f = 0 \/ f ∈ D) as Hfd by (eapply shallow_done; [done..|lia]).
  split; [by eapply lookup_lt_Some|]. split.
  { intros ->. naive_solver. }
  destruct (bi_done _ _ _ _ Hinv f _ k Hff Hk) as [Hg _]; [unfold treated; naive_solver|].
  rewrite <-lsuf_step in Hg; [|apply ws_root_in|apply ws_prefix].
  split; [done|]. eapply shallow_queued; [done..|].
  pose proof (lsuf_length ws (tail w ++ [k])) as Hl2. rewrite length_app in Hl2. simpl in Hl2. lia.
Qed.

Lemma treated_S D h k i e : treated D h (S k) i e <-> treated D h k i e \/ (i = h /\ e = k).
Proof.
  unfold treated. split; [|naive_solver lia].
  intros [?|[?|[? ?]]]; [auto..|]. destruct (decide (e = k)); [auto|]. left. right. right. lia.
Qed.

Lemma not_treated D h k : h ≠ 0 -> h ∉ D -> ~ treated D h k h k.
Proof. unfold treated. naive_solver lia. Qed.

(** The case of a trie edge: the child is queued with its fail links. *)
Lemma turn_child D h f k st w j :
  turn_inv D h f k st -> ws !! h = Some w -> k < acValidCharCount ->
  j ≠ 0 -> ws !! j = Some (w ++ [k]) -> next (nd (b_ac st) h) !!! k = j ->
  edge (nd (b_ac st) h) !!! k = true ->
  turn_inv D h f (S k) (build_edge h f st k).
Proof.
  intros Ht Hw Hk Hj Hjw Hnj Hej.
  destruct (turn_head _ _ _ _ _ Ht) as (w' & Hw' & Hne & H0 & HD & Hhl).
  assert (w' = w) as -> by congruence. clear Hw'.
  destruct (turn_fail_successor _ _ _ _ _ _ Ht Hw Hk) as (_ & _ & Hg & HgV).
  destruct Ht as [Hinv Hf Hsp]. unfold build_edge. rewrite Hnj, decide_True by done.
  set (g := next (nd (b_ac st) f) !!! k) in *.
  pose proof (bi_same _ _ _ _ Hinv) as Hs.
  assert (ws !! (if decide (match_ (nd (b_ac st) g) ≠ 0 /\ vSubstr (values (b_ac st) !!! match_ (nd (b_ac st) g)) ≠ [])
      then g else fail (nd (b_ac st) g)) = Some (ssuf substr_word (tail w ++ [k]))) as Hfl.
  { rewrite (ssuf_lsuf ws _ substr_word_in).
    eapply fail_link; [done| |done]. by apply (bi_fail _ _ _ _ Hinv). }
  revert Hfl. generalize (if decide (match_ (nd (b_ac st) g) ≠ 0 /\ vSubstr (values (b_ac st) !!! match_ (nd (b_ac st) g)) ≠ []) then g else fail (nd (b_ac st) g)). intros f' Hf'.
  pose proof (lookup_lt_Some _ _ _ Hjw) as Hjl.
  assert (j ∉ D ++ h :: b_queue st) as HjV.
  { rewrite (bi_visit _ _ _ _ Hinv h j w k Hw Hjw). by apply not_treated. }
  assert (j <> h) as Hjh. { intros ->. apply HjV. rewrite elem_of_app. right. by left. }
  pose proof (st_len _ Hs) as Hlen.
  assert (forall i, next (nd (update_node j (set_fail f') (b_ac st)) i) = next (nd (b_ac st) i) /\
                    edge (nd (update_node j (set_fail f') (b_ac st)) i) = edge (nd (b_ac st) i)) as Hrest.
  { intros i. rewrite nd_update by lia. case_decide; [by subst|done]. }
  assert (tail (w ++ [k]) = tail w ++ [k]) as Htl by (by destruct w).
  split; cbn [b_ac b_fail b_queue].
  - rewrite app_comm_cons, (assoc_L (++)).
    destruct Hinv as [_ Hfll Hnd Hr Hso Hv Hdo Hto Hfa]. split.
    + apply same_trie_update; [done..|]. intros n. by destruct n.
    + by rewrite length_insert.
    + apply NoDup_app. split; [done|]. split; [|apply NoDup_singleton].
      by intros x Hx ->%list_elem_of_singleton.
    + intros i [Hi|Hi%list_elem_of_singleton]%elem_of_app; [by apply Hr|]. by subst.
    + apply StronglySorted_app_2; [|done|repeat constructor].
      intros x y Hx ->%list_elem_of_singleton. rewrite (depth_word _ _ Hjw), length_app.
      rewrite <-(depth_word _ _ Hw). simpl.
      apply elem_of_app in Hx as [Hx|Hx].
      * assert (depth x <= depth h); [|lia].
        eapply (StronglySorted_app_1_elem_of (fun i j => depth i <= depth j)); [done..|by left].
      * apply elem_of_cons in Hx as [->|Hx]; [lia|]. specialize (Hsp _ Hx). lia.
    + intros p j' w' e Hp Hj'. rewrite elem_of_app, list_elem_of_singleton, treated_S.
      rewrite (Hv p j' w' e Hp Hj'). split; [|intros [?|[-> ->]]; [by left|right]].
      * intros [?|Hjj]; [by left|]. right. subst j'.
        assert (w' ++ [e] = w ++ [k]) as [-> ->]%snoc_inj by congruence.
        split; [|done]. by eapply ws_inj.
      * assert (w' = w) as -> by congruence. by eapply ws_inj.
    + intros i w' e Hi He. rewrite treated_S. unfold goto_edge. destruct (Hrest i) as [-> ->].
      intros [?|[-> ->]]; [by apply Hdo|]. assert (w' = w) as -> by congruence.
      rewrite Hnj, Hej, lsuf_id by (by eapply list_elem_of_lookup_2).
      split; [done|]. rewrite bool_decide_true; [done|]. by eapply list_elem_of_lookup_2.
    + intros i w' e Hi He. rewrite treated_S. unfold trie_edge. destruct (Hrest i) as [-> ->].
      intros ?. apply Hto; [done..|tauto].
    + intros i Hi. destruct (decide (i = j)) as [->|Hij].
      * split; [rewrite list_lookup_total_insert_eq by lia|rewrite nd_update, decide_True by (done || lia); simpl];
          rewrite (ws_lookup _ _ Hjw), Htl; done.
      * destruct (Hfa i) as [Hf1 Hf2].
        { destruct Hi as [Hi|[Hi|Hi%list_elem_of_singleton]%elem_of_app]; [by left|by right|done]. }
        split; [by rewrite list_lookup_total_insert_ne|].
        by rewrite nd_update, decide_False by (done || lia).
  - by rewrite list_lookup_total_insert_ne.
  - intros v [Hv| ->%list_elem_of_singleton]%elem_of_app; [by apply Hsp|].
    rewrite (depth_word _ _ Hjw), (depth_word _ _ Hw), length_app. simpl. lia.
Qed.

(** The case of a missing edge: it is redirected along the fail link. *)
Lemma turn_redirect D h f k st w :
  turn_inv D h f k st -> ws !! h = Some w -> k < acValidCharCount ->
  w ++ [k] ∉ ws -> next (nd (b_ac st) h) !!! k = 0 ->
  turn_inv D h f (S k) (build_edge h f st k).
Proof.
  intros Ht Hw Hk Hout Hn.
  destruct (turn_head _ _ _ _ _ Ht) as (w' & Hw' & Hne & H0 & HD & Hhl).
  assert (w' = w) as -> by congruence. clear Hw'.
  destruct (turn_fail_successor _ _ _ _ _ _ Ht Hw Hk) as (_ & _ & Hg & _).
  destruct Ht as [Hinv Hf Hsp]. unfold build_edge. rewrite Hn.
  rewrite decide_False by tauto.
  set (g := next (nd (b_ac st) f) !!! k) in *.
  pose proof (bi_same _ _ _ _ Hinv) as Hs. pose proof (st_len _ Hs) as Hlen.
  destruct (st_shape _ Hs h Hhl) as [Hsn Hse].
  set (ac' := update_node h (set_edge k false) (update_node h (set_next k g) (b_ac st))).
  assert (same_trie ac') as Hs'.
  { unfold ac'. apply same_trie_update; [apply same_trie_update; [done..|]|done|];
      intros n; destruct n; simpl; by rewrite length_insert. }
  assert (forall i, nd ac' i = if decide (i = h) then set_edge k false (set_next k g (nd (b_ac st) h))
                              else nd (b_ac st) i) as Hnd.
  { intros i. unfold ac'. rewrite nd_update.
    - case_decide; [|rewrite nd_update by lia; by rewrite decide_False].
      rewrite nd_update by lia. by rewrite decide_True.
    - unfold update_node. cbn [nodes]. rewrite length_alter. lia. }
  assert (forall i e, (i, e) ≠ (h, k) ->
    next (nd ac' i) !!! e = next (nd (b_ac st) i) !!! e /\
    edge (nd ac' i) !!! e = edge (nd (b_ac st) i) !!! e) as Hsame.
  { intros i e Hie. rewrite Hnd. case_decide; [|done]. subst. simpl.
    rewrite !list_lookup_total_insert_ne by congruence. done. }
  split; [|done..]. cbn [b_ac b_fail b_queue].
  destruct Hinv as [_ Hfll Hndp Hr Hso Hv Hdo Hto Hfa]. split; try done.
  - intros p j w' e Hp Hj. rewrite treated_S, (Hv p j w' e Hp Hj). split; [by left|].
    intros [?|[-> ->]]; [done|]. destruct Hout. assert (w' = w) as -> by congruence.
    by eapply list_elem_of_lookup_2.
  - intros i w' e Hi He. rewrite treated_S. unfold goto_edge.
    destruct (decide ((i, e) = (h, k))) as [[= -> ->]|Hie].
    + intros _. assert (w' = w) as -> by congruence. rewrite Hnd, decide_True by done. simpl.
      rewrite !list_lookup_total_insert_eq by lia.
      rewrite bool_decide_false by done. split; [|done].
      rewrite lsuf_step_out; [|apply ws_root_in|apply ws_prefix|done|done].
      rewrite <-lsuf_step; [done|apply ws_root_in|apply ws_prefix].
    + destruct (Hsame i e Hie) as [-> ->]. intros [?|[-> ->]]; [by apply Hdo|done].
  - intros i w' e Hi He. rewrite treated_S. unfold trie_edge.
    intros Hnt. destruct (Hsame i e) as [-> ->].
    { intros [= -> ->]. tauto. }
    apply Hto; [done..|tauto].
  - intros i Hi. destruct (Hfa i Hi) as [Hf1 Hf2]. split; [done|].
    rewrite Hnd. case_decide; [by subst|done].
Qed.

Lemma turn_step D h f k st :
  turn_inv D h f k st -> k < acValidCharCount -> turn_inv D h f (S k) (build_edge h f st k).
Proof.
  intros Ht Hk. destruct (turn_head _ _ _ _ _ Ht) as (w & Hw & _ & H0 & HD & _).
  destruct (bi_todo _ _ _ _ (ti_inv _ _ _ _ _ Ht) h w k Hw Hk) as [(j & Hj & Hjw & Hn & He)|(Hout & Hn & _)].
  - by apply not_treated.
  - by eapply turn_child.
  - by eapply turn_redirect.
Qed.

Lemma turn_edges D h f n k st :
  turn_inv D h f k st -> k + n <= acValidCharCount ->
  turn_inv D h f (k + n) (foldl (build_edge h f) st (seq k n)).
Proof.
  revert k st. induction n as [|n IH]; intros k st Ht Hk; simpl; [by rewrite Nat.add_0_r|].
  replace (k + S n) with (S k + n) by lia. apply IH; [|lia]. apply turn_step; [done|lia].
Qed.

(** *** The loop *)

Definition processed (D : list nat) (i e : nat) : Prop := i = 0 \/ i ∈ D.

Record loop_inv (D : list nat) (st : build_state) : Prop := {
  li_inv : build_inv (processed D) (D ++ b_queue st) (b_ac st) (b_fail st);
  li_spread : forall h q, head (b_queue st) = Some h -> q ∈ b_queue st -> depth q <= S (depth h);
}.

Definition turn (st : build_state) (h : nat) (Q : list nat) : build_state :=
  foldl (build_edge h (b_fail st !!! h)) {| b_ac := b_ac st; b_fail := b_fail st; b_queue := Q |}
    (seq 0 acValidCharCount).

Lemma loop_turn D st h Q :
  loop_inv D st -> b_queue st = h :: Q -> loop_inv (D ++ [h]) (turn st h Q).
Proof.
  intros [Hinv Hsp] HQ. rewrite HQ in *.
  assert (turn_inv D h (b_fail st !!! h) 0 {| b_ac := b_ac st; b_fail := b_fail st; b_queue := Q |}) as Ht.
  { split; simpl; [|done|].
    - eapply build_inv_ext; [|done]. intros i e He. unfold treated, processed.
      naive_solver lia.
    - intros v Hv. apply (Hsp h); [done|]. by right. }
  destruct (turn_edges _ _ _ acValidCharCount 0 _ Ht (le_n _)) as [Hinv' Hf' Hsp'].
  unfold turn. revert Hinv' Hf' Hsp'. generalize (foldl (build_edge h (b_fail st !!! h))
    {| b_ac := b_ac st; b_fail := b_fail st; b_queue := Q |} (seq 0 acValidCharCount)).
  intros st' Hinv' _ Hsp'. split.
  - rewrite <-(assoc_L (++)). eapply build_inv_ext; [|done]. intros i e He.
    unfold treated, processed. rewrite elem_of_app, list_elem_of_singleton.
    change (0 + acValidCharCount) with acValidCharCount.
    split; [intros [?|[?|[? ?]]]|intros [?|[?|?]]]; auto.
  - intros h' q Hh' Hq. transitivity (S (depth h)); [by apply Hsp'|].
    enough (depth h <= depth h') by lia.
    pose proof (bi_sorted _ _ _ _ Hinv') as Hs%StronglySorted_app_1_r.
    apply StronglySorted_inv in Hs as [_ Hs]. rewrite Forall_forall in Hs. apply Hs.
    destruct (b_queue st'); [done|]. simplify_eq/=. by left.
Qed.

Lemma build_loop_cons fuel st h Q :
  b_queue st = h :: Q -> build_loop (S fuel) st = build_loop fuel (turn st h Q).
Proof. intros HQ. unfold turn. cbn [build_loop]. by rewrite HQ. Qed.

(** The nodes left to queue bound the turns left. *)
Lemma build_loop_ok fuel D st :
  loop_inv D st -> length ws <= fuel + length D ->
  exists D' st', build_loop fuel st = Some st' /\ b_queue st' = [] /\ loop_inv D' st'.
Proof.
  revert D st. induction fuel as [|fuel IH]; intros D st Hl Hfuel;
    destruct (b_queue st) as [|h Q] eqn:HQ.
  - exists D, st. simpl. by rewrite HQ.
  - exfalso. destruct Hl as [Hinv _]. rewrite HQ in Hinv.
    assert (D ++ h :: Q ⊆+ seq 0 (length ws)) as Hsub%submseteq_length.
    { apply NoDup_submseteq; [apply (bi_nodup _ _ _ _ Hinv)|].
      intros i Hi. apply elem_of_seq. apply (bi_range _ _ _ _ Hinv) in Hi as []. lia. }
    rewrite length_app, length_seq in Hsub. simpl in Hsub. lia.
  - exists D, st. simpl. by rewrite HQ.
  - rewrite (build_loop_cons _ _ _ _ HQ). apply (IH (D ++ [h])); [by apply loop_turn|]. rewrite length_snoc. lia.
Qed.

(** *** The start *)

Definition root_children : list nat :=
  filter (.≠ 0) ((fun e => next (nd ac0 0) !!! e) <$> seq 0 acValidCharCount).

Lemma elem_of_root_children j :
  j ∈ root_children <-> exists e, e < acValidCharCount /\ ws !! j = Some [e].
Proof.
  unfold root_children. rewrite list_elem_of_filter, list_elem_of_fmap. split.
  - intros (Hj & e & -> & He%elem_of_seq). exists e. split; [lia|].
    destruct (to_edges _ _ _ Hok 0 [] e ws_zero) as [(j & _ & Hjw & -> & _)|(_ & ? & _)]; [lia|done..].
  - intros (e & He & Hj).
    destruct (to_edges _ _ _ Hok 0 [] e ws_zero He) as [(j' & Hj'0 & Hjw & Hn & _)|(Hout & _)].
    + assert (j = j') as -> by (by eapply ws_inj). split; [done|]. exists e. split; [done|].
      apply elem_of_seq. lia.
    + destruct Hout. by eapply list_elem_of_lookup_2.
Qed.

Lemma root_children_nodup : NoDup root_children.
Proof.
  unfold root_children.
  enough (forall n k, k + n <= acValidCharCount ->
    NoDup (filter (.≠ 0) ((fun e => next (nd ac0 0) !!! e) <$> seq k n)) /\
    forall j, j ∈ filter (.≠ 0) ((fun e => next (nd ac0 0) !!! e) <$> seq k n) ->
      exists e, k <= e /\ ws !! j = Some [e]) as H by (by apply (H acValidCharCount 0)).
  induction n as [|n IH]; intros k Hk; [split; [constructor|by intros j ?%not_elem_of_nil]|].
  cbn [seq]. rewrite fmap_cons, filter_cons. destruct (IH (S k)) as [IH1 IH2]; [lia|].
  destruct (to_edges _ _ _ Hok 0 [] k ws_zero) as [(j' & Hj'0 & Hjw & Hn & _)|(_ & Hn & _)]; [lia| |]; rewrite Hn.
  - rewrite decide_True by done. split.
    + constructor; [|done]. intros (e & He & Hj)%IH2. assert (k = e) by naive_solver. lia.
    + intros j [->|Hj]%elem_of_cons; [eauto|]. apply IH2 in Hj as (e & ? & ?). exists e. split; [lia|done].
  - rewrite decide_False by tauto. split; [done|]. intros j Hj. apply IH2 in Hj as (e & ? & ?). exists e. split; [lia|done].
Qed.

Lemma loop_start : loop_inv [] (build_init ac0).
Proof.
  pose proof (to_words _ _ _ Hok) as Hwo.
  assert (forall j, j ∈ root_children -> depth j = 1) as Hd1.
  { intros j (e & _ & Hj)%elem_of_root_children. by rewrite (depth_word _ _ Hj). }
  split; cbn [b_queue b_ac b_fail build_init app]; fold root_children.
  - split.
    + split; [|done..|apply Hwo]. symmetry. apply Hwo.
    + rewrite length_replicate. symmetry. apply Hwo.
    + apply root_children_nodup.
    + intros j (e & He & Hj)%elem_of_root_children. split; [|by eapply lookup_lt_Some].
      eapply wo_nonroot; [done..|done].
    + assert (forall l, (forall j, j ∈ l -> depth j = 1) -> StronglySorted (fun i j => depth i <= depth j) l) as Hs.
      { clear -Hok. induction l as [|x l IH]; intros Hl; constructor.
        - apply IH. intros. apply Hl. by right.
        - apply Forall_forall. intros y Hy. rewrite !Hl; [done|by right|by left]. }
      by apply Hs.
    + intros p j w e Hp Hj. unfold processed. rewrite elem_of_root_children. split.
      * intros (e' & He' & Hj'). left. assert (w ++ [e] = [] ++ [e']) as [-> _]%snoc_inj by naive_solver.
        eapply ws_inj; [done|apply ws_zero].
      * intros [->|?%not_elem_of_nil]; [|done]. rewrite ws_zero in Hp. injection Hp as <-. exists e.
        split; [|done]. eapply (wo_prefix _ _ Hwo []). by eapply list_elem_of_lookup_2.
    + intros i w e Hi He [->|?%not_elem_of_nil]; [|done]. rewrite ws_zero in Hi. injection Hi as <-.
      unfold goto_edge. simpl app.
      destruct (to_edges _ _ _ Hok 0 [] e ws_zero He) as [(j & Hj & Hjw & -> & ->)|(Hout & -> & ->)].
      * assert ([e] ∈ ws) by (by eapply list_elem_of_lookup_2). rewrite lsuf_id by done.
        by rewrite bool_decide_true.
      * rewrite bool_decide_false by done. split; [|done]. simpl. rewrite decide_False by done.
        rewrite decide_True by apply ws_root_in. apply ws_zero.
    + intros i w e Hi He _. by apply (to_edges _ _ _ Hok).
    + assert (forall i, i < length ws -> length (ws !!! i) <= 1 -> fail_ok ac0 (replicate (length (nodes ac0)) 0) i) as Hf.
      { intros i Hi Hl. assert (tail (ws !!! i) = []) as Ht by (destruct (ws !!! i) as [|? []]; simpl in *; [done..|lia]).
        split; rewrite Ht.
        - rewrite lookup_total_replicate_2 by (by rewrite <-(wo_len _ _ Hwo)). 
          simpl. rewrite decide_True by apply ws_root_in. apply ws_zero.
        - rewrite (to_fail _ _ _ Hok) by done. apply ws_zero. }
      intros i [->|Hi]; apply Hf.
      * eapply lookup_lt_Some, ws_zero.
      * rewrite (ws_lookup _ _ ws_zero). simpl. lia.
      * apply elem_of_root_children in Hi as (e & _ & Hi). by eapply lookup_lt_Some.
      * pose proof (Hd1 i Hi) as Hd. unfold depth in Hd. lia.
  - intros h q Hh Hq. rewrite (Hd1 q Hq). lia.
Qed.

(** *** The completed automaton *)

Record built (ac : ACAutomatonMatcherGroup) : Prop := {
  bu_same : same_trie ac;
  bu_edge : forall i w e, ws !! i = Some w -> e < acValidCharCount -> goto_edge ac i w e;
  bu_fail : forall i w, ws !! i = Some w -> ws !! fail (nd ac i) = Some (ssuf substr_word (tail w));
}.

Lemma Build_completes : exists ac, Build ac0 = Some ac /\ built ac.
Proof.
  destruct (build_loop_ok (length (nodes ac0)) [] (build_init ac0)) as (D & st & Hb & HQ & [Hinv _]).
  - apply loop_start.
  - rewrite (wo_len _ _ (to_words _ _ _ Hok)). simpl. lia.
  - exists (b_ac st). unfold Build. rewrite Hb. split; [done|]. rewrite HQ, app_nil_r in Hinv.
    assert (forall w x, ws !! x = Some w -> x = 0 \/ x ∈ D) as Hall.
    { induction w as [|e w IH] using rev_ind; intros x Hx.
      { left. eapply ws_inj; [done|apply ws_zero]. }
      destruct (ws_parent _ _ Hx) as (p & w' & e' & [<- <-]%snoc_inj & _ & Hp); [by destruct w|].
      right. apply (proj2 (bi_visit _ _ _ _ Hinv p x w e Hp Hx)). by apply IH. }
    split.
    + apply (bi_same _ _ _ _ Hinv).
    + intros i w e Hi He. apply (bi_done _ _ _ _ Hinv); [done..|]. by eapply Hall.
    + intros i w Hi. destruct (bi_fail _ _ _ _ Hinv i) as [_ Hf]; [by eapply Hall|].
      by rewrite (ws_lookup _ _ Hi) in Hf.
Qed.

(** ** Matching follows the suffixes of the input read so far *)

Context (ac : ACAutomatonMatcherGroup) (Hbuilt : built ac).
Context (Hnonempty : forall r, r ∈ regs -> r.1.1 ≠ []).

Lemma reg_values_word w t v : v ∈ reg_values regs w t -> w ∈ ws.
Proof. rewrite reg_values_in. intros Hr. by apply (mo_in _ _ _ (to_matches _ _ _ Hok)) in Hr as []. Qed.

Lemma reg_values_nil t : reg_values regs [] t = [].
Proof.
  unfold reg_values. rewrite filter_none; [done|]. intros r Hr Heq.
  apply (Hnonempty _ Hr). by rewrite Heq.
Qed.

Lemma ac_values n w t : ws !! n = Some w -> has_row t ->
  acValue_get t (values ac !!! match_ (nd ac n)) = reg_values regs w t.
Proof.
  intros Hn Ht. rewrite (st_values _ (bu_same _ Hbuilt)), (st_match _ (bu_same _ Hbuilt)).
  by apply (mo_values _ _ _ (to_matches _ _ _ Hok)).
Qed.

Lemma ac_Substr n w : ws !! n = Some w ->
  vSubstr (values ac !!! match_ (nd ac n)) = reg_values regs w Substr.
Proof. intros Hn. apply (ac_values n w Substr Hn). right. by right. Qed.

Lemma ac_Domain n w : ws !! n = Some w ->
  vDomain (values ac !!! match_ (nd ac n)) = reg_values regs w Domain.
Proof. intros Hn. apply (ac_values n w Domain Hn). right. by left. Qed.

Lemma ac_Full n w : ws !! n = Some w ->
  vFull (values ac !!! match_ (nd ac n)) = reg_values regs w Full.
Proof. intros Hn. apply (ac_values n w Full Hn). by left. Qed.

Lemma ac_unmatched n w t : ws !! n = Some w -> has_row t -> match_ (nd ac n) = 0 -> reg_values regs w t = [].
Proof.
  intros Hn Ht H0. rewrite <-(ac_values n w t Hn Ht), H0, (st_values _ (bu_same _ Hbuilt)).
  rewrite (mo_zero _ _ _ (to_matches _ _ _ Hok)). by destruct Ht as [-> | [-> | ->]].
Qed.

(** A value of a registered Substr word that ends the input read so far. *)
Definition sub_hit (u : word) (v : Z) : Prop :=
  exists s, s `suffix_of` u /\ v ∈ reg_values regs s Substr.

Lemma sub_hit_word s v : v ∈ reg_values regs s Substr -> substr_word s /\ s ≠ [] /\ s ∈ ws.
Proof.
  intros Hv. split.
  - unfold substr_word. intros H0. rewrite H0 in Hv. by apply not_elem_of_nil in Hv.
  - split; [|by eapply reg_values_word]. intros ->. rewrite reg_values_nil in Hv.
    by apply not_elem_of_nil in Hv.
Qed.

Lemma sub_hit_lsuf u v : sub_hit u v <-> sub_hit (lsuf ws u) v.
Proof.
  split; intros (s & Hs & Hv); exists s; (split; [|done]).
  - apply lsuf_max; [done|]. by eapply reg_values_word.
  - etrans; [done|]. apply lsuf_suffix.
Qed.

Lemma sub_hit_ssuf u v : sub_hit u v <-> sub_hit (ssuf substr_word u) v.
Proof.
  destruct (ssuf_spec substr_word u) as (Hs & _ & Hmax).
  split; intros (s & Hsu & Hv); exists s; (split; [|done]).
  - apply sub_hit_word in Hv as (? & ? & ?). by apply Hmax.
  - by etrans.
Qed.

Lemma sub_hit_cons x u v :
  sub_hit (x :: u) v <-> v ∈ reg_values regs (x :: u) Substr \/ sub_hit u v.
Proof.
  split.
  - intros (s & [->|Hs]%suffix_cons_cases & Hv); [by left|]. right. by exists s.
  - intros [Hv|(s & Hs & Hv)]; [by exists (x :: u)|]. exists s. split; [by apply suffix_cons_r|done].
Qed.

Lemma sub_hit_nil v : ~ sub_hit [] v.
Proof. intros (s & ->%suffix_nil_inv & Hv). by apply sub_hit_word in Hv as (_ & ? & _). Qed.

Lemma node_zero n w : ws !! n = Some w -> (n = 0 <-> w = []).
Proof.
  intros Hn. split.
  - intros ->. rewrite ws_zero in Hn. congruence.
  - intros ->. eapply ws_inj; [done|apply ws_zero].
Qed.

(** Words are no longer than the trie is large. *)
Lemma word_length n w : ws !! n = Some w -> length w < length ws.
Proof.
  intros Hn. assert ((fun k => take k w) <$> seq 0 (S (length w)) ⊆+ ws) as Hsub%submseteq_length.
  { apply NoDup_submseteq.
    - apply NoDup_fmap_2_strong; [|apply NoDup_seq]. intros x y Hx%elem_of_seq Hy%elem_of_seq Hxy.
      apply (f_equal length) in Hxy. rewrite !length_take in Hxy. lia.
    - intros x (k & -> & _)%list_elem_of_fmap. clear -Hok Hn.
      assert (forall a b, a ++ b ∈ ws -> a ∈ ws) as Hpre.
      { intros a b. induction b as [|e b IH] using rev_ind; [by rewrite app_nil_r|].
        rewrite (assoc_L (++)). intros H%ws_prefix. auto. }
      apply (Hpre _ (drop k w)). rewrite take_drop. by eapply list_elem_of_lookup_2. }
  rewrite length_fmap, length_seq in Hsub. lia.
Qed.

Lemma fail_path_elem s f fuel acc v :
  ws !! f = Some s -> 2 * length s <= fuel ->
  v ∈ concat (fail_path fuel ac f f acc) <-> v ∈ concat acc \/ sub_hit s v.
Proof.
  remember (length s) as n eqn:Hn. revert s f fuel acc Hn.
  induction n as [n IH] using lt_wf_ind; intros s f fuel acc -> Hf Hfuel.
  destruct s as [|x s].
  { apply node_zero in Hf as Hf0. destruct Hf0 as [_ ->]; [|done].
    destruct fuel; simpl; (split; [by left|by intros [?|?%sub_hit_nil]]). }
  pose proof (node_zero _ _ Hf) as Hf0.
  simpl in Hfuel. destruct fuel as [|[|fuel]]; [lia..|].
  cbn [fail_path]. rewrite decide_False by naive_solver.
  pose proof (bu_fail _ Hbuilt f _ Hf) as Hf1. simpl tail in Hf1.
  pose proof (node_zero _ _ Hf1) as Hf10.
  assert (length (ssuf substr_word s) <= length s) as Hl by apply suffix_length, ssuf_spec.
  rewrite sub_hit_cons, (sub_hit_ssuf s), (ac_Substr _ _ Hf). case_decide as Hz.
  - rewrite Hf10 in Hz. rewrite Hz, concat_app, elem_of_app. simpl. rewrite app_nil_r.
    pose proof (sub_hit_nil v). tauto.
  - rewrite (IH (length (ssuf substr_word s))); [|simpl; lia|done..|lia].
    rewrite !concat_app, !elem_of_app. simpl. rewrite app_nil_r. tauto.
Qed.

Definition C (l : bytes) : word := acCharset <$> l.

Lemma C_snoc l c : C (l ++ [c]) = C l ++ [acCharset c].
Proof. unfold C. by rewrite fmap_app. Qed.

(** One edge of the automaton, for both matching loops. *)
Lemma follow n l c full :
  ws !! n = Some (lsuf ws (C l)) -> full = bool_decide (C l ∈ ws) ->
  ws !! (next (nd ac n) !!! acCharset c) = Some (lsuf ws (C (l ++ [c]))) /\
  full && (edge (nd ac n) !!! acCharset c) = bool_decide (C (l ++ [c]) ∈ ws).
Proof.
  intros Hn ->. destruct (bu_edge _ Hbuilt n _ (acCharset c) Hn (acCharset_lt c)) as [Hg He].
  rewrite C_snoc. split.
  - by rewrite lsuf_step; [|apply ws_root_in|apply ws_prefix].
  - rewrite He. destruct (decide (C l ∈ ws)) as [Hin|Hout].
    + rewrite bool_decide_true by done. by rewrite lsuf_id.
    + rewrite bool_decide_false by done. symmetry. apply bool_decide_false.
      by intros ?%ws_prefix.
Qed.

(** What a node and its fail path say about Substr values. *)
Lemma node_sub_hit n l v :
  ws !! n = Some (lsuf ws (C l)) ->
  sub_hit (C l) v <->
    v ∈ vSubstr (values ac !!! match_ (nd ac n)) \/ sub_hit (ssuf substr_word (tail (lsuf ws (C l)))) v.
Proof.
  intros Hn. rewrite sub_hit_lsuf, (ac_Substr _ _ Hn).
  destruct (lsuf ws (C l)) as [|x u] eqn:E.
  - simpl. rewrite reg_values_nil. pose proof (sub_hit_nil v). rewrite elem_of_nil. tauto.
  - by rewrite sub_hit_cons, (sub_hit_ssuf u).
Qed.

(** Hits while reading, after [l] and then the byte [c]; and at the end. *)
Definition step_hit (l : bytes) (c : byte) (v : Z) : Prop :=
  sub_hit (C (l ++ [c])) v \/ (c = "."%byte /\ v ∈ reg_values regs (C (l ++ [c])) Domain).

Definition final_hit (l : bytes) (v : Z) : Prop :=
  v ∈ reg_values regs (C l) Domain \/ v ∈ reg_values regs (C l) Full.

Definition start_state : match_state :=
  {| fullMatch := true; node := 0; suffixMatches := []; substrMatches := [] |}.

Record reading (l : bytes) (st : match_state) : Prop := {
  rd_node : ws !! node st = Some (lsuf ws (C l));
  rd_full : fullMatch st = bool_decide (C l ∈ ws);
  rd_hits : forall v,
    v ∈ concat (substrMatches st) \/ v ∈ concat (suffixMatches st) <->
    exists l1 c l2, l = l1 ++ c :: l2 /\ step_hit l1 c v;
}.

Lemma split_snoc {A} (l : list A) x l1 c l2 :
  l ++ [x] = l1 ++ c :: l2 <->
  (exists l2', l2 = l2' ++ [x] /\ l = l1 ++ c :: l2') \/ (l2 = [] /\ c = x /\ l1 = l).
Proof.
  split.
  - destruct l2 as [|y l2 _] using rev_ind.
    + intros [-> ->]%snoc_inj. by right.
    + rewrite app_comm_cons, (assoc_L (++)). intros [-> ->]%snoc_inj. left. by exists l2.
  - intros [(l2' & -> & ->)|(-> & -> & ->)]; [|done]. by rewrite <-(assoc_L (++)).
Qed.

Lemma step_hits_snoc (H : bytes -> byte -> Prop) l x :
  (exists l1 c l2, l ++ [x] = l1 ++ c :: l2 /\ H l1 c) <->
  (exists l1 c l2, l = l1 ++ c :: l2 /\ H l1 c) \/ H l x.
Proof.
  setoid_rewrite split_snoc. split.
  - intros (l1 & c & l2 & [(l2' & -> & ->)|(-> & -> & ->)] & ?); [left|by right]. by exists l1, c, l2'.
  - intros [(l1 & c & l2 & -> & ?)|?]; [exists l1, c, (l2 ++ [x])|exists l, x, []]; naive_solver.
Qed.

Lemma append_nonempty (A : list (list Z)) v x :
  x ∈ concat (match v with [] => A | y :: v' => A ++ [y :: v'] end) <-> x ∈ concat A \/ x ∈ v.
Proof.
  destruct v as [|y v]; [rewrite elem_of_nil; tauto|].
  rewrite concat_app, elem_of_app. simpl. by rewrite app_nil_r.
Qed.

Lemma match_step_ok l c st : reading l st -> reading (l ++ [c]) (match_step ac st c).
Proof.
  intros [Hn Hf Hh]. destruct (follow _ l c _ Hn Hf) as [Hn' Hf']. unfold match_step.
  set (n := next (nd ac (node st)) !!! acCharset c) in *. rewrite Hf'.
  pose proof (bu_fail _ Hbuilt _ _ Hn') as Hfl. pose proof (node_zero _ _ Hfl) as Hfl0.
  set (substr1 := if decide (fail (nd ac n) ≠ 0) then _ else _).
  assert (forall v, v ∈ concat substr1 <-> v ∈ concat (substrMatches st) \/
            sub_hit (ssuf substr_word (tail (lsuf ws (C (l ++ [c]))))) v) as Hs1.
  { intros v. unfold substr1. destruct (decide (fail (nd ac n) ≠ 0)) as [Hz|Hz].
    - apply fail_path_elem; [done|]. apply word_length in Hfl.
      rewrite (st_len _ (bu_same _ Hbuilt)). lia.
    - assert (fail (nd ac n) = 0) as Hz' by lia. rewrite Hfl0 in Hz'. rewrite Hz'.
      pose proof (sub_hit_nil v). tauto. }
  clearbody substr1. assert (forall v, C (l ++ [c]) ∈ ws /\ v ∈ vDomain (values ac !!! match_ (nd ac n))
                <-> v ∈ reg_values regs (C (l ++ [c])) Domain) as HD.
  { intros v. rewrite (ac_Domain _ _ Hn'). split.
    - intros [Hin Hv]. by rewrite lsuf_id in Hv.
    - intros Hv. pose proof (reg_values_word _ _ _ Hv). by rewrite lsuf_id. }
  split.
  - by destruct (decide (match_ (nd ac n) ≠ 0)).
  - by destruct (decide (match_ (nd ac n) ≠ 0)).
  - intros v. rewrite step_hits_snoc, <-Hh. unfold step_hit.
    rewrite (node_sub_hit _ _ v Hn'), <-HD.
    destruct (decide (match_ (nd ac n) ≠ 0)) as [Hm|Hm]; cbn [substrMatches suffixMatches].
    + rewrite append_nonempty, Hs1.
      destruct (bool_decide_reflect (C (l ++ [c]) ∈ ws)), (bool_decide_reflect (c = "."%byte)); simpl;
        rewrite ?append_nonempty; tauto.
    + assert (match_ (nd ac n) = 0) as H0 by lia.
      rewrite Hs1, (ac_Substr _ _ Hn'), (ac_Domain _ _ Hn').
      rewrite !(ac_unmatched _ _ _ Hn'), !elem_of_nil by (unfold has_row; tauto). tauto.
Qed.

Lemma loop_reading l : reading l (foldl (match_step ac) start_state l).
Proof.
  induction l as [|c l IH] using rev_ind.
  - split; simpl.
    + rewrite decide_True by apply ws_root_in. apply ws_zero.
    + symmetry. apply bool_decide_true, ws_root_in.
    + intros v. rewrite elem_of_nil. split; [tauto|]. intros ([] & c & l2 & [=] & _).
  - rewrite foldl_snoc. by apply match_step_ok.
Qed.

Definition hits (l : bytes) (v : Z) : Prop :=
  (exists l1 c l2, l = l1 ++ c :: l2 /\ step_hit l1 c v) \/ final_hit l v.

Lemma concat_rev_elem (A : list (list Z)) x : x ∈ concat (rev A) <-> x ∈ concat A.
Proof. rewrite !elem_of_concat. by setoid_rewrite elem_of_rev. Qed.

Lemma Match_hits input v : v ∈ Match ac input <-> hits (rev input) v.
Proof.
  unfold Match, hits. fold start_state.
  pose proof (loop_reading (rev input)) as Hr.
  set (st := foldl (match_step ac) start_state (rev input)) in *. clearbody st.
  destruct Hr as [Hn Hf Hh]. rewrite <-Hh, Hf. set (l := rev input) in *. clearbody l.
  set (suffix := if _ && _ then _ else _).
  transitivity (v ∈ concat (substrMatches st) \/ v ∈ concat suffix).
  { destruct (substrMatches st) as [|m ms] eqn:E; rewrite CompositeMatchesReverse_concat, concat_rev_elem.
    - simpl. rewrite elem_of_nil. tauto.
    - by rewrite concat_app, elem_of_app. }
  enough (v ∈ concat suffix <-> v ∈ concat (suffixMatches st) \/ final_hit l v) by tauto.
  unfold suffix, final_hit.
  destruct (bool_decide_reflect (C l ∈ ws)) as [Hin|Hout]; simpl.
  - rewrite lsuf_id in Hn by done.
    case_bool_decide as Hm.
    + rewrite !append_nonempty, (ac_Domain _ _ Hn), (ac_Full _ _ Hn). tauto.
    + assert (match_ (nd ac (node st)) = 0) as H0 by lia.
      rewrite !(ac_unmatched _ _ _ Hn), !elem_of_nil by (unfold has_row; tauto). tauto.
  - split; [tauto|]. intros [?|[Hv|Hv]]; [done|apply reg_values_word in Hv..]; done.
Qed.

(** Any hit of the rest of the input, [l0] being read already. *)
Definition any_hit (l0 rest : bytes) : Prop :=
  exists v, (exists l1 c l2, rest = l1 ++ c :: l2 /\ step_hit (l0 ++ l1) c v) \/ final_hit (l0 ++ rest) v.

Lemma any_hit_cons l0 c rest :
  any_hit l0 (c :: rest) <-> (exists v, step_hit l0 c v) \/ any_hit (l0 ++ [c]) rest.
Proof.
  unfold any_hit. setoid_rewrite <-(assoc_L (++)). cbn [app]. split.
  - intros [v [(l1 & c' & l2 & Heq & Hh)|Hh]]; [|right; exists v; by right].
    destruct l1 as [|? l1]; simplify_eq/=; [left; exists v; by rewrite app_nil_r in Hh|].
    right. exists v. left. by exists l1, c', l2.
  - intros [[v Hh]|[v [(l1 & c' & l2 & -> & Hh)|Hh]]]; exists v; [left|left|by right].
    + exists [], c, rest. by rewrite app_nil_r.
    + by exists (c :: l1), c', l2.
Qed.

(** The two tests of the loop body, at the node [n] reached by [l]. *)
Lemma no_sub_hit n l : ws !! n = Some (lsuf ws (C l)) ->
  (forall v, ~ sub_hit (C l) v) <->
  fail (nd ac n) = 0 /\ vSubstr (values ac !!! match_ (nd ac n)) = [].
Proof.
  intros Hn. setoid_rewrite (node_sub_hit _ _ _ Hn).
  pose proof (node_zero _ _ (bu_fail _ Hbuilt _ _ Hn)) as ->.
  destruct (ssuf_spec substr_word (tail (lsuf ws (C l)))) as (_ & HP & _). split.
  - intros Hv. split.
    + destruct (decide (ssuf substr_word (tail (lsuf ws (C l))) = [])) as [|Hz]; [done|].
      specialize (HP Hz). unfold substr_word at 1 in HP.
      destruct (reg_values regs _ Substr) as [|v vs] eqn:E; [done|]. destruct (Hv v). right.
      eexists. split; [done|]. rewrite E. by left.
    + destruct (vSubstr _) as [|v vs]; [done|]. destruct (Hv v). left. by left.
  - intros [-> ->] v. rewrite elem_of_nil. pose proof (sub_hit_nil v). tauto.
Qed.

Lemma dom_hit n l (c : byte) : ws !! n = Some (lsuf ws (C l)) ->
  (exists v, c = "."%byte /\ v ∈ reg_values regs (C l) Domain) <->
  bool_decide (C l ∈ ws) && bool_decide (c = "."%byte) = true /\
  vDomain (values ac !!! match_ (nd ac n)) ≠ [].
Proof.
  intros Hn. rewrite andb_true_iff, !bool_decide_eq_true, (ac_Domain _ _ Hn). split.
  - intros (v & -> & Hv). pose proof (reg_values_word _ _ _ Hv) as Hin. rewrite lsuf_id by done.
    split; [done|]. intros H0. rewrite H0 in Hv. by apply not_elem_of_nil in Hv.
  - intros [[Hin ->] Hv]. rewrite lsuf_id in Hv by done.
    destruct (reg_values _ _ Domain) as [|v vs] eqn:E; [done|]. exists v. split; [done|]. by left.
Qed.

Lemma no_step_hit n l c : ws !! n = Some (lsuf ws (C (l ++ [c]))) ->
  fail (nd ac n) = 0 -> vSubstr (values ac !!! match_ (nd ac n)) = [] ->
  (bool_decide (C (l ++ [c]) ∈ ws) && bool_decide (c = "."%byte) = false \/
   vDomain (values ac !!! match_ (nd ac n)) = []) ->
  ~ exists v, step_hit l c v.
Proof.
  intros Hn Hf Hs Hd (v & [Hv|Hv]).
  - by eapply no_sub_hit in Hv.
  - destruct (proj1 (dom_hit _ _ c Hn)) as [Hd1 Hd2]; [by exists v|]. destruct Hd; congruence.
Qed.

(** At the end, with no Substr hit, an entry at the node of the whole input
    is a Full or Domain hit. *)
Lemma end_hit n l : ws !! n = Some (lsuf ws (C l)) -> (forall v, ~ sub_hit (C l) v) ->
  bool_decide (C l ∈ ws) && bool_decide (match_ (nd ac n) ≠ 0) = true <-> exists v, final_hit l v.
Proof.
  intros Hn Hns. rewrite andb_true_iff, !bool_decide_eq_true. unfold final_hit. split.
  - intros [Hin Hm]. rewrite lsuf_id in Hn by done. rewrite (st_match _ (bu_same _ Hbuilt)) in Hm.
    apply (mo_matched _ _ _ (to_matches _ _ _ Hok) _ _ Hn) in Hm as ([[w t] v] & Hr & Hw).
    simpl in Hw. subst. exists v. rewrite !reg_values_in.
    pose proof (mo_in _ _ _ (to_matches _ _ _ Hok) _ Hr) as [_ Ht]. simpl in Ht.
    destruct Ht as [-> | [-> | ->]]; [by right|by left|].
    exfalso. apply (Hns v). exists (C l). split; [done|]. by apply reg_values_in.
  - intros [v Hv]. assert (C l ∈ ws) as Hin by (destruct Hv as [Hv|Hv]; by eapply reg_values_word).
    split; [done|]. rewrite lsuf_id in Hn by done. intros H0.
    rewrite !(ac_unmatched _ _ _ Hn), !elem_of_nil in Hv by (unfold has_row; tauto). tauto.
Qed.

Lemma any_loop_hits l0 n rest :
  ws !! n = Some (lsuf ws (C l0)) -> (forall v, ~ sub_hit (C l0) v) ->
  any_loop ac (bool_decide (C l0 ∈ ws)) n rest = true <-> any_hit l0 rest.
Proof.
  revert l0 n. induction rest as [|c rest IH]; intros l0 n Hn Hns.
  { cbn [any_loop]. rewrite (end_hit _ _ Hn Hns). unfold any_hit. rewrite app_nil_r.
    split; intros [v Hv]; exists v; [by right|]. destruct Hv as [([] & ? & ? & [=] & _)|Hv]. done. }
  cbn [any_loop]. destruct (follow _ l0 c _ Hn eq_refl) as [Hn' ->].
  set (n' := next (nd ac n) !!! acCharset c) in *. rewrite any_hit_cons.
  pose proof (no_sub_hit _ _ Hn') as Hsub. pose proof (no_step_hit _ _ _ Hn') as Hno.
  pose proof (IH (l0 ++ [c]) n' Hn') as IH'. clear IH Hn Hns.
  assert (forall v, sub_hit (C (l0 ++ [c])) v -> exists v, step_hit l0 c v) as Hs
    by (intros v Hv; exists v; by left).
  destruct (decide (fail (nd ac n') ≠ 0)) as [Hz|Hz].
  { split; [intros _|done]. left. destruct (ssuf_spec substr_word (tail (lsuf ws (C (l0 ++ [c]))))) as (_ & HP & _).
    pose proof (bu_fail _ Hbuilt _ _ Hn') as Hfl. rewrite (node_zero _ _ Hfl) in Hz.
    specialize (HP Hz). unfold substr_word at 1 in HP.
    destruct (reg_values regs _ Substr) as [|v vs] eqn:E; [done|]. apply (Hs v).
    apply (node_sub_hit _ _ _ Hn'). right. eexists. split; [done|]. rewrite E. by left. }
  assert (fail (nd ac n') = 0) as Hz0 by lia.
  assert (vSubstr (values ac !!! match_ (nd ac n')) = [] ->
    any_loop ac (bool_decide (C (l0 ++ [c]) ∈ ws)) n' rest = true <-> any_hit (l0 ++ [c]) rest) as IHs
    by (intros; apply IH', Hsub; done).
  destruct (decide (match_ (nd ac n') ≠ 0)) as [Hm|Hm].
  - destruct (vSubstr (values ac !!! match_ (nd ac n'))) as [|v vs] eqn:Ev.
    + destruct (bool_decide _ && bool_decide (c = "."%byte)) eqn:Eb.
      * destruct (vDomain (values ac !!! match_ (nd ac n'))) as [|d ds] eqn:Ed.
        -- rewrite IHs by done. specialize (Hno Hz0 eq_refl (or_intror eq_refl)). tauto.
        -- split; [intros _|done]. left. destruct (proj2 (dom_hit _ _ c Hn')) as (v & ? & ?); [by rewrite Ed|].
           exists v. by right.
      * rewrite IHs by done. specialize (Hno Hz0 eq_refl (or_introl eq_refl)). tauto.
    + split; [intros _|done]. left. apply (Hs v). apply (node_sub_hit _ _ _ Hn'). left. rewrite Ev. by left.
  - assert (match_ (nd ac n') = 0) as H0 by lia.
    assert (vSubstr (values ac !!! match_ (nd ac n')) = [] /\ vDomain (values ac !!! match_ (nd ac n')) = []) as [Ev Ed].
    { rewrite (ac_Substr _ _ Hn'), (ac_Domain _ _ Hn').
      rewrite !(ac_unmatched _ _ _ Hn') by (unfold has_row; tauto). done. }
    rewrite (IHs Ev). specialize (Hno Hz0 Ev (or_intror Ed)). tauto.
Qed.

Lemma MatchAny_hits input : MatchAny ac input = true <-> exists v, hits (rev input) v.
Proof.
  unfold MatchAny. rewrite <-(bool_decide_true ([] ∈ ws)) at 1; [|apply ws_root_in].
  apply (any_loop_hits []); [|apply sub_hit_nil].
  simpl. rewrite decide_True by apply ws_root_in. apply ws_zero.
Qed.
End BuildOk.

(** ** Groups against the matchers they were built from *)

Definition is_upper (b : byte) : bool := ((65 <=? byte_to_Z b) && (byte_to_Z b <=? 90))%Z.

Definition lower_ldh (b : byte) : bool := ldh_byte b && negb (is_upper b).

(** The patterns the automaton is made for: not empty, of lower-case letters,
    digits, hyphens and dots, and no domain with a leading dot. The file asks
    for this alphabet in a notice; the package does not check it, and callers
    pass patterns on as they are configured. *)
Record pattern_ok (p : bytes) (t : Type_) : Prop := {
  po_nonempty : p ≠ [];
  po_ldh : Forall (fun b => lower_ldh b = true) p;
  po_dot : t = Domain -> head p ≠ Some "."%byte;
}.

Lemma acCharset_inj a b : lower_ldh a = true -> is_upper b = false -> acCharset b = acCharset a -> b = a.
Proof.
  unfold lower_ldh, ldh_byte, is_upper, acCharset. intros Ha Hb Hab. apply (inj byte_to_Z).
  pose proof (byte_to_Z_range a). pose proof (byte_to_Z_range b). repeat case_match; lia.
Qed.

Lemma acCharset_dot : acCharset "."%byte = 28.
Proof. reflexivity. Qed.

Lemma C_inj l l' : Forall (fun b => lower_ldh b = true) l -> Forall (fun b => is_upper b = false) l' ->
  C l' = C l -> l' = l.
Proof.
  intros Hl Hl'. revert l Hl. induction Hl' as [|b l' Hb _ IH]; intros [|a l] Hl; try done.
  apply Forall_cons in Hl as [Ha Hl]. intros [= Hab Heq]. f_equal; [by apply acCharset_inj|by apply IH].
Qed.

Lemma codes_C p : codes p = C (rev p).
Proof. done. Qed.

Section Registered.
Context (ms : list (bytes * Type_ * Z)) (Hms : forall p t v, (p, t, v) ∈ ms -> pattern_ok p t).
Context (input : bytes) (Hinput : Forall (fun b => is_upper b = false) input).

Abbreviation regs := (ms ≫= registrations).

Lemma elem_of_regs w t v : (w, t, v) ∈ regs <->
  has_row t /\ exists p, (p, t, v) ∈ ms /\ (w = codes p \/ t = Domain /\ w = codes p ++ [28]).
Proof.
  rewrite list_elem_of_bind. unfold registrations, has_row. split.
  - intros ([[p t'] v'] & Hr & Hm). destruct t';
      repeat (apply elem_of_cons in Hr as [[= -> -> ->]|Hr]); try (by apply not_elem_of_nil in Hr);
      (split; [tauto|]); exists p; tauto.
  - intros (Ht & p & Hm & Hw). exists (p, t, v). split; [|done].
    destruct Ht as [-> | [-> | ->]]; destruct Hw as [->|[? ->]]; try done; rewrite !elem_of_cons; tauto.
Qed.

Lemma regs_nonempty r : r ∈ regs -> r.1.1 ≠ [].
Proof.
  destruct r as [[w t] v]. intros (_ & p & Hm & Hw)%elem_of_regs. simpl.
  pose proof (po_nonempty _ _ (Hms _ _ _ Hm)) as Hp.
  destruct Hw as [->|[_ ->]]; [|by destruct (codes p)].
  unfold codes. intros Hn%fmap_nil_inv. apply Hp. by destruct p as [|? p _] using rev_ind; [|rewrite rev_snoc in Hn].
Qed.

(** Codes determine the part of the input they were read from. *)
Lemma part_eq p t v l l' : (p, t, v) ∈ ms -> rev input = l ++ l' -> C l = codes p <-> l = rev p.
Proof.
  intros Hm Hl. rewrite codes_C. split; [|by intros ->].
  apply C_inj; [apply Forall_rev_iff, (po_ldh _ _ (Hms _ _ _ Hm))|].
  apply Forall_rev_iff in Hinput. rewrite Hl in Hinput. by apply Forall_app in Hinput as [].
Qed.

Lemma part_eq_dot p t v l l' : (p, t, v) ∈ ms -> rev input = l ++ l' ->
  C l = codes p ++ [28] <-> l = rev ("."%byte :: p).
Proof.
  intros Hm Hl. change (codes p ++ [28]) with (codes p ++ C ["."%byte]). rewrite codes_C.
  unfold C. rewrite <-fmap_app. simpl. split; [|by intros ->].
  apply C_inj.
  - rewrite Forall_app. split; [apply Forall_rev_iff, (po_ldh _ _ (Hms _ _ _ Hm))|by repeat constructor].
  - apply Forall_rev_iff in Hinput. rewrite Hl in Hinput. by apply Forall_app in Hinput as [].
Qed.

Lemma input_part l1 c l2 k l :
  rev input = l1 ++ c :: l2 -> C (l1 ++ [c]) = k ++ C l ->
  Forall (fun b => lower_ldh b = true) l -> exists k', rev input = k' ++ l ++ l2.
Proof.
  intros Hi Hk Hl. unfold C in Hk. apply fmap_app_inv in Hk as (k1 & k2 & -> & Hk2 & Heq).
  rewrite cons_middle, (assoc_L (++)), Heq in Hi.
  assert (k2 = l) as ->; [|exists k1; by rewrite (assoc_L (++))].
  apply C_inj; [done| |symmetry; exact Hk2].
  apply Forall_rev_iff in Hinput. rewrite Hi in Hinput.
  apply Forall_app in Hinput as [[_ Hk]%Forall_app _]. done.
Qed.

Lemma substr_hits v :
  (exists l1 c l2, rev input = l1 ++ c :: l2 /\ sub_hit regs (C (l1 ++ [c])) v) <->
  exists p, (p, Substr, v) ∈ ms /\ Contains input p = true.
Proof.
  setoid_rewrite Contains_spec. split.
  - intros (l1 & c & l2 & Hi & w & [k Hk] & Hw).
    apply reg_values_in in Hw. apply elem_of_regs in Hw as (_ & p & Hm & [->|[? _]]); [|done].
    exists p. split; [done|]. rewrite codes_C in Hk.
    destruct (input_part _ _ _ _ _ Hi Hk) as [k' Hk'].
    { apply Forall_rev_iff, (po_ldh _ _ (Hms _ _ _ Hm)). }
    exists (rev l2), (rev k'). apply rev_eq in Hk'. by rewrite !rev_app_distr, rev_involutive, <-(assoc_L (++)) in Hk'.
  - intros (p & Hm & a & b & Hi). pose proof (po_nonempty _ _ (Hms _ _ _ Hm)) as Hp.
    destruct p as [|x p]; [done|]. exists (rev b ++ rev p), x, (rev a). split.
    + rewrite Hi, !rev_app_distr. simpl. by rewrite <-!(assoc_L (++)).
    + exists (codes (x :: p)). split.
      * exists (C (rev b)). rewrite <-(assoc_L (++)). unfold C. by rewrite fmap_app.
      * apply reg_values_in, elem_of_regs. split; [unfold has_row; tauto|]. eauto.
Qed.

Lemma domain_hits v :
  (exists l1 c l2, rev input = l1 ++ c :: l2 /\ c = "."%byte /\ v ∈ reg_values regs (C (l1 ++ [c])) Domain) \/
  v ∈ reg_values regs (C (rev input)) Domain <->
  exists p, (p, Domain, v) ∈ ms /\ domain_Match p input = true.
Proof.
  assert (forall l l', rev input = l ++ l' -> v ∈ reg_values regs (C l) Domain <->
    exists p, (p, Domain, v) ∈ ms /\ (l = rev p \/ l = rev ("."%byte :: p))) as Hreg.
  { intros l l' Hl. rewrite reg_values_in, elem_of_regs. split.
    - intros (_ & p & Hm & [Hw|[_ Hw]]); exists p; (split; [done|]).
      + left. by eapply part_eq.
      + right. by eapply part_eq_dot.
    - intros (p & Hm & Hw). split; [unfold has_row; tauto|]. exists p. split; [done|].
      destruct Hw as [Hw|Hw]; [left; by eapply part_eq|right; split; [done|by eapply part_eq_dot]]. }
  setoid_rewrite domain_Match_spec. split.
  - intros [(l1 & c & l2 & Hi & -> & Hv)|Hv].
    + rewrite cons_middle, (assoc_L (++)) in Hi. apply (Hreg _ _ Hi) in Hv as (p & Hm & Hw).
      exists p. split; [done|]. right. exists (rev l2). apply rev_eq in Hi.
      rewrite Hi, rev_app_distr. f_equal. destruct Hw as [Hw|Hw]; [|by apply rev_eq].
      exfalso. apply (po_dot _ _ (Hms _ _ _ Hm)); [done|].
      symmetry in Hw. apply rev_eq in Hw. by rewrite rev_snoc in Hw; subst.
    + apply (Hreg _ []) in Hv as (p & Hm & [Hw|Hw]); [| |by rewrite app_nil_r]; exists p; (split; [done|]).
      * left. apply rev_eq in Hw. by rewrite rev_involutive in Hw.
      * right. apply rev_eq in Hw. rewrite rev_involutive in Hw. by rewrite Hw.
  - intros (p & Hm & [Hi|[k Hi]]).
    + right. apply (Hreg _ []); [by rewrite app_nil_r|]. exists p. rewrite Hi. auto.
    + left. exists (rev p), "."%byte, (rev k).
      assert (rev input = rev p ++ "."%byte :: rev k) as Hr.
      { rewrite Hi, rev_app_distr. simpl. by rewrite <-(assoc_L (++)). }
      split; [done|]. split; [done|]. rewrite cons_middle, (assoc_L (++)) in Hr.
      apply (Hreg _ _ Hr). exists p. auto.
Qed.

Lemma full_hits v :
  v ∈ reg_values regs (C (rev input)) Full <-> exists p, (p, Full, v) ∈ ms /\ p = input.
Proof.
  rewrite reg_values_in, elem_of_regs. split.
  - intros (_ & p & Hm & [Hw|[? _]]); [|done]. exists p. split; [done|].
    apply (part_eq p Full v _ [] Hm) in Hw; [|by rewrite app_nil_r]. apply rev_eq in Hw. by rewrite rev_involutive in Hw.
  - intros (p & Hm & ->). split; [by left|]. exists input. auto.
Qed.

Lemma hits_matches v : hits regs (rev input) v <->
  exists p t, (p, t, v) ∈ ms /\ type_Match t p input = true.
Proof.
  transitivity ((exists p, (p, Substr, v) ∈ ms /\ Contains input p = true) \/
    (exists p, (p, Domain, v) ∈ ms /\ domain_Match p input = true) \/
    (exists p, (p, Full, v) ∈ ms /\ p = input)).
  - rewrite <-substr_hits, <-domain_hits, <-full_hits. unfold hits, final_hit, step_hit. split.
    + intros [(l1 & c & l2 & Hi & [Hs|Hd])|[Hv|Hv]]; [left|right; left; left|right; left; by right|right; by right];
        by exists l1, c, l2.
    + intros [(l1 & c & l2 & Hi & Hs)|[[(l1 & c & l2 & Hi & Hd)|Hv]|Hv]];
        [left|left|right; by left|right; by right]; exists l1, c, l2; auto.
  - split.
    + intros [(p & ? & ?)|[(p & ? & ?)|(p & ? & ->)]]; [by exists p, Substr|by exists p, Domain|].
      exists input, Full. split; [done|]. by apply bool_decide_true.
    + intros (p & t & Hm & Ht). destruct t; simpl in Ht; try done.
      * right. right. exists p. by apply bool_decide_eq_true in Ht.
      * right. left. eauto.
      * left. eauto.
Qed.
End Registered.

(** The automaton built from [ms]. *)
Lemma Build_total ms : exists ac, Build (add_entries ms) = Some ac.
Proof.
  destruct (add_entries_ok ms) as [ws Hok]. destruct (Build_completes _ _ _ Hok) as (ac & ? & _). eauto.
Qed.

Lemma Match_elem ms ac input v :
  (forall p t v, (p, t, v) ∈ ms -> pattern_ok p t) -> Forall (fun b => is_upper b = false) input ->
  Build (add_entries ms) = Some ac ->
  v ∈ Match ac input <-> exists p t, (p, t, v) ∈ ms /\ type_Match t p input = true.
Proof.
  intros Hms Hin Hb. destruct (add_entries_ok ms) as [ws Hok].
  destruct (Build_completes _ _ _ Hok) as (ac' & Hb' & Hbuilt). assert (ac' = ac) as -> by congruence.
  rewrite (Match_hits _ _ _ Hok _ Hbuilt); [by apply hits_matches|by apply regs_nonempty].
Qed.

Lemma MatchAny_elem ms ac input :
  (forall p t v, (p, t, v) ∈ ms -> pattern_ok p t) -> Forall (fun b => is_upper b = false) input ->
  Build (add_entries ms) = Some ac ->
  MatchAny ac input = true <-> exists p t v, (p, t, v) ∈ ms /\ type_Match t p input = true.
Proof.
  intros Hms Hin Hb. destruct (add_entries_ok ms) as [ws Hok].
  destruct (Build_completes _ _ _ Hok) as (ac' & Hb' & Hbuilt). assert (ac' = ac) as -> by congruence.
  rewrite (MatchAny_hits _ _ _ Hok _ Hbuilt) by (by apply regs_nonempty).
  setoid_rewrite hits_matches; [|done..]. naive_solver.
Qed.

(** ** Properties *)

(** Build terminates on every group, whatever was added to it: the queue
    loop visits each node once, so the fuel of one turn per node is never
    exhausted. *)
Theorem ac_Build_terminates (ms : list (bytes * Type_ * Z)) :
  exists ac, Build (add_entries ms) = Some ac.
Proof. apply Build_total. Qed.

(** C31: after Build, Match returns exactly the values of the registered Full,
    Domain and Substr patterns whose own matcher accepts the input, for
    patterns in the automaton's alphabet (lower-case letters, digits, hyphens
    and dots), none of them empty and no domain with a leading dot, and for
    an input without capital letters; other bytes of the input may be any.
    The program does not see to this alphabet, and outside of it the
    automaton confuses bytes. *)
Theorem ac_Match_correct ms ac input v :
  (forall p t v, (p, t, v) ∈ ms -> pattern_ok p t) -> Forall (fun b => is_upper b = false) input ->
  Build (add_entries ms) = Some ac ->
  v ∈ Match ac input <-> exists p t, (p, t, v) ∈ ms /\ type_Match t p input = true.
Proof. apply Match_elem. Qed.

(** After Build, MatchAny answers whether any registered pattern's own
    matcher accepts the input; it may stop early but never differs. *)
Theorem ac_MatchAny_correct ms ac input :
  (forall p t v, (p, t, v) ∈ ms -> pattern_ok p t) -> Forall (fun b => is_upper b = false) input ->
  Build (add_entries ms) = Some ac ->
  MatchAny ac input = true <-> exists p t v, (p, t, v) ∈ ms /\ type_Match t p input = true.
Proof. apply MatchAny_elem. Qed.

(** The fail path loop advances its two variables by a parallel
    assignment whose second component lags, so that every node of the path
    but the last contributes its values twice: value 2 is returned twice. *)
Theorem ac_Match_repeats_values :
  (fun ac => Match ac (bs "abc")) <$>
    Build (add_entries [(bs "abc", Substr, 1%Z); (bs "ab", Substr, 2%Z); (bs "a", Substr, 3%Z)])
  = Some [1; 3; 2; 2]%Z.
Proof. vm_compute. reflexivity. Qed.

Lemma sample_ok : forall p t v,
  (p, t, v) ∈ [(bs "a.com", Domain, 1%Z); (bs "b-c", Substr, 2%Z); (bs "x", Full, 3%Z)] -> pattern_ok p t.
Proof.
  intros p t v Hin. repeat apply elem_of_cons in Hin as [[= -> -> ->]|Hin]; try by apply not_elem_of_nil in Hin.
  all: split; [done|by repeat constructor|done].
Defined.

Lemma ac_Match_correct_witness :
  1%Z ∈ Match (default NewACAutomatonMatcherGroup (Build (add_entries
    [(bs "a.com", Domain, 1%Z); (bs "b-c", Substr, 2%Z); (bs "x", Full, 3%Z)]))) (bs "www.a.com").
Proof.
  refine (proj2 (ac_Match_correct _ _ (bs "www.a.com") 1%Z sample_ok _ _) _).
  - by repeat constructor.
  - vm_compute. reflexivity.
  - exists (bs "a.com"), Domain. split; [left|]; reflexivity.
Defined.

Lemma ac_MatchAny_correct_witness :
  MatchAny (default NewACAutomatonMatcherGroup (Build (add_entries
    [(bs "a.com", Domain, 1%Z); (bs "b-c", Substr, 2%Z); (bs "x", Full, 3%Z)]))) (bs "1b-c2") = true.
Proof.
  refine (proj2 (ac_MatchAny_correct _ _ (bs "1b-c2") sample_ok _ _) _).
  - by repeat constructor.
  - vm_compute. reflexivity.
  - exists (bs "b-c"), Substr, 2%Z. split; [right; left|]; reflexivity.
Defined.
