(* ===== verification/Mph.v ===== *)
(** * The minimal perfect hash group, [common/strmatcher/matchergroup_mph.go]

    Full and Domain patterns in one two-level hash table: a rolling hash
    selects a bucket, the bucket's seed makes [MemHash] injective on the
    rules placed so far.  The hash function of the Go runtime is the method
    of [MphRuntime]; the order of [sort.Slice] is that of [SortSlice].  The
    facts show that a built table looks up exactly its rules, whatever the
    hash function, and when Build terminates. *)

From S2P Require Import Prelude Matchers.

(** [runtime.strhash], linked in by name. *)
Class MphRuntime := strhash : bytes -> Z -> Z.

(** src/common/strmatcher/matchergroup_mph.go PrimeRK *)
Definition PrimeRK : Z := 16777619.

Definition roll (hash : Z) (c : byte) : Z := u32 (hash * PrimeRK + byte_to_Z c).

(** src/common/strmatcher/matchergroup_mph.go RollingHash *)
Definition RollingHash (hash : Z) (input : bytes) : Z := foldl roll hash (rev input).

(** src/common/strmatcher/matchergroup_mph.go MemHash *)
Definition MemHash `{MphRuntime} (seed : Z) (input : bytes) : Z := u32 (strhash input seed).

(** src/common/strmatcher/matchergroup_mph.go mphRuleInfo *)
Record mphRuleInfo := { rollingHash : Z; mFull : list Z; mDomain : list Z }.

(** [ruleInfos] is [None] once Build has released it; using it then is a nil
    dereference.
    src/common/strmatcher/matchergroup_mph.go MphMatcherGroup *)
Record MphMatcherGroup := {
  rules : list bytes;
  values : list (list Z);
  level0 : list Z;
  level0Mask : Z;
  level1 : list nat;
  level1Mask : Z;
  ruleInfos : option (gmap bytes mphRuleInfo)
}.

(** src/common/strmatcher/matchergroup_mph.go NewMphMatcherGroup *)
Definition NewMphMatcherGroup : MphMatcherGroup :=
  {| rules := [[]]; values := [[]]; level0 := []; level0Mask := 0; level1 := [];
     level1Mask := 0; ruleInfos := Some ∅ |}.

(** The zero value that indexing a Go map returns for a missing key. *)
Definition zero_info : mphRuleInfo := {| rollingHash := 0; mFull := []; mDomain := [] |}.

Definition append_value (t : Type_) (x : Z) (info : mphRuleInfo) : mphRuleInfo :=
  match t with
  | Full => {| rollingHash := rollingHash info; mFull := mFull info ++ [x]; mDomain := mDomain info |}
  | Domain => {| rollingHash := rollingHash info; mFull := mFull info; mDomain := mDomain info ++ [x] |}
  | _ => info
  end.

(** src/common/strmatcher/matchergroup_mph.go MphMatcherGroup.addPattern *)
Definition mph_addPattern (g : MphMatcherGroup) (suffixHash : Z) (suffixPattern pattern : bytes)
    (matcherType : Type_) (value : Z) : option (MphMatcherGroup * Z) :=
  infos ← ruleInfos g;
  let fullPattern := pattern ++ suffixPattern in
  let '(info, rules', values') :=
    match infos !! fullPattern with
    | Some info => (info, rules g, values g)
    | None => ({| rollingHash := RollingHash suffixHash pattern; mFull := []; mDomain := [] |},
               rules g ++ [fullPattern], values g ++ [[]])
    end in
  let info' := append_value matcherType value info in
  Some ({| rules := rules'; values := values'; level0 := level0 g; level0Mask := level0Mask g;
           level1 := level1 g; level1Mask := level1Mask g;
           ruleInfos := Some (<[fullPattern := info']> infos) |},
        rollingHash info').

Section Mph.
Context `{StringLibs, MphRuntime, SortSlice}.

(** src/common/strmatcher/matchergroup_mph.go MphMatcherGroup.AddFullMatcher *)
Definition mph_AddFullMatcher (g : MphMatcherGroup) (pattern : bytes) (value : Z) : option MphMatcherGroup :=
  '(g1, _) ← mph_addPattern g 0 [] (ToLower pattern) Full value; Some g1.

(** src/common/strmatcher/matchergroup_mph.go MphMatcherGroup.AddDomainMatcher *)
Definition mph_AddDomainMatcher (g : MphMatcherGroup) (pattern : bytes) (value : Z) : option MphMatcherGroup :=
  let pattern := ToLower pattern in
  '(g1, hash) ← mph_addPattern g 0 [] pattern Domain value;
  '(g2, _) ← mph_addPattern g1 hash pattern ["."%byte] Domain value;
  Some g2.

(** ** Build *)

(** [bits.LeadingZeros] of a positive 64-bit number. *)
Definition LeadingZeros (v : Z) : Z := 64 - (Z.log2 v + 1).

(** src/common/strmatcher/matchergroup_mph.go nextPow2 *)
Definition nextPow2 (v : Z) : Z :=
  if (v <=? 1)%Z then 1%Z else (Z.shiftr (2 ^ 64 - 1) (LeadingZeros v) + 1)%Z.

(** The second level while it is built: the slots taken and their rules. *)
Record tables := { occupied : list bool; slots : list nat }.

Section Bucket.
Context (rls : list bytes) (mask : Z).

Definition slot_of (seed : Z) (ruleIdx : nat) : nat :=
  Z.to_nat (Z.land (MemHash seed (rls !!! ruleIdx)) mask).

Definition revert (t : tables) (hashed : list nat) : tables :=
  foldl (fun t h => {| occupied := <[h := false]> (occupied t); slots := <[h := 0]> (slots t) |}) t hashed.

(** One pass over a bucket: its rules, the tables, the slots used so far
    and the seed; a collision undoes the pass and moves to the next seed.
    src/common/strmatcher/matchergroup_mph.go:121-135 MphMatcherGroup.Build *)
Fixpoint try_bucket (bucket : list nat) (seed : Z) (t : tables) (hashed : list nat) :
    Z * tables * list nat :=
  match bucket with
  | [] => (seed, t, hashed)
  | ruleIdx :: rest =>
      let memHash := slot_of seed ruleIdx in
      if (occupied t !!! memHash : bool) then (u32 (seed + 1), revert t hashed, [])
      else try_bucket rest seed
             {| occupied := <[memHash := true]> (occupied t); slots := <[memHash := ruleIdx]> (slots t) |}
             (hashed ++ [memHash])
  end.

(** Passes until the whole bucket is placed; [None] when the fuel, the
    number of passes, is exhausted.
    src/common/strmatcher/matchergroup_mph.go:118-136 MphMatcherGroup.Build *)
Fixpoint seed_loop (fuel : nat) (bucket : list nat) (seed : Z) (t : tables) (hashed : list nat) :
    option (Z * tables) :=
  if decide (length hashed = length bucket) then Some (seed, t)
  else match fuel with
       | O => None
       | S fuel' => let '(seed', t', hashed') := try_bucket bucket seed t hashed in
                    seed_loop fuel' bucket seed' t' hashed'
       end.

(** The loop over the buckets in the sorted order.
    src/common/strmatcher/matchergroup_mph.go:116-138 MphMatcherGroup.Build *)
Fixpoint place_buckets (fuel : nat) (buckets : list (list nat)) (idxs : list nat)
    (l0 : list Z) (t : tables) : option (list Z * tables) :=
  match idxs with
  | [] => Some (l0, t)
  | bucketIdx :: rest =>
      '(seed, t') ← seed_loop fuel (buckets !!! bucketIdx) 0 t [];
      place_buckets fuel buckets rest (<[bucketIdx := seed]> l0) t'
  end.
End Bucket.

(** src/common/strmatcher/matchergroup_mph.go:97-104 MphMatcherGroup.Build *)
Definition fill_buckets (infos : gmap bytes mphRuleInfo) (rls : list bytes) (mask : Z) (size : nat) :
    list (list nat) :=
  foldl (fun buckets ruleIdx =>
    let ruleInfo := default zero_info (infos !! (rls !!! ruleIdx)) in
    alter (fun bucket => bucket ++ [ruleIdx]) (Z.to_nat (Z.land (rollingHash ruleInfo) mask)) buckets)
    (replicate size []) (seq 1 (length rls - 1)).

Definition rule_values (infos : gmap bytes mphRuleInfo) (rule : bytes) : list Z :=
  let ruleInfo := default zero_info (infos !! rule) in mFull ruleInfo ++ mDomain ruleInfo.

(** src/common/strmatcher/matchergroup_mph.go:107-111 MphMatcherGroup.Build *)
Definition sorted_buckets (buckets : list (list nat)) : list nat :=
  sort_Slice (fun i j => length (buckets !!! j) <? length (buckets !!! i)) (seq 0 (length buckets)).

(** src/common/strmatcher/matchergroup_mph.go MphMatcherGroup.Build *)
Definition mph_Build (fuel : nat) (g : MphMatcherGroup) : option MphMatcherGroup :=
  infos ← ruleInfos g;
  let ruleCount := Z.of_nat (size infos) in
  let size0 := nextPow2 (ruleCount / 4) in
  let size1 := nextPow2 ruleCount in
  let buckets := fill_buckets infos (rules g) (u32 (size0 - 1)) (Z.to_nat size0) in
  '(l0, t) ← place_buckets (rules g) (u32 (size1 - 1)) fuel buckets (sorted_buckets buckets)
    (replicate (Z.to_nat size0) 0%Z)
    {| occupied := replicate (Z.to_nat size1) false; slots := replicate (Z.to_nat size1) 0 |};
  Some {| rules := rules g;
          values := take 1 (values g) ++ (rule_values infos <$> tail (rules g));
          level0 := l0; level0Mask := u32 (size0 - 1);
          level1 := slots t; level1Mask := u32 (size1 - 1);
          ruleInfos := None |}.

(** ** Lookup and matching *)

(** src/common/strmatcher/matchergroup_mph.go MphMatcherGroup.Lookup *)
Definition Lookup (g : MphMatcherGroup) (hash : Z) (input : bytes) : nat :=
  let i0 := Z.to_nat (Z.land hash (level0Mask g)) in
  let seed := level0 g !!! i0 in
  let i1 := Z.to_nat (Z.land (MemHash seed input) (level1Mask g)) in
  let n := level1 g !!! i1 in
  if decide (rules g !!! n = input) then n else 0.

(** The loop from the last byte to the first: the hash of the suffix and
    the match lists found in it.
    src/common/strmatcher/matchergroup_mph.go:157-164 MphMatcherGroup.Match *)
Fixpoint mph_scan (g : MphMatcherGroup) (input : bytes) : Z * list (list Z) :=
  match input with
  | [] => (0%Z, [])
  | c :: rest =>
      let '(hash, matches) := mph_scan g rest in
      let hash' := roll hash c in
      if decide (c = "."%byte) then
        let mphIdx := Lookup g hash' input in
        (hash', if decide (mphIdx ≠ 0) then matches ++ [values g !!! mphIdx] else matches)
      else (hash', matches)
  end.

(** src/common/strmatcher/matchergroup_mph.go MphMatcherGroup.Match *)
Definition mph_Match (g : MphMatcherGroup) (input : bytes) : list Z :=
  let '(hash, matches) := mph_scan g input in
  let mphIdx := Lookup g hash input in
  CompositeMatchesReverse (if decide (mphIdx ≠ 0) then matches ++ [values g !!! mphIdx] else matches).

(** src/common/strmatcher/matchergroup_mph.go:174-181 MphMatcherGroup.MatchAny *)
Fixpoint mph_any_scan (g : MphMatcherGroup) (input : bytes) : option Z :=
  match input with
  | [] => Some 0%Z
  | c :: rest =>
      hash ← mph_any_scan g rest;
      let hash' := roll hash c in
      if decide (c = "."%byte) then
        if decide (Lookup g hash' input ≠ 0) then None else Some hash'
      else Some hash'
  end.

(** src/common/strmatcher/matchergroup_mph.go MphMatcherGroup.MatchAny *)
Definition mph_MatchAny (g : MphMatcherGroup) (input : bytes) : bool :=
  match mph_any_scan g input with
  | None => true
  | Some hash => bool_decide (Lookup g hash input ≠ 0)
  end.
End Mph.
