(* ===== verification/MphFacts.v ===== *)
(** * Facts about the minimal perfect hash group

    Registration keeps the rule table and the rule map in step; placing a
    bucket keeps the second-level table injective; a built table looks up
    exactly its rules. *)

From S2P Require Import Prelude Matchers Mph.

Abbreviation mph_registration := (bytes * Type_ * Z)%type.

(** ** Registration *)

Lemma RollingHash_app h a b : RollingHash h (a ++ b) = RollingHash (RollingHash h b) a.
Proof. unfold RollingHash. by rewrite rev_app_distr, foldl_app. Qed.

Lemma RollingHash_cons h c a : RollingHash h (c :: a) = roll (RollingHash h a) c.
Proof. apply (RollingHash_app h [c] a). Qed.

Definition mph_type (t : Type_) : Prop := t = Full \/ t = Domain.

(** The values of a rule: Full patterns before Domain patterns. *)
Definition rule_vals (regs : list mph_registration) (w : bytes) : list Z :=
  reg_values regs w Full ++ reg_values regs w Domain.

Record reg_ok (g : MphMatcherGroup) (infos : gmap bytes mphRuleInfo) (regs : list mph_registration) : Prop := {
  ro_infos : ruleInfos g = Some infos;
  ro_rules : exists ks, rules g = [] :: ks /\ NoDup ks /\ (forall k, k ∈ ks <-> is_Some (infos !! k)) /\
    length ks = size infos;
  ro_values : take 1 (values g) = [[]];
  ro_info : forall k info, infos !! k = Some info ->
    rollingHash info = RollingHash 0 k /\ mFull info = reg_values regs k Full /\
    mDomain info = reg_values regs k Domain;
  ro_carry : forall k, is_Some (infos !! k) -> rule_vals regs k ≠ [];
  ro_none : forall k t, infos !! k = None -> reg_values regs k t = [];
}.

Lemma reg_ok_new : reg_ok NewMphMatcherGroup ∅ [].
Proof.
  split; try done.
  - exists []. split; [done|]. split; [constructor|]. split; [|done].
    intros k. rewrite lookup_empty, elem_of_nil. split; [done|]. by intros [].
  - intros k. rewrite lookup_empty. by intros [].
Qed.

Lemma append_value_spec t v info (regs : list mph_registration) k : mph_type t ->
  mFull info = reg_values regs k Full -> mDomain info = reg_values regs k Domain ->
  rollingHash (append_value t v info) = rollingHash info /\
  mFull (append_value t v info) = reg_values (regs ++ [(k, t, v)]) k Full /\
  mDomain (append_value t v info) = reg_values (regs ++ [(k, t, v)]) k Domain.
Proof.
  intros Ht Hf Hd. rewrite !reg_values_snoc, <-Hf, <-Hd.
  destruct Ht as [-> | ->]; simpl; repeat case_decide; simplify_eq; by rewrite ?app_nil_r.
Qed.

Lemma mph_addPattern_ok g infos regs suf p t v :
  reg_ok g infos regs -> mph_type t ->
  exists g' infos', mph_addPattern g (RollingHash 0 suf) suf p t v = Some (g', RollingHash 0 (p ++ suf)) /\
    reg_ok g' infos' (regs ++ [(p ++ suf, t, v)]).
Proof.
  intros [Hi (ks & Hks & Hnd & Hin & Hsz) Hv Hinfo Hcarry Hnone] Ht.
  unfold mph_addPattern. rewrite Hi. cbn [mbind option_bind]. set (k := p ++ suf).
  assert (forall k', k' ≠ k -> forall t', reg_values (regs ++ [(k, t, v)]) k' t' = reg_values regs k' t') as Hne.
  { intros k' Hk' t'. rewrite reg_values_snoc, decide_False; [apply app_nil_r|naive_solver]. }
  assert (forall k', k' = k \/ is_Some (infos !! k') -> rule_vals (regs ++ [(k, t, v)]) k' ≠ []) as Hcarry'.
  { intros k' Hk'. destruct (decide (k' = k)) as [->|Hkk].
    - unfold rule_vals. rewrite !reg_values_snoc. intros [Hn1 Hn2]%app_nil.
      apply app_nil in Hn1 as [_ Hn1], Hn2 as [_ Hn2]. destruct Ht as [-> | ->]; [by rewrite decide_True in Hn1|by rewrite decide_True in Hn2].
    - unfold rule_vals. rewrite !Hne by done. apply Hcarry. naive_solver. }
  destruct (infos !! k) as [info|] eqn:Hk.
  - destruct (Hinfo _ _ Hk) as (Hh & Hf & Hd).
    destruct (append_value_spec t v info regs k Ht Hf Hd) as (Hh' & Hf' & Hd').
    eexists _, _. split; [by rewrite Hh', Hh|]. split; cbn [ruleInfos rules values]; try done.
    + exists ks. split; [done|]. split; [done|]. split.
      * intros k'. rewrite Hin, lookup_insert_is_Some. destruct (decide (k = k')); naive_solver.
      * rewrite map_size_insert_Some by eauto. done.
    + intros k' info' [[<- <-]|[Hkk Hl]]%lookup_insert_Some; [by rewrite Hh', Hh|].
      rewrite !Hne by done. by apply Hinfo.
    + intros k' Hk'. apply Hcarry'. rewrite lookup_insert_is_Some in Hk'. naive_solver.
    + intros k' t' [Hl Hkk]%lookup_insert_None. rewrite Hne by done. by apply Hnone.
  - set (info0 := Build_mphRuleInfo _ _ _).
    destruct (append_value_spec t v info0 regs k Ht) as (Hh' & Hf' & Hd'); [symmetry; by apply Hnone..|].
    eexists _, _. split; [by rewrite Hh'; unfold k; rewrite RollingHash_app|]. split; cbn [ruleInfos rules values]; try done.
    + exists (ks ++ [k]). rewrite Hks. split; [done|].
      assert (k ∉ ks) as Hkks by (rewrite Hin, Hk; by intros []).
      split; [|split].
      * apply NoDup_app. split; [done|]. split; [by intros x Hx ->%list_elem_of_singleton|apply NoDup_singleton].
      * intros k'. rewrite elem_of_app, list_elem_of_singleton, Hin, lookup_insert_is_Some.
        destruct (decide (k = k')); naive_solver.
      * rewrite length_snoc, map_size_insert_None by done. lia.
    + destruct (values g); [done|]. simpl in *. by rewrite take_0 in *.
    + intros k' info' [[<- <-]|[Hkk Hl]]%lookup_insert_Some.
      * rewrite Hh'. unfold k, info0. simpl. by rewrite RollingHash_app.
      * rewrite !Hne by done. by apply Hinfo.
    + intros k' Hk'. apply Hcarry'. rewrite lookup_insert_is_Some in Hk'. naive_solver.
    + intros k' t' [Hl Hkk]%lookup_insert_None. rewrite Hne by done. by apply Hnone.
Qed.

Section Entries.
Context `{StringLibs}.

Definition mph_add_entry (g : MphMatcherGroup) (e : bytes * Type_ * Z) : option MphMatcherGroup :=
  let '(p, t, v) := e in
  match t with
  | Full => mph_AddFullMatcher g p v
  | Domain => mph_AddDomainMatcher g p v
  | _ => Some g
  end.

Fixpoint mph_add_entries (g : MphMatcherGroup) (es : list (bytes * Type_ * Z)) : option MphMatcherGroup :=
  match es with
  | [] => Some g
  | e :: es' => g' ← mph_add_entry g e; mph_add_entries g' es'
  end.

Definition mph_registrations (e : bytes * Type_ * Z) : list mph_registration :=
  let '(p, t, v) := e in
  match t with
  | Full => [(ToLower p, Full, v)]
  | Domain => [(ToLower p, Domain, v); ("."%byte :: ToLower p, Domain, v)]
  | _ => []
  end.

Lemma mph_add_entry_ok g infos regs e : reg_ok g infos regs ->
  exists g' infos', mph_add_entry g e = Some g' /\ reg_ok g' infos' (regs ++ mph_registrations e).
Proof.
  intros Hok. destruct e as [[p t] v].
  assert (forall t', mph_type t' -> exists g' infos',
    mph_addPattern g 0 [] (ToLower p) t' v = Some (g', RollingHash 0 (ToLower p)) /\
    reg_ok g' infos' (regs ++ [(ToLower p, t', v)])) as Hadd.
  { intros t' Ht. destruct (mph_addPattern_ok g infos regs [] (ToLower p) t' v Hok Ht) as (g' & i' & Hg & Hr).
    rewrite app_nil_r in *. eauto. }
  unfold mph_type in Hadd. destruct t; simpl; rewrite ?app_nil_r; try by eauto.
  - destruct (Hadd Full) as (g' & i' & Hg & Hr); [by left|]. unfold mph_AddFullMatcher. rewrite Hg. simpl. eauto.
  - destruct (Hadd Domain) as (g' & i' & Hg & Hr); [by right|]. unfold mph_AddDomainMatcher. rewrite Hg. simpl.
    destruct (mph_addPattern_ok g' i' _ (ToLower p) ["."%byte] Domain v Hr) as (g2 & i2 & Hg2 & Hr2); [by right|].
    rewrite Hg2. simpl. rewrite <-(assoc_L (++)) in Hr2. eauto.
Qed.

Lemma mph_add_entries_ok g infos regs es : reg_ok g infos regs ->
  exists g' infos', mph_add_entries g es = Some g' /\ reg_ok g' infos' (regs ++ (es ≫= mph_registrations)).
Proof.
  revert g infos regs. induction es as [|e es IH]; intros g infos regs Hok; simpl.
  { rewrite app_nil_r. eauto. }
  destruct (mph_add_entry_ok _ _ _ e Hok) as (g' & i' & -> & Hr). simpl.
  destruct (IH _ _ _ Hr) as (g2 & i2 & ? & Hr2). rewrite <-(assoc_L (++)) in Hr2. eauto.
Qed.
End Entries.

(** ** The second-level table *)

(** The tables hold exactly the placed (slot, rule) pairs. *)
Record tables_ok (n : nat) (placed : list (nat * nat)) (t : tables) : Prop := {
  ta_len : length (occupied t) = n /\ length (slots t) = n;
  ta_nodup : NoDup placed.*1;
  ta_lt : forall i, i ∈ placed.*1 -> i < n;
  ta_occ : forall i, i < n -> occupied t !! i = Some (bool_decide (i ∈ placed.*1));
  ta_slot : forall i r, (i, r) ∈ placed -> slots t !! i = Some r;
  ta_free : forall i, i < n -> i ∉ placed.*1 -> slots t !! i = Some 0;
}.

#[export] Instance tables_ok_proper n : Proper ((≡ₚ) ==> (=) ==> iff) (tables_ok n).
Proof.
  assert (forall p q t, p ≡ₚ q -> tables_ok n p t -> tables_ok n q t) as Himp.
  { intros p q t Hpq [Hl Hnd Hlt Ho Hs Hf].
    assert (p.*1 ≡ₚ q.*1) as Hpq1 by (by apply fmap_Permutation).
    split; [done|by rewrite <-Hpq1|..].
    - intros i. rewrite <-Hpq1. apply Hlt.
    - intros i Hi. rewrite Ho by done. f_equal. apply bool_decide_ext. by rewrite Hpq1.
    - intros i r. rewrite <-Hpq. apply Hs.
    - intros i. rewrite <-Hpq1. apply Hf. }
  intros p q Hpq t ? <-. split; apply Himp; [done|by symmetry].
Qed.

Definition take_slot (i r : nat) (t : tables) : tables :=
  {| occupied := <[i := true]> (occupied t); slots := <[i := r]> (slots t) |}.
Definition free_slot (i : nat) (t : tables) : tables :=
  {| occupied := <[i := false]> (occupied t); slots := <[i := 0]> (slots t) |}.

Lemma tables_take n placed t i r : tables_ok n placed t -> i < n -> i ∉ placed.*1 ->
  tables_ok n ((i, r) :: placed) (take_slot i r t).
Proof.
  intros [[Hl1 Hl2] Hnd Hlt Ho Hs Hf] Hi Hin. split; simpl.
  - by rewrite !length_insert.
  - by constructor.
  - intros j [->|?]%elem_of_cons; auto.
  - intros j Hj. destruct (decide (i = j)) as [->|Hne].
    + rewrite list_lookup_insert_eq by lia. f_equal. symmetry. apply bool_decide_true. by left.
    + rewrite list_lookup_insert_ne, Ho by done. f_equal. apply bool_decide_ext.
      rewrite elem_of_cons. naive_solver.
  - intros j r' [[= -> ->]|Hj]%elem_of_cons; [apply list_lookup_insert_eq; lia|].
    rewrite list_lookup_insert_ne; [by apply Hs|]. intros ->. apply Hin.
    apply list_elem_of_fmap. by exists (j, r').
  - intros j Hj Hjn. rewrite elem_of_cons in Hjn. rewrite list_lookup_insert_ne by naive_solver.
    apply Hf; naive_solver.
Qed.

Lemma tables_free n placed t i r : tables_ok n ((i, r) :: placed) t -> tables_ok n placed (free_slot i t).
Proof.
  intros [[Hl1 Hl2] Hnd Hlt Ho Hs Hf]. simpl in *. apply NoDup_cons in Hnd as [Hin Hnd].
  split; simpl; try done.
  - by rewrite !length_insert.
  - intros j Hj. apply Hlt. by right.
  - intros j Hj. destruct (decide (i = j)) as [->|Hne].
    + rewrite list_lookup_insert_eq by lia. f_equal. symmetry. by apply bool_decide_false.
    + rewrite list_lookup_insert_ne, Ho by done. f_equal. apply bool_decide_ext.
      rewrite elem_of_cons. naive_solver.
  - intros j r' Hj. rewrite list_lookup_insert_ne; [apply Hs; by right|]. intros ->. apply Hin.
    apply list_elem_of_fmap. by exists (j, r').
  - intros j Hj Hjn. destruct (decide (i = j)) as [->|Hne]; [apply list_lookup_insert_eq; lia|].
    rewrite list_lookup_insert_ne by done. apply Hf; [done|]. rewrite elem_of_cons. naive_solver.
Qed.

Lemma tables_revert n placed ext t :
  tables_ok n (ext ++ placed) t -> tables_ok n placed (revert t ext.*1).
Proof.
  revert t. induction ext as [|[i r] ext IH]; intros t Ht; [done|].
  cbn [fmap list_fmap fst]. unfold revert. simpl. apply IH. by eapply tables_free.
Qed.

Lemma tables_start n : tables_ok n [] {| occupied := replicate n false; slots := replicate n 0 |}.
Proof.
  split; simpl; [by rewrite !length_replicate|constructor|by intros ? ?%not_elem_of_nil|..].
  - intros i Hi. rewrite lookup_replicate_2 by done. done.
  - by intros i r ?%not_elem_of_nil.
  - intros i Hi _. by rewrite lookup_replicate_2.
Qed.

(** ** Placing the buckets *)

Section Placing.
Context `{StringLibs, MphRuntime, SortSlice}.
Context (rls : list bytes) (mask : Z) (n : nat).
Context (Hslot : forall seed r, slot_of rls mask seed r < n).

Abbreviation slot := (slot_of rls mask).

Definition placing (seed : Z) (bucket : list nat) : list (nat * nat) :=
  (fun r => (slot seed r, r)) <$> bucket.

(** A seed places a bucket when it sends its rules to distinct free slots. *)
Definition good_seed (placed : list (nat * nat)) (bucket : list nat) (seed : Z) : Prop :=
  NoDup ((placing seed bucket).*1 ++ placed.*1).

Lemma snoc_middle_perm {A} (a ext p : list A) x : a ++ (ext ++ [x]) ++ p ≡ₚ (x :: a) ++ ext ++ p.
Proof. rewrite <-(assoc_L (++) ext). simpl. by rewrite <-!Permutation_middle. Qed.

Lemma try_bucket_ok bucket seed placed ext t seed' t' hashed' :
  tables_ok n (ext ++ placed) t ->
  try_bucket rls mask bucket seed t ext.*1 = (seed', t', hashed') ->
  NoDup ((placing seed bucket).*1 ++ (ext ++ placed).*1) /\ seed' = seed /\
    hashed' = ext.*1 ++ (placing seed bucket).*1 /\ tables_ok n (placing seed bucket ++ ext ++ placed) t'
  \/ ~ NoDup ((placing seed bucket).*1 ++ (ext ++ placed).*1) /\ seed' = u32 (seed + 1) /\ hashed' = [] /\ tables_ok n placed t'.
Proof.
  revert ext t. induction bucket as [|r bucket IH]; intros ext t Ht; cbn [try_bucket].
  { intros [= <- <- <-]. left. simpl. rewrite app_nil_r. split; [apply (ta_nodup _ _ _ Ht)|done]. }
  pose proof (ta_occ _ _ _ Ht _ (Hslot seed r)) as Hocc. rewrite (list_lookup_total_correct _ _ _ Hocc).
  case_bool_decide as Hin.
  - intros [= <- <- <-]. right. split; [|split; [done|split; [done|by eapply tables_revert]]].
    simpl. intros [Hn _]%NoDup_cons. apply Hn. rewrite elem_of_app. by right.
  - intros Htry. destruct (IH (ext ++ [(slot seed r, r)]) (take_slot (slot seed r) r t)) as [(Hnd & ? & ? & Ht')|(Hnd & ? & ? & Ht')].
    + assert ((ext ++ [(slot seed r, r)]) ++ placed ≡ₚ (slot seed r, r) :: ext ++ placed) as ->
        by (apply (snoc_middle_perm [])).
      by apply tables_take.
    + rewrite fmap_app. exact Htry.
    + left. assert (placing seed bucket ++ (ext ++ [(slot seed r, r)]) ++ placed ≡ₚ
        placing seed (r :: bucket) ++ ext ++ placed) as Hp by apply snoc_middle_perm.
      split; [rewrite <-fmap_app, Hp, fmap_app in Hnd; done|]. split; [done|]. split.
      * subst. rewrite fmap_app, <-(assoc_L (++)). done.
      * by rewrite <-Hp.
    + right. assert (placing seed bucket ++ (ext ++ [(slot seed r, r)]) ++ placed ≡ₚ
        placing seed (r :: bucket) ++ ext ++ placed) as Hp by apply snoc_middle_perm.
      split; [|done]. by rewrite <-fmap_app, Hp, fmap_app in Hnd.
Qed.

Lemma length_placing seed bucket : length (placing seed bucket) = length bucket.
Proof. unfold placing. by rewrite length_fmap. Qed.

(** The loop returns the tables extended with the bucket... *)
Lemma seed_loop_ok fuel bucket seed placed t seed' t' :
  tables_ok n placed t ->
  seed_loop rls mask fuel bucket seed t [] = Some (seed', t') ->
  good_seed placed bucket seed' /\ tables_ok n (placing seed' bucket ++ placed) t'.
Proof.
  revert seed t. induction fuel as [|fuel IH]; intros seed t Ht; cbn [seed_loop].
  - case_decide as Hl; [|done]. intros [= <- <-]. destruct bucket; [|done]. split; [apply (ta_nodup _ _ _ Ht)|done].
  - case_decide as Hl.
    { intros [= <- <-]. destruct bucket; [|done]. split; [apply (ta_nodup _ _ _ Ht)|done]. }
    destruct (try_bucket _ _ bucket seed t []) as [[s1 t1] h1] eqn:Htry.
    apply (try_bucket_ok bucket seed placed []) in Htry as [(Hnd & -> & -> & Ht1)|(_ & -> & -> & Ht1)]; [| |done].
    + destruct fuel; cbn [seed_loop]; rewrite decide_True by (simpl; by rewrite length_fmap, length_placing);
        by intros [= <- <-].
    + by apply IH.
Qed.

(** ... and returns when some seed within reach of the fuel places it. *)
Lemma seed_loop_total fuel bucket seed placed t s :
  tables_ok n placed t -> (0 <= seed <= s)%Z -> (s < 2 ^ 32)%Z -> (s - seed < Z.of_nat fuel)%Z ->
  good_seed placed bucket s -> is_Some (seed_loop rls mask fuel bucket seed t []).
Proof.
  revert seed t. induction fuel as [|fuel IH]; intros seed t Ht Hs Hw Hf Hg; [lia|]. cbn [seed_loop].
  case_decide as Hl; [by eauto|].
  destruct (try_bucket _ _ bucket seed t []) as [[s1 t1] h1] eqn:Htry.
  apply (try_bucket_ok bucket seed placed []) in Htry as [(Hnd & -> & -> & Ht1)|(Hbad & -> & -> & Ht1)]; [| |done].
  - destruct fuel; cbn [seed_loop]; rewrite decide_True by (simpl; by rewrite length_fmap, length_placing); eauto.
  - destruct (decide (s = seed)) as [->|]; [done|].
    rewrite u32_small by lia. apply IH; [done|lia..|done].
Qed.

(** Every bucket of [idxs] has been placed with the seed stored for it. *)
Definition placed_with (buckets : list (list nat)) (l0 : list Z) (t : tables) (b : nat) : Prop :=
  forall r, r ∈ buckets !!! b -> slots t !! slot (l0 !!! b) r = Some r.

Lemma place_buckets_ok fuel buckets idxs done_ l0 t placed l0' t' :
  tables_ok n placed t -> NoDup (idxs ++ done_) -> (forall b, b ∈ idxs -> b < length l0) ->
  (forall b r, b ∈ done_ -> r ∈ buckets !!! b -> (slot (l0 !!! b) r, r) ∈ placed) ->
  place_buckets rls mask fuel buckets idxs l0 t = Some (l0', t') ->
  exists placed', tables_ok n (placed' ++ placed) t' /\
    placed'.*2 ≡ₚ idxs ≫= (fun b => buckets !!! b) /\
    (forall b r, b ∈ idxs ++ done_ -> r ∈ buckets !!! b -> (slot (l0' !!! b) r, r) ∈ placed' ++ placed).
Proof.
  revert done_ l0 t placed. induction idxs as [|b idxs IH]; intros done_ l0 t placed Ht Hnd Hlt Hdone; cbn [place_buckets].
  { intros [= <- <-]. exists []. done. }
  destruct (seed_loop _ _ _ _ _ _ _) as [[s t1]|] eqn:Hs; simpl; [|done]. intros Hp.
  apply (seed_loop_ok _ _ _ placed) in Hs as [_ Ht1]; [|done].
  simpl in Hnd. apply NoDup_cons in Hnd as [Hb Hnd]. rewrite elem_of_app in Hb.
  edestruct (IH (b :: done_)) as (placed' & Ht' & Hperm & Hall); [exact Ht1| | | |exact Hp|].
  - rewrite <-Permutation_middle. constructor; [|done]. by rewrite elem_of_app.
  - intros b' Hb'. rewrite length_insert. apply Hlt. by right.
  - intros b' r [->|Hb']%elem_of_cons Hr; rewrite elem_of_app.
    + rewrite list_lookup_total_insert_eq by (apply Hlt; by left). left.
      apply list_elem_of_fmap. by exists r.
    + rewrite list_lookup_total_insert_ne by (by intros ->; destruct Hb; right). right. by apply Hdone.
  - exists (placed' ++ placing s (buckets !!! b)). rewrite <-(assoc_L (++)). split; [done|]. split.
    + rewrite fmap_app, Hperm. unfold placing. rewrite <-list_fmap_compose.
      rewrite list_fmap_id. simpl. by rewrite (comm (++)).
    + intros b' r Hb'. apply Hall. rewrite <-Permutation_middle. exact Hb'.
Qed.

(** *** Termination *)

(** The hash family reaches every placement of every bucket before the
    fuel, or the 32-bit seed, runs out. *)
Definition realises (fuel : nat) : Prop :=
  forall bucket targets, NoDup bucket -> (forall r, r ∈ bucket -> 1 <= r < length rls) ->
    NoDup targets -> length targets = length bucket -> (forall i, i ∈ targets -> i < n) ->
    exists s, (0 <= s < Z.of_nat fuel)%Z /\ (s < 2 ^ 32)%Z /\ slot s <$> bucket = targets.

Lemma place_buckets_total fuel buckets idxs l0 t placed :
  realises fuel -> tables_ok n placed t ->
  (forall b, b ∈ idxs -> NoDup (buckets !!! b) /\ (forall r, r ∈ buckets !!! b -> 1 <= r < length rls)) ->
  length placed + length (idxs ≫= (fun b => buckets !!! b)) <= n ->
  is_Some (place_buckets rls mask fuel buckets idxs l0 t).
Proof.
  intros Hre. revert l0 t placed. induction idxs as [|b idxs IH]; intros l0 t placed Ht Hb Hl; cbn [place_buckets]; [by eauto|].
  rewrite bind_cons, length_app in Hl. destruct (Hb b) as [Hnd Hr]; [by left|].
  set (free := filter (fun i => i ∉ placed.*1) (seq 0 n)).
  assert (NoDup (take (length (buckets !!! b)) free)) as Hndf.
  { eapply (sublist_NoDup _ free); [apply NoDup_filter, NoDup_seq|apply sublist_take]. }
  assert (forall i, i ∈ take (length (buckets !!! b)) free -> i ∉ placed.*1 /\ i ∈ seq 0 n) as Hin.
  { intros i Hi. apply (list_elem_of_filter (fun i => i ∉ placed.*1)).
    eapply elem_of_sublist; [exact Hi|apply sublist_take]. }
  assert (length (buckets !!! b) <= length free) as Hfree.
  { assert (seq 0 n ⊆+ free ++ placed.*1) as Hsub%submseteq_length.
    { apply NoDup_submseteq; [apply NoDup_seq|]. intros i Hi. rewrite elem_of_app. unfold free.
      rewrite list_elem_of_filter. destruct (decide (i ∈ placed.*1)); auto. }
    rewrite length_app, length_fmap, length_seq in Hsub. lia. }
  destruct (Hre (buckets !!! b) (take (length (buckets !!! b)) free)) as (s & Hs & Hw & Hsl).
  - done.
  - done.
  - done.
  - rewrite length_take. lia.
  - intros i Hi. destruct (Hin _ Hi) as [_ Hi'%elem_of_seq]. lia.
  - assert (good_seed placed (buckets !!! b) s) as Hg.
    { unfold good_seed, placing. rewrite <-list_fmap_compose. change (fst ∘ (fun r => (slot s r, r))) with (slot s).
      rewrite Hsl. apply NoDup_app. split; [done|].
      split; [|apply (ta_nodup _ _ _ Ht)]. intros i Hi. by destruct (Hin _ Hi). }
    destruct (seed_loop_total fuel (buckets !!! b) 0 placed t s Ht) as [[s' t'] Hsome]; [lia|lia|lia|done|].
    rewrite Hsome. simpl. apply (seed_loop_ok _ _ _ placed) in Hsome as [_ Ht']; [|done].
    eapply IH; [exact Ht'| |rewrite length_app, length_placing; lia]. intros b' Hb'. apply Hb. by right.
Qed.
End Placing.

(** ** The built table *)

Lemma land_mask a m : (0 <= m -> 0 <= Z.land a m <= m)%Z.
Proof.
  intros Hm. split; [apply Z.land_nonneg; lia|].
  rewrite <-(Z.sub_0_r (Z.land a m)), <-(Z.sub_diag m).
  enough (Z.land a m + Z.ldiff m a = m)%Z as Heq.
  { assert (0 <= Z.ldiff m a)%Z by (apply Z.ldiff_nonneg; lia). lia. }
  pose proof (Z.add_lor_land (Z.land a m) (Z.ldiff m a)) as Hsum.
  assert (Z.lor (Z.land a m) (Z.ldiff m a) = m /\ Z.land (Z.land a m) (Z.ldiff m a) = 0)%Z as [? ?]; [|lia].
  split; apply Z.bits_inj'; intros k _; rewrite ?Z.lor_spec, ?Z.land_spec, ?Z.ldiff_spec, ?Z.land_spec, ?Z.bits_0;
    by destruct (Z.testbit a k), (Z.testbit m k).
Qed.

Lemma mask_index a size : (0 < size)%Z -> Z.to_nat (Z.land a (u32 (size - 1))) < Z.to_nat size.
Proof.
  intros Hs. pose proof (u32_range (size - 1)) as Hr.
  pose proof (land_mask a (u32 (size - 1)) (proj1 Hr)).
  assert (u32 (size - 1) <= size - 1)%Z by (apply Z.mod_le; lia). lia.
Qed.

Lemma nextPow2_spec v : (v < 2 ^ 63)%Z -> (0 < nextPow2 v)%Z /\ (v <= nextPow2 v)%Z.
Proof.
  intros Hv. unfold nextPow2, LeadingZeros. destruct (Z.leb_spec v 1); [lia|].
  assert (0 <= Z.log2 v < 63)%Z as Hl by (split; [apply Z.log2_nonneg|apply Z.log2_lt_pow2; lia]).
  rewrite Z.shiftr_div_pow2 by lia. pose proof (Z.log2_spec v ltac:(lia)) as [_ Hup].
  assert (2 ^ 64 = 2 ^ (64 - (Z.log2 v + 1)) * 2 ^ Z.succ (Z.log2 v))%Z as Hp
    by (rewrite <-Z.pow_add_r by lia; f_equal; lia).
  set (d := (2 ^ (64 - (Z.log2 v + 1)))%Z) in *. set (p := (2 ^ Z.succ (Z.log2 v))%Z) in *.
  assert (0 < d)%Z by (apply Z.pow_pos_nonneg; lia).
  assert ((2 ^ 64 - 1) / d = p - 1)%Z as ->; [|lia].
  symmetry. apply (Z.div_unique _ _ _ (d - 1)); nia.
Qed.

Definition bucket_of (infos : gmap bytes mphRuleInfo) (rls : list bytes) (mask : Z) (r : nat) : nat :=
  Z.to_nat (Z.land (rollingHash (default zero_info (infos !! (rls !!! r)))) mask).

Lemma fill_buckets_ok infos rls mask size :
  (forall r, bucket_of infos rls mask r < size) ->
  length (fill_buckets infos rls mask size) = size /\
  forall b, b < size -> fill_buckets infos rls mask size !!! b =
    filter (fun r => bucket_of infos rls mask r = b) (seq 1 (length rls - 1)).
Proof.
  intros Hb. unfold fill_buckets. generalize (seq 1 (length rls - 1)). intros rs.
  induction rs as [|r rs IH] using rev_ind.
  { simpl. rewrite length_replicate. split; [done|]. intros b ?. by rewrite lookup_total_replicate_2. }
  destruct IH as [IHl IHb]. rewrite foldl_snoc. fold (bucket_of infos rls mask r).
  split; [by rewrite length_alter|]. intros b Hbl. rewrite filter_app, filter_cons, filter_nil.
  destruct (decide (bucket_of infos rls mask r = b)) as [<-|Hne].
  - rewrite list_lookup_total_alter_eq by (by rewrite IHl). by rewrite IHb.
  - rewrite list_lookup_total_alter_ne by done. by rewrite IHb, app_nil_r.
Qed.

(** A partition by an index function, read back block by block. *)
Lemma partition_perm (f : nat -> nat) (rs idxs : list nat) :
  NoDup idxs -> (forall r, r ∈ rs -> f r ∈ idxs) ->
  idxs ≫= (fun b => filter (fun r => f r = b) rs) ≡ₚ rs.
Proof.
  intros Hnd. revert rs. induction Hnd as [|b idxs Hb _ IH]; intros rs Hrs.
  - destruct rs as [|r rs]; [done|]. destruct (not_elem_of_nil (f r)). apply Hrs. by left.
  - rewrite bind_cons. rewrite (bind_ext_in _ (fun b' => filter (fun r => f r = b') (filter (fun r => ~ f r = b) rs))).
    + rewrite IH.
      * clear. induction rs as [|r rs IH]; [done|]. rewrite !filter_cons.
        destruct (decide (f r = b)) as [He|He].
        -- rewrite decide_False by tauto. simpl. by rewrite IH.
        -- rewrite decide_True by done. by rewrite <-Permutation_middle, IH.
      * intros r [Hne Hr]%list_elem_of_filter. apply Hrs in Hr as [?|?]%elem_of_cons; done.
    + intros b' Hb'. rewrite list_filter_filter. apply list_filter_iff. intros r.
      split; [|tauto]. intros <-. split; [done|]. intros Heq. by rewrite Heq in Hb'.
Qed.

Section Built.
Context `{StringLibs, MphRuntime, SortSlice}.

Record mph_built (g : MphMatcherGroup) (regs : list mph_registration) : Prop := {
  mb_rules : exists ks, rules g = [] :: ks /\ NoDup ks /\ length (values g) = S (length ks) /\
    (forall w t v, (w, t, v) ∈ regs -> mph_type t -> w ∈ ks);
  mb_carry : forall ks w, rules g = [] :: ks -> w ∈ ks -> rule_vals regs w ≠ [];
  mb_values : forall r w, r ≠ 0 -> rules g !! r = Some w -> values g !!! r = rule_vals regs w;
  mb_found : forall r w, r ≠ 0 -> rules g !! r = Some w ->
    level1 g !!! Z.to_nat (Z.land (MemHash (level0 g !!! Z.to_nat (Z.land (RollingHash 0 w) (level0Mask g))) w) (level1Mask g)) = r;
  mb_range : forall w s, level1 g !!! Z.to_nat (Z.land (MemHash s w) (level1Mask g)) < length (rules g);
}.

Section Build.
Context (g0 : MphMatcherGroup) (infos : gmap bytes mphRuleInfo) (regs : list mph_registration).
Context (Hok : reg_ok g0 infos regs) (Hsize : (Z.of_nat (size infos) < 2 ^ 63)%Z).

Abbreviation size0 := (nextPow2 (Z.of_nat (size infos) / 4)).
Abbreviation size1 := (nextPow2 (Z.of_nat (size infos))).
Abbreviation mask0 := (u32 (size0 - 1)).
Abbreviation mask1 := (u32 (size1 - 1)).
Abbreviation buckets := (fill_buckets infos (rules g0) mask0 (Z.to_nat size0)).

Lemma size0_pos : (0 < size0)%Z.
Proof. apply nextPow2_spec. apply Z.div_lt_upper_bound; lia. Qed.

Lemma size1_pos : (0 < size1)%Z /\ (Z.of_nat (size infos) <= size1)%Z.
Proof. by apply nextPow2_spec. Qed.

Lemma slot_lt seed r : slot_of (rules g0) mask1 seed r < Z.to_nat size1.
Proof. apply mask_index, size1_pos. Qed.

Lemma bucket_lt r : bucket_of infos (rules g0) mask0 r < Z.to_nat size0.
Proof. apply mask_index, size0_pos. Qed.

Lemma buckets_spec : length buckets = Z.to_nat size0 /\ forall b, b < Z.to_nat size0 ->
  buckets !!! b = filter (fun r => bucket_of infos (rules g0) mask0 r = b) (seq 1 (size infos)).
Proof.
  destruct (fill_buckets_ok infos (rules g0) mask0 (Z.to_nat size0) bucket_lt) as [Hl Hb].
  destruct (ro_rules _ _ _ Hok) as (ks & Hr & _ & _ & Hks). split; [done|].
  intros b Hbl. rewrite (Hb b Hbl), Hr. simpl. by rewrite Nat.sub_0_r, Hks.
Qed.

Lemma sorted_buckets_perm : sorted_buckets buckets ≡ₚ seq 0 (Z.to_nat size0).
Proof.
  unfold sorted_buckets. rewrite (proj1 buckets_spec). apply (sort_Slice_perm (A:=nat)).
Qed.

Lemma buckets_perm : sorted_buckets buckets ≫= (fun b => buckets !!! b) ≡ₚ seq 1 (size infos).
Proof.
  rewrite (bind_ext_in _ (fun b => filter (fun r => bucket_of infos (rules g0) mask0 r = b) (seq 1 (size infos)))).
  - apply partition_perm; [rewrite sorted_buckets_perm; apply NoDup_seq|].
    intros r _. rewrite sorted_buckets_perm. apply elem_of_seq. pose proof (bucket_lt r). lia.
  - intros b Hb. apply buckets_spec. rewrite sorted_buckets_perm in Hb. apply elem_of_seq in Hb. lia.
Qed.

Lemma rule_lookup r w : r ≠ 0 -> rules g0 !! r = Some w ->
  r ∈ seq 1 (size infos) /\ is_Some (infos !! w).
Proof.
  destruct (ro_rules _ _ _ Hok) as (ks & -> & _ & Hin & Hl). destruct r as [|r]; [done|].
  simpl. intros _ Hr. split.
  - apply elem_of_seq. apply lookup_lt_Some in Hr. lia.
  - apply Hin. by eapply list_elem_of_lookup_2.
Qed.

Lemma mph_Build_built fuel g : mph_Build fuel g0 = Some g -> mph_built g regs.
Proof.
  unfold mph_Build. rewrite (ro_infos _ _ _ Hok). cbn [mbind option_bind].
  destruct (place_buckets _ _ _ _ _ _ _) as [[l0 t]|] eqn:Hp; [|done].
  intros [= <-]. destruct (ro_rules _ _ _ Hok) as (ks & Hr & Hnd & Hin & Hl).
  apply (place_buckets_ok _ _ (Z.to_nat size1) slot_lt _ _ _ [] _ _ []) in Hp as (placed & Ht & Hperm & Hall).
  2: apply tables_start.
  2: rewrite app_nil_r, sorted_buckets_perm; apply NoDup_seq.
  2: { intros b Hb. rewrite sorted_buckets_perm in Hb. rewrite length_replicate. apply elem_of_seq in Hb. lia. }
  2: by intros b r ?%not_elem_of_nil.
  rewrite app_nil_r in Ht. setoid_rewrite app_nil_r in Hall.
  assert (forall r w, r ≠ 0 -> rules g0 !! r = Some w -> is_Some (infos !! w) /\
    slots t !!! Z.to_nat (Z.land (MemHash (l0 !!! Z.to_nat (Z.land (RollingHash 0 w) mask0)) w) mask1) = r) as Hfound.
  { intros r w Hr0 Hrw. destruct (rule_lookup r w Hr0 Hrw) as [Hrs [info Hinfo]]. split; [by eexists|].
    apply list_lookup_total_correct.
    destruct (ro_info _ _ _ Hok _ _ Hinfo) as (Hh & _).
    assert (bucket_of infos (rules g0) mask0 r = Z.to_nat (Z.land (RollingHash 0 w) mask0)) as Hbk.
    { unfold bucket_of. by rewrite (list_lookup_total_correct _ _ _ Hrw), Hinfo, <-Hh. }
    rewrite <-Hbk. pose proof (ta_slot _ _ _ Ht (slot_of (rules g0) mask1 (l0 !!! bucket_of infos (rules g0) mask0 r) r) r) as Hs.
    unfold slot_of in Hs at 2. rewrite (list_lookup_total_correct _ _ _ Hrw) in Hs. apply Hs.
    pose proof (bucket_lt r) as Hlt. apply Hall.
    - rewrite sorted_buckets_perm. apply elem_of_seq. lia.
    - rewrite (proj2 buckets_spec _ Hlt). by apply list_elem_of_filter. }
  split; cbn [rules values level0 level0Mask level1 level1Mask].
  - exists ks. split; [done|]. split; [done|]. split.
    + rewrite (ro_values _ _ _ Hok), Hr. simpl. by rewrite length_fmap.
    + intros w ty v Hreg Hty. apply Hin. destruct (infos !! w) eqn:Hw; [by eexists|].
      apply (ro_none _ _ _ Hok) with (t := ty) in Hw. apply reg_values_in in Hreg. rewrite Hw in Hreg.
      by apply not_elem_of_nil in Hreg.
  - intros ks' w Hks' Hw. rewrite Hr in Hks'. injection Hks' as <-. by apply (ro_carry _ _ _ Hok), Hin.
  - intros r w Hr0 Hrw. destruct (Hfound r w Hr0 Hrw) as [[info Hinfo] _].
    destruct (ro_info _ _ _ Hok _ _ Hinfo) as (_ & Hf & Hd).
    rewrite (ro_values _ _ _ Hok). destruct r as [|r]; [done|]. rewrite Hr in Hrw |- *. simpl in *.
    apply list_lookup_total_correct. rewrite list_lookup_fmap, Hrw. simpl. unfold rule_values, rule_vals.
    by rewrite Hinfo, <-Hf, <-Hd.
  - intros r w Hr0 Hrw. by apply Hfound.
  - intros w s. set (i := Z.to_nat _).
    assert (i < Z.to_nat size1) as Hi by apply mask_index, size1_pos.
    destruct (decide (i ∈ placed.*1)) as [Hip|Hip].
    + apply list_elem_of_fmap in Hip as ([i' r] & Heq & Hip). simpl in Heq. subst i'.
      rewrite (list_lookup_total_correct _ _ _ (ta_slot _ _ _ Ht _ _ Hip)).
      assert (r ∈ placed.*2) as Hr2 by (apply list_elem_of_fmap; by exists (i, r)).
      rewrite Hperm, buckets_perm in Hr2. apply elem_of_seq in Hr2. rewrite Hr. simpl. lia.
    + rewrite (list_lookup_total_correct _ _ _ (ta_free _ _ _ Ht _ Hi Hip)), Hr. simpl. lia.
Qed.

Lemma mph_Build_returns fuel :
  realises (rules g0) mask1 (Z.to_nat size1) fuel -> is_Some (mph_Build fuel g0).
Proof.
  intros Hre. unfold mph_Build. rewrite (ro_infos _ _ _ Hok). cbn [mbind option_bind].
  edestruct (place_buckets_total _ _ (Z.to_nat size1) slot_lt fuel buckets (sorted_buckets buckets)) as [[l0 t] Hp].
  - done.
  - apply tables_start.
  - intros b Hb. rewrite sorted_buckets_perm in Hb. apply elem_of_seq in Hb.
    rewrite (proj2 buckets_spec) by lia. split; [apply NoDup_filter, NoDup_seq|].
    destruct (ro_rules _ _ _ Hok) as (ks & -> & _ & _ & Hl). simpl.
    intros r [_ Hr%elem_of_seq]%list_elem_of_filter. lia.
  - rewrite buckets_perm, length_seq. simpl. pose proof size1_pos. lia.
  - rewrite Hp. by eexists.
Qed.
End Build.

(** ** Lookup and matching of a built table *)

Section Matching.
Context (g : MphMatcherGroup) (regs : list mph_registration) (Hb : mph_built g regs).
Context (Hregs : forall w t v, (w, t, v) ∈ regs -> mph_type t).

Lemma Lookup_ok w :
  (Lookup g (RollingHash 0 w) w ≠ 0 /\ values g !!! Lookup g (RollingHash 0 w) w = rule_vals regs w) \/
  (Lookup g (RollingHash 0 w) w = 0 /\ rule_vals regs w = []).
Proof.
  destruct (mb_rules _ _ Hb) as (ks & Hr & Hnd & Hlv & Hks). unfold Lookup.
  destruct (decide (w ∈ ks)) as [[j Hj]%list_elem_of_lookup|Hout].
  - assert (rules g !! S j = Some w) as Hrw by (by rewrite Hr).
    left. rewrite (mb_found _ _ Hb _ _ (Nat.neq_succ_0 j) Hrw).
    rewrite decide_True by (by apply list_lookup_total_correct). split; [done|].
    by apply (mb_values _ _ Hb).
  - right. assert (rule_vals regs w = []) as Hnil.
    { destruct (rule_vals regs w) as [|v vs] eqn:E; [done|]. exfalso. apply Hout.
      assert (v ∈ rule_vals regs w) as Hv by (rewrite E; by left). unfold rule_vals in Hv.
      rewrite elem_of_app, !reg_values_in in Hv. destruct Hv as [Hv|Hv]; eapply Hks; eauto. }
    split; [|done]. case_decide as Hd; [|done].
    pose proof (mb_range _ _ Hb w (level0 g !!! Z.to_nat (Z.land (RollingHash 0 w) (level0Mask g)))) as Hlt.
    set (r := level1 g !!! _) in *. apply lookup_lt_is_Some_2 in Hlt as [w' Hw'].
    rewrite (list_lookup_total_correct _ _ _ Hw') in Hd. subst w'. rewrite Hr in Hw'.
    destruct r as [|r]; [done|]. destruct Hout. simpl in Hw'. by eapply list_elem_of_lookup_2.
Qed.

(** The suffixes that start with a dot, the longest first. *)
Fixpoint dotted (input : bytes) : list bytes :=
  match input with
  | [] => []
  | c :: rest => (if decide (c = "."%byte) then [input] else []) ++ dotted rest
  end.

Lemma mph_scan_ok input : (mph_scan g input).1 = RollingHash 0 input /\
  concat (rev (mph_scan g input).2) = dotted input ≫= rule_vals regs.
Proof.
  induction input as [|c input [IHh IHm]]; [done|]. cbn [mph_scan dotted].
  destruct (mph_scan g input) as [hash matches]. cbn [fst snd] in *. subst hash.
  rewrite <-RollingHash_cons. case_decide as Hc; [|done]. cbn [fst snd].
  split; [done|]. change ([c :: input] ++ dotted input) with ((c :: input) :: dotted input).
  rewrite bind_cons, <-IHm. destruct (Lookup_ok (c :: input)) as [[Hl Hv]|[-> ->]].
  - rewrite decide_True by done. rewrite rev_snoc. simpl. by rewrite Hv.
  - done.
Qed.

Definition mph_reference (input : bytes) : list Z :=
  rule_vals regs input ++ (dotted input ≫= rule_vals regs).

Lemma mph_Match_reference input : mph_Match g input = mph_reference input.
Proof.
  unfold mph_Match, mph_reference. destruct (mph_scan_ok input) as [Hh Hm].
  destruct (mph_scan g input) as [hash matches]. simpl in *. subst hash.
  rewrite CompositeMatchesReverse_concat, <-Hm.
  destruct (Lookup_ok input) as [[Hl Hv]|[-> ->]].
  - rewrite decide_True by done. rewrite rev_snoc. simpl. by rewrite Hv.
  - done.
Qed.

Lemma Lookup_zero w : Lookup g (RollingHash 0 w) w = 0 <-> rule_vals regs w = [].
Proof.
  destruct (Lookup_ok w) as [[Hl Hv]|[-> ->]]; [|done]. split; [done|]. intros Hnil. exfalso.
  destruct (mb_rules _ _ Hb) as (ks & Hr & _). apply (mb_carry _ _ Hb _ w Hr); [|done].
  unfold Lookup in Hl. case_decide as Hd; [|done]. 
  pose proof (mb_range _ _ Hb w (level0 g !!! Z.to_nat (Z.land (RollingHash 0 w) (level0Mask g)))) as Hlt.
  set (r := level1 g !!! _) in *. apply lookup_lt_is_Some_2 in Hlt as [w' Hw'].
  rewrite (list_lookup_total_correct _ _ _ Hw') in Hd. subst w'. rewrite Hr in Hw'.
  destruct r as [|r]; [done|]. simpl in Hw'. by eapply list_elem_of_lookup_2.
Qed.

Lemma mph_any_scan_ok input :
  mph_any_scan g input = if decide (dotted input ≫= rule_vals regs = []) then Some (RollingHash 0 input) else None.
Proof.
  induction input as [|c input IH]; [done|]. cbn [mph_any_scan dotted]. rewrite IH. clear IH.
  destruct (decide (dotted input ≫= rule_vals regs = [])) as [Hn|Hn]; cbn [mbind option_bind].
  - rewrite <-RollingHash_cons. pose proof (Lookup_zero (c :: input)) as Hz.
    case_decide as Hc; [|by rewrite decide_True].
    change ([c :: input] ++ dotted input) with ((c :: input) :: dotted input).
    rewrite bind_cons, Hn, app_nil_r.
    destruct (decide (rule_vals regs (c :: input) = [])) as [He|He].
    + by rewrite decide_False by tauto.
    + by rewrite decide_True by tauto.
  - destruct (decide (c = "."%byte)) as [Hc|Hc]; [|by rewrite decide_False].
    rewrite decide_False; [done|].
    change ([c :: input] ++ dotted input) with ((c :: input) :: dotted input).
    rewrite bind_cons. by intros [? ?]%app_nil.
Qed.

Lemma mph_MatchAny_reference input : mph_MatchAny g input = true <-> mph_reference input ≠ [].
Proof.
  unfold mph_MatchAny, mph_reference. rewrite mph_any_scan_ok. pose proof (Lookup_zero input) as Hz.
  case_decide as Hd.
  - rewrite Hd, app_nil_r, bool_decide_eq_true. tauto.
  - split; [|done]. intros _ [? ?]%app_nil. done.
Qed.
End Matching.
End Built.

(** ** The group against its matchers *)

Lemma elem_of_dotted w input : w ∈ dotted input <-> w `suffix_of` input /\ head w = Some "."%byte.
Proof.
  induction input as [|c input IH]; simpl.
  - rewrite elem_of_nil. split; [done|]. by intros [->%suffix_nil_inv ?].
  - rewrite elem_of_app, IH. split.
    + intros [Hw|[Hs Hh]]; [|by split; [apply suffix_cons_r|]].
      case_decide; [|by apply not_elem_of_nil in Hw]. apply list_elem_of_singleton in Hw as ->.
      subst. done.
    + intros [[k Hk] Hh]. destruct k as [|x k].
      * left. simpl in Hk. subst w. simpl in Hh. injection Hh as ->. rewrite decide_True by done.
        by apply list_elem_of_singleton.
      * right. injection Hk as _ ->. split; [by exists k|done].
Qed.

Section Correctness.
Context `{StringLibs, MphRuntime, SortSlice}.
Context (es : list (bytes * Type_ * Z)).

Lemma mph_registrations_type w t v : (w, t, v) ∈ es ≫= mph_registrations -> mph_type t.
Proof.
  rewrite list_elem_of_bind. intros ([[p t'] v'] & Hr & _). unfold mph_type.
  destruct t'; simpl in Hr; repeat (apply elem_of_cons in Hr as [[= -> -> ->]|Hr]; [tauto|]);
    by apply not_elem_of_nil in Hr.
Qed.

Lemma rule_vals_elem w v : v ∈ rule_vals (es ≫= mph_registrations) w <->
  exists p t, (p, t, v) ∈ es /\ mph_type t /\ (w = ToLower p \/ t = Domain /\ w = "."%byte :: ToLower p).
Proof.
  unfold rule_vals. rewrite elem_of_app, !reg_values_in, !list_elem_of_bind. unfold mph_registrations, mph_type. split.
  - intros [([[p t] v'] & Hr & Hm)|([[p t] v'] & Hr & Hm)]; destruct t;
      repeat (apply elem_of_cons in Hr as [[= -> ->]|Hr]); try (by apply not_elem_of_nil in Hr); eauto 10.
  - intros (p & t & Hm & [-> | ->] & [->|[? ->]]); [left; exists (p, Full, v)|done|right; exists (p, Domain, v)..];
      (split; [|done]); rewrite !elem_of_cons; tauto.
Qed.

Lemma mph_reference_elem input v :
  (forall p t v, (p, t, v) ∈ es -> head (ToLower p) ≠ Some "."%byte) ->
  v ∈ mph_reference (es ≫= mph_registrations) input <->
  exists p t, (p, t, v) ∈ es /\ mph_type t /\ type_Match t (ToLower p) input = true.
Proof.
  intros Hdot. unfold mph_reference. rewrite elem_of_app, list_elem_of_bind.
  setoid_rewrite rule_vals_elem. setoid_rewrite elem_of_dotted. split.
  - intros [(p & t & Hm & Ht & Hw)|(w & (p & t & Hm & Ht & Hw) & Hs & Hh)]; exists p, t; (split; [done|]; split; [done|]).
    + destruct Hw as [->|[-> ->]]; simpl.
      * destruct Ht as [-> | ->]; simpl; [by apply bool_decide_true|]. apply domain_Match_spec. by left.
      * apply domain_Match_spec. by right.
    + destruct Hw as [->|[-> ->]]; [by destruct (Hdot _ _ _ Hm)|]. simpl. apply domain_Match_spec. by right.
  - intros (p & t & Hm & [-> | ->] & Hmatch); simpl in Hmatch.
    + apply bool_decide_eq_true in Hmatch. left. exists p, Full. unfold mph_type. auto.
    + apply domain_Match_spec in Hmatch as [->|Hs]; [left; exists p, Domain; unfold mph_type; auto|].
      right. exists ("."%byte :: ToLower p). split; [|done]. exists p, Domain. unfold mph_type. auto.
Qed.

Context (g0 : MphMatcherGroup) (Hadd : mph_add_entries NewMphMatcherGroup es = Some g0).
Context (Hsize : (Z.of_nat (length (rules g0)) < 2 ^ 63)%Z).

Lemma added_ok : exists infos, reg_ok g0 infos (es ≫= mph_registrations) /\ (Z.of_nat (size infos) < 2 ^ 63)%Z.
Proof.
  destruct (mph_add_entries_ok NewMphMatcherGroup ∅ [] es reg_ok_new) as (g' & infos & Hg & Hok).
  rewrite Hadd in Hg. injection Hg as <-. exists infos. split; [done|].
  destruct (ro_rules _ _ _ Hok) as (ks & Hr & _ & _ & Hl). rewrite Hr in Hsize. simpl in Hsize. lia.
Qed.

Lemma added_built fuel g : mph_Build fuel g0 = Some g -> mph_built g (es ≫= mph_registrations).
Proof. destruct added_ok as (infos & Hok & Hs). by eapply mph_Build_built. Qed.

Lemma added_returns fuel :
  let ruleCount := Z.of_nat (length (rules g0) - 1) in
  realises (rules g0) (u32 (nextPow2 ruleCount - 1)) (Z.to_nat (nextPow2 ruleCount)) fuel ->
  is_Some (mph_Build fuel g0).
Proof.
  destruct added_ok as (infos & Hok & Hs).
  destruct (ro_rules _ _ _ Hok) as (ks & Hr & _ & _ & Hl). rewrite Hr. simpl. rewrite Nat.sub_0_r, Hl, <-Hr.
  by apply (mph_Build_returns g0 infos _ Hok Hs).
Qed.
End Correctness.

(** ** Properties *)

Section Properties.
Context `{StringLibs, MphRuntime, SortSlice}.

(** Build terminates when the runtime's hash family can realise every
    placement of a bucket within the fuel: there are always enough free
    slots for the rules that are left. *)
Theorem mph_Build_terminates es g0 fuel :
  mph_add_entries NewMphMatcherGroup es = Some g0 ->
  (Z.of_nat (length (rules g0)) < 2 ^ 63)%Z ->
  (let ruleCount := Z.of_nat (length (rules g0) - 1) in
   realises (rules g0) (u32 (nextPow2 ruleCount - 1)) (Z.to_nat (nextPow2 ruleCount)) fuel) ->
  is_Some (mph_Build fuel g0).
Proof. intros Hadd Hs. by eapply added_returns. Qed.

(** Whatever the hash function, the order of sort.Slice and the seeds
    found, Match of a built group is the reference list: the values of the
    whole input (Full patterns before Domain patterns), then those of the
    suffixes that start with a dot, the longest first. *)
Theorem mph_Match_is_reference es g0 fuel g input :
  mph_add_entries NewMphMatcherGroup es = Some g0 ->
  (Z.of_nat (length (rules g0)) < 2 ^ 63)%Z ->
  mph_Build fuel g0 = Some g ->
  mph_Match g input = mph_reference (es ≫= mph_registrations) input.
Proof.
  intros Hadd Hs Hb. apply mph_Match_reference; [by eapply added_built|]. apply mph_registrations_type.
Qed.

(** MatchAny and Match of a built group accept the same inputs: those
    that some registered pattern, lower-cased, matches by itself. *)
Theorem mph_MatchAny_correct es g0 fuel g input :
  mph_add_entries NewMphMatcherGroup es = Some g0 ->
  (Z.of_nat (length (rules g0)) < 2 ^ 63)%Z ->
  mph_Build fuel g0 = Some g ->
  (forall p t v, (p, t, v) ∈ es -> head (ToLower p) ≠ Some "."%byte) ->
  mph_MatchAny g input = true <->
  exists p t v, (p, t, v) ∈ es /\ mph_type t /\ type_Match t (ToLower p) input = true.
Proof.
  intros Hadd Hs Hb%(added_built es g0 Hadd Hs) Hdot.
  rewrite (mph_MatchAny_reference _ _ Hb) by apply mph_registrations_type. split.
  - destruct (mph_reference _ _) as [|v vs] eqn:E; [done|]. intros _.
    destruct (proj1 (mph_reference_elem es input v Hdot)) as (p & t & ?); [rewrite E; by left|]. by exists p, t, v.
  - intros (p & t & v & Hm). assert (v ∈ mph_reference (es ≫= mph_registrations) input) as Hv
      by (apply mph_reference_elem; [done|eauto]). intros Hn. rewrite Hn in Hv. by apply not_elem_of_nil in Hv.
Qed.

(** A Full pattern that starts with a dot is stored under the key of a
    domain suffix, so it also matches longer names, which FullMatcher.Match
    rejects; this holds for every hash function. *)
Theorem mph_full_leading_dot_matches fuel g g0 v :
  mph_add_entries NewMphMatcherGroup [(bs ".b", Full, v)] = Some g0 -> mph_Build fuel g0 = Some g ->
  mph_Match g (bs "x.b") = [v] /\ type_Match Full (bs ".b") (bs "x.b") = false.
Proof.
  intros Hadd Hb. split; [|done].
  assert ((Z.of_nat (length (rules g0)) < 2 ^ 63)%Z) as Hs.
  { assert (option_map (fun g => length (rules g)) (mph_add_entries NewMphMatcherGroup [(bs ".b", Full, v)]) = Some 2)
      as Hl by (vm_compute; reflexivity).
    rewrite Hadd in Hl. injection Hl as ->. lia. }
  rewrite (mph_Match_reference _ _ (added_built _ _ Hadd Hs _ _ Hb)) by apply mph_registrations_type.
  by vm_compute.
Qed.
End Properties.

(** A hash function for the examples. *)
Definition sample_hash : MphRuntime := fun s seed => (RollingHash (seed * 77 + 13) s + seed * 31)%Z.

Definition sample_entries : list (bytes * Type_ * Z) :=
  [(bs "A.com", Full, 1%Z); (bs "a.com", Domain, 2%Z); (bs "com", Domain, 3%Z)].

Definition sample_group : MphMatcherGroup :=
  default NewMphMatcherGroup (@mph_add_entries ascii_libs NewMphMatcherGroup sample_entries).

Definition sample_built : MphMatcherGroup :=
  default NewMphMatcherGroup (@mph_Build sample_hash merge_sort_slice 100 sample_group).

Lemma mph_Match_is_reference_witness : @mph_Match sample_hash sample_built (bs "x.a.com") = [2; 3]%Z.
Proof.
  refine (eq_trans (@mph_Match_is_reference ascii_libs sample_hash merge_sort_slice
    sample_entries sample_group 100 sample_built (bs "x.a.com") _ _ _) _).
  1, 3: apply some_default.
  all: vm_compute; reflexivity.
Defined.

Lemma mph_MatchAny_correct_witness : @mph_MatchAny sample_hash sample_built (bs "x.a.com") = true.
Proof.
  refine (proj2 (@mph_MatchAny_correct ascii_libs sample_hash merge_sort_slice
    sample_entries sample_group 100 sample_built (bs "x.a.com") _ _ _ _) _).
  1, 3: apply some_default.
  1-3: vm_compute; reflexivity.
  - intros p t v Hin. repeat apply elem_of_cons in Hin as [[= -> -> ->]|Hin]; try (by apply not_elem_of_nil in Hin);
      vm_compute; discriminate.
  - exists (bs "a.com"), Domain, 2%Z. split; [right; left|]. split; [by right|]. vm_compute. reflexivity.
Defined.

Lemma mph_full_leading_dot_matches_witness :
  @mph_Match sample_hash (default NewMphMatcherGroup (@mph_Build sample_hash merge_sort_slice 1
    (default NewMphMatcherGroup (@mph_add_entries ascii_libs NewMphMatcherGroup [(bs ".b", Full, 7%Z)])))) (bs "x.b") = [7%Z].
Proof.
  refine (proj1 (@mph_full_leading_dot_matches ascii_libs sample_hash merge_sort_slice 1 _
    (default NewMphMatcherGroup (@mph_add_entries ascii_libs NewMphMatcherGroup [(bs ".b", Full, 7%Z)])) 7%Z _ _));
    apply some_default; vm_compute; reflexivity.
Defined.

(** Two one-letter rules and a hash family that enumerates all pairs of
    slots of the four-slot table. *)
Definition pair_hash : MphRuntime := fun s seed =>
  if bool_decide (s = bs "a") then (seed mod 4)%Z else (seed / 4)%Z.

Lemma pair_hash_slots i j : i < 4 -> j < 4 ->
  let s := (Z.of_nat i + 4 * Z.of_nat j)%Z in
  @slot_of pair_hash [[]; bs "a"; bs "b"] 3 s 1 = i /\ @slot_of pair_hash [[]; bs "a"; bs "b"] 3 s 2 = j.
Proof.
  intros Hi Hj. do 4 (destruct i as [|i]; [do 4 (destruct j as [|j]; [by vm_compute|]); lia|]). lia.
Qed.

Lemma pair_hash_realises : @realises pair_hash [[]; bs "a"; bs "b"] 3 4 16.
Proof.
  intros bucket targets Hnd Hr _ Hl Ht.
  assert (exists i j, i < 4 /\ j < 4 /\ targets = (fun r => if decide (r = 1) then i else j) <$> bucket) as (i & j & Hi & Hj & ->).
  { destruct bucket as [|a bucket]; [destruct targets; [|done]; exists 0, 0; repeat split; lia|].
    destruct targets as [|x targets]; [done|]. assert (x < 4) by (apply Ht; left).
    assert (a = 1 \/ a = 2) as Ha by (assert (1 <= a < 3) by (apply Hr; left); lia).
    destruct bucket as [|b bucket].
    { destruct targets; [|done]. destruct Ha as [-> | ->]; [exists x, 0|exists 0, x]; repeat split; (lia || done). }
    destruct targets as [|y targets]; [done|]. assert (y < 4) by (apply Ht; right; left).
    assert (b = 1 \/ b = 2) as Hb by (assert (1 <= b < 3) by (apply Hr; right; left); lia).
    destruct bucket as [|c bucket].
    { destruct targets; [|done]. apply NoDup_cons in Hnd as [Hab _]. rewrite list_elem_of_singleton in Hab.
      destruct Ha as [-> | ->], Hb as [-> | ->]; try done; [exists x, y|exists y, x]; done. }
    exfalso. assert (1 <= c < 3) by (apply Hr; right; right; left).
    apply NoDup_cons in Hnd as [Hab Hnd]. apply NoDup_cons in Hnd as [Hbc _].
    rewrite !elem_of_cons in Hab. rewrite elem_of_cons in Hbc. lia. }
  destruct (pair_hash_slots i j Hi Hj) as [H1 H2]. exists (Z.of_nat i + 4 * Z.of_nat j)%Z.
  split; [lia|]. split; [lia|]. apply list_fmap_ext. intros k r Hk.
  assert (r = 1 \/ r = 2) as [-> | ->]; [|done..].
  assert (1 <= r < 3) by (apply Hr; by eapply list_elem_of_lookup_2). lia.
Qed.

Lemma mph_Build_terminates_witness :
  is_Some (@mph_Build pair_hash merge_sort_slice 16
    (default NewMphMatcherGroup (@mph_add_entries ascii_libs NewMphMatcherGroup [(bs "a", Full, 1%Z); (bs "b", Full, 2%Z)]))).
Proof.
  refine (@mph_Build_terminates ascii_libs pair_hash merge_sort_slice [(bs "a", Full, 1%Z); (bs "b", Full, 2%Z)] _ 16 _ _ _).
  - apply some_default. vm_compute. reflexivity.
  - vm_compute. reflexivity.
  - exact pair_hash_realises.
Defined.
