(* ===== verification/IndexMatchers.v ===== *)
(** * Index matchers, [common/strmatcher/indexmatcher_linear.go] and
    [indexmatcher_mph.go]

    The two implementations of [IndexMatcher]: each numbers the matchers it
    is given and files them in groups by type; the facts show that both
    answer like the list of matchers itself, hence like each other. *)

From S2P Require Import Prelude Matchers MatcherGroups GroupFacts AcAutomaton AcFacts Mph MphFacts.

Section IndexMatchers.
Context `{StringLibs, MphRuntime, SortSlice}.

(** ** The linear index matcher *)

(** src/common/strmatcher/indexmatcher_linear.go LinearIndexMatcher *)
Record LinearIndexMatcher := {
  l_count : Z;
  l_full : option FullGroup.FullMatcherGroup;
  l_domain : option DomainGroup.DomainMatcherGroup;
  l_substr : option SubstrGroup.SubstrMatcherGroup;
  l_regex : option SimpleGroup.SimpleMatcherGroup
}.

(** src/common/strmatcher/indexmatcher_linear.go NewLinearIndexMatcher *)
Definition NewLinearIndexMatcher : LinearIndexMatcher :=
  {| l_count := 0; l_full := None; l_domain := None; l_substr := None; l_regex := None |}.

(** src/common/strmatcher/indexmatcher_linear.go LinearIndexMatcher.Add *)
Definition lin_Add (g : LinearIndexMatcher) (m : Matcher) : LinearIndexMatcher * Z :=
  let index := u32 (l_count g + 1) in
  (match m with
   | FullMatcher p =>
       let full := default FullGroup.NewFullMatcherGroup (l_full g) in
       {| l_count := index; l_full := Some (FullGroup.AddFullMatcher full p index);
          l_domain := l_domain g; l_substr := l_substr g; l_regex := l_regex g |}
   | DomainMatcher p =>
       let domain := default DomainGroup.NewDomainMatcherGroup (l_domain g) in
       {| l_count := index; l_full := l_full g;
          l_domain := Some (DomainGroup.AddDomainMatcher domain p index);
          l_substr := l_substr g; l_regex := l_regex g |}
   | SubstrMatcher p =>
       let substr := default SubstrGroup.new_SubstrMatcherGroup (l_substr g) in
       {| l_count := index; l_full := l_full g; l_domain := l_domain g;
          l_substr := Some (SubstrGroup.AddSubstrMatcher substr p index); l_regex := l_regex g |}
   | _ =>
       let regex := default {| SimpleGroup.matchers := [] |} (l_regex g) in
       {| l_count := index; l_full := l_full g; l_domain := l_domain g; l_substr := l_substr g;
          l_regex := Some (SimpleGroup.AddMatcher regex m index) |}
   end, index).

(** [result = append(result, matches)] when there are any. *)
Definition append_matches (result : list (list Z)) (matches : list Z) : list (list Z) :=
  match matches with [] => result | _ => result ++ [matches] end.

(** The fuel is that of the substring search; [None] when it is exhausted.
    src/common/strmatcher/indexmatcher_linear.go LinearIndexMatcher.Match *)
Definition lin_Match (fuel : nat) (g : LinearIndexMatcher) (input : bytes) : option (list Z) :=
  let r1 := match l_full g with Some f => append_matches [] (FullGroup.Match f input) | None => [] end in
  let r2 := match l_domain g with Some d => append_matches r1 (DomainGroup.Match d input) | None => r1 end in
  r3 ← match l_substr g with
       | Some s => matches ← SubstrGroup.Match fuel s input; Some (append_matches r2 matches)
       | None => Some r2
       end;
  let r4 := match l_regex g with Some r => append_matches r3 (SimpleGroup.Match r input) | None => r3 end in
  Some (CompositeMatches r4).

(** src/common/strmatcher/indexmatcher_linear.go LinearIndexMatcher.MatchAny *)
Definition lin_MatchAny (g : LinearIndexMatcher) (input : bytes) : bool :=
  match l_full g with Some f => FullGroup.MatchAny f input | None => false end ||
  match l_domain g with Some d => DomainGroup.MatchAny d input | None => false end ||
  match l_substr g with Some s => SubstrGroup.MatchAny s input | None => false end ||
  match l_regex g with Some r => SimpleGroup.MatchAny r input | None => false end.

(** src/common/strmatcher/indexmatcher_linear.go LinearIndexMatcher.Size *)
Definition lin_Size (g : LinearIndexMatcher) : Z := l_count g.

(** ** The hash and automaton index matcher *)

(** src/common/strmatcher/indexmatcher_mph.go MphIndexMatcher *)
Record MphIndexMatcher := {
  m_count : Z;
  m_mph : option MphMatcherGroup;
  m_ac : option ACAutomatonMatcherGroup;
  m_regex : option SimpleGroup.SimpleMatcherGroup
}.

(** src/common/strmatcher/indexmatcher_mph.go NewMphIndexMatcher *)
Definition NewMphIndexMatcher : MphIndexMatcher :=
  {| m_count := 0; m_mph := None; m_ac := None; m_regex := None |}.

(** [None] is the nil dereference of adding to a built group.
    src/common/strmatcher/indexmatcher_mph.go MphIndexMatcher.Add *)
Definition mph_Add (g : MphIndexMatcher) (m : Matcher) : option (MphIndexMatcher * Z) :=
  let index := u32 (m_count g + 1) in
  match m with
  | FullMatcher p =>
      mph' ← mph_AddFullMatcher (default NewMphMatcherGroup (m_mph g)) p index;
      Some ({| m_count := index; m_mph := Some mph'; m_ac := m_ac g; m_regex := m_regex g |}, index)
  | DomainMatcher p =>
      mph' ← mph_AddDomainMatcher (default NewMphMatcherGroup (m_mph g)) p index;
      Some ({| m_count := index; m_mph := Some mph'; m_ac := m_ac g; m_regex := m_regex g |}, index)
  | SubstrMatcher p =>
      let ac := default NewACAutomatonMatcherGroup (m_ac g) in
      Some ({| m_count := index; m_mph := m_mph g; m_ac := Some (AddSubstrMatcher ac p index);
               m_regex := m_regex g |}, index)
  | RegexMatcher _ =>
      let regex := default {| SimpleGroup.matchers := [] |} (m_regex g) in
      Some ({| m_count := index; m_mph := m_mph g; m_ac := m_ac g;
               m_regex := Some (SimpleGroup.AddMatcher regex m index) |}, index)
  end.

(** src/common/strmatcher/indexmatcher_mph.go MphIndexMatcher.Build *)
Definition mphi_Build (fuel : nat) (g : MphIndexMatcher) : option MphIndexMatcher :=
  mph' ← match m_mph g with Some x => Some <$> mph_Build fuel x | None => Some None end;
  ac' ← match m_ac g with Some x => Some <$> Build x | None => Some None end;
  Some {| m_count := m_count g; m_mph := mph'; m_ac := ac'; m_regex := m_regex g |}.

(** src/common/strmatcher/indexmatcher_mph.go MphIndexMatcher.Match *)
Definition mphi_Match (g : MphIndexMatcher) (input : bytes) : list Z :=
  let r1 := match m_mph g with Some x => append_matches [] (mph_Match x input) | None => [] end in
  let r2 := match m_ac g with Some x => append_matches r1 (Match x input) | None => r1 end in
  let r3 := match m_regex g with Some x => append_matches r2 (SimpleGroup.Match x input) | None => r2 end in
  CompositeMatches r3.

(** src/common/strmatcher/indexmatcher_mph.go MphIndexMatcher.MatchAny *)
Definition mphi_MatchAny (g : MphIndexMatcher) (input : bytes) : bool :=
  match m_mph g with Some x => mph_MatchAny x input | None => false end ||
  match m_ac g with Some x => MatchAny x input | None => false end ||
  match m_regex g with Some x => SimpleGroup.MatchAny x input | None => false end.

(** src/common/strmatcher/indexmatcher_mph.go MphIndexMatcher.Size *)
Definition mphi_Size (g : MphIndexMatcher) : Z := m_count g.

(** ** Registration, by kind *)

(** The matchers with the indices Add gives them. *)
Definition numbered (ms : list Matcher) : list (Matcher * Z) :=
  imap (fun i m => (m, u32 (Z.of_nat (S i)))) ms.

Definition full_patterns (ms : list (Matcher * Z)) : list (bytes * Z) :=
  omap (fun mv => match mv.1 with FullMatcher p => Some (p, mv.2) | _ => None end) ms.
Definition domain_patterns (ms : list (Matcher * Z)) : list (bytes * Z) :=
  omap (fun mv => match mv.1 with DomainMatcher p => Some (p, mv.2) | _ => None end) ms.
Definition substr_patterns (ms : list (Matcher * Z)) : list (bytes * Z) :=
  omap (fun mv => match mv.1 with SubstrMatcher p => Some (p, mv.2) | _ => None end) ms.
Definition regex_matchers (ms : list (Matcher * Z)) : list (Matcher * Z) :=
  filter (fun mv => matcher_Type mv.1 = Regex) ms.

Definition lin_add_all (ms : list Matcher) : LinearIndexMatcher :=
  foldl (fun g m => (lin_Add g m).1) NewLinearIndexMatcher ms.

(** A group pointer is nil until the first pattern of its kind. *)
Definition opt_group {A B} (f : list A -> B) (l : list A) : option B :=
  match l with [] => None | _ => Some (f l) end.

Lemma opt_group_default {A B} (f : list A -> B) l : default (f []) (opt_group f l) = f l.
Proof. by destruct l. Qed.

Lemma opt_group_snoc {A B} (f : list A -> B) l x : opt_group f (l ++ [x]) = Some (f (l ++ [x])).
Proof. by destruct l. Qed.

Lemma numbered_snoc ms m : numbered (ms ++ [m]) = numbered ms ++ [(m, u32 (Z.of_nat (S (length ms))))].
Proof. unfold numbered. by rewrite imap_app; simpl; rewrite Nat.add_0_r. Qed.

Lemma lin_add_all_ok ms :
  lin_add_all ms = {|
    l_count := u32 (Z.of_nat (length ms));
    l_full := opt_group FullGroupFacts.build (full_patterns (numbered ms));
    l_domain := opt_group DomainGroupFacts.build (domain_patterns (numbered ms));
    l_substr := opt_group SubstrGroupFacts.build (substr_patterns (numbered ms));
    l_regex := opt_group SimpleGroupFacts.build (regex_matchers (numbered ms))
  |}.
Proof.
  unfold lin_add_all. induction ms as [|m ms IH] using rev_ind; [done|].
  rewrite foldl_snoc, IH, length_snoc, numbered_snoc. unfold lin_Add. cbn [l_count].
  assert (u32 (u32 (Z.of_nat (length ms)) + 1) = u32 (Z.of_nat (S (length ms)))) as ->.
  { unfold u32. rewrite Zplus_mod_idemp_l. f_equal. lia. }
  set (i := u32 (Z.of_nat (S (length ms)))).
  unfold full_patterns, domain_patterns, substr_patterns, regex_matchers.
  rewrite !omap_app, filter_app. cbn [fst].
  destruct m as [p|p|p|re]; simpl; rewrite ?app_nil_r, ?opt_group_snoc; f_equal; f_equal.
  - rewrite (opt_group_default FullGroupFacts.build). unfold FullGroupFacts.build. by rewrite foldl_snoc.
  - rewrite (opt_group_default DomainGroupFacts.build). unfold DomainGroupFacts.build. by rewrite foldl_snoc.
  - rewrite (opt_group_default SubstrGroupFacts.build). unfold SubstrGroupFacts.build. by rewrite foldl_snoc.
  - rewrite filter_cons, decide_True, filter_nil, opt_group_snoc by done.
    change {| SimpleGroup.matchers := [] |} with (SimpleGroupFacts.build []).
    rewrite (opt_group_default SimpleGroupFacts.build). unfold SimpleGroupFacts.build. by rewrite foldl_snoc.
Qed.

Lemma elem_of_numbered ms m : m ∈ ms <-> exists v, (m, v) ∈ numbered ms.
Proof.
  unfold numbered. setoid_rewrite elem_of_lookup_imap. rewrite list_elem_of_lookup. split.
  - intros [i Hi]. eauto.
  - intros (v & i & m' & Heq & Hi). injection Heq as -> _. eauto.
Qed.

Lemma elem_of_full_patterns l p v : (p, v) ∈ full_patterns l <-> (FullMatcher p, v) ∈ l.
Proof.
  unfold full_patterns. rewrite list_elem_of_omap. split; [|intros Hm; by exists (FullMatcher p, v)].
  intros ([m v'] & Hm & Heq). destruct m; simplify_eq/=; done.
Qed.

Lemma elem_of_domain_patterns l p v : (p, v) ∈ domain_patterns l <-> (DomainMatcher p, v) ∈ l.
Proof.
  unfold domain_patterns. rewrite list_elem_of_omap. split; [|intros Hm; by exists (DomainMatcher p, v)].
  intros ([m v'] & Hm & Heq). destruct m; simplify_eq/=; done.
Qed.

Lemma elem_of_substr_patterns l p v : (p, v) ∈ substr_patterns l <-> (SubstrMatcher p, v) ∈ l.
Proof.
  unfold substr_patterns. rewrite list_elem_of_omap. split; [|intros Hm; by exists (SubstrMatcher p, v)].
  intros ([m v'] & Hm & Heq). destruct m; simplify_eq/=; done.
Qed.

Lemma elem_of_regex_matchers l m v : (m, v) ∈ regex_matchers l <-> matcher_Type m = Regex /\ (m, v) ∈ l.
Proof. unfold regex_matchers. by rewrite list_elem_of_filter. Qed.

(** Some matcher of the list, with value [v], accepts the input. *)
Definition accepted (l : list (Matcher * Z)) (input : bytes) (v : Z) : Prop :=
  exists m, (m, v) ∈ l /\ matcher_Match m input = true.

(** Acceptance, kind by kind. *)
Lemma accepted_by_kind l input v : accepted l input v <->
  (input, v) ∈ full_patterns l \/
  (exists p, (p, v) ∈ domain_patterns l /\ domain_Match p input = true) \/
  (exists p, (p, v) ∈ substr_patterns l /\ Contains input p = true) \/
  (exists m, (m, v) ∈ regex_matchers l /\ matcher_Match m input = true).
Proof.
  setoid_rewrite elem_of_domain_patterns. setoid_rewrite elem_of_substr_patterns.
  setoid_rewrite elem_of_regex_matchers. rewrite elem_of_full_patterns. unfold accepted. split.
  - intros ([p|p|p|re] & Hm & Hacc); simpl in Hacc.
    + apply bool_decide_eq_true in Hacc as ->. by left.
    + right. left. eauto.
    + right. right. left. eauto.
    + right. right. right. by exists (RegexMatcher re).
  - intros [Hm|[(p & Hm & Hacc)|[(p & Hm & Hacc)|(m & [_ Hm] & Hacc)]]]; [|by eauto..].
    exists (FullMatcher input). split; [done|]. by apply bool_decide_true.
Qed.

(** ** The linear index matcher, correct *)

(** What the groups of this package require of their patterns. *)
Record lin_ok (ms : list Matcher) : Prop := {
  lo_domain : forall p, DomainMatcher p ∈ ms -> DomainGroupFacts.wf_domain p;
  lo_substr : forall p, SubstrMatcher p ∈ ms -> p ≠ [];
  lo_count : (Z.of_nat (length ms) <= 2 ^ 16)%Z;
}.

Lemma lin_ok_domains ms : lin_ok ms -> DomainGroupFacts.wf_patterns (domain_patterns (numbered ms)).
Proof.
  intros Hok. apply Forall_forall. intros [p v] Hp%elem_of_domain_patterns. simpl.
  apply (lo_domain _ Hok), elem_of_numbered. by exists v.
Qed.

Lemma lin_ok_substrs ms : lin_ok ms -> Forall (fun pv => pv.1 ≠ []) (substr_patterns (numbered ms)).
Proof.
  intros Hok. apply Forall_forall. intros [p v] Hp%elem_of_substr_patterns. simpl.
  apply (lo_substr _ Hok), elem_of_numbered. by exists v.
Qed.

Lemma length_substr_patterns l : length (substr_patterns l) <= length l.
Proof. apply length_omap_le. Qed.

Lemma concat_append_matches r m : concat (append_matches r m) = concat r ++ m.
Proof. destruct m; simpl; [by rewrite app_nil_r|]. by rewrite concat_app; simpl; rewrite app_nil_r. Qed.

(** Full, then domain, then substring, then regular expression matches. *)
Definition lin_reference (ms : list Matcher) (input : bytes) : list Z :=
  let l := numbered ms in
  FullGroupFacts.values_of (full_patterns l) input ++
  DomainGroupFacts.reference (domain_patterns l) input ++
  SubstrGroupFacts.reference (substr_patterns l) input ++
  (filter (fun mv => matcher_Match mv.1 input = true) (regex_matchers l)).*2.

Lemma lin_Match_ok ms input : lin_ok ms -> (Z.of_nat (length input) <= 2 ^ 16)%Z ->
  lin_Match (S (length input)) (lin_add_all ms) input = Some (lin_reference ms input).
Proof.
  intros Hok Hin. rewrite lin_add_all_ok. unfold lin_Match, lin_reference. cbn [l_full l_domain l_substr l_regex].
  set (l := numbered ms).
  assert (forall r, concat (match opt_group FullGroupFacts.build (full_patterns l) with
    | Some f => append_matches r (FullGroup.Match f input) | None => r end) =
    concat r ++ FullGroupFacts.values_of (full_patterns l) input) as Hf.
  { intros r. rewrite <-FullGroupFacts.Match_values. destruct (full_patterns l) eqn:E; simpl opt_group; cbv iota;
      [by rewrite app_nil_r|apply concat_append_matches]. }
  assert (forall r, concat (match opt_group DomainGroupFacts.build (domain_patterns l) with
    | Some d => append_matches r (DomainGroup.Match d input) | None => r end) =
    concat r ++ DomainGroupFacts.reference (domain_patterns l) input) as Hd.
  { intros r. pose proof (DomainGroupFacts.domain_Match_reference _ input (lin_ok_domains _ Hok)) as Hm.
    fold l in Hm. rewrite <-Hm. destruct (domain_patterns l) as [|x dp] eqn:E; simpl opt_group; cbv iota.
    - rewrite Hm. unfold DomainGroupFacts.reference. rewrite DomainGroupFacts.concat_map_nil; [by rewrite app_nil_r|].
      intros k _. cbv zeta. by destruct (domain_Match _ _).
    - apply concat_append_matches. }
  assert (forall r, exists r', (match opt_group SubstrGroupFacts.build (substr_patterns l) with
    | Some s => matches ← SubstrGroup.Match (S (length input)) s input; Some (append_matches r matches)
    | None => Some r end) = Some r' /\
    concat r' = concat r ++ SubstrGroupFacts.reference (substr_patterns l) input) as Hs.
  { intros r. pose proof (SubstrGroupFacts.substr_Match_reference (substr_patterns l) input
      (lin_ok_substrs _ Hok) Hin) as Hm.
    destruct (substr_patterns l) as [|x sp] eqn:E; simpl opt_group; cbv iota.
    - exists r. split; [done|]. unfold SubstrGroupFacts.reference.
      rewrite (bind_ext_in _ (fun _ => [])) by done. rewrite bind_nil_r. by rewrite app_nil_r.
    - rewrite Hm. eexists. split; [done|]. apply concat_append_matches.
      pose proof (length_substr_patterns l) as Hl. rewrite E in Hl.
      assert (length l = length ms) by apply length_imap. pose proof (lo_count _ Hok). lia. }
  assert (forall r, concat (match opt_group SimpleGroupFacts.build (regex_matchers l) with
    | Some x => append_matches r (SimpleGroup.Match x input) | None => r end) =
    concat r ++ (filter (fun mv => matcher_Match mv.1 input = true) (regex_matchers l)).*2) as Hx.
  { intros r. rewrite <-SimpleGroupFacts.Match_filter. destruct (regex_matchers l) eqn:E; simpl opt_group; cbv iota;
      [by rewrite app_nil_r|apply concat_append_matches]. }
  match goal with |- context [match opt_group SubstrGroupFacts.build _ with Some s => _ | None => Some ?r end] =>
    destruct (Hs r) as (r3 & -> & H3) end.
  cbn [mbind option_bind]. by rewrite CompositeMatches_concat, Hx, H3, Hd, Hf, <-!(assoc_L (++)).
Qed.

Lemma lin_reference_elem ms input v : lin_ok ms ->
  v ∈ lin_reference ms input <-> accepted (numbered ms) input v.
Proof.
  intros Hok. rewrite accepted_by_kind. unfold lin_reference. rewrite !elem_of_app.
  rewrite FullGroupFacts.elem_of_values, DomainGroupFacts.domain_reference_elem by (by apply lin_ok_domains).
  rewrite SubstrGroupFacts.substr_reference_elem by (by apply lin_ok_substrs).
  do 3 apply or_iff_compat_l. rewrite list_elem_of_fmap. split.
  - intros ([m v'] & -> & [Hm Hin]%list_elem_of_filter). by exists m.
  - intros (m & Hin & Hm). exists (m, v). split; [done|]. by apply list_elem_of_filter.
Qed.

Lemma opt_group_any {A B} (f : list A -> B) (any : B -> bool) (P : Prop) l :
  (any (f l) = true <-> P) -> (l = [] -> ~ P) ->
  match opt_group f l with Some g => any g | None => false end = true <-> P.
Proof. destruct l; simpl; [|done]. intros _ HP. split; [done|]. intros H'. by destruct (HP eq_refl). Qed.

Lemma lin_MatchAny_ok ms input : lin_ok ms ->
  lin_MatchAny (lin_add_all ms) input = true <-> exists v, accepted (numbered ms) input v.
Proof.
  intros Hok. rewrite lin_add_all_ok. unfold lin_MatchAny. cbn [l_full l_domain l_substr l_regex].
  setoid_rewrite accepted_by_kind. set (l := numbered ms). rewrite !orb_true_iff.
  rewrite (opt_group_any FullGroupFacts.build (fun f => FullGroup.MatchAny f input)
    (exists v, (input, v) ∈ full_patterns l)).
  rewrite (opt_group_any DomainGroupFacts.build (fun f => DomainGroup.MatchAny f input)
    (exists v p, (p, v) ∈ domain_patterns l /\ domain_Match p input = true)).
  rewrite (opt_group_any SubstrGroupFacts.build (fun f => SubstrGroup.MatchAny f input)
    (exists v p, (p, v) ∈ substr_patterns l /\ Contains input p = true)).
  rewrite (opt_group_any SimpleGroupFacts.build (fun f => SimpleGroup.MatchAny f input)
    (exists v m, (m, v) ∈ regex_matchers l /\ matcher_Match m input = true)).
  { naive_solver. }
  - rewrite SimpleGroupFacts.simple_MatchAny_exists. naive_solver.
  - intros -> (v & m & ?%not_elem_of_nil & _). done.
  - rewrite SubstrGroupFacts.substr_MatchAny_exists. naive_solver.
  - intros -> (v & m & ?%not_elem_of_nil & _). done.
  - rewrite DomainGroupFacts.domain_MatchAny_Match, DomainGroupFacts.domain_Match_reference by (by apply lin_ok_domains).
    rewrite nonempty_elem. by setoid_rewrite DomainGroupFacts.domain_reference_elem; [|by apply lin_ok_domains].
  - intros -> (v & m & ?%not_elem_of_nil & _). done.
  - rewrite FullGroupFacts.MatchAny_Match, negb_true_iff, bool_decide_eq_false, FullGroupFacts.Match_values.
    rewrite nonempty_elem. by setoid_rewrite FullGroupFacts.elem_of_values.
  - intros -> (v & ?%not_elem_of_nil). done.
Qed.

(** ** The hash and automaton index matcher, correct *)

Definition mph_entries (l : list (Matcher * Z)) : list (bytes * Type_ * Z) :=
  omap (fun mv => match mv.1 with
                  | FullMatcher p => Some (p, Full, mv.2)
                  | DomainMatcher p => Some (p, Domain, mv.2)
                  | _ => None end) l.
Definition ac_entries (l : list (Matcher * Z)) : list (bytes * Type_ * Z) :=
  omap (fun mv => match mv.1 with SubstrMatcher p => Some (p, Substr, mv.2) | _ => None end) l.

Lemma elem_of_mph_entries l p t v : (p, t, v) ∈ mph_entries l <->
  t = Full /\ (FullMatcher p, v) ∈ l \/ t = Domain /\ (DomainMatcher p, v) ∈ l.
Proof.
  unfold mph_entries. rewrite list_elem_of_omap. split.
  - intros ([m v'] & Hm & Heq). destruct m; simplify_eq/=; auto.
  - intros [[-> Hm]|[-> Hm]]; eexists; (split; [exact Hm|done]).
Qed.

Lemma elem_of_ac_entries l p t v : (p, t, v) ∈ ac_entries l <-> t = Substr /\ (SubstrMatcher p, v) ∈ l.
Proof.
  unfold ac_entries. rewrite list_elem_of_omap. split.
  - intros ([m v'] & Hm & Heq). destruct m; simplify_eq/=; auto.
  - intros [-> Hm]; eexists; (split; [exact Hm|done]).
Qed.

Definition mph_add_all (ms : list Matcher) : option MphIndexMatcher :=
  foldl (fun og m => g ← og; '(g', _) ← mph_Add g m; Some g') (Some NewMphIndexMatcher) ms.

Lemma mph_add_entries_snoc g es e :
  mph_add_entries g (es ++ [e]) = g' ← mph_add_entries g es; mph_add_entry g' e.
Proof.
  revert g. induction es as [|e' es IH]; intros g; cbn [app mph_add_entries].
  - cbn [mbind option_bind]. by destruct (mph_add_entry g e).
  - destruct (mph_add_entry g e') as [g'|]; cbn [mbind option_bind]; [apply IH|done].
Qed.

(** The groups of the index after Add, before Build. *)
Record filed (l : list (Matcher * Z)) (g : MphIndexMatcher) : Prop := {
  fi_mph : match m_mph g with
           | Some x => mph_add_entries NewMphMatcherGroup (mph_entries l) = Some x
           | None => mph_entries l = [] end;
  fi_ac : m_ac g = opt_group add_entries (ac_entries l);
  fi_regex : m_regex g = opt_group SimpleGroupFacts.build (regex_matchers l);
}.

Lemma filed_mph l g e : filed l g ->
  exists x', mph_add_entry (default NewMphMatcherGroup (m_mph g)) e = Some x' /\
    mph_add_entries NewMphMatcherGroup (mph_entries l ++ [e]) = Some x'.
Proof.
  intros [Hm _ _]. rewrite mph_add_entries_snoc.
  assert (mph_add_entries NewMphMatcherGroup (mph_entries l) = Some (default NewMphMatcherGroup (m_mph g))) as ->.
  { destruct (m_mph g); [done|]. by rewrite Hm. }
  destruct (mph_add_entries_ok NewMphMatcherGroup ∅ [] (mph_entries l ++ [e]) reg_ok_new) as (x' & i & Hx & _).
  rewrite mph_add_entries_snoc in Hx. cbn [mbind option_bind].
  destruct (m_mph g) as [x|]; [rewrite Hm in Hx|rewrite Hm in Hx]; simpl in Hx |- *; eauto.
Qed.

Lemma mph_add_all_ok ms : exists g, mph_add_all ms = Some g /\ filed (numbered ms) g /\
  m_count g = u32 (Z.of_nat (length ms)).
Proof.
  unfold mph_add_all. induction ms as [|m ms (g & IH & Hf & Hc)] using rev_ind.
  { exists NewMphIndexMatcher. repeat split. }
  rewrite foldl_snoc, IH, length_snoc, numbered_snoc. cbn [mbind option_bind]. unfold mph_Add. rewrite Hc.
  assert (u32 (u32 (Z.of_nat (length ms)) + 1) = u32 (Z.of_nat (S (length ms)))) as ->.
  { unfold u32. rewrite Zplus_mod_idemp_l. f_equal. lia. }
  set (i := u32 (Z.of_nat (S (length ms)))). set (l := numbered ms) in *.
  pose proof (filed_mph l g) as Hmph. destruct Hf as [Hm Ha Hr].
  assert (forall e, mph_entries (l ++ [e]) = mph_entries l ++ mph_entries [e]) as Hme by (intros; apply omap_app).
  assert (forall e, ac_entries (l ++ [e]) = ac_entries l ++ ac_entries [e]) as Hae by (intros; apply omap_app).
  assert (forall e, regex_matchers (l ++ [e]) = regex_matchers l ++ regex_matchers [e]) as Hre by (intros; apply filter_app).
  destruct m as [p|p|p|re].
  - destruct (Hmph (p, Full, i)) as (x' & Hx & Hx2); [done|]. simpl in Hx. rewrite Hx. cbn [mbind option_bind].
    eexists. split; [done|]. split; [|done]. split; cbn [m_mph m_ac m_regex]; rewrite ?Hme, ?Hae, ?Hre; simpl; rewrite ?app_nil_r; done.
  - destruct (Hmph (p, Domain, i)) as (x' & Hx & Hx2); [done|]. simpl in Hx. rewrite Hx. cbn [mbind option_bind].
    eexists. split; [done|]. split; [|done]. split; cbn [m_mph m_ac m_regex]; rewrite ?Hme, ?Hae, ?Hre; simpl; rewrite ?app_nil_r; done.
  - eexists. split; [done|]. split; [|done]. split; cbn [m_mph m_ac m_regex]; rewrite ?Hme, ?Hae, ?Hre; simpl; rewrite ?app_nil_r; try done.
    rewrite Ha, opt_group_snoc, (opt_group_default add_entries). unfold add_entries. by rewrite foldl_snoc.
  - eexists. split; [done|]. split; [|done]. split; cbn [m_mph m_ac m_regex]; rewrite ?Hme, ?Hae, ?Hre; simpl; rewrite ?app_nil_r; try done.
    unfold regex_matchers at 2. rewrite filter_cons, decide_True, filter_nil, opt_group_snoc by done.
    change {| SimpleGroup.matchers := [] |} with (SimpleGroupFacts.build []).
    rewrite Hr, (opt_group_default SimpleGroupFacts.build). unfold SimpleGroupFacts.build. by rewrite foldl_snoc.
Qed.

(** Patterns on which the hash and the automaton are exact: lower case, domains
    and substrings in LDH form, no leading dot, no empty substring. The program
    lowers the name it asks about and not the patterns, which it takes as they
    are configured. *)
Record prepared (ms : list Matcher) : Prop := {
  pr_lin : lin_ok ms;
  pr_full : forall p, FullMatcher p ∈ ms -> ToLower p = p /\ head p ≠ Some "."%byte;
  pr_domain : forall p, DomainMatcher p ∈ ms -> ToLower p = p;
  pr_substr : forall p, SubstrMatcher p ∈ ms -> pattern_ok p Substr;
}.

(** What an index asks of its patterns: the linear one takes them in any case
    and of any bytes. *)
Definition indexable (linear : bool) (ms : list Matcher) : Prop := if linear then lin_ok ms else prepared ms.

Lemma indexable_lin linear ms : indexable linear ms -> lin_ok ms.
Proof. destruct linear; [done|apply pr_lin]. Qed.

Lemma prepared_indexable linear ms : prepared ms -> indexable linear ms.
Proof. destruct linear; [apply pr_lin|done]. Qed.

Lemma rules_bound es g0 : mph_add_entries NewMphMatcherGroup es = Some g0 ->
  length (rules g0) <= 1 + 2 * length es.
Proof.
  intros Hadd. destruct (mph_add_entries_ok NewMphMatcherGroup ∅ [] es reg_ok_new) as (x' & i & Hx & Hok).
  assert (x' = g0) as -> by congruence. rewrite app_nil_l in Hok.
  destruct (ro_rules _ _ _ Hok) as (ks & -> & Hnd & Hin & _). simpl.
  assert (length (es ≫= mph_registrations) <= 2 * length es) as Hl.
  { clear. induction es as [|[[p t] v] es IH]; [done|]. rewrite bind_cons, length_app.
    assert (length (mph_registrations (p, t, v)) <= 2) by (destruct t; simpl; lia).
    change (length ((p, t, v) :: es)) with (S (length es)). lia. }
  assert (ks ⊆+ (es ≫= mph_registrations).*1.*1) as Hsub%submseteq_length.
  { apply NoDup_submseteq; [done|]. intros k Hk. apply Hin in Hk. pose proof (ro_carry _ _ _ Hok k Hk) as Hc.
    apply nonempty_elem in Hc as [v Hv]. unfold rule_vals in Hv. rewrite elem_of_app, !reg_values_in in Hv.
    rewrite list_elem_of_fmap. setoid_rewrite list_elem_of_fmap.
    destruct Hv as [Hv|Hv]; eexists; (split; [|eexists; split; [|exact Hv]; reflexivity]); done. }
  rewrite !length_fmap in Hsub. lia.
Qed.

Section BuiltIndex.
Context (ms : list Matcher) (Hms : prepared ms) (fuel : nat).
Context (g0 g : MphIndexMatcher) (Hadd : mph_add_all ms = Some g0) (Hb : mphi_Build fuel g0 = Some g).
Context (input : bytes) (Hin : Forall (fun b => is_upper b = false) input).

Abbreviation l := (numbered ms).

Lemma index_filed : filed l g0.
Proof. destruct (mph_add_all_ok ms) as (g' & Hg & Hf & _). by assert (g' = g0) as -> by congruence. Qed.

(** The built groups. *)
Lemma index_built :
  match m_mph g with
  | Some x => mph_built x (mph_entries l ≫= mph_registrations) | None => mph_entries l = [] end /\
  match m_ac g with
  | Some x => Build (add_entries (ac_entries l)) = Some x | None => ac_entries l = [] end /\
  m_regex g = opt_group SimpleGroupFacts.build (regex_matchers l).
Proof.
  destruct index_filed as [Hm Ha Hr]. unfold mphi_Build in Hb.
  destruct (match m_mph g0 with Some x => Some <$> mph_Build fuel x | None => Some None end) as [mph'|] eqn:Em; [|done].
  destruct (match m_ac g0 with Some x => Some <$> Build x | None => Some None end) as [ac'|] eqn:Ea; [|done].
  cbn in Hb. injection Hb as <-. cbn [m_mph m_ac m_regex]. split; [|split; [|done]].
  - destruct (m_mph g0) as [x|]; [|by injection Em as <-].
    destruct (mph_Build fuel x) as [x'|] eqn:Hx; [|done]. injection Em as <-.
    eapply added_built; [exact Hm| |exact Hx]. apply rules_bound in Hm.
    assert (length (mph_entries l) <= length ms) as Hl.
    { unfold mph_entries. etrans; [apply length_omap_le|]. unfold numbered. by rewrite length_imap. }
    pose proof (lo_count _ (pr_lin _ Hms)). lia.
  - destruct (m_ac g0) as [x|]; [|injection Ea as <-; by destruct (ac_entries l)].
    destruct (Build x) as [x'|] eqn:Hx; [|done]. injection Ea as <-.
    destruct (ac_entries l); [done|]. injection Ha as ->. done.
Qed.

Definition mph_part (v : Z) : Prop :=
  exists p t, (p, t, v) ∈ mph_entries l /\ mph_type t /\ type_Match t (ToLower p) input = true.
Definition ac_part (v : Z) : Prop := exists p t, (p, t, v) ∈ ac_entries l /\ type_Match t p input = true.

Lemma mph_accepts v : mph_part v <->
  (input, v) ∈ full_patterns l \/ exists p, (p, v) ∈ domain_patterns l /\ domain_Match p input = true.
Proof.
  unfold mph_part. setoid_rewrite elem_of_mph_entries. rewrite elem_of_full_patterns.
  setoid_rewrite elem_of_domain_patterns. unfold mph_type. split.
  - intros (p & t & [[-> Hm]|[-> Hm]] & _ & Hacc).
    + left. destruct (pr_full _ Hms p) as [Hl _]; [apply elem_of_numbered; by exists v|].
      simpl in Hacc. rewrite Hl in Hacc. by apply bool_decide_eq_true in Hacc as <-.
    + right. exists p. split; [done|]. simpl in Hacc.
      by rewrite (pr_domain _ Hms p) in Hacc by (apply elem_of_numbered; by exists v).
  - intros [Hm|(p & Hm & Hacc)].
    + exists input, Full. split; [by left|]. split; [by left|].
      destruct (pr_full _ Hms input) as [Hl _]; [apply elem_of_numbered; by exists v|].
      simpl. rewrite Hl. by apply bool_decide_true.
    + exists p, Domain. split; [by right|]. split; [by right|]. simpl.
      by rewrite (pr_domain _ Hms p) by (apply elem_of_numbered; by exists v).
Qed.

Lemma mph_entries_dots p t v : (p, t, v) ∈ mph_entries l -> head (ToLower p) ≠ Some "."%byte.
Proof.
  rewrite elem_of_mph_entries. intros [[-> Hm]|[-> Hm]].
  - destruct (pr_full _ Hms p) as [Hl Hd]; [apply elem_of_numbered; by exists v|]. by rewrite Hl.
  - assert (DomainMatcher p ∈ ms) as Hp by (apply elem_of_numbered; by exists v).
    rewrite (pr_domain _ Hms p Hp). by apply (lo_domain _ (pr_lin _ Hms)).
Qed.

Lemma ac_accepts v : ac_part v <-> exists p, (p, v) ∈ substr_patterns l /\ Contains input p = true.
Proof.
  unfold ac_part. setoid_rewrite elem_of_ac_entries. setoid_rewrite elem_of_substr_patterns. split.
  - intros (p & t & [-> Hm] & Hacc). by exists p.
  - intros (p & Hm & Hacc). by exists p, Substr.
Qed.

Lemma ac_entries_ok p t v : (p, t, v) ∈ ac_entries l -> pattern_ok p t.
Proof.
  rewrite elem_of_ac_entries. intros [-> Hm]. apply (pr_substr _ Hms), elem_of_numbered. by exists v.
Qed.

Lemma elem_of_append_matches r m (v : Z) : v ∈ concat (append_matches r m) <-> v ∈ concat r \/ v ∈ m.
Proof. by rewrite concat_append_matches, elem_of_app. Qed.

Lemma mphi_Match_elem v : v ∈ mphi_Match g input <-> accepted l input v.
Proof.
  rewrite accepted_by_kind. rewrite <-ac_accepts. pose proof (mph_accepts v) as Hmph.
  transitivity ((mph_part v \/ ac_part v) \/ exists m, (m, v) ∈ regex_matchers l /\ matcher_Match m input = true); [|tauto].
  clear Hmph. unfold mphi_Match. rewrite CompositeMatches_concat. destruct index_built as (Hm & Ha & ->).
  set (r1 := match m_mph g with Some x => _ | None => _ end).
  assert (v ∈ concat r1 <-> mph_part v) as Hr1.
  { unfold r1, mph_part. destruct (m_mph g) as [x|].
    - rewrite elem_of_append_matches, (mph_Match_reference _ _ Hm) by apply mph_registrations_type.
      rewrite mph_reference_elem by apply mph_entries_dots. simpl. rewrite elem_of_nil. tauto.
    - rewrite Hm. simpl. split; [by intros ?%not_elem_of_nil|]. by intros (p & t & ?%not_elem_of_nil & _). }
  set (r2 := match m_ac g with Some x => _ | None => _ end).
  assert (v ∈ concat r2 <-> mph_part v \/ ac_part v) as Hr2.
  { unfold r2, ac_part. destruct (m_ac g) as [x|].
    - rewrite elem_of_append_matches, Hr1.
      by rewrite (Match_elem _ _ _ _ (fun p t v => ac_entries_ok p t v) Hin Ha).
    - rewrite Ha, Hr1. split; [by left|]. intros [?|(p & t & ?%not_elem_of_nil & _)]; done. }
  clearbody r2.
  rewrite <-Hr2. destruct (regex_matchers l) as [|x rm] eqn:E; simpl opt_group; cbv iota.
  - split; [by left|]. intros [?|(p & ?%not_elem_of_nil & _)]; done.
  - rewrite elem_of_append_matches, SimpleGroupFacts.Match_filter, list_elem_of_fmap.
    apply or_iff_compat_l. split.
    + intros ([m v'] & -> & [Hacc Hi]%list_elem_of_filter). by exists m.
    + intros (m & Hi & Hacc). exists (m, v). split; [done|]. by apply list_elem_of_filter.
Qed.

Lemma mphi_MatchAny_elem : mphi_MatchAny g input = true <-> exists v, accepted l input v.
Proof.
  unfold mphi_MatchAny. destruct index_built as (Hm & Ha & ->). rewrite !orb_true_iff.
  transitivity ((exists v, mph_part v) \/ (exists v, ac_part v) \/
    exists v m, (m, v) ∈ regex_matchers l /\ matcher_Match m input = true).
  - rewrite Logic.or_assoc. apply Morphisms_Prop.or_iff_morphism; [|apply Morphisms_Prop.or_iff_morphism].
    + unfold mph_part. destruct (m_mph g) as [x|].
      * rewrite (mph_MatchAny_reference _ _ Hm), nonempty_elem by apply mph_registrations_type.
        by setoid_rewrite mph_reference_elem; [|apply mph_entries_dots].
      * rewrite Hm. split; [done|]. by intros (v & p & t & ?%not_elem_of_nil & _).
    + unfold ac_part. destruct (m_ac g) as [x|].
      * rewrite (MatchAny_elem _ _ _ (fun p t v => ac_entries_ok p t v) Hin Ha). naive_solver.
      * rewrite Ha. split; [done|]. by intros (v & p & t & ?%not_elem_of_nil & _).
    + apply (opt_group_any SimpleGroupFacts.build (fun f => SimpleGroup.MatchAny f input)).
      * rewrite SimpleGroupFacts.simple_MatchAny_exists. naive_solver.
      * intros ->. by intros (v & m & ?%not_elem_of_nil & _).
  - setoid_rewrite (accepted_by_kind l). setoid_rewrite mph_accepts. setoid_rewrite ac_accepts.
    split.
    + intros [[v Hv]|[[v Hv]|[v Hv]]]; exists v; tauto.
    + intros [v [Hv|[Hv|[Hv|Hv]]]]; [left|left|right; left|right; right]; exists v; tauto.
Qed.
End BuiltIndex.
End IndexMatchers.

(** ** Properties *)

Section IndexProperties.
Context `{StringLibs, MphRuntime, SortSlice}.

(** The linear index matcher returns the indices of all matchers that
    accept the input in the order of its specification: Full, Domain (the
    longest first), Substr (by position, then by index), Regex. *)
Theorem linear_Match_is_reference ms input :
  lin_ok ms -> (Z.of_nat (length input) <= 2 ^ 16)%Z ->
  lin_Match (S (length input)) (lin_add_all ms) input = Some (lin_reference ms input).
Proof. apply lin_Match_ok. Qed.

(** C34: the two index matchers are interchangeable: for prepared patterns
    and a lower-case input they return the same set of indices, and their
    MatchAny agree, whatever the hash function of the runtime. *)
Theorem index_matchers_agree ms input fuel g0 g :
  prepared ms -> Forall (fun b => is_upper b = false) input -> (Z.of_nat (length input) <= 2 ^ 16)%Z ->
  mph_add_all ms = Some g0 -> mphi_Build fuel g0 = Some g ->
  (exists matches, lin_Match (S (length input)) (lin_add_all ms) input = Some matches /\
     forall i, i ∈ matches <-> i ∈ mphi_Match g input) /\
  lin_MatchAny (lin_add_all ms) input = mphi_MatchAny g input.
Proof.
  intros Hms Hin Hlen Hadd Hb. pose proof (pr_lin _ Hms) as Hlin. split.
  - eexists. split; [by apply lin_Match_ok|]. intros i.
    by rewrite lin_reference_elem, (mphi_Match_elem ms Hms fuel g0 g Hadd Hb input Hin).
  - apply eq_true_iff_eq. by rewrite lin_MatchAny_ok, (mphi_MatchAny_elem ms Hms fuel g0 g Hadd Hb input Hin).
Qed.
End IndexProperties.

Definition sample_matchers : list (@Matcher ascii_libs) :=
  [FullMatcher (bs "a.com"); DomainMatcher (bs "com"); SubstrMatcher (bs "m"); SubstrMatcher (bs "a.");
   @RegexMatcher ascii_libs (bs "co")].

Lemma sample_prepared : @prepared ascii_libs sample_matchers.
Proof.
  unfold sample_matchers. split; [split| | |].
  - intros p Hin. repeat apply elem_of_cons in Hin as [[= ->]|Hin]; try (by apply not_elem_of_nil in Hin). done.
  - intros p Hin. repeat apply elem_of_cons in Hin as [[= ->]|Hin]; try (by apply not_elem_of_nil in Hin); done.
  - simpl. lia.
  - intros p Hin. repeat apply elem_of_cons in Hin as [[= ->]|Hin]; try (by apply not_elem_of_nil in Hin).
    by vm_compute.
  - intros p Hin. repeat apply elem_of_cons in Hin as [[= ->]|Hin]; try (by apply not_elem_of_nil in Hin).
    by vm_compute.
  - intros p Hin. repeat apply elem_of_cons in Hin as [[= ->]|Hin]; try (by apply not_elem_of_nil in Hin);
      (split; [done|by repeat constructor|done]).
Qed.

Lemma linear_Match_is_reference_witness :
  @lin_Match ascii_libs merge_sort_slice 6 (lin_add_all sample_matchers) (bs "a.com") = Some [1; 2; 4; 3; 5]%Z.
Proof.
  refine (eq_trans (@linear_Match_is_reference ascii_libs merge_sort_slice sample_matchers (bs "a.com") _ _) _).
  - apply sample_prepared.
  - vm_compute. discriminate.
  - vm_compute. reflexivity.
Defined.

Definition sample_index : @MphIndexMatcher ascii_libs :=
  default NewMphIndexMatcher (@mph_add_all ascii_libs sample_matchers).

Definition sample_index_built : @MphIndexMatcher ascii_libs :=
  default NewMphIndexMatcher (@mphi_Build ascii_libs sample_hash merge_sort_slice 100 sample_index).

Lemma index_matchers_agree_witness :
  lin_MatchAny (lin_add_all sample_matchers) (bs "xcox") =
  @mphi_MatchAny ascii_libs sample_hash sample_index_built (bs "xcox").
Proof.
  refine (proj2 (@index_matchers_agree ascii_libs sample_hash merge_sort_slice sample_matchers (bs "xcox")
    100 sample_index sample_index_built sample_prepared _ _ _ _)).
  - by repeat constructor.
  - vm_compute. discriminate.
  - apply some_default. vm_compute. reflexivity.
  - apply some_default. vm_compute. reflexivity.
Defined.
