(* ===== verification/Net.v ===== *)
(** * Addresses, [common/net/address.go] and [destination.go]

    Addresses, their families and destinations, with what the code uses of
    the standard library's [net]: [ParseIP], [ParseCIDR], [IP.To4], [IP.Mask],
    [IPNet.Contains]. *)

From S2P Require Import Prelude.

Local Open Scope Z_scope.

(** ** Package [net]: parsing addresses *)

Definition is_digit (c : byte) : bool := (48 <=? byte_to_Z c) && (byte_to_Z c <=? 57).

(** [netip.parseIPv4Fields]: the value and length of the current field, the
    fields before it in reverse. *)
Fixpoint parse_v4_fields (s : bytes) (first : bool) (prev_dot : bool) (val digLen : Z) (acc : list Z) : option (list Z) :=
  match s with
  | [] => if (length acc <? 3)%nat then None else Some (rev (val :: acc))
  | c :: s' =>
      if is_digit c then
        if (digLen =? 1) && (val =? 0) then None
        else
          let val := val * 10 + (byte_to_Z c - 48) in
          if 255 <? val then None else parse_v4_fields s' false false val (digLen + 1) acc
      else if byte_to_Z c =? 46 then
        if first || prev_dot || (match s' with [] => true | _ => false end) then None
        else if (length acc =? 3)%nat then None
        else parse_v4_fields s' false true 0 0 (val :: acc)
      else None
  end.

Definition parse_v4 (s : bytes) : option bytes := map byte_of_Z <$> parse_v4_fields s true false 0 0 [].

Definition hex_digit (c : byte) : option Z :=
  let z := byte_to_Z c in
  if (48 <=? z) && (z <=? 57) then Some (z - 48)
  else if (97 <=? z) && (z <=? 102) then Some (z - 87)
  else if (65 <=? z) && (z <=? 70) then Some (z - 55)
  else None.

(** The digits of one group: how many, their value and what follows; [None]
    for more than four. *)
Fixpoint hex_group (s : bytes) (off : nat) (acc : Z) : option (nat * Z * bytes) :=
  match s with
  | c :: s' =>
      match hex_digit c with
      | Some d => if (3 <? off)%nat then None else hex_group s' (S off) (acc * 16 + d)
      | None => Some (off, acc, s)
      end
  | [] => Some (off, acc, [])
  end.

(** The loop of [netip.parseIPv6]: the bytes so far, the place of the
    ellipsis and the rest of the text; every turn takes a group of the
    sixteen bytes, so eight turns are enough fuel. *)
Fixpoint parse_v6_groups (fuel : nat) (s : bytes) (ip : bytes) (ellipsis : option nat) : option (bytes * option nat * bytes) :=
  match fuel with
  | O => Some (ip, ellipsis, s)
  | S fuel' =>
      match hex_group s 0 0 with
      | None => None
      | Some (O, _, _) => None
      | Some (_, acc, rest) =>
          match rest with
          | [] => Some (ip ++ put16 acc, ellipsis, [])
          | c :: rest' =>
              if byte_to_Z c =? 46 then
                if (match ellipsis with None => negb (length ip =? 12)%nat | Some _ => false end) then None
                else if (16 <? length ip + 4)%nat then None
                else v4 ← parse_v4 s; Some (ip ++ v4, ellipsis, [])
              else if byte_to_Z c =? 58 then
                match rest' with
                | [] => None
                | c' :: rest'' =>
                    if byte_to_Z c' =? 58 then
                      match ellipsis with
                      | Some _ => None
                      | None =>
                          match rest'' with
                          | [] => Some (ip ++ put16 acc, Some (length ip + 2)%nat, [])
                          | _ => parse_v6_groups fuel' rest'' (ip ++ put16 acc) (Some (length ip + 2)%nat)
                          end
                      end
                    else parse_v6_groups fuel' rest' (ip ++ put16 acc) ellipsis
                end
              else None
          end
      end
  end.

Definition zero_bytes (n : nat) : bytes := replicate n x00.

(** A zone is refused by [ParseIP] and [ParseCIDR], so its sign ends it here. *)
Definition parse_v6 (s : bytes) : option bytes :=
  let leading := match s with c :: c' :: _ => (byte_to_Z c =? 58) && (byte_to_Z c' =? 58) | _ => false end in
  let s := if leading then drop 2 s else s in
  if leading && (match s with [] => true | _ => false end) then Some (zero_bytes 16)
  else
    '(ip, ellipsis, rest) ← parse_v6_groups 8 s [] (if leading then Some 0%nat else None);
    match rest with
    | _ :: _ => None
    | [] =>
        if (length ip <? 16)%nat then
          match ellipsis with
          | None => None
          | Some e => Some (take e ip ++ zero_bytes (16 - length ip) ++ drop e ip)
          end
        else match ellipsis with Some _ => None | None => Some ip end
    end.

Definition v4_in_v6_prefix : bytes := zero_bytes 10 ++ [xff; xff].

(** [netip.ParseAddr] without zones: the first of '.', ':' decides. *)
Fixpoint parse_addr_kind (s : bytes) : option bool :=
  match s with
  | [] => None
  | c :: s' =>
      if byte_to_Z c =? 46 then Some true
      else if byte_to_Z c =? 58 then Some false
      else if byte_to_Z c =? 37 then None
      else parse_addr_kind s'
  end.

Definition ParseAddr (s : bytes) : option bytes :=
  match parse_addr_kind s with
  | Some true => parse_v4 s
  | Some false => parse_v6 s
  | None => None
  end.

(** [netip.Addr.As16]. *)
Definition As16 (ip : bytes) : bytes := if (length ip =? 4)%nat then v4_in_v6_prefix ++ ip else ip.

Definition ParseIP (s : bytes) : option bytes := As16 <$> ParseAddr s.

(** [IP.To4]. *)
Definition To4 (ip : bytes) : option bytes :=
  if (length ip =? 4)%nat then Some ip
  else if (length ip =? 16)%nat && bool_decide (take 12 ip = v4_in_v6_prefix) then Some (drop 12 ip)
  else None.

(** ** Package [net]: networks *)

Record IPNet := { net_IP : bytes; net_Mask : bytes }.

Definition land_bytes (a b : bytes) : bytes := zip_with (fun x y => byte_of_Z (Z.land (byte_to_Z x) (byte_to_Z y))) a b.

(** [CIDRMask(ones, bits)]: [ones] leading one bits in [bits/8] bytes. *)
Definition CIDRMask (ones bits : Z) : bytes := be_split (Z.to_nat (bits / 8)) (2 ^ bits - 2 ^ (bits - ones)).

(** [IP.Mask], for masks as long as the address or its IPv4 form. *)
Definition IP_Mask (ip mask : bytes) : option bytes :=
  let ip := if (length mask =? 4)%nat && (length ip =? 16)%nat && bool_decide (take 12 ip = v4_in_v6_prefix) then drop 12 ip else ip in
  if (length ip =? length mask)%nat then Some (land_bytes ip mask) else None.

(** The decimal number of [dtoi], at most [0xFFFFFF], and what follows it. *)
Fixpoint dtoi (s : bytes) (n : Z) (some : bool) : option (Z * bytes) :=
  match s with
  | c :: s' =>
      if is_digit c then
        let n := n * 10 + (byte_to_Z c - 48) in
        if 0xFFFFFF <=? n then None else dtoi s' n true
      else if some then Some (n, s) else None
  | [] => if some then Some (n, []) else None
  end.

Fixpoint split_slash (s : bytes) : option (bytes * bytes) :=
  match s with
  | [] => None
  | c :: s' => if byte_to_Z c =? 47 then Some ([], s') else (fun '(a, b) => (c :: a, b)) <$> split_slash s'
  end.

(** [ParseCIDR]: the address in 16 bytes and the network. *)
Definition ParseCIDR (s : bytes) : option (bytes * IPNet) :=
  '(addr, mask) ← split_slash s;
  ip ← ParseAddr addr;
  '(n, rest) ← dtoi mask 0 false;
  match rest with
  | _ :: _ => None
  | [] =>
      let bits := 8 * Z.of_nat (length ip) in
      if bits <? n then None
      else net ← IP_Mask (As16 ip) (CIDRMask n bits); Some (As16 ip, {| net_IP := net; net_Mask := CIDRMask n bits |})
  end.

(** [networkNumberAndMask], for networks [ParseCIDR] returns: the network
    number is in its IPv4 form when it has one. *)
Definition networkNumberAndMask (n : IPNet) : bytes * bytes :=
  let nn := default (net_IP n) (To4 (net_IP n)) in
  (nn, if (length (net_Mask n) =? 16)%nat && (length nn =? 4)%nat then drop 12 (net_Mask n) else net_Mask n).

(** [IPNet.Contains]. *)
Definition Contains (n : IPNet) (ip : bytes) : bool :=
  let '(nn, m) := networkNumberAndMask n in
  let ip := default ip (To4 ip) in
  (length ip =? length nn)%nat && bool_decide (land_bytes nn m = land_bytes ip m).

(** [IPMask.Size]: the leading one bits, the zero bits after them being the
    only others, and the length in bits; [(0, 0)] for any other mask. *)
Fixpoint simpleMaskLength (mask : bytes) (n : Z) : option Z :=
  match mask with
  | [] => Some n
  | v :: mask' =>
      if bool_decide (v = xff) then simpleMaskLength mask' (n + 8)
      else
        let ones := find (fun k => byte_to_Z v =? 256 - 2 ^ (8 - k)) [0; 1; 2; 3; 4; 5; 6; 7] in
        if forallb (fun x => bool_decide (x = x00)) mask' then (fun k => n + k) <$> ones else None
  end.
Definition Mask_Size (mask : bytes) : Z * Z :=
  match simpleMaskLength mask 0 with Some n => (n, 8 * Z.of_nat (length mask)) | None => (0, 0) end.

(** [strings.TrimSpace] on ASCII spaces. *)
Definition is_space (c : byte) : bool := let z := byte_to_Z c in ((9 <=? z) && (z <=? 13)) || (z =? 32).
Fixpoint trim_left (s : bytes) : bytes := match s with c :: s' => if is_space c then trim_left s' else s | [] => [] end.
Definition TrimSpace (s : bytes) : bytes := rev (trim_left (rev (trim_left s))).

(** ** Addresses *)

(** src/common/net/address.go:28-40 AddressFamily *)
Inductive AddressFamily := AddressFamilyIPv4 | AddressFamilyIPv6 | AddressFamilyDomain.

#[export] Instance AddressFamily_eq_dec : EqDecision AddressFamily.
Proof. solve_decision. Defined.

(** src/common/net/address.go AddressFamily.IsIP *)
Definition IsIP (af : AddressFamily) : bool :=
  match af with AddressFamilyIPv4 | AddressFamilyIPv6 => true | AddressFamilyDomain => false end.
(** src/common/net/address.go AddressFamily.IsDomain *)
Definition IsDomain (af : AddressFamily) : bool := match af with AddressFamilyDomain => true | _ => false end.

(** src/common/net/address.go Address *)
Inductive Address := ipv4Address (a : bytes) | ipv6Address (a : bytes) | domainAddress (d : bytes).

#[export] Instance Address_eq_dec : EqDecision Address.
Proof. solve_decision. Defined.
#[export] Instance Address_countable : Countable Address.
Proof.
  apply (inj_countable'
    (fun a => match a with ipv4Address a => inl (inl a) | ipv6Address a => inl (inr a) | domainAddress d => inr d end)
    (fun x => match x with inl (inl a) => ipv4Address a | inl (inr a) => ipv6Address a | inr d => domainAddress d end)).
  by intros [].
Defined.

(** src/common/net/address.go:137-139 Family *)
Definition Family (a : Address) : AddressFamily :=
  match a with
  | ipv4Address _ => AddressFamilyIPv4 | ipv6Address _ => AddressFamilyIPv6 | domainAddress _ => AddressFamilyDomain
  end.

(** [None] is the panic on a domain.
    src/common/net/address.go ipv4Address.IP *)
Definition IP (a : Address) : option bytes :=
  match a with ipv4Address a | ipv6Address a => Some a | domainAddress _ => None end.

(** src/common/net/address.go domainAddress.Domain *)
Definition Domain (a : Address) : option bytes := match a with domainAddress d => Some d | _ => None end.

(** [None] is a nil address.
    src/common/net/address.go IPAddress *)
Definition IPAddress (ip : bytes) : option Address :=
  if (length ip =? 4)%nat then Some (ipv4Address ip)
  else if (length ip =? 16)%nat then
    if bool_decide (take 10 ip = zero_bytes 10) && bool_decide (take 2 (drop 10 ip) = [xff; xff])
    then Some (ipv4Address (drop 12 ip)) else Some (ipv6Address ip)
  else None.

(** src/common/net/address.go isAlphaNum *)
Definition isAlphaNum (c : byte) : bool :=
  let z := byte_to_Z c in
  ((48 <=? z) && (z <=? 57)) || ((97 <=? z) && (z <=? 122)) || ((65 <=? z) && (z <=? 90)).

(** src/common/net/address.go ParseAddress *)
Definition ParseAddress (addr : bytes) : option Address :=
  let bracketed := match head addr, last addr with
                   | Some a, Some b => (byte_to_Z a =? 91) && (byte_to_Z b =? 93) | _, _ => false end in
  let addr := if bracketed then take (length addr - 2) (drop 1 addr) else addr in
  let addr := match head addr, last addr with
              | Some a, Some b => if negb (isAlphaNum a) || negb (isAlphaNum b) then TrimSpace addr else addr
              | _, _ => addr end in
  match ParseIP addr with
  | Some ip => IPAddress ip
  | None => Some (domainAddress addr)
  end.

(** ** Destinations *)

Inductive Network := Network_Unknown | Network_TCP | Network_UDP | Network_UNIX.

#[export] Instance Network_eq_dec : EqDecision Network.
Proof. solve_decision. Defined.

(** A zero destination has a nil address.
    src/common/net/destination.go Destination *)
Record Destination := { dest_Address : option Address; dest_Port : Z; dest_Network : Network }.

(** src/common/net/destination.go TCPDestination *)
Definition TCPDestination (a : option Address) (port : Z) : Destination :=
  {| dest_Address := a; dest_Port := port; dest_Network := Network_TCP |}.
(** src/common/net/destination.go UDPDestination *)
Definition UDPDestination (a : option Address) (port : Z) : Destination :=
  {| dest_Address := a; dest_Port := port; dest_Network := Network_UDP |}.

(** src/common/net/destination.go UnixDestination *)
Definition UnixDestination (a : option Address) : Destination :=
  {| dest_Address := a; dest_Port := 0; dest_Network := Network_UNIX |}.

(** An address of package [net], by its type. *)
Inductive net_Addr := TCPAddr (ip : bytes) (port : Z) | UDPAddr (ip : bytes) (port : Z) | UnixAddr (name : bytes) | OtherAddr.

(** src/common/net/destination.go DestinationFromAddr *)
Definition DestinationFromAddr (addr : net_Addr) : outcome unit Destination :=
  match addr with
  | TCPAddr ip port => Ok (TCPDestination (IPAddress ip) (u16 port))
  | UDPAddr ip port => Ok (UDPDestination (IPAddress ip) (u16 port))
  | UnixAddr name => Ok (UnixDestination (Some (domainAddress name)))
  | OtherAddr => Panic
  end.

(** src/common/net/port.go PortFromBytes *)
Definition PortFromBytes (port : bytes) : Z := get16 port.

Example parse_v4_example : ParseIP (bs "198.18.0.1") = Some (v4_in_v6_prefix ++ [xc6; x12; x00; x01]).
Proof. reflexivity. Qed.
Example parse_v6_example : ParseIP (bs "fc00::1:2") = Some ([xfc; x00] ++ zero_bytes 10 ++ [x00; x01; x00; x02]).
Proof. reflexivity. Qed.
Example parse_cidr_example :
  ParseCIDR (bs "198.18.0.0/15") = Some (v4_in_v6_prefix ++ [xc6; x12; x00; x00], {| net_IP := [xc6; x12; x00; x00]; net_Mask := [xff; xfe; x00; x00] |}).
Proof. reflexivity. Qed.
Example parse_bad_v4 : ParseIP (bs "1.2.3.04") = None.
Proof. reflexivity. Qed.
Example parse_v6_v4 : ParseIP (bs "::ffff:1.2.3.4") = Some (v4_in_v6_prefix ++ [x01; x02; x03; x04]).
Proof. reflexivity. Qed.
