(* ===== verification/Segment.v ===== *)
(** * mKCP segments and packets, [transport/internet/kcp]: [segment.go],
    [output.go], [io.go], [crypt.go], [xor.go], [config.go]

    The wire format of the three segment kinds, the packet writer and reader
    with their optional header and AEAD, the legacy authenticator, and the
    configuration arithmetic.  A [buf.Buffer] payload is its content here;
    [Buffer] models the type itself. *)

From S2P Require Import Prelude.

Local Open Scope Z_scope.

(** ** Configuration *)

(** A missing message of the protobuf configuration is [None].
    src/transport/internet/kcp/config.pb.go:379-392 Config *)
Record Config := {
  Mtu : option Z; Tti : option Z; UplinkCapacity : option Z; DownlinkCapacity : option Z;
  WriteBuffer : option Z; ReadBuffer : option Z; Congestion : bool
}.

(** src/transport/internet/kcp/config.go Config.GetMTUValue *)
Definition GetMTUValue (c : Config) : Z := default 1350 (Mtu c).
(** src/transport/internet/kcp/config.go Config.GetTTIValue *)
Definition GetTTIValue (c : Config) : Z := default 50 (Tti c).
(** src/transport/internet/kcp/config.go Config.GetUplinkCapacityValue *)
Definition GetUplinkCapacityValue (c : Config) : Z := default 5 (UplinkCapacity c).
(** src/transport/internet/kcp/config.go Config.GetDownlinkCapacityValue *)
Definition GetDownlinkCapacityValue (c : Config) : Z := default 20 (DownlinkCapacity c).
(** src/transport/internet/kcp/config.go Config.GetWriteBufferSize *)
Definition GetWriteBufferSize (c : Config) : Z := default (2 * 1024 * 1024) (WriteBuffer c).
(** src/transport/internet/kcp/config.go Config.GetReadBufferSize *)
Definition GetReadBufferSize (c : Config) : Z := default (2 * 1024 * 1024) (ReadBuffer c).

(** Go's unsigned division; [None] is the division-by-zero panic. *)
Definition udiv (a b : Z) : option Z := if decide (b = 0) then None else Some (a / b).

Definition in_flight_size (capacity : Z) (c : Config) : option Z :=
  a ← udiv (u32 (u32 (capacity * 1024) * 1024)) (GetMTUValue c);
  r ← udiv 1000 (GetTTIValue c);
  size ← udiv a r;
  Some (if size <? 8 then 8 else size).

(** src/transport/internet/kcp/config.go Config.GetSendingInFlightSize *)
Definition GetSendingInFlightSize (c : Config) : option Z := in_flight_size (GetUplinkCapacityValue c) c.
(** src/transport/internet/kcp/config.go Config.GetReceivingInFlightSize *)
Definition GetReceivingInFlightSize (c : Config) : option Z := in_flight_size (GetDownlinkCapacityValue c) c.
(** src/transport/internet/kcp/config.go Config.GetSendingBufferSize *)
Definition GetSendingBufferSize (c : Config) : option Z := udiv (GetWriteBufferSize c) (GetMTUValue c).
(** src/transport/internet/kcp/config.go Config.GetReceivingBufferSize *)
Definition GetReceivingBufferSize (c : Config) : option Z := udiv (GetReadBufferSize c) (GetMTUValue c).

(** ** Segments *)

(** src/transport/internet/kcp/segment.go:13-14 CommandACK *)
Definition CommandACK : Z := 0.
(** src/transport/internet/kcp/segment.go:15-16 CommandData *)
Definition CommandData : Z := 1.
(** src/transport/internet/kcp/segment.go:17-18 CommandTerminate *)
Definition CommandTerminate : Z := 2.
(** src/transport/internet/kcp/segment.go:19-20 CommandPing *)
Definition CommandPing : Z := 3.
(** src/transport/internet/kcp/segment.go:25-27 SegmentOptionClose *)
Definition SegmentOptionClose : Z := 1.
(** src/transport/internet/kcp/segment.go:38-40 DataSegmentOverhead *)
Definition DataSegmentOverhead : Z := 18.
(** src/common/buf/buffer.go:10-13 Size *)
Definition Size : Z := 16384.
#[global] Arguments Size : simpl never.
#[global] Arguments Z.to_nat : simpl nomatch.

(** [payload] is [None] for a nil buffer.
    src/transport/internet/kcp/segment.go DataSegment *)
Record DataSegment := {
  d_Conv : Z; d_Option : Z; d_Timestamp : Z; d_Number : Z; d_SendingNext : Z;
  d_payload : option bytes; d_timeout : Z; d_transmit : Z
}.

(** src/transport/internet/kcp/segment.go NewDataSegment *)
Definition NewDataSegment : DataSegment :=
  {| d_Conv := 0; d_Option := 0; d_Timestamp := 0; d_Number := 0; d_SendingNext := 0;
     d_payload := None; d_timeout := 0; d_transmit := 0 |}.

(** src/transport/internet/kcp/segment.go AckSegment *)
Record AckSegment := {
  a_Conv : Z; a_Option : Z; a_ReceivingWindow : Z; a_ReceivingNext : Z; a_Timestamp : Z;
  a_NumberList : list Z
}.

(** src/transport/internet/kcp/segment.go NewAckSegment *)
Definition NewAckSegment : AckSegment :=
  {| a_Conv := 0; a_Option := 0; a_ReceivingWindow := 0; a_ReceivingNext := 0; a_Timestamp := 0;
     a_NumberList := [] |}.

(** src/transport/internet/kcp/segment.go CmdOnlySegment *)
Record CmdOnlySegment := {
  c_Conv : Z; c_Cmd : Z; c_Option : Z; c_SendingNext : Z; c_ReceivingNext : Z; c_PeerRTO : Z
}.

(** src/transport/internet/kcp/segment.go:29-36 Segment *)
Inductive Segment := SegData (s : DataSegment) | SegAck (s : AckSegment) | SegCmd (s : CmdOnlySegment).

(** src/transport/internet/kcp/segment.go DataSegment.Data *)
Definition Data (s : DataSegment) : bytes := default [] (d_payload s).

(** The content of a fresh buffer after [Clear] and [Write]: [copy] stops at
    the capacity.
    src/common/buf/buffer.go Buffer.Write *)
Definition written (data : bytes) : bytes := take (Z.to_nat Size) data.

(** [None] is the result [(false, nil)].
    src/transport/internet/kcp/segment.go DataSegment.parse *)
Definition data_parse (conv opt : Z) (buf : bytes) : option (DataSegment * bytes) :=
  if Z.of_nat (length buf) <? 15 then None
  else
    let ts := get32 buf in let buf := drop 4 buf in
    let number := get32 buf in let buf := drop 4 buf in
    let sendingNext := get32 buf in let buf := drop 4 buf in
    let dataLen := Z.to_nat (get16 buf) in let buf := drop 2 buf in
    if (length buf <? dataLen)%nat then None
    else Some ({| d_Conv := conv; d_Option := opt; d_Timestamp := ts; d_Number := number;
                  d_SendingNext := sendingNext; d_payload := Some (written (take dataLen buf));
                  d_timeout := 0; d_transmit := 0 |}, drop dataLen buf).

(** [None] is the nil dereference of [s.payload.Bytes()].
    src/transport/internet/kcp/segment.go DataSegment.Serialize *)
Definition data_Serialize (s : DataSegment) : option bytes :=
  payload ← d_payload s;
  Some (put16 (d_Conv s) ++ [byte_of_Z CommandData; byte_of_Z (d_Option s)] ++
        put32 (d_Timestamp s) ++ put32 (d_Number s) ++ put32 (d_SendingNext s) ++
        put16 (Z.of_nat (length payload)) ++ payload).

(** src/transport/internet/kcp/segment.go DataSegment.ByteSize *)
Definition data_ByteSize (s : DataSegment) : Z :=
  2 + 1 + 1 + 4 + 4 + 4 + 2 + Z.of_nat (length (default [] (d_payload s))).

(** src/transport/internet/kcp/segment.go:136-136 ackNumberLimit *)
Definition ackNumberLimit : Z := 128.

(** src/transport/internet/kcp/segment.go AckSegment.PutNumber *)
Definition PutNumber (n : Z) (s : AckSegment) : AckSegment :=
  {| a_Conv := a_Conv s; a_Option := a_Option s; a_ReceivingWindow := a_ReceivingWindow s;
     a_ReceivingNext := a_ReceivingNext s; a_Timestamp := a_Timestamp s;
     a_NumberList := a_NumberList s ++ [n] |}.

(** src/transport/internet/kcp/segment.go AckSegment.PutTimestamp *)
Definition PutTimestamp (ts : Z) (s : AckSegment) : AckSegment :=
  if u32 (ts - a_Timestamp s) <? 0x7FFFFFFF then
    {| a_Conv := a_Conv s; a_Option := a_Option s; a_ReceivingWindow := a_ReceivingWindow s;
       a_ReceivingNext := a_ReceivingNext s; a_Timestamp := ts; a_NumberList := a_NumberList s |}
  else s.

(** src/transport/internet/kcp/segment.go AckSegment.IsFull *)
Definition IsFull (s : AckSegment) : bool := Z.of_nat (length (a_NumberList s)) =? ackNumberLimit.

(** src/transport/internet/kcp/segment.go AckSegment.IsEmpty *)
Definition ack_IsEmpty (s : AckSegment) : bool := Z.of_nat (length (a_NumberList s)) =? 0.

(** The loop over the numbers of a parsed acknowledgement.
    src/transport/internet/kcp/segment.go:164-167 AckSegment.parse *)
Fixpoint parse_numbers (count : nat) (s : AckSegment) (buf : bytes) : AckSegment * bytes :=
  match count with
  | O => (s, buf)
  | S count' => parse_numbers count' (PutNumber (get32 buf) s) (drop 4 buf)
  end.

(** src/transport/internet/kcp/segment.go AckSegment.parse *)
Definition ack_parse (conv opt : Z) (buf : bytes) : option (AckSegment * bytes) :=
  if Z.of_nat (length buf) <? 13 then None
  else
    let window := get32 buf in let buf := drop 4 buf in
    let next := get32 buf in let buf := drop 4 buf in
    let ts := get32 buf in let buf := drop 4 buf in
    let count := Z.to_nat (byte_to_Z (buf !!! 0%nat)) in let buf := drop 1 buf in
    if (length buf <? count * 4)%nat then None
    else Some (parse_numbers count
      {| a_Conv := conv; a_Option := opt; a_ReceivingWindow := window; a_ReceivingNext := next;
         a_Timestamp := ts; a_NumberList := [] |} buf).

(** src/transport/internet/kcp/segment.go AckSegment.ByteSize *)
Definition ack_ByteSize (s : AckSegment) : Z :=
  2 + 1 + 1 + 4 + 4 + 4 + 1 + Z.of_nat (length (a_NumberList s)) * 4.

(** src/transport/internet/kcp/segment.go AckSegment.Serialize *)
Definition ack_Serialize (s : AckSegment) : bytes :=
  put16 (a_Conv s) ++ [byte_of_Z CommandACK; byte_of_Z (a_Option s)] ++
  put32 (a_ReceivingWindow s) ++ put32 (a_ReceivingNext s) ++ put32 (a_Timestamp s) ++
  [byte_of_Z (Z.of_nat (length (a_NumberList s)))] ++ (a_NumberList s ≫= put32).

(** src/transport/internet/kcp/segment.go CmdOnlySegment.parse *)
Definition cmd_parse (conv cmd opt : Z) (buf : bytes) : option (CmdOnlySegment * bytes) :=
  if Z.of_nat (length buf) <? 12 then None
  else
    let sendingNext := get32 buf in let buf := drop 4 buf in
    let receivingNext := get32 buf in let buf := drop 4 buf in
    let peerRTO := get32 buf in let buf := drop 4 buf in
    Some ({| c_Conv := conv; c_Cmd := cmd; c_Option := opt; c_SendingNext := sendingNext;
             c_ReceivingNext := receivingNext; c_PeerRTO := peerRTO |}, buf).

(** src/transport/internet/kcp/segment.go CmdOnlySegment.Serialize *)
Definition cmd_Serialize (s : CmdOnlySegment) : bytes :=
  put16 (c_Conv s) ++ [byte_of_Z (c_Cmd s); byte_of_Z (c_Option s)] ++
  put32 (c_SendingNext s) ++ put32 (c_ReceivingNext s) ++ put32 (c_PeerRTO s).

(** src/transport/internet/kcp/segment.go CmdOnlySegment.ByteSize *)
Definition cmd_ByteSize : Z := 2 + 1 + 1 + 4 + 4 + 4.

(** src/transport/internet/kcp/segment.go:86-88 Segment.Conversation *)
Definition Conversation (s : Segment) : Z :=
  match s with SegData s => d_Conv s | SegAck s => a_Conv s | SegCmd s => c_Conv s end.

Definition Serialize (s : Segment) : option bytes :=
  match s with
  | SegData s => data_Serialize s
  | SegAck s => Some (ack_Serialize s)
  | SegCmd s => Some (cmd_Serialize s)
  end.

Definition ByteSize (s : Segment) : Z :=
  match s with SegData s => data_ByteSize s | SegAck s => ack_ByteSize s | SegCmd _ => cmd_ByteSize end.

(** src/transport/internet/kcp/segment.go ReadSegment *)
Definition ReadSegment (buf : bytes) : option (Segment * bytes) :=
  if Z.of_nat (length buf) <? 4 then None
  else
    let conv := get16 buf in let buf := drop 2 buf in
    let cmd := byte_to_Z (buf !!! 0%nat) in
    let opt := byte_to_Z (buf !!! 1%nat) in let buf := drop 2 buf in
    if decide (cmd = CommandData) then prod_map SegData id <$> data_parse conv opt buf
    else if decide (cmd = CommandACK) then prod_map SegAck id <$> ack_parse conv opt buf
    else prod_map SegCmd id <$> cmd_parse conv cmd opt buf.

(** ** Packets *)

(** [crypto/cipher.AEAD] as the packets use it, and what they rely on. *)
Class AEAD := {
  NonceSize : nat;
  Overhead : nat;
  Seal : bytes -> bytes -> bytes;
  Open : bytes -> bytes -> outcome unit bytes;
}.

Class AEADLaws (A : AEAD) (limit : nat) : Prop := {
  Seal_length : forall nonce plain, length (Seal nonce plain) = (Overhead + length plain)%nat;
  Open_Seal : forall nonce nonce' plain,
    (length plain <= limit)%nat -> (NonceSize = 0%nat \/ nonce = nonce') ->
    Open nonce' (Seal nonce plain) = Ok plain;
}.

(** The loop that cuts a packet into segments; every segment read is shorter,
    so the length of the packet is enough fuel.
    src/transport/internet/kcp/io.go:47-54 KCPPacketReader.Read *)
Fixpoint read_segments (fuel : nat) (b : bytes) : list Segment :=
  match fuel with
  | O => []
  | S fuel' =>
      match b with
      | [] => []
      | _ => match ReadSegment b with
             | None => []
             | Some (seg, x) => seg :: read_segments fuel' x
             end
      end
  end.

(** The header is its size; the security may be nil.  [Panic] is a slice
    out of range inside [Open].
    src/transport/internet/kcp/io.go KCPPacketReader.Read *)
Definition packet_Read (header : option nat) (security : option AEAD) (b : bytes) : outcome unit (list Segment) :=
  match (match header with
         | Some size => if (length b <=? size)%nat then None else Some (drop size b)
         | None => Some b
         end) with
  | None => Ok []
  | Some b =>
      match security with
      | None => Ok (read_segments (length b) b)
      | Some A =>
          if (length b <=? NonceSize + Overhead)%nat then Ok []
          else match Open (take NonceSize b) (drop NonceSize b) with
               | Err _ => Ok []
               | Panic => Panic
               | Ok out => Ok (read_segments (length out) out)
               end
      end
  end.

(** src/transport/internet/kcp/io.go KCPPacketWriter.Overhead *)
Definition packet_Overhead (header : option nat) (security : option AEAD) : nat :=
  default 0%nat header + match security with Some A => Overhead | None => 0 end.

(** [header] is what the header serializes this time, [random] the bytes read
    for the nonce.  Extending the 16K buffer beyond its end panics; without
    security [Write] stops at the capacity.  With an empty nonce the slice
    [BytesFrom(-0)] is the whole content.
    src/transport/internet/kcp/io.go KCPPacketWriter.Write *)
Definition packet_Write (header : option bytes) (security : option AEAD) (random b : bytes) : outcome unit bytes :=
  let h := default [] header in
  let cap := Z.to_nat Size in
  if (cap <? length h)%nat then Panic
  else match security with
       | None => Ok (h ++ take (cap - length h) b)
       | Some A =>
           if (cap <? length h + NonceSize)%nat then Panic
           else
             let content := h ++ take NonceSize random in
             let nonce := if decide (NonceSize = 0%nat) then content else drop (length content - NonceSize) content in
             if (cap <? length content + (Overhead + length b))%nat then Panic
             else Ok (content ++ Seal nonce b)
       end.

(** src/transport/internet/kcp/output.go SimpleSegmentWriter *)
Record SimpleSegmentWriter := { w_closed : bool }.

(** The bytes handed to the underlying writer.
    src/transport/internet/kcp/output.go SimpleSegmentWriter.Write *)
Definition segment_Write (w : SimpleSegmentWriter) (seg : Segment) : outcome unit bytes :=
  if w_closed w then Err tt
  else if Size <? ByteSize seg then Panic
  else match Serialize seg with Some raw => Ok raw | None => Panic end.

(** src/transport/internet/kcp/output.go SimpleSegmentWriter.Release *)
Definition segment_Release (w : SimpleSegmentWriter) : SimpleSegmentWriter := {| w_closed := true |}.

(** ** The legacy authenticator *)

Definition xor_byte (a b : byte) : byte := byte_of_Z (Z.lxor (byte_to_Z a) (byte_to_Z b)).

(** src/transport/internet/kcp/xor.go xorfwd *)
Definition xorfwd (x : bytes) : bytes :=
  foldl (fun x i => <[i := xor_byte (x !!! i) (x !!! (i - 4)%nat)]> x) x (seq 4 (length x - 4)).

(** src/transport/internet/kcp/xor.go xorbkd *)
Definition xorbkd (x : bytes) : bytes :=
  foldl (fun x i => <[i := xor_byte (x !!! i) (x !!! (i - 4)%nat)]> x) x (rev (seq 4 (length x - 4))).

(** [hash/fnv.New32a]. *)
Definition fnv32a (data : bytes) : Z :=
  foldl (fun h c => u32 (Z.lxor h (byte_to_Z c) * 16777619)) 2166136261 data.

Definition pad4 (dst : bytes) : bytes :=
  let xtra := (4 - length dst mod 4)%nat in
  if decide (xtra = 4%nat) then dst else dst ++ replicate xtra x00.

(** src/transport/internet/kcp/crypt.go SimpleAuthenticator.Seal *)
Definition simple_Seal (plain : bytes) : bytes :=
  let body := put16 (Z.of_nat (length plain)) ++ plain in
  let dst := put32 (fnv32a body) ++ body in
  take (length dst) (xorfwd (pad4 dst)).

(** src/transport/internet/kcp/crypt.go SimpleAuthenticator.Open *)
Definition simple_Open (cipherText : bytes) : outcome unit bytes :=
  let dst := take (length cipherText) (xorbkd (pad4 cipherText)) in
  if (length dst <? 4)%nat then Panic
  else if decide (get32 dst ≠ fnv32a (drop 4 dst)) then Err tt
  else if (length dst <? 6)%nat then Panic
  else if decide (Z.of_nat (length dst) - 6 ≠ get16 (drop 4 dst)) then Err tt
  else Ok (drop 6 dst).

(** src/transport/internet/kcp/crypt.go:19-27 SimpleAuthenticator *)
#[export] Instance SimpleAuthenticator : AEAD := {|
  NonceSize := 0; Overhead := 6;
  Seal := fun _ plain => simple_Seal plain;
  Open := fun _ cipherText => simple_Open cipherText;
|}.
