(* ===== verification/SegmentFacts.v ===== *)
(** * Facts about mKCP segments and packets

    Round trips of the three segment formats, of a packet through header,
    AEAD and segment reader, and of the legacy authenticator, which also
    accepts nothing but its own output. *)

From S2P Require Import Prelude Segment.

Local Open Scope Z_scope.

(** ** Segments *)

Definition u16_ok (z : Z) : Prop := 0 <= z < 2 ^ 16.
Definition u32_ok (z : Z) : Prop := 0 <= z < 2 ^ 32.
Definition u8_ok (z : Z) : Prop := 0 <= z < 2 ^ 8.

(** Segments whose fields have Go's types and that the writer accepts; the
    payload of a data segment is not empty, an acknowledgement has at most
    255 numbers. *)
Definition segment_ok (s : Segment) : Prop :=
  match s with
  | SegData s => u16_ok (d_Conv s) /\ u8_ok (d_Option s) /\ u32_ok (d_Timestamp s) /\
      u32_ok (d_Number s) /\ u32_ok (d_SendingNext s) /\
      exists p, d_payload s = Some p /\ p ≠ [] /\ Z.of_nat (length p) <= Size
  | SegAck s => u16_ok (a_Conv s) /\ u8_ok (a_Option s) /\ u32_ok (a_ReceivingWindow s) /\
      u32_ok (a_ReceivingNext s) /\ u32_ok (a_Timestamp s) /\ Forall u32_ok (a_NumberList s) /\
      Z.of_nat (length (a_NumberList s)) <= 255
  | SegCmd s => u16_ok (c_Conv s) /\ u8_ok (c_Option s) /\ u8_ok (c_Cmd s) /\ u32_ok (c_SendingNext s) /\
      u32_ok (c_ReceivingNext s) /\ u32_ok (c_PeerRTO s) /\ c_Cmd s ≠ CommandData /\ c_Cmd s ≠ CommandACK
  end.

(** What the peer reconstructs: the retransmission state stays local. *)
Definition received (s : Segment) : Segment :=
  match s with
  | SegData s => SegData {| d_Conv := d_Conv s; d_Option := d_Option s; d_Timestamp := d_Timestamp s;
      d_Number := d_Number s; d_SendingNext := d_SendingNext s; d_payload := d_payload s;
      d_timeout := 0; d_transmit := 0 |}
  | _ => s
  end.

Lemma byte_of_Z_u8 z : u8_ok z -> byte_to_Z (byte_of_Z z) = z.
Proof. intros Hz. rewrite byte_to_of_Z. apply Z.mod_small, Hz. Qed.

#[export] Hint Rewrite @length_app length_put16 length_put32 : go_rw.

(** The field readers on what the field writers put there. *)
Ltac read_fields := repeat (rewrite get32_put32 || rewrite drop_put32 || rewrite get16_put16 || rewrite drop_put16).

Lemma read_header conv cmd opt body : u16_ok conv -> u8_ok cmd -> u8_ok opt ->
  ReadSegment (put16 conv ++ [byte_of_Z cmd; byte_of_Z opt] ++ body) =
    if decide (cmd = CommandData) then prod_map SegData id <$> data_parse conv opt body
    else if decide (cmd = CommandACK) then prod_map SegAck id <$> ack_parse conv opt body
    else prod_map SegCmd id <$> cmd_parse conv cmd opt body.
Proof.
  intros Hc Hm Ho. unfold ReadSegment.
  destruct (Z.ltb_spec (Z.of_nat (length (put16 conv ++ [byte_of_Z cmd; byte_of_Z opt] ++ body))) 4) as [Hlt|_].
  { rewrite !length_app, length_put16 in Hlt. simpl in Hlt. lia. }
  rewrite get16_put16, drop_put16, u16_small by done. cbn [app drop lookup_total list_lookup_total].
  by rewrite !byte_of_Z_u8.
Qed.

Lemma data_parse_body conv opt s p rest :
  u32_ok (d_Timestamp s) -> u32_ok (d_Number s) -> u32_ok (d_SendingNext s) ->
  p ≠ [] -> Z.of_nat (length p) <= Size ->
  data_parse conv opt (put32 (d_Timestamp s) ++ put32 (d_Number s) ++ put32 (d_SendingNext s) ++
    put16 (Z.of_nat (length p)) ++ p ++ rest) =
  Some ({| d_Conv := conv; d_Option := opt; d_Timestamp := d_Timestamp s; d_Number := d_Number s;
           d_SendingNext := d_SendingNext s; d_payload := Some p; d_timeout := 0; d_transmit := 0 |}, rest).
Proof.
  unfold Size. intros Ht Hn Hs Hne Hl. unfold data_parse. assert (0 < length p)%nat by (destruct p; simpl; [done|lia]).
  rewrite !length_app, !length_put32, length_put16.
  destruct (Z.ltb_spec (Z.of_nat (4 + (4 + (4 + (2 + (length p + length rest)))))) 15) as [Hlt|_]; [lia|].
  read_fields. rewrite !u32_small, u16_small, Nat2Z.id by (done || lia). rewrite length_app.
  destruct (Nat.ltb_spec (length p + length rest) (length p)); [lia|].
  rewrite take_app_length, drop_app_length. unfold written, Size. by rewrite take_ge by lia.
Qed.

Lemma parse_numbers_body l s rest : Forall u32_ok l ->
  parse_numbers (length l) s ((l ≫= put32) ++ rest) =
  ({| a_Conv := a_Conv s; a_Option := a_Option s; a_ReceivingWindow := a_ReceivingWindow s;
      a_ReceivingNext := a_ReceivingNext s; a_Timestamp := a_Timestamp s;
      a_NumberList := a_NumberList s ++ l |}, rest).
Proof.
  intros Hl. revert s. induction Hl as [|n l Hn _ IH]; intros s.
  - simpl. rewrite app_nil_r. by destruct s.
  - cbn [length parse_numbers]. rewrite bind_cons, <-(assoc_L (++)), get32_put32, drop_put32, u32_small by done.
    rewrite IH. simpl. by rewrite <-(assoc_L (++)).
Qed.

Lemma length_numbers l : length (l ≫= put32) = (length l * 4)%nat.
Proof. induction l as [|n l IH]; [done|]. rewrite bind_cons, length_app, IH, length_put32. simpl. lia. Qed.

Lemma ack_parse_body conv opt s rest :
  u32_ok (a_ReceivingWindow s) -> u32_ok (a_ReceivingNext s) -> u32_ok (a_Timestamp s) ->
  Forall u32_ok (a_NumberList s) -> Z.of_nat (length (a_NumberList s)) <= 255 ->
  ack_parse conv opt (put32 (a_ReceivingWindow s) ++ put32 (a_ReceivingNext s) ++ put32 (a_Timestamp s) ++
    [byte_of_Z (Z.of_nat (length (a_NumberList s)))] ++ (a_NumberList s ≫= put32) ++ rest) =
  Some ({| a_Conv := conv; a_Option := opt; a_ReceivingWindow := a_ReceivingWindow s;
           a_ReceivingNext := a_ReceivingNext s; a_Timestamp := a_Timestamp s;
           a_NumberList := a_NumberList s |}, rest).
Proof.
  intros Hw Hn Ht Hl Hc. unfold ack_parse. rewrite !length_app, !length_put32.
  destruct (Z.ltb_spec (Z.of_nat (4 + (4 + (4 + (length [byte_of_Z (Z.of_nat (length (a_NumberList s)))] +
    (length (a_NumberList s ≫= put32) + length rest)))))) 13) as [Hlt|_]; [simpl in Hlt; lia|].
  read_fields. rewrite !u32_small by done.
  cbn [app drop lookup_total list_lookup_total].
  rewrite drop_0, byte_of_Z_u8, Nat2Z.id by (unfold u8_ok; lia). rewrite length_app, length_numbers.
  destruct (Nat.ltb_spec (length (a_NumberList s) * 4 + length rest) (length (a_NumberList s) * 4)); [lia|].
  by rewrite parse_numbers_body.
Qed.

Lemma cmd_parse_body conv cmd opt s rest :
  u32_ok (c_SendingNext s) -> u32_ok (c_ReceivingNext s) -> u32_ok (c_PeerRTO s) ->
  cmd_parse conv cmd opt (put32 (c_SendingNext s) ++ put32 (c_ReceivingNext s) ++ put32 (c_PeerRTO s) ++ rest) =
  Some ({| c_Conv := conv; c_Cmd := cmd; c_Option := opt; c_SendingNext := c_SendingNext s;
           c_ReceivingNext := c_ReceivingNext s; c_PeerRTO := c_PeerRTO s |}, rest).
Proof.
  intros Hs Hn Hp. unfold cmd_parse. rewrite !length_app, !length_put32.
  destruct (Z.ltb_spec (Z.of_nat (4 + (4 + (4 + length rest)))) 12) as [Hlt|_]; [lia|].
  read_fields. by rewrite !u32_small.
Qed.

Lemma segment_roundtrip s raw rest :
  segment_ok s -> Serialize s = Some raw -> ReadSegment (raw ++ rest) = Some (received s, rest).
Proof.
  destruct s as [s|s|s]; simpl.
  - intros (Hc & Ho & Ht & Hn & Hs & p & Hp & Hne & Hl). unfold data_Serialize. rewrite Hp. intros Hraw%(inj Some). subst raw.
    rewrite <-!(assoc_L (++)), read_header by (done || (unfold u8_ok, CommandData; lia)).
    rewrite decide_True by done. by rewrite data_parse_body.
  - intros (Hc & Ho & Hw & Hn & Ht & Hl & Hlen) Hraw%(inj Some). subst raw. unfold ack_Serialize.
    rewrite <-!(assoc_L (++)), read_header by (done || (unfold u8_ok, CommandACK; lia)).
    rewrite decide_False, decide_True by done. rewrite ack_parse_body by done. by destruct s.
  - intros (Hc & Ho & Hm & Hs & Hn & Hp & Hd & Ha) Hraw%(inj Some). subst raw. unfold cmd_Serialize.
    rewrite <-!(assoc_L (++)), read_header by done.
    rewrite !decide_False by done. rewrite cmd_parse_body by done. by destruct s.
Qed.

Lemma Serialize_length s raw : Serialize s = Some raw -> Z.of_nat (length raw) = ByteSize s.
Proof.
  destruct s as [s|s|s]; simpl.
  - unfold data_Serialize, data_ByteSize. destruct (d_payload s) as [p|]; cbn [mbind option_bind]; [|done]. intros Hraw%(inj Some). subst raw.
    rewrite !length_app, !length_put32, !length_put16. simpl. lia.
  - intros Hraw%(inj Some). subst raw. unfold ack_Serialize, ack_ByteSize.
    rewrite !length_app, !length_put32, !length_put16, length_numbers. simpl. lia.
  - intros Hraw%(inj Some). subst raw. unfold cmd_Serialize, cmd_ByteSize. rewrite !length_app, !length_put32, !length_put16. done.
Qed.

Lemma segment_ok_Serialize s : segment_ok s -> is_Some (Serialize s).
Proof.
  destruct s as [s|s|s]; simpl; [|by eexists..]. intros (_ & _ & _ & _ & _ & p & Hp & _).
  unfold data_Serialize. rewrite Hp. by eexists.
Qed.

(** ** Reading always makes progress *)

Lemma parse_numbers_rest count s buf : (parse_numbers count s buf).2 = drop (count * 4) buf.
Proof.
  revert s buf. induction count as [|n IH]; intros s buf; [done|]. cbn [parse_numbers]. rewrite IH, drop_drop. f_equal.
Qed.

(** What is left is a proper suffix of the packet. *)
Lemma ReadSegment_suffix b s rest :
  ReadSegment b = Some (s, rest) -> exists n, (4 <= n <= length b)%nat /\ rest = drop n b.
Proof.
  unfold ReadSegment. destruct (Z.ltb_spec (Z.of_nat (length b)) 4) as [|Hl]; [done|].
  rewrite drop_drop. simpl Nat.add. generalize (byte_to_Z (drop 2 b !!! 0%nat)). intros cmd.
  repeat case_decide.
  - intros Hp. apply fmap_Some in Hp as ([d x] & Hp & [= -> ->]). unfold data_parse in Hp.
    destruct (Z.ltb_spec (Z.of_nat (length (drop 4 b))) 15) as [|Hl2]; [done|]. rewrite length_drop in Hl2.
    rewrite !drop_drop in Hp. simpl in Hp.
    destruct (Nat.ltb_spec (length (drop 18 b)) (Z.to_nat (get16 (drop 16 b)))) as [|Hle]; [done|].
    rewrite length_drop in Hle. apply (inj Some), (f_equal snd) in Hp. cbn [snd] in Hp. rewrite <-Hp.
    eexists. split; [|reflexivity]. lia.
  - intros Hp. apply fmap_Some in Hp as ([d x] & Hp & [= -> ->]). unfold ack_parse in Hp.
    destruct (Z.ltb_spec (Z.of_nat (length (drop 4 b))) 13) as [|Hl2]; [done|]. rewrite length_drop in Hl2.
    rewrite !drop_drop in Hp. simpl in Hp.
    destruct (Nat.ltb_spec (length (drop 17 b)) (Z.to_nat (byte_to_Z (drop 16 b !!! 0%nat)) * 4)) as [|Hle]; [done|].
    rewrite length_drop in Hle. apply (inj Some), (f_equal snd) in Hp. rewrite parse_numbers_rest in Hp.
    cbn [snd] in Hp. rewrite drop_drop in Hp. rewrite <-Hp. eexists. split; [|reflexivity]. lia.
  - intros Hp. apply fmap_Some in Hp as ([d x] & Hp & [= -> ->]). unfold cmd_parse in Hp.
    destruct (Z.ltb_spec (Z.of_nat (length (drop 4 b))) 12) as [|Hl2]; [done|]. rewrite length_drop in Hl2.
    rewrite !drop_drop in Hp. apply (inj Some), (f_equal snd) in Hp. cbn [snd] in Hp. rewrite <-Hp. exists 16%nat. split; [lia|done].
Qed.

(** The length of the packet is enough fuel for the reader's loop. *)
Lemma read_segments_fuel fuel b : (length b <= fuel)%nat -> read_segments fuel b = read_segments (length b) b.
Proof.
  remember (length b) as n eqn:Hn. revert fuel b Hn. induction n as [n IH] using lt_wf_ind.
  intros fuel b -> Hf. destruct b as [|x b]; [by destruct fuel|]. destruct fuel as [|fuel]; [simpl in Hf; lia|].
  cbn [length read_segments]. destruct (ReadSegment (x :: b)) as [[s rest]|] eqn:E; [|done]. f_equal.
  apply ReadSegment_suffix in E as (k & Hk & ->). cbn [length] in Hk, Hf.
  assert (length (drop k (x :: b)) < S (length b))%nat as Hlt by (rewrite length_drop; simpl; lia).
  rewrite (IH _ Hlt fuel _ eq_refl) by lia. rewrite (IH _ Hlt (length b) _ eq_refl) by lia. done.
Qed.

Lemma read_segments_concat segs raws fuel :
  Forall segment_ok segs -> Forall2 (fun s raw => Serialize s = Some raw) segs raws ->
  (length (concat raws) <= fuel)%nat ->
  read_segments fuel (concat raws) = received <$> segs.
Proof.
  intros Hok Hser. revert fuel Hok. induction Hser as [|s raw segs raws Hs _ IH]; intros fuel Hok Hf.
  { simpl. by destruct fuel. }
  apply Forall_cons in Hok as [Hs1 Hok]. cbn [concat] in *.
  pose proof (Serialize_length _ _ Hs) as Hl.
  assert (2 <= ByteSize s) as Hb by (destruct s; unfold ByteSize, data_ByteSize, ack_ByteSize, cmd_ByteSize; lia).
  rewrite length_app in Hf. destruct fuel as [|fuel]; [lia|]. cbn [read_segments].
  destruct (raw ++ concat raws) as [|y ys] eqn:E.
  { apply (f_equal length) in E. rewrite length_app in E. simpl in E. lia. }
  rewrite <-E, (segment_roundtrip _ _ _ Hs1 Hs), fmap_cons, IH by (done || lia). done.
Qed.

(** ** The xor chain *)

Lemma xor_byte_cancel a b : xor_byte (xor_byte a b) b = a.
Proof.
  unfold xor_byte. apply (inj byte_to_Z). rewrite !byte_to_of_Z. unfold u8.
  assert (forall x y, 0 <= x < 256 -> 0 <= y < 256 -> 0 <= Z.lxor x y < 256) as Hx.
  { intros x y Hx Hy. split; [apply Z.lxor_nonneg; lia|]. destruct (decide (Z.lxor x y = 0)) as [->|Hne]; [lia|].
    assert (0 <= Z.lxor x y) by (apply Z.lxor_nonneg; lia).
    change 256 with (2 ^ 8). apply Z.log2_lt_pow2; [lia|].
    pose proof (Z.log2_lxor x y ltac:(lia) ltac:(lia)) as Hl.
    assert (forall z, 0 <= z < 256 -> Z.log2 z < 8) as Hz.
    { intros z Hz. destruct (decide (z = 0)) as [->|]; [done|]. apply Z.log2_lt_pow2; lia. }
    pose proof (Hz x Hx). pose proof (Hz y Hy). lia. }
  pose proof (byte_to_Z_range a) as Ha. pose proof (byte_to_Z_range b) as Hb.
  rewrite !(Z.mod_small _ (2 ^ 8)); [|by apply Hx..|].
  - by rewrite Z.lxor_assoc, Z.lxor_nilpotent, Z.lxor_0_r.
  - apply Hx; [|done]. rewrite Z.mod_small by (by apply Hx). by apply Hx.
Qed.

Abbreviation chain_step := (fun (x : bytes) (i : nat) => <[i := xor_byte (x !!! i) (x !!! (i - 4)%nat)]> x).

(** Undoing the steps in reverse order. *)
Lemma chain_undo is_ x : Forall (fun i => (4 <= i < length x)%nat) is_ ->
  foldl chain_step (foldl chain_step x is_) (rev is_) = x.
Proof.
  revert x. induction is_ as [|i is_ IH] using rev_ind; intros x Hi; [done|].
  apply Forall_app in Hi as [Hi [Hi0 _]%Forall_cons].
  rewrite rev_snoc, foldl_snoc. cbn [foldl]. transitivity (foldl chain_step (foldl chain_step x is_) (rev is_)); [f_equal|by apply IH].
  set (y := foldl chain_step x is_).
  assert (length y = length x) as Hl.
  { unfold y. clear. revert x. induction is_ as [|j is_ IH] using rev_ind; intros x; [done|].
    by rewrite foldl_snoc, length_insert, IH. }
  rewrite list_lookup_total_insert_eq, list_lookup_total_insert_ne by lia.
  rewrite xor_byte_cancel, list_insert_insert_eq. apply list_insert_id. apply list_lookup_lookup_total_lt. lia.
Qed.

Lemma chain_redo is_ x : Forall (fun i => (4 <= i < length x)%nat) is_ ->
  foldl chain_step (foldl chain_step x (rev is_)) is_ = x.
Proof.
  intros Hi. rewrite <-(rev_involutive is_) at 2. apply chain_undo. by apply Forall_rev_iff.
Qed.

Lemma chain_length is_ x : length (foldl chain_step x is_) = length x.
Proof. revert x. induction is_ as [|j is_ IH]; intros x; [done|]. cbn [foldl]. by rewrite IH, length_insert. Qed.

(** The chain on a prefix is the prefix of the chain. *)
Lemma chain_app is_ x y : Forall (fun i => (4 <= i < length x)%nat) is_ ->
  foldl chain_step (x ++ y) is_ = foldl chain_step x is_ ++ y.
Proof.
  revert x. induction is_ as [|i is_ IH]; intros x Hi; [done|]. apply Forall_cons in Hi as [Hi0 Hi]. cbn [foldl].
  rewrite insert_app_l, !lookup_total_app_l by lia. apply IH. by rewrite length_insert.
Qed.

Lemma chain_high n is_ x : Forall (fun i => (n <= i)%nat) is_ ->
  take n (foldl chain_step x is_) = take n x.
Proof.
  revert x. induction is_ as [|i is_ IH]; intros x Hi; [done|]. apply Forall_cons in Hi as [Hi0 Hi]. cbn [foldl].
  rewrite IH by done. by apply take_insert_ge.
Qed.

Lemma seq_in_range n : (4 <= n)%nat -> Forall (fun i => (4 <= i < n)%nat) (seq 4 (n - 4)).
Proof. intros Hn. apply Forall_forall. intros i Hi%elem_of_seq. lia. Qed.

(** Padding to whole words does not matter: the chain runs forwards. *)
Lemma xorfwd_pad d : (4 <= length d)%nat -> take (length d) (xorfwd (pad4 d)) = xorfwd d.
Proof.
  intros Hd. unfold pad4. case_decide as Hx; [unfold xorfwd; rewrite take_ge; [done|by rewrite chain_length]|].
  generalize (replicate (4 - length d mod 4) x00). intros z. unfold xorfwd. rewrite length_app.
  replace (length d + length z - 4)%nat with ((length d - 4) + length z)%nat by lia.
  rewrite seq_app, foldl_app, chain_high.
  - rewrite chain_app by (by apply seq_in_range). rewrite take_app_le, take_ge by (by rewrite chain_length). done.
  - apply Forall_forall. intros i Hi%elem_of_seq. lia.
Qed.

Lemma xorbkd_pad d : (4 <= length d)%nat -> take (length d) (xorbkd (pad4 d)) = xorbkd d.
Proof.
  intros Hd. unfold pad4. case_decide as Hx; [unfold xorbkd; rewrite take_ge; [done|by rewrite chain_length]|].
  generalize (replicate (4 - length d mod 4) x00). intros z. unfold xorbkd. rewrite length_app.
  replace (length d + length z - 4)%nat with ((length d - 4) + length z)%nat by lia.
  rewrite seq_app, rev_app_distr, foldl_app.
  set (y := foldl chain_step (d ++ z) (rev (seq (4 + (length d - 4)) (length z)))).
  assert (exists z', y = d ++ z') as [z' ->].
  { exists (drop (length d) y). rewrite <-(take_drop (length d) y) at 1. f_equal.
    unfold y. rewrite chain_high; [by rewrite take_app_length|].
    apply Forall_rev_iff, Forall_forall. intros i Hi%elem_of_seq. lia. }
  rewrite chain_app by (by apply Forall_rev_iff, seq_in_range).
  rewrite take_app_le, take_ge by (by rewrite chain_length). done.
Qed.

Lemma xorbkd_xorfwd d : (4 <= length d)%nat -> xorbkd (xorfwd d) = d.
Proof. intros Hd. unfold xorbkd, xorfwd. rewrite chain_length. by apply chain_undo, seq_in_range. Qed.

Lemma xorfwd_xorbkd d : (4 <= length d)%nat -> xorfwd (xorbkd d) = d.
Proof. intros Hd. unfold xorbkd, xorfwd. rewrite chain_length. by apply chain_redo, seq_in_range. Qed.

(** ** The authenticator *)

Lemma fnv32a_range data : u32_ok (fnv32a data).
Proof.
  unfold fnv32a, u32_ok. induction data as [|c data IH] using rev_ind; [simpl; lia|].
  rewrite foldl_snoc. apply u32_range.
Qed.

Definition sealed (plain : bytes) : bytes :=
  let body := put16 (Z.of_nat (length plain)) ++ plain in put32 (fnv32a body) ++ body.

Lemma length_sealed plain : length (sealed plain) = (6 + length plain)%nat.
Proof. unfold sealed. by rewrite !length_app, length_put32, length_put16. Qed.

Lemma simple_Seal_xorfwd plain : simple_Seal plain = xorfwd (sealed plain).
Proof. unfold simple_Seal. fold (sealed plain). apply xorfwd_pad. rewrite length_sealed. lia. Qed.

Lemma length_simple_Seal plain : length (simple_Seal plain) = (6 + length plain)%nat.
Proof. rewrite simple_Seal_xorfwd. unfold xorfwd. by rewrite chain_length, length_sealed. Qed.

Lemma simple_Open_Seal plain : Z.of_nat (length plain) < 2 ^ 16 -> simple_Open (simple_Seal plain) = Ok plain.
Proof.
  intros Hl. unfold simple_Open. pose proof (length_simple_Seal plain) as Hs.
  rewrite xorbkd_pad by lia. rewrite simple_Seal_xorfwd, xorbkd_xorfwd by (rewrite length_sealed; lia).
  rewrite length_sealed. destruct (Nat.ltb_spec (6 + length plain) 4); [lia|].
  unfold sealed. read_fields. rewrite u32_small by apply fnv32a_range.
  rewrite decide_False by (intros Hn; by apply Hn).
  destruct (Nat.ltb_spec (6 + length plain) 6); [lia|]. rewrite u16_small by lia.
  rewrite decide_False by lia. done.
Qed.

(** Whatever the authenticator accepts is its own encoding of the result. *)
Lemma simple_Open_inv c plain : simple_Open c = Ok plain -> c = simple_Seal plain.
Proof.
  unfold simple_Open. destruct (Nat.ltb_spec (length (take (length c) (xorbkd (pad4 c)))) 4) as [|Hl]; [done|].
  rewrite length_take in Hl. rewrite xorbkd_pad by lia. set (d := xorbkd c).
  assert (length d = length c) as Hd by apply chain_length.
  case_decide as Hh; [done|]. destruct (Nat.ltb_spec (length d) 6) as [|Hl6]; [done|].
  case_decide as Hn; [done|]. intros Hp%(inj Ok). subst plain.
  rewrite simple_Seal_xorfwd, <-(xorfwd_xorbkd c) at 1 by lia. f_equal. fold d. unfold sealed.
  rewrite length_drop. replace (Z.of_nat (length d - 6)) with (Z.of_nat (length d) - 6) by lia. rewrite Hn.
  assert (put16 (get16 (drop 4 d)) ++ drop 6 d = drop 4 d) as Hb.
  { unfold put16, get16. rewrite be_split_combine by (rewrite length_take, length_drop; lia).
    change 6%nat with (4 + 2)%nat. rewrite <-drop_drop. apply take_drop. }
  rewrite Hb, <-Hh. unfold put32, get32. rewrite be_split_combine by (rewrite length_take; lia).
  symmetry. apply take_drop.
Qed.

#[export] Instance SimpleAuthenticator_laws : AEADLaws SimpleAuthenticator (Z.to_nat (2 ^ 16 - 1)).
Proof.
  split.
  - intros nonce plain. apply length_simple_Seal.
  - intros nonce nonce' plain Hl _. apply simple_Open_Seal. lia.
Qed.

(** ** Packets *)

Lemma packet_roundtrip header security limit random segs raws wire :
  (match security with Some A => AEADLaws A limit | None => True end) ->
  (match security with Some A => length random = @NonceSize A | None => True end) ->
  Forall segment_ok segs -> Forall2 (fun s raw => Serialize s = Some raw) segs raws ->
  segs ≠ [] -> (length (concat raws) <= limit)%nat ->
  (length (default [] header) + length (concat raws) <= Z.to_nat Size)%nat ->
  packet_Write header security random (concat raws) = Ok wire ->
  packet_Read (length <$> header) security wire = Ok (received <$> segs).
Proof.
  intros Hlaws Hrand Hok Hser Hne Hlim Hcap Hw.
  assert (0 < length (concat raws))%nat as Hpos.
  { destruct Hser as [|s raw segs' raws' Hs _]; [done|]. cbn [concat]. rewrite length_app.
    pose proof (Serialize_length _ _ Hs) as Hl.
    assert (2 <= ByteSize s) by (destruct s; unfold ByteSize, data_ByteSize, ack_ByteSize, cmd_ByteSize; lia). lia. }
  set (b := concat raws) in *.
  assert (read_segments (length b) b = received <$> segs) as Hread by (by apply read_segments_concat).
  unfold packet_Write in Hw. set (h := default [] header) in *.
  assert (forall payload, (0 < length payload)%nat -> wire = h ++ payload ->
    (match length <$> header with
     | Some size => if (length wire <=? size)%nat then None else Some (drop size wire)
     | None => Some wire end) = Some payload) as Hhdr.
  { intros payload Hp ->. unfold h. destruct header as [hd|]; [|done]. simpl.
    rewrite length_app. destruct (Nat.leb_spec (length hd + length payload) (length hd)); [lia|].
    by rewrite drop_app_length. }
  destruct (Nat.ltb_spec (Z.to_nat Size) (length h)) as [|Hh]; [done|]. unfold packet_Read.
  destruct security as [A|].
  - destruct (Nat.ltb_spec (Z.to_nat Size) (length h + NonceSize)) as [|_]; [done|].
    cbv zeta in Hw. match type of Hw with context [if ?c then Panic else _] => destruct c; [done|] end.
    apply (inj Ok) in Hw.
    set (nonce := if decide _ then _ else _) in Hw. rewrite (take_ge random) in Hw by lia.
    rewrite <-(assoc_L (++)) in Hw.
    pose proof (Seal_length nonce b) as Hsl.
    rewrite (Hhdr (random ++ Seal nonce b)); [|rewrite length_app; lia|done].
    rewrite length_app, Hsl, Hrand.
    destruct (Nat.leb_spec (NonceSize + (Overhead + length b)) (NonceSize + Overhead)); [lia|].
    rewrite take_app_le, take_ge, drop_app_ge, Hrand, Nat.sub_diag, drop_0 by lia.
    assert (Open random (Seal nonce b) = Ok b) as ->; [|by rewrite Hread].
    apply (Open_Seal nonce random b Hlim). unfold nonce. case_decide as Hz; [by left|right].
    rewrite (take_ge random) by lia. rewrite length_app, Hrand. rewrite drop_app_ge by lia.
    replace (length h + NonceSize - NonceSize - length h)%nat with 0%nat by lia. apply drop_0.
  - apply (inj Ok) in Hw. rewrite take_ge in Hw by lia. rewrite (Hhdr b) by done. by rewrite Hread.
Qed.

(** ** Configuration *)

Lemma in_flight_at_least_8 capacity c size : in_flight_size capacity c = Some size -> 8 <= size.
Proof.
  unfold in_flight_size. destruct (udiv (u32 (u32 (capacity * 1024) * 1024)) (GetMTUValue c)) as [a|]; [|done]. cbn [mbind option_bind].
  destruct (udiv 1000 (GetTTIValue c)) as [r|]; [|done]. cbn [mbind option_bind].
  destruct (udiv a r) as [s|]; [|done]. cbn [mbind option_bind]. intros [= <-]. destruct (Z.ltb_spec s 8); lia.
Qed.

Lemma in_flight_panics capacity c : 1000 < GetTTIValue c -> in_flight_size capacity c = None.
Proof.
  intros Ht. unfold in_flight_size. destruct (udiv _ (GetMTUValue c)) as [a|]; [|done]. cbn [mbind option_bind].
  assert (udiv 1000 (GetTTIValue c) = Some 0) as ->; [|done].
  unfold udiv. rewrite decide_False by lia. by rewrite Z.div_small by lia.
Qed.

(** ** Properties *)

(** Every segment with fields of Go's widths, a non-empty payload of at
    most 16K or at most 255 acknowledged numbers, is read back from its
    serialization, which is as long as ByteSize says, and reading leaves
    whatever follows it in the packet. *)
Theorem segment_read_write s raw rest :
  segment_ok s -> Serialize s = Some raw ->
  Z.of_nat (length raw) = ByteSize s /\ ReadSegment (raw ++ rest) = Some (received s, rest).
Proof. intros Hok Hs. split; [by apply Serialize_length|by apply segment_roundtrip]. Qed.

(** ReadSegment always consumes at least the four header bytes and never
    reads past the packet, on arbitrary bytes, so the packet reader's loop
    ends: the packet's length is enough fuel. *)
Theorem read_segment_progress b :
  (forall s rest, ReadSegment b = Some (s, rest) -> exists n, (4 <= n <= length b)%nat /\ rest = drop n b) /\
  (forall fuel, (length b <= fuel)%nat -> read_segments fuel b = read_segments (length b) b).
Proof. split; [apply ReadSegment_suffix|intros; by apply read_segments_fuel]. Qed.

(** C33: a packet written with any header and any lawful AEAD, or without
    them, is read back as the segments it was made of, when there is one, the
    packet fits the AEAD's limit and with its header a buffer of 16 KiB, no
    data segment has an empty payload (the parser takes such a segment for a
    broken one, and does not read what follows), no acknowledgement has more
    than 255 numbers, and every field fits its width. *)
Theorem packet_read_write header security limit random segs raws wire :
  (match security with Some A => AEADLaws A limit | None => True end) ->
  (match security with Some A => length random = @NonceSize A | None => True end) ->
  Forall segment_ok segs -> Forall2 (fun s raw => Serialize s = Some raw) segs raws ->
  segs ≠ [] -> (length (concat raws) <= limit)%nat ->
  (length (default [] header) + length (concat raws) <= Z.to_nat Size)%nat ->
  packet_Write header security random (concat raws) = Ok wire ->
  packet_Read (length <$> header) security wire = Ok (received <$> segs).
Proof. apply packet_roundtrip. Qed.

(** The legacy authenticator opens what it sealed, for plaintexts whose
    length fits its 16-bit field, and accepts nothing else: an accepted text
    is the sealed form of the plaintext returned. *)
Theorem simple_authenticator_exact c plain :
  Z.of_nat (length plain) < 2 ^ 16 -> simple_Open c = Ok plain <-> c = simple_Seal plain.
Proof. intros Hl. split; [apply simple_Open_inv|]. intros ->. by apply simple_Open_Seal. Qed.

Definition sample_data : Segment := SegData {|
  d_Conv := 513; d_Option := 0; d_Timestamp := 7; d_Number := 3; d_SendingNext := 2;
  d_payload := Some (bs "hello"); d_timeout := 99; d_transmit := 1 |}.
Definition sample_ack : Segment := SegAck {|
  a_Conv := 513; a_Option := 1; a_ReceivingWindow := 40; a_ReceivingNext := 8; a_Timestamp := 7;
  a_NumberList := [4; 5] |}.

Lemma sample_segments_ok : Forall segment_ok [sample_data; sample_ack].
Proof.
  assert (u32_ok 4 /\ u32_ok 5) as [? ?] by (unfold u32_ok; lia).
  repeat constructor; simpl; unfold Size; try lia. exists (bs "hello"). split; [done|]. split; [done|]. simpl. lia.
Qed.

Lemma segment_read_write_witness :
  ReadSegment (default [] (Serialize sample_data) ++ [x01]) = Some (received sample_data, [x01]).
Proof.
  refine (proj2 (segment_read_write sample_data (default [] (Serialize sample_data)) [x01] _ _)).
  - exact (Forall_inv sample_segments_ok).
  - apply some_default. vm_compute. reflexivity.
Defined.

Lemma packet_read_write_witness :
  packet_Read (Some 2%nat) (Some SimpleAuthenticator)
    (match packet_Write (Some [x01; x02]) (Some SimpleAuthenticator) []
       (default [] (Serialize sample_data) ++ default [] (Serialize sample_ack)) with Ok w => w | _ => [] end)
  = Ok (received <$> [sample_data; sample_ack]).
Proof.
  refine (packet_read_write (Some [x01; x02]) (Some SimpleAuthenticator) (Z.to_nat (2 ^ 16 - 1)) [] [sample_data; sample_ack]
    [default [] (Serialize sample_data); default [] (Serialize sample_ack)] _ _ _ _ _ _ _ _ _).
  - apply SimpleAuthenticator_laws.
  - reflexivity.
  - apply sample_segments_ok.
  - repeat constructor; apply some_default; vm_compute; reflexivity.
  - discriminate.
  - apply Nat.leb_le. vm_compute. reflexivity.
  - apply Nat.leb_le. vm_compute. reflexivity.
  - vm_compute. reflexivity.
Defined.

Lemma simple_authenticator_exact_witness : simple_Open (simple_Seal (bs "hi")) = Ok (bs "hi").
Proof. refine (proj2 (simple_authenticator_exact _ (bs "hi") _) _); reflexivity. Defined.
