(* ===== verification/Buffer.v ===== *)
(** * Buffers, [common/buf/buffer.go] and [multi_buffer.go]

    [Buffer] is a byte array with two 32-bit cursors; a slice the code hands
    out is the pair of its bounds, since it aliases the array.  [MultiBuffer]
    is a list of buffers, each owned by one list.  The facts give every
    operation its effect on the content, the bytes between the cursors. *)

From S2P Require Import Prelude Net Segment.

Local Open Scope Z_scope.

(** ** Buffer *)

(** src/common/buf/buffer.go:17-24 ownership *)
Inductive ownership := managed | unmanaged | bytespools.

(** [v] is [None] for a nil slice, which a released buffer has.
    src/common/buf/buffer.go:26-35 Buffer *)
Record Buffer := { v : option bytes; start : Z; end_ : Z; owner : ownership; Endpoint : option Destination }.

Definition arr (b : Buffer) : bytes := default [] (v b).
Definition cap (b : Buffer) : Z := Z.of_nat (length (arr b)).

(** [pool.Get()] returns any array of [Size] bytes.
    src/common/buf/buffer.go New *)
Definition New (garbage : bytes) : Buffer := {| v := Some garbage; start := 0; end_ := 0; owner := managed; Endpoint := None |}.

(** The lengths of the pooled arrays.
    src/common/bytespool/pool.go:16-39 init *)
Definition poolSize : list Z := [16384; 65536; 262144; 1048576].

(** The pool is the first whose arrays are long enough.
    src/common/bytespool/pool.go GetPool *)
Fixpoint GetPool (pools : list Z) (size : Z) : option Z :=
  match pools with [] => None | ps :: pools' => if size <=? ps then Some ps else GetPool pools' size end.

(** The length of the array that [Alloc] gives for [size] bytes.  An array
    that is given back longer than its pool's comes out as long again.
    src/common/bytespool/pool.go Alloc *)
Definition Alloc_length (size : Z) : Z := default size (GetPool poolSize size).

(** The array is what [Alloc] gives.
    src/common/buf/buffer.go NewWithSize *)
Definition NewWithSize (garbage : bytes) : Buffer :=
  {| v := Some garbage; start := 0; end_ := 0; owner := bytespools; Endpoint := None |}.

(** src/common/buf/buffer.go StackNew *)
Definition StackNew (garbage : bytes) : Buffer := {| v := Some garbage; start := 0; end_ := 0; owner := managed; Endpoint := None |}.

(** src/common/buf/buffer.go FromBytes *)
Definition FromBytes (data : bytes) : Buffer :=
  {| v := Some data; start := 0; end_ := i32 (Z.of_nat (length data)); owner := unmanaged; Endpoint := None |}.

(** src/common/buf/buffer.go Buffer.Clear *)
Definition Clear (b : Buffer) : Buffer := {| v := v b; start := 0; end_ := 0; owner := owner b; Endpoint := Endpoint b |}.

(** The array goes back to its pool.
    src/common/buf/buffer.go Buffer.Release *)
Definition Release (b : Buffer) : Buffer :=
  match v b, owner b with
  | None, _ | _, unmanaged => b
  | Some _, _ => {| v := None; start := 0; end_ := 0; owner := owner b; Endpoint := None |}
  end.

Definition set_cursors (b : Buffer) (s e : Z) : Buffer := {| v := v b; start := s; end_ := e; owner := owner b; Endpoint := Endpoint b |}.
Definition set_endpoint (b : Buffer) (e : option Destination) : Buffer :=
  {| v := v b; start := start b; end_ := end_ b; owner := owner b; Endpoint := e |}.
Definition set_array (b : Buffer) (a : bytes) : Buffer :=
  {| v := match v b with Some _ => Some a | None => None end; start := start b; end_ := end_ b; owner := owner b; Endpoint := Endpoint b |}.

(** src/common/buf/buffer.go Buffer.Len *)
Definition Len (b : Buffer) : Z := i32 (end_ b - start b).
(** src/common/buf/buffer.go Buffer.Cap *)
Definition Cap (b : Buffer) : Z := i32 (cap b).
(** src/common/buf/buffer.go Buffer.Available *)
Definition Available (b : Buffer) : Z := i32 (i32 (cap b) - end_ b).
(** src/common/buf/buffer.go Buffer.IsEmpty *)
Definition IsEmpty (b : Buffer) : bool := Len b =? 0.
(** src/common/buf/buffer.go Buffer.IsFull *)
Definition IsFull (b : Buffer) : bool := end_ b =? i32 (cap b).

(** Indexing; [Panic] is out of range.
    src/common/buf/buffer.go Buffer.Byte *)
Definition Byte (b : Buffer) (index : Z) : outcome unit byte :=
  let i := i32 (start b + index) in
  if decide (0 <= i < cap b) then Ok (arr b !!! Z.to_nat i) else Panic.

(** src/common/buf/buffer.go Buffer.SetByte *)
Definition SetByte (b : Buffer) (index : Z) (value : byte) : outcome unit Buffer :=
  let i := i32 (start b + index) in
  if decide (0 <= i < cap b) then Ok (set_array b (<[Z.to_nat i := value]> (arr b))) else Panic.

Definition slice_of (b : Buffer) (lo hi : Z) : outcome unit bytes :=
  match slice lo hi (arr b) with Some x => Ok x | None => Panic end.

(** src/common/buf/buffer.go Buffer.Bytes *)
Definition Bytes (b : Buffer) : outcome unit bytes := slice_of b (start b) (end_ b).

(** The extended buffer and the bounds of the new part.
    src/common/buf/buffer.go Buffer.Extend *)
Definition Extend (b : Buffer) (n : Z) : outcome unit (Buffer * (Z * Z)) :=
  let e := i32 (end_ b + n) in
  if decide (e > i32 (cap b)) then Panic
  else _ ← slice_of b (end_ b) e; Ok (set_cursors b (start b) e, (end_ b, e)).

Definition from_end (b : Buffer) (i : Z) : Z := if i <? 0 then i32 (i + Len b) else i.

(** src/common/buf/buffer.go Buffer.BytesRange *)
Definition BytesRange (b : Buffer) (from to : Z) : outcome unit bytes :=
  slice_of b (i32 (start b + from_end b from)) (i32 (start b + from_end b to)).
(** src/common/buf/buffer.go Buffer.BytesFrom *)
Definition BytesFrom (b : Buffer) (from : Z) : outcome unit bytes :=
  slice_of b (i32 (start b + from_end b from)) (end_ b).
(** src/common/buf/buffer.go Buffer.BytesTo *)
Definition BytesTo (b : Buffer) (to : Z) : outcome unit bytes :=
  slice_of b (start b) (i32 (start b + from_end b to)).

(** src/common/buf/buffer.go Buffer.Resize *)
Definition Resize (b : Buffer) (from to : Z) : outcome unit Buffer :=
  let from := from_end b from in
  let to := from_end b to in
  if to <? from then Panic
  else Ok (set_cursors b (i32 (start b + from)) (i32 (start b + to))).

(** src/common/buf/buffer.go Buffer.Advance *)
Definition Advance (b : Buffer) (from : Z) : Buffer :=
  set_cursors b (i32 (start b + from_end b from)) (end_ b).

(** Go's [copy] into the array from position [at_].
    src/common/buf/buffer.go Buffer.Write *)
Definition Write (b : Buffer) (data : bytes) : outcome unit (Buffer * Z) :=
  _ ← slice_of b (end_ b) (cap b);
  let nBytes := Nat.min (length (arr b) - Z.to_nat (end_ b)) (length data) in
  let b' := set_array b (splice (Z.to_nat (end_ b)) (take nBytes data) (arr b)) in
  Ok (set_cursors b' (start b) (i32 (end_ b + Z.of_nat nBytes)), Z.of_nat nBytes).

(** src/common/buf/buffer.go Buffer.WriteByte *)
Definition WriteByte (b : Buffer) (x : byte) : outcome unit Buffer :=
  if IsFull b then Err tt
  else if decide (0 <= end_ b < cap b) then
    Ok (set_cursors (set_array b (<[Z.to_nat (end_ b) := x]> (arr b))) (start b) (i32 (end_ b + 1)))
  else Panic.

(** src/common/buf/buffer.go Buffer.WriteString *)
Definition WriteString (b : Buffer) (s : bytes) : outcome unit (Buffer * Z) := Write b s.

(** src/common/buf/buffer.go Buffer.ReadByte *)
Definition ReadByte (b : Buffer) : outcome unit (Buffer * byte) :=
  if start b =? end_ b then Err tt
  else if decide (0 <= start b < cap b) then
    Ok (set_cursors b (i32 (start b + 1)) (end_ b), arr b !!! Z.to_nat (start b))
  else Panic.

(** src/common/buf/buffer.go Buffer.ReadBytes *)
Definition ReadBytes (b : Buffer) (length : Z) : outcome unit (Buffer * bytes) :=
  if i32 (end_ b - start b) <? length then Err tt
  else nb ← slice_of b (start b) (i32 (start b + length));
       Ok (set_cursors b (i32 (start b + length)) (end_ b), nb).

(** Reading into a slice of [n] bytes: the bytes copied into it.
    src/common/buf/buffer.go Buffer.Read *)
Definition Read (b : Buffer) (n : nat) : outcome unit (Buffer * bytes) :=
  if Len b =? 0 then Err tt
  else content ← slice_of b (start b) (end_ b);
       let data := take n content in
       let nBytes := Z.of_nat (length data) in
       Ok (if i32 nBytes =? Len b then Clear b else set_cursors b (i32 (start b + nBytes)) (end_ b), data).

(** The reader fills the free part: [read n] is what it returns for a slice
    of [n] bytes, at most [n] bytes, and whether it failed.
    src/common/buf/buffer.go Buffer.ReadFrom *)
Definition ReadFrom (b : Buffer) (read : nat -> bytes * bool) : outcome unit (Buffer * Z * bool) :=
  _ ← slice_of b (end_ b) (cap b);
  let '(data, failed) := read (length (arr b) - Z.to_nat (end_ b))%nat in
  let b' := set_array b (splice (Z.to_nat (end_ b)) data (arr b)) in
  Ok (set_cursors b' (start b) (i32 (end_ b + Z.of_nat (length data))), Z.of_nat (length data), failed).

(** [io.ReadFull] into the next [size] bytes.
    src/common/buf/buffer.go Buffer.ReadFullFrom *)
Definition ReadFullFrom (b : Buffer) (read_full : nat -> bytes * bool) (size : Z) : outcome unit (Buffer * Z * bool) :=
  let e := i32 (end_ b + size) in
  if decide (e > i32 (cap b)) then Err tt
  else _ ← slice_of b (end_ b) e;
       let '(data, failed) := read_full (Z.to_nat (e - end_ b)) in
       let b' := set_array b (splice (Z.to_nat (end_ b)) data (arr b)) in
       Ok (set_cursors b' (start b) (i32 (end_ b + Z.of_nat (length data))), Z.of_nat (length data), failed).

(** src/common/buf/buffer.go Buffer.String *)
Definition String_ (b : Buffer) : outcome unit bytes := Bytes b.

(** ** MultiBuffer *)

Abbreviation MultiBuffer := (list Buffer).

(** Both results share [dest]'s array; the source slice becomes empty.
    src/common/buf/multi_buffer.go MergeMulti *)
Definition MergeMulti (dest src : MultiBuffer) : MultiBuffer * MultiBuffer := (dest ++ src, []).

(** The second loop of MergeBytes; each turn writes a full buffer or the rest.
    src/common/buf/multi_buffer.go:46-51 MergeBytes *)
Fixpoint merge_rest (fuel : nat) (garbage : bytes) (dest : MultiBuffer) (src : bytes) : outcome unit MultiBuffer :=
  match fuel, src with
  | S fuel', _ :: _ =>
      '(b, nBytes) ← Write (New garbage) src;
      merge_rest fuel' garbage (dest ++ [b]) (drop (Z.to_nat nBytes) src)
  | _, _ => Ok dest
  end.

(** src/common/buf/multi_buffer.go MergeBytes *)
Definition MergeBytes (garbage : bytes) (dest : MultiBuffer) (src : bytes) : outcome unit MultiBuffer :=
  match last dest with
  | Some b =>
      if negb (IsFull b) then
        '(b', nBytes) ← Write b src;
        let src' := drop (Z.to_nat nBytes) src in
        merge_rest (length src') garbage (take (length dest - 1) dest ++ [b']) src'
      else merge_rest (length src) garbage dest src
  | None => merge_rest (length src) garbage dest src
  end.

(** src/common/buf/multi_buffer.go ReleaseMulti *)
Definition ReleaseMulti (mb : MultiBuffer) : MultiBuffer := [].

(** What Copy stores into a slice of [n] bytes.
    src/common/buf/multi_buffer.go MultiBuffer.Copy *)
Fixpoint Copy (mb : MultiBuffer) (n : nat) : outcome unit bytes :=
  match mb with
  | [] => Ok []
  | bb :: mb' =>
      content ← Bytes bb;
      let data := take n content in
      if Z.of_nat (length data) <? Len bb then Ok data
      else rest ← Copy mb' (n - length data)%nat; Ok (data ++ rest)
  end.

(** The remaining list and the bytes stored into a slice of [n] bytes; the
    error of [Read] on an empty buffer is dropped.
    src/common/buf/multi_buffer.go SplitBytes *)
Fixpoint SplitBytes (mb : MultiBuffer) (n : nat) : outcome unit (MultiBuffer * bytes) :=
  match mb with
  | [] => Ok ([], [])
  | b :: mb' =>
      match Read b n with
      | Panic => Panic
      | Err _ => '(rest, data) ← SplitBytes mb' n; Ok (rest, data)
      | Ok (b', data) =>
          if negb (IsEmpty b') then Ok (b' :: mb', data)
          else '(rest, data') ← SplitBytes mb' (n - length data)%nat; Ok (rest, data ++ data')
      end
  end.

(** src/common/buf/multi_buffer.go SplitFirst *)
Definition SplitFirst (mb : MultiBuffer) : MultiBuffer * option Buffer :=
  match mb with [] => ([], None) | b :: mb' => (mb', Some b) end.

(** src/common/buf/multi_buffer.go SplitFirstBytes *)
Definition SplitFirstBytes (mb : MultiBuffer) (n : nat) : outcome unit (MultiBuffer * bytes) :=
  let '(mb', b) := SplitFirst mb in
  match b with
  | None => Ok (mb', [])
  | Some b => content ← Bytes b; Ok (mb', take n content)
  end.

(** The loop of Compact; [Must2] turns the end-of-file of an empty buffer
    into a panic.
    src/common/buf/multi_buffer.go:145-157 Compact *)
Fixpoint compact_loop (last : Buffer) (mb : MultiBuffer) : outcome unit MultiBuffer :=
  match mb with
  | [] => Ok [last]
  | curr :: mb' =>
      if Len curr >? Available last then rest ← compact_loop curr mb'; Ok (last :: rest)
      else
        _ ← slice_of last (end_ last) (cap last);
        match Read curr (length (arr last) - Z.to_nat (end_ last)) with
        | Ok (_, data) =>
            let last' := set_array last (splice (Z.to_nat (end_ last)) data (arr last)) in
            compact_loop (set_cursors last' (start last) (i32 (end_ last + Z.of_nat (length data)))) mb'
        | _ => Panic
        end
  end.

(** src/common/buf/multi_buffer.go Compact *)
Definition Compact (mb : MultiBuffer) : outcome unit MultiBuffer :=
  match mb with [] => Ok [] | last :: mb' => compact_loop last mb' end.

(** The whole buffers that fit into [size] bytes, and the rest.
    src/common/buf/multi_buffer.go:185-203 SplitSize *)
Fixpoint split_whole (mb : MultiBuffer) (totalBytes size : Z) : MultiBuffer * MultiBuffer :=
  match mb with
  | [] => ([], [])
  | b :: mb' =>
      if i32 (totalBytes + Len b) >? size then (mb, [])
      else let '(rest, r) := split_whole mb' (i32 (totalBytes + Len b)) size in (rest, b :: r)
  end.

(** The leftover and the split part.
    src/common/buf/multi_buffer.go SplitSize *)
Definition SplitSize (garbage : bytes) (mb : MultiBuffer) (size : Z) : outcome unit (MultiBuffer * MultiBuffer) :=
  match mb with
  | [] => Ok ([], [])
  | b0 :: mb' =>
      if Len b0 >? size then
        '(b, (lo, hi)) ← Extend (New garbage) size;
        data ← BytesTo b0 size;
        Ok (Advance b0 size :: mb', [set_array b (splice (Z.to_nat lo) (take (Z.to_nat (hi - lo)) data) (arr b))])
      else Ok (split_whole mb 0 size)
  end.

(** [write] is the underlying writer: whether it fails on these bytes. The
    bytes written so far, the leftover and the error.
    src/common/buf/multi_buffer.go WriteMultiBuffer *)
Fixpoint WriteMultiBuffer (write : bytes -> bool) (mb : MultiBuffer) : outcome unit (list bytes * MultiBuffer * bool) :=
  match mb with
  | [] => Ok ([], [], false)
  | b :: mb' =>
      content ← Bytes b;
      if write content then Ok ([content], mb', true)
      else '(ws, rest, failed) ← WriteMultiBuffer write mb'; Ok (content :: ws, rest, failed)
  end.

(** src/common/buf/multi_buffer.go MultiBuffer.Len *)
Definition MultiBuffer_Len (mb : MultiBuffer) : Z := foldl (fun size b => i32 (size + Len b)) 0 mb.

(** src/common/buf/multi_buffer.go MultiBuffer.IsEmpty *)
Definition MultiBuffer_IsEmpty (mb : MultiBuffer) : bool := forallb IsEmpty mb.

(** *** MultiBufferContainer *)

(** src/common/buf/multi_buffer.go MultiBufferContainer *)
Record MultiBufferContainer := { content_mb : MultiBuffer }.

(** src/common/buf/multi_buffer.go MultiBufferContainer.Read *)
Definition container_Read (c : MultiBufferContainer) (n : nat) : outcome unit (MultiBufferContainer * bytes) :=
  if MultiBuffer_IsEmpty (content_mb c) then Err tt
  else '(mb, data) ← SplitBytes (content_mb c) n; Ok ({| content_mb := mb |}, data).

(** src/common/buf/multi_buffer.go MultiBufferContainer.ReadMultiBuffer *)
Definition container_ReadMultiBuffer (c : MultiBufferContainer) : MultiBufferContainer * MultiBuffer :=
  ({| content_mb := [] |}, content_mb c).

(** src/common/buf/multi_buffer.go MultiBufferContainer.Write *)
Definition container_Write (garbage : bytes) (c : MultiBufferContainer) (b : bytes) : outcome unit MultiBufferContainer :=
  mb ← MergeBytes garbage (content_mb c) b; Ok {| content_mb := mb |}.

(** src/common/buf/multi_buffer.go MultiBufferContainer.WriteMultiBuffer *)
Definition container_WriteMultiBuffer (c : MultiBufferContainer) (b : MultiBuffer) : MultiBufferContainer :=
  {| content_mb := (MergeMulti (content_mb c) b).1 |}.

(** src/common/buf/multi_buffer.go MultiBufferContainer.Close *)
Definition container_Close (c : MultiBufferContainer) : MultiBufferContainer :=
  {| content_mb := ReleaseMulti (content_mb c) |}.
