(* ===== verification/BufferFacts.v ===== *)
(** * Facts about buffers

    On well-formed buffers every operation is a list operation on the
    content: writes append, reads remove from the front, and the list
    operations of [MultiBuffer] neither lose, duplicate nor reorder bytes. *)

From S2P Require Import Prelude Segment Buffer.

Local Open Scope Z_scope.

Record wf (b : Buffer) : Prop := {
  wf_cursors : 0 <= start b <= end_ b;
  wf_cap : end_ b <= cap b;
  wf_int : cap b < 2 ^ 31;
}.

(** The bytes between the cursors. *)
Definition content (b : Buffer) : bytes :=
  take (Z.to_nat (end_ b) - Z.to_nat (start b)) (drop (Z.to_nat (start b)) (arr b)).

Definition contents (mb : MultiBuffer) : bytes := mb ≫= content.

(** The free bytes behind the end. *)
Definition room (b : Buffer) : nat := (length (arr b) - Z.to_nat (end_ b))%nat.

Lemma length_content b : wf b -> Z.of_nat (length (content b)) = end_ b - start b.
Proof. intros [? ? ?]. unfold content, cap in *. rewrite length_take, length_drop. lia. Qed.

Lemma Len_content b : wf b -> Len b = Z.of_nat (length (content b)).
Proof. intros Hb. rewrite length_content by done. destruct Hb. unfold Len. apply i32_small. lia. Qed.

Lemma IsEmpty_content b : wf b -> IsEmpty b = bool_decide (content b = []).
Proof.
  intros Hb. unfold IsEmpty. rewrite Len_content by done. apply eq_true_iff_eq.
  rewrite Z.eqb_eq, bool_decide_eq_true. destruct (content b); simpl; [done|]. split; [lia|done].
Qed.

Lemma slice_of_ok b lo hi : 0 <= lo <= hi -> hi <= cap b ->
  slice_of b lo hi = Ok (take (Z.to_nat hi - Z.to_nat lo) (drop (Z.to_nat lo) (arr b))).
Proof. intros ? ?. unfold slice_of, slice, cap in *. by rewrite decide_True by lia. Qed.

Lemma Bytes_content b : wf b -> Bytes b = Ok (content b).
Proof. intros [? ? ?]. unfold Bytes. by rewrite slice_of_ok by lia. Qed.

Lemma arr_set_array b a : v b ≠ None -> arr (set_array b a) = a.
Proof. unfold arr, set_array. by destruct (v b). Qed.

Lemma arr_nil b : v b = None -> arr b = [].
Proof. unfold arr. by intros ->. Qed.

(** An array that [Alloc] may give for [size] bytes. *)
Definition pooled (size : Z) (garbage : bytes) : Prop := Alloc_length size <= Z.of_nat (length garbage) < 2 ^ 31.

Lemma wf_NewWithSize size g : pooled size g -> wf (NewWithSize g) /\ content (NewWithSize g) = [] /\ cap (NewWithSize g) = Z.of_nat (length g).
Proof. intros [_ Hg]. split; [split; unfold cap, NewWithSize, arr; simpl; lia|done]. Qed.

(** The sniffers ask for 32767 bytes. *)
Lemma pooled_sniff g : pooled 32767 g -> 65536 <= Z.of_nat (length g) < 2 ^ 31.
Proof. done. Qed.

Lemma pooled_replicate size x : Alloc_length size < 2 ^ 31 -> pooled size (replicate (Z.to_nat (Alloc_length size)) x).
Proof. intros Hs. unfold pooled. rewrite length_replicate. split; [lia|]. destruct (Z.le_gt_cases 0 (Alloc_length size)); lia. Qed.

Lemma wf_New g : length g = Z.to_nat Size -> wf (New g) /\ content (New g) = [].
Proof. intros Hg. unfold Size in Hg. split; [|done]. split; unfold cap, New, arr; simpl; lia. Qed.

Lemma wf_FromBytes d : Z.of_nat (length d) < 2 ^ 31 -> wf (FromBytes d) /\ content (FromBytes d) = d.
Proof.
  intros Hd. assert (end_ (FromBytes d) = Z.of_nat (length d)) as He by (apply i32_small; simpl; lia). split.
  - split; rewrite ?He; unfold cap, FromBytes, arr; simpl; lia.
  - unfold content. rewrite He. simpl. rewrite Nat.sub_0_r, Nat2Z.id. unfold FromBytes, arr. simpl.
    rewrite drop_0. by apply take_ge.
Qed.

Lemma wf_Clear b : wf b -> wf (Clear b) /\ content (Clear b) = [].
Proof. intros [? ? ?]. split; [|done]. split; unfold cap, Clear, arr in *; simpl in *; lia. Qed.

(** ** Writing *)

(** Storing [d] behind the end and moving the end over it. *)
Lemma fill_content b d e :
  wf b -> (length d <= room b)%nat -> e = end_ b + Z.of_nat (length d) ->
  let b' := set_cursors (set_array b (splice (Z.to_nat (end_ b)) d (arr b))) (start b) (i32 e) in
  wf b' /\ content b' = content b ++ d /\ room b' = (room b - length d)%nat.
Proof.
  intros [Hc He Hi] Hd ->. unfold room, cap in *. cbv zeta.
  destruct (v b) as [a|] eqn:Hv.
  2:{ assert (arr b = []) as Ha by (by apply arr_nil). rewrite Ha in *. simpl in *.
      assert (d = []) as -> by (destruct d; [done|simpl in *; lia]). simpl. rewrite Z.add_0_r, i32_small by lia.
      unfold set_cursors, set_array, content, room, arr. cbn [v start end_]. rewrite Hv. simpl. rewrite !drop_nil, take_nil.
      split; [split; unfold cap, arr; simpl; lia|]. split; [done|lia]. }
  assert (arr (set_cursors (set_array b (splice (Z.to_nat (end_ b)) d (arr b))) (start b) (i32 (end_ b + Z.of_nat (length d))))
    = splice (Z.to_nat (end_ b)) d (arr b)) as Ha.
  { unfold arr, set_cursors, set_array. cbn [v]. by rewrite Hv. }
  rewrite i32_small in * by lia. unfold content, room. rewrite Ha.
  split; [|split].
  - split; unfold cap; rewrite ?Ha; cbn [start end_ set_cursors]; rewrite ?length_splice; lia.
  - cbn [start end_ set_cursors]. unfold splice. rewrite drop_app_le by (rewrite length_take; lia).
    rewrite take_app_ge by (rewrite length_drop, length_take; lia).
    rewrite length_drop, length_take.
    replace (Z.to_nat (end_ b + Z.of_nat (length d)) - Z.to_nat (start b) - (Z.to_nat (end_ b) `min` length (arr b) - Z.to_nat (start b)))%nat
      with (length d) by lia.
    rewrite take_app_length, skipn_firstn_comm. done.
  - cbn [end_ set_cursors]. rewrite length_splice by lia. lia.
Qed.

Lemma Write_ok b data : wf b ->
  exists b', Write b data = Ok (b', Z.of_nat (Nat.min (room b) (length data))) /\
    wf b' /\ content b' = content b ++ take (room b) data /\ room b' = (room b - length data)%nat.
Proof.
  intros Hb. unfold Write. pose proof Hb as [Hc He Hi].
  rewrite slice_of_ok by lia. cbn [mbind outcome_bind]. fold (room b).
  set (n := Nat.min (room b) (length data)).
  assert (length (take n data) = n) as Hn by (rewrite length_take; lia).
  destruct (fill_content b (take n data) (end_ b + Z.of_nat n) Hb) as (Hw & Hct & Hr); [lia|lia|].
  eexists. split; [done|]. split; [done|]. split.
  - rewrite Hct. f_equal. unfold n. destruct (Nat.le_gt_cases (room b) (length data)).
    + by rewrite Nat.min_l by lia.
    + rewrite Nat.min_r by lia. by rewrite !take_ge by lia.
  - rewrite Hr, Hn. lia.
Qed.

Lemma WriteByte_ok b x : wf b -> v b ≠ None ->
  (room b = 0%nat /\ WriteByte b x = Err tt) \/
  exists b', WriteByte b x = Ok b' /\ wf b' /\ content b' = content b ++ [x].
Proof.
  intros Hb Hv. pose proof Hb as [Hc He Hi]. unfold WriteByte, IsFull, room. rewrite i32_small by (unfold cap in *; lia).
  unfold cap in *. destruct (Z.eqb_spec (end_ b) (Z.of_nat (length (arr b)))); [left; split; [lia|done]|right].
  rewrite decide_True by lia.
  destruct (fill_content b [x] (end_ b + 1) Hb) as (Hw & Hct & _); [unfold room; simpl; lia|simpl; lia|].
  eexists. split; [done|]. unfold splice in *.
  assert (<[Z.to_nat (end_ b):=x]> (arr b) = take (Z.to_nat (end_ b)) (arr b) ++ [x] ++ drop (Z.to_nat (end_ b) + length [x]) (arr b)) as ->; [|done].
  rewrite insert_take_drop by lia. simpl. do 3 f_equal. lia.
Qed.

(** ** Reading *)

(** Moving the start over [n] bytes. *)
Lemma advance_content b n : wf b -> (n <= length (content b))%nat ->
  wf (set_cursors b (start b + Z.of_nat n) (end_ b)) /\
  content (set_cursors b (start b + Z.of_nat n) (end_ b)) = drop n (content b).
Proof.
  intros Hb Hn. pose proof (length_content b Hb). destruct Hb as [Hc He Hi]. split.
  - split; unfold cap, arr in *; cbn [start end_ set_cursors v]; lia.
  - unfold content. cbn [start end_ set_cursors]. change (arr (set_cursors b _ _)) with (arr b).
    rewrite skipn_firstn_comm, drop_drop. f_equal; [lia|]. f_equal. lia.
Qed.

Lemma Read_empty b n : wf b -> content b = [] -> Read b n = Err tt.
Proof. intros Hb Hc. unfold Read. by rewrite Len_content, Hc. Qed.

Lemma Read_ok b n : wf b -> content b ≠ [] ->
  exists b', Read b n = Ok (b', take n (content b)) /\ wf b' /\ content b' = drop n (content b).
Proof.
  intros Hb Hne. unfold Read. pose proof (Len_content b Hb) as HL. rewrite HL.
  destruct (Z.eqb_spec (Z.of_nat (length (content b))) 0) as [H0|H0]; [destruct (content b); [done|simpl in *; lia]|].
  fold (Bytes b). rewrite Bytes_content by done. cbn [mbind outcome_bind].
  pose proof (length_content b Hb) as Hl. pose proof Hb as [Hc He Hi].
  rewrite length_take. eexists. split; [done|].
  rewrite i32_small by lia. destruct (Z.eqb_spec (Z.of_nat (n `min` length (content b))) (Z.of_nat (length (content b)))) as [Heq|Hneq].
  - rewrite drop_ge by lia. by apply wf_Clear.
  - rewrite i32_small by lia. rewrite Nat.min_l by lia. apply advance_content; [done|lia].
Qed.

Lemma ReadByte_ok b : wf b ->
  (content b = [] /\ ReadByte b = Err tt) \/
  exists x b', ReadByte b = Ok (b', x) /\ content b = x :: content b' /\ wf b'.
Proof.
  intros Hb. pose proof (length_content b Hb) as Hl. pose proof Hb as [Hc He Hi]. unfold ReadByte.
  destruct (Z.eqb_spec (start b) (end_ b)) as [Heq|Hne].
  { left. split; [|done]. destruct (content b); [done|simpl in Hl; lia]. }
  right. rewrite decide_True by lia. rewrite i32_small by lia.
  destruct (advance_content b 1 Hb) as [Hw Hct]; [lia|]. exists (arr b !!! Z.to_nat (start b)). eexists.
  split; [done|]. split; [|exact Hw]. change (start b + 1) with (start b + Z.of_nat 1). rewrite Hct.
  unfold content, cap in *. destruct (drop (Z.to_nat (start b)) (arr b)) as [|y l] eqn:E.
  - apply (f_equal length) in E. rewrite length_drop in E. simpl in E. lia.
  - assert (arr b !! Z.to_nat (start b) = Some y) as Hy.
    { rewrite <-(Nat.add_0_r (Z.to_nat (start b))), <-lookup_drop, E. done. }
    rewrite (list_lookup_total_correct _ _ _ Hy).
    destruct (Z.to_nat (end_ b) - Z.to_nat (start b))%nat eqn:Ek; [lia|]. done.
Qed.

Lemma ReadBytes_ok b n : wf b -> 0 <= n < 2 ^ 31 ->
  if decide (n <= Z.of_nat (length (content b))) then
    exists b', ReadBytes b n = Ok (b', take (Z.to_nat n) (content b)) /\ wf b' /\ content b' = drop (Z.to_nat n) (content b)
  else ReadBytes b n = Err tt.
Proof.
  intros Hb Hn. pose proof (length_content b Hb) as Hl. pose proof Hb as [Hc He Hi]. unfold ReadBytes. rewrite (i32_small (end_ b - start b)) by lia.
  case_decide as Hd; (destruct (Z.ltb_spec (end_ b - start b) n); [lia || done|]); [|lia].
  rewrite i32_small, slice_of_ok by lia. cbn [mbind outcome_bind]. destruct (advance_content b (Z.to_nat n) Hb) as [Hw Hct]; [lia|].
  rewrite Z2Nat.id in Hw, Hct by lia. eexists. split; [|split; [exact Hw|exact Hct]]. do 2 f_equal. unfold content. rewrite take_take. f_equal. lia.
Qed.

(** A negative length passes the test and the slice panics. *)
Lemma ReadBytes_negative b n : wf b -> - 2 ^ 31 <= n < 0 -> ReadBytes b n = Panic.
Proof.
  intros [Hc He Hi] Hn. unfold ReadBytes. rewrite i32_small by lia. destruct (Z.ltb_spec (end_ b - start b) n); [lia|].
  rewrite i32_small by lia. unfold slice_of, slice. by rewrite decide_False by lia.
Qed.

(** ** Lists of buffers *)

Lemma contents_app mb mb' : contents (mb ++ mb') = contents mb ++ contents mb'.
Proof. apply bind_app. Qed.

Lemma contents_one b : contents [b] = content b.
Proof. unfold contents. simpl. apply app_nil_r. Qed.

Lemma contents_cons b mb : contents (b :: mb) = content b ++ contents mb.
Proof. done. Qed.

Lemma SplitBytes_ok mb n : Forall wf mb ->
  exists mb', SplitBytes mb n = Ok (mb', take n (contents mb)) /\ Forall wf mb' /\
    contents mb' = drop n (contents mb).
Proof.
  intros Hmb. revert n. induction Hmb as [|b mb Hb Hmb IH]; intros n.
  { exists []. unfold contents. simpl. by rewrite take_nil, drop_nil. }
  cbn [SplitBytes]. rewrite contents_cons.
  destruct (decide (content b = [])) as [Hc|Hc].
  - rewrite Read_empty, Hc by done. destruct (IH n) as (mb' & -> & ? & ?). by exists mb'.
  - destruct (Read_ok b n Hb Hc) as (b' & -> & Hb' & Hc'). rewrite IsEmpty_content, Hc' by done.
    assert (0 < length (content b))%nat by (destruct (content b); simpl; [done|lia]).
    case_bool_decide as Hd; cbn [negb].
    + apply (f_equal length) in Hd. rewrite length_drop in Hd. simpl in Hd.
      rewrite length_take, Nat.min_r by lia.
      destruct (IH (n - length (content b))%nat) as (mb' & -> & ? & ?). cbn [mbind outcome_bind]. exists mb'.
      rewrite (take_ge (content b)), take_app_ge, drop_app_ge by lia. done.
    + assert (n < length (content b))%nat as Hlt.
      { destruct (Nat.le_gt_cases (length (content b)) n); [|done]. by rewrite drop_ge in Hd by done. }
      exists (b' :: mb). rewrite take_app_le, drop_app_le by lia. split; [done|]. split; [by constructor|].
      rewrite contents_cons. by rewrite Hc'.
Qed.

Lemma Copy_ok mb n : Forall wf mb -> Copy mb n = Ok (take n (contents mb)).
Proof.
  intros Hmb. revert n. induction Hmb as [|b mb Hb Hmb IH]; intros n; [unfold contents; simpl; by rewrite take_nil|].
  cbn [Copy]. rewrite Bytes_content by done. cbn [mbind outcome_bind]. rewrite Len_content, length_take by done.
  rewrite contents_cons.
  destruct (Z.ltb_spec (Z.of_nat (n `min` length (content b))) (Z.of_nat (length (content b)))).
  - by rewrite take_app_le by lia.
  - rewrite IH. cbn [mbind outcome_bind]. rewrite Nat.min_r, (take_ge (content b)), take_app_ge by lia. done.
Qed.

Section WithGarbage.
Context (g : bytes) (Hg : length g = Z.to_nat Size).

Lemma room_New : room (New g) = Z.to_nat Size.
Proof. unfold room, New, arr. simpl. by rewrite Hg, Nat.sub_0_r. Qed.

Lemma merge_rest_ok fuel dest src : Forall wf dest -> (length src <= fuel)%nat ->
  exists mb, merge_rest fuel g dest src = Ok mb /\ Forall wf mb /\ contents mb = contents dest ++ src.
Proof.
  revert dest src. induction fuel as [|fuel IH]; intros dest src Hd Hf.
  { destruct src; [|simpl in Hf; lia]. exists dest. by rewrite app_nil_r. }
  destruct src as [|x src']; [exists dest; by rewrite app_nil_r|]. set (src := x :: src') in *.
  change (merge_rest (S fuel) g dest src) with
    ('(b, nBytes) ← Write (New g) src; merge_rest fuel g (dest ++ [b]) (drop (Z.to_nat nBytes) src)).
  destruct (wf_New g Hg) as [Hw Hc]. destruct (Write_ok (New g) src Hw) as (b & -> & Hb & Hct & _).
  cbn [mbind outcome_bind]. rewrite room_New in *. rewrite Hc, app_nil_l in Hct.
  assert (0 < Z.to_nat Size)%nat as Hs by (unfold Size; lia).
  destruct (IH (dest ++ [b]) (drop (Z.to_nat (Z.of_nat (Z.to_nat Size `min` length src))) src)) as (mb & -> & Hmb & Hcmb).
  - apply Forall_app. split; [done|]. by constructor.
  - rewrite length_drop. unfold src in *. simpl length in *. lia.
  - exists mb. split; [done|]. split; [done|]. rewrite Hcmb, contents_app, contents_one.
    rewrite Hct, <-(assoc_L (++)). f_equal.
    destruct (Nat.le_gt_cases (Z.to_nat Size) (length src)).
    + rewrite Nat.min_l, Nat2Z.id by lia. apply take_drop.
    + rewrite Nat.min_r, Nat2Z.id, take_ge, drop_ge by lia. by rewrite app_nil_r.
Qed.

Lemma MergeBytes_ok dest src : Forall wf dest ->
  exists mb, MergeBytes g dest src = Ok mb /\ Forall wf mb /\ contents mb = contents dest ++ src.
Proof.
  intros Hd. unfold MergeBytes. destruct dest as [|b dest _] using rev_ind.
  { apply merge_rest_ok; [done|lia]. }
  rewrite last_snoc. destruct (IsFull b); cbn [negb]; [apply merge_rest_ok; [done|lia]|].
  apply Forall_app in Hd as [Hd [Hb _]%Forall_cons]. destruct (Write_ok b src Hb) as (b' & -> & Hb' & Hc & _).
  cbn [mbind outcome_bind]. rewrite length_app. simpl. rewrite Nat.add_sub, take_app_length.
  destruct (merge_rest_ok (length (drop (Z.to_nat (Z.of_nat (room b `min` length src))) src)) (dest ++ [b'])
    (drop (Z.to_nat (Z.of_nat (room b `min` length src))) src)) as (mb & -> & Hmb & Hcmb).
  - apply Forall_app. split; [done|]. by constructor.
  - lia.
  - exists mb. split; [done|]. split; [done|]. rewrite Hcmb, !contents_app, !contents_one.
    rewrite Hc, Nat2Z.id, <-!(assoc_L (++)). do 2 f_equal.
    destruct (Nat.le_gt_cases (room b) (length src)).
    + rewrite Nat.min_l by lia. apply take_drop.
    + rewrite Nat.min_r, take_ge, drop_ge by lia. apply app_nil_r.
Qed.
End WithGarbage.

Lemma Available_room b : wf b -> Available b = Z.of_nat (room b).
Proof. intros [Hc He Hi]. unfold Available, room. unfold cap in *.
  rewrite (i32_small (Z.of_nat _)) by lia. rewrite i32_small by lia. lia. Qed.

Lemma MultiBuffer_Len_from mb z : Forall wf mb ->
  foldl (fun size b => i32 (size + Len b)) (i32 z) mb = i32 (z + Z.of_nat (length (contents mb))).
Proof.
  intros Hmb. revert z. induction Hmb as [|b mb Hb Hmb IH]; intros z; [unfold contents; simpl; by rewrite Z.add_0_r|].
  cbn [foldl]. rewrite Len_content by done.
  assert (i32 (i32 z + Z.of_nat (length (content b))) = i32 (z + Z.of_nat (length (content b)))) as ->.
  { unfold i32. solve_wrap. }
  rewrite IH, contents_cons, length_app. f_equal. lia.
Qed.

Lemma MultiBuffer_Len_contents mb : Forall wf mb -> MultiBuffer_Len mb = i32 (Z.of_nat (length (contents mb))).
Proof. intros Hmb. by apply (MultiBuffer_Len_from mb 0) in Hmb. Qed.

Lemma MultiBuffer_IsEmpty_contents mb : Forall wf mb -> MultiBuffer_IsEmpty mb = bool_decide (contents mb = []).
Proof.
  induction 1 as [|b mb Hb Hmb IH]; [done|]. unfold MultiBuffer_IsEmpty in *. cbn [forallb].
  rewrite IsEmpty_content, IH, contents_cons by done. apply eq_true_iff_eq.
  rewrite andb_true_iff, !bool_decide_eq_true. split; [by intros [-> ->]|]. by intros [? ?]%app_nil.
Qed.

(** The part below the size, and why it stops where it does. *)
Lemma split_whole_ok mb total size rest r : Forall wf mb -> 0 <= total ->
  total + Z.of_nat (length (contents mb)) < 2 ^ 31 ->
  split_whole mb total size = (rest, r) ->
  mb = r ++ rest /\ (total <= size -> total + Z.of_nat (length (contents r)) <= size) /\
  (forall b, head rest = Some b -> size < total + Z.of_nat (length (contents (r ++ [b])))).
Proof.
  intros Hmb. revert total rest r. induction Hmb as [|b mb Hb Hmb IH]; intros total rest r Ht Hl; cbn [split_whole].
  { intros [= <- <-]. split; [done|]. split; [unfold contents; simpl; lia|done]. }
  rewrite contents_cons, length_app in Hl. rewrite Len_content, i32_small by (done || lia).
  rewrite Z.gtb_ltb. destruct (Z.ltb_spec size (total + Z.of_nat (length (content b)))) as [Hgt|Hle].
  - intros [= <- <-]. split; [done|]. split; [unfold contents; simpl; lia|].
    intros b' [= <-]. change ([] ++ [b]) with [b]. rewrite contents_one. lia.
  - destruct (split_whole mb (total + Z.of_nat (length (content b))) size) as [rest' r'] eqn:E. intros [= <- <-].
    destruct (IH (total + Z.of_nat (length (content b))) rest' r') as (-> & Hsz & Hhd); [lia|lia|done|]. split; [done|].
    rewrite contents_cons, length_app. split; [lia|]. intros b' Hb'. specialize (Hhd _ Hb').
    change ((b :: r') ++ [b']) with (b :: (r' ++ [b'])). rewrite contents_cons, length_app. lia.
Qed.

Lemma Advance_content b n : wf b -> (n <= length (content b))%nat ->
  wf (Advance b (Z.of_nat n)) /\ content (Advance b (Z.of_nat n)) = drop n (content b).
Proof.
  intros Hb Hn. pose proof (length_content b Hb). pose proof Hb as [? ? ?]. unfold Advance, from_end.
  destruct (Z.ltb_spec (Z.of_nat n) 0); [lia|]. rewrite i32_small by lia. by apply advance_content.
Qed.

Lemma Byte_content b i x : wf b -> content b !! i = Some x -> Byte b (Z.of_nat i) = Ok x.
Proof.
  intros Hb Hx. pose proof (lookup_lt_Some _ _ _ Hx) as Hlt. pose proof (length_content b Hb) as Hl. destruct Hb as [Hc He Hi].
  unfold Byte. rewrite i32_small, decide_True by lia. f_equal. unfold content in Hx. rewrite lookup_take in Hx. case_decide; [|done].
  rewrite lookup_drop in Hx. apply list_lookup_total_correct. rewrite <-Hx. f_equal. lia.
Qed.

Lemma ReadFrom_ok b pkt : wf b -> exists b', ReadFrom b (fun n => (take n pkt, false)) = Ok (b', Z.of_nat (Nat.min (room b) (length pkt)), false) /\
  wf b' /\ content b' = content b ++ take (room b) pkt.
Proof.
  intros Hb. pose proof Hb as [? ? ?]. unfold ReadFrom. rewrite slice_of_ok by lia. cbn [mbind outcome_bind]. fold (room b).
  destruct (fill_content b (take (room b) pkt) (end_ b + Z.of_nat (length (take (room b) pkt))) Hb) as (Hw & Hc & _); [rewrite length_take; lia|done|].
  eexists. split; [by rewrite length_take|]. rewrite length_take in Hw, Hc. done.
Qed.
Lemma ReadFrom_some b f data failed : wf b -> f (room b) = (data, failed) -> (length data <= room b)%nat ->
  exists b', ReadFrom b f = Ok (b', Z.of_nat (length data), failed) /\ wf b' /\ content b' = content b ++ data.
Proof.
  intros Hb Hf Hl. pose proof Hb as [? ? ?]. unfold ReadFrom. rewrite slice_of_ok by lia. cbn [mbind outcome_bind]. fold (room b). rewrite Hf.
  destruct (fill_content b data (end_ b + Z.of_nat (length data)) Hb) as (Hw & Hc & _); [lia|done|]. eexists. by split.
Qed.

Lemma BytesTo_content b n : wf b -> (n <= length (content b))%nat -> BytesTo b (Z.of_nat n) = Ok (take n (content b)).
Proof.
  intros Hb Hn. pose proof (length_content b Hb). pose proof Hb as [? ? ?]. unfold BytesTo, from_end.
  destruct (Z.ltb_spec (Z.of_nat n) 0); [lia|]. rewrite i32_small, slice_of_ok by lia.
  unfold content. rewrite take_take. do 2 f_equal. lia.
Qed.

Section SplitSize.
Context (g : bytes) (Hg : length g = Z.to_nat Size).

Lemma cap_New : cap (New g) = Size.
Proof. unfold cap. change (arr (New g)) with g. rewrite Hg. unfold Size. lia. Qed.

Lemma SplitSize_ok mb size : Forall wf mb -> 0 <= size -> Z.of_nat (length (contents mb)) < 2 ^ 31 ->
  (size <= Size \/ (forall b, head mb = Some b -> Z.of_nat (length (content b)) <= size)) ->
  exists rest r, SplitSize g mb size = Ok (rest, r) /\ Forall wf rest /\ Forall wf r /\
    contents r ++ contents rest = contents mb /\ Z.of_nat (length (contents r)) <= size /\
    (forall b, head rest = Some b -> size < Z.of_nat (length (contents (r ++ [b]))) \/ Z.of_nat (length (contents r)) = size).
Proof.
  intros Hmb Hs Hl Hcase. destruct mb as [|b0 mb].
  { exists [], []. repeat split; try done. }
  pose proof Hmb as [Hb0 Hmb']%Forall_cons. cbn [SplitSize]. rewrite Len_content, Z.gtb_ltb by done.
  destruct (Z.ltb_spec size (Z.of_nat (length (content b0)))) as [Hgt|Hle].
  - assert (size <= Size) as HS by (destruct Hcase as [|Hh]; [done|specialize (Hh b0 eq_refl); lia]).
    pose proof (Z2Nat.id _ Hs) as Hn. set (n := Z.to_nat size) in *. rewrite <-Hn in *.
    destruct (wf_New g Hg) as [Hw Hc]. pose proof cap_New as Hcap.
    unfold Extend. change (end_ (New g)) with 0. rewrite Z.add_0_l, Hcap, !i32_small by (unfold Size in *; lia).
    rewrite decide_False by lia. rewrite slice_of_ok by lia. cbn [mbind outcome_bind].
    rewrite BytesTo_content by (done || lia). cbn [mbind outcome_bind].
    destruct (Advance_content b0 n Hb0) as [HwA HcA]; [lia|].
    assert (length (take n (content b0)) = n) as Htn by (rewrite length_take; lia).
    destruct (fill_content (New g) (take n (content b0)) (Z.of_nat n) Hw) as (Hwf & Hcf & _).
    { rewrite Htn. unfold room. unfold cap in Hcap. change (end_ (New g)) with 0. unfold Size in *. lia. }
    { rewrite Htn. done. }
    rewrite i32_small in * by (unfold Size in *; lia). rewrite Hc, app_nil_l in Hcf.
    eexists (_ :: _), [_]. split; [done|].
    change (Z.to_nat 0) with 0%nat in *. rewrite Z.sub_0_r, Nat2Z.id, (take_ge (take n _) n) by lia.
    split; [by constructor|].
    match type of Hwf with wf ?x => set (b' := x) in * end.
    assert (forall b'', b'' = b' -> Forall wf [b''] /\ contents [b''] = take n (content b0)) as Hx.
    { intros ? ->. split; [by constructor|]. by rewrite contents_one. }
    match goal with |- Forall wf [?x] /\ _ => destruct (Hx x) as [Hx1 Hx2] end; [done|].
    split; [done|]. rewrite Hx2, !contents_cons, HcA, Htn, (assoc_L (++)), take_drop.
    split; [done|]. split; [lia|]. intros; by right.
  - destruct (split_whole (b0 :: mb) 0 size) as [rest r] eqn:E. exists rest, r. split; [done|].
    apply split_whole_ok in E as (Heq & Hsz & Hhd); [|done|lia|lia].
    rewrite Heq in Hmb. apply Forall_app in Hmb as [? ?]. rewrite Heq, contents_app.
    split; [done|]. split; [done|]. split; [done|]. split; [by apply Hsz|]. intros b Hb. left. by apply Hhd.
Qed.

Lemma SplitSize_panics b0 mb size : wf b0 -> Size < size < Z.of_nat (length (content b0)) ->
  SplitSize g (b0 :: mb) size = Panic.
Proof.
  intros Hb0 Hs. cbn [SplitSize]. rewrite Len_content, Z.gtb_ltb by done.
  pose proof (length_content b0 Hb0). pose proof Hb0 as [? ? ?].
  destruct (Z.ltb_spec size (Z.of_nat (length (content b0)))); [|lia].
  unfold Extend. rewrite cap_New. change (end_ (New g)) with 0. rewrite Z.add_0_l, (i32_small size) by (unfold Size in *; lia).
  by rewrite decide_True by (rewrite i32_small; unfold Size in *; lia).
Qed.
End SplitSize.

Lemma compact_loop_spec mb last : wf last -> Forall wf mb ->
  (Forall (fun b => content b ≠ []) mb /\ exists mb', compact_loop last mb = Ok mb' /\ Forall wf mb' /\
    contents mb' = content last ++ contents mb /\ (length mb' <= S (length mb))%nat) \/
  (Exists (fun b => content b = []) mb /\ compact_loop last mb = Panic).
Proof.
  intros Hl Hmb. revert last Hl. induction Hmb as [|b mb Hb Hmb IH]; intros last Hl; cbn [compact_loop].
  { left. split; [done|]. exists [last]. split; [done|]. split; [by constructor|]. split; [|simpl; lia].
    by rewrite contents_one, app_nil_r. }
  rewrite Len_content, Available_room, Z.gtb_ltb by done.
  destruct (Z.ltb_spec (Z.of_nat (room last)) (Z.of_nat (length (content b)))) as [Hgt|Hle].
  - destruct (IH b Hb) as [(Hne & mb' & -> & Hwf & Hc & Hlen)|[He ->]]; [left|right; by split; [right|]].
    split; [constructor; [|done]; intros Heq; rewrite Heq in Hgt; simpl in Hgt; lia|].
    eexists. split; [done|]. split; [by constructor|]. rewrite !contents_cons, Hc. split; [done|simpl; lia].
  - pose proof Hl as [Hc He Hi]. rewrite slice_of_ok by lia. cbn [mbind outcome_bind]. fold (room last).
    destruct (decide (content b = [])) as [Hemp|Hne].
    { right. split; [by left|]. by rewrite Read_empty. }
    destruct (Read_ok b (room last) Hb Hne) as (b' & -> & _). rewrite take_ge by lia.
    destruct (fill_content last (content b) (end_ last + Z.of_nat (length (content b))) Hl) as (Hw & Hct & _); [lia|done|].
    destruct (IH _ Hw) as [(Hnes & mb' & -> & Hwf & Hcc & Hlen)|[Hex ->]]; [left|right; by split; [right|]].
    split; [by constructor|]. eexists. split; [done|]. split; [done|].
    rewrite Hcc, Hct, contents_cons, (assoc_L (++)). split; [done|simpl; lia].
Qed.

Lemma Compact_spec mb : Forall wf mb ->
  (Forall (fun b => content b ≠ []) (tail mb) /\ exists mb', Compact mb = Ok mb' /\ Forall wf mb' /\
    contents mb' = contents mb /\ (length mb' <= length mb)%nat) \/
  (Exists (fun b => content b = []) (tail mb) /\ Compact mb = Panic).
Proof.
  intros Hmb. destruct mb as [|b mb]; [left; split; [done|]; by exists []|].
  apply Forall_cons in Hmb as [Hb Hmb]. by apply (compact_loop_spec mb b).
Qed.

(** ** Properties *)

(** Merging bytes into a list of buffers appends them and splitting takes
    them from the front: for any requested number of bytes SplitBytes returns
    exactly the first that many of the old content followed by the merged
    bytes, leaves the rest, and Copy reads the same bytes without removing
    them. No operation panics on well-formed buffers. *)
Theorem multibuffer_fifo g mb src n :
  length g = Z.to_nat Size -> Forall wf mb ->
  exists mb1 mb2, MergeBytes g mb src = Ok mb1 /\ Copy mb1 n = Ok (take n (contents mb ++ src)) /\
    SplitBytes mb1 n = Ok (mb2, take n (contents mb ++ src)) /\
    contents mb2 = drop n (contents mb ++ src) /\ Forall wf mb2.
Proof.
  intros Hg Hmb. destruct (MergeBytes_ok g Hg mb src Hmb) as (mb1 & H1 & Hw1 & Hc1). rewrite <-Hc1.
  destruct (SplitBytes_ok mb1 n Hw1) as (mb2 & H2 & Hw2 & Hc2). exists mb1, mb2.
  by rewrite Copy_ok by done.
Qed.

(** SplitSize cuts the content in two without losing a byte, the first
    part is at most the requested size and is maximal for whole buffers, or
    exact when the first buffer is cut; it panics exactly there when the
    requested size exceeds one fresh buffer. *)
Theorem split_size_partition g mb size :
  length g = Z.to_nat Size -> Forall wf mb -> 0 <= size -> Z.of_nat (length (contents mb)) < 2 ^ 31 ->
  (exists rest r, SplitSize g mb size = Ok (rest, r) /\ Forall wf rest /\ Forall wf r /\
    contents r ++ contents rest = contents mb /\ Z.of_nat (length (contents r)) <= size /\
    (forall b, head rest = Some b -> size < Z.of_nat (length (contents (r ++ [b]))) \/ Z.of_nat (length (contents r)) = size)) \/
  (exists b, head mb = Some b /\ Size < size < Z.of_nat (length (content b)) /\ SplitSize g mb size = Panic).
Proof.
  intros Hg Hmb Hs Hl. destruct mb as [|b0 mb]; [left; apply SplitSize_ok; auto; by right|].
  destruct (Z.le_gt_cases size Size); [left; apply SplitSize_ok; auto|].
  destruct (Z.le_gt_cases (Z.of_nat (length (content b0))) size).
  - left. apply SplitSize_ok; auto. right. by intros b [= <-].
  - right. exists b0. apply Forall_cons in Hmb as [? _]. split; [done|]. split; [lia|]. by apply SplitSize_panics.
Qed.

(** Compact keeps the content and never adds a buffer, unless a buffer
    after the first is empty: then reading it reports end of file, which
    Must2 turns into a panic. *)
Theorem compact_preserves_or_panics mb : Forall wf mb ->
  (Forall (fun b => content b ≠ []) (tail mb) /\ exists mb', Compact mb = Ok mb' /\ Forall wf mb' /\
    contents mb' = contents mb /\ (length mb' <= length mb)%nat) \/
  (Exists (fun b => content b = []) (tail mb) /\ Compact mb = Panic).
Proof. apply Compact_spec. Qed.

Definition sample_buffers : MultiBuffer := [FromBytes (bs "ab"); FromBytes (bs "cde")].

Lemma sample_buffers_wf : Forall wf sample_buffers.
Proof. by repeat (apply Forall_cons; split; [by apply wf_FromBytes|]). Qed.

Definition zeros : bytes := replicate (Z.to_nat Size) x00.

Lemma multibuffer_fifo_witness : exists mb1 mb2, MergeBytes zeros sample_buffers (bs "fg") = Ok mb1 /\
  SplitBytes mb1 3 = Ok (mb2, bs "abc") /\ contents mb2 = bs "defg".
Proof.
  destruct (multibuffer_fifo zeros sample_buffers (bs "fg") 3) as (mb1 & mb2 & H1 & _ & H2 & H3 & _).
  - apply length_replicate.
  - apply sample_buffers_wf.
  - exists mb1, mb2. split; [exact H1|]. split; [exact H2|exact H3].
Defined.

Lemma split_size_partition_witness : exists rest r, SplitSize zeros sample_buffers 4 = Ok (rest, r) /\
  contents r ++ contents rest = bs "abcde".
Proof.
  destruct (split_size_partition zeros sample_buffers 4) as [(rest & r & H1 & _ & _ & H2 & _)|(b & Hb & Hs & _)].
  - apply length_replicate.
  - apply sample_buffers_wf.
  - discriminate.
  - reflexivity.
  - exists rest, r. split; [exact H1|exact H2].
  - exfalso. injection Hb as <-. destruct Hs as [Hs _]. unfold Size in Hs. lia.
Defined.

Lemma compact_preserves_or_panics_witness : exists mb', Compact sample_buffers = Ok mb' /\ contents mb' = bs "abcde".
Proof.
  destruct (compact_preserves_or_panics sample_buffers sample_buffers_wf) as [(_ & mb' & H1 & _ & H2 & _)|[He _]].
  - exists mb'. split; [exact H1|exact H2].
  - exfalso. apply Exists_cons in He as [He|He]; [discriminate He|by apply Exists_nil in He].
Defined.

Example compact_panics : Compact [FromBytes (bs "a"); FromBytes []] = Panic.
Proof. reflexivity. Qed.
