(* ===== verification/Pipe.v ===== *)
(** * The pipe, [transport/pipe]

    The operations under the mutex are functions on the pipe's state; the
    loops of [ReadMultiBuffer] and [WriteMultiBuffer] around them are the
    steps of a reader and a writer that run concurrently with [Close] and
    [Interrupt].  A notifier is a channel of capacity one, a bool. *)

From S2P Require Import Prelude Segment Buffer BufferFacts.

Local Open Scope Z_scope.

(** ** The state and the operations under the mutex *)

(** src/transport/pipe/impl.go:16-22 state *)
Inductive state := open | closed | errord.

#[export] Instance state_eq_dec : EqDecision state.
Proof. solve_decision. Defined.

(** src/transport/pipe/impl.go pipeOption *)
Record pipeOption := { limit : Z; discardOverflow : bool }.

(** src/transport/pipe/impl.go pipeOption.isFull *)
Definition isFull (o : pipeOption) (curSize : Z) : bool := (0 <=? limit o) && (limit o <? curSize).

(** [data] is [None] for a nil list; the signals hold at most one token.
    src/transport/pipe/impl.go pipe *)
Record pipe := {
  data : option MultiBuffer; readSignal : bool; writeSignal : bool; done_ : bool;
  option_ : pipeOption; state_ : state
}.

(** src/transport/pipe/impl.go:43-46 errBufferFull *)
Inductive error := errBufferFull | errSlowDown | ErrClosedPipe | EOF | ErrReadTimeout.

#[export] Instance error_eq_dec : EqDecision error.
Proof. solve_decision. Defined.

(** src/transport/pipe/pipe.go WithoutSizeLimit *)
Definition WithoutSizeLimit (o : pipeOption) : pipeOption := {| limit := -1; discardOverflow := discardOverflow o |}.
(** src/transport/pipe/pipe.go WithSizeLimit *)
Definition WithSizeLimit (l : Z) (o : pipeOption) : pipeOption := {| limit := l; discardOverflow := discardOverflow o |}.
(** src/transport/pipe/pipe.go DiscardOverflow *)
Definition DiscardOverflow (o : pipeOption) : pipeOption := {| limit := limit o; discardOverflow := true |}.
(** [perConnection] is the buffer policy's.
    src/transport/pipe/pipe.go OptionsFromContext *)
Definition OptionsFromContext (perConnection : Z) : list (pipeOption -> pipeOption) :=
  if 0 <=? perConnection then [WithSizeLimit perConnection] else [WithoutSizeLimit].

(** src/transport/pipe/pipe.go New *)
Definition New (opts : list (pipeOption -> pipeOption)) : pipe :=
  {| data := None; readSignal := false; writeSignal := false; done_ := false;
     option_ := foldl (fun o opt => opt o) {| limit := -1; discardOverflow := false |} opts; state_ := open |}.

Definition set_data (p : pipe) (d : option MultiBuffer) : pipe :=
  {| data := d; readSignal := readSignal p; writeSignal := writeSignal p; done_ := done_ p;
     option_ := option_ p; state_ := state_ p |}.
Definition set_readSignal (p : pipe) (b : bool) : pipe :=
  {| data := data p; readSignal := b; writeSignal := writeSignal p; done_ := done_ p;
     option_ := option_ p; state_ := state_ p |}.
Definition set_writeSignal (p : pipe) (b : bool) : pipe :=
  {| data := data p; readSignal := readSignal p; writeSignal := b; done_ := done_ p;
     option_ := option_ p; state_ := state_ p |}.
Definition set_done (p : pipe) (st : state) : pipe :=
  {| data := data p; readSignal := readSignal p; writeSignal := writeSignal p; done_ := true;
     option_ := option_ p; state_ := st |}.

Definition size_of (p : pipe) : Z := MultiBuffer_Len (default [] (data p)).
Definition data_IsEmpty (p : pipe) : bool := MultiBuffer_IsEmpty (default [] (data p)).

(** src/transport/pipe/impl.go pipe.getState *)
Definition getState (p : pipe) (forRead : bool) : option error :=
  match state_ p with
  | open => if negb forRead && isFull (option_ p) (size_of p) then Some errBufferFull else None
  | closed =>
      if negb forRead then Some ErrClosedPipe
      else if negb (data_IsEmpty p) then None
      else Some EOF
  | errord => Some ErrClosedPipe
  end.

(** src/transport/pipe/impl.go pipe.readMultiBufferInternal *)
Definition readMultiBufferInternal (p : pipe) : pipe * option MultiBuffer * option error :=
  match getState p true with
  | Some err => (p, None, Some err)
  | None => (set_data p None, data p, None)
  end.

(** src/transport/pipe/impl.go pipe.writeMultiBufferInternal *)
Definition writeMultiBufferInternal (p : pipe) (mb : MultiBuffer) : pipe * option error :=
  match getState p false with
  | Some err => (p, Some err)
  | None =>
      match data p with
      | None => (set_data p (Some mb), None)
      | Some d => (set_data p (Some (MergeMulti d mb).1), Some errSlowDown)
      end
  end.

(** src/transport/pipe/impl.go pipe.Close *)
Definition Close (p : pipe) : pipe :=
  match state_ p with closed | errord => p | open => set_done p closed end.

(** src/transport/pipe/impl.go pipe.Interrupt *)
Definition Interrupt (p : pipe) : pipe :=
  match state_ p with
  | closed | errord => p
  | open => set_done (if negb (data_IsEmpty p) then set_data p None else p) errord
  end.

(** ** The loops, as steps of a reader and a writer *)

(** Where the reader is: outside, about to lock, about to signal the writer
    and return, or in the select ([timed] with a timer). *)
Inductive reader := RIdle | RTry (timed : bool) | RNotify (mb : option MultiBuffer) (err : option error) | RWait (timed : bool).

(** The same for the writer; [WNotify] is about to signal the reader. *)
Inductive writer := WIdle | WTry (mb : MultiBuffer) | WNotify (err : option error) | WWait (mb : MultiBuffer).

(** The last four fields are history: what the pipe accepted and handed out,
    and what the calls returned. *)
Record system := {
  the_pipe : pipe; rpc : reader; wpc : writer;
  accepted : list MultiBuffer; taken : list MultiBuffer;
  read_results : list (option MultiBuffer * option error); write_results : list (option error)
}.

Inductive action :=
  | ARead (timed : bool) | AReadTry | AReadNotify | AReadWake | AReadDone | AReadTimeout
  | AWrite (mb : MultiBuffer) | AWriteTry | AWriteNotify | AWriteWake | AWriteDone
  | AClose | AInterrupt.

Definition with_pipe (s : system) (p : pipe) : system :=
  {| the_pipe := p; rpc := rpc s; wpc := wpc s; accepted := accepted s; taken := taken s;
     read_results := read_results s; write_results := write_results s |}.
Definition with_rpc (s : system) (r : reader) : system :=
  {| the_pipe := the_pipe s; rpc := r; wpc := wpc s; accepted := accepted s; taken := taken s;
     read_results := read_results s; write_results := write_results s |}.
Definition with_wpc (s : system) (w : writer) : system :=
  {| the_pipe := the_pipe s; rpc := rpc s; wpc := w; accepted := accepted s; taken := taken s;
     read_results := read_results s; write_results := write_results s |}.
Definition log_take (s : system) (mb : option MultiBuffer) : system :=
  {| the_pipe := the_pipe s; rpc := rpc s; wpc := wpc s; accepted := accepted s;
     taken := taken s ++ option_list mb;
     read_results := read_results s; write_results := write_results s |}.
Definition log_accept (s : system) (mb : MultiBuffer) : system :=
  {| the_pipe := the_pipe s; rpc := rpc s; wpc := wpc s; accepted := accepted s ++ [mb]; taken := taken s;
     read_results := read_results s; write_results := write_results s |}.
Definition log_read (s : system) (r : option MultiBuffer * option error) : system :=
  {| the_pipe := the_pipe s; rpc := rpc s; wpc := wpc s; accepted := accepted s; taken := taken s;
     read_results := read_results s ++ [r]; write_results := write_results s |}.
Definition log_write (s : system) (r : option error) : system :=
  {| the_pipe := the_pipe s; rpc := rpc s; wpc := wpc s; accepted := accepted s; taken := taken s;
     read_results := read_results s; write_results := write_results s ++ [r] |}.

(** One turn of the loop of ReadMultiBuffer up to the signal or the select.
    src/transport/pipe/impl.go pipe.ReadMultiBuffer *)
Definition read_turn (s : system) (timed : bool) : system :=
  let '(p, mb, err) := readMultiBufferInternal (the_pipe s) in
  let s := with_pipe s p in
  match mb, err with
  | None, None => with_rpc s (RWait timed)
  | _, _ => with_rpc (log_take s mb) (RNotify mb err)
  end.

(** One turn of the loop of WriteMultiBuffer up to the signal, the return or
    the select.
    src/transport/pipe/impl.go pipe.WriteMultiBuffer *)
Definition write_turn (s : system) (mb : MultiBuffer) : system :=
  let '(p, err) := writeMultiBufferInternal (the_pipe s) mb in
  let s := with_pipe s p in
  match err with
  | None | Some errSlowDown => with_wpc (log_accept s mb) (WNotify None)
  | Some err =>
      if decide (err = errBufferFull) then
        if discardOverflow (option_ p) then with_wpc (log_write s None) WIdle
        else with_wpc s (WWait mb)
      else with_wpc s (WNotify (Some err))
  end.

(** src/transport/pipe/impl.go pipe.ReadMultiBufferTimeout *)
Definition read_step (a : action) (s : system) : option system :=
  let p := the_pipe s in
  match a, rpc s with
  | ARead timed, RIdle => Some (with_rpc s (RTry timed))
  | AReadTry, RTry timed => Some (read_turn s timed)
  | AReadNotify, RNotify mb err =>
      Some (with_rpc (log_read (with_pipe s (set_writeSignal p true)) (mb, err)) RIdle)
  | AReadWake, RWait timed =>
      if readSignal p then Some (with_rpc (with_pipe s (set_readSignal p false)) (RTry timed)) else None
  | AReadDone, RWait timed => if done_ p then Some (with_rpc s (RTry timed)) else None
  | AReadTimeout, RWait true => Some (with_rpc (log_read s (None, Some ErrReadTimeout)) RIdle)
  | _, _ => None
  end.

(** src/transport/pipe/impl.go pipe.WriteMultiBuffer *)
Definition write_step (a : action) (s : system) : option system :=
  let p := the_pipe s in
  match a, wpc s with
  | AWrite mb, WIdle =>
      if MultiBuffer_IsEmpty mb then Some (log_write s None) else Some (with_wpc s (WTry mb))
  | AWriteTry, WTry mb => Some (write_turn s mb)
  | AWriteNotify, WNotify err =>
      Some (with_wpc (log_write (with_pipe s (set_readSignal p true)) err) WIdle)
  | AWriteWake, WWait mb =>
      if writeSignal p then Some (with_wpc (with_pipe s (set_writeSignal p false)) (WTry mb)) else None
  | AWriteDone, WWait mb =>
      if done_ p then Some (with_wpc (log_write s (Some ErrClosedPipe)) WIdle) else None
  | _, _ => None
  end.

Definition step (a : action) (s : system) : option system :=
  match a with
  | ARead _ | AReadTry | AReadNotify | AReadWake | AReadDone | AReadTimeout => read_step a s
  | AWrite _ | AWriteTry | AWriteNotify | AWriteWake | AWriteDone => write_step a s
  | AClose => Some (with_pipe s (Close (the_pipe s)))
  | AInterrupt => Some (with_pipe s (Interrupt (the_pipe s)))
  end.

Definition initial (opts : list (pipeOption -> pipeOption)) : system :=
  {| the_pipe := New opts; rpc := RIdle; wpc := WIdle; accepted := []; taken := [];
     read_results := []; write_results := [] |}.

Fixpoint run (acts : list action) (s : system) : option system :=
  match acts with [] => Some s | a :: acts' => s' ← step a s; run acts' s' end.

Inductive reachable (opts : list (pipeOption -> pipeOption)) : system -> Prop :=
  | reach_initial : reachable opts (initial opts)
  | reach_step a s s' : reachable opts s -> step a s = Some s' -> reachable opts s'.

(** * Facts about the pipe

    An invariant of every reachable system of one reader, one writer and any
    number of calls of [Close] and [Interrupt]: nothing is lost, duplicated
    or reordered, nobody sleeps through a wake-up, and the content is bounded. *)


(** What is in the pipe, as the list of buffers. *)
Definition stored (p : pipe) : MultiBuffer := default [] (data p).

Definition nonempty (mb : MultiBuffer) : Prop := MultiBuffer_IsEmpty mb = false.

Record inv (s : system) : Prop := {
  inv_done : done_ (the_pipe s) = bool_decide (state_ (the_pipe s) ≠ open);
  inv_data : forall mb, data (the_pipe s) = Some mb -> nonempty mb;
  inv_writer : forall mb, wpc s = WTry mb \/ wpc s = WWait mb -> nonempty mb;
  inv_fifo : state_ (the_pipe s) ≠ errord -> concat (taken s) ++ stored (the_pipe s) = concat (accepted s);
  inv_prefix : concat (taken s) `prefix_of` concat (accepted s);
  inv_reader_wakes : forall t, rpc s = RWait t -> data (the_pipe s) ≠ None ->
    readSignal (the_pipe s) = true \/ wpc s = WNotify None;
  inv_reader_open : forall t, rpc s = RWait t -> state_ (the_pipe s) = open \/ done_ (the_pipe s) = true;
  inv_writer_wakes : forall mb, wpc s = WWait mb ->
    isFull (option_ (the_pipe s)) (size_of (the_pipe s)) = false ->
    writeSignal (the_pipe s) = true \/ (exists d e, rpc s = RNotify d e) \/ done_ (the_pipe s) = true;
  inv_eof : forall d, rpc s = RNotify d (Some EOF) \/ (d, Some EOF) ∈ read_results s ->
    state_ (the_pipe s) = closed /\ data (the_pipe s) = None;
}.

Lemma nonempty_merge mb mb' : nonempty mb -> nonempty (mb ++ mb').
Proof. unfold nonempty, MultiBuffer_IsEmpty. rewrite forallb_app. by intros ->. Qed.

Lemma data_IsEmpty_inv s : inv s -> data_IsEmpty (the_pipe s) = bool_decide (data (the_pipe s) = None).
Proof.
  intros Hi. unfold data_IsEmpty. destruct (data (the_pipe s)) as [mb|] eqn:E.
  - simpl. by rewrite (inv_data s Hi mb).
  - by rewrite bool_decide_true.
Qed.

Lemma inv_initial opts : inv (initial opts).
Proof.
  split; simpl; try done.
  - by intros mb [?|?].
  - by intros d [?|?%not_elem_of_nil].
Qed.

(** The effect of a read under the mutex. *)
Lemma read_internal_cases s : inv s ->
  let p := the_pipe s in
  (data p = None /\ state_ p = open /\ readMultiBufferInternal p = (p, None, None)) \/
  (exists mb, data p = Some mb /\ state_ p ≠ errord /\ readMultiBufferInternal p = (set_data p None, Some mb, None)) \/
  (data p = None /\ state_ p = closed /\ readMultiBufferInternal p = (p, None, Some EOF)) \/
  (state_ p = errord /\ readMultiBufferInternal p = (p, None, Some ErrClosedPipe)).
Proof.
  intros Hi p. pose proof (data_IsEmpty_inv s Hi) as He. fold p in He.
  unfold readMultiBufferInternal, getState. destruct (state_ p) eqn:Hs.
  - destruct (data p) as [mb|] eqn:Hd.
    + right; left. by exists mb.
    + left. simpl. destruct p; simpl in *; by subst.
  - cbn [negb andb]. rewrite He. destruct (data p) as [mb|] eqn:Hd.
    + right; left. exists mb. by rewrite bool_decide_false by done.
    + right; right; left. by rewrite bool_decide_true by done.
  - right; right; right. done.
Qed.

(** The effect of a write under the mutex. *)
Lemma write_internal_cases p mb :
  (state_ p = open /\ isFull (option_ p) (size_of p) = false /\
    (writeMultiBufferInternal p mb).1 = set_data p (Some (stored p ++ mb)) /\
    ((writeMultiBufferInternal p mb).2 = None \/ (writeMultiBufferInternal p mb).2 = Some errSlowDown)) \/
  (state_ p = open /\ isFull (option_ p) (size_of p) = true /\ writeMultiBufferInternal p mb = (p, Some errBufferFull)) \/
  (state_ p ≠ open /\ writeMultiBufferInternal p mb = (p, Some ErrClosedPipe)).
Proof.
  unfold writeMultiBufferInternal, getState, stored. destruct (state_ p) eqn:Hs; cbn [negb andb]; auto.
  destruct (isFull _ _) eqn:Hf; [auto|]. left. destruct (data p); simpl; auto.
Qed.

(** One turn of the writer, in the three ways it can go. *)
Lemma write_turn_cases s mb :
  (exists s', state_ (the_pipe s) = open /\ isFull (option_ (the_pipe s)) (size_of (the_pipe s)) = false /\
    s' = with_pipe s (set_data (the_pipe s) (Some (stored (the_pipe s) ++ mb))) /\
    write_turn s mb = with_wpc (log_accept s' mb) (WNotify None)) \/
  (state_ (the_pipe s) = open /\ isFull (option_ (the_pipe s)) (size_of (the_pipe s)) = true /\
    write_turn s mb = if discardOverflow (option_ (the_pipe s)) then with_wpc (log_write s None) WIdle else with_wpc s (WWait mb)) \/
  (state_ (the_pipe s) ≠ open /\ write_turn s mb = with_wpc s (WNotify (Some ErrClosedPipe))).
Proof.
  assert (with_pipe s (the_pipe s) = s) as Hs by by destruct s.
  unfold write_turn. destruct (write_internal_cases (the_pipe s) mb) as [(Ho & Hf & H1 & H2)|[(Ho & Hf & ->)|(Hno & ->)]].
  - left. eexists. split; [done|]. split; [done|]. split; [done|].
    destruct (writeMultiBufferInternal (the_pipe s) mb) as [p' e]. simpl in H1, H2. subst p'. by destruct H2 as [-> | ->].
  - right; left. split; [done|]. split; [done|]. cbv zeta. rewrite Hs.
    rewrite decide_True by done. done.
  - right; right. split; [done|]. cbv zeta. rewrite Hs. by rewrite decide_False by done.
Qed.

(** Reduces the projections of an updated system, leaving the rest alone. *)
Ltac sysn := cbn [the_pipe rpc wpc accepted taken read_results write_results with_pipe with_rpc with_wpc
  log_take log_accept log_read log_write set_data set_readSignal set_writeSignal set_done
  data readSignal writeSignal done_ option_ state_ option_list app] in *.

(** Unfolds the invariant on both sides and leaves the fields that the step changed. *)
Ltac keep_inv Hi := pose proof Hi as [I1 I2 I3 I4 I5 I6 I7 I8 I9]; split; sysn; try (exact I1 || exact I2 || exact I3 ||
  exact I4 || exact I5 || exact I6 || exact I7 || exact I8 || exact I9 || done).

(** The writer's wake-up when the reader was not about to signal. *)
Lemma writer_wakes_no_notify s mb : inv s -> (forall d e, rpc s ≠ RNotify d e) -> wpc s = WWait mb ->
  isFull (option_ (the_pipe s)) (size_of (the_pipe s)) = false ->
  writeSignal (the_pipe s) = true \/ done_ (the_pipe s) = true.
Proof. intros Hi Hr Hw Hf. destruct (inv_writer_wakes s Hi mb Hw Hf) as [?|[(d & e & H)|?]]; [auto|by apply Hr in H|auto]. Qed.

Lemma eof_in_results s d : inv s -> (d, Some EOF) ∈ read_results s -> state_ (the_pipe s) = closed /\ data (the_pipe s) = None.
Proof. intros Hi Hd. apply (inv_eof s Hi d). by right. Qed.

Lemma inv_read_turn s timed : inv s -> rpc s = RTry timed -> inv (read_turn s timed).
Proof.
  intros Hi Hr. assert (with_pipe s (the_pipe s) = s) as Hs by by destruct s.
  unfold read_turn. destruct (read_internal_cases s Hi) as [(Hd & Ho & ->)|[(mb & Hd & Ho & ->)|[(Hd & Ho & ->)|(Ho & ->)]]];
    cbv zeta; rewrite ?Hs.
  - keep_inv Hi.
    + intros. by left.
    + intros mb Hw Hf. destruct (writer_wakes_no_notify s mb Hi) as [?|?]; auto. rewrite Hr. done.
    + intros d [?|?]; [done|]. by apply (eof_in_results s d).
  - keep_inv Hi.
    + intros Hne. rewrite concat_app, <-I4 by done. unfold stored. rewrite Hd. simpl. by rewrite !app_nil_r.
    + rewrite concat_app, <-I4 by done. unfold stored. rewrite Hd. simpl. by rewrite app_nil_r.
    + intros mb' Hw _. right; left. by eexists _, _.
    + intros d [?|Hin]; [done|]. split; [|done]. by apply (eof_in_results s d).
  - keep_inv Hi; rewrite ?app_nil_r; try done.
    intros mb' Hw _. right; left. by eexists _, _.
  - keep_inv Hi; rewrite ?app_nil_r; try done.
    + intros mb' Hw _. right; left. by eexists _, _.
    + intros d [?|Hin]; [done|]. by apply (eof_in_results s d).
Qed.

Lemma inv_read_step a s s' : inv s -> read_step a s = Some s' -> inv s'.
Proof.
  intros Hi. unfold read_step. destruct a; try done; destruct (rpc s) as [|t|mb err|t] eqn:Hr; try done;
    try (destruct t; try done); repeat (case_match; [|done]); intros [= <-]; try by apply inv_read_turn.
  all: keep_inv Hi; try by intros.
  all: try (intros d [?|?]; [done|]; by apply (eof_in_results s d)).
  all: try (intros mb' Hw Hf; destruct (writer_wakes_no_notify s mb' Hi) as [?|?]; auto; by rewrite Hr).
  - intros; by left.
  - intros d [?|Hin]; [done|].
    apply elem_of_app in Hin as [Hin|Heq%list_elem_of_singleton]; apply (I9 d); [by right|left; congruence].
  - intros d [?|Hin]; [done|].
    apply elem_of_app in Hin as [Hin|Heq%list_elem_of_singleton]; [by apply (eof_in_results s d)|congruence].
Qed.

Lemma reader_wakes_no_notify s t : inv s -> (forall e, wpc s ≠ WNotify e) -> rpc s = RWait t ->
  data (the_pipe s) ≠ None -> readSignal (the_pipe s) = true.
Proof. intros Hi Hw Hr Hd. destruct (inv_reader_wakes s Hi t Hr Hd) as [?|?]; [done|naive_solver]. Qed.

Ltac use_reader_wakes s Hi Hw :=
  try (intros t Hr Hd; left; apply (reader_wakes_no_notify s t Hi); [by rewrite Hw|done..]).

Lemma inv_write_turn s mb : inv s -> wpc s = WTry mb -> inv (write_turn s mb).
Proof.
  intros Hi Hw. assert (nonempty mb) as Hmb by (apply (inv_writer s Hi); auto).
  destruct (write_turn_cases s mb) as [(s' & Ho & Hf & -> & ->)|[(Ho & Hf & ->)|(Ho & ->)]].
  - keep_inv Hi.
    + intros mb' [= <-]. unfold stored. destruct (data (the_pipe s)) as [d|] eqn:Hd; simpl; [|done].
      by apply nonempty_merge, I2.
    + by intros mb' [?|?].
    + intros Hne. match goal with |- _ ++ stored ?p = _ => change (stored p) with (stored (the_pipe s) ++ mb) end.
      rewrite concat_app, <-I4, (assoc_L (++)) by done. simpl. by rewrite app_nil_r.
    + rewrite concat_app. by apply prefix_app_r.
    + intros; by right.
    + intros d Hd. destruct (I9 d Hd). congruence.
  - destruct (discardOverflow _); keep_inv Hi; use_reader_wakes s Hi Hw; try (by intros ? [?|?]).
    + intros mb' [?|[= <-]]; done.
    + intros mb' [= <-]. congruence.
  - keep_inv Hi; use_reader_wakes s Hi Hw. by intros ? [?|?].
Qed.

Lemma inv_write_step a s s' : inv s -> write_step a s = Some s' -> inv s'.
Proof.
  intros Hi. unfold write_step. destruct a as [| | | | | |mb| | | | | |]; try done; destruct (wpc s) as [|mb'|e|mb'] eqn:Hw; try done;
    try (case_match; try done); intros [= <-]; try by apply inv_write_turn.
  all: keep_inv Hi; use_reader_wakes s Hi Hw; try (by intros ? [?|?]); try (by intros ? [[= <-]|[= <-]]).
  - intros t _ _. by left.
  - intros mb'' [[= <-]|?]; [|done]. by apply I3; right.
Qed.

Lemma inv_Close s : inv s -> inv (with_pipe s (Close (the_pipe s))).
Proof.
  intros Hi. unfold Close. destruct (state_ (the_pipe s)) eqn:Hs; [|destruct s; apply Hi..].
  keep_inv Hi.
  - intros _. apply I4. congruence.
  - intros; by right.
  - intros; by right; right.
  - intros d Hd. destruct (I9 d Hd). congruence.
Qed.

Lemma inv_Interrupt s : inv s -> inv (with_pipe s (Interrupt (the_pipe s))).
Proof.
  intros Hi. unfold Interrupt. destruct (state_ (the_pipe s)) eqn:Hs; [|destruct s; apply Hi..].
  destruct (negb (data_IsEmpty (the_pipe s))); keep_inv Hi.
  all: try (intros; by right); try (intros; by right; right).
  all: try (intros d Hd; destruct (I9 d Hd); congruence).
Qed.

Lemma inv_step a s s' : inv s -> step a s = Some s' -> inv s'.
Proof.
  intros Hi. destruct a; cbn [step]; try (by apply inv_read_step); try (by apply inv_write_step).
  - intros [= <-]. by apply inv_Close.
  - intros [= <-]. by apply inv_Interrupt.
Qed.

Lemma inv_reachable opts s : reachable opts s -> inv s.
Proof. induction 1 as [|a s s' _ IH Hs]; [apply inv_initial|by eapply inv_step]. Qed.

Lemma run_reachable opts acts s s' : reachable opts s -> run acts s = Some s' -> reachable opts s'.
Proof.
  revert s. induction acts as [|a acts IH]; intros s Hr; cbn [run]; [by intros [= <-]|].
  destruct (step a s) as [s1|] eqn:E; [|done]. apply IH. by eapply reach_step.
Qed.

(** ** The results of the calls *)

(** What the reader holds but has not returned yet. *)
Definition held_by (r : reader) : list MultiBuffer := match r with RNotify (Some mb) _ => [mb] | _ => [] end.

Lemma write_step_reader a s s' : write_step a s = Some s' ->
  rpc s' = rpc s /\ taken s' = taken s /\ read_results s' = read_results s.
Proof.
  unfold write_step. destruct a, (wpc s) as [|mb'| |]; try done; try (case_match; try done); intros [= <-]; try done.
  destruct (write_turn_cases s mb') as [(s' & _ & _ & -> & ->)|[(_ & _ & ->)|(_ & ->)]]; try done. by case_match.
Qed.

Lemma read_turn_results s t : held_by (rpc (read_turn s t)) = drop (length (taken s)) (taken (read_turn s t)) /\
  taken s `prefix_of` taken (read_turn s t) /\ read_results (read_turn s t) = read_results s.
Proof.
  unfold read_turn. destruct (readMultiBufferInternal _) as [[p mb] err]. cbv zeta.
  destruct mb as [mb|], err as [e|]; sysn; rewrite ?app_nil_r, ?drop_app_length, ?drop_all; repeat split; done || by apply prefix_app_r.
Qed.

Lemma taken_results opts s : reachable opts s -> taken s = omap fst (read_results s) ++ held_by (rpc s).
Proof.
  induction 1 as [|a s s' _ IH Hs]; [done|].
  destruct (step a s) as [s1|] eqn:E in Hs; [injection Hs as ->|done].
  assert (read_step a s = Some s' \/ (rpc s' = rpc s /\ taken s' = taken s /\ read_results s' = read_results s)) as [Hr|(-> & -> & ->)]; [|clear E|done].
  { destruct a; cbn [step] in E; auto; try (right; by apply write_step_reader in E); by injection E as <-; right. }
  destruct a; cbn [read_step] in Hr; try done; destruct (rpc s) as [|t|mb err|t] eqn:Er; try done.
  - by injection Hr as <-.
  - injection Hr as <-. destruct (read_turn_results s t) as (-> & [k Hk] & ->).
    cbn [held_by] in IH. rewrite app_nil_r in IH. rewrite Hk, drop_app_length, <-IH. done.
  - injection Hr as <-. sysn. rewrite IH, omap_app, <-(assoc_L (++)). cbn [held_by]. by destruct mb.
  - case_match; [|done]. by injection Hr as <-.
  - case_match; [|done]. by injection Hr as <-.
  - destruct t; [|done]. injection Hr as <-. sysn. rewrite IH, omap_app. cbn [held_by]. csimpl. by rewrite !app_nil_r.
Qed.

(** ** The bound *)

Definition bounded_write (M : Z) (mb : MultiBuffer) : Prop := Forall wf mb /\ Z.of_nat (length (contents mb)) <= M.

Definition bounded (M : Z) (s : system) : Prop :=
  Forall wf (stored (the_pipe s)) /\
  Z.of_nat (length (contents (stored (the_pipe s)))) <= limit (option_ (the_pipe s)) + M.

Lemma stored_size p : Forall wf (stored p) -> Z.of_nat (length (contents (stored p))) < 2 ^ 31 ->
  size_of p = Z.of_nat (length (contents (stored p))).
Proof. intros Hw Hl. unfold size_of. rewrite MultiBuffer_Len_contents by done. apply i32_small. fold (stored p). lia. Qed.

(** Only an accepted write adds to what is stored. *)
Lemma step_stored a s s' : step a s = Some s' ->
  option_ (the_pipe s') = option_ (the_pipe s) /\
  ((stored (the_pipe s') = stored (the_pipe s) \/ stored (the_pipe s') = []) /\ accepted s' = accepted s \/
   exists mb, isFull (option_ (the_pipe s)) (size_of (the_pipe s)) = false /\
     stored (the_pipe s') = stored (the_pipe s) ++ mb /\ accepted s' = accepted s ++ [mb]).
Proof.
  destruct a; cbn [step read_step write_step]; intros Hs.
  1-6: destruct (rpc s) as [|t|mb err|t]; try done; try (case_match; try done); injection Hs as <-; auto.
  2-6: destruct (wpc s) as [|mb'| |]; try done; try (case_match; try done); injection Hs as <-; auto.
  - unfold read_turn, readMultiBufferInternal. destruct (getState _ _) as [e|]; [auto|]. cbv zeta.
    destruct (data (the_pipe s)) as [d|] eqn:Hd; sysn; auto.
  - destruct (write_turn_cases s mb') as [(s' & _ & Hf & -> & ->)|[(_ & _ & ->)|(_ & ->)]].
    + split; [done|]. right. by exists mb'.
    + case_match; auto.
    + auto.
  - injection Hs as <-. unfold Close. destruct (state_ (the_pipe s)); auto.
  - injection Hs as <-. unfold Interrupt. destruct (state_ (the_pipe s)); auto. destruct (negb _); auto.
Qed.

Lemma option_reachable opts s : reachable opts s -> option_ (the_pipe s) = option_ (New opts).
Proof. induction 1 as [|a s s' _ IH Hs]; [done|]. by destruct (step_stored _ _ _ Hs) as [-> _]. Qed.

Lemma bounded_reachable opts M s : reachable opts s -> 0 <= M -> 0 <= limit (option_ (New opts)) ->
  limit (option_ (New opts)) + M < 2 ^ 31 -> Forall (bounded_write M) (accepted s) -> bounded M s.
Proof.
  intros Hr HM Hl Hlt. induction Hr as [|a s s' Hr IH Hs]; intros Ha.
  { split; [done|]. unfold stored, contents. simpl. simpl in Hl. lia. }
  pose proof (option_reachable _ _ Hr) as Ho. unfold bounded in *.
  destruct (step_stored _ _ _ Hs) as [-> [[Hst Heq]|(mb & Hf & Hst & Heq)]]; rewrite Heq in Ha; rewrite Ho in *.
  - specialize (IH Ha). destruct Hst as [-> | ->]; [done|]. split; [done|]. change (contents []) with (@nil byte). cbn [length]. lia.
  - apply Forall_app in Ha as [Ha [[Hwm Hmb] _]%Forall_cons]. destruct (IH Ha) as [Hw Hb]. rewrite Hst. split; [by apply Forall_app|].
    rewrite stored_size in Hf by (done || lia). unfold isFull in Hf. rewrite contents_app, length_app.
    destruct (Z.leb_spec 0 (limit (option_ (New opts)))); [|lia]. destruct (Z.ltb_spec (limit (option_ (New opts))) (Z.of_nat (length (contents (stored (the_pipe s)))))); [done|].
    lia.
Qed.

(** ** Waiting *)

Definition enabled (a : action) (s : system) : Prop := is_Some (step a s).

Lemma reader_progress s t : inv s -> rpc s = RWait t -> stored (the_pipe s) ≠ [] \/ state_ (the_pipe s) ≠ open ->
  enabled AReadWake s \/ enabled AReadDone s \/ wpc s = WNotify None.
Proof.
  intros Hi Hr Hor. unfold enabled. cbn [step read_step]. rewrite Hr. destruct Hor as [Hd|Hst].
  - destruct (inv_reader_wakes s Hi t Hr) as [-> | ->]; [unfold stored in Hd; by destruct (data (the_pipe s))|eauto..].
  - right; left. rewrite (inv_done s Hi), bool_decide_true by done. eauto.
Qed.

Lemma writer_progress s mb : inv s -> wpc s = WWait mb ->
  isFull (option_ (the_pipe s)) (size_of (the_pipe s)) = false \/ state_ (the_pipe s) ≠ open ->
  enabled AWriteWake s \/ enabled AWriteDone s \/ enabled AReadNotify s.
Proof.
  intros Hi Hw Hor. unfold enabled. cbn [step read_step write_step]. rewrite Hw.
  assert (state_ (the_pipe s) ≠ open -> done_ (the_pipe s) = true) as Hdone
    by (intros; rewrite (inv_done s Hi); by apply bool_decide_true).
  destruct Hor as [Hf|Hst].
  - destruct (inv_writer_wakes s Hi mb Hw Hf) as [-> |[(d & e & ->)| ->]]; eauto.
  - rewrite Hdone by done. eauto.
Qed.

Lemma enabled_notify s : wpc s = WNotify None -> enabled AWriteNotify s.
Proof. intros Hw. unfold enabled. cbn [step write_step]. rewrite Hw. eauto. Qed.

Lemma both_waiting s t mb : inv s -> rpc s = RWait t -> wpc s = WWait mb ->
  enabled AReadWake s \/ enabled AReadDone s \/ enabled AWriteWake s \/ enabled AWriteDone s.
Proof.
  intros Hi Hr Hw. destruct (decide (stored (the_pipe s) = [])) as [Hd|Hd].
  - destruct (writer_progress s mb Hi Hw) as [?|[?|[s' Hn]]]; [|auto..|].
    + left. unfold isFull, size_of. fold (stored (the_pipe s)). rewrite Hd. cbn.
      destruct (Z.leb_spec 0 (limit (option_ (the_pipe s)))); [|done]. apply Z.ltb_ge. lia.
    + cbn [step read_step] in Hn. by rewrite Hr in Hn.
  - destruct (reader_progress s t Hi Hr) as [?|[?|?]]; auto. congruence.
Qed.

(** ** Properties *)

(** C29: in every interleaving of a reader, a writer, Close and Interrupt the
    calls of ReadMultiBuffer return, in order and once each, buffers of the
    accepted writes: all of them except what is still stored, unless the pipe
    was interrupted. Whoever has seen EOF has seen every accepted buffer. *)
Theorem pipe_fifo opts s : reachable opts s ->
  taken s = omap fst (read_results s) ++ held_by (rpc s) /\
  concat (taken s) `prefix_of` concat (accepted s) /\
  (state_ (the_pipe s) ≠ errord -> concat (taken s) ++ stored (the_pipe s) = concat (accepted s)) /\
  (forall d, (d, Some EOF) ∈ read_results s -> concat (taken s) = concat (accepted s)).
Proof.
  intros Hr. pose proof (inv_reachable _ _ Hr) as Hi. split; [by eapply taken_results|]. split; [apply Hi|].
  split; [apply Hi|]. intros d Hd. destruct (eof_in_results s d Hi Hd) as [Hc Hn].
  rewrite <-(inv_fifo s Hi) by congruence. unfold stored. rewrite Hn. by rewrite app_nil_r.
Qed.

(** C39: no wake-up is lost. A reader waiting in its select while data is
    stored or the pipe is closed can leave it, or the writer is about to
    signal; a writer waiting while there is room or the pipe is closed can
    leave it, or the reader is about to signal; and when both wait, one of
    them can go on. *)
Theorem pipe_no_lost_wakeup opts s : reachable opts s ->
  (forall t, rpc s = RWait t -> stored (the_pipe s) ≠ [] \/ state_ (the_pipe s) ≠ open ->
    enabled AReadWake s \/ enabled AReadDone s \/ enabled AWriteNotify s) /\
  (forall mb, wpc s = WWait mb -> isFull (option_ (the_pipe s)) (size_of (the_pipe s)) = false \/ state_ (the_pipe s) ≠ open ->
    enabled AWriteWake s \/ enabled AWriteDone s \/ enabled AReadNotify s) /\
  (forall t mb, rpc s = RWait t -> wpc s = WWait mb ->
    enabled AReadWake s \/ enabled AReadDone s \/ enabled AWriteWake s \/ enabled AWriteDone s).
Proof.
  intros Hi%inv_reachable. split; [|split].
  - intros t Hr Hor. destruct (reader_progress s t Hi Hr Hor) as [?|[?|?%enabled_notify]]; auto.
  - intros mb. by apply writer_progress.
  - intros t mb. by apply both_waiting.
Qed.

(** With a size limit, and writes of at most M bytes each, the pipe
    never stores more than the limit plus M bytes. *)
Theorem pipe_bounded opts M s :
  reachable opts s -> 0 <= M -> 0 <= limit (option_ (New opts)) -> limit (option_ (New opts)) + M < 2 ^ 31 ->
  Forall (bounded_write M) (accepted s) ->
  Z.of_nat (length (contents (stored (the_pipe s)))) <= limit (option_ (New opts)) + M.
Proof.
  intros Hr HM Hl Hlt Ha. destruct (bounded_reachable opts M s Hr HM Hl Hlt Ha) as [_ Hb].
  by rewrite (option_reachable _ _ Hr) in Hb.
Qed.

(** Two writes of one buffer each, a read, Close, and reads up to EOF. *)
Definition sample_run : list action :=
  [AWrite [FromBytes (bs "ab")]; AWriteTry; AWriteNotify; AWrite [FromBytes (bs "c")]; AWriteTry; AWriteNotify;
   ARead false; AReadTry; AReadNotify; AWrite [FromBytes (bs "d")]; AWriteTry; AWriteNotify; AClose;
   ARead true; AReadTry; AReadNotify; ARead false; AReadTry; AReadNotify].

Definition sample_system : system := default (initial [WithSizeLimit 4]) (run sample_run (initial [WithSizeLimit 4])).

Lemma sample_reachable : reachable [WithSizeLimit 4] sample_system.
Proof. apply (run_reachable _ sample_run (initial [WithSizeLimit 4])); [apply reach_initial|].
  apply some_default. vm_compute. reflexivity.
Qed.

Example sample_results : read_results sample_system =
  [(Some [FromBytes (bs "ab"); FromBytes (bs "c")], None); (Some [FromBytes (bs "d")], None); (None, Some EOF)].
Proof. vm_compute. reflexivity. Qed.

Lemma pipe_fifo_witness : concat (taken sample_system) = concat (accepted sample_system).
Proof.
  refine (proj2 (proj2 (proj2 (pipe_fifo [WithSizeLimit 4] sample_system sample_reachable))) None _).
  rewrite sample_results. right. right. left.
Defined.

(** A reader that waits before anything is written. *)
Definition waiting_system : system :=
  default (initial []) (run [ARead false; AReadTry; AWrite [FromBytes (bs "ab")]; AWriteTry] (initial [])).

Lemma waiting_reachable : reachable [] waiting_system.
Proof.
  apply (run_reachable _ [ARead false; AReadTry; AWrite [FromBytes (bs "ab")]; AWriteTry] (initial [])); [apply reach_initial|].
  apply some_default. vm_compute. reflexivity.
Qed.

Lemma pipe_no_lost_wakeup_witness :
  enabled AReadWake waiting_system \/ enabled AReadDone waiting_system \/ enabled AWriteNotify waiting_system.
Proof.
  refine (proj1 (pipe_no_lost_wakeup [] waiting_system waiting_reachable) false _ _); [vm_compute; reflexivity|left; vm_compute; discriminate].
Defined.

Lemma pipe_bounded_witness : Z.of_nat (length (contents (stored (the_pipe sample_system)))) <= 4 + 2.
Proof.
  refine (pipe_bounded [WithSizeLimit 4] 2 sample_system sample_reachable _ _ _ _); [vm_compute; congruence..| |].
  { vm_compute. reflexivity. }
  change (accepted sample_system) with [[FromBytes (bs "ab")]; [FromBytes (bs "c")]; [FromBytes (bs "d")]].
  repeat (apply Forall_cons; split; [split; [by apply Forall_cons; split; [apply wf_FromBytes|]|done]|]). by apply Forall_nil.
Defined.
