(* ===== verification/KcpRoundTrip.v ===== *)
(** * Round-trip estimation of mKCP, [connection.go]

    The estimator of RFC 6298 in 32-bit arithmetic, and its bounds: no
    intermediate value wraps for the samples the code feeds it, and the
    timeout never exceeds 12.5 seconds unless the peer asked for more. *)

From S2P Require Import Prelude.

Local Open Scope Z_scope.

(** src/transport/internet/kcp/connection.go RoundTripInfo *)
Record RoundTripInfo := { variation : Z; srtt : Z; rto : Z; minRtt : Z; updatedTimestamp : Z }.

(** src/transport/internet/kcp/connection.go RoundTripInfo.UpdatePeerRTO *)
Definition UpdatePeerRTO (r current : Z) (info : RoundTripInfo) : RoundTripInfo :=
  if u32 (current - updatedTimestamp info) <? 3000 then info
  else {| variation := variation info; srtt := srtt info; rto := r; minRtt := minRtt info; updatedTimestamp := current |}.

(** The smoothed values, the first block of Update.
    src/transport/internet/kcp/connection.go:79-92 RoundTripInfo.Update *)
Definition smooth (rtt : Z) (info : RoundTripInfo) : Z * Z :=
  if srtt info =? 0 then (rtt / 2, rtt)
  else
    let delta := if rtt <? srtt info then u32 (srtt info - rtt) else u32 (rtt - srtt info) in
    let variation' := u32 (u32 (3 * variation info) + delta) / 4 in
    let srtt' := u32 (u32 (7 * srtt info) + rtt) / 8 in
    (variation', if srtt' <? minRtt info then minRtt info else srtt').

(** src/transport/internet/kcp/connection.go RoundTripInfo.Update *)
Definition Update (rtt current : Z) (info : RoundTripInfo) : RoundTripInfo :=
  if 0x7FFFFFFF <? rtt then info
  else
    let '(variation', srtt') := smooth rtt info in
    let rto' := if minRtt info <? u32 (4 * variation') then u32 (srtt' + u32 (4 * variation')) else u32 (srtt' + variation') in
    let rto' := if 10000 <? rto' then 10000 else rto' in
    {| variation := variation'; srtt := srtt'; rto := u32 (rto' * 5) / 4; minRtt := minRtt info; updatedTimestamp := current |}.

(** src/transport/internet/kcp/connection.go RoundTripInfo.Timeout *)
Definition Timeout (info : RoundTripInfo) : Z := rto info.
(** src/transport/internet/kcp/connection.go RoundTripInfo.SmoothedTime *)
Definition SmoothedTime (info : RoundTripInfo) : Z := srtt info.

(** ** Facts *)

(** The estimator over the integers, what the 32-bit code computes when
    nothing wraps. *)
Definition ideal_smooth (rtt : Z) (info : RoundTripInfo) : Z * Z :=
  if srtt info =? 0 then (rtt / 2, rtt)
  else ((3 * variation info + Z.abs (rtt - srtt info)) / 4, Z.max (minRtt info) ((7 * srtt info + rtt) / 8)).

Definition ideal_rto (info : RoundTripInfo) (v s : Z) : Z :=
  Z.min 10000 (if minRtt info <? 4 * v then s + 4 * v else s + v) * 5 / 4.

(** Samples are below ten seconds, so the smoothed values stay below
    [limit], the larger of that and the configured minimum. *)
Definition rtt_ok (limit : Z) (info : RoundTripInfo) : Prop :=
  0 <= variation info < limit /\ 0 <= srtt info < limit /\ 0 <= minRtt info < limit.

Lemma smooth_ideal limit rtt info : limit <= 2 ^ 28 -> rtt_ok limit info -> 0 <= rtt < limit ->
  smooth rtt info = ideal_smooth rtt info /\
  0 <= (ideal_smooth rtt info).1 < limit /\ 0 <= (ideal_smooth rtt info).2 < limit.
Proof.
  intros HL (Hv & Hs & Hm) Hr. unfold smooth, ideal_smooth.
  destruct (Z.eqb_spec (srtt info) 0); cbn [fst snd]; [split; [done|]; solve_wrap|].
  rewrite (u32_small (3 * variation info)), (u32_small (7 * srtt info)) by lia.
  assert ((if rtt <? srtt info then u32 (srtt info - rtt) else u32 (rtt - srtt info)) = Z.abs (rtt - srtt info)) as ->.
  { destruct (Z.ltb_spec rtt (srtt info)); rewrite u32_small by lia; lia. }
  rewrite !u32_small by lia. split.
  - f_equal. destruct (Z.ltb_spec ((7 * srtt info + rtt) / 8) (minRtt info)); lia.
  - split; [solve_wrap|]. apply Z.max_case; solve_wrap.
Qed.

Lemma Update_ideal limit rtt current info : limit <= 2 ^ 28 -> rtt_ok limit info -> 0 <= rtt < limit ->
  let '(v, s) := ideal_smooth rtt info in
  Update rtt current info =
    {| variation := v; srtt := s; rto := ideal_rto info v s; minRtt := minRtt info; updatedTimestamp := current |} /\
  rtt_ok limit (Update rtt current info) /\ 0 <= rto (Update rtt current info) <= 12500.
Proof.
  intros HL Hok Hr. destruct (smooth_ideal limit rtt info HL Hok Hr) as (Hs & Hv & Hss).
  unfold Update. destruct (Z.ltb_spec 0x7FFFFFFF rtt); [lia|]. rewrite Hs.
  destruct (ideal_smooth rtt info) as [v s]. cbn [fst snd] in Hv, Hss.
  rewrite (u32_small (4 * v)), (u32_small (s + 4 * v)), (u32_small (s + v)) by lia.
  assert (forall r, 0 <= r -> u32 ((if 10000 <? r then 10000 else r) * 5) / 4 = Z.min 10000 r * 5 / 4) as Hmin.
  { intros r ?. destruct (Z.ltb_spec 10000 r); rewrite u32_small by lia; [by rewrite Z.min_l by lia|by rewrite Z.min_r by lia]. }
  rewrite Hmin by (destruct (minRtt info <? 4 * v); lia). split; [done|].
  destruct Hok as (_ & _ & Hm). split; [done|]. cbn [rto].
  set (r := if minRtt info <? 4 * v then s + 4 * v else s + v).
  assert (0 <= r) by (unfold r; destruct (minRtt info <? 4 * v); lia). solve_wrap.
Qed.

(** What may happen to the estimator: samples below ten seconds, as
    [SendingWorker.ProcessSegment] guards them, and the peer's timeout. *)
Inductive rtt_step : RoundTripInfo -> RoundTripInfo -> Prop :=
  | rtt_sample rtt current info : 0 <= rtt < 10000 -> rtt_step info (Update rtt current info)
  | rtt_peer r current info : 0 <= r <= 12500 -> rtt_step info (UpdatePeerRTO r current info).

Definition rtt_initial (tti : Z) : RoundTripInfo :=
  {| variation := 0; srtt := 0; rto := 100; minRtt := tti; updatedTimestamp := 0 |}.

Lemma rtt_steps_ok tti info : 0 <= tti < 2 ^ 28 -> rtc rtt_step (rtt_initial tti) info ->
  rtt_ok (Z.max 10000 (tti + 1)) info /\ 0 <= rto info <= 12500 /\ minRtt info = tti.
Proof.
  intros Ht Hs. apply rtc_ind_r with (P := fun info => rtt_ok (Z.max 10000 (tti + 1)) info /\ 0 <= rto info <= 12500 /\ minRtt info = tti) in Hs; [done| |].
  - unfold rtt_ok, rtt_initial. simpl. lia.
  - intros info1 info2 _ Hstep (Hok & Hrto & Hm). destruct Hstep as [rtt current info1 Hr|r current info1 Hr].
    + pose proof (Update_ideal (Z.max 10000 (tti + 1)) rtt current info1 ltac:(lia) Hok ltac:(lia)) as Hu.
      destruct (ideal_smooth rtt info1) as [v s]. destruct Hu as (Heq & ? & ?). split; [done|]. split; [done|]. by rewrite Heq.
    + unfold UpdatePeerRTO. by destruct (u32 _ <? 3000).
Qed.

(** ** Properties *)

(** C40: starting from a new connection's estimator, for every sequence of
    samples below ten seconds and of peer timeouts that are themselves
    bounded, one more sample gives exactly the smoothed values of RFC 6298
    over the integers, with the minimum and the cap of the code: nothing
    wraps at 32 bits; and the timeout is never above 12500 ms. As in the code,
    and unlike in the RFC, a smoothed time of 0 counts as no sample yet, so
    that the next sample starts the estimator again. *)
Theorem rtt_estimator_exact tti info rtt current :
  0 <= tti < 2 ^ 28 -> rtc rtt_step (rtt_initial tti) info -> 0 <= rtt < 10000 ->
  Timeout info <= 12500 /\
  Update rtt current info =
    let '(v, s) := ideal_smooth rtt info in
    {| variation := v; srtt := s; rto := ideal_rto info v s; minRtt := tti; updatedTimestamp := current |}.
Proof.
  intros Ht Hs Hr. destruct (rtt_steps_ok tti info Ht Hs) as (Hok & Hrto & <-). split; [apply Hrto|].
  pose proof (Update_ideal (Z.max 10000 (minRtt info + 1)) rtt current info ltac:(lia) Hok ltac:(lia)) as Hu.
  destruct (ideal_smooth rtt info) as [v s]. apply Hu.
Qed.

Lemma rtt_estimator_exact_witness :
  rto (Update 300 20 (Update 200 10 (rtt_initial 50))) = 765 /\ Timeout (Update 200 10 (rtt_initial 50)) <= 12500.
Proof.
  destruct (rtt_estimator_exact 50 (Update 200 10 (rtt_initial 50)) 300 20) as [H1 H2]; [lia| |lia|].
  - apply rtc_once, rtt_sample. lia.
  - split; [rewrite H2; reflexivity|exact H1].
Defined.
