(* ===== verification/KcpSending.v ===== *)
(** * The sending side of mKCP, [sending.go]

    The window is the list of unacknowledged data segments; the operations of
    the worker take from the connection what they use of it: conversation,
    configuration, estimator and whether the state is [StateReadyToClose].
    A segment in the window is shared with the writer, which stamps it before
    it serializes it, so writing returns the stamped segment for both. *)

From S2P Require Import Prelude Segment KcpRoundTrip.

Local Open Scope Z_scope.

(** [a - b] of the code's [uint32]. *)
Definition sub32 (a b : Z) : Z := u32 (a - b).

(** ** The window *)

(** src/transport/internet/kcp/sending.go SendingWindow *)
Record SendingWindow := { cache : list DataSegment; totalInFlightSize : Z }.

(** src/transport/internet/kcp/sending.go NewSendingWindow *)
Definition NewSendingWindow : SendingWindow := {| cache := []; totalInFlightSize := 0 |}.

Definition set_cache (sw : SendingWindow) (c : list DataSegment) : SendingWindow :=
  {| cache := c; totalInFlightSize := totalInFlightSize sw |}.

(** src/transport/internet/kcp/sending.go SendingWindow.Release *)
Definition window_Release (sw : SendingWindow) : SendingWindow := set_cache sw [].

(** src/transport/internet/kcp/sending.go SendingWindow.Len *)
Definition window_Len (sw : SendingWindow) : Z := u32 (Z.of_nat (length (cache sw))).

(** src/transport/internet/kcp/sending.go SendingWindow.IsEmpty *)
Definition window_IsEmpty (sw : SendingWindow) : bool := Z.of_nat (length (cache sw)) =? 0.

(** src/transport/internet/kcp/sending.go SendingWindow.Push *)
Definition window_Push (number : Z) (b : bytes) (sw : SendingWindow) : SendingWindow :=
  set_cache sw (cache sw ++
    [{| d_Conv := 0; d_Option := 0; d_Timestamp := 0; d_Number := number; d_SendingNext := 0;
        d_payload := Some b; d_timeout := 0; d_transmit := 0 |}]).

(** The nil dereference on an empty list does not happen: callers test.
    src/transport/internet/kcp/sending.go SendingWindow.FirstNumber *)
Definition FirstNumber (sw : SendingWindow) : option Z := d_Number <$> head (cache sw).

(** src/transport/internet/kcp/sending.go:57-66 SendingWindow.Clear *)
Fixpoint clear_cache (una : Z) (c : list DataSegment) : list DataSegment :=
  match c with
  | [] => []
  | seg :: c' => if una <=? d_Number seg then c else clear_cache una c'
  end.

(** src/transport/internet/kcp/sending.go SendingWindow.Clear *)
Definition window_Clear (una : Z) (sw : SendingWindow) : SendingWindow := set_cache sw (clear_cache una (cache sw)).

(** The visitor works on a state of its own and may change the segment; it
    stops the walk by answering false.
    src/transport/internet/kcp/sending.go SendingWindow.Visit *)
Fixpoint Visit {S} (visitor : S -> DataSegment -> S * DataSegment * bool) (s : S) (c : list DataSegment) : S * list DataSegment :=
  match c with
  | [] => (s, [])
  | seg :: c' =>
      let '(s', seg', continue) := visitor s seg in
      if continue : bool then let '(s'', c'') := Visit visitor s' c' in (s'', seg' :: c'') else (s', seg' :: c')
  end.

Definition set_timeout (seg : DataSegment) (t : Z) : DataSegment :=
  {| d_Conv := d_Conv seg; d_Option := d_Option seg; d_Timestamp := d_Timestamp seg; d_Number := d_Number seg;
     d_SendingNext := d_SendingNext seg; d_payload := d_payload seg; d_timeout := t; d_transmit := d_transmit seg |}.

(** src/transport/internet/kcp/sending.go:73-82 SendingWindow.HandleFastAck *)
Definition fast_ack_visitor (number rto : Z) (_ : unit) (seg : DataSegment) : unit * DataSegment * bool :=
  if (number =? d_Number seg) || (0x7FFFFFFF <? sub32 number (d_Number seg)) then (tt, seg, false)
  else (tt, if (0 <? d_transmit seg) && (rto / 3 <? d_timeout seg) then set_timeout seg (d_timeout seg - rto / 3) else seg, true).

(** src/transport/internet/kcp/sending.go SendingWindow.HandleFastAck *)
Definition HandleFastAck (number rto : Z) (sw : SendingWindow) : SendingWindow :=
  if window_IsEmpty sw then sw else set_cache sw (Visit (fast_ack_visitor number rto) tt (cache sw)).2.

(** The captured variables of Flush and what it hands to the writer. *)
Record flushing := { lost : Z; inFlightSize : Z; total : Z; written_segments : list DataSegment }.

(** [stamp] is the writer's change of the segment before it serializes it.
    src/transport/internet/kcp/sending.go:106-123 SendingWindow.Flush *)
Definition flush_visitor (stamp : DataSegment -> DataSegment) (current rto maxInFlightSize : Z)
    (s : flushing) (seg : DataSegment) : flushing * DataSegment * bool :=
  if 0x7FFFFFFF <=? sub32 current (d_timeout seg) then (s, seg, true)
  else
    let first := d_transmit seg =? 0 in
    let seg' := stamp {| d_Conv := d_Conv seg; d_Option := d_Option seg; d_Timestamp := current; d_Number := d_Number seg;
      d_SendingNext := d_SendingNext seg; d_payload := d_payload seg; d_timeout := u32 (current + rto);
      d_transmit := u32 (d_transmit seg + 1) |} in
    let s' := {| lost := if first then lost s else u32 (lost s + 1); inFlightSize := u32 (inFlightSize s + 1);
      total := if first then u32 (total s + 1) else total s; written_segments := written_segments s ++ [seg'] |} in
    (s', seg', inFlightSize s' <? maxInFlightSize).

(** The window, the segments written, and the loss rate reported, if any.
    src/transport/internet/kcp/sending.go SendingWindow.Flush *)
Definition window_Flush (stamp : DataSegment -> DataSegment) (current rto maxInFlightSize : Z) (sw : SendingWindow)
    : SendingWindow * list DataSegment * option Z :=
  if window_IsEmpty sw then (sw, [], None)
  else
    let '(s, c) := Visit (flush_visitor stamp current rto maxInFlightSize)
      {| lost := 0; inFlightSize := 0; total := totalInFlightSize sw; written_segments := [] |} (cache sw) in
    ({| cache := c; totalInFlightSize := total s |}, written_segments s,
     if (0 <? inFlightSize s) && negb (total s =? 0) then Some (u32 (lost s * 100) / total s) else None).

(** src/transport/internet/kcp/sending.go:136-150 SendingWindow.Remove *)
Fixpoint remove_cache (number : Z) (c : list DataSegment) : option (list DataSegment) :=
  match c with
  | [] => None
  | seg :: c' =>
      if number <? d_Number seg then None
      else if d_Number seg =? number then Some c'
      else (fun r => seg :: r) <$> remove_cache number c'
  end.

(** src/transport/internet/kcp/sending.go SendingWindow.Remove *)
Definition window_Remove (number : Z) (sw : SendingWindow) : SendingWindow * bool :=
  match remove_cache number (cache sw) with
  | None => (sw, false)
  | Some c => ({| cache := c; totalInFlightSize :=
      if 0 <? totalInFlightSize sw then totalInFlightSize sw - 1 else totalInFlightSize sw |}, true)
  end.

(** ** The worker *)

(** src/transport/internet/kcp/sending.go SendingWorker *)
Record SendingWorker := {
  window : SendingWindow; firstUnacknowledged : Z; nextNumber : Z; remoteNextNumber : Z; controlWindow : Z;
  fastResend : Z; windowSize : Z; firstUnacknowledgedUpdated : bool; closed : bool
}.

(** [None] when the configuration panics.
    src/transport/internet/kcp/sending.go NewSendingWorker *)
Definition NewSendingWorker (c : Config) : option SendingWorker :=
  inFlight ← GetSendingInFlightSize c;
  bufferSize ← GetSendingBufferSize c;
  Some {| window := NewSendingWindow; firstUnacknowledged := 0; nextNumber := 0; remoteNextNumber := 32;
          controlWindow := inFlight; fastResend := 2; windowSize := bufferSize;
          firstUnacknowledgedUpdated := false; closed := false |}.

Definition set_window (w : SendingWorker) (sw : SendingWindow) : SendingWorker :=
  {| window := sw; firstUnacknowledged := firstUnacknowledged w; nextNumber := nextNumber w;
     remoteNextNumber := remoteNextNumber w; controlWindow := controlWindow w; fastResend := fastResend w;
     windowSize := windowSize w; firstUnacknowledgedUpdated := firstUnacknowledgedUpdated w; closed := closed w |}.
Definition set_first (w : SendingWorker) (first : Z) (updated : bool) : SendingWorker :=
  {| window := window w; firstUnacknowledged := first; nextNumber := nextNumber w;
     remoteNextNumber := remoteNextNumber w; controlWindow := controlWindow w; fastResend := fastResend w;
     windowSize := windowSize w; firstUnacknowledgedUpdated := updated; closed := closed w |}.
Definition set_remote (w : SendingWorker) (remote : Z) : SendingWorker :=
  {| window := window w; firstUnacknowledged := firstUnacknowledged w; nextNumber := nextNumber w;
     remoteNextNumber := remote; controlWindow := controlWindow w; fastResend := fastResend w;
     windowSize := windowSize w; firstUnacknowledgedUpdated := firstUnacknowledgedUpdated w; closed := closed w |}.
Definition set_control (w : SendingWorker) (control : Z) : SendingWorker :=
  {| window := window w; firstUnacknowledged := firstUnacknowledged w; nextNumber := nextNumber w;
     remoteNextNumber := remoteNextNumber w; controlWindow := control; fastResend := fastResend w;
     windowSize := windowSize w; firstUnacknowledgedUpdated := firstUnacknowledgedUpdated w; closed := closed w |}.

(** src/transport/internet/kcp/sending.go SendingWorker.Release *)
Definition Release (w : SendingWorker) : SendingWorker :=
  {| window := window_Release (window w); firstUnacknowledged := firstUnacknowledged w; nextNumber := nextNumber w;
     remoteNextNumber := remoteNextNumber w; controlWindow := controlWindow w; fastResend := fastResend w;
     windowSize := windowSize w; firstUnacknowledgedUpdated := firstUnacknowledgedUpdated w; closed := true |}.

(** src/transport/internet/kcp/sending.go SendingWorker.FindFirstUnacknowledged *)
Definition FindFirstUnacknowledged (w : SendingWorker) : SendingWorker :=
  let first := default (nextNumber w) (FirstNumber (window w)) in
  set_first w first (if firstUnacknowledged w =? first then firstUnacknowledgedUpdated w else true).

(** src/transport/internet/kcp/sending.go SendingWorker.ProcessReceivingNextWithoutLock *)
Definition ProcessReceivingNextWithoutLock (nextNumber : Z) (w : SendingWorker) : SendingWorker :=
  FindFirstUnacknowledged (set_window w (window_Clear nextNumber (window w))).

(** src/transport/internet/kcp/sending.go SendingWorker.ProcessReceivingNext *)
Definition ProcessReceivingNext (nextNumber : Z) (w : SendingWorker) : SendingWorker :=
  ProcessReceivingNextWithoutLock nextNumber w.

(** src/transport/internet/kcp/sending.go SendingWorker.processAck *)
Definition processAck (number : Z) (w : SendingWorker) : SendingWorker * bool :=
  if (0x7FFFFFFF <? sub32 number (firstUnacknowledged w)) || (sub32 number (nextNumber w) <? 0x7FFFFFFF) then (w, false)
  else
    let '(sw, removed) := window_Remove number (window w) in
    if removed : bool then (FindFirstUnacknowledged (set_window w sw), true) else (set_window w sw, false).

(** The loop over the acknowledged numbers.
    src/transport/internet/kcp/sending.go:242-250 SendingWorker.ProcessSegment *)
Fixpoint process_acks (numbers : list Z) (maxack : Z) (maxackRemoved : bool) (w : SendingWorker) : SendingWorker * Z * bool :=
  match numbers with
  | [] => (w, maxack, maxackRemoved)
  | number :: numbers' =>
      let '(w', removed) := processAck number w in
      if maxack <? number then process_acks numbers' number removed w' else process_acks numbers' maxack maxackRemoved w'
  end.

(** The worker and the connection's estimator.
    src/transport/internet/kcp/sending.go SendingWorker.ProcessSegment *)
Definition ProcessSegment (current : Z) (seg : AckSegment) (rto : Z) (roundTrip : RoundTripInfo) (w : SendingWorker)
    : SendingWorker * RoundTripInfo :=
  if closed w then (w, roundTrip)
  else
    let w := if remoteNextNumber w <? a_ReceivingWindow seg then set_remote w (a_ReceivingWindow seg) else w in
    let w := ProcessReceivingNextWithoutLock (a_ReceivingNext seg) w in
    if ack_IsEmpty seg then (w, roundTrip)
    else
      let '(w, maxack, maxackRemoved) := process_acks (a_NumberList seg) 0 false w in
      if maxackRemoved : bool then
        (set_window w (HandleFastAck maxack rto (window w)),
         if sub32 current (a_Timestamp seg) <? 10000 then Update (sub32 current (a_Timestamp seg)) current roundTrip else roundTrip)
      else (w, roundTrip).

(** [None] when the worker refuses.
    src/transport/internet/kcp/sending.go SendingWorker.Push *)
Definition Push (b : bytes) (w : SendingWorker) : option SendingWorker :=
  if closed w then None
  else if windowSize w <? window_Len (window w) then None
  else Some {| window := window_Push (nextNumber w) b (window w); firstUnacknowledged := firstUnacknowledged w;
               nextNumber := u32 (nextNumber w + 1); remoteNextNumber := remoteNextNumber w;
               controlWindow := controlWindow w; fastResend := fastResend w; windowSize := windowSize w;
               firstUnacknowledgedUpdated := firstUnacknowledgedUpdated w; closed := closed w |}.

(** What the worker writes into a segment before it passes it on.
    src/transport/internet/kcp/sending.go SendingWorker.Write *)
Definition Write (conv : Z) (readyToClose : bool) (w : SendingWorker) (dataSeg : DataSegment) : DataSegment :=
  {| d_Conv := conv; d_Option := if readyToClose then SegmentOptionClose else 0; d_Timestamp := d_Timestamp dataSeg;
     d_Number := d_Number dataSeg; d_SendingNext := firstUnacknowledged w; d_payload := d_payload dataSeg;
     d_timeout := d_timeout dataSeg; d_transmit := d_transmit dataSeg |}.

(** [inFlight] is [Config.GetSendingInFlightSize()].
    src/transport/internet/kcp/sending.go SendingWorker.OnPacketLoss *)
Definition OnPacketLoss (congestion : bool) (inFlight timeout lossRate : Z) (w : SendingWorker) : SendingWorker :=
  if negb congestion || (timeout =? 0) then w
  else
    let c := controlWindow w in
    let c := if 15 <=? lossRate then u32 (3 * c) / 4 else if lossRate <=? 5 then u32 (c + c / 4) else c in
    let c := if c <? 16 then 16 else c in
    set_control w (if u32 (2 * inFlight) <? c then u32 (2 * inFlight) else c).

(** src/transport/internet/kcp/sending.go:316-324 SendingWorker.Flush *)
Definition flush_cwnd (congestion : bool) (inFlight : Z) (w : SendingWorker) : Z :=
  let cwnd := if sub32 (remoteNextNumber w) (firstUnacknowledged w) <? inFlight
              then sub32 (remoteNextNumber w) (firstUnacknowledged w) else inFlight in
  let cwnd := if congestion && (controlWindow w <? cwnd) then controlWindow w else cwnd in
  u32 (cwnd * 20).

(** The worker, the segments written, and whether it pings afterwards.
    src/transport/internet/kcp/sending.go SendingWorker.Flush *)
Definition Flush (conv : Z) (readyToClose congestion : bool) (inFlight timeout current : Z) (w : SendingWorker)
    : SendingWorker * list DataSegment * bool :=
  if closed w then (w, [], false)
  else
    let '(w, out) :=
      if negb (window_IsEmpty (window w)) then
        let '(sw, out, loss) := window_Flush (Write conv readyToClose w) current timeout (flush_cwnd congestion inFlight w) (window w) in
        let w := set_window w sw in
        let w := match loss with Some rate => OnPacketLoss congestion inFlight timeout rate w | None => w end in
        (set_first w (firstUnacknowledged w) false, out)
      else (w, []) in
    (set_first w (firstUnacknowledged w) false, out, firstUnacknowledgedUpdated w).

(** src/transport/internet/kcp/sending.go SendingWorker.CloseWrite *)
Definition CloseWrite (w : SendingWorker) : SendingWorker := set_window w (window_Clear 0xFFFFFFFF (window w)).

(** src/transport/internet/kcp/sending.go SendingWorker.IsEmpty *)
Definition IsEmpty (w : SendingWorker) : bool := window_IsEmpty (window w).
(** src/transport/internet/kcp/sending.go SendingWorker.UpdateNecessary *)
Definition UpdateNecessary (w : SendingWorker) : bool := negb (IsEmpty w).
(** src/transport/internet/kcp/sending.go SendingWorker.FirstUnacknowledged *)
Definition FirstUnacknowledged (w : SendingWorker) : Z := firstUnacknowledged w.
