(* ===== verification/KcpSendingFacts.v ===== *)
(** * Facts about the sending side of mKCP

    On a sorted window the list operations are filters, so the worker's
    window is the set of numbers pushed and not yet acknowledged; flushing
    writes the due segments in order.  The numbers are those of a connection
    that has not wrapped its 32-bit counter. *)

From S2P Require Import Prelude Segment SegmentFacts KcpRoundTrip KcpSending.

Local Open Scope Z_scope.

Definition numbers (c : list DataSegment) : list Z := d_Number <$> c.

(** What a segment carries; the rest is retransmission state. *)
Definition key (seg : DataSegment) : Z * option bytes := (d_Number seg, d_payload seg).
Definition keys (c : list DataSegment) : list (Z * option bytes) := key <$> c.

Lemma numbers_keys c : numbers c = fst <$> keys c.
Proof. unfold numbers, keys. by rewrite <-list_fmap_compose. Qed.

Definition sorted (c : list DataSegment) : Prop := StronglySorted Z.lt (numbers c).

Lemma sorted_cons seg c : sorted (seg :: c) -> sorted c /\ (forall s, s ∈ c -> d_Number seg < d_Number s).
Proof.
  unfold sorted, numbers. rewrite fmap_cons. inversion_clear 1 as [|? ? Hs Hf]. split; [done|].
  rewrite Forall_forall in Hf. intros s Hin. apply Hf, list_elem_of_fmap. eauto.
Qed.

Lemma sorted_sublist c c' : sublist c' c -> sorted c -> sorted c'.
Proof.
  intros Hsub. induction Hsub as [|seg c' c Hsub IH|seg c' c Hsub IH]; intros Hs; [done| |].
  - destruct (sorted_cons _ _ Hs) as [Hc Hlt]. unfold sorted, numbers. rewrite fmap_cons. constructor; [by apply IH|].
    apply Forall_forall. intros n (s & -> & Hin)%list_elem_of_fmap. apply Hlt. by eapply elem_of_submseteq, sublist_submseteq.
  - apply IH. by destruct (sorted_cons _ _ Hs).
Qed.

Lemma sorted_filter (P : DataSegment -> Prop) `{forall s, Decision (P s)} c : sorted c -> sorted (filter P c).
Proof. apply sorted_sublist, sublist_filter. Qed.

(** ** The loops as filters *)

Lemma filter_all {A} (P : A -> Prop) `{forall x, Decision (P x)} (l : list A) : (forall x, x ∈ l -> P x) -> filter P l = l.
Proof.
  induction l as [|x l IH]; intros Hl; [done|]. rewrite filter_cons_True by (apply Hl; by left).
  f_equal. apply IH. intros. apply Hl. by right.
Qed.

Lemma clear_cache_filter una c : sorted c -> clear_cache una c = filter (fun s => una <= d_Number s) c.
Proof.
  induction c as [|seg c IH]; intros Hs; [done|]. destruct (sorted_cons _ _ Hs) as [Hc Hlt]. cbn [clear_cache].
  rewrite filter_cons. destruct (Z.leb_spec una (d_Number seg)).
  - rewrite decide_True by done. f_equal. symmetry. apply filter_all. intros s Hin. specialize (Hlt s Hin). lia.
  - rewrite decide_False by lia. by apply IH.
Qed.

Lemma remove_cache_filter number c : sorted c ->
  remove_cache number c = if decide (number ∈ numbers c) then Some (filter (fun s => d_Number s ≠ number) c) else None.
Proof.
  induction c as [|seg c IH]; intros Hs; [done|]. destruct (sorted_cons _ _ Hs) as [Hc Hlt]. cbn [remove_cache].
  assert (forall s, s ∈ c -> d_Number seg < d_Number s) as Hlt' by done.
  destruct (Z.ltb_spec number (d_Number seg)) as [Hn|Hn].
  { rewrite decide_False; [done|]. intros (s & -> & [->|Hin]%elem_of_cons)%list_elem_of_fmap; [lia|]. specialize (Hlt s Hin). lia. }
  destruct (Z.eqb_spec (d_Number seg) number) as [<-|Hne].
  - rewrite decide_True by (unfold numbers; rewrite fmap_cons; by left). rewrite filter_cons_False by naive_solver.
    f_equal. symmetry. apply filter_all. intros s Hin. specialize (Hlt s Hin). lia.
  - rewrite IH by done. rewrite filter_cons_True by done. unfold numbers. rewrite fmap_cons.
    destruct (decide (number ∈ d_Number <$> c)) as [Hin|Hin].
    + by rewrite decide_True by (by right).
    + rewrite decide_False; [done|]. intros [?|?]%elem_of_cons; [congruence|done].
Qed.

(** A visitor that leaves what a segment carries alone leaves the window's. *)
Lemma Visit_keys {S} (visitor : S -> DataSegment -> S * DataSegment * bool) s c :
  (forall s seg, key (visitor s seg).1.2 = key seg) -> keys (Visit visitor s c).2 = keys c.
Proof.
  intros Hv. revert s. induction c as [|seg c IH]; intros s; [done|]. cbn [Visit].
  pose proof (Hv s seg) as Hk. destruct (visitor s seg) as [[s' seg'] []]; cbn [fst snd] in Hk.
  - specialize (IH s'). destruct (Visit visitor s' c) as [s'' c'']. cbn [snd] in *. unfold keys in *. by rewrite !fmap_cons, IH, Hk.
  - unfold keys. cbn [snd]. by rewrite !fmap_cons, Hk.
Qed.

Lemma HandleFastAck_keys number rto sw : keys (cache (HandleFastAck number rto sw)) = keys (cache sw).
Proof.
  unfold HandleFastAck. destruct (window_IsEmpty sw); [done|]. apply Visit_keys.
  intros s seg. unfold fast_ack_visitor. destruct (_ || _); [done|]. by destruct (_ && _).
Qed.

(** ** Flushing *)

Section Flush.
Context (stamp : DataSegment -> DataSegment) (current rto maxInFlight : Z).

Definition due (seg : DataSegment) : bool := sub32 current (d_timeout seg) <? 0x7FFFFFFF.

Definition sent (seg : DataSegment) : DataSegment :=
  stamp {| d_Conv := d_Conv seg; d_Option := d_Option seg; d_Timestamp := current; d_Number := d_Number seg;
    d_SendingNext := d_SendingNext seg; d_payload := d_payload seg; d_timeout := u32 (current + rto);
    d_transmit := u32 (d_transmit seg + 1) |}.

(** The window after sending the first [k] due segments, and these. *)
Fixpoint flush_spec (k : nat) (c : list DataSegment) : list DataSegment * list DataSegment :=
  match c with
  | [] => ([], [])
  | seg :: c' =>
      if due seg then
        match k with
        | O => (c, [])
        | S k' => let '(c'', out) := flush_spec k' c' in (sent seg :: c'', sent seg :: out)
        end
      else let '(c'', out) := flush_spec k c' in (seg :: c'', out)
  end.

Lemma flush_spec_O c : flush_spec 0 c = (c, []).
Proof. induction c as [|seg c IH]; [done|]. cbn [flush_spec]. destruct (due seg); [done|]. by rewrite IH. Qed.

Lemma flush_spec_out k c : (flush_spec k c).2 = sent <$> take k (filter (fun s => due s = true) c).
Proof.
  revert k. induction c as [|seg c IH]; intros k; cbn [flush_spec]; [by rewrite filter_nil, take_nil|].
  rewrite filter_cons. destruct (due seg) eqn:Hd.
  - rewrite decide_True by done. destruct k as [|k]; [done|]. specialize (IH k).
    destruct (flush_spec k c) as [c'' out]. cbn [snd take] in *. by rewrite fmap_cons, IH.
  - rewrite decide_False by done. specialize (IH k). by destruct (flush_spec k c).
Qed.

Lemma Visit_flush c s : 0 <= inFlightSize s -> inFlightSize s + Z.of_nat (length c) < 2 ^ 32 ->
  inFlightSize s < Z.max 1 maxInFlight ->
  let k := Z.to_nat (Z.max 1 maxInFlight - inFlightSize s) in
  let r := Visit (flush_visitor stamp current rto maxInFlight) s c in
  r.2 = (flush_spec k c).1 /\ written_segments r.1 = written_segments s ++ (flush_spec k c).2.
Proof.
  revert s. induction c as [|seg c IH]; intros s Hs0 Hs Hlt; cbv zeta.
  { cbn. by rewrite app_nil_r. }
  cbn [Visit flush_spec]. unfold flush_visitor at 1 3. unfold due.
  rewrite (Z.leb_antisym (sub32 current (d_timeout seg)) 0x7FFFFFFF).
  cbn [length] in Hs. rewrite Nat2Z.inj_succ in Hs.
  destruct (sub32 current (d_timeout seg) <? 0x7FFFFFFF); cbn [negb].
  - destruct (Z.to_nat (Z.max 1 maxInFlight - inFlightSize s)) as [|k] eqn:Hk; [lia|].
    cbn [inFlightSize]. rewrite (u32_small (inFlightSize s + 1)) by lia.
    destruct (Z.ltb_spec (inFlightSize s + 1) maxInFlight) as [Hm|Hm].
    + match goal with |- context [Visit _ ?s' c] => specialize (IH s') end. cbn [inFlightSize written_segments] in IH.
      destruct IH as [IH1 IH2]; [lia..|].
      replace (Z.to_nat (Z.max 1 maxInFlight - (inFlightSize s + 1))) with k in IH1, IH2 by lia.
      match goal with |- context [Visit _ ?s' c] => destruct (Visit (flush_visitor stamp current rto maxInFlight) s' c) as [s'' c''] end.
      cbn [fst snd] in *. destruct (flush_spec k c) as [cs out]. cbn [fst snd] in *. subst c''. rewrite IH2, <-(assoc_L (++)). done.
    + assert (k = 0%nat) as -> by lia. rewrite flush_spec_O. done.
  - specialize (IH s Hs0 ltac:(lia) Hlt). cbv zeta in IH. destruct IH as [IH1 IH2].
    destruct (Visit (flush_visitor stamp current rto maxInFlight) s c) as [s'' c''].
    destruct (flush_spec _ c) as [cs out]. cbn [fst snd] in *. by subst.
Qed.

Lemma window_Flush_spec sw : Z.of_nat (length (cache sw)) < 2 ^ 32 ->
  cache (window_Flush stamp current rto maxInFlight sw).1.1 = (flush_spec (Z.to_nat (Z.max 1 maxInFlight)) (cache sw)).1 /\
  (window_Flush stamp current rto maxInFlight sw).1.2 = (flush_spec (Z.to_nat (Z.max 1 maxInFlight)) (cache sw)).2.
Proof.
  intros Hl. unfold window_Flush, window_IsEmpty. destruct (Z.eqb_spec (Z.of_nat (length (cache sw))) 0) as [H0|H0].
  { by destruct sw as [[|] ?]. }
  pose proof (Visit_flush (cache sw) {| lost := 0; inFlightSize := 0; total := totalInFlightSize sw; written_segments := [] |}) as HV.
  cbn [inFlightSize written_segments] in HV. destruct HV as [H1 H2]; [lia..|]. rewrite Z.sub_0_r in H1, H2.
  destruct (Visit _ _ _) as [s c]. cbn [fst snd app] in *. done.
Qed.

Lemma flush_spec_keys k c : (forall s, key (stamp s) = key s) -> keys (flush_spec k c).1 = keys c.
Proof.
  intros Hst. revert k. induction c as [|seg c IH]; intros k; [done|]. cbn [flush_spec].
  destruct (due seg); [destruct k as [|k]; [done|]|].
  - specialize (IH k). destruct (flush_spec k c) as [c'' out]. cbn [fst] in *. unfold keys in *. rewrite !fmap_cons, IH.
    unfold sent. by rewrite Hst.
  - specialize (IH k). destruct (flush_spec k c) as [c'' out]. cbn [fst] in *. unfold keys in *. by rewrite !fmap_cons, IH.
Qed.
End Flush.

(** ** The worker *)

(** The window holds, in order, numbers between the first unacknowledged and
    the next one; the counter has not wrapped. *)
Record inv (w : SendingWorker) : Prop := {
  inv_sorted : sorted (cache (window w));
  inv_range : forall n, n ∈ numbers (cache (window w)) -> firstUnacknowledged w <= n < nextNumber w;
  inv_first : 0 <= firstUnacknowledged w <= nextNumber w;
  inv_next : nextNumber w < 2 ^ 32;
}.

Lemma elem_of_numbers n c : n ∈ numbers c <-> exists p, (n, p) ∈ keys c.
Proof.
  rewrite numbers_keys, list_elem_of_fmap. split; [intros ([n' p] & -> & H); eauto|]. intros [p H]. by exists (n, p).
Qed.

Lemma inv_keys w w' : keys (cache (window w')) = keys (cache (window w)) ->
  firstUnacknowledged w' = firstUnacknowledged w -> nextNumber w' = nextNumber w -> inv w -> inv w'.
Proof.
  intros Hk Hf Hn [I1 I2 I3 I4]. split; unfold sorted in *; rewrite ?Hf, ?Hn, ?numbers_keys, ?Hk, <-?numbers_keys; done.
Qed.

(** Dropping segments and moving the first unacknowledged number on. *)
Lemma inv_sublist w sw : inv w -> sublist (cache sw) (cache (window w)) ->
  let w' := FindFirstUnacknowledged (set_window w sw) in
  inv w' /\ nextNumber w' = nextNumber w /\ firstUnacknowledged w <= firstUnacknowledged w' /\
  cache (window w') = cache sw /\ closed w' = closed w.
Proof.
  intros [I1 I2 I3 I4] Hsub w'.
  assert (sorted (cache sw)) as Hs by by eapply sorted_sublist.
  assert (forall n, n ∈ numbers (cache sw) -> firstUnacknowledged w <= n < nextNumber w) as Hr.
  { intros n Hn. apply I2. unfold numbers in *. apply list_elem_of_fmap in Hn as (s & -> & Hs').
    apply list_elem_of_fmap. exists s. split; [done|]. by eapply elem_of_submseteq, sublist_submseteq. }
  assert (firstUnacknowledged w <= firstUnacknowledged w' <= nextNumber w /\
    forall n, n ∈ numbers (cache sw) -> firstUnacknowledged w' <= n) as [Hf Hle].
  { unfold w', FindFirstUnacknowledged. cbn [firstUnacknowledged set_first window set_window nextNumber]. unfold FirstNumber.
    destruct (cache sw) as [|seg c]; cbn [head fmap option_fmap option_map default from_option id].
    - split; [lia|]. by intros n ?%not_elem_of_nil.
    - destruct (sorted_cons _ _ Hs) as [_ Hlt]. pose proof (Hr (d_Number seg) ltac:(by left)). split; [lia|].
      intros n (s & -> & [->|Hin]%elem_of_cons)%list_elem_of_fmap; [lia|]. specialize (Hlt s Hin). lia. }
  split; [|split; [done|]; split; [lia|done]]. split; try done.
  - intros n Hn. specialize (Hr n Hn). specialize (Hle n Hn). change (nextNumber w') with (nextNumber w). lia.
  - change (nextNumber w') with (nextNumber w). lia.
Qed.

(** Every number of the window passes the modular guard of [processAck]. *)
Lemma processAck_spec n w : inv w -> nextNumber w - firstUnacknowledged w <= 2 ^ 31 ->
  let w' := (processAck n w).1 in
  inv w' /\ nextNumber w' = nextNumber w /\ firstUnacknowledged w <= firstUnacknowledged w' /\
  cache (window w') = filter (fun s => d_Number s ≠ n) (cache (window w)) /\ closed w' = closed w.
Proof.
  intros Hi Hd. unfold processAck. pose proof Hi as [I1 I2 I3 I4].
  assert (n ∉ numbers (cache (window w)) -> filter (fun s => d_Number s ≠ n) (cache (window w)) = cache (window w)) as Hno.
  { intros Hn. apply filter_all. intros s Hin Heq. apply Hn, list_elem_of_fmap. eauto. }
  destruct ((0x7FFFFFFF <? sub32 n (firstUnacknowledged w)) || (sub32 n (nextNumber w) <? 0x7FFFFFFF)) eqn:Hg; cbn [fst].
  - rewrite Hno; [done|]. intros Hn%I2. apply orb_true_iff in Hg. unfold sub32, u32 in Hg.
    rewrite !Z.ltb_lt in Hg. solve_wrap.
  - unfold window_Remove. rewrite remove_cache_filter by done.
    destruct (decide (n ∈ numbers (cache (window w)))) as [Hn|Hn]; cbn [fst].
    + apply (inv_sublist w {| cache := _; totalInFlightSize := _ |} Hi). apply sublist_filter.
    + rewrite Hno by done. by destruct w.
Qed.

Lemma process_acks_spec ns maxack removed w : inv w -> nextNumber w - firstUnacknowledged w <= 2 ^ 31 ->
  let w' := (process_acks ns maxack removed w).1.1 in
  inv w' /\ nextNumber w' = nextNumber w /\ firstUnacknowledged w <= firstUnacknowledged w' /\
  cache (window w') = filter (fun s => d_Number s ∉ ns) (cache (window w)) /\ closed w' = closed w.
Proof.
  revert maxack removed w. induction ns as [|n ns IH]; intros maxack removed w Hi Hd; cbn [process_acks].
  { cbn [fst]. split; [done|]. split; [done|]. split; [lia|]. split; [|done]. symmetry. apply filter_all. intros s _ ?%not_elem_of_nil. done. }
  destruct (processAck_spec n w Hi Hd) as (Hi' & Hn' & Hf' & Hc' & Hcl). destruct (processAck n w) as [w1 r]. cbn [fst] in *.
  assert (forall m r', let w' := (process_acks ns m r' w1).1.1 in
    inv w' /\ nextNumber w' = nextNumber w /\ firstUnacknowledged w <= firstUnacknowledged w' /\
    cache (window w') = filter (fun s => d_Number s ∉ n :: ns) (cache (window w)) /\ closed w' = closed w) as Hgo.
  { intros m r'. destruct (IH m r' w1 Hi' ltac:(lia)) as (? & ? & ? & Hc2 & ?). split; [done|]. split; [congruence|]. split; [lia|].
    split; [|congruence]. rewrite Hc2, Hc', list_filter_filter. apply list_filter_iff. intros s. rewrite not_elem_of_cons. tauto. }
  destruct (maxack <? n); apply Hgo.
Qed.

(** The acknowledged numbers leave, all others stay, in order. *)
Definition unacked (seg : AckSegment) (s : DataSegment) : Prop :=
  a_ReceivingNext seg <= d_Number s /\ d_Number s ∉ a_NumberList seg.
#[export] Instance unacked_dec seg s : Decision (unacked seg s).
Proof. unfold unacked. apply _. Defined.

Lemma ProcessReceivingNext_spec una w : inv w ->
  let w' := ProcessReceivingNext una w in
  inv w' /\ nextNumber w' = nextNumber w /\ firstUnacknowledged w <= firstUnacknowledged w' /\
  cache (window w') = filter (fun s => una <= d_Number s) (cache (window w)) /\ closed w' = closed w.
Proof.
  intros Hi. pose proof (inv_sorted w Hi). unfold ProcessReceivingNext, ProcessReceivingNextWithoutLock, window_Clear.
  rewrite clear_cache_filter by done. apply (inv_sublist w (set_cache _ _) Hi). apply sublist_filter.
Qed.

Lemma ProcessSegment_spec current seg rto rt w : inv w -> closed w = false -> nextNumber w - firstUnacknowledged w <= 2 ^ 31 ->
  let w' := (ProcessSegment current seg rto rt w).1 in
  inv w' /\ nextNumber w' = nextNumber w /\ firstUnacknowledged w <= firstUnacknowledged w' /\
  keys (cache (window w')) = keys (filter (unacked seg) (cache (window w))) /\ closed w' = closed w.
Proof.
  intros Hi Hc Hd. unfold ProcessSegment. rewrite Hc.
  set (w0 := if remoteNextNumber w <? a_ReceivingWindow seg then set_remote w (a_ReceivingWindow seg) else w).
  assert (inv w0 /\ nextNumber w0 = nextNumber w /\ firstUnacknowledged w0 = firstUnacknowledged w /\
    cache (window w0) = cache (window w) /\ closed w0 = closed w) as (Hi0 & Hn0 & Hf0 & Hc0 & Hcl0).
  { unfold w0. destruct (_ <? _); [|done]. split; [|done]. by apply (inv_keys w). }
  destruct (ProcessReceivingNext_spec (a_ReceivingNext seg) w0 Hi0) as (Hi1 & Hn1 & Hf1 & Hc1 & Hcl1).
  unfold ProcessReceivingNext in *. set (w1 := ProcessReceivingNextWithoutLock (a_ReceivingNext seg) w0) in *.
  unfold ack_IsEmpty. destruct (Z.eqb_spec (Z.of_nat (length (a_NumberList seg))) 0) as [Hemp|Hne].
  { cbn [fst]. split; [done|]. split; [congruence|]. split; [lia|]. split; [|congruence].
    rewrite Hc1, Hc0. f_equal. apply list_filter_iff. intros s. unfold unacked.
    assert (a_NumberList seg = []) as -> by (destruct (a_NumberList seg); [done|simpl in Hemp; lia]).
    split; [|tauto]. intros ?. split; [done|]. apply not_elem_of_nil. }
  destruct (process_acks_spec (a_NumberList seg) 0 false w1 Hi1 ltac:(lia)) as (Hi2 & Hn2 & Hf2 & Hc2 & Hcl2).
  destruct (process_acks (a_NumberList seg) 0 false w1) as [[w2 maxack] removed]. cbn [fst] in *.
  assert (cache (window w2) = filter (unacked seg) (cache (window w))) as Hc3.
  { rewrite Hc2, Hc1, Hc0, list_filter_filter. apply list_filter_iff. intros s. unfold unacked. tauto. }
  destruct removed; cbn [fst].
  - split; [apply (inv_keys w2); try done; apply HandleFastAck_keys|]. split; [cbn [nextNumber set_window]; congruence|].
    split; [cbn [firstUnacknowledged set_window]; lia|]. split; [|cbn [closed set_window]; congruence].
    cbn [window set_window]. by rewrite HandleFastAck_keys, Hc3.
  - split; [done|]. split; [congruence|]. split; [lia|]. split; [by rewrite Hc3|congruence].
Qed.

Lemma sorted_length (l : list Z) a b : StronglySorted Z.lt l -> (forall n, n ∈ l -> a <= n < b) -> a <= b ->
  Z.of_nat (length l) <= b - a.
Proof.
  intros Hs. revert a. induction Hs as [|x l Hs IH Hx]; intros a Hr Hab; [simpl; lia|].
  rewrite Forall_forall in Hx. pose proof (Hr x ltac:(by left)). cbn [length].
  assert (Z.of_nat (length l) <= b - (x + 1)); [|lia]. apply IH; [|lia].
  intros n Hn. pose proof (Hr n ltac:(by right)). specialize (Hx n Hn). lia.
Qed.

Lemma inv_length w : inv w -> Z.of_nat (length (cache (window w))) <= nextNumber w - firstUnacknowledged w.
Proof.
  intros [I1 I2 I3 I4]. pose proof (sorted_length _ _ _ I1 I2 ltac:(lia)) as H. unfold numbers in H. by rewrite length_fmap in H.
Qed.

Lemma Push_spec b w w' : inv w -> nextNumber w < 2 ^ 32 - 1 -> Push b w = Some w' ->
  inv w' /\ keys (cache (window w')) = keys (cache (window w)) ++ [(nextNumber w, Some b)] /\
  nextNumber w' = nextNumber w + 1 /\ firstUnacknowledged w' = firstUnacknowledged w /\
  closed w' = closed w /\ window_Len (window w) <= windowSize w.
Proof.
  intros [I1 I2 I3 I4] Hn. unfold Push. destruct (closed w) eqn:Hc; [done|].
  destruct (Z.ltb_spec (windowSize w) (window_Len (window w))); [done|]. intros [= <-].
  assert (forall c, keys (c ++ [{| d_Conv := 0; d_Option := 0; d_Timestamp := 0; d_Number := nextNumber w; d_SendingNext := 0;
    d_payload := Some b; d_timeout := 0; d_transmit := 0 |}]) = keys c ++ [(nextNumber w, Some b)]) as Hk
    by (intros; unfold keys; by rewrite fmap_app).
  split; [|cbn [window nextNumber firstUnacknowledged closed window_Push set_cache cache]; rewrite Hk, u32_small by lia; done].
  split; cbn [window nextNumber firstUnacknowledged window_Push set_cache cache]; rewrite ?u32_small by lia; try lia.
  - unfold sorted. rewrite numbers_keys, Hk, fmap_app, <-numbers_keys. apply StronglySorted_app_2; [|done|repeat constructor].
    intros n m Hn1 ->%list_elem_of_singleton. by apply I2 in Hn1 as [_ ?].
  - intros n. rewrite numbers_keys, Hk, fmap_app, <-numbers_keys. intros [Hn1%I2| ->%list_elem_of_singleton]%elem_of_app; simpl; lia.
Qed.

(** The number of segments one flush may write. *)
Definition flush_limit (congestion : bool) (inFlight : Z) (w : SendingWorker) : nat :=
  Z.to_nat (Z.max 1 (flush_cwnd congestion inFlight w)).

Lemma Flush_spec conv closing congestion inFlight timeout current w : inv w -> closed w = false ->
  let '(w', out, _) := Flush conv closing congestion inFlight timeout current w in
  inv w' /\ keys (cache (window w')) = keys (cache (window w)) /\ nextNumber w' = nextNumber w /\
  firstUnacknowledged w' = firstUnacknowledged w /\ closed w' = closed w /\
  cache (window w') = (flush_spec (Write conv closing w) current timeout (flush_limit congestion inFlight w) (cache (window w))).1 /\
  out = sent (Write conv closing w) current timeout <$>
    take (flush_limit congestion inFlight w) (filter (fun s => due current s = true) (cache (window w))).
Proof.
  intros Hi Hc. unfold Flush. rewrite Hc. rewrite <-flush_spec_out.
  pose proof (inv_length w Hi) as Hlen. pose proof Hi as [_ _ I3 I4].
  destruct (window_Flush_spec (Write conv closing w) current timeout (flush_cwnd congestion inFlight w) (window w)) as [H1 H2]; [lia|].
  fold (flush_limit congestion inFlight w) in H1, H2.
  destruct (window_IsEmpty (window w)) eqn:He; cbn [negb].
  - unfold window_Flush in H1, H2. rewrite He in H1, H2. cbn [fst snd] in H1, H2.
    split; [by apply (inv_keys w)|]. repeat (split; [done|]). done.
  - destruct (window_Flush _ _ _ _ _) as [[sw out] loss]. cbn [fst snd] in H1, H2. cbv zeta beta iota.
    set (w1 := match loss with Some rate => _ | None => _ end).
    assert (window w1 = sw /\ nextNumber w1 = nextNumber w /\ firstUnacknowledged w1 = firstUnacknowledged w /\ closed w1 = closed w)
      as (Hw & Hn & Hf & Hcl).
    { unfold w1. destruct loss as [rate|]; [|done]. unfold OnPacketLoss. by destruct (_ || _). }
    cbn [window set_first nextNumber firstUnacknowledged closed]. rewrite Hw, Hn, Hf, Hcl.
    assert (keys (cache sw) = keys (cache (window w))) as Hk by (rewrite H1; by apply flush_spec_keys).
    split; [by apply (inv_keys w); cbn [window set_first nextNumber firstUnacknowledged]; rewrite ?Hw, ?Hn, ?Hf|].
    by repeat (split; [done|]).
Qed.

Lemma CloseWrite_spec w : inv w -> inv (CloseWrite w) /\
  cache (window (CloseWrite w)) = filter (fun s => 0xFFFFFFFF <= d_Number s) (cache (window w)).
Proof.
  intros [I1 I2 I3 I4]. unfold CloseWrite, window_Clear. cbn [window set_window set_cache cache]. rewrite clear_cache_filter by done.
  split; [|done]. split; try done; cbn [window set_window set_cache cache]; [by apply sorted_filter|].
  intros n (s & -> & [_ Hs]%list_elem_of_filter)%list_elem_of_fmap. apply I2, list_elem_of_fmap. eauto.
Qed.

Lemma Release_spec w : inv w -> inv (Release w) /\ cache (window (Release w)) = [].
Proof. intros [I1 I2 I3 I4]. split; [|done]. split; try done; simpl; [constructor|]. by intros n ?%not_elem_of_nil. Qed.

Lemma inv_New c w : NewSendingWorker c = Some w -> inv w.
Proof.
  unfold NewSendingWorker. destruct (GetSendingInFlightSize c), (GetSendingBufferSize c); try done. intros [= <-].
  split; simpl; [constructor| |lia|lia]. by intros n ?%not_elem_of_nil.
Qed.

(** ** Properties *)

(** Processing an acknowledgement removes from the sending window exactly
    the segments below its receiving-next number and the ones it lists; the
    others stay in order with their payloads, the first unacknowledged
    number never moves back, and the window stays sorted within it and the
    next number (for a counter that has not wrapped and at most 2^31 numbers
    in flight). *)
Theorem sending_acks_exact current seg rto rt w :
  inv w -> closed w = false -> nextNumber w - firstUnacknowledged w <= 2 ^ 31 ->
  let w' := (ProcessSegment current seg rto rt w).1 in
  inv w' /\ nextNumber w' = nextNumber w /\ firstUnacknowledged w <= firstUnacknowledged w' /\
  keys (cache (window w')) = keys (filter (unacked seg) (cache (window w))).
Proof.
  intros Hi Hc Hd. destruct (ProcessSegment_spec current seg rto rt w Hi Hc Hd) as (? & ? & ? & ? & _). done.
Qed.

(** A flush writes, in order of their numbers, the first segments whose
    timeout has passed, at most twenty times the window but at least one,
    stamped with the current time and the retransmission timeout; it neither
    adds nor removes a segment and keeps the worker's invariant. *)
Theorem sending_flush_writes_due conv closing congestion inFlight timeout current w :
  inv w -> closed w = false ->
  let '(w', out, _) := Flush conv closing congestion inFlight timeout current w in
  out = sent (Write conv closing w) current timeout <$>
    take (flush_limit congestion inFlight w) (filter (fun s => due current s = true) (cache (window w))) /\
  keys (cache (window w')) = keys (cache (window w)) /\ inv w'.
Proof.
  intros Hi Hc. pose proof (Flush_spec conv closing congestion inFlight timeout current w Hi Hc) as H.
  destruct (Flush _ _ _ _ _ _ _) as [[w' out] p]. tauto.
Qed.

(** From 2^31-1 milliseconds on, a segment that was never sent is not
    due: its timeout is still zero, so no flush writes it, whatever the
    window allows, until the 32-bit clock wraps. *)
Theorem fresh_segments_stall conv closing congestion inFlight timeout current w b w1 :
  inv w -> nextNumber w < 2 ^ 32 - 1 -> Push b w = Some w1 -> 0x7FFFFFFF <= current < 2 ^ 32 ->
  let '(_, out, _) := Flush conv closing congestion inFlight timeout current w1 in
  nextNumber w ∉ numbers out.
Proof.
  intros Hi Hn Hp Hcur. destruct (Push_spec b w w1 Hi Hn Hp) as (Hi1 & _ & _ & _ & Hcl & _).
  assert (closed w1 = false) as Hc by (rewrite Hcl; unfold Push in Hp; by destruct (closed w)).
  pose proof (Flush_spec conv closing congestion inFlight timeout current w1 Hi1 Hc) as Hf.
  destruct (Flush _ _ _ _ _ _ _) as [[w' out] p]. destruct Hf as (_ & _ & _ & _ & _ & _ & ->).
  unfold numbers. rewrite <-list_fmap_compose.
  intros (s & Heq & Hin%elem_of_take)%list_elem_of_fmap. destruct Hin as (i & Hin%list_elem_of_lookup_2 & _).
  apply list_elem_of_filter in Hin as [Hd Hin]. cbn in Heq.
  assert (d_timeout s = 0) as Ht.
  { unfold Push in Hp. destruct (closed w); [done|]. destruct (_ <? _); [done|]. injection Hp as <-. cbn [window window_Push set_cache cache] in Hin.
    apply elem_of_app in Hin as [Hin| ->%list_elem_of_singleton]; [|done].
    destruct (inv_range w Hi (d_Number s)); [apply list_elem_of_fmap; eauto|lia]. }
  unfold due, sub32 in Hd. rewrite Ht, Z.sub_0_r, u32_small in Hd by lia. apply Z.ltb_lt in Hd. lia.
Qed.

(** The congestion window stays between 16 segments and twice the
    configured in-flight size, which is at least 8. *)
Theorem congestion_window_bounded c inFlight timeout lossRate w :
  GetSendingInFlightSize c = Some inFlight -> inFlight < 2 ^ 31 -> timeout ≠ 0 ->
  16 <= controlWindow (OnPacketLoss true inFlight timeout lossRate w) <= 2 * inFlight.
Proof.
  intros Hi Hlt Ht. apply in_flight_at_least_8 in Hi. unfold OnPacketLoss. cbn [negb orb].
  destruct (Z.eqb_spec timeout 0); [done|]. cbn [controlWindow set_control]. rewrite u32_small by lia.
  set (c' := if 15 <=? lossRate then _ else _). destruct (Z.ltb_spec c' 16).
  - destruct (Z.ltb_spec (2 * inFlight) 16); lia.
  - destruct (Z.ltb_spec (2 * inFlight) c'); lia.
Qed.

(** The default configuration and a worker with three segments pushed. *)
Definition default_config : Config :=
  {| Mtu := None; Tti := None; UplinkCapacity := None; DownlinkCapacity := None; WriteBuffer := None;
     ReadBuffer := None; Congestion := true |}.

Definition some_worker : SendingWorker :=
  default {| window := NewSendingWindow; firstUnacknowledged := 0; nextNumber := 0; remoteNextNumber := 0; controlWindow := 0;
    fastResend := 0; windowSize := 0; firstUnacknowledgedUpdated := false; closed := false |} (NewSendingWorker default_config).

Definition sample_worker : SendingWorker :=
  default some_worker (w1 ← Push (bs "a") some_worker; w2 ← Push (bs "b") w1; Push (bs "c") w2).

Lemma some_worker_inv : inv some_worker.
Proof. apply (inv_New default_config). apply some_default. reflexivity. Qed.

Lemma sample_worker_inv : inv sample_worker.
Proof.
  split.
  - change (numbers (cache (window sample_worker))) with [0; 1; 2]. repeat constructor; lia.
  - change (numbers (cache (window sample_worker))) with [0; 1; 2]. change (nextNumber sample_worker) with 3.
    change (firstUnacknowledged sample_worker) with 0. intros n Hn. rewrite !elem_of_cons in Hn.
    destruct Hn as [-> |[-> |[-> |Hn]]]; try lia. by apply not_elem_of_nil in Hn.
  - change (nextNumber sample_worker) with 3. change (firstUnacknowledged sample_worker) with 0. lia.
  - change (nextNumber sample_worker) with 3. lia.
Qed.

Definition sample_ack_segment : AckSegment :=
  {| a_Conv := 1; a_Option := 0; a_ReceivingWindow := 40; a_ReceivingNext := 1; a_Timestamp := 5; a_NumberList := [2] |}.

Lemma sending_acks_exact_witness :
  keys (cache (window (ProcessSegment 9 sample_ack_segment 100 (rtt_initial 50) sample_worker).1)) = [(1, Some (bs "b"))].
Proof.
  destruct (sending_acks_exact 9 sample_ack_segment 100 (rtt_initial 50) sample_worker) as (_ & _ & _ & ->).
  - apply sample_worker_inv.
  - reflexivity.
  - vm_compute. discriminate.
  - reflexivity.
Defined.

Lemma sending_flush_writes_due_witness :
  numbers (Flush 1 false true 8 100 1000 sample_worker).1.2 = [0; 1; 2].
Proof.
  pose proof (sending_flush_writes_due 1 false true 8 100 1000 sample_worker sample_worker_inv eq_refl) as H.
  destruct (Flush 1 false true 8 100 1000 sample_worker) as [[w' out] p]. destruct H as [-> _]. vm_compute. reflexivity.
Defined.

Lemma fresh_segments_stall_witness :
  3 ∉ numbers (Flush 1 false true 8 100 (2 ^ 31) (default some_worker (Push (bs "d") sample_worker))).1.2.
Proof.
  pose proof (fresh_segments_stall 1 false true 8 100 (2 ^ 31) sample_worker (bs "d") (default some_worker (Push (bs "d") sample_worker))
    sample_worker_inv ltac:(vm_compute; reflexivity) ltac:(apply some_default; vm_compute; reflexivity) ltac:(lia)) as H.
  destruct (Flush _ _ _ _ _ _ _) as [[w' out] p]. exact H.
Defined.

Lemma congestion_window_bounded_witness :
  16 <= controlWindow (OnPacketLoss true 194 100 20 sample_worker) <= 388.
Proof. apply (congestion_window_bounded default_config 194 100 20 sample_worker); [reflexivity|lia|discriminate]. Defined.
