(* ===== verification/KcpReceiving.v ===== *)
(** * The receiving side of mKCP, [receiving.go]

    The reordering window is a map from numbers to segments, the list of
    pending acknowledgements three parallel slices that [Clear] compacts in
    place.  As for the sender, the writer's stamp is a parameter of the
    flush, and what is written is returned. *)

From S2P Require Import Prelude Segment Buffer KcpSending.

Local Open Scope Z_scope.

(** ** The window *)

(** The segments received and not yet read, by number. *)
Abbreviation ReceivingWindow := (gmap Z DataSegment).

(** src/transport/internet/kcp/receiving.go:9-17 NewReceivingWindow *)
Definition NewReceivingWindow : ReceivingWindow := ∅.

(** src/transport/internet/kcp/receiving.go ReceivingWindow.Set *)
Definition Set_ (id : Z) (value : DataSegment) (w : ReceivingWindow) : ReceivingWindow * bool :=
  match w !! id with Some _ => (w, false) | None => (<[id := value]> w, true) end.

(** src/transport/internet/kcp/receiving.go ReceivingWindow.Has *)
Definition Has (id : Z) (w : ReceivingWindow) : bool := bool_decide (is_Some (w !! id)).

(** src/transport/internet/kcp/receiving.go ReceivingWindow.Remove *)
Definition Remove (id : Z) (w : ReceivingWindow) : ReceivingWindow * option DataSegment :=
  match w !! id with None => (w, None) | Some v => (delete id w, Some v) end.

(** ** Pending acknowledgements *)

(** src/transport/internet/kcp/receiving.go AckList *)
Record AckList := {
  timestamps : list Z; numbers : list Z; nextFlush : list Z; flushCandidates : list Z; dirty : bool
}.

(** src/transport/internet/kcp/receiving.go NewAckList *)
Definition NewAckList : AckList :=
  {| timestamps := []; numbers := []; nextFlush := []; flushCandidates := []; dirty := false |}.

(** src/transport/internet/kcp/receiving.go AckList.Add *)
Definition Add (number timestamp : Z) (l : AckList) : AckList :=
  {| timestamps := timestamps l ++ [timestamp]; numbers := numbers l ++ [number]; nextFlush := nextFlush l ++ [0];
     flushCandidates := flushCandidates l; dirty := true |}.

(** The entry at [i] moves to [count].
    src/transport/internet/kcp/receiving.go:75-79 AckList.Clear *)
Definition move_entry (i count : nat) (l : AckList) : AckList :=
  if decide (i = count) then l
  else {| timestamps := <[count := timestamps l !!! i]> (timestamps l);
          numbers := <[count := numbers l !!! i]> (numbers l);
          nextFlush := <[count := nextFlush l !!! i]> (nextFlush l);
          flushCandidates := flushCandidates l; dirty := dirty l |}.

(** The loop of Clear from index [i] for [n] more entries.
    src/transport/internet/kcp/receiving.go:70-81 AckList.Clear *)
Fixpoint clear_loop (una : Z) (n i count : nat) (l : AckList) : AckList * nat :=
  match n with
  | O => (l, count)
  | S n' =>
      if numbers l !!! i <? una then clear_loop una n' (S i) count l
      else clear_loop una n' (S i) (S count) (move_entry i count l)
  end.

(** src/transport/internet/kcp/receiving.go AckList.Clear *)
Definition Clear (una : Z) (l : AckList) : AckList :=
  let '(l, count) := clear_loop una (length (numbers l)) 0 0 l in
  if (count <? length (numbers l))%nat then
    {| timestamps := take count (timestamps l); numbers := take count (numbers l); nextFlush := take count (nextFlush l);
       flushCandidates := flushCandidates l; dirty := true |}
  else l.

(** The list, the segment being filled, and those written. *)
Record ack_flushing := { f_list : AckList; f_seg : AckSegment; f_out : list AckSegment }.

(** The capacity given by [make] never grows, since appending stops at it. *)
Definition candidates_cap : nat := 128.

Definition ack_timeout (rto : Z) : Z := if rto / 2 <? 20 then 20 else rto / 2.

(** One turn of the first loop of Flush.
    src/transport/internet/kcp/receiving.go:95-114 AckList.Flush *)
Definition ack_turn (stamp : AckSegment -> AckSegment) (current rto : Z) (s : ack_flushing) (i : nat) : ack_flushing :=
  let l := f_list s in
  if current <? nextFlush l !!! i then
    {| f_list := {| timestamps := timestamps l; numbers := numbers l; nextFlush := nextFlush l; dirty := dirty l;
         flushCandidates := if (length (flushCandidates l) <? candidates_cap)%nat
                            then flushCandidates l ++ [numbers l !!! i] else flushCandidates l |};
       f_seg := f_seg s; f_out := f_out s |}
  else
    let seg := PutTimestamp (timestamps l !!! i) (PutNumber (numbers l !!! i) (f_seg s)) in
    let l' := {| timestamps := timestamps l; numbers := numbers l;
         nextFlush := <[i := u32 (current + ack_timeout rto)]> (nextFlush l);
         flushCandidates := flushCandidates l; dirty := if Segment.IsFull seg then false else dirty l |} in
    if Segment.IsFull seg then {| f_list := l'; f_seg := NewAckSegment; f_out := f_out s ++ [stamp seg] |}
    else {| f_list := l'; f_seg := seg; f_out := f_out s |}.

(** The second loop of Flush.
    src/transport/internet/kcp/receiving.go:118-123 AckList.Flush *)
Fixpoint put_candidates (candidates : list Z) (seg : AckSegment) : AckSegment :=
  match candidates with
  | [] => seg
  | number :: rest => if Segment.IsFull seg then seg else put_candidates rest (PutNumber number seg)
  end.

(** src/transport/internet/kcp/receiving.go AckList.Flush *)
Definition ack_Flush (stamp : AckSegment -> AckSegment) (current rto : Z) (l : AckList) : AckList * list AckSegment :=
  let l0 := {| timestamps := timestamps l; numbers := numbers l; nextFlush := nextFlush l; flushCandidates := []; dirty := dirty l |} in
  let s := foldl (ack_turn stamp current rto) {| f_list := l0; f_seg := NewAckSegment; f_out := [] |} (seq 0 (length (numbers l))) in
  let l' := f_list s in
  if dirty l' || negb (ack_IsEmpty (f_seg s)) then
    ({| timestamps := timestamps l'; numbers := numbers l'; nextFlush := nextFlush l';
        flushCandidates := flushCandidates l'; dirty := false |},
     f_out s ++ [stamp (put_candidates (flushCandidates l') (f_seg s))])
  else (l', f_out s).

(** ** The worker *)

(** src/transport/internet/kcp/receiving.go ReceivingWorker *)
Record ReceivingWorker := {
  leftOver : option MultiBuffer; r_window : ReceivingWindow; acklist : AckList; r_nextNumber : Z; r_windowSize : Z
}.

(** src/transport/internet/kcp/receiving.go NewReceivingWorker *)
Definition NewReceivingWorker (c : Config) : option ReceivingWorker :=
  inFlight ← GetReceivingInFlightSize c;
  Some {| leftOver := None; r_window := NewReceivingWindow; acklist := NewAckList; r_nextNumber := 0; r_windowSize := inFlight |}.

Definition set_leftOver (w : ReceivingWorker) (mb : option MultiBuffer) : ReceivingWorker :=
  {| leftOver := mb; r_window := r_window w; acklist := acklist w; r_nextNumber := r_nextNumber w; r_windowSize := r_windowSize w |}.
Definition set_acklist (w : ReceivingWorker) (l : AckList) : ReceivingWorker :=
  {| leftOver := leftOver w; r_window := r_window w; acklist := l; r_nextNumber := r_nextNumber w; r_windowSize := r_windowSize w |}.
Definition set_received (w : ReceivingWorker) (win : ReceivingWindow) (next : Z) : ReceivingWorker :=
  {| leftOver := leftOver w; r_window := win; acklist := acklist w; r_nextNumber := next; r_windowSize := r_windowSize w |}.

(** src/transport/internet/kcp/receiving.go ReceivingWorker.Release *)
Definition r_Release (w : ReceivingWorker) : ReceivingWorker := set_leftOver w None.

(** src/transport/internet/kcp/receiving.go ReceivingWorker.ProcessSendingNext *)
Definition ProcessSendingNext (number : Z) (w : ReceivingWorker) : ReceivingWorker :=
  set_acklist w (Clear number (acklist w)).

(** src/transport/internet/kcp/receiving.go ReceivingWorker.ProcessSegment *)
Definition r_ProcessSegment (seg : DataSegment) (w : ReceivingWorker) : ReceivingWorker :=
  let number := d_Number seg in
  let idx := sub32 number (r_nextNumber w) in
  if r_windowSize w <=? idx then w
  else
    let w := set_acklist w (Add number (d_Timestamp seg) (Clear (d_SendingNext seg) (acklist w))) in
    set_received w (Set_ number seg (r_window w)).1 (r_nextNumber w).

(** The detached payload: a buffer with these bytes.
    src/transport/internet/kcp/segment.go DataSegment.Detach *)
Definition Detach (s : DataSegment) : Buffer := FromBytes (Data s).

(** The loop of ReadMultiBuffer; every turn takes a segment out of the
    window, so its size is enough fuel.
    src/transport/internet/kcp/receiving.go:193-201 ReceivingWorker.ReadMultiBuffer *)
Fixpoint read_loop (fuel : nat) (win : ReceivingWindow) (next : Z) (mb : MultiBuffer) : ReceivingWindow * Z * MultiBuffer :=
  match fuel with
  | O => (win, next, mb)
  | S fuel' =>
      match Remove next win with
      | (_, None) => (win, next, mb)
      | (win', Some seg) => read_loop fuel' win' (u32 (next + 1)) (mb ++ [Detach seg])
      end
  end.

(** src/transport/internet/kcp/receiving.go ReceivingWorker.ReadMultiBuffer *)
Definition r_ReadMultiBuffer (w : ReceivingWorker) : ReceivingWorker * MultiBuffer :=
  match leftOver w with
  | Some mb => (set_leftOver w None, mb)
  | None =>
      let '(win, next, mb) := read_loop (S (size (r_window w))) (r_window w) (r_nextNumber w) [] in
      (set_received w win next, mb)
  end.

(** Reading into a slice of [n] bytes.
    src/transport/internet/kcp/receiving.go ReceivingWorker.Read *)
Definition r_Read (n : nat) (w : ReceivingWorker) : outcome unit (ReceivingWorker * bytes) :=
  let '(w, mb) := r_ReadMultiBuffer w in
  if MultiBuffer_IsEmpty mb then Ok (w, [])
  else
    '(mb, data) ← SplitBytes mb n;
    Ok (if negb (MultiBuffer_IsEmpty mb) then set_leftOver w (Some mb) else w, data).

(** src/transport/internet/kcp/receiving.go ReceivingWorker.IsDataAvailable *)
Definition IsDataAvailable (w : ReceivingWorker) : bool := Has (r_nextNumber w) (r_window w).

(** src/transport/internet/kcp/receiving.go ReceivingWorker.NextNumber *)
Definition NextNumber (w : ReceivingWorker) : Z := r_nextNumber w.

(** What the worker writes into an acknowledgement before it passes it on.
    src/transport/internet/kcp/receiving.go ReceivingWorker.Write *)
Definition r_Write (conv : Z) (readyToClose : bool) (w : ReceivingWorker) (ackSeg : AckSegment) : AckSegment :=
  {| a_Conv := conv; a_Option := if readyToClose then SegmentOptionClose else 0;
     a_ReceivingWindow := u32 (r_nextNumber w + r_windowSize w); a_ReceivingNext := r_nextNumber w;
     a_Timestamp := a_Timestamp ackSeg; a_NumberList := a_NumberList ackSeg |}.

(** src/transport/internet/kcp/receiving.go ReceivingWorker.Flush *)
Definition r_Flush (conv : Z) (readyToClose : bool) (timeout current : Z) (w : ReceivingWorker) : ReceivingWorker * list AckSegment :=
  let '(l, out) := ack_Flush (r_Write conv readyToClose w) current timeout (acklist w) in
  (set_acklist w l, out).

(** src/transport/internet/kcp/receiving.go ReceivingWorker.CloseRead *)
Definition CloseRead (w : ReceivingWorker) : ReceivingWorker := w.

(** src/transport/internet/kcp/receiving.go ReceivingWorker.UpdateNecessary *)
Definition r_UpdateNecessary (w : ReceivingWorker) : bool := (0 <? length (numbers (acklist w)))%nat.
