(* ===== verification/KcpReceivingFacts.v ===== *)
(** * Facts about the receiving side of mKCP

    Compacting in place is filtering, a flush acknowledges every due number
    in segments of at most 128, and reading returns the longest consecutive
    run of received segments. *)

From S2P Require Import Prelude Segment Buffer BufferFacts KcpSending KcpSendingFacts KcpReceiving.

Local Open Scope Z_scope.

(** ** Compaction in place *)

(** The shape of the loop of Clear on one list. *)
Fixpoint compact_in_place {A} `{Inhabited A} (drops : A -> bool) (n i count : nat) (l : list A) : list A * nat :=
  match n with
  | O => (l, count)
  | S n' =>
      if drops (l !!! i) then compact_in_place drops n' (S i) count l
      else compact_in_place drops n' (S i) (S count) (<[count := l !!! i]> l)
  end.

Lemma drop_lookup_total {A} `{Inhabited A} (l : list A) i : (i < length l)%nat -> drop i l = l !!! i :: drop (S i) l.
Proof. intros Hi. apply drop_S. by apply list_lookup_lookup_total_lt. Qed.

Lemma compact_in_place_spec {A} `{Inhabited A} (drops : A -> bool) n i count (l : list A) :
  (i + n = length l)%nat -> (count <= i)%nat ->
  let '(l', c) := compact_in_place drops n i count l in
  length l' = length l /\ (c <= length l)%nat /\
  take c l' = take count l ++ filter (fun x => drops x = false) (drop i l) /\
  (c = length l -> l' = l).
Proof.
  revert i count l. induction n as [|n IH]; intros i count l Hi Hc; cbn [compact_in_place].
  { rewrite drop_ge, filter_nil, app_nil_r by lia. split; [done|]. split; [lia|]. done. }
  rewrite (drop_lookup_total l i) by lia. rewrite filter_cons. destruct (drops (l !!! i)) eqn:Hd.
  - rewrite decide_False by done. specialize (IH (S i) count l ltac:(lia) ltac:(lia)).
    destruct (compact_in_place drops n (S i) count l) as [l' c]. exact IH.
  - rewrite decide_True by done. specialize (IH (S i) (S count) (<[count := l !!! i]> l)).
    rewrite length_insert in IH. specialize (IH ltac:(lia) ltac:(lia)).
    destruct (compact_in_place drops n (S i) (S count) (<[count := l !!! i]> l)) as [l' c].
    destruct IH as (Hl & Hcl & Ht & Heq). split; [done|]. split; [done|]. split.
    + rewrite Ht, drop_insert_lt by lia. rewrite (take_S_r (<[count := l !!! i]> l) count (l !!! i)).
      * rewrite take_insert_ge by lia. by rewrite <-(assoc_L (++)).
      * apply list_lookup_insert_eq. lia.
    + intros Hcc. rewrite Heq by done. destruct (decide (count = i)) as [->|Hne].
      * apply list_insert_id. apply list_lookup_lookup_total_lt. lia.
      * exfalso. apply (f_equal length) in Ht. rewrite length_take, length_app, length_take, length_insert in Ht.
        pose proof (length_filter (fun x => drops x = false) (drop (S i) (<[count := l !!! i]> l))) as Hf.
        rewrite length_drop, length_insert in Hf. lia.
Qed.

(** ** Pending acknowledgements *)

(** The three slices have one length. *)
Definition ack_wf (l : AckList) : Prop :=
  length (timestamps l) = length (numbers l) /\ length (nextFlush l) = length (numbers l).

(** Number, timestamp and time of the next flush. *)
Definition entries (l : AckList) : list (Z * Z * Z) := zip (zip (numbers l) (timestamps l)) (nextFlush l).

Lemma length_entries l : ack_wf l -> length (entries l) = length (numbers l).
Proof. intros [H1 H2]. unfold entries. rewrite !length_zip. lia. Qed.

Lemma lookup_entries l i n t f : numbers l !! i = Some n -> timestamps l !! i = Some t -> nextFlush l !! i = Some f ->
  entries l !! i = Some (n, t, f).
Proof. intros Hn Ht Hf. unfold entries. rewrite lookup_zip_with_Some. eexists (n, t), f. split; [done|]. split; [|done]. rewrite lookup_zip_with_Some. eauto. Qed.

Lemma entries_total l i : ack_wf l -> (i < length (numbers l))%nat ->
  entries l !!! i = (numbers l !!! i, timestamps l !!! i, nextFlush l !!! i).
Proof.
  intros [H1 H2] Hi. apply list_lookup_total_correct, lookup_entries; apply list_lookup_lookup_total_lt; lia.
Qed.

Lemma move_entry_entries i count l : ack_wf l -> (i < length (numbers l))%nat -> (count <= i)%nat ->
  ack_wf (move_entry i count l) /\ entries (move_entry i count l) = <[count := entries l !!! i]> (entries l).
Proof.
  intros Hw Hi Hc. unfold move_entry. case_decide as Heq.
  - subst. split; [done|]. symmetry. apply list_insert_id, list_lookup_lookup_total_lt. by rewrite length_entries.
  - split; [unfold ack_wf in *; cbn; by rewrite !length_insert|]. rewrite entries_total by done.
    unfold entries. cbn [numbers timestamps nextFlush]. by rewrite <-!insert_zip_with.
Qed.

Lemma clear_loop_entries una n i count l : ack_wf l -> (i + n = length (numbers l))%nat -> (count <= i)%nat ->
  let '(l', c) := clear_loop una n i count l in
  ack_wf l' /\ (entries l', c) = compact_in_place (fun e => e.1.1 <? una) n i count (entries l) /\
  length (numbers l') = length (numbers l) /\ flushCandidates l' = flushCandidates l /\ dirty l' = dirty l.
Proof.
  revert i count l. induction n as [|n IH]; intros i count l Hw Hi Hc; cbn [clear_loop compact_in_place]; [done|].
  rewrite entries_total by (done || lia). cbn [fst].
  destruct (numbers l !!! i <? una); [apply IH; [done|lia..]|].
  destruct (move_entry_entries i count l Hw) as [Hw' He]; [lia..|].
  assert (length (numbers (move_entry i count l)) = length (numbers l) /\
    flushCandidates (move_entry i count l) = flushCandidates l /\ dirty (move_entry i count l) = dirty l) as (Hl & Hf & Hd).
  { unfold move_entry. case_decide; [done|]. cbn. by rewrite length_insert. }
  specialize (IH (S i) (S count) (move_entry i count l) Hw' ltac:(lia) ltac:(lia)).
  rewrite entries_total in He by (done || lia). rewrite He in IH. destruct (clear_loop una n (S i) (S count) _) as [l' c].
  rewrite Hl, Hf, Hd in IH. exact IH.
Qed.

Lemma entries_take c l : entries {| timestamps := take c (timestamps l); numbers := take c (numbers l);
  nextFlush := take c (nextFlush l); flushCandidates := flushCandidates l; dirty := true |} = take c (entries l).
Proof. unfold entries. cbn [numbers timestamps nextFlush]. by rewrite !zip_with_take. Qed.

Lemma Clear_spec una l : ack_wf l ->
  ack_wf (Clear una l) /\ entries (Clear una l) = filter (fun e => una <= e.1.1) (entries l).
Proof.
  intros Hw. unfold Clear. pose proof (clear_loop_entries una (length (numbers l)) 0 0 l Hw eq_refl (le_n 0)) as Hc.
  destruct (clear_loop una _ 0 0 l) as [l' c]. destruct Hc as (Hw' & He & Hl & _ & _).
  pose proof (compact_in_place_spec (fun e => e.1.1 <? una) (length (numbers l)) 0 0 (entries l)) as Hs.
  rewrite <-He, length_entries in Hs by done. destruct Hs as (_ & Hcl & Ht & Heq); [lia..|].
  rewrite drop_0 in Ht. change (take 0 (entries l)) with (@nil (Z * Z * Z)) in Ht. rewrite app_nil_l in Ht.
  assert (filter (fun e => (e.1.1 <? una) = false) (entries l) = filter (fun e => una <= e.1.1) (entries l)) as Hf
    by (apply list_filter_iff; intros; apply Z.ltb_ge).
  destruct (Nat.ltb_spec c (length (numbers l'))) as [Hlt|Hge].
  - rewrite entries_take, Ht. split; [|done]. destruct Hw' as [? ?]. split; cbn [timestamps numbers nextFlush]; rewrite !length_take; lia.
  - split; [done|]. rewrite <-Hf, <-Ht. symmetry. apply take_ge. rewrite length_entries by done. lia.
Qed.

Section AckFlush.
Context (stamp : AckSegment -> AckSegment) (stamp_numbers : forall a, a_NumberList (stamp a) = a_NumberList a).
Context (current rto : Z).

Definition refresh (next : Z) : Z := if current <? next then next else u32 (current + ack_timeout rto).

Lemma refresh_due next : next <= current -> refresh next = u32 (current + ack_timeout rto).
Proof. unfold refresh. by destruct (Z.ltb_spec current next); [lia|]. Qed.

Lemma refresh_waiting next : current < next -> refresh next = next.
Proof. unfold refresh. by destruct (Z.ltb_spec current next); [|lia]. Qed.

(** The numbers that are due, and those that wait for their next flush. *)
Definition due_numbers (es : list (Z * Z * Z)) : list Z := (fun e => e.1.1) <$> filter (fun e => e.2 <= current) es.
Definition waiting_numbers (es : list (Z * Z * Z)) : list Z := (fun e => e.1.1) <$> filter (fun e => current < e.2) es.

Definition acked (out : list AckSegment) : list Z := out ≫= a_NumberList.

Lemma PutTimestamp_numbers t a : a_NumberList (PutTimestamp t a) = a_NumberList a.
Proof. unfold PutTimestamp. by destruct (_ <? _). Qed.

Lemma IsFull_length a : Segment.IsFull a = bool_decide (length (a_NumberList a) = 128%nat).
Proof.
  unfold Segment.IsFull, ackNumberLimit. apply eq_true_iff_eq. rewrite Z.eqb_eq, bool_decide_eq_true. lia.
Qed.

Record turn_inv (l : AckList) (k : nat) (s : ack_flushing) : Prop := {
  ti_numbers : numbers (f_list s) = numbers l;
  ti_timestamps : timestamps (f_list s) = timestamps l;
  ti_next : nextFlush (f_list s) = (refresh <$> take k (nextFlush l)) ++ drop k (nextFlush l);
  ti_acked : acked (f_out s) ++ a_NumberList (f_seg s) = due_numbers (take k (entries l));
  ti_full : Forall (fun a => length (a_NumberList a) = 128%nat) (f_out s);
  ti_seg : (length (a_NumberList (f_seg s)) < 128)%nat;
  ti_candidates : flushCandidates (f_list s) = take candidates_cap (waiting_numbers (take k (entries l)));
  ti_dirty : dirty (f_list s) = match f_out s with [] => dirty l | _ => false end;
}.

Lemma due_numbers_snoc es e : due_numbers (es ++ [e]) = due_numbers es ++ (if decide (e.2 <= current) then [e.1.1] else []).
Proof. unfold due_numbers. rewrite filter_app, fmap_app. f_equal. rewrite filter_cons. by destruct (decide _). Qed.

Lemma waiting_numbers_snoc es e : waiting_numbers (es ++ [e]) = waiting_numbers es ++ (if decide (current < e.2) then [e.1.1] else []).
Proof. unfold waiting_numbers. rewrite filter_app, fmap_app. f_equal. rewrite filter_cons. by destruct (decide _). Qed.

Lemma ack_turn_inv l k s : ack_wf l -> (k < length (numbers l))%nat -> turn_inv l k s ->
  turn_inv l (S k) (ack_turn stamp current rto s k).
Proof.
  intros Hw Hk [I1 I2 I3 I4 I5 I6 I7 I8]. pose proof Hw as [Hw1 Hw2].
  assert (nextFlush (f_list s) !!! k = nextFlush l !!! k) as Hnk.
  { rewrite I3. apply list_lookup_total_correct. rewrite lookup_app_r by (rewrite length_fmap, length_take; lia).
    rewrite length_fmap, length_take, Nat.min_l, lookup_drop, Nat.sub_diag, Nat.add_0_r by lia.
    apply list_lookup_lookup_total_lt. lia. }
  assert (take (S k) (entries l) = take k (entries l) ++ [(numbers l !!! k, timestamps l !!! k, nextFlush l !!! k)]) as He.
  { apply take_S_r. rewrite <-entries_total by done. apply list_lookup_lookup_total_lt. by rewrite length_entries. }
  assert (take (S k) (nextFlush l) = take k (nextFlush l) ++ [nextFlush l !!! k]) as Ht
    by (apply take_S_r, list_lookup_lookup_total_lt; lia).
  assert (drop k (nextFlush l) = nextFlush l !!! k :: drop (S k) (nextFlush l)) as Hd by (apply drop_lookup_total; lia).
  unfold ack_turn. rewrite Hnk, I1, I2. destruct (Z.ltb_spec current (nextFlush l !!! k)) as [Hlt|Hge].
  - split; cbn [f_list f_seg f_out numbers timestamps nextFlush flushCandidates dirty]; try done.
    + rewrite I3, Ht, fmap_app, Hd, <-(assoc_L (++)). cbn. by rewrite refresh_waiting.
    + rewrite He, due_numbers_snoc, decide_False, app_nil_r by (cbn; lia). done.
    + rewrite He, waiting_numbers_snoc, decide_True by done. cbn [fst snd]. rewrite I7, length_take.
      destruct (Nat.ltb_spec (candidates_cap `min` length (waiting_numbers (take k (entries l)))) candidates_cap).
      * rewrite (take_ge (waiting_numbers _)) by lia. by rewrite (take_ge (waiting_numbers _ ++ _)) by (rewrite length_snoc; lia).
      * by rewrite take_app_le by lia.
  - set (seg := PutTimestamp _ _).
    assert (a_NumberList seg = a_NumberList (f_seg s) ++ [numbers l !!! k]) as Hseg by apply PutTimestamp_numbers.
    assert (length (a_NumberList seg) = S (length (a_NumberList (f_seg s)))) as Hsl by (rewrite Hseg, length_snoc; done).
    assert (<[k := u32 (current + ack_timeout rto)]> (nextFlush (f_list s)) =
      (refresh <$> take (S k) (nextFlush l)) ++ drop (S k) (nextFlush l)) as Hn.
    { rewrite I3, Ht, Hd, fmap_app, <-(assoc_L (++)). rewrite insert_app_r_alt by (rewrite length_fmap, length_take; lia).
      rewrite length_fmap, length_take, Nat.min_l, Nat.sub_diag by lia. cbn.
      by rewrite refresh_due. }
    assert (due_numbers (take (S k) (entries l)) = acked (f_out s) ++ a_NumberList seg) as Hdue.
    { rewrite He, due_numbers_snoc, decide_True by done. cbn [fst snd]. by rewrite <-I4, Hseg, (assoc_L (++)). }
    assert (flushCandidates (f_list s) = take candidates_cap (waiting_numbers (take (S k) (entries l)))) as Hcand.
    { rewrite He, waiting_numbers_snoc, decide_False, app_nil_r by (cbn; lia). done. }
    rewrite IsFull_length. case_bool_decide as Hfull; split; cbn [f_list f_seg f_out numbers timestamps nextFlush flushCandidates dirty]; try done.
    + cbn [a_NumberList NewAckSegment]. rewrite app_nil_r, Hdue. unfold acked. rewrite bind_app. f_equal. cbn. by rewrite app_nil_r, stamp_numbers.
    + apply Forall_app. split; [done|]. apply Forall_cons. split; [|done]. by rewrite stamp_numbers.
    + simpl. lia.
    + by destruct (f_out s).
    + lia.
Qed.

Lemma ack_turns_inv l k s : ack_wf l -> (k <= length (numbers l))%nat -> turn_inv l 0 s ->
  turn_inv l k (foldl (ack_turn stamp current rto) s (seq 0 k)).
Proof.
  intros Hw. induction k as [|k IH]; intros Hk Hs; [done|]. rewrite seq_S, foldl_app. cbn [foldl]. rewrite Nat.add_0_l.
  apply ack_turn_inv; [done|lia|]. apply IH; [lia|done].
Qed.

Lemma put_candidates_numbers cs seg : (length (a_NumberList seg) <= 128)%nat ->
  a_NumberList (put_candidates cs seg) = a_NumberList seg ++ take (128 - length (a_NumberList seg)) cs.
Proof.
  revert seg. induction cs as [|c cs IH]; intros seg Hl; cbn [put_candidates]; [by rewrite take_nil, app_nil_r|].
  rewrite IsFull_length. case_bool_decide as Hf; [by rewrite Hf, Nat.sub_diag, app_nil_r|].
  rewrite IH by (cbn; rewrite length_snoc; lia). cbn [a_NumberList PutNumber]. rewrite length_snoc, <-(assoc_L (++)).
  by replace (128 - length (a_NumberList seg))%nat with (S (128 - S (length (a_NumberList seg)))) by lia.
Qed.

(** Every due number is acknowledged, in order; a last segment is topped up
    with waiting ones. *)
Lemma ack_Flush_spec l : ack_wf l ->
  let '(l', out) := ack_Flush stamp current rto l in
  ack_wf l' /\ numbers l' = numbers l /\ timestamps l' = timestamps l /\ nextFlush l' = (refresh <$> nextFlush l) /\
  dirty l' = false /\ Forall (fun a => length (a_NumberList a) <= 128)%nat out /\
  (exists extra, acked out = due_numbers (entries l) ++ extra /\ extra `prefix_of` waiting_numbers (entries l)) /\
  (due_numbers (entries l) = [] -> dirty l = false -> out = []).
Proof.
  intros Hw. unfold ack_Flush. set (s0 := {| f_list := _; f_seg := _; f_out := _ |}).
  pose proof (ack_turns_inv l (length (numbers l)) s0 Hw (le_n _)) as Ht.
  destruct Ht as [I1 I2 I3 I4 I5 I6 I7 I8]; [by split; cbn; try lia|].
  set (s := foldl _ s0 _) in *. pose proof Hw as [Hw1 Hw2].
  rewrite (take_ge (entries l)) in I4, I7 by (rewrite length_entries by done; lia). rewrite take_ge in I3 by lia. rewrite drop_ge, app_nil_r in I3 by lia.
  assert (Forall (fun a => length (a_NumberList a) <= 128)%nat (f_out s)) as Hle by (eapply Forall_impl; [apply I5|]; cbn; lia).
  destruct (dirty (f_list s) || negb (ack_IsEmpty (f_seg s))) eqn:Hcond.
  - split; [split; cbn; rewrite ?I1, ?I2, ?I3, ?length_fmap; done|]. cbn [numbers timestamps nextFlush dirty].
    assert (a_NumberList (stamp (put_candidates (flushCandidates (f_list s)) (f_seg s))) =
      a_NumberList (f_seg s) ++ take (128 - length (a_NumberList (f_seg s))) (flushCandidates (f_list s))) as Hlast
      by (rewrite stamp_numbers; apply put_candidates_numbers; lia).
    repeat (split; [done|]). split; [|split].
    + apply Forall_app. split; [done|]. apply Forall_cons. split; [|done]. rewrite Hlast, length_app, length_take. lia.
    + eexists. unfold acked in *. rewrite bind_app, bind_cons, (eq_refl : ([] ≫= a_NumberList) = []), app_nil_r, Hlast, (assoc_L (++)), I4. split; [done|].
      rewrite I7. eapply transitivity; apply prefix_take.
    + intros Hdue Hdirty. rewrite Hdue in I4. apply app_nil in I4 as [I4 I4']. exfalso.
      unfold ack_IsEmpty in Hcond. rewrite I4' in Hcond. rewrite I8 in Hcond.
      destruct (f_out s); [by rewrite Hdirty in Hcond|done].
  - apply orb_false_iff in Hcond as [Hd He]. unfold ack_IsEmpty in He. rewrite negb_false_iff, Z.eqb_eq in He.
    assert (a_NumberList (f_seg s) = []) as Hnil by (destruct (a_NumberList (f_seg s)); [done|simpl in He; lia]).
    rewrite Hnil, app_nil_r in I4.
    split; [unfold ack_wf; rewrite I1, I2, I3, length_fmap; done|]. repeat (split; [done|]). split.
    + exists []. rewrite app_nil_r. split; [done|]. apply prefix_nil.
    + intros Hdue _. rewrite Hdue in I4. destruct (f_out s) as [|a out]; [done|]. apply Forall_cons in I5 as [Ha _].
      unfold acked in I4. rewrite bind_cons in I4. apply app_nil in I4 as [I4 _]. by rewrite I4 in Ha.
Qed.
End AckFlush.

(** ** Reading *)

Lemma read_loop_spec fuel win next mb : (size win < fuel)%nat -> 0 <= next < 2 ^ 32 ->
  let '(win', next', mb') := read_loop fuel win next mb in
  exists segs, mb' = mb ++ (Detach <$> segs) /\ next' = u32 (next + Z.of_nat (length segs)) /\
    (forall i seg, segs !! i = Some seg -> win !! u32 (next + Z.of_nat i) = Some seg) /\
    win' !! next' = None /\ win' ⊆ win /\
    (forall n, is_Some (win !! n) -> win' !! n = None -> exists i, (i < length segs)%nat /\ n = u32 (next + Z.of_nat i)).
Proof.
  revert win next mb. induction fuel as [|fuel IH]; intros win next mb Hf Hn; [lia|]. cbn [read_loop]. unfold Remove.
  assert (u32 (next + Z.of_nat 0) = next) as Hn0 by (rewrite Z.add_0_r; by apply u32_small).
  destruct (win !! next) as [seg|] eqn:E.
  2:{ exists []. rewrite app_nil_r. split; [done|]. split; [cbn [length]; by rewrite Hn0|]. split; [by intros i ?|]. split; [done|]. split; [done|].
      intros n [? ?] ?. congruence. }
  assert (size (delete next win) < fuel)%nat as Hsz.
  { rewrite map_size_delete_Some by (by eexists). assert (size win ≠ 0)%nat; [|lia].
    intros H0%map_size_empty_inv. subst win. by rewrite lookup_empty in E. }
  specialize (IH (delete next win) (u32 (next + 1)) (mb ++ [Detach seg]) Hsz (u32_range _)).
  destruct (read_loop fuel _ _ _) as [[win' next'] mb']. destruct IH as (segs & -> & -> & Hsegs & Hend & Hsub & Hrun).
  assert (forall i, u32 (u32 (next + 1) + Z.of_nat i) = u32 (next + Z.of_nat (S i))) as Hstep
    by (intros i; unfold u32; solve_wrap).
  exists (seg :: segs). rewrite fmap_cons, <-(assoc_L (++)). split; [done|]. split; [by rewrite Hstep|].
  split; [|split; [done|split]].
  - intros [|i] s Hs; [injection Hs as <-; by rewrite Hn0|]. apply Hsegs in Hs. rewrite Hstep in Hs.
    by apply lookup_delete_Some in Hs as [_ ?].
  - etrans; [done|]. apply delete_subseteq.
  - intros n Hsome Hnone. destruct (decide (n = next)) as [->|Hne]; [exists 0%nat; split; [simpl; lia|done]|].
    destruct (Hrun n) as (i & Hi & ->); [by rewrite lookup_delete_ne by done|done|].
    exists (S i). split; [simpl; lia|]. apply Hstep.
Qed.

Lemma r_ReadMultiBuffer_spec w : leftOver w = None -> 0 <= r_nextNumber w < 2 ^ 32 ->
  let '(w', mb) := r_ReadMultiBuffer w in
  exists segs, mb = Detach <$> segs /\ r_nextNumber w' = u32 (r_nextNumber w + Z.of_nat (length segs)) /\
    (forall i seg, segs !! i = Some seg -> r_window w !! u32 (r_nextNumber w + Z.of_nat i) = Some seg) /\
    r_window w' !! r_nextNumber w' = None /\ r_window w' ⊆ r_window w /\
    (forall n, is_Some (r_window w !! n) -> r_window w' !! n = None -> exists i, (i < length segs)%nat /\ n = u32 (r_nextNumber w + Z.of_nat i)) /\
    leftOver w' = None /\ acklist w' = acklist w /\ r_windowSize w' = r_windowSize w.
Proof.
  intros Hl Hn. unfold r_ReadMultiBuffer. rewrite Hl.
  pose proof (read_loop_spec (S (size (r_window w))) (r_window w) (r_nextNumber w) [] ltac:(lia) Hn) as H.
  destruct (read_loop _ _ _ _) as [[win next] mb]. destruct H as (segs & -> & H2 & H3 & H4 & H5 & H6).
  exists segs. repeat (split; [done|]). done.
Qed.

(** ** Properties *)

(** The in-place compaction of AckList.Clear is the filter that keeps,
    in order, the entries whose number is not below the peer's first
    unacknowledged one; the three slices stay aligned. *)
Theorem acklist_clear_is_filter una l : ack_wf l ->
  ack_wf (Clear una l) /\ entries (Clear una l) = filter (fun e => una <= e.1.1) (entries l).
Proof. apply Clear_spec. Qed.

(** A flush of the pending acknowledgements lists every due number, in
    order, in segments of at most 128 numbers, the last one topped up with
    numbers that were not due; each due entry is then postponed by half the
    timeout but at least 20 ms, and without due or new entries nothing is
    written. *)
Theorem acklist_flush_exact stamp current rto l :
  (forall a, a_NumberList (stamp a) = a_NumberList a) -> ack_wf l ->
  let '(l', out) := ack_Flush stamp current rto l in
  (exists extra, acked out = due_numbers current (entries l) ++ extra /\ extra `prefix_of` waiting_numbers current (entries l)) /\
  Forall (fun a => length (a_NumberList a) <= 128)%nat out /\
  numbers l' = numbers l /\ nextFlush l' = (refresh current rto <$> nextFlush l) /\
  (due_numbers current (entries l) = [] -> dirty l = false -> out = []).
Proof.
  intros Hst Hw. pose proof (ack_Flush_spec stamp Hst current rto l Hw) as H.
  destruct (ack_Flush stamp current rto l) as [l' out]. tauto.
Qed.

(** ReadMultiBuffer returns the payloads of the longest run of received
    segments that starts at the next number, in order, takes them out of the
    window, moves the next number behind them and leaves the rest of the
    window alone; the next number is then missing. *)
Theorem receiver_reads_longest_run w : leftOver w = None -> 0 <= r_nextNumber w < 2 ^ 32 ->
  let '(w', mb) := r_ReadMultiBuffer w in
  exists segs, mb = Detach <$> segs /\ r_nextNumber w' = u32 (r_nextNumber w + Z.of_nat (length segs)) /\
    (forall i seg, segs !! i = Some seg -> r_window w !! u32 (r_nextNumber w + Z.of_nat i) = Some seg) /\
    r_window w' !! r_nextNumber w' = None /\ r_window w' ⊆ r_window w /\
    (forall n, is_Some (r_window w !! n) -> r_window w' !! n = None -> exists i, (i < length segs)%nat /\ n = u32 (r_nextNumber w + Z.of_nat i)).
Proof.
  intros Hl Hn. pose proof (r_ReadMultiBuffer_spec w Hl Hn) as H. destruct (r_ReadMultiBuffer w) as [w' mb].
  destruct H as (segs & H1 & H2 & H3 & H4 & H5 & H6 & _). by exists segs.
Qed.

Definition sample_acklist : AckList := Add 3 30 (Add 1 10 (Add 2 20 NewAckList)).

Lemma sample_acklist_wf : ack_wf sample_acklist.
Proof. split; reflexivity. Qed.

Lemma acklist_clear_is_filter_witness : entries (Clear 2 sample_acklist) = [(2, 20, 0); (3, 30, 0)].
Proof. refine (proj2 (acklist_clear_is_filter 2 sample_acklist sample_acklist_wf)). Defined.

Lemma acklist_flush_exact_witness :
  let '(l', out) := ack_Flush id 100 50 sample_acklist in
  (exists extra, acked out = [2; 1; 3] ++ extra) /\ nextFlush l' = [125; 125; 125].
Proof.
  pose proof (acklist_flush_exact id 100 50 sample_acklist (fun a => eq_refl) sample_acklist_wf) as H.
  destruct (ack_Flush id 100 50 sample_acklist) as [l' out]. destruct H as ((extra & H1 & _) & _ & _ & H2 & _).
  split; [by exists extra|]. rewrite H2. reflexivity.
Defined.

Definition sample_segment (n : Z) (p : bytes) : DataSegment :=
  {| d_Conv := 1; d_Option := 0; d_Timestamp := 0; d_Number := n; d_SendingNext := 0; d_payload := Some p;
     d_timeout := 0; d_transmit := 0 |}.

Definition sample_receiver : ReceivingWorker :=
  foldl (fun w s => r_ProcessSegment s w)
    {| leftOver := None; r_window := NewReceivingWindow; acklist := NewAckList; r_nextNumber := 0; r_windowSize := 8 |}
    [sample_segment 1 (bs "b"); sample_segment 3 (bs "d"); sample_segment 0 (bs "a"); sample_segment 9 (bs "z")].

Lemma receiver_reads_longest_run_witness :
  let '(w', mb) := r_ReadMultiBuffer sample_receiver in r_window w' !! r_nextNumber w' = None.
Proof.
  pose proof (receiver_reads_longest_run sample_receiver eq_refl ltac:(vm_compute; split; [discriminate|reflexivity])) as H.
  destruct (r_ReadMultiBuffer sample_receiver) as [w' mb]. destruct H as (segs & _ & _ & _ & H & _). exact H.
Defined.

Example sample_receiver_reads :
  let '(w', mb) := r_ReadMultiBuffer sample_receiver in
  (r_nextNumber w', contents mb, Has 3 (r_window w'), Has 9 (r_window w')) = (2, bs "ab", true, false).
Proof. vm_compute. reflexivity. Qed.
