(* ===== verification/KcpDelivery.v ===== *)
(** * Delivery over mKCP

    A sending and a receiving worker joined by a network that may lose,
    duplicate, delay and reorder whatever was ever written: every packet once
    written stays deliverable.  The reader gets a prefix of what was pushed,
    each byte once and in order, and nothing leaves the sender's window
    before the receiver has it. *)

From S2P Require Import Prelude Segment SegmentFacts Buffer BufferFacts KcpRoundTrip KcpSending KcpSendingFacts KcpReceiving KcpReceivingFacts.

Local Open Scope Z_scope.

(** ** The system *)

(** The workers, what the application pushed and was given, and everything
    written so far: data, acknowledgements, and the numbers of pings. *)
Record link := {
  sender : SendingWorker; receiver : ReceivingWorker; pushed : list bytes; delivered : bytes;
  data_net : list DataSegment; ack_net : list AckSegment; pings_to_receiver : list Z; pings_to_sender : list Z
}.

(** A data segment as the peer reads it: without the retransmission state. *)
Definition wire (seg : DataSegment) : DataSegment :=
  {| d_Conv := d_Conv seg; d_Option := d_Option seg; d_Timestamp := d_Timestamp seg; d_Number := d_Number seg;
     d_SendingNext := d_SendingNext seg; d_payload := d_payload seg; d_timeout := 0; d_transmit := 0 |}.

Definition with_sender (s : link) (w : SendingWorker) : link :=
  {| sender := w; receiver := receiver s; pushed := pushed s; delivered := delivered s; data_net := data_net s;
     ack_net := ack_net s; pings_to_receiver := pings_to_receiver s; pings_to_sender := pings_to_sender s |}.
Definition with_receiver (s : link) (w : ReceivingWorker) (d : bytes) : link :=
  {| sender := sender s; receiver := w; pushed := pushed s; delivered := delivered s ++ d; data_net := data_net s;
     ack_net := ack_net s; pings_to_receiver := pings_to_receiver s; pings_to_sender := pings_to_sender s |}.
Definition with_pushed (s : link) (b : bytes) : link :=
  {| sender := sender s; receiver := receiver s; pushed := pushed s ++ [b]; delivered := delivered s; data_net := data_net s;
     ack_net := ack_net s; pings_to_receiver := pings_to_receiver s; pings_to_sender := pings_to_sender s |}.
Definition with_net (s : link) (d : list DataSegment) (a : list AckSegment) (pr ps : list Z) : link :=
  {| sender := sender s; receiver := receiver s; pushed := pushed s; delivered := delivered s; data_net := data_net s ++ d;
     ack_net := ack_net s ++ a; pings_to_receiver := pings_to_receiver s ++ pr; pings_to_sender := pings_to_sender s ++ ps |}.

(** The counter of the sender is 32 bits wide; the runs considered push at
    most 2^31 buffers, each smaller than 2 GB. *)
Inductive link_step : link -> link -> Prop :=
  | step_push s b w : Push b (sender s) = Some w -> Z.of_nat (length b) < 2 ^ 31 ->
      Z.of_nat (length (pushed s)) < 2 ^ 31 -> link_step s (with_pushed (with_sender s w) b)
  | step_flush s conv closing congestion inFlight timeout current w out p :
      Flush conv closing congestion inFlight timeout current (sender s) = (w, out, p) ->
      link_step s (with_net (with_sender s w) out [] [] [])
  | step_ack_flush s conv closing timeout current w out :
      r_Flush conv closing timeout current (receiver s) = (w, out) ->
      link_step s (with_net (with_receiver s w []) [] out [] [])
  | step_data s seg : seg ∈ data_net s -> link_step s (with_receiver s (r_ProcessSegment (wire seg) (receiver s)) [])
  | step_ack s seg current rto rt : seg ∈ ack_net s ->
      link_step s (with_sender s (ProcessSegment current seg rto rt (sender s)).1)
  | step_ping_receiver s : link_step s (with_net s [] [] [FirstUnacknowledged (sender s)] [])
  | step_ping_sender s : link_step s (with_net s [] [] [] [NextNumber (receiver s)])
  | step_pinged_receiver s n : n ∈ pings_to_receiver s -> link_step s (with_receiver s (ProcessSendingNext n (receiver s)) [])
  | step_pinged_sender s n : n ∈ pings_to_sender s -> link_step s (with_sender s (ProcessReceivingNext n (sender s)))
  | step_read_all s w mb : r_ReadMultiBuffer (receiver s) = (w, mb) -> link_step s (with_receiver s w (contents mb))
  | step_read s n w d : r_Read n (receiver s) = Ok (w, d) -> link_step s (with_receiver s w d).

Definition new_link (w : SendingWorker) (r : ReceivingWorker) : link :=
  {| sender := w; receiver := r; pushed := []; delivered := []; data_net := []; ack_net := [];
     pings_to_receiver := []; pings_to_sender := [] |}.

(** ** The invariant *)

Definition received (r : ReceivingWorker) (n : Z) : Prop := 0 <= n < r_nextNumber r \/ is_Some (r_window r !! n).

(** The segment's number is the position of its payload among the buffers pushed. *)
Definition carries (ps : list bytes) (n : Z) (payload : option bytes) : Prop :=
  0 <= n /\ exists p, payload = Some p /\ ps !! Z.to_nat n = Some p.

Record link_inv (s : link) : Prop := {
  li_sender : inv (sender s);
  li_open : closed (sender s) = false;
  li_next : nextNumber (sender s) = Z.of_nat (length (pushed s));
  li_small : Z.of_nat (length (pushed s)) <= 2 ^ 31;
  li_sizes : Forall (fun b => Z.of_nat (length b) < 2 ^ 31) (pushed s);
  li_cache : forall n p, (n, p) ∈ keys (cache (window (sender s))) -> carries (pushed s) n p;
  li_net : Forall (fun seg => carries (pushed s) (d_Number seg) (d_payload seg)) (data_net s);
  li_window : forall n seg, r_window (receiver s) !! n = Some seg -> carries (pushed s) n (d_payload seg);
  li_rnext : 0 <= r_nextNumber (receiver s) <= Z.of_nat (length (pushed s));
  li_left : Forall wf (default [] (leftOver (receiver s)));
  li_delivered : delivered s ++ contents (default [] (leftOver (receiver s))) =
    concat (take (Z.to_nat (r_nextNumber (receiver s))) (pushed s));
  li_acklist : ack_wf (acklist (receiver s)) /\ (forall n, n ∈ numbers (acklist (receiver s)) -> received (receiver s) n);
  li_acks : Forall (fun a => a_ReceivingNext a <= r_nextNumber (receiver s) /\
    forall n, n ∈ a_NumberList a -> received (receiver s) n) (ack_net s);
  li_pings : Forall (fun n => n <= r_nextNumber (receiver s)) (pings_to_sender s);
  li_kept : forall n, 0 <= n < Z.of_nat (length (pushed s)) ->
    n ∈ KcpSendingFacts.numbers (cache (window (sender s))) \/ received (receiver s) n;
}.

Lemma carries_snoc ps b n p : carries ps n p -> carries (ps ++ [b]) n p.
Proof. intros (Hn & q & -> & Hq). split; [done|]. exists q. split; [done|]. by apply lookup_app_l_Some. Qed.

Lemma carries_lt ps n p : carries ps n p -> 0 <= n < Z.of_nat (length ps).
Proof. intros (Hn & q & _ & Hq). apply lookup_lt_Some in Hq. lia. Qed.

(** The sender's window only loses numbers the receiver has. *)
Lemma link_inv_sender s w : link_inv s -> inv w -> closed w = false -> nextNumber w = nextNumber (sender s) ->
  keys (cache (window w)) ⊆ keys (cache (window (sender s))) ->
  (forall n, 0 <= n -> n ∈ KcpSendingFacts.numbers (cache (window (sender s))) ->
    n ∈ KcpSendingFacts.numbers (cache (window w)) \/ received (receiver s) n) ->
  link_inv (with_sender s w).
Proof.
  intros [] Hi Hc Hn Hk Hlost. split; cbn [sender receiver pushed delivered data_net ack_net pings_to_receiver pings_to_sender with_sender]; try done.
  - congruence.
  - intros n p Hin. apply li_cache0, Hk, Hin.
  - intros n Hr. destruct (li_kept0 n Hr) as [Hin|?]; [|auto]. apply Hlost; [lia|done].
Qed.

(** The receiver only gains numbers. *)
Lemma link_inv_receiver s w d : link_inv s ->
  (forall n seg, r_window w !! n = Some seg -> carries (pushed s) n (d_payload seg)) ->
  r_nextNumber (receiver s) <= r_nextNumber w <= Z.of_nat (length (pushed s)) ->
  Forall wf (default [] (leftOver w)) ->
  delivered s ++ d ++ contents (default [] (leftOver w)) = concat (take (Z.to_nat (r_nextNumber w)) (pushed s)) ->
  ack_wf (acklist w) -> (forall n, n ∈ numbers (acklist w) -> received w n) ->
  (forall n, received (receiver s) n -> received w n) ->
  link_inv (with_receiver s w d).
Proof.
  intros [] Hwin Hnext Hwf Hd Haw Han Hrec.
  split; cbn [sender receiver pushed delivered data_net ack_net pings_to_receiver pings_to_sender with_receiver]; try done.
  - lia.
  - by rewrite <-(assoc_L (++)).
  - eapply Forall_impl; [done|]. intros a [Hle Hns]. split; [lia|]. intros n Hn. by apply Hrec, Hns.
  - eapply Forall_impl; [done|]. intros n Hn. cbn in *. lia.
  - intros n Hr. destruct (li_kept0 n Hr) as [?|?]; auto.
Qed.

(** ** Preservation *)

Lemma inv_step_push s b w : link_inv s -> Push b (sender s) = Some w -> Z.of_nat (length b) < 2 ^ 31 ->
  Z.of_nat (length (pushed s)) < 2 ^ 31 -> link_inv (with_pushed (with_sender s w) b).
Proof.
  intros [] Hp Hb Hl. destruct (Push_spec b (sender s) w li_sender0 ltac:(lia) Hp) as (Hi & Hk & Hn & _ & Hc & _).
  split; cbn [sender receiver pushed delivered data_net ack_net pings_to_receiver pings_to_sender with_sender with_pushed];
    rewrite ?length_snoc; try done; try lia.
  - congruence.
  - apply Forall_app. split; [done|]. by apply Forall_cons.
  - intros n p. rewrite Hk. intros [Hin|[= -> ->]%list_elem_of_singleton]%elem_of_app; [by apply carries_snoc, li_cache0|].
    split; [lia|]. exists b. split; [done|]. rewrite li_next0, Nat2Z.id. by apply list_lookup_middle.
  - eapply Forall_impl; [done|]. intros. by apply carries_snoc.
  - intros n seg Hw. by apply carries_snoc, li_window0.
  - rewrite take_app_le by lia. done.
  - intros n Hr. rewrite numbers_keys, Hk, fmap_app, <-numbers_keys.
    destruct (decide (n = Z.of_nat (length (pushed s)))) as [->|Hne].
    + left. apply elem_of_app. right. rewrite <-li_next0. by left.
    + destruct (li_kept0 n ltac:(lia)) as [?|?]; [left; apply elem_of_app; by left|by right].
Qed.

Lemma link_inv_net s d a pr ps : link_inv s ->
  Forall (fun seg => carries (pushed s) (d_Number seg) (d_payload seg)) d ->
  Forall (fun a => a_ReceivingNext a <= r_nextNumber (receiver s) /\ forall n, n ∈ a_NumberList a -> received (receiver s) n) a ->
  Forall (fun n => n <= r_nextNumber (receiver s)) ps -> link_inv (with_net s d a pr ps).
Proof.
  intros [] Hd Ha Hps. split; cbn [sender receiver pushed delivered data_net ack_net pings_to_receiver pings_to_sender with_net]; try done;
    by apply Forall_app.
Qed.

Lemma sent_key stamp current rto seg : (forall s, key (stamp s) = key s) -> key (sent stamp current rto seg) = key seg.
Proof. intros Hst. unfold sent. by rewrite Hst. Qed.

Lemma inv_step_flush s conv closing congestion inFlight timeout current w out p : link_inv s ->
  Flush conv closing congestion inFlight timeout current (sender s) = (w, out, p) ->
  link_inv (with_net (with_sender s w) out [] [] []).
Proof.
  intros Hl Hf. pose proof (Flush_spec conv closing congestion inFlight timeout current (sender s) (li_sender s Hl) (li_open s Hl)) as H.
  rewrite Hf in H. destruct H as (Hi & Hk & Hn & _ & Hc & _ & Hout). apply link_inv_net; [|..]; try done.
  - apply link_inv_sender; try done; [by rewrite Hc; apply li_open|by rewrite Hk|].
    intros n _. rewrite !numbers_keys, Hk. auto.
  - cbn [pushed with_sender]. rewrite Hout. apply Forall_fmap, Forall_forall. intros seg Hin%elem_of_take. cbn.
    destruct Hin as (i & Hin%list_elem_of_lookup_2 & _). apply list_elem_of_filter in Hin as [_ Hin].
    change (d_Number seg) with (key seg).1. apply (li_cache s Hl). apply list_elem_of_fmap. by exists seg.
Qed.

Lemma inv_acklist s l : link_inv s -> ack_wf l -> (forall n, n ∈ numbers l -> received (receiver s) n) ->
  link_inv (with_receiver s (set_acklist (receiver s) l) []).
Proof. intros Hl Haw Hn. pose proof Hl as []. apply link_inv_receiver; try done. cbn. lia. Qed.

Lemma entries_numbers l : ack_wf l -> numbers l = (fun e => e.1.1) <$> entries l.
Proof.
  intros [H1 H2]. unfold entries. apply list_eq. intros i. rewrite list_lookup_fmap, !lookup_zip_with.
  destruct (numbers l !! i) as [n|] eqn:Hn; [|done].
  apply lookup_lt_Some in Hn. destruct (lookup_lt_is_Some_2 (timestamps l) i) as [t ->]; [lia|].
  destruct (lookup_lt_is_Some_2 (nextFlush l) i) as [f ->]; [lia|]. done.
Qed.

Lemma Clear_numbers una l n : ack_wf l -> n ∈ numbers (Clear una l) -> n ∈ numbers l.
Proof.
  intros Hw. destruct (Clear_spec una l Hw) as [Hw' He]. rewrite !entries_numbers by done. rewrite He.
  intros (e & -> & [_ Hin]%list_elem_of_filter)%list_elem_of_fmap. apply list_elem_of_fmap. eauto.
Qed.

Lemma inv_step_ack_flush s conv closing timeout current w out : link_inv s ->
  r_Flush conv closing timeout current (receiver s) = (w, out) -> link_inv (with_net (with_receiver s w []) [] out [] []).
Proof.
  intros Hl. unfold r_Flush. destruct (li_acklist s Hl) as [Haw Han].
  pose proof (ack_Flush_spec (r_Write conv closing (receiver s)) (fun a => eq_refl) current timeout (acklist (receiver s)) Haw) as H.
  assert (forall a, a ∈ (ack_Flush (r_Write conv closing (receiver s)) current timeout (acklist (receiver s))).2 ->
    a_ReceivingNext a = r_nextNumber (receiver s)) as Hst.
  { unfold ack_Flush. set (s0 := {| f_list := _; f_seg := _; f_out := _ |}).
    assert (forall ks s1, (forall a, a ∈ f_out s1 -> a_ReceivingNext a = r_nextNumber (receiver s)) ->
      forall a, a ∈ f_out (foldl (ack_turn (r_Write conv closing (receiver s)) current timeout) s1 ks) ->
      a_ReceivingNext a = r_nextNumber (receiver s)) as Hfold.
    { induction ks as [|k ks IH]; intros s1 Hs1; [done|]. apply IH. unfold ack_turn. destruct (_ <? _); [done|]. destruct (Segment.IsFull _); [|done].
      cbn [f_out]. intros a [Ha| ->%list_elem_of_singleton]%elem_of_app; [by apply Hs1|done]. }
    destruct (_ || _); cbn [snd]; [intros a [Ha| ->%list_elem_of_singleton]%elem_of_app; [|done]|intros a Ha];
      (eapply Hfold; [|exact Ha]); by intros ? ?%not_elem_of_nil. }
  destruct (ack_Flush _ _ _ _) as [l' out']. destruct H as (Haw' & Hn & _ & _ & _ & _ & (extra & Hacked & Hextra) & _).
  intros [= <- <-]. apply link_inv_net; [apply inv_acklist; [done..|by rewrite Hn]|done| |done].
  cbn [receiver with_receiver]. apply Forall_forall. intros a Ha. split; [by rewrite (Hst a Ha)|].
  intros n Hin. cut (received (receiver s) n); [done|]. apply Han. rewrite entries_numbers by done.
  assert (n ∈ acked out') as Hna by (apply list_elem_of_bind; eauto). rewrite Hacked in Hna.
  apply elem_of_app in Hna as [Hna|Hna].
  - unfold due_numbers in Hna. apply list_elem_of_fmap in Hna as (e & -> & [_ He]%list_elem_of_filter). apply list_elem_of_fmap. eauto.
  - destruct Hextra as [rest Hrest]. assert (n ∈ waiting_numbers current (entries (acklist (receiver s)))) as Hw by (rewrite Hrest; apply elem_of_app; by left).
    unfold waiting_numbers in Hw. apply list_elem_of_fmap in Hw as (e & -> & [_ He]%list_elem_of_filter). apply list_elem_of_fmap. eauto.
Qed.

Lemma inv_step_data s seg : link_inv s -> seg ∈ data_net s -> link_inv (with_receiver s (r_ProcessSegment (wire seg) (receiver s)) []).
Proof.
  intros Hl Hin. pose proof Hl as []. rewrite Forall_forall in li_net0. pose proof (li_net0 seg Hin) as Hcar.
  unfold r_ProcessSegment. destruct (_ <=? _); [apply link_inv_receiver; try done; [lia|apply li_acklist0..]|].
  cbn [wire d_Number d_Timestamp d_SendingNext set_acklist r_nextNumber r_window].
  assert (forall n, received (receiver s) n -> received (set_received (receiver s) (Set_ (d_Number seg) (wire seg) (r_window (receiver s))).1 (r_nextNumber (receiver s))) n) as Hmono.
  { intros n [Hn|[x Hx]]; [by left|right]. cbn [r_window set_received]. unfold Set_. destruct (r_window (receiver s) !! d_Number seg) eqn:E; [by exists x|].
    cbn [fst]. rewrite lookup_insert_ne by congruence. by exists x. }
  destruct (Clear_spec (d_SendingNext seg) (acklist (receiver s)) (proj1 li_acklist0)) as [Hcw _].
  apply link_inv_receiver; cbn [set_received r_window r_nextNumber leftOver acklist set_acklist]; auto.
  - intros n x. unfold Set_. destruct (r_window (receiver s) !! d_Number seg) eqn:E; cbn [fst]; [apply li_window0|].
    rewrite lookup_insert. case_decide as Heq; [|apply li_window0]. intros [= <-]. by rewrite <-Heq.
  - lia.
  - split; cbn; rewrite !length_snoc; destruct Hcw; lia.
  - intros n [Hn|Hn%list_elem_of_singleton]%elem_of_app.
    + apply Clear_numbers in Hn; [|apply li_acklist0]. apply (Hmono n). by apply (proj2 li_acklist0).
    + subst n. right. cbn [r_window set_received set_acklist]. unfold Set_.
      destruct (r_window (receiver s) !! d_Number seg) eqn:E; cbn [fst]; [by rewrite E|]. by rewrite lookup_insert_eq.
Qed.

(** ** Reading *)

Lemma contents_detached segs ps k : Forall (fun b => Z.of_nat (length b) < 2 ^ 31) ps ->
  (forall i seg, segs !! i = Some seg -> carries ps (Z.of_nat (k + i)) (d_payload seg)) ->
  Forall wf (Detach <$> segs) /\ contents (Detach <$> segs) = concat (take (length segs) (drop k ps)).
Proof.
  intros Hps. revert k. induction segs as [|seg segs IH]; intros k Hs; [done|].
  destruct (Hs 0%nat seg eq_refl) as (_ & p & Hp & Hpk). rewrite Nat2Z.id, Nat.add_0_r in Hpk.
  rewrite fmap_cons, contents_cons. rewrite Forall_forall in Hps. pose proof (Hps p ltac:(by eapply list_elem_of_lookup_2)) as Hlen.
  unfold Detach at 1 3, Data. rewrite Hp. destruct (wf_FromBytes p Hlen) as [Hw Hc].
  destruct (IH (S k)) as [IHw IHc]. { intros i seg' Hi. replace (S k + i)%nat with (k + S i)%nat by lia. by apply Hs. }
  split; [by constructor|]. cbn [default from_option id]. rewrite Hc, IHc. by rewrite (drop_S _ _ _ Hpk).
Qed.

(** The state after ReadMultiBuffer, before the buffers are handed over. *)
Lemma read_inv s w mb : link_inv s -> r_ReadMultiBuffer (receiver s) = (w, mb) ->
  Forall wf mb /\ leftOver w = None /\ acklist w = acklist (receiver s) /\
  r_nextNumber (receiver s) <= r_nextNumber w <= Z.of_nat (length (pushed s)) /\
  delivered s ++ contents mb = concat (take (Z.to_nat (r_nextNumber w)) (pushed s)) /\
  (forall n seg, r_window w !! n = Some seg -> r_window (receiver s) !! n = Some seg) /\
  (forall n, received (receiver s) n -> received w n) /\
  (leftOver (receiver s) = None -> r_window w !! r_nextNumber w = None).
Proof.
  intros Hl Hr. pose proof Hl as []. destruct (leftOver (receiver s)) as [lo|] eqn:Hlo; cbn [default from_option id] in *.
  { unfold r_ReadMultiBuffer in Hr. rewrite Hlo in Hr. injection Hr as <- <-. repeat (split; [done|]). split; [cbn; lia|]. done. }
  pose proof (r_ReadMultiBuffer_spec (receiver s) Hlo ltac:(lia)) as H. rewrite Hr in H.
  destruct H as (segs & -> & Hnext & Hsegs & Hend & Hsub & Hrun & Hlw & Haw & _).
  assert (forall i seg, segs !! i = Some seg -> carries (pushed s) (Z.of_nat (Z.to_nat (r_nextNumber (receiver s)) + i)) (d_payload seg)) as Hcar.
  { intros i. induction i as [i IH] using lt_wf_ind. intros seg Hi. pose proof (Hsegs i seg Hi) as Hw. apply li_window0 in Hw.
    rewrite Nat2Z.inj_add, Z2Nat.id by lia. rewrite u32_small in Hw; [done|].
    destruct i as [|i]; [lia|]. destruct (lookup_lt_is_Some_2 segs i) as [x Hx]; [apply lookup_lt_Some in Hi; lia|].
    specialize (IH i ltac:(lia) x Hx). apply carries_lt in IH. lia. }
  assert (r_nextNumber (receiver s) + Z.of_nat (length segs) <= Z.of_nat (length (pushed s))) as Hle.
  { destruct segs as [|x segs' _] using rev_ind; [simpl; lia|].
    specialize (Hcar (length segs') x ltac:(by apply list_lookup_middle)). apply carries_lt in Hcar. rewrite length_snoc. lia. }
  rewrite u32_small in Hnext by lia.
  destruct (contents_detached segs (pushed s) (Z.to_nat (r_nextNumber (receiver s))) li_sizes0 Hcar) as [Hwf Hc].
  split; [done|]. split; [done|]. split; [done|]. split; [lia|]. split; [|split; [|split]].
  - rewrite Hc. unfold contents in li_delivered0. cbn in li_delivered0. rewrite app_nil_r in li_delivered0. rewrite li_delivered0, <-concat_app, Hnext.
    f_equal. rewrite Z2Nat.inj_add, Nat2Z.id by lia. by rewrite take_take_drop.
  - intros n seg Hw. by eapply lookup_weaken.
  - intros n [Hn|Hn]; [left; lia|]. destruct (r_window w !! n) as [x|] eqn:E; [right; by exists x|].
    left. destruct (Hrun n Hn E) as (i & Hi & ->). rewrite u32_small by lia. lia.
  - intros _. exact Hend.
Qed.

Lemma inv_step_read_all s w mb : link_inv s -> r_ReadMultiBuffer (receiver s) = (w, mb) ->
  link_inv (with_receiver s w (contents mb)).
Proof.
  intros Hl Hr. destruct (read_inv s w mb Hl Hr) as (Hwf & Hlo & Ha & Hn & Hd & Hw & Hrec & _). pose proof Hl as [].
  apply link_inv_receiver; try done.
  - intros n seg Hs. by apply li_window0, Hw.
  - by rewrite Hlo.
  - rewrite Hlo. unfold contents at 2. cbn. by rewrite app_nil_r.
  - rewrite Ha. apply li_acklist0.
  - intros n. rewrite Ha. intros Hin. by apply Hrec, (proj2 li_acklist0).
Qed.

Lemma inv_step_read s n w d : link_inv s -> r_Read n (receiver s) = Ok (w, d) -> link_inv (with_receiver s w d).
Proof.
  intros Hl. unfold r_Read. destruct (r_ReadMultiBuffer (receiver s)) as [w1 mb] eqn:Hr.
  destruct (read_inv s w1 mb Hl Hr) as (Hwf & Hlo & Ha & Hn & Hd & Hw & Hrec & _). pose proof Hl as [].
  assert (forall w2 d2, (forall k x, r_window w2 !! k = Some x -> r_window w1 !! k = Some x) -> r_window w2 = r_window w1 ->
    acklist w2 = acklist w1 -> r_nextNumber w2 = r_nextNumber w1 -> Forall wf (default [] (leftOver w2)) ->
    d2 ++ contents (default [] (leftOver w2)) = contents mb -> link_inv (with_receiver s w2 d2)) as Hgo.
  { intros w2 d2 Hsub Hwin Hal Hnx Hlw Hcc. apply link_inv_receiver; try done.
    - intros k x Hk. by apply li_window0, Hw, Hsub.
    - by rewrite Hnx.
    - by rewrite Hcc, Hnx.
    - rewrite Hal, Ha. apply li_acklist0.
    - intros k. rewrite Hal, Ha. intros Hin. unfold received. rewrite Hnx, Hwin. by apply Hrec, (proj2 li_acklist0).
    - intros k Hk. unfold received. rewrite Hnx, Hwin. by apply Hrec. }
  rewrite MultiBuffer_IsEmpty_contents by done. case_bool_decide as Hemp.
  { intros [= <- <-]. apply Hgo; try done; rewrite Hlo; [done|]. by rewrite Hemp. }
  destruct (SplitBytes_ok mb n Hwf) as (mb' & -> & Hwf' & Hc'). cbn [mbind outcome_bind].
  rewrite MultiBuffer_IsEmpty_contents by done. intros Heq. apply (inj Ok) in Heq. injection Heq as <- <-.
  case_bool_decide as Hemp'; cbn [negb]; apply Hgo; try done; rewrite ?Hlo; cbn [default from_option id leftOver set_leftOver].
  - done.
  - rewrite <-(take_drop n (contents mb)) at 2. by rewrite <-Hc', Hemp'.
  - rewrite Hc'. apply take_drop.
Qed.

Lemma inv_step_ack s seg current rto rt : link_inv s -> seg ∈ ack_net s ->
  link_inv (with_sender s (ProcessSegment current seg rto rt (sender s)).1).
Proof.
  intros Hl Hin. pose proof Hl as []. destruct li_sender0 as [I1 I2 I3 I4].
  destruct (ProcessSegment_spec current seg rto rt (sender s)) as (Hi & Hn & _ & Hk & Hc); [by split|done|lia|].
  assert (forall x, x ∈ filter (unacked seg) (cache (window (sender s))) <-> unacked seg x /\ x ∈ cache (window (sender s))) as Hf
    by (intros; apply list_elem_of_filter).
  apply link_inv_sender; try done.
  - by rewrite Hc.
  - rewrite Hk. intros x (y & -> & [_ Hy]%Hf)%list_elem_of_fmap. apply list_elem_of_fmap. eauto.
  - intros n Hn0 Hnum. rewrite (numbers_keys (cache (window (ProcessSegment _ _ _ _ _).1))), Hk, <-numbers_keys.
    unfold KcpSendingFacts.numbers in *. apply list_elem_of_fmap in Hnum as (x & -> & Hx).
    destruct (decide (unacked seg x)) as [Hu|Hu]; [left; apply list_elem_of_fmap; exists x; split; [done|]; by apply Hf|right].
    rewrite Forall_forall in li_acks0. destruct (li_acks0 seg Hin) as [Hle Hns]. unfold unacked in Hu.
    destruct (decide (d_Number x ∈ a_NumberList seg)); [by apply Hns|]. left. split; [done|].
    destruct (decide (a_ReceivingNext seg <= d_Number x)); [tauto|lia].
Qed.

Lemma inv_step_pinged_sender s n : link_inv s -> n ∈ pings_to_sender s -> link_inv (with_sender s (ProcessReceivingNext n (sender s))).
Proof.
  intros Hl Hin. pose proof Hl as []. destruct (ProcessReceivingNext_spec n (sender s) li_sender0) as (Hi & Hn & _ & Hc & Hcl).
  apply link_inv_sender; try done.
  - rewrite Hc. unfold keys. intros x (y & -> & [_ Hy]%list_elem_of_filter)%list_elem_of_fmap. apply list_elem_of_fmap. eauto.
  - intros k Hk0 Hk. rewrite Hc. unfold KcpSendingFacts.numbers in *. apply list_elem_of_fmap in Hk as (x & -> & Hx).
    rewrite Forall_forall in li_pings0. specialize (li_pings0 n Hin).
    destruct (decide (n <= d_Number x)); [left|right; left; lia].
    apply list_elem_of_fmap. exists x. split; [done|]. by apply list_elem_of_filter.
Qed.

Lemma link_step_inv s s' : link_step s s' -> link_inv s -> link_inv s'.
Proof.
  intros Hs Hl. destruct Hs.
  - by apply inv_step_push.
  - by eapply inv_step_flush.
  - by eapply inv_step_ack_flush.
  - by apply inv_step_data.
  - by apply inv_step_ack.
  - by apply link_inv_net.
  - apply link_inv_net; [done..|]. apply Forall_cons. split; [unfold NextNumber; lia|done].
  - destruct (li_acklist s Hl) as [Haw Han]. apply inv_acklist; [done|by apply Clear_spec|].
    intros k Hk. apply Han. by eapply Clear_numbers.
  - by apply inv_step_pinged_sender.
  - by apply inv_step_read_all.
  - by eapply inv_step_read.
Qed.

Lemma new_link_inv cs cr w r : NewSendingWorker cs = Some w -> NewReceivingWorker cr = Some r -> link_inv (new_link w r).
Proof.
  intros Hw Hr. pose proof (inv_New cs w Hw) as Hi. unfold NewSendingWorker in Hw. unfold NewReceivingWorker in Hr.
  destruct (GetSendingInFlightSize cs), (GetSendingBufferSize cs), (GetReceivingInFlightSize cr); try done.
  injection Hw as <-. injection Hr as <-. split; try done; cbn; try lia.
  - by intros n p ?%not_elem_of_nil.
  - split; [done|]. by intros n ?%not_elem_of_nil.
Qed.

Lemma link_inv_reachable cs cr w r s : NewSendingWorker cs = Some w -> NewReceivingWorker cr = Some r ->
  rtc link_step (new_link w r) s -> link_inv s.
Proof.
  intros Hw Hr Hs. apply rtc_ind_r with (P := link_inv) in Hs; [done|by eapply new_link_inv|].
  intros s1 s2 _ Hstep Hi. by eapply link_step_inv.
Qed.

(** ** Progress *)

Lemma r_ReadMultiBuffer_windowSize r : r_windowSize (r_ReadMultiBuffer r).1 = r_windowSize r.
Proof. unfold r_ReadMultiBuffer. destruct (leftOver r); [done|]. by destruct (read_loop _ _ _ _) as [[? ?] ?]. Qed.

Lemma step_windowSize s s' : link_step s s' -> r_windowSize (receiver s') = r_windowSize (receiver s).
Proof.
  destruct 1 as [| |s conv closing timeout current w out Hf|s seg Hin| | | | | |s w mb Hr|s n w d Hr]; try done; cbn.
  - unfold r_Flush in Hf. destruct (ack_Flush _ _ _ _). by injection Hf as <- <-.
  - unfold r_ProcessSegment. by destruct (_ <=? _).
  - rewrite <-(r_ReadMultiBuffer_windowSize (receiver s)). by rewrite Hr.
  - rewrite <-(r_ReadMultiBuffer_windowSize (receiver s)). unfold r_Read in Hr. destruct (r_ReadMultiBuffer (receiver s)) as [w1 mb].
    cbn [fst]. destruct (MultiBuffer_IsEmpty mb); [by injection Hr as <- <-|].
    destruct (SplitBytes mb n) as [[mb' data]| |]; try done. cbn [mbind outcome_bind] in Hr. apply (inj Ok) in Hr. injection Hr as <- <-.
    by destruct (negb _).
Qed.

Lemma window_size_reachable cs cr w r s : NewSendingWorker cs = Some w -> NewReceivingWorker cr = Some r ->
  rtc link_step (new_link w r) s -> 0 < r_windowSize (receiver s).
Proof.
  intros _ Hr Hs. apply rtc_ind_r with (P := fun s => 0 < r_windowSize (receiver s)) in Hs; [done| |].
  - cbn. unfold NewReceivingWorker in Hr. destruct (GetReceivingInFlightSize cr) as [size|] eqn:E; [|done].
    apply in_flight_at_least_8 in E. injection Hr as <-. cbn. lia.
  - intros s1 s2 _ Hstep. by rewrite (step_windowSize _ _ Hstep).
Qed.

(** Reading everything available: the next number is then missing. *)
Lemma read_all_round s : link_inv s -> exists s', rtc link_step s s' /\ link_inv s' /\ pushed s' = pushed s /\
  leftOver (receiver s') = None /\ r_window (receiver s') !! r_nextNumber (receiver s') = None /\
  r_windowSize (receiver s') = r_windowSize (receiver s) /\ r_nextNumber (receiver s) <= r_nextNumber (receiver s') /\
  (forall n, received (receiver s) n -> received (receiver s') n).
Proof.
  assert (forall s, link_inv s -> leftOver (receiver s) = None -> exists s', link_step s s' /\ link_inv s' /\ pushed s' = pushed s /\
    leftOver (receiver s') = None /\ r_window (receiver s') !! r_nextNumber (receiver s') = None /\
    r_windowSize (receiver s') = r_windowSize (receiver s) /\ r_nextNumber (receiver s) <= r_nextNumber (receiver s') /\
    (forall n, received (receiver s) n -> received (receiver s') n)) as Hnone.
  { intros s0 Hl Hlo. destruct (r_ReadMultiBuffer (receiver s0)) as [w mb] eqn:Hr.
    destruct (read_inv s0 w mb Hl Hr) as (_ & Hlw & _ & [Hle _] & _ & _ & Hrec & Hmiss).
    assert (r_windowSize w = r_windowSize (receiver s0)) as Hws
      by (unfold r_ReadMultiBuffer in Hr; rewrite Hlo in Hr; destruct (read_loop _ _ _ _) as [[? ?] ?]; by injection Hr as <- <-).
    exists (with_receiver s0 w (contents mb)). split; [by constructor|]. split; [by apply inv_step_read_all|].
    repeat (split; [done|]). split; [by apply Hmiss|]. by repeat (split; [done|]). }
  intros Hl. destruct (leftOver (receiver s)) as [mb|] eqn:Hlo.
  - set (w := set_leftOver (receiver s) None). assert (r_ReadMultiBuffer (receiver s) = (w, mb)) as Hr
      by (unfold r_ReadMultiBuffer; by rewrite Hlo).
    destruct (Hnone (with_receiver s w (contents mb))) as (s' & Hstep & Hi & Hp & H1 & H2 & H3 & H4 & H5); [by apply inv_step_read_all|done|].
    exists s'. split; [eapply rtc_l; [by apply step_read_all|by apply rtc_once]|]. repeat (split; [done|]). exact H5.
  - destruct (Hnone s Hl Hlo) as (s' & Hstep & ?). exists s'. split; [by apply rtc_once|done].
Qed.

(** The number the receiver waits for is the first the sender keeps, once
    the receiver's ping has arrived. *)
Lemma awaited_is_first s : link_inv s -> r_window (receiver s) !! r_nextNumber (receiver s) = None ->
  r_nextNumber (receiver s) < Z.of_nat (length (pushed s)) ->
  let w := ProcessReceivingNext (r_nextNumber (receiver s)) (sender s) in
  inv w /\ closed w = false /\ exists x c, cache (window w) = x :: c /\ d_Number x = r_nextNumber (receiver s).
Proof.
  intros Hl Hmiss Hlt w. set (n := r_nextNumber (receiver s)) in *.
  destruct (ProcessReceivingNext_spec n (sender s) (li_sender s Hl)) as (Hi & _ & _ & Hc & Hcl). fold w in Hi, Hc, Hcl.
  split; [done|]. split; [by rewrite Hcl; apply (li_open s Hl)|].
  assert (n ∈ KcpSendingFacts.numbers (cache (window w))) as Hn.
  { destruct (li_kept s Hl n) as [Hin|[?|[? ?]]]; [pose proof (li_rnext s Hl); unfold n in *; lia| |unfold n in *; lia|unfold n in *; congruence].
    rewrite Hc. unfold KcpSendingFacts.numbers in *. apply list_elem_of_fmap in Hin as (x & Hx & Hin).
    apply list_elem_of_fmap. exists x. split; [done|]. apply list_elem_of_filter. split; [lia|done]. }
  pose proof (inv_sorted w Hi) as Hs. destruct (cache (window w)) as [|x c] eqn:E; [by apply not_elem_of_nil in Hn|].
  exists x, c. split; [done|]. destruct (sorted_cons _ _ Hs) as [_ Hlt'].
  assert (x ∈ filter (fun s => n <= d_Number s) (cache (window (sender s)))) as [Hge _]%list_elem_of_filter by (rewrite <-Hc; by left).
  unfold KcpSendingFacts.numbers in Hn. apply list_elem_of_fmap in Hn as (y & Hy & [->|Hin]%elem_of_cons); [done|].
  specialize (Hlt' y Hin). lia.
Qed.

(** A flush at the right time writes the first segment of the window. *)
Lemma flush_writes_first w x c : inv w -> closed w = false -> cache (window w) = x :: c ->
  exists current w' seg out p, Flush 0 false false 1 0 current w = (w', seg :: out, p) /\ d_Number seg = d_Number x.
Proof.
  intros Hi Hc Hx. exists (d_timeout x).
  pose proof (Flush_spec 0 false false 1 0 (d_timeout x) w Hi Hc) as H.
  destruct (Flush 0 false false 1 0 (d_timeout x) w) as [[w' out] p]. destruct H as (_ & _ & _ & _ & _ & _ & Hout).
  rewrite Hx, filter_cons_True in Hout by (unfold due, sub32; by rewrite Z.sub_diag).
  unfold flush_limit in Hout. destruct (Z.to_nat (Z.max 1 (flush_cwnd false 1 w))) as [|k] eqn:Hk; [lia|].
  cbn [take] in Hout. rewrite fmap_cons in Hout. rewrite Hout. eexists _, _, _, _. split; [done|]. done.
Qed.

Lemma data_arrives r seg : d_Number seg = r_nextNumber r -> 0 < r_windowSize r ->
  received (r_ProcessSegment seg r) (r_nextNumber r) /\ r_nextNumber (r_ProcessSegment seg r) = r_nextNumber r /\
  r_windowSize (r_ProcessSegment seg r) = r_windowSize r.
Proof.
  intros Hn Hw. unfold r_ProcessSegment, sub32. rewrite Hn, Z.sub_diag. change (u32 0) with 0.
  destruct (Z.leb_spec (r_windowSize r) 0); [lia|]. split; [|done]. right. cbn. unfold Set_.
  destruct (r_window r !! r_nextNumber r) eqn:E; cbn; [by rewrite E|]. by rewrite lookup_insert_eq.
Qed.

(** One number more, from any state. *)
Lemma delivery_round s : link_inv s -> 0 < r_windowSize (receiver s) -> leftOver (receiver s) = None ->
  r_window (receiver s) !! r_nextNumber (receiver s) = None -> r_nextNumber (receiver s) < Z.of_nat (length (pushed s)) ->
  exists s', rtc link_step s s' /\ link_inv s' /\ pushed s' = pushed s /\ leftOver (receiver s') = None /\
    r_window (receiver s') !! r_nextNumber (receiver s') = None /\
    r_windowSize (receiver s') = r_windowSize (receiver s) /\ r_nextNumber (receiver s) < r_nextNumber (receiver s').
Proof.
  intros Hl Hws Hlo Hmiss Hlt. set (n := r_nextNumber (receiver s)) in *.
  set (s1 := with_net s [] [] [] [NextNumber (receiver s)]).
  assert (link_step s s1) as H01 by constructor. pose proof (link_step_inv _ _ H01 Hl) as Hl1.
  destruct (awaited_is_first s1 Hl1 Hmiss Hlt) as (Hi & Hc & x & c & Hx & Hnx).
  set (s2 := with_sender s1 (ProcessReceivingNext n (sender s1))).
  assert (link_step s1 s2) as H12 by (constructor; unfold s1; cbn; apply elem_of_app; right; by left).
  pose proof (link_step_inv _ _ H12 Hl1) as Hl2.
  destruct (flush_writes_first _ x c Hi Hc Hx) as (current & w' & seg & out & p & Hf & Hseg).
  set (s3 := with_net (with_sender s2 w') (seg :: out) [] [] []).
  assert (link_step s2 s3) as H23 by (by eapply step_flush). pose proof (link_step_inv _ _ H23 Hl2) as Hl3.
  set (s4 := with_receiver s3 (r_ProcessSegment (wire seg) (receiver s3)) []).
  assert (link_step s3 s4) as H34 by (apply step_data; unfold s3; cbn; apply elem_of_app; right; by left).
  pose proof (link_step_inv _ _ H34 Hl3) as Hl4.
  destruct (data_arrives (receiver s) (wire seg)) as (Hrec & Hnext & Hwin); [cbn; by rewrite Hseg, Hnx|done|].
  destruct (read_all_round s4 Hl4) as (s5 & H45 & Hl5 & Hp5 & Hlo5 & Hmiss5 & Hws5 & Hle & Hmono).
  change (r_nextNumber (r_ProcessSegment (wire seg) (receiver s)) <= r_nextNumber (receiver s5)) in Hle. rewrite Hnext in Hle. fold n in Hle.
  exists s5. split; [do 4 (eapply rtc_l; [eassumption|]); done|]. split; [done|]. split; [exact Hp5|]. split; [done|]. split; [done|].
  split; [rewrite Hws5; exact Hwin|].
  destruct (Hmono n Hrec) as [[_ ?]|[y Hy]]; [done|].
  destruct (decide (r_nextNumber (receiver s5) = n)) as [Heq|]; [congruence|lia].
Qed.

Lemma delivery_finishes k s : link_inv s -> 0 < r_windowSize (receiver s) -> leftOver (receiver s) = None ->
  r_window (receiver s) !! r_nextNumber (receiver s) = None ->
  (Z.to_nat (Z.of_nat (length (pushed s)) - r_nextNumber (receiver s)) <= k)%nat ->
  exists s', rtc link_step s s' /\ pushed s' = pushed s /\ delivered s' = concat (pushed s).
Proof.
  revert s. induction k as [|k IH]; intros s Hl Hws Hlo Hmiss Hk.
  all: destruct (decide (r_nextNumber (receiver s) < Z.of_nat (length (pushed s)))) as [Hlt|Hge]; [try lia|].
  2: { destruct (delivery_round s Hl Hws Hlo Hmiss Hlt) as (s1 & Hs1 & Hl1 & Hp1 & Hlo1 & Hm1 & Hws1 & Hn1).
    pose proof (li_rnext s1 Hl1). destruct (IH s1) as (s2 & Hs2 & Hp2 & Hd2); [done|lia|done|done|rewrite Hp1 in *; lia|].
    exists s2. split; [by etrans|]. rewrite <-Hp1. done. }
  all: exists s; split; [done|]; split; [done|]; pose proof (li_delivered s Hl) as Hd; pose proof (li_rnext s Hl);
    rewrite Hlo in Hd; unfold contents in Hd; cbn in Hd; rewrite app_nil_r in Hd; rewrite Hd; by rewrite take_ge by lia.
Qed.

(** ** Properties *)

(** C28: whatever the network loses, repeats or reorders, and however sends,
    acknowledgements, pings and reads interleave, what the reader has been
    given followed by what it left over is the concatenation of the first
    buffers pushed, exactly those before the receiver's next number: each
    byte once, in order, nothing else. A run has at most 2^31 buffers: beyond
    that the 32-bit numbers of segments no longer order them. *)
Theorem kcp_exactly_once_in_order cs cr w r s :
  NewSendingWorker cs = Some w -> NewReceivingWorker cr = Some r -> rtc link_step (new_link w r) s ->
  delivered s ++ contents (default [] (leftOver (receiver s))) =
    concat (take (Z.to_nat (r_nextNumber (receiver s))) (pushed s)).
Proof. intros Hw Hr Hs. apply li_delivered. by eapply link_inv_reachable. Qed.

(** The sender forgets nothing early: every buffer pushed is still in
    the sending window or has reached the receiver. *)
Theorem kcp_keeps_until_received cs cr w r s n :
  NewSendingWorker cs = Some w -> NewReceivingWorker cr = Some r -> rtc link_step (new_link w r) s ->
  0 <= n < Z.of_nat (length (pushed s)) ->
  n ∈ KcpSendingFacts.numbers (cache (window (sender s))) \/ received (receiver s) n.
Proof. intros Hw Hr Hs Hn. apply li_kept; [by eapply link_inv_reachable|done]. Qed.

(** No state is a dead end: from every reachable state some execution of
    reads, pings, flushes and deliveries hands over everything pushed so far. *)
Theorem kcp_can_always_finish cs cr w r s :
  NewSendingWorker cs = Some w -> NewReceivingWorker cr = Some r -> rtc link_step (new_link w r) s ->
  exists s', rtc link_step s s' /\ pushed s' = pushed s /\ delivered s' = concat (pushed s).
Proof.
  intros Hw Hr Hs. pose proof (link_inv_reachable _ _ _ _ _ Hw Hr Hs) as Hl.
  destruct (read_all_round s Hl) as (s1 & H1 & Hl1 & Hp1 & Hlo1 & Hm1 & Hws1 & _).
  destruct (delivery_finishes (Z.to_nat (Z.of_nat (length (pushed s1)) - r_nextNumber (receiver s1))) s1) as (s2 & H2 & Hp2 & Hd2); try done.
  - rewrite Hws1. by apply (window_size_reachable cs cr w r).
  - exists s2. split; [by etrans|]. rewrite <-Hp1. done.
Qed.

(** A link on which one buffer was pushed, sent, received and read. *)
Definition some_receiver : ReceivingWorker :=
  default {| leftOver := None; r_window := ∅; acklist := NewAckList; r_nextNumber := 0; r_windowSize := 0 |} (NewReceivingWorker default_config).

Definition link1 : link := with_pushed (with_sender (new_link some_worker some_receiver) (default some_worker (Push (bs "ab") some_worker))) (bs "ab").
Definition link2 : link :=
  let '(w, out, _) := Flush 1 false true 8 100 10 (sender link1) in with_net (with_sender link1 w) out [] [] [].
Definition sent_segment : DataSegment := default NewDataSegment (head (data_net link2)).
Definition link3 : link := with_receiver link2 (r_ProcessSegment (wire sent_segment) (receiver link2)) [].
Definition link4 : link := let '(w, mb) := r_ReadMultiBuffer (receiver link3) in with_receiver link3 w (contents mb).

Lemma link1_reachable : rtc link_step (new_link some_worker some_receiver) link1.
Proof. apply rtc_once, step_push; [apply some_default; reflexivity|done..]. Qed.

Lemma link3_reachable : rtc link_step (new_link some_worker some_receiver) link3.
Proof.
  etrans; [apply link1_reachable|]. apply rtc_l with link2.
  - unfold link2. destruct (Flush 1 false true 8 100 10 (sender link1)) as [[w out] p] eqn:E. by eapply step_flush.
  - apply rtc_once, step_data. change (data_net link2) with [sent_segment]. by left.
Qed.

Lemma link4_reachable : rtc link_step (new_link some_worker some_receiver) link4.
Proof.
  etrans; [apply link3_reachable|]. apply rtc_once. unfold link4.
  destruct (r_ReadMultiBuffer (receiver link3)) as [w mb] eqn:E. by apply step_read_all.
Qed.

Lemma some_worker_new : NewSendingWorker default_config = Some some_worker.
Proof. apply some_default. reflexivity. Qed.
Lemma some_receiver_new : NewReceivingWorker default_config = Some some_receiver.
Proof. apply some_default. reflexivity. Qed.

Example link4_delivers : delivered link4 = bs "ab".
Proof. vm_compute. reflexivity. Qed.

Lemma kcp_exactly_once_in_order_witness :
  delivered link4 ++ contents (default [] (leftOver (receiver link4))) = concat (take (Z.to_nat (r_nextNumber (receiver link4))) [bs "ab"]).
Proof.
  exact (kcp_exactly_once_in_order default_config default_config some_worker some_receiver link4
    some_worker_new some_receiver_new link4_reachable).
Defined.

Lemma kcp_keeps_until_received_witness :
  0 ∈ KcpSendingFacts.numbers (cache (window (sender link3))) \/ received (receiver link3) 0.
Proof.
  refine (kcp_keeps_until_received default_config default_config some_worker some_receiver link3 0
    some_worker_new some_receiver_new link3_reachable _).
  vm_compute. split; [discriminate|reflexivity].
Defined.

Lemma kcp_can_always_finish_witness : exists s', rtc link_step link1 s' /\ pushed s' = [bs "ab"] /\ delivered s' = bs "ab".
Proof.
  exact (kcp_can_always_finish default_config default_config some_worker some_receiver link1
    some_worker_new some_receiver_new link1_reachable).
Defined.
