(* ===== verification/KcpConnection.v ===== *)
(** * The mKCP connection, [connection.go]

    The connection's operations as state transformers that also list, in
    order, what they do to the outside: segments handed to the writer,
    signals, wake-ups of the two updaters and the start of [Terminate].
    Every reading of the clock is an argument, since [SetState] reads it
    again after the operation that calls it has.  The connection has no lock:
    each function here is its operation when nothing else runs meanwhile;
    KcpTasks.v has the same operations as single turns that interleave. *)

From S2P Require Import Prelude Segment SegmentFacts Buffer BufferFacts KcpRoundTrip KcpSending KcpSendingFacts KcpReceiving.

Local Open Scope Z_scope.

(** ** State *)

(** src/transport/internet/kcp/connection.go:36-43 State *)
Inductive State := StateActive | StateReadyToClose | StatePeerClosed | StateTerminating | StatePeerTerminating | StateTerminated.

#[export] Instance State_eq_dec : EqDecision State.
Proof. solve_decision. Defined.

(** src/transport/internet/kcp/connection.go State.Is *)
Definition Is (s : State) (states : list State) : bool := existsb (fun state => bool_decide (s = state)) states.

(** Times are milliseconds since the connection was made, as [Elapsed]
    returns them; [pingInterval] is the ping updater's, in milliseconds.
    src/transport/internet/kcp/connection.go Connection *)
Record Connection := {
  Conversation_ : Z; Config_ : Config; state : State; stateBeginTime : Z; lastIncomingTime : Z; lastPingTime : Z;
  mss : Z; roundTrip : RoundTripInfo; receivingWorker : ReceivingWorker; sendingWorker : SendingWorker; pingInterval : Z
}.

Inductive event :=
  | Written (seg : Segment)
  | SignalInput
  | SignalOutput
  | WakeData
  | WakePing
  | GoTerminate.

(** ** A state monad with a log *)

Definition M : Type := Connection -> Connection * list event.

Definition skip : M := fun c => (c, []).
Definition emit (es : list event) : M := fun c => (c, es).
Definition modify (f : Connection -> Connection) : M := fun c => (f c, []).
Definition seq_ (m1 m2 : M) : M := fun c => let '(c1, e1) := m1 c in let '(c2, e2) := m2 c1 in (c2, e1 ++ e2).
Definition when (p : Connection -> bool) (m : M) : M := fun c => if p c then m c else (c, []).
Definition branch (p : Connection -> bool) (m1 m2 : M) : M := fun c => if p c then m1 c else m2 c.

Declare Scope conn_scope.
Delimit Scope conn_scope with conn.
Notation "m1 ;; m2" := (seq_ m1 m2) (at level 100, m2 at level 200, right associativity) : conn_scope.
Local Open Scope conn_scope.

Definition set_state (st : State) (t : Z) (c : Connection) : Connection :=
  {| Conversation_ := Conversation_ c; Config_ := Config_ c; state := st; stateBeginTime := t;
     lastIncomingTime := lastIncomingTime c; lastPingTime := lastPingTime c; mss := mss c; roundTrip := roundTrip c;
     receivingWorker := receivingWorker c; sendingWorker := sendingWorker c; pingInterval := pingInterval c |}.
Definition set_incoming (t : Z) (c : Connection) : Connection :=
  {| Conversation_ := Conversation_ c; Config_ := Config_ c; state := state c; stateBeginTime := stateBeginTime c;
     lastIncomingTime := t; lastPingTime := lastPingTime c; mss := mss c; roundTrip := roundTrip c;
     receivingWorker := receivingWorker c; sendingWorker := sendingWorker c; pingInterval := pingInterval c |}.
Definition set_ping (t : Z) (c : Connection) : Connection :=
  {| Conversation_ := Conversation_ c; Config_ := Config_ c; state := state c; stateBeginTime := stateBeginTime c;
     lastIncomingTime := lastIncomingTime c; lastPingTime := t; mss := mss c; roundTrip := roundTrip c;
     receivingWorker := receivingWorker c; sendingWorker := sendingWorker c; pingInterval := pingInterval c |}.
Definition set_interval (i : Z) (c : Connection) : Connection :=
  {| Conversation_ := Conversation_ c; Config_ := Config_ c; state := state c; stateBeginTime := stateBeginTime c;
     lastIncomingTime := lastIncomingTime c; lastPingTime := lastPingTime c; mss := mss c; roundTrip := roundTrip c;
     receivingWorker := receivingWorker c; sendingWorker := sendingWorker c; pingInterval := i |}.
Definition set_workers (rt : RoundTripInfo) (r : ReceivingWorker) (w : SendingWorker) (c : Connection) : Connection :=
  {| Conversation_ := Conversation_ c; Config_ := Config_ c; state := state c; stateBeginTime := stateBeginTime c;
     lastIncomingTime := lastIncomingTime c; lastPingTime := lastPingTime c; mss := mss c; roundTrip := rt;
     receivingWorker := r; sendingWorker := w; pingInterval := pingInterval c |}.

Definition on_sender (f : SendingWorker -> SendingWorker) (c : Connection) : Connection :=
  set_workers (roundTrip c) (receivingWorker c) (f (sendingWorker c)) c.
Definition on_receiver (f : ReceivingWorker -> ReceivingWorker) (c : Connection) : Connection :=
  set_workers (roundTrip c) (f (receivingWorker c)) (sendingWorker c) c.

Definition in_state (st : State) (c : Connection) : bool := bool_decide (state c = st).
Definition closing (c : Connection) : bool := in_state StateReadyToClose c.

(** A connection is only made when the configuration does not panic, so the
    default is never used. *)
Definition in_flight (c : Connection) : Z := default 0 (GetSendingInFlightSize (Config_ c)).

(** ** Operations *)

(** The writer's overhead is subtracted from the MTU in 32 bits.
    src/transport/internet/kcp/connection.go NewConnection *)
Definition NewConnection (conv : Z) (overhead : Z) (config : Config) : option (Connection * list event) :=
  r ← NewReceivingWorker config;
  w ← NewSendingWorker config;
  Some ({| Conversation_ := conv; Config_ := config; state := StateActive; stateBeginTime := 0; lastIncomingTime := 0;
           lastPingTime := 0; mss := u32 (GetMTUValue config - overhead - DataSegmentOverhead);
           roundTrip := {| variation := 0; srtt := 0; rto := 100; minRtt := GetTTIValue config; updatedTimestamp := 0 |};
           receivingWorker := r; sendingWorker := w; pingInterval := 5000 |}, [WakePing]).

(** src/transport/internet/kcp/connection.go Connection.SetState *)
Definition SetState (elapsed : Z) (st : State) : M :=
  modify (set_state st elapsed);;
  match st with
  | StateReadyToClose => modify (on_receiver CloseRead)
  | StatePeerClosed => modify (on_sender CloseWrite)
  | StateTerminating =>
      modify (on_receiver CloseRead);; modify (on_sender CloseWrite);; modify (set_interval 1000)
  | StatePeerTerminating => modify (on_sender CloseWrite);; modify (set_interval 1000)
  | StateTerminated =>
      modify (on_receiver CloseRead);; modify (on_sender CloseWrite);; modify (set_interval 1000);;
      emit [WakeData; WakePing; GoTerminate]
  | StateActive => skip
  end.

(** The result is true for [ErrClosedConnection].
    src/transport/internet/kcp/connection.go Connection.Close *)
Definition Close (elapsed : Z) (c : Connection) : Connection * list event * bool :=
  let signals := [SignalInput; SignalOutput] in
  match state c with
  | StateReadyToClose | StateTerminating | StateTerminated => (c, signals, true)
  | StateActive => let '(c, es) := SetState elapsed StateReadyToClose c in (c, signals ++ es, false)
  | StatePeerClosed => let '(c, es) := SetState elapsed StateTerminating c in (c, signals ++ es, false)
  | StatePeerTerminating => let '(c, es) := SetState elapsed StateTerminated c in (c, signals ++ es, false)
  end.

(** src/transport/internet/kcp/connection.go Connection.Terminate *)
Definition Terminate : M :=
  emit [SignalInput; SignalOutput];;
  modify (on_sender Release);; modify (on_receiver r_Release).

(** src/transport/internet/kcp/connection.go Connection.OnPeerClosed *)
Definition OnPeerClosed (elapsed : Z) : M := fun c =>
  match state c with
  | StateReadyToClose => SetState elapsed StateTerminating c
  | StateActive => SetState elapsed StatePeerClosed c
  | _ => skip c
  end.

(** src/transport/internet/kcp/connection.go Connection.HandleOption *)
Definition HandleOption (elapsed opt : Z) : M :=
  if Z.land opt SegmentOptionClose =? SegmentOptionClose then OnPeerClosed elapsed else skip.

(** src/transport/internet/kcp/connection.go:586-593 Connection.Input *)
Definition on_terminate (elapsed : Z) : M := fun c =>
  match state c with
  | StateActive | StatePeerClosed => SetState elapsed StatePeerTerminating c
  | StateReadyToClose => SetState elapsed StateTerminating c
  | StateTerminating => SetState elapsed StateTerminated c
  | _ => skip c
  end.

(** One segment of Input; [e1], [e2] are the clock readings of its state changes.
    src/transport/internet/kcp/connection.go:570-604 Connection.Input *)
Definition input_segment (current e1 e2 : Z) (seg : Segment) : M :=
  match seg with
  | SegData seg =>
      HandleOption e1 (d_Option seg);;
      modify (on_receiver (r_ProcessSegment seg));;
      when (fun c => IsDataAvailable (receivingWorker c)) (emit [SignalInput]);;
      emit [WakeData]
  | SegAck seg =>
      HandleOption e1 (a_Option seg);;
      modify (fun c => let '(w, rt) := ProcessSegment current seg (Timeout (roundTrip c)) (roundTrip c) (sendingWorker c) in
                       set_workers rt (receivingWorker c) w c);;
      emit [SignalOutput; WakeData]
  | SegCmd seg =>
      HandleOption e1 (c_Option seg);;
      (if c_Cmd seg =? CommandTerminate then on_terminate e2 else skip);;
      (if (c_Option seg =? SegmentOptionClose) || (c_Cmd seg =? CommandTerminate) then emit [SignalInput; SignalOutput] else skip);;
      modify (on_sender (ProcessReceivingNext (c_ReceivingNext seg)));;
      modify (on_receiver (ProcessSendingNext (c_SendingNext seg)));;
      modify (fun c => set_workers (UpdatePeerRTO (c_PeerRTO seg) current (roundTrip c)) (receivingWorker c) (sendingWorker c) c)
  end.

(** The loop of Input: a segment of another conversation ends it.
    src/transport/internet/kcp/connection.go:565-605 Connection.Input *)
Fixpoint input_loop (current : Z) (clock : nat -> Z * Z) (i : nat) (segments : list Segment) : M :=
  match segments with
  | [] => skip
  | seg :: rest =>
      branch (fun c => bool_decide (Conversation seg ≠ Conversation_ c)) skip
        (input_segment current (clock i).1 (clock i).2 seg;; input_loop current clock (S i) rest)
  end.

(** As it runs with nothing beside it; its turns are [input_task] of KcpTasks.v.
    src/transport/internet/kcp/connection.go Connection.Input *)
Definition Input (current : Z) (clock : nat -> Z * Z) (segments : list Segment) : M :=
  modify (set_incoming current);; input_loop current clock 0 segments.

(** src/transport/internet/kcp/connection.go Connection.Ping *)
Definition Ping (current cmd : Z) : M := fun c =>
  (set_ping current c,
   [Written (SegCmd {| c_Conv := Conversation_ c; c_Cmd := cmd; c_Option := if closing c then SegmentOptionClose else 0;
      c_SendingNext := FirstUnacknowledged (sendingWorker c); c_ReceivingNext := NextNumber (receivingWorker c);
      c_PeerRTO := Timeout (roundTrip c) |})]).

Definition flush_receiver (current : Z) : M := fun c =>
  let '(r, out) := r_Flush (Conversation_ c) (closing c) (Timeout (roundTrip c)) current (receivingWorker c) in
  (on_receiver (fun _ => r) c, (fun a => Written (SegAck a)) <$> out).

Definition flush_sender (current : Z) : M := fun c =>
  let '(w, out, ping) := KcpSending.Flush (Conversation_ c) (closing c) (Congestion (Config_ c)) (in_flight c)
      (Timeout (roundTrip c)) current (sendingWorker c) in
  ((fun c => (on_sender (fun _ => w) c, (fun d => Written (SegData d)) <$> out));;
   (if ping : bool then Ping current CommandPing else skip)) c.

(** The age of the state, in the 32-bit arithmetic of the code. *)
Definition age (current : Z) (c : Connection) : Z := sub32 current (stateBeginTime c).

Definition close_ (elapsed : Z) : M := fun c => let '(c, es, _) := Close elapsed c in (c, es).

(** What follows when the state is not StateTerminating.
    src/transport/internet/kcp/connection.go:630-644 Connection.flush *)
Definition flush_rest (current : Z) (clock : nat -> Z) : M :=
  when (fun c => in_state StatePeerTerminating c && (4000 <? age current c)) (SetState (clock 3%nat) StateTerminating);;
  when (fun c => in_state StateReadyToClose c && (15000 <? age current c)) (SetState (clock 4%nat) StateTerminating);;
  flush_receiver current;;
  flush_sender current;;
  when (fun c => 3000 <=? sub32 current (lastPingTime c)) (Ping current CommandPing).

(** As it runs with nothing beside it; its turns are [flush_task] of
    KcpTasks.v.  [clock i] is what the [i]-th of the five [SetState] calls
    would read.
    src/transport/internet/kcp/connection.go Connection.flush *)
Definition flush (current : Z) (clock : nat -> Z) : M :=
  branch (in_state StateTerminated) skip
    (when (fun c => in_state StateActive c && (30000 <=? sub32 current (lastIncomingTime c))) (close_ (clock 0%nat));;
     when (fun c => in_state StateReadyToClose c && IsEmpty (sendingWorker c)) (SetState (clock 1%nat) StateTerminating);;
     branch (in_state StateTerminating)
       (Ping current CommandTerminate;;
        when (fun c => 8000 <? age current c) (SetState (clock 2%nat) StateTerminated))
       (flush_rest current clock)).

(** ** Reading and writing, up to the point where they wait *)

Inductive read_result (A : Type) := Data_ (a : A) | EndOfFile | WaitInput.
Arguments Data_ {A} a. Arguments EndOfFile {A}. Arguments WaitInput {A}.

(** One turn of the loop.
    src/transport/internet/kcp/connection.go Connection.ReadMultiBuffer *)
Definition conn_ReadMultiBuffer (c : Connection) : Connection * list event * read_result MultiBuffer :=
  if Is (state c) [StateReadyToClose; StateTerminating; StateTerminated] then (c, [], EndOfFile)
  else
    let '(r, mb) := r_ReadMultiBuffer (receivingWorker c) in
    let c := on_receiver (fun _ => r) c in
    if negb (MultiBuffer_IsEmpty mb) then (c, [WakeData], Data_ mb)
    else if in_state StatePeerTerminating c then (c, [], EndOfFile)
    else (c, [], WaitInput).

(** One turn of the loop, for a slice of [n] bytes.
    src/transport/internet/kcp/connection.go Connection.Read *)
Definition conn_Read (n : nat) (c : Connection) : outcome unit (Connection * list event * read_result bytes) :=
  if Is (state c) [StateReadyToClose; StateTerminating; StateTerminated] then Ok (c, [], EndOfFile)
  else
    '(r, data) ← r_Read n (receivingWorker c);
    let c := on_receiver (fun _ => r) c in
    Ok (if (0 <? length data)%nat then (c, [WakeData], Data_ data) else (c, [], WaitInput)).

(** [Accepted]: the reader is at its end; [WaitOutput]: the buffer that was
    refused and the bytes not read yet. *)
Inductive write_result := Accepted | ClosedPipe | WaitOutput (b rest : bytes).

(** A read through [io.LimitReader] into a fresh buffer; empty is its
    end-of-file. *)
Definition chunk (mss : Z) (data : bytes) : bytes := take (Nat.min (Z.to_nat mss) (Z.to_nat Size)) data.

(** The inner loop; every turn takes at least a byte, so the number of bytes
    plus two is enough fuel.
    src/transport/internet/kcp/connection.go Connection.writeMultiBufferInternal *)
Fixpoint write_loop (fuel : nat) (b : option bytes) (data : bytes) (c : Connection) : Connection * write_result :=
  match fuel with
  | O => (c, ClosedPipe)
  | S fuel' =>
      if negb (in_state StateActive c) then (c, ClosedPipe)
      else
        match b with
        | None =>
            let piece := chunk (mss c) data in
            match piece with
            | [] => (c, Accepted)
            | _ => match Push piece (sendingWorker c) with
                   | None => (c, WaitOutput piece (drop (length piece) data))
                   | Some w => write_loop fuel' None (drop (length piece) data) (on_sender (fun _ => w) c)
                   end
            end
        | Some piece =>
            match Push piece (sendingWorker c) with
            | None => (c, WaitOutput piece data)
            | Some w => write_loop fuel' None data (on_sender (fun _ => w) c)
            end
        end
  end.

(** src/transport/internet/kcp/connection.go Connection.Write *)
Definition conn_Write (data : bytes) (c : Connection) : Connection * write_result :=
  write_loop (length data + 2) None data c.

(** The turn after waiting for output, with the buffer refused before. *)
Definition conn_WriteAgain (b rest : bytes) (c : Connection) : Connection * write_result :=
  write_loop (length rest + 2) (Some b) rest c.
