(* ===== verification/KcpConnectionFacts.v ===== *)
(** * Facts about the mKCP connection

    The state graph, along which every operation that runs by itself moves
    the connection (KcpTasks.v has those that run at once); the deadlines of
    a closing connection; the cutting of written bytes into segments. *)

From S2P Require Import Prelude Segment SegmentFacts Buffer BufferFacts KcpRoundTrip KcpSending KcpSendingFacts KcpReceiving KcpConnection.

Local Open Scope Z_scope.

(** ** The state graph *)

Inductive transition : State -> State -> Prop :=
  | active_closed : transition StateActive StateReadyToClose
  | active_peer_closed : transition StateActive StatePeerClosed
  | active_peer_terminating : transition StateActive StatePeerTerminating
  | peer_closed_peer_terminating : transition StatePeerClosed StatePeerTerminating
  | peer_closed_closed : transition StatePeerClosed StateTerminating
  | ready_terminating : transition StateReadyToClose StateTerminating
  | peer_terminating_late : transition StatePeerTerminating StateTerminating
  | peer_terminating_closed : transition StatePeerTerminating StateTerminated
  | terminating_terminated : transition StateTerminating StateTerminated.

(** How far a state is from the end. *)
Definition remaining (s : State) : nat :=
  match s with
  | StateActive => 4 | StateReadyToClose => 2 | StatePeerClosed => 3
  | StatePeerTerminating => 2 | StateTerminating => 1 | StateTerminated => 0
  end.

Lemma transition_remaining s s' : transition s s' -> (remaining s' < remaining s)%nat.
Proof. destruct 1; simpl; lia. Qed.

Lemma rtc_remaining s s' : rtc transition s s' -> (remaining s' <= remaining s)%nat.
Proof. induction 1 as [|s s1 s' Ht _ IH]; [done|]. apply transition_remaining in Ht. lia. Qed.

Lemma rtc_remaining_eq s s' : rtc transition s s' -> remaining s' = remaining s -> s' = s.
Proof. destruct 1 as [|s s1 s' Ht Hs]; [done|]. apply transition_remaining in Ht. apply rtc_remaining in Hs. lia. Qed.

(** The state moves along the graph, and its beginning is only reset when
    it does. *)
Definition evolves (c c' : Connection) : Prop :=
  rtc transition (state c) (state c') /\ (state c' = state c -> stateBeginTime c' = stateBeginTime c).

#[export] Instance evolves_trans : Transitive evolves.
Proof.
  intros c1 c2 c3 [H1 B1] [H2 B2]. split; [by etrans|]. intros Heq.
  assert (state c2 = state c1) as H12.
  { apply rtc_remaining_eq; [done|]. apply rtc_remaining in H1, H2. rewrite Heq in H2. lia. }
  rewrite B2, B1 by congruence. done.
Qed.
#[export] Instance evolves_refl : Reflexive evolves.
Proof. by intros c. Qed.

Lemma evolves_same c c' : state c' = state c -> stateBeginTime c' = stateBeginTime c -> evolves c c'.
Proof. intros Hs Hb. split; [by rewrite Hs|done]. Qed.

(** What [SetState] leaves: the state, and the time it read. *)
Lemma SetState_state e st c : state (SetState e st c).1 = st /\ stateBeginTime (SetState e st c).1 = e.
Proof. by destruct st. Qed.

Lemma evolves_set e st c : transition (state c) st -> evolves c (SetState e st c).1.
Proof.
  intros Ht. destruct (SetState_state e st c) as [Hs _]. split; rewrite Hs; [by apply rtc_once|].
  intros Heq. apply transition_remaining in Ht. rewrite Heq in Ht. lia.
Qed.

Definition moves (m : M) : Prop := forall c, evolves c (m c).1.

#[local] Hint Constructors transition : core.
#[local] Hint Resolve evolves_set evolves_refl : core.

Lemma moves_seq m1 m2 : moves m1 -> moves m2 -> moves (seq_ m1 m2).
Proof.
  intros H1 H2 c. unfold seq_. specialize (H1 c). destruct (m1 c) as [c1 e1]. specialize (H2 c1). destruct (m2 c1) as [c2 e2].
  by etrans.
Qed.
Lemma moves_when p m : (forall c, p c = true -> evolves c (m c).1) -> moves (when p m).
Proof. intros Hm c. unfold when. destruct (p c) eqn:E; [by apply Hm|done]. Qed.
Lemma moves_branch p m1 m2 : (forall c, p c = true -> evolves c (m1 c).1) -> moves m2 -> moves (branch p m1 m2).
Proof. intros H1 H2 c. unfold branch. destruct (p c) eqn:E; auto. Qed.
Lemma moves_skip : moves skip.
Proof. by intros c. Qed.
Lemma moves_emit es : moves (emit es).
Proof. by intros c. Qed.
Lemma moves_modify f : (forall c, state (f c) = state c /\ stateBeginTime (f c) = stateBeginTime c) -> moves (modify f).
Proof. intros Hf c. by apply evolves_same; apply Hf. Qed.

#[local] Hint Resolve moves_seq moves_skip moves_emit moves_modify : core.

Lemma in_state_true st c : in_state st c = true <-> state c = st.
Proof. apply bool_decide_eq_true. Qed.

Lemma moves_when_set p e st : (forall c, p c = true -> transition (state c) st) -> moves (when p (SetState e st)).
Proof. intros Hp. apply moves_when. auto. Qed.

Lemma moves_OnPeerClosed e : moves (OnPeerClosed e).
Proof. intros c. unfold OnPeerClosed. destruct (state c) eqn:E; try done; apply evolves_set; rewrite E; auto. Qed.

Lemma moves_HandleOption e opt : moves (HandleOption e opt).
Proof. unfold HandleOption. destruct (_ =? _); [apply moves_OnPeerClosed|auto]. Qed.

Lemma moves_on_terminate e : moves (on_terminate e).
Proof. intros c. unfold on_terminate. destruct (state c) eqn:E; try done; apply evolves_set; rewrite E; auto. Qed.

Lemma moves_Ping current cmd : moves (Ping current cmd).
Proof. by intros c. Qed.

#[local] Hint Resolve moves_HandleOption moves_on_terminate moves_Ping : core.

Lemma moves_input_segment current e1 e2 seg : moves (input_segment current e1 e2 seg).
Proof.
  destruct seg; cbn [input_segment]; repeat apply moves_seq; auto.
  - by apply moves_when.
  - apply moves_modify. intros c. by destruct (ProcessSegment _ _ _ _ _).
  - destruct (_ =? _); auto.
  - destruct (_ || _); auto.
Qed.

Lemma moves_Input current clock segs : moves (Input current clock segs).
Proof.
  apply moves_seq; [auto|]. generalize 0%nat. induction segs as [|seg segs IH]; intros i; cbn [input_loop]; [auto|].
  apply moves_branch; [auto|]. apply moves_seq; [apply moves_input_segment|apply IH].
Qed.

Lemma moves_Close e c : evolves c (Close e c).1.1.
Proof.
  unfold Close. destruct (state c) eqn:E; try done;
    (match goal with |- context [SetState e ?st c] =>
       pose proof (evolves_set e st c) as Hs; destruct (SetState e st c); cbn [fst] in * end); apply Hs; rewrite E; auto.
Qed.

Lemma moves_flush_sender current : moves (flush_sender current).
Proof.
  intros c. unfold flush_sender. destruct (KcpSending.Flush _ _ _ _ _ _ _) as [[w out] ping]. unfold seq_. by destruct ping.
Qed.

Lemma moves_flush_receiver current : moves (flush_receiver current).
Proof. intros c. unfold flush_receiver. by destruct (r_Flush _ _ _ _ _). Qed.

Lemma moves_flush_rest current clock : moves (flush_rest current clock).
Proof.
  unfold flush_rest. repeat apply moves_seq; try apply moves_flush_sender; try apply moves_flush_receiver.
  - apply moves_when_set. intros c [->%in_state_true _]%andb_true_iff. constructor.
  - apply moves_when_set. intros c [->%in_state_true _]%andb_true_iff. constructor.
  - apply moves_when. intros. apply moves_Ping.
Qed.

(** The branch of flush for StateTerminating. *)
Definition flush_terminating (current : Z) (clock : nat -> Z) : M :=
  seq_ (Ping current CommandTerminate) (when (fun c => 8000 <? age current c) (SetState (clock 2%nat) StateTerminated)).

Lemma moves_flush_terminating current clock c : state c = StateTerminating -> evolves c (flush_terminating current clock c).1.
Proof.
  intros Hst. unfold flush_terminating, seq_, when. cbn [Ping]. destruct (8000 <? age current (set_ping current c)); cbn [fst]; [|done].
  pose proof (evolves_set (clock 2%nat) StateTerminated (set_ping current c)) as Hs.
  destruct (SetState _ _ _). cbn [fst] in *. trans (set_ping current c); [done|]. apply Hs. cbn. rewrite Hst. auto.
Qed.

Lemma moves_flush current clock : moves (flush current clock).
Proof.
  unfold flush. apply moves_branch; [auto|]. repeat apply moves_seq.
  - apply moves_when. intros c _. unfold close_. pose proof (moves_Close (clock 0%nat) c). by destruct (Close _ c) as [[c' es] b].
  - apply moves_when_set. intros c [->%in_state_true _]%andb_true_iff. constructor.
  - apply moves_branch; [|apply moves_flush_rest]. intros c ?%in_state_true. by apply moves_flush_terminating.
Qed.

Lemma write_loop_state fuel b data c : state (write_loop fuel b data c).1 = state c /\
  stateBeginTime (write_loop fuel b data c).1 = stateBeginTime c.
Proof.
  revert b data c. induction fuel as [|fuel IH]; intros b data c; cbn [write_loop]; [done|].
  destruct (negb _); [done|]. destruct b as [piece|].
  - destruct (Push piece (sendingWorker c)); [by destruct (IH None data (on_sender (fun _ => s) c))|done].
  - destruct (chunk (mss c) data) as [|x piece]; [done|]. destruct (Push (x :: piece) (sendingWorker c)); [|done].
    by destruct (IH None (drop (length (x :: piece)) data) (on_sender (fun _ => s) c)).
Qed.

(** ** One operation of the connection *)

(** Everything a peer, the application or the updaters may do to it, each
    as a whole; their single turns are in KcpTasks.v. *)
Inductive op : Connection -> Connection -> Prop :=
  | op_Input current clock segs c : op c (Input current clock segs c).1
  | op_flush current clock c : op c (flush current clock c).1
  | op_Close e c : op c (Close e c).1.1
  | op_Terminate c : op c (Terminate c).1
  | op_ReadMultiBuffer c : op c (conn_ReadMultiBuffer c).1.1
  | op_Read n c c' es r : conn_Read n c = Ok (c', es, r) -> op c c'
  | op_Write data c : op c (conn_Write data c).1
  | op_WriteAgain b rest c : op c (conn_WriteAgain b rest c).1.

Lemma op_evolves c c' : op c c' -> evolves c c'.
Proof.
  destruct 1 as [current clock segs c|current clock c|e c|c|c|n c c' es r Hr|data c|b rest c].
  - apply moves_Input.
  - apply moves_flush.
  - apply moves_Close.
  - done.
  - unfold conn_ReadMultiBuffer. destruct (Is _ _); [done|]. destruct (r_ReadMultiBuffer _). destruct (negb _); [done|]. by destruct (in_state _ _).
  - unfold conn_Read in Hr. destruct (Is _ _); [by injection Hr as <- _ _|]. destruct (r_Read n _) as [[r' data]| |]; try done.
    cbn [mbind outcome_bind] in Hr. apply (inj Ok) in Hr. destruct (0 <? length data)%nat; by injection Hr as <- _ _.
  - by apply evolves_same; apply write_loop_state.
  - by apply evolves_same; apply write_loop_state.
Qed.

Lemma ops_evolve c c' : rtc op c c' -> evolves c c'.
Proof. induction 1 as [|c1 c2 c3 H _ IH]; [done|]. apply op_evolves in H. by etrans. Qed.

(** ** Deadlines *)

(** The end of flush: both workers and the periodic ping. *)
Definition flush_tail (current : Z) : M :=
  seq_ (flush_receiver current) (seq_ (flush_sender current)
    (when (fun c => 3000 <=? sub32 current (lastPingTime c)) (Ping current CommandPing))).

Lemma flush_tail_same current c :
  state (flush_tail current c).1 = state c /\ stateBeginTime (flush_tail current c).1 = stateBeginTime c.
Proof.
  unfold flush_tail, seq_, flush_receiver, flush_sender. destruct (r_Flush _ _ _ _ _) as [r out]. cbn.
  destruct (KcpSending.Flush _ _ _ _ _ _ _) as [[w outs] ping]. unfold seq_, when.
  destruct ping; cbn; by destruct (3000 <=? _).
Qed.

Lemma seq_fst m1 m2 c : (seq_ m1 m2 c).1 = (m2 (m1 c).1).1.
Proof. unfold seq_. destruct (m1 c) as [c1 e1]. cbn. by destruct (m2 c1). Qed.
Lemma when_true p m c : p c = true -> when p m c = m c.
Proof. unfold when. by intros ->. Qed.
Lemma when_false p m c : p c = false -> when p m c = (c, []).
Proof. unfold when. by intros ->. Qed.
Lemma branch_true p m1 m2 c : p c = true -> branch p m1 m2 c = m1 c.
Proof. unfold branch. by intros ->. Qed.
Lemma branch_false p m1 m2 c : p c = false -> branch p m1 m2 c = m2 c.
Proof. unfold branch. by intros ->. Qed.
Lemma in_state_false st c : state c ≠ st -> in_state st c = false.
Proof. intros. by apply bool_decide_eq_false. Qed.

(** The start of flush does nothing unless its conditions hold. *)
Lemma flush_unfold current clock c : state c ≠ StateTerminated -> state c ≠ StateActive ->
  (state c = StateReadyToClose -> IsEmpty (sendingWorker c) = false) ->
  (flush current clock c).1 = (if in_state StateTerminating c then flush_terminating current clock c else flush_rest current clock c).1.
Proof.
  intros H1 H2 H3. unfold flush, branch at 1, seq_ at 1 2, when at 1 2.
  destruct (in_state StateTerminated c) eqn:E1; [by apply in_state_true in E1|].
  destruct (in_state StateActive c) eqn:E2; [by apply in_state_true in E2|]. cbn [andb].
  destruct (in_state StateReadyToClose c) eqn:E3; cbn [andb]; [apply in_state_true in E3; rewrite H3 by done|];
    unfold branch; fold (flush_terminating current clock); destruct (in_state StateTerminating c);
    (match goal with |- context [let '(_, _) := ?m c in _] => by destruct (m c) end).
Qed.

Lemma flush_Terminating current clock c : state c = StateTerminating ->
  state (flush current clock c).1 = (if 8000 <? age current c then StateTerminated else StateTerminating) /\
  (state (flush current clock c).1 = StateTerminating -> stateBeginTime (flush current clock c).1 = stateBeginTime c).
Proof.
  intros Hst. rewrite flush_unfold by congruence. rewrite (proj2 (in_state_true _ _) Hst).
  unfold flush_terminating, seq_, when. cbn [Ping]. change (age current (set_ping current c)) with (age current c).
  destruct (8000 <? age current c); cbn [fst]; [|done].
  destruct (SetState_state (clock 2%nat) StateTerminated (set_ping current c)) as [Hs _].
  destruct (SetState _ _ _). cbn [fst] in *. by rewrite Hs.
Qed.

(** The two deadlines that lead to StateTerminating. *)
Definition overdue (current : Z) (c : Connection) : Prop :=
  (state c = StateReadyToClose /\ 15000 < age current c) \/ (state c = StatePeerTerminating /\ 4000 < age current c).

Lemma flush_rest_overdue current clock c : overdue current c ->
  exists i, (i = 3%nat \/ i = 4%nat) /\
    (flush_rest current clock c).1 = (flush_tail current (SetState (clock i) StateTerminating c).1).1.
Proof.
  intros Ho. unfold flush_rest. fold (flush_tail current). rewrite !seq_fst. destruct Ho as [[Hst Ha]|[Hst Ha]].
  - exists 4%nat. split; [by right|]. rewrite (when_false _ _ c) by (rewrite in_state_false; [done|congruence]). cbn [fst].
    rewrite when_true; [done|]. rewrite (proj2 (in_state_true _ _) Hst). by apply Z.ltb_lt.
  - exists 3%nat. split; [by left|]. rewrite (when_true _ _ c) by (rewrite (proj2 (in_state_true _ _) Hst); by apply Z.ltb_lt).
    destruct (SetState_state (clock 3%nat) StateTerminating c) as [Hs _].
    rewrite when_false; [done|]. by rewrite in_state_false by congruence.
Qed.

(** With nothing left to send, flush closes at once. *)
Lemma flush_ready_empty current clock c : state c = StateReadyToClose -> IsEmpty (sendingWorker c) = true ->
  (flush current clock c).1 = (flush_terminating current clock (SetState (clock 1%nat) StateTerminating c).1).1.
Proof.
  intros Hst He. unfold flush. rewrite branch_false by (apply in_state_false; congruence). rewrite !seq_fst.
  rewrite (when_false _ _ c) by (rewrite in_state_false; [done|congruence]). cbn [fst].
  rewrite when_true by (by rewrite (proj2 (in_state_true _ _) Hst), He).
  destruct (SetState_state (clock 1%nat) StateTerminating c) as [Hs _].
  by rewrite branch_true by (by apply in_state_true).
Qed.

Lemma flush_overdue current clock c : overdue current c ->
  let c' := (flush current clock c).1 in
  state c' = StateTerminated \/
  (state c' = StateTerminating /\ exists i, (i = 1%nat \/ i = 3%nat \/ i = 4%nat) /\ stateBeginTime c' = clock i).
Proof.
  intros Ho. destruct (decide (state c = StateReadyToClose /\ IsEmpty (sendingWorker c) = true)) as [[Hst He]|Hn].
  - cbv zeta. rewrite flush_ready_empty by done. unfold flush_terminating, seq_, when. cbn [Ping].
    destruct (SetState_state (clock 1%nat) StateTerminating c) as [Hs Hb].
    destruct (8000 <? _); cbn [fst].
    + left. destruct (SetState_state (clock 2%nat) StateTerminated (set_ping current (SetState (clock 1%nat) StateTerminating c).1)) as [Hs2 _].
      destruct (SetState _ StateTerminated _). exact Hs2.
    + right. split; [exact Hs|]. exists 1%nat. split; [by left|exact Hb].
  - right. rewrite flush_unfold; [|destruct Ho as [[? _]|[? _]]; congruence..|].
    + assert (in_state StateTerminating c = false) as -> by (apply bool_decide_eq_false; destruct Ho as [[? _]|[? _]]; congruence).
      destruct (flush_rest_overdue current clock c Ho) as (i & Hi & ->). destruct (flush_tail_same current (SetState (clock i) StateTerminating c).1) as [-> ->].
      destruct (SetState_state (clock i) StateTerminating c) as [-> ->]. split; [done|]. exists i. split; [tauto|done].
    + intros Hst. destruct (IsEmpty (sendingWorker c)) eqn:E; [tauto|done].
Qed.

(** ** Writing *)

Definition payloads (c : list DataSegment) : list bytes := Data <$> c.

Lemma payloads_keys c : payloads c = (fun k => default [] k.2) <$> keys c.
Proof. unfold payloads, keys. rewrite <-list_fmap_compose. done. Qed.

Lemma Push_payloads b w w' : Push b w = Some w' ->
  payloads (cache (window w')) = payloads (cache (window w)) ++ [b].
Proof.
  unfold Push. destruct (closed w); [done|]. destruct (_ <? _); [done|]. intros [= <-]. cbn. unfold payloads. by rewrite fmap_app.
Qed.

Lemma chunk_cases m data : chunk m data = [] /\ (data = [] \/ m <= 0) \/
  chunk m data ≠ [] /\ chunk m data ++ drop (length (chunk m data)) data = data /\
  Z.of_nat (length (chunk m data)) <= Z.max 0 m /\ (length (drop (length (chunk m data)) data) < length data)%nat.
Proof.
  unfold chunk. set (k := Nat.min (Z.to_nat m) (Z.to_nat Size)).
  assert (0 < Z.to_nat Size)%nat by (unfold Size; lia).
  destruct (decide (take k data = [])) as [Hn|Hn].
  - left. split; [done|]. destruct data as [|x data]; [by left|right]. destruct k eqn:E; [lia|done].
  - right. split; [done|]. rewrite length_take, length_drop.
    assert (0 < k /\ 0 < length data)%nat as [? ?] by (destruct k, data; simpl in *; [done..|lia]).
    split; [|lia]. destruct (Nat.le_gt_cases k (length data)); [by rewrite Nat.min_l, take_drop by lia|].
    rewrite Nat.min_r, take_ge, drop_ge, app_nil_r by lia. done.
Qed.

Definition write_spec (b data : bytes) (c c' : Connection) (r : write_result) : Prop :=
  exists pieces, payloads (cache (window (sendingWorker c'))) = payloads (cache (window (sendingWorker c))) ++ pieces /\
    match r with
    | Accepted => concat pieces = b ++ data
    | WaitOutput b' rest => concat pieces ++ b' ++ rest = b ++ data /\ b' ≠ []
    | ClosedPipe => False
    end.

Lemma write_loop_spec fuel data c : (length data < fuel)%nat -> state c = StateActive -> 0 < mss c ->
  let '(c', r) := write_loop fuel None data c in write_spec [] data c c' r.
Proof.
  revert data c. induction fuel as [|fuel IH]; intros data c Hf Hst Hm; [lia|]. cbn [write_loop].
  rewrite (proj2 (in_state_true _ _) Hst). cbn [negb].
  destruct (chunk_cases (mss c) data) as [[Hc [Hd|?]]|(Hne & Heq & _ & Hlt)]; [|lia|].
  { rewrite Hc. exists []. by rewrite app_nil_r, Hd. }
  destruct (chunk (mss c) data) as [|x p] eqn:Hc; [done|]. set (piece := x :: p) in *. set (rest := drop (length piece) data) in *.
  destruct (Push piece (sendingWorker c)) as [w|] eqn:Hp.
  - specialize (IH rest (on_sender (fun _ => w) c) ltac:(lia) Hst Hm). destruct (write_loop fuel None rest _) as [c' r].
    destruct IH as (pieces & Hpl & Hr). exists (piece :: pieces). split.
    + rewrite Hpl. cbn [on_sender set_workers sendingWorker]. rewrite (Push_payloads _ _ _ Hp), <-(assoc_L (++)). done.
    + destruct r as [| |b' rest']; cbn [app concat] in *; [by rewrite Hr|done|]. destruct Hr as [Hr ?]. split; [|done].
      rewrite <-Heq, <-(assoc_L (++) piece), Hr. done.
  - exists []. rewrite app_nil_r. done.
Qed.

(** ** Properties *)

(** A connection that was closed locally or terminated by its peer does
    terminate: a flush past its deadline (15 s, or 4 s for the peer's
    termination), and a flush more than 8 s after that one, whatever whole
    operations run between the two, leave it in [StateTerminated]. *)
Theorem closing_terminates current1 clock1 current2 clock2 c c2 :
  overdue current1 c -> rtc op (flush current1 clock1 c).1 c2 ->
  (forall i, i = 1%nat \/ i = 3%nat \/ i = 4%nat -> 8000 < sub32 current2 (clock1 i)) ->
  state (flush current2 clock2 c2).1 = StateTerminated.
Proof.
  intros Ho Hops Hlate. pose proof (ops_evolve _ _ Hops) as [Hs Hb].
  pose proof (flush_overdue current1 clock1 c Ho) as Hf. cbv zeta in Hf.
  assert (state c2 = StateTerminated -> state (flush current2 clock2 c2).1 = StateTerminated) as Hend.
  { intros Hst. destruct (moves_flush current2 clock2 c2) as [Hm _]. pose proof (rtc_remaining _ _ Hm) as Hr.
    apply rtc_remaining_eq in Hm; [congruence|]. rewrite Hst in *. simpl in *. lia. }
  destruct Hf as [Hf|(Hf & i & Hi & Hbegin)]; rewrite Hf in *.
  - apply Hend. pose proof (rtc_remaining _ _ Hs) as Hr. apply rtc_remaining_eq in Hs; [done|]. simpl in *. lia.
  - destruct (decide (state c2 = StateTerminating)) as [Hc2|Hne].
    + destruct (flush_Terminating current2 clock2 c2 Hc2) as [-> _]. unfold age. rewrite (Hb Hc2), Hbegin.
      by destruct (Z.ltb_spec 8000 (sub32 current2 (clock1 i))); [|specialize (Hlate i Hi); lia].
    + apply Hend. inversion Hs as [|? y ? Ht Hs']; subst; [congruence|]. inversion Ht; subst.
      pose proof (rtc_remaining _ _ Hs') as Hr. apply rtc_remaining_eq in Hs'; [done|]. simpl in *. lia.
Qed.

(** A closed connection with nothing left to send is terminated in the
    same flush that starts terminating it when the clock ticks in between:
    the age of the new state is computed with the time read first, wraps
    around, and passes for more than 8 s; one Terminate command was written
    instead of eight seconds of them. *)
Theorem clock_tick_skips_terminating current clock c :
  state c = StateReadyToClose -> IsEmpty (sendingWorker c) = true -> clock 1%nat = current + 1 -> 0 <= current < 2 ^ 32 - 1 ->
  state (flush current clock c).1 = StateTerminated.
Proof.
  intros Hst He Hclock Hc. rewrite flush_ready_empty by done. unfold flush_terminating. rewrite seq_fst.
  destruct (SetState_state (clock 1%nat) StateTerminating c) as [_ Hb].
  rewrite when_true; [apply SetState_state|]. unfold age, sub32. cbn [Ping fst]. unfold set_ping at 1. cbn [stateBeginTime].
  rewrite Hb, Hclock. apply Z.ltb_lt. unfold u32. solve_wrap.
Qed.

(** Writing to an active connection cuts the bytes into pieces and pushes
    them in order: when everything was accepted the pieces are the data, and
    when the window is full they are the data before the refused piece and
    the unread rest; nothing is lost, repeated or reordered. *)
Theorem write_cuts_losslessly data c : state c = StateActive -> 0 < mss c ->
  let '(c', r) := conn_Write data c in
  exists pieces, payloads (cache (window (sendingWorker c'))) = payloads (cache (window (sendingWorker c))) ++ pieces /\
    match r with
    | Accepted => concat pieces = data
    | WaitOutput b rest => concat pieces ++ b ++ rest = data /\ b ≠ []
    | ClosedPipe => False
    end.
Proof.
  intros Hst Hm. unfold conn_Write. pose proof (write_loop_spec (length data + 2) data c ltac:(lia) Hst Hm) as H.
  destruct (write_loop _ _ _ _) as [c' r]. exact H.
Qed.

Definition sample_connection : Connection :=
  default {| Conversation_ := 0; Config_ := default_config; state := StateActive; stateBeginTime := 0; lastIncomingTime := 0;
    lastPingTime := 0; mss := 0; roundTrip := rtt_initial 0; receivingWorker := {| leftOver := None; r_window := ∅;
      acklist := NewAckList; r_nextNumber := 0; r_windowSize := 0 |}; sendingWorker := some_worker; pingInterval := 0 |}
    (fst <$> NewConnection 7 0 default_config).

Definition closed_connection : Connection := (Close 100 sample_connection).1.1.

Lemma closing_terminates_witness :
  state (flush 30000 (fun _ => 30000) (flush 15101 (fun _ => 15101) closed_connection).1).1 = StateTerminated.
Proof.
  apply (closing_terminates 15101 (fun _ => 15101) 30000 (fun _ => 30000) closed_connection).
  - left. split; vm_compute; reflexivity.
  - apply rtc_refl.
  - intros i _. vm_compute. reflexivity.
Defined.

Lemma clock_tick_skips_terminating_witness :
  state (flush 200 (fun i => 201) closed_connection).1 = StateTerminated.
Proof.
  apply clock_tick_skips_terminating; [vm_compute; reflexivity..|]. split; [discriminate|reflexivity].
Defined.

Lemma write_cuts_losslessly_witness :
  let '(c', r) := conn_Write (bs "hello") sample_connection in exists pieces, r = Accepted /\ concat pieces = bs "hello".
Proof.
  pose proof (write_cuts_losslessly (bs "hello") sample_connection ltac:(vm_compute; reflexivity) ltac:(vm_compute; reflexivity)) as H.
  destruct (conn_Write (bs "hello") sample_connection) as [c' r] eqn:E.
  assert (r = Accepted) as -> by (apply (f_equal snd) in E; vm_compute in E; congruence).
  destruct H as (pieces & _ & H). exists pieces. split; [reflexivity|exact H].
Defined.
