(* ===== verification/KcpTasks.v ===== *)
(** * Operations of an mKCP connection that run at once, [connection.go]

    A [Connection] has no lock: its state and the time it began are two
    words that are loaded and stored one at a time, and [SetState] does not
    compare.  Each operation of KcpConnection.v is here the sequence of its
    indivisible turns (a load, a store, a call that holds a worker's lock),
    and several operations take turns in any order.  An operation that runs
    alone is the function of KcpConnection.v ([run_task_of]). *)

From S2P Require Import Prelude Segment SegmentFacts Buffer BufferFacts KcpRoundTrip KcpSending KcpSendingFacts KcpReceiving KcpConnection KcpConnectionFacts.

Local Open Scope Z_scope.
Local Open Scope conn_scope.

(** ** Tasks *)

(** What an operation has left to do.  [Act] is one turn that touches neither
    the state nor the time it began, and goes on with what it found; [Load]
    is [c.State()] where the code decides by it, [Store] and [Begin] the two
    atomic stores of [SetState]. *)
Inductive task :=
  | Done
  | Act (m : M) (k : Connection -> task)
  | Load (k : State -> task)
  | Store (st : State) (k : task)
  | Begin (elapsed : Z) (k : task).

Definition then_ (m : M) (k : task) : task := Act m (fun _ => k).
Definition find (k : Connection -> task) : task := Act skip k.
Definition choose (b : bool) (t : task -> task) (k : task) : task := if b then t k else k.

Definition put_state (st : State) (c : Connection) : Connection := set_state st (stateBeginTime c) c.
Definition put_begin (elapsed : Z) (c : Connection) : Connection := set_state (state c) elapsed c.

(** The effects that follow the stores.
    src/transport/internet/kcp/connection.go:435-455 Connection.SetState *)
Definition entering (st : State) (k : task) : task :=
  let close_read := then_ (modify (on_receiver CloseRead)) in
  let close_write := then_ (modify (on_sender CloseWrite)) in
  let slow_ping := then_ (modify (set_interval 1000)) in
  match st with
  | StateReadyToClose => close_read k
  | StatePeerClosed => close_write k
  | StateTerminating => close_read (close_write (slow_ping k))
  | StatePeerTerminating => close_write (slow_ping k)
  | StateTerminated =>
      close_read (close_write (slow_ping (then_ (emit [WakeData]) (then_ (emit [WakePing]) (then_ (emit [GoTerminate]) k)))))
  | StateActive => k
  end.

(** src/transport/internet/kcp/connection.go Connection.SetState *)
Definition setting (elapsed : Z) (st : State) (k : task) : task := Store st (Begin elapsed (entering st k)).

Definition signalling (k : task) : task := then_ (emit [SignalInput]) (then_ (emit [SignalOutput]) k).

(** src/transport/internet/kcp/connection.go Connection.Close *)
Definition closing_task (elapsed : Z) (k : task) : task :=
  signalling (Load (fun s =>
    match s with
    | StateReadyToClose | StateTerminating | StateTerminated => k
    | StateActive => setting elapsed StateReadyToClose k
    | StatePeerClosed => setting elapsed StateTerminating k
    | StatePeerTerminating => setting elapsed StateTerminated k
    end)).

(** Closing the packet connection and releasing the output is not modelled.
    src/transport/internet/kcp/connection.go Connection.Terminate *)
Definition terminating_task (k : task) : task :=
  signalling (then_ (modify (on_sender Release)) (then_ (modify (on_receiver r_Release)) k)).

(** src/transport/internet/kcp/connection.go Connection.OnPeerClosed *)
Definition peer_closed_task (elapsed : Z) (k : task) : task :=
  Load (fun s =>
    match s with
    | StateReadyToClose => setting elapsed StateTerminating k
    | StateActive => setting elapsed StatePeerClosed k
    | _ => k
    end).

(** src/transport/internet/kcp/connection.go Connection.HandleOption *)
Definition option_task (elapsed opt : Z) : task -> task :=
  choose (Z.land opt SegmentOptionClose =? SegmentOptionClose) (peer_closed_task elapsed).

(** src/transport/internet/kcp/connection.go:586-593 Connection.Input *)
Definition terminate_task (elapsed : Z) (k : task) : task :=
  Load (fun s =>
    match s with
    | StateActive | StatePeerClosed => setting elapsed StatePeerTerminating k
    | StateReadyToClose => setting elapsed StateTerminating k
    | StateTerminating => setting elapsed StateTerminated k
    | _ => k
    end).

(** src/transport/internet/kcp/connection.go:570-604 Connection.Input *)
Definition segment_task (current e1 e2 : Z) (seg : Segment) (k : task) : task :=
  match seg with
  | SegData seg =>
      option_task e1 (d_Option seg)
        (then_ (modify (on_receiver (r_ProcessSegment seg)))
          (find (fun c => choose (IsDataAvailable (receivingWorker c)) (then_ (emit [SignalInput])) (then_ (emit [WakeData]) k))))
  | SegAck seg =>
      option_task e1 (a_Option seg)
        (find (fun c0 =>
          then_ (modify (fun c => let '(w, rt) := ProcessSegment current seg (Timeout (roundTrip c0)) (roundTrip c) (sendingWorker c) in
                                  set_workers rt (receivingWorker c) w c))
            (then_ (emit [SignalOutput]) (then_ (emit [WakeData]) k))))
  | SegCmd seg =>
      option_task e1 (c_Option seg)
        (choose (c_Cmd seg =? CommandTerminate) (terminate_task e2)
          (choose ((c_Option seg =? SegmentOptionClose) || (c_Cmd seg =? CommandTerminate)) signalling
            (then_ (modify (on_sender (ProcessReceivingNext (c_ReceivingNext seg))))
              (then_ (modify (on_receiver (ProcessSendingNext (c_SendingNext seg))))
                (then_ (modify (fun c => set_workers (UpdatePeerRTO (c_PeerRTO seg) current (roundTrip c))
                                           (receivingWorker c) (sendingWorker c) c)) k)))))
  end.

(** src/transport/internet/kcp/connection.go:565-605 Connection.Input *)
Fixpoint segments_task (current : Z) (clock : nat -> Z * Z) (i : nat) (segments : list Segment) (k : task) : task :=
  match segments with
  | [] => k
  | seg :: rest =>
      find (fun c => if bool_decide (Conversation seg ≠ Conversation_ c) then k
                     else segment_task current (clock i).1 (clock i).2 seg (segments_task current clock (S i) rest k))
  end.

(** src/transport/internet/kcp/connection.go Connection.Input *)
Definition input_task (current : Z) (clock : nat -> Z * Z) (segments : list Segment) (k : task) : task :=
  then_ (modify (set_incoming current)) (segments_task current clock 0 segments k).

(** Four loads, then the segment goes out; this load of the state only
    chooses the segment's option.
    src/transport/internet/kcp/connection.go Connection.Ping *)
Definition ping_task (current cmd : Z) (k : task) : task :=
  find (fun c1 => find (fun c2 => find (fun c3 => find (fun c4 =>
    find (fun c =>
      Act (fun c => (c, [Written (SegCmd {| c_Conv := Conversation_ c; c_Cmd := cmd;
            c_Option := if closing c4 then SegmentOptionClose else 0; c_SendingNext := FirstUnacknowledged (sendingWorker c2);
            c_ReceivingNext := NextNumber (receivingWorker c1); c_PeerRTO := Timeout (roundTrip c3) |})]))
        (fun _ => then_ (modify (set_ping current)) k)))))).

(** The sender's flush holds its lock while it writes; the ping follows when
    it has let go.
    src/transport/internet/kcp/sending.go SendingWorker.Flush *)
Definition flush_sender_task (current : Z) (k : task) : task :=
  let flushed c := KcpSending.Flush (Conversation_ c) (closing c) (Congestion (Config_ c)) (in_flight c)
                     (Timeout (roundTrip c)) current (sendingWorker c) in
  Act (fun c => (on_sender (fun _ => (flushed c).1.1) c, (fun d => Written (SegData d)) <$> (flushed c).1.2))
    (fun c => choose (flushed c).2 (ping_task current CommandPing) k).

(** src/transport/internet/kcp/connection.go:630-644 Connection.flush *)
Definition flush_rest_task (current : Z) (clock : nat -> Z) (k : task) : task :=
  let older limit elapsed k := find (fun c => choose (limit <? age current c) (setting elapsed StateTerminating) k) in
  let tail := Act (flush_receiver current) (fun _ => flush_sender_task current
    (find (fun c => choose (3000 <=? sub32 current (lastPingTime c)) (ping_task current CommandPing) k))) in
  let second := Load (fun s => choose (bool_decide (s = StateReadyToClose)) (older 15000 (clock 4%nat)) tail) in
  Load (fun s => choose (bool_decide (s = StatePeerTerminating)) (older 4000 (clock 3%nat)) second).

(** src/transport/internet/kcp/connection.go Connection.flush *)
Definition flush_task (current : Z) (clock : nat -> Z) (k : task) : task :=
  let third := Load (fun s =>
    if bool_decide (s = StateTerminating) then
      ping_task current CommandTerminate
        (find (fun c => choose (8000 <? age current c) (setting (clock 2%nat) StateTerminated) k))
    else flush_rest_task current clock k) in
  let second := Load (fun s => choose (bool_decide (s = StateReadyToClose))
    (fun k => find (fun c => choose (IsEmpty (sendingWorker c)) (setting (clock 1%nat) StateTerminating) k)) third) in
  let first := Load (fun s => choose (bool_decide (s = StateActive))
    (fun k => find (fun c => choose (30000 <=? sub32 current (lastIncomingTime c)) (closing_task (clock 0%nat)) k)) second) in
  Load (fun s => if bool_decide (s = StateTerminated) then k else first).

(** One turn of the loop; what the reader gets is not part of a task, so the
    last load of the state only takes its turn.
    src/transport/internet/kcp/connection.go Connection.ReadMultiBuffer *)
Definition read_buffers_task (k : task) : task :=
  Load (fun s =>
    if Is s [StateReadyToClose; StateTerminating; StateTerminated] then k
    else Act (fun c => (on_receiver (fun _ => (r_ReadMultiBuffer (receivingWorker c)).1) c, []))
           (fun c => if negb (MultiBuffer_IsEmpty (r_ReadMultiBuffer (receivingWorker c)).2) then then_ (emit [WakeData]) k
                     else find (fun _ => k))).

(** src/transport/internet/kcp/connection.go Connection.Read *)
Definition read_task (n : nat) (k : task) : task :=
  Load (fun s =>
    if Is s [StateReadyToClose; StateTerminating; StateTerminated] then k
    else Act (fun c => match r_Read n (receivingWorker c) with Ok (r, _) => (on_receiver (fun _ => r) c, []) | _ => (c, []) end)
           (fun c => match r_Read n (receivingWorker c) with
                     | Ok (_, data) => choose (0 <? length data)%nat (then_ (emit [WakeData])) k
                     | _ => Done
                     end)).

(** Fuel as for [write_loop]: every turn takes a byte.
    src/transport/internet/kcp/connection.go:397-416 Connection.writeMultiBufferInternal *)
Fixpoint write_task (fuel : nat) (b : option bytes) (data : bytes) (k : task) : task :=
  match fuel with
  | O => k
  | S fuel' =>
      Load (fun s =>
        if negb (bool_decide (s = StateActive)) then k
        else
          find (fun c0 =>
            let piece := default (chunk (mss c0) data) b in
            let rest := match b with None => drop (length piece) data | Some _ => data end in
            match b, piece with
            | None, [] => k
            | _, _ => Act (fun c => (match Push piece (sendingWorker c) with None => c | Some w => on_sender (fun _ => w) c end, []))
                        (fun c => match Push piece (sendingWorker c) with None => k | Some _ => write_task fuel' None rest k end)
            end))
  end.

(** What may be running on a connection. *)
Inductive operation :=
  | OpInput (current : Z) (clock : nat -> Z * Z) (segments : list Segment)
  | OpFlush (current : Z) (clock : nat -> Z)
  | OpClose (elapsed : Z)
  | OpTerminate
  | OpReadMultiBuffer
  | OpRead (n : nat)
  | OpWrite (data : bytes)
  | OpWriteAgain (b rest : bytes).

Definition task_of (o : operation) : task :=
  match o with
  | OpInput current clock segments => input_task current clock segments Done
  | OpFlush current clock => flush_task current clock Done
  | OpClose elapsed => closing_task elapsed Done
  | OpTerminate => terminating_task Done
  | OpReadMultiBuffer => read_buffers_task Done
  | OpRead n => read_task n Done
  | OpWrite data => write_task (length data + 2) None data Done
  | OpWriteAgain b rest => write_task (length rest + 2) (Some b) rest Done
  end.

(** The same operation when nothing runs beside it. *)
Definition alone_of (o : operation) : M := fun c =>
  match o with
  | OpInput current clock segments => Input current clock segments c
  | OpFlush current clock => flush current clock c
  | OpClose elapsed => close_ elapsed c
  | OpTerminate => Terminate c
  | OpReadMultiBuffer => (conn_ReadMultiBuffer c).1
  | OpRead n => match conn_Read n c with Ok r => r.1 | _ => (c, []) end
  | OpWrite data => ((conn_Write data c).1, [])
  | OpWriteAgain b rest => ((conn_WriteAgain b rest c).1, [])
  end.

(** All turns of a task in a row. *)
Fixpoint run (t : task) : M := fun c =>
  match t with
  | Done => (c, [])
  | Act m k => let '(c1, e1) := m c in let '(c2, e2) := run (k c) c1 in (c2, e1 ++ e2)
  | Load k => run (k (state c)) c
  | Store st k => run k (put_state st c)
  | Begin elapsed k => run k (put_begin elapsed c)
  end.

(** ** Several tasks on one connection *)

(** A thread runs one operation at a time.  [saw] is the state its last
    [Load] found, until it stores; [alone] says that nobody stored a state
    since that load. *)
Record thread := { todo : task; saw : option State; alone : bool }.

Definition idle : thread := {| todo := Done; saw := None; alone := true |}.

(** A store of the state: what its thread had seen, what it replaced, what it
    put, and whether nobody stored between the thread's load and this. *)
Record change := { ch_saw : option State; ch_found : State; ch_put : State; ch_alone : bool }.

Record world := { conn : Connection; threads : list thread; changes : list change; out : list event }.

Definition go_on (th : thread) (t : task) : thread := {| todo := t; saw := saw th; alone := alone th |}.

(** The thread's next turn. *)
Definition turn (th : thread) (c : Connection) : Connection * list event * thread * option change :=
  match todo th with
  | Done => (c, [], th, None)
  | Act m k => let '(c', es) := m c in (c', es, go_on th (k c), None)
  | Load k => (c, [], {| todo := k (state c); saw := Some (state c); alone := true |}, None)
  | Store st k => (put_state st c, [], {| todo := k; saw := None; alone := true |},
                   Some {| ch_saw := saw th; ch_found := state c; ch_put := st; ch_alone := alone th |})
  | Begin elapsed k => (put_begin elapsed c, [], go_on th k, None)
  end.

Definition overtaken (th : thread) : thread := {| todo := todo th; saw := saw th; alone := false |}.

Inductive move := Start (i : nat) (o : operation) | Turn (i : nat).

(** An idle thread starts any operation; a busy one takes its next turn. *)
Definition perform (m : move) (w : world) : option world :=
  match m with
  | Start i o =>
      th ← threads w !! i;
      match todo th with
      | Done => Some {| conn := conn w; threads := <[i := {| todo := task_of o; saw := None; alone := true |}]> (threads w);
                        changes := changes w; out := out w |}
      | _ => None
      end
  | Turn i =>
      th ← threads w !! i;
      let '(c, es, th', ch) := turn th (conn w) in
      Some {| conn := c; threads := <[i := th']> (match ch with None => threads w | Some _ => overtaken <$> threads w end);
              changes := changes w ++ option_list ch; out := out w ++ es |}
  end.

Fixpoint performs (ms : list move) (w : world) : option world :=
  match ms with [] => Some w | m :: ms => w' ← perform m w; performs ms w' end.

(** [n] threads at rest on a connection. *)
Definition at_rest (n : nat) (c : Connection) : world := {| conn := c; threads := replicate n idle; changes := []; out := [] |}.

(** ** Alone, a task is the operation *)

Definition same (m1 m2 : M) : Prop := forall c, m1 c = m2 c.

#[export] Instance same_equivalence : Equivalence same.
Proof. split; [by intros m c|by intros m1 m2 H c|intros m1 m2 m3 H1 H2 c; by rewrite H1]. Qed.

#[export] Instance seq_proper : Proper (same ==> same ==> same) seq_.
Proof. intros m1 m1' H1 m2 m2' H2 c. unfold seq_. rewrite H1. destruct (m1' c) as [c1 e1]. by rewrite H2. Qed.

Lemma seq_assoc m1 m2 m3 : same (seq_ (seq_ m1 m2) m3) (seq_ m1 (seq_ m2 m3)).
Proof.
  intros c. unfold seq_. destruct (m1 c) as [c1 e1]. destruct (m2 c1) as [c2 e2]. destruct (m3 c2) as [c3 e3]. by rewrite (assoc_L (++)).
Qed.
Lemma seq_skip_l m : same (seq_ skip m) m.
Proof. intros c. unfold seq_. cbn. by destruct (m c). Qed.
Lemma seq_skip_r m : same (seq_ m skip) m.
Proof. intros c. unfold seq_. cbn. destruct (m c). by rewrite app_nil_r. Qed.
Lemma emit_app e1 e2 : same (emit (e1 ++ e2)) (seq_ (emit e1) (emit e2)).
Proof. done. Qed.

Lemma run_then m k : same (run (then_ m k)) (seq_ m (run k)).
Proof. done. Qed.
Lemma run_find k c : run (find k) c = run (k c) c.
Proof. cbn. by destruct (run (k c) c). Qed.

Lemma run_setting elapsed st k : same (run (setting elapsed st k)) (seq_ (SetState elapsed st) (run k)).
Proof.
  intros c. unfold setting, SetState, then_. cbn [run].
  assert (put_begin elapsed (put_state st c) = set_state st elapsed c) as -> by done.
  destruct st; unfold entering, then_, seq_, modify, emit, skip; cbn [run app]; by destruct (run k _).
Qed.

Lemma run_signalling k : same (run (signalling k)) (seq_ (emit [SignalInput; SignalOutput]) (run k)).
Proof. intros c. unfold signalling, then_, seq_, emit. cbn [run app]. by destruct (run k c). Qed.

(** A choice of a task is the conditional of the operation. *)
Lemma run_choose_when (p : Connection -> bool) (t : Connection -> task -> task) (m : M) (k : task) :
  (forall c, same (run (t c k)) (seq_ m (run k))) ->
  same (run (find (fun c => choose (p c) (t c) k))) (seq_ (when p m) (run k)).
Proof.
  intros Ht c. rewrite run_find. unfold choose, seq_, when. destruct (p c); [by rewrite Ht|]. by destruct (run k c).
Qed.

Lemma run_choose (b : bool) (t : task -> task) (m : M) (k : task) :
  same (run (t k)) (seq_ m (run k)) -> same (run (choose b t k)) (seq_ (if b then m else skip) (run k)).
Proof. intros Ht c. destruct b; cbn [choose]; [apply Ht|]. by rewrite seq_skip_l. Qed.

Lemma seq_id c m : seq_ (fun c => (c, [])) m c = m c.
Proof. apply seq_skip_l. Qed.

Lemma run_closing elapsed k : same (run (closing_task elapsed k)) (seq_ (close_ elapsed) (run k)).
Proof.
  intros c. unfold closing_task. rewrite run_signalling. unfold close_, Close, seq_ at 1, emit. cbn [run].
  unfold seq_ at 1. destruct (state c); rewrite ?run_setting;
    try (unfold seq_; destruct (SetState _ _ c) as [c1 e1]; destruct (run k c1)); try done; by destruct (run k c).
Qed.

Lemma run_terminating k : same (run (terminating_task k)) (seq_ Terminate (run k)).
Proof. intros c. unfold terminating_task. rewrite run_signalling. unfold Terminate, seq_, then_. cbn. by destruct (run k _). Qed.

Lemma run_peer_closed elapsed k : same (run (peer_closed_task elapsed k)) (seq_ (OnPeerClosed elapsed) (run k)).
Proof.
  intros c. unfold peer_closed_task, OnPeerClosed, seq_. cbn [run]. destruct (state c); rewrite ?run_setting; try done; cbn; by destruct (run k c).
Qed.

Lemma run_option elapsed opt k : same (run (option_task elapsed opt k)) (seq_ (HandleOption elapsed opt) (run k)).
Proof. apply run_choose, run_peer_closed. Qed.

Lemma run_terminate elapsed k : same (run (terminate_task elapsed k)) (seq_ (on_terminate elapsed) (run k)).
Proof.
  intros c. unfold terminate_task, on_terminate, seq_. cbn [run]. destruct (state c); rewrite ?run_setting; try done; cbn; by destruct (run k c).
Qed.

Lemma run_ping current cmd k : same (run (ping_task current cmd k)) (seq_ (Ping current cmd) (run k)).
Proof. intros c. unfold ping_task, seq_, Ping. rewrite !run_find. unfold then_. cbn. by destruct (run k _). Qed.

Lemma run_segment current e1 e2 seg k : same (run (segment_task current e1 e2 seg k)) (seq_ (input_segment current e1 e2 seg) (run k)).
Proof.
  destruct seg as [seg|seg|seg]; cbn [segment_task input_segment];
    (etrans; [apply run_option|]); (etrans; [|symmetry; apply seq_assoc]); f_equiv.
  - etrans; [apply run_then|]. etrans; [|symmetry; apply seq_assoc]. f_equiv. etrans; [|symmetry; apply seq_assoc].
    apply (run_choose_when _ (fun _ => then_ (emit [SignalInput])) _ (then_ (emit [WakeData]) k)). intros _. apply run_then.
  - intros c. rewrite run_find. unfold then_, seq_, modify, emit. cbn [run]. destruct (ProcessSegment _ _ _ _ _). cbn [app]. by destruct (run k _).
  - etrans; [apply run_choose, run_terminate|]. etrans; [|symmetry; apply seq_assoc]. f_equiv.
    etrans; [apply run_choose, run_signalling|]. etrans; [|symmetry; apply seq_assoc]. f_equiv.
    do 2 (etrans; [apply run_then|]; etrans; [|symmetry; apply seq_assoc]; f_equiv).
    apply run_then.
Qed.

Lemma run_segments current clock i segs k :
  same (run (segments_task current clock i segs k)) (seq_ (input_loop current clock i segs) (run k)).
Proof.
  revert i. induction segs as [|seg segs IH]; intros i c; [symmetry; apply seq_skip_l|].
  cbn [segments_task input_loop]. rewrite run_find. unfold branch, seq_ at 1. destruct (bool_decide _).
  - cbn. by destruct (run k c).
  - rewrite run_segment. etrans; [apply seq_proper; [done|apply IH]|]. symmetry. apply seq_assoc.
Qed.

Lemma run_input current clock segs k : same (run (input_task current clock segs k)) (seq_ (Input current clock segs) (run k)).
Proof.
  etrans; [apply run_then|]. etrans; [|symmetry; apply seq_assoc]. f_equiv. apply run_segments.
Qed.

Lemma run_flush_sender current k : same (run (flush_sender_task current k)) (seq_ (flush_sender current) (run k)).
Proof.
  intros c. unfold flush_sender_task, flush_sender. cbn [run]. unfold seq_ at 1.
  destruct (KcpSending.Flush _ _ _ _ _ _ _) as [[w out] ping]. cbn [fst snd]. unfold choose, seq_.
  destruct ping; [rewrite run_ping|]; unfold seq_; cbn; destruct (run k _); by rewrite ?app_nil_r, <-?(assoc_L (++)).
Qed.

(** [Load] then a choice by the state, for the tests of flush. *)
Lemma run_load_when (s0 : State) (t : task -> task) (m : M) (k : task) :
  (forall c, state c = s0 -> run (t k) c = seq_ m (run k) c) ->
  same (run (Load (fun s => choose (bool_decide (s = s0)) t k))) (seq_ (when (in_state s0) m) (run k)).
Proof.
  intros Ht c. cbn [run]. unfold choose, seq_, when, in_state. case_bool_decide as Hs; [by apply Ht|]. by destruct (run k c).
Qed.

Lemma when_and p q m : same (when p (when q m)) (when (fun c => p c && q c) m).
Proof. intros c. unfold when. by destruct (p c), (q c). Qed.

Lemma run_test (s0 : State) (q : Connection -> bool) (t : task -> task) (m : M) (k : task) :
  same (run (t k)) (seq_ m (run k)) ->
  same (run (Load (fun s => choose (bool_decide (s = s0)) (fun k => find (fun c => choose (q c) t k)) k)))
    (seq_ (when (fun c => in_state s0 c && q c) m) (run k)).
Proof.
  intros Ht. etrans; [apply (run_load_when _ (fun k => find (fun c => choose (q c) t k)))|].
  - intros c _. by apply (run_choose_when q (fun _ => t)).
  - f_equiv. apply when_and.
Qed.

Lemma run_flush_rest current clock k : same (run (flush_rest_task current clock k)) (seq_ (flush_rest current clock) (run k)).
Proof.
  unfold flush_rest_task, flush_rest. cbv zeta.
  etrans; [apply (run_test _ (fun c => 4000 <? age current c)), run_setting|]. etrans; [|symmetry; apply seq_assoc]. f_equiv.
  etrans; [apply (run_test _ (fun c => 15000 <? age current c)), run_setting|]. etrans; [|symmetry; apply seq_assoc]. f_equiv.
  etrans; [|symmetry; apply seq_assoc]. change (run (Act ?m (fun _ => ?k))) with (run (then_ m k)).
  etrans; [apply run_then|]. f_equiv. etrans; [apply run_flush_sender|]. etrans; [|symmetry; apply seq_assoc]. f_equiv.
  apply (run_choose_when _ (fun _ => ping_task current CommandPing)). intros _. apply run_ping.
Qed.

Lemma seq_branch p m1 m2 m : same (seq_ (branch p m1 m2) m) (branch p (seq_ m1 m) (seq_ m2 m)).
Proof. intros c. unfold seq_, branch. by destruct (p c). Qed.

Lemma run_load_if s0 t1 t2 :
  same (run (Load (fun s => if bool_decide (s = s0) then t1 else t2))) (branch (in_state s0) (run t1) (run t2)).
Proof. intros c. cbn [run]. unfold branch, in_state. by case_bool_decide. Qed.

#[export] Instance branch_proper p : Proper (same ==> same ==> same) (branch p).
Proof. intros m1 m1' H1 m2 m2' H2 c. unfold branch. by destruct (p c). Qed.

Lemma run_flush current clock k : same (run (flush_task current clock k)) (seq_ (flush current clock) (run k)).
Proof.
  unfold flush_task, flush. cbv zeta.
  etrans; [apply run_load_if|]. etrans; [|symmetry; apply seq_branch]. f_equiv; [symmetry; apply seq_skip_l|].
  etrans; [|symmetry; apply seq_assoc].
  etrans; [apply (run_test _ (fun c => 30000 <=? sub32 current (lastIncomingTime c))), run_closing|]. f_equiv.
  etrans; [|symmetry; apply seq_assoc].
  etrans; [apply (run_test _ (fun c => IsEmpty (sendingWorker c))), run_setting|]. f_equiv.
  etrans; [apply run_load_if|]. etrans; [|symmetry; apply seq_branch]. f_equiv; [|apply run_flush_rest].
  etrans; [apply run_ping|]. etrans; [|symmetry; apply seq_assoc]. f_equiv.
  apply (run_choose_when _ (fun _ => setting (clock 2%nat) StateTerminated)). intros _. apply run_setting.
Qed.

Lemma run_write fuel b data c : run (write_task fuel b data Done) c = ((write_loop fuel b data c).1, []).
Proof.
  revert b data c. induction fuel as [|fuel IH]; intros b data c; [done|]. cbn [write_task write_loop run].
  change (in_state StateActive c) with (bool_decide (state c = StateActive)).
  case_bool_decide as Hs; cbn [negb]; [|done]. rewrite run_find. destruct b as [piece|]; cbn [default from_option id].
  - cbn [run]. destruct (Push piece (sendingWorker c)) as [w|]; cbn [run]; [by rewrite IH|done].
  - destruct (chunk (mss c) data) as [|x piece]; [done|]. cbn [run].
    destruct (Push _ (sendingWorker c)) as [w|]; cbn [run]; [by rewrite IH|done].
Qed.

(** Alone, every task is its operation of KcpConnection.v. *)
Theorem run_task_of o : same (run (task_of o)) (alone_of o).
Proof.
  assert (forall m, same (seq_ m (run Done)) m) as Hend by (intros m; apply seq_skip_r).
  intros c. destruct o as [current clock segs|current clock|e| | |n|data|b rest]; cbn [task_of alone_of].
  - etrans; [apply run_input|apply Hend].
  - etrans; [apply run_flush|apply Hend].
  - etrans; [apply run_closing|apply Hend].
  - etrans; [apply run_terminating|apply Hend].
  - unfold read_buffers_task, conn_ReadMultiBuffer. cbn [run]. destruct (Is _ _); [done|]. cbn [run].
    destruct (r_ReadMultiBuffer _) as [r mb]. cbn [fst snd]. destruct (negb _); [done|]. cbn. by destruct (in_state _ _).
  - unfold read_task, conn_Read. cbn [run]. destruct (Is _ _); [done|]. cbn [run].
    destruct (r_Read n _) as [[r data]| |]; [|done..]. cbn [mbind outcome_bind fst snd app choose].
    unfold choose. by destruct (0 <? length data)%nat.
  - apply run_write.
  - apply run_write.
Qed.

(** One after another, operations take the state along the graph, and the
    time it began is only reset when it changes. *)
Lemma alone_evolves o c : evolves c (alone_of o c).1.
Proof.
  destruct o as [current clock segs|current clock|e| | |n|data|b rest]; cbn [alone_of];
    try (apply op_evolves; constructor).
  - unfold close_. pose proof (op_evolves _ _ (op_Close e c)). by destruct (Close e c) as [[c' es] r].
  - destruct (conn_Read n c) as [[[c' es] r]| |] eqn:E; [|done..]. by apply op_evolves, (op_Read n c c' es r).
Qed.

(** ** Every store follows from what its thread saw *)

(** [m] leaves the state and the time it began alone. *)
Definition keeps (m : M) : Prop := forall c, state (m c).1 = state c /\ stateBeginTime (m c).1 = stateBeginTime c.

(** A task whose thread last saw [seen] stores only along edges of the graph
    from what it saw, once for each load. *)
Inductive lawful : option State -> task -> Prop :=
  | lawful_Done seen : lawful seen Done
  | lawful_Act seen m k : keeps m -> (forall c, lawful seen (k c)) -> lawful seen (Act m k)
  | lawful_Load seen k : (forall s, lawful (Some s) (k s)) -> lawful seen (Load k)
  | lawful_Store s st k : transition s st -> lawful None k -> lawful (Some s) (Store st k)
  | lawful_Begin seen elapsed k : lawful seen k -> lawful seen (Begin elapsed k).

Create HintDb kcp_tasks.
#[export] Hint Constructors lawful transition : kcp_tasks.

Lemma lawful_weaken seen t : lawful None t -> lawful seen t.
Proof. intros H. remember None as o eqn:Ho. induction H; subst; try done; eauto with kcp_tasks. Qed.

Lemma keeps_skip : keeps skip.
Proof. done. Qed.
Lemma keeps_emit es : keeps (emit es).
Proof. done. Qed.
Lemma keeps_modify f : (forall c, state (f c) = state c /\ stateBeginTime (f c) = stateBeginTime c) -> keeps (modify f).
Proof. done. Qed.
#[export] Hint Resolve keeps_skip keeps_emit keeps_modify lawful_weaken : kcp_tasks.

Lemma lawful_then seen m k : keeps m -> lawful seen k -> lawful seen (then_ m k).
Proof. unfold then_. eauto with kcp_tasks. Qed.
Lemma lawful_find seen k : (forall c, lawful seen (k c)) -> lawful seen (find k).
Proof. unfold find. eauto with kcp_tasks. Qed.
Lemma lawful_choose seen b t k : lawful seen (t k) -> lawful seen k -> lawful seen (choose b t k).
Proof. by destruct b. Qed.
#[export] Hint Resolve lawful_then lawful_find lawful_choose : kcp_tasks.

Lemma lawful_entering st k : lawful None k -> lawful None (entering st k).
Proof. destruct st; cbn [entering]; eauto 12 with kcp_tasks. Qed.

Lemma lawful_setting s elapsed st k : transition s st -> lawful None k -> lawful (Some s) (setting elapsed st k).
Proof. intros Ht Hk. unfold setting. eauto using lawful_entering with kcp_tasks. Qed.
#[export] Hint Resolve lawful_setting : kcp_tasks.

(** The cases of a switch on the state that was loaded. *)
Ltac by_state := let s := fresh "s" in apply lawful_Load; intros s; destruct s; auto with kcp_tasks.

Lemma lawful_signalling seen k : lawful seen k -> lawful seen (signalling k).
Proof. unfold signalling. auto with kcp_tasks. Qed.
#[export] Hint Resolve lawful_signalling : kcp_tasks.

Lemma lawful_closing seen elapsed k : lawful None k -> lawful seen (closing_task elapsed k).
Proof. intros Hk. apply lawful_signalling. by_state. Qed.
Lemma lawful_peer_closed seen elapsed k : lawful None k -> lawful seen (peer_closed_task elapsed k).
Proof. intros Hk. by_state. Qed.
Lemma lawful_option seen elapsed opt k : lawful None k -> lawful seen (option_task elapsed opt k).
Proof. intros Hk. apply lawful_choose; [by apply lawful_peer_closed|by apply lawful_weaken]. Qed.
Lemma lawful_terminate seen elapsed k : lawful None k -> lawful seen (terminate_task elapsed k).
Proof. intros Hk. by_state. Qed.
Lemma lawful_ping seen current cmd k : lawful seen k -> lawful seen (ping_task current cmd k).
Proof. intros Hk. unfold ping_task. do 5 (apply lawful_find; intros ?). apply lawful_Act; [done|]. auto with kcp_tasks. Qed.
#[export] Hint Resolve lawful_closing lawful_option lawful_terminate lawful_ping : kcp_tasks.

Lemma lawful_segment seen current e1 e2 seg k : lawful None k -> lawful seen (segment_task current e1 e2 seg k).
Proof.
  intros Hk. destruct seg; cbn [segment_task]; apply lawful_option; auto 8 with kcp_tasks.
  - apply lawful_find. intros c0. apply lawful_then; [|auto with kcp_tasks]. apply keeps_modify. intros c. by destruct (ProcessSegment _ _ _ _ _).
Qed.
#[export] Hint Resolve lawful_segment : kcp_tasks.

Lemma lawful_segments seen current clock i segs k : lawful None k -> lawful seen (segments_task current clock i segs k).
Proof.
  intros Hk. revert seen i. induction segs as [|seg segs IH]; intros seen i; cbn [segments_task]; [auto with kcp_tasks|].
  apply lawful_find. intros c. case_bool_decide; auto with kcp_tasks.
Qed.

Lemma flush_receiver_keeps current : keeps (flush_receiver current).
Proof. intros c. unfold flush_receiver. by destruct (r_Flush _ _ _ _ _). Qed.

Lemma lawful_flush_sender seen current k : lawful None k -> lawful seen (flush_sender_task current k).
Proof. intros Hk. apply lawful_Act; [done|]. auto with kcp_tasks. Qed.
#[export] Hint Resolve lawful_segments flush_receiver_keeps lawful_flush_sender : kcp_tasks.

(** A test of flush: the state, then something else, then one change. *)
Lemma lawful_test seen s0 (q : Connection -> bool) elapsed st k : transition s0 st -> lawful None k ->
  lawful seen (Load (fun s => choose (bool_decide (s = s0)) (fun k => find (fun c => choose (q c) (setting elapsed st) k)) k)).
Proof. intros Ht Hk. apply lawful_Load. intros s. unfold choose at 1. case_bool_decide; subst; auto with kcp_tasks. Qed.

Lemma lawful_flush_rest seen current clock k : lawful None k -> lawful seen (flush_rest_task current clock k).
Proof.
  intros Hk. unfold flush_rest_task. cbv zeta.
  apply lawful_weaken, (lawful_test _ _ (fun c => 4000 <? age current c)); [constructor|].
  apply (lawful_test _ _ (fun c => 15000 <? age current c)); [constructor|]. auto 8 with kcp_tasks.
Qed.
#[export] Hint Resolve lawful_flush_rest : kcp_tasks.

Lemma lawful_flush seen current clock k : lawful None k -> lawful seen (flush_task current clock k).
Proof.
  intros Hk. unfold flush_task. cbv zeta. apply lawful_Load. intros s. case_bool_decide; [auto with kcp_tasks|].
  assert (forall seen, lawful seen (Load (fun s => if bool_decide (s = StateTerminating)
    then ping_task current CommandTerminate (find (fun c => choose (8000 <? age current c) (setting (clock 2%nat) StateTerminated) k))
    else flush_rest_task current clock k))) as H3.
  { intros seen'. apply lawful_Load. intros s3. case_bool_decide; subst; auto 8 with kcp_tasks. }
  apply lawful_Load. intros s1. unfold choose at 1.
  assert (forall seen, lawful seen (Load (fun s => choose (bool_decide (s = StateReadyToClose))
    (fun k => find (fun c => choose (IsEmpty (sendingWorker c)) (setting (clock 1%nat) StateTerminating) k))
    (Load (fun s => if bool_decide (s = StateTerminating)
       then ping_task current CommandTerminate (find (fun c => choose (8000 <? age current c) (setting (clock 2%nat) StateTerminated) k))
       else flush_rest_task current clock k))))) as H2.
  { intros seen'. apply (lawful_test _ _ (fun c => IsEmpty (sendingWorker c))); [constructor|apply H3]. }
  case_bool_decide; [|apply H2]. apply lawful_find. intros c. apply lawful_choose; [|apply H2]. by apply lawful_closing, H2.
Qed.

Lemma lawful_write seen fuel b data : lawful seen (write_task fuel b data Done).
Proof.
  revert seen b data. induction fuel as [|fuel IH]; intros seen b data; cbn [write_task]; [constructor|].
  apply lawful_Load. intros s. destruct (negb _); [constructor|]. apply lawful_find. intros c0. cbv zeta.
  assert (forall piece rest, lawful (Some s) (Act (fun c => (match Push piece (sendingWorker c) with None => c
    | Some w => on_sender (fun _ => w) c end, [])) (fun c => match Push piece (sendingWorker c) with None => Done
    | Some _ => write_task fuel None rest Done end))) as Hp.
  { intros piece rest. apply lawful_Act; [intros c; by destruct (Push _ _)|]. intros c. destruct (Push _ _); [apply IH|constructor]. }
  destruct b as [b|]; [apply Hp|]. destruct (default _ _); [constructor|apply Hp].
Qed.

Lemma lawful_task_of o : lawful None (task_of o).
Proof.
  destruct o as [current clock segs|current clock|e| | |n|data|b rest]; cbn [task_of];
    auto using lawful_flush, lawful_write, lawful_closing with kcp_tasks.
  - unfold input_task. auto with kcp_tasks.
  - unfold terminating_task. auto 8 with kcp_tasks.
  - apply lawful_Load. intros s. destruct (Is _ _); [constructor|]. apply lawful_Act; [done|]. intros c. destruct (negb _); auto with kcp_tasks.
  - apply lawful_Load. intros s. destruct (Is _ _); [constructor|].
    apply lawful_Act; [intros c; by destruct (r_Read n _) as [[r data]| |]|].
    intros c. destruct (r_Read n _) as [[r data]| |]; auto with kcp_tasks.
Qed.

(** ** The invariant of the interleaving *)

(** The changes lead from [s] to [s'], one after another. *)
Fixpoint chain (s : State) (chs : list change) (s' : State) : Prop :=
  match chs with [] => s = s' | ch :: chs => ch_found ch = s /\ chain (ch_put ch) chs s' end.

Lemma chain_snoc s chs s1 ch : chain s chs s1 -> ch_found ch = s1 -> chain s (chs ++ [ch]) (ch_put ch).
Proof. revert s. induction chs as [|ch0 chs IH]; intros s; cbn; [by intros ->|]. intros [? Hc] Hf. split; [done|by apply IH]. Qed.

(** A change goes along an edge from the state its thread had seen, and that
    is the state it replaced when nobody came in between. *)
Definition founded (ch : change) : Prop :=
  (exists s, ch_saw ch = Some s /\ transition s (ch_put ch)) /\ (ch_alone ch = true -> ch_saw ch = Some (ch_found ch)).

Definition thread_ok (c : Connection) (th : thread) : Prop :=
  lawful (saw th) (todo th) /\ (alone th = true -> forall s, saw th = Some s -> s = state c).

(** A turn either leaves the state, or it is a founded change. *)
Lemma turn_ok th c c' es th' ch : thread_ok c th -> turn th c = (c', es, th', ch) -> thread_ok c' th' /\
  match ch with
  | None => state c' = state c /\ (saw th' = saw th \/ saw th' = Some (state c))
  | Some ch => founded ch /\ ch_found ch = state c /\ ch_put ch = state c' /\ ch_saw ch = saw th /\ ch_alone ch = alone th /\ saw th' = None
  end.
Proof.
  destruct th as [t seen al]. intros [Hl Ha] Ht. unfold turn in Ht. cbn [todo saw alone] in *.
  destruct Hl as [seen|seen m k Hm Hk|seen k Hk|s st k He Hk|seen e k Hk].
  - injection Ht as <- <- <- <-. split; [split; [constructor|done]|auto].
  - specialize (Hm c). destruct (m c) as [c1 e1]. destruct Hm as [Hs _]. cbn [fst] in Hs. injection Ht as <- <- <- <-.
    split; [split; [apply Hk|cbn; by rewrite Hs]|auto].
  - injection Ht as <- <- <- <-. split; [split; [apply Hk|by intros _ s [= ->]]|auto].
  - injection Ht as <- <- <- <-. split; [by split|]. split; [|done]. split; [by exists s|]. cbn. intros Hal.
    by rewrite (Ha Hal s eq_refl).
  - injection Ht as <- <- <- <-. split; [split; [done|exact Ha]|auto].
Qed.

Record consistent (s0 : State) (w : world) : Prop := {
  threads_ok : Forall (thread_ok (conn w)) (threads w);
  changes_founded : Forall founded (changes w);
  changes_chain : chain s0 (changes w) (state (conn w))
}.

Lemma thread_ok_state c c' th : state c' = state c -> thread_ok c th -> thread_ok c' th.
Proof. unfold thread_ok. by intros ->. Qed.

Lemma perform_consistent s0 m w w' : consistent s0 w -> perform m w = Some w' -> consistent s0 w'.
Proof.
  intros [Ht Hf Hc] Hp. destruct m as [i o|i]; cbn [perform] in Hp; destruct (threads w !! i) as [th|] eqn:Ei; [|done| |done]; cbn in Hp.
  - destruct (todo th); try done. injection Hp as <-. split; cbn; [|done..].
    apply Forall_insert; [done|]. split; [apply lawful_task_of|done].
  - pose proof (Forall_lookup_1 _ _ _ _ Ht Ei) as Hth. destruct (turn th (conn w)) as [[[c es] th'] ch] eqn:Eturn.
    destruct (turn_ok _ _ _ _ _ _ Hth Eturn) as [Hth' Hch]. injection Hp as <-. destruct ch as [ch|]; split; cbn.
    + apply Forall_insert; [|done]. apply Forall_fmap. eapply Forall_impl; [exact Ht|]. by intros th0 [Hl _].
    + apply Forall_app. split; [done|]. apply Forall_singleton. by destruct Hch.
    + destruct Hch as (_ & Hfound & <- & _). by eapply chain_snoc.
    + apply Forall_insert; [|done]. eapply Forall_impl; [exact Ht|]. intros th0. apply thread_ok_state, Hch.
    + by rewrite app_nil_r.
    + rewrite app_nil_r. by destruct Hch as [-> _].
Qed.

Lemma performs_ind (P : world -> Prop) : (forall m w w', P w -> perform m w = Some w' -> P w') ->
  forall ms w w', P w -> performs ms w = Some w' -> P w'.
Proof.
  intros Hstep ms. induction ms as [|m ms IH]; intros w w' Hw Hp; [by injection Hp as <-|]. cbn in Hp.
  destruct (perform m w) as [w1|] eqn:E; [|done]. eauto.
Qed.

Lemma at_rest_consistent n c : consistent (state c) (at_rest n c).
Proof. split; [|constructor|done]. apply Forall_replicate. split; [constructor|done]. Qed.

Lemma performs_consistent n c ms w : performs ms (at_rest n c) = Some w -> consistent (state c) w.
Proof. apply (performs_ind (consistent (state c))); [intros m w1 w2; apply perform_consistent|apply at_rest_consistent]. Qed.

(** ** How many changes there can be *)

(** How many changes [n] threads can still make between them, when the
    latest any of them has seen is [l] changes from the end: one, and then
    [n] threads may see what it put. *)
Fixpoint weight (n l : nat) : nat :=
  match l with O => 0 | S l => 1 + n * weight n l end.

Definition level (th : thread) : nat := match saw th with Some s => remaining s | None => 0 end.

Definition credit (n : nat) (s : State) (th : thread) : nat := weight n (Nat.max (level th) (remaining s)).
Definition potential (n : nat) (w : world) : nat := sum_list_with (credit n (state (conn w))) (threads w).

Lemma weight_mono n l l' : (0 < n -> l <= l' -> weight n l <= weight n l')%nat.
Proof.
  intros Hn. revert l'. induction l as [|l IH]; intros l' Hl; [cbn; lia|]. destruct l' as [|l']; [lia|].
  cbn. apply le_n_S, Nat.mul_le_mono_l, IH. lia.
Qed.

Lemma weight_max n l l' : (0 < n -> weight n (Nat.max l l') <= weight n l + weight n l')%nat.
Proof. intros Hn. destruct (Nat.max_spec l l') as [[_ ->]|[_ ->]]; lia. Qed.

Lemma sum_insert {A} (f : A -> nat) (l : list A) i x y : l !! i = Some x ->
  (sum_list_with f (<[i := y]> l) + f x = sum_list_with f l + f y)%nat.
Proof.
  revert i. induction l as [|z l IH]; intros [|i] Hi; try done; cbn in Hi.
  - injection Hi as ->. cbn. lia.
  - specialize (IH i Hi). change (<[S i := y]> (z :: l)) with (z :: <[i := y]> l). cbn [sum_list_with]. lia.
Qed.

Lemma sum_le {A} (f g : A -> nat) (l : list A) k : (forall x, f x <= g x + k)%nat ->
  (sum_list_with f l <= sum_list_with g l + length l * k)%nat.
Proof. intros H. induction l as [|x l IH]; cbn; [lia|]. specialize (H x). lia. Qed.

(** The same for all but one. *)
Lemma sum_others {A} (f g : A -> nat) (l : list A) i x k : l !! i = Some x -> (forall y, f y <= g y + k)%nat ->
  (sum_list_with f l + g x + k <= sum_list_with g l + f x + length l * k)%nat.
Proof.
  intros Hi H. revert i Hi. induction l as [|z l IH]; intros [|i] Hi; try done; cbn in Hi |- *.
  - injection Hi as ->. pose proof (sum_le f g l k H). lia.
  - specialize (IH i Hi). specialize (H z). lia.
Qed.

(** Every change costs the potential at least one, and nothing adds to it. *)
Lemma perform_potential n s0 m w w' : consistent s0 w -> length (threads w) = n -> perform m w = Some w' ->
  (potential n w' + length (changes w') <= potential n w + length (changes w) /\ length (threads w') = n)%nat.
Proof.
  intros [Ht _ _] Hn Hp. unfold potential.
  destruct m as [i o|i]; cbn [perform] in Hp; destruct (threads w !! i) as [th|] eqn:Ei; [|done| |done]; cbn in Hp;
    pose proof (lookup_lt_Some _ _ _ Ei) as Hi; rewrite Hn in Hi; assert (0 < n)%nat as Hpos by lia.
  - destruct (todo th); try done. injection Hp as <-. cbn [conn threads changes]. rewrite length_insert. split; [|done].
    match goal with |- context [<[i := ?th']> _] =>
      pose proof (sum_insert (credit n (state (conn w))) (threads w) i th th' Ei);
      assert (credit n (state (conn w)) th' <= credit n (state (conn w)) th)%nat
        by (apply weight_mono; [done|unfold level at 1; cbn [saw]; lia]) end. lia.
  - pose proof (Forall_lookup_1 _ _ _ _ Ht Ei) as Hth. destruct (turn th (conn w)) as [[[c es] th'] ch] eqn:Eturn.
    destruct (turn_ok _ _ _ _ _ _ Hth Eturn) as [_ Hch]. injection Hp as <-. cbn [conn threads changes]. rewrite length_app.
    destruct ch as [ch|]; [change (length (option_list (Some ch))) with 1%nat|change (length (option_list (@None change))) with 0%nat].
    + destruct Hch as ([(s & Hs & He) _] & Hfound & Hput & Hsaw & _ & Hsaw').
      rewrite length_insert, length_fmap. split; [|done].
      set (old := state (conn w)) in *. set (new := state c) in *.
      pose proof (sum_insert (credit n new) (overtaken <$> threads w) i (overtaken th) th' ltac:(by rewrite list_lookup_fmap, Ei)) as Hins.
      assert (sum_list_with (credit n new) (overtaken <$> threads w) = sum_list_with (credit n new) (threads w)) as Hov
        by (clear; induction (threads w) as [|x l IH]; cbn; [done|by rewrite IH]).
      pose proof (sum_others (credit n new) (credit n old) (threads w) i th (weight n (remaining new)) Ei) as Hle.
      assert (forall x, credit n new x <= credit n old x + weight n (remaining new))%nat as Hcr.
      { intros x. unfold credit. etrans; [by apply weight_max|]. apply Nat.add_le_mono_r, weight_mono; lia. }
      specialize (Hle Hcr).
      assert (1 + n * weight n (remaining new) <= credit n old th)%nat as Hw.
      { unfold credit, level. rewrite <-Hsaw, Hs, <-Hput. apply transition_remaining in He.
        etrans; [|by apply (weight_mono n (remaining s)); lia]. destruct (remaining s) as [|r]; [lia|]. cbn.
        apply le_n_S, Nat.mul_le_mono_l, weight_mono; lia. }
      assert (credit n new th' = weight n (remaining new)) as Hth' by (unfold credit, level; by rewrite Hsaw').
      change (credit n new (overtaken th)) with (credit n new th) in Hins. rewrite Hn in Hle. lia.
    + destruct Hch as [Hst Hsaw]. rewrite length_insert, Hst. split; [|done].
      pose proof (sum_insert (credit n (state (conn w))) (threads w) i th th' Ei).
      assert (credit n (state (conn w)) th' <= credit n (state (conn w)) th)%nat
        by (apply weight_mono; [done|unfold level; destruct Hsaw as [->| ->]; lia]). lia.
Qed.

Lemma sum_replicate {A} (f : A -> nat) n x : sum_list_with f (replicate n x) = (n * f x)%nat.
Proof. induction n as [|n IH]; cbn; [done|by rewrite IH]. Qed.

Lemma performs_potential n c ms w : performs ms (at_rest n c) = Some w ->
  (length (changes w) <= n * weight n (remaining (state c)))%nat.
Proof.
  intros Hp.
  assert (consistent (state c) w /\ (potential n w + length (changes w) <= potential n (at_rest n c))%nat /\ length (threads w) = n)
    as (_ & Hle & _).
  { revert Hp. apply (performs_ind (fun w => consistent (state c) w /\ (potential n w + length (changes w) <= potential n (at_rest n c))%nat
      /\ length (threads w) = n)).
    - intros m w1 w2 (Hw & Hle & Hn) Hm. destruct (perform_potential n _ _ _ _ Hw Hn Hm) as [Hle2 ?].
      split; [by eapply perform_consistent|]. split; [lia|done].
    - split; [apply at_rest_consistent|]. cbn. rewrite length_replicate. split; [lia|done]. }
  unfold potential in Hle. cbn [at_rest threads conn] in Hle. rewrite sum_replicate in Hle.
  change (credit n (state c) idle) with (weight n (remaining (state c))) in Hle. lia.
Qed.

(** One thread is never overtaken. *)
Lemma performs_alone c ms w : performs ms (at_rest 1 c) = Some w -> Forall (fun ch => ch_alone ch = true) (changes w).
Proof.
  intros Hp. assert (Forall (fun ch => ch_alone ch = true) (changes w) /\ exists th, threads w = [th] /\ alone th = true) as [? _]; [|done].
  revert Hp. apply (performs_ind (fun w => Forall (fun ch => ch_alone ch = true) (changes w) /\ exists th, threads w = [th] /\ alone th = true)).
  2:{ split; [constructor|]. by exists idle. }
  intros m w1 w2 [Hf (th & Hth & Ha)] Hm. destruct m as [[|i] o|[|i]]; cbn [perform] in Hm; rewrite Hth in Hm; cbn in Hm; try done.
  - destruct (todo th); try done. injection Hm as <-. split; [done|]. by eexists.
  - destruct (turn th (conn w1)) as [[[c1 es] th'] ch] eqn:Et.
    assert (alone th' = true /\ forall ch1, ch = Some ch1 -> ch_alone ch1 = true) as [Ha' Hch].
    { unfold turn in Et. destruct (todo th) as [|m k|k|st k|e k]; try (destruct (m (conn w1)) as [c2 e2]);
        injection Et as <- <- <- <-; (split; [done|]); intros ch1 Hc1; injection Hc1 as <- || done; done. }
    injection Hm as <-. cbn [changes threads]. split.
    + apply Forall_app. split; [done|]. destruct ch as [ch|]; [|constructor]. apply Forall_singleton. by apply Hch.
    + exists th'. by destruct ch.
Qed.

Lemma chain_last s chs s' : chain s chs s' -> chs = [] \/ exists ch, ch ∈ chs /\ ch_put ch = s'.
Proof.
  revert s. induction chs as [|ch chs IH]; intros s; [by left|]. cbn. intros [_ Hc]. right.
  destruct (IH _ Hc) as [->|(ch' & Hin & Hput)]; [exists ch; split; [left|done]|exists ch'; split; [by right|done]].
Qed.

Lemma chain_alone s chs s' : chain s chs s' -> Forall founded chs -> Forall (fun ch => ch_alone ch = true) chs -> rtc transition s s'.
Proof.
  revert s. induction chs as [|ch chs IH]; intros s; cbn; [by intros ->|]. intros [Hfound Hc] Hf Ha.
  apply Forall_cons in Hf as [[(s1 & Hs1 & He) Hsaw] Hf]. apply Forall_cons in Ha as [Ha1 Ha].
  apply rtc_l with (ch_put ch); [|by apply IH]. rewrite (Hsaw Ha1) in Hs1. congruence.
Qed.

(** ** The state machine *)

Definition one_by_one (os : list operation) (c : Connection) : Connection := fold_left (fun c o => (run (task_of o) c).1) os c.

Lemma one_by_one_evolves os c : evolves c (one_by_one os c).
Proof.
  revert c. induction os as [|o os IH]; intros c; [done|]. cbn. trans (run (task_of o) c).1; [|apply IH].
  rewrite run_task_of. apply alone_evolves.
Qed.

(** C35: the state of a connection, whatever operations run on it.  Run one
    after another, they move it only along the acyclic graph of
    [transition] and reset the time a state began only when it changes.
    With any [n] of them taking turns at the loads and stores of the two
    words, each store follows an edge from the state that its operation
    loaded last, and moves the connection along that edge unless another
    operation stored in between; the state is never [StateActive] again once
    it was stored; a single thread only ever moves along the graph; and
    there are at most n + n^2 + n^3 + n^4 stores, so that the state comes to
    rest in every interleaving (four stores at most for n = 1).  An
    operation that was overtaken can take the state back, even out of
    [StateTerminated] ([stale_flush_restarts_termination]). *)
Theorem connection_state_machine c :
  (forall os, rtc transition (state c) (state (one_by_one os c)) /\
    (state (one_by_one os c) = state c -> stateBeginTime (one_by_one os c) = stateBeginTime c)) /\
  (forall n ms w, performs ms (at_rest n c) = Some w ->
    chain (state c) (changes w) (state (conn w)) /\
    Forall (fun ch => (exists s, ch_saw ch = Some s /\ transition s (ch_put ch)) /\
                      (ch_alone ch = true -> transition (ch_found ch) (ch_put ch))) (changes w) /\
    (state (conn w) = StateActive -> changes w = []) /\
    (n = 1%nat -> rtc transition (state c) (state (conn w))) /\
    (length (changes w) <= n + n ^ 2 + n ^ 3 + n ^ 4)%nat).
Proof.
  split; [intros os; apply one_by_one_evolves|]. intros n ms w Hp.
  destruct (performs_consistent _ _ _ _ Hp) as [_ Hf Hc]. split; [done|]. split; [|split; [|split]].
  - eapply Forall_impl; [exact Hf|]. intros ch [(s & Hs & He) Ha]. split; [by exists s|].
    intros Hal. specialize (Ha Hal). rewrite Hs in Ha. by injection Ha as <-.
  - intros Hst. destruct (chain_last _ _ _ Hc) as [|(ch & Hin & Hput)]; [done|].
    rewrite Forall_forall in Hf. destruct (Hf ch Hin) as [(s & _ & He) _]. rewrite Hput, Hst in He. inversion He.
  - intros ->. eapply chain_alone; [done..|]. by eapply performs_alone.
  - apply performs_potential in Hp. destruct n as [|n]; [done|]. etrans; [exact Hp|].
    etrans; [apply Nat.mul_le_mono_l, (weight_mono _ _ 4); [lia|destruct (state c); cbn; lia]|].
    apply Nat.eq_le_incl. cbn [weight Nat.pow]. nia.
Qed.

(** ** What overtaking does *)

Definition terminate_command : Segment :=
  SegCmd {| c_Conv := 7; c_Cmd := CommandTerminate; c_Option := 0; c_SendingNext := 0; c_ReceivingNext := 0; c_PeerRTO := 0 |}.
Definition turns (i k : nat) : list move := replicate k (Turn i).
Definition terminations (es : list event) : nat :=
  length (List.filter (fun e => match e with GoTerminate => true | _ => false end) es).

(** A flush has decided to start terminating a closed connection; the
    peer's two Terminate commands arrive and terminate it; the flush takes it
    back to [StateTerminating], and the next command terminates it again:
    [Terminate] is started twice. *)
Lemma stale_flush_restarts_termination :
  let input segs := OpInput 200 (fun _ => (200, 200)) segs in
  let ms := Start 0 (OpFlush 200 (fun _ => 200)) :: turns 0 4 ++
            Start 1 (input [terminate_command; terminate_command]) :: turns 1 40 ++ turns 0 40 ++
            Start 1 (input [terminate_command]) :: turns 1 40 in
  (fun w => (ch_found <$> changes w, ch_put <$> changes w, terminations (out w))) <$> performs ms (at_rest 2 closed_connection) =
  Some ([StateReadyToClose; StateTerminating; StateTerminated; StateTerminating],
        [StateTerminating; StateTerminated; StateTerminating; StateTerminated], 2%nat).
Proof. vm_compute. reflexivity. Qed.

(** Two flushes that both found the connection closed start terminating it
    twice: the state is the same and the time it began is reset. *)
Lemma second_flush_resets_the_time :
  let flush_at t := OpFlush t (fun _ => t) in
  let ms := Start 0 (flush_at 200) :: turns 0 4 ++ Start 1 (flush_at 9000) :: turns 1 4 ++ turns 0 40 in
  (fun w => (state (conn w), stateBeginTime (conn w))) <$> performs ms (at_rest 2 closed_connection) = Some (StateTerminating, 200) /\
  (fun w => (state (conn w), stateBeginTime (conn w))) <$> performs (ms ++ turns 1 2) (at_rest 2 closed_connection) =
    Some (StateTerminating, 9000).
Proof. split; vm_compute; reflexivity. Qed.

Lemma connection_state_machine_witness :
  let flush_at t := OpFlush t (fun _ => t) in
  let ms := Start 0 (OpClose 100) :: turns 0 20 ++ Start 0 (flush_at 200) :: turns 0 40 in
  state (one_by_one [OpClose 100; flush_at 200] sample_connection) = StateTerminating /\
  rtc transition StateActive StateTerminating /\
  exists w, performs ms (at_rest 1 sample_connection) = Some w /\ (length (changes w) <= 4)%nat.
Proof.
  cbv zeta. split; [vm_compute; reflexivity|]. split.
  - refine (proj1 (proj1 (connection_state_machine sample_connection) [OpClose 100; OpFlush 200 (fun _ => 200)])).
  - match goal with |- exists w, ?p = Some w /\ _ => destruct p as [w|] eqn:E; [|vm_compute in E; discriminate] end.
    exists w. split; [reflexivity|].
    exact (proj2 (proj2 (proj2 (proj2 (proj2 (connection_state_machine sample_connection) _ _ _ E))))).
Defined.
