(* ===== verification/Lru.v ===== *)
(** * The LRU cache, [common/cache/lru.go]

    List elements are pointers shared by the list and the two maps, and
    [Put] on a known key overwrites an element in place, so elements live in
    a store of their own here, named by numbers.  Under its mutex every call
    is one step.  The abstract cache is the list of pairs in order of use. *)

From S2P Require Import Prelude.

Section Lru.
Context {K V : Type} `{Countable K} `{Countable V}.

(** [doubleLinkedlist] holds the names of the elements, front first;
    [elements] what they point to, [next] the next unused name.
    src/common/cache/lru.go lru *)
Record lru := {
  capacity : Z; doubleLinkedlist : list nat; elements : gmap nat (K * V);
  keyToElement : gmap K nat; valueToElement : gmap V nat; next : nat
}.

(** src/common/cache/lru.go NewLru *)
Definition NewLru (cap : Z) : lru :=
  {| capacity := cap; doubleLinkedlist := []; elements := ∅; keyToElement := ∅; valueToElement := ∅; next := 0 |}.

(** [list.MoveToFront] does nothing for an element that left the list. *)
Definition MoveToFront (e : nat) (l : lru) : lru :=
  {| capacity := capacity l;
     doubleLinkedlist := if decide (e ∈ doubleLinkedlist l) then e :: filter (.≠ e) (doubleLinkedlist l) else doubleLinkedlist l;
     elements := elements l; keyToElement := keyToElement l; valueToElement := valueToElement l; next := next l |}.

(** src/common/cache/lru.go lru.Get *)
Definition Get (key : K) (l : lru) : lru * option V :=
  match keyToElement l !! key with
  | Some element => let l := MoveToFront element l in (l, snd <$> elements l !! element)
  | None => (l, None)
  end.

(** src/common/cache/lru.go lru.GetKeyFromValue *)
Definition GetKeyFromValue (value : V) (l : lru) : lru * option K :=
  match valueToElement l !! value with
  | Some element => let l := MoveToFront element l in (l, fst <$> elements l !! element)
  | None => (l, None)
  end.

(** Dropping the element at the back from the list and, by what it holds now,
    from both maps.
    src/common/cache/lru.go:73-78 lru.Put *)
Definition evict (l : lru) : lru :=
  match last (doubleLinkedlist l) with
  | Some toBeRemove =>
      match elements l !! toBeRemove with
      | Some (k, v) =>
          {| capacity := capacity l; doubleLinkedlist := take (length (doubleLinkedlist l) - 1) (doubleLinkedlist l);
             elements := elements l; keyToElement := delete k (keyToElement l);
             valueToElement := delete v (valueToElement l); next := next l |}
      | None => l
      end
  | None => l
  end.

(** src/common/cache/lru.go lru.Put *)
Definition Put (key : K) (value : V) (l : lru) : lru :=
  match keyToElement l !! key with
  | Some element =>
      MoveToFront element
        {| capacity := capacity l; doubleLinkedlist := doubleLinkedlist l; elements := <[element := (key, value)]> (elements l);
           keyToElement := keyToElement l; valueToElement := valueToElement l; next := next l |}
  | None =>
      let element := next l in
      let l := {| capacity := capacity l; doubleLinkedlist := element :: doubleLinkedlist l;
                  elements := <[element := (key, value)]> (elements l);
                  keyToElement := <[key := element]> (keyToElement l);
                  valueToElement := <[value := element]> (valueToElement l); next := S element |} in
      if (capacity l <? Z.of_nat (length (doubleLinkedlist l)))%Z then evict l else l
  end.

(** ** The abstract cache *)

(** The pairs in order of use, most recent first. *)
Definition contents (l : lru) : list (K * V) := omap (elements l !!.) (doubleLinkedlist l).

Definition spec_lookup (k : K) (c : list (K * V)) : option V := snd <$> head (filter (fun p => p.1 = k) c).
Definition spec_reverse (v : V) (c : list (K * V)) : option K := fst <$> head (filter (fun p => p.2 = v) c).
Definition spec_touch (k : K) (c : list (K * V)) : list (K * V) :=
  match spec_lookup k c with Some v => (k, v) :: filter (fun p => p.1 ≠ k) c | None => c end.
Definition spec_put (cap : Z) (k : K) (v : V) (c : list (K * V)) : list (K * V) :=
  match spec_lookup k c with
  | Some _ => (k, v) :: filter (fun p => p.1 ≠ k) c
  | None => let c := (k, v) :: c in
            if (cap <? Z.of_nat (length c))%Z then take (length c - 1) c else c
  end.

(** The list has each element once, they exist, and the key map is exact. *)
Record inv (l : lru) : Prop := {
  inv_nodup : NoDup (doubleLinkedlist l);
  inv_next : forall e, is_Some (elements l !! e) -> (e < next l)%nat;
  inv_elem : forall e, e ∈ doubleLinkedlist l -> is_Some (elements l !! e);
  inv_key : forall k e, keyToElement l !! k = Some e <-> e ∈ doubleLinkedlist l /\ fst <$> elements l !! e = Some k;
}.

(** The value map is exact too: what [Put] with fresh keys and values keeps. *)
Definition value_inv (l : lru) : Prop :=
  forall v e, valueToElement l !! v = Some e <-> e ∈ doubleLinkedlist l /\ snd <$> elements l !! e = Some v.
End Lru.
Arguments lru K V {_ _ _ _}.

(** * Facts about the LRU cache

    Under the key-side invariant every call is the list operation of the
    abstract cache; the reverse lookup is exact as long as no key is put
    twice with different values. *)


Section Facts.
Context {K V : Type} `{Countable K} `{Countable V}.
Implicit Types (l : lru K V) (k : K) (v : V).

Lemma omap_filter {A B} (f : A -> option B) (P : A -> Prop) (Q : B -> Prop) `{forall x, Decision (P x)} `{forall y, Decision (Q y)} (xs : list A) :
  (forall x y, x ∈ xs -> f x = Some y -> (P x <-> Q y)) -> omap f (filter P xs) = filter Q (omap f xs).
Proof.
  induction xs as [|x xs IH]; intros Hpq; [done|]. rewrite filter_cons.
  assert (omap f (filter P xs) = filter Q (omap f xs)) as IHx by (apply IH; intros; apply Hpq; [by right|done]).
  destruct (f x) as [y|] eqn:E.
  - pose proof (Hpq x y ltac:(by left) E) as Hxy. case_decide.
    + csimpl. rewrite E, IHx. by rewrite filter_cons_True by tauto.
    + csimpl. rewrite E, IHx. by rewrite filter_cons_False by tauto.
  - case_decide; csimpl; rewrite E; done.
Qed.

Lemma filter_unique {A} (P : A -> Prop) `{forall x, Decision (P x)} (xs : list A) x :
  NoDup xs -> x ∈ xs -> (forall y, y ∈ xs -> (P y <-> y = x)) -> filter P xs = [x].
Proof.
  induction 1 as [|y xs Hy Hnd IH]; intros Hx HP; [by apply not_elem_of_nil in Hx|]. rewrite filter_cons.
  apply elem_of_cons in Hx as [->|Hx].
  - rewrite decide_True by (apply HP; [by left|done]). f_equal. apply filter_none. intros z Hz Hpz.
    assert (z = y) as -> by (apply HP; [by right|done]). done.
  - rewrite decide_False; [apply IH; [done|]; intros; apply HP; by right|].
    intros Hpy. assert (y = x) as -> by (apply HP; [by left|done]). done.
Qed.

Lemma omap_ext_in {A B} (f g : A -> option B) (xs : list A) : (forall x, x ∈ xs -> f x = g x) -> omap f xs = omap g xs.
Proof.
  induction xs as [|x xs IH]; intros Hfg; [done|]. csimpl. rewrite Hfg by left.
  rewrite IH by (intros; apply Hfg; by right). done.
Qed.

(** ** Lookups in the contents *)

Lemma elem_pair l e : inv l -> e ∈ doubleLinkedlist l -> exists k v, elements l !! e = Some (k, v) /\ keyToElement l !! k = Some e.
Proof.
  intros Hi He. destruct (inv_elem l Hi e He) as [[k v] Hkv]. exists k, v. split; [done|].
  apply (inv_key l Hi). split; [done|]. by rewrite Hkv.
Qed.

(** An entry of the key map is the only element with its key. *)
Lemma key_element l k e : inv l -> keyToElement l !! k = Some e ->
  e ∈ doubleLinkedlist l /\ (exists v, elements l !! e = Some (k, v)) /\
  (forall e' p, e' ∈ doubleLinkedlist l -> elements l !! e' = Some p -> (e' = e <-> p.1 = k)).
Proof.
  intros Hi Hk. pose proof (proj1 (inv_key l Hi k e) Hk) as [He Hfst]. split; [done|].
  destruct (inv_elem l Hi e He) as [[k' v] Hkv]. rewrite Hkv in Hfst. injection Hfst as ->.
  split; [by exists v|]. intros e' [k' v'] He' Hp. split; [intros ->; rewrite Hkv in Hp; by injection Hp as <- <-|].
  simpl. intros ->. assert (keyToElement l !! k = Some e') as Hk' by (apply (inv_key l Hi); split; [done|by rewrite Hp]). congruence.
Qed.

Lemma filter_key_contents l k e v : inv l -> keyToElement l !! k = Some e -> elements l !! e = Some (k, v) ->
  filter (fun p => p.1 = k) (contents l) = [(k, v)] /\
  omap (elements l !!.) (filter (.≠ e) (doubleLinkedlist l)) = filter (fun p => p.1 ≠ k) (contents l).
Proof.
  intros Hi Hk Hkv. destruct (key_element l k e Hi Hk) as (He & _ & Huniq). unfold contents. split.
  - rewrite <-(omap_filter (elements l !!.) (fun e' => e' = e) (fun p => p.1 = k) (doubleLinkedlist l)) by (intros; by apply Huniq).
    rewrite (filter_unique (fun e' => e' = e) _ e) by (try done; apply Hi). csimpl. by rewrite Hkv.
  - apply omap_filter. intros e' p He' Hp. by rewrite (Huniq e' p He' Hp).
Qed.

Lemma spec_lookup_contents l k : inv l ->
  spec_lookup k (contents l) = e ← keyToElement l !! k; snd <$> elements l !! e.
Proof.
  intros Hi. unfold spec_lookup. destruct (keyToElement l !! k) as [e|] eqn:Hk.
  - destruct (key_element l k e Hi Hk) as (_ & [v Hv] & _). destruct (filter_key_contents l k e v Hi Hk Hv) as [-> _].
    simpl. by rewrite Hv.
  - rewrite filter_none; [done|]. intros [k' v] Hin Heq. simpl in Heq. subst k'. unfold contents in Hin.
    apply list_elem_of_omap in Hin as (e & He & Hkv). assert (keyToElement l !! k = Some e); [|congruence].
    apply (inv_key l Hi). split; [done|]. by rewrite Hkv.
Qed.

(** ** Moving to the front *)

Lemma elem_MoveToFront e e' l : e' ∈ doubleLinkedlist (MoveToFront e l) <-> e' ∈ doubleLinkedlist l.
Proof.
  unfold MoveToFront. cbn. case_decide as He; [|done]. rewrite elem_of_cons, list_elem_of_filter.
  split; [by intros [->|[_ ?]]|]. intros Hin. destruct (decide (e' = e)); auto.
Qed.

Lemma inv_MoveToFront e l : inv l -> inv (MoveToFront e l).
Proof.
  intros [I1 I2 I3 I4]. split; try done.
  - unfold MoveToFront. cbn. case_decide; [|done]. constructor; [|by apply NoDup_filter].
    by intros [? _]%list_elem_of_filter.
  - intros e'. rewrite elem_MoveToFront. apply I3.
  - intros k e'. rewrite elem_MoveToFront. apply I4.
Qed.

Lemma value_inv_MoveToFront e l : value_inv l -> value_inv (MoveToFront e l).
Proof. intros Hv v e'. rewrite elem_MoveToFront. apply Hv. Qed.

Lemma contents_MoveToFront e k v l : inv l -> keyToElement l !! k = Some e -> elements l !! e = Some (k, v) ->
  contents (MoveToFront e l) = (k, v) :: filter (fun p => p.1 ≠ k) (contents l).
Proof.
  intros Hi Hk Hv. destruct (filter_key_contents l k e v Hi Hk Hv) as [_ <-].
  destruct (key_element l k e Hi Hk) as (He & _ & _). unfold MoveToFront, contents. cbn. rewrite decide_True by done.
  csimpl. by rewrite Hv.
Qed.

Lemma Get_spec k l : inv l -> inv (Get k l).1 /\ (Get k l).2 = spec_lookup k (contents l) /\
  contents (Get k l).1 = spec_touch k (contents l) /\ capacity (Get k l).1 = capacity l.
Proof.
  intros Hi. unfold spec_touch. rewrite spec_lookup_contents by done. unfold Get.
  destruct (keyToElement l !! k) as [e|] eqn:Hk; [|done].
  destruct (key_element l k e Hi Hk) as (_ & [v Hv] & _). cbn. split; [by apply inv_MoveToFront|]. rewrite Hv. cbn.
  split; [done|]. split; [by apply contents_MoveToFront|done].
Qed.

(** ** Putting *)

Lemma length_contents l : inv l -> length (contents l) = length (doubleLinkedlist l).
Proof.
  intros Hi. unfold contents. assert (forall e, e ∈ doubleLinkedlist l -> is_Some (elements l !! e)) as Hall by apply Hi.
  induction (doubleLinkedlist l) as [|e es IH]; [done|]. destruct (Hall e ltac:(by left)) as [p Hp]. csimpl. rewrite Hp.
  csimpl. rewrite IH; [done|]. intros. apply Hall. by right.
Qed.

(** Dropping the last element drops the last pair. *)
Lemma evict_spec l : inv l -> inv (evict l) /\ contents (evict l) = take (length (contents l) - 1) (contents l) /\
  capacity (evict l) = capacity l /\ (value_inv l -> value_inv (evict l)).
Proof.
  intros Hi. unfold evict. destruct (last (doubleLinkedlist l)) as [e|] eqn:Hlast.
  2:{ apply last_None in Hlast. unfold contents. rewrite Hlast. done. }
  apply last_Some in Hlast as [es Hes]. destruct (elem_pair l e Hi) as (k & v & Hkv & Hk); [rewrite Hes; apply elem_of_app; right; by left|].
  rewrite Hkv, length_contents by done. pose proof Hi as [I1 I2 I3 I4].
  assert (take (length (doubleLinkedlist l) - 1) (doubleLinkedlist l) = es) as Htake.
  { rewrite Hes, length_snoc. replace (S (length es) - 1)%nat with (length es) by lia. apply take_app_length. }
  assert (forall e', e' ∈ es <-> e' ∈ doubleLinkedlist l /\ e' ≠ e) as Hin.
  { rewrite Hes in *. apply NoDup_app in I1 as (_ & Hd & _). intros e'. rewrite elem_of_app, list_elem_of_singleton. split.
    - intros He'. split; [by left|]. intros ->. apply (Hd e He'). by left.
    - intros [[?|?] ?]; done. }
  destruct (key_element l k e Hi Hk) as (_ & _ & Huniq). split; [|split; [|split; [done|]]].
  - split; cbn; rewrite ?Htake; try done.
    + rewrite Hes in I1. by apply NoDup_app in I1 as (? & _ & _).
    + intros e' [? _]%Hin. by apply I3.
    + intros k' e'. rewrite lookup_delete_Some, I4, Hin. split.
      * intros (Hne & He' & Hk'). split; [|done]. split; [done|]. intros ->. rewrite Hkv in Hk'. by injection Hk'.
      * intros ((He' & Hne) & Hk'). split; [|done]. intros <-. apply Hne. destruct (elements l !! e') as [p|] eqn:Hp; [|done].
        apply (Huniq e' p He' Hp). by injection Hk'.
  - unfold contents at 1. cbn. rewrite Htake. unfold contents. rewrite Hes, omap_app. csimpl. rewrite Hkv, length_snoc.
    replace (S (length es) - 1)%nat with (length (omap (elements l !!.) es)); [by rewrite take_app_length|].
    pose proof (length_contents l Hi) as Hlen. unfold contents in Hlen. rewrite Hes, omap_app, length_app, length_snoc in Hlen. csimpl in Hlen.
    rewrite Hkv in Hlen. simpl in Hlen. lia.
  - intros Hval v' e'. cbn. rewrite Htake, lookup_delete_Some, (Hval v' e'), Hin. split.
    * intros (Hne & He' & Hv'). split; [|done]. split; [done|]. intros ->. rewrite Hkv in Hv'. by injection Hv'.
    * intros ((He' & Hne) & Hv'). split; [|done]. intros <-. apply Hne.
      assert (valueToElement l !! v = Some e') as H1 by (apply Hval; done).
      assert (valueToElement l !! v = Some e) as H2; [|congruence]. apply Hval. split; [rewrite Hes; apply elem_of_app; right; by left|by rewrite Hkv].
Qed.

(** The cache with a new pair at the front, before the capacity check. *)
Definition push_front (k : K) (v : V) (l : lru K V) : lru K V :=
  {| capacity := capacity l; doubleLinkedlist := next l :: doubleLinkedlist l; elements := <[next l := (k, v)]> (elements l);
     keyToElement := <[k := next l]> (keyToElement l); valueToElement := <[v := next l]> (valueToElement l); next := S (next l) |}.

Lemma push_front_spec k v l : inv l -> keyToElement l !! k = None ->
  inv (push_front k v l) /\ contents (push_front k v l) = (k, v) :: contents l /\
  (value_inv l -> valueToElement l !! v = None -> value_inv (push_front k v l)).
Proof.
  intros Hi Hk. pose proof Hi as [I1 I2 I3 I4].
  assert (forall e, e ∈ doubleLinkedlist l -> e ≠ next l) as Hfresh by (intros e He%I3%I2; lia).
  split; [|split].
  - split; cbn.
    + constructor; [|done]. intros He. by apply Hfresh in He.
    + intros e [p Hp]. destruct (decide (e = next l)) as [->|]; [lia|]. rewrite lookup_insert_ne in Hp by done.
      assert (e < next l)%nat by (apply I2; by exists p). lia.
    + intros e. destruct (decide (e = next l)) as [->|]; [rewrite lookup_insert_eq; eauto|]. rewrite lookup_insert_ne by done.
      intros [?|?]%elem_of_cons; [done|by apply I3].
    + intros k' e. rewrite elem_of_cons. destruct (decide (e = next l)) as [->|Hne].
      * rewrite lookup_insert_eq. cbn. destruct (decide (k' = k)) as [->|Hkk]; [rewrite lookup_insert_eq; naive_solver|].
        rewrite lookup_insert_ne by done. split; [intros [Hc _]%I4; by apply Hfresh in Hc|intros [_ [= ?]]; congruence].
      * rewrite (lookup_insert_ne (elements l)) by done. destruct (decide (k' = k)) as [->|Hkk].
        -- rewrite lookup_insert_eq. split; [intros [= ?]; congruence|]. intros [[?|He] Hf]; [done|].
           assert (keyToElement l !! k = Some e) by by apply I4. congruence.
        -- rewrite lookup_insert_ne, I4 by done. naive_solver.
  - unfold contents. cbn. csimpl. rewrite lookup_insert_eq. f_equal. apply omap_ext_in. intros e He.
    apply lookup_insert_ne. intros Heq. by apply (Hfresh e He).
  - intros Hval Hv v' e. cbn. rewrite elem_of_cons. destruct (decide (e = next l)) as [->|Hne].
    + rewrite lookup_insert_eq. cbn. destruct (decide (v' = v)) as [->|Hvv]; [rewrite lookup_insert_eq; naive_solver|].
      rewrite lookup_insert_ne by done. split; [intros [Hc _]%Hval; by apply Hfresh in Hc|intros [_ [= ?]]; congruence].
    + rewrite (lookup_insert_ne (elements l)) by done. destruct (decide (v' = v)) as [->|Hvv].
      * rewrite lookup_insert_eq. split; [intros [= ?]; congruence|]. intros [[?|He] Hf]; [done|].
        assert (valueToElement l !! v = Some e) by by apply Hval. congruence.
      * rewrite lookup_insert_ne, (Hval v' e) by done. naive_solver.
Qed.

(** Overwriting the value of a known key, in place. *)
Definition overwrite (e : nat) (k : K) (v : V) (l : lru K V) : lru K V :=
  {| capacity := capacity l; doubleLinkedlist := doubleLinkedlist l; elements := <[e := (k, v)]> (elements l);
     keyToElement := keyToElement l; valueToElement := valueToElement l; next := next l |}.

Lemma overwrite_spec e k v l : inv l -> keyToElement l !! k = Some e ->
  inv (overwrite e k v l) /\ filter (fun p => p.1 ≠ k) (contents (overwrite e k v l)) = filter (fun p => p.1 ≠ k) (contents l).
Proof.
  intros Hi Hk. destruct (key_element l k e Hi Hk) as (He & [v0 Hv0] & Huniq). pose proof Hi as [I1 I2 I3 I4].
  assert (inv (overwrite e k v l)) as Hi'.
  { split; cbn; try done.
    - intros e' [p Hp]. destruct (decide (e' = e)) as [->|]; [by apply I2; eexists|]. apply I2. rewrite lookup_insert_ne in Hp by done. by exists p.
    - intros e' He'. destruct (decide (e' = e)) as [->|]; [rewrite lookup_insert_eq; eauto|]. rewrite lookup_insert_ne by done. by apply I3.
    - intros k' e'. rewrite I4. destruct (decide (e' = e)) as [->|]; [by rewrite lookup_insert_eq, Hv0|]. by rewrite lookup_insert_ne. }
  split; [done|]. destruct (filter_key_contents l k e v0 Hi Hk Hv0) as [_ <-].
  destruct (filter_key_contents (overwrite e k v l) k e v Hi' Hk) as [_ <-]; [cbn; by rewrite lookup_insert_eq|].
  apply omap_ext_in. intros e' [Hne _]%list_elem_of_filter. cbn. by rewrite lookup_insert_ne.
Qed.

Lemma Put_spec k v l : inv l -> inv (Put k v l) /\ contents (Put k v l) = spec_put (capacity l) k v (contents l) /\
  capacity (Put k v l) = capacity l.
Proof.
  intros Hi. unfold spec_put. rewrite spec_lookup_contents by done. unfold Put. destruct (keyToElement l !! k) as [e|] eqn:Hk; cbn [mbind option_bind].
  - destruct (key_element l k e Hi Hk) as (_ & [v0 Hv0] & _). rewrite Hv0. cbn [fmap option_fmap option_map snd].
    fold (overwrite e k v l). destruct (overwrite_spec e k v l Hi Hk) as [Hi' Hf]. split; [by apply inv_MoveToFront|]. split; [|done].
    rewrite (contents_MoveToFront e k v); [by rewrite Hf|done|done|cbn; by rewrite lookup_insert_eq].
  - cbv zeta. fold (push_front k v l). destruct (push_front_spec k v l Hi Hk) as (Hi' & Hc & _).
    rewrite <-(length_contents (push_front k v l) Hi'), Hc. change (capacity (push_front k v l)) with (capacity l).
    destruct (Z.ltb_spec (capacity l) (Z.of_nat (length ((k, v) :: contents l)))); [|done].
    destruct (evict_spec _ Hi') as (Hi2 & Hc2 & Hcap & _). split; [done|]. split; [|done]. by rewrite Hc2, Hc.
Qed.

Lemma Put_fresh_value_inv k v l : inv l -> value_inv l -> keyToElement l !! k = None -> valueToElement l !! v = None ->
  value_inv (Put k v l).
Proof.
  intros Hi Hval Hk Hv. unfold Put. rewrite Hk. cbn. fold (push_front k v l).
  destruct (push_front_spec k v l Hi Hk) as (Hi' & _ & Hval'). destruct (Z.ltb_spec (capacity l) (Z.of_nat (S (length (doubleLinkedlist l))))); [|by apply Hval'].
  by apply evict_spec; [|apply Hval'].
Qed.

Lemma GetKeyFromValue_spec v l : inv l -> value_inv l ->
  inv (GetKeyFromValue v l).1 /\ value_inv (GetKeyFromValue v l).1 /\ capacity (GetKeyFromValue v l).1 = capacity l /\
  match (GetKeyFromValue v l).2 with
  | Some k => (k, v) ∈ contents l /\ contents (GetKeyFromValue v l).1 = spec_touch k (contents l)
  | None => (forall k, (k, v) ∉ contents l) /\ (GetKeyFromValue v l).1 = l
  end.
Proof.
  intros Hi Hval. unfold GetKeyFromValue. destruct (valueToElement l !! v) as [e|] eqn:Hv; cbv zeta; cbn [fst snd].
  - pose proof (proj1 (Hval v e) Hv) as [He Hsnd]. destruct (elem_pair l e Hi He) as (k & v' & Hkv & Hk).
    rewrite Hkv in Hsnd. injection Hsnd as ->. split; [by apply inv_MoveToFront|]. split; [by apply value_inv_MoveToFront|]. split; [done|].
    change (elements (MoveToFront e l)) with (elements l). rewrite Hkv. cbn [fmap option_fmap option_map fst]. split; [apply list_elem_of_omap; eauto|]. rewrite (contents_MoveToFront e k v) by done.
    unfold spec_touch. rewrite spec_lookup_contents, Hk by done. cbn. by rewrite Hkv.
  - split; [done|]. split; [done|]. split; [done|]. split; [|done]. intros k (e & He & Hkv)%list_elem_of_omap.
    assert (valueToElement l !! v = Some e); [|congruence]. apply Hval. split; [done|]. by rewrite Hkv.
Qed.

Lemma lru_inv_New cap : inv (@NewLru K V _ _ _ _ cap) /\ value_inv (@NewLru K V _ _ _ _ cap).
Proof.
  split; [split|]; cbn; try done.
  - constructor.
  - by intros e [? ?].
  - by intros e ?%not_elem_of_nil.
  - intros k e. split; [done|]. by intros [?%not_elem_of_nil _].
  - intros v e. cbn. split; [done|]. by intros [?%not_elem_of_nil _].
Qed.
End Facts.

(** ** The contents as a set of pairs *)

Section Pairs.
Context {K V : Type} `{Countable K} `{Countable V}.
Implicit Types (k : K) (v : V) (l : lru K V).

Lemma contents_MoveToFront_perm e l : inv l -> contents (MoveToFront e l) ≡ₚ contents l.
Proof.
  intros Hi. unfold contents, MoveToFront. cbn. case_decide as He; [|done]. apply omap_Permutation.
  apply NoDup_Permutation.
  - constructor; [by intros [? _]%list_elem_of_filter|apply NoDup_filter, Hi].
  - apply Hi.
  - intros x. rewrite elem_of_cons, list_elem_of_filter. destruct (decide (x = e)) as [->|]; naive_solver.
Qed.

Lemma Get_contents_perm k l : inv l -> contents (Get k l).1 ≡ₚ contents l.
Proof. intros Hi. unfold Get. destruct (keyToElement l !! k); [by apply contents_MoveToFront_perm|done]. Qed.

Lemma GetKeyFromValue_contents_perm v l : inv l -> contents (GetKeyFromValue v l).1 ≡ₚ contents l.
Proof. intros Hi. unfold GetKeyFromValue. destruct (valueToElement l !! v); [by apply contents_MoveToFront_perm|done]. Qed.

Lemma Get_value_inv k l : value_inv l -> value_inv (Get k l).1.
Proof. intros Hv. unfold Get. destruct (keyToElement l !! k); [by apply value_inv_MoveToFront|done]. Qed.

Lemma elem_contents k v l : inv l -> (k, v) ∈ contents l <-> exists e, keyToElement l !! k = Some e /\ elements l !! e = Some (k, v).
Proof.
  intros Hi. unfold contents. rewrite list_elem_of_omap. split.
  - intros (e & He & Hv). exists e. split; [|done]. apply Hi. by rewrite Hv.
  - intros (e & Hk & Hv). exists e. split; [|done]. by apply Hi in Hk as [? _].
Qed.

Lemma value_unique k k' v l : inv l -> value_inv l -> (k, v) ∈ contents l -> (k', v) ∈ contents l -> k = k'.
Proof.
  intros Hi Hval Hk Hk'. unfold contents in *. rewrite list_elem_of_omap in Hk, Hk'. destruct Hk as (e & He & Hv), Hk' as (e' & He' & Hv').
  assert (valueToElement l !! v = Some e) as E1 by (apply Hval; by rewrite Hv).
  assert (valueToElement l !! v = Some e') as E2 by (apply Hval; by rewrite Hv'). congruence.
Qed.

Lemma key_unique k v v' l : inv l -> (k, v) ∈ contents l -> (k, v') ∈ contents l -> v = v'.
Proof. intros Hi (e & Hk & Hv)%elem_contents (e' & Hk' & Hv')%elem_contents; [congruence|done..]. Qed.

Lemma Get_result k l : inv l -> match (Get k l).2 with
  | Some v => (k, v) ∈ contents l
  | None => keyToElement l !! k = None
  end.
Proof.
  intros Hi. unfold Get. destruct (keyToElement l !! k) as [e|] eqn:Hk; [|done]. cbn [fst snd].
  change (elements (MoveToFront e l)) with (elements l). destruct (key_element l k e Hi Hk) as (_ & [v Hv] & _).
  rewrite Hv. apply elem_contents; eauto.
Qed.

Lemma value_absent v l : inv l -> value_inv l -> (forall k, (k, v) ∉ contents l) -> valueToElement l !! v = None.
Proof.
  intros Hi Hval Hno. pose proof (GetKeyFromValue_spec v l Hi Hval) as (_ & _ & _ & Hr). unfold GetKeyFromValue in Hr.
  destruct (valueToElement l !! v) as [e|] eqn:E; [|done]. cbn [fst snd] in Hr. apply Hval in E as [He Hsnd].
  destruct (elem_pair l e Hi He) as (k & v' & Hkv & Hk). rewrite Hkv in Hsnd. injection Hsnd as ->.
  exfalso. apply (Hno k), elem_contents; eauto.
Qed.

(** A new pair is held as long as the capacity is not 0. *)
Lemma Put_fresh_contents k v l : inv l -> keyToElement l !! k = None -> (1 <= capacity l)%Z ->
  exists n, contents (Put k v l) = (k, v) :: take n (contents l).
Proof.
  intros Hi Hk Hc. destruct (Put_spec k v l Hi) as (_ & -> & _). unfold spec_put. rewrite spec_lookup_contents, Hk by done. cbn [mbind option_bind].
  cbv zeta. destruct (Z.ltb_spec (capacity l) (Z.of_nat (length ((k, v) :: contents l)))); cbn [length] in *.
  - destruct (contents l) as [|p c]; [cbn in *; lia|]. exists (length c). cbn [length take]. by rewrite Nat.sub_succ, Nat.sub_0_r.
  - exists (length (contents l)). by rewrite take_ge.
Qed.
End Pairs.

(** ** Runs of calls *)

Section Runs.
Context {K V : Type} `{Countable K} `{Countable V}.

Inductive lru_call := CallGet (k : K) | CallPut (k : K) (v : V).

Fixpoint run_calls (calls : list lru_call) (l : lru K V) : lru K V * list (option V) :=
  match calls with
  | [] => (l, [])
  | CallGet k :: calls' => let '(l1, r) := Get k l in let '(l2, rs) := run_calls calls' l1 in (l2, r :: rs)
  | CallPut k v :: calls' => run_calls calls' (Put k v l)
  end.

(** The same calls on the list of pairs. *)
Fixpoint run_spec (cap : Z) (calls : list lru_call) (c : list (K * V)) : list (K * V) * list (option V) :=
  match calls with
  | [] => (c, [])
  | CallGet k :: calls' => let '(c', rs) := run_spec cap calls' (spec_touch k c) in (c', spec_lookup k c :: rs)
  | CallPut k v :: calls' => run_spec cap calls' (spec_put cap k v c)
  end.

Lemma run_calls_spec calls l : inv l ->
  inv (run_calls calls l).1 /\
  (contents (run_calls calls l).1, (run_calls calls l).2) = run_spec (capacity l) calls (contents l).
Proof.
  revert l. induction calls as [|[k|k v] calls IH]; intros l Hi; cbn [run_calls run_spec]; [done|..].
  - destruct (Get_spec k l Hi) as (Hi' & Hr & Hc & Hcap). destruct (Get k l) as [l1 r]. cbn [fst snd] in *.
    destruct (IH l1 Hi') as [Hi2 Hrun]. rewrite Hcap, Hc in Hrun. rewrite <-Hrun. destruct (run_calls calls l1). cbn in *. by rewrite Hr.
  - destruct (Put_spec k v l Hi) as (Hi' & Hc & Hcap). destruct (IH (Put k v l) Hi') as [Hi2 Hrun]. by rewrite Hcap, Hc in Hrun.
Qed.

Lemma spec_put_length cap k v (c : list (K * V)) :
  (Z.of_nat (length c) <= Z.max 0 cap)%Z -> (Z.of_nat (length (spec_put cap k v c)) <= Z.max 0 cap)%Z.
Proof.
  intros Hl. unfold spec_put. destruct (spec_lookup k c) as [v'|] eqn:E.
  - unfold spec_lookup in E. cbn. destruct (filter (fun p => p.1 = k) c) as [|p ps] eqn:Ef; [done|].
    assert (p ∈ c /\ p.1 = k) as [Hp Hk].
    { assert (p ∈ filter (fun p => p.1 = k) c) as [??]%list_elem_of_filter; [rewrite Ef; by left|done]. }
    pose proof (length_filter_lt (fun p => p.1 ≠ k) c p Hp) as Hlt. specialize (Hlt ltac:(tauto)). lia.
  - cbn. destruct (Z.ltb_spec cap (Z.of_nat (S (length c)))); [|cbn; lia]. rewrite length_take. cbn. lia.
Qed.

Lemma spec_touch_length k (c : list (K * V)) : length (spec_touch k c) <= length c.
Proof.
  unfold spec_touch. destruct (spec_lookup k c) as [v'|] eqn:E; [|done]. unfold spec_lookup in E.
  destruct (filter (fun p => p.1 = k) c) as [|p ps] eqn:Ef; [done|].
  assert (p ∈ c /\ p.1 = k) as [Hp Hk].
  { assert (p ∈ filter (fun p => p.1 = k) c) as [??]%list_elem_of_filter; [rewrite Ef; by left|done]. }
  pose proof (length_filter_lt (fun p => p.1 ≠ k) c p Hp ltac:(tauto)). cbn. lia.
Qed.

Lemma run_spec_length cap calls (c : list (K * V)) :
  (Z.of_nat (length c) <= Z.max 0 cap)%Z -> (Z.of_nat (length (run_spec cap calls c).1) <= Z.max 0 cap)%Z.
Proof.
  revert c. induction calls as [|[k|k v] calls IH]; intros c Hl; cbn [run_spec]; [done|..].
  - assert (Z.of_nat (length (spec_touch k c)) <= Z.max 0 cap)%Z as Ht by (pose proof (spec_touch_length k c); lia).
    specialize (IH _ Ht). by destruct (run_spec cap calls (spec_touch k c)).
  - by apply IH, spec_put_length.
Qed.

(** ** Properties *)

(** C32: the pointer structure of list and key map is a list of pairs in order
    of use: every sequence of Get and Put calls on a new cache returns what
    the list returns, leaves the same pairs in the same order, and never
    holds more than the capacity. *)
Theorem lru_refines_list cap calls :
  let '(l, rs) := run_calls calls (NewLru cap) in
  (contents l, rs) = run_spec cap calls [] /\ (Z.of_nat (length (contents l)) <= Z.max 0 cap)%Z.
Proof.
  destruct (run_calls_spec calls (NewLru cap) (proj1 (lru_inv_New cap))) as [_ Hr].
  pose proof (run_spec_length cap calls [] ltac:(cbn; lia)) as Hl.
  destruct (run_calls calls (NewLru cap)) as [l rs]. cbn [fst snd] in Hr. change (contents (NewLru cap)) with (@nil (K * V)) in Hr.
  change (capacity (NewLru cap)) with cap in Hr. rewrite <-Hr in Hl. done.
Qed.

(** Putting a new value under a known key leaves the reverse lookup
    stale: the old value still leads to the key and the new one to nothing,
    although the key now holds the new value. *)
Theorem lru_overwrite_leaves_stale_reverse (l : lru K V) k v1 v2 :
  inv l -> value_inv l -> (Get k l).2 = Some v1 -> (forall k', (k', v2) ∉ contents l) ->
  (GetKeyFromValue v1 (Put k v2 l)).2 = Some k /\ (GetKeyFromValue v2 (Put k v2 l)).2 = None /\
  (Get k (Put k v2 l)).2 = Some v2.
Proof.
  intros Hi Hval Hg Hno. unfold Get in Hg. destruct (keyToElement l !! k) as [e|] eqn:Hk; [|done]. cbn [snd] in Hg.
  change (elements (MoveToFront e l)) with (elements l) in Hg.
  destruct (key_element l k e Hi Hk) as (He & [v Hv] & _). rewrite Hv in Hg. injection Hg as ->.
  assert (valueToElement l !! v1 = Some e) as Hv1 by (apply Hval; split; [done|by rewrite Hv]).
  assert (valueToElement l !! v2 = None) as Hv2.
  { destruct (valueToElement l !! v2) as [e'|] eqn:E; [|done]. apply Hval in E as [He' Hsnd].
    destruct (elements l !! e') as [[k' v']|] eqn:Ekv; [|done]. injection Hsnd as ->. exfalso. apply (Hno k').
    unfold contents. apply list_elem_of_omap. eauto. }
  unfold Put. rewrite Hk. unfold GetKeyFromValue, Get. cbn. rewrite Hv1, Hv2, Hk. cbn. by rewrite lookup_insert_eq.
Qed.
End Runs.
Arguments lru_call K V : clear implicits.

Definition sample_lru : lru Z Z := Put 1%Z 10%Z (NewLru 4).

Lemma lru_overwrite_leaves_stale_reverse_witness :
  (GetKeyFromValue 10%Z (Put 1%Z 20%Z sample_lru)).2 = Some 1%Z /\ (GetKeyFromValue 20%Z (Put 1%Z 20%Z sample_lru)).2 = None.
Proof.
  destruct (lru_overwrite_leaves_stale_reverse sample_lru 1%Z 10%Z 20%Z) as (H1 & H2 & _).
  - apply Put_spec, lru_inv_New.
  - apply Put_fresh_value_inv; [apply lru_inv_New|apply lru_inv_New|reflexivity|reflexivity].
  - reflexivity.
  - intros k' Hin. change (contents sample_lru) with [(1%Z, 10%Z)] in Hin. apply list_elem_of_singleton in Hin. discriminate Hin.
  - split; [exact H1|exact H2].
Defined.
