(* ===== verification/NetFacts.v ===== *)
(** * Facts about networks and addresses

    Masking is integer division: an address belongs to a network [ParseCIDR]
    returns when its number is in the block of [2^rooms] numbers that starts
    at the network's. *)

From S2P Require Import Prelude Net.

Local Open Scope Z_scope.

(** ** Masks *)

Lemma land_byte_bits a b x y :
  Z.land (Z.lor (Z.shiftl a 8) (byte_to_Z x)) (Z.lor (Z.shiftl b 8) (byte_to_Z y)) =
  Z.lor (Z.shiftl (Z.land a b) 8) (Z.land (byte_to_Z x) (byte_to_Z y)).
Proof.
  apply Z.bits_inj'. intros n Hn. rewrite !Z.land_spec, !Z.lor_spec, !Z.shiftl_spec, !Z.land_spec by lia.
  destruct (decide (n < 8)).
  - rewrite (Z.testbit_neg_r a), (Z.testbit_neg_r b) by lia. done.
  - assert (forall z, Z.testbit (byte_to_Z z) n = false) as Hb.
    { intros z. pose proof (byte_to_Z_range z). rewrite <-(Z.mod_small (byte_to_Z z) (2 ^ 8)) by lia.
      apply Z.mod_pow2_bits_high. lia. }
    by rewrite !Hb, !orb_false_r.
Qed.

Lemma length_land_bytes a b : length a = length b -> length (land_bytes a b) = length a.
Proof. intros. unfold land_bytes. rewrite length_zip_with. lia. Qed.

Lemma land_bytes_combine a b : length a = length b ->
  be_combine (land_bytes a b) = Z.land (be_combine a) (be_combine b).
Proof.
  revert b. induction a as [|x a IH] using rev_ind; intros b Hl.
  - by destruct b.
  - destruct b as [|y b _] using rev_ind; [rewrite length_snoc in Hl; done|].
    rewrite !length_snoc in Hl. unfold land_bytes. rewrite zip_with_app by lia. cbn [zip_with].
    rewrite !be_combine_snoc, land_byte_bits. change (zip_with _ a b) with (land_bytes a b).
    rewrite IH by lia. f_equal. rewrite byte_to_of_Z. unfold u8.
    rewrite <-Z.land_ones by lia. rewrite <-(Z.mod_small (byte_to_Z x) (2 ^ 8)) by apply byte_to_Z_range.
    rewrite <-Z.land_ones by lia. by rewrite <-!Z.land_assoc, (Z.land_comm _ (Z.ones 8)), (Z.land_assoc (Z.ones 8)), Z.land_diag.
Qed.

(** The mask of [bits - r] ones clears the low [r] bits. *)
Lemma land_high_mask c bits r : 0 <= r <= bits -> 0 <= c < 2 ^ bits ->
  Z.land c (2 ^ bits - 2 ^ r) = c - c mod 2 ^ r.
Proof.
  intros Hr Hc.
  assert (2 ^ bits - 2 ^ r = Z.shiftl (Z.ones (bits - r)) r) as ->.
  { rewrite Z.shiftl_mul_pow2, Z.ones_equiv by lia. replace (2 ^ bits) with (2 ^ (bits - r) * 2 ^ r); [lia|].
    rewrite <-Z.pow_add_r by lia. f_equal. lia. }
  assert (0 < 2 ^ r) by (apply Z.pow_pos_nonneg; lia).
  transitivity (Z.shiftl (Z.land (Z.shiftr c r) (Z.ones (bits - r))) r).
  { apply Z.bits_inj'. intros n Hn. rewrite Z.land_spec, !Z.shiftl_spec by lia.
    destruct (decide (n < r)).
    - by rewrite !(Z.testbit_neg_r _ (n - r)), andb_false_r by lia.
    - rewrite Z.land_spec, Z.shiftr_spec by lia. do 2 f_equal. lia. }
  rewrite Z.land_ones, Z.shiftl_mul_pow2, Z.shiftr_div_pow2 by lia.
  rewrite (Z.mod_small (c / 2 ^ r)).
  - pose proof (Z.div_mod c (2 ^ r) ltac:(lia)). lia.
  - split; [apply Z.div_pos; lia|]. apply Z.div_lt_upper_bound; [lia|].
    rewrite <-Z.pow_add_r by lia. replace (r + (bits - r)) with bits by lia. lia.
Qed.

Lemma pow_256 n : 256 ^ Z.of_nat n = 2 ^ (8 * Z.of_nat n).
Proof. rewrite Z.pow_mul_r by lia. done. Qed.

Lemma be_combine_split_small n z : 0 <= z < 256 ^ Z.of_nat n -> be_combine (be_split n z) = z.
Proof. intros. rewrite be_combine_split. by apply Z.mod_small. Qed.

Lemma length_CIDRMask ones L : length (CIDRMask ones (8 * Z.of_nat L)) = L.
Proof. unfold CIDRMask. rewrite length_be_split. rewrite Z.mul_comm, Z.div_mul by lia. lia. Qed.

Lemma CIDRMask_combine ones L : 0 <= ones <= 8 * Z.of_nat L ->
  be_combine (CIDRMask ones (8 * Z.of_nat L)) = 2 ^ (8 * Z.of_nat L) - 2 ^ (8 * Z.of_nat L - ones).
Proof.
  intros Ho. unfold CIDRMask. rewrite Z.mul_comm, Z.div_mul, Nat2Z.id by lia. rewrite (Z.mul_comm _ 8).
  destruct (decide (ones = 0)) as [->|].
  - rewrite Z.sub_0_r, Z.sub_diag. rewrite be_combine_split. by rewrite Z.mod_0_l by (apply Z.pow_nonzero; lia).
  - apply be_combine_split_small. rewrite pow_256.
    assert (2 ^ (8 * Z.of_nat L - ones) <= 2 ^ (8 * Z.of_nat L)) by (apply Z.pow_le_mono_r; lia).
    assert (0 < 2 ^ (8 * Z.of_nat L - ones)) by (apply Z.pow_pos_nonneg; lia). lia.
Qed.

(** [Size] finds the ones again: all masks of both families, by evaluation. *)
Lemma Mask_Size_CIDRMask ones L : L = 4%nat \/ L = 16%nat -> 0 <= ones <= 8 * Z.of_nat L ->
  Mask_Size (CIDRMask ones (8 * Z.of_nat L)) = (ones, 8 * Z.of_nat L).
Proof.
  intros HL Ho.
  assert (forall L, forallb (fun k => bool_decide (Mask_Size (CIDRMask (Z.of_nat k) (8 * Z.of_nat L)) = (Z.of_nat k, 8 * Z.of_nat L))) (seq 0 (8 * L + 1)) = true ->
    forall k, (k <= 8 * L)%nat -> Mask_Size (CIDRMask (Z.of_nat k) (8 * Z.of_nat L)) = (Z.of_nat k, 8 * Z.of_nat L)) as Hall.
  { intros L' Hf k Hk. rewrite forallb_forall in Hf. eapply bool_decide_eq_true_1, Hf, in_seq; lia. }
  replace ones with (Z.of_nat (Z.to_nat ones)) by lia.
  destruct HL as [-> | ->]; apply Hall; try lia; vm_compute; reflexivity.
Qed.

(** ** What the parsers return *)

Lemma parse_v4_length s a : parse_v4 s = Some a -> length a = 4%nat.
Proof.
  assert (forall s first dot val n acc fs, (length acc <= 3)%nat ->
    parse_v4_fields s first dot val n acc = Some fs -> length fs = 4%nat) as H.
  { clear. induction s as [|c s IH]; intros first dot val n acc fs Hacc; cbn [parse_v4_fields].
    - destruct (Nat.ltb_spec (length acc) 3); [done|]. intros [= <-]. rewrite ?length_app, length_rev. cbn. lia.
    - destruct (is_digit c).
      + destruct (_ && _); [done|]. cbv zeta. case_match; [done|]. by apply IH.
      + destruct (byte_to_Z c =? 46); [|done]. destruct (_ || _); [done|].
        destruct (Nat.eqb_spec (length acc) 3); [done|]. apply IH. cbn. lia. }
  unfold parse_v4. destruct (parse_v4_fields s true false 0 0 []) as [fs|] eqn:E; [|done].
  cbn. intros [= <-]. rewrite length_map. eapply H, E. cbn. lia.
Qed.

Lemma parse_v6_groups_length fuel s ip e ip' e' rest : (length ip + 2 * fuel <= 16)%nat ->
  parse_v6_groups fuel s ip e = Some (ip', e', rest) -> (length ip' <= 16)%nat.
Proof.
  revert s ip e. induction fuel as [|fuel IH]; intros s ip e Hl; cbn [parse_v6_groups].
  - intros [= <- <- <-]. lia.
  - assert (forall acc, (length (ip ++ put16 acc) + 2 * fuel <= 16)%nat) as Hl'.
    { intros acc. rewrite length_app. unfold put16. rewrite length_be_split. lia. }
    assert (forall acc, (length (ip ++ put16 acc) <= 16)%nat) as Hl2 by (intros acc; specialize (Hl' acc); lia).
    destruct (hex_group s 0 0) as [[[[|o] acc] r]|]; [done| |done].
    destruct r as [|c r]; [intros [= <- <- <-]; apply Hl2|].
    destruct (byte_to_Z c =? 46).
    + destruct (match e with None => _ | Some _ => _ end); [done|]. destruct (Nat.ltb_spec 16 (length ip + 4)); [done|].
      destruct (parse_v4 s) as [v4|] eqn:E4; [|done]. cbn. intros [= <- <- <-].
      rewrite length_app, (parse_v4_length _ _ E4). lia.
    + destruct (byte_to_Z c =? 58); [|done]. destruct r as [|c' r]; [done|].
      destruct (byte_to_Z c' =? 58); [|apply IH, Hl'].
      destruct e; [done|]. destruct r; [intros [= <- <- <-]; apply Hl2|apply IH, Hl'].
Qed.

Lemma parse_v6_length s a : parse_v6 s = Some a -> length a = 16%nat.
Proof.
  unfold parse_v6. cbv zeta. destruct (_ && match _ with [] => true | _ => false end); [intros [= <-]; done|].
  destruct (parse_v6_groups 8 _ _ _) as [[[ip e] rest]|] eqn:E; [|done]. cbn [mbind option_bind].
  assert (length ip <= 16)%nat as Hl by (eapply parse_v6_groups_length; [|exact E]; cbn; lia).
  destruct rest; [|done]. destruct (Nat.ltb_spec (length ip) 16).
  - destruct e as [e|]; [|done]. intros [= <-]. rewrite !length_app. unfold zero_bytes.
    rewrite length_replicate, length_take, length_drop. lia.
  - destruct e; [done|]. intros [= <-]. lia.
Qed.

Lemma ParseAddr_length s a : ParseAddr s = Some a -> length a = 4%nat \/ length a = 16%nat.
Proof.
  unfold ParseAddr. destruct (parse_addr_kind s) as [[]|]; [| |done].
  - left. by eapply parse_v4_length.
  - right. by eapply parse_v6_length.
Qed.

(** A network whose number does not start with a zero byte: [L] bytes, the
    low [rooms] bits clear, and the mask of the others. *)
Record network (n : IPNet) (L : nat) (rooms : Z) : Prop := {
  network_L : L = 4%nat \/ L = 16%nat;
  network_rooms : 0 <= rooms <= 8 * Z.of_nat L;
  network_IP : length (net_IP n) = L;
  network_mask : net_Mask n = CIDRMask (8 * Z.of_nat L - rooms) (8 * Z.of_nat L);
  network_clear : be_combine (net_IP n) mod 2 ^ rooms = 0;
  network_head : head (net_IP n) ≠ Some x00;
}.

(** The first number of the network. *)
Definition base (n : IPNet) : Z := be_combine (net_IP n).

Lemma To4_head a : head a ≠ Some x00 -> length a = 4%nat \/ length a = 16%nat ->
  To4 a = if (length a =? 4)%nat then Some a else None.
Proof.
  intros Hh Hl. unfold To4. destruct (Nat.eqb_spec (length a) 4); [done|].
  rewrite bool_decide_false; [by rewrite andb_false_r|]. intros Ht. apply Hh. by destruct a; cbn in Ht; [|injection Ht as -> _].
Qed.

Lemma To4_As16 a : head a ≠ Some x00 -> length a = 4%nat \/ length a = 16%nat -> default (As16 a) (To4 (As16 a)) = a.
Proof.
  intros Hh [Hl | Hl]; unfold As16; rewrite Hl; cbn [Nat.eqb].
  - do 5 (destruct a as [|? a]; try done).
  - rewrite To4_head by auto. by rewrite Hl.
Qed.

Lemma head_combine a : a ≠ [] -> head a ≠ Some x00 <-> 256 ^ (Z.of_nat (length a) - 1) <= be_combine a.
Proof.
  intros Ha. destruct a as [|x a]; [done|]. cbn [head length].
  assert (be_combine (x :: a) = byte_to_Z x * 256 ^ Z.of_nat (length a) + be_combine a) as ->.
  { rewrite !be_combine_sum. unfold be_sum. cbn [foldl]. rewrite be_sum_acc. unfold be_sum. lia. }
  replace (Z.of_nat (S (length a)) - 1) with (Z.of_nat (length a)) by lia.
  pose proof (be_combine_range a). pose proof (byte_to_Z_range x). split.
  - intros Hx. assert (byte_to_Z x ≠ 0); [|nia]. intros Hz. apply Hx. f_equal. by apply (inj byte_to_Z).
  - intros Hle [= ->]. change (byte_to_Z x00) with 0 in Hle. lia.
Qed.

Lemma network_base_bounds n L r : network n L r ->
  0 < 2 ^ r /\ 256 ^ (Z.of_nat L - 1) <= base n /\ base n + 2 ^ r <= 256 ^ Z.of_nat L.
Proof.
  intros [HL Hr Hip _ Hclear Hh]. assert (0 < 2 ^ r) as Hp by (apply Z.pow_pos_nonneg; lia).
  assert (net_IP n ≠ []) as Hne by (intros Hn; rewrite Hn in Hip; cbn in Hip; lia).
  apply (head_combine _ Hne) in Hh. rewrite Hip in Hh. split; [done|]. split; [done|].
  pose proof (be_combine_range (net_IP n)) as Hrange. rewrite Hip in Hrange. unfold base.
  assert (256 ^ Z.of_nat L = 2 ^ (8 * Z.of_nat L - r) * 2 ^ r) as E.
  { rewrite pow_256, <-Z.pow_add_r by lia. f_equal. lia. }
  pose proof (Z.div_mod (be_combine (net_IP n)) (2 ^ r) ltac:(lia)) as Hd. rewrite Hclear in Hd.
  set (q := be_combine (net_IP n) / 2 ^ r) in *. rewrite E in *. assert (q < 2 ^ (8 * Z.of_nat L - r)) by nia. nia.
Qed.

(** An address in its shortest form belongs to the network exactly when its
    number is in the block. *)
Lemma Contains_block_short n L r a : network n L r -> length a = L -> default a (To4 a) = a ->
  Contains n a = true <-> base n <= be_combine a < base n + 2 ^ r.
Proof.
  intros Hn Hl Ha. pose proof (network_base_bounds n L r Hn) as (Hp & Hb1 & Hb2). destruct Hn as [HL Hr Hip Hm Hclear Hnh].
  assert (length (net_Mask n) = L) as Hml by (rewrite Hm; apply length_CIDRMask).
  unfold Contains, networkNumberAndMask. rewrite (To4_head (net_IP n)), Ha by (rewrite ?Hip; done).
  assert (forall b : bytes, default b (if (length b =? 4)%nat then Some b else None) = b) as Hdef by (intros b; by case_match).
  rewrite !Hdef, Hip, Hml, Hl, Nat.eqb_refl. cbn [andb].
  assert (((L =? 16)%nat && (L =? 4)%nat) = false) as -> by (destruct HL as [-> | ->]; done).
  rewrite bool_decide_eq_true.
  assert (land_bytes (net_IP n) (net_Mask n) = land_bytes a (net_Mask n) <->
    be_combine (net_IP n) - be_combine (net_IP n) mod 2 ^ r = be_combine a - be_combine a mod 2 ^ r) as ->.
  { pose proof (be_combine_range (net_IP n)) as R1. pose proof (be_combine_range a) as R2. rewrite Hip, pow_256 in R1. rewrite Hl, pow_256 in R2.
    rewrite <-!(land_high_mask _ (8 * Z.of_nat L) r) by lia.
    replace (2 ^ r) with (2 ^ (8 * Z.of_nat L - (8 * Z.of_nat L - r))) by (f_equal; lia).
    rewrite <-CIDRMask_combine, <-Hm by lia. rewrite <-!land_bytes_combine by lia. split; [by intros ->|].
    apply be_combine_inj. rewrite !length_land_bytes by lia. lia. }
  rewrite Hclear. unfold base. pose proof (Z.mod_pos_bound (be_combine a) (2 ^ r) Hp). split; [lia|]. intros Hin.
  assert (be_combine a mod 2 ^ r = be_combine a - be_combine (net_IP n)) as ->; [|lia].
  symmetry. apply Z.mod_unique with (be_combine (net_IP n) / 2 ^ r); [lia|].
  pose proof (Z.div_mod (be_combine (net_IP n)) (2 ^ r) ltac:(lia)). lia.
Qed.

Lemma Contains_block n L r a : network n L r -> length a = L -> head a ≠ Some x00 ->
  Contains n a = true <-> base n <= be_combine a < base n + 2 ^ r.
Proof.
  intros Hn Hl Hh. apply (Contains_block_short n L); [done..|]. destruct Hn. rewrite To4_head by (rewrite ?Hl; done). by case_match.
Qed.

Lemma To4_length a b : To4 a = Some b -> length b = 4%nat.
Proof.
  unfold To4. destruct (Nat.eqb_spec (length a) 4); [by intros [= <-]|]. destruct (Nat.eqb_spec (length a) 16); [|done].
  destruct (bool_decide _); [|done]. intros [= <-]. rewrite length_drop. lia.
Qed.

Lemma To4_short a : default (default a (To4 a)) (To4 (default a (To4 a))) = default a (To4 a).
Proof.
  destruct (To4 a) as [b|] eqn:E; cbn; [|by rewrite E].
  assert (To4 b = Some b) as ->; [|done]. unfold To4. by rewrite (To4_length _ _ E).
Qed.

Lemma Contains_short n a : Contains n a = Contains n (default a (To4 a)).
Proof. unfold Contains. by rewrite To4_short. Qed.

Lemma Contains_length n L r a : network n L r -> length (default a (To4 a)) ≠ L -> Contains n a = false.
Proof.
  intros [HL Hr Hip Hm _ Hnh] Hl. unfold Contains, networkNumberAndMask.
  rewrite (To4_head (net_IP n)) by (rewrite ?Hip; done).
  assert (default (net_IP n) (if (length (net_IP n) =? 4)%nat then Some (net_IP n) else None) = net_IP n) as -> by (by case_match).
  rewrite Hip. by destruct (Nat.eqb_spec (length (default a (To4 a))) L).
Qed.

(** [ParseCIDR] returns the address and such a network around it. *)
Lemma ParseCIDR_network s ip n : ParseCIDR s = Some (ip, n) -> head (net_IP n) ≠ Some x00 ->
  exists L r a, network n L r /\ default ip (To4 ip) = a /\ length a = L /\ head a ≠ Some x00 /\
    base n <= be_combine a < base n + 2 ^ r.
Proof.
  unfold ParseCIDR. destruct (split_slash s) as [[addr mask]|]; [|done]. cbn [mbind option_bind].
  destruct (ParseAddr addr) as [a|] eqn:Ha; [|done]. cbn [mbind option_bind].
  destruct (dtoi mask 0 false) as [[k [|? ?]]|] eqn:Hd; [|done|done]. cbn [mbind option_bind]. cbv zeta.
  assert (0 <= k) as Hk.
  { assert (forall m k some v rest, 0 <= v -> dtoi m v some = Some (k, rest) -> 0 <= k) as Hdt; [|by eapply (Hdt mask k false 0)].
    clear. induction m as [|c m IH]; intros k some v rest Hv; cbn [dtoi].
    - destruct some; [|done]. by intros [= <- <-].
    - destruct (is_digit c) eqn:E.
      + cbv zeta. case_match; [done|]. apply IH. unfold is_digit in E. lia.
      + destruct some; [|done]. by intros [= <- <-]. }
  destruct (Z.ltb_spec (8 * Z.of_nat (length a)) k) as [|Hbits]; [done|].
  assert (length a = 4%nat \/ length a = 16%nat) as HL by (by eapply ParseAddr_length).
  assert (IP_Mask (As16 a) (CIDRMask k (8 * Z.of_nat (length a))) = Some (land_bytes a (CIDRMask k (8 * Z.of_nat (length a))))) as ->.
  { unfold IP_Mask, As16. rewrite length_CIDRMask. destruct HL as [HL | HL]; rewrite HL; cbn [Nat.eqb andb].
    - rewrite bool_decide_true by done. rewrite length_app, HL. change (length v4_in_v6_prefix + 4 =? 16)%nat with true. cbn [andb].
      change (drop 12 (v4_in_v6_prefix ++ a)) with a. by rewrite HL.
    - by rewrite HL. }
  cbn [mbind option_bind]. intros [= <- <-]. cbn [net_IP]. intros Hh.
  set (L := length a) in *. set (M := CIDRMask k (8 * Z.of_nat L)) in *. set (r := 8 * Z.of_nat L - k).
  assert (length a = length M) as HlM by (unfold M; by rewrite length_CIDRMask).
  pose proof (be_combine_range a) as Ra. fold L in Ra. rewrite pow_256 in Ra.
  assert (be_combine (land_bytes a M) = be_combine a - be_combine a mod 2 ^ r) as Hc.
  { rewrite land_bytes_combine by done. unfold M. rewrite CIDRMask_combine by lia. apply land_high_mask; lia. }
  assert (0 < 2 ^ r) as Hp by (apply Z.pow_pos_nonneg; lia).
  pose proof (Z.mod_pos_bound (be_combine a) (2 ^ r) Hp) as Hmod.
  assert (length (land_bytes a M) = L) as HlL by (by rewrite length_land_bytes).
  assert (head a ≠ Some x00) as Hha.
  { assert (a ≠ []) as Hne by (intros ->; cbn in HL; lia).
    assert (land_bytes a M ≠ []) as Hne' by (intros E; rewrite E in HlL; cbn in HlL; lia).
    apply (head_combine _ Hne). apply (head_combine _ Hne') in Hh. rewrite HlL in Hh. fold L. lia. }
  exists L, r, a. split_and!; [|by apply To4_As16|done|done|unfold base; cbn [net_IP]; rewrite Hc; lia|unfold base; cbn [net_IP]; rewrite Hc; lia].
  split; cbn [net_IP net_Mask]; [done|unfold r; lia|done|unfold M, r; f_equal; lia| |done].
  rewrite Hc. pose proof (Z.div_mod (be_combine a) (2 ^ r) ltac:(lia)) as Hdm.
  replace (be_combine a - be_combine a mod 2 ^ r) with (be_combine a / 2 ^ r * 2 ^ r) by lia. by rewrite Z.mod_mul by lia.
Qed.

(** Two such networks that share an address are nested: one contains the
    other's number. *)
Lemma networks_overlap n1 L1 r1 n2 L2 r2 a : network n1 L1 r1 -> network n2 L2 r2 ->
  Contains n1 a = true -> Contains n2 a = true -> Contains n1 (net_IP n2) = true \/ Contains n2 (net_IP n1) = true.
Proof.
  intros H1 H2 C1 C2. rewrite Contains_short in C1, C2. pose proof (To4_short a) as Ha. set (b := default a (To4 a)) in *.
  assert (length b = L1) as Hb1.
  { destruct (decide (length b = L1)); [done|]. rewrite (Contains_length n1 L1 r1) in C1; [done|done|by rewrite Ha]. }
  assert (length b = L2) as Hb2.
  { destruct (decide (length b = L2)); [done|]. rewrite (Contains_length n2 L2 r2) in C2; [done|done|by rewrite Ha]. }
  apply (Contains_block_short n1 L1 r1) in C1; [|done..]. apply (Contains_block_short n2 L2 r2) in C2; [|done..].
  rewrite (Contains_block n1 L1 r1 (net_IP n2)), (Contains_block n2 L2 r2 (net_IP n1)); [|first [done | apply H1 | apply H2 | destruct H1, H2; congruence]..].
  fold (base n1) (base n2). pose proof (network_base_bounds _ _ _ H1) as (P1 & _). pose proof (network_base_bounds _ _ _ H2) as (P2 & _).
  pose proof (network_clear _ _ _ H1) as Z1. pose proof (network_clear _ _ _ H2) as Z2. fold (base n1) in Z1. fold (base n2) in Z2.
  pose proof (network_rooms _ _ _ H1). pose proof (network_rooms _ _ _ H2).
  assert (forall x y p q, 0 <= p <= q -> x mod 2 ^ p = 0 -> y mod 2 ^ q = 0 -> 0 < 2 ^ p -> x < y + 2 ^ q -> y < x + 2 ^ p -> y <= x) as Hnest.
  { clear. intros x y p q Hpq Hx Hy Hp Hlt1 Hlt2. pose proof (Z.div_mod x (2 ^ p) ltac:(lia)) as Dx.
    assert (2 ^ q = 2 ^ (q - p) * 2 ^ p) as E by (rewrite <-Z.pow_add_r by lia; f_equal; lia).
    assert (0 < 2 ^ (q - p)) by (apply Z.pow_pos_nonneg; lia).
    pose proof (Z.div_mod y (2 ^ q) ltac:(nia)) as Dy. rewrite Hx in Dx. rewrite Hy in Dy.
    set (u := x / 2 ^ p) in *. set (w := y / 2 ^ q) in *. clearbody u w. rewrite E in Dy, Hlt1.
    assert (y = 2 ^ p * (2 ^ (q - p) * w)) as Ey by (rewrite Dy at 1; generalize (2 ^ (q - p)), (2 ^ p); intros; ring). clear Dy Hlt1 E Hx Hy. revert Ey. generalize (2 ^ (q - p) * w). intros v Ey.
    assert (v < u + 1) by (apply (Z.mul_lt_mono_pos_l (2 ^ p)); lia). assert (2 ^ p * v <= 2 ^ p * u) by (apply Z.mul_le_mono_nonneg_l; lia). lia. }
  destruct (decide (r1 <= r2)).
  - right. split; [|lia]. apply (Hnest (base n1) (base n2) r1 r2); (done || lia).
  - left. split; [|lia]. apply (Hnest (base n2) (base n1) r2 r1); (done || lia).
Qed.
