(* ===== verification/FakeDns.v ===== *)
(** * The fake DNS pool, [app/dns/fakedns/fake.go]

    A holder hands out the addresses of a network one after another, keeping
    which name has which in an LRU cache.  Several holders are pointers
    shared by the multi-holder and the groups [AddPoolMulti] returns: they
    live in a store and are named by their position in it.  A nil field or
    map is [None], and using it is a panic; so is a nil address in the
    cache, whose type assertion fails. *)

From S2P Require Import Prelude Matchers Net Lru.

Local Open Scope Z_scope.

(** ** Package [math/big] *)

(** [Int.Bytes]: no leading zero byte, and no byte for 0. *)
Definition big_Bytes (z : Z) : bytes := if z =? 0 then [] else be_split (Z.to_nat (Z.log2 z / 8 + 1)) z.
(** [Int.SetBytes]. *)
Definition big_SetBytes (b : bytes) : Z := be_combine b.

(** [math.Log2(float64(n)) >= float64(rooms)], with the logarithm exact: its
    rounding shows only for [n] within a few units of a power of two above
    [2^47].  The logarithm of a negative number is NaN, that of 0 is
    minus infinity. *)
Definition Log2_reaches (n rooms : Z) : bool := (0 <? n) && (2 ^ rooms <=? n).

(** ** Holder *)

(** src/app/dns/fakedns/fakedns.pb.go:19-25 FakeDnsPool *)
Record FakeDnsPool := { IpPool : bytes; LruSize : Z }.

Inductive fake_error :=
  | ErrParseCIDR        (* unable to parse CIDR for Fake DNS IP assignment *)
  | ErrLruSize          (* LRU size is bigger than subnet size *)
  | ErrSetting          (* invalid fakeDNS setting *)
  | ErrOverlap          (* overlaps with existing ip pool *)
  | ErrStart            (* Cannot start all fake dns pools *)
  | ErrClose            (* Cannot close all fake dns pools *).

(** [domainToIP] and [mu] are nil until the holder starts.
    src/app/dns/fakedns/fake.go Holder *)
Record Holder := {
  domainToIP : option (lru bytes (option Address)); nextIP : Z; mu : bool;
  ipRange : option IPNet; config : option FakeDnsPool
}.

(** src/app/dns/fakedns/fake.go NewFakeDNSHolderConfigOnly *)
Definition NewFakeDNSHolderConfigOnly (conf : option FakeDnsPool) : Holder :=
  {| domainToIP := None; nextIP := 0; mu := false; ipRange := None; config := conf |}.

(** src/app/dns/fakedns/fake.go Holder.initialize *)
Definition initialize (h : Holder) (ipPoolCidr : bytes) (lruSize : Z) : outcome fake_error Holder :=
  match ParseCIDR ipPoolCidr with
  | None => Err ErrParseCIDR
  | Some (ipaddr, range) =>
      let currentIP := match To4 ipaddr with Some ip4 => big_SetBytes ip4 | None => big_SetBytes ipaddr end in
      let '(ones, bits) := Mask_Size (net_Mask range) in
      let rooms := bits - ones in
      if Log2_reaches lruSize rooms then Err ErrLruSize
      else Ok {| domainToIP := Some (NewLru lruSize); nextIP := currentIP; mu := true;
                 ipRange := Some range; config := config h |}
  end.

(** src/app/dns/fakedns/fake.go Holder.initializeFromConfig *)
Definition initializeFromConfig (h : Holder) : outcome fake_error Holder :=
  match config h with Some c => initialize h (IpPool c) (LruSize c) | None => Panic end.

(** src/app/dns/fakedns/fake.go Holder.Start *)
Definition Start (h : Holder) : outcome fake_error Holder :=
  match config h with
  | Some c =>
      if negb (bool_decide (IpPool c = [])) && negb (LruSize c =? 0) then initializeFromConfig h else Err ErrSetting
  | None => Err ErrSetting
  end.

(** src/app/dns/fakedns/fake.go Holder.Close *)
Definition Close (h : Holder) : outcome fake_error Holder :=
  if mu h then
    Ok {| domainToIP := None; nextIP := nextIP h; mu := true; ipRange := ipRange h; config := config h |}
  else Panic.

(** src/app/dns/fakedns/fake.go NewFakeDNSHolder *)
Definition NewFakeDNSHolder : outcome fake_error Holder :=
  initialize (NewFakeDNSHolderConfigOnly None) (bs "198.18.0.0/15") 65535.

(** src/app/dns/fakedns/fake.go Holder.IsIPInIPPool *)
Definition IsIPInIPPool {E} (h : Holder) (ip : Address) : outcome E bool :=
  if IsDomain (Family ip) then Ok false
  else match ipRange h, IP ip with
       | Some range, Some a => Ok (Contains range a)
       | _, _ => Panic
       end.

(** The loop that takes the next address and leaves at one not in use;
    looking an address up moves it to the front of the cache.
    src/app/dns/fakedns/fake.go:117-128 Holder.GetFakeIPForDomain *)
Fixpoint pick (fuel : nat) (range : IPNet) (next : Z) (l : lru bytes (option Address)) :
    option (lru bytes (option Address) * Z * option Address) :=
  match fuel with
  | O => None
  | S fuel' =>
      let ip := IPAddress (big_Bytes next) in
      let next := next + 1 in
      let next := if negb (Contains range (big_Bytes next)) then big_SetBytes (net_IP range) else next in
      match GetKeyFromValue ip l with
      | (l, None) => Some (l, next, ip)
      | (l, Some _) => pick fuel' range next l
      end
  end.

Definition with_cache (h : Holder) (l : lru bytes (option Address)) (next : Z) : Holder :=
  {| domainToIP := Some l; nextIP := next; mu := mu h; ipRange := ipRange h; config := config h |}.

Section Lower.
Context `{StringLibs}.

(** [None] is a loop that has not ended with this fuel.
    src/app/dns/fakedns/fake.go Holder.GetFakeIPForDomain *)
Definition GetFakeIPForDomain {E} (fuel : nat) (h : Holder) (domain : bytes) : option (outcome E (Holder * list (option Address))) :=
  match mu h, domainToIP h, ipRange h with
  | true, Some l, Some range =>
      match Get (ToLower domain) l with
      | (l, Some None) => Some Panic
      | (l, Some (Some v)) => Some (Ok (with_cache h l (nextIP h), [Some v]))
      | (l, None) =>
          (fun '(l, next, ip) => Ok (with_cache h (Put (ToLower domain) ip l) next, [ip])) <$> pick fuel range (nextIP h) l
      end
  | _, _, _ => Some Panic
  end.

(** src/app/dns/fakedns/fake.go Holder.GetFakeIPForDomain3 *)
Definition GetFakeIPForDomain3 {E} (fuel : nat) (h : Holder) (domain : bytes) (ipv4 ipv6 : bool) :
    option (outcome E (Holder * list (option Address))) :=
  match ipRange h with
  | None => Some Panic
  | Some range =>
      let isIPv6 := bool_decide (To4 (net_IP range) = None) in
      if (isIPv6 && ipv6) || (negb isIPv6 && ipv4) then GetFakeIPForDomain fuel h domain else Some (Ok (h, []))
  end.
End Lower.

(** The empty name is "not found".
    src/app/dns/fakedns/fake.go Holder.GetDomainFromFakeDNS *)
Definition GetDomainFromFakeDNS {E} (h : Holder) (ip : Address) : outcome E (Holder * bytes) :=
  if negb (IsIP (Family ip)) then Ok (h, [])
  else match ipRange h, IP ip with
       | Some range, Some a =>
           if negb (Contains range a) then Ok (h, [])
           else match mu h, domainToIP h with
                | true, Some l =>
                    match GetKeyFromValue (Some ip) l with
                    | (l, Some k) => Ok (with_cache h l (nextIP h), k)
                    | (l, None) => Ok (with_cache h l (nextIP h), [])
                    end
                | _, _ => Panic
                end
       | _, _ => Panic
       end.

(** ** HolderMulti *)

Abbreviation store := (list Holder).

(** src/app/dns/fakedns/fake.go HolderMulti *)
Record HolderMulti := { holders : list nat }.

(** Runs [f] on each holder of the list in turn, through the store. *)
Fixpoint each {E A} (f : Holder -> outcome E (Holder * A)) (hs : list nat) (s : store) (stop : A -> bool) : outcome E (store * list A) :=
  match hs with
  | [] => Ok (s, [])
  | p :: hs' =>
      match s !! p with
      | None => Panic
      | Some h =>
          '(h', a) ← f h;
          let s := <[p := h']> s in
          if stop a then Ok (s, [a])
          else '(s, rest) ← each f hs' s stop; Ok (s, a :: rest)
      end
  end.

(** src/app/dns/fakedns/fake.go HolderMulti.IsIPInIPPool *)
Definition multi_IsIPInIPPool {E} (s : store) (m : HolderMulti) (ip : Address) : outcome E bool :=
  if IsDomain (Family ip) then Ok false
  else '(_, found) ← each (fun h => b ← IsIPInIPPool h ip; Ok (h, b)) (holders m) s id;
       Ok (existsb id found).

(** src/app/dns/fakedns/fake.go HolderMulti.GetDomainFromFakeDNS *)
Definition multi_GetDomainFromFakeDNS {E} (s : store) (m : HolderMulti) (ip : Address) : outcome E (store * bytes) :=
  '(s, names) ← each (fun h => GetDomainFromFakeDNS h ip) (holders m) s (fun d => negb (bool_decide (d = [])));
  Ok (s, default [] (last names)).

Section MultiLower.
Context `{StringLibs}.

(** src/app/dns/fakedns/fake.go HolderMulti.GetFakeIPForDomain *)
Fixpoint multi_GetFakeIPForDomain {E} (fuel : nat) (s : store) (hs : list nat) (domain : bytes) :
    option (outcome E (store * list (option Address))) :=
  match hs with
  | [] => Some (Ok (s, []))
  | p :: hs' =>
      match s !! p with
      | None => Some Panic
      | Some h =>
          match GetFakeIPForDomain fuel h domain with
          | Some (Ok (h', ips)) =>
              fmap (fun r => '(s, ret) ← r; Ok (s, ips ++ ret)) (multi_GetFakeIPForDomain fuel (<[p := h']> s) hs' domain)
          | Some (Err e) => Some (Err e)
          | Some Panic => Some Panic
          | None => None
          end
      end
  end.

(** src/app/dns/fakedns/fake.go HolderMulti.GetFakeIPForDomain3 *)
Fixpoint multi_GetFakeIPForDomain3 {E} (fuel : nat) (s : store) (hs : list nat) (domain : bytes) (ipv4 ipv6 : bool) :
    option (outcome E (store * list (option Address))) :=
  match hs with
  | [] => Some (Ok (s, []))
  | p :: hs' =>
      match s !! p with
      | None => Some Panic
      | Some h =>
          match GetFakeIPForDomain3 fuel h domain ipv4 ipv6 with
          | Some (Ok (h', ips)) =>
              fmap (fun r => '(s, ret) ← r; Ok (s, ips ++ ret))
                (multi_GetFakeIPForDomain3 fuel (<[p := h']> s) hs' domain ipv4 ipv6)
          | Some (Err e) => Some (Err e)
          | Some Panic => Some Panic
          | None => None
          end
      end
  end.
End MultiLower.

(** src/app/dns/fakedns/fake.go HolderMulti.IsEmpty *)
Definition multi_IsEmpty (m : HolderMulti) : bool := bool_decide (holders m = []).

(** The texts of two networks of [ParseCIDR] are equal when their numbers and
    masks are. *)
Definition same_String (a b : IPNet) : bool := bool_decide (networkNumberAndMask a = networkNumberAndMask b).

(** The loop over the holders: the holder of the same network, or else
    whether any holder is running.
    src/app/dns/fakedns/fake.go:197-215 HolderMulti.AddPool *)
Fixpoint find_pool (s : store) (hs : list nat) (newIPRange : IPNet) (running : bool) : outcome fake_error (nat + bool) :=
  match hs with
  | [] => Ok (inr running)
  | p :: hs' =>
      match s !! p with
      | None => Panic
      | Some v =>
          '(range, running) ← match ipRange v with
                              | Some range => Ok (range, true)
                              | None =>
                                  match config v with
                                  | None => Panic
                                  | Some c => match ParseCIDR (IpPool c) with Some (_, range) => Ok (range, running) | None => Err ErrParseCIDR end
                                  end
                              end;
          if same_String range newIPRange then Ok (inl p)
          else if Contains range (net_IP newIPRange) || Contains newIPRange (net_IP range) then Err ErrOverlap
          else find_pool s hs' newIPRange running
      end
  end.

(** src/app/dns/fakedns/fake.go HolderMulti.AddPool *)
Definition AddPool (s : store) (m : HolderMulti) (poolConfig : FakeDnsPool) : outcome fake_error (store * HolderMulti * nat) :=
  match ParseCIDR (IpPool poolConfig) with
  | None => Err ErrParseCIDR
  | Some (_, newIPRange) =>
      found ← find_pool s (holders m) newIPRange false;
      match found with
      | inl p => Ok (s, m, p)
      | inr running =>
          let holder := NewFakeDNSHolderConfigOnly (Some poolConfig) in
          holder ← if running : bool then Start holder else Ok holder;
          Ok (s ++ [holder], {| holders := holders m ++ [length s] |}, length s)
      end
  end.

(** The pools added before an error stay, so the store and [m] are kept next
    to the result: the group of the pools, in order.
    src/app/dns/fakedns/fake.go HolderMulti.AddPoolMulti *)
Fixpoint AddPoolMulti (s : store) (m : HolderMulti) (pools : list FakeDnsPool) (group : HolderMulti) :
    store * HolderMulti * outcome fake_error HolderMulti :=
  match pools with
  | [] => (s, m, Ok group)
  | poolConfig :: pools' =>
      match AddPool s m poolConfig with
      | Ok (s, m, pool) => AddPoolMulti s m pools' {| holders := holders group ++ [pool] |}
      | Err e => (s, m, Err e)
      | Panic => (s, m, Panic)
      end
  end.

(** src/app/dns/fakedns/fake.go HolderMulti.createHolderGroups *)
Fixpoint createHolderGroups (s : store) (m : HolderMulti) (pools : list FakeDnsPool) : store * HolderMulti * outcome fake_error unit :=
  match pools with
  | [] => (s, m, Ok tt)
  | pool :: pools' =>
      match AddPool s m pool with
      | Ok (s, m, _) => createHolderGroups s m pools'
      | Err e => (s, m, Err e)
      | Panic => (s, m, Panic)
      end
  end.

(** src/app/dns/fakedns/fake.go NewFakeDNSHolderMulti *)
Definition NewFakeDNSHolderMulti (s : store) (pools : list FakeDnsPool) : store * outcome fake_error HolderMulti :=
  let '(s, m, r) := createHolderGroups s {| holders := [] |} pools in
  (s, _ ← r; Ok m).

(** The holders started before an error stay started.
    src/app/dns/fakedns/fake.go HolderMulti.Start *)
Fixpoint multi_Start (s : store) (hs : list nat) : store * outcome fake_error unit :=
  match hs with
  | [] => (s, Ok tt)
  | p :: hs' =>
      match s !! p with
      | None => (s, Panic)
      | Some v =>
          match Start v with
          | Ok v' => multi_Start (<[p := v']> s) hs'
          | Err _ => (s, Err ErrStart)
          | Panic => (s, Panic)
          end
      end
  end.

(** src/app/dns/fakedns/fake.go HolderMulti.Close *)
Fixpoint multi_Close (s : store) (hs : list nat) : store * outcome fake_error unit :=
  match hs with
  | [] => (s, Ok tt)
  | p :: hs' =>
      match s !! p with
      | None => (s, Panic)
      | Some v =>
          match Close v with
          | Ok v' => multi_Close (<[p := v']> s) hs'
          | Err _ => (s, Err ErrClose)
          | Panic => (s, Panic)
          end
      end
  end.
