(* ===== verification/FakeDnsFacts.v ===== *)
(** * Facts about the fake DNS pool

    A started holder over a network whose first byte is not zero always
    answers: its loop meets a free address before it has seen more addresses
    than the cache holds, and what it answers can be asked back. *)

From S2P Require Import Prelude Matchers Net NetFacts Lru FakeDns.

Local Open Scope Z_scope.

(** ** Addresses of a block *)

(** The address with number [z] in a network of [L]-byte addresses. *)
Definition addr_of (L : nat) (z : Z) : Address :=
  if (L =? 4)%nat then ipv4Address (be_split L z) else ipv6Address (be_split L z).

Lemma big_Bytes_split L z : (1 <= L)%nat -> 256 ^ (Z.of_nat L - 1) <= z < 256 ^ Z.of_nat L -> big_Bytes z = be_split L z.
Proof.
  intros HL Hz. assert (0 < 256 ^ (Z.of_nat L - 1)) by (apply Z.pow_pos_nonneg; lia).
  unfold big_Bytes. destruct (Z.eqb_spec z 0); [lia|]. f_equal.
  assert (256 ^ (Z.of_nat L - 1) = 2 ^ (8 * Z.of_nat L - 8)) as E1.
  { replace (8 * Z.of_nat L - 8) with (8 * (Z.of_nat L - 1)) by lia. rewrite Z.pow_mul_r by lia. done. }
  rewrite E1, pow_256 in Hz. assert (8 * Z.of_nat L - 8 <= Z.log2 z) by (apply Z.log2_le_pow2; lia).
  assert (Z.log2 z < 8 * Z.of_nat L) by (apply Z.log2_lt_pow2; lia). Z.div_mod_to_equations. lia.
Qed.

Lemma split_head L z : (1 <= L)%nat -> 256 ^ (Z.of_nat L - 1) <= z < 256 ^ Z.of_nat L -> head (be_split L z) ≠ Some x00.
Proof.
  intros HL Hz. assert (0 < 256 ^ (Z.of_nat L - 1)) by (apply Z.pow_pos_nonneg; lia).
  apply head_combine; [by destruct L|]. rewrite length_be_split, be_combine_split_small by lia. lia.
Qed.

Section Block.
Context (net : IPNet) (L : nat) (r : Z) (Hnet : network net L r).

Definition block (z : Z) : Prop := base net <= z < base net + 2 ^ r.

Lemma block_range z : block z -> 256 ^ (Z.of_nat L - 1) <= z < 256 ^ Z.of_nat L.
Proof. pose proof (network_base_bounds _ _ _ Hnet). unfold block. lia. Qed.

Lemma L_pos : (1 <= L)%nat.
Proof. destruct (network_L _ _ _ Hnet); lia. Qed.

Lemma IPAddress_block z : block z -> IPAddress (big_Bytes z) = Some (addr_of L z).
Proof.
  intros Hz%block_range. rewrite (big_Bytes_split L) by (done || apply L_pos).
  pose proof (split_head L z L_pos Hz) as Hh. unfold IPAddress, addr_of. rewrite length_be_split.
  destruct (network_L _ _ _ Hnet) as [-> | ->]; [done|]. cbn [Nat.eqb].
  rewrite bool_decide_false; [done|]. intros Ht. apply Hh. apply (f_equal head) in Ht. exact Ht.
Qed.

Lemma addr_of_inj z z' : block z -> block z' -> addr_of L z = addr_of L z' -> z = z'.
Proof.
  intros Hz%block_range Hz'%block_range. pose proof (network_base_bounds _ _ _ Hnet) as (_ & Hb & _).
  assert (0 <= 256 ^ (Z.of_nat L - 1)) by (apply Z.pow_nonneg; lia). unfold addr_of. intros He.
  assert (be_split L z = be_split L z') as Hs by (destruct (L =? 4)%nat; by injection He).
  apply (f_equal be_combine) in Hs. rewrite !be_combine_split_small in Hs by lia. done.
Qed.

Lemma addr_of_IP z : IP (addr_of L z) = Some (be_split L z) /\ IsIP (Family (addr_of L z)) = true /\ IsDomain (Family (addr_of L z)) = false.
Proof. unfold addr_of. by destruct (L =? 4)%nat. Qed.

Lemma Contains_split z : 256 ^ (Z.of_nat L - 1) <= z < 256 ^ Z.of_nat L -> Contains net (be_split L z) = true <-> block z.
Proof.
  intros Hz. assert (0 <= 256 ^ (Z.of_nat L - 1)) by (apply Z.pow_nonneg; lia).
  rewrite (Contains_block _ _ _ _ Hnet) by (apply length_be_split || by apply split_head, Hz; apply L_pos).
  by rewrite be_combine_split_small by lia.
Qed.

(** Taking the next address goes round the block. *)
Definition succ_in_block (z : Z) : Z := base net + (z - base net + 1) mod 2 ^ r.

Lemma next_in_block z : block z ->
  (if negb (Contains net (big_Bytes (z + 1))) then big_SetBytes (net_IP net) else z + 1) = succ_in_block z.
Proof.
  intros Hz. pose proof (network_base_bounds _ _ _ Hnet) as (Hp & Hb & Hb2). unfold succ_in_block, block in *.
  destruct (decide (z + 1 = base net + 2 ^ r)) as [He|].
  - assert (Contains net (big_Bytes (z + 1)) = false) as ->.
    { destruct (decide (z + 1 < 256 ^ Z.of_nat L)).
      - rewrite (big_Bytes_split L) by (apply L_pos || lia).
        destruct (Contains net (be_split L (z + 1))) eqn:E; [|done]. apply Contains_split in E; [|lia]. unfold block in E. lia.
      - assert (big_Bytes (z + 1) = be_split (S L) (z + 1)) as ->.
        { apply big_Bytes_split; [lia|]. rewrite Nat2Z.inj_succ, Z.pow_succ_r by lia. replace (Z.succ (Z.of_nat L) - 1) with (Z.of_nat L) by lia. lia. }
        apply (Contains_length _ _ _ _ Hnet). unfold To4. rewrite length_be_split.
        destruct (network_L _ _ _ Hnet) as [-> | ->]; cbn [Nat.eqb andb default]; rewrite length_be_split; lia. }
    cbn. replace (z - base net + 1) with (1 * 2 ^ r) by lia. rewrite Z.mod_mul by lia. unfold base, big_SetBytes. lia.
  - assert (Contains net (big_Bytes (z + 1)) = true) as ->.
    { rewrite (big_Bytes_split L) by (apply L_pos || lia). apply Contains_split; [lia|]. unfold block. lia. }
    cbn. rewrite Z.mod_small by lia. lia.
Qed.

Definition cyc (j : nat) (z : Z) : Z := base net + (z - base net + Z.of_nat j) mod 2 ^ r.

Lemma cyc_block j z : block (cyc j z).
Proof. pose proof (network_base_bounds _ _ _ Hnet) as (Hp & _). unfold block, cyc. pose proof (Z.mod_pos_bound (z - base net + Z.of_nat j) (2 ^ r)). lia. Qed.

Lemma cyc_0 z : block z -> cyc 0 z = z.
Proof. unfold block, cyc. intros Hz. rewrite Z.mod_small by lia. lia. Qed.

Lemma cyc_succ j z : succ_in_block (cyc j z) = cyc (S j) z.
Proof.
  pose proof (network_base_bounds _ _ _ Hnet) as (Hp & _). unfold succ_in_block, cyc. f_equal.
  replace (base net + (z - base net + Z.of_nat j) mod 2 ^ r - base net + 1) with ((z - base net + Z.of_nat j) mod 2 ^ r + 1) by lia.
  rewrite Zplus_mod_idemp_l. f_equal. lia.
Qed.

Lemma cyc_inj i j z : Z.of_nat i < 2 ^ r -> Z.of_nat j < 2 ^ r -> cyc i z = cyc j z -> i = j.
Proof.
  pose proof (network_base_bounds _ _ _ Hnet) as (Hp & _). unfold cyc. intros Hi Hj He.
  pose proof (Z.div_mod (z - base net + Z.of_nat i) (2 ^ r) ltac:(lia)). pose proof (Z.div_mod (z - base net + Z.of_nat j) (2 ^ r) ltac:(lia)).
  set (a := (z - base net + Z.of_nat i) / 2 ^ r) in *. set (b := (z - base net + Z.of_nat j) / 2 ^ r) in *.
  assert (Z.of_nat i - Z.of_nat j = 2 ^ r * (a - b)) by lia. assert (a = b) by nia. nia.
Qed.

(** ** The loop *)

Abbreviation cache := (lru bytes (option Address)).

Definition held (l : cache) (z : Z) : Prop := exists k, (k, Some (addr_of L z)) ∈ contents l.

Lemma held_dec l z : held l z \/ ~ held l z.
Proof.
  destruct (decide (Exists (fun p => p.2 = Some (addr_of L z)) (contents l))) as [He|He]; rewrite Exists_exists in He.
  - left. destruct He as ([k v] & Hin & [= ->]). by exists k.
  - right. intros [k Hk]. apply He. by eexists.
Qed.

(** No more consecutive addresses can be in use than the cache has pairs. *)
Lemma held_run_bound l z k : (forall j, (j < k)%nat -> held l (cyc j z)) -> Z.of_nat k <= 2 ^ r -> (k <= length (contents l))%nat.
Proof.
  intros Hall Hk.
  assert (NoDup ((fun j => Some (addr_of L (cyc j z))) <$> seq 0 k)) as Hnd.
  { apply NoDup_fmap_2_strong; [|apply NoDup_seq]. intros i j Hi%elem_of_seq Hj%elem_of_seq [= He].
    apply (cyc_inj i j z); [lia|lia|]. apply addr_of_inj; [apply cyc_block|apply cyc_block|done]. }
  apply (NoDup_submseteq _ (snd <$> contents l)) in Hnd.
  - apply submseteq_length in Hnd. by rewrite !length_fmap, length_seq in Hnd.
  - intros v (j & -> & Hj%elem_of_seq)%list_elem_of_fmap. destruct (Hall j ltac:(lia)) as [k' Hin].
    apply list_elem_of_fmap. by exists (k', Some (addr_of L (cyc j z))).
Qed.

Record good_cache (n : nat) (l : cache) : Prop := {
  gc_inv : inv l;
  gc_vinv : value_inv l;
  gc_len : (length (contents l) <= n)%nat;
}.

Lemma good_cache_lookup n l v : good_cache n l -> good_cache n (GetKeyFromValue v l).1 /\
  contents (GetKeyFromValue v l).1 ≡ₚ contents l /\ capacity (GetKeyFromValue v l).1 = capacity l.
Proof.
  intros [Hi Hv Hl]. destruct (GetKeyFromValue_spec v l Hi Hv) as (Hi' & Hv' & Hc & _).
  pose proof (GetKeyFromValue_contents_perm v l Hi) as Hp. split; [|done]. split; [done|done|]. by rewrite Hp.
Qed.

(** From any place of the run of addresses in use the loop ends, within the
    pairs that are left, at an address that is not in use. *)
Lemma pick_run n z0 fuel : forall k l, good_cache n l -> Z.of_nat n < 2 ^ r -> (fuel + k = n + 1)%nat ->
  (forall j, (j < k)%nat -> held l (cyc j z0)) ->
  exists l' j, pick fuel net (cyc k z0) l = Some (l', cyc (S j) z0, Some (addr_of L (cyc j z0))) /\
    good_cache n l' /\ contents l' ≡ₚ contents l /\ capacity l' = capacity l /\ ~ held l' (cyc j z0).
Proof.
  induction fuel as [|fuel IH]; intros k l Hgc Hn Hk Hall.
  - exfalso. pose proof (held_run_bound l z0 k Hall ltac:(lia)). destruct Hgc. lia.
  - cbn [pick]. rewrite IPAddress_block, next_in_block, cyc_succ by apply cyc_block.
    pose proof (GetKeyFromValue_spec (Some (addr_of L (cyc k z0))) l (gc_inv _ _ Hgc) (gc_vinv _ _ Hgc)) as (_ & _ & _ & Hr).
    destruct (good_cache_lookup n l (Some (addr_of L (cyc k z0))) Hgc) as (Hgc' & Hperm & Hcap).
    destruct (GetKeyFromValue (Some (addr_of L (cyc k z0))) l) as [l1 [k1|]]; cbn [fst snd] in *.
    + destruct (IH (S k) l1 Hgc' Hn ltac:(lia)) as (l' & j & He & Hg & Hp & Hc & Hno).
      { intros j Hj. unfold held. setoid_rewrite Hperm. destruct (decide (j = k)) as [->|]; [|apply Hall; lia].
        exists k1. apply Hr. }
      exists l', j. split; [done|]. split; [done|]. split; [by rewrite Hp|]. split; [congruence|done].
    + destruct Hr as [Hno ->]. exists l, k. split; [done|]. do 3 (split; [done|]). intros [k' Hk']. by apply (Hno k').
Qed.

(** ** A started holder *)

(** The state between calls: what [Start] sets up and every call keeps. *)
Record running (n : Z) (h : Holder) (l : cache) : Prop := {
  run_mu : mu h = true;
  run_cache : domainToIP h = Some l;
  run_range : ipRange h = Some net;
  run_next : block (nextIP h);
  run_good : good_cache (Z.to_nat n) l;
  run_cap : capacity l = n;
  run_size : 1 <= n < 2 ^ r;
  run_vals : forall k v, (k, v) ∈ contents l -> exists z, block z /\ v = Some (addr_of L z);
}.

Lemma running_perm n h l l' : running n h l -> good_cache (Z.to_nat n) l' -> contents l' ≡ₚ contents l -> capacity l' = capacity l ->
  forall z, block z -> running n (with_cache h l' z) l'.
Proof.
  intros [] ? Hp ? z Hz. split; cbn; try done; [congruence|]. intros k v. rewrite Hp. eauto.
Qed.

Lemma good_cache_Get n l d : good_cache n l -> good_cache n (Get d l).1.
Proof.
  intros [Hi Hv Hl]. pose proof (Get_contents_perm d l Hi) as Hp. split.
  - by apply Get_spec.
  - by apply Get_value_inv.
  - by rewrite Hp.
Qed.

Section Ask.
Context `{StringLibs}.

(** What asking for a name does: the address the name has, or an address of
    the block that no name had, which the name has from now on. *)
Lemma GetFakeIPForDomain_running {E} n h l d : running n h l ->
  exists h' l' z, GetFakeIPForDomain (E := E) (S (Z.to_nat n)) h d = Some (Ok (h', [Some (addr_of L z)])) /\
    block z /\ running n h' l' /\ (ToLower d, Some (addr_of L z)) ∈ contents l' /\
    (contents l' ≡ₚ contents l \/ ~ held l z /\ (forall v, (ToLower d, v) ∉ contents l) /\
       exists m c, c ≡ₚ contents l /\ contents l' = (ToLower d, Some (addr_of L z)) :: take m c).
Proof.
  intros Hrun. pose proof Hrun as [Hmu Hcache Hrange Hnext Hgood Hcap Hsize Hvals]. pose proof Hgood as [Hi Hv Hl].
  unfold GetFakeIPForDomain. rewrite Hmu, Hcache, Hrange.
  pose proof (Get_result (ToLower d) l Hi) as Hres. pose proof (Get_contents_perm (ToLower d) l Hi) as Hperm.
  pose proof (good_cache_Get _ l (ToLower d) Hgood) as Hgood1. pose proof (Get_spec (ToLower d) l Hi) as (_ & _ & _ & Hcap1).
  destruct (Get (ToLower d) l) as [l1 [v|]] eqn:Eg; cbn [fst snd] in *.
  - destruct (Hvals _ _ Hres) as (z & Hz & ->). exists (with_cache h l1 (nextIP h)), l1, z. split; [done|]. split; [done|].
    split; [by eapply running_perm|]. split; [by rewrite Hperm|by left].
  - destruct (pick_run (Z.to_nat n) (nextIP h) (S (Z.to_nat n)) 0 l1 Hgood1 ltac:(lia) ltac:(lia) ltac:(lia)) as (l2 & j & He & Hg2 & Hp2 & Hc2 & Hno).
    rewrite (cyc_0 _ Hnext) in He. rewrite He. cbn [fmap option_fmap option_map]. set (z := cyc j (nextIP h)) in *. set (a := Some (addr_of L z)) in *.
    assert (forall v, (ToLower d, v) ∉ contents l) as Habs by (intros v Hin%elem_contents; [destruct Hin as (? & ? & _); congruence|done]).
    assert (keyToElement l2 !! ToLower d = None) as Hk2.
    { destruct (keyToElement l2 !! ToLower d) as [e|] eqn:E2; [|done]. destruct (key_element _ _ _ (gc_inv _ _ Hg2) E2) as (_ & [v Hv2] & _).
      exfalso. apply (Habs v). rewrite <-Hperm, <-Hp2. apply elem_contents; [apply Hg2|]. eauto. }
    assert (valueToElement l2 !! a = None) as Hv2.
    { apply value_absent; [apply Hg2|apply Hg2|]. intros k Hk. apply Hno. by exists k. }
    destruct (Put_fresh_contents (ToLower d) a l2 (gc_inv _ _ Hg2) Hk2 ltac:(lia)) as [m Hm].
    destruct (Put_spec (ToLower d) a l2 (gc_inv _ _ Hg2)) as (Hi3 & Hc3 & Hcap3).
    exists (with_cache h (Put (ToLower d) a l2) (cyc (S j) (nextIP h))), (Put (ToLower d) a l2), z.
    split; [done|]. split; [apply cyc_block|]. split; [split; cbn; try done|].
    + apply cyc_block.
    + split; [done| |].
      * apply Put_fresh_value_inv; try done; apply Hg2.
      * pose proof (spec_put_length (capacity l2) (ToLower d) a (contents l2)) as Hlen. rewrite <-Hc3 in Hlen. destruct Hg2. lia.
    + congruence.
    + intros k v. rewrite Hm, elem_of_cons. intros [[= -> ->]|Hin]; [exists z; split; [apply cyc_block|done]|].
      apply (Hvals k). rewrite <-Hperm, <-Hp2. by eapply (subseteq_take m).
    + split; [rewrite Hm; by left|]. right. split; [|split; [done|]].
      * intros [k Hk]. apply Hno. exists k. by rewrite Hp2, Hperm.
      * exists m, (contents l2). split; [by rewrite Hp2|done].
Qed.
End Ask.

(** Asking for an address: its name in the cache, which stays as it is. *)
Lemma GetDomainFromFakeDNS_running {E} n h l ip : running n h l ->
  exists h' l' d, GetDomainFromFakeDNS (E := E) h ip = Ok (h', d) /\ running n h' l' /\ contents l' ≡ₚ contents l /\
    ((d, Some ip) ∈ contents l \/ d = [] /\ forall k, (k, Some ip) ∉ contents l).
Proof.
  intros Hrun. pose proof Hrun as [Hmu Hcache Hrange Hnext Hgood Hcap Hsize Hvals]. unfold GetDomainFromFakeDNS. rewrite Hmu, Hcache, Hrange.
  assert (forall k, (k, Some ip) ∈ contents l -> exists z, block z /\ ip = addr_of L z) as Hip.
  { intros k Hk. destruct (Hvals _ _ Hk) as (z & Hz & [= ->]). by exists z. }
  destruct (IsIP (Family ip)) eqn:Ef; cbn [negb].
  2: { exists h, l, []. split; [done|]. split; [done|]. split; [done|]. right. split; [done|]. intros k Hk.
       destruct (Hip k Hk) as (z & _ & ->). by rewrite (proj1 (proj2 (addr_of_IP z))) in Ef. }
  assert (exists a, IP ip = Some a) as [a Ha] by (destruct ip; eauto; done). rewrite Ha.
  destruct (Contains net a) eqn:Ec; cbn [negb].
  2: { exists h, l, []. split; [done|]. split; [done|]. split; [done|]. right. split; [done|]. intros k Hk.
       destruct (Hip k Hk) as (z & Hz & ->). rewrite (proj1 (addr_of_IP z)) in Ha. injection Ha as <-.
       apply Contains_split in Hz as Hz'; [congruence|]. by apply block_range. }
  destruct (good_cache_lookup (Z.to_nat n) l (Some ip) Hgood) as (Hgc & Hperm & Hc).
  pose proof (GetKeyFromValue_spec (Some ip) l (gc_inv _ _ Hgood) (gc_vinv _ _ Hgood)) as (_ & _ & _ & Hr).
  destruct (GetKeyFromValue (Some ip) l) as [l1 [k|]]; cbn [fst snd] in *.
  - exists (with_cache h l1 (nextIP h)), l1, k. split; [done|]. split; [by eapply running_perm|]. split; [done|]. left. apply Hr.
  - exists (with_cache h l1 (nextIP h)), l1, []. split; [done|]. split; [by eapply running_perm|]. split; [done|]. right. split; [done|apply Hr].
Qed.
End Block.

(** ** Runs of calls *)

(** A new holder on a CIDR is running. *)
Lemma initialize_running h0 s n h ip net : ParseCIDR s = Some (ip, net) -> head (net_IP net) ≠ Some x00 -> 1 <= n ->
  initialize h0 s n = Ok h -> exists L r l, network net L r /\ running net L r n h l /\ contents l = [].
Proof.
  intros Hp Hh Hn. unfold initialize. rewrite Hp. destruct (ParseCIDR_network _ _ _ Hp Hh) as (L & r & a & Hnet & Ha & Hl & Hha & Hblock).
  rewrite (network_mask _ _ _ Hnet). rewrite Mask_Size_CIDRMask by (destruct Hnet; done || lia). cbv zeta.
  replace (8 * Z.of_nat L - (8 * Z.of_nat L - r)) with r by lia. unfold Log2_reaches.
  destruct (Z.ltb_spec 0 n); [|lia]. destruct (Z.leb_spec (2 ^ r) n); [done|]. cbn [andb]. intros [= <-].
  exists L, r, (NewLru n). split; [done|]. split; [|done]. destruct (lru_inv_New (K := bytes) (V := option Address) n) as [I1 I2].
  split; cbn; try done.
  - assert (match To4 ip with Some ip4 => big_SetBytes ip4 | None => big_SetBytes ip end = be_combine a) as ->; [|exact Hblock].
    rewrite <-Ha. by destruct (To4 ip).
  - split; [done|done|]. cbn. lia.
  - by intros k v ?%not_elem_of_nil.
Qed.

Inductive fake_call := AskIP (d : bytes) | AskDomain (ip : Address).

Section Calls.
Context `{StringLibs}.

Fixpoint run_fake (fuel : nat) (calls : list fake_call) (h : Holder) : option (outcome unit Holder) :=
  match calls with
  | [] => Some (Ok h)
  | AskIP d :: calls' =>
      match GetFakeIPForDomain fuel h d with
      | Some (Ok (h, _)) => run_fake fuel calls' h
      | Some (Err e) => Some (Err e)
      | Some Panic => Some Panic
      | None => None
      end
  | AskDomain ip :: calls' =>
      match GetDomainFromFakeDNS h ip with
      | Ok (h, _) => run_fake fuel calls' h
      | Err e => Some (Err e)
      | Panic => Some Panic
      end
  end.

Lemma run_fake_running net L r n calls : network net L r -> forall h l, running net L r n h l ->
  exists h' l', run_fake (S (Z.to_nat n)) calls h = Some (Ok h') /\ running net L r n h' l'.
Proof.
  intros Hnet. induction calls as [|[d|ip] calls IH]; intros h l Hrun; cbn [run_fake]; [by eauto|..].
  - destruct (GetFakeIPForDomain_running net L r Hnet (E := unit) n h l d Hrun) as (h' & l' & z & -> & _ & Hrun' & _). by apply (IH h' l').
  - destruct (GetDomainFromFakeDNS_running net L r Hnet (E := unit) n h l ip Hrun) as (h' & l' & d & -> & Hrun' & _). by apply (IH h' l').
Qed.

(** ** Properties *)

(** C38: on a network whose first byte is not zero, with a cache of at least
    one pair and smaller than the network, no sequence of calls panics or
    searches for ever: each call ends within as many turns as the cache holds
    pairs and one more, and asking for a name gives one address, in the pool. *)
Theorem fake_dns_always_answers h0 s n h ip net calls d :
  ParseCIDR s = Some (ip, net) -> head (net_IP net) ≠ Some x00 -> 1 <= n -> initialize h0 s n = Ok h ->
  exists h1 h2 a, run_fake (S (Z.to_nat n)) calls h = Some (Ok h1) /\
    GetFakeIPForDomain (E := unit) (S (Z.to_nat n)) h1 d = Some (Ok (h2, [Some a])) /\
    IsIPInIPPool (E := unit) h2 a = Ok true.
Proof.
  intros Hp Hh Hn Hi. destruct (initialize_running h0 s n h ip net Hp Hh Hn Hi) as (L & r & l & Hnet & Hrun & _).
  destruct (run_fake_running net L r n calls Hnet h l Hrun) as (h1 & l1 & Hc & Hrun1).
  destruct (GetFakeIPForDomain_running net L r Hnet (E := unit) n h1 l1 d Hrun1) as (h2 & l2 & z & Hf & Hz & Hrun2 & _).
  exists h1, h2, (addr_of L z). split; [done|]. split; [done|]. unfold IsIPInIPPool.
  destruct (addr_of_IP L z) as (-> & _ & ->). rewrite (run_range _ _ _ _ _ _ Hrun2). f_equal.
  by apply (Contains_split net L r Hnet z (block_range net L r Hnet z Hz)).
Qed.

(** C30: for a pool whose network does not begin with a zero byte and which
    keeps at least one address, an address handed out leads back to the name
    it was handed out for, in lower case, and the next name, when it is another
    one, gets another address: whatever calls came before. (A network that
    begins with a zero byte gives a nil address, and a pool of a negative size
    forgets an address at once.) *)
Theorem fake_dns_roundtrip h0 s n h ip net calls d d' :
  ParseCIDR s = Some (ip, net) -> head (net_IP net) ≠ Some x00 -> 1 <= n -> initialize h0 s n = Ok h ->
  ToLower d ≠ ToLower d' ->
  exists h1 h2 h3 h4 a a', run_fake (S (Z.to_nat n)) calls h = Some (Ok h1) /\
    GetFakeIPForDomain (E := unit) (S (Z.to_nat n)) h1 d = Some (Ok (h2, [Some a])) /\
    GetDomainFromFakeDNS (E := unit) h2 a = Ok (h3, ToLower d) /\
    GetFakeIPForDomain (E := unit) (S (Z.to_nat n)) h3 d' = Some (Ok (h4, [Some a'])) /\ a ≠ a'.
Proof.
  intros Hp Hh Hn Hi Hd. destruct (initialize_running h0 s n h ip net Hp Hh Hn Hi) as (L & r & l & Hnet & Hrun & _).
  destruct (run_fake_running net L r n calls Hnet h l Hrun) as (h1 & l1 & Hc & Hrun1).
  destruct (GetFakeIPForDomain_running net L r Hnet (E := unit) n h1 l1 d Hrun1) as (h2 & l2 & z & Hf & Hz & Hrun2 & Hin2 & _).
  destruct (GetDomainFromFakeDNS_running net L r Hnet (E := unit) n h2 l2 (addr_of L z) Hrun2) as (h3 & l3 & k & Hg & Hrun3 & Hp3 & Hk).
  assert (inv l2 /\ value_inv l2 /\ inv l3 /\ value_inv l3) as (I2 & V2 & I3 & V3) by (destruct (run_good _ _ _ _ _ _ Hrun2), (run_good _ _ _ _ _ _ Hrun3); done).
  assert (k = ToLower d) as ->.
  { destruct Hk as [Hk|[_ Hno]]; [by apply (value_unique _ _ (Some (addr_of L z)) l2)|]. by destruct (Hno _ Hin2). }
  destruct (GetFakeIPForDomain_running net L r Hnet (E := unit) n h3 l3 d' Hrun3) as (h4 & l4 & z' & Hf' & Hz' & _ & Hin4 & Hnew).
  exists h1, h2, h3, h4, (addr_of L z), (addr_of L z'). do 4 (split; [done|]). intros He. rewrite <-He in *.
  assert ((ToLower d, Some (addr_of L z)) ∈ contents l3) as Hin3 by (by rewrite Hp3).
  destruct Hnew as [Hp4|(Hno & _)].
  - rewrite Hp4 in Hin4. apply Hd. by apply (value_unique _ _ (Some (addr_of L z)) l3).
  - apply Hno. exists (ToLower d). unfold addr_of in *. congruence.
Qed.
End Calls.

#[local] Existing Instance ascii_libs.

Definition small_pool : bytes := bs "10.0.0.0/30".
Definition small_holder : Holder :=
  match initialize (NewFakeDNSHolderConfigOnly None) small_pool 2 with Ok h => h | _ => NewFakeDNSHolderConfigOnly None end.

(** Five names in a pool of four addresses with a cache of two. *)
Example small_holder_wraps :
  (match run_fake 3 [AskIP (bs "a"); AskIP (bs "b"); AskIP (bs "c"); AskIP (bs "A")] small_holder with
   | Some (Ok h) => match GetFakeIPForDomain (E := unit) 3 h (bs "e") with Some (Ok (_, l)) => l | _ => [] end
   | _ => [] end) = [Some (ipv4Address [x0a; x00; x00; x00])].
Proof. vm_compute. reflexivity. Qed.

Lemma fake_dns_always_answers_witness :
  exists h1 h2 a, run_fake 3 [AskIP (bs "a"); AskIP (bs "b")] small_holder = Some (Ok h1) /\
    GetFakeIPForDomain (E := unit) 3 h1 (bs "c") = Some (Ok (h2, [Some a])) /\ IsIPInIPPool (E := unit) h2 a = Ok true.
Proof.
  apply (fake_dns_always_answers (NewFakeDNSHolderConfigOnly None) small_pool 2 small_holder (v4_in_v6_prefix ++ [x0a; x00; x00; x00])
    {| net_IP := [x0a; x00; x00; x00]; net_Mask := [xff; xff; xff; xfc] |}).
  - vm_compute. reflexivity.
  - discriminate.
  - lia.
  - vm_compute. reflexivity.
Defined.

Lemma fake_dns_roundtrip_witness :
  exists h1 h2 h3 h4 a a', run_fake 3 [AskIP (bs "a")] small_holder = Some (Ok h1) /\
    GetFakeIPForDomain (E := unit) 3 h1 (bs "C") = Some (Ok (h2, [Some a])) /\
    GetDomainFromFakeDNS (E := unit) h2 a = Ok (h3, bs "c") /\
    GetFakeIPForDomain (E := unit) 3 h3 (bs "a") = Some (Ok (h4, [Some a'])) /\ a ≠ a'.
Proof.
  apply (fake_dns_roundtrip (NewFakeDNSHolderConfigOnly None) small_pool 2 small_holder (v4_in_v6_prefix ++ [x0a; x00; x00; x00])
    {| net_IP := [x0a; x00; x00; x00]; net_Mask := [xff; xff; xff; xfc] |} [AskIP (bs "a")] (bs "C") (bs "a")).
  - vm_compute. reflexivity.
  - discriminate.
  - lia.
  - vm_compute. reflexivity.
  - discriminate.
Defined.

(** ** Several pools *)

(** The network of a holder, started or not. *)
Definition holder_net (h : Holder) : option IPNet :=
  match ipRange h with
  | Some range => Some range
  | None => c ← config h; snd <$> ParseCIDR (IpPool c)
  end.

Definition nets_apart (a b : IPNet) : Prop := Contains a (net_IP b) = false /\ Contains b (net_IP a) = false.

(** The pointers are in the store, and different holders have networks of
    which neither contains the other's number. *)
Record pools_inv (good : IPNet -> Prop) (s : store) (m : HolderMulti) : Prop := {
  pi_store : forall p, p ∈ holders m -> exists h n, s !! p = Some h /\ holder_net h = Some n /\ good n;
  pi_apart : forall p q hp hq np nq, p ∈ holders m -> q ∈ holders m -> p ≠ q -> s !! p = Some hp -> s !! q = Some hq ->
    holder_net hp = Some np -> holder_net hq = Some nq -> nets_apart np nq;
}.

Lemma find_pool_apart s new hs : forall b b', find_pool s hs new b = Ok (inr b') ->
  forall p h n, p ∈ hs -> s !! p = Some h -> holder_net h = Some n -> nets_apart n new.
Proof.
  induction hs as [|p hs IH]; intros b b' Hf q h n Hq Hs Hn; [by apply not_elem_of_nil in Hq|].
  cbn [find_pool] in Hf. destruct (s !! p) as [hp|] eqn:Hsp; [|done].
  apply outcome_bind_ok in Hf as ([range b2] & Hr & Hf).
  assert (holder_net hp = Some range) as Hnp.
  { unfold holder_net. destruct (ipRange hp); [by injection Hr as <- _|]. destruct (config hp) as [c|]; [|done]. cbn.
    destruct (ParseCIDR (IpPool c)) as [[? ?]|]; [by injection Hr as <- _|done]. }
  destruct (same_String range new); [done|]. destruct (_ || _) eqn:Ec; [done|]. apply orb_false_iff in Ec.
  apply elem_of_cons in Hq as [->|Hq]; [|by eapply IH]. assert (n = range) as -> by congruence. done.
Qed.

Lemma Start_net h h' : ipRange h = None -> Start h = Ok h' -> holder_net h' = holder_net h.
Proof.
  intros Hr. unfold Start, holder_net. rewrite Hr. destruct (config h) as [c|] eqn:Ec; [|done].
  destruct (_ && _); [|done]. unfold initializeFromConfig, initialize. rewrite Ec. cbn.
  destruct (ParseCIDR (IpPool c)) as [[ip range]|]; [|done]. destruct (Mask_Size _). destruct (Log2_reaches _ _); [done|].
  by intros [= <-].
Qed.

Lemma AddPool_inv (good : IPNet -> Prop) s m c s' m' p : pools_inv good s m ->
  (forall ip n, ParseCIDR (IpPool c) = Some (ip, n) -> good n) ->
  AddPool s m c = Ok (s', m', p) -> pools_inv good s' m'.
Proof.
  intros [Hst Hap] Hgood. unfold AddPool. destruct (ParseCIDR (IpPool c)) as [[ip new]|] eqn:Hc; [|done].
  intros (found & Hf & Hrest)%outcome_bind_ok. destruct found as [q|b].
  - injection Hrest as <- <- <-. done.
  - apply outcome_bind_ok in Hrest as (holder & Hh & Hrest). injection Hrest as <- <- _.
    assert (holder_net holder = Some new) as Hnew.
    { assert (holder_net (NewFakeDNSHolderConfigOnly (Some c)) = Some new) as E by (unfold holder_net; cbn; by rewrite Hc).
      destruct b; [|by injection Hh as <-]. by rewrite (Start_net (NewFakeDNSHolderConfigOnly (Some c)) holder eq_refl Hh). }
    assert (forall q, q ∈ holders m -> (q < length s)%nat) as Hlt.
    { intros q Hq. destruct (Hst q Hq) as (h & _ & Hs & _). by eapply lookup_lt_Some. }
    assert (forall q, q ∈ holders m -> (s ++ [holder]) !! q = s !! q) as Hold by (intros; rewrite lookup_app_l; auto).
    assert ((s ++ [holder]) !! length s = Some holder) as Hlast by (apply list_lookup_middle; done).
    split; cbn [holders].
    + intros q [Hq| ->%list_elem_of_singleton]%elem_of_app; [rewrite Hold by done; by apply Hst|].
      exists holder, new. split; [done|]. split; [done|]. by eapply Hgood.
    + intros q1 q2 h1 h2 n1 n2 [Hq1| ->%list_elem_of_singleton]%elem_of_app [Hq2| ->%list_elem_of_singleton]%elem_of_app Hne;
        rewrite ?Hlast, ?(Hold q1), ?(Hold q2) by done; intros Hs1 Hs2 Hn1 Hn2.
      * by apply (Hap q1 q2 h1 h2).
      * assert (n2 = new) as -> by congruence. by apply (find_pool_apart s new (holders m) false b Hf q1 h1 n1).
      * assert (n1 = new) as -> by congruence. destruct (find_pool_apart s new (holders m) false b Hf q2 h2 n2 Hq2 Hs2 Hn2). by split.
      * done.
Qed.

Lemma createHolderGroups_inv (good : IPNet -> Prop) pools : forall s m s' m' u, pools_inv good s m ->
  (forall c ip n, c ∈ pools -> ParseCIDR (IpPool c) = Some (ip, n) -> good n) ->
  createHolderGroups s m pools = (s', m', Ok u) -> pools_inv good s' m'.
Proof.
  induction pools as [|c pools IH]; intros s m s' m' u Hi Hgood; cbn [createHolderGroups].
  - by intros [= <- <- _].
  - destruct (AddPool s m c) as [[[s1 m1] p]| |] eqn:Ha; [|done|done]. apply IH; [|intros; eapply Hgood; [by right|done]].
    eapply AddPool_inv; [done| |done]. intros ip n. apply Hgood. by left.
Qed.

(** The pools of a multi-holder never share an address: whatever pools the
    configuration lists, of networks whose first byte is not zero, no address
    is in the networks of two different holders. *)
Theorem fake_pools_disjoint pools s m p q hp hq np nq a :
  NewFakeDNSHolderMulti [] pools = (s, Ok m) ->
  (forall c ip n, c ∈ pools -> ParseCIDR (IpPool c) = Some (ip, n) -> head (net_IP n) ≠ Some x00) ->
  p ∈ holders m -> q ∈ holders m -> p ≠ q -> s !! p = Some hp -> s !! q = Some hq ->
  holder_net hp = Some np -> holder_net hq = Some nq ->
  Contains np a && Contains nq a = false.
Proof.
  intros Hnew Hheads Hp Hq Hne Hsp Hsq Hnp Hnq. unfold NewFakeDNSHolderMulti in Hnew.
  destruct (createHolderGroups [] {| holders := [] |} pools) as [[s' m'] r] eqn:E. cbn in Hnew.
  destruct r as [u| |]; cbn in Hnew; [|done|done]. injection Hnew as -> ->.
  assert (pools_inv (fun n => exists L r, network n L r) s m) as [Hst Hap].
  { eapply createHolderGroups_inv; [| |exact E].
    - split; cbn; [by intros ? ?%not_elem_of_nil|]. by intros ? ? ? ? ? ? ?%not_elem_of_nil.
    - intros c ip n Hc Hparse. destruct (ParseCIDR_network _ _ _ Hparse (Hheads c ip n Hc Hparse)) as (L & r & _ & Hnet & _). eauto. }
  destruct (Hst p Hp) as (? & ? & ? & ? & L1 & r1 & N1), (Hst q Hq) as (? & ? & ? & ? & L2 & r2 & N2). simplify_eq.
  destruct (Hap p q hp hq np nq) as [A1 A2]; [done..|].
  destruct (Contains np a) eqn:C1, (Contains nq a) eqn:C2; try done.
  destruct (networks_overlap _ _ _ _ _ _ a N1 N2 C1 C2); congruence.
Qed.

Definition two_pools : list FakeDnsPool := [{| IpPool := bs "10.0.0.0/30"; LruSize := 2 |}; {| IpPool := bs "fc00::/18"; LruSize := 9 |}].

Lemma fake_pools_disjoint_witness :
  Contains {| net_IP := [x0a; x00; x00; x00]; net_Mask := [xff; xff; xff; xfc] |} [x0a; x00; x00; x01] &&
  Contains {| net_IP := xfc :: zero_bytes 15; net_Mask := CIDRMask 18 128 |} [x0a; x00; x00; x01] = false.
Proof.
  apply (fake_pools_disjoint two_pools (NewFakeDNSHolderMulti [] two_pools).1 {| holders := [0; 1]%nat |} 0%nat 1%nat
    (NewFakeDNSHolderConfigOnly (Some {| IpPool := bs "10.0.0.0/30"; LruSize := 2 |}))
    (NewFakeDNSHolderConfigOnly (Some {| IpPool := bs "fc00::/18"; LruSize := 9 |}))).
  - vm_compute. reflexivity.
  - intros c ip n [->|[->|[]%not_elem_of_nil]%elem_of_cons]%elem_of_cons Hparse; vm_compute in Hparse; injection Hparse as <- <-; discriminate.
  - by left.
  - right. by left.
  - discriminate.
  - vm_compute. reflexivity.
  - vm_compute. reflexivity.
  - vm_compute. reflexivity.
  - vm_compute. reflexivity.
Defined.
