(* ===== verification/AddressCodec.v ===== *)
(** * The address codec, [common/protocol/address.go]

    Addresses and ports in the byte formats of the proxy protocols: a parser
    is built from options that give each address family its type byte and
    say whether the port comes first.  Reading goes through a buffer that
    keeps what was read, as in the code; an [io.Reader] is the bytes still to
    come, and a writer any state with a [Write] that may fail. *)

From S2P Require Import Prelude Buffer Net.

Local Open Scope Z_scope.

Inductive codec_error :=
  | ErrRead            (* the reader ended, or the buffer is too small *)
  | ErrUnknownType     (* unknown address type *)
  | ErrInvalidDomain   (* invalid domain name *)
  | ErrUnknownFamily   (* unknown address family *)
  | ErrLongDomain      (* Super long domain is not supported *)
  | ErrWrite           (* the writer failed *).

(** ** Options and parsers *)

Definition afInvalid : byte := xff.

Definition family_byte (f : AddressFamily) : nat :=
  match f with AddressFamilyIPv4 => 0 | AddressFamilyIPv6 => 1 | AddressFamilyDomain => 2 end.

(** [None] in [addrTypeMap] is [afInvalid].
    src/common/protocol/address.go option *)
Record option_ := {
  o_addrTypeMap : list (option AddressFamily); o_addrByteMap : list byte;
  o_portFirst : bool; o_typeParser : option (byte -> byte)
}.

Definition AddressOption : Type := option_ -> option_.

(** src/common/protocol/address.go PortThenAddress *)
Definition PortThenAddress : AddressOption := fun p =>
  {| o_addrTypeMap := o_addrTypeMap p; o_addrByteMap := o_addrByteMap p; o_portFirst := true; o_typeParser := o_typeParser p |}.

(** src/common/protocol/address.go AddressFamilyByte *)
Definition AddressFamilyByte (b : byte) (f : AddressFamily) : outcome codec_error AddressOption :=
  if 16 <=? byte_to_Z b then Panic
  else Ok (fun p =>
    {| o_addrTypeMap := <[Z.to_nat (byte_to_Z b) := Some f]> (o_addrTypeMap p);
       o_addrByteMap := <[family_byte f := b]> (o_addrByteMap p);
       o_portFirst := o_portFirst p; o_typeParser := o_typeParser p |}).

(** src/common/protocol/address.go WithAddressTypeParser *)
Definition WithAddressTypeParser (atp : byte -> byte) : AddressOption := fun p =>
  {| o_addrTypeMap := o_addrTypeMap p; o_addrByteMap := o_addrByteMap p; o_portFirst := o_portFirst p; o_typeParser := Some atp |}.

(** src/common/protocol/address.go addressParser *)
Record addressParser := {
  addrTypeMap : list (option AddressFamily); addrByteMap : list byte; typeParser : option (byte -> byte)
}.

(** src/common/protocol/address.go AddressSerializer *)
Inductive AddressSerializer := portFirstAddressParser (ap : addressParser) | portLastAddressParser (ap : addressParser).

(** src/common/protocol/address.go NewAddressParser *)
Definition NewAddressParser (options : list AddressOption) : AddressSerializer :=
  let o := {| o_addrTypeMap := replicate 16 None; o_addrByteMap := replicate 16 afInvalid; o_portFirst := false; o_typeParser := None |} in
  let o := foldl (fun o opt => opt o) o options in
  let ap := {| addrTypeMap := o_addrTypeMap o; addrByteMap := o_addrByteMap o; typeParser := o_typeParser o |} in
  if o_portFirst o then portFirstAddressParser ap else portLastAddressParser ap.

(** ** Reading *)

(** [b.ReadFullFrom(reader, n)] on the bytes still to come: it fails when
    there are fewer than [n]. *)
Definition read_full (b : Buffer) (input : bytes) (n : Z) : outcome codec_error (Buffer * bytes) :=
  match ReadFullFrom b (fun k => (take k input, (length input <? k)%nat)) n with
  | Ok (b', nBytes, false) => Ok (b', drop (Z.to_nat nBytes) input)
  | Ok (_, _, true) | Err _ => Err ErrRead
  | Panic => Panic
  end.

(** The buffer operations used here only fail by panicking. *)
Definition must {A} (r : outcome unit A) : outcome codec_error A :=
  match r with Ok a => Ok a | Err _ => Err ErrRead | Panic => Panic end.

(** src/common/protocol/address.go readPort *)
Definition readPort (b : Buffer) (input : bytes) : outcome codec_error (Buffer * bytes * Z) :=
  '(b, input) ← read_full b input 2;
  p ← must (BytesFrom b (-2));
  Ok (b, input, PortFromBytes p).

(** src/common/protocol/address.go maybeIPPrefix *)
Definition maybeIPPrefix (b : byte) : bool := (byte_to_Z b =? 91) || ((48 <=? byte_to_Z b) && (byte_to_Z b <=? 57)).

(** The code ranges over runes; a byte above 127 belongs to a rune that is
    not in the list either.
    src/common/protocol/address.go isValidDomain *)
Definition isValidDomain (d : bytes) : bool :=
  forallb (fun c => isAlphaNum c || (byte_to_Z c =? 45) || (byte_to_Z c =? 46) || (byte_to_Z c =? 95)) d.

(** What comes after the length byte of a domain.
    src/common/protocol/address.go:206-220 addressParser.readAddress *)
Definition readDomain (b : Buffer) (input : bytes) (domainLength : Z) : outcome codec_error (Buffer * bytes * option Address) :=
  '(b, input) ← read_full b input domainLength;
  domain ← must (BytesFrom b (- domainLength));
  match domain with
  | [] => Panic
  | c :: _ =>
      let refuse_or_keep :=
        if negb (isValidDomain domain) then Err ErrInvalidDomain else Ok (b, input, Some (domainAddress domain)) in
      if maybeIPPrefix c then
        match ParseAddress domain with
        | None => Panic
        | Some addr => if IsIP (Family addr) then Ok (b, input, Some addr) else refuse_or_keep
        end
      else refuse_or_keep
  end.

(** src/common/protocol/address.go addressParser.readAddress *)
Definition readAddress (p : addressParser) (b : Buffer) (input : bytes) : outcome codec_error (Buffer * bytes * option Address) :=
  '(b, input) ← read_full b input 1;
  addrType ← must (Byte b (Len b - 1));
  let addrType := match typeParser p with Some f => f addrType | None => addrType end in
  if 16 <=? byte_to_Z addrType then Err ErrUnknownType
  else
    match addrTypeMap p !! Z.to_nat (byte_to_Z addrType) with
    | None => Panic
    | Some None => Err ErrUnknownType
    | Some (Some AddressFamilyIPv4) =>
        '(b, input) ← read_full b input 4;
        a ← must (BytesFrom b (-4));
        Ok (b, input, IPAddress a)
    | Some (Some AddressFamilyIPv6) =>
        '(b, input) ← read_full b input 16;
        a ← must (BytesFrom b (-16));
        Ok (b, input, IPAddress a)
    | Some (Some AddressFamilyDomain) =>
        '(b, input) ← read_full b input 1;
        n ← must (Byte b (Len b - 1));
        readDomain b input (byte_to_Z n)
    end.

(** With [buffer] nil a new one is used, an array [garbage] from the pool.
    src/common/protocol/address.go portFirstAddressParser.ReadAddressPort *)
Definition portFirst_ReadAddressPort (garbage : bytes) (ap : addressParser) (buffer : option Buffer) (input : bytes) :
    outcome codec_error (bytes * option Address * Z) :=
  let buffer := default (New garbage) buffer in
  '(buffer, input, port) ← readPort buffer input;
  '(buffer, input, addr) ← readAddress ap buffer input;
  Ok (input, addr, port).

(** src/common/protocol/address.go portLastAddressParser.ReadAddressPort *)
Definition portLast_ReadAddressPort (garbage : bytes) (ap : addressParser) (buffer : option Buffer) (input : bytes) :
    outcome codec_error (bytes * option Address * Z) :=
  let buffer := default (New garbage) buffer in
  '(buffer, input, addr) ← readAddress ap buffer input;
  '(buffer, input, port) ← readPort buffer input;
  Ok (input, addr, port).

Definition ReadAddressPort (garbage : bytes) (s : AddressSerializer) : option Buffer -> bytes -> outcome codec_error (bytes * option Address * Z) :=
  match s with
  | portFirstAddressParser ap => portFirst_ReadAddressPort garbage ap
  | portLastAddressParser ap => portLast_ReadAddressPort garbage ap
  end.

(** ** Writing *)

(** src/common/protocol/headers.go IsDomainTooLong *)
Definition IsDomainTooLong (domain : bytes) : bool := 255 <? Z.of_nat (length domain).

Section Writer.
Context {W : Type} (write : W -> bytes -> outcome codec_error W).

(** src/common/protocol/address.go writePort *)
Definition writePort (w : W) (port : Z) : outcome codec_error W := write w (put16 port).

(** A nil address has no family.
    src/common/protocol/address.go addressParser.writeAddress *)
Definition writeAddress (p : addressParser) (w : W) (address : option Address) : outcome codec_error W :=
  match address with
  | None => Panic
  | Some address =>
      match addrByteMap p !! family_byte (Family address) with
      | None => Panic
      | Some tb =>
          if bool_decide (tb = afInvalid) then Err ErrUnknownFamily
          else match address with
               | ipv4Address ip | ipv6Address ip => w ← write w [tb]; write w ip
               | domainAddress domain =>
                   if IsDomainTooLong domain then Err ErrLongDomain
                   else w ← write w [tb; byte_of_Z (Z.of_nat (length domain))]; write w domain
               end
      end
  end.

(** src/common/protocol/address.go portFirstAddressParser.WriteAddressPort *)
Definition portFirst_WriteAddressPort (ap : addressParser) (w : W) (addr : option Address) (port : Z) : outcome codec_error W :=
  w ← writePort w port; writeAddress ap w addr.

(** src/common/protocol/address.go portLastAddressParser.WriteAddressPort *)
Definition portLast_WriteAddressPort (ap : addressParser) (w : W) (addr : option Address) (port : Z) : outcome codec_error W :=
  w ← writeAddress ap w addr; writePort w port.

Definition WriteAddressPort (s : AddressSerializer) : W -> option Address -> Z -> outcome codec_error W :=
  match s with
  | portFirstAddressParser ap => portFirst_WriteAddressPort ap
  | portLastAddressParser ap => portLast_WriteAddressPort ap
  end.
End Writer.

(** A writer that keeps everything. *)
Definition append_writer (w : bytes) (data : bytes) : outcome codec_error bytes := Ok (w ++ data).

(** A buffer as a writer: what does not fit is dropped without an error. *)
Definition buffer_writer (b : Buffer) (data : bytes) : outcome codec_error Buffer := '(b, _) ← must (Write b data); Ok b.
