(* ===== verification/AddressCodecFacts.v ===== *)
(** * Facts about the address codec

    Reading bytes from the peer never panics and only accepts well-formed
    addresses; an address that was written is read back, and nothing after
    it is consumed. *)

From S2P Require Import Prelude Segment Buffer BufferFacts Net NetFacts AddressCodec.

Local Open Scope Z_scope.

(** ** Reading into a buffer *)

Lemma read_full_ok b input n : wf b -> (n <= room b)%nat ->
  if decide (n <= length input)%nat then
    exists b', read_full b input (Z.of_nat n) = Ok (b', drop n input) /\ wf b' /\
      content b' = content b ++ take n input /\ room b' = (room b - n)%nat
  else read_full b input (Z.of_nat n) = Err ErrRead.
Proof.
  intros Hb Hn. pose proof Hb as [Hc He Hi]. unfold read_full, ReadFullFrom, room, cap in *.
  rewrite (i32_small (end_ b + Z.of_nat n)), (i32_small (Z.of_nat (length (arr b)))) by lia.
  rewrite (decide_False (P := end_ b + Z.of_nat n > _)), slice_of_ok by (unfold cap; lia). cbn [mbind outcome_bind].
  replace (Z.to_nat (end_ b + Z.of_nat n - end_ b)) with n by lia. case_decide as Hl.
  - destruct (Nat.ltb_spec (length input) n); [lia|].
    assert (length (take n input) = n) as Ht by (rewrite length_take; lia).
    destruct (fill_content b (take n input) (end_ b + Z.of_nat n) Hb) as (Hw & Hct & Hr); [unfold room; lia|lia|].
    eexists. rewrite Ht, Nat2Z.id. split; [done|]. split; [done|]. split; [done|]. unfold room in Hr. rewrite Hr. lia.
  - destruct (Nat.ltb_spec (length input) n); [done|lia].
Qed.

Lemma BytesFrom_last b n : wf b -> (0 < n <= length (content b))%nat ->
  BytesFrom b (- Z.of_nat n) = Ok (drop (length (content b) - n) (content b)).
Proof.
  intros Hb Hn. pose proof (length_content b Hb) as Hl. pose proof (Len_content b Hb) as HL. destruct Hb as [Hc He Hi].
  unfold BytesFrom, from_end. destruct (Z.ltb_spec (- Z.of_nat n) 0); [|lia].
  rewrite HL, (i32_small (- Z.of_nat n + _)), i32_small by (unfold cap in *; lia). rewrite slice_of_ok by lia. f_equal.
  unfold content at 4. rewrite skipn_firstn_comm, drop_drop. f_equal; [lia|]. f_equal. lia.
Qed.

Lemma BytesFrom_0 b : wf b -> BytesFrom b 0 = Ok (content b).
Proof.
  intros Hb. destruct Hb as [Hc He Hi]. unfold BytesFrom, from_end. cbn [Z.ltb Z.compare].
  rewrite Z.add_0_r, i32_small by lia. by rewrite slice_of_ok by lia.
Qed.

Lemma Byte_last b c x : wf b -> content b = c ++ [x] -> Byte b (Len b - 1) = Ok x.
Proof.
  intros Hb Hx. pose proof (length_content b Hb) as Hl. pose proof (Len_content b Hb) as HL. destruct Hb as [Hc He Hi].
  rewrite Hx, length_snoc in Hl, HL. unfold Byte. rewrite HL, i32_small by lia. rewrite decide_True by lia. f_equal.
  assert (content b !! length c = Some x) as Hlk by (rewrite Hx; by apply list_lookup_middle).
  unfold content in Hlk. rewrite lookup_take in Hlk. case_decide; [|done]. rewrite lookup_drop in Hlk.
  apply list_lookup_total_correct. rewrite <-Hlk. f_equal. lia.
Qed.

(** Reading [n > 0] bytes and looking at them. *)
Lemma read_last b input n : wf b -> (0 < n <= room b)%nat ->
  if decide (n <= length input)%nat then
    exists b', read_full b input (Z.of_nat n) = Ok (b', drop n input) /\ wf b' /\
      content b' = content b ++ take n input /\ room b' = (room b - n)%nat /\ BytesFrom b' (- Z.of_nat n) = Ok (take n input)
  else read_full b input (Z.of_nat n) = Err ErrRead.
Proof.
  intros Hb Hn. pose proof (read_full_ok b input n Hb ltac:(lia)) as H. case_decide as Hl; [|done].
  destruct H as (b' & Hr & Hw & Hc & Hroom). exists b'. do 4 (split; [done|]).
  assert (length (content b') = length (content b) + n)%nat as Hlen by (rewrite Hc, length_app, length_take; lia).
  rewrite BytesFrom_last by (done || lia). rewrite Hlen, Hc. f_equal. rewrite drop_app_ge by lia.
  replace (length (content b) + n - n - length (content b))%nat with 0%nat by lia. done.
Qed.

Lemma read_byte b input : wf b -> (1 <= room b)%nat ->
  match input with
  | x :: input' => exists b', read_full b input 1 = Ok (b', input') /\ wf b' /\ content b' = content b ++ [x] /\
      room b' = (room b - 1)%nat /\ Byte b' (Len b' - 1) = Ok x
  | [] => read_full b input 1 = Err ErrRead
  end.
Proof.
  intros Hb Hn. pose proof (read_full_ok b input 1 Hb Hn) as H. destruct input as [|x input]; [done|].
  rewrite decide_True in H by (cbn; lia). destruct H as (b' & Hr & Hw & Hc & Hroom). exists b'. do 4 (split; [done|]).
  by eapply Byte_last.
Qed.

(** ** What is accepted *)

Definition well_formed (a : Address) : Prop :=
  match a with
  | ipv4Address ip => length ip = 4%nat
  | ipv6Address ip => length ip = 16%nat
  | domainAddress d => d ≠ [] /\ isValidDomain d = true
  end.

Lemma IPAddress_some ip : length ip = 4%nat \/ length ip = 16%nat ->
  exists a, IPAddress ip = Some a /\ well_formed a /\ IsIP (Family a) = true.
Proof.
  intros [Hl | Hl]; unfold IPAddress; rewrite Hl; cbn [Nat.eqb]; [by eexists|].
  destruct (_ && _); eexists; (split; [done|]); cbn; [|done]. by rewrite length_drop, Hl.
Qed.

Lemma ParseAddress_some d : exists a, ParseAddress d = Some a /\ (IsIP (Family a) = true -> well_formed a).
Proof.
  unfold ParseAddress. cbv zeta. set (t := match head _, last _ with Some _, Some _ => _ | _, _ => _ end).
  destruct (ParseIP t) as [ip|] eqn:E; [|by eexists].
  assert (length ip = 16%nat) as Hl.
  { unfold ParseIP in E. destruct (ParseAddr t) as [a|] eqn:Ea; [|done]. injection E as <-.
    unfold As16. by destruct (ParseAddr_length _ _ Ea) as [Hl | Hl]; rewrite Hl; cbn [Nat.eqb]; [rewrite length_app, Hl|]. }
  destruct (IPAddress_some ip) as (a & Ha & Hw & _); [by right|]. eauto.
Qed.

Lemma byte_nat x : Z.of_nat (Z.to_nat (byte_to_Z x)) = byte_to_Z x.
Proof. pose proof (byte_to_Z_range x). lia. Qed.

(** The outcomes allowed for a reading step: never a panic, and what was
    consumed was a prefix. *)
Definition reads {A} (P : Buffer -> bytes -> A -> Prop) (input : bytes) (r : outcome codec_error (Buffer * bytes * A)) : Prop :=
  match r with
  | Ok (b, rest, a) => exists used, input = used ++ rest /\ used ≠ [] /\ P b rest a
  | Err _ => True
  | Panic => False
  end.

Lemma readPort_reads b input : wf b -> (2 <= room b)%nat ->
  reads (fun b' _ port => wf b' /\ room b' = (room b - 2)%nat /\ 0 <= port < 2 ^ 16) input (readPort b input).
Proof.
  intros Hb Hr. unfold readPort. pose proof (read_last b input 2 Hb ltac:(lia)) as H. case_decide as Hl.
  - destruct H as (b' & Hread & Hw & _ & Hroom & Hbytes). change (Z.of_nat 2) with 2 in *. change (- (2)) with (-2) in Hbytes. rewrite Hread. cbn [mbind outcome_bind]. rewrite Hbytes.
    cbn [mbind outcome_bind must]. exists (take 2 input). split; [by rewrite take_drop|]. split.
    + by destruct input; [cbn in Hl; lia|].
    + split; [done|]. split; [done|]. unfold PortFromBytes, get16. pose proof (be_combine_range (take 2 (take 2 input))) as Hrange.
      rewrite !length_take in Hrange. replace (Z.of_nat _) with 2 in Hrange by lia. exact Hrange.
  - change (Z.of_nat 2) with 2 in H. by rewrite H.
Qed.

Lemma readDomain_reads b input n : wf b -> content b ≠ [] -> (Z.to_nat (byte_to_Z n) <= room b)%nat ->
  match readDomain b input (byte_to_Z n) with
  | Ok (b', rest, a) => (exists used, input = used ++ rest) /\ wf b' /\ (room b' = room b - Z.to_nat (byte_to_Z n))%nat /\
      exists a', a = Some a' /\ well_formed a'
  | Err _ => True
  | Panic => False
  end.
Proof.
  intros Hb Hne Hr. unfold readDomain. pose proof (byte_nat n) as Hz. set (k := Z.to_nat (byte_to_Z n)) in *. rewrite <-Hz.
  pose proof (read_full_ok b input k Hb Hr) as H. case_decide as Hl; [|by rewrite H].
  destruct H as (b' & Hread & Hw & Hc & Hroom). rewrite Hread. cbn [mbind outcome_bind].
  assert (exists c domain, BytesFrom b' (- Z.of_nat k) = Ok (c :: domain)) as (c & domain & Hbytes).
  { destruct (decide (k = 0)%nat) as [Hk|].
    - rewrite Hk. cbn [Z.of_nat Z.opp]. rewrite BytesFrom_0 by done. destruct (content b') eqn:E; [|by eauto].
      destruct (content b); [done|]. by rewrite Hk, app_nil_r in Hc.
    - rewrite BytesFrom_last by (try done; rewrite Hc, length_app, length_take; lia).
      destruct (drop _ (content b')) eqn:E; [|by eauto]. apply (f_equal length) in E.
      rewrite length_drop, Hc, length_app, length_take in E. cbn in E. lia. }
  rewrite Hbytes. cbn [mbind outcome_bind must].
  assert (exists used, input = used ++ drop k input) as Hused by (exists (take k input); by rewrite take_drop).
  assert (match (if negb (isValidDomain (c :: domain)) then Err ErrInvalidDomain else Ok (b', drop k input, Some (domainAddress (c :: domain)))) with
    | Ok (b'0, rest, a) => (exists used, input = used ++ rest) /\ wf b'0 /\ (room b'0 = room b - k)%nat /\ exists a', a = Some a' /\ well_formed a'
    | Err _ => True | Panic => False end) as Hkeep.
  { destruct (isValidDomain (c :: domain)) eqn:Ev; cbn [negb]; [|done]. split; [done|]. split; [done|]. split; [done|]. by eexists. }
  destruct (maybeIPPrefix c); [|exact Hkeep].
  destruct (ParseAddress_some (c :: domain)) as (a & -> & Ha). destruct (IsIP (Family a)) eqn:Ef; [|exact Hkeep].
  split; [done|]. split; [done|]. split; [done|]. eauto.
Qed.

Lemma readAddress_reads p b input : length (addrTypeMap p) = 16%nat -> wf b -> (257 <= room b)%nat ->
  reads (fun b' _ a => wf b' /\ (room b - 257 <= room b')%nat /\ exists a', a = Some a' /\ well_formed a') input (readAddress p b input).
Proof.
  intros Hmap Hb Hr. unfold readAddress. pose proof (read_byte b input Hb ltac:(lia)) as H. destruct input as [|x input]; [by rewrite H|].
  destruct H as (b1 & Hread & Hw1 & Hc1 & Hr1 & Hbyte). rewrite Hread. cbn [mbind outcome_bind]. rewrite Hbyte. cbn [mbind outcome_bind must].
  set (ty := match typeParser p with Some f => f x | None => x end).
  destruct (Z.leb_spec 16 (byte_to_Z ty)) as [|Hty]; [done|]. pose proof (byte_to_Z_range ty).
  destruct (lookup_lt_is_Some_2 (addrTypeMap p) (Z.to_nat (byte_to_Z ty))) as [f Hf]; [lia|]. rewrite Hf.
  assert (forall k, k = 4%nat \/ k = 16%nat ->
    reads (fun b' _ a => wf b' /\ (room b - 257 <= room b')%nat /\ exists a', a = Some a' /\ well_formed a') (x :: input)
      ('(b', input') ← read_full b1 input (Z.of_nat k); a ← must (BytesFrom b' (- Z.of_nat k)); Ok (b', input', IPAddress a))) as Hip.
  { intros k Hk. pose proof (read_last b1 input k Hw1 ltac:(lia)) as H'. case_decide as Hl; [|by rewrite H'].
    destruct H' as (b2 & Hread2 & Hw2 & _ & Hr2 & Hbytes). rewrite Hread2. cbn [mbind outcome_bind]. rewrite Hbytes. cbn [mbind outcome_bind must].
    exists (x :: take k input). split; [cbn; by rewrite take_drop|]. split; [done|]. split; [done|]. split; [lia|].
    destruct (IPAddress_some (take k input)) as (a & Ha & Hw & _); [rewrite length_take; lia|]. eauto. }
  destruct f as [[]|]; [apply (Hip 4%nat); auto|apply (Hip 16%nat); auto| |done].
  pose proof (read_byte b1 input Hw1 ltac:(lia)) as H2. destruct input as [|n input]; [by rewrite H2|].
  destruct H2 as (b2 & Hread2 & Hw2 & Hc2 & Hr2 & Hbyte2). rewrite Hread2. cbn [mbind outcome_bind]. rewrite Hbyte2. cbn [mbind outcome_bind must].
  pose proof (byte_to_Z_range n). pose proof (readDomain_reads b2 input n Hw2) as Hd.
  destruct (readDomain b2 input (byte_to_Z n)) as [[[b3 rest] a]| |]; cbn [reads]; [|done|].
  - destruct Hd as ((used & Hu) & Hw3 & Hr3 & Ha); [rewrite Hc2; by destruct (content b1)|lia|].
    exists (x :: n :: used). split; [by rewrite Hu|]. split; [done|]. split; [done|]. split; [lia|done].
  - apply Hd; [rewrite Hc2; by destruct (content b1)|lia].
Qed.

Definition parser_of (s : AddressSerializer) : addressParser :=
  match s with portFirstAddressParser ap | portLastAddressParser ap => ap end.

Lemma room_pool garbage : length garbage = Z.to_nat Size -> (259 <= room (New garbage))%nat.
Proof. intros Hg. unfold room. change (arr (New garbage)) with garbage. change (end_ (New garbage)) with 0. rewrite Hg. unfold Size. lia. Qed.

(** With a buffer of the caller's, or one of the pool. *)
Lemma ReadAddressPort_safe_in garbage s buffer input : wf (default (New garbage) buffer) -> (259 <= room (default (New garbage) buffer))%nat ->
  length (addrTypeMap (parser_of s)) = 16%nat ->
  match ReadAddressPort garbage s buffer input with
  | Ok (rest, a, port) => 0 <= port < 2 ^ 16 /\ (exists a', a = Some a' /\ well_formed a') /\ exists used, input = used ++ rest /\ used ≠ []
  | Err _ => True
  | Panic => False
  end.
Proof.
  intros Hw Hroom Hmap.
  destruct s as [ap|ap]; cbn [ReadAddressPort parser_of] in *; unfold portFirst_ReadAddressPort, portLast_ReadAddressPort; set (b0 := default (New garbage) buffer) in *.
  - pose proof (readPort_reads b0 input Hw ltac:(lia)) as H1. destruct (readPort b0 input) as [[[b1 i1] port]| |]; [|done|done].
    destruct H1 as (u1 & -> & Hu1 & Hw1 & Hr1 & Hport). cbn [mbind outcome_bind].
    pose proof (readAddress_reads ap b1 i1 Hmap Hw1 ltac:(lia)) as H2. destruct (readAddress ap b1 i1) as [[[b2 i2] a]| |]; [|done|done].
    destruct H2 as (u2 & -> & _ & _ & _ & Ha). cbn [mbind outcome_bind]. split; [done|]. split; [done|].
    exists (u1 ++ u2). split; [by rewrite app_assoc|]. by destruct u1.
  - pose proof (readAddress_reads ap b0 input Hmap Hw ltac:(lia)) as H1. destruct (readAddress ap b0 input) as [[[b1 i1] a]| |]; [|done|done].
    destruct H1 as (u1 & -> & Hu1 & Hw1 & Hr1 & Ha). cbn [mbind outcome_bind].
    pose proof (readPort_reads b1 i1 Hw1 ltac:(lia)) as H2. destruct (readPort b1 i1) as [[[b2 i2] port]| |]; [|done|done].
    destruct H2 as (u2 & -> & _ & _ & _ & Hport). cbn [mbind outcome_bind]. split; [done|]. split; [done|].
    exists (u1 ++ u2). split; [by rewrite app_assoc|]. by destruct u1.
Qed.

Lemma ReadAddressPort_safe garbage s input : length garbage = Z.to_nat Size -> length (addrTypeMap (parser_of s)) = 16%nat ->
  match ReadAddressPort garbage s None input with
  | Ok (rest, a, port) => 0 <= port < 2 ^ 16 /\ (exists a', a = Some a' /\ well_formed a') /\ exists used, input = used ++ rest /\ used ≠ []
  | Err _ => True
  | Panic => False
  end.
Proof. intros Hg. apply ReadAddressPort_safe_in; [by apply wf_New|by apply room_pool]. Qed.

(** ** Round trips *)

(** The addresses the format can carry: an IPv6 address that is an embedded
    IPv4 address, and a name that is the text of an address, are read back as
    the address they denote. *)
Definition addr_ok (a : Address) : Prop :=
  match a with
  | ipv4Address ip => length ip = 4%nat
  | ipv6Address ip => length ip = 16%nat /\ IPAddress ip = Some (ipv6Address ip)
  | domainAddress d => 0 < Z.of_nat (length d) <= 255 /\ isValidDomain d = true /\
      forall c d' a', d = c :: d' -> maybeIPPrefix c = true -> ParseAddress d = Some a' -> IsIP (Family a') = false
  end.

(** The parser knows the family: its byte is read as the family again. *)
Definition family_ok (p : addressParser) (f : AddressFamily) : Prop :=
  exists tb, addrByteMap p !! family_byte f = Some tb /\ tb ≠ afInvalid /\
    let ty := match typeParser p with Some g => g tb | None => tb end in
    byte_to_Z ty < 16 /\ addrTypeMap p !! Z.to_nat (byte_to_Z ty) = Some (Some f).

(** The bytes of an address. *)
Definition enc_address (p : addressParser) (a : Address) : bytes :=
  let tb := default afInvalid (addrByteMap p !! family_byte (Family a)) in
  match a with
  | ipv4Address ip | ipv6Address ip => tb :: ip
  | domainAddress d => [tb; byte_of_Z (Z.of_nat (length d))] ++ d
  end.

Definition enc_address_port (s : AddressSerializer) (a : Address) (port : Z) : bytes :=
  match s with
  | portFirstAddressParser p => put16 port ++ enc_address p a
  | portLastAddressParser p => enc_address p a ++ put16 port
  end.

Lemma enc_address_length p a : addr_ok a -> (length (enc_address p a) <= 257)%nat.
Proof. destruct a as [ip|ip|d]; cbn; [lia|lia|]. intros ([? ?] & _). lia. Qed.

Lemma enc_address_port_length s a port : addr_ok a -> (length (enc_address_port s a port) <= 259)%nat.
Proof.
  intros Ha. pose proof (enc_address_length (parser_of s) a Ha).
  destruct s; cbn [enc_address_port parser_of] in *; rewrite length_app; unfold put16; rewrite length_be_split; lia.
Qed.

(** A writer that holds [s] and takes [n] more bytes. *)
Section Encoding.
Context {W : Type} (write : W -> bytes -> outcome codec_error W) (holds : W -> bytes -> nat -> Prop).
Context (write_ok : forall w s n d, holds w s n -> (length d <= n)%nat -> exists w', write w d = Ok w' /\ holds w' (s ++ d) (n - length d)).

Lemma writeAddress_ok p w s n a : family_ok p (Family a) -> addr_ok a -> holds w s n -> (length (enc_address p a) <= n)%nat ->
  exists w', writeAddress write p w (Some a) = Ok w' /\ holds w' (s ++ enc_address p a) (n - length (enc_address p a)).
Proof.
  intros (tb & Htb & Hne & _) Ha Hw Hn. unfold writeAddress, enc_address in *. rewrite Htb in *. rewrite bool_decide_false by done. cbn [default from_option id] in *.
  assert (forall h d, (length (h ++ d) <= n)%nat -> exists w', (w1 ← write w h; write w1 d) = Ok w' /\ holds w' (s ++ h ++ d) (n - length (h ++ d))) as Htwo.
  { intros h d Hl. rewrite length_app in Hl. destruct (write_ok w s n h Hw) as (w1 & Hw1 & Hh1); [lia|]. rewrite Hw1. cbn [mbind outcome_bind].
    destruct (write_ok w1 _ _ d Hh1) as (w2 & Hw2 & Hh2); [lia|]. exists w2. split; [done|]. rewrite app_assoc, length_app. by replace (n - (length h + length d))%nat with (n - length h - length d)%nat by lia. }
  destruct a as [ip|ip|d]; [by apply (Htwo [tb] ip)|by apply (Htwo [tb] ip)|].
  unfold IsDomainTooLong. cbn in Ha. destruct Ha as ([? ?] & _). destruct (Z.ltb_spec 255 (Z.of_nat (length d))); [lia|].
  by apply (Htwo [tb; byte_of_Z (Z.of_nat (length d))] d).
Qed.

Lemma WriteAddressPort_ok ser w s n a port : family_ok (parser_of ser) (Family a) -> addr_ok a -> holds w s n ->
  (length (enc_address_port ser a port) <= n)%nat ->
  exists w', WriteAddressPort write ser w (Some a) port = Ok w' /\ holds w' (s ++ enc_address_port ser a port) (n - length (enc_address_port ser a port)).
Proof.
  intros Hf Ha Hw Hn. destruct ser as [p|p]; cbn [WriteAddressPort enc_address_port parser_of] in *;
    unfold portFirst_WriteAddressPort, portLast_WriteAddressPort, writePort; rewrite length_app in *.
  - destruct (write_ok w s n (put16 port) Hw) as (w1 & Hw1 & Hh1); [lia|]. rewrite Hw1. cbn [mbind outcome_bind].
    destruct (writeAddress_ok p w1 _ _ a Hf Ha Hh1) as (w2 & Hw2 & Hh2); [lia|]. exists w2. split; [done|]. rewrite app_assoc.
    by replace (n - (length (put16 port) + length (enc_address p a)))%nat with (n - length (put16 port) - length (enc_address p a))%nat by lia.
  - destruct (writeAddress_ok p w s n a Hf Ha Hw) as (w1 & Hw1 & Hh1); [lia|]. rewrite Hw1. cbn [mbind outcome_bind].
    destruct (write_ok w1 _ _ (put16 port) Hh1) as (w2 & Hw2 & Hh2); [lia|]. exists w2. split; [done|]. rewrite app_assoc.
    by replace (n - (length (enc_address p a) + length (put16 port)))%nat with (n - length (enc_address p a) - length (put16 port))%nat by lia.
Qed.
End Encoding.

Lemma append_writer_ok (w s : bytes) (n : nat) d : w = s -> (length d <= n)%nat -> exists w', append_writer w d = Ok w' /\ w' = s ++ d.
Proof. intros -> _. by eexists. Qed.

Lemma buffer_writer_ok b s n d : (wf b /\ content b = s /\ room b = n) -> (length d <= n)%nat ->
  exists b', buffer_writer b d = Ok b' /\ wf b' /\ content b' = s ++ d /\ room b' = (n - length d)%nat.
Proof.
  intros (Hw & Hc & Hr) Hd. destruct (Write_ok b d Hw) as (b' & He & Hw' & Hc' & Hr'). exists b'.
  unfold buffer_writer. rewrite He. split; [done|]. split; [done|]. rewrite Hc', Hr', Hc, Hr. split; [|done].
  by rewrite take_ge by lia.
Qed.

Lemma readPort_put b port rest : wf b -> (2 <= room b)%nat -> 0 <= port < 2 ^ 16 ->
  exists b', readPort b (put16 port ++ rest) = Ok (b', rest, port) /\ wf b' /\ room b' = (room b - 2)%nat.
Proof.
  intros Hb Hr Hp. unfold readPort. pose proof (read_last b (put16 port ++ rest) 2 Hb ltac:(lia)) as H.
  rewrite decide_True in H by (rewrite length_app; unfold put16; rewrite length_be_split; lia).
  destruct H as (b' & Hread & Hw & _ & Hroom & Hbytes). change (Z.of_nat 2) with 2 in *. change (- (2)) with (-2) in Hbytes.
  rewrite drop_put16 in Hread. rewrite Hread. cbn [mbind outcome_bind]. rewrite Hbytes. cbn [mbind outcome_bind must].
  exists b'. split; [|done]. do 2 f_equal. unfold PortFromBytes. rewrite <-(app_nil_r (take 2 _)).
  change (take 2 (put16 port ++ rest)) with (put16 port). rewrite get16_put16. by apply u16_small.
Qed.

Lemma readAddress_enc p b a rest : family_ok p (Family a) -> addr_ok a -> wf b -> (257 <= room b)%nat ->
  exists b', readAddress p b (enc_address p a ++ rest) = Ok (b', rest, Some a) /\ wf b' /\ (room b - 257 <= room b')%nat.
Proof.
  intros (tb & Htb & _ & Hty & Hmap) Ha Hb Hr. unfold readAddress, enc_address. rewrite Htb. cbn [default from_option id].
  set (ty := match typeParser p with Some g => g tb | None => tb end) in *.
  assert (exists tail, match a with ipv4Address ip | ipv6Address ip => tb :: ip | domainAddress d => [tb; byte_of_Z (Z.of_nat (length d))] ++ d end = tb :: tail /\
    tail = match a with ipv4Address ip | ipv6Address ip => ip | domainAddress d => byte_of_Z (Z.of_nat (length d)) :: d end) as (tail & -> & Htail) by (destruct a; by eexists).
  cbn [app]. destruct (read_byte b (tb :: tail ++ rest) Hb ltac:(lia)) as (b1 & -> & Hw1 & Hc1 & Hr1 & Hbyte).
  cbn [mbind outcome_bind]. rewrite Hbyte. cbn [mbind outcome_bind must]. fold ty.
  destruct (Z.leb_spec 16 (byte_to_Z ty)); [lia|]. rewrite Hmap.
  assert (forall k ip, length ip = k -> k = 4%nat \/ k = 16%nat -> exists b',
    ('(b', input') ← read_full b1 (ip ++ rest) (Z.of_nat k); x ← must (BytesFrom b' (- Z.of_nat k)); Ok (b', input', IPAddress x)) = Ok (b', rest, IPAddress ip) /\
    wf b' /\ (room b - 257 <= room b')%nat) as Hip.
  { intros k ip Hl Hk. pose proof (read_last b1 (ip ++ rest) k Hw1 ltac:(lia)) as H'. rewrite decide_True in H' by (rewrite length_app; lia).
    destruct H' as (b2 & Hread2 & Hw2 & _ & Hr2 & Hbytes). rewrite take_app_length', drop_app_length' in * by done.
    rewrite Hread2. cbn [mbind outcome_bind]. rewrite Hbytes. cbn [mbind outcome_bind must]. exists b2. split; [done|]. split; [done|]. lia. }
  destruct a as [ip|ip|d]; cbn [Family] in *; subst tail; cbn in Ha.
  - destruct (Hip 4%nat ip Ha ltac:(auto)) as (b2 & He & Hrest). exists b2. split; [|done]. etransitivity; [exact He|].
    unfold IPAddress. by rewrite Ha.
  - destruct Ha as [Ha Hmapped]. destruct (Hip 16%nat ip Ha ltac:(auto)) as (b2 & He & Hrest). exists b2. split; [|done]. etransitivity; [exact He|].
    by rewrite Hmapped.
  - destruct Ha as (Hlen & Hvalid & Hnoip). cbn [app].
    destruct (read_byte b1 (byte_of_Z (Z.of_nat (length d)) :: d ++ rest) Hw1 ltac:(lia)) as (b2 & -> & Hw2 & Hc2 & Hr2 & Hbyte2).
    cbn [mbind outcome_bind]. rewrite Hbyte2. cbn [mbind outcome_bind must]. rewrite byte_to_of_Z. unfold u8. rewrite Z.mod_small by lia.
    unfold readDomain. pose proof (read_last b2 (d ++ rest) (length d) Hw2 ltac:(lia)) as H'. rewrite decide_True in H' by (rewrite length_app; lia).
    destruct H' as (b3 & Hread3 & Hw3 & _ & Hr3 & Hbytes). rewrite take_app_length, drop_app_length in *.
    rewrite Hread3. cbn [mbind outcome_bind]. rewrite Hbytes. cbn [mbind outcome_bind must].
    exists b3. split; [|split; [done|lia]]. destruct d as [|c d]; [cbn in Hlen; lia|]. rewrite Hvalid. cbn [negb].
    destruct (maybeIPPrefix c) eqn:Ec; [|done]. destruct (ParseAddress_some (c :: d)) as (a' & Hpa & _). rewrite Hpa.
    by rewrite (Hnoip c d a' eq_refl Ec Hpa).
Qed.

Lemma ReadAddressPort_enc_in garbage ser buffer a port rest : wf (default (New garbage) buffer) -> (259 <= room (default (New garbage) buffer))%nat ->
  family_ok (parser_of ser) (Family a) -> addr_ok a -> 0 <= port < 2 ^ 16 ->
  ReadAddressPort garbage ser buffer (enc_address_port ser a port ++ rest) = Ok (rest, Some a, port).
Proof.
  intros Hw Hroom Hf Ha Hp. set (b := default (New garbage) buffer) in *.
  destruct ser as [ap|ap]; cbn [ReadAddressPort parser_of enc_address_port] in *; unfold portFirst_ReadAddressPort, portLast_ReadAddressPort;
    cbv zeta; fold b; rewrite <-app_assoc.
  - destruct (readPort_put b port (enc_address ap a ++ rest) Hw ltac:(lia) Hp) as (b1 & -> & Hw1 & Hr1). cbn [mbind outcome_bind].
    by destruct (readAddress_enc ap b1 a rest Hf Ha Hw1 ltac:(lia)) as (b2 & -> & _).
  - destruct (readAddress_enc ap b a (put16 port ++ rest) Hf Ha Hw ltac:(lia)) as (b1 & -> & Hw1 & Hr1). cbn [mbind outcome_bind].
    by destruct (readPort_put b1 port rest Hw1 ltac:(lia) Hp) as (b2 & -> & _).
Qed.

Lemma ReadAddressPort_enc garbage ser a port rest : length garbage = Z.to_nat Size ->
  family_ok (parser_of ser) (Family a) -> addr_ok a -> 0 <= port < 2 ^ 16 ->
  ReadAddressPort garbage ser None (enc_address_port ser a port ++ rest) = Ok (rest, Some a, port).
Proof.
  intros Hg. apply (ReadAddressPort_enc_in garbage ser None); [by apply (wf_New garbage)|by apply room_pool].
Qed.

(** ** Properties *)

(** Whatever the peer sends, reading an address and a port ends with an
    error or with a well-formed address, a 16-bit port and the bytes after
    them, at least one byte being consumed; it never panics, a domain of
    length 0 and unknown type bytes included. *)
Theorem read_address_never_panics garbage s input :
  length garbage = Z.to_nat Size -> length (addrTypeMap (parser_of s)) = 16%nat ->
  match ReadAddressPort garbage s None input with
  | Ok (rest, a, port) => 0 <= port < 2 ^ 16 /\ (exists a', a = Some a' /\ well_formed a') /\ exists used, input = used ++ rest /\ used ≠ []
  | Err _ => True
  | Panic => False
  end.
Proof. apply ReadAddressPort_safe. Qed.

(** C36: with any parser that knows the family of the address, what is
    written is read back, address and port, and what follows stays unread.
    The address is a well-formed one: an IP of 4 or 16 bytes that is no IPv4
    address in disguise, or a name that the codec can write and that does not
    read as an IP address. *)
Theorem address_port_roundtrip garbage s a port rest :
  length garbage = Z.to_nat Size -> family_ok (parser_of s) (Family a) -> addr_ok a -> 0 <= port < 2 ^ 16 ->
  exists w, WriteAddressPort append_writer s [] (Some a) port = Ok w /\ ReadAddressPort garbage s None (w ++ rest) = Ok (rest, Some a, port).
Proof.
  intros Hg Hf Ha Hp. destruct (WriteAddressPort_ok append_writer (fun w s _ => w = s) append_writer_ok s [] [] _ a port Hf Ha eq_refl (le_n _)) as (w & Hw & ->).
  exists (enc_address_port s a port). split; [done|]. by apply ReadAddressPort_enc.
Qed.

Definition sample_parser : AddressSerializer :=
  match AddressFamilyByte x01 AddressFamilyIPv4, AddressFamilyByte x04 AddressFamilyIPv6, AddressFamilyByte x03 AddressFamilyDomain with
  | Ok o1, Ok o2, Ok o3 => NewAddressParser [o1; o2; o3; WithAddressTypeParser (fun b => byte_of_Z (Z.land (byte_to_Z b) 15))]
  | _, _, _ => NewAddressParser []
  end.

Definition zero_buffer : bytes := replicate (Z.to_nat Size) x00.

Lemma zero_buffer_length : length zero_buffer = Z.to_nat Size.
Proof. apply length_replicate. Qed.

Lemma example_name_ok : addr_ok (domainAddress (bs "example.com")).
Proof.
  split; [cbn; lia|]. split; [reflexivity|]. intros c d' a' [= <- <-] Hc. vm_compute in Hc. discriminate.
Qed.

Lemma read_address_never_panics_witness :
  match ReadAddressPort zero_buffer sample_parser None [x03; x00; x01; xbb] with
  | Ok (rest, a, port) => 0 <= port < 2 ^ 16 /\ (exists a', a = Some a' /\ well_formed a') /\ exists used, [x03; x00; x01; xbb] = used ++ rest /\ used ≠ []
  | Err _ => True
  | Panic => False
  end.
Proof. apply (read_address_never_panics zero_buffer sample_parser); [apply zero_buffer_length|reflexivity]. Defined.

Lemma address_port_roundtrip_witness :
  exists w, WriteAddressPort append_writer sample_parser [] (Some (domainAddress (bs "9.example"))) 443 = Ok w /\
    ReadAddressPort zero_buffer sample_parser None (w ++ [x7f]) = Ok ([x7f], Some (domainAddress (bs "9.example")), 443).
Proof.
  apply (address_port_roundtrip zero_buffer sample_parser (domainAddress (bs "9.example")) 443 [x7f]).
  - apply zero_buffer_length.
  - exists x03. split; [reflexivity|]. split; [discriminate|]. split; [vm_compute; reflexivity|vm_compute; reflexivity].
  - split; [split; [reflexivity|discriminate]|]. split; [vm_compute; reflexivity|]. intros c d' a' _ _ Hp. vm_compute in Hp. injection Hp as <-. reflexivity.
  - split; [discriminate|reflexivity].
Defined.
