(* ===== verification/BufReader.v ===== *)
(** * Readers and copying, [common/buf/reader.go] and [copy.go]

    [BufferedReader] keeps what the last read left over.  The reader it wraps
    is the list of the results it will still give, end of file after the
    last.  [io.ReadFull] is the standard library's loop over [Read].  [Copy]
    moves buffers from any reader to any writer. *)

From S2P Require Import Prelude Net Segment Buffer BufferFacts.

Local Open Scope Z_scope.

Inductive io_error := EOF | UnexpectedEOF | OtherError.

(** What one call of the wrapped reader's [ReadMultiBuffer] returns. *)
Definition read_result : Type := MultiBuffer * option io_error.

(** src/common/buf/reader.go BufferedReader *)
Record BufferedReader := {
  Reader : list read_result;
  Buffer_ : MultiBuffer;
  Spliter : option (MultiBuffer -> nat -> outcome unit (MultiBuffer * bytes))
}.

Definition set_reader (r : BufferedReader) (src : list read_result) : BufferedReader :=
  {| Reader := src; Buffer_ := Buffer_ r; Spliter := Spliter r |}.
Definition set_buffer (r : BufferedReader) (mb : MultiBuffer) : BufferedReader :=
  {| Reader := Reader r; Buffer_ := mb; Spliter := Spliter r |}.

Definition next_result (src : list read_result) : read_result * list read_result :=
  match src with [] => (([], Some EOF), []) | x :: src' => (x, src') end.

(** src/common/buf/reader.go BufferedReader.BufferedBytes *)
Definition BufferedBytes (r : BufferedReader) : Z := MultiBuffer_Len (Buffer_ r).

(** The bytes stored into a slice of [n] bytes.
    src/common/buf/reader.go BufferedReader.Read *)
Definition Read (r : BufferedReader) (n : nat) : BufferedReader * outcome io_error bytes :=
  let splitter := default SplitBytes (Spliter r) in
  if negb (MultiBuffer_IsEmpty (Buffer_ r)) then
    match splitter (Buffer_ r) n with
    | Ok (buffer, data) => (set_buffer r (if MultiBuffer_IsEmpty buffer then [] else buffer), Ok data)
    | _ => (r, Panic)
    end
  else
    let '(mb, err, src) := next_result (Reader r) in
    let r := set_reader r src in
    match err with
    | Some e => (r, Err e)
    | None =>
        match splitter mb n with
        | Ok (mb, data) => (if negb (MultiBuffer_IsEmpty mb) then set_buffer r mb else r, Ok data)
        | _ => (r, Panic)
        end
    end.

(** src/common/buf/reader.go BufferedReader.ReadByte *)
Definition ReadByte (r : BufferedReader) : BufferedReader * outcome io_error byte :=
  let '(r, b) := Read r 1 in
  (r, match b with Ok data => Ok (default x00 (head data)) | Err e => Err e | Panic => Panic end).

(** src/common/buf/reader.go BufferedReader.ReadMultiBuffer *)
Definition ReadMultiBuffer (r : BufferedReader) : BufferedReader * MultiBuffer * option io_error :=
  if negb (MultiBuffer_IsEmpty (Buffer_ r)) then (set_buffer r [], Buffer_ r, None)
  else let '(mb, err, src) := next_result (Reader r) in (set_reader r src, mb, err).

(** [garbage] is the array of the buffer [SplitSize] may take from the pool.
    src/common/buf/reader.go BufferedReader.ReadAtMost *)
Definition ReadAtMost (garbage : bytes) (r : BufferedReader) (size : Z) : BufferedReader * outcome io_error MultiBuffer :=
  let '(r, failed) :=
    if MultiBuffer_IsEmpty (Buffer_ r) then
      let '(mb, err, src) := next_result (Reader r) in
      let r := set_reader r src in
      if MultiBuffer_IsEmpty mb && (if err then true else false) then (r, err) else (set_buffer r mb, None)
    else (r, None) in
  match failed with
  | Some e => (r, Err e)
  | None =>
      match SplitSize garbage (Buffer_ r) size with
      | Ok (rb, mb) => (set_buffer r (if MultiBuffer_IsEmpty rb then [] else rb), Ok mb)
      | _ => (r, Panic)
      end
  end.

(** ** [io.ReadFull] *)

(** [None] is a loop that has not ended; [got] is whether something was read
    before, which turns the end of file into an unexpected one. *)
Fixpoint ReadFull (fuel : nat) (r : BufferedReader) (n : nat) (got : bool) : option (BufferedReader * outcome io_error bytes) :=
  match n with
  | O => Some (r, Ok [])
  | _ =>
      match fuel with
      | O => None
      | S fuel' =>
          match Read r n with
          | (r, Ok data) =>
              fmap (fun '(r, rest) => (r, more ← rest; Ok (data ++ more)))
                (ReadFull fuel' r (n - length data) (got || negb (bool_decide (data = []))))
          | (r, Err e) => Some (r, Err (match e with EOF => if got then UnexpectedEOF else EOF | _ => e end))
          | (r, Panic) => Some (r, Panic)
          end
      end
  end.

(** ** Copying *)

Inductive copy_error := readError (e : io_error) | writeError.

(** src/common/buf/copy.go IsReadError *)
Definition IsReadError (e : copy_error) : bool := match e with readError _ => true | writeError => false end.
(** src/common/buf/copy.go IsWriteError *)
Definition IsWriteError (e : copy_error) : bool := match e with writeError => true | readError _ => false end.

Section Copy.
Context {R W : Type}.
Context (read : R -> R * MultiBuffer * option io_error) (write : W -> MultiBuffer -> W * bool).

(** The handlers of the options see every non-empty list of buffers; they are
    folded over here. [None] is a loop that has not ended.
    src/common/buf/copy.go copyInternal *)
Fixpoint copyInternal {H} (handler : H -> MultiBuffer -> H) (fuel : nat) (r : R) (w : W) (h : H) : option (R * W * H * copy_error) :=
  match fuel with
  | O => None
  | S fuel' =>
      let '(r, buffer, err) := read r in
      let '(w, h, failed) :=
        if negb (MultiBuffer_IsEmpty buffer) then
          let h := handler h buffer in
          let '(w, failed) := write w buffer in (w, h, failed)
        else (w, h, false) in
      if failed : bool then Some (r, w, h, writeError)
      else match err with
           | Some e => Some (r, w, h, readError e)
           | None => copyInternal handler fuel' r w h
           end
  end.

(** The end of file is no error.
    src/common/buf/copy.go Copy *)
Definition Copy {H} (handler : H -> MultiBuffer -> H) (fuel : nat) (r : R) (w : W) (h : H) : option (R * W * H * option copy_error) :=
  (fun '(r, w, h, e) => (r, w, h, match e with readError EOF => None | _ => Some e end)) <$> copyInternal handler fuel r w h.
End Copy.

(** src/common/buf/copy.go CountSize *)
Definition CountSize (size : Z) (mb : MultiBuffer) : Z := size + MultiBuffer_Len mb.

(** ** Erasing endpoints *)

(** src/common/buf/erasure.go EndpointErasureReader.ReadMultiBuffer *)
Definition EndpointErasureReader_ReadMultiBuffer {R} (read : R -> R * MultiBuffer * option io_error) (r : R) : R * MultiBuffer * option io_error :=
  let '(r, mb, err) := read r in
  (r, match err with None => (fun b => set_endpoint b None) <$> mb | Some _ => mb end, err).

(** src/common/buf/erasure.go EndpointErasureWriter.WriteMultiBuffer *)
Definition EndpointErasureWriter_WriteMultiBuffer {W} (write : W -> MultiBuffer -> W * bool) (w : W) (mb : MultiBuffer) : W * bool :=
  write w ((fun b => set_endpoint b None) <$> mb).

(** * Facts about readers

    A buffered reader over a reader that fails only at its end is a stream of
    bytes: reading takes a prefix of it, whatever the pieces it arrives in. *)


(** ** Pieces of at most 16K *)

Definition buf_ok (b : Buffer) : Prop := wf b /\ Z.of_nat (length (content b)) <= Size.

Lemma bufs_wf mb : Forall buf_ok mb -> Forall wf mb.
Proof. intros Hw. eapply Forall_impl; [done|]. by intros b []. Qed.

Lemma not_empty_contents mb : Forall buf_ok mb -> MultiBuffer_IsEmpty mb = false <-> contents mb ≠ [].
Proof. intros Hw. rewrite MultiBuffer_IsEmpty_contents by (by apply bufs_wf). by case_bool_decide. Qed.

Lemma empty_contents mb : Forall buf_ok mb -> MultiBuffer_IsEmpty mb = true <-> contents mb = [].
Proof. intros Hw. rewrite MultiBuffer_IsEmpty_contents by (by apply bufs_wf). by case_bool_decide. Qed.

Lemma SplitBytes_small mb n mb' data : Forall buf_ok mb -> SplitBytes mb n = Ok (mb', data) -> Forall buf_ok mb' /\ (length mb' <= length mb)%nat.
Proof.
  revert n mb' data. induction mb as [|b mb IH]; intros n mb' data Hw; cbn [SplitBytes]; [by intros [= <- <-]|].
  apply Forall_cons in Hw as [[Hb Hs] Hw]. destruct (decide (content b = [])) as [Hc|Hc].
  - rewrite Read_empty by done. destruct (SplitBytes mb n) as [[rest d]| |] eqn:E; cbn; [|done|done].
    intros [= <- <-]. destruct (IH _ _ _ Hw E). split; [done|lia].
  - destruct (Read_ok b n Hb Hc) as (b' & -> & Hw' & Hc'). destruct (IsEmpty b'); cbn [negb].
    + destruct (SplitBytes mb (n - length (take n (content b)))) as [[rest d]| |] eqn:E; cbn; [|done|done].
      intros [= <- <-]. destruct (IH _ _ _ Hw E). split; [done|lia].
    + intros [= <- <-]. cbn. split; [|lia]. constructor; [|done]. split; [done|]. rewrite Hc', length_drop. lia.
Qed.

Lemma SplitSize_small g mb size rest r : length g = Z.to_nat Size -> Forall buf_ok mb -> 0 < size ->
  Z.of_nat (length (contents mb)) < 2 ^ 31 -> SplitSize g mb size = Ok (rest, r) ->
  Forall buf_ok rest /\ Forall buf_ok r /\ contents r ++ contents rest = contents mb /\ Z.of_nat (length (contents r)) <= size /\
  (length rest <= length mb)%nat /\ (contents r = [] -> mb ≠ [] -> (length rest < length mb)%nat).
Proof.
  intros Hg Hw Hs Hl He.
  destruct (SplitSize_ok g Hg mb size (bufs_wf _ Hw) ltac:(lia) Hl) as (rest' & r' & He' & Hwr & Hwr' & Hc & Hlen & _).
  { destruct mb as [|b0 mb]; [by right|]. apply Forall_cons in Hw as [[_ Hsz] _].
    destruct (decide (size <= Size)); [by left|]. right. intros b [= <-]. lia. }
  rewrite He in He'. injection He' as <- <-. unfold SplitSize in He. destruct mb as [|b0 mb].
  { injection He as <- <-. split; [constructor|]. split; [constructor|]. split; [done|]. split; [cbn; lia|]. split; [done|done]. }
  pose proof Hw as Hw0. apply Forall_cons in Hw as [[Hb Hsz] Hw]. destruct (Len b0 >? size) eqn:Elen.
  - destruct (Extend (New g) size) as [[b [lo hi]]| |]; [|done|done]. cbn in He. destruct (BytesTo b0 size) as [data| |]; [|done|done]. cbn in He.
    injection He as <- <-. rewrite Len_content in Elen by done.
    assert (Z.of_nat (length (content (Advance b0 size))) <= Size /\ contents [set_array b (splice (Z.to_nat lo) (take (Z.to_nat (hi - lo)) data) (arr b))] ≠ []) as [Hadv Hne].
    { destruct (Advance_content b0 (Z.to_nat size) Hb ltac:(lia)) as [_ Hadv]. rewrite Z2Nat.id in Hadv by lia.
      apply (f_equal length) in Hc. rewrite length_app, (contents_cons (Advance b0 size)), (contents_cons b0), !length_app, Hadv, length_drop in Hc. rewrite Hadv, length_drop.
      split; [lia|]. intros Hn. rewrite Hn in Hc. cbn in Hc. lia. }
    split; [constructor; [split; [by inversion Hwr|done]|done]|]. split.
    { constructor; [|constructor]. split; [by inversion Hwr'|]. rewrite contents_one in Hlen. lia. }
    split; [done|]. split; [done|]. cbn. split; [lia|done].
  - injection He as He. destruct (split_whole_ok _ _ _ _ _ (bufs_wf _ Hw0) ltac:(reflexivity) ltac:(lia) He) as (Hmb & _ & Hhead).
    rewrite Hmb in Hw0. apply Forall_app in Hw0 as [Hr Hrest]. split; [done|]. split; [done|]. split; [done|]. split; [done|].
    rewrite Hmb, length_app. split; [lia|]. intros _ _. destruct r as [|b r]; [|cbn; lia].
    cbn in Hmb. rewrite <-Hmb in Hhead. specialize (Hhead b0 eq_refl). cbn [app] in Hhead. rewrite contents_one in Hhead.
    rewrite Len_content in Elen by done. lia.
Qed.

(** Without empty buffers a cut always takes something and leaves none. *)
Lemma SplitSize_nonempty g mb size rest r : length g = Z.to_nat Size -> Forall buf_ok mb -> Forall (fun b => content b ≠ []) mb -> mb ≠ [] ->
  0 < size -> Z.of_nat (length (contents mb)) < 2 ^ 31 -> SplitSize g mb size = Ok (rest, r) ->
  contents r ≠ [] /\ Forall (fun b => content b ≠ []) rest.
Proof.
  intros Hg Hw Hne Hmbne Hs Hl He. destruct (SplitSize_small g mb size rest r Hg Hw Hs Hl He) as (_ & _ & Hc & _ & _ & Hlt).
  unfold SplitSize in He. destruct mb as [|b0 mb]; [done|]. apply Forall_cons in Hne as [Hb0 Hne].
  pose proof Hw as Hw0. apply Forall_cons in Hw as [[Hb Hsz] Hw]. destruct (Len b0 >? size) eqn:Elen.
  - destruct (Extend (New g) size) as [[b [lo hi]]| |]; [|done|done]. cbn in He. destruct (BytesTo b0 size) as [data| |]; [|done|done]. cbn in He.
    injection He as <- <-. rewrite Len_content in Elen by done.
    destruct (Advance_content b0 (Z.to_nat size) Hb ltac:(lia)) as [_ Hadv]. rewrite Z2Nat.id in Hadv by lia. split.
    + intros Hn. specialize (Hlt Hn ltac:(done)). cbn in Hlt. lia.
    + constructor; [|done]. rewrite Hadv. intros Hn. apply (f_equal length) in Hn. rewrite length_drop in Hn. cbn in Hn. lia.
  - injection He as He. destruct (split_whole_ok _ _ _ _ _ (bufs_wf _ Hw0) ltac:(reflexivity) ltac:(lia) He) as (Hmb & _ & Hhead).
    destruct r as [|b r].
    + cbn in Hmb. rewrite <-Hmb in Hhead. specialize (Hhead b0 eq_refl). cbn [app] in Hhead. rewrite contents_one in Hhead.
      rewrite Len_content in Elen by done. lia.
    + injection Hmb as -> Hmb. split; [rewrite contents_cons; by destruct (content b)|]. rewrite Hmb in Hne. by apply Forall_app in Hne as [_ Hne].
Qed.

(** ** The stream *)

Definition source_bytes (src : list read_result) : bytes := src ≫= (fun x => contents x.1).
Definition stream (r : BufferedReader) : bytes := contents (Buffer_ r) ++ source_bytes (Reader r).

Record reader_ok (r : BufferedReader) : Prop := {
  ro_source : Forall (fun x => x.2 = None /\ Forall buf_ok x.1) (Reader r);
  ro_buffer : Forall buf_ok (Buffer_ r);
  ro_split : Spliter r = None;
  ro_size : Z.of_nat (length (stream r)) < 2 ^ 31;
}.

(** Reads that are still possible without a byte. *)
Definition idle (r : BufferedReader) : nat := length (Buffer_ r) + sum_list_with (fun x => S (length x.1)) (Reader r).

Lemma next_result_ok r mb err src : reader_ok r -> next_result (Reader r) = (mb, err, src) ->
  err = None /\ Forall buf_ok mb /\ Forall (fun x => x.2 = None /\ Forall buf_ok x.1) src /\ source_bytes (Reader r) = contents mb ++ source_bytes src /\
    (length mb + sum_list_with (fun x => S (length x.1)) src < sum_list_with (fun x => S (length x.1)) (Reader r))%nat \/
  err = Some EOF /\ Reader r = [] /\ mb = [] /\ src = [].
Proof.
  intros [Hs _ _ _]. destruct (Reader r) as [|[mb0 err0] src0]; cbn [next_result]; intros [= <- <- <-]; [by right|left].
  apply Forall_cons in Hs as [[He Hb] Hs]. cbn in *. split; [done|]. split; [done|]. split; [done|]. split; [done|]. lia.
Qed.

Lemma Read_spec r n : reader_ok r -> (0 < n)%nat ->
  match Read r n with
  | (r', Ok data) => stream r = data ++ stream r' /\ (length data <= n)%nat /\ reader_ok r' /\
      (idle r' <= idle r)%nat /\ (data = [] -> (idle r' < idle r)%nat)
  | (r', Err e) => e = EOF /\ stream r = [] /\ r' = r
  | (_, Panic) => False
  end.
Proof.
  intros Hok Hn. pose proof Hok as [Hs Hb Hsp Hsz]. unfold Read. rewrite Hsp. cbn [default from_option id].
  destruct (MultiBuffer_IsEmpty (Buffer_ r)) eqn:E; cbn [negb].
  - apply empty_contents in E; [|done]. destruct (next_result (Reader r)) as [[mb err] src] eqn:En.
    destruct (next_result_ok r mb err src Hok En) as [(-> & Hmb & Hsrc & Hbytes & Hidle)|(-> & Hr & -> & ->)].
    + destruct (SplitBytes_ok mb n (bufs_wf _ Hmb)) as (mb' & He & _ & Hc). rewrite He. destruct (SplitBytes_small _ _ _ _ Hmb He) as [Hmb' Hlen].
      assert (stream r = contents mb ++ source_bytes src) as Hstr by (unfold stream; by rewrite E, Hbytes).
      assert (forall r', Reader r' = src -> contents (Buffer_ r') = contents mb' -> stream r = take n (contents mb) ++ stream r') as Hst.
      { intros r' Hr1 Hr2. rewrite Hstr. unfold stream. rewrite Hr1, Hr2, Hc, app_assoc. by rewrite take_drop. }
      assert (length (take n (contents mb)) <= n)%nat by (rewrite length_take; lia). unfold idle in *.
      destruct (MultiBuffer_IsEmpty mb') eqn:Em; cbn [negb].
      * apply empty_contents in Em; [|done]. assert (stream r = take n (contents mb) ++ stream (set_reader r src)) as Hst' by (apply Hst; [done|by rewrite Em]).
        split; [done|]. split; [done|]. split; [|cbn; split; lia]. split; [done|done|done|]. rewrite Hst', length_app in Hsz. lia.
      * pose proof (Hst (set_buffer (set_reader r src) mb') eq_refl eq_refl) as Hst'.
        split; [done|]. split; [done|]. split; [|cbn; split; lia]. split; [done|done|done|]. rewrite Hst', length_app in Hsz. lia.
    + split; [done|]. split; [unfold stream; by rewrite E, Hr|]. destruct r; cbn in *. by rewrite Hr.
  - apply not_empty_contents in E; [|done]. destruct (SplitBytes_ok (Buffer_ r) n (bufs_wf _ Hb)) as (mb' & He & _ & Hc). rewrite He.
    destruct (SplitBytes_small _ _ _ _ Hb He) as [Hmb' Hlen].
    set (buf := if MultiBuffer_IsEmpty mb' then [] else mb').
    assert (contents buf = contents mb' /\ Forall buf_ok buf /\ (length buf <= length mb')%nat) as (Hbuf & Hbok & Hbl).
    { unfold buf. destruct (MultiBuffer_IsEmpty mb') eqn:Em; [|done]. apply empty_contents in Em; [|done]. rewrite Em. split; [done|]. split; [constructor|cbn; lia]. }
    assert (stream r = take n (contents (Buffer_ r)) ++ stream (set_buffer r buf)) as Hst.
    { unfold stream, set_buffer. cbn [Buffer_ Reader]. rewrite Hbuf, Hc, app_assoc. by rewrite take_drop. }
    split; [done|]. split; [rewrite length_take; lia|]. split; [split; [done|done|done|rewrite Hst, length_app in Hsz; lia]|]. unfold idle. cbn. split; [lia|].
    intros Ht. exfalso. apply E. destruct (contents (Buffer_ r)); [done|]. destruct n; [lia|done].
Qed.

Lemma ReadFull_spec fuel : forall r n got, reader_ok r -> (n + idle r < fuel)%nat ->
  exists r' res, ReadFull fuel r n got = Some (r', res) /\
    if decide (n <= length (stream r))%nat then res = Ok (take n (stream r)) /\ stream r' = drop n (stream r) /\ reader_ok r' /\ (idle r' <= idle r)%nat
    else exists e, res = Err e /\ (e = EOF \/ e = UnexpectedEOF).
Proof.
  induction fuel as [|fuel IH]; intros r n got Hok Hf; [lia|]. destruct n as [|n]; cbn [ReadFull].
  - exists r, (Ok []). split; [done|]. rewrite decide_True by lia. by rewrite take_0, drop_0.
  - pose proof (Read_spec r (S n) Hok ltac:(lia)) as H. destruct (Read r (S n)) as [r1 [data|e|]]; [|destruct H as (-> & Hs & ->)|done].
    + destruct H as (Hs & Hl & Hok1 & Hi & Hi').
      destruct (IH r1 (S n - length data)%nat (got || negb (bool_decide (data = []))) Hok1) as (r2 & res & -> & Hres).
      { destruct data; [specialize (Hi' eq_refl); cbn; lia|cbn in *; lia]. }
      exists r2, (more ← res; Ok (data ++ more)). split; [done|]. rewrite Hs, length_app.
      destruct (decide (S n - length data <= length (stream r1))%nat) as [Hd|Hd].
      * rewrite decide_True by lia. destruct Hres as (-> & Hs2 & Hok2 & Hi2). cbn. rewrite take_app_ge, drop_app_ge by lia.
        split; [done|]. split; [done|]. split; [done|lia].
      * rewrite decide_False by lia. destruct Hres as (e & -> & He). by exists e.
    + exists r, (Err (if got then UnexpectedEOF else EOF)). split; [done|]. rewrite Hs. rewrite decide_False by (cbn; lia).
      exists (if got then UnexpectedEOF else EOF). split; [done|]. destruct got; auto.
Qed.

Lemma ReadAtMost_spec g r size : length g = Z.to_nat Size -> reader_ok r -> 0 < size ->
  match ReadAtMost g r size with
  | (r', Ok mb) => stream r = contents mb ++ stream r' /\ Z.of_nat (length (contents mb)) <= size /\ reader_ok r' /\ Forall buf_ok mb /\
      (contents mb = [] -> (idle r' < idle r)%nat) /\ (idle r' <= idle r)%nat
  | (r', Err e) => e = EOF /\ stream r = []
  | (_, Panic) => False
  end.
Proof.
  intros Hg Hok Hs. pose proof Hok as [Hsrc Hb Hsp Hsz]. unfold ReadAtMost.
  assert (forall r1, reader_ok r1 -> stream r1 = stream r -> (idle r1 <= idle r)%nat -> (Buffer_ r1 = [] -> (idle r1 < idle r)%nat) ->
    match SplitSize g (Buffer_ r1) size with
    | Ok (rb, mb) =>
        let r' := set_buffer r1 (if MultiBuffer_IsEmpty rb then [] else rb) in
        stream r = contents mb ++ stream r' /\ Z.of_nat (length (contents mb)) <= size /\ reader_ok r' /\ Forall buf_ok mb /\
        (contents mb = [] -> (idle r' < idle r)%nat) /\ (idle r' <= idle r)%nat
    | _ => False end) as Hsplit.
  { intros r1 Hok1 Hst Hidle Hidle'. pose proof Hok1 as [Hs1 Hb1 Hsp1 Hsz1].
    assert (Z.of_nat (length (contents (Buffer_ r1))) < 2 ^ 31) as Hl1 by (unfold stream in Hsz1; rewrite length_app in Hsz1; lia).
    destruct (SplitSize_ok g Hg (Buffer_ r1) size (bufs_wf _ Hb1) ltac:(lia) Hl1) as (rb & mb & He & _).
    { destruct (Buffer_ r1) as [|b0 mb]; [by right|]. apply Forall_cons in Hb1 as [[_ Hsz0] _].
      destruct (decide (size <= Size)); [by left|]. right. intros b [= <-]. lia. }
    rewrite He. destruct (SplitSize_small g _ _ _ _ Hg Hb1 Hs Hl1 He) as (Hrb & Hmb & Hc & Hl & Hlen & Hlt).
    set (buf := if MultiBuffer_IsEmpty rb then [] else rb).
    assert (contents buf = contents rb /\ Forall buf_ok buf /\ (length buf <= length rb)%nat) as (Hbuf & Hbok & Hbl).
    { unfold buf. destruct (MultiBuffer_IsEmpty rb) eqn:Em; [|done]. apply empty_contents in Em; [|done]. rewrite Em. split; [done|]. split; [constructor|cbn; lia]. }
    assert (stream r = contents mb ++ stream (set_buffer r1 buf)) as Hfin.
    { rewrite <-Hst. unfold stream, set_buffer. cbn [Buffer_ Reader]. rewrite Hbuf, app_assoc. by rewrite Hc. }
    cbv zeta. split; [done|]. split; [done|]. split.
    { split; [done|done|done|]. rewrite Hfin, length_app in Hsz. lia. }
    split; [done|]. unfold idle in *. cbn. split; [|lia]. intros Hn.
    destruct (decide (Buffer_ r1 = [])) as [E0|E0]; [|specialize (Hlt Hn E0); lia]. specialize (Hidle' E0). rewrite E0 in *. cbn in *. lia. }
  destruct (MultiBuffer_IsEmpty (Buffer_ r)) eqn:E.
  - apply empty_contents in E; [|done]. destruct (next_result (Reader r)) as [[mb err] src] eqn:En.
    destruct (next_result_ok r mb err src Hok En) as [(-> & Hmb & Hsrc' & Hbytes & Hidle)|(-> & Hr & -> & ->)].
    + rewrite andb_false_r. set (r1 := set_buffer (set_reader r src) mb).
      assert (stream r1 = stream r) as Hst by (unfold stream; cbn; by rewrite E, Hbytes).
      specialize (Hsplit r1). destruct (SplitSize g (Buffer_ r1) size) as [[rb mb']| |]; apply Hsplit; try done.
      all: first [split; [done|done|done|by rewrite Hst] | unfold idle; cbn; lia | unfold idle; cbn; intros; lia].
    + cbn. split; [done|]. unfold stream. by rewrite E, Hr.
  - specialize (Hsplit r Hok eq_refl ltac:(lia)). destruct (SplitSize g (Buffer_ r) size) as [[rb mb']| |]; apply Hsplit.
    all: intros Hn; rewrite Hn in E; done.
Qed.
