(* ===== verification/Chunk.v ===== *)
(** * Chunk streams, [common/crypto/chunk.go]

    A stream of bytes cut into chunks, each behind its size; a chunk of size 0
    ends the stream.  How a size is written is an interface: the plain two
    bytes here, masked or sealed sizes in the proxies, whose state moves on
    with every size. *)

From S2P Require Import Prelude Net Segment Buffer BufferFacts BufReader.

Local Open Scope Z_scope.

(** ** Sizes *)

(** src/common/crypto/chunk.go ChunkSizeDecoder *)
Class ChunkSizeDecoder (D : Type) := {
  d_SizeBytes : nat;
  Decode : D -> bytes -> D * outcome io_error Z;
}.

(** [Encode] into a slice of [e_SizeBytes] bytes.
    src/common/crypto/chunk.go ChunkSizeEncoder *)
Class ChunkSizeEncoder (E : Type) := {
  e_SizeBytes : nat;
  Encode : E -> Z -> E * bytes;
}.

(** What the two promise each other: a decoder in step with an encoder reads
    the size the encoder wrote, and stays in step. *)
Class ChunkSizeLaws (E D : Type) `{ChunkSizeEncoder E, ChunkSizeDecoder D} := {
  in_step : E -> D -> Prop;
  sizes_agree : e_SizeBytes (E := E) = d_SizeBytes (D := D);
  size_positive : (0 < d_SizeBytes (D := D))%nat;
  size_small : Z.of_nat (e_SizeBytes (E := E)) <= 8192;
  encode_length : forall (e : E) size, length (Encode e size).2 = e_SizeBytes (E := E);
  decode_encode : forall (e : E) (d : D) size, in_step e d -> 0 <= size < 2 ^ 16 ->
    exists d', Decode d (Encode e size).2 = (d', Ok size) /\ in_step (Encode e size).1 d';
}.

(** src/common/crypto/chunk.go PlainChunkSizeParser *)
Inductive PlainChunkSizeParser := plain_parser.

(** src/common/crypto/chunk.go PlainChunkSizeParser.Decode *)
#[export] Instance plain_decoder : ChunkSizeDecoder PlainChunkSizeParser := {|
  d_SizeBytes := 2;
  Decode := fun p b => (p, if (length b <? 2)%nat then Panic else Ok (get16 b));
|}.

(** src/common/crypto/chunk.go PlainChunkSizeParser.Encode *)
#[export] Instance plain_encoder : ChunkSizeEncoder PlainChunkSizeParser := {|
  e_SizeBytes := 2;
  Encode := fun p size => (p, put16 size);
|}.

(** ** Reading *)

Section Reader.
Context {D : Type} `{ChunkSizeDecoder D}.

(** The scratch buffer for a size is left out.
    src/common/crypto/chunk.go ChunkStreamReader *)
Record ChunkStreamReader := {
  sizeDecoder : D; reader : BufferedReader; leftOverSize : Z; maxNumChunk : Z; numChunk : Z
}.

(** src/common/crypto/chunk.go NewChunkStreamReaderWithChunkCount *)
Definition NewChunkStreamReaderWithChunkCount (d : D) (r : BufferedReader) (max : Z) : ChunkStreamReader :=
  {| sizeDecoder := d; reader := r; leftOverSize := 0; maxNumChunk := max; numChunk := 0 |}.

(** src/common/crypto/chunk.go NewChunkStreamReader *)
Definition NewChunkStreamReader (d : D) (r : BufferedReader) : ChunkStreamReader := NewChunkStreamReaderWithChunkCount d r 0.

Definition set_size (c : ChunkStreamReader) (r : BufferedReader) (left : Z) : ChunkStreamReader :=
  {| sizeDecoder := sizeDecoder c; reader := r; leftOverSize := left; maxNumChunk := maxNumChunk c; numChunk := numChunk c |}.

(** [None] is a read that has not ended with this fuel.
    src/common/crypto/chunk.go ChunkStreamReader.readSize *)
Definition readSize (fuel : nat) (c : ChunkStreamReader) : option (ChunkStreamReader * outcome io_error Z) :=
  '(r, res) ← ReadFull fuel (reader c) (d_SizeBytes (D := D)) false;
  let c := set_size c r (leftOverSize c) in
  match res with
  | Err e => Some (c, Err e)
  | Panic => Some (c, Panic)
  | Ok b =>
      let '(d, size) := Decode (sizeDecoder c) b in
      Some ({| sizeDecoder := d; reader := reader c; leftOverSize := leftOverSize c; maxNumChunk := maxNumChunk c; numChunk := numChunk c |}, size)
  end.

(** The part after the size is known.
    src/common/crypto/chunk.go:126-133 ChunkStreamReader.ReadMultiBuffer *)
Definition read_chunk_part (garbage : bytes) (c : ChunkStreamReader) (size : Z) : ChunkStreamReader * outcome io_error (MultiBuffer * option io_error) :=
  let '(r, res) := ReadAtMost garbage (reader c) size in
  match res with
  | Ok mb =>
      if negb (MultiBuffer_IsEmpty mb) then (set_size c r (i32 (size - MultiBuffer_Len mb)), Ok (mb, None))
      else (set_size c r size, Ok ([], None))
  | Err e => (set_size c r size, Ok ([], Some e))
  | Panic => (set_size c r size, Panic)
  end.

(** src/common/crypto/chunk.go ChunkStreamReader.ReadMultiBuffer *)
Definition chunk_ReadMultiBuffer (fuel : nat) (garbage : bytes) (c : ChunkStreamReader) :
    option (ChunkStreamReader * outcome io_error (MultiBuffer * option io_error)) :=
  let size := leftOverSize c in
  if size =? 0 then
    let c := {| sizeDecoder := sizeDecoder c; reader := reader c; leftOverSize := leftOverSize c;
                maxNumChunk := maxNumChunk c; numChunk := u32 (numChunk c + 1) |} in
    if (0 <? maxNumChunk c) && (maxNumChunk c <? numChunk c) then Some (c, Ok ([], Some EOF))
    else
      '(c, res) ← readSize fuel c;
      match res with
      | Err e => Some (c, Ok ([], Some e))
      | Panic => Some (c, Panic)
      | Ok nextSize => if nextSize =? 0 then Some (c, Ok ([], Some EOF)) else Some (read_chunk_part garbage c nextSize)
      end
  else Some (read_chunk_part garbage c size).
End Reader.
Arguments ChunkStreamReader D : clear implicits.

(** ** Writing *)

Section Writer.
Context {E : Type} `{ChunkSizeEncoder E}.

(** A new buffer that holds an encoded size. *)
Definition size_buffer (garbage : bytes) (e : E) (size : Z) : outcome unit (E * Buffer) :=
  '(b, (lo, hi)) ← Extend (New garbage) (Z.of_nat (e_SizeBytes (E := E)));
  let '(e, data) := Encode e size in
  Ok (e, set_array b (splice (Z.to_nat lo) (take (Z.to_nat (hi - lo)) data) (arr b))).

(** The loop that cuts off at most [sliceSize] bytes at a time, at least once;
    [Err] is a loop that has not ended with this fuel.
    src/common/crypto/chunk.go:153-165 ChunkStreamWriter.WriteMultiBuffer *)
Fixpoint write_chunks (fuel : nat) (garbage : bytes) (e : E) (mb mb2Write : MultiBuffer) : outcome unit (E * MultiBuffer) :=
  match fuel with
  | O => Err tt
  | S fuel' =>
      '(mb, slice) ← SplitSize garbage mb 8192;
      '(e, b) ← size_buffer garbage e (u16 (MultiBuffer_Len slice));
      let mb2Write := mb2Write ++ [b] ++ slice in
      if MultiBuffer_IsEmpty mb then Ok (e, mb2Write) else write_chunks fuel' garbage e mb mb2Write
  end.

(** What the underlying writer is given.
    src/common/crypto/chunk.go ChunkStreamWriter.WriteMultiBuffer *)
Definition chunk_WriteMultiBuffer (fuel : nat) (garbage : bytes) (e : E) (mb : MultiBuffer) : outcome unit (E * MultiBuffer) :=
  write_chunks fuel garbage e mb [].
End Writer.

(** * Facts about chunk streams

    What a chunk writer wrote for any lists of buffers, followed by the empty
    write that ends the stream, is copied out of a chunk reader byte for byte,
    in whatever pieces it arrives, and the reader stops where the stream
    ended. *)


#[export] Instance plain_laws : ChunkSizeLaws PlainChunkSizeParser PlainChunkSizeParser.
Proof.
  refine {| in_step := fun _ _ => True |}.
  - done.
  - cbn. lia.
  - cbn. lia.
  - intros [] size. apply length_be_split.
  - intros [] [] size _ Hs. exists plain_parser. split; [|done]. cbn.
    rewrite <-(app_nil_r (put16 size)), get16_put16, u16_small by lia. done.
Defined.

Section Stream.
Context {E D : Type} `{Hlaws : ChunkSizeLaws E D}.
Context (g : bytes) (Hg : length g = Z.to_nat Size).
Implicit Types (e : E) (c : ChunkStreamReader D).

(** The bytes of chunks. *)
Fixpoint frames e (cs : list bytes) : E * bytes :=
  match cs with
  | [] => (e, [])
  | x :: cs' =>
      let '(e1, h) := Encode e (Z.of_nat (length x)) in
      let '(e2, w) := frames e1 cs' in (e2, h ++ x ++ w)
  end.

Lemma frames_app e cs cs' : frames e (cs ++ cs') = ((frames (frames e cs).1 cs').1, (frames e cs).2 ++ (frames (frames e cs).1 cs').2).
Proof.
  revert e. induction cs as [|x cs IH]; intros e; cbn [app frames]; [cbn [fst snd app]; by destruct (frames e cs')|].
  destruct (Encode e (Z.of_nat (length x))) as [e1 h]. rewrite IH. destruct (frames e1 cs) as [e2 w]. cbn [fst snd].
  destruct (frames e2 cs') as [e3 w']. cbn [fst snd]. by rewrite <-!app_assoc.
Qed.

(** ** Reading *)

(** The reader as [Copy] uses it; a panic or missing fuel would show as an
    error that is not the end of file. *)
Definition chunk_read (fuel : nat) (c : ChunkStreamReader D) : ChunkStreamReader D * MultiBuffer * option io_error :=
  match chunk_ReadMultiBuffer fuel g c with
  | Some (c, Ok (mb, err)) => (c, mb, err)
  | Some (c, _) => (c, [], Some OtherError)
  | None => (c, [], Some OtherError)
  end.

Definition collect (w mb : MultiBuffer) : MultiBuffer * bool := (w ++ mb, false).

(** The rest [cur] of the current chunk, the chunks [cs] after it, the end
    and the bytes behind it. *)
Record reading (e : E) (cur : bytes) (cs : list bytes) (rest : bytes) (c : ChunkStreamReader D) : Prop := {
  rd_ok : reader_ok (reader c);
  rd_step : in_step e (sizeDecoder c);
  rd_left : leftOverSize c = Z.of_nat (length cur);
  rd_small : Z.of_nat (length cur) < 2 ^ 16;
  rd_max : maxNumChunk c = 0;
  rd_stream : stream (reader c) = cur ++ (frames e (cs ++ [[]])).2 ++ rest;
}.

Lemma prefix_split {A} (a b x y : list A) : a ++ x = b ++ y -> (length b <= length a)%nat -> exists a', a = b ++ a' /\ y = a' ++ x.
Proof.
  intros He Hl. exists (drop (length b) a). split.
  - rewrite <-(take_drop (length b) a) at 1. f_equal. apply (f_equal (take (length b))) in He.
    by rewrite take_app_le, take_app_length in He by done.
  - apply (f_equal (drop (length b))) in He. by rewrite drop_app_le, drop_app_length in He by done.
Qed.

Lemma part_reading e cur cs rest c r d n : reader_ok r -> in_step e d -> Z.of_nat (length cur) < 2 ^ 16 -> cur ≠ [] ->
  stream r = cur ++ (frames e (cs ++ [[]])).2 ++ rest ->
  c = {| sizeDecoder := d; reader := r; leftOverSize := leftOverSize c; maxNumChunk := 0; numChunk := n |} ->
  exists c' mb cur', read_chunk_part g c (Z.of_nat (length cur)) = (c', Ok (mb, None)) /\ cur = contents mb ++ cur' /\
    reading e cur' cs rest c' /\ Forall buf_ok mb /\
    (idle (reader c') <= idle r)%nat /\ (contents mb = [] -> (idle (reader c') < idle r)%nat).
Proof.
  intros Hok Hstep Hsmall Hne Hst Hc. assert (0 < length cur)%nat by (destruct cur; [done|cbn; lia]). unfold read_chunk_part. rewrite Hc. cbn [reader].
  pose proof (ReadAtMost_spec g r (Z.of_nat (length cur)) Hg Hok ltac:(lia)) as Hr.
  destruct (ReadAtMost g r (Z.of_nat (length cur))) as [r' [mb|e'|]]; [| |done].
  2: { destruct Hr as [_ Hs]. rewrite Hs in Hst. by destruct cur. }
  destruct Hr as (Hs & Hl & Hok' & Hmb & Hidle' & Hidle). rewrite Hst in Hs.
  destruct (prefix_split cur (contents mb) _ _ Hs ltac:(lia)) as (cur' & Hcur & Hs').
  destruct (MultiBuffer_IsEmpty mb) eqn:Em; cbn [negb].
  - apply empty_contents in Em; [|done]. rewrite Em in Hcur. cbn in Hcur. subst cur'. eexists _, [], cur. split; [done|]. split; [done|].
    split; [|split; [constructor|split; [done|by intros _; apply Hidle']]]. split; cbn; try done.
  - eexists _, mb, cur'. split; [done|]. split; [done|]. split; [|done].
    assert (length cur = length (contents mb) + length cur')%nat as Hlen by (by rewrite Hcur, length_app).
    split; cbn; try done; [|lia]. rewrite MultiBuffer_Len_contents by (by apply bufs_wf).
    rewrite (i32_small (Z.of_nat (length (contents mb)))), i32_small by lia. lia.
Qed.

Lemma readSize_frames e x cs rest c fuel : reading e [] (x :: cs) rest c \/ x = [] /\ cs = [] /\ reading e [] [] rest c ->
  Z.of_nat (length x) < 2 ^ 16 -> (d_SizeBytes (D := D) + idle (reader c) < fuel)%nat ->
  forall tail, (frames e (x :: tail)).2 ++ rest = stream (reader c) ->
  exists c' h, readSize fuel c = Some (c', Ok (Z.of_nat (length x))) /\ reader_ok (reader c') /\ (idle (reader c') <= idle (reader c))%nat /\
    in_step (Encode e (Z.of_nat (length x))).1 (sizeDecoder c') /\ maxNumChunk c' = maxNumChunk c /\ numChunk c' = numChunk c /\
    leftOverSize c' = leftOverSize c /\ h = (frames (Encode e (Z.of_nat (length x))).1 tail).2 /\ stream (reader c') = x ++ h ++ rest.
Proof.
  intros Hrd Hx Hf tail Hst. assert (reader_ok (reader c) /\ in_step e (sizeDecoder c)) as [Hok Hstep] by (destruct Hrd as [[]|(_ & _ & [])]; done).
  unfold readSize. destruct (ReadFull_spec fuel (reader c) (d_SizeBytes (D := D)) false Hok Hf) as (r' & res & -> & Hres).
  pose proof (encode_length (D := D) e (Z.of_nat (length x))) as Hlen. rewrite sizes_agree in Hlen.
  cbn [frames] in Hst. destruct (Encode e (Z.of_nat (length x))) as [e1 hd] eqn:Ee. cbn [fst snd] in *.
  destruct (frames e1 tail) as [e2 w] eqn:Ef. cbn [fst snd] in *. rewrite <-Hst in Hres.
  rewrite decide_True in Hres by (rewrite !length_app; lia). destruct Hres as (-> & Hs' & Hok' & Hi').
  cbn [mbind option_bind]. rewrite <-!app_assoc in *. rewrite take_app_length' in * by done. rewrite drop_app_length' in Hs' by done.
  destruct (decode_encode e (sizeDecoder c) (Z.of_nat (length x)) Hstep ltac:(lia)) as (d' & Hd & Hstep'). rewrite Ee in Hd, Hstep'. cbn [fst snd] in *.
  cbn [sizeDecoder set_size]. rewrite Hd. eexists _, w. split; [done|]. cbn. done.
Qed.

(** One turn of the copying loop. *)
Definition weight (cur : bytes) (cs : list bytes) (c : ChunkStreamReader D) : nat :=
  length cur + sum_list_with (fun x => S (length x)) cs + idle (reader c).

Definition chunks_ok (cs : list bytes) : Prop := Forall (fun x => x ≠ [] /\ Z.of_nat (length x) < 2 ^ 16) cs.

Lemma chunk_read_turn e cur cs rest c fuel : reading e cur cs rest c -> chunks_ok cs -> (d_SizeBytes (D := D) + idle (reader c) < fuel)%nat ->
  (exists e' cur' cs' c' mb, chunk_read fuel c = (c', mb, None) /\ reading e' cur' cs' rest c' /\ chunks_ok cs' /\
     (frames e (cs ++ [[]])).1 = (frames e' (cs' ++ [[]])).1 /\ cur ++ concat cs = contents mb ++ cur' ++ concat cs' /\
     Forall buf_ok mb /\ (weight cur' cs' c' < weight cur cs c)%nat /\ (idle (reader c') <= idle (reader c))%nat) \/
  (exists c', cur = [] /\ cs = [] /\ chunk_read fuel c = (c', [], Some EOF) /\ reader_ok (reader c') /\ stream (reader c') = rest /\
     in_step (frames e (cs ++ [[]])).1 (sizeDecoder c')).
Proof.
  intros Hrd Hcs Hf. pose proof Hrd as [Hok Hstep Hleft Hsmall Hmax Hst]. unfold chunk_read, chunk_ReadMultiBuffer. rewrite Hleft.
  destruct (decide (cur = [])) as [->|Hne].
  - change (Z.of_nat (length (@nil byte))) with 0. cbn [Z.eqb]. rewrite Hmax. cbn [maxNumChunk Z.ltb Z.compare andb].
    set (c1 := {| sizeDecoder := sizeDecoder c; reader := reader c; leftOverSize := 0; maxNumChunk := 0; numChunk := u32 (numChunk c + 1) |}).
    assert (forall cs0, reading e [] cs0 rest c -> reading e [] cs0 rest c1) as Hc1 by (intros cs0 []; by split).
    destruct cs as [|x cs].
    + right. destruct (readSize_frames e [] [] rest c1 fuel ltac:(right; auto) ltac:(done) Hf []) as (c' & h & Hr & Hok' & _ & Hstep' & _ & _ & _ & Hh & Hs'); [change (reader c1) with (reader c); by rewrite Hst|].
      rewrite Hr. change (Z.of_nat (length (@nil byte))) with 0. cbn [Z.eqb mbind option_bind]. exists c'. do 4 (split; [done|]). split.
      * rewrite Hs', Hh. done.
      * cbn [app frames]. by destruct (Encode e (Z.of_nat (length []))) as [e1 hd].
    + left. apply Forall_cons in Hcs as [[Hxne Hx] Hcs].
      destruct (readSize_frames e x cs rest c1 fuel ltac:(left; auto) Hx Hf (cs ++ [[]])) as (c' & h & Hr & Hok' & Hi' & Hstep' & Hm' & Hn' & Hl' & Hh & Hs'); [change (reader c1) with (reader c); by rewrite Hst|].
      rewrite Hr. cbn [mbind option_bind]. assert (0 < length x)%nat by (destruct x; [done|cbn; lia]).
      destruct (Z.eqb_spec (Z.of_nat (length x)) 0); [lia|].
      destruct (part_reading (Encode e (Z.of_nat (length x))).1 x cs rest c' (reader c') (sizeDecoder c') (numChunk c')) as (c2 & mb & cur' & -> & Hcur & Hrd2 & Hmb & Hi2 & Hi2').
      { done. } { done. } { done. } { done. } { by rewrite Hs', Hh. } { destruct c'. cbn in *. by rewrite Hm'. }
      eexists _, cur', cs, c2, mb. split; [done|]. split; [done|]. split; [done|]. split.
      { cbn [app frames]. destruct (Encode e (Z.of_nat (length x))) as [e1 hd]. cbn [fst]. by destruct (frames e1 (cs ++ [[]])). }
      split; [cbn; by rewrite Hcur, <-app_assoc|]. split; [done|]. unfold weight. cbn [length sum_list_with]. rewrite Hcur, length_app.
      change (idle (reader c1)) with (idle (reader c)) in Hi'. lia.
  - left. assert (0 < length cur)%nat by (destruct cur; [done|cbn; lia]). destruct (Z.eqb_spec (Z.of_nat (length cur)) 0); [lia|].
    destruct (part_reading e cur cs rest c (reader c) (sizeDecoder c) (numChunk c)) as (c2 & mb & cur' & -> & Hcur & Hrd2 & Hmb & Hi2 & Hi2'); [done..|destruct c; cbn in *; by rewrite Hmax|].
    exists e, cur', cs, c2, mb. split; [done|]. split; [done|]. split; [done|]. split; [done|]. split; [by rewrite Hcur, <-app_assoc|]. split; [done|].
    unfold weight. rewrite Hcur, length_app. destruct (decide (contents mb = [])) as [Hm|Hm]; [specialize (Hi2' Hm); lia|].
    assert (0 < length (contents mb))%nat by (destruct (contents mb); [done|cbn; lia]). lia.
Qed.

Lemma copy_chunks {S} (handler : S -> MultiBuffer -> S) fuel n : forall e cur cs rest c w h, reading e cur cs rest c -> chunks_ok cs ->
  (d_SizeBytes (D := D) + idle (reader c) < fuel)%nat -> (weight cur cs c < n)%nat -> Forall buf_ok w ->
  exists c' w' h', copyInternal (chunk_read fuel) collect handler n c w h = Some (c', w', h', readError EOF) /\
    contents w' = contents w ++ cur ++ concat cs /\ Forall buf_ok w' /\ reader_ok (reader c') /\ stream (reader c') = rest /\
    in_step (frames e (cs ++ [[]])).1 (sizeDecoder c').
Proof.
  induction n as [|n IH]; intros e cur cs rest c w h Hrd Hcs Hf Hn Hw; [lia|]. cbn [copyInternal].
  destruct (chunk_read_turn e cur cs rest c fuel Hrd Hcs Hf) as [(e' & cur' & cs' & c' & mb & -> & Hrd' & Hcs' & He & Hc & Hmb & Hwt & Hi)|(c' & -> & -> & -> & Hok & Hst & Hstep)].
  - destruct (MultiBuffer_IsEmpty mb) eqn:Em; cbn [negb].
    + apply empty_contents in Em; [|done]. destruct (IH e' cur' cs' rest c' w h Hrd' Hcs' ltac:(lia) ltac:(lia) Hw) as (c2 & w2 & h2 & -> & Hw2 & Hrest).
      exists c2, w2, h2. split; [done|]. rewrite He, Hw2, Hc, Em. done.
    + unfold collect at 1. destruct (IH e' cur' cs' rest c' (w ++ mb) (handler h mb) Hrd' Hcs' ltac:(lia) ltac:(lia)) as (c2 & w2 & h2 & -> & Hw2 & Hrest); [by apply Forall_app|].
      exists c2, w2, h2. split; [done|]. rewrite He, Hw2, Hc, contents_app. by rewrite <-app_assoc.
  - cbn. exists c', w, h. split; [done|]. rewrite app_nil_r. done.
Qed.

(** ** Writing *)

Lemma size_buffer_ok e size : exists b, size_buffer g e size = Ok ((Encode e size).1, b) /\ buf_ok b /\ content b = (Encode e size).2.
Proof.
  unfold size_buffer. set (n := e_SizeBytes (E := E)). assert (Z.of_nat n <= 8192) as Hn by (apply (size_small (E := E) (D := D))).
  assert (Extend (New g) (Z.of_nat n) = Ok (set_cursors (New g) 0 (Z.of_nat n), (0, Z.of_nat n))) as ->.
  { unfold Extend. change (end_ (New g)) with 0. rewrite Z.add_0_l, (i32_small (Z.of_nat n)), (cap_New g Hg) by lia.
    rewrite (i32_small Size) by (unfold Size; lia). rewrite decide_False by (unfold Size; lia).
    rewrite slice_of_ok; [done|lia|rewrite (cap_New g Hg); unfold Size; lia]. }
  cbn [mbind outcome_bind]. pose proof (encode_length (D := D) e size) as Hlen. fold n in Hlen.
  destruct (Encode e size) as [e1 h] eqn:Ee. cbn [fst snd] in *. rewrite Z.sub_0_r, Nat2Z.id. cbn [Z.to_nat].
  assert (Z.of_nat (length g) = Size) as Hgz by (rewrite Hg; unfold Size; lia).
  set (b := set_array _ _). assert (arr b = h ++ drop n g) as Harr.
  { unfold b, arr, set_array, set_cursors, New, splice. cbn [v default from_option id app Nat.add]. rewrite (take_ge h) by lia. rewrite Hlen. done. }
  assert (content b = h) as Hc.
  { unfold content. rewrite Harr. change (end_ b) with (Z.of_nat n). change (start b) with 0. rewrite Nat2Z.id. cbn [Z.to_nat].
    rewrite drop_0, Nat.sub_0_r, <-Hlen. apply take_app_length. }
  exists b. split; [done|]. split; [|done]. split; [|rewrite Hc; unfold Size; lia].
  split; change (end_ b) with (Z.of_nat n); change (start b) with 0; unfold cap; rewrite ?Harr, ?length_app, ?length_drop; unfold Size in *; lia.
Qed.

(** Lists of buffers a writer is given: none of them empty. *)
Definition writable (mb : MultiBuffer) : Prop :=
  Forall buf_ok mb /\ Forall (fun b => content b ≠ []) mb /\ Z.of_nat (length (contents mb)) < 2 ^ 31.

Lemma write_chunks_ok fuel : forall e mb acc, writable mb -> Forall buf_ok acc -> (length (contents mb) < fuel)%nat ->
  exists out cs, write_chunks fuel g e mb acc = Ok ((frames e cs).1, out) /\ contents out = contents acc ++ (frames e cs).2 /\ Forall buf_ok out /\
    concat cs = contents mb /\ if decide (mb = []) then cs = [[]] else chunks_ok cs.
Proof.
  induction fuel as [|fuel IH]; intros e mb acc (Hw & Hne & Hl) Hacc Hf; [lia|]. cbn [write_chunks].
  destruct (SplitSize_ok g Hg mb 8192 (bufs_wf _ Hw) ltac:(lia) Hl ltac:(left; unfold Size; lia)) as (rest & r & He & _). rewrite He. cbn [mbind outcome_bind].
  destruct (SplitSize_small g mb 8192 rest r Hg Hw ltac:(lia) Hl He) as (Hrest & Hr & Hc & Hlr & _ & _).
  rewrite MultiBuffer_Len_contents, i32_small by (by apply bufs_wf || lia). unfold u16. rewrite Z.mod_small by lia.
  destruct (size_buffer_ok e (Z.of_nat (length (contents r)))) as (b & -> & Hb & Hbc). cbn [mbind outcome_bind].
  assert (Forall buf_ok (acc ++ [b] ++ r)) as Hacc' by (apply Forall_app; split; [done|]; by constructor).
  assert (contents (acc ++ [b] ++ r) = contents acc ++ (Encode e (Z.of_nat (length (contents r)))).2 ++ contents r) as Hcacc.
  { rewrite !contents_app, contents_one, Hbc. done. }
  destruct (MultiBuffer_IsEmpty rest) eqn:Em.
  - apply empty_contents in Em; [|done]. rewrite Em, app_nil_r in Hc. exists (acc ++ [b] ++ r), [contents r]. cbn [frames].
    destruct (Encode e (Z.of_nat (length (contents r)))) as [e1 h] eqn:Ee. cbn [fst snd] in *. rewrite app_nil_r.
    split; [done|]. split; [done|]. split; [done|]. split; [cbn; by rewrite app_nil_r|].
    destruct (decide (mb = [])) as [->|Hmb]; [by rewrite Hc|]. constructor; [|constructor]. split; [|lia].
    by destruct (SplitSize_nonempty g mb 8192 rest r Hg Hw Hne Hmb ltac:(lia) Hl He).
  - apply not_empty_contents in Em; [|done]. assert (mb ≠ []) as Hmb.
    { intros ->. cbn in Hc. by apply app_nil in Hc as [_ ?]. }
    destruct (SplitSize_nonempty g mb 8192 rest r Hg Hw Hne Hmb ltac:(lia) Hl He) as [Hrne Hne'].
    assert (length (contents mb) = length (contents r) + length (contents rest))%nat as Hlen by (by rewrite <-Hc, length_app).
    assert (0 < length (contents r))%nat by (destruct (contents r); [done|cbn; lia]).
    destruct (IH (Encode e (Z.of_nat (length (contents r)))).1 rest (acc ++ [b] ++ r)) as (out & cs & -> & Hout & Hok & Hcs & Hcase); [|done|lia|].
    { split; [done|]. split; [done|lia]. }
    exists out, (contents r :: cs). cbn [frames concat]. rewrite decide_False by done.
    rewrite decide_False in Hcase by (intros ->; done).
    destruct (Encode e (Z.of_nat (length (contents r)))) as [e1 h]. cbn [fst snd] in *. destruct (frames e1 cs) as [e2 w]. cbn [fst snd] in *.
    split; [done|]. split; [rewrite Hout, Hcacc; by rewrite <-!app_assoc|]. split; [done|]. split; [by rewrite Hcs|].
    constructor; [|done]. split; [done|lia].
Qed.

(** The bytes of successive writes. *)
Fixpoint write_all (fuel : nat) e (mbs : list MultiBuffer) : outcome unit (E * bytes) :=
  match mbs with
  | [] => Ok (e, [])
  | mb :: mbs' =>
      '(e, out) ← chunk_WriteMultiBuffer fuel g e mb;
      '(e, w) ← write_all fuel e mbs';
      Ok (e, contents out ++ w)
  end.

Lemma write_all_ok fuel mbs : Forall (fun mb => writable mb /\ mb ≠ [] /\ (length (contents mb) < fuel)%nat) mbs -> (0 < fuel)%nat -> forall e,
  exists cs, write_all fuel e (mbs ++ [[]]) = Ok (frames e (cs ++ [[]])) /\ chunks_ok cs /\ concat cs = concat (contents <$> mbs).
Proof.
  intros Hmbs Hf. induction Hmbs as [|mb mbs (Hw & Hne & Hl) _ IH]; intros e; cbn [write_all app].
  - destruct (write_chunks_ok fuel e [] []) as (out & cs & He & Hout & _ & _ & Hcs); [split; [constructor|split; [constructor|done]]|constructor|done|].
    rewrite decide_True in Hcs by done. subst cs. unfold chunk_WriteMultiBuffer. rewrite He. cbn [mbind outcome_bind]. exists []. split; [|split; [constructor|done]].
    rewrite app_nil_r, Hout. change (contents []) with (@nil byte). cbn [app]. by destruct (frames e [[]]).
  - destruct (write_chunks_ok fuel e mb [] Hw ltac:(constructor) Hl) as (out & cs & He & Hout & _ & Hcc & Hcs). rewrite decide_False in Hcs by done.
    unfold chunk_WriteMultiBuffer. rewrite He. cbn [mbind outcome_bind].
    destruct (IH (frames e cs).1) as (cs' & -> & Hcs' & Hcc'). exists (cs ++ cs'). rewrite <-app_assoc, (frames_app e cs).
    destruct (frames (frames e cs).1 (cs' ++ [[]])) as [e2 w] eqn:Ef. cbn [mbind outcome_bind fst snd]. split; [by rewrite Hout|].
    split; [by apply Forall_app|]. by rewrite concat_app, Hcc, Hcc', fmap_cons.
Qed.

Lemma weight_frames e cs : (sum_list_with (fun x => S (length x)) cs <= length (frames e cs).2)%nat.
Proof.
  revert e. induction cs as [|x cs IH]; intros e; cbn [sum_list_with frames]; [lia|].
  pose proof (encode_length (D := D) e (Z.of_nat (length x))) as Hlen. rewrite sizes_agree in Hlen. pose proof (size_positive (E := E) (D := D)).
  destruct (Encode e (Z.of_nat (length x))) as [e1 h]. specialize (IH e1). destruct (frames e1 cs) as [e2 w]. cbn [fst snd] in *.
  rewrite !length_app. lia.
Qed.

(** ** Properties *)

(** For every pair of a size encoder and a decoder in step with it,
    what is written as chunks, in any number of writes without empty buffers
    and ended by an empty write, is copied out of a chunk reader unchanged;
    however the bytes are cut into buffers on the way, the copy ends without
    an error, both sides are in step again and the bytes behind the end are
    still there to be read. *)
Theorem chunk_stream_roundtrip e d mbs wfuel e' wire r rest fuel n :
  in_step e d -> Forall (fun mb => writable mb /\ mb ≠ [] /\ (length (contents mb) < wfuel)%nat) mbs -> (0 < wfuel)%nat ->
  write_all wfuel e (mbs ++ [[]]) = Ok (e', wire) -> reader_ok r -> stream r = wire ++ rest ->
  (d_SizeBytes (D := D) + idle r < fuel)%nat -> (length (stream r) + idle r < n)%nat ->
  exists c' w' total, Copy (chunk_read fuel) collect CountSize n (NewChunkStreamReader d r) [] 0 = Some (c', w', total, None) /\
    contents w' = concat (contents <$> mbs) /\ stream (reader c') = rest /\ in_step e' (sizeDecoder c').
Proof.
  intros Hstep Hmbs Hwf Hwrite Hok Hst Hf Hn. destruct (write_all_ok wfuel mbs Hmbs Hwf e) as (cs & Hw & Hcs & Hc).
  rewrite Hw in Hwrite. apply (inj Ok) in Hwrite. pose proof (weight_frames e (cs ++ [[]])) as Hwt. rewrite Hwrite in Hwt. cbn [snd] in Hwt.
  destruct (copy_chunks CountSize fuel n e [] cs rest (NewChunkStreamReader d r) [] 0) as (c' & w' & h' & Hcopy & Hw' & _ & _ & Hrest & Hs').
  { split; cbn; try done. by rewrite Hwrite, Hst. }
  { done. } { done. }
  { unfold weight. cbn [length reader NewChunkStreamReader NewChunkStreamReaderWithChunkCount].
    rewrite sum_list_with_app in Hwt. cbn in Hwt. rewrite Hst, length_app in Hn. lia. }
  { constructor. }
  exists c', w', h'. unfold Copy. rewrite Hcopy. split; [done|]. split; [by rewrite Hw', Hc|]. split; [done|]. by rewrite Hwrite in Hs'.
Qed.
End Stream.

Definition zeros : bytes := replicate (Z.to_nat Size) x00.
Lemma zeros_length : length zeros = Z.to_nat Size.
Proof. apply length_replicate. Qed.

Definition sample_writes : list MultiBuffer := [[FromBytes (bs "hello")]; [FromBytes (bs "a"); FromBytes (bs "b")]].
Definition sample_wire : bytes := [x00; x05] ++ bs "hello" ++ [x00; x02] ++ bs "ab" ++ [x00; x00].
(** The wire and one byte more, in pieces that do not follow the chunks. *)
Definition sample_reader : BufferedReader :=
  {| Reader := [([FromBytes (take 3 sample_wire)], None); ([], None); ([FromBytes []; FromBytes (drop 3 sample_wire ++ [x7f])], None)];
     Buffer_ := []; Spliter := None |}.

Lemma small_buf_ok d : Z.of_nat (length d) <= Size -> buf_ok (FromBytes d).
Proof. intros Hl. destruct (wf_FromBytes d) as [Hw Hc]; [unfold Size in Hl; lia|]. split; [done|]. by rewrite Hc. Qed.

Lemma sample_reader_ok : reader_ok sample_reader.
Proof.
  split; [|constructor|done|vm_compute; done].
  repeat constructor; cbn [fst]; apply small_buf_ok; vm_compute; discriminate.
Qed.

Lemma sample_writable mb : mb ∈ sample_writes -> writable mb /\ mb ≠ [] /\ (length (contents mb) < 9)%nat.
Proof.
  intros [->|[->|[]%not_elem_of_nil]%elem_of_cons]%elem_of_cons.
  all: split; [split; [repeat constructor; apply small_buf_ok; vm_compute; discriminate|split; [repeat constructor; vm_compute; discriminate|vm_compute; done]]|].
  all: split; [done|vm_compute; lia].
Qed.

Lemma chunk_stream_roundtrip_witness :
  exists c' w' total,
    Copy (chunk_read zeros 20) collect CountSize 40 (NewChunkStreamReader plain_parser sample_reader) [] 0 = Some (c', w', total, None) /\
    contents w' = bs "helloab" /\ stream (reader c') = [x7f] /\ in_step plain_parser (sizeDecoder c').
Proof.
  apply (chunk_stream_roundtrip zeros zeros_length plain_parser plain_parser sample_writes 9 plain_parser sample_wire sample_reader [x7f] 20 40).
  - exact I.
  - apply Forall_forall. exact sample_writable.
  - lia.
  - vm_compute. reflexivity.
  - exact sample_reader_ok.
  - vm_compute. reflexivity.
  - vm_compute. lia.
  - vm_compute. lia.
Defined.

(** An empty buffer before one that is larger than a slice is cut off alone:
    its chunk has size 0, which tells the reader that the stream has ended. *)
Example empty_buffer_ends_stream :
  match write_all zeros 3 plain_parser [[FromBytes []; FromBytes (replicate (Z.to_nat 8193) x61)]] with
  | Ok (_, wire) => take 4 wire
  | _ => []
  end = [x00; x00; x20; x00].
Proof. vm_compute. reflexivity. Qed.
