(* ===== verification/AuthStream.v ===== *)
(** * Authenticated streams, [common/crypto/auth.go]

    A stream of chunks, each sealed behind its size and followed by padding.
    The size may be plain, masked or sealed itself, with the same nonces as
    the chunks or with its own; the writer and the reader of a stream go
    through the same states, so one interface describes both.  The code of
    the two lies here with the authenticators and generators of nonces that
    the proxies give them, and what one writes is read by the other. *)

From S2P Require Import Prelude Net Segment SegmentFacts Buffer BufferFacts BufReader Chunk.

Local Open Scope Z_scope.

(** ** Nonces *)

(** The closures of the package as data: what they give and what they keep.
    src/common/crypto/auth.go BytesGenerator *)
Inductive BytesGenerator :=
  | EmptyBytes
  | StaticBytes (content : bytes)
  | IncreasingNonce (c : bytes)
  | ChunkNonce (c : bytes) (size : nat) (count : Z).

(** The number [c], lowest byte first, and one.
    src/common/crypto/auth.go:34-39 GenerateIncreasingNonce *)
Fixpoint increase (c : bytes) : bytes :=
  match c with
  | [] => []
  | x :: c' => let x' := byte_of_Z (byte_to_Z x + 1) in if byte_to_Z x' =? 0 then x' :: increase c' else x' :: c'
  end.

(** src/common/crypto/auth.go GenerateEmptyBytes *)
Definition GenerateEmptyBytes : BytesGenerator := EmptyBytes.
(** src/common/crypto/auth.go GenerateStaticBytes *)
Definition GenerateStaticBytes (content : bytes) : BytesGenerator := StaticBytes content.
(** src/common/crypto/auth.go GenerateIncreasingNonce *)
Definition GenerateIncreasingNonce (nonce : bytes) : BytesGenerator := IncreasingNonce nonce.
(** src/common/crypto/auth.go GenerateAEADNonceWithSize *)
Definition GenerateAEADNonceWithSize (nonceSize : nat) : BytesGenerator := IncreasingNonce (replicate nonceSize xff).
(** src/common/crypto/auth.go GenerateInitialAEADNonce *)
Definition GenerateInitialAEADNonce : BytesGenerator := GenerateIncreasingNonce (replicate 12 xff).
(** src/proxy/vmess/encoding/client.go:401-403 GenerateChunkNonce *)
Definition GenerateChunkNonce (nonce : bytes) (size : nat) : BytesGenerator := ChunkNonce nonce size 0.

(** A call of the closure; [Panic] is a nonce without room for the counter, or
    shorter than asked for.
    src/proxy/vmess/encoding/client.go:404-408 GenerateChunkNonce *)
Definition generate (g : BytesGenerator) : outcome io_error (BytesGenerator * bytes) :=
  match g with
  | EmptyBytes => Ok (g, [])
  | StaticBytes content => Ok (g, content)
  | IncreasingNonce c => let c' := increase c in Ok (IncreasingNonce c', c')
  | ChunkNonce c size count =>
      if (length c <? 2)%nat then Panic
      else
        let c' := splice 0 (put16 count) c in
        if (length c' <? size)%nat then Panic else Ok (ChunkNonce c' size (u16 (count + 1)), take size c')
  end.

(** ** Authenticators *)

(** [cipher.AEAD]. *)
Class Cipher := {
  cipher_NonceSize : nat;
  cipher_Overhead : nat;
  cipher_Seal : bytes -> bytes -> bytes -> bytes;
  cipher_Open : bytes -> bytes -> bytes -> outcome io_error bytes }.

(** What a cipher promises. *)
Class CipherLaws `{Cipher} := {
  cipher_Seal_length nonce plain ad : length (cipher_Seal nonce plain ad) = (length plain + cipher_Overhead)%nat;
  cipher_Open_Seal nonce plain ad : cipher_Open nonce (cipher_Seal nonce plain ad) ad = Ok plain }.

(** src/proxy/vmess/encoding/auth.go Authenticate *)
Definition Authenticate (b : bytes) : Z := fnv32a b.

(** src/proxy/vmess/encoding/auth.go NoOpAuthenticator *)
Definition NoOpAuthenticator : Cipher := {|
  cipher_NonceSize := 0; cipher_Overhead := 0;
  cipher_Seal nonce plaintext ad := plaintext; cipher_Open nonce ciphertext ad := Ok ciphertext |}.

(** src/proxy/vmess/encoding/auth.go FnvAuthenticator.Seal *)
Definition fnv_Seal (nonce plaintext ad : bytes) : bytes := put32 (Authenticate plaintext) ++ plaintext.

(** The first slice may reach behind the text into its array, but the second
    may not begin behind the text.
    src/proxy/vmess/encoding/auth.go FnvAuthenticator.Open *)
Definition fnv_Open (nonce ciphertext ad : bytes) : outcome io_error bytes :=
  if (length ciphertext <? 4)%nat then Panic
  else if negb (get32 (take 4 ciphertext) =? Authenticate (drop 4 ciphertext)) then Err OtherError
  else Ok (drop 4 ciphertext).

(** src/proxy/vmess/encoding/auth.go FnvAuthenticator *)
Definition FnvAuthenticator : Cipher := {| cipher_NonceSize := 0; cipher_Overhead := 4; cipher_Seal := fnv_Seal; cipher_Open := fnv_Open |}.

Section Authenticator.
Context `{Cipher}.

(** src/common/crypto/auth.go AEADAuthenticator *)
Record AEADAuthenticator := { NonceGenerator : BytesGenerator; AdditionalDataGenerator : option BytesGenerator }.

Definition with_nonces (v : AEADAuthenticator) (g : BytesGenerator) : AEADAuthenticator := {| NonceGenerator := g; AdditionalDataGenerator := AdditionalDataGenerator v |}.
Definition with_additional (v : AEADAuthenticator) (g : BytesGenerator) : AEADAuthenticator := {| NonceGenerator := NonceGenerator v; AdditionalDataGenerator := Some g |}.

(** What both operations begin with.
    src/common/crypto/auth.go:69-77 AEADAuthenticator.Open *)
Definition auth_inputs (v : AEADAuthenticator) : AEADAuthenticator * outcome io_error (bytes * bytes) :=
  match generate (NonceGenerator v) with
  | Ok (nonces, iv) =>
      let v := with_nonces v nonces in
      if negb (length iv =? cipher_NonceSize)%nat then (v, Err OtherError)
      else
        match AdditionalDataGenerator v with
        | None => (v, Ok (iv, []))
        | Some g => match generate g with Ok (g, ad) => (with_additional v g, Ok (iv, ad)) | _ => (v, Panic) end
        end
  | _ => (v, Panic)
  end.

(** src/common/crypto/auth.go AEADAuthenticator.Open *)
Definition auth_Open (v : AEADAuthenticator) (cipherText : bytes) : AEADAuthenticator * outcome io_error bytes :=
  let '(v, inputs) := auth_inputs v in (v, '(iv, ad) ← inputs; cipher_Open iv cipherText ad).

(** src/common/crypto/auth.go AEADAuthenticator.Seal *)
Definition auth_Seal (v : AEADAuthenticator) (plainText : bytes) : AEADAuthenticator * outcome io_error bytes :=
  let '(v, inputs) := auth_inputs v in (v, '(iv, ad) ← inputs; Ok (cipher_Seal iv plainText ad)).

(** *** Sealed sizes *)

(** [common.Must]. *)
Definition Must {A} (o : outcome io_error A) : outcome io_error A := match o with Err _ => Panic | r => r end.

(** src/common/crypto/chunk.go AEADChunkSizeParser.Encode *)
Definition aead_Encode (v : AEADAuthenticator) (size : Z) : AEADAuthenticator * outcome io_error bytes :=
  let '(v, b) := auth_Seal v (put16 (u16 (size - Z.of_nat cipher_Overhead))) in (v, Must b).

(** src/common/crypto/chunk.go AEADChunkSizeParser.Decode *)
Definition aead_Decode (v : AEADAuthenticator) (b : bytes) : AEADAuthenticator * outcome io_error Z :=
  let '(v, o) := auth_Open v b in
  (v, b ← o; if (length b <? 2)%nat then Panic else Ok (u16 (get16 b + Z.of_nat cipher_Overhead))).
End Authenticator.

(** *** Masked sizes *)

(** The hash's stream of numbers is a function of the place in it.
    src/proxy/vmess/encoding/auth.go ShakeSizeParser *)
Record ShakeSizeParser := { shake : nat -> Z; place : nat }.

(** src/proxy/vmess/encoding/auth.go ShakeSizeParser.next *)
Definition shake_next (s : ShakeSizeParser) : ShakeSizeParser * Z := ({| shake := shake s; place := S (place s) |}, u16 (shake s (place s))).

(** src/proxy/vmess/encoding/auth.go ShakeSizeParser.Decode *)
Definition shake_Decode (s : ShakeSizeParser) (b : bytes) : ShakeSizeParser * outcome io_error Z :=
  let '(s, mask) := shake_next s in (s, if (length b <? 2)%nat then Panic else Ok (Z.lxor mask (get16 b))).

(** src/proxy/vmess/encoding/auth.go ShakeSizeParser.Encode *)
Definition shake_Encode (s : ShakeSizeParser) (size : Z) : ShakeSizeParser * outcome io_error bytes :=
  let '(s, mask) := shake_next s in (s, Ok (put16 (Z.lxor mask size))).

(** src/proxy/vmess/encoding/auth.go ShakeSizeParser.NextPaddingLen *)
Definition shake_NextPaddingLen (s : ShakeSizeParser) : ShakeSizeParser * Z := let '(s, n) := shake_next s in (s, n mod 64).

(** src/proxy/vmess/encoding/auth.go ShakeSizeParser.MaxPaddingLen *)
Definition shake_MaxPaddingLen : Z := 64.

(** ** What a stream is written and read with

    The authenticator, the parser of sizes and the generator of paddings,
    which may share their states.  No padding is a padding of length 0. *)
Class AuthCodec (C : Type) := {
  NextPaddingLen : C -> C * Z;
  MaxPaddingLen : Z;
  SizeBytes : nat;
  ConstantOffset : Z;
  EncodeSize : C -> Z -> C * outcome io_error bytes;
  DecodeSize : C -> bytes -> C * outcome io_error Z;
  AuthOverhead : nat;
  SealData : C -> bytes -> C * outcome io_error bytes;
  OpenData : C -> bytes -> C * outcome io_error bytes }.

(** What they promise: from the same state, the reader's operations invert
    the writer's, and both are then in the same state again. *)
Class AuthCodecLaws (C : Type) `{AuthCodec C} := {
  codec_ok : C -> Prop;
  padding_ok c : codec_ok c -> codec_ok (NextPaddingLen c).1 /\ 0 <= (NextPaddingLen c).2 <= MaxPaddingLen;
  size_ok c size : codec_ok c -> 0 <= size < 2 ^ 16 -> exists c' b, EncodeSize c size = (c', Ok b) /\ length b = SizeBytes /\
    DecodeSize c b = (c', Ok (u16 (size - ConstantOffset))) /\ codec_ok c';
  data_ok c plain : codec_ok c -> exists c' b, SealData c plain = (c', Ok b) /\ length b = (length plain + AuthOverhead)%nat /\
    OpenData c b = (c', Ok plain) /\ codec_ok c';
  offset_range : 0 <= ConstantOffset <= Z.of_nat AuthOverhead;
  size_bytes_range : (0 < SizeBytes)%nat }.

(** Shadowsocks: the sizes are sealed with the authenticator of the data.
    src/proxy/shadowsocks/config.go AEADCipher.NewEncryptionWriter *)
#[export] Instance shared_codec `{Cipher} : AuthCodec AEADAuthenticator := {|
  NextPaddingLen c := (c, 0); MaxPaddingLen := 0; SizeBytes := 2 + cipher_Overhead; ConstantOffset := 0;
  EncodeSize := aead_Encode; DecodeSize := aead_Decode; AuthOverhead := cipher_Overhead; SealData := auth_Seal; OpenData := auth_Open |}.

(** VMess with global padding: sizes are masked, and their masks and the
    paddings come from one stream.
    src/proxy/vmess/encoding/client.go:140-152 ClientSession.EncodeRequestBody *)
#[export] Instance masked_codec `{Cipher} : AuthCodec (ShakeSizeParser * AEADAuthenticator) := {|
  NextPaddingLen c := let '(s, n) := shake_NextPaddingLen c.1 in ((s, c.2), n); MaxPaddingLen := shake_MaxPaddingLen; SizeBytes := 2; ConstantOffset := 0;
  EncodeSize c size := let '(s, b) := shake_Encode c.1 size in ((s, c.2), b);
  DecodeSize c b := let '(s, size) := shake_Decode c.1 b in ((s, c.2), size);
  AuthOverhead := cipher_Overhead;
  SealData c b := let '(a, b) := auth_Seal c.2 b in ((c.1, a), b);
  OpenData c b := let '(a, b) := auth_Open c.2 b in ((c.1, a), b) |}.

(** VMess with authenticated lengths: the sizes are sealed with a key and
    nonces of their own, the paddings still come from the masks.
    src/proxy/vmess/encoding/client.go:181-200 ClientSession.EncodeRequestBody *)
#[export] Instance measured_codec (L D : Cipher) : AuthCodec (ShakeSizeParser * AEADAuthenticator * AEADAuthenticator) := {|
  NextPaddingLen c := let '(s, n) := shake_NextPaddingLen c.1.1 in ((s, c.1.2, c.2), n); MaxPaddingLen := shake_MaxPaddingLen;
  SizeBytes := 2 + @cipher_Overhead L; ConstantOffset := 0;
  EncodeSize c size := let '(l, b) := @aead_Encode L c.1.2 size in ((c.1.1, l, c.2), b);
  DecodeSize c b := let '(l, size) := @aead_Decode L c.1.2 b in ((c.1.1, l, c.2), size);
  AuthOverhead := @cipher_Overhead D;
  SealData c b := let '(a, b) := @auth_Seal D c.2 b in ((c.1, a), b);
  OpenData c b := let '(a, b) := @auth_Open D c.2 b in ((c.1, a), b) |}.

(** ** Writing *)

(** [protocol.TransferType]. *)
Inductive TransferType := TransferTypeStream | TransferTypePacket.

(** The slice that [Extend] gives, filled with [data] from its beginning. *)
Definition extend_with (b : Buffer) (n : Z) (data : bytes) : outcome io_error Buffer :=
  match Extend b n with
  | Ok (b, (lo, hi)) => Ok (set_array b (splice (Z.to_nat lo) (take (Z.to_nat (hi - lo)) data) (arr b)))
  | _ => Panic
  end.

(** The operations of the package [buf] fail with an error of their own, which
    the code here never hands on. *)
Definition buf_op {A} (o : outcome unit A) : outcome io_error A := match o with Ok a => Ok a | Err _ => Err OtherError | Panic => Panic end.

Section Streams.
Context {C : Type} `{AuthCodec C}.
(** What [rand.Read] gives, and the arrays that the pool gives. *)
Variables (random : C -> bytes) (garbage : bytes).

(** The codec moves on also when the chunk is too large.
    src/common/crypto/auth.go AuthenticationWriter.seal *)
Definition seal (c : C) (b : bytes) : C * outcome io_error Buffer :=
  let encryptedSize := i32 (Z.of_nat (length b + AuthOverhead (C := C))) in
  let '(c, paddingSize) := NextPaddingLen c in
  let sizeBytes := Z.of_nat (SizeBytes (C := C)) in
  let totalSize := i32 (sizeBytes + encryptedSize + paddingSize) in
  if totalSize >? Size then (c, Err OtherError)
  else
    let '(c, size) := EncodeSize c (u16 (encryptedSize + paddingSize)) in
    match (size ← size; extend_with (New garbage) sizeBytes size) with
    | Ok eb =>
        let '(c', sealed) := SealData c b in
        (c', sealed ← sealed;
             eb ← extend_with eb encryptedSize sealed;
             if 0 <? paddingSize then extend_with eb paddingSize (resize (Z.to_nat paddingSize) x00 (random c)) else Ok eb)
    | Err e => (c, Err e)
    | Panic => (c, Panic)
    end.

(** One turn seals at least nothing; each takes [payloadSize] bytes.
    src/common/crypto/auth.go:308-321 AuthenticationWriter.writeStream *)
Fixpoint seal_stream (fuel : nat) (payloadSize : nat) (c : C) (mb mb2Write : MultiBuffer) : C * outcome io_error MultiBuffer :=
  match fuel with
  | O => (c, Panic)
  | S fuel' =>
      match SplitBytes mb payloadSize with
      | Ok (mb, rawBytes) =>
          let '(c, eb) := seal c rawBytes in
          match eb with
          | Ok eb => if MultiBuffer_IsEmpty mb then (c, Ok (mb2Write ++ [eb])) else seal_stream fuel' payloadSize c mb (mb2Write ++ [eb])
          | Err e => (c, Err e)
          | Panic => (c, Panic)
          end
      | _ => (c, Panic)
      end
  end.

(** Whether there is room for the list, and for a payload; every turn but the
    last takes [payloadSize] bytes.
    src/common/crypto/auth.go AuthenticationWriter.writeStream *)
Definition writeStream (c : C) (mb : MultiBuffer) : C * outcome io_error MultiBuffer :=
  let payloadSize := i32 (Size - Z.of_nat (AuthOverhead (C := C)) - Z.of_nat (SizeBytes (C := C)) - MaxPaddingLen (C := C)) in
  if Z.of_nat (length mb) + 10 >? 64 * 1024 * 1024 then (c, Err OtherError)
  else
    match Extend (New garbage) payloadSize with
    | Ok (_, (lo, hi)) => seal_stream (S (length (contents mb))) (Z.to_nat (hi - lo)) c mb []
    | _ => (c, Panic)
    end.

(** A packet that cannot be sealed is left out.
    src/common/crypto/auth.go:335-346 AuthenticationWriter.writePacket *)
Fixpoint seal_packets (c : C) (mb : MultiBuffer) : C * outcome io_error MultiBuffer :=
  match mb with
  | [] => (c, Ok [])
  | b :: mb' =>
      if IsEmpty b then seal_packets c mb'
      else
        match Bytes b with
        | Ok data =>
            let '(c, eb) := seal c data in
            match eb with
            | Panic => (c, Panic)
            | Err _ => seal_packets c mb'
            | Ok eb => let '(c, rest) := seal_packets c mb' in (c, rest ← rest; Ok (eb :: rest))
            end
        | _ => (c, Panic)
        end
  end.

(** src/common/crypto/auth.go AuthenticationWriter.writePacket *)
Definition writePacket (c : C) (mb : MultiBuffer) : C * outcome io_error MultiBuffer :=
  if Z.of_nat (length mb) + 1 >? 64 * 1024 * 1024 then (c, Err OtherError) else seal_packets c mb.

(** What the writer below is given; it is not called when that is empty.
    src/common/crypto/auth.go AuthenticationWriter.WriteMultiBuffer *)
Definition auth_WriteMultiBuffer (t : TransferType) (c : C) (mb : MultiBuffer) : C * outcome io_error MultiBuffer :=
  if MultiBuffer_IsEmpty mb then let '(c, eb) := seal c [] in (c, eb ← Must eb; Ok [eb])
  else match t with TransferTypeStream => writeStream c mb | TransferTypePacket => writePacket c mb end.

(** ** Reading *)

(** The slice for a size is left out.
    src/common/crypto/auth.go AuthenticationReader *)
Record AuthenticationReader := { codec : C; breader : BufferedReader; r_size : Z; r_paddingLen : Z; hasSize : bool; done : bool }.

(** src/common/crypto/auth.go NewAuthenticationReader *)
Definition NewAuthenticationReader (c : C) (r : BufferedReader) : AuthenticationReader :=
  {| codec := c; breader := r; r_size := 0; r_paddingLen := 0; hasSize := false; done := false |}.

Definition with_codec (r : AuthenticationReader) (c : C) (b : BufferedReader) : AuthenticationReader :=
  {| codec := c; breader := b; r_size := r_size r; r_paddingLen := r_paddingLen r; hasSize := hasSize r; done := done r |}.
Definition with_size (r : AuthenticationReader) (size padding : Z) (has : bool) : AuthenticationReader :=
  {| codec := codec r; breader := breader r; r_size := size; r_paddingLen := padding; hasSize := has; done := done r |}.
Definition with_done (r : AuthenticationReader) : AuthenticationReader :=
  {| codec := codec r; breader := breader r; r_size := r_size r; r_paddingLen := r_paddingLen r; hasSize := hasSize r; done := true |}.

(** The size and the padding; [None] is a read that has not ended.
    src/common/crypto/auth.go AuthenticationReader.readSize *)
Definition auth_readSize (fuel : nat) (r : AuthenticationReader) : option (AuthenticationReader * outcome io_error (Z * Z)) :=
  if hasSize r then Some (with_size r (r_size r) (r_paddingLen r) false, Ok (r_size r, r_paddingLen r))
  else
    '(b, sizeBytes) ← ReadFull fuel (breader r) (SizeBytes (C := C)) false;
    match sizeBytes with
    | Err e => Some (with_codec r (codec r) b, Err e)
    | Panic => Some (with_codec r (codec r) b, Panic)
    | Ok sizeBytes =>
        let '(c, padding) := NextPaddingLen (codec r) in
        let '(c, size) := DecodeSize c sizeBytes in
        Some (with_codec r c b, size ← size; Ok (size, padding))
    end.

(** The opened data lie where the sealed ones did.
    src/common/crypto/auth.go AuthenticationReader.readBuffer *)
Definition readBuffer (fuel : nat) (r : AuthenticationReader) (size padding : Z) : option (AuthenticationReader * outcome io_error Buffer) :=
  '(br, data) ← ReadFull fuel (breader r) (Z.to_nat size) false;
  match data with
  | Err e => Some (with_codec r (codec r) br, Err e)
  | Panic => Some (with_codec r (codec r) br, Panic)
  | Ok data =>
      match ('(b, _, _) ← buf_op (ReadFullFrom (New garbage) (fun _ => (data, false)) size);
             sealed ← buf_op (BytesTo b (i32 (size - padding))); Ok (b, sealed)) with
      | Err e => Some (with_codec r (codec r) br, Err e)
      | Panic => Some (with_codec r (codec r) br, Panic)
      | Ok (b, sealed) =>
          let '(c, rb) := OpenData (codec r) sealed in
          Some (with_codec r c br,
            rb ← rb;
            buf_op (Resize (set_array b (splice (Z.to_nat (start b)) rb (arr b))) 0 (i32 (Z.of_nat (length rb)))))
      end
  end.

(** Why nothing was added: more data are needed, or an error. *)
Inductive stop := Soft | Failed (e : io_error).

(** A chunk that is larger than a buffer.
    src/common/crypto/auth.go:198-213 AuthenticationReader.readInternal *)
Definition read_large (fuel : nat) (r : AuthenticationReader) (effectiveSize padding : Z) (mb : MultiBuffer) :
    option (AuthenticationReader * outcome io_error MultiBuffer) :=
  '(br, payload) ← ReadFull fuel (breader r) (Z.to_nat effectiveSize) false;
  match payload with
  | Err e => Some (with_codec r (codec r) br, Err e)
  | Panic => Some (with_codec r (codec r) br, Panic)
  | Ok payload =>
      match slice 0 (i32 (effectiveSize - padding)) payload with
      | None => Some (with_codec r (codec r) br, Panic)
      | Some sealed =>
          let '(c, rb) := OpenData (codec r) sealed in
          Some (with_codec r c br, rb ← rb; buf_op (MergeBytes garbage mb rb))
      end
  end.

Definition as_stop {A} (o : outcome io_error A) : outcome stop A := match o with Ok a => Ok a | Err e => Err (Failed e) | Panic => Panic end.

(** src/common/crypto/auth.go AuthenticationReader.readInternal *)
Definition auth_readInternal (fuel : nat) (soft : bool) (r : AuthenticationReader) (mb : MultiBuffer) :
    option (AuthenticationReader * outcome stop MultiBuffer) :=
  if soft && (BufferedBytes (breader r) <? Z.of_nat (SizeBytes (C := C))) then Some (r, Err Soft)
  else if done r then Some (r, Err (Failed EOF))
  else
    '(r, sized) ← auth_readSize fuel r;
    match sized with
    | Err e => Some (r, Err (Failed e))
    | Panic => Some (r, Panic)
    | Ok (size, padding) =>
        if u16 (size + ConstantOffset (C := C)) =? u16 (u16 (Z.of_nat (AuthOverhead (C := C))) + padding) then Some (with_done r, Err (Failed EOF))
        else
          let effectiveSize := size + ConstantOffset (C := C) in
          if soft && (effectiveSize >? BufferedBytes (breader r)) then Some (with_size r size padding true, Err Soft)
          else if effectiveSize <=? Size then
            '(r, b) ← readBuffer fuel r effectiveSize padding;
            Some (r, as_stop (b ← b; Ok (mb ++ [b])))
          else
            '(r, mb) ← read_large fuel r effectiveSize padding mb;
            Some (r, as_stop mb)
    end.

(** The further reads, until one has to wait or the stream has ended.
    src/common/crypto/auth.go:224-235 AuthenticationReader.ReadMultiBuffer *)
Fixpoint read_more (n fuel : nat) (r : AuthenticationReader) (mb : MultiBuffer) : option (AuthenticationReader * outcome io_error MultiBuffer) :=
  match n with
  | O => Some (r, Ok mb)
  | S n' =>
      '(r, res) ← auth_readInternal fuel true r mb;
      match res with
      | Ok mb => read_more n' fuel r mb
      | Err Soft | Err (Failed EOF) => Some (r, Ok mb)
      | Err (Failed e) => Some (r, Err e)
      | Panic => Some (r, Panic)
      end
  end.

(** src/common/crypto/auth.go AuthenticationReader.ReadMultiBuffer *)
Definition auth_ReadMultiBuffer (fuel : nat) (r : AuthenticationReader) : option (AuthenticationReader * outcome io_error MultiBuffer) :=
  '(r, res) ← auth_readInternal fuel false r [];
  match res with
  | Ok mb => read_more 15 fuel r mb
  | Err Soft => Some (r, Panic)
  | Err (Failed e) => Some (r, Err e)
  | Panic => Some (r, Panic)
  end.
End Streams.
Arguments AuthenticationReader C : clear implicits.

(** ** Nonces that do not come twice *)

(** A number, lowest byte first. *)
Fixpoint le_number (c : bytes) : Z := match c with [] => 0 | x :: c' => byte_to_Z x + 256 * le_number c' end.

Lemma le_number_range c : 0 <= le_number c < 256 ^ Z.of_nat (length c).
Proof.
  induction c as [|x c IH]; [cbn; lia|]. cbn [le_number length]. rewrite Nat2Z.inj_succ, Z.pow_succ_r by lia. pose proof (byte_to_Z_range x). nia.
Qed.

Lemma length_increase c : length (increase c) = length c.
Proof. induction c as [|x c IH]; [done|]. cbn [increase]. destruct (_ =? 0); cbn; lia. Qed.

Lemma le_number_increase c : le_number (increase c) = (le_number c + 1) mod 256 ^ Z.of_nat (length c).
Proof.
  induction c as [|x c IH]; [done|]. cbn [increase le_number length]. rewrite Nat2Z.inj_succ, Z.pow_succ_r by lia. pose proof (byte_to_Z_range x). pose proof (le_number_range c) as Hc.
  set (m := 256 ^ Z.of_nat (length c)) in *. rewrite byte_to_of_Z. unfold u8. destruct (Z.eq_dec (byte_to_Z x) 255) as [E|E].
  - rewrite E. change ((255 + 1) mod 2 ^ 8) with 0. cbn [Z.eqb le_number]. rewrite byte_to_of_Z. change (u8 (255 + 1)) with 0. rewrite IH.
    replace (255 + 256 * le_number c + 1) with (256 * (le_number c + 1)) by lia. by rewrite Z.mul_mod_distr_l by lia.
  - rewrite (Z.mod_small (byte_to_Z x + 1)) by lia. rewrite (proj2 (Z.eqb_neq _ 0)) by lia. cbn [le_number]. rewrite byte_to_of_Z. unfold u8. rewrite !Z.mod_small; lia.
Qed.

(** The closure called [k] times: what it keeps and gives. *)
Fixpoint nonce_after (k : nat) (c : bytes) : bytes := match k with O => c | S k' => increase (nonce_after k' c) end.

Lemma nonce_after_number k c : length (nonce_after k c) = length c /\ le_number (nonce_after k c) = (le_number c + Z.of_nat k) mod 256 ^ Z.of_nat (length c).
Proof.
  induction k as [|k [Hl IH]]; [split; [done|]; cbn [nonce_after]; rewrite Z.add_0_r; symmetry; apply Z.mod_small, le_number_range|].
  cbn [nonce_after]. rewrite length_increase, le_number_increase, Hl, IH. split; [done|].
  rewrite Zplus_mod_idemp_l. f_equal. lia.
Qed.

(** C15: the generator of increasing nonces counts: its [k]-th answer is, as a
    number with its lowest byte first, [k] more than what it began with, so no
    nonce of [n] bytes comes again before all [256 ^ n] have come. The one with
    which Shadowsocks begins gives first the nonce of zeros. *)
Theorem increasing_nonces_count c k :
  generate (IncreasingNonce (nonce_after k c)) = Ok (IncreasingNonce (nonce_after (S k) c), nonce_after (S k) c) /\
  le_number (nonce_after k c) = (le_number c + Z.of_nat k) mod 256 ^ Z.of_nat (length c) /\
  (forall j, Z.of_nat j < Z.of_nat k < Z.of_nat j + 256 ^ Z.of_nat (length c) -> nonce_after j c <> nonce_after k c) /\
  le_number (nonce_after 1 (replicate (length c) xff)) = 0.
Proof.
  split; [done|]. split; [apply nonce_after_number|]. split.
  - intros j Hjk E. apply (f_equal le_number) in E. destruct (nonce_after_number j c) as [_ Hj]. destruct (nonce_after_number k c) as [_ Hk]. rewrite Hj, Hk in E.
    set (m := 256 ^ Z.of_nat (length c)) in *. assert (0 < m) by (apply Z.pow_pos_nonneg; lia).
    pose proof (Z.div_mod (le_number c + Z.of_nat j) m ltac:(lia)) as Ej. pose proof (Z.div_mod (le_number c + Z.of_nat k) m ltac:(lia)) as Ek. rewrite E in Ej.
    set (p := (le_number c + Z.of_nat j) / m) in *. set (q := (le_number c + Z.of_nat k) / m) in *. assert (Z.of_nat k - Z.of_nat j = m * (q - p)) by lia.
    assert (q - p <= 0 \/ 1 <= q - p) as [?|?] by lia; nia.
  - induction (length c) as [|n IH]; [done|]. cbn [nonce_after replicate increase] in *. change (byte_of_Z (byte_to_Z xff + 1)) with x00. cbn [byte_to_Z Z.eqb le_number].
    change (byte_to_Z x00) with 0. cbn [Z.eqb le_number]. change (byte_to_Z x00) with 0. rewrite IH. lia.
Qed.

(** ** What is written is read *)

(** *** Buffers *)

Lemma extend_with_ok b n data : wf b -> 0 <= n -> n = Z.of_nat (length data) -> (length data <= room b)%nat ->
  exists b', extend_with b n data = Ok b' /\ wf b' /\ content b' = content b ++ data /\ room b' = (room b - length data)%nat.
Proof.
  intros Hb Hn Hd Hr. pose proof Hb as [Hc He Hi]. unfold room, cap in *. unfold extend_with, Extend. rewrite (i32_small (end_ b + n)), (i32_small (cap b)) by (unfold cap; lia).
  rewrite decide_False by (unfold cap; lia). rewrite slice_of_ok by (unfold cap; lia). cbn [mbind outcome_bind].
  rewrite take_ge by lia. pose proof (fill_content b data (end_ b + n) Hb ltac:(unfold room; lia) ltac:(lia)) as Hf. cbv zeta in Hf. rewrite i32_small in Hf by lia.
  eexists. split; [done|]. exact Hf.
Qed.

(** The buffer with the sealed bytes gets the opened ones. *)
Lemma reopened_ok b x : wf b -> start b = 0 -> v b <> None -> (length x <= length (arr b))%nat ->
  exists b', Resize (set_array b (splice (Z.to_nat (start b)) x (arr b))) 0 (i32 (Z.of_nat (length x))) = Ok b' /\ wf b' /\ content b' = x.
Proof.
  intros [Hc He Hi] Hs Hv Hx. unfold cap in *. unfold Resize, from_end. rewrite (i32_small (Z.of_nat (length x))) by lia.
  destruct (Z.ltb_spec (Z.of_nat (length x)) 0); [lia|]. change (0 <? 0) with false. cbv iota. destruct (Z.ltb_spec (Z.of_nat (length x)) 0); [lia|].
  cbn [start set_array]. rewrite Hs, !Z.add_0_l, !i32_small by lia. eexists. split; [done|].
  assert (Ha : arr (set_cursors (set_array b (splice (Z.to_nat 0) x (arr b))) 0 (Z.of_nat (length x))) = x ++ drop (length x) (arr b)).
  { unfold arr at 1, set_cursors, set_array. cbn [v]. destruct (v b); [|done]. cbn. done. }
  split.
  - split; cbn [start end_ set_cursors]; unfold cap; rewrite ?Ha, ?length_app, ?length_drop; lia.
  - unfold content. rewrite Ha. cbn [start end_ set_cursors]. rewrite Nat2Z.id. cbn [Z.to_nat]. rewrite drop_0, Nat.sub_0_r. apply take_app_length.
Qed.

Section Stream.
Context {C : Type} `{AuthCodecLaws C}.
Context (random : C -> bytes) (g : bytes) (Hg : length g = Z.to_nat Size).
Implicit Types (c : C) (r : AuthenticationReader C).

Local Notation overhead := (AuthOverhead (C := C)).

(** *** Chunks on the wire *)

(** A chunk with the plain bytes [x], from one state to another. *)
Definition chunk_of c (x : bytes) c' (w : bytes) : Prop :=
  exists h s p c1, EncodeSize (NextPaddingLen c).1 (Z.of_nat (length x + overhead) + (NextPaddingLen c).2) = (c1, Ok h) /\
    SealData c1 x = (c', Ok s) /\ Z.of_nat (length p) = (NextPaddingLen c).2 /\ w = h ++ s ++ p.

(** Chunks one after the other. *)
Fixpoint chunks_of c (xs : list bytes) c' (w : bytes) : Prop :=
  match xs with
  | [] => c' = c /\ w = []
  | x :: xs' => exists c1 w1 w2, chunk_of c x c1 w1 /\ chunks_of c1 xs' c' w2 /\ w = w1 ++ w2
  end.

Lemma chunks_of_app c xs ys c1 c2 w1 w2 : chunks_of c xs c1 w1 -> chunks_of c1 ys c2 w2 -> chunks_of c (xs ++ ys) c2 (w1 ++ w2).
Proof.
  revert c w1. induction xs as [|x xs IH]; intros c w1; cbn [chunks_of app]; [by intros [-> ->]|].
  intros (c' & a & b & Hx & Hxs & ->) Hys. exists c', a, (b ++ w2). split; [done|]. split; [by eapply IH|by rewrite app_assoc].
Qed.

Definition fits (x : bytes) : Prop := Z.of_nat (length x + overhead) + MaxPaddingLen (C := C) < 2 ^ 16.

Lemma chunk_of_ok c x c' w : codec_ok c -> fits x -> chunk_of c x c' w -> codec_ok c'.
Proof.
  intros Hc Hx (h & s & p & c1 & He & Hs & _). destruct (padding_ok c Hc) as [Hc0 Hp]. unfold fits in Hx.
  destruct (size_ok (NextPaddingLen c).1 (Z.of_nat (length x + overhead) + (NextPaddingLen c).2) Hc0 ltac:(lia)) as (c1' & h' & He' & _ & _ & Hc1). rewrite He in He'. injection He' as <- <-.
  destruct (data_ok c1 x Hc1) as (c2 & s' & Hs' & _ & _ & Hc2). rewrite Hs in Hs'. by injection Hs' as <- <-.
Qed.

(** *** Sealing *)

(** What is put into one buffer. *)
Definition room_for (x : bytes) : Prop := Z.of_nat (SizeBytes (C := C) + length x + overhead) + MaxPaddingLen (C := C) <= Size.

Lemma room_fits c x : codec_ok c -> room_for x -> fits x.
Proof. intros Hc. unfold room_for, fits, Size. destruct (padding_ok c Hc). lia. Qed.

Lemma seal_ok c x : codec_ok c -> room_for x -> exists c' eb, seal random g c x = (c', Ok eb) /\ buf_ok eb /\ chunk_of c x c' (content eb) /\ codec_ok c'.
Proof.
  intros Hc Hx. pose proof (room_fits c x Hc Hx) as Hf. unfold room_for, Size in Hx. unfold fits in Hf. destruct (padding_ok c Hc) as [Hc0 Hp].
  pose proof (size_ok (NextPaddingLen c).1 (Z.of_nat (length x + overhead) + (NextPaddingLen c).2) Hc0 ltac:(lia)) as (c1 & h & He & Hh & _ & Hc1).
  pose proof (data_ok c1 x Hc1) as (c2 & s & Hs & Hsl & _ & Hc2).
  destruct (wf_New g Hg) as [Hnew Hnewc]. pose proof (room_New g Hg) as Hroom. unfold Size in Hroom.
  assert (Hn1 : Z.of_nat (SizeBytes (C := C)) = Z.of_nat (length h)). { congruence. }
  destruct (extend_with_ok (New g) (Z.of_nat (SizeBytes (C := C))) h Hnew ltac:(lia) Hn1 ltac:(rewrite Hroom; lia)) as (b1 & E1 & Hb1 & Hb1c & Hb1r).
  destruct (extend_with_ok b1 (Z.of_nat (length x + overhead)) s Hb1 ltac:(lia) ltac:(lia) ltac:(rewrite Hb1r, Hroom; lia)) as (b2 & E2 & Hb2 & Hb2c & Hb2r).
  unfold seal. rewrite (i32_small (Z.of_nat (length x + overhead))) by lia. destruct (NextPaddingLen c) as [c0 n] eqn:Ep. cbn [fst snd] in *.
  rewrite i32_small by lia. destruct (Z.gtb_spec (Z.of_nat (SizeBytes (C := C)) + Z.of_nat (length x + overhead) + n) Size); [unfold Size in *; lia|].
  rewrite (u16_small (Z.of_nat (length x + overhead) + n)) by lia. rewrite He. cbn [mbind outcome_bind]. rewrite E1, Hs. cbn [mbind outcome_bind]. rewrite E2. cbn [mbind outcome_bind].
  rewrite Hb1c, Hnewc in Hb2c. cbn [app] in Hb2c. destruct (Z.ltb_spec 0 n) as [Hn|Hn].
  - destruct (extend_with_ok b2 n (resize (Z.to_nat n) x00 (random c1)) Hb2 ltac:(lia)) as (b3 & E3 & Hb3 & Hb3c & _); [rewrite length_resize; lia|rewrite length_resize, Hb2r, Hb1r, Hroom; lia|].
    rewrite E3. exists c2, b3. split; [done|]. rewrite Hb2c in Hb3c. split.
    + split; [done|]. rewrite Hb3c, !length_app, length_resize. unfold Size. lia.
    + split; [|done]. unfold chunk_of. rewrite Ep. exists h, s, (resize (Z.to_nat n) x00 (random c1)), c1. cbn [fst snd]. rewrite length_resize. split_and!; [done|done|lia|]. by rewrite Hb3c, <-app_assoc.
  - exists c2, b2. split; [done|]. split; [split; [done|]; rewrite Hb2c, length_app; unfold Size; lia|]. split; [|done]. unfold chunk_of. rewrite Ep. exists h, s, [], c1. cbn [fst snd length]. split_and!; [done|done|lia|]. by rewrite app_nil_r.
Qed.

Lemma seal_stream_ok n : (0 < n)%nat -> Z.of_nat (SizeBytes (C := C) + n + overhead) + MaxPaddingLen (C := C) <= Size ->
  forall fuel c mb acc, codec_ok c -> Forall wf mb -> contents mb <> [] -> (length (contents mb) < fuel)%nat -> Forall buf_ok acc ->
  exists c' out cs w, seal_stream random g fuel n c mb acc = (c', Ok out) /\ Forall buf_ok out /\ contents out = contents acc ++ w /\
    chunks_of c cs c' w /\ concat cs = contents mb /\ Forall (fun x => x <> [] /\ fits x) cs /\ codec_ok c'.
Proof.
  intros Hn Hroom. induction fuel as [|fuel IH]; intros c mb acc Hc Hmb Hne Hf Hacc; [lia|]. cbn [seal_stream].
  destruct (SplitBytes_ok mb n Hmb) as (mb' & -> & Hmb' & Hrest). set (x := take n (contents mb)) in *.
  assert (Hx : x <> []) by (unfold x; destruct (contents mb), n; done || lia).
  assert (Hxr : room_for x) by (unfold room_for; unfold x; rewrite length_take; lia).
  destruct (seal_ok c x Hc Hxr) as (c1 & eb & -> & Heb & Hchunk & Hc1). assert (Hacc' : Forall buf_ok (acc ++ [eb])) by (apply Forall_app; split; [done|by apply Forall_singleton]).
  pose proof (room_fits c x Hc Hxr) as Hxf. pose proof (take_drop n (contents mb)) as Hsplit. fold x in Hsplit. rewrite <-Hrest in Hsplit.
  rewrite MultiBuffer_IsEmpty_contents by done. case_bool_decide as Hempty.
  - exists c1, (acc ++ [eb]), [x], (content eb). rewrite Hempty, app_nil_r in Hsplit. split_and!; [done|done|by rewrite contents_app, contents_one| |cbn; by rewrite app_nil_r|by apply Forall_singleton|done].
    exists c1, (content eb), []. by rewrite app_nil_r.
  - destruct (IH c1 mb' (acc ++ [eb]) Hc1 Hmb' Hempty) as (c' & out & cs & w & Eq & Hout & Hcont & Hcs & Hconcat & Hfits & Hc'); [rewrite <-Hsplit, length_app in Hf; destruct x; [done|cbn in Hf; lia]|done|].
    exists c', out, (x :: cs), (content eb ++ w). split_and!; [done|done| |by exists c1, (content eb), w|cbn; by rewrite Hconcat|by apply Forall_cons|done].
    rewrite Hcont, contents_app, contents_one. by rewrite <-app_assoc.
Qed.

(** The lists that a stream's writer is given. *)
Definition sendable (mb : MultiBuffer) : Prop := Forall wf mb /\ contents mb <> [] /\ Z.of_nat (length mb) + 10 <= 64 * 1024 * 1024.

(** There is room for a byte beside the size, the overhead and the padding. *)
Definition roomy : Prop := Z.of_nat (SizeBytes (C := C) + overhead) + MaxPaddingLen (C := C) < Size.

Lemma max_padding c : codec_ok c -> 0 <= MaxPaddingLen (C := C).
Proof. intros Hc. destruct (padding_ok c Hc). lia. Qed.

Lemma write_stream_ok c mb : roomy -> codec_ok c -> sendable mb ->
  exists c' out cs, auth_WriteMultiBuffer random g TransferTypeStream c mb = (c', Ok out) /\ chunks_of c cs c' (contents out) /\
    concat cs = contents mb /\ Forall (fun x => x <> [] /\ fits x) cs /\ codec_ok c' /\ Forall buf_ok out.
Proof.
  intros Hroom Hc (Hmb & Hne & Hlen). pose proof (max_padding c Hc) as Hmax. unfold auth_WriteMultiBuffer. rewrite MultiBuffer_IsEmpty_contents, bool_decide_false by done. unfold writeStream.
  destruct (Z.gtb_spec (Z.of_nat (length mb) + 10) (64 * 1024 * 1024)); [lia|]. unfold roomy, Size in Hroom. set (n := Size - Z.of_nat overhead - Z.of_nat (SizeBytes (C := C)) - MaxPaddingLen (C := C)).
  assert (Hn : 0 < n <= Size) by (unfold n, Size; lia). rewrite (i32_small n) by (unfold Size in *; lia).
  assert (Extend (New g) n = Ok (set_cursors (New g) 0 n, (0, n))) as ->.
  { unfold Extend. change (end_ (New g)) with 0. rewrite Z.add_0_l, (i32_small n), (cap_New g Hg) by (unfold Size in *; lia). rewrite (i32_small Size) by (unfold Size; lia). rewrite decide_False by lia. rewrite slice_of_ok; [done|lia|rewrite (cap_New g Hg); lia]. }
  rewrite Z.sub_0_r. destruct (seal_stream_ok (Z.to_nat n) ltac:(lia) ltac:(unfold n, Size in *; lia) (S (length (contents mb))) c mb [] Hc Hmb Hne ltac:(lia) ltac:(by apply Forall_nil)) as (c' & out & cs & w & -> & Hout & Hcont & Hcs & Hconcat & Hfits & Hc').
  exists c', out, cs. cbn [contents mbind list_bind app] in Hcont. rewrite Hcont. done.
Qed.

(** The packets of a packet writer: each goes into one chunk. *)
Definition packets_fit (mb : MultiBuffer) : Prop := Forall (fun b => wf b /\ room_for (content b)) mb /\ contents mb <> [] /\ Z.of_nat (length mb) + 1 <= 64 * 1024 * 1024.

Lemma seal_packets_ok mb : forall c, codec_ok c -> Forall (fun b => wf b /\ room_for (content b)) mb ->
  exists c' out, seal_packets random g c mb = (c', Ok out) /\ chunks_of c (filter (fun x => x <> []) (content <$> mb)) c' (contents out) /\
    Forall (fun x => x <> [] /\ fits x) (filter (fun x => x <> []) (content <$> mb)) /\ codec_ok c' /\ Forall buf_ok out.
Proof.
  induction mb as [|b mb IH]; intros c Hc Hmb; cbn [seal_packets fmap list_fmap].
  - exists c, []. split_and!; [done|by split|by apply Forall_nil|done|by apply Forall_nil].
  - apply Forall_cons in Hmb as [[Hb Hroom] Hmb]. rewrite IsEmpty_content by done. case_bool_decide as E.
    + rewrite filter_cons_False by (rewrite E; tauto). by apply IH.
    + rewrite filter_cons_True by done. rewrite Bytes_content by done. destruct (seal_ok c (content b) Hc Hroom) as (c1 & eb & -> & Heb & Hchunk & Hc1).
      destruct (IH c1 Hc1 Hmb) as (c' & out & -> & Hcs & Hfits & Hc' & Hout). exists c', (eb :: out). cbn [mbind outcome_bind]. split_and!; [done| | |done|by apply Forall_cons].
      * exists c1, (content eb), (contents out). by rewrite contents_cons.
      * apply Forall_cons. split; [|done]. split; [done|by eapply room_fits].
Qed.
(** *** Opening *)

(** The chunk behind its size: the reader's codec has read the size. *)
Definition opened (c : C) (x : bytes) (c' : C) (padding : Z) (w : bytes) : Prop :=
  exists s p, SealData c x = (c', Ok s) /\ OpenData c s = (c', Ok x) /\ length s = (length x + overhead)%nat /\ Z.of_nat (length p) = padding /\ w = s ++ p.

Lemma chunk_parts c x c' w : codec_ok c -> fits x -> chunk_of c x c' w ->
  exists h c1 w', w = h ++ w' /\ length h = SizeBytes (C := C) /\
    DecodeSize (NextPaddingLen c).1 h = (c1, Ok (Z.of_nat (length x + overhead) + (NextPaddingLen c).2 - ConstantOffset (C := C))) /\ codec_ok c1 /\
    opened c1 x c' (NextPaddingLen c).2 w' /\ codec_ok c'.
Proof.
  intros Hc Hx (h & s & p & c1 & He & Hs & Hp & ->). destruct (padding_ok c Hc) as [Hc0 Hpad]. unfold fits in Hx. pose proof (offset_range (C := C)).
  destruct (size_ok (NextPaddingLen c).1 (Z.of_nat (length x + overhead) + (NextPaddingLen c).2) Hc0 ltac:(lia)) as (c1' & h' & He' & Hh & Hd & Hc1). rewrite He in He'. injection He' as <- <-.
  destruct (data_ok c1 x Hc1) as (c2 & s' & Hs' & Hl & Ho & Hc2). rewrite Hs in Hs'. injection Hs' as <- <-.
  rewrite u16_small in Hd by lia. exists h, c1, (s ++ p). split_and!; try done. by exists s, p.
Qed.

(** What is before the reader: its codec, the chunks, what follows them. *)
Definition before (c : C) (cs : list bytes) (rest : bytes) (r : AuthenticationReader C) : Prop :=
  reader_ok (breader r) /\ done r = false /\ Forall (fun x => x <> [] /\ fits x) cs /\
  exists c' w, chunks_of c (cs ++ [[]]) c' w /\
    if hasSize r then
      exists x cs' c1 c2 c3 p w1 w2, cs = x :: cs' /\ chunks_of c2 (cs' ++ [[]]) c3 w2 /\ codec_ok c2 /\ opened c1 x c2 p w1 /\ codec r = c1 /\
        r_paddingLen r = p /\ 0 <= p <= MaxPaddingLen (C := C) /\ r_size r = Z.of_nat (length x + overhead) + p - ConstantOffset (C := C) /\ stream (breader r) = w1 ++ w2 ++ rest
    else codec r = c /\ codec_ok c /\ stream (breader r) = w ++ rest.

(** The reader after a size: a chunk, or the end. *)
Definition sized (x : bytes) (cs : list bytes) (rest : bytes) (r : AuthenticationReader C) (p : Z) : Prop :=
  exists c2 c' w1 w2, opened (codec r) x c2 p w1 /\ codec_ok c2 /\ chunks_of c2 cs c' w2 /\ 0 <= p <= MaxPaddingLen (C := C) /\ stream (breader r) = w1 ++ w2 ++ rest.

Lemma full_read fuel (br : BufferedReader) n a b : reader_ok br -> stream br = a ++ b -> length a = n -> (n + idle br < fuel)%nat ->
  exists br', ReadFull fuel br n false = Some (br', Ok a) /\ reader_ok br' /\ stream br' = b /\ (idle br' <= idle br)%nat.
Proof.
  intros Hok Hst Hn Hf. destruct (ReadFull_spec fuel br n false Hok Hf) as (br' & res & -> & Hres). rewrite Hst, decide_True in Hres by (rewrite length_app; lia).
  destruct Hres as (-> & Hst' & Hok' & Hi). exists br'. rewrite take_app_length' in * by done. rewrite drop_app_length' in Hst' by done. done.
Qed.

Lemma fits_empty : 0 <= MaxPaddingLen (C := C) -> forall x, fits x -> fits [].
Proof. unfold fits. cbn [length]. lia. Qed.

Lemma readSize_ok fuel c cs rest r : (fits [] : Prop) -> before c cs rest r -> (length (stream (breader r)) + idle (breader r) < fuel)%nat ->
  exists x cs' r' p, cs ++ [[]] = x :: cs' /\ auth_readSize fuel r = Some (r', Ok (Z.of_nat (length x + overhead) + p - ConstantOffset (C := C), p)) /\
    sized x cs' rest r' p /\ reader_ok (breader r') /\ done r' = false /\ hasSize r' = false /\ fits x /\
    (idle (breader r') <= idle (breader r))%nat /\ (length (stream (breader r')) <= length (stream (breader r)))%nat.
Proof.
  intros Hf0 (Hok & Hdone & Hcs & c' & w & Hw & Hst) Hf. unfold auth_readSize. destruct (hasSize r) eqn:Eh.
  - destruct Hst as (x & cs' & c1 & c2 & c3 & p & w1 & w2 & -> & Hw2 & Hc2 & Ho & Hco & Hp & Hpr & Hsz & Hs). apply Forall_cons in Hcs as [[_ Hx] _].
    exists x, (cs' ++ [[]]), (with_size r (r_size r) (r_paddingLen r) false), p. cbn [breader with_size done hasSize]. rewrite Hsz, Hp. split_and!; try done.
    exists c2, c3, w1, w2. cbn [codec breader with_size]. by rewrite Hco.
  - destruct Hst as (Hco & Hc & Hs). assert (exists x cs', cs ++ [[]] = x :: cs' /\ fits x) as (x & cs' & Ecs & Hx).
    { destruct cs as [|x cs]; [by exists [], []|]. apply Forall_cons in Hcs as [[_ Hx] _]. by exists x, (cs ++ [[]]). }
    rewrite Ecs in Hw. destruct Hw as (c2 & w1 & w2 & Hchunk & Hrest & ->).
    destruct (chunk_parts c x c2 w1 Hc Hx Hchunk) as (h & c1 & w1' & -> & Hh & Hd & Hc1 & Ho & Hc2). rewrite <-!app_assoc in Hs.
    destruct (full_read fuel (breader r) (SizeBytes (C := C)) h (w1' ++ w2 ++ rest) Hok Hs Hh) as (br & -> & Hok' & Hst' & Hi).
    { rewrite Hs, length_app in Hf. lia. }
    cbn [mbind option_bind]. rewrite Hco. destruct (NextPaddingLen c) as [c0 p] eqn:Ep. cbn [fst snd] in *. rewrite Hd.
    exists x, cs', (with_codec r c1 br), p. cbn [breader with_codec done hasSize mbind outcome_bind]. split_and!; try done.
    + exists c2, c', w1', w2. cbn [codec breader with_codec]. split_and!; try done; destruct (padding_ok c Hc) as [_ Hp]; rewrite Ep in Hp; cbn in Hp; lia.
    + rewrite Hst', Hs, (length_app h). lia.
Qed.
(** A chunk is opened, in a buffer or in the bytes of a large one. *)
Lemma opened_read fuel x cs rest r p : sized x cs rest r p -> fits x -> reader_ok (breader r) -> (length (stream (breader r)) + idle (breader r) < fuel)%nat ->
  exists s q c2 br c' w2, ReadFull fuel (breader r) (Z.to_nat (Z.of_nat (length x + overhead) + p)) false = Some (br, Ok (s ++ q)) /\ length s = (length x + overhead)%nat /\
    Z.of_nat (length q) = p /\ OpenData (codec r) s = (c2, Ok x) /\ codec_ok c2 /\ chunks_of c2 cs c' w2 /\ 0 <= p <= MaxPaddingLen (C := C) /\
    reader_ok br /\ stream br = w2 ++ rest /\ (idle br <= idle (breader r))%nat /\ (length (stream br) + length s <= length (stream (breader r)))%nat.
Proof.
  intros (c2 & c' & w1 & w2 & (s & q & Hs & Ho & Hl & Hq & ->) & Hc2 & Hw2 & Hp & Hst) Hx Hok Hf.
  destruct (full_read fuel (breader r) (Z.to_nat (Z.of_nat (length x + overhead) + p)) (s ++ q) (w2 ++ rest) Hok Hst) as (br & -> & Hok' & Hst' & Hi).
  { rewrite length_app, Hl. lia. } { rewrite Hst, !length_app in Hf. lia. }
  exists s, q, c2, br, c', w2. split_and!; try done; try lia. rewrite Hst', Hst, !length_app. lia.
Qed.

Lemma readBuffer_ok fuel x cs rest r p : sized x cs rest r p -> fits x -> reader_ok (breader r) -> (length (stream (breader r)) + idle (breader r) < fuel)%nat ->
  Z.of_nat (length x + overhead) + p <= Size ->
  exists c2 br b c' w2, readBuffer g fuel r (Z.of_nat (length x + overhead) + p) p = Some (with_codec r c2 br, Ok b) /\ wf b /\ content b = x /\
    codec_ok c2 /\ chunks_of c2 cs c' w2 /\ reader_ok br /\ stream br = w2 ++ rest /\ (idle br <= idle (breader r))%nat /\ (length (stream br) + length x + overhead <= length (stream (breader r)))%nat.
Proof.
  intros Hsz Hx Hok Hf Hsize. destruct (opened_read fuel x cs rest r p Hsz Hx Hok Hf) as (s & q & c2 & br & c' & w2 & Hr & Hl & Hq & Ho & Hc2 & Hw2 & Hp & Hok' & Hst & Hi & Hlen).
  unfold readBuffer. rewrite Hr. cbn [mbind option_bind]. destruct (wf_New g Hg) as [Hnew Hnewc]. pose proof (room_New g Hg) as Hroom.
  set (n := Z.of_nat (length x + overhead) + p) in *. assert (Hn : n = Z.of_nat (length (s ++ q))) by (rewrite length_app, Hl; unfold n; lia). assert (H0n : 0 <= n) by lia. unfold Size in *.
  assert (exists b, ReadFullFrom (New g) (fun _ => (s ++ q, false)) n = Ok (b, Z.of_nat (length (s ++ q)), false) /\ wf b /\ content b = s ++ q /\ start b = 0 /\ v b <> None /\ length (arr b) = length g) as (b & -> & Hb & Hbc & Hb0 & Hbv & Hba).
  { unfold ReadFullFrom. change (end_ (New g)) with 0. rewrite Z.add_0_l, (i32_small n), (cap_New g Hg) by lia. rewrite (i32_small Size) by (unfold Size; lia). rewrite decide_False by (unfold Size; lia).
    rewrite slice_of_ok by (rewrite ?(cap_New g Hg); unfold Size; lia). cbn [mbind outcome_bind]. rewrite Z.add_0_l.
    pose proof (fill_content (New g) (s ++ q) (Z.of_nat (length (s ++ q))) Hnew ltac:(rewrite Hroom; lia) ltac:(done)) as Hfill. cbv zeta in Hfill. destruct Hfill as (Hw & Hfc & _). change (end_ (New g)) with 0 in Hw, Hfc.
    eexists. split; [done|]. split; [exact Hw|]. split; [by rewrite Hfc, Hnewc|]. split; [done|]. split; [done|].
    unfold arr, set_cursors, set_array, New. cbn [v default from_option id]. apply length_splice. cbn [Z.to_nat]. rewrite Hg. unfold Size. lia. }
  cbn [buf_op mbind outcome_bind]. replace (i32 (n - p)) with (Z.of_nat (length s)) by (rewrite i32_small; unfold n; lia).
  rewrite (BytesTo_content b (length s)) by (try done; rewrite Hbc, length_app; lia). cbn [buf_op mbind outcome_bind]. rewrite Hbc, take_app_length, Ho. cbn [mbind outcome_bind].
  destruct (reopened_ok b x Hb Hb0 Hbv) as (b' & -> & Hb' & Hbc'); [rewrite Hba, Hg; unfold Size; lia|].
  exists c2, br, b', c', w2. split_and!; try done. lia.
Qed.

Lemma read_large_ok fuel x cs rest r p mb : sized x cs rest r p -> fits x -> reader_ok (breader r) -> (length (stream (breader r)) + idle (breader r) < fuel)%nat -> Forall wf mb ->
  exists c2 br mb' c' w2, read_large g fuel r (Z.of_nat (length x + overhead) + p) p mb = Some (with_codec r c2 br, Ok mb') /\ Forall wf mb' /\ contents mb' = contents mb ++ x /\
    codec_ok c2 /\ chunks_of c2 cs c' w2 /\ reader_ok br /\ stream br = w2 ++ rest /\ (idle br <= idle (breader r))%nat /\ (length (stream br) + length x + overhead <= length (stream (breader r)))%nat.
Proof.
  intros Hsz Hx Hok Hf Hmb. destruct (opened_read fuel x cs rest r p Hsz Hx Hok Hf) as (s & q & c2 & br & c' & w2 & Hr & Hl & Hq & Ho & Hc2 & Hw2 & Hp & Hok' & Hst & Hi & Hlen).
  unfold read_large. rewrite Hr. cbn [mbind option_bind]. unfold fits in Hx. replace (i32 (Z.of_nat (length x + overhead) + p - p)) with (Z.of_nat (length s)) by (rewrite i32_small; lia).
  assert (slice 0 (Z.of_nat (length s)) (s ++ q) = Some s) as ->.
  { unfold slice. rewrite decide_True by (rewrite length_app; lia). cbn [Z.to_nat]. rewrite Nat2Z.id, Nat.sub_0_r, drop_0. by rewrite take_app_length. }
  rewrite Ho. cbn [mbind outcome_bind]. destruct (MergeBytes_ok g Hg mb x Hmb) as (mb' & -> & Hmb' & Hc). exists c2, br, mb', c', w2. split_and!; try done. lia.
Qed.

(** Behind the chunk with which a stream ends. *)
Definition ended (rest : bytes) (r : AuthenticationReader C) : Prop := done r = true /\ reader_ok (breader r) /\ exists t, stream (breader r) = t ++ rest.

Lemma readInternal_ok fuel soft c cs rest r mb : fits [] -> (0 < SizeBytes (C := C))%nat -> before c cs rest r -> (length (stream (breader r)) + idle (breader r) < fuel)%nat -> Forall wf mb ->
  exists r' res, auth_readInternal g fuel soft r mb = Some (r', res) /\ (idle (breader r') <= idle (breader r))%nat /\ (length (stream (breader r')) <= length (stream (breader r)))%nat /\
    match res with
    | Ok mb' => exists x cs' c', cs = x :: cs' /\ Forall wf mb' /\ contents mb' = contents mb ++ x /\ before c' cs' rest r'
    | Err Soft => soft = true /\ exists c', before c' cs rest r'
    | Err (Failed e) => e = EOF /\ cs = [] /\ ended rest r'
    | Panic => False
    end.
Proof.
  intros Hf0 Hsb Hb Hf Hmb. pose proof Hb as (Hok & Hdone & Hcs & _). unfold auth_readInternal.
  destruct (soft && _) eqn:Es; [exists r, (Err Soft); split_and!; try done; [by apply andb_true_iff in Es as [-> _]|by exists c]|]. rewrite Hdone. clear Es.
  destruct (readSize_ok fuel c cs rest r Hf0 Hb Hf) as (x & cs1 & r1 & p & Ecs & -> & Hsz & Hok1 & Hdone1 & Hhas1 & Hx & Hi1 & Hl1). cbn [mbind option_bind].
  pose proof Hsz as (_ & _ & _ & _ & _ & _ & _ & Hp & _). pose proof Hx as Hxx. unfold fits in Hxx. pose proof (offset_range (C := C)) as Hoff.
  replace (Z.of_nat (length x + overhead) + p - ConstantOffset + ConstantOffset) with (Z.of_nat (length x + overhead) + p) by lia.
  rewrite (u16_small (Z.of_nat overhead)), !u16_small by lia. destruct (Z.eqb_spec (Z.of_nat (length x + overhead) + p) (Z.of_nat overhead + p)) as [E|E].
  - assert (x = []) as -> by (destruct x; [done|cbn [length] in E; lia]). exists (with_done r1), (Err (Failed EOF)). cbn [breader with_done].
    assert (cs = []) as -> by (destruct cs as [|y cs]; [done|]; apply Forall_cons in Hcs as [[Hy _] _]; injection Ecs as -> _; done).
    split_and!; try done. destruct Hsz as (c2 & c' & w1 & w2 & _ & _ & Hw2 & _ & Hst). cbn [app] in Ecs. injection Ecs as Ecs. subst cs1. cbn [chunks_of] in Hw2. destruct Hw2 as [? Ew]. subst w2. split; [reflexivity|]. split; [exact Hok1|]. exists w1. exact Hst.
  - assert (exists cs', cs = x :: cs' /\ cs1 = cs' ++ [[]] /\ Forall (fun x => x <> [] /\ fits x) cs') as (cs' & -> & -> & Hcs').
    { destruct cs as [|y cs]; [injection Ecs as <- _; cbn [length] in E; lia|]. injection Ecs as <- <-. apply Forall_cons in Hcs as [_ Hcs]. by exists cs. }
    destruct (soft && _) eqn:Es.
    + exists (with_size r1 (Z.of_nat (length x + overhead) + p - ConstantOffset) p true), (Err Soft). cbn [breader with_size]. split_and!; try done; [by apply andb_true_iff in Es as [-> _]|].
      exists c. destruct Hb as (_ & _ & _ & c' & w & Hw & _). split; [done|]. split; [done|]. split; [done|]. exists c', w. split; [done|]. cbn [hasSize with_size].
      destruct Hsz as (c2 & c3 & w1 & w2 & Ho & Hc2 & Hw2 & _ & Hst). exists x, cs', (codec r1), c2, c3, p, w1, w2. cbn [codec breader with_size r_paddingLen r_size].
      split_and!; try done; lia.
    + destruct (Z.leb_spec (Z.of_nat (length x + overhead) + p) Size) as [Hsize|Hsize].
      * destruct (readBuffer_ok fuel x (cs' ++ [[]]) rest r1 p Hsz Hx Hok1 ltac:(lia) Hsize) as (c2 & br & b & c' & w2 & -> & Hbw & Hbc & Hc2 & Hw2 & Hok2 & Hst2 & Hi2 & Hl2).
        cbn [mbind option_bind outcome_bind as_stop]. exists (with_codec r1 c2 br), (Ok (mb ++ [b])). cbn [breader with_codec]. split; [done|]. split; [lia|]. split; [lia|].
        exists x, cs', c2. split; [done|]. split; [by apply Forall_app; split; [|apply Forall_singleton]|]. split; [by rewrite contents_app, contents_one, Hbc|].
        split; [done|]. split; [done|]. split; [done|]. exists c', w2. split; [done|]. cbn [hasSize with_codec]. rewrite Hhas1. done.
      * destruct (read_large_ok fuel x (cs' ++ [[]]) rest r1 p mb Hsz Hx Hok1 ltac:(lia) Hmb) as (c2 & br & mb' & c' & w2 & -> & Hbw & Hbc & Hc2 & Hw2 & Hok2 & Hst2 & Hi2 & Hl2).
        cbn [mbind option_bind outcome_bind as_stop]. exists (with_codec r1 c2 br), (Ok mb'). cbn [breader with_codec]. split; [done|]. split; [lia|]. split; [lia|].
        exists x, cs', c2. split; [done|]. split; [done|]. split; [done|].
        split; [done|]. split; [done|]. split; [done|]. exists c', w2. split; [done|]. cbn [hasSize with_codec]. rewrite Hhas1. done.
Qed.

(** *** Reading on *)

Lemma read_more_ok n fuel : fits [] -> (0 < SizeBytes (C := C))%nat -> forall c cs rest r mb, before c cs rest r ->
  (length (stream (breader r)) + idle (breader r) < fuel)%nat -> Forall wf mb ->
  exists r' mb' cs1 cs2, read_more g n fuel r mb = Some (r', Ok mb') /\ cs = cs1 ++ cs2 /\ Forall wf mb' /\ contents mb' = contents mb ++ concat cs1 /\
    ((exists c', before c' cs2 rest r') \/ cs2 = [] /\ ended rest r') /\
    (idle (breader r') <= idle (breader r))%nat /\ (length (stream (breader r')) <= length (stream (breader r)))%nat.
Proof.
  intros Hf0 Hsb. induction n as [|n IH]; intros c cs rest r mb Hb Hf Hmb; cbn [read_more].
  - exists r, mb, [], cs. rewrite app_nil_r. split_and!; try done. left. by exists c.
  - destruct (readInternal_ok fuel true c cs rest r mb Hf0 Hsb Hb Hf Hmb) as (r1 & res & -> & Hi & Hl & Hres). cbn [mbind option_bind]. destruct res as [mb1|[|e]|]; [| | |done].
    + destruct Hres as (x & cs' & c' & -> & Hmb1 & Hc1 & Hb1). destruct (IH c' cs' rest r1 mb1 Hb1 ltac:(lia) Hmb1) as (r' & mb' & cs1 & cs2 & -> & -> & Hmb' & Hc' & Hend & Hi' & Hl').
      exists r', mb', (x :: cs1), cs2. cbn [app concat]. split_and!; try done; [by rewrite Hc', Hc1, <-app_assoc|lia|lia].
    + destruct Hres as (_ & c' & Hb1). exists r1, mb, [], cs. cbn [concat app]. rewrite app_nil_r. split_and!; try done. left. by exists c'.
    + destruct Hres as (-> & -> & Hend). exists r1, mb, [], []. cbn [concat app]. rewrite app_nil_r. split_and!; try done. by right.
Qed.

(** The reader as the copy loop uses it. *)
Definition auth_read (fuel : nat) (r : AuthenticationReader C) : AuthenticationReader C * MultiBuffer * option io_error :=
  match auth_ReadMultiBuffer g fuel r with
  | Some (r, Ok mb) => (r, mb, None)
  | Some (r, Err e) => (r, [], Some e)
  | Some (r, Panic) => (r, [], Some OtherError)
  | None => (r, [], Some OtherError)
  end.

Lemma auth_read_ok fuel c cs rest r : fits [] -> (0 < SizeBytes (C := C))%nat -> before c cs rest r -> (length (stream (breader r)) + idle (breader r) < fuel)%nat ->
  exists r', (idle (breader r') <= idle (breader r))%nat /\ (length (stream (breader r')) <= length (stream (breader r)))%nat /\
    ((exists mb cs1 cs2, auth_read fuel r = (r', mb, None) /\ cs = cs1 ++ cs2 /\ cs1 <> [] /\ Forall wf mb /\ contents mb = concat cs1 /\
       ((exists c', before c' cs2 rest r') \/ cs2 = [] /\ ended rest r')) \/
     cs = [] /\ auth_read fuel r = (r', [], Some EOF) /\ ended rest r').
Proof.
  intros Hf0 Hsb Hb Hf. unfold auth_read, auth_ReadMultiBuffer.
  destruct (readInternal_ok fuel false c cs rest r [] Hf0 Hsb Hb Hf ltac:(by apply Forall_nil)) as (r1 & res & -> & Hi & Hl & Hres). cbn [mbind option_bind]. destruct res as [mb1|[|e]|]; [| | |done].
  - destruct Hres as (x & cs' & c' & -> & Hmb1 & Hc1 & Hb1). destruct (read_more_ok 15 fuel Hf0 Hsb c' cs' rest r1 mb1 Hb1 ltac:(lia) Hmb1) as (r' & mb' & cs1 & cs2 & -> & -> & Hmb' & Hc' & Hend & Hi' & Hl').
    exists r'. split; [lia|]. split; [lia|]. left. exists mb', (x :: cs1), cs2. split_and!; try done. rewrite Hc', Hc1. done.
  - by destruct Hres as [? _].
  - destruct Hres as (-> & -> & Hend). exists r1. split; [lia|]. split; [lia|]. by right.
Qed.

Lemma copy_auth {S} (handler : S -> MultiBuffer -> S) fuel n : fits [] -> (0 < SizeBytes (C := C))%nat -> forall c cs rest r w h, before c cs rest r \/ cs = [] /\ ended rest r ->
  (length (stream (breader r)) + idle (breader r) < fuel)%nat -> (length cs < n)%nat ->
  exists r' w' h', copyInternal (auth_read fuel) collect handler n r w h = Some (r', w', h', readError EOF) /\ contents w' = contents w ++ concat cs /\ ended rest r'.
Proof.
  intros Hf0 Hsb. induction n as [|n IH]; intros c cs rest r w h Hb Hf Hn; [lia|]. cbn [copyInternal].
  destruct Hb as [Hb|[-> Hend]].
  - destruct (auth_read_ok fuel c cs rest r Hf0 Hsb Hb Hf) as (r' & Hi & Hl & [(mb & cs1 & cs2 & -> & -> & Hne & Hmb & Hc & Hnext)|(-> & -> & Hend)]).
    + rewrite length_app in Hn. assert (0 < length cs1)%nat by (destruct cs1; [done|cbn; lia]). rewrite MultiBuffer_IsEmpty_contents by done. case_bool_decide as Em; cbn [negb].
      * destruct Hnext as [[c' Hb']|[-> Hend]].
        -- destruct (IH c' cs2 rest r' w h (or_introl Hb') ltac:(lia) ltac:(lia)) as (r2 & w2 & h2 & -> & Hw & Hend). exists r2, w2, h2. rewrite concat_app, <-Hc, Em. done.
        -- destruct (IH c [] rest r' w h (or_intror (conj eq_refl Hend)) ltac:(lia) ltac:(cbn; lia)) as (r2 & w2 & h2 & -> & Hw & Hend2). exists r2, w2, h2. rewrite concat_app, <-Hc, Em. done.
      * unfold collect at 1. destruct Hnext as [[c' Hb']|[-> Hend]].
        -- destruct (IH c' cs2 rest r' (w ++ mb) (handler h mb) (or_introl Hb') ltac:(lia) ltac:(lia)) as (r2 & w2 & h2 & -> & Hw & Hend). exists r2, w2, h2. split; [done|]. split; [|done]. rewrite Hw, contents_app, concat_app, Hc. by rewrite <-app_assoc.
        -- destruct (IH c [] rest r' (w ++ mb) (handler h mb) (or_intror (conj eq_refl Hend)) ltac:(lia) ltac:(cbn; lia)) as (r2 & w2 & h2 & -> & Hw & Hend2). exists r2, w2, h2. split; [done|]. split; [|done]. rewrite Hw, contents_app, concat_app, Hc. by rewrite <-app_assoc.
    + cbn. exists r', w, h. by rewrite app_nil_r.
  - pose proof Hend as (Hd & Hok & _). assert (auth_read fuel r = (r, [], Some EOF)) as -> by (unfold auth_read, auth_ReadMultiBuffer, auth_readInternal; cbn [andb]; by rewrite Hd). cbn. exists r, w, h. by rewrite app_nil_r.
Qed.
(** ** Properties *)

(** What a writer of either kind is given. *)
Definition writable_as (t : TransferType) (mb : MultiBuffer) : Prop :=
  match t with TransferTypeStream => sendable mb | TransferTypePacket => packets_fit mb end.

(** The bytes of successive writes. *)
Fixpoint auth_write_all (t : TransferType) c (mbs : list MultiBuffer) : C * outcome io_error bytes :=
  match mbs with
  | [] => (c, Ok [])
  | mb :: mbs' =>
      let '(c, out) := auth_WriteMultiBuffer random g t c mb in
      match out with
      | Ok out => let '(c, w) := auth_write_all t c mbs' in (c, w ← w; Ok (contents out ++ w))
      | Err e => (c, Err e)
      | Panic => (c, Panic)
      end
  end.

Lemma concat_filter_nonempty (xs : list bytes) : concat (filter (fun x => x <> []) xs) = concat xs.
Proof. induction xs as [|x xs IH]; [done|]. destruct (decide (x <> [])) as [E|E]; [rewrite filter_cons_True by done; cbn; by rewrite IH|]. rewrite filter_cons_False by done. destruct x; [done|by destruct E]. Qed.

Lemma concat_content (mb : MultiBuffer) : concat (content <$> mb) = contents mb.
Proof. induction mb as [|b mb IH]; [done|]. cbn [fmap list_fmap concat]. by rewrite IH. Qed.

Lemma auth_write_ok t c mb : roomy -> codec_ok c -> writable_as t mb ->
  exists c' out cs, auth_WriteMultiBuffer random g t c mb = (c', Ok out) /\ chunks_of c cs c' (contents out) /\ concat cs = contents mb /\
    Forall (fun x => x <> [] /\ fits x) cs /\ codec_ok c'.
Proof.
  intros Hroom Hc Hw. destruct t; cbn [writable_as] in Hw.
  - destruct (write_stream_ok c mb Hroom Hc Hw) as (c' & out & cs & E & Hcs & Hcc & Hf & Hc' & _). by exists c', out, cs.
  - destruct Hw as (Hmb & Hne & Hlen). assert (Forall wf mb) as Hwf by (eapply Forall_impl; [exact Hmb|by intros b []]).
    unfold auth_WriteMultiBuffer. rewrite MultiBuffer_IsEmpty_contents by exact Hwf. rewrite bool_decide_false by exact Hne.
    unfold writePacket. destruct (Z.gtb_spec (Z.of_nat (length mb) + 1) (64 * 1024 * 1024)); [lia|].
    destruct (seal_packets_ok mb c Hc Hmb) as (c' & out & -> & Hcs & Hf & Hc' & _). exists c', out, (filter (fun x => x <> []) (content <$> mb)). split_and!; try done. rewrite concat_filter_nonempty. apply concat_content.
Qed.

Lemma auth_write_all_ok t : roomy -> forall mbs c, codec_ok c -> Forall (writable_as t) mbs ->
  exists c' w cs, auth_write_all t c (mbs ++ [[]]) = (c', Ok w) /\ chunks_of c (cs ++ [[]]) c' w /\ concat cs = concat (contents <$> mbs) /\ Forall (fun x => x <> [] /\ fits x) cs.
Proof.
  intros Hroom. induction mbs as [|mb mbs IH]; intros c Hc Hmbs; cbn [auth_write_all app].
  - assert (Hr : room_for []) by (unfold roomy in Hroom; unfold room_for; cbn [length]; lia). destruct (seal_ok c [] Hc Hr) as (c' & eb & Es & _ & Hchunk & _).
    unfold auth_WriteMultiBuffer. change (MultiBuffer_IsEmpty []) with true. cbv iota. rewrite Es. cbn [Must mbind outcome_bind]. exists c', (contents [eb] ++ []), []. rewrite contents_one, app_nil_r.
    split_and!; [done| |done|by apply Forall_nil]. exists c', (content eb), []. by rewrite app_nil_r.
  - apply Forall_cons in Hmbs as [Hmb Hmbs]. destruct (auth_write_ok t c mb Hroom Hc Hmb) as (c1 & out & cs1 & -> & Hcs1 & Hcc1 & Hf1 & Hc1).
    destruct (IH c1 Hc1 Hmbs) as (c' & w & cs & -> & Hcs & Hcc & Hf). cbn [mbind outcome_bind]. exists c', (contents out ++ w), (cs1 ++ cs).
    split_and!; [done|rewrite <-app_assoc; by eapply chunks_of_app|by rewrite concat_app, Hcc1, Hcc|by apply Forall_app].
Qed.

Lemma length_nonempty (xs : list bytes) : Forall (fun x => x <> [] /\ fits x) xs -> (length xs <= length (concat xs))%nat.
Proof. induction 1 as [|x xs [Hx _] _ IH]; [done|]. cbn [concat length]. rewrite length_app. destruct x; [done|]. cbn [length]. lia. Qed.

(** C14: authenticated streams, for every authenticator with sizes and paddings
    that a reader can follow (those of Shadowsocks and VMess are such). Any
    writes, of streams of bytes or of packets that fit a buffer, succeed, and
    what they and the empty write at the end put on the wire is copied out of
    a reader that starts from the same state: the same bytes in the same
    order, without an error, in whatever pieces the wire arrives, and what
    follows it is left. *)
Theorem auth_stream_roundtrip t c mbs : roomy -> codec_ok c -> Forall (writable_as t) mbs ->
  (exists c' wire, auth_write_all t c (mbs ++ [[]]) = (c', Ok wire)) /\
  forall c' wire br rest fuel n, auth_write_all t c (mbs ++ [[]]) = (c', Ok wire) -> reader_ok br -> stream br = wire ++ rest ->
    (length (stream br) + idle br < fuel)%nat -> (length (concat (contents <$> mbs)) < n)%nat ->
    exists r' w' total, Copy (auth_read fuel) collect CountSize n (NewAuthenticationReader c br) [] 0 = Some (r', w', total, None) /\
      contents w' = concat (contents <$> mbs) /\ exists tail, stream (breader r') = tail ++ rest.
Proof.
  intros Hroom Hc Hmbs. destruct (auth_write_all_ok t Hroom mbs c Hc Hmbs) as (c1 & w1 & cs & Hw & Hcs & Hcc & Hf). split; [by exists c1, w1|].
  intros c' wire br rest fuel n Hw' Hok Hst Hfuel Hn. rewrite Hw in Hw'. injection Hw' as <- <-.
  assert (fits []) as Hf0 by (unfold roomy, Size in Hroom; unfold fits; cbn [length]; lia). pose proof (length_nonempty cs Hf) as Hlen.
  destruct (copy_auth CountSize fuel n Hf0 (size_bytes_range (C := C)) c cs rest (NewAuthenticationReader c br) [] 0) as (r' & w' & h' & Hcopy & Hcont & (_ & _ & Htail)); [|done|rewrite Hcc in Hlen; lia|].
  { left. split; [done|]. split; [done|]. split; [done|]. exists c1, w1. done. }
  exists r', w', h'. unfold Copy. rewrite Hcopy. split; [done|]. split; [by rewrite Hcont, Hcc|done].
Qed.
End Stream.

(** ** The codecs of the proxies *)

Definition generator_ok (n : nat) (b : BytesGenerator) : Prop :=
  match b with
  | EmptyBytes => n = 0%nat
  | StaticBytes c | IncreasingNonce c => length c = n
  | ChunkNonce c size count => (2 <= length c)%nat /\ (n <= length c)%nat /\ size = n
  end.

Lemma generate_ok n b : generator_ok n b -> exists b' x, generate b = Ok (b', x) /\ length x = n /\ generator_ok n b'.
Proof.
  destruct b as [|c|c|c size count]; cbn [generator_ok generate].
  - intros ->. by exists EmptyBytes, [].
  - intros Hn. by exists (StaticBytes c), c.
  - intros Hn. exists (IncreasingNonce (increase c)), (increase c). cbn [generator_ok]. by rewrite length_increase.
  - intros (H2 & Hn & ->). destruct (Nat.ltb_spec (length c) 2); [lia|]. assert (length (splice 0 (put16 count) c) = length c) as Hl by (apply length_splice; rewrite length_put16; lia).
    rewrite Hl. destruct (Nat.ltb_spec (length c) n); [lia|]. do 2 eexists. split; [done|]. split; [rewrite length_take, Hl; lia|]. cbn [generator_ok]. rewrite Hl. done.
Qed.

Section Codecs.
Context `{CipherLaws}.

Definition auth_ok (v : AEADAuthenticator) : Prop :=
  generator_ok cipher_NonceSize (NonceGenerator v) /\ match AdditionalDataGenerator v with None => True | Some b => exists n, generator_ok n b end.

Lemma auth_inputs_ok v : auth_ok v -> exists v' iv ad, auth_inputs v = (v', Ok (iv, ad)) /\ auth_ok v'.
Proof.
  intros [Hn Ha]. unfold auth_inputs. destruct (generate_ok _ _ Hn) as (b' & iv & -> & Hiv & Hb'). rewrite Hiv, Nat.eqb_refl. cbn [negb with_nonces AdditionalDataGenerator].
  destruct (AdditionalDataGenerator v) as [b|] eqn:E.
  - destruct Ha as [n Ha]. destruct (generate_ok _ _ Ha) as (b2 & ad & -> & _ & Hb2). do 3 eexists. split; [done|]. split; [done|]. by exists n.
  - do 3 eexists. split; [done|]. split; [done|]. cbn [with_nonces AdditionalDataGenerator]. by rewrite E.
Qed.

Lemma auth_data_ok v plain : auth_ok v -> exists v' b, auth_Seal v plain = (v', Ok b) /\ length b = (length plain + cipher_Overhead)%nat /\ auth_Open v b = (v', Ok plain) /\ auth_ok v'.
Proof.
  intros Hv. destruct (auth_inputs_ok v Hv) as (v' & iv & ad & E & Hv'). unfold auth_Seal, auth_Open. rewrite E. cbn [mbind outcome_bind]. exists v', (cipher_Seal iv plain ad).
  rewrite cipher_Seal_length, cipher_Open_Seal. done.
Qed.

Lemma aead_size_ok v size : auth_ok v -> 0 <= size < 2 ^ 16 ->
  exists v' b, aead_Encode v size = (v', Ok b) /\ length b = (2 + cipher_Overhead)%nat /\ aead_Decode v b = (v', Ok size) /\ auth_ok v'.
Proof.
  intros Hv Hs. destruct (auth_data_ok v (put16 (u16 (size - Z.of_nat cipher_Overhead))) Hv) as (v' & b & Eseal & Hl & Eopen & Hv'). unfold aead_Encode, aead_Decode. rewrite Eseal. exists v', b. rewrite Eopen. cbn [Must mbind outcome_bind]. rewrite length_put16 in *.
  split_and!; [done|lia| |done]. cbn [Nat.ltb Nat.leb]. do 2 f_equal.
  rewrite <-(app_nil_r (put16 _)), get16_put16. unfold u16. rewrite Z.mod_mod, Zplus_mod_idemp_l by lia. replace (size - Z.of_nat cipher_Overhead + Z.of_nat cipher_Overhead) with size by lia. by apply Z.mod_small.
Qed.

#[export] Instance shared_codec_laws : AuthCodecLaws AEADAuthenticator.
Proof.
  refine {| codec_ok := auth_ok |}; cbn.
  - intros v Hv. split; [done|lia].
  - intros v size Hv Hs. rewrite Z.sub_0_r, u16_small by lia. exact (aead_size_ok v size Hv Hs).
  - exact auth_data_ok.
  - lia.
  - lia.
Defined.

Lemma u16_lxor a b : 0 <= a < 2 ^ 16 -> 0 <= b < 2 ^ 16 -> 0 <= Z.lxor a b < 2 ^ 16.
Proof.
  intros Ha Hb. split; [by apply Z.lxor_nonneg; lia|]. assert (Z.lxor a b = Z.lxor a b mod 2 ^ 16) as E; [|rewrite E; apply Z.mod_pos_bound; lia].
  rewrite <-Z.land_ones by lia. apply Z.bits_inj'. intros i Hi. rewrite Z.land_spec, Z.lxor_spec. destruct (Z.lt_ge_cases i 16).
  - by rewrite Z.ones_spec_low, andb_true_r by lia.
  - rewrite Z.ones_spec_high, andb_false_r by lia. rewrite <-(Z.mod_small a (2 ^ 16)), <-(Z.mod_small b (2 ^ 16)) by lia. by rewrite !Z.mod_pow2_bits_high by lia.
Qed.

#[export] Instance masked_codec_laws : AuthCodecLaws (ShakeSizeParser * AEADAuthenticator).
Proof.
  refine {| codec_ok := fun c => auth_ok c.2 |}.
  - intros [s v] Hv. cbn. split; [done|]. unfold shake_MaxPaddingLen. pose proof (Z.mod_pos_bound (u16 (shake s (place s))) 64 ltac:(lia)). lia.
  - intros [s v] size Hv Hs. cbn. set (mask := u16 (shake s (place s))). assert (0 <= mask < 2 ^ 16) as Hm by (apply Z.mod_pos_bound; lia).
    do 2 eexists. split; [done|]. split; [apply length_put16|]. split; [|done]. rewrite length_put16. cbn [Nat.ltb Nat.leb]. do 2 f_equal. pose proof (u16_lxor mask size Hm Hs).
    rewrite <-(app_nil_r (put16 _)), get16_put16, u16_small by lia. rewrite <-Z.lxor_assoc, Z.lxor_nilpotent, Z.lxor_0_l, Z.sub_0_r. by rewrite u16_small by lia.
  - intros [s v] plain Hv. destruct (auth_data_ok v plain Hv) as (v' & b & E1 & Hl & E2 & Hv'). cbn in *. rewrite E1. exists (s, v'), b. by rewrite E2.
  - cbn. lia.
  - cbn. lia.
Defined.
End Codecs.

#[export] Instance measured_codec_laws {L D : Cipher} (HL : @CipherLaws L) (HD : @CipherLaws D) : @AuthCodecLaws _ (measured_codec L D).
Proof.
  refine {| codec_ok := fun c : ShakeSizeParser * AEADAuthenticator * AEADAuthenticator => @auth_ok L c.1.2 /\ @auth_ok D c.2 |}.
  - intros [[s l] v] Hv. cbn. split; [done|]. unfold shake_MaxPaddingLen. pose proof (Z.mod_pos_bound (u16 (shake s (place s))) 64 ltac:(lia)). lia.
  - intros [[s l] v] size [Hl Hv] Hs. cbn in *. destruct (aead_size_ok l size Hl Hs) as (l' & b & E1 & Hb & E2 & Hl'). rewrite E1, Z.sub_0_r, u16_small by lia. exists (s, l', v), b. by rewrite E2.
  - intros [[s l] v] plain [Hl Hv]. destruct (auth_data_ok v plain Hv) as (v' & b & E1 & Hb & E2 & Hv'). cbn in *. rewrite E1. exists (s, l, v'), b. by rewrite E2.
  - cbn. lia.
  - cbn. lia.
Defined.

#[export] Instance noop_laws : @CipherLaws NoOpAuthenticator.
Proof. split; cbn; [intros; lia|done]. Qed.

#[export] Instance fnv_laws : @CipherLaws FnvAuthenticator.
Proof.
  split; cbn; intros nonce plain ad; unfold fnv_Seal, fnv_Open; rewrite length_app, length_put32; [lia|].
  destruct (Nat.ltb_spec (4 + length plain) 4); [lia|]. rewrite drop_put32. rewrite take_app_length' by (by rewrite length_put32).
  rewrite <-(app_nil_r (put32 _)), get32_put32. by rewrite u32_small, Z.eqb_refl by apply (fnv32a_range plain).
Qed.

(** ** Concrete streams *)

(** VMess without encryption: a tag before the data, masked sizes. *)
Definition vmess_codec : ShakeSizeParser * AEADAuthenticator := ({| shake := fun n => Z.of_nat n * 40503 + 7; place := 0 |}, {| NonceGenerator := GenerateEmptyBytes; AdditionalDataGenerator := None |}).

Definition full_of_zeros : bytes := replicate (Z.to_nat Size) x00.

Definition sealed_wire : bytes :=
  match (@auth_write_all _ (@masked_codec FnvAuthenticator) (fun _ => bs "padding") full_of_zeros TransferTypeStream vmess_codec
           [[FromBytes (bs "hello")]; [FromBytes (bs "a"); FromBytes (bs "b")]; []]).2
  with Ok w => w | _ => [] end.

(** Bytes and one more, in pieces that do not follow the chunks. *)
Definition in_pieces (w : bytes) : BufferedReader :=
  {| Reader := [([FromBytes (take 3 w)], None); ([], None); ([FromBytes []; FromBytes (drop 3 w ++ [x7f])], None)]; Buffer_ := []; Spliter := None |}.

Lemma in_pieces_stream w : Z.of_nat (length w) < Size -> stream (in_pieces w) = w ++ [x7f].
Proof.
  intros Hw. assert (forall d, Z.of_nat (length d) <= Size -> content (FromBytes d) = d) as Hd by (intros d Hd; apply wf_FromBytes; unfold Size in Hd; lia).
  unfold stream, source_bytes, in_pieces, contents. cbn. unfold contents. cbn. rewrite !app_nil_r, !Hd by (rewrite ?length_app, ?length_take, ?length_drop; unfold Size in *; cbn [length]; lia).
  cbn [app]. by rewrite app_assoc, take_drop.
Qed.

Lemma in_pieces_ok w : Z.of_nat (length w) < Size -> reader_ok (in_pieces w).
Proof.
  intros Hw. pose proof (in_pieces_stream w Hw) as Hst. unfold Size in Hw. split; [|by apply Forall_nil|done|rewrite Hst, length_app; cbn [length]; lia].
  unfold in_pieces. cbn [Reader].
  repeat (apply Forall_cons; split); try apply Forall_nil; cbn [fst]; rewrite ?Forall_cons; split_and?; try apply Forall_nil; try done; apply small_buf_ok; rewrite ?length_app, ?length_take, ?length_drop; unfold Size; cbn [length]; lia.
Qed.

Lemma vmess_codec_ok : auth_ok (H := FnvAuthenticator) vmess_codec.2.
Proof. split; [reflexivity|exact I]. Qed.

Lemma small_sendable mb : mb ∈ sample_writes -> sendable mb.
Proof.
  intros Hmb. destruct (sample_writable mb Hmb) as ((Hmb1 & _ & _) & _). split; [eapply Forall_impl; [exact Hmb1|by intros b []]|].
  revert Hmb. intros [->|[->|[]%not_elem_of_nil]%elem_of_cons]%elem_of_cons; (split; [discriminate|vm_compute; discriminate]).
Qed.

Lemma auth_stream_roundtrip_witness :
  exists r' w' total, Copy (auth_read (H := @masked_codec FnvAuthenticator) full_of_zeros 400) collect CountSize 40 (NewAuthenticationReader vmess_codec (in_pieces sealed_wire)) [] 0 = Some (r', w', total, None) /\
    contents w' = bs "helloab" /\ exists tail, stream (breader r') = tail ++ [x7f].
Proof.
  destruct (@auth_stream_roundtrip _ _ (@masked_codec_laws FnvAuthenticator fnv_laws) (fun _ => bs "padding") full_of_zeros (length_replicate _ _)
    TransferTypeStream vmess_codec sample_writes) as [_ Hread].
  - vm_compute. reflexivity.
  - exact vmess_codec_ok.
  - apply Forall_forall. exact small_sendable.
  - apply (Hread ltac:(let t := eval vm_compute in (@auth_write_all _ (@masked_codec FnvAuthenticator) (fun _ => bs "padding") full_of_zeros TransferTypeStream vmess_codec (sample_writes ++ [[]])).1 in exact t) sealed_wire (in_pieces sealed_wire) [x7f] 400%nat 40%nat).
    + vm_compute. reflexivity.
    + apply in_pieces_ok. vm_compute. reflexivity.
    + vm_compute. reflexivity.
    + vm_compute. lia.
    + vm_compute. lia.
Defined.

(** *** What is not as it should be *)

(** A packet that does not fit a buffer is left out, but the padding for it has
    been drawn: the reader, which learns nothing of it, draws that padding for
    the next packet and takes other bytes for its data. *)
Definition packet_wire (packet : bytes) : bytes :=
  match (@auth_write_all _ (@masked_codec FnvAuthenticator) (fun _ => bs "padding") full_of_zeros TransferTypePacket vmess_codec
           [[FromBytes packet; FromBytes (bs "hello")]; []]).2
  with Ok w => w | _ => [] end.

Definition read_packets (w : bytes) : option (list bytes * copy_error) :=
  match copyInternal (auth_read (H := @masked_codec FnvAuthenticator) full_of_zeros 20000) collect CountSize 10 (NewAuthenticationReader vmess_codec (in_pieces w)) [] 0 with
  | Some (_, got, _, err) => Some (content <$> got, err)
  | None => None
  end.

Example fitting_packets_arrive : read_packets (packet_wire (bs "hi")) = Some ([bs "hi"; bs "hello"], readError EOF).
Proof. vm_compute. reflexivity. Qed.

Example oversize_packet_desynchronises : read_packets (packet_wire full_of_zeros) = Some ([], readError UnexpectedEOF).
Proof. vm_compute. reflexivity. Qed.

(** A chunk that is shorter than its tag is opened all the same. *)
Example short_chunk_panics :
  (snd <$> auth_ReadMultiBuffer (H := @masked_codec FnvAuthenticator) full_of_zeros 10
     (NewAuthenticationReader ({| shake := fun _ => 0; place := 0 |}, vmess_codec.2) (in_pieces [x00; x02; x41; x42]))) = Some Panic.
Proof. vm_compute. reflexivity. Qed.

(** *** Nonces of chunks *)

(** The nonce of a chunk has its number in the first two bytes; the numbers
    start again after [2 ^ 16] chunks, and so do the nonces. *)
Fixpoint chunk_nonces (k : nat) (g : BytesGenerator) : outcome io_error BytesGenerator :=
  match k with O => Ok g | S k' => '(g, _) ← generate g; chunk_nonces k' g end.

(** The [k]-th nonce, from 0. *)
Definition chunk_nonce (c : bytes) (size k : nat) : outcome io_error bytes :=
  g ← chunk_nonces k (GenerateChunkNonce c size); '(_, nonce) ← generate g; Ok nonce.

Lemma chunk_nonces_state size k : forall c count, (2 <= length c)%nat -> (size <= length c)%nat ->
  exists c', chunk_nonces k (ChunkNonce c size count) = Ok (ChunkNonce c' size (match k with O => count | _ => u16 (count + Z.of_nat k) end)) /\
    length c' = length c /\ drop 2 c' = drop 2 c.
Proof.
  induction k as [|k IH]; intros c count H2 Hs; cbn [chunk_nonces]; [by exists c|]. unfold generate. destruct (Nat.ltb_spec (length c) 2); [lia|].
  assert (splice 0 (put16 count) c = put16 count ++ drop 2 c) as -> by (unfold splice; by rewrite take_0, length_put16).
  assert (length (put16 count ++ drop 2 c) = length c) as Hl by (rewrite length_app, length_put16, length_drop; lia). rewrite Hl.
  destruct (Nat.ltb_spec (length c) size); [lia|]. cbn [mbind outcome_bind]. destruct (IH (put16 count ++ drop 2 c) (u16 (count + 1)) ltac:(lia) ltac:(lia)) as (c' & -> & Hl' & Hd). exists c'.
  split_and!; [|lia|by rewrite Hd, drop_put16]. do 2 f_equal. destruct k as [|k]; [done|]. unfold u16. rewrite Zplus_mod_idemp_l. f_equal. lia.
Qed.

Lemma chunk_nonce_spec c size k : (2 <= length c)%nat -> (size <= length c)%nat -> chunk_nonce c size k = Ok (take size (put16 (u16 (Z.of_nat k)) ++ drop 2 c)).
Proof.
  intros H2 Hs. unfold chunk_nonce, GenerateChunkNonce. destruct (chunk_nonces_state size k c 0 H2 Hs) as (c' & -> & Hl & Hd). cbn [mbind outcome_bind]. unfold generate.
  destruct (Nat.ltb_spec (length c') 2); [lia|]. set (count := match k with O => 0 | _ => _ end).
  assert (count = u16 (Z.of_nat k)) as -> by (by destruct k). 
  assert (splice 0 (put16 (u16 (Z.of_nat k))) c' = put16 (u16 (Z.of_nat k)) ++ drop 2 c) as -> by (unfold splice; by rewrite take_0, length_put16, <-Hd).
  assert (length (put16 (u16 (Z.of_nat k)) ++ drop 2 c) = length c) as -> by (rewrite length_app, length_put16, length_drop; lia).
  destruct (Nat.ltb_spec (length c) size); [lia|]. done.
Qed.

(** Chunks whose numbers are [2 ^ 16] apart are sealed with one nonce, and
    others are not. *)
Lemma chunk_nonces_repeat c size j k : (2 <= size)%nat -> (size <= length c)%nat ->
  chunk_nonce c size j = chunk_nonce c size k <-> u16 (Z.of_nat j) = u16 (Z.of_nat k).
Proof.
  intros H2 Hs. rewrite !chunk_nonce_spec by lia. split; [|by intros ->]. intros E. apply (f_equal (fun o : outcome io_error bytes => match o with Ok b => get16 (take 2 b ++ []) | _ => 0 end)) in E.
  cbv beta iota in E. rewrite !take_take, !Nat.min_l in E by lia. rewrite !take_app_length' in E by (by rewrite length_put16). rewrite !get16_put16 in E. unfold u16 in *. by rewrite !Z.mod_mod in E by lia.
Qed.
