(* ===== verification/Mux.v ===== *)
(** * Multiplexing, [common/mux/]

    Frames, the sessions of one connection and the writer that turns the
    buffers of a session into frames.  Frames carry targets in the address
    codec; bytes still to be read from the connection are a list. *)

From S2P Require Import Prelude Net Segment Buffer BufferFacts AddressCodec AddressCodecFacts BufReader.

Local Open Scope Z_scope.

(** ** Frames, frame.go *)

(** src/common/mux/frame.go:17-22 SessionStatus *)
Definition SessionStatusNew : byte := x01.
Definition SessionStatusKeep : byte := x02.
Definition SessionStatusEnd : byte := x03.
Definition SessionStatusKeepAlive : byte := x04.

(** src/common/mux/frame.go:24-27 OptionData *)
Definition OptionData : Z := 1.
Definition OptionError : Z := 2.

(** src/common/mux/frame.go:31-34 TargetNetwork *)
Definition TargetNetworkTCP : byte := x01.
Definition TargetNetworkUDP : byte := x02.

(** src/common/bitmask/byte.go Byte.Has *)
Definition Has (b bb : Z) : bool := negb (Z.land b bb =? 0).
(** src/common/bitmask/byte.go Byte.Set *)
Definition Set_ (b bb : Z) : Z := Z.lor b bb.
(** src/common/bitmask/byte.go Byte.Clear *)
Definition Clear (b bb : Z) : Z := Z.land b (Z.lxor bb 255).
(** src/common/bitmask/byte.go Byte.Toggle *)
Definition Toggle (b bb : Z) : Z := Z.lxor b bb.

(** The type bytes of payload.go are below 16, so no option panics.
    src/common/mux/frame.go addrParser *)
Definition addrParser : AddressSerializer :=
  match AddressFamilyByte x01 AddressFamilyIPv4, AddressFamilyByte x02 AddressFamilyDomain, AddressFamilyByte x03 AddressFamilyIPv6 with
  | Ok o1, Ok o2, Ok o3 => NewAddressParser [o1; o2; o3; PortThenAddress]
  | _, _, _ => NewAddressParser []
  end.

(** src/common/mux/frame.go FrameMetadata *)
Record FrameMetadata := { Target : Destination; SessionID : Z; Option_ : Z; SessionStatus : byte }.

(** [common.Must]: an error becomes a panic. *)
Definition Must {A} (r : outcome unit A) : outcome codec_error A :=
  match r with Ok a => Ok a | _ => Panic end.

(** The two bytes kept free for the length are written last.  An endpoint
    whose address cannot be written leaves only its port in the frame.
    src/common/mux/frame.go FrameMetadata.WriteTo *)
Definition WriteTo (f : FrameMetadata) (b : Buffer) : outcome codec_error Buffer :=
  '(b, (lo, _)) ← must (Extend b 2);
  let len0 := Len b in
  '(b, (slo, _)) ← must (Extend b 2);
  let b := set_array b (splice (Z.to_nat slo) (put16 (SessionID f)) (arr b)) in
  b ← Must (WriteByte b (SessionStatus f));
  b ← Must (WriteByte b (byte_of_Z (Option_ f)));
  b ← (if bool_decide (SessionStatus f = SessionStatusNew) then
         b ← match dest_Network (Target f) with
             | Network_TCP => Must (WriteByte b TargetNetworkTCP)
             | Network_UDP => Must (WriteByte b TargetNetworkUDP)
             | _ => Ok b
             end;
         WriteAddressPort buffer_writer addrParser b (dest_Address (Target f)) (dest_Port (Target f))
       else
         match Endpoint b with
         | Some endpoint =>
             let b := match WriteByte b TargetNetworkUDP with Ok b' => b' | _ => b end in
             match WriteAddressPort buffer_writer addrParser b (dest_Address endpoint) (dest_Port endpoint) with
             | Err _ => writePort buffer_writer b (dest_Port endpoint)
             | r => r
             end
         | None => Ok b
         end);
  let len1 := Len b in
  Ok (set_array b (splice (Z.to_nat lo) (put16 (u16 (len1 - len0))) (arr b))).

(** Reading the fields; what is not in the frame stays as it was in [f].
    src/common/mux/frame.go FrameMetadata.UnmarshalFromBuffer *)
Definition UnmarshalFromBuffer (garbage : bytes) (f : FrameMetadata) (b : Buffer) : outcome codec_error FrameMetadata :=
  if Len b <? 4 then Err ErrRead
  else
    id ← must (BytesTo b 2);
    status ← must (Byte b 2);
    option ← must (Byte b 3);
    let target := {| dest_Address := dest_Address (Target f); dest_Port := dest_Port (Target f); dest_Network := Network_Unknown |} in
    let f := {| Target := target; SessionID := get16 id; Option_ := byte_to_Z option; SessionStatus := status |} in
    if bool_decide (status = SessionStatusNew) || (bool_decide (status = SessionStatusKeep) && negb (Len b =? 4)) then
      if Len b <? 8 then Err ErrRead
      else
        network ← must (Byte b 4);
        let b := Advance b 5 in
        content ← must (Bytes b);
        '(_, addr, port) ← ReadAddressPort garbage addrParser None content;
        let set_target t := {| Target := t; SessionID := SessionID f; Option_ := Option_ f; SessionStatus := SessionStatus f |} in
        if bool_decide (network = TargetNetworkTCP) then Ok (set_target (TCPDestination addr port))
        else if bool_decide (network = TargetNetworkUDP) then Ok (set_target (UDPDestination addr port))
        else Err ErrUnknownType
    else Ok f.

(** src/common/serial/serial.go ReadUint16 *)
Definition ReadUint16 (input : bytes) : outcome codec_error (bytes * Z) :=
  if (length input <? 2)%nat then Err ErrRead else Ok (drop 2 input, get16 input).

(** [garbage] and [garbage'] are the arrays of the two buffers taken from the pool.
    src/common/mux/frame.go FrameMetadata.Unmarshal *)
Definition Unmarshal (garbage garbage' : bytes) (f : FrameMetadata) (input : bytes) : outcome codec_error (bytes * FrameMetadata) :=
  '(input, metaLen) ← ReadUint16 input;
  if 512 <? metaLen then Err ErrRead
  else
    '(b, input) ← read_full (New garbage) input metaLen;
    f ← UnmarshalFromBuffer garbage' f b;
    Ok (input, f).

(** ** Sessions, session.go *)

(** src/common/protocol/payload.go:3-8 TransferType *)
Inductive TransferType := TransferTypeStream | TransferTypePacket.

Section Sessions.
(** What a session reads from and writes to, and how they are closed. *)
Context {IO : Type}.

(** src/common/mux/session.go Session *)
Record Session := { input : IO; output : IO; ID : Z; transferType : TransferType; endpoint : Destination; sendEndpoint : Z }.

(** [sessions] is nil, [None], once the manager is closed.
    src/common/mux/session.go SessionManager *)
Record SessionManager := { sessions : option (gmap Z Session); count : Z; closed : bool }.

(** src/common/mux/session.go NewSessionManager *)
Definition NewSessionManager : SessionManager := {| sessions := Some ∅; count := 0; closed := false |}.

(** src/common/mux/session.go SessionManager.Closed *)
Definition Closed (m : SessionManager) : bool := closed m.
(** src/common/mux/session.go SessionManager.Size *)
Definition Size_ (m : SessionManager) : Z := match sessions m with Some s => Z.of_nat (size s) | None => 0 end.
(** src/common/mux/session.go SessionManager.Count *)
Definition Count (m : SessionManager) : Z := count m.

Definition no_destination : Destination := {| dest_Address := None; dest_Port := 0; dest_Network := Network_Unknown |}.

(** Storing into a nil map panics; an open manager has a map.
    src/common/mux/session.go SessionManager.Allocate *)
Definition Allocate (i o : IO) (m : SessionManager) : outcome unit (SessionManager * option Session) :=
  if closed m then Ok (m, None)
  else
    let count := u16 (count m + 1) in
    let s := {| input := i; output := o; ID := count; transferType := TransferTypeStream; endpoint := no_destination; sendEndpoint := 0 |} in
    match sessions m with
    | Some ss => Ok ({| sessions := Some (<[count := s]> ss); count := count; closed := false |}, Some s)
    | None => Panic
    end.

(** src/common/mux/session.go SessionManager.Add *)
Definition Add (s : Session) (m : SessionManager) : outcome unit SessionManager :=
  if closed m then Ok m
  else match sessions m with
       | Some ss => Ok {| sessions := Some (<[ID s := s]> ss); count := u16 (count m + 1); closed := false |}
       | None => Panic
       end.

(** src/common/mux/session.go SessionManager.Remove *)
Definition Remove (id : Z) (m : SessionManager) : SessionManager :=
  if closed m then m
  else
    let ss := delete id (default ∅ (sessions m)) in
    {| sessions := if decide (size ss = 0%nat) then Some ∅ else Some ss; count := count m; closed := false |}.

(** src/common/mux/session.go SessionManager.Get *)
Definition Get (id : Z) (m : SessionManager) : option Session :=
  if closed m then None else ss ← sessions m; ss !! id.

(** src/common/mux/session.go SessionManager.CloseIfNoSession *)
Definition CloseIfNoSession (m : SessionManager) : SessionManager * bool :=
  if closed m then (m, true)
  else if negb (Size_ m =? 0) then (m, false)
  else ({| sessions := sessions m; count := count m; closed := true |}, true).

(** The second result are the ends closed, of each session in turn.
    src/common/mux/session.go SessionManager.Close *)
Definition Close (m : SessionManager) : SessionManager * list IO :=
  if closed m then (m, [])
  else ({| sessions := None; count := count m; closed := true |},
        map_to_list (default ∅ (sessions m)) ≫= (fun '(_, s) => [input s; output s])).

(** src/common/mux/session.go Session.Close *)
Definition Session_Close (s : Session) (m : SessionManager) : SessionManager * list IO := (Remove (ID s) m, [output s; input s]).
End Sessions.
Arguments Session IO : clear implicits.
Arguments SessionManager IO : clear implicits.

(** ** The client's limits, client.go *)

(** src/common/mux/client.go ClientStrategy *)
Record ClientStrategy := { MaxConcurrency : Z; MaxConnection : Z }.

(** src/common/mux/client.go ClientWorker.IsClosing *)
Definition IsClosing {IO} (st : ClientStrategy) (sm : SessionManager IO) : bool :=
  (0 <? MaxConnection st) && (MaxConnection st <=? Count sm).

(** [done] is whether the worker is done.
    src/common/mux/client.go ClientWorker.IsFull *)
Definition IsFull {IO} (st : ClientStrategy) (done : bool) (sm : SessionManager IO) : bool :=
  if IsClosing st sm || done then true
  else (0 <? MaxConcurrency st) && (MaxConcurrency st <=? Size_ sm).

(** The session whose input a new goroutine fetches, when there is room.
    src/common/mux/client.go ClientWorker.Dispatch *)
Definition Dispatch {IO} (st : ClientStrategy) (done : bool) (reader writer : IO) (sm : SessionManager IO) : outcome unit (SessionManager IO * option (Session IO)) :=
  if IsFull st done sm || done then Ok (sm, None) else Allocate reader writer sm.

(** ** The writer, writer.go *)

(** src/common/mux/writer.go Writer *)
Record Writer := { w_dest : Destination; w_id : Z; followup : bool; hasError : bool; w_transferType : TransferType }.

(** src/common/mux/writer.go NewWriter *)
Definition NewWriter (id : Z) (dest : Destination) (t : TransferType) : Writer :=
  {| w_dest := dest; w_id := id; followup := false; hasError := false; w_transferType := t |}.

(** src/common/mux/writer.go NewResponseWriter *)
Definition NewResponseWriter (id : Z) (t : TransferType) : Writer :=
  {| w_dest := no_destination; w_id := id; followup := true; hasError := false; w_transferType := t |}.

(** src/common/mux/writer.go Writer.getNextFrameMeta *)
Definition getNextFrameMeta (w : Writer) : Writer * FrameMetadata :=
  ({| w_dest := w_dest w; w_id := w_id w; followup := true; hasError := hasError w; w_transferType := w_transferType w |},
   {| Target := w_dest w; SessionID := w_id w; Option_ := 0;
      SessionStatus := if followup w then SessionStatusKeep else SessionStatusNew |}).

(** The underlying writer only sees whole lists of buffers: the results are
    what it is given, and it is taken to accept them.
    src/common/mux/writer.go Writer.writeMetaOnly *)
Definition writeMetaOnly (garbage : bytes) (w : Writer) : outcome codec_error (Writer * MultiBuffer) :=
  let '(w, meta) := getNextFrameMeta w in
  b ← WriteTo meta (New garbage);
  Ok (w, [b]).

(** src/common/mux/writer.go writeMetaWithFrame *)
Definition writeMetaWithFrame (garbage : bytes) (meta : FrameMetadata) (data : MultiBuffer) : outcome codec_error MultiBuffer :=
  let frame := New garbage in
  let frame := match data with [d] => set_endpoint frame (Endpoint d) | _ => frame end in
  frame ← WriteTo meta frame;
  frame ← buffer_writer frame (put16 (u16 (MultiBuffer_Len data)));
  if 64 * 1024 * 1024 <? Z.of_nat (length data) + 1 then Err ErrWrite
  else Ok (frame :: data).

(** src/common/mux/writer.go Writer.writeData *)
Definition writeData (garbage : bytes) (w : Writer) (mb : MultiBuffer) : outcome codec_error (Writer * MultiBuffer) :=
  let '(w, meta) := getNextFrameMeta w in
  let meta := {| Target := Target meta; SessionID := SessionID meta; Option_ := Set_ (Option_ meta) OptionData; SessionStatus := SessionStatus meta |} in
  out ← writeMetaWithFrame garbage meta mb;
  Ok (w, out).

(** The loop; [Err ErrWrite] is a loop that has not ended with this fuel.
    src/common/mux/writer.go:106-118 Writer.WriteMultiBuffer *)
Fixpoint write_frames (fuel : nat) (garbage : bytes) (w : Writer) (mb : MultiBuffer) (outs : list MultiBuffer) : outcome codec_error (Writer * list MultiBuffer) :=
  if MultiBuffer_IsEmpty mb then Ok (w, outs)
  else
    match fuel with
    | O => Err ErrWrite
    | S fuel' =>
        '(mb, chunk) ← match w_transferType w with
                       | TransferTypeStream => Must (SplitSize garbage mb 8192)
                       | TransferTypePacket => let '(mb2, b) := SplitFirst mb in Ok (mb2, match b with Some b => [b] | None => [] end)
                       end;
        '(w, out) ← writeData garbage w chunk;
        write_frames fuel' garbage w mb (outs ++ [out])
    end.

(** src/common/mux/writer.go Writer.WriteMultiBuffer *)
Definition mux_WriteMultiBuffer (fuel : nat) (garbage : bytes) (w : Writer) (mb : MultiBuffer) : outcome codec_error (Writer * list MultiBuffer) :=
  if MultiBuffer_IsEmpty mb then '(w, out) ← writeMetaOnly garbage w; Ok (w, [out])
  else write_frames fuel garbage w mb [].

(** src/common/mux/writer.go Writer.Close *)
Definition Writer_Close (garbage : bytes) (w : Writer) : outcome codec_error MultiBuffer :=
  let meta := {| Target := no_destination; SessionID := w_id w;
                 Option_ := if hasError w then Set_ 0 OptionError else 0; SessionStatus := SessionStatusEnd |} in
  match WriteTo meta (New garbage) with Ok frame => Ok [frame] | _ => Panic end.

(** ** The packet reader, reader.go *)

(** src/common/mux/reader.go PacketReader *)
Record PacketReader := { p_reader : bytes; p_eof : bool; p_dest : Destination }.

(** src/common/mux/reader.go PacketReader.ReadMultiBuffer *)
Definition packet_ReadMultiBuffer (garbage : bytes) (r : PacketReader) : outcome codec_error (PacketReader * MultiBuffer) :=
  if p_eof r then Err ErrRead
  else
    '(input, size) ← ReadUint16 (p_reader r);
    if Size <? size then Err ErrRead
    else
      '(b, input) ← read_full (New garbage) input size;
      let b := if bool_decide (dest_Network (p_dest r) = Network_UDP) then set_endpoint b (Some (p_dest r)) else b in
      Ok ({| p_reader := input; p_eof := true; p_dest := p_dest r |}, [b]).

(** * Facts about multiplexing

    Frames are read back as they were written; what the peer sends is never
    the cause of a panic; and the frames of a session carry its bytes in
    order. *)


(** ** Keeping room in a buffer *)

Lemma Extend_ok b n : wf b -> (n <= room b)%nat ->
  Extend b (Z.of_nat n) = Ok (set_cursors b (start b) (end_ b + Z.of_nat n), (end_ b, end_ b + Z.of_nat n)).
Proof.
  intros Hb Hn. pose proof Hb as [Hc He Hi]. unfold Extend, room, cap in *. rewrite !i32_small by lia.
  rewrite decide_False, slice_of_ok by (unfold cap; lia). done.
Qed.

Lemma set_array_cursors b a s e : set_array (set_cursors b s e) a = set_cursors (set_array b a) s e.
Proof. done. Qed.

(** Keeping [d]'s room and filling it is appending it. *)
Lemma Extend_fill b d : wf b -> (length d <= room b)%nat ->
  exists b', Extend b (Z.of_nat (length d)) = Ok (set_cursors b (start b) (end_ b + Z.of_nat (length d)), (end_ b, end_ b + Z.of_nat (length d))) /\
    set_array (set_cursors b (start b) (end_ b + Z.of_nat (length d))) (splice (Z.to_nat (end_ b)) d (arr b)) = b' /\
    wf b' /\ content b' = content b ++ d /\ room b' = (room b - length d)%nat /\ start b' = start b /\ Endpoint b' = Endpoint b /\ (v b ≠ None -> v b' ≠ None).
Proof.
  intros Hb Hd. eexists. split; [by apply Extend_ok|]. split; [done|].
  pose proof Hb as [Hc He Hi]. assert (end_ b + Z.of_nat (length d) < 2 ^ 31) by (unfold room, cap in *; lia).
  destruct (fill_content b d (end_ b + Z.of_nat (length d)) Hb Hd eq_refl) as (Hw & Hct & Hr). rewrite i32_small in Hw, Hct, Hr by lia.
  rewrite set_array_cursors. split; [done|]. split; [done|]. split; [done|]. split; [done|]. split; [done|]. cbn. by destruct (v b).
Qed.

(** Overwriting the first bytes of the content. *)
Lemma patch_content b x y d : wf b -> content b = x ++ y -> length d = length x ->
  let b' := set_array b (splice (Z.to_nat (start b)) d (arr b)) in
  wf b' /\ content b' = d ++ y /\ room b' = room b.
Proof.
  intros Hb Hx Hd. cbv zeta. pose proof (length_content b Hb) as Hl. rewrite Hx, length_app in Hl. pose proof Hb as [Hc He Hi]. unfold cap in *.
  destruct (v b) as [a|] eqn:Hv.
  2: { assert (arr b = []) as Ha by (by apply arr_nil). rewrite Ha in *. cbn [length] in *. destruct x; [|cbn [length] in *; lia]. destruct y; [|cbn [length] in *; lia].
       destruct d; [|done]. unfold splice. rewrite drop_nil, take_nil. cbn [app].
       assert (set_array b [] = b) as -> by (destruct b; cbn in *; by rewrite Hv). split; [done|]. split; [exact Hx|done]. }
  assert (arr (set_array b (splice (Z.to_nat (start b)) d (arr b))) = splice (Z.to_nat (start b)) d (arr b)) as Ha by (apply arr_set_array; by rewrite Hv).
  assert (length (splice (Z.to_nat (start b)) d (arr b)) = length (arr b)) as Hlen by (rewrite length_splice; lia).
  split; [split; unfold cap; rewrite ?Ha, ?Hlen; cbn; lia|]. split; [|unfold room; by rewrite Ha, Hlen].
  unfold content in *. rewrite Ha. cbn [start end_ set_array]. rewrite drop_splice by lia. rewrite take_app_ge by lia. f_equal.
  apply (f_equal (drop (length x))) in Hx. rewrite drop_app_length, skipn_firstn_comm, drop_drop in Hx. by rewrite <-Hx, Hd.
Qed.

(** A buffer under construction: its content, the room left, and what does
    not change. *)
Definition holds (s0 : Z) (ep : option Destination) (b : Buffer) (s : bytes) (n : nat) : Prop :=
  wf b /\ content b = s /\ room b = n /\ start b = s0 /\ Endpoint b = ep /\ v b ≠ None.

Lemma WriteByte_holds s0 ep b s n x : holds s0 ep b s n -> (1 <= n)%nat ->
  exists b', WriteByte b x = Ok b' /\ holds s0 ep b' (s ++ [x]) (n - 1).
Proof.
  intros (Hb & Hc & Hr & Hs & He & Hv) Hn. pose proof Hb as [Hcu Hce Hi]. unfold WriteByte, Buffer.IsFull. unfold room, cap in *.
  rewrite (i32_small (Z.of_nat (length (arr b)))) by lia.
  destruct (Z.eqb_spec (end_ b) (Z.of_nat (length (arr b)))); [lia|]. rewrite decide_True by (unfold cap; lia).
  destruct (fill_content b [x] (end_ b + 1) Hb) as (Hw & Hct & Hr'); [unfold room; cbn; lia|cbn; lia|].
  assert (<[Z.to_nat (end_ b):=x]> (arr b) = splice (Z.to_nat (end_ b)) [x] (arr b)) as ->.
  { unfold splice. rewrite insert_take_drop by lia. cbn. do 3 f_equal. lia. }
  eexists. split; [done|]. split; [done|]. split; [by rewrite Hct, Hc|]. split; [rewrite Hr'; unfold room; cbn; lia|].
  split; [done|]. split; [done|]. cbn. by destruct (v b).
Qed.

Lemma buffer_writer_holds s0 ep b s n d : holds s0 ep b s n -> (length d <= n)%nat ->
  exists b', buffer_writer b d = Ok b' /\ holds s0 ep b' (s ++ d) (n - length d).
Proof.
  intros (Hb & Hc & Hr & Hs & He & Hv) Hd. destruct (buffer_writer_ok b s n d ltac:(done) Hd) as (b' & Hw & Hb' & Hc' & Hr').
  exists b'. split; [done|]. do 3 (split; [done|]). unfold buffer_writer, Write in Hw.
  destruct (slice_of b (end_ b) (cap b)); [|done|done]. cbn in Hw. apply (inj Ok) in Hw. subst b'. split; [done|]. split; [done|].
  cbn. by destruct (v b).
Qed.

Lemma Extend_holds s0 ep b s n d : holds s0 ep b s n -> (length d <= n)%nat ->
  exists b1 lo hi, Extend b (Z.of_nat (length d)) = Ok (b1, (lo, hi)) /\ holds s0 ep (set_array b1 (splice (Z.to_nat lo) d (arr b1))) (s ++ d) (n - length d).
Proof.
  intros (Hb & Hc & Hr & Hs & He & Hv) Hd. destruct (Extend_fill b d Hb) as (b' & Hx & Hb' & Hw & Hct & Hr' & Hs' & He' & Hv'); [lia|].
  do 3 eexists. split; [exact Hx|]. change (arr (set_cursors _ _ _)) with (arr b). rewrite Hb'.
  split; [done|]. split; [by rewrite Hct, Hc|]. split; [lia|]. split; [congruence|]. split; [congruence|auto].
Qed.

(** ** Frames *)

Lemma addrParser_first : addrParser = portFirstAddressParser (parser_of addrParser).
Proof. reflexivity. Qed.

Lemma addrParser_knows f : family_ok (parser_of addrParser) f.
Proof.
  destruct f; [exists x01|exists x03|exists x02]; (split; [reflexivity|]; split; [discriminate|]; split; [vm_compute; reflexivity|reflexivity]).
Qed.

Definition net_byte (n : Network) : bytes :=
  match n with Network_TCP => [TargetNetworkTCP] | Network_UDP => [TargetNetworkUDP] | _ => [] end.

Definition enc_target (addr : option Address) (port : Z) : bytes :=
  match addr with Some a => enc_address_port addrParser a port | None => [] end.

(** The part after the length. *)
Definition frame_body (f : FrameMetadata) (ep : option Destination) : bytes :=
  put16 (SessionID f) ++ [SessionStatus f; byte_of_Z (Option_ f)] ++
  if bool_decide (SessionStatus f = SessionStatusNew) then net_byte (dest_Network (Target f)) ++ enc_target (dest_Address (Target f)) (dest_Port (Target f))
  else match ep with Some e => TargetNetworkUDP :: enc_target (dest_Address e) (dest_Port e) | None => [] end.

Definition enc_frame (f : FrameMetadata) (ep : option Destination) : bytes :=
  put16 (Z.of_nat (length (frame_body f ep))) ++ frame_body f ep.

Definition dest_ok (d : Destination) : Prop :=
  (exists a, dest_Address d = Some a /\ addr_ok a) /\ 0 <= dest_Port d < 2 ^ 16.

(** A frame that can be sent: a new session has a TCP or UDP target, and the
    buffer's endpoint, if any, can be written. *)
Definition frame_ok (f : FrameMetadata) (ep : option Destination) : Prop :=
  0 <= SessionID f < 2 ^ 16 /\ 0 <= Option_ f < 2 ^ 8 /\
  (SessionStatus f = SessionStatusNew -> dest_ok (Target f) /\ (dest_Network (Target f) = Network_TCP \/ dest_Network (Target f) = Network_UDP)) /\
  (SessionStatus f ≠ SessionStatusNew -> forall e, ep = Some e -> dest_ok e).

Lemma enc_target_length d : dest_ok d -> (4 <= length (enc_target (dest_Address d) (dest_Port d)) <= 259)%nat.
Proof.
  intros [(a & -> & Ha) _]. cbn [enc_target]. split; [|by apply enc_address_port_length].
  rewrite addrParser_first. cbn [enc_address_port]. rewrite length_app. unfold put16. rewrite length_be_split.
  unfold enc_address. destruct a as [ip|ip|d']; cbn in Ha |- *; lia.
Qed.

Lemma frame_body_length f ep : frame_ok f ep -> (length (frame_body f ep) <= 264)%nat.
Proof.
  intros (_ & _ & Hnew & Hep). unfold frame_body. rewrite !length_app. unfold put16. rewrite length_be_split. cbn [length].
  case_bool_decide as Hs.
  - destruct (Hnew Hs) as [Hd _]. apply enc_target_length in Hd. rewrite length_app. destruct (dest_Network (Target f)); cbn; lia.
  - destruct ep as [e|]; [|cbn; lia]. pose proof (enc_target_length e (Hep Hs e eq_refl)). cbn. lia.
Qed.

Lemma WriteTarget_holds s0 ep b s n d : dest_ok d -> holds s0 ep b s n -> (259 <= n)%nat ->
  exists b', WriteAddressPort buffer_writer addrParser b (dest_Address d) (dest_Port d) = Ok b' /\
    holds s0 ep b' (s ++ enc_target (dest_Address d) (dest_Port d)) (n - length (enc_target (dest_Address d) (dest_Port d))).
Proof.
  intros Hd Hb Hn. pose proof (enc_target_length d Hd). destruct Hd as [(a & Ha & Hok) Hp]. rewrite Ha in *. cbn [enc_target] in *.
  apply (WriteAddressPort_ok buffer_writer (holds s0 ep)); [apply buffer_writer_holds|apply addrParser_knows|done|done|lia].
Qed.

Lemma WriteTo_ok f b : frame_ok f (Endpoint b) -> wf b -> content b = [] -> (300 <= room b)%nat -> v b ≠ None ->
  exists b', WriteTo f b = Ok b' /\ wf b' /\ content b' = enc_frame f (Endpoint b) /\ (room b - 266 <= room b')%nat.
Proof.
  intros Hf Hb Hc Hr Hv. pose proof (frame_body_length f (Endpoint b) Hf) as Hlen.
  pose proof (length_content b Hb) as Hz. rewrite Hc in Hz. cbn in Hz.
  unfold WriteTo. change (Extend b 2) with (Extend b (Z.of_nat 2)). rewrite (Extend_ok b 2 Hb) by lia. cbn [must mbind outcome_bind].
  set (b1 := set_cursors b (start b) (end_ b + Z.of_nat 2)).
  assert (wf b1) as Hb1 by (destruct Hb as [Hb1 Hb2 Hb3]; unfold room, cap in *; split; unfold cap; change (arr b1) with (arr b); change (start b1) with (start b); change (end_ b1) with (end_ b + 2); lia).
  pose proof (length_content b1 Hb1) as Hl1. change (start b1) with (start b) in Hl1. change (end_ b1) with (end_ b + 2) in Hl1.
  assert (Len b1 = 2) as -> by (rewrite Len_content by done; lia).
  assert (holds (start b) (Endpoint b) b1 (content b1) (room b - 2)) as H1.
  { split; [done|]. split; [done|]. split; [unfold room; change (arr b1) with (arr b); change (end_ b1) with (end_ b + 2); pose proof Hb as [? ? ?]; unfold room in Hr; lia|]. done. }
  destruct (Extend_holds _ _ b1 _ _ (put16 (SessionID f)) H1) as (b2 & slo & shi & Hx & H2); [unfold put16; rewrite length_be_split; lia|].
  change (Z.of_nat (length (put16 (SessionID f)))) with 2 in Hx. rewrite Hx. cbn [must mbind outcome_bind]. clear Hx.
  set (b3 := set_array b2 _) in *. unfold put16 in H2 at 2. rewrite length_be_split in H2.
  destruct (WriteByte_holds _ _ b3 _ _ (SessionStatus f) H2) as (b4 & -> & H4); [lia|]. cbn [Must mbind outcome_bind].
  destruct (WriteByte_holds _ _ b4 _ _ (byte_of_Z (Option_ f)) H4) as (b5 & -> & H5); [lia|]. cbn [Must mbind outcome_bind].
  pose proof H5 as (_ & _ & _ & _ & Hep & _). rewrite Hep.
  match goal with |- exists b', (x ← ?m; _) = Ok b' /\ _ => assert (exists b6 n6, m = Ok b6 /\ holds (start b) (Endpoint b) b6 (content b1 ++ frame_body f (Endpoint b)) n6 /\ (room b - 266 <= n6)%nat) as (b6 & n6 & -> & H6 & Hn6) end.
  { destruct Hf as (_ & _ & Hnew & Hends). unfold frame_body in *. rewrite <-!app_assoc in H5. cbn [app] in H5. case_bool_decide as Hs.
    - destruct (Hnew Hs) as [Hd Hnet]. pose proof (enc_target_length _ Hd).
      assert (exists b', match dest_Network (Target f) with Network_TCP => Must (WriteByte b5 TargetNetworkTCP) | Network_UDP => Must (WriteByte b5 TargetNetworkUDP) | _ => Ok b5 end = Ok b' /\
        holds (start b) (Endpoint b) b' ((content b1 ++ put16 (SessionID f) ++ [SessionStatus f; byte_of_Z (Option_ f)]) ++ net_byte (dest_Network (Target f))) (room b - 2 - 2 - 1 - 1 - 1)) as (b' & -> & H').
      { destruct Hnet as [-> | ->]; [destruct (WriteByte_holds _ _ b5 _ _ TargetNetworkTCP H5) as (b' & -> & H')|destruct (WriteByte_holds _ _ b5 _ _ TargetNetworkUDP H5) as (b' & -> & H')]; try lia; by exists b'. }
      cbn [mbind outcome_bind]. destruct (WriteTarget_holds _ _ b' _ _ _ Hd H') as (b6 & -> & H6); [lia|].
      eexists b6, _. split; [done|]. split; [rewrite <-!app_assoc in H6; exact H6|lia].
    - destruct (Endpoint b) as [e|] eqn:Ee.
      + pose proof (Hends Hs e eq_refl) as Hd. pose proof (enc_target_length _ Hd). destruct (WriteByte_holds _ _ b5 _ _ TargetNetworkUDP H5) as (b' & -> & H'); [lia|].
        destruct (WriteTarget_holds _ _ b' _ _ _ Hd H') as (b6 & -> & H6); [lia|].
        eexists b6, _. split; [done|]. split; [rewrite <-!app_assoc in H6; exact H6|lia].
      + eexists b5, _. split; [done|]. rewrite app_nil_r. split; [exact H5|lia]. }
  cbn [mbind outcome_bind]. destruct H6 as (Hb6 & Hc6 & Hr6 & Hs6 & _).
  assert (u16 (Len b6 - 2) = Z.of_nat (length (frame_body f (Endpoint b)))) as ->.
  { rewrite Len_content, Hc6, length_app by done. unfold u16. rewrite Z.mod_small; lia. }
  replace (end_ b) with (start b6) by lia.
  destruct (patch_content b6 (content b1) (frame_body f (Endpoint b)) (put16 (Z.of_nat (length (frame_body f (Endpoint b))))) Hb6 Hc6) as (Hw & Hct & Hr'); [unfold put16; rewrite length_be_split; lia|].
  eexists. split; [done|]. split; [done|]. split; [done|]. rewrite Hr', Hr6. lia.
Qed.

(** ** Reading frames *)

(** What the receiver makes of a frame; [f0] is what the fields held before. *)
Definition received_frame (f0 f : FrameMetadata) (ep : option Destination) : FrameMetadata :=
  let none := {| dest_Address := dest_Address (Target f0); dest_Port := dest_Port (Target f0); dest_Network := Network_Unknown |} in
  {| Target := if bool_decide (SessionStatus f = SessionStatusNew) then Target f
               else if bool_decide (SessionStatus f = SessionStatusKeep) then
                 match ep with Some e => UDPDestination (dest_Address e) (dest_Port e) | None => none end
               else none;
     SessionID := SessionID f; Option_ := Option_ f; SessionStatus := SessionStatus f |}.

Lemma UnmarshalFromBuffer_body g f0 f ep b : length g = Z.to_nat Size -> frame_ok f ep -> wf b -> content b = frame_body f ep ->
  UnmarshalFromBuffer g f0 b = Ok (received_frame f0 f ep).
Proof.
  intros Hg (Hid & Hopt & Hnew & Hends) Hb Hc. pose proof (Len_content b Hb) as HL.
  unfold frame_body in Hc. set (tail := if bool_decide _ then _ else _) in Hc.
  assert (content b = put16 (SessionID f) ++ SessionStatus f :: byte_of_Z (Option_ f) :: tail) as Hc' by (rewrite Hc; done).
  assert (length (content b) = 4 + length tail)%nat as Hlen by (rewrite Hc, !length_app; unfold put16; rewrite length_be_split; cbn; lia).
  unfold UnmarshalFromBuffer. rewrite HL. destruct (Z.ltb_spec (Z.of_nat (length (content b))) 4); [lia|].
  change (BytesTo b 2) with (BytesTo b (Z.of_nat 2)). change (Byte b 2) with (Byte b (Z.of_nat 2)). change (Byte b 3) with (Byte b (Z.of_nat 3)).
  rewrite (BytesTo_content b 2 Hb) by lia. cbn [must mbind outcome_bind].
  rewrite (Byte_content b 2 (SessionStatus f) Hb) by (by rewrite Hc'). rewrite (Byte_content b 3 (byte_of_Z (Option_ f)) Hb) by (by rewrite Hc').
  cbn [must mbind outcome_bind]. assert (take 2 (content b) = put16 (SessionID f)) as -> by (by rewrite Hc').
  rewrite <-(app_nil_r (put16 _)), get16_put16, u16_small by lia. rewrite byte_to_of_Z. unfold u8. rewrite Z.mod_small by lia.
  assert (forall nb d (t : Destination), tail = nb :: enc_target (dest_Address d) (dest_Port d) -> dest_ok d ->
    (if Z.of_nat (length (content b)) <? 8 then Err ErrRead
     else network ← must (Byte b 4); content ← must (Bytes (Advance b 5));
          '(_, addr, port) ← ReadAddressPort g addrParser None content;
          if bool_decide (network = TargetNetworkTCP) then Ok {| Target := TCPDestination addr port; SessionID := SessionID f; Option_ := Option_ f; SessionStatus := SessionStatus f |}
          else if bool_decide (network = TargetNetworkUDP) then Ok {| Target := UDPDestination addr port; SessionID := SessionID f; Option_ := Option_ f; SessionStatus := SessionStatus f |}
          else Err ErrUnknownType) =
    (if bool_decide (nb = TargetNetworkTCP) then Ok {| Target := TCPDestination (dest_Address d) (dest_Port d); SessionID := SessionID f; Option_ := Option_ f; SessionStatus := SessionStatus f |}
     else if bool_decide (nb = TargetNetworkUDP) then Ok {| Target := UDPDestination (dest_Address d) (dest_Port d); SessionID := SessionID f; Option_ := Option_ f; SessionStatus := SessionStatus f |}
     else Err ErrUnknownType)) as Htarget.
  { intros nb d _ Ht Hd. pose proof (enc_target_length _ Hd) as Hel. rewrite Ht in Hlen. cbn [length] in Hlen.
    destruct (Z.ltb_spec (Z.of_nat (length (content b))) 8); [lia|].
    change (Byte b 4) with (Byte b (Z.of_nat 4)). rewrite (Byte_content b 4 nb Hb) by (by rewrite Hc', Ht). cbn [must mbind outcome_bind].
    destruct (Advance_content b 5 Hb ltac:(lia)) as [Hwa Hca]. change (Z.of_nat 5) with 5 in *. rewrite (Bytes_content _ Hwa). cbn [must mbind outcome_bind].
    rewrite Hca, Hc', Ht. change (drop 5 (put16 (SessionID f) ++ SessionStatus f :: byte_of_Z (Option_ f) :: nb :: enc_target (dest_Address d) (dest_Port d))) with (enc_target (dest_Address d) (dest_Port d)).
    destruct Hd as [(a & Ha & Hok) Hp]. rewrite Ha. cbn [enc_target]. rewrite <-(app_nil_r (enc_address_port _ _ _)).
    rewrite (ReadAddressPort_enc g addrParser a (dest_Port d) [] Hg (addrParser_knows _) Hok Hp). done. }
  unfold received_frame. cbn [SessionStatus Target SessionID Option_]. case_bool_decide as Hs; cbn [orb].
  - destruct (Hnew Hs) as [Hd Hnet]. etransitivity; [apply (Htarget (match dest_Network (Target f) with Network_TCP => TargetNetworkTCP | _ => TargetNetworkUDP end) (Target f) (Target f)); [|done]|].
    + unfold tail. by destruct Hnet as [-> | ->].
    + destruct (Target f) as [a p n]. cbn [dest_Network] in *. by destruct Hnet as [-> | ->].
  - case_bool_decide as Hk; cbn [andb]; [|done]. destruct ep as [e|].
    + pose proof (Hends Hs e eq_refl) as Hd. pose proof (enc_target_length _ Hd). destruct (Z.eqb_spec (Z.of_nat (length (content b))) 4).
      { unfold tail in Hlen. cbn [length] in Hlen. lia. }
      etransitivity; [by apply (Htarget TargetNetworkUDP e e)|done].
    + destruct (Z.eqb_spec (Z.of_nat (length (content b))) 4); [done|]. unfold tail in Hlen. cbn in Hlen. lia.
Qed.

Lemma wf_endpoint g ep : length g = Z.to_nat Size ->
  wf (set_endpoint (New g) ep) /\ content (set_endpoint (New g) ep) = [] /\ room (set_endpoint (New g) ep) = Z.to_nat Size.
Proof.
  intros Hg. destruct (wf_New g Hg) as [[Hc He Hi] Hct]. split; [by split|]. split; [exact Hct|].
  unfold room. change (end_ (set_endpoint (New g) ep)) with 0. change (arr (set_endpoint (New g) ep)) with g. rewrite Hg. lia.
Qed.

Lemma ReadUint16_put16 n rest : Z.of_nat n < 2 ^ 16 -> ReadUint16 (put16 (Z.of_nat n) ++ rest) = Ok (rest, Z.of_nat n).
Proof.
  intros Hn. unfold ReadUint16. rewrite length_app. unfold put16 at 1. rewrite length_be_split. cbn [Nat.add Nat.ltb Nat.leb].
  rewrite get16_put16, u16_small by lia. done.
Qed.

Lemma Unmarshal_enc g g' f0 f ep rest : length g = Z.to_nat Size -> length g' = Z.to_nat Size -> frame_ok f ep ->
  Unmarshal g g' f0 (enc_frame f ep ++ rest) = Ok (rest, received_frame f0 f ep).
Proof.
  intros Hg Hg' Hf. pose proof (frame_body_length f ep Hf) as Hlen. unfold enc_frame, Unmarshal. rewrite <-app_assoc, ReadUint16_put16 by lia.
  cbn [mbind outcome_bind]. destruct (Z.ltb_spec 512 (Z.of_nat (length (frame_body f ep)))); [lia|].
  destruct (wf_endpoint g None Hg) as (Hw & Hc & Hr). change (set_endpoint (New g) None) with (New g) in *.
  pose proof (read_full_ok (New g) (frame_body f ep ++ rest) (length (frame_body f ep)) Hw ltac:(rewrite Hr; unfold Size; lia)) as Hread.
  rewrite decide_True in Hread by (rewrite length_app; lia). destruct Hread as (b' & -> & Hb' & Hc' & _).
  cbn [mbind outcome_bind]. rewrite Hc, take_app_length in Hc'. rewrite (UnmarshalFromBuffer_body g' f0 f ep b' Hg' Hf Hb' Hc').
  cbn [mbind outcome_bind]. by rewrite drop_app_length.
Qed.

(** What a frame holds decides which bytes are read, never whether the
    program goes on. *)
Lemma UnmarshalFromBuffer_safe g f0 b : length g = Z.to_nat Size -> wf b ->
  match UnmarshalFromBuffer g f0 b with
  | Ok f => 0 <= SessionID f < 2 ^ 16 /\ 0 <= Option_ f < 2 ^ 8 /\
      (SessionStatus f = SessionStatusNew -> (dest_Network (Target f) = Network_TCP \/ dest_Network (Target f) = Network_UDP) /\
         exists a, dest_Address (Target f) = Some a /\ well_formed a)
  | Err _ => True
  | Panic => False
  end.
Proof.
  intros Hg Hb. unfold UnmarshalFromBuffer. rewrite (Len_content b Hb). destruct (Z.ltb_spec (Z.of_nat (length (content b))) 4) as [|Hlen]; [done|].
  change (BytesTo b 2) with (BytesTo b (Z.of_nat 2)). change (Byte b 2) with (Byte b (Z.of_nat 2)). change (Byte b 3) with (Byte b (Z.of_nat 3)).
  rewrite (BytesTo_content b 2 Hb) by lia.
  destruct (lookup_lt_is_Some_2 (content b) 2) as [st Hst]; [lia|]. destruct (lookup_lt_is_Some_2 (content b) 3) as [op Hop]; [lia|].
  rewrite (Byte_content b 2 st Hb Hst), (Byte_content b 3 op Hb Hop). cbn [must mbind outcome_bind].
  assert (0 <= get16 (take 2 (content b)) < 2 ^ 16) as Hid by apply get16_range.
  pose proof (byte_to_Z_range op) as Hopr. change (2 ^ 8) with 256.
  destruct (bool_decide (st = SessionStatusNew) || _) eqn:Hcond.
  2: { apply orb_false_iff in Hcond as [Hn _]. cbn. case_bool_decide; [done|]. done. }
  destruct (Z.ltb_spec (Z.of_nat (length (content b))) 8) as [|Hlen8]; [done|].
  destruct (lookup_lt_is_Some_2 (content b) 4) as [nb Hnb]; [lia|].
  change (Byte b 4) with (Byte b (Z.of_nat 4)). rewrite (Byte_content b 4 nb Hb Hnb). cbn [must mbind outcome_bind].
  destruct (Advance_content b 5 Hb ltac:(lia)) as [Hwa Hca]. change (Z.of_nat 5) with 5 in *. rewrite (Bytes_content _ Hwa). cbn [must mbind outcome_bind].
  pose proof (ReadAddressPort_safe g addrParser (content (Advance b 5)) Hg ltac:(reflexivity)) as Hs.
  destruct (ReadAddressPort g addrParser None (content (Advance b 5))) as [[[rest a] port]|e|]; [|done|done].
  destruct Hs as (Hp & Ha & _). cbn [mbind outcome_bind]. repeat case_bool_decide; cbn; auto 10.
Qed.

Lemma UnmarshalFromBuffer_length g f0 b : wf b -> forall f, UnmarshalFromBuffer g f0 b = Ok f -> (4 <= length (content b))%nat.
Proof.
  intros Hb f. unfold UnmarshalFromBuffer. rewrite (Len_content b Hb). destruct (Z.ltb_spec (Z.of_nat (length (content b))) 4); [done|lia].
Qed.

Lemma Unmarshal_safe g g' f0 input : length g = Z.to_nat Size -> length g' = Z.to_nat Size ->
  match Unmarshal g g' f0 input with
  | Ok (rest, f) => (exists used, input = used ++ rest /\ (6 <= length used <= 514)%nat) /\ 0 <= SessionID f < 2 ^ 16 /\ 0 <= Option_ f < 2 ^ 8 /\
      (SessionStatus f = SessionStatusNew -> (dest_Network (Target f) = Network_TCP \/ dest_Network (Target f) = Network_UDP) /\
         exists a, dest_Address (Target f) = Some a /\ well_formed a)
  | Err _ => True
  | Panic => False
  end.
Proof.
  intros Hg Hg'. unfold Unmarshal, ReadUint16. destruct (Nat.ltb_spec (length input) 2); [done|]. cbn [mbind outcome_bind].
  pose proof (get16_range input) as Hr. set (n := get16 input) in *. destruct (Z.ltb_spec 512 n) as [|Hn]; [done|].
  destruct (wf_endpoint g None Hg) as (Hw & Hc & Hroom). change (set_endpoint (New g) None) with (New g) in *.
  pose proof (read_full_ok (New g) (drop 2 input) (Z.to_nat n) Hw ltac:(rewrite Hroom; unfold Size; lia)) as Hread.
  rewrite Z2Nat.id in Hread by lia. case_decide as Hle; [|by rewrite Hread].
  destruct Hread as (b' & -> & Hb' & Hc' & _). cbn [mbind outcome_bind].
  pose proof (UnmarshalFromBuffer_safe g' f0 b' Hg' Hb') as Hs. pose proof (UnmarshalFromBuffer_length g' f0 b' Hb') as Hlen.
  destruct (UnmarshalFromBuffer g' f0 b') as [f|e|]; [|done|done]. cbn [mbind outcome_bind]. split; [|exact Hs]. specialize (Hlen f eq_refl).
  rewrite drop_drop. exists (take (2 + Z.to_nat n) input). split; [by rewrite take_drop|].
  rewrite Hc', Hc, length_app, length_take in Hlen. rewrite length_drop in *. rewrite length_take. cbn [length] in Hlen. lia.
Qed.

(** The frames of the multiplexer are read back as they were written,
    whatever the arrays taken from the pool held: writing the frame of a
    session with any target that can be sent, or any endpoint of a packet,
    succeeds, and reading the bytes gives the session, status, options and
    target and leaves what follows them. *)
Theorem mux_frame_roundtrip (g0 g1 g2 : bytes) (f : FrameMetadata) (ep : option Destination) :
  length g0 = Z.to_nat Size -> length g1 = Z.to_nat Size -> length g2 = Z.to_nat Size -> frame_ok f ep ->
  exists b s, WriteTo f (set_endpoint (New g0) ep) = Ok b /\ Bytes b = Ok s /\
    forall f0 rest, Unmarshal g1 g2 f0 (s ++ rest) = Ok (rest, received_frame f0 f ep).
Proof.
  intros H0 H1 H2 Hf. destruct (wf_endpoint g0 ep H0) as (Hw & Hc & Hr).
  destruct (WriteTo_ok f (set_endpoint (New g0) ep) Hf Hw Hc) as (b & Hb & Hwf & Hct & _); [rewrite Hr; unfold Size; lia|done|].
  exists b, (enc_frame f ep). split; [exact Hb|]. split; [by rewrite Bytes_content, Hct|].
  intros f0 rest. by apply Unmarshal_enc.
Qed.

Lemma mux_frame_roundtrip_witness :
  let g := replicate (Z.to_nat Size) x07 in
  let f := {| Target := TCPDestination (Some (domainAddress [x61; x2e; x62])) 443; SessionID := 258; Option_ := OptionData; SessionStatus := SessionStatusNew |} in
  exists b s, WriteTo f (set_endpoint (New g) None) = Ok b /\ Bytes b = Ok s /\
    forall f0 rest, Unmarshal g g f0 (s ++ rest) = Ok (rest, received_frame f0 f None).
Proof.
  cbv zeta. apply mux_frame_roundtrip; [apply length_replicate..|].
  split; [cbn; lia|]. split; [cbn; unfold OptionData; lia|]. split; [|done]. intros _. split; [|by left].
  split; [eexists; split; [reflexivity|]|cbn; lia]. split; [cbn; lia|]. split; [vm_compute; reflexivity|].
  intros c d' a' [= <- <-] _ H. vm_compute in H. by injection H as <-.
Defined.

(** Whatever the peer sends, reading a frame does not panic.  A frame that
    is accepted took between 6 and 514 bytes off the input, its session and
    its options fit their fields, and a new session comes with a well-formed
    target over TCP or UDP. *)
Theorem mux_unmarshal_never_panics (g1 g2 : bytes) (f0 : FrameMetadata) (input : bytes) :
  length g1 = Z.to_nat Size -> length g2 = Z.to_nat Size ->
  match Unmarshal g1 g2 f0 input with
  | Ok (rest, f) => (exists used, input = used ++ rest /\ (6 <= length used <= 514)%nat) /\ 0 <= SessionID f < 2 ^ 16 /\ 0 <= Option_ f < 2 ^ 8 /\
      (SessionStatus f = SessionStatusNew -> (dest_Network (Target f) = Network_TCP \/ dest_Network (Target f) = Network_UDP) /\
         exists a, dest_Address (Target f) = Some a /\ well_formed a)
  | Err _ => True
  | Panic => False
  end.
Proof. apply Unmarshal_safe. Qed.

Lemma mux_unmarshal_never_panics_witness :
  let g := replicate (Z.to_nat Size) x07 in
  let f0 := {| Target := no_destination; SessionID := 0; Option_ := 0; SessionStatus := x00 |} in
  Unmarshal g g f0 [x00; x0c; x00; x01; x01; x00; x01; x00; x50; x01; x7f; x00; x00; x01; xff] =
    Ok ([xff], {| Target := TCPDestination (Some (ipv4Address [x7f; x00; x00; x01])) 80; SessionID := 1; Option_ := 0; SessionStatus := x01 |}) /\
  Unmarshal g g f0 [x00; x03; x00; x01; x01] = Err ErrRead /\
  match Unmarshal g g f0 [x00; x05; x00; x01; x02; x00; xff] with
  | Ok (rest, f) => (exists used, [x00; x05; x00; x01; x02; x00; xff] = used ++ rest /\ (6 <= length used <= 514)%nat) /\ 0 <= SessionID f < 2 ^ 16 /\ 0 <= Option_ f < 2 ^ 8 /\
      (SessionStatus f = SessionStatusNew -> (dest_Network (Target f) = Network_TCP \/ dest_Network (Target f) = Network_UDP) /\
         exists a, dest_Address (Target f) = Some a /\ well_formed a)
  | Err _ => True
  | Panic => False
  end.
Proof.
  cbv zeta. split; [vm_compute; reflexivity|]. split; [vm_compute; reflexivity|].
  apply mux_unmarshal_never_panics; apply length_replicate.
Defined.

(** ** Sessions *)

(** A manager that is open has a map, which holds a session under its number. *)
Definition manager_ok {IO} (m : SessionManager IO) : Prop :=
  0 <= count m < 2 ^ 16 /\ (closed m = false -> exists ss, sessions m = Some ss /\ map_Forall (fun id s => ID s = id) ss).

Lemma NewSessionManager_ok {IO} : manager_ok (@NewSessionManager IO).
Proof. split; [cbn; lia|]. intros _. exists ∅. split; [done|]. apply map_Forall_empty. Qed.


Lemma Allocate_ok {IO} (i o : IO) m : manager_ok m -> exists m' s, Allocate i o m = Ok (m', s) /\ manager_ok m' /\
  match s with
  | Some s => closed m = false /\ Get (ID s) m' = Some s /\ input s = i /\ output s = o /\ forall id, id ≠ ID s -> Get id m' = Get id m
  | None => closed m = true /\ m' = m
  end.
Proof.
  intros [Hc Hm]. unfold Allocate. destruct (closed m) eqn:Hcl; [exists m, None; split; [done|]; split; [split; [done|congruence]|done]|]. destruct (Hm eq_refl) as (ss & Hss & Hall). rewrite Hss.
  eexists _, (Some _). split; [done|]. split.
  { split; [cbn; apply u16_range|]. intros _. eexists. split; [done|]. by apply map_Forall_insert_2. }
  split; [done|]. unfold Get. cbn. rewrite lookup_insert_eq. do 3 (split; [done|]). intros id Hid. rewrite lookup_insert_ne by done. by rewrite Hcl, Hss.
Qed.

Lemma Remove_ok {IO} id (m : SessionManager IO) : manager_ok m -> manager_ok (Remove id m) /\ Get id (Remove id m) = None /\
  forall id', id' ≠ id -> Get id' (Remove id m) = Get id' m.
Proof.
  intros [Hc Hm]. unfold Remove. destruct (closed m) eqn:Hcl; [split; [split; [done|congruence]|]; unfold Get; rewrite Hcl; done|].
  destruct (Hm eq_refl) as (ss & Hss & Hall). rewrite Hss. change (default ∅ (Some ss)) with ss.
  assert ((if decide (size (delete id ss) = 0%nat) then Some ∅ else Some (delete id ss)) = Some (delete id ss)) as ->.
  { case_decide as Hz; [|done]. by apply map_size_empty_inv in Hz as ->. }
  split; [split; [done|]; intros _; eexists; split; [done|]; by apply map_Forall_delete|].
  unfold Get. cbn. rewrite lookup_delete_eq, Hcl, Hss. split; [done|]. intros id' Hid. cbn. by rewrite lookup_delete_ne.
Qed.

Lemma Close_ok {IO} (m : SessionManager IO) : manager_ok m -> manager_ok (Close m).1 /\ (forall id, Get id (Close m).1 = None) /\
  (closed m = false -> forall id s, Get id m = Some s -> input s ∈ (Close m).2 /\ output s ∈ (Close m).2).
Proof.
  intros [Hc Hm]. unfold Close. destruct (closed m) eqn:Hcl; (split; [split; [done|cbn; congruence]|]); (split; [unfold Get; cbn; by rewrite ?Hcl|]); [done|].
  intros _ id s Hget. unfold Get in Hget. rewrite Hcl in Hget. destruct (sessions m) as [ss|]; [|done]. cbn in Hget |- *.
  split; apply list_elem_of_bind; exists (id, s); (split; [cbn; rewrite !elem_of_cons; auto|by apply elem_of_map_to_list]).
Qed.

(** Numbers wrap: a session that lives through 65536 allocations loses its
    place to the one that gets its number. *)
Example allocate_takes_a_live_number :
  let m := {| sessions := Some {[7 := {| input := 1; output := 1; ID := 7; transferType := TransferTypeStream; endpoint := no_destination; sendEndpoint := 0 |}]}; count := 6; closed := false |} in
  exists m' s, Allocate 2 2 m = Ok (m', Some s) /\ ID s = 7 /\ Get 7 m' = Some s /\ input s = 2 /\ Size_ m' = 1.
Proof. cbv zeta. do 2 eexists. split; [reflexivity|]. vm_compute. done. Qed.
