(* ===== verification/RoutingContext.v ===== *)
(** * What a route is chosen by, [features/routing/]

    The routing context of a connection: a view of its session, and the same
    with a DNS client that resolves the target's domain when a rule asks for
    addresses.  A nil address under a valid destination is a panic of the
    method called on it. *)

From S2P Require Import Prelude Net.

Local Open Scope Z_scope.

(** ** Sessions, common/session/session.go *)

(** The user is a pointer; only the email is used here.
    src/common/session/session.go Inbound *)
Record Inbound := { Source : Destination; Gateway : Destination; in_Tag : bytes; User : option bytes; UID : option Z; SSID : bytes; in_NetworkType : bytes }.

(** src/common/session/session.go Outbound *)
Record Outbound := { OriginalTarget : Destination; ob_Target : Destination; RouteTarget : Destination; OverrideFakeDNS : bool }.

(** src/common/session/session.go SniffingRequest *)
Record SniffingRequest := { OverrideDestinationForProtocol : list bytes; Enabled : bool; MetadataOnly : bool; RouteOnly : bool }.

(** A nil map reads as an empty one.
    src/common/session/session.go Content *)
Record Content := { ct_Protocol : bytes; ct_SniffingRequest : SniffingRequest; Attributes : gmap bytes bytes; SkipDNSResolve : bool }.

(** src/common/session/session.go Content.SetAttribute *)
Definition SetAttribute (name value : bytes) (c : Content) : Content :=
  {| ct_Protocol := ct_Protocol c; ct_SniffingRequest := ct_SniffingRequest c; Attributes := <[name := value]> (Attributes c); SkipDNSResolve := SkipDNSResolve c |}.

(** src/common/session/session.go Content.Attribute *)
Definition Attribute (name : bytes) (c : Content) : bytes := default [] (Attributes c !! name).

(** src/common/net/destination.go Destination.IsValid *)
Definition IsValid (d : Destination) : bool := negb (bool_decide (dest_Network d = Network_Unknown)).

(** ** The context of a session, features/routing/session/context.go *)

(** src/features/routing/session/context.go Context *)
Record Context := { ctx_Inbound : option Inbound; ctx_Outbound : option Outbound; ctx_Content : option Content }.

(** A method call on an address that may be nil. *)
Definition call {A} (f : Address -> A) (a : option Address) : outcome unit A := match a with Some a => Ok (f a) | None => Panic end.

(** [Address.IP] of an address that is not a domain. *)
Definition ip_bytes (a : Address) : bytes := default [] (IP a).

(** src/features/routing/session/context.go Context.GetInboundTag *)
Definition GetInboundTag (ctx : Context) : bytes := match ctx_Inbound ctx with Some i => in_Tag i | None => [] end.

(** src/features/routing/session/context.go Context.GetSourceIPs *)
Definition GetSourceIPs (ctx : Context) : outcome unit (list bytes) :=
  match ctx_Inbound ctx with
  | Some i =>
      if negb (IsValid (Source i)) then Ok []
      else
        f ← call Family (dest_Address (Source i));
        if IsDomain f then Ok [] else ip ← call ip_bytes (dest_Address (Source i)); Ok [ip]
  | None => Ok []
  end.

(** src/features/routing/session/context.go Context.GetSourcePort *)
Definition GetSourcePort (ctx : Context) : Z :=
  match ctx_Inbound ctx with Some i => if negb (IsValid (Source i)) then 0 else dest_Port (Source i) | None => 0 end.

(** src/features/routing/session/context.go Context.GetTargetIPs *)
Definition session_GetTargetIPs (ctx : Context) : outcome unit (list bytes) :=
  match ctx_Outbound ctx with
  | Some o =>
      if negb (IsValid (ob_Target o)) then Ok []
      else
        f ← call Family (dest_Address (ob_Target o));
        if IsIP f then ip ← call ip_bytes (dest_Address (ob_Target o)); Ok [ip] else Ok []
  | None => Ok []
  end.

(** src/features/routing/session/context.go Context.GetTargetPort *)
Definition GetTargetPort (ctx : Context) : Z :=
  match ctx_Outbound ctx with Some o => if negb (IsValid (ob_Target o)) then 0 else dest_Port (ob_Target o) | None => 0 end.

(** [Address.Domain] of a domain. *)
Definition domain_bytes (a : Address) : bytes := default [] (Domain a).

(** src/features/routing/session/context.go Context.GetTargetDomain *)
Definition GetTargetDomain (ctx : Context) : outcome unit bytes :=
  match ctx_Outbound ctx with
  | Some o =>
      if negb (IsValid (ob_Target o)) then Ok []
      else
        route ← (if IsValid (RouteTarget o) then IsDomain <$> call Family (dest_Address (RouteTarget o)) else Ok false);
        if (route : bool) then call domain_bytes (dest_Address (RouteTarget o))
        else
          f ← call Family (dest_Address (ob_Target o));
          if negb (IsDomain f) then Ok [] else call domain_bytes (dest_Address (ob_Target o))
  | None => Ok []
  end.

(** src/features/routing/session/context.go Context.GetNetwork *)
Definition GetNetwork (ctx : Context) : Network := match ctx_Outbound ctx with Some o => dest_Network (ob_Target o) | None => Network_Unknown end.

(** src/features/routing/session/context.go Context.GetProtocol *)
Definition GetProtocol (ctx : Context) : bytes := match ctx_Content ctx with Some c => ct_Protocol c | None => [] end.

(** src/features/routing/session/context.go Context.GetUser *)
Definition GetUser (ctx : Context) : bytes := match ctx_Inbound ctx with Some i => default [] (User i) | None => [] end.

(** src/features/routing/session/context.go Context.GetAttributes *)
Definition GetAttributes (ctx : Context) : gmap bytes bytes := match ctx_Content ctx with Some c => Attributes c | None => ∅ end.

(** src/features/routing/session/context.go Context.GetSkipDNSResolve *)
Definition GetSkipDNSResolve (ctx : Context) : bool := match ctx_Content ctx with Some c => SkipDNSResolve c | None => false end.

(** src/features/routing/session/context.go Context.GetUid *)
Definition GetUid (ctx : Context) : option Z := i ← ctx_Inbound ctx; UID i.

(** src/features/routing/session/context.go Context.GetSsid *)
Definition GetSsid (ctx : Context) : bytes := match ctx_Inbound ctx with Some i => SSID i | None => [] end.

(** src/features/routing/session/context.go Context.GetNetworkType *)
Definition GetNetworkType (ctx : Context) : bytes := match ctx_Inbound ctx with Some i => in_NetworkType i | None => [] end.

(** ** Resolving the target, features/routing/dns/context.go *)

(** The DNS client is another part of the program: its answer to the [n]-th
    question asked; [None] is an error. *)
Class DnsClient := LookupIP : nat -> bytes -> option (list bytes).

(** A context, and, when it can resolve, the addresses resolved so far.
    src/features/routing/dns/context.go ResolvableContext *)
Record RoutingContext := { base : Context; resolvedIPs : option (list bytes) }.

(** src/features/routing/session/context.go AsRoutingContext *)
Definition AsRoutingContext (ctx : Context) : RoutingContext := {| base := ctx; resolvedIPs := None |}.

(** src/features/routing/dns/context.go ContextWithDNSClient *)
Definition ContextWithDNSClient (ctx : RoutingContext) : RoutingContext := {| base := base ctx; resolvedIPs := Some [] |}.

(** A context and the number of questions asked. *)
Definition asked : Type := RoutingContext * nat.

(** src/features/routing/dns/context.go ResolvableContext.GetTargetIPs *)
Definition GetTargetIPs `{DnsClient} (s : asked) : outcome unit (list bytes * asked) :=
  let '(ctx, n) := s in
  match resolvedIPs ctx with
  | None => ips ← session_GetTargetIPs (base ctx); Ok (ips, s)
  | Some ((_ :: _) as ips) => Ok (ips, s)
  | Some [] =>
      domain ← GetTargetDomain (base ctx);
      match domain with
      | [] => ips ← session_GetTargetIPs (base ctx); Ok (ips, s)
      | _ =>
          match LookupIP n domain with
          | Some ips => Ok (ips, ({| base := base ctx; resolvedIPs := Some ips |}, S n))
          | None => ips ← session_GetTargetIPs (base ctx); Ok (ips, (ctx, S n))
          end
      end
  end.

(** src/features/routing/dns/context.go ResolvableContext.GetTargetIPsSkipDomain *)
Definition GetTargetIPsSkipDomain (ctx : RoutingContext) : outcome unit (list bytes) := session_GetTargetIPs (base ctx).

(** ** Port ranges, common/net/port.go *)

(** src/common/net/port.go MemoryPortRange *)
Record MemoryPortRange := { From : Z; To : Z }.

(** src/common/net/port.go MemoryPortRange.Contains *)
Definition range_Contains (r : MemoryPortRange) (port : Z) : bool := (From r <=? port) && (port <=? To r).

(** The configured ends are 32 bits wide and cut to 16.
    src/common/net/port.go PortListFromProto *)
Definition PortListFromProto (l : list (Z * Z)) : list MemoryPortRange := map (fun '(from, to) => {| From := u16 from; To := u16 to |}) l.

(** src/common/net/port.go MemoryPortList.Contains *)
Definition list_Contains (mpl : list MemoryPortRange) (port : Z) : bool := existsb (fun r => range_Contains r port) mpl.

(** src/common/net/network.go HasNetwork *)
Definition HasNetwork (l : list Network) (n : Network) : bool := existsb (fun m => bool_decide (m = n)) l.
