(* ===== verification/Conditions.v ===== *)
(** * Conditions of routing rules, [app/router/condition.go]

    Each kind of condition with its constructor and its test.  A test may ask
    the context for addresses, so it threads the context's state. *)

From S2P Require Import Prelude Matchers Mph IndexMatchers Net RoutingContext.

Local Open Scope Z_scope.

(** ** Domains *)

(** A protobuf enum may hold a number that has no name. *)
Inductive Domain_Type := Domain_Plain | Domain_Regex | Domain_RootDomain | Domain_Full | Domain_Other (n : Z).

Record DomainRule := { d_Type : Domain_Type; d_Value : bytes }.

(** src/app/router/condition.go matcherTypeMap *)
Definition matcherTypeMap (t : Domain_Type) : option Type_ :=
  match t with
  | Domain_Plain => Some Substr | Domain_Regex => Some Regex
  | Domain_RootDomain => Some Matchers.Domain | Domain_Full => Some Full | Domain_Other _ => None
  end.

Section Domains.
Context `{StringLibs, MphRuntime, SortSlice}.

(** src/app/router/condition.go domainToMatcher *)
Definition domainToMatcher (domain : DomainRule) : outcome new_error Matcher :=
  match matcherTypeMap (d_Type domain) with
  | None => Err UnknownMatcherType
  | Some matcherType => Type_New matcherType (d_Value domain)
  end.

Inductive IndexMatcher := LinearIndex (g : LinearIndexMatcher) | MphIndex (g : MphIndexMatcher).

(** src/app/router/condition.go DomainMatcher *)
Record DomainCondition := { matcher : IndexMatcher }.

Definition index_Add (g : IndexMatcher) (m : Matcher) : option IndexMatcher :=
  match g with
  | LinearIndex g => Some (LinearIndex (fst (lin_Add g m)))
  | MphIndex g => '(g, _) ← mph_Add g m; Some (MphIndex g)
  end.

Definition index_Build (fuel : nat) (g : IndexMatcher) : option IndexMatcher :=
  match g with LinearIndex g => Some (LinearIndex g) | MphIndex g => MphIndex <$> mphi_Build fuel g end.

Definition index_MatchAny (g : IndexMatcher) (input : bytes) : bool :=
  match g with LinearIndex g => lin_MatchAny g input | MphIndex g => mphi_MatchAny g input end.

(** The rules that are no matcher are left out.
    src/app/router/condition.go:77-84 NewDomainMatcher *)
Fixpoint add_domains (g : IndexMatcher) (domains : list DomainRule) : option IndexMatcher :=
  match domains with
  | [] => Some g
  | d :: domains' =>
      match domainToMatcher d with
      | Ok m => g ← index_Add g m; add_domains g domains'
      | _ => add_domains g domains'
      end
  end.

(** [None]: the index is not built with this fuel.
    src/app/router/condition.go NewDomainMatcher *)
Definition NewDomainMatcher (fuel : nat) (matcherType : bytes) (domains : list DomainRule) : option DomainCondition :=
  let indexMatcher :=
    if bool_decide (matcherType = bs "linear") then LinearIndex NewLinearIndexMatcher else MphIndex NewMphIndexMatcher in
  g ← add_domains indexMatcher domains;
  g ← index_Build fuel g;
  Some {| matcher := g |}.

(** src/app/router/condition.go DomainMatcher.Match *)
Definition domain_condition_Match (m : DomainCondition) (domain : bytes) : bool := index_MatchAny (matcher m) domain.
End Domains.

(** ** Addresses, condition_geoip.go *)

(** [netip.Prefix]; an invalid number of bits is [-1]. *)
Record Prefix := { p_addr : bytes; p_bits : Z }.
Definition BitLen (ip : bytes) : Z := 8 * Z.of_nat (length ip).
Definition AddrFromSlice (ip : bytes) : option bytes := if (length ip =? 4)%nat || (length ip =? 16)%nat then Some ip else None.
Definition Unmap (ip : bytes) : bytes := default ip (To4 ip).
Definition PrefixFrom (ip : bytes) (bits : Z) : Prefix :=
  {| p_addr := ip; p_bits := if (0 <=? bits) && (bits <=? BitLen ip) then bits else - (1) |}.
Definition prefix_valid (p : Prefix) : bool := 0 <=? p_bits p.
Definition prefix_Contains (p : Prefix) (ip : bytes) : bool :=
  (length ip =? length (p_addr p))%nat &&
  (Z.shiftr (be_combine ip) (BitLen ip - p_bits p) =? Z.shiftr (be_combine (p_addr p)) (BitLen ip - p_bits p)).

(** Package netipx: sets of addresses built from prefixes, and the conversion
    of [net.IP].  A builder that was given an invalid prefix reports an error. *)
Class NetIPX := {
  IPSet : Type;
  IPSet_of : list Prefix -> option IPSet;
  IPSet_Contains : IPSet -> bytes -> bool;
  FromStdIP : bytes -> option bytes;
}.

Class NetIPXLaws `{NetIPX} := {
  IPSet_of_valid : forall ps, Forall (fun p => prefix_valid p = true) ps <-> is_Some (IPSet_of ps);
  IPSet_of_Contains : forall ps s ip, IPSet_of ps = Some s -> IPSet_Contains s ip = existsb (fun p => prefix_Contains p ip) ps;
  FromStdIP_eq : forall ip, FromStdIP ip = Unmap <$> AddrFromSlice ip;
}.

(** The protobuf messages CIDR and GeoIP. *)
Record CIDR := { Ip : bytes; c_Prefix : Z }.
Record GeoIP := { CountryCode : bytes; Cidr : list CIDR; InverseMatch : bool }.

Inductive build_error := ErrInvalidIP | ErrIPSet | ErrNoEffectiveFields | ErrBalancerNotFound | ErrStrategy.

Section GeoIPs.
Context `{NetIPX}.

(** src/app/router/condition_geoip.go GeoIPMatcher *)
Record GeoIPMatcher := { countryCode : bytes; reverseMatch : bool; ip4 : IPSet; ip6 : IPSet }.

(** The prefixes given to the two builders.
    src/app/router/condition_geoip.go:21-35 GeoIPMatcher.Init *)
Fixpoint split_cidrs (cidrs : list CIDR) : outcome build_error (list Prefix * list Prefix) :=
  match cidrs with
  | [] => Ok ([], [])
  | cidr :: cidrs' =>
      match AddrFromSlice (Ip cidr) with
      | None => Err ErrInvalidIP
      | Some ip =>
          let ip := Unmap ip in
          let ipPrefix := PrefixFrom ip (c_Prefix cidr) in
          '(p4, p6) ← split_cidrs cidrs';
          if (length ip =? 4)%nat then Ok (ipPrefix :: p4, p6) else Ok (p4, ipPrefix :: p6)
      end
  end.

(** src/app/router/condition_geoip.go GeoIPMatcher.Init *)
Definition Init (code : bytes) (inverse : bool) (cidrs : list CIDR) : outcome build_error GeoIPMatcher :=
  '(p4, p6) ← split_cidrs cidrs;
  match IPSet_of p4 with
  | None => Err ErrIPSet
  | Some s4 =>
      match IPSet_of p6 with
      | None => Err ErrIPSet
      | Some s6 => Ok {| countryCode := code; reverseMatch := inverse; ip4 := s4; ip6 := s6 |}
      end
  end.

(** src/app/router/condition_geoip.go GeoIPMatcher.SetReverseMatch *)
Definition SetReverseMatch (isReverseMatch : bool) (m : GeoIPMatcher) : GeoIPMatcher :=
  {| countryCode := countryCode m; reverseMatch := isReverseMatch; ip4 := ip4 m; ip6 := ip6 m |}.

(** src/app/router/condition_geoip.go GeoIPMatcher.match4 *)
Definition match4 (m : GeoIPMatcher) (ip : bytes) : bool := match FromStdIP ip with Some nip => IPSet_Contains (ip4 m) nip | None => false end.
(** src/app/router/condition_geoip.go GeoIPMatcher.match6 *)
Definition match6 (m : GeoIPMatcher) (ip : bytes) : bool := match FromStdIP ip with Some nip => IPSet_Contains (ip6 m) nip | None => false end.

(** src/app/router/condition_geoip.go GeoIPMatcher.Match *)
Definition geo_Match (m : GeoIPMatcher) (ip : bytes) : bool :=
  let isMatched := if (length ip =? 4)%nat then match4 m ip else if (length ip =? 16)%nat then match6 m ip else false in
  if reverseMatch m then negb isMatched else isMatched.

(** Matchers do not change once they are in the container, so a shared one
    is its value.
    src/app/router/condition_geoip.go GeoIPMatcherContainer *)
Definition GeoIPMatcherContainer : Type := list GeoIPMatcher.

(** src/app/router/condition_geoip.go GeoIPMatcherContainer.Add *)
Definition container_Add (c : GeoIPMatcherContainer) (geoip : GeoIP) : GeoIPMatcherContainer * outcome build_error GeoIPMatcher :=
  let found :=
    if bool_decide (CountryCode geoip = []) then None
    else head (filter (fun m => countryCode m = CountryCode geoip /\ reverseMatch m = InverseMatch geoip) c) in
  match found with
  | Some m => (c, Ok m)
  | None =>
      match Init (CountryCode geoip) (InverseMatch geoip) (Cidr geoip) with
      | Ok m => ((if bool_decide (CountryCode geoip = []) then c else c ++ [m]), Ok m)
      | r => (c, r)
      end
  end.

(** src/app/router/condition.go MultiGeoIPMatcher *)
Record MultiGeoIPMatcher := { geo_matchers : list GeoIPMatcher; onSource : bool; skipDomain : bool }.

(** The global container is the state.
    src/app/router/condition.go:111-118 NewMultiGeoIPMatcher *)
Fixpoint add_geoips (c : GeoIPMatcherContainer) (geoips : list GeoIP) : GeoIPMatcherContainer * outcome build_error (list GeoIPMatcher) :=
  match geoips with
  | [] => (c, Ok [])
  | geoip :: geoips' =>
      match container_Add c geoip with
      | (c, Ok m) => let '(c, r) := add_geoips c geoips' in (c, cons m <$> r)
      | (c, Err e) => (c, Err e)
      | (c, Panic) => (c, Panic)
      end
  end.

(** src/app/router/condition.go NewMultiGeoIPMatcher *)
Definition NewMultiGeoIPMatcher (c : GeoIPMatcherContainer) (geoips : list GeoIP) (onSource : bool) : GeoIPMatcherContainer * outcome build_error MultiGeoIPMatcher :=
  let '(c, r) := add_geoips c geoips in
  (c, (fun ms => {| geo_matchers := ms; onSource := onSource; skipDomain := false |}) <$> r).
End GeoIPs.

(** ** The other conditions *)

(** src/app/router/condition.go PortMatcher *)
Record PortMatcher := { port : list MemoryPortRange; port_onSource : bool }.
(** src/app/router/condition.go NewPortMatcher *)
Definition NewPortMatcher (l : list (Z * Z)) (onSource : bool) : PortMatcher := {| port := PortListFromProto l; port_onSource := onSource |}.

(** The numbers of the enum [net.Network]. *)
Definition Network_number (n : Network) : Z := match n with Network_Unknown => 0 | Network_TCP => 2 | Network_UDP => 3 | Network_UNIX => 4 end.

(** An array of eight flags.
    src/app/router/condition.go NetworkMatcher *)
Definition NetworkMatcher : Type := list bool.

(** A configured number outside the array is a panic.
    src/app/router/condition.go NewNetworkMatcher *)
Definition NewNetworkMatcher {E} (network : list Z) : outcome E NetworkMatcher :=
  foldl (fun m n => l ← m; if (0 <=? n) && (n <? 8) then Ok (<[Z.to_nat n := true]> l) else Panic) (Ok (replicate 8 false)) network.

(** src/app/router/condition.go NewUserMatcher *)
Definition NewUserMatcher (users : list bytes) : list bytes := filter (fun u => u ≠ []) users.
(** src/app/router/condition.go NewInboundTagMatcher *)
Definition NewInboundTagMatcher (tags : list bytes) : list bytes := filter (fun t => t ≠ []) tags.
(** src/app/router/condition.go NewProtocolMatcher *)
Definition NewProtocolMatcher (protocols : list bytes) : list bytes := filter (fun p => p ≠ []) protocols.
(** src/app/router/condition.go NewUidMatcher *)
Definition NewUidMatcher (uidList : list Z) : gset Z := list_to_set uidList.
(** src/app/router/condition.go NewWifiSSIDMatcher *)
Definition NewWifiSSIDMatcher (ssidList : list bytes) : gset bytes := list_to_set ssidList.
(** src/app/router/condition.go NewNetworkTypeMatcher *)
Definition NewNetworkTypeMatcher (networkTypeList : list bytes) : gset bytes := list_to_set networkTypeList.

(** ** Tests *)

Section Apply.
Context `{StringLibs, MphRuntime, NetIPX, DnsClient}.

(** The types that implement the interface.
    src/app/router/condition.go Condition *)
Inductive Condition :=
  | CondDomain (m : DomainCondition)
  | CondGeoIP (m : MultiGeoIPMatcher)
  | CondPort (m : PortMatcher)
  | CondNetwork (m : NetworkMatcher)
  | CondUser (user : list bytes)
  | CondInboundTag (tags : list bytes)
  | CondProtocol (protocols : list bytes)
  | CondUid (uidList : gset Z)
  | CondSsid (ssidList : gset bytes)
  | CondNetworkType (networkTypeList : gset bytes).

(** src/app/router/condition.go DomainMatcher.Apply *)
Definition domain_Apply (m : DomainCondition) (ctx : RoutingContext) : outcome unit bool :=
  domain ← GetTargetDomain (base ctx);
  match domain with [] => Ok false | _ => Ok (domain_condition_Match m (ToLower domain)) end.

(** A context that cannot resolve has no method to skip the domain.
    src/app/router/condition.go MultiGeoIPMatcher.Apply *)
Definition geo_Apply (m : MultiGeoIPMatcher) (s : asked) : outcome unit (bool * asked) :=
  '(ips, s) ← (if onSource m then ips ← GetSourceIPs (base s.1); Ok (ips, s)
               else if skipDomain m then
                 match resolvedIPs s.1 with
                 | Some _ => ips ← GetTargetIPsSkipDomain s.1; Ok (ips, s)
                 | None => GetTargetIPs s
                 end
               else GetTargetIPs s);
  Ok (existsb (fun ip => existsb (fun m => geo_Match m ip) (geo_matchers m)) ips, s).

(** src/app/router/condition.go PortMatcher.Apply *)
Definition port_Apply (v : PortMatcher) (ctx : RoutingContext) : bool :=
  list_Contains (port v) (if port_onSource v then GetSourcePort (base ctx) else GetTargetPort (base ctx)).

(** src/app/router/condition.go NetworkMatcher.Apply *)
Definition network_Apply (v : NetworkMatcher) (ctx : RoutingContext) : outcome unit bool :=
  match v !! Z.to_nat (Network_number (GetNetwork (base ctx))) with Some b => Ok b | None => Panic end.

Definition is_one_of (x : bytes) (l : list bytes) : bool :=
  match x with [] => false | _ => existsb (fun y => bool_decide (y = x)) l end.

(** src/app/router/condition.go UserMatcher.Apply *)
Definition user_Apply (user : list bytes) (ctx : RoutingContext) : bool := is_one_of (GetUser (base ctx)) user.

(** src/app/router/condition.go InboundTagMatcher.Apply *)
Definition inbound_Apply (tags : list bytes) (ctx : RoutingContext) : bool := is_one_of (GetInboundTag (base ctx)) tags.

(** src/app/router/condition.go ProtocolMatcher.Apply *)
Definition protocol_Apply (protocols : list bytes) (ctx : RoutingContext) : bool :=
  match GetProtocol (base ctx) with [] => false | protocol => existsb (fun p => HasPrefix protocol p) protocols end.

(** src/app/router/condition.go UidMatcher.Apply *)
Definition uid_Apply (uidList : gset Z) (ctx : RoutingContext) : bool :=
  match GetUid (base ctx) with Some uid => bool_decide (uid ∈ uidList) | None => false end.

(** src/app/router/condition.go WifiSSIDMatcher.Apply *)
Definition ssid_Apply (ssidList : gset bytes) (ctx : RoutingContext) : bool := bool_decide (GetSsid (base ctx) ∈ ssidList).

(** src/app/router/condition.go NetworkTypeMatcher.Apply *)
Definition networkType_Apply (networkTypeList : gset bytes) (ctx : RoutingContext) : bool :=
  bool_decide (GetNetworkType (base ctx) ∈ networkTypeList).

Definition Apply (c : Condition) (s : asked) : outcome unit (bool * asked) :=
  match c with
  | CondDomain m => b ← domain_Apply m s.1; Ok (b, s)
  | CondGeoIP m => geo_Apply m s
  | CondPort m => Ok (port_Apply m s.1, s)
  | CondNetwork m => b ← network_Apply m s.1; Ok (b, s)
  | CondUser m => Ok (user_Apply m s.1, s)
  | CondInboundTag m => Ok (inbound_Apply m s.1, s)
  | CondProtocol m => Ok (protocol_Apply m s.1, s)
  | CondUid m => Ok (uid_Apply m s.1, s)
  | CondSsid m => Ok (ssid_Apply m s.1, s)
  | CondNetworkType m => Ok (networkType_Apply m s.1, s)
  end.

(** src/app/router/condition.go ConditionChan *)
Definition ConditionChan : Type := list Condition.

(** src/app/router/condition.go ConditionChan.Apply *)
Fixpoint chan_Apply (v : ConditionChan) (s : asked) : outcome unit (bool * asked) :=
  match v with
  | [] => Ok (true, s)
  | cond :: v' => '(b, s) ← Apply cond s; if (b : bool) then chan_Apply v' s else Ok (false, s)
  end.
End Apply.
