(* ===== verification/OutboundManager.v ===== *)
(** * The outbound manager, [app/proxyman/outbound/outbound.go]

    The handlers by tag, those without, and the default one. *)

From S2P Require Import Prelude Matchers.

Local Open Scope Z_scope.

(** Go iterates over a map in an unspecified order: any permutation of its
    entries. *)
Class MapRange := {
  range_map : forall {V : Type}, gmap bytes V -> list (bytes * V);
  range_map_perm : forall {V : Type} (m : gmap bytes V), range_map m ≡ₚ map_to_list m;
}.

(** The order of the model's own maps is one. *)
Definition some_range : MapRange := {| range_map := fun V m => map_to_list m; range_map_perm := fun V m => reflexivity _ |}.
(** And so is the opposite one. *)
Definition other_range : MapRange := {| range_map := fun V m => rev (map_to_list m); range_map_perm := fun V m => symmetry (Permutation_rev _) |}.

(** A handler: what names it, its tag, and whether starting and closing it
    succeed; handlers are pointers, compared by name. *)
Record Handler := { h_id : nat; Tag : bytes; start_ok : bool; close_ok : bool }.

(** What is done to handlers, in order. *)
Inductive handler_event := Started (h : Handler) | HandlerClosed (h : Handler).

(** src/app/proxyman/outbound/outbound.go Manager *)
Record Manager := { defaultHandler : option Handler; taggedHandler : gmap bytes Handler; untaggedHandlers : list Handler; running : bool }.

(** src/app/proxyman/outbound/outbound.go New *)
Definition New : Manager := {| defaultHandler := None; taggedHandler := ∅; untaggedHandlers := []; running := false |}.

Inductive manager_error := ErrHandler | ErrNoClue.

Section Manager.
Context `{MapRange}.

(** Handlers are started until one fails. *)
Fixpoint start_all (hs : list Handler) : list handler_event * outcome manager_error unit :=
  match hs with
  | [] => ([], Ok ())
  | h :: hs' => if start_ok h then let '(ev, r) := start_all hs' in (Started h :: ev, r) else ([Started h], Err ErrHandler)
  end.

(** src/app/proxyman/outbound/outbound.go Manager.Start *)
Definition Start (m : Manager) : Manager * list handler_event * outcome manager_error unit :=
  let m := {| defaultHandler := defaultHandler m; taggedHandler := taggedHandler m; untaggedHandlers := untaggedHandlers m; running := true |} in
  let '(events, r) := start_all (map snd (range_map (taggedHandler m)) ++ untaggedHandlers m) in
  (m, events, r).

(** The errors are combined into one.
    src/app/proxyman/outbound/outbound.go Manager.Close *)
Definition Close (m : Manager) : Manager * list handler_event * outcome manager_error unit :=
  let hs := map snd (range_map (taggedHandler m)) ++ untaggedHandlers m in
  ({| defaultHandler := defaultHandler m; taggedHandler := taggedHandler m; untaggedHandlers := untaggedHandlers m; running := false |},
   map HandlerClosed hs, if forallb close_ok hs then Ok () else Err ErrHandler).

(** src/app/proxyman/outbound/outbound.go Manager.GetDefaultHandler *)
Definition GetDefaultHandler (m : Manager) : option Handler := defaultHandler m.

(** src/app/proxyman/outbound/outbound.go Manager.GetHandler *)
Definition GetHandler (m : Manager) (tag : bytes) : option Handler := taggedHandler m !! tag.

(** src/app/proxyman/outbound/outbound.go Manager.AddHandler *)
Definition AddHandler (m : Manager) (handler : Handler) : Manager * list handler_event * outcome manager_error unit :=
  let tag := Tag handler in
  let d :=
    match defaultHandler m with
    | None => Some handler
    | Some old => if negb (bool_decide (tag = [])) && bool_decide (tag = Tag old) then Some handler else Some old
    end in
  let '(m, closed) :=
    if negb (bool_decide (tag = [])) then
      ({| defaultHandler := d; taggedHandler := <[tag := handler]> (taggedHandler m); untaggedHandlers := untaggedHandlers m; running := running m |},
       match taggedHandler m !! tag with Some old => [HandlerClosed old] | None => [] end)
    else
      ({| defaultHandler := d; taggedHandler := taggedHandler m; untaggedHandlers := untaggedHandlers m ++ [handler]; running := running m |}, []) in
  if running m then (m, closed ++ [Started handler], if start_ok handler then Ok () else Err ErrHandler)
  else (m, closed, Ok ()).

(** src/app/proxyman/outbound/outbound.go Manager.RemoveHandler *)
Definition RemoveHandler (m : Manager) (tag : bytes) : Manager * list handler_event * outcome manager_error unit :=
  if bool_decide (tag = []) then (m, [], Err ErrNoClue)
  else
    match taggedHandler m !! tag with
    | Some handler =>
        ({| defaultHandler := match defaultHandler m with Some d => if bool_decide (Tag d = tag) then None else Some d | None => None end;
            taggedHandler := delete tag (taggedHandler m); untaggedHandlers := untaggedHandlers m; running := running m |},
         [HandlerClosed handler], Ok ())
    | None => (m, [], Err ErrNoClue)
    end.

(** src/app/proxyman/outbound/outbound.go Manager.Select *)
Definition Select (m : Manager) (selectors : list bytes) : list bytes :=
  filter (fun tag => existsb (HasPrefix tag) selectors = true) (map fst (range_map (taggedHandler m))).
End Manager.

(** * Facts about the outbound manager

    The default handler is always a registered one, and no handler is lost
    without being closed. *)


(** ** The manager *)

(** A handler is registered: under its tag, or among those without. *)
Definition registered (m : Manager) (h : Handler) : Prop := taggedHandler m !! Tag h = Some h \/ h ∈ untaggedHandlers m.

Record manager_inv (m : Manager) : Prop := {
  mi_tags : map_Forall (fun tag h => Tag h = tag /\ tag ≠ []) (taggedHandler m);
  mi_untagged : Forall (fun h => Tag h = []) (untaggedHandlers m);
  mi_default : forall h, defaultHandler m = Some h -> registered m h;
}.

(** The operations on a manager. *)
Inductive manager_op := OpStart | OpClose | OpAdd (h : Handler) | OpRemove (tag : bytes).

Section Manager.
Context `{MapRange}.

Definition run (m : Manager) (op : manager_op) : Manager * list handler_event :=
  match op with
  | OpStart => (Start m).1
  | OpClose => (Close m).1
  | OpAdd h => (AddHandler m h).1
  | OpRemove tag => (RemoveHandler m tag).1
  end.

Lemma New_inv : manager_inv New.
Proof. split; [apply map_Forall_empty|constructor|done]. Qed.

(** What one operation does: a handler that was registered is still, or it
    has been closed, and a handler that was added is registered, and started
    when the manager runs. *)
Lemma run_inv m op : manager_inv m -> let '(m', ev) := run m op in
  manager_inv m' /\ (forall h, registered m h -> registered m' h \/ HandlerClosed h ∈ ev) /\
  (forall h, op = OpAdd h -> registered m' h /\ (running m = true -> Started h ∈ ev)).
Proof.
  intros Hm. destruct op as [| |h|tag]; cbn [run].
  - unfold Start. destruct (start_all _) as [ev r]. cbn. split; [destruct Hm; by split|]. by split; [left|].
  - unfold Close. cbn. split; [destruct Hm; by split|]. by split; [left|].
  - destruct Hm as [Ht Hu Hd]. unfold AddHandler. case_bool_decide as Htag; cbn [negb andb].
    + set (m1 := {| defaultHandler := _ |}).
      assert (forall h', registered m h' -> registered m1 h') as Hreg.
      { intros h' [Hh|Hh]; [by left|right]. apply elem_of_app. by left. }
      assert (registered m1 h) as Hself by (right; apply elem_of_app; right; by apply list_elem_of_singleton).
      assert (manager_inv m1) as Hm1.
      { split; [done|apply Forall_app; by repeat constructor|]. intros h' Hh'. cbn in Hh'.
        destruct (defaultHandler m) as [d|] eqn:Hdef; injection Hh' as <-; [by apply Hreg, Hd|done]. }
      destruct (running m1) eqn:Hrun; cbn; (split; [done|]; split; [intros h' Hh'; left; by apply Hreg|]; intros h' [= <-]; split; [done|]).
      * intros _. by apply list_elem_of_singleton.
      * intros Hrun'. change (running m1) with (running m) in Hrun. congruence.
    + set (m1 := {| defaultHandler := _ |}). set (closed := match taggedHandler m !! Tag h with Some _ => _ | None => _ end).
      assert (forall h', registered m h' -> registered m1 h' \/ HandlerClosed h' ∈ closed) as Hreg.
      { intros h' [Hh|Hh]; [|by left; right]. destruct (decide (Tag h' = Tag h)) as [Heq|Hne].
        - right. unfold closed. rewrite <-Heq, Hh. by apply list_elem_of_singleton.
        - left. left. cbn. by rewrite lookup_insert_ne. }
      assert (registered m1 h) as Hself by (left; cbn; by rewrite lookup_insert_eq).
      assert (manager_inv m1) as Hm1.
      { split; [by apply map_Forall_insert_2|done|]. intros h' Hh'. cbn in Hh'. destruct (defaultHandler m) as [d|] eqn:Hdef; [|injection Hh' as <-; done].
        case_bool_decide as Heq; injection Hh' as <-; [done|]. destruct (Hd d eq_refl) as [Hdt|Hdu]; [|by right].
        left. cbn. by rewrite lookup_insert_ne by congruence. }
      destruct (running m1) eqn:Hrun; cbn; (split; [done|]; split; [intros h' Hh'; destruct (Hreg h' Hh'); [by left|right; set_solver]|]; intros h' [= <-]; split; [done|]).
      * intros _. apply elem_of_app. right. by apply list_elem_of_singleton.
      * intros Hrun'. change (running m1) with (running m) in Hrun. congruence.
  - unfold RemoveHandler. case_bool_decide as Htag; [cbn; split; [done|]; by split; [left|]|].
    destruct (taggedHandler m !! tag) as [h|] eqn:Hh; cbn; [|split; [done|]; by split; [left|]]. destruct Hm as [Ht Hu Hd].
    destruct (Ht tag h Hh) as [Hth _].
    split.
    + split; [by apply map_Forall_delete|done|]. intros h' Hh'. cbn in Hh'. destruct (defaultHandler m) as [d|]; [|done].
      case_bool_decide as Hdt; [done|]. injection Hh' as <-. destruct (Hd d eq_refl) as [Hl|Hl]; [left; cbn; by rewrite lookup_delete_ne|by right].
    + split; [|done]. intros h' [Hl|Hl]; [|by left; right]. destruct (decide (Tag h' = tag)) as [Heq|Hne].
      * right. apply list_elem_of_singleton. congruence.
      * left. left. cbn. by rewrite lookup_delete_ne.
Qed.

Lemma runs_inv ops m : manager_inv m -> manager_inv (foldl (fun m op => (run m op).1) m ops).
Proof.
  revert m. induction ops as [|op ops IH]; intros m Hm; [done|]. apply IH. pose proof (run_inv m op Hm) as Hr. destruct (run m op). by destruct Hr.
Qed.

(** ** Selecting *)

Lemma elem_of_Select m selectors tag : tag ∈ Select m selectors <->
  is_Some (taggedHandler m !! tag) /\ exists s, s ∈ selectors /\ HasPrefix tag s = true.
Proof.
  unfold Select. rewrite list_elem_of_filter, existsb_exists, list_elem_of_fmap. split.
  - intros [(s & Hs%list_elem_of_In & Hp) ([t h] & -> & Hin)]. rewrite range_map_perm, elem_of_map_to_list in Hin. split; [by eexists|by exists s].
  - intros [[h Hh] (s & Hs & Hp)]. split; [exists s; split; [by apply list_elem_of_In|done]|]. exists (tag, h). split; [done|].
    by rewrite range_map_perm, elem_of_map_to_list.
Qed.

Lemma NoDup_Select m selectors : NoDup (Select m selectors).
Proof. unfold Select. apply NoDup_filter. rewrite range_map_perm. apply NoDup_fst_map_to_list. Qed.
End Manager.

(** ** The result *)

Section ManagerProperties.
Context `{MapRange}.

(** Whatever is added, removed, started and closed, and in whatever order,
    tags lead to the handlers that carry them and the default handler is a
    registered one.  An operation that makes a handler no longer registered
    closes it, and a handler added to a running manager is started. *)
Theorem manager_default_registered (ops : list manager_op) (op : manager_op) :
  let m := foldl (fun m op => (run m op).1) New ops in
  let '(m', ev) := run m op in
  manager_inv m /\ manager_inv m' /\
  (forall h, registered m h -> registered m' h \/ HandlerClosed h ∈ ev) /\
  (forall h, op = OpAdd h -> registered m' h /\ (running m = true -> Started h ∈ ev)).
Proof.
  cbv zeta. pose proof (runs_inv ops New New_inv) as Hm. pose proof (run_inv _ op Hm) as Hr. destruct (run _ op) as [m' ev]. by split.
Qed.
End ManagerProperties.
