(* ===== verification/Balancing.v ===== *)
(** * Balancers, [app/router/]: weights, strategies and the choice of a tag

    Each strategy chooses among the tags it is given by what the observatory
    has measured.  Floating-point numbers are the ones of IEEE 754
    ([SpecFloat] of the standard library), with Go's rounding. *)

From Stdlib Require Export SpecFloat.
From S2P Require Import Prelude Matchers OutboundManager.

Local Open Scope Z_scope.

(** [time.Duration] and the conversions of its arithmetic are 64 bits wide. *)
Definition i64 (z : Z) : Z := (z + 2 ^ 63) mod 2 ^ 64 - 2 ^ 63.
Definition Millisecond : Z := 1000000.

(** ** Floating point *)

Abbreviation float64 := spec_float.
Abbreviation mul64 := (SFmul 53 1024).

(** Every value of type float32 is one of type float64. *)
Definition float64_of_float32 (x : spec_float) : float64 :=
  match x with S754_finite s m e => binary_round 53 1024 s m e | _ => x end.
Definition float64_of_int64 (z : Z) : float64 := binary_normalize 53 1024 z 0 false.

(** [math.Pow(x, 0.5)] is the square root, but for a zero, which it returns
    without its sign. *)
Definition pow_half (x : float64) : float64 := match x with S754_zero _ => S754_zero false | _ => SFsqrt 53 1024 x end.

(** What converting to int64 gives for a value that has none depends on the
    processor. *)
Class FloatOverflow := overflow_int64 : float64 -> Z.
Definition int64_of_float64 `{FloatOverflow} (x : float64) : Z :=
  match x with
  | S754_zero _ => 0
  | S754_finite s m e =>
      let z := Z.shiftl (Z.pos m) e in
      let z := if s then - z else z in
      if (- 2 ^ 63 <=? z) && (z <? 2 ^ 63) then z else overflow_int64 x
  | _ => overflow_int64 x
  end.

(** [strconv.ParseFloat] of digits, or of digits, a dot and digits; the
    digits read as one number and how many follow the dot.  [None] is out of
    range. *)
Definition digit (c : byte) : Z := byte_to_Z c - 48.
Definition is_decimal (c : byte) : bool := (48 <=? byte_to_Z c) && (byte_to_Z c <=? 57).
Fixpoint scan_float (s : bytes) (n : Z) (frac : option nat) : Z * nat :=
  match s with
  | [] => (n, default 0%nat frac)
  | c :: s' => if is_decimal c then scan_float s' (10 * n + digit c) (S <$> frac) else scan_float s' n (Some 0%nat)
  end.
Definition ParseFloat (s : bytes) : option float64 :=
  let '(n, k) := scan_float s 0 None in
  let x :=
    match n, k with
    | Z.pos p, S _ => SFdiv 53 1024 (S754_finite false p 0) (S754_finite false (Pos.pow 10 (Pos.of_nat k)) 0)
    | _, _ => float64_of_int64 n
    end in
  match x with S754_infinity _ => None | _ => Some x end.

(** ** Weights, weight.go *)

(** The leftmost match of [\d+(\.\d+)?]. *)
Fixpoint take_digits (s : bytes) : bytes := match s with c :: s' => if is_decimal c then c :: take_digits s' else [] | [] => [] end.
Fixpoint numberFinder_FindString (s : bytes) : bytes :=
  match s with
  | [] => []
  | c :: s' =>
      if is_decimal c then
        let whole := take_digits s in
        match drop (length whole) s with
        | x2e :: rest => match take_digits rest with [] => whole | frac => whole ++ x2e :: frac end
        | _ => whole
        end
      else numberFinder_FindString s'
  end.

(** [Regexp.FindString]. *)
Class RegexpFind `{StringLibs} := regexp_FindString : Regexp -> bytes -> bytes.

(** The message StrategyWeight. *)
Record StrategyWeight := { w_Regexp : bool; w_Match : bytes; w_Value : spec_float }.

Section Weights.
Context `{RegexpFind}.

(** src/app/router/weight.go WeightManager *)
Record WeightManager := { settings : list StrategyWeight; cache : gmap bytes float64; scaler : float64 -> float64 -> float64; defaultWeight : float64 }.

(** src/app/router/weight.go NewWeightManager *)
Definition NewWeightManager (s : list StrategyWeight) (defaultWeight : float64) (scaler : float64 -> float64 -> float64) : WeightManager :=
  {| settings := s; cache := ∅; scaler := scaler; defaultWeight := defaultWeight |}.

(** src/app/router/weight.go WeightManager.getMatch *)
Definition getMatch (tag find : bytes) (isRegexp : bool) : bytes :=
  if negb isRegexp then if Contains tag find then find else []
  else match regexp_Compile find with Some r => regexp_FindString r tag | None => [] end.

(** src/app/router/weight.go:52-72 WeightManager.findValue *)
Fixpoint find_weight (ws : list StrategyWeight) (tag : bytes) (defaultWeight : float64) : float64 :=
  match ws with
  | [] => defaultWeight
  | w :: ws' =>
      match getMatch tag (w_Match w) (w_Regexp w) with
      | [] => find_weight ws' tag defaultWeight
      | matched =>
          if SFltb (S754_zero false) (w_Value w) then float64_of_float32 (w_Value w)
          else match numberFinder_FindString matched with
               | [] => defaultWeight
               | numStr => default defaultWeight (ParseFloat numStr)
               end
      end
  end.

(** src/app/router/weight.go WeightManager.findValue *)
Definition findValue (s : WeightManager) (tag : bytes) : float64 := find_weight (settings s) tag (defaultWeight s).

(** src/app/router/weight.go WeightManager.Get *)
Definition weight_Get (s : WeightManager) (tag : bytes) : WeightManager * float64 :=
  match cache s !! tag with
  | Some weight => (s, weight)
  | None =>
      let weight := findValue s tag in
      ({| settings := settings s; cache := <[tag := weight]> (cache s); scaler := scaler s; defaultWeight := defaultWeight s |}, weight)
  end.

(** src/app/router/weight.go WeightManager.Apply *)
Definition weight_Apply (s : WeightManager) (tag : bytes) (value : float64) : WeightManager * float64 :=
  let '(s, w) := weight_Get s tag in (s, scaler s value w).
End Weights.

(** The order of strings. *)
Fixpoint bytes_less (a b : bytes) : bool :=
  match a, b with
  | _, [] => false
  | [], _ :: _ => true
  | x :: a', y :: b' => if byte_to_Z x =? byte_to_Z y then bytes_less a' b' else byte_to_Z x <? byte_to_Z y
  end.

(** ** What the observatory reports *)

(** The messages HealthPingMeasurementResult and OutboundStatus. *)
Record HealthPing := { hp_All : Z; hp_Fail : Z; hp_Deviation : Z; hp_Average : Z }.
Record OutboundStatus := { Alive : bool; Delay : Z; OutboundTag : bytes; st_HealthPing : option HealthPing }.

(** The observatory, found by its tag: an error when it has no report, a panic
    when there is no such observatory. *)
Class Observatory := GetObservation : bytes -> outcome unit (list OutboundStatus).

(** src/app/router/strategy_leastping.go outboundList.contains *)
Definition outbound_contains (o : list bytes) (name : bytes) : bool := existsb (fun v => bool_decide (v = name)) o.

(** [Intn] is the number [rand.Intn] draws; it is asked for one below [n].
    src/common/dice/dice.go Roll *)
Definition Roll (Intn : nat -> nat) (n : nat) : nat := if (n =? 1)%nat then 0%nat else Intn n.

(** An index into a slice. *)
Definition index {A} (l : list A) (i : nat) : outcome unit A := match l !! i with Some x => Ok x | None => Panic end.

Section Strategies.
Context `{RegexpFind, FloatOverflow, SortSlice, Observatory}.

(** ** Random, strategy_random.go *)

(** src/app/router/config.pb.go StrategyRandomConfig *)
Record StrategyRandomConfig := { r_ObserverTag : bytes; AliveOnly : bool }.

(** The candidates seen alive, or not seen; of two reports on a tag the last
    one counts.
    src/app/router/strategy_random.go:55-73 RandomStrategy.PickOutbound *)
Definition alive_tags (status : list OutboundStatus) (candidates : list bytes) : list bytes :=
  let statusMap : gmap bytes OutboundStatus := foldl (fun m st => <[OutboundTag st := st]> m) ∅ status in
  filter (fun c => match statusMap !! c with Some st => Alive st | None => true end = true) candidates.

(** A strategy without settings is a nil pointer.
    src/app/router/strategy_random.go RandomStrategy.PickOutbound *)
Definition random_PickOutbound (s : option StrategyRandomConfig) (Intn : nat -> nat) (candidates : list bytes) : outcome unit bytes :=
  candidates ←
    match s with
    | Some c =>
        if AliveOnly c then
          match GetObservation (r_ObserverTag c) with
          | Ok status => Ok (alive_tags status candidates)
          | Err _ => Ok candidates
          | Panic => Panic
          end
        else Ok candidates
    | None => Ok candidates
    end;
  if (length candidates =? 0)%nat then Ok [] else index candidates (Roll Intn (length candidates)).

(** ** Least ping, strategy_leastping.go *)

(** src/app/router/config.pb.go StrategyLeastPingConfig *)
Record StrategyLeastPingConfig := { p_ObserverTag : bytes; StickyChoice : bool }.

(** src/app/router/strategy_leastping.go LeastPingStrategy *)
Record LeastPingStrategy := { lp_config : StrategyLeastPingConfig; lastChoice : bytes }.

(** src/app/router/strategy_leastping.go:55-62 LeastPingStrategy.PickOutbound *)
Definition least_ping (outboundsList : list bytes) (status : list OutboundStatus) : bytes * Z :=
  foldl (fun '(selected, leastPing) v =>
    if outbound_contains outboundsList (OutboundTag v) && Alive v && (Delay v <? leastPing) then (OutboundTag v, Delay v) else (selected, leastPing))
    ([], 99999999) status.

(** src/app/router/strategy_leastping.go LeastPingStrategy.PickOutbound *)
Definition leastping_PickOutbound (l : LeastPingStrategy) (candidates : list bytes) : outcome unit (LeastPingStrategy * bytes) :=
  match GetObservation (p_ObserverTag (lp_config l)) with
  | Ok status =>
      let selected := fst (least_ping candidates status) in
      let selected := if bool_decide (selected = []) && StickyChoice (lp_config l) then lastChoice l else selected in
      Ok ({| lp_config := lp_config l; lastChoice := selected |}, selected)
  | Err _ => Ok (l, [])
  | Panic => Panic
  end.

(** ** Fallback, strategy_fallback.go *)

(** src/app/router/strategy_fallback.go FallbackStrategy.PickOutbound *)
Definition fallback_PickOutbound (observerTag : bytes) (candidates : list bytes) : outcome unit bytes :=
  match GetObservation observerTag with
  | Ok status =>
      Ok (default [] (head (filter (fun c => existsb (fun v => bool_decide (c = OutboundTag v) && Alive v) status = true) candidates)))
  | Err _ => Ok []
  | Panic => Panic
  end.

(** ** Least load, strategy_leastload.go *)

(** src/app/router/strategy_leastload.go node *)
Record node := { n_Tag : bytes; CountAll : Z; CountFail : Z; RTTAverage : Z; RTTDeviation : Z; RTTDeviationCost : Z }.

(** src/app/router/config.pb.go StrategyLeastLoadConfig *)
Record StrategyLeastLoadConfig := { Costs : list StrategyWeight; Baselines : list Z; Expected : Z; MaxRTT : Z; l_ObserverTag : bytes }.

(** src/app/router/strategy_leastload.go LeastLoadStrategy *)
Record LeastLoadStrategy := { ll_settings : StrategyLeastLoadConfig; costs : WeightManager }.

(** src/app/router/strategy_leastload.go NewLeastLoadStrategy *)
Definition NewLeastLoadStrategy (s : StrategyLeastLoadConfig) : LeastLoadStrategy :=
  {| ll_settings := s; costs := NewWeightManager (Costs s) (float64_of_int64 1) (fun value cost => mul64 value (pow_half cost)) |}.

(** How far [nodes] are below the baseline, from [count] on.
    src/app/router/strategy_leastload.go:121-126 LeastLoadStrategy.selectLeastLoad *)
Fixpoint below_baseline (baseline : Z) (nodes : list node) (count : nat) : nat :=
  match nodes with
  | [] => count
  | n :: nodes' => if baseline <=? RTTDeviationCost n then count else below_baseline baseline nodes' (S count)
  end.

(** src/app/router/strategy_leastload.go:119-132 LeastLoadStrategy.selectLeastLoad *)
Fixpoint apply_baselines (baselines : list Z) (nodes : list node) (expected count : nat) : nat :=
  match baselines with
  | [] => count
  | b :: baselines' =>
      let count := below_baseline b (drop count nodes) count in
      if (expected <=? count)%nat then count else apply_baselines baselines' nodes expected count
  end.

(** src/app/router/strategy_leastload.go LeastLoadStrategy.selectLeastLoad *)
Definition selectLeastLoad (s : StrategyLeastLoadConfig) (nodes : list node) : list node :=
  if (length nodes =? 0)%nat then []
  else if Z.of_nat (length nodes) <? Expected s then nodes
  else
    let expected := Z.to_nat (if Expected s <=? 0 then 1 else Expected s) in
    if (length (Baselines s) =? 0)%nat then take expected nodes
    else
      let count := apply_baselines (Baselines s) nodes expected 0 in
      take (if (0 <? Expected s) && (count <? expected)%nat then expected else count) nodes.

(** src/app/router/strategy_leastload.go:195-209 leastloadSort *)
Definition node_less (left right : node) : bool :=
  if negb (RTTDeviationCost left =? RTTDeviationCost right) then RTTDeviationCost left <? RTTDeviationCost right
  else if negb (RTTAverage left =? RTTAverage right) then RTTAverage left <? RTTAverage right
  else if negb (CountFail left =? CountFail right) then CountFail left <? CountFail right
  else if negb (CountAll left =? CountAll right) then CountAll right <? CountAll left
  else bytes_less (n_Tag left) (n_Tag right).

(** src/app/router/strategy_leastload.go leastloadSort *)
Definition leastloadSort (nodes : list node) : list node := sort_Slice node_less nodes.

(** The nodes for the reports that qualify; the weights of their tags are
    remembered on the way.
    src/app/router/strategy_leastload.go:165-187 LeastLoadStrategy.getNodes *)
Fixpoint qualified (costs : WeightManager) (candidates : list bytes) (maxRTT : Z) (status : list OutboundStatus) : WeightManager * list node :=
  match status with
  | [] => (costs, [])
  | v :: status' =>
      if Alive v && ((Delay v <? Z.quot maxRTT 1000000) || (maxRTT =? 0)) && outbound_contains candidates (OutboundTag v) then
        let d := i64 (Delay v * Millisecond) in
        let '(costs, cost) := weight_Apply costs (OutboundTag v) (float64_of_int64 d) in
        let record := {| n_Tag := OutboundTag v; CountAll := 1; CountFail := 1; RTTAverage := d; RTTDeviation := d; RTTDeviationCost := int64_of_float64 cost |} in
        let '(costs, record) :=
          match st_HealthPing v with
          | Some h =>
              let '(costs, cost) := weight_Apply costs (OutboundTag v) (float64_of_int64 (hp_Deviation h)) in
              (costs, {| n_Tag := OutboundTag v; CountAll := hp_All h; CountFail := hp_Fail h; RTTAverage := hp_Average h;
                         RTTDeviation := hp_Deviation h; RTTDeviationCost := int64_of_float64 cost |})
          | None => (costs, record)
          end in
        let '(costs, ret) := qualified costs candidates maxRTT status' in (costs, record :: ret)
      else qualified costs candidates maxRTT status'
  end.

(** src/app/router/strategy_leastload.go LeastLoadStrategy.getNodes *)
Definition getNodes (l : LeastLoadStrategy) (candidates : list bytes) (maxRTT : Z) : outcome unit (LeastLoadStrategy * list node) :=
  match GetObservation (l_ObserverTag (ll_settings l)) with
  | Ok status =>
      let '(c, ret) := qualified (costs l) candidates maxRTT status in
      Ok ({| ll_settings := ll_settings l; costs := c |}, leastloadSort ret)
  | Err _ => Ok (l, [])
  | Panic => Panic
  end.

(** src/app/router/strategy_leastload.go LeastLoadStrategy.pickOutbounds *)
Definition pickOutbounds (l : LeastLoadStrategy) (candidates : list bytes) : outcome unit (LeastLoadStrategy * list node) :=
  '(l, qualified) ← getNodes l candidates (MaxRTT (ll_settings l));
  Ok (l, selectLeastLoad (ll_settings l) qualified).

(** src/app/router/strategy_leastload.go LeastLoadStrategy.PickOutbound *)
Definition leastload_PickOutbound (l : LeastLoadStrategy) (Intn : nat -> nat) (candidates : list bytes) : outcome unit (LeastLoadStrategy * bytes) :=
  '(l, selects) ← pickOutbounds l candidates;
  if (length selects =? 0)%nat then Ok (l, []) else n ← index selects (Roll Intn (length selects)); Ok (l, n_Tag n).

(** ** Balancers, balancing.go *)

(** The types that implement the interface.
    src/app/router/balancing.go BalancingStrategy *)
Inductive BalancingStrategy :=
  | RandomStrategy (s : option StrategyRandomConfig)
  | LeastPing (l : LeastPingStrategy)
  | Fallback (observerTag : bytes)
  | LeastLoad (l : LeastLoadStrategy).

Definition strategy_PickOutbound (s : BalancingStrategy) (Intn : nat -> nat) (candidates : list bytes) : outcome unit (BalancingStrategy * bytes) :=
  match s with
  | RandomStrategy c => t ← random_PickOutbound c Intn candidates; Ok (s, t)
  | LeastPing l => '(l, t) ← leastping_PickOutbound l candidates; Ok (LeastPing l, t)
  | Fallback o => t ← fallback_PickOutbound o candidates; Ok (s, t)
  | LeastLoad l => '(l, t) ← leastload_PickOutbound l Intn candidates; Ok (LeastLoad l, t)
  end.

(** src/app/router/strategy_leastload.go LeastLoadStrategy.GetPrincipleTarget *)
Definition leastload_GetPrincipleTarget (l : LeastLoadStrategy) (candidates : list bytes) : outcome unit (LeastLoadStrategy * list bytes) :=
  '(l, nodes) ← pickOutbounds l candidates; Ok (l, map n_Tag nodes).

Definition strategy_GetPrincipleTarget (s : BalancingStrategy) (candidates : list bytes) : outcome unit (BalancingStrategy * list bytes) :=
  match s with
  | RandomStrategy _ => Ok (s, candidates)
  | LeastPing l => '(l, t) ← leastping_PickOutbound l candidates; Ok (LeastPing l, [t])
  | Fallback o => t ← fallback_PickOutbound o candidates; Ok (s, [t])
  | LeastLoad l => '(l, ts) ← leastload_GetPrincipleTarget l candidates; Ok (LeastLoad l, ts)
  end.

(** [override] is the target set from outside, empty when there is none.
    src/app/router/balancing.go Balancer *)
Record Balancer := { selectors : list bytes; strategy : BalancingStrategy; fallbackTag : bytes; override : bytes }.

Context `{MapRange}.

(** The manager always can select.
    src/app/router/balancing.go Balancer.SelectOutbounds *)
Definition SelectOutbounds (ohm : Manager) (b : Balancer) : list bytes := Select ohm (selectors b).

Definition with_strategy (b : Balancer) (s : BalancingStrategy) : Balancer :=
  {| selectors := selectors b; strategy := s; fallbackTag := fallbackTag b; override := override b |}.

(** src/app/router/balancing.go Balancer.PickOutbound *)
Definition PickOutbound (ohm : Manager) (b : Balancer) (Intn : nat -> nat) : outcome unit (Balancer * bytes) :=
  let candidates := SelectOutbounds ohm b in
  '(b, tag) ←
    (if negb (bool_decide (override b = [])) then Ok (b, override b)
     else '(s, tag) ← strategy_PickOutbound (strategy b) Intn candidates; Ok (with_strategy b s, tag));
  if bool_decide (tag = []) then
    if negb (bool_decide (fallbackTag b = [])) then Ok (b, fallbackTag b)
    else match candidates with [] => Err () | t :: _ => Ok (b, t) end
  else Ok (b, tag).

(** src/app/router/balancing_override.go override.Put *)
Definition override_Put (target : bytes) (b : Balancer) : Balancer :=
  {| selectors := selectors b; strategy := strategy b; fallbackTag := fallbackTag b; override := target |}.
(** src/app/router/balancing_override.go override.Clear *)
Definition override_Clear (b : Balancer) : Balancer := override_Put [] b.
End Strategies.
