(* ===== verification/Router.v ===== *)
(** * The router, [app/router/]

    Rules built from their configuration, the walk over them, and the
    balancers they lead to.  The router's closing is a transition system of its
    own. *)

From S2P Require Import Prelude Matchers Mph IndexMatchers Net RoutingContext Conditions OutboundManager Balancing.

Local Open Scope Z_scope.

Inductive route_error := ErrRouterClosed | ErrNoRuleMatched | ErrEmptyTag.

(** A call that has no error to return. *)
Definition no_error {E A} (r : outcome unit A) : outcome E A := match r with Ok a => Ok a | _ => Panic end.

(** A result with its value changed. *)
Definition outcome_map {E A B} (f : A -> B) (r : outcome E A) : outcome E B := f <$> r.

(** ** Configuration *)

(** src/app/router/config.pb.go:24-33 DomainStrategy *)
Inductive DomainStrategy := DomainStrategy_AsIs | DomainStrategy_UseIp | DomainStrategy_IpIfNonMatch | DomainStrategy_IpOnDemand.
#[export] Instance DomainStrategy_eq_dec : EqDecision DomainStrategy.
Proof. solve_decision. Defined.

(** The oneof of a rule's target; nothing set reads as an empty tag. *)
Inductive TargetTag := RoutingRule_Tag (tag : bytes) | RoutingRule_BalancingTag (tag : bytes) | RoutingRule_None.

(** src/app/router/config.pb.go:130-167 RoutingRule *)
Record RoutingRule := {
  rr_TargetTag : TargetTag; rr_Domain : list DomainRule; rr_GeoDomain : list (list DomainRule); rr_DomainMatcher : bytes;
  UserEmail : list bytes; InboundTag : list bytes; PortList : option (list (Z * Z)); SourcePortList : option (list (Z * Z));
  Networks : list Z; Geoip : list GeoIP; SourceGeoip : list GeoIP; SkipDomain : bool; rr_Protocol : list bytes;
  Uid : list Z; Ssid : list bytes; NetworkType : list bytes; SetAttribute_ : list (option (bytes * bytes)) }.

(** A packed message and what unpacking it gives: nothing packed, a message
    that cannot be unpacked, or a message. *)
Inductive StrategySettings :=
  | NoSettings | BadSettings | OtherSettings
  | SettingsRandom (c : StrategyRandomConfig) | SettingsLeastPing (c : StrategyLeastPingConfig)
  | SettingsFallback (observerTag : bytes) | SettingsLeastLoad (c : StrategyLeastLoadConfig).

(** src/app/router/config.pb.go BalancingRule *)
Record BalancingRule := { br_Tag : bytes; OutboundSelector : list bytes; Strategy : bytes; br_StrategySettings : StrategySettings; br_FallbackTag : bytes }.

(** src/app/router/config.pb.go Config *)
Record Config := { cfg_DomainStrategy : DomainStrategy; cfg_Rule : list RoutingRule; cfg_BalancingRule : list BalancingRule }.

Section Router.
Context `{StringLibs, !RegexpFind, MphRuntime, SortSlice, NetIPX, DnsClient, FloatOverflow, Observatory, MapRange}.

(** The balancer is a pointer; the router's map, which does not change once
    rules are built, leads to it.
    src/app/router/config.go Rule *)
Record Rule := { rule_Tag : bytes; rule_Balancer : option bytes; rule_Condition : ConditionChan; SetAttributes : list (option (bytes * bytes)) }.

(** ** Building *)

(** src/app/router/config.go BalancingRule.Build *)
Definition balancing_Build (br : BalancingRule) : outcome build_error Balancer :=
  let mk s fb := {| selectors := OutboundSelector br; strategy := s; fallbackTag := fb; override := [] |} in
  if bool_decide (Strategy br = bs "leastping") then
    match br_StrategySettings br with
    | SettingsLeastPing c => Ok (mk (LeastPing {| lp_config := c; lastChoice := [] |}) (br_FallbackTag br))
    | NoSettings => Panic | _ => Err ErrStrategy
    end
  else if bool_decide (Strategy br = bs "fallback") then
    match br_StrategySettings br with
    | SettingsFallback o => Ok (mk (Fallback o) [])
    | NoSettings => Panic | _ => Err ErrStrategy
    end
  else if bool_decide (Strategy br = bs "leastload") then
    match br_StrategySettings br with
    | SettingsLeastLoad c => Ok (mk (LeastLoad (NewLeastLoadStrategy c)) (br_FallbackTag br))
    | NoSettings => Panic | _ => Err ErrStrategy
    end
  else if bool_decide (Strategy br = bs "random") || bool_decide (Strategy br = []) then
    match br_StrategySettings br with
    | NoSettings => Ok (mk (RandomStrategy None) (br_FallbackTag br))
    | SettingsRandom c => Ok (mk (RandomStrategy (Some c)) (br_FallbackTag br))
    | _ => Err ErrStrategy
    end
  else Err ErrStrategy.

(** One field of a rule: nothing to add, a condition, or an error.  The
    container of GeoIP matchers is threaded. *)
Definition field : Type := GeoIPMatcherContainer -> GeoIPMatcherContainer * outcome build_error (option Condition).
Definition plain_field (r : outcome build_error (option Condition)) : field := fun c => (c, r).
Definition when (b : bool) (c : Condition) : field := plain_field (Ok (if b then Some c else None)).
Definition nonempty {A} (l : list A) : bool := negb (length l =? 0)%nat.

Definition geo_field (geoips : list GeoIP) (onSource skipDomain : bool) : field := fun c =>
  if nonempty geoips then
    let '(c, r) := NewMultiGeoIPMatcher c geoips onSource in
    (c, (fun m => Some (CondGeoIP {| geo_matchers := geo_matchers m; Conditions.onSource := Conditions.onSource m; Conditions.skipDomain := skipDomain |})) <$> r)
  else (c, Ok None).

Fixpoint build_fields (fs : list field) (c : GeoIPMatcherContainer) : GeoIPMatcherContainer * outcome build_error ConditionChan :=
  match fs with
  | [] => (c, Ok [])
  | f :: fs' =>
      match f c with
      | (c, Ok o) => let '(c, r) := build_fields fs' c in (c, (fun l => match o with Some x => x :: l | None => l end) <$> r)
      | (c, Err e) => (c, Err e)
      | (c, Panic) => (c, Panic)
      end
  end.

(** [None]: a matcher of domains is not built with this fuel.
    src/app/router/config.go RoutingRule.BuildCondition *)
Definition BuildCondition (fuel : nat) (rr : RoutingRule) (c : GeoIPMatcherContainer) :
    option (GeoIPMatcherContainer * outcome build_error ConditionChan) :=
  domain ← (if nonempty (rr_Domain rr) then Some <$> NewDomainMatcher fuel (rr_DomainMatcher rr) (rr_Domain rr) else Some None);
  let geoDomains := concat (rr_GeoDomain rr) in
  geo ← (if nonempty geoDomains then Some <$> NewDomainMatcher fuel (rr_DomainMatcher rr) geoDomains else Some None);
  let '(c, r) := build_fields [
    plain_field (Ok (CondDomain <$> domain));
    plain_field (Ok (CondDomain <$> geo));
    when (nonempty (UserEmail rr)) (CondUser (NewUserMatcher (UserEmail rr)));
    when (nonempty (InboundTag rr)) (CondInboundTag (NewInboundTagMatcher (InboundTag rr)));
    plain_field (Ok ((fun l => CondPort (NewPortMatcher l false)) <$> PortList rr));
    plain_field (Ok ((fun l => CondPort (NewPortMatcher l true)) <$> SourcePortList rr));
    plain_field (if nonempty (Networks rr) then (fun m => Some (CondNetwork m)) <$> NewNetworkMatcher (Networks rr) else Ok None);
    geo_field (Geoip rr) false (SkipDomain rr);
    geo_field (SourceGeoip rr) true false;
    when (nonempty (rr_Protocol rr)) (CondProtocol (NewProtocolMatcher (rr_Protocol rr)));
    when (nonempty (Uid rr)) (CondUid (NewUidMatcher (Uid rr)));
    when (nonempty (Ssid rr)) (CondSsid (NewWifiSSIDMatcher (Ssid rr)));
    when (nonempty (NetworkType rr)) (CondNetworkType (NewNetworkTypeMatcher (NetworkType rr)))] c in
  Some (c, conds ← r; if nonempty conds then Ok conds else Err ErrNoEffectiveFields).

(** ** The router *)

(** The counters of its closing are in the last section.
    src/app/router/router.go Router *)
Record Router := { domainStrategy : DomainStrategy; rules : list Rule; balancers : gmap bytes Balancer; closed : bool }.

(** src/app/router/router.go:47-55 Router.Init *)
Fixpoint build_balancers (brs : list BalancingRule) (m : gmap bytes Balancer) : outcome build_error (gmap bytes Balancer) :=
  match brs with
  | [] => Ok m
  | br :: brs' => b ← balancing_Build br; build_balancers brs' (<[br_Tag br := b]> m)
  end.

(** src/app/router/router.go:58-77 Router.Init *)
Fixpoint build_rules (fuel : nat) (rs : list RoutingRule) (balancers : gmap bytes Balancer) (c : GeoIPMatcherContainer) :
    option (GeoIPMatcherContainer * outcome build_error (list Rule)) :=
  match rs with
  | [] => Some (c, Ok [])
  | rr :: rs' =>
      '(c, r) ← BuildCondition fuel rr c;
      match r with
      | Ok cond =>
          let btag := match rr_TargetTag rr with RoutingRule_BalancingTag t => t | _ => [] end in
          let rule := {| rule_Tag := match rr_TargetTag rr with RoutingRule_Tag t => t | _ => [] end;
                         rule_Balancer := if bool_decide (btag = []) then None else Some btag;
                         rule_Condition := cond; SetAttributes := SetAttribute_ rr |} in
          if negb (bool_decide (btag = [])) && negb (bool_decide (is_Some (balancers !! btag))) then Some (c, Err ErrBalancerNotFound)
          else '(c, r) ← build_rules fuel rs' balancers c; Some (c, outcome_map (cons rule) r)
      | Err e => Some (c, Err e)
      | Panic => Some (c, Panic)
      end
  end.

(** src/app/router/router.go Router.Init *)
Definition Router_Init (fuel : nat) (config : Config) (c : GeoIPMatcherContainer) : option (GeoIPMatcherContainer * outcome build_error Router) :=
  match build_balancers (cfg_BalancingRule config) ∅ with
  | Ok bal =>
      '(c, r) ← build_rules fuel (cfg_Rule config) bal c;
      Some (c, outcome_map (fun rs => {| domainStrategy := cfg_DomainStrategy config; rules := rs; balancers := bal; closed := false |}) r)
  | Err e => Some (c, Err e)
  | Panic => Some (c, Panic)
  end.

(** ** Picking a route *)

(** The first rule that applies.
    src/app/router/router.go:135-139 Router.pickRouteInternal *)
Fixpoint walk (rs : list Rule) (s : asked) : outcome unit (option Rule * asked) :=
  match rs with
  | [] => Ok (None, s)
  | rule :: rs' => '(b, s) ← chan_Apply (rule_Condition rule) s; if (b : bool) then Ok (Some rule, s) else walk rs' s
  end.

(** src/app/router/router.go Router.pickRouteInternal *)
Definition pickRouteInternal (r : Router) (s : asked) : outcome route_error (Rule * asked) :=
  if closed r then Err ErrRouterClosed
  else
    let skipDNSResolve := GetSkipDNSResolve (base s.1) in
    let s := if bool_decide (domainStrategy r = DomainStrategy_IpOnDemand) && negb skipDNSResolve then (ContextWithDNSClient s.1, s.2) else s in
    '(found, s) ← no_error (walk (rules r) s);
    match found with
    | Some rule => Ok (rule, s)
    | None =>
        if negb (bool_decide (domainStrategy r = DomainStrategy_IpIfNonMatch)) then Err ErrNoRuleMatched
        else
          domain ← no_error (GetTargetDomain (base s.1));
          if (length domain =? 0)%nat || skipDNSResolve then Err ErrNoRuleMatched
          else
            '(found, s) ← no_error (walk (rules r) (ContextWithDNSClient s.1, s.2));
            match found with Some rule => Ok (rule, s) | None => Err ErrNoRuleMatched end
    end.

(** src/app/router/router.go Route *)
Record Route := { route_Context : asked; outboundTag : bytes; sessionAttributes : gmap bytes bytes }.

Definition with_balancers (r : Router) (m : gmap bytes Balancer) : Router :=
  {| domainStrategy := domainStrategy r; rules := rules r; balancers := m; closed := closed r |}.

(** src/app/router/config.go Rule.GetTag *)
Definition GetTag (ohm : Manager) (Intn : nat -> nat) (r : Router) (rule : Rule) : outcome route_error (Router * bytes) :=
  match rule_Balancer rule with
  | Some btag =>
      match balancers r !! btag with
      | Some b =>
          match PickOutbound ohm b Intn with
          | Ok (b, tag) => Ok (with_balancers r (<[btag := b]> (balancers r)), tag)
          | Err _ => Err ErrEmptyTag
          | Panic => Panic
          end
      | None => Panic
      end
  | None => Ok (r, rule_Tag rule)
  end.

(** A nil map of attributes is an empty one.
    src/app/router/router.go:95-106 Router.PickRoute *)
Definition session_attributes (attrs : list (option (bytes * bytes))) : gmap bytes bytes :=
  foldl (fun m attr => match attr with Some (k, v) => if bool_decide (k = []) then m else <[k := v]> m | None => m end) ∅ attrs.

(** src/app/router/router.go Router.PickRoute *)
Definition PickRoute (ohm : Manager) (Intn : nat -> nat) (r : Router) (s : asked) : outcome route_error (Router * Route) :=
  '(rule, s) ← pickRouteInternal r s;
  '(r, tag) ← GetTag ohm Intn r rule;
  Ok (r, {| route_Context := s; outboundTag := tag; sessionAttributes := session_attributes (SetAttributes rule) |}).

(** ** Balancers from outside *)

(** src/app/router/balancing.go Router.GetPrincipleTarget *)
Definition GetPrincipleTarget (ohm : Manager) (r : Router) (tag : bytes) : outcome unit (Router * list bytes) :=
  match balancers r !! tag with
  | Some b =>
      '(s, ts) ← strategy_GetPrincipleTarget (strategy b) (SelectOutbounds ohm b);
      Ok (with_balancers r (<[tag := with_strategy b s]> (balancers r)), ts)
  | None => Err ()
  end.

(** src/app/router/balancing.go Router.SetOverrideTarget *)
Definition SetOverrideTarget (r : Router) (tag target : bytes) : outcome unit Router :=
  match balancers r !! tag with
  | Some b => Ok (with_balancers r (<[tag := override_Put target b]> (balancers r)))
  | None => Err ()
  end.

(** src/app/router/balancing.go Router.GetOverrideTarget *)
Definition GetOverrideTarget (r : Router) (tag : bytes) : outcome unit bytes :=
  match balancers r !! tag with Some b => Ok (override b) | None => Err () end.

(** src/app/router/balancing_override.go Router.OverrideBalancer *)
Definition OverrideBalancer (r : Router) (balancer target : bytes) : outcome unit Router := SetOverrideTarget r balancer target.

End Router.

(** ** Closing

    [pickRouteInternal] tests [closed] without the lock, then enters the task
    list under it, and leaves it under it when it returns; [Close] sets
    [closed] and then looks at the list under the lock.  Closing a closed
    channel is a panic. *)
Module Closing.
(** [passed]: picks that have seen [closed] false and are not in the list. *)
Record state := { is_closed : bool; passed : nat; taskList : nat; closing : nat; done_closed : nat }.

Definition initial : state := {| is_closed := false; passed := 0; taskList := 0; closing := 0; done_closed := 0 |}.

(** src/app/router/router.go:111-126 Router.pickRouteInternal *)
Inductive step : state -> state -> Prop :=
  | pick_check s : is_closed s = false ->
      step s {| is_closed := false; passed := S (passed s); taskList := taskList s; closing := closing s; done_closed := done_closed s |}
  | pick_enter s n : passed s = S n ->
      step s {| is_closed := is_closed s; passed := n; taskList := S (taskList s); closing := closing s; done_closed := done_closed s |}
  | pick_leave s n : taskList s = S n ->
      step s {| is_closed := is_closed s; passed := passed s; taskList := n; closing := closing s;
                done_closed := if (n =? 0)%nat && is_closed s then S (done_closed s) else done_closed s |}
  | close_set s :
      step s {| is_closed := true; passed := passed s; taskList := taskList s; closing := S (closing s); done_closed := done_closed s |}
  | close_lock s n : closing s = S n ->
      step s {| is_closed := is_closed s; passed := passed s; taskList := taskList s; closing := n;
                done_closed := if (taskList s =? 0)%nat then S (done_closed s) else done_closed s |}.
End Closing.
