(* ===== verification/Dispatcher.v ===== *)
(** * The dispatcher, [app/dispatcher/]

    What sniffing changes about a connection, and how a handler is found for
    it. *)

From S2P Require Import Prelude Matchers Mph Net RoutingContext Conditions OutboundManager Balancing Router.

Local Open Scope Z_scope.

Section Dispatcher.
Context `{StringLibs, !RegexpFind, MphRuntime, SortSlice, NetIPX, DnsClient, FloatOverflow, Observatory, MapRange}.

(** What becomes of a connection: it is given to a handler, or its link is
    closed and interrupted. *)
Inductive dispatched := DispatchedTo (h : Handler) (ctx : Context) | Interrupted.

Definition with_content (ctx : Context) (c : Content) : Context :=
  {| ctx_Inbound := ctx_Inbound ctx; ctx_Outbound := ctx_Outbound ctx; ctx_Content := Some c |}.

Definition new_content : Content :=
  {| ct_Protocol := []; ct_SniffingRequest := {| OverrideDestinationForProtocol := []; Enabled := false; MetadataOnly := false; RouteOnly := false |};
     Attributes := ∅; SkipDNSResolve := false |}.

(** Attributes are set one by one, in the order of the map.
    src/app/dispatcher/default.go:327-339 DefaultDispatcher.routedDispatch *)
Definition set_attributes (ctx : Context) (attrs : gmap bytes bytes) : Context :=
  if bool_decide (attrs = ∅) then ctx
  else with_content ctx (foldl (fun c '(k, v) => SetAttribute k v c) (default new_content (ctx_Content ctx)) (range_map attrs)).

(** [forced] is the tag the platform asks for, and [n] the questions asked
    before; access logging is left out.
    src/app/dispatcher/default.go DefaultDispatcher.routedDispatch *)
Definition routedDispatch (ohm : Manager) (Intn : nat -> nat) (router : option Router) (forced : bytes) (ctx : Context) (n : nat) :
    outcome route_error (option Router * dispatched) :=
  let finish router ctx (handler : option Handler) :=
    match handler with
    | Some h => (router, DispatchedTo h ctx)
    | None => match GetDefaultHandler ohm with Some h => (router, DispatchedTo h ctx) | None => (router, Interrupted) end
    end in
  if negb (bool_decide (forced = [])) then
    match GetHandler ohm forced with
    | Some h => Ok (router, DispatchedTo h ctx)
    | None => Ok (router, Interrupted)
    end
  else
    match router with
    | None => Ok (finish None ctx None)
    | Some r =>
        match PickRoute ohm Intn r (AsRoutingContext ctx, n) with
        | Ok (r, route) => Ok (finish (Some r) (set_attributes ctx (sessionAttributes route)) (GetHandler ohm (outboundTag route)))
        | Err ErrNoRuleMatched => Ok (finish (Some r) ctx None)
        | Err _ => Ok (Some r, Interrupted)
        | Panic => Panic
        end
    end.

(** What a sniffer found; a composite also says by what its domain was found.
    src/app/dispatcher/sniffer.go:17-20 SniffResult *)
Record SniffResult := { sr_Protocol : bytes; sr_Domain : bytes; ProtocolForDomainResult : option bytes }.

(** src/app/dispatcher/sniffer.go CompositeResult *)
Definition CompositeResult (domainResult protocolResult : SniffResult) : SniffResult :=
  {| sr_Protocol := sr_Protocol protocolResult; sr_Domain := sr_Domain domainResult; ProtocolForDomainResult := Some (sr_Protocol domainResult) |}.

(** src/app/dispatcher/default.go shouldOverride *)
Definition shouldOverride (result : SniffResult) (domainOverride : list bytes) : bool :=
  if bool_decide (sr_Domain result = []) then false
  else
    let protocolString := default (sr_Protocol result) (ProtocolForDomainResult result) in
    existsb (fun p => HasPrefix protocolString p || HasSuffix protocolString p) domainOverride.

(** What sniffing changes before the connection is routed; [sniffed] is what
    the sniffer returned, [None] an error, and [IsDomainName] is the DNS
    library's.
    src/app/dispatcher/default.go:216-250 DefaultDispatcher.Dispatch *)
Definition after_sniffing (IsDomainName : bytes -> bool) (destination : Destination) (ob : Outbound) (content : Content) (sniffed : option SniffResult) : Outbound * Content :=
  let req := ct_SniffingRequest content in
  if negb (Enabled req) then (ob, content)
  else
    let ob := if existsb (fun p => bool_decide (p = bs "fakedns")) (OverrideDestinationForProtocol req)
              then {| OriginalTarget := OriginalTarget ob; ob_Target := ob_Target ob; RouteTarget := RouteTarget ob; OverrideFakeDNS := true |} else ob in
    match sniffed with
    | None => (ob, content)
    | Some result =>
        let content := {| ct_Protocol := sr_Protocol result; ct_SniffingRequest := req; Attributes := Attributes content; SkipDNSResolve := SkipDNSResolve content |} in
        if shouldOverride result (OverrideDestinationForProtocol req) && IsDomainName (sr_Domain result) then
          let d := {| dest_Address := ParseAddress (sr_Domain result); dest_Port := dest_Port destination; dest_Network := dest_Network destination |} in
          let protocol := default (sr_Protocol result) (ProtocolForDomainResult result) in
          if RouteOnly req && negb (bool_decide (protocol = bs "fakedns"))
          then ({| OriginalTarget := OriginalTarget ob; ob_Target := ob_Target ob; RouteTarget := d; OverrideFakeDNS := OverrideFakeDNS ob |}, content)
          else ({| OriginalTarget := OriginalTarget ob; ob_Target := d; RouteTarget := RouteTarget ob; OverrideFakeDNS := OverrideFakeDNS ob |}, content)
        else (ob, content)
    end.

(** The whole of a connection's dispatch, the link's pipes apart.
    src/app/dispatcher/default.go DefaultDispatcher.Dispatch *)
Definition Dispatch (IsDomainName : bytes -> bool) (ohm : Manager) (Intn : nat -> nat) (router : option Router) (forced : bytes)
    (inbound : option Inbound) (content : option Content) (destination : Destination) (sniffed : option SniffResult) (n : nat) :
    outcome route_error (option Router * dispatched) :=
  if negb (IsValid destination) then Panic
  else
    let none := {| dest_Address := None; dest_Port := 0; dest_Network := Network_Unknown |} in
    let ob := {| OriginalTarget := destination; ob_Target := destination; RouteTarget := none; OverrideFakeDNS := false |} in
    let '(ob, content) := after_sniffing IsDomainName destination ob (default new_content content) sniffed in
    routedDispatch ohm Intn router forced {| ctx_Inbound := inbound; ctx_Outbound := Some ob; ctx_Content := Some content |} n.
End Dispatcher.
