(* ===== verification/RoutingFacts.v ===== *)
(** * Facts about routing

    The walk over the rules is compared with a reference in which a rule
    applies or does not, with no state: the addresses of a context that can
    resolve are what the DNS client answers, however often it is asked. *)

From S2P Require Import Prelude Matchers AcFacts Mph MphFacts IndexMatchers Net NetFacts RoutingContext Conditions OutboundManager Balancing Router.

Local Open Scope Z_scope.

(** ** Contexts *)

(** A valid destination has an address. *)
Definition dest_ok (d : Destination) : Prop := IsValid d = true -> is_Some (dest_Address d).

Record ctx_ok (ctx : Context) : Prop := {
  ctx_source : forall i, ctx_Inbound ctx = Some i -> dest_ok (Source i);
  ctx_target : forall o, ctx_Outbound ctx = Some o -> dest_ok (ob_Target o) /\ dest_ok (RouteTarget o);
}.

(** The address of a destination that is valid. *)
Definition valid_address (d : Destination) : option Address := if IsValid d then dest_Address d else None.
Definition address_ips (a : option Address) : list bytes :=
  match a with Some (domainAddress _) | None => [] | Some (ipv4Address ip) | Some (ipv6Address ip) => [ip] end.
Definition address_domain (a : option Address) : bytes := match a with Some (domainAddress d) => d | _ => [] end.

Definition source_ips (ctx : Context) : list bytes := address_ips (i ← ctx_Inbound ctx; valid_address (Source i)).
Definition own_ips (ctx : Context) : list bytes := address_ips (o ← ctx_Outbound ctx; valid_address (ob_Target o)).

(** The domain routed by: the one sniffed, or else the target's. *)
Definition target_domain (ctx : Context) : bytes :=
  match ctx_Outbound ctx with
  | Some o =>
      match valid_address (ob_Target o), valid_address (RouteTarget o) with
      | Some _, Some (domainAddress d) => d
      | t, _ => address_domain t
      end
  | None => []
  end.

Lemma dest_ok_valid d : dest_ok d -> valid_address d = None <-> IsValid d = false.
Proof. unfold dest_ok, valid_address. destruct (IsValid d); [|done]. intros [a ->]; done. Qed.

Section Contexts.
Context (ctx : Context) (Hctx : ctx_ok ctx).

Lemma GetSourceIPs_ok : GetSourceIPs ctx = Ok (source_ips ctx).
Proof.
  unfold GetSourceIPs, source_ips. destruct (ctx_Inbound ctx) as [i|] eqn:Hi; [|done]. pose proof (ctx_source ctx Hctx i Hi) as Hs.
  cbn [mbind option_bind]. unfold valid_address, dest_ok in *. destruct (IsValid (Source i)); [|done]. cbn [negb].
  destruct Hs as [a Ha]; [done|]. rewrite Ha. by destruct a.
Qed.

Lemma session_GetTargetIPs_ok : session_GetTargetIPs ctx = Ok (own_ips ctx).
Proof.
  unfold session_GetTargetIPs, own_ips. destruct (ctx_Outbound ctx) as [o|] eqn:Ho; [|done]. pose proof (ctx_target ctx Hctx o Ho) as [Ht _].
  cbn [mbind option_bind]. unfold valid_address, dest_ok in *. destruct (IsValid (ob_Target o)); [|done]. cbn [negb].
  destruct Ht as [a Ha]; [done|]. rewrite Ha. by destruct a.
Qed.

Lemma GetTargetDomain_ok : GetTargetDomain ctx = Ok (target_domain ctx).
Proof.
  unfold GetTargetDomain, target_domain. destruct (ctx_Outbound ctx) as [o|] eqn:Ho; [|done]. pose proof (ctx_target ctx Hctx o Ho) as [Ht Hr].
  unfold valid_address, dest_ok in *. destruct (IsValid (ob_Target o)); [|done]. cbn [negb]. destruct Ht as [a Ha]; [done|].
  destruct (IsValid (RouteTarget o)); cbn [mbind outcome_bind fmap outcome_fmap]; [destruct Hr as [r Hr]; [done|]; rewrite Hr; destruct r|]; rewrite Ha; by destruct a.
Qed.
End Contexts.

(** ** A context that resolves *)

Section Resolving.
Context `{DnsClient} (answer : bytes -> option (list bytes)).

(** The client's answers do not depend on when it is asked. *)
Definition answers : Prop := forall n d, LookupIP n d = answer d.

(** The addresses a rule sees. *)
Definition target_ips (resolving : bool) (ctx : Context) : list bytes :=
  if resolving && nonempty (target_domain ctx) then default (own_ips ctx) (answer (target_domain ctx)) else own_ips ctx.

(** What has been resolved is the answer. *)
Definition coherent (resolving : bool) (ctx : Context) (s : asked) : Prop :=
  base s.1 = ctx /\ match resolvedIPs s.1 with
                    | None => resolving = false
                    | Some [] => resolving = true
                    | Some ips => resolving = true /\ target_domain ctx ≠ [] /\ answer (target_domain ctx) = Some ips
                    end.

(** How often the client was asked in between. *)
Definition asked_once (s s' : asked) : Prop :=
  s' = s \/ (resolvedIPs s.1 = Some [] /\ s'.2 = S s.2).

Lemma GetTargetIPs_ok resolving ctx s : answers -> ctx_ok ctx -> coherent resolving ctx s ->
  exists s', GetTargetIPs s = Ok (target_ips resolving ctx, s') /\ coherent resolving ctx s' /\ base s'.1 = ctx.
Proof.
  intros Ha Hctx Hco. pose proof Hco as [Hb Hr]. destruct s as [c n]. cbn [fst snd] in *. unfold GetTargetIPs, target_ips. rewrite Hb.
  destruct (resolvedIPs c) as [[|ip ips]|] eqn:Hres.
  - subst resolving. rewrite (GetTargetDomain_ok ctx Hctx). cbn [mbind outcome_bind andb]. destruct (target_domain ctx) as [|x d] eqn:Hd.
    { rewrite (session_GetTargetIPs_ok ctx Hctx). by exists (c, n). }
    rewrite Ha. cbn [nonempty length Nat.eqb negb]. destruct (answer (x :: d)) as [ips|] eqn:Hans; cbn [default].
    + eexists. split; [done|]. split; [|done]. split; [done|]. cbn. destruct ips; [done|]. rewrite Hd. done.
    + rewrite (session_GetTargetIPs_ok ctx Hctx). eexists. split; [done|]. split; [|done]. split; [done|]. cbn. by rewrite Hres.
  - destruct Hr as (-> & Hd & Hans). exists (c, n). rewrite Hans. by destruct (target_domain ctx).
  - subst resolving. rewrite (session_GetTargetIPs_ok ctx Hctx). by exists (c, n).
Qed.
End Resolving.

(** ** Conditions without state *)

Section Conditions.
Context `{StringLibs, MphRuntime, NetIPX, DnsClient} (answer : bytes -> option (list bytes)) (Hans : answers answer).
Context (ctx : Context) (Hctx : ctx_ok ctx).

(** Whether a condition holds of the context. *)
Definition holds (resolving : bool) (c : Condition) : bool :=
  let rc := AsRoutingContext ctx in
  match c with
  | CondDomain m => nonempty (target_domain ctx) && domain_condition_Match m (ToLower (target_domain ctx))
  | CondGeoIP m =>
      let ips := if onSource m then source_ips ctx else if skipDomain m then own_ips ctx else target_ips answer resolving ctx in
      existsb (fun ip => existsb (fun m => geo_Match m ip) (geo_matchers m)) ips
  | CondPort m => port_Apply m rc
  | CondNetwork m => default false (m !! Z.to_nat (Network_number (GetNetwork ctx)))
  | CondUser m => user_Apply m rc
  | CondInboundTag m => inbound_Apply m rc
  | CondProtocol m => protocol_Apply m rc
  | CondUid m => uid_Apply m rc
  | CondSsid m => ssid_Apply m rc
  | CondNetworkType m => networkType_Apply m rc
  end.

(** The flags of the networks are an array of eight. *)
Definition cond_ok (c : Condition) : Prop := match c with CondNetwork m => length m = 8%nat | _ => True end.

Lemma Apply_ok resolving c s : cond_ok c -> coherent answer resolving ctx s ->
  exists s', Apply c s = Ok (holds resolving c, s') /\ coherent answer resolving ctx s'.
Proof using Hans Hctx.
  intros Hc Hco. pose proof Hco as [Hb Hr]. destruct c as [m|m|m|m|m|m|m|m|m|m]; cbn [Apply holds];
    unfold port_Apply, user_Apply, inbound_Apply, protocol_Apply, uid_Apply, ssid_Apply, networkType_Apply; cbn [base AsRoutingContext];
    rewrite ?Hb; try (exists s; split; [reflexivity|exact Hco]).
  - unfold domain_Apply. rewrite Hb, (GetTargetDomain_ok ctx Hctx). cbn [mbind outcome_bind].
    exists s. split; [by destruct (target_domain ctx)|exact Hco].
  - unfold geo_Apply. rewrite Hb. destruct (onSource m).
    { rewrite (GetSourceIPs_ok ctx Hctx). by exists s. }
    destruct (GetTargetIPs_ok answer resolving ctx s Hans Hctx Hco) as (s' & Hg & Hco' & _). destruct (skipDomain m).
    + destruct (resolvedIPs s.1) as [ips|] eqn:Hres.
      * unfold GetTargetIPsSkipDomain. rewrite Hb, (session_GetTargetIPs_ok ctx Hctx). by exists s.
      * subst resolving. rewrite Hg. by exists s'.
    + rewrite Hg. by exists s'.
  - unfold network_Apply. rewrite Hb. exists s. split; [|exact Hco]. cbn in Hc.
    assert (is_Some (m !! Z.to_nat (Network_number (GetNetwork ctx)))) as [b ->]; [|done].
    apply lookup_lt_is_Some_2. rewrite Hc. destruct (GetNetwork ctx); cbn; lia.
Qed.

Definition all_hold (resolving : bool) (v : ConditionChan) : bool := forallb (holds resolving) v.

Lemma chan_Apply_ok resolving v s : Forall cond_ok v -> coherent answer resolving ctx s ->
  exists s', chan_Apply v s = Ok (all_hold resolving v, s') /\ coherent answer resolving ctx s'.
Proof using Hans Hctx.
  intros Hv. revert s. induction Hv as [|c v Hc Hv IH]; intros s Hco; cbn [chan_Apply all_hold forallb]; [by exists s|].
  destruct (Apply_ok resolving c s Hc Hco) as (s' & -> & Hco'). cbn [mbind outcome_bind].
  destruct (holds resolving c); [|by exists s']. cbn [andb]. by apply IH.
Qed.

(** ** The walk *)

Definition rule_ok (r : Rule) : Prop := Forall cond_ok (rule_Condition r).
Definition applies (resolving : bool) (r : Rule) : bool := all_hold resolving (rule_Condition r).
Definition first_match (resolving : bool) (rs : list Rule) : option Rule := head (filter (fun r => applies resolving r = true) rs).

Lemma walk_ok resolving rs s : Forall rule_ok rs -> coherent answer resolving ctx s ->
  exists s', walk rs s = Ok (first_match resolving rs, s') /\ coherent answer resolving ctx s'.
Proof using Hans Hctx.
  intros Hrs. revert s. induction Hrs as [|r rs Hr Hrs IH]; intros s Hco; cbn [walk]; [by exists s|].
  destruct (chan_Apply_ok resolving _ s Hr Hco) as (s' & -> & Hco'). cbn [mbind outcome_bind]. fold (applies resolving r).
  unfold first_match. rewrite filter_cons. destruct (applies resolving r); [by exists s'|]. by apply IH.
Qed.

Lemma first_match_Some resolving rs r : first_match resolving rs = Some r <->
  exists before after, rs = before ++ r :: after /\ applies resolving r = true /\ Forall (fun r' => applies resolving r' = false) before.
Proof. apply head_filter_Some. Qed.

Lemma first_match_None resolving rs : first_match resolving rs = None <-> Forall (fun r => applies resolving r = false) rs.
Proof.
  unfold first_match. rewrite head_None. split.
  - intros Hf. apply Forall_forall. intros r Hr. destruct (applies resolving r) eqn:Ha; [|done]. by destruct (filter_nil_not_elem_of _ _ r Hf Ha).
  - rewrite Forall_forall. intros Ha. apply filter_none. intros r Hr. by rewrite (Ha r Hr).
Qed.

(** The rule the router's strategy leads to: with IpOnDemand rules see the
    resolved addresses from the start, with IpIfNonMatch only if no rule
    applies without them. *)
Definition reference_rule (r : Router) : option Rule :=
  let skip := GetSkipDNSResolve ctx in
  match first_match (bool_decide (domainStrategy r = DomainStrategy_IpOnDemand) && negb skip) (rules r) with
  | Some rule => Some rule
  | None =>
      if bool_decide (domainStrategy r = DomainStrategy_IpIfNonMatch) && nonempty (target_domain ctx) && negb skip
      then first_match true (rules r) else None
  end.
End Conditions.

Section Walk.
Context `{StringLibs, !RegexpFind, MphRuntime, SortSlice, NetIPX, DnsClient, FloatOverflow, Observatory, MapRange}.
Context (answer : bytes -> option (list bytes)) (Hans : answers answer) (ctx : Context) (Hctx : ctx_ok ctx).

Lemma coherent_plain n : coherent answer false ctx (AsRoutingContext ctx, n).
Proof. done. Qed.
Lemma coherent_resolving s resolving : coherent answer resolving ctx s -> coherent answer true ctx (ContextWithDNSClient s.1, s.2).
Proof. by intros [Hb _]. Qed.

Lemma pickRouteInternal_ok (r : Router) n : Forall rule_ok (rules r) -> closed r = false ->
  match reference_rule answer ctx r with
  | Some rule => exists s, pickRouteInternal r (AsRoutingContext ctx, n) = Ok (rule, s) /\ base s.1 = ctx
  | None => pickRouteInternal r (AsRoutingContext ctx, n) = Err ErrNoRuleMatched
  end.
Proof using Hans Hctx.
  intros Hr Hcl. unfold pickRouteInternal, reference_rule. rewrite Hcl. cbn [fst snd base AsRoutingContext].
  set (skip := GetSkipDNSResolve ctx). set (demand := bool_decide _ && negb skip).
  assert (exists s0, (if demand then (ContextWithDNSClient (AsRoutingContext ctx), n) else (AsRoutingContext ctx, n)) = s0 /\ coherent answer demand ctx s0) as (s0 & -> & Hs0).
  { eexists. split; [done|]. by destruct demand. }
  destruct (walk_ok answer Hans ctx Hctx demand (rules r) s0 Hr Hs0) as (s1 & -> & Hs1). cbn [no_error mbind outcome_bind].
  destruct (first_match answer ctx demand (rules r)) as [rule|]; [exists s1; by destruct Hs1|].
  case_bool_decide as Hst; cbn [negb andb]; [|done]. pose proof Hs1 as [Hb _]. rewrite Hb, (GetTargetDomain_ok ctx Hctx). cbn [no_error mbind outcome_bind].
  unfold nonempty. destruct (length (target_domain ctx) =? 0)%nat; cbn [orb negb andb]; [done|]. destruct skip; cbn [negb]; [done|].
  destruct (walk_ok answer Hans ctx Hctx true (rules r) _ Hr (coherent_resolving s1 demand Hs1)) as (s2 & -> & Hs2). cbn [no_error mbind outcome_bind].
  destruct (first_match answer ctx true (rules r)) as [rule|]; [exists s2; by destruct Hs2|done].
Qed.
End Walk.

(** ** Domains *)

Section DomainConditions.
Context `{StringLibs, MphRuntime, SortSlice}.

Definition matchers_of (ds : list DomainRule) : list Matcher :=
  omap (fun d => match domainToMatcher d with Ok m => Some m | _ => None end) ds.

(** A configured domain accepts a name; one that is no matcher accepts none. *)
Definition domain_accepts (d : DomainRule) (name : bytes) : bool :=
  match domainToMatcher d with Ok m => matcher_Match m name | _ => false end.

Lemma add_domains_linear ds g : add_domains (LinearIndex g) ds = Some (LinearIndex (foldl (fun g m => (lin_Add g m).1) g (matchers_of ds))).
Proof.
  revert g. induction ds as [|d ds IH]; intros g; [done|]. cbn [add_domains matchers_of omap list_omap].
  destruct (domainToMatcher d) as [m|e|]; [|apply IH..]. cbn [index_Add mbind option_bind]. apply IH.
Qed.

Lemma add_domains_mph ds g : add_domains (MphIndex g) ds =
  MphIndex <$> foldl (fun og m => g ← og; '(g', _) ← mph_Add g m; Some g') (Some g) (matchers_of ds).
Proof.
  revert g. induction ds as [|d ds IH]; intros g; [done|]. cbn [add_domains matchers_of omap list_omap].
  destruct (domainToMatcher d) as [m|e|]; [|apply IH..]. cbn [foldl index_Add mbind option_bind].
  destruct (mph_Add g m) as [[g' v]|]; cbn [mbind option_bind]; [apply IH|].
  clear. fold (matchers_of ds). by induction (matchers_of ds).
Qed.

Lemma matchers_accept ds name : existsb (fun d => domain_accepts d name) ds = true <-> exists v, accepted (numbered (matchers_of ds)) name v.
Proof.
  transitivity (exists m, m ∈ matchers_of ds /\ matcher_Match m name = true).
  - rewrite existsb_exists. unfold matchers_of, domain_accepts. setoid_rewrite list_elem_of_omap. split.
    + intros (d & Hd%list_elem_of_In & Ha). destruct (domainToMatcher d) as [m|e|] eqn:Hm; [|done..]. exists m. split; [|done]. exists d. by rewrite Hm.
    + intros (m & (d & Hd & Hm) & Ha). exists d. split; [by apply list_elem_of_In|]. destruct (domainToMatcher d); [|done..]. by injection Hm as ->.
  - setoid_rewrite elem_of_numbered. unfold accepted. naive_solver.
Qed.

Lemma domain_condition_Match_ok fuel ty ds m name : NewDomainMatcher fuel ty ds = Some m -> indexable (bool_decide (ty = bs "linear")) (matchers_of ds) ->
  Forall (fun b => is_upper b = false) name ->
  domain_condition_Match m name = existsb (fun d => domain_accepts d name) ds.
Proof.
  intros Hm Hp Hname. apply eq_true_iff_eq. rewrite matchers_accept. unfold NewDomainMatcher in Hm. unfold domain_condition_Match. pose proof (indexable_lin _ _ Hp) as Hlin. case_bool_decide.
  - rewrite add_domains_linear in Hm. cbn in Hm. injection Hm as <-. cbn. by apply lin_MatchAny_ok.
  - rewrite add_domains_mph in Hm. fold (mph_add_all (matchers_of ds)) in Hm.
    destruct (mph_add_all (matchers_of ds)) as [g0|] eqn:Hg0; [|done]. cbn [fmap option_fmap mbind option_bind index_Build option_map] in Hm.
    destruct (mphi_Build fuel g0) as [g|] eqn:Hb; [|done]. injection Hm as <-. cbn.
    by apply (mphi_MatchAny_elem (matchers_of ds) Hp fuel g0 g Hg0 Hb name Hname).
Qed.

(** Names of ASCII letters are lower case once they are lowered. *)
Lemma ToLower_ascii name : forallb isASCII name = true -> Forall (fun b => is_upper b = false) (ToLower name).
Proof.
  intros Ha. unfold ToLower. rewrite Ha. apply Forall_forall. intros b (c & -> & _)%list_elem_of_fmap.
  unfold is_upper, lower_byte. pose proof (byte_to_Z_range c). destruct ((65 <=? byte_to_Z c) && (byte_to_Z c <=? 90)) eqn:Hc; [|done].
  apply andb_true_iff in Hc as [Hlo%Z.leb_le Hhi%Z.leb_le]. rewrite byte_to_of_Z. unfold u8. rewrite Z.mod_small by lia.
  apply andb_false_iff. right. apply Z.leb_gt. lia.
Qed.
End DomainConditions.

(** ** Addresses *)

Section GeoIPs.
Context `{NetIPXLaws}.

Definition cidr_prefix (c : CIDR) : Prefix := PrefixFrom (Unmap (Ip c)) (c_Prefix c).

(** An address in its own form: four bytes, or sixteen that are no IPv4. *)
Definition plain_ip (ip : bytes) : bool := (length ip =? 4)%nat || (length ip =? 16)%nat && negb (bool_decide (is_Some (To4 ip))).

(** A configured set accepts an address. *)
Definition geo_accepts (g : GeoIP) (ip : bytes) : bool :=
  xorb (InverseMatch g) (plain_ip ip && existsb (fun c => prefix_Contains (cidr_prefix c) ip) (Cidr g)).

Lemma length_Unmap ip : length ip = 4%nat \/ length ip = 16%nat -> length (Unmap ip) = 4%nat \/ Unmap ip = ip /\ length ip = 16%nat /\ To4 ip = None.
Proof.
  intros Hl. unfold Unmap, To4. destruct Hl as [Hl|Hl]; rewrite Hl; cbn [Nat.eqb andb]; [by left|].
  case_bool_decide; [left; change (length (drop 12 ip) = 4%nat); rewrite length_drop; lia|by right].
Qed.

Lemma split_cidrs_ok cidrs p4 p6 : split_cidrs cidrs = Ok (p4, p6) ->
  p4 = filter (fun p => length (p_addr p) = 4%nat) (map cidr_prefix cidrs) /\
  p6 = filter (fun p => length (p_addr p) ≠ 4%nat) (map cidr_prefix cidrs).
Proof.
  revert p4 p6. induction cidrs as [|c cidrs IH]; intros p4 p6; cbn [split_cidrs]; [by intros [= <- <-]|].
  unfold AddrFromSlice. destruct (_ || _); [|done]. destruct (split_cidrs cidrs) as [[q4 q6]|e|]; cbn [mbind outcome_bind]; [|done..].
  destruct (IH q4 q6 eq_refl) as [-> ->]. cbn [map]. rewrite !filter_cons. cbn [p_addr cidr_prefix PrefixFrom].
  destruct (Nat.eqb_spec (length (Unmap (Ip c))) 4); intros [= <- <-]; split; repeat case_decide; try done; lia.
Qed.

Lemma Init_ok code inverse cidrs m ip : Init code inverse cidrs = Ok m ->
  geo_Match m ip = geo_accepts {| CountryCode := code; Cidr := cidrs; InverseMatch := inverse |} ip.
Proof.
  unfold Init. destruct (split_cidrs cidrs) as [[p4 p6]|e|] eqn:Hs; cbn [mbind outcome_bind]; [|done..].
  destruct (split_cidrs_ok _ _ _ Hs) as [-> ->]. destruct (IPSet_of (filter _ _)) as [s4|] eqn:H4; [|done].
  destruct (IPSet_of (filter (fun p => _ ≠ _) _)) as [s6|] eqn:H6; [|done]. intros [= <-].
  unfold geo_Match, geo_accepts, match4, match6, plain_ip. cbn [reverseMatch ip4 ip6 InverseMatch Cidr]. rewrite !FromStdIP_eq. unfold AddrFromSlice.
  assert (forall b, (if inverse then negb b else b) = xorb inverse b) as -> by (by intros []; destruct inverse). f_equal.
  destruct (Nat.eqb_spec (length ip) 4) as [Hl|Hl]; cbn [orb andb fmap option_fmap option_map].
  - assert (Unmap ip = ip) as -> by (unfold Unmap, To4; by rewrite Hl). rewrite (IPSet_of_Contains _ _ _ H4), existsb_filter.
    + by rewrite existsb_map.
    + unfold prefix_Contains. intros p [Hp%Nat.eqb_eq _]%andb_true_iff. lia.
  - destruct (Nat.eqb_spec (length ip) 16) as [Hl16|]; cbn [andb fmap option_fmap option_map]; [|done].
    rewrite (IPSet_of_Contains _ _ _ H6). case_bool_decide as Hm; cbn [negb andb].
    + apply not_true_is_false. rewrite existsb_exists. intros (p & [Hp _]%list_elem_of_In%list_elem_of_filter & Hc).
      unfold prefix_Contains in Hc. apply andb_true_iff in Hc as [Hc%Nat.eqb_eq _]. destruct Hm as [v4 Hm].
      destruct (length_Unmap ip) as [Hu|(_ & _ & Hn)]; [by right|lia|congruence].
    + assert (Unmap ip = ip) as -> by (unfold Unmap; by destruct (To4 ip); [destruct Hm|]). rewrite existsb_filter.
      * by rewrite existsb_map.
      * unfold prefix_Contains. intros p [Hp%Nat.eqb_eq _]%andb_true_iff. lia.
Qed.

(** The container's entries are what their code stands for. *)
Definition container_ok (data : bytes -> list CIDR) (c : GeoIPMatcherContainer) : Prop :=
  Forall (fun m => Init (countryCode m) (reverseMatch m) (data (countryCode m)) = Ok m) c.
(** A set with a code has the content that the code stands for. *)
Definition geoip_ok (data : bytes -> list CIDR) (g : GeoIP) : Prop := CountryCode g ≠ [] -> Cidr g = data (CountryCode g).

Lemma Init_fields code inverse cidrs m : Init code inverse cidrs = Ok m -> countryCode m = code /\ reverseMatch m = inverse.
Proof.
  unfold Init. destruct (split_cidrs cidrs) as [[p4 p6]|e|]; cbn [mbind outcome_bind]; [|done..]. repeat case_match; try done. by intros [= <-].
Qed.

Lemma container_Add_ok data c g c' r : container_ok data c -> geoip_ok data g -> container_Add c g = (c', r) ->
  container_ok data c' /\ match r with Ok m => forall ip, geo_Match m ip = geo_accepts g ip | _ => True end.
Proof.
  intros Hc Hg. destruct g as [code cidrs inv]. unfold container_Add, geoip_ok in *. cbn [CountryCode Cidr InverseMatch] in *.
  case_bool_decide as Hcode.
  - destruct (Init code inv cidrs) as [m|e|] eqn:Hi; intros [= <- <-]; [|done..]. split; [done|]. intros ip. by apply Init_ok.
  - destruct (head (filter _ c)) as [m|] eqn:Hf.
    + intros [= <- <-]. split; [done|]. apply head_Some_elem_of, list_elem_of_filter in Hf as [[Hm1 Hm2] Hm].
      unfold container_ok in Hc. rewrite Forall_forall in Hc. specialize (Hc m Hm). rewrite Hm1, Hm2, <-(Hg Hcode) in Hc. intros ip. by apply Init_ok.
    + destruct (Init code inv cidrs) as [m|e|] eqn:Hi; intros [= <- <-]; [|done..]. split; [|intros ip; by apply Init_ok].
      apply Forall_app. split; [done|]. apply Forall_singleton. destruct (Init_fields _ _ _ _ Hi) as [-> ->]. by rewrite <-(Hg Hcode).
Qed.

Lemma add_geoips_ok data c gs c' r : container_ok data c -> Forall (geoip_ok data) gs -> add_geoips c gs = (c', r) ->
  container_ok data c' /\ match r with Ok ms => forall ip, existsb (fun m => geo_Match m ip) ms = existsb (fun g => geo_accepts g ip) gs | _ => True end.
Proof.
  intros Hc Hgs. revert c c' r Hc. induction Hgs as [|g gs Hg Hgs IH]; intros c c' r Hc; cbn [add_geoips]; [by intros [= <- <-]|].
  destruct (container_Add c g) as [c1 [m|e|]] eqn:Ha; destruct (container_Add_ok data c g c1 _ Hc Hg Ha) as [Hc1 Hm]; [|by intros [= <- <-]..].
  destruct (add_geoips c1 gs) as [c2 r2] eqn:Hr. destruct (IH c1 c2 r2 Hc1 Hr) as [Hc2 Hms]. intros [= <- <-]. split; [done|].
  destruct r2 as [ms|e|]; cbn; [|done..]. intros ip. by rewrite Hm, Hms.
Qed.
End GeoIPs.

(** ** What a configured rule means *)

Section Rules.
Context `{StringLibs, !RegexpFind, MphRuntime, SortSlice, NetIPXLaws, DnsClient, FloatOverflow, Observatory, MapRange}.
Context (answer : bytes -> option (list bytes)) (ctx : Context) (resolving : bool).

(** A name that is not empty is one of the list. *)
Definition listed (x : bytes) (l : list bytes) : bool := nonempty x && bool_decide (x ∈ l).
Definition domain_listed (ds : list DomainRule) : bool :=
  nonempty (target_domain ctx) && existsb (fun d => domain_accepts d (ToLower (target_domain ctx))) ds.
Definition port_listed (l : list (Z * Z)) (port : Z) : bool := existsb (fun '(from, to) => (u16 from <=? port) && (port <=? u16 to)) l.
Definition ip_listed (gs : list GeoIP) (ips : list bytes) : bool := existsb (fun ip => existsb (fun g => geo_accepts g ip) gs) ips.
(** A field that is not set does not restrict the rule. *)
Definition if_set {A} (l : list A) (b : bool) : bool := negb (nonempty l) || b.

(** Every field that is set accepts the connection. *)
Definition rule_means (rr : RoutingRule) : list bool := [
  if_set (rr_Domain rr) (domain_listed (rr_Domain rr));
  if_set (concat (rr_GeoDomain rr)) (domain_listed (concat (rr_GeoDomain rr)));
  if_set (UserEmail rr) (listed (GetUser ctx) (UserEmail rr));
  if_set (InboundTag rr) (listed (GetInboundTag ctx) (InboundTag rr));
  from_option (fun l => port_listed l (GetTargetPort ctx)) true (PortList rr);
  from_option (fun l => port_listed l (GetSourcePort ctx)) true (SourcePortList rr);
  if_set (Networks rr) (bool_decide (Network_number (GetNetwork ctx) ∈ Networks rr));
  if_set (Geoip rr) (ip_listed (Geoip rr) (if SkipDomain rr then own_ips ctx else target_ips answer resolving ctx));
  if_set (SourceGeoip rr) (ip_listed (SourceGeoip rr) (source_ips ctx));
  if_set (rr_Protocol rr) (nonempty (GetProtocol ctx) && existsb (fun p => nonempty p && HasPrefix (GetProtocol ctx) p) (rr_Protocol rr));
  if_set (Uid rr) (match GetUid ctx with Some u => bool_decide (u ∈ Uid rr) | None => false end);
  if_set (Ssid rr) (bool_decide (GetSsid ctx ∈ Ssid rr));
  if_set (NetworkType rr) (bool_decide (GetNetworkType ctx ∈ NetworkType rr))].

Context (data : bytes -> list CIDR).

(** A field of the configuration and its meaning. *)
Definition field_means (f : field) (b : bool) : Prop := forall c c' r, container_ok data c -> f c = (c', r) ->
  container_ok data c' /\ match r with
                          | Ok (Some x) => cond_ok x /\ holds answer ctx resolving x = b
                          | Ok None => b = true
                          | _ => True
                          end.

Lemma build_fields_ok fs bs c c' r : Forall2 field_means fs bs -> container_ok data c -> build_fields fs c = (c', r) ->
  container_ok data c' /\ match r with Ok l => Forall cond_ok l /\ all_hold answer ctx resolving l = forallb id bs | _ => True end.
Proof.
  intros Hfs. revert c c' r. induction Hfs as [|f b fs bs Hf Hfs IH]; intros c c' r Hc; cbn [build_fields]; [by intros [= <- <-]|].
  destruct (f c) as [c1 [o|e|]] eqn:Hfc; destruct (Hf c c1 _ Hc Hfc) as [Hc1 Ho]; [|by intros [= <- <-]..].
  destruct (build_fields fs c1) as [c2 r2] eqn:Hb. destruct (IH c1 c2 r2 Hc1 Hb) as [Hc2 Hl]. intros [= <- <-]. split; [done|].
  destruct r2 as [l|e|]; cbn; [|done..]. destruct Hl as [Hl1 Hl2]. destruct o as [x|].
  - destruct Ho as [Hx <-]. split; [by constructor|]. cbn. by rewrite <-Hl2.
  - by rewrite Ho.
Qed.

Lemma plain_field_means o b : match o with Some x => cond_ok x /\ holds answer ctx resolving x = b | None => b = true end -> field_means (plain_field (Ok o)) b.
Proof. intros Ho c c' r Hc [= <- <-]. done. Qed.

Lemma when_means {A} (l : list A) x b : cond_ok x -> holds answer ctx resolving x = b -> field_means (when (nonempty l) x) (if_set l b).
Proof. intros Hx <-. apply plain_field_means. unfold if_set. by destruct (nonempty l). Qed.

Lemma listed_filter x l : is_one_of x (filter (fun y => y ≠ []) l) = listed x l.
Proof.
  unfold is_one_of, listed, nonempty. destruct x as [|c x]; [done|]. cbn [length Nat.eqb negb andb].
  rewrite existsb_filter by (intros y ->%bool_decide_eq_true; done). apply eq_true_iff_eq. rewrite bool_decide_eq_true, existsb_exists. split.
  - intros (y & Hy%list_elem_of_In & ->%bool_decide_eq_true). done.
  - intros Hin. exists (c :: x). split; [by apply list_elem_of_In|by apply bool_decide_eq_true].
Qed.

Lemma geo_field_means gs (src skip : bool) ips : Forall (geoip_ok data) gs ->
  (if src then source_ips ctx else if skip then own_ips ctx else target_ips answer resolving ctx) = ips ->
  field_means (geo_field gs src skip) (if_set gs (ip_listed gs ips)).
Proof.
  intros Hgs <- c c' r Hc. unfold geo_field, if_set, NewMultiGeoIPMatcher. destruct (nonempty gs); cbn [negb orb]; [|by intros [= <- <-]].
  destruct (add_geoips c gs) as [c1 r1] eqn:Ha. destruct (add_geoips_ok data c gs c1 r1 Hc Hgs Ha) as [Hc1 Hr1]. intros [= <- <-]. split; [done|].
  destruct r1 as [ms|e|]; cbn; [|done..]. split; [done|]. unfold ip_listed.
  generalize (if src then source_ips ctx else if skip then own_ips ctx else target_ips answer resolving ctx) as ips.
  induction ips as [|ip ips IH]; [done|]. cbn [existsb]. by rewrite Hr1, IH.
Qed.

Lemma port_list_listed l p : list_Contains (PortListFromProto l) p = port_listed l p.
Proof. unfold list_Contains, PortListFromProto. rewrite existsb_map. induction l as [|[a b] l IH]; [done|]. cbn. by rewrite IH. Qed.

Lemma network_field_means ns : field_means (plain_field (if nonempty ns then (fun m => Some (CondNetwork m)) <$> NewNetworkMatcher ns else Ok None))
  (if_set ns (bool_decide (Network_number (GetNetwork ctx) ∈ ns))).
Proof.
  unfold if_set. destruct (nonempty ns); [|by apply plain_field_means]. cbn [negb orb]. intros c c' r Hc [= <- <-]. split; [done|].
  set (k := Network_number (GetNetwork ctx)). assert (0 <= k < 8) as Hk by (unfold k; destruct (GetNetwork ctx); cbn; lia).
  assert (forall ns (m : outcome build_error (list bool)),
    match foldl (fun m n => l ← m; if (0 <=? n) && (n <? 8) then Ok (<[Z.to_nat n := true]> l) else Panic) m ns with
    | Ok l' => exists l, m = Ok l /\ (length l = 8%nat -> length l' = 8%nat /\ l' !! Z.to_nat k = Some (bool_decide (k ∈ ns) || default false (l !! Z.to_nat k)))
    | _ => True end) as Hfold.
  { clear ns. induction ns as [|n ns IH] using rev_ind; intros m; cbn [foldl].
    - destruct m as [l|e|]; [|done..]. exists l. split; [done|]. intros Hl. split; [done|].
      rewrite (bool_decide_eq_false_2 (k ∈ [])) by set_solver.
      assert (is_Some (l !! Z.to_nat k)) as [b ->] by (apply lookup_lt_is_Some_2; lia). done.
    - rewrite foldl_snoc. specialize (IH m). destruct (foldl _ m ns) as [l'|e|]; cbn [mbind outcome_bind]; [|done..].
      destruct IH as (l & -> & Hl). destruct ((0 <=? n) && (n <? 8)) eqn:Hn; [|done]. apply andb_true_iff in Hn as [Hn1%Z.leb_le Hn2%Z.ltb_lt].
      exists l. split; [done|]. intros Hlen. destruct (Hl Hlen) as [Hl1 Hl2]. split; [by rewrite length_insert|].
      destruct (decide (n = k)) as [->|Hne].
      + rewrite list_lookup_insert_eq by lia. f_equal. symmetry. apply orb_true_iff. left. apply bool_decide_eq_true. set_solver.
      + rewrite list_lookup_insert_ne by lia. rewrite Hl2. f_equal. f_equal. apply bool_decide_ext. set_solver. }
  specialize (Hfold ns (Ok (replicate 8 false))). unfold NewNetworkMatcher. destruct (foldl _ _ ns) as [l'|e|]; cbn; [|done..].
  destruct Hfold as (l & Hl0 & Hl). apply (inj Ok) in Hl0 as <-. destruct (Hl eq_refl) as [Hl1 Hl2]. split; [done|]. fold k.
  change (@lookup nat bool NetworkMatcher _ (Z.to_nat k) l') with (l' !! Z.to_nat k). rewrite Hl2, lookup_replicate_2 by lia.
  apply orb_false_r.
Qed.

(** What a rule's configuration must be like: domains that the matcher it names
    is exact on, and sets of addresses that agree on what a code stands for. *)
Record rule_config_ok (rr : RoutingRule) : Prop := {
  rc_domain : indexable (bool_decide (rr_DomainMatcher rr = bs "linear")) (matchers_of (rr_Domain rr));
  rc_geodomain : indexable (bool_decide (rr_DomainMatcher rr = bs "linear")) (matchers_of (concat (rr_GeoDomain rr)));
  rc_geoip : Forall (geoip_ok data) (Geoip rr);
  rc_source : Forall (geoip_ok data) (SourceGeoip rr);
}.

Lemma domain_field_means fuel ty ds o : indexable (bool_decide (ty = bs "linear")) (matchers_of ds) -> Forall (fun b => is_upper b = false) (ToLower (target_domain ctx)) ->
  (if nonempty ds then Some <$> NewDomainMatcher fuel ty ds else Some None) = Some o ->
  field_means (plain_field (Ok (CondDomain <$> o))) (if_set ds (domain_listed ds)).
Proof.
  intros Hp Hl Ho. apply plain_field_means. unfold if_set. destruct (nonempty ds); [|by injection Ho as <-].
  destruct (NewDomainMatcher fuel ty ds) as [m|] eqn:Hm; [|done]. injection Ho as <-. cbn [fmap option_fmap option_map negb orb].
  split; [done|]. cbn [holds]. unfold domain_listed. by rewrite (domain_condition_Match_ok fuel ty ds m _ Hm Hp Hl).
Qed.

Lemma protocol_listed protos : protocol_Apply (NewProtocolMatcher protos) (AsRoutingContext ctx) =
  nonempty (GetProtocol ctx) && existsb (fun p => nonempty p && HasPrefix (GetProtocol ctx) p) protos.
Proof.
  unfold protocol_Apply, NewProtocolMatcher. cbn [base AsRoutingContext]. destruct (GetProtocol ctx) as [|x p]; [done|]. cbn [nonempty length Nat.eqb negb andb].
  induction protos as [|q protos IH]; [done|]. rewrite filter_cons. destruct q as [|y q]; [rewrite decide_False by naive_solver; exact IH|].
  rewrite decide_True by done. cbn [existsb]. by rewrite IH.
Qed.

Lemma uid_listed uids : uid_Apply (NewUidMatcher uids) (AsRoutingContext ctx) = match GetUid ctx with Some u => bool_decide (u ∈ uids) | None => false end.
Proof. unfold uid_Apply, NewUidMatcher. cbn [base AsRoutingContext]. destruct (GetUid ctx); [|done]. apply bool_decide_ext, elem_of_list_to_set. Qed.

Lemma BuildCondition_ok fuel rr c c' r : rule_config_ok rr -> container_ok data c ->
  Forall (fun b => is_upper b = false) (ToLower (target_domain ctx)) ->
  BuildCondition fuel rr c = Some (c', r) ->
  container_ok data c' /\ match r with
  | Ok conds => Forall cond_ok conds /\ conds ≠ [] /\ all_hold answer ctx resolving conds = forallb id (rule_means rr)
  | _ => True
  end.
Proof.
  intros [Hd Hg Hi Hs] Hc Hl. unfold BuildCondition.
  destruct (if nonempty (rr_Domain rr) then _ else _) as [o1|] eqn:H1'; [|done]. cbn [mbind option_bind].
  destruct (if nonempty (concat _) then _ else _) as [o2|] eqn:H2'; [|done]. cbn [mbind option_bind].
  destruct (build_fields _ c) as [c1 r1] eqn:Hb. intros [= <- <-].
  destruct (fun Hfs => build_fields_ok _ (rule_means rr) c c1 r1 Hfs Hc Hb) as [Hc1 Hr1].
  { unfold rule_means.
    constructor; [by eapply domain_field_means|]. constructor; [by eapply domain_field_means|].
    constructor; [apply when_means; [done|apply listed_filter]|]. constructor; [apply when_means; [done|apply listed_filter]|].
    constructor; [apply plain_field_means; destruct (PortList rr); [|done]; split; [done|]; apply port_list_listed|].
    constructor; [apply plain_field_means; destruct (SourcePortList rr); [|done]; split; [done|]; apply port_list_listed|].
    constructor; [apply network_field_means|]. constructor; [by apply geo_field_means|]. constructor; [by apply geo_field_means|].
    constructor; [apply when_means; [done|apply protocol_listed]|].
    constructor; [apply when_means; [done|]; apply uid_listed|].
    constructor; [apply when_means; [done|]; apply bool_decide_ext, elem_of_list_to_set|].
    constructor; [apply when_means; [done|]; apply bool_decide_ext, elem_of_list_to_set|]. constructor. }
  split; [done|]. destruct r1 as [conds|e|]; cbn [mbind outcome_bind]; [|done..]. destruct conds as [|x conds]; [done|]. cbn [nonempty length Nat.eqb negb].
  by destruct Hr1.
Qed.
End Rules.

(** ** The configured router *)

Section Configured.
Context `{StringLibs, !RegexpFind, MphRuntime, SortSlice, NetIPXLaws, DnsClient, FloatOverflow, Observatory, MapRange}.
Context (answer : bytes -> option (list bytes)) (ctx : Context) (data : bytes -> list CIDR).

Definition rule_accepts (resolving : bool) (rr : RoutingRule) : bool := forallb id (rule_means answer ctx resolving rr).

(** A built rule is the configured one. *)
Record built_from (rr : RoutingRule) (rule : Rule) : Prop := {
  bf_ok : rule_ok rule;
  bf_applies : forall resolving, applies answer ctx resolving rule = rule_accepts resolving rr;
  bf_tag : rule_Tag rule = match rr_TargetTag rr with RoutingRule_Tag t => t | _ => [] end;
  bf_balancer : rule_Balancer rule = match rr_TargetTag rr with RoutingRule_BalancingTag ((_ :: _) as t) => Some t | _ => None end;
  bf_attributes : SetAttributes rule = SetAttribute_ rr;
}.

Lemma build_rules_ok fuel rs bal c c' r : Forall (rule_config_ok data) rs -> container_ok data c ->
  Forall (fun b => is_upper b = false) (ToLower (target_domain ctx)) ->
  build_rules fuel rs bal c = Some (c', r) ->
  container_ok data c' /\
  match r with Ok rules => Forall2 built_from rs rules /\ Forall (fun rule => forall t, rule_Balancer rule = Some t -> is_Some (bal !! t)) rules | _ => True end.
Proof.
  intros Hrs Hc Hl. revert c c' r Hc. induction Hrs as [|rr rs Hrr Hrs IH]; intros c c' r Hc; cbn [build_rules]; [by intros [= <- <-]|].
  destruct (BuildCondition fuel rr c) as [[c1 r1]|] eqn:Hb; [|done]. cbn [mbind option_bind].
  pose proof (fun resolving => BuildCondition_ok answer ctx resolving data fuel rr c c1 r1 Hrr Hc Hl Hb) as Hcond.
  destruct r1 as [conds|e|]; [|intros [= <- <-]; split; [by destruct (Hcond true)|done]..].
  set (btag := match rr_TargetTag rr with RoutingRule_BalancingTag t => t | _ => [] end).
  destruct (negb (bool_decide (btag = [])) && negb (bool_decide (is_Some (bal !! btag)))) eqn:Hfound; [intros [= <- <-]; split; [by destruct (Hcond true)|done]|].
  destruct (build_rules fuel rs bal c1) as [[c2 r2]|] eqn:Hr; [|done]. cbn [mbind option_bind].
  destruct (IH c1 c2 r2 (proj1 (Hcond true)) Hr) as [Hc2 Hr2]. intros [= <- <-]. split; [done|].
  destruct r2 as [rules|e|]; cbn; [|done..]. destruct Hr2 as [Hr2 Hbal]. split; constructor; [|done| |done].
  - split; [by destruct (Hcond true) as (_ & ? & _)|intros resolving; by destruct (Hcond resolving) as (_ & _ & _ & ?)|done| |done].
    cbn. unfold btag. destruct (rr_TargetTag rr) as [t|[|x t]|]; done.
  - cbn. intros t. case_bool_decide as Hbt; [done|]. intros [= <-]. cbn in Hfound. by case_bool_decide.
Qed.

(** The first configured rule that accepts, under the router's strategy. *)
Definition choose (resolving : bool) (rs : list RoutingRule) : option RoutingRule := head (filter (fun rr => rule_accepts resolving rr = true) rs).
Definition configured_choice (config : Config) : option RoutingRule :=
  let skip := GetSkipDNSResolve ctx in
  match choose (bool_decide (cfg_DomainStrategy config = DomainStrategy_IpOnDemand) && negb skip) (cfg_Rule config) with
  | Some rr => Some rr
  | None =>
      if bool_decide (cfg_DomainStrategy config = DomainStrategy_IpIfNonMatch) && nonempty (target_domain ctx) && negb skip
      then choose true (cfg_Rule config) else None
  end.

Lemma first_match_choose resolving rs rules : Forall2 built_from rs rules ->
  match choose resolving rs, first_match answer ctx resolving rules with
  | Some rr, Some rule => built_from rr rule
  | None, None => True
  | _, _ => False
  end.
Proof.
  unfold choose, first_match. induction 1 as [|rr rule rs rules Hb Hbs IH]; [done|]. rewrite !filter_cons.
  rewrite (bf_applies _ _ Hb). by destruct (rule_accepts resolving rr).
Qed.

Lemma Router_Init_ok fuel config c c' r : Forall (rule_config_ok data) (cfg_Rule config) -> container_ok data c ->
  Forall (fun b => is_upper b = false) (ToLower (target_domain ctx)) ->
  Router_Init fuel config c = Some (c', Ok r) ->
  Forall2 built_from (cfg_Rule config) (rules r) /\ domainStrategy r = cfg_DomainStrategy config /\ closed r = false /\ container_ok data c' /\
  Forall (fun rule => forall t, rule_Balancer rule = Some t -> is_Some (balancers r !! t)) (rules r).
Proof.
  intros Hrs Hc Hl. unfold Router_Init. destruct (build_balancers _ ∅) as [bal|e|]; [|done..].
  destruct (build_rules fuel (cfg_Rule config) bal c) as [[c1 r1]|] eqn:Hb; [|done]. cbn [mbind option_bind].
  destruct (build_rules_ok _ _ _ _ _ _ Hrs Hc Hl Hb) as [Hc1 Hr1]. destruct r1 as [rs|e|]; cbn; intros [= <- <-]. cbn. by destruct Hr1.
Qed.

Lemma configured_reference config r : Forall2 built_from (cfg_Rule config) (rules r) -> domainStrategy r = cfg_DomainStrategy config ->
  match configured_choice config, reference_rule answer ctx r with
  | Some rr, Some rule => built_from rr rule
  | None, None => True
  | _, _ => False
  end.
Proof.
  intros Hb Hs. unfold configured_choice, reference_rule. rewrite Hs. set (demand := bool_decide _ && _).
  pose proof (first_match_choose demand _ _ Hb) as Hdemand. pose proof (first_match_choose true _ _ Hb) as Htrue.
  destruct (choose demand _), (first_match answer ctx demand _); try done. by destruct (bool_decide _ && _ && _).
Qed.

Lemma pick_configured fuel config c c' r n : answers answer -> ctx_ok ctx ->
  Forall (rule_config_ok data) (cfg_Rule config) -> container_ok data c ->
  Forall (fun b => is_upper b = false) (ToLower (target_domain ctx)) ->
  Router_Init fuel config c = Some (c', Ok r) ->
  match configured_choice config with
  | Some rr => exists rule s, pickRouteInternal r (AsRoutingContext ctx, n) = Ok (rule, s) /\ base s.1 = ctx /\ built_from rr rule
  | None => pickRouteInternal r (AsRoutingContext ctx, n) = Err ErrNoRuleMatched
  end.
Proof.
  intros Hans Hctx Hrs Hc Hl Hinit. destruct (Router_Init_ok _ _ _ _ _ Hrs Hc Hl Hinit) as (Hb & Hs & Hcl & _).
  pose proof (configured_reference _ _ Hb Hs) as Href.
  assert (Forall rule_ok (rules r)) as Hok by (clear -Hb; induction Hb; constructor; [by eapply bf_ok|done]).
  pose proof (pickRouteInternal_ok answer Hans ctx Hctx r n Hok Hcl) as Hp.
  destruct (configured_choice config) as [rr|], (reference_rule answer ctx r) as [rule|]; try done.
  destruct Hp as (s & Hp & Hbase). by exists rule, s.
Qed.

(** The first rule is the first: the ones before it do not accept. *)
Lemma choose_Some resolving rs rr : choose resolving rs = Some rr <->
  exists before after, rs = before ++ rr :: after /\ rule_accepts resolving rr = true /\ Forall (fun rr' => rule_accepts resolving rr' = false) before.
Proof. apply head_filter_Some. Qed.
End Configured.

(** ** The results *)

Section RoutingProperties.
Context `{StringLibs, !RegexpFind, MphRuntime, SortSlice, NetIPXLaws, DnsClient, FloatOverflow, Observatory, MapRange}.

(** C26: A rule of the router applies to a connection exactly when every field
    of its configuration that is set accepts it: a domain of the list matches
    the lower-case name, an address of the connection lies in one of the
    configured networks (negated for an inverse set, and whichever matchers
    were built before for the same code), the port, network, user, inbound,
    protocol, uid, ssid and network type are among those listed.  Asking the
    DNS client for addresses on the way does not show; the client is one that
    gives the same answer every time.  The domains of a rule that names the
    linear matcher may be any well-formed patterns; those of any other rule,
    which are hashed, are assumed to be lower case, of letters, digits,
    hyphens and dots, without a leading dot: nothing in the program lowers or
    checks them, and without it the index may accept another name.  Sets of
    addresses with the same code are assumed to have the same networks, and
    the name to have no capitals once it is lowered. *)
Theorem rule_applies_as_configured (fuel : nat) (rr : RoutingRule) (data : bytes -> list CIDR) (answer : bytes -> option (list bytes))
    (ctx : Context) (c c' : GeoIPMatcherContainer) (conds : ConditionChan) (n : nat) :
  rule_config_ok data rr -> container_ok data c -> answers answer -> ctx_ok ctx ->
  Forall (fun b => is_upper b = false) (ToLower (target_domain ctx)) ->
  BuildCondition fuel rr c = Some (c', Ok conds) ->
  conds ≠ [] /\ container_ok data c' /\
  (exists s, chan_Apply conds (AsRoutingContext ctx, n) = Ok (rule_accepts answer ctx false rr, s)) /\
  (exists s, chan_Apply conds (ContextWithDNSClient (AsRoutingContext ctx), n) = Ok (rule_accepts answer ctx true rr, s)).
Proof.
  intros Hrr Hc Hans Hctx Hl Hb. pose proof (fun res => BuildCondition_ok answer ctx res data fuel rr c c' _ Hrr Hc Hl Hb) as Hcond.
  destruct (Hcond true) as (Hc' & Hok & Hne & Ht). destruct (Hcond false) as (_ & _ & _ & Hf). split; [done|]. split; [done|].
  unfold rule_accepts. rewrite <-Ht, <-Hf. split.
  - destruct (chan_Apply_ok answer Hans ctx Hctx false conds _ Hok (coherent_plain answer ctx n)) as (s & Hs & _). by exists s.
  - destruct (chan_Apply_ok answer Hans ctx Hctx true conds _ Hok (coherent_resolving answer ctx _ false (coherent_plain answer ctx n))) as (s & Hs & _). by exists s.
Qed.

(** C25: A router made from a configuration routes by the first rule that
    accepts the connection: under IpOnDemand rules see the addresses of the
    name, under IpIfNonMatch they see them in a second round if none accepted
    in the first, and otherwise never; a connection that must not be resolved
    is not.  If no rule accepts, the router says so; it does not panic.  As for
    a single rule, hashed domains are assumed to be in the index's alphabet,
    sets of addresses of one code to agree, and the DNS client to give the same
    answer every time. *)
Theorem router_takes_first_accepting_rule (fuel : nat) (config : Config) (data : bytes -> list CIDR) (answer : bytes -> option (list bytes))
    (ctx : Context) (c c' : GeoIPMatcherContainer) (r : Router) (n : nat) :
  Forall (rule_config_ok data) (cfg_Rule config) -> container_ok data c -> answers answer -> ctx_ok ctx ->
  Forall (fun b => is_upper b = false) (ToLower (target_domain ctx)) ->
  Router_Init fuel config c = Some (c', Ok r) ->
  match configured_choice answer ctx config with
  | Some rr => exists rule s, pickRouteInternal r (AsRoutingContext ctx, n) = Ok (rule, s) /\ base s.1 = ctx /\ built_from answer ctx rr rule
  | None => pickRouteInternal r (AsRoutingContext ctx, n) = Err ErrNoRuleMatched
  end.
Proof. intros. by eapply pick_configured. Qed.
End RoutingProperties.

(** ** A concrete router *)

(** Sets of addresses as lists of prefixes. *)
#[export] Instance list_netipx : NetIPX := {|
  IPSet := list Prefix;
  IPSet_of ps := if forallb prefix_valid ps then Some ps else None;
  IPSet_Contains s ip := existsb (fun p => prefix_Contains p ip) s;
  FromStdIP ip := Unmap <$> AddrFromSlice ip;
|}.
#[export] Instance list_netipx_laws : NetIPXLaws.
Proof.
  split; cbn; [| |done].
  - intros ps. rewrite Forall_forall. destruct (forallb prefix_valid ps) eqn:Hps.
    + rewrite forallb_forall in Hps. split; [by eexists|]. intros _ p Hp. by apply Hps, list_elem_of_In.
    + split; [|by intros [? ?]]. intros Hp. assert (forallb prefix_valid ps = true); [|congruence].
      apply forallb_forall. intros p Hin. by apply Hp, list_elem_of_In.
  - intros ps s ip. destruct (forallb _ ps); [|done]. by intros [= ->].
Qed.

(** Building something that is built, without spelling out what. *)
Lemma built_ok {C E A} (o : option (C * outcome E A)) d e : match o with Some (_, Ok _) => true | _ => false end = true ->
  o = Some ((default d o).1, Ok (match (default d o).2 with Ok r => r | _ => e end)).
Proof. by destruct o as [[c [r|?|]]|]. Qed.

Section Sample.
#[local] Existing Instance ascii_libs.
#[local] Existing Instance merge_sort_slice.
#[local] Existing Instance some_range.
#[local] Instance no_find : RegexpFind := fun _ _ => [].
#[local] Instance sample_runtime : MphRuntime := sample_hash.
#[local] Instance sample_overflow : FloatOverflow := fun _ => 0.
#[local] Instance sample_observatory : Observatory := fun _ => Err ().
(** One name has an address. *)
Definition sample_answer (d : bytes) : option (list bytes) := if bool_decide (d = bs "b.org") then Some [[x01; x02; x03; x04]] else None.
#[local] Instance sample_client : DnsClient := fun _ d => sample_answer d.

Definition blank_rule : RoutingRule := {|
  rr_TargetTag := RoutingRule_None; rr_Domain := []; rr_GeoDomain := []; rr_DomainMatcher := bs "linear"; UserEmail := []; InboundTag := [];
  PortList := None; SourcePortList := None; Networks := []; Geoip := []; SourceGeoip := []; SkipDomain := false; rr_Protocol := [];
  Uid := []; Ssid := []; NetworkType := []; SetAttribute_ := [] |}.
Definition sample_domain_rule : RoutingRule := {|
  rr_TargetTag := RoutingRule_Tag (bs "one"); rr_Domain := [{| d_Type := Domain_Full; d_Value := bs "a.com" |}]; rr_GeoDomain := []; rr_DomainMatcher := bs "linear";
  UserEmail := []; InboundTag := []; PortList := Some [(443, 443)]; SourcePortList := None; Networks := [2]; Geoip := []; SourceGeoip := []; SkipDomain := false;
  rr_Protocol := []; Uid := []; Ssid := []; NetworkType := []; SetAttribute_ := [] |}.
Definition sample_ip_rule : RoutingRule := {|
  rr_TargetTag := RoutingRule_Tag (bs "two"); rr_Domain := []; rr_GeoDomain := []; rr_DomainMatcher := bs "linear"; UserEmail := []; InboundTag := [];
  PortList := None; SourcePortList := None; Networks := []; Geoip := [{| CountryCode := []; Cidr := [{| Ip := [x01; x02; x03; x00]; c_Prefix := 24 |}]; InverseMatch := false |}];
  SourceGeoip := []; SkipDomain := false; rr_Protocol := []; Uid := []; Ssid := []; NetworkType := []; SetAttribute_ := [] |}.
Definition sample_config : Config :=
  {| cfg_DomainStrategy := DomainStrategy_IpIfNonMatch; cfg_Rule := [sample_domain_rule; sample_ip_rule]; cfg_BalancingRule := [] |}.
Definition nowhere : Destination := {| dest_Address := None; dest_Port := 0; dest_Network := Network_Unknown |}.
Definition sample_ctx : Context := {|
  ctx_Inbound := None;
  ctx_Outbound := Some {| OriginalTarget := nowhere; ob_Target := TCPDestination (Some (domainAddress (bs "b.org"))) 443; RouteTarget := nowhere; OverrideFakeDNS := false |};
  ctx_Content := None |}.

Lemma sample_rules_ok : Forall (rule_config_ok (fun _ => [])) (cfg_Rule sample_config).
Proof.
  assert (prepared (@nil Matcher)) as Hnil by (split; [split|..]; try (intros p Hp%not_elem_of_nil; done); cbn; lia).
  apply Forall_cons_2; [|apply Forall_cons_2; [|apply Forall_nil_2]].
  - split; [apply prepared_indexable|apply prepared_indexable; exact Hnil|constructor..]. change (matchers_of (rr_Domain sample_domain_rule)) with [FullMatcher (bs "a.com")].
    split; [split|..]; try (intros p Hp%list_elem_of_singleton; done); [cbn; lia|]. intros p Hp%list_elem_of_singleton. injection Hp as ->. by split.
  - split; [by apply prepared_indexable|by apply prepared_indexable| |constructor]. constructor; [|constructor]. intros H. by destruct H.
Qed.

Lemma sample_ctx_ok : ctx_ok sample_ctx.
Proof. split; [done|]. intros o [= <-]. split; [by exists (domainAddress (bs "b.org"))|done]. Qed.

Definition sample_init := default ([], Panic) (Router_Init 0 sample_config []).
Definition sample_router : Router := match sample_init.2 with Ok r => r | _ => {| domainStrategy := DomainStrategy_AsIs; rules := []; balancers := ∅; closed := true |} end.

Lemma router_takes_first_accepting_rule_witness :
  configured_choice sample_answer sample_ctx sample_config = Some sample_ip_rule /\ exists rule s, pickRouteInternal sample_router (AsRoutingContext sample_ctx, 0%nat) = Ok (rule, s) /\ base s.1 = sample_ctx /\ built_from sample_answer sample_ctx sample_ip_rule rule.
Proof.
  split; [reflexivity|].
  refine (router_takes_first_accepting_rule 0 sample_config (fun _ => []) sample_answer sample_ctx [] sample_init.1 sample_router 0%nat _ _ _ _ _ _).
  - exact sample_rules_ok.
  - exact (Forall_nil_2 _).
  - intros n d. reflexivity.
  - exact sample_ctx_ok.
  - apply ToLower_ascii. vm_compute. reflexivity.
  - apply built_ok. vm_compute. reflexivity.
Defined.

Definition sample_built := default ([], Panic) (BuildCondition 0 sample_domain_rule []).
Definition sample_conds : ConditionChan := match sample_built.2 with Ok l => l | _ => [] end.

Lemma rule_applies_as_configured_witness :
  sample_conds ≠ [] /\ container_ok (fun _ => []) sample_built.1 /\ (exists s, chan_Apply sample_conds (AsRoutingContext sample_ctx, 0%nat) = Ok (rule_accepts sample_answer sample_ctx false sample_domain_rule, s)) /\ (exists s, chan_Apply sample_conds (ContextWithDNSClient (AsRoutingContext sample_ctx), 0%nat) = Ok (rule_accepts sample_answer sample_ctx true sample_domain_rule, s)).
Proof.
  refine (rule_applies_as_configured 0 sample_domain_rule (fun _ => []) sample_answer sample_ctx [] sample_built.1 sample_conds 0%nat _ _ _ _ _ _).
  - by apply (Forall_inv sample_rules_ok).
  - exact (Forall_nil_2 _).
  - intros n d. reflexivity.
  - exact sample_ctx_ok.
  - apply ToLower_ascii. vm_compute. reflexivity.
  - apply built_ok. vm_compute. reflexivity.
Defined.

(** What the two kinds of index make of one configured domain. *)
Definition index_accepts (ty : bytes) (t : Domain_Type) (p name : bytes) : option bool :=
  (fun m => domain_condition_Match m name) <$> NewDomainMatcher 100 ty [{| d_Type := t; d_Value := p |}].

(** Names are lowered before they are matched and patterns are not, but for
    those in the hash: with the linear index a pattern in capitals matches
    nothing. *)
Example capitals_differ_by_index :
  index_accepts (bs "linear") Domain_Full (bs "A.com") (bs "a.com") = Some false /\
  index_accepts (bs "mph") Domain_Full (bs "A.com") (bs "a.com") = Some true.
Proof. vm_compute. done. Qed.

(** The automaton has one class for all bytes outside letters, digits, hyphen
    and dot: a plain pattern with one of them matches any other. *)
Example plain_patterns_confuse_bytes :
  index_accepts (bs "linear") Domain_Plain (bs "a_b") (bs "a!b") = Some false /\
  index_accepts (bs "mph") Domain_Plain (bs "a_b") (bs "a!b") = Some true.
Proof. vm_compute. done. Qed.
End Sample.
