(* ===== verification/BalancingFacts.v ===== *)
(** * Facts about the balancers

    What each strategy chooses: one of the candidates, the one with the least
    delay, or one of the cheapest. *)

From Stdlib Require Import Sorted.
From S2P Require Import Prelude Matchers OutboundManager Balancing.

Local Open Scope Z_scope.

(** ** Orders *)

Lemma bytes_less_asym a b : bytes_less b a = false \/ bytes_less a b = false.
Proof.
  revert b. induction a as [|x a IH]; intros [|y b]; cbn; auto. rewrite (Z.eqb_sym (byte_to_Z y)).
  destruct (Z.eqb_spec (byte_to_Z x) (byte_to_Z y)); [apply IH|]. destruct (Z.ltb_spec (byte_to_Z y) (byte_to_Z x)); [|auto]. right. apply Z.ltb_ge. lia.
Qed.

Lemma bytes_less_trans a b c : bytes_less b a = false -> bytes_less c b = false -> bytes_less c a = false.
Proof.
  revert b c. induction a as [|x a IH]; intros [|y b] [|z c]; cbn; try done.
  destruct (Z.eqb_spec (byte_to_Z y) (byte_to_Z x)) as [Hxy|], (Z.eqb_spec (byte_to_Z z) (byte_to_Z y)) as [Hyz|]; rewrite ?Z.ltb_ge.
  - rewrite Hyz, Hxy, Z.eqb_refl. apply IH.
  - intros _ ?. destruct (Z.eqb_spec (byte_to_Z z) (byte_to_Z x)); [lia|]. apply Z.ltb_ge. lia.
  - intros ? _. destruct (Z.eqb_spec (byte_to_Z z) (byte_to_Z x)); [lia|]. apply Z.ltb_ge. lia.
  - intros ? ?. destruct (Z.eqb_spec (byte_to_Z z) (byte_to_Z x)); [lia|]. apply Z.ltb_ge. lia.
Qed.

(** Nodes are compared field by field. *)
Lemma node_less_asym a b : node_less b a = false \/ node_less a b = false.
Proof.
  unfold node_less. rewrite (Z.eqb_sym (RTTDeviationCost b)), (Z.eqb_sym (RTTAverage b)), (Z.eqb_sym (CountFail b)), (Z.eqb_sym (CountAll b)).
  repeat match goal with |- context [negb (?x =? ?y)] => destruct (Z.eqb_spec x y); cbn [negb]; [|rewrite !Z.ltb_ge; lia] end. apply bytes_less_asym.
Qed.

Lemma node_less_trans a b c : node_less b a = false -> node_less c b = false -> node_less c a = false.
Proof.
  unfold node_less.
  repeat match goal with |- context [negb (?x =? ?y)] => destruct (Z.eqb_spec x y); cbn [negb] end;
    rewrite ?Z.ltb_ge; try (intros; lia). apply bytes_less_trans.
Qed.

Lemma leastloadSort_sorted `{SortSlice} ns : StronglySorted (fun a b => node_less b a = false) (leastloadSort ns).
Proof. apply sort_Slice_sorted; [apply node_less_asym|apply node_less_trans]. Qed.

Definition cost_le (a b : node) : Prop := RTTDeviationCost a <= RTTDeviationCost b.
Lemma leastloadSort_cost `{SortSlice} ns : StronglySorted cost_le (leastloadSort ns).
Proof.
  eapply StronglySorted_mono; [|apply leastloadSort_sorted]. intros a b. unfold node_less, cost_le.
  destruct (Z.eqb_spec (RTTDeviationCost b) (RTTDeviationCost a)); cbn [negb]; [lia|]. rewrite Z.ltb_ge. lia.
Qed.

(** ** Selection by baselines *)

(** How many nodes are below a baseline. *)
Definition below (b : Z) (nodes : list node) : nat := length (filter (fun n => RTTDeviationCost n < b) nodes).

(** The baselines that are applied: up to the first that is enough. *)
Fixpoint applied (expected : nat) (nodes : list node) (bs : list Z) : list Z :=
  match bs with [] => [] | b :: bs' => if (expected <=? below b nodes)%nat then [b] else b :: applied expected nodes bs' end.

(** How many nodes are below some applied baseline. *)
Definition reach (nodes : list node) (bs : list Z) : nat := foldr (fun b k => Nat.max (below b nodes) k) 0%nat bs.

(** How many nodes are selected: all of them if more are expected than there
    are, the expected number without baselines, those below an applied
    baseline otherwise, but no fewer than expected. *)
Definition selected_count (s : StrategyLeastLoadConfig) (nodes : list node) : nat :=
  if Z.of_nat (length nodes) <? Expected s then length nodes
  else
    let expected := Z.to_nat (Z.max 1 (Expected s)) in
    match Baselines s with
    | [] => expected
    | bs => let k := reach nodes (applied expected nodes bs) in if 0 <? Expected s then Nat.max k expected else k
    end.

Lemma below_filter b nodes : StronglySorted cost_le nodes -> filter (fun n => RTTDeviationCost n < b) nodes = take (below b nodes) nodes.
Proof.
  unfold below. induction 1 as [|n ns Hs IH Hn]; [done|]. rewrite filter_cons. case_decide as Hb; [cbn [length take]; by rewrite <-IH|].
  rewrite (filter_none _ ns); [done|]. rewrite Forall_forall in Hn. intros m Hm ?. specialize (Hn m Hm). unfold cost_le in Hn. lia.
Qed.

Lemma below_baseline_add b nodes count : StronglySorted cost_le nodes -> below_baseline b nodes count = (count + below b nodes)%nat.
Proof.
  unfold below. intros Hs. revert count. induction Hs as [|n ns Hs IH Hn]; intros count; cbn [below_baseline]; [cbn; lia|].
  rewrite filter_cons. destruct (Z.leb_spec b (RTTDeviationCost n)).
  - rewrite decide_False by lia. rewrite (filter_none _ ns); [cbn; lia|]. rewrite Forall_forall in Hn. intros m Hm ?. specialize (Hn m Hm). unfold cost_le in Hn. lia.
  - rewrite decide_True by lia. rewrite IH. cbn. lia.
Qed.

Lemma StronglySorted_drop {A} (R : relation A) k l : StronglySorted R l -> StronglySorted R (drop k l).
Proof. revert k. induction l as [|x l IH]; intros [|k] Hl; [done..|]. inversion Hl. by apply IH. Qed.

Lemma below_drop b nodes k : StronglySorted cost_le nodes -> below b (drop k nodes) = (below b nodes - k)%nat.
Proof.
  unfold below. intros Hs. revert k. induction Hs as [|n ns Hs IH Hn]; intros [|k]; cbn [drop]; [done..|cbn; lia|].
  rewrite filter_cons. case_decide as Hb; [cbn [length]; by rewrite IH|].
  rewrite IH, (filter_none _ ns); [done|]. rewrite Forall_forall in Hn. intros m Hm ?. specialize (Hn m Hm). unfold cost_le in Hn. lia.
Qed.

Lemma apply_baselines_ok bs nodes expected count : StronglySorted cost_le nodes -> (count < expected)%nat ->
  apply_baselines bs nodes expected count = Nat.max count (reach nodes (applied expected nodes bs)).
Proof.
  intros Hs. revert count. induction bs as [|b bs IH]; intros count Hc; cbn [apply_baselines applied]; [cbn; lia|].
  rewrite below_baseline_add, below_drop by (try apply StronglySorted_drop; done).
  destruct (Nat.leb_spec expected (below b nodes)) as [Hb|Hb].
  - destruct (Nat.leb_spec expected (count + (below b nodes - count))); [cbn; lia|lia].
  - destruct (Nat.leb_spec expected (count + (below b nodes - count))); [lia|]. rewrite IH by lia. cbn [reach foldr]. fold (reach nodes (applied expected nodes bs)). lia.
Qed.

Lemma selectLeastLoad_ok s nodes : StronglySorted cost_le nodes -> selectLeastLoad s nodes = take (selected_count s nodes) nodes.
Proof.
  intros Hs. unfold selectLeastLoad, selected_count. destruct (Nat.eqb_spec (length nodes) 0) as [Hl|Hl].
  { destruct nodes; [|done]. by rewrite take_nil. }
  destruct (Z.ltb_spec (Z.of_nat (length nodes)) (Expected s)); [by rewrite take_ge|].
  assert (Z.to_nat (if Expected s <=? 0 then 1 else Expected s) = Z.to_nat (Z.max 1 (Expected s))) as ->.
  { f_equal. destruct (Z.leb_spec (Expected s) 0); lia. }
  set (expected := Z.to_nat (Z.max 1 (Expected s))). destruct (Baselines s) as [|b bs]; [done|]. cbn [length Nat.eqb].
  rewrite (apply_baselines_ok (b :: bs) nodes expected 0 Hs) by lia. rewrite Nat.max_0_l. f_equal. set (k := reach nodes _).
  destruct (Z.ltb_spec 0 (Expected s)); cbn [andb]; [|done]. destruct (Nat.ltb_spec k expected); lia.
Qed.

Lemma selected_count_le s nodes : (0 < length nodes)%nat -> (selected_count s nodes <= length nodes)%nat.
Proof.
  intros Hn. unfold selected_count. destruct (Z.ltb_spec (Z.of_nat (length nodes)) (Expected s)); [lia|].
  assert (forall bs, (reach nodes bs <= length nodes)%nat) as Hr.
  { induction bs as [|b bs IH]; cbn [reach foldr]; [lia|]. fold (reach nodes bs). unfold below. apply Nat.max_lub; [apply length_filter|exact IH]. }
  destruct (Baselines s) as [|b bs]; [lia|]. specialize (Hr (applied (Z.to_nat (Z.max 1 (Expected s))) nodes (b :: bs))). destruct (0 <? Expected s); lia.
Qed.

(** ** Weights *)

Section Weights.
Context `{RegexpFind}.

(** What is remembered for a tag is its weight. *)
Definition cache_ok (w : WeightManager) : Prop := map_Forall (fun tag x => x = findValue w tag) (cache w).

Lemma NewWeightManager_ok ws d f : cache_ok (NewWeightManager ws d f).
Proof. apply map_Forall_empty. Qed.

(** Two managers with the same settings. *)
Definition same_weights (w w' : WeightManager) : Prop := settings w' = settings w /\ scaler w' = scaler w /\ defaultWeight w' = defaultWeight w.

Lemma weight_Get_ok w tag : cache_ok w -> exists w', weight_Get w tag = (w', findValue w tag) /\ cache_ok w' /\ same_weights w w'.
Proof.
  intros Hw. unfold weight_Get. destruct (cache w !! tag) as [x|] eqn:Hx.
  - rewrite (Hw tag x Hx). by exists w.
  - eexists. split; [done|]. split; [|done]. by apply map_Forall_insert_2.
Qed.

(** The value for a tag, without the cache. *)
Definition weighed (w : WeightManager) (tag : bytes) (x : float64) : float64 := scaler w x (findValue w tag).

Lemma weight_Apply_ok w tag x : cache_ok w -> exists w', weight_Apply w tag x = (w', weighed w tag x) /\ cache_ok w' /\ same_weights w w'.
Proof. intros Hw. destruct (weight_Get_ok w tag Hw) as (w' & Hg & Hw' & Hs). unfold weight_Apply. rewrite Hg. exists w'. split; [|done]. unfold weighed. by destruct Hs as (_ & -> & _). Qed.

Lemma weighed_same w w' tag x : same_weights w w' -> weighed w' tag x = weighed w tag x.
Proof. intros (Hs & Hf & Hd). unfold weighed, findValue. by rewrite Hs, Hf, Hd. Qed.

Lemma same_weights_trans w1 w2 w3 : same_weights w1 w2 -> same_weights w2 w3 -> same_weights w1 w3.
Proof. unfold same_weights. intuition congruence. Qed.

Context `{FloatOverflow}.

(** A report qualifies. *)
Definition qualifies (candidates : list bytes) (maxRTT : Z) (v : OutboundStatus) : bool :=
  Alive v && ((Delay v <? Z.quot maxRTT 1000000) || (maxRTT =? 0)) && outbound_contains candidates (OutboundTag v).

(** The node for a report. *)
Definition node_of (w : WeightManager) (v : OutboundStatus) : node :=
  match st_HealthPing v with
  | Some h => {| n_Tag := OutboundTag v; CountAll := hp_All h; CountFail := hp_Fail h; RTTAverage := hp_Average h; RTTDeviation := hp_Deviation h;
                 RTTDeviationCost := int64_of_float64 (weighed w (OutboundTag v) (float64_of_int64 (hp_Deviation h))) |}
  | None => let d := i64 (Delay v * Millisecond) in
            {| n_Tag := OutboundTag v; CountAll := 1; CountFail := 1; RTTAverage := d; RTTDeviation := d;
               RTTDeviationCost := int64_of_float64 (weighed w (OutboundTag v) (float64_of_int64 d)) |}
  end.

Lemma qualified_ok w candidates maxRTT status : cache_ok w ->
  exists w', qualified w candidates maxRTT status = (w', map (node_of w) (filter (fun v => qualifies candidates maxRTT v = true) status)) /\
    cache_ok w' /\ same_weights w w'.
Proof.
  revert w. induction status as [|v status IH]; intros w Hw; cbn [qualified]; [by exists w|]. rewrite filter_cons. fold (qualifies candidates maxRTT v).
  destruct (qualifies candidates maxRTT v); [rewrite decide_True by done|rewrite decide_False by done; by apply IH]. cbn [map].
  destruct (weight_Apply_ok w (OutboundTag v) (float64_of_int64 (i64 (Delay v * Millisecond))) Hw) as (w1 & -> & Hw1 & Hs1).
  assert (forall w2, same_weights w w2 -> map (node_of w2) (filter (fun v => qualifies candidates maxRTT v = true) status) =
    map (node_of w) (filter (fun v => qualifies candidates maxRTT v = true) status)) as Hmap.
  { intros w2 Hs. apply map_ext. intros u. unfold node_of. destruct (st_HealthPing u); by rewrite (weighed_same w w2). }
  unfold node_of at 1. destruct (st_HealthPing v) as [h|].
  - destruct (weight_Apply_ok w1 (OutboundTag v) (float64_of_int64 (hp_Deviation h)) Hw1) as (w2 & -> & Hw2 & Hs2).
    destruct (IH w2 Hw2) as (w3 & -> & Hw3 & Hs3). pose proof (same_weights_trans _ _ _ Hs1 Hs2) as Hs. rewrite (Hmap w2 Hs), (weighed_same w w1) by done.
    exists w3. split; [done|]. split; [done|]. by eapply same_weights_trans.
  - destruct (IH w1 Hw1) as (w3 & -> & Hw3 & Hs3). rewrite (Hmap w1 Hs1). exists w3. split; [done|]. split; [done|]. by eapply same_weights_trans.
Qed.
End Weights.

(** ** Strategies *)

Section Strategies.
Context `{RegexpFind, FloatOverflow, SortSlice, Observatory}.

Lemma outbound_contains_elem l t : outbound_contains l t = true <-> t ∈ l.
Proof.
  unfold outbound_contains. rewrite existsb_exists. split.
  - by intros (x & Hx%list_elem_of_In & ->%bool_decide_eq_true).
  - intros Ht. exists t. split; [by apply list_elem_of_In|by apply bool_decide_eq_true].
Qed.

(** A draw is below the bound it was asked for. *)
Definition draws (Intn : nat -> nat) : Prop := forall n, (0 < n)%nat -> (Intn n < n)%nat.

Lemma index_Roll {A} Intn (l : list A) : draws Intn -> l ≠ [] -> exists x, index l (Roll Intn (length l)) = Ok x /\ x ∈ l.
Proof.
  intros Hd Hl. unfold index, Roll. assert (0 < length l)%nat as Hn by (destruct l; cbn; [done|lia]).
  destruct (lookup_lt_is_Some_2 l (if (length l =? 1)%nat then 0%nat else Intn (length l))) as [x Hx].
  - destruct (Nat.eqb_spec (length l) 1); [lia|by apply Hd].
  - rewrite Hx. exists x. split; [done|]. by eapply list_elem_of_lookup_2.
Qed.

(** The observatory that a strategy asks, if it asks any; whether there is none
    by this tag, and whether there is none at all. *)
Definition observer (s : BalancingStrategy) : option bytes :=
  match s with
  | RandomStrategy c => c ← c; if AliveOnly c then Some (r_ObserverTag c) else None
  | LeastPing l => Some (p_ObserverTag (lp_config l))
  | Fallback o => Some o
  | LeastLoad l => Some (l_ObserverTag (ll_settings l))
  end.
Definition blind (s : BalancingStrategy) : Prop := exists tag, observer s = Some tag /\ GetObservation tag = Panic.

(** No observatory is missing. *)
Definition observed : Prop := forall tag, GetObservation tag ≠ Panic.

Lemma random_ok s Intn candidates : draws Intn -> ~ blind (RandomStrategy s) ->
  exists t, random_PickOutbound s Intn candidates = Ok t /\ (t = [] \/ t ∈ candidates).
Proof.
  intros Hd Ho. unfold random_PickOutbound.
  assert (exists l, match s with
    | Some c => if AliveOnly c then match GetObservation (r_ObserverTag c) with Ok status => Ok (alive_tags status candidates) | Err _ => Ok candidates | Panic => Panic end else Ok candidates
    | None => Ok candidates end = @Ok unit _ l /\ forall t, t ∈ l -> t ∈ candidates) as (l & -> & Hl).
  { destruct s as [c|]; [|by exists candidates]. destruct (AliveOnly c) eqn:Hc; [|by exists candidates].
    destruct (GetObservation _) as [st|e|] eqn:Hst; [|by exists candidates|]. 2: { destruct Ho. eexists. cbn. rewrite Hc. split; [reflexivity|exact Hst]. }
    eexists. split; [done|]. unfold alive_tags. intros t [_ Ht]%list_elem_of_filter. done. }
  cbn [mbind outcome_bind]. destruct (Nat.eqb_spec (length l) 0) as [|Hne]; [exists []; by split; [|left]|].
  destruct (index_Roll Intn l Hd) as (t & -> & Ht); [by destruct l|]. exists t. split; [done|]. right. by apply Hl.
Qed.

(** The tag with the least delay: [seen] is what has been looked at. *)
Definition ping_candidate (candidates : list bytes) (v : OutboundStatus) : bool :=
  outbound_contains candidates (OutboundTag v) && Alive v && (Delay v <? 99999999).

Lemma least_ping_ok candidates status : let '(t, d) := least_ping candidates status in
  (t = [] /\ d = 99999999 /\ Forall (fun v => ping_candidate candidates v = false) status) \/
  (exists v, v ∈ status /\ ping_candidate candidates v = true /\ t = OutboundTag v /\ d = Delay v /\
     Forall (fun v' => ping_candidate candidates v' = true -> d <= Delay v') status).
Proof.
  unfold least_ping. induction status as [|v status IH] using rev_ind; [left; by repeat constructor|]. rewrite foldl_snoc.
  destruct (foldl _ _ status) as [t d]. unfold ping_candidate in *. destruct (outbound_contains candidates (OutboundTag v) && Alive v) eqn:Hc; cbn [andb].
  - destruct (Z.ltb_spec (Delay v) d) as [Hd|Hd].
    + right. exists v. split; [set_solver|]. rewrite Hc. split.
      { destruct IH as [(_ & -> & _)|(u & _ & Hu & _ & -> & _)]; [by apply Z.ltb_lt|]. apply andb_true_iff in Hu as [_ Hu%Z.ltb_lt]. apply Z.ltb_lt. lia. }
      split; [done|]. split; [done|]. apply Forall_app. split; [|by repeat constructor].
      destruct IH as [(_ & -> & Hf)|(u & _ & _ & _ & -> & Hf)]; (eapply Forall_impl; [exact Hf|]); cbn; intros x Hx Hx2; [by rewrite Hx in Hx2|specialize (Hx Hx2); lia].
    + destruct IH as [(-> & -> & Hf)|(u & Hu & Hup & -> & -> & Hf)].
      * left. split; [done|]. split; [done|]. apply Forall_app. split; [done|]. repeat constructor. rewrite Hc. cbn. by apply Z.ltb_ge.
      * right. exists u. split; [set_solver|]. do 3 (split; [done|]). apply Forall_app. split; [done|]. by repeat constructor.
  - destruct IH as [(-> & -> & Hf)|(u & Hu & Hup & -> & -> & Hf)].
    + left. do 2 (split; [done|]). apply Forall_app. split; [done|]. repeat constructor. by rewrite Hc.
    + right. exists u. split; [set_solver|]. do 3 (split; [done|]). apply Forall_app. split; [done|]. repeat constructor. by rewrite Hc.
Qed.

Lemma fallback_ok o candidates : ~ blind (Fallback o) -> exists t, fallback_PickOutbound o candidates = Ok t /\ (t = [] \/ t ∈ candidates).
Proof.
  intros Ho. unfold fallback_PickOutbound. destruct (GetObservation o) as [st|e|] eqn:Hst; [|exists []; by split; [|left]|destruct Ho; by exists o].
  eexists. split; [done|]. destruct (head _) as [t|] eqn:Ht; cbn; [|by left]. right. apply head_Some_elem_of, list_elem_of_filter in Ht. by destruct Ht.
Qed.

Lemma leastping_ok l candidates : ~ blind (LeastPing l) -> exists l' t, leastping_PickOutbound l candidates = Ok (l', t) /\ lp_config l' = lp_config l /\
  (t = [] \/ t ∈ candidates \/ (StickyChoice (lp_config l) = true /\ t = lastChoice l)).
Proof.
  intros Ho. unfold leastping_PickOutbound.
  destruct (GetObservation _) as [st|e|] eqn:Hst; [|exists l, []; by split; [|split; [|left]]|destruct Ho; by eexists].
  eexists _, _. split; [done|]. split; [done|]. pose proof (least_ping_ok candidates st) as Hp. destruct (least_ping candidates st) as [t d]. cbn [fst].
  case_bool_decide as Ht; cbn [andb]; [destruct (StickyChoice _); [by right; right|by left]|].
  right. left. destruct Hp as [(-> & _)|(v & _ & Hv & -> & _)]; [done|]. unfold ping_candidate in Hv.
  apply andb_true_iff in Hv as [[Hv _]%andb_true_iff _]. by apply outbound_contains_elem.
Qed.

Lemma pickOutbounds_ok l candidates status : cache_ok (costs l) -> GetObservation (l_ObserverTag (ll_settings l)) = Ok status ->
  let s := ll_settings l in
  let ns := leastloadSort (map (node_of (costs l)) (filter (fun v => qualifies candidates (MaxRTT s) v = true) status)) in
  exists l', pickOutbounds l candidates = Ok (l', take (selected_count s ns) ns) /\ cache_ok (costs l') /\ ll_settings l' = s /\ same_weights (costs l) (costs l').
Proof.
  intros Hc Ho. cbv zeta. unfold pickOutbounds, getNodes. rewrite Ho.
  destruct (qualified_ok (costs l) candidates (MaxRTT (ll_settings l)) status Hc) as (w & -> & Hw & Hs). cbn [mbind outcome_bind ll_settings].
  eexists. rewrite selectLeastLoad_ok by apply leastloadSort_cost. done.
Qed.

Lemma leastload_ok l Intn candidates : draws Intn -> ~ blind (LeastLoad l) -> cache_ok (costs l) ->
  exists l' t, leastload_PickOutbound l Intn candidates = Ok (l', t) /\ cache_ok (costs l') /\ (t = [] \/ t ∈ candidates).
Proof.
  intros Hd Ho Hc. unfold leastload_PickOutbound.
  destruct (GetObservation (l_ObserverTag (ll_settings l))) as [st|e|] eqn:Hst; [|unfold pickOutbounds, getNodes; rewrite Hst; exists l, []; by split; [|split; [|left]]|destruct Ho; by eexists].
  destruct (pickOutbounds_ok l candidates st Hc Hst) as (l' & -> & Hc' & _). cbn [mbind outcome_bind]. set (sel := take _ _).
  destruct (Nat.eqb_spec (length sel) 0) as [|Hne]; [exists l', []; by split; [|split; [|left]]|].
  destruct (index_Roll Intn sel Hd) as (n & -> & Hn); [by destruct sel|]. cbn. exists l', (n_Tag n). split; [done|]. split; [done|]. right.
  unfold sel in Hn. apply elem_of_take in Hn as (i & Hn & _). apply list_elem_of_lookup_2 in Hn. unfold leastloadSort in Hn. rewrite sort_Slice_perm in Hn.
  apply list_elem_of_fmap in Hn as (v & -> & [Hv _]%list_elem_of_filter). unfold qualifies in Hv. apply andb_true_iff in Hv as [_ Hv%outbound_contains_elem].
  unfold node_of. by destruct (st_HealthPing v).
Qed.
End Strategies.

(** ** Balancers *)

Section Balancers.
Context `{RegexpFind, FloatOverflow, SortSlice, Observatory, MapRange}.

Definition strategy_ok (s : BalancingStrategy) : Prop := match s with LeastLoad l => cache_ok (costs l) | _ => True end.

(** The last choice of a sticky strategy. *)
Definition sticky_choice (s : BalancingStrategy) (t : bytes) : Prop :=
  exists l, s = LeastPing l /\ StickyChoice (lp_config l) = true /\ t = lastChoice l.

Lemma strategy_PickOutbound_ok s Intn candidates : draws Intn -> ~ blind s -> strategy_ok s ->
  exists s' t, strategy_PickOutbound s Intn candidates = Ok (s', t) /\ strategy_ok s' /\ (t = [] \/ t ∈ candidates \/ sticky_choice s t).
Proof.
  intros Hd Ho Hs. destruct s as [c|l|o|l]; cbn [strategy_PickOutbound].
  - destruct (random_ok c Intn candidates Hd Ho) as (t & -> & Ht). eexists _, t. split; [done|]. split; [done|]. naive_solver.
  - destruct (leastping_ok l candidates Ho) as (l' & t & -> & _ & Ht). eexists _, t. split; [done|]. split; [done|]. unfold sticky_choice. naive_solver.
  - destruct (fallback_ok o candidates Ho) as (t & -> & Ht). eexists _, t. split; [done|]. split; [done|]. naive_solver.
  - destruct (leastload_ok l Intn candidates Hd Ho Hs) as (l' & t & -> & Hc & Ht). eexists _, t. split; [done|]. split; [done|]. naive_solver.
Qed.

(** A balancer that asks its strategy, which asks a missing observatory. *)
Definition balancer_blind (b : Balancer) : Prop := override b = [] /\ blind (strategy b).

Lemma blind_panics s Intn candidates : blind s -> strategy_PickOutbound s Intn candidates = Panic.
Proof.
  intros (tag & Htag & Hp). destruct s as [[c|]|l|o|l]; cbn [observer mbind option_bind] in Htag; [|done|..]; cbn [strategy_PickOutbound].
  - unfold random_PickOutbound. destruct (AliveOnly c); [|done]. injection Htag as ->. by rewrite Hp.
  - unfold leastping_PickOutbound. injection Htag as ->. by rewrite Hp.
  - unfold fallback_PickOutbound. injection Htag as ->. by rewrite Hp.
  - unfold leastload_PickOutbound, pickOutbounds, getNodes. injection Htag as ->. by rewrite Hp.
Qed.

Lemma blind_dec s : blind s \/ ~ blind s.
Proof.
  unfold blind. destruct (observer s) as [tag|]; [|right; by intros (? & ? & _)]. destruct (GetObservation tag) as [st|e|] eqn:Ht; [right; intros (t & [= <-] & ?); congruence..|left; by exists tag].
Qed.

Lemma PickOutbound_ok ohm b Intn : manager_inv ohm -> draws Intn -> strategy_ok (strategy b) ->
  match PickOutbound ohm b Intn with
  | Ok (b', t) =>
      t ≠ [] /\ strategy_ok (strategy b') /\
      selectors b' = selectors b /\ fallbackTag b' = fallbackTag b /\ override b' = override b /\
      (if bool_decide (override b = []) then t ∈ Select ohm (selectors b) \/ t = fallbackTag b \/ sticky_choice (strategy b) t else t = override b)
  | Err _ => override b = [] /\ fallbackTag b = [] /\ Select ohm (selectors b) = []
  | Panic => balancer_blind b
  end.
Proof.
  intros Hm Hd Hs. assert (forall t, t ∈ Select ohm (selectors b) -> t ≠ []) as Hne.
  { intros t [[h Hh] _]%elem_of_Select. by destruct (mi_tags _ Hm t h Hh). }
  unfold PickOutbound. case_bool_decide as Hov; cbn [negb].
  - destruct (blind_dec (strategy b)) as [Hbl|Ho]; [by rewrite blind_panics|].
    destruct (strategy_PickOutbound_ok (strategy b) Intn (SelectOutbounds ohm b) Hd Ho Hs) as (s' & t & -> & Hs' & Ht). cbn [mbind outcome_bind]. unfold SelectOutbounds in *.
    case_bool_decide as Ht0; [|destruct Ht as [|Ht]; [done|]; split; [done|]; split; [done|]; repeat (split; [done|]); naive_solver].
    cbn [fallbackTag with_strategy]. case_bool_decide as Hfb; cbn [negb]; [|do 5 (split; [done|]); auto].
    destruct (Select ohm (selectors b)) as [|t' ts]; [done|]. split; [apply Hne; by left|]. do 4 (split; [done|]). left. by left.
  - cbn [mbind outcome_bind]. rewrite (bool_decide_eq_false_2 (override b = [])) by done. done.
Qed.
End Balancers.

(** ** The results *)

Section BalancingProperties.
Context `{RegexpFind, FloatOverflow, SortSlice, Observatory, MapRange}.

(** A balancer never panics while its observatories exist and the dice
    stay below their bound; the tag it picks is never empty, and is the one
    set from outside if there is one, and otherwise one of the outbounds its
    selectors match, or its fallback, or the last choice of a sticky
    strategy.  It fails only when nothing matches and nothing was configured
    to fall back on. *)
Theorem balancer_picks_known_tag (ohm : Manager) (b : Balancer) (Intn : nat -> nat) :
  manager_inv ohm -> draws Intn -> observed -> strategy_ok (strategy b) ->
  match PickOutbound ohm b Intn with
  | Ok (b', t) =>
      t ≠ [] /\ strategy_ok (strategy b') /\
      selectors b' = selectors b /\ fallbackTag b' = fallbackTag b /\ override b' = override b /\
      (if bool_decide (override b = []) then t ∈ Select ohm (selectors b) \/ t = fallbackTag b \/ sticky_choice (strategy b) t else t = override b)
  | Err _ => override b = [] /\ fallbackTag b = [] /\ Select ohm (selectors b) = []
  | Panic => False
  end.
Proof.
  intros Hm Hd Ho Hs. pose proof (PickOutbound_ok ohm b Intn Hm Hd Hs) as Hp. destruct (PickOutbound ohm b Intn) as [[b' t]|e|]; [done..|]. destruct Hp as (_ & tag & _ & Hp). by apply (Ho tag).
Qed.

(** The least-load strategy keeps the reports on candidates that are
    alive and below the limit, orders them by cost, the weight of the tag
    applied, and selects the cheapest: all of them if more are expected than
    there are, the expected number without baselines, and otherwise those
    below the first baseline that reaches the expected number or an earlier
    one.  Remembering weights does not show. *)
Theorem least_load_selects_cheapest (l : LeastLoadStrategy) (candidates : list bytes) (status : list OutboundStatus) :
  cache_ok (costs l) -> GetObservation (l_ObserverTag (ll_settings l)) = Ok status ->
  exists l' ns, pickOutbounds l candidates = Ok (l', take (selected_count (ll_settings l) ns) ns) /\
    ns ≡ₚ map (node_of (costs l)) (filter (fun v => qualifies candidates (MaxRTT (ll_settings l)) v = true) status) /\
    StronglySorted cost_le ns /\
    cache_ok (costs l') /\ ll_settings l' = ll_settings l /\ same_weights (costs l) (costs l').
Proof.
  intros Hc Ho. destruct (pickOutbounds_ok l candidates status Hc Ho) as (l' & Hp & Hrest). exists l'. eexists. split; [exact Hp|].
  split; [apply sort_Slice_perm|]. split; [apply leastloadSort_cost|exact Hrest].
Qed.

(** The least-ping strategy picks the tag of a report with the least
    delay among those on candidates that are alive and answer within 99999999
    milliseconds; if there is none it picks its last choice when it is sticky
    and nothing otherwise, and it remembers what it picked. *)
Theorem least_ping_picks_least (l : LeastPingStrategy) (candidates : list bytes) (status : list OutboundStatus) :
  GetObservation (p_ObserverTag (lp_config l)) = Ok status -> Forall (fun v => OutboundTag v ≠ []) status ->
  exists t, leastping_PickOutbound l candidates = Ok ({| lp_config := lp_config l; lastChoice := t |}, t) /\
    ((exists v, v ∈ status /\ t = OutboundTag v /\ ping_candidate candidates v = true /\
        Forall (fun v' => ping_candidate candidates v' = true -> Delay v <= Delay v') status) \/
     (Forall (fun v => ping_candidate candidates v = false) status /\ t = if StickyChoice (lp_config l) then lastChoice l else [])).
Proof.
  intros Ho Htags. unfold leastping_PickOutbound. rewrite Ho. eexists. split; [done|]. pose proof (least_ping_ok candidates status) as Hp.
  destruct (least_ping candidates status) as [t d]. cbn [fst]. rewrite Forall_forall in Htags.
  destruct Hp as [(-> & _ & Hf)|(v & Hv & Hc & -> & -> & Hf)].
  - right. split; [done|]. rewrite bool_decide_eq_true_2 by done. by destruct (StickyChoice _).
  - left. exists v. rewrite bool_decide_eq_false_2 by (by apply Htags). done.
Qed.
End BalancingProperties.

(** ** Concrete balancers *)

Section Sample.
#[local] Existing Instance ascii_libs.
#[local] Existing Instance merge_sort_slice.
#[local] Instance sample_find : RegexpFind := fun _ _ => [].
#[local] Instance sample_float : FloatOverflow := fun _ => 0.
Definition sample_status : list OutboundStatus := [
  {| Alive := true; Delay := 80; OutboundTag := bs "hk9"; st_HealthPing := None |};
  {| Alive := true; Delay := 50; OutboundTag := bs "us"; st_HealthPing := None |};
  {| Alive := false; Delay := 1; OutboundTag := bs "jp"; st_HealthPing := None |}].
#[local] Instance sample_reports : Observatory := fun _ => Ok sample_status.

Definition plain_handler (k : nat) (tag : bytes) : Handler := {| h_id := k; Tag := tag; start_ok := true; close_ok := true |}.
Definition sample_manager `{MapRange} : Manager :=
  foldl (fun m op => (run m op).1) New [OpAdd (plain_handler 1 (bs "us")); OpAdd (plain_handler 2 (bs "hk9")); OpAdd (plain_handler 3 (bs "direct"))].

Lemma sample_manager_inv `{MapRange} : manager_inv sample_manager.
Proof. apply runs_inv, New_inv. Qed.

(** A weight of 9, taken from the tag's own digits, triples the cost. *)
Definition sample_load : LeastLoadStrategy := NewLeastLoadStrategy
  {| Costs := [{| w_Regexp := false; w_Match := bs "hk9"; w_Value := S754_zero false |}]; Baselines := [100000000]; Expected := 0; MaxRTT := 0; l_ObserverTag := [] |}.

Lemma least_load_selects_cheapest_witness :
  snd <$> pickOutbounds sample_load [bs "us"; bs "hk9"] =
     Ok [{| n_Tag := bs "us"; CountAll := 1; CountFail := 1; RTTAverage := 50000000; RTTDeviation := 50000000; RTTDeviationCost := 50000000 |}] /\
  exists l' ns, pickOutbounds sample_load [bs "us"; bs "hk9"] = Ok (l', take (selected_count (ll_settings sample_load) ns) ns) /\
    ns ≡ₚ map (node_of (costs sample_load)) (filter (fun v => qualifies [bs "us"; bs "hk9"] (MaxRTT (ll_settings sample_load)) v = true) sample_status) /\
    StronglySorted cost_le ns /\ cache_ok (costs l') /\ ll_settings l' = ll_settings sample_load /\ same_weights (costs sample_load) (costs l').
Proof.
  split; [vm_compute; reflexivity|].
  apply least_load_selects_cheapest; [apply NewWeightManager_ok|reflexivity].
Defined.

Definition sample_ping : LeastPingStrategy := {| lp_config := {| p_ObserverTag := []; StickyChoice := true |}; lastChoice := bs "gone" |}.

Lemma least_ping_picks_least_witness :
  leastping_PickOutbound sample_ping [bs "us"; bs "hk9"; bs "jp"] = Ok ({| lp_config := lp_config sample_ping; lastChoice := bs "us" |}, bs "us") /\
  leastping_PickOutbound sample_ping [bs "jp"] = Ok (sample_ping, bs "gone") /\
  exists t, leastping_PickOutbound sample_ping [bs "us"] = Ok ({| lp_config := lp_config sample_ping; lastChoice := t |}, t) /\
    ((exists v, v ∈ sample_status /\ t = OutboundTag v /\ ping_candidate [bs "us"] v = true /\
        Forall (fun v' => ping_candidate [bs "us"] v' = true -> Delay v <= Delay v') sample_status) \/
     (Forall (fun v => ping_candidate [bs "us"] v = false) sample_status /\ t = if StickyChoice (lp_config sample_ping) then lastChoice sample_ping else [])).
Proof.
  split; [reflexivity|]. split; [reflexivity|].
  apply least_ping_picks_least; [reflexivity|]. by repeat constructor.
Defined.

Definition sample_balancer : Balancer := {| selectors := [bs "h"; bs "u"]; strategy := LeastLoad sample_load; fallbackTag := bs "direct"; override := [] |}.

Lemma balancer_picks_known_tag_witness :
  match @PickOutbound _ _ _ _ _ some_range (@sample_manager some_range) sample_balancer (fun _ => 0%nat) with
  | Ok (b', t) =>
      t ≠ [] /\ strategy_ok (strategy b') /\
      selectors b' = selectors sample_balancer /\ fallbackTag b' = fallbackTag sample_balancer /\ override b' = override sample_balancer /\
      (if bool_decide (override sample_balancer = []) then t ∈ @Select some_range (@sample_manager some_range) (selectors sample_balancer) \/ t = fallbackTag sample_balancer \/ sticky_choice (strategy sample_balancer) t
       else t = override sample_balancer)
  | Err _ => override sample_balancer = [] /\ fallbackTag sample_balancer = [] /\ @Select some_range (@sample_manager some_range) (selectors sample_balancer) = []
  | Panic => False
  end.
Proof.
  apply (@balancer_picks_known_tag _ _ _ _ _ some_range); [apply (@sample_manager_inv some_range)|by intros [|n]; cbn; lia|done|apply NewWeightManager_ok].
Defined.

(** The fallback strategy takes the first candidate that is alive, but the
    candidates come out of a map: the order of the selectors does not count,
    and which outbound is first depends on how the map happens to be walked. *)
Example fallback_follows_the_map :
  let pick (range : MapRange) := fallback_PickOutbound [] (@Select range (@sample_manager range) [bs "us"; bs "hk9"]) in
  pick some_range = Ok (bs "us") /\ pick other_range = Ok (bs "hk9") \/ pick some_range = Ok (bs "hk9") /\ pick other_range = Ok (bs "us").
Proof. vm_compute. auto. Qed.
End Sample.
