(* ===== verification/DispatchFacts.v ===== *)
(** * Facts about the dispatcher and the router's closing

    What the dispatcher hands a connection to is a registered handler; and the
    two ways in which closing the router while routes are picked ends in a
    panic. *)

From S2P Require Import Prelude Matchers Mph Net RoutingContext Conditions OutboundManager Balancing BalancingFacts AddressCodecFacts Router RoutingFacts Dispatcher.

Local Open Scope Z_scope.

(** ** Picking a route *)

Section Dispatch.
Context `{StringLibs, !RegexpFind, MphRuntime, SortSlice, NetIPX, DnsClient, FloatOverflow, Observatory, MapRange}.
Context (answer : bytes -> option (list bytes)) (Hans : answers answer).

(** A router whose rules and balancers are well formed. *)
Record router_ok (r : Router) : Prop := {
  ro_rules : Forall rule_ok (rules r);
  ro_found : Forall (fun rule => forall t, rule_Balancer rule = Some t -> is_Some (balancers r !! t)) (rules r);
  ro_strategies : map_Forall (fun _ b => strategy_ok (strategy b)) (balancers r);
}.

Context (ohm : Manager) (Hohm : manager_inv ohm) (Intn : nat -> nat) (HIntn : draws Intn).

Lemma with_balancer_ok r t b b' : router_ok r -> balancers r !! t = Some b -> strategy_ok (strategy b') ->
  router_ok (with_balancers r (<[t := b']> (balancers r))).
Proof.
  intros [Hr Hf Hs] Hb Hb'. split; cbn; [done| |by apply map_Forall_insert_2].
  eapply Forall_impl; [exact Hf|]. cbn. intros rule Hrule t' Ht'. rewrite lookup_insert_is_Some. destruct (decide (t = t')); [by left|right; by split; [|apply Hrule]].
Qed.

(** A balancer that has nothing to pick. *)
Definition starved (r : Router) : Prop := exists t b, balancers r !! t = Some b /\ override b = [] /\ fallbackTag b = [] /\ Select ohm (selectors b) = [].

(** A balancer of which the strategy asks an observatory that is missing. *)
Definition unobserved (r : Router) : Prop := exists t b, balancers r !! t = Some b /\ balancer_blind b.

Lemma GetTag_ok r rule : router_ok r -> rule ∈ rules r ->
  match GetTag ohm Intn r rule with
  | Ok (r', tag) => router_ok r' /\ rules r' = rules r /\ closed r' = closed r /\ domainStrategy r' = domainStrategy r
  | Err e => e = ErrEmptyTag /\ starved r
  | Panic => unobserved r
  end.
Proof using HIntn Hohm.
  intros Hr Hin. unfold GetTag. destruct (rule_Balancer rule) as [t|] eqn:Ht; [|done].
  pose proof (ro_found r Hr) as Hf. rewrite Forall_forall in Hf. destruct (Hf rule Hin t Ht) as [b Hb]. rewrite Hb.
  pose proof (PickOutbound_ok ohm b Intn Hohm HIntn (ro_strategies r Hr t b Hb)) as Hp.
  destruct (PickOutbound ohm b Intn) as [[b' tag]|e|]; [|split; [done|]; by exists t, b|by exists t, b]. destruct Hp as (_ & Hs & _). split; [|done]. by eapply with_balancer_ok.
Qed.

Lemma reference_rule_in ctx r rule : reference_rule answer ctx r = Some rule -> rule ∈ rules r.
Proof.
  assert (forall resolving, first_match answer ctx resolving (rules r) = Some rule -> rule ∈ rules r) as Hin.
  { intros resolving (before & after & -> & _)%first_match_Some. set_solver. }
  unfold reference_rule. destruct (first_match answer ctx _ _) eqn:Hf; [intros [= ->]; by eapply Hin|]. destruct (_ && _ && _); [by apply Hin|done].
Qed.

Lemma PickRoute_ok r ctx n : router_ok r -> ctx_ok ctx ->
  match PickRoute ohm Intn r (AsRoutingContext ctx, n) with
  | Ok (r', _) => router_ok r' /\ rules r' = rules r /\ closed r' = closed r /\ closed r = false
  | Err ErrRouterClosed => closed r = true
  | Err ErrNoRuleMatched => closed r = false /\ reference_rule answer ctx r = None
  | Err ErrEmptyTag => starved r
  | Panic => closed r = false /\ unobserved r
  end.
Proof using Hans HIntn Hohm.
  intros Hr Hctx. unfold PickRoute. destruct (closed r) eqn:Hcl; [unfold pickRouteInternal; by rewrite Hcl|].
  pose proof (pickRouteInternal_ok answer Hans ctx Hctx r n (ro_rules r Hr) Hcl) as Hp.
  destruct (reference_rule answer ctx r) as [rule|] eqn:Href; [|by rewrite Hp].
  destruct Hp as (s & -> & _). cbn [mbind outcome_bind]. pose proof (GetTag_ok r rule Hr (reference_rule_in ctx r rule Href)) as Hg.
  destruct (GetTag ohm Intn r rule) as [[r' tag]|e|]; cbn [mbind outcome_bind]; [|by destruct Hg as [-> Hg]|done]. destruct Hg as (Hr' & Hrules & Hcl' & _).
  by rewrite Hcl', Hcl.
Qed.

(** ** Dispatching *)

Lemma default_registered h : GetDefaultHandler ohm = Some h -> registered ohm h.
Proof using Hohm. apply (mi_default ohm Hohm). Qed.
Lemma GetHandler_registered t h : GetHandler ohm t = Some h -> registered ohm h /\ Tag h = t.
Proof using Hohm. intros Hh. destruct (mi_tags ohm Hohm t h Hh) as [<- _]. split; [by left|done]. Qed.

(** Why a connection is not served: the outbound it was forced to does not
    exist, there is no default, the router is closed, or the balancer of its
    rule has nothing to pick. *)
Definition refused (router : option Router) (forced : bytes) : Prop :=
  if bool_decide (forced = []) then GetDefaultHandler ohm = None \/ (exists r, router = Some r /\ (closed r = true \/ starved r))
  else GetHandler ohm forced = None.

(** The outcome of a dispatch. *)
Definition dispatch_ok (router : option Router) (forced : bytes) (ctx : Context) (out : option Router * dispatched) : Prop :=
  (forall r', out.1 = Some r' -> router_ok r') /\
  match out.2 with
  | DispatchedTo h ctx' => registered ohm h /\ (forced ≠ [] -> Tag h = forced) /\ ctx_Inbound ctx' = ctx_Inbound ctx /\ ctx_Outbound ctx' = ctx_Outbound ctx
  | Interrupted => refused router forced
  end.

Lemma dispatch_finish router ctx ctx' r' o : (forall r, r' = Some r -> router_ok r) -> (forall h, o = Some h -> registered ohm h) ->
  ctx_Inbound ctx' = ctx_Inbound ctx -> ctx_Outbound ctx' = ctx_Outbound ctx ->
  dispatch_ok router [] ctx
    match o with
    | Some h => (r', DispatchedTo h ctx')
    | None => match GetDefaultHandler ohm with Some h => (r', DispatchedTo h ctx') | None => (r', Interrupted) end
    end.
Proof using Hohm.
  intros Hr Ho Hi Hob. destruct o as [h|]; [split; [done|]; split; [by apply Ho|done]|].
  destruct (GetDefaultHandler ohm) as [h|] eqn:Hd; (split; [done|]); [split; [by apply default_registered|done]|]. by left.
Qed.

Lemma set_attributes_ends ctx attrs : ctx_Inbound (set_attributes ctx attrs) = ctx_Inbound ctx /\ ctx_Outbound (set_attributes ctx attrs) = ctx_Outbound ctx.
Proof. unfold set_attributes. by case_bool_decide. Qed.

(** Why a dispatch panics. *)
Definition dispatch_blind (router : option Router) (forced : bytes) : Prop := forced = [] /\ exists r, router = Some r /\ closed r = false /\ unobserved r.

Lemma routedDispatch_ok router forced ctx n : (forall r, router = Some r -> router_ok r) -> ctx_ok ctx ->
  match routedDispatch ohm Intn router forced ctx n with Ok out => dispatch_ok router forced ctx out | Err _ => False | Panic => dispatch_blind router forced end.
Proof using Hans HIntn Hohm.
  intros Hr Hctx. unfold routedDispatch. case_bool_decide as Hforced; cbn [negb].
  2: { destruct (GetHandler ohm forced) as [h|] eqn:Hh; (split; [done|]); [by destruct (GetHandler_registered _ _ Hh)|].
       cbn. unfold refused. by rewrite bool_decide_eq_false_2. }
  subst forced. destruct router as [r|]; [|by apply (dispatch_finish None ctx ctx None None)].
  pose proof (PickRoute_ok r ctx n (Hr r eq_refl) Hctx) as Hp. destruct (PickRoute ohm Intn r _) as [[r' route]|e|]; [|destruct e|by split; [|exists r]].
  - destruct Hp as (Hr' & _). destruct (set_attributes_ends ctx (sessionAttributes route)).
    apply dispatch_finish; [by intros r0 [= <-]|intros h Hh; by apply (GetHandler_registered _ _ Hh)|done|done].
  - split; [done|]. right. exists r. split; [done|]. by left.
  - by apply (dispatch_finish (Some r) ctx ctx (Some r) None).
  - split; [done|]. right. exists r. split; [done|]. by right.
Qed.
End Dispatch.

(** ** A whole dispatch *)

Section DispatchProperties.
Context `{StringLibs, !RegexpFind, MphRuntime, SortSlice, NetIPX, DnsClient, FloatOverflow, Observatory, MapRange}.

Lemma after_sniffing_ok IsDomainName d ob content sniffed : dest_ok d -> dest_ok (ob_Target ob) -> dest_ok (RouteTarget ob) ->
  let '(ob', _) := after_sniffing IsDomainName d ob content sniffed in
  dest_ok (ob_Target ob') /\ dest_ok (RouteTarget ob') /\ OriginalTarget ob' = OriginalTarget ob.
Proof.
  intros Hd Ht Hr. unfold after_sniffing. destruct (Enabled _); cbn [negb]; [|done].
  set (ob1 := if existsb _ _ then _ else ob).
  assert (dest_ok (ob_Target ob1) /\ dest_ok (RouteTarget ob1) /\ OriginalTarget ob1 = OriginalTarget ob) as (Ht1 & Hr1 & Ho1) by (unfold ob1; by destruct (existsb _ _)).
  destruct sniffed as [res|]; [|done]. destruct (shouldOverride _ _ && _); [|done].
  assert (forall p n, dest_ok {| dest_Address := ParseAddress (sr_Domain res); dest_Port := p; dest_Network := n |}) as Hp.
  { intros p n _. cbn. destruct (ParseAddress_some (sr_Domain res)) as (a & -> & _). done. }
  destruct (RouteOnly _ && _); cbn; auto.
Qed.

(** C27: Dispatching a connection to a valid destination ends in one of three
    ways.  It is handed to a handler that is registered, the one it was forced
    to if it was, with the destination it asked for still on record; or it is
    refused, and then the forced outbound does not exist, or there is no
    default outbound, or the router is closed, or the balancer of its rule
    matches nothing and has no fallback; or it panics, and then it was not
    forced to an outbound and an open router has a balancer, with no target
    set from outside, of which the strategy asks an observatory that does not
    exist.  The router stays well formed, whatever the sniffer found.  The DNS
    client is one that gives the same answer every time, and the dice stay
    below their bound. *)
Theorem dispatch_serves_or_refuses (IsDomainName : bytes -> bool) (answer : bytes -> option (list bytes)) (ohm : Manager) (Intn : nat -> nat)
    (router : option Router) (forced : bytes) (inbound : option Inbound) (content : option Content) (destination : Destination)
    (sniffed : option SniffResult) (n : nat) :
  answers answer -> manager_inv ohm -> draws Intn -> (forall r, router = Some r -> router_ok r) ->
  (forall i, inbound = Some i -> dest_ok (Source i)) -> IsValid destination = true -> is_Some (dest_Address destination) ->
  match Dispatch IsDomainName ohm Intn router forced inbound content destination sniffed n with
  | Ok (router', out) =>
    (forall r, router' = Some r -> router_ok r) /\
    match out with
    | DispatchedTo h ctx => registered ohm h /\ (forced ≠ [] -> Tag h = forced) /\ ctx_Inbound ctx = inbound /\
        exists ob, ctx_Outbound ctx = Some ob /\ OriginalTarget ob = destination
    | Interrupted => refused ohm router forced
    end
  | Err _ => False
  | Panic => dispatch_blind router forced
  end.
Proof.
  intros Hans Hohm HIntn Hr Hin Hvalid Haddr. unfold Dispatch. rewrite Hvalid. cbn [negb].
  assert (dest_ok destination) as Hd by (by intros _).
  pose proof (fun ob H => after_sniffing_ok IsDomainName destination ob (default new_content content) sniffed Hd H) as Hs.
  set (ob := {| OriginalTarget := destination |}) in *. specialize (Hs ob Hd ltac:(done)).
  destruct (after_sniffing _ _ _ _ _) as [ob' content']. destruct Hs as (Ht & Hrt & Ho).
  pose proof (routedDispatch_ok answer Hans ohm Hohm Intn HIntn router forced {| ctx_Inbound := inbound; ctx_Outbound := Some ob'; ctx_Content := Some content' |} n Hr) as Hout.
  destruct (routedDispatch _ _ _ _ _ _) as [[router' out]|e|]; [|apply Hout; (split; cbn; [exact Hin|]; by intros o [= <-])..].
  destruct Hout as [Hr' Hout]; [split; cbn; [exact Hin|]; by intros o [= <-]|]. split; [done|]. destruct out as [h ctx|]; [|done]. cbn in Hout. destruct Hout as (? & ? & -> & ->).
  split; [done|]. split; [done|]. split; [done|]. by exists ob'.
Qed.
End DispatchProperties.

(** ** Closing the router *)

Module ClosingFacts.
Import Closing.

(** Steps that are not interrupted: a pick that is in the list as soon as it
    has looked, and a first [Close] that does both its parts at once. *)
Inductive whole_step : state -> state -> Prop :=
  | whole_pick s : is_closed s = false -> whole_step s {| is_closed := false; passed := passed s; taskList := S (taskList s); closing := closing s; done_closed := done_closed s |}
  | whole_leave s s' : step s s' -> taskList s = S (taskList s') -> whole_step s s'
  | whole_close s : is_closed s = false ->
      whole_step s {| is_closed := true; passed := passed s; taskList := taskList s; closing := closing s;
                      done_closed := if (taskList s =? 0)%nat then S (done_closed s) else done_closed s |}.

Lemma whole_step_steps s s' : whole_step s s' -> rtc step s s'.
Proof.
  intros [s0 Hs|s0 s1 Hs _|s0 Hs].
  - eapply rtc_l; [by apply pick_check|]. eapply rtc_l; [by eapply pick_enter|]. apply rtc_refl.
  - by apply rtc_once.
  - eapply rtc_l; [apply close_set|]. eapply rtc_l; [by eapply close_lock|]. apply rtc_refl.
Qed.

(** The channel has been closed exactly when the router is closed and no pick
    is left. *)
Definition closed_once (s : state) : Prop := done_closed s = if is_closed s && (taskList s =? 0)%nat then 1%nat else 0%nat.

Lemma whole_step_inv s s' : whole_step s s' -> closed_once s -> closed_once s'.
Proof.
  unfold closed_once. intros [s0 Hs|s0 s1 Hs Ht|s0 Hs]; cbn.
  - by rewrite Hs.
  - inversion Hs; subst; cbn in *; try lia. intros Hd. rewrite Hd.
    destruct (is_closed s0); cbn; [|by rewrite andb_false_r]. rewrite andb_true_r. destruct (Nat.eqb_spec (taskList s0) 0); [lia|]. by destruct (n =? 0)%nat.
  - rewrite Hs. cbn. intros ->. done.
Qed.

Lemma runs_closed_once s : rtc whole_step initial s -> closed_once s.
Proof.
  assert (forall s s', rtc whole_step s s' -> closed_once s -> closed_once s') as Hinv.
  { induction 1 as [|s1 s2 s3 Hs _ IH]; [done|]. intros H. by eapply IH, whole_step_inv. }
  intros Hr. by apply (Hinv initial s Hr).
Qed.

(** C37: As long as no step is interrupted and [Close] is called once (only a
    first call is one of these steps), the router's done channel is closed
    once, by whoever comes last, [Close] or the last pick.  Two interleavings
    of one pick and one [Close] close it twice, which is a panic: a pick that
    saw the router open enters the list after [Close] found it empty; or the
    last pick leaves between the two halves of [Close]. *)
Theorem router_close_races :
  (forall s, rtc whole_step initial s -> rtc step initial s /\ done_closed s = if is_closed s && (taskList s =? 0)%nat then 1%nat else 0%nat) /\
  (exists s1 s2 s3 s4 s5, step initial s1 /\ passed s1 = 1%nat /\ step s1 s2 /\ is_closed s2 = true /\ step s2 s3 /\ done_closed s3 = 1%nat /\
     step s3 s4 /\ taskList s4 = 1%nat /\ step s4 s5 /\ done_closed s5 = 2%nat) /\
  (exists s1 s2 s3 s4 s5, step initial s1 /\ step s1 s2 /\ taskList s2 = 1%nat /\ step s2 s3 /\ is_closed s3 = true /\ step s3 s4 /\ taskList s4 = 0%nat /\
     step s4 s5 /\ closing s5 = 0%nat /\ done_closed s5 = 2%nat).
Proof.
  split; [|split].
  - intros s Hs. split; [|by apply runs_closed_once]. clear -Hs. induction Hs as [|s1 s2 s3 H _ IH]; [done|]. etransitivity; [by apply whole_step_steps|exact IH].
  - do 5 eexists. split; [by apply pick_check|]. split; [done|]. split; [apply close_set|]. split; [done|]. split; [by apply (close_lock _ 0)|]. split; [done|].
    split; [by apply (pick_enter _ 0)|]. split; [done|]. split; [by apply (pick_leave _ 0)|]. done.
  - do 5 eexists. split; [by apply pick_check|]. split; [by apply (pick_enter _ 0)|]. split; [done|]. split; [apply close_set|]. split; [done|].
    split; [by apply (pick_leave _ 0)|]. split; [done|]. split; [by apply (close_lock _ 0)|]. done.
Qed.
End ClosingFacts.

(** ** A concrete dispatch *)

Section Sample.
#[local] Existing Instance ascii_libs.
#[local] Existing Instance merge_sort_slice.
#[local] Existing Instance some_range.
#[local] Existing Instance no_find.
#[local] Existing Instance sample_runtime.
#[local] Existing Instance sample_overflow.
#[local] Existing Instance sample_observatory.
#[local] Existing Instance sample_client.

Lemma sample_router_ok : router_ok sample_router.
Proof.
  assert (Forall2 (built_from sample_answer sample_ctx) (cfg_Rule sample_config) (rules sample_router) /\ domainStrategy sample_router = cfg_DomainStrategy sample_config /\
    closed sample_router = false /\ container_ok (fun _ => []) sample_init.1 /\
    Forall (fun rule => forall t, rule_Balancer rule = Some t -> is_Some (balancers sample_router !! t)) (rules sample_router)) as (Hb & _ & _ & _ & Hf).
  { eapply (Router_Init_ok sample_answer sample_ctx (fun _ => []) 0 sample_config []); [exact sample_rules_ok|exact (Forall_nil_2 _)|apply ToLower_ascii; vm_compute; reflexivity|].
    apply built_ok. vm_compute. reflexivity. }
  split; [|exact Hf|].
  - clear -Hb. induction Hb; constructor; [by eapply bf_ok|done].
  - assert (balancers sample_router = ∅) as -> by (vm_compute; reflexivity). apply map_Forall_empty.
Qed.

Definition dispatch_manager : Manager :=
  foldl (fun m op => (run m op).1) New [OpAdd (plain_handler 0 (bs "two")); OpAdd (plain_handler 1 (bs "one"))].

Lemma dispatch_serves_or_refuses_witness :
  match Dispatch (fun _ => true) dispatch_manager (fun _ => 0%nat) (Some sample_router) [] None None (TCPDestination (Some (domainAddress (bs "b.org"))) 443) None 0%nat with
  | Ok (router', out) =>
    (forall r, router' = Some r -> router_ok r) /\
    match out with
    | DispatchedTo h ctx => registered dispatch_manager h /\ (@nil byte ≠ [] -> Tag h = []) /\ ctx_Inbound ctx = None /\
        exists ob, ctx_Outbound ctx = Some ob /\ OriginalTarget ob = TCPDestination (Some (domainAddress (bs "b.org"))) 443
    | Interrupted => refused dispatch_manager (Some sample_router) []
    end
  | Err _ => False
  | Panic => dispatch_blind (Some sample_router) []
  end.
Proof.
  apply (dispatch_serves_or_refuses (fun _ => true) sample_answer).
  - intros n d. reflexivity.
  - apply runs_inv, New_inv.
  - by intros [|n]; cbn; lia.
  - intros r [= <-]. exact sample_router_ok.
  - done.
  - reflexivity.
  - by eexists.
Defined.

(** The second rule of the sample takes the connection, by the address its name
    has. *)
Example sample_dispatch :
  match Dispatch (fun _ => true) dispatch_manager (fun _ => 0%nat) (Some sample_router) [] None None (TCPDestination (Some (domainAddress (bs "b.org"))) 443) None 0%nat with
  | Ok (_, DispatchedTo h _) => Tag h = bs "two"
  | _ => False
  end.
Proof. vm_compute. reflexivity. Qed.
End Sample.

(** A balancer by least ping with no observatory in the instance: the
    first connection it is asked about panics. *)
Lemma missing_observatory_panics `{StringLibs, !RegexpFind, FloatOverflow, SortSlice, MapRange} (ohm : Manager) Intn l b :
  strategy b = LeastPing l -> override b = [] -> @PickOutbound _ _ _ _ (fun _ => Panic) _ ohm b Intn = Panic.
Proof. intros Hs Ho. unfold PickOutbound. by rewrite Ho, Hs. Qed.
