(* ===== verification/RangeList.v ===== *)
(** * Range lists, [common/rangelist/]

    A set of integers kept as sorted half-open ranges; the QUIC sniffer keeps
    in one which bytes of the handshake have arrived. *)

From S2P Require Import Prelude.

Local Open Scope Z_scope.

(** src/common/rangelist/rangelist.go:22-27 RangeList *)
Record range := { minVal : Z; maxVal : Z }.

Abbreviation RangeList := (list range).

(** src/common/rangelist/rangelist.go NewRangeList *)
Definition NewRangeList : RangeList := [].

(** The ranges that end before [lo], from the left.
    src/common/rangelist/rangelist.go:32-34 RangeList.Add *)
Fixpoint scan_left (l : list range) (lo : Z) : nat :=
  match l with
  | e :: l' => if maxVal e <? lo then S (scan_left l' lo) else O
  | [] => O
  end.

(** The ranges that begin after [hi], from the right.
    src/common/rangelist/rangelist.go:35-37 RangeList.Add *)
Fixpoint scan_right (rl : list range) (hi : Z) : nat :=
  match rl with
  | e :: rl' => if hi <? minVal e then S (scan_right rl' hi) else O
  | [] => O
  end.

(** [right] is the number of ranges up to the last one that is kept in sight,
    one more than the code's index.
    src/common/rangelist/rangelist.go RangeList.Add *)
Definition Add (r : RangeList) (lo hi : Z) : RangeList :=
  let left := scan_left r lo in
  let right := (length r - scan_right (rev r) hi)%nat in
  let '(lo, hi) :=
    match r !! left, r !! (right - 1)%nat with
    | Some l, Some h => if (left <? right)%nat then (Z.min lo (minVal l), Z.max hi (maxVal h)) else (lo, hi)
    | _, _ => (lo, hi)
    end in
  take left r ++ {| minVal := lo; maxVal := hi |} :: drop right r.

(** The binary search; [i] and [j] are Go's ints.  [None] is fuel that ran
    out, or an index out of range.
    src/common/rangelist/rangelist.go:52-64 RangeList.In *)
Fixpoint search (fuel : nat) (r : RangeList) (i j lo hi : Z) : option bool :=
  match fuel with
  | O => None
  | S fuel' =>
      if j <? i then Some false
      else
        let m := i + Z.quot (j - i) 2 in
        match r !! Z.to_nat m with
        | None => None
        | Some e =>
            if hi <=? minVal e then search fuel' r i (m - 1) lo hi
            else if maxVal e <=? lo then search fuel' r (m + 1) j lo hi
            else Some ((minVal e <=? lo) && (hi <=? maxVal e))
        end
  end.

(** One turn more than there are ranges is fuel enough.
    src/common/rangelist/rangelist.go RangeList.In *)
Definition In (r : RangeList) (lo hi : Z) : option bool :=
  match r with [] => Some false | _ => search (S (length r)) r 0 (Z.of_nat (length r) - 1) lo hi end.

(** ** Meaning *)

(** A point is in a list when a range has it. *)
Definition covers (r : RangeList) (x : Z) : Prop := exists e, e ∈ r /\ minVal e <= x < maxVal e.

(** Ranges are in order and do not touch. *)
Definition before (a b : range) : Prop := maxVal a < minVal b.

Definition ordered (r : RangeList) : Prop := StronglySorted before r /\ Forall (fun e => minVal e <= maxVal e) r.

Lemma covers_app a b x : covers (a ++ b) x <-> covers a x \/ covers b x.
Proof. unfold covers. setoid_rewrite elem_of_app. naive_solver. Qed.

Lemma covers_cons e r x : covers (e :: r) x <-> minVal e <= x < maxVal e \/ covers r x.
Proof. unfold covers. setoid_rewrite elem_of_cons. naive_solver. Qed.

Lemma covers_nil x : ~ covers [] x.
Proof. intros (e & ?%not_elem_of_nil & _). done. Qed.

Lemma ordered_app a b : ordered (a ++ b) <-> ordered a /\ ordered b /\ (forall x y, x ∈ a -> y ∈ b -> before x y).
Proof.
  unfold ordered. rewrite Forall_app. split.
  - intros [Hs [? ?]]. split; [|split].
    + split; [by eapply StronglySorted_app_1_l|done].
    + split; [by eapply StronglySorted_app_1_r|done].
    + intros x y Hx Hy. by eapply (StronglySorted_app_1_elem_of before a b).
  - intros ([? ?] & [? ?] & Hc). split; [|done]. by apply StronglySorted_app_2.
Qed.

(** ** Adding *)

Lemma ordered_le e l : ordered (e :: l) -> Forall (fun x => maxVal e < minVal x /\ minVal x <= maxVal x) l /\ minVal e <= maxVal e.
Proof.
  intros [Hs Hf]. apply StronglySorted_inv in Hs as [_ Hb]. inversion Hf as [|? ? ? Hl]; subst. split; [|done].
  rewrite Forall_forall in *. intros x Hx. split; [by apply Hb|by apply Hl].
Qed.

Lemma ordered_tail e l : ordered (e :: l) -> ordered l.
Proof. intros [Hs Hf]. apply StronglySorted_inv in Hs as [Hs _]. inversion Hf; subst. by split. Qed.

(** The ranges before [lo], those that [lo, hi] meets and those after [hi]. *)
Lemma ordered_split r lo hi : ordered r -> lo <= hi ->
  exists a m c, r = a ++ m ++ c /\ Forall (fun e => maxVal e < lo) a /\
    Forall (fun e => lo <= maxVal e /\ minVal e <= hi) m /\ Forall (fun e => hi < minVal e /\ lo <= maxVal e) c.
Proof.
  intros Ho Hlh. induction r as [|e r IH]; [by exists [], [], []|].
  destruct (ordered_le _ _ Ho) as [Hle He]. destruct (IH (ordered_tail _ _ Ho)) as (a & m & c & -> & Ha & Hm & Hc).
  destruct (Z.lt_ge_cases (maxVal e) lo); [exists (e :: a), m, c; split; [done|]; split; [by constructor|done]|].
  assert (a = []) as ->.
  { destruct a as [|x a]; [done|]. inversion Ha; subst. cbn [app] in Hle. inversion Hle; subst. lia. }
  destruct (Z.le_gt_cases (minVal e) hi).
  - exists [], (e :: m), c. split; [done|]. split; [done|]. split; [by constructor|done].
  - assert (m = []) as ->.
    { destruct m as [|x m]; [done|]. inversion Hm; subst. cbn [app] in Hle. inversion Hle; subst. lia. }
    exists [], [], (e :: c). split; [done|]. split; [done|]. split; [done|]. constructor; [lia|done].
Qed.

Lemma scan_left_app a b lo : Forall (fun e => maxVal e < lo) a -> Forall (fun e => lo <= maxVal e) b -> scan_left (a ++ b) lo = length a.
Proof.
  intros Ha Hb. induction Ha as [|e a He _ IH]; cbn [app scan_left length].
  - destruct Hb as [|e b He _]; [done|]. cbn [scan_left]. by destruct (Z.ltb_spec (maxVal e) lo); [lia|].
  - destruct (Z.ltb_spec (maxVal e) lo); [by rewrite IH|lia].
Qed.

Lemma scan_right_app a b hi : Forall (fun e => hi < minVal e) a -> Forall (fun e => minVal e <= hi) b -> scan_right (a ++ b) hi = length a.
Proof.
  intros Ha Hb. induction Ha as [|e a He _ IH]; cbn [app scan_right length].
  - destruct Hb as [|e b He _]; [done|]. cbn [scan_right]. by destruct (Z.ltb_spec hi (minVal e)); [lia|].
  - destruct (Z.ltb_spec hi (minVal e)); [by rewrite IH|lia].
Qed.

(** What [Add] puts in the middle. *)
Definition hull (m : list range) (lo hi : Z) : range :=
  match head m, last m with
  | Some l, Some h => {| minVal := Z.min lo (minVal l); maxVal := Z.max hi (maxVal h) |}
  | _, _ => {| minVal := lo; maxVal := hi |}
  end.

Lemma Add_split a m c lo hi : ordered (a ++ m ++ c) -> lo <= hi -> Forall (fun e => maxVal e < lo) a ->
  Forall (fun e => lo <= maxVal e /\ minVal e <= hi) m -> Forall (fun e => hi < minVal e /\ lo <= maxVal e) c ->
  Add (a ++ m ++ c) lo hi = a ++ hull m lo hi :: c.
Proof.
  intros [_ Hf] Hlh Ha Hm Hc. apply Forall_app in Hf as [Hfa _].
  assert (scan_left (a ++ m ++ c) lo = length a) as Hl.
  { apply scan_left_app; [done|]. apply Forall_app. split; eapply Forall_impl; try done; cbn; lia. }
  assert (scan_right (rev (a ++ m ++ c)) hi = length c) as Hr.
  { rewrite !rev_app_distr, <-app_assoc, <-(length_rev c). apply scan_right_app.
    - apply Forall_rev_iff. eapply Forall_impl; [done|]. cbn. lia.
    - apply Forall_app. split; apply Forall_rev_iff; [by eapply Forall_impl; [done|]; cbn; lia|].
      rewrite Forall_forall in *. intros e He. specialize (Ha e He). specialize (Hfa e He). cbn in *. lia. }
  unfold Add. rewrite Hl, Hr. replace (length (a ++ m ++ c) - length c)%nat with (length a + length m)%nat by (rewrite !length_app; lia).
  rewrite take_app_length, <-length_app, app_assoc, drop_app_length.
  destruct m as [|x m _] using rev_ind.
  - rewrite app_nil_r, Nat.ltb_irrefl. by repeat case_match; simplify_eq.
  - rewrite (app_assoc a m [x]).
    assert ((((a ++ m) ++ [x]) ++ c) !! length a = head (m ++ [x])) as Hh.
    { rewrite <-!app_assoc, lookup_app_r, Nat.sub_diag by lia. by destruct m. }
    assert ((((a ++ m) ++ [x]) ++ c) !! (length ((a ++ m) ++ [x]) - 1)%nat = Some x) as Hx.
    { rewrite length_snoc, Nat.sub_succ, Nat.sub_0_r, <-app_assoc. by apply list_lookup_middle. }
    rewrite Hx, Hh. unfold hull. rewrite last_snoc.
    destruct (Nat.ltb_spec (length a) (length ((a ++ m) ++ [x]))) as [_|Hn]; [by destruct (head _)|].
    rewrite !length_app in Hn. cbn in Hn. lia.
Qed.

Lemma ordered_head_last m x y : ordered m -> head m = Some x -> last m = Some y ->
  Forall (fun e => minVal x <= minVal e /\ maxVal e <= maxVal y) m.
Proof.
  intros Ho Hx Hy. rewrite Forall_forall. intros e He. split.
  - destruct m as [|x' m]; [done|]. injection Hx as ->. destruct (ordered_le _ _ Ho) as [Hle ?].
    apply elem_of_cons in He as [->|He]; [done|]. rewrite Forall_forall in Hle. specialize (Hle e He). lia.
  - apply last_Some in Hy as [k ->]. apply ordered_app in Ho as (_ & [_ Hf] & Hb).
    apply elem_of_app in He as [He | ->%list_elem_of_singleton]; [|done].
    specialize (Hb e y He ltac:(by left)). unfold before in Hb. inversion Hf; subst. lia.
Qed.

(** The middle part and the new range cover what their hull does. *)
Lemma covers_hull m lo hi x : ordered m -> Forall (fun e => lo <= maxVal e /\ minVal e <= hi) m ->
  (minVal (hull m lo hi) <= x < maxVal (hull m lo hi)) <-> (covers m x \/ lo <= x < hi).
Proof.
  intros Ho Hm. unfold hull. destruct (head m) as [l|] eqn:Hl, (last m) as [h|] eqn:Hh; cbn.
  - pose proof (ordered_head_last m l h Ho Hl Hh) as Hb. rewrite Forall_forall in Hm, Hb.
    assert (l ∈ m) as Hlm by (destruct m; [done|]; injection Hl as ->; by left).
    assert (h ∈ m) as Hhm by (apply last_Some in Hh as [k ->]; set_solver).
    split.
    + intros Hx. destruct (Z.lt_ge_cases x lo).
      { left. exists l. specialize (Hm l Hlm). split; [done|lia]. }
      destruct (Z.lt_ge_cases x hi); [by right|].
      left. exists h. specialize (Hm h Hhm). split; [done|lia].
    + intros [(e & He & Hx) | Hx]; [|lia]. specialize (Hb e He). lia.
  - by destruct m using rev_ind; rewrite ?last_snoc in Hh.
  - by destruct m.
  - destruct m; [|done]. split; [tauto|]. by intros [?%covers_nil|].
Qed.

Lemma hull_bounds m lo hi : ordered m -> lo <= hi -> minVal (hull m lo hi) <= lo /\ hi <= maxVal (hull m lo hi) /\
  (forall z, z < lo -> Forall (fun e => z < minVal e) m -> z < minVal (hull m lo hi)) /\
  (forall z, hi < z -> Forall (fun e => maxVal e < z) m -> maxVal (hull m lo hi) < z).
Proof.
  intros Ho Hlh. unfold hull. destruct (head m) as [l|] eqn:Hl, (last m) as [h|] eqn:Hh; cbn; try (split; [lia|]; split; [lia|]; split; intros; lia).
  split; [lia|]. split; [lia|]. split; intros z Hz Hm; rewrite Forall_forall in Hm.
  - assert (l ∈ m) as Hlm by (destruct m; [done|]; injection Hl as ->; by left). specialize (Hm l Hlm). lia.
  - assert (h ∈ m) as Hhm by (apply last_Some in Hh as [k ->]; set_solver). specialize (Hm h Hhm). lia.
Qed.

Lemma Add_ordered r lo hi : ordered r -> lo <= hi -> ordered (Add r lo hi).
Proof.
  intros Ho Hlh. destruct (ordered_split r lo hi Ho Hlh) as (a & m & c & -> & Ha & Hm & Hc). rewrite Add_split by done.
  apply ordered_app in Ho as (Hoa & Ho & Hab). apply ordered_app in Ho as (Hom & Hoc & Hbc).
  destruct (hull_bounds m lo hi Hom Hlh) as (Hlo & Hhi & Hlow & Hhigh).
  assert (Forall (fun x => before (hull m lo hi) x) c) as Hnew.
  { rewrite Forall_forall in *. intros x Hx. apply Hhigh; [by apply Hc|]. apply Forall_forall. intros e He. by apply Hbc. }
  change (hull m lo hi :: c) with ([hull m lo hi] ++ c). apply ordered_app. split; [done|]. split.
  - apply ordered_app. split; [|split; [done|]].
    + split; [by repeat constructor|]. repeat constructor. lia.
    + intros x y ->%list_elem_of_singleton Hy. rewrite Forall_forall in Hnew. by apply Hnew.
  - intros x y Hx [->%list_elem_of_singleton | Hy]%elem_of_app; [|apply Hab; [done|apply elem_of_app; by right]].
    rewrite Forall_forall in Ha. apply Hlow; [by apply Ha|]. apply Forall_forall. intros e He. apply (Hab x e Hx). apply elem_of_app. by left.
Qed.

Lemma Add_covers r lo hi x : ordered r -> lo <= hi -> covers (Add r lo hi) x <-> (covers r x \/ lo <= x < hi).
Proof.
  intros Ho Hlh. destruct (ordered_split r lo hi Ho Hlh) as (a & m & c & -> & Ha & Hm & Hc). rewrite Add_split by done.
  apply ordered_app in Ho as (_ & Ho & _). apply ordered_app in Ho as (Hom & _ & _).
  rewrite !covers_app, covers_cons, (covers_hull m lo hi x Hom Hm). tauto.
Qed.

(** ** Searching *)

Lemma StronglySorted_lookup {A} (R : relation A) (l : list A) i j x y : StronglySorted R l -> l !! i = Some x -> l !! j = Some y -> (i < j)%nat -> R x y.
Proof.
  intros Hs Hi Hj Hij. apply (StronglySorted_app_1_elem_of R (take j l) (drop j l)); [by rewrite take_drop| |].
  - apply list_elem_of_lookup. exists i. by rewrite lookup_take_lt.
  - apply list_elem_of_lookup. exists 0%nat. by rewrite lookup_drop, Nat.add_0_r.
Qed.

(** The search ends: a turn leaves less between [i] and [j] than there was. *)
Lemma search_total fuel r i j lo hi : 0 <= i -> j < Z.of_nat (length r) -> Z.max 0 (j - i + 1) < Z.of_nat fuel -> is_Some (search fuel r i j lo hi).
Proof.
  revert i j. induction fuel as [|fuel IH]; intros i j Hi Hj Hf; [lia|]. cbn [search]. destruct (Z.ltb_spec j i); [by eexists|].
  assert (0 <= Z.quot (j - i) 2 <= j - i) as Hq by (rewrite Z.quot_div_nonneg by lia; solve_wrap). set (m := i + Z.quot (j - i) 2) in *.
  destruct (lookup_lt_is_Some_2 r (Z.to_nat m)) as [e ->]; [lia|]. destruct (hi <=? minVal e); [apply IH; lia|]. destruct (maxVal e <=? lo); [apply IH; lia|by eexists].
Qed.

Lemma In_total r lo hi : is_Some (In r lo hi).
Proof. unfold In. destruct r as [|e r]; [by eexists|]. apply search_total; lia. Qed.

(** Between [i] and [j] is every range that can meet the question. *)
Lemma search_spec fuel r i j lo hi : ordered r -> lo < hi -> 0 <= i -> j < Z.of_nat (length r) -> j - i + 1 < Z.of_nat fuel ->
  (forall k e, r !! k = Some e -> Z.of_nat k < i -> maxVal e <= lo) ->
  (forall k e, r !! k = Some e -> j < Z.of_nat k -> hi <= minVal e) ->
  search fuel r i j lo hi = Some true <-> exists e, e ∈ r /\ minVal e <= lo /\ hi <= maxVal e.
Proof.
  intros Ho Hlh. revert i j. induction fuel as [|fuel IH]; intros i j Hi Hj Hf Hlow Hhigh; cbn [search].
  1: { split; [done|]. intros (e & [k Hk]%list_elem_of_lookup & ? & ?). destruct (Z.lt_ge_cases (Z.of_nat k) i) as [Hki|].
       - specialize (Hlow k e Hk Hki). lia.
       - specialize (Hhigh k e Hk ltac:(lia)). lia. }
  destruct (Z.ltb_spec j i).
  { split; [done|]. intros (e & [k Hk]%list_elem_of_lookup & ? & ?). destruct (Z.lt_ge_cases (Z.of_nat k) i) as [Hki|].
    - specialize (Hlow k e Hk Hki). lia.
    - specialize (Hhigh k e Hk ltac:(lia)). lia. }
  assert (0 <= Z.quot (j - i) 2 <= j - i) as Hq by (rewrite Z.quot_div_nonneg by lia; solve_wrap).
  set (m := i + Z.quot (j - i) 2) in *.
  destruct (lookup_lt_is_Some_2 r (Z.to_nat m)) as [e He]; [lia|]. rewrite He.
  assert (forall x, x ∈ r -> x = e \/ maxVal x < minVal e \/ maxVal e < minVal x) as Hcmp.
  { intros x [k Hk]%list_elem_of_lookup. destruct Ho as [Hs _]. destruct (Nat.lt_total k (Z.to_nat m)) as [Hlt | [-> | Hlt]].
    - right. left. by apply (StronglySorted_lookup before r k (Z.to_nat m)).
    - left. congruence.
    - right. right. by apply (StronglySorted_lookup before r (Z.to_nat m) k). }
  assert (e ∈ r) as Her by (by eapply list_elem_of_lookup_2). destruct Ho as [Hs Hle].
  assert (forall x, x ∈ r -> minVal x <= maxVal x) as Hle0 by (by apply Forall_forall). pose proof (Hle0 e Her).
  destruct (Z.leb_spec hi (minVal e)); [|destruct (Z.leb_spec (maxVal e) lo)].
  - apply IH; try lia; [done|]. intros k x Hk Hkm. destruct (Nat.eq_dec k (Z.to_nat m)) as [->|Hne]; [congruence|].
    pose proof (StronglySorted_lookup before r (Z.to_nat m) k e x Hs He Hk ltac:(lia)) as Hb. unfold before in Hb. lia.
  - apply IH; try lia; [|done]. intros k x Hk Hkm. destruct (Nat.eq_dec k (Z.to_nat m)) as [->|Hne]; [congruence|].
    pose proof (StronglySorted_lookup before r k (Z.to_nat m) x e Hs Hk He ltac:(lia)) as Hb. unfold before in Hb. lia.
  - rewrite (inj_iff Some), andb_true_iff, !Z.leb_le. split; [intros [? ?]; by exists e|].
    intros (x & Hx & ? & ?). destruct (Hcmp x Hx) as [->|[?|?]]; [done| |]; lia.
Qed.

(** A range is covered exactly when one of the list's ranges has all of it. *)
Lemma covered_by_one r lo hi : ordered r -> lo < hi ->
  (forall x, lo <= x < hi -> covers r x) <-> exists e, e ∈ r /\ minVal e <= lo /\ hi <= maxVal e.
Proof.
  intros Ho Hlh. split; [|intros (e & He & ? & ?) x Hx; exists e; split; [done|lia]].
  intros Hall. destruct (Hall lo ltac:(lia)) as (e & He & Hlo). exists e. split; [done|]. split; [lia|].
  destruct (Z.le_gt_cases hi (maxVal e)); [done|]. exfalso. destruct (Hall (maxVal e) ltac:(lia)) as (x & Hx & Hin).
  destruct Ho as [Hs Hf]. apply list_elem_of_lookup in He as [i Hi]. apply list_elem_of_lookup in Hx as [j Hj].
  destruct (Nat.lt_total i j) as [Hlt | [-> | Hlt]].
  - pose proof (StronglySorted_lookup before r i j e x Hs Hi Hj Hlt) as Hb. unfold before in Hb. lia.
  - simplify_eq. lia.
  - pose proof (StronglySorted_lookup before r j i x e Hs Hj Hi Hlt) as Hb. unfold before in Hb. lia.
Qed.

Lemma In_spec r lo hi : ordered r -> lo < hi -> In r lo hi = Some true <-> (forall x, lo <= x < hi -> covers r x).
Proof.
  intros Ho Hlh. rewrite covered_by_one by done. destruct (decide (r = [])) as [->|Hr].
  - split; [done|]. by intros (x & ?%not_elem_of_nil & _).
  - replace (In r lo hi) with (search (S (length r)) r 0 (Z.of_nat (length r) - 1) lo hi) by (by destruct r). apply search_spec; try done; try lia.
    intros k x Hk%lookup_lt_Some Hlk. lia.
Qed.

(** What a list has after a sequence of additions. *)
Definition add_all (rs : list (Z * Z)) : RangeList := foldl (fun r '(lo, hi) => Add r lo hi) NewRangeList rs.

Lemma add_all_spec rs : Forall (fun '(lo, hi) => lo <= hi) rs ->
  ordered (add_all rs) /\ forall x, covers (add_all rs) x <-> exists lo hi, (lo, hi) ∈ rs /\ lo <= x < hi.
Proof.
  induction rs as [|[lo hi] rs IH] using rev_ind; intros Hf.
  - split; [by repeat constructor|]. intros x. split; [by intros ?%covers_nil|]. by intros (? & ? & ?%not_elem_of_nil & _).
  - apply Forall_app in Hf as [Hf Hl]. inversion Hl as [|? ? Hlh _]; subst. destruct (IH Hf) as [Ho Hc].
    unfold add_all in *. rewrite foldl_app. cbn [foldl]. split; [by apply Add_ordered|].
    intros x. rewrite Add_covers, Hc by done. setoid_rewrite elem_of_app. split.
    + intros [(l & h & Hin & Hx) | Hx]; [by exists l, h; split; [left|]|]. exists lo, hi. split; [right; by left|done].
    + intros (l & h & [Hin | [= -> ->]%list_elem_of_singleton] & Hx); [left; by exists l, h|by right].
Qed.

(** C5: the range list is the set it stands for: after any additions, the
    question whether a non-empty range is present is answered, and with yes
    exactly when every point of it was in some added range, also when several
    touching or overlapping additions are needed to cover it.  The binary
    search ends within one turn more than the list has ranges, without an
    index out of range, also on lists that are not in order. *)
Theorem range_list_exact rs lo hi : Forall (fun '(l, h) => l <= h) rs -> lo < hi ->
  (forall r l h, exists b, In r l h = Some b) /\
  (In (add_all rs) lo hi = Some true <-> forall x, lo <= x < hi -> exists l h, (l, h) ∈ rs /\ l <= x < h).
Proof.
  intros Hrs Hlh. split; [apply In_total|]. destruct (add_all_spec rs Hrs) as [Ho Hc]. rewrite In_spec by done. by setoid_rewrite Hc.
Qed.

Lemma range_list_exact_witness : In (add_all [(10, 20); (0, 5); (5, 10)]) 3 15 = Some true.
Proof.
  apply (range_list_exact [(10, 20); (0, 5); (5, 10)] 3 15).
  - repeat constructor; lia.
  - lia.
  - intros x Hx. destruct (Z.lt_ge_cases x 5); [exists 0, 5; split; [set_solver|lia]|].
    destruct (Z.lt_ge_cases x 10); [exists 5, 10; split; [set_solver|lia]|]. exists 10, 20. split; [set_solver|lia].
Defined.
