(* ===== verification/Sniffing.v ===== *)
(** * What the protocol sniffers share, [common/protocol/]

    A sniffer looks at the first bytes of a connection and says what protocol
    they are, that it needs more of them, or that they are something else.
    Indexing and slicing are Go's, with their run-time panics. *)

From S2P Require Import Prelude.

Local Open Scope Z_scope.

(** The errors the callers tell apart, and the others by their place.
    src/common/protocol/protocol.go:9-9 ErrProtoNeedMoreData *)
Inductive sniff_error :=
  | ErrNoClue            (* common.ErrNoClue: it may still become a match *)
  | ErrProtoNeedMoreData (* it matches, but the answer needs more data *)
  | errNotTLS | errNotClientHello | errNotHTTPMethod | errBadHost
  | errNotBittorrent | errNotDNS | errNotQuic | errNotQuicInitial
  | ErrShortBuffer | ErrUnexpectedEOF | ErrDecrypt
  | errUnknownContent | errSniffingTimeout | errContextDone | errCache.

#[export] Instance sniff_error_eq_dec : EqDecision sniff_error.
Proof. solve_decision. Defined.

(** [b[i]]. *)
Definition index {E A} (b : list A) (i : Z) : outcome E A :=
  if i <? 0 then Panic else match b !! Z.to_nat i with Some x => Ok x | None => Panic end.

(** [b[lo:hi]], [b[lo:]] and [b[:hi]]. *)
Definition sub {E A} (b : list A) (lo hi : Z) : outcome E (list A) :=
  match slice lo hi b with Some x => Ok x | None => Panic end.
Definition sub_from {E A} (b : list A) (lo : Z) : outcome E (list A) := sub b lo (Z.of_nat (length b)).
Definition sub_to {E A} (b : list A) (hi : Z) : outcome E (list A) := sub b 0 hi.

(** [int(b[i])<<8 | int(b[i+1])]. *)
Definition word_at {E} (b : bytes) (i : Z) : outcome E Z :=
  x ← index b i; y ← index b (i + 1); Ok (Z.lor (Z.shiftl (byte_to_Z x) 8) (byte_to_Z y)).

Definition blen {A} (b : list A) : Z := Z.of_nat (length b).

Lemma index_ok {E A} (b : list A) i x : 0 <= i -> b !! Z.to_nat i = Some x -> @index E A b i = Ok x.
Proof. intros Hi Hx. unfold index. destruct (Z.ltb_spec i 0); [lia|]. by rewrite Hx. Qed.

Lemma index_in {E A} (b : list A) i : 0 <= i < blen b -> exists x, b !! Z.to_nat i = Some x /\ @index E A b i = Ok x.
Proof.
  intros Hi. unfold blen in *. destruct (lookup_lt_is_Some_2 b (Z.to_nat i)) as [x Hx]; [lia|]. exists x. split; [done|]. by apply index_ok; [lia|].
Qed.

Lemma sub_ok {E A} (b : list A) lo hi : 0 <= lo -> lo <= hi -> hi <= blen b ->
  @sub E A b lo hi = Ok (take (Z.to_nat (hi - lo)) (drop (Z.to_nat lo) b)).
Proof. intros. unfold sub. by rewrite slice_ok. Qed.

Lemma sub_from_ok {E A} (b : list A) lo : 0 <= lo <= blen b -> @sub_from E A b lo = Ok (drop (Z.to_nat lo) b).
Proof.
  intros. unfold sub_from. rewrite sub_ok by (unfold blen in *; lia). f_equal. apply take_ge. rewrite length_drop. unfold blen in *. lia.
Qed.

Lemma sub_to_ok {E A} (b : list A) hi : 0 <= hi <= blen b -> @sub_to E A b hi = Ok (take (Z.to_nat hi) b).
Proof. intros. unfold sub_to. rewrite sub_ok by lia. by rewrite Z.sub_0_r. Qed.

Lemma word_at_in {E} (b : bytes) i : 0 <= i -> i + 1 < blen b -> exists z, @word_at E b i = Ok z /\ 0 <= z < 2 ^ 16.
Proof.
  intros Hi Hl. unfold word_at. destruct (@index_in E _ b i) as (x & _ & Hx); [lia|]. destruct (@index_in E _ b (i + 1)) as (y & _ & Hy); [lia|].
  rewrite Hx. cbn [mbind outcome_bind]. rewrite Hy. cbn [mbind outcome_bind]. eexists. split; [done|].
  rewrite lor_byte_add. pose proof (byte_to_Z_range x). pose proof (byte_to_Z_range y). lia.
Qed.

(** A number written in two bytes where a word is read. *)
Lemma word_at_put16 {E} (a : bytes) z rest i : i = blen a -> 0 <= z < 2 ^ 16 -> @word_at E (a ++ put16 z ++ rest) i = Ok z.
Proof.
  intros -> Hz. unfold word_at, blen. pose proof (get16_put16 z []) as Hg. rewrite app_nil_r in Hg.
  destruct (put16 z) as [|x [|y [|? ?]]] eqn:E1; try (apply (f_equal length) in E1; unfold put16 in E1; rewrite length_be_split in E1; done).
  rewrite (index_ok _ (Z.of_nat (length a)) x), (index_ok _ (Z.of_nat (length a) + 1) y); try lia.
  - cbn [mbind outcome_bind]. f_equal. rewrite u16_small in Hg by done. etransitivity; [|exact Hg]. unfold get16. rewrite be_combine_sum. cbn [take]. unfold be_sum. cbn [foldl]. rewrite lor_byte_add. lia.
  - rewrite lookup_app_r by lia. by replace (Z.to_nat _ - _)%nat with 1%nat by lia.
  - rewrite lookup_app_r by lia. by replace (Z.to_nat _ - _)%nat with 0%nat by lia.
Qed.
