(* ===== verification/SniffTls.v ===== *)
(** * The TLS sniffer, [common/protocol/tls/sniff.go]

    The server name of a ClientHello.  The loops' fuel is the length of what
    they walk over; running out of it is [Panic], so that the theorem that
    no input panics also says that they end. *)

From S2P Require Import Prelude Matchers Buffer BufferFacts RangeList Sniffing.

Local Open Scope Z_scope.

(** src/common/protocol/tls/sniff.go IsValidTLSVersion *)
Definition IsValidTLSVersion (major minor : byte) : bool := byte_to_Z major =? 3.

(** What too short a part means: the whole of the extensions is there, or
    more may come.
    src/common/protocol/tls/sniff.go:80-83 ReadClientHello *)
Definition cut_short {A} (dataLen extensionsLength : Z) : outcome sniff_error A :=
  if dataLen =? extensionsLength then Err errNotClientHello else Err ErrProtoNeedMoreData.

(** The entries of a server name extension: the name, or [None] at their end.
    [offset] is where the extension's data begins.
    src/common/protocol/tls/sniff.go:112-143 ReadClientHello *)
Fixpoint name_loop (fuel : nat) (d : bytes) (dataLen extensionsLength offset : Z) (validRange : option RangeList) : outcome sniff_error (option bytes) :=
  match fuel with
  | O => Panic
  | S fuel' =>
      if negb (0 <? blen d) then Ok None
      else if blen d <? 3 then cut_short dataLen extensionsLength
      else
        nameType ← index d 0;
        nameLen ← word_at d 1;
        d ← sub_from d 3;
        if blen d <? nameLen then cut_short dataLen extensionsLength
        else if byte_to_Z nameType =? 0 then
          match (match validRange with Some r => In r (offset + 5) (offset + 5 + nameLen) | None => Some true end) with
          | None => Panic
          | Some false => Err ErrProtoNeedMoreData
          | Some true =>
              serverName ← sub_to d nameLen;
              if HasSuffix serverName (bs ".") then Err errNotClientHello
              else Ok (Some serverName)
          end
        else
          d ← sub_from d nameLen;
          name_loop fuel' d dataLen extensionsLength offset validRange
  end.

(** src/common/protocol/tls/sniff.go:97-143 ReadClientHello *)
Definition server_name (d : bytes) (dataLen extensionsLength offset : Z) (validRange : option RangeList) : outcome sniff_error (option bytes) :=
  if blen d <? 2 then cut_short dataLen extensionsLength
  else
    namesLen ← word_at d 0;
    d ← sub_from d 2;
    if negb (blen d =? namesLen) then cut_short dataLen extensionsLength
    else name_loop (S (length d)) d dataLen extensionsLength offset validRange.

(** The extensions: [Some] name where the function returns early.
    src/common/protocol/tls/sniff.go:78-147 ReadClientHello *)
Fixpoint extension_loop (fuel : nat) (data : bytes) (dataLen extensionsLength offset : Z) (validRange : option RangeList) : outcome sniff_error (option bytes) :=
  match fuel with
  | O => Panic
  | S fuel' =>
      if blen data =? 0 then Ok None
      else if blen data <? 4 then cut_short dataLen extensionsLength
      else
        extension ← word_at data 0;
        length ← word_at data 2;
        data ← sub_from data 4;
        let offset := offset + 4 in
        if blen data <? length then cut_short dataLen extensionsLength
        else
          found ← (if extension =? 0 then d ← sub_to data length; server_name d dataLen extensionsLength offset validRange else Ok None);
          match found with
          | Some name => Ok (Some name)
          | None =>
              data ← sub_from data length;
              extension_loop fuel' data dataLen extensionsLength (offset + length) validRange
          end
  end.

(** What is left of a field of [n] bytes whose length takes [k] bytes. *)
Definition skip_field (data : bytes) (n : Z) : outcome sniff_error bytes :=
  if blen data <? n then Err ErrProtoNeedMoreData else sub_from data n.

(** From the length of the extensions on; [offset] is where they begin.
    [domain] is the header's domain before the call, and the result the one
    after it.
    src/common/protocol/tls/sniff.go:69-152 ReadClientHello *)
Definition read_extensions (data : bytes) (offset : Z) (domain : bytes) (validRange : option RangeList) : outcome sniff_error bytes :=
  if blen data <? 2 then Err ErrProtoNeedMoreData
  else
    extensionsLength ← word_at data 0;
    data ← sub_from data 2;
    let dataLen := blen data in
    found ← extension_loop (S (length data)) data dataLen extensionsLength offset validRange;
    match found with
    | Some name => Ok name
    | None => if dataLen =? extensionsLength then Ok domain else Err ErrProtoNeedMoreData
    end.

(** src/common/protocol/tls/sniff.go:60-67 ReadClientHello *)
Definition read_compressions (data : bytes) (offset : Z) (domain : bytes) (validRange : option RangeList) : outcome sniff_error bytes :=
  if blen data <? 1 then Err ErrProtoNeedMoreData
  else
    compressionMethodsLen ← index data 0;
    let compressionMethodsLen := byte_to_Z compressionMethodsLen in
    data ← skip_field data (1 + compressionMethodsLen);
    read_extensions data (offset + compressionMethodsLen) domain validRange.

(** src/common/protocol/tls/sniff.go:47-59 ReadClientHello *)
Definition read_ciphers (data : bytes) (offset : Z) (domain : bytes) (validRange : option RangeList) : outcome sniff_error bytes :=
  if blen data <? 2 then Err ErrProtoNeedMoreData
  else
    cipherSuiteLen ← word_at data 0;
    if cipherSuiteLen mod 2 =? 1 then Err errNotClientHello
    else
      data ← skip_field data (2 + cipherSuiteLen);
      read_compressions data (offset + cipherSuiteLen) domain validRange.

(** src/common/protocol/tls/sniff.go ReadClientHello *)
Definition ReadClientHello (data : bytes) (domain : bytes) (validRange : option RangeList) : outcome sniff_error bytes :=
  if blen data <? 42 then Err ErrProtoNeedMoreData
  else
    sessionIDLen ← index data 38;
    let sessionIDLen := byte_to_Z sessionIDLen in
    if (32 <? sessionIDLen) || (blen data <? 39 + sessionIDLen) then Err ErrProtoNeedMoreData
    else
      data ← sub_from data (39 + sessionIDLen);
      read_ciphers data (44 + sessionIDLen) domain validRange.

(** The buffer's operations fail only by panicking here. *)
Definition must {A} (r : outcome unit A) : outcome sniff_error A :=
  match r with Ok a => Ok a | Err _ => Err ErrShortBuffer | Panic => Panic end.

(** The records.  [headerLen] is the length the first record declares: the
    loop's own [headerLen] is another variable, which only its test uses.
    src/common/protocol/tls/sniff.go:171-202 SniffTLS *)
Fixpoint record_loop (fuel : nat) (b : bytes) (data : Buffer) (headerLen : Z) : outcome sniff_error bytes :=
  match fuel with
  | O => Panic
  | S fuel' =>
      if negb (0 <? blen b) then Err ErrProtoNeedMoreData
      else if Cap data <? blen b then Err ErrShortBuffer
      else
        part ← sub b 5 (Z.min (5 + headerLen) (blen b));
        '(data, _) ← must (Write data part);
        content ← must (Bytes data);
        match ReadClientHello content [] None with
        | Ok domain => Ok domain
        | Panic => Panic
        | Err err =>
            if bool_decide (err = errNotTLS) || bool_decide (err = errNotClientHello) then Err err
            else
              b ← sub_from b (Z.min (5 + headerLen) (blen b));
              if blen b <? 5 then Err ErrProtoNeedMoreData
              else
                t ← index b 0; major ← index b 1; minor ← index b 2;
                if negb (byte_to_Z t =? 22) then Err errNotTLS
                else if negb (IsValidTLSVersion major minor) then Err errNotTLS
                else
                  headerLen' ← word_at b 3;
                  if (headerLen' =? 0) || (16384 <=? headerLen') then Err errNotTLS
                  else record_loop fuel' b data headerLen
        end
  end.

(** The domain of the header found; [garbage] is the pool's array.
    src/common/protocol/tls/sniff.go SniffTLS *)
Definition SniffTLS (garbage : bytes) (b : bytes) : outcome sniff_error bytes :=
  if blen b <? 5 then Err ErrNoClue
  else
    t ← index b 0; major ← index b 1; minor ← index b 2;
    if negb (byte_to_Z t =? 22) then Err errNotTLS
    else if negb (IsValidTLSVersion major minor) then Err errNotTLS
    else headerLen ← word_at b 3; record_loop (S (length b)) b (NewWithSize garbage) headerLen.

(** * Facts about the TLS sniffer

    No input makes it panic or loop; it finds the server name of every
    ClientHello, also when it is cut into equal records and seen piece by
    piece; and a second record longer than the first is misread. *)


(** ** No panics *)

Lemma blen_length {A} (b : list A) : blen b = Z.of_nat (length b).
Proof. done. Qed.

Lemma length_sub_from {E A} (b c : list A) lo : @sub_from E A b lo = Ok c -> 0 <= lo -> c = drop (Z.to_nat lo) b /\ lo <= blen b.
Proof.
  intros H Hlo. destruct (Z.le_gt_cases lo (blen b)).
  - rewrite sub_from_ok in H by lia. injection H as <-. done.
  - unfold sub_from, sub, slice in H. rewrite decide_False in H by (unfold blen in *; lia). done.
Qed.

Lemma cut_short_safe {A} x y : @cut_short A x y ≠ Panic.
Proof. unfold cut_short. by case_match. Qed.

(** Steps through the next guarded access. *)
Ltac step_word i := let Hz := fresh "Hz" in let E := fresh "E" in
  match goal with |- context [word_at ?d i] => destruct (@word_at_in sniff_error d i) as (? & E & Hz); [lia..|]; rewrite E; cbn [mbind outcome_bind] end.
Ltac step_index i := let E := fresh "E" in
  match goal with |- context [index ?d i] => destruct (@index_in sniff_error _ d i) as (? & _ & E); [lia|]; rewrite E; cbn [mbind outcome_bind] end.
Ltac step_from := rewrite sub_from_ok by lia; cbn [mbind outcome_bind].
Ltac step_to := rewrite sub_to_ok by lia; cbn [mbind outcome_bind].

Lemma name_loop_safe fuel d dl el off vr : (length d < fuel)%nat -> name_loop fuel d dl el off vr ≠ Panic.
Proof.
  revert d. induction fuel as [|fuel IH]; intros d Hf; [lia|]. cbn [name_loop]. destruct (negb _); [done|].
  destruct (Z.ltb_spec (blen d) 3); [apply cut_short_safe|]. step_index 0. step_word 1. step_from.
  destruct (Z.ltb_spec (blen (drop (Z.to_nat 3) d)) x0) as [|Hl]; [apply cut_short_safe|]. destruct (_ =? 0).
  - assert (is_Some (match vr with Some r => In r (off + 5) (off + 5 + x0) | None => Some true end)) as [[|] ->] by (destruct vr; [apply In_total|by eexists]); [|done].
    step_to. by destruct (HasSuffix _ _).
  - step_from. apply IH. rewrite !length_drop. unfold blen in *. lia.
Qed.

Lemma server_name_safe d dl el off vr : server_name d dl el off vr ≠ Panic.
Proof.
  unfold server_name. destruct (Z.ltb_spec (blen d) 2); [apply cut_short_safe|]. step_word 0. step_from.
  destruct (negb _); [apply cut_short_safe|]. apply name_loop_safe. lia.
Qed.

Lemma extension_loop_safe fuel d dl el off vr : (length d < fuel)%nat -> extension_loop fuel d dl el off vr ≠ Panic.
Proof.
  revert d off. induction fuel as [|fuel IH]; intros d off Hf; [lia|]. cbn [extension_loop]. destruct (_ =? 0); [done|].
  destruct (Z.ltb_spec (blen d) 4); [apply cut_short_safe|]. step_word 0. step_word 2. step_from.
  destruct (Z.ltb_spec (blen (drop (Z.to_nat 4) d)) x0) as [|Hl]; [apply cut_short_safe|].
  assert (forall o, (match o with Some name => Ok (Some name) | None => data ← sub_from (drop (Z.to_nat 4) d) x0; extension_loop fuel data dl el (off + 4 + x0) vr end : outcome sniff_error _) ≠ Panic) as Hrest.
  { intros [n|]; [done|]. step_from. apply IH. rewrite !length_drop. unfold blen in *. lia. }
  destruct (_ =? 0).
  - step_to. pose proof (server_name_safe (take (Z.to_nat x0) (drop (Z.to_nat 4) d)) dl el (off + 4) vr) as Hs.
    destruct (server_name _ _ _ _ _); [apply Hrest|done|done].
  - apply (Hrest None).
Qed.

Lemma read_extensions_safe d off domain vr : read_extensions d off domain vr ≠ Panic.
Proof.
  unfold read_extensions. destruct (Z.ltb_spec (blen d) 2); [done|]. step_word 0. step_from.
  match goal with |- context [extension_loop ?f ?a ?b ?c ?e ?g] => pose proof (extension_loop_safe f a b c e g ltac:(lia)) as Hs; destruct (extension_loop f a b c e g) as [[n|]|e1|] end; try done.
  cbn [mbind outcome_bind]. by case_match.
Qed.

Lemma read_compressions_safe d off domain vr : read_compressions d off domain vr ≠ Panic.
Proof.
  unfold read_compressions, skip_field. destruct (Z.ltb_spec (blen d) 1); [done|]. step_index 0. pose proof (byte_to_Z_range x).
  destruct (Z.ltb_spec (blen d) (1 + byte_to_Z x)); [done|]. step_from. apply read_extensions_safe.
Qed.

Lemma read_ciphers_safe d off domain vr : read_ciphers d off domain vr ≠ Panic.
Proof.
  unfold read_ciphers, skip_field. destruct (Z.ltb_spec (blen d) 2); [done|]. step_word 0. destruct (_ =? 1); [done|].
  destruct (Z.ltb_spec (blen d) (2 + x)); [done|]. step_from. apply read_compressions_safe.
Qed.

Lemma ReadClientHello_safe d domain vr : ReadClientHello d domain vr ≠ Panic.
Proof.
  unfold ReadClientHello. destruct (Z.ltb_spec (blen d) 42); [done|]. step_index 38. pose proof (byte_to_Z_range x).
  destruct (Z.ltb_spec 32 (byte_to_Z x)); [done|]. cbn [orb]. destruct (Z.ltb_spec (blen d) (39 + byte_to_Z x)); [done|]. step_from. apply read_ciphers_safe.
Qed.

(** What a wide enough buffer does with a part of the input. *)
Lemma Write_must b d : wf b -> exists b' n, must (Write b d) = Ok (b', n) /\ wf b' /\ content b' = content b ++ take (room b) d /\ room b' = (room b - length d)%nat.
Proof. intros Hb. destruct (Write_ok b d Hb) as (b' & He & Hw & Hc & Hr). rewrite He. by eexists _, _. Qed.

Lemma record_loop_safe fuel b data hl : (length b < fuel)%nat -> wf data -> 5 <= blen b \/ b = [] -> 0 <= hl -> record_loop fuel b data hl ≠ Panic.
Proof.
  revert b data. induction fuel as [|fuel IH]; intros b data Hf Hd Hb Hhl; [lia|]. cbn [record_loop].
  destruct (Z.ltb_spec 0 (blen b)) as [Hpos|]; [|done]. cbn [negb]. destruct (_ <? _); [done|].
  assert (5 <= blen b) as H5 by (destruct Hb as [ |  ->]; [done|by cbn in Hpos]).
  rewrite sub_ok by lia. cbn [mbind outcome_bind].
  match goal with |- context [Write data ?x] => destruct (Write_must data x Hd) as (data' & n & -> & Hd' & Hc' & _) end.
  cbn [mbind outcome_bind]. rewrite Bytes_content by done. cbn [mbind outcome_bind must].
  pose proof (ReadClientHello_safe (content data') [] None) as Hs. destruct (ReadClientHello _ _ _) as [|e|]; [done| |done].
  destruct (_ || _); [done|]. step_from. set (b1 := drop _ b). destruct (Z.ltb_spec (blen b1) 5); [done|].
  step_index 0. step_index 1. step_index 2. destruct (negb _); [done|]. destruct (negb _); [done|]. step_word 3. destruct (_ || _); [done|].
  apply IH; [|done|by left|done]. unfold b1. rewrite length_drop. unfold blen in *. lia.
Qed.

Lemma SniffTLS_safe garbage b : pooled 32767 garbage -> SniffTLS garbage b ≠ Panic.
Proof.
  intros Hg. unfold SniffTLS. destruct (Z.ltb_spec (blen b) 5); [done|].
  step_index 0. step_index 1. step_index 2. destruct (negb _); [done|]. destruct (negb _); [done|]. step_word 3.
  apply record_loop_safe; [lia| |by left|lia]. by apply (wf_NewWithSize 32767).
Qed.

(** ** The ClientHello of the specification *)

(** A server name extension has names of several types, of which 0 is a host
    name; the other extensions are any bytes. *)
Inductive extension := Names (ns : list (byte * bytes)) | Other (t : Z) (d : bytes).

Record hello := { h_head : bytes; h_session : bytes; h_ciphers : bytes; h_compressions : bytes; h_extensions : list extension }.

Definition enc_name (n : byte * bytes) : bytes := [n.1] ++ put16 (blen n.2) ++ n.2.
Definition enc_names (ns : list (byte * bytes)) : bytes := ns ≫= enc_name.
Definition ext_type (e : extension) : Z := match e with Names _ => 0 | Other t _ => t end.
Definition ext_data (e : extension) : bytes := match e with Names ns => put16 (blen (enc_names ns)) ++ enc_names ns | Other _ d => d end.
Definition enc_ext (e : extension) : bytes := put16 (ext_type e) ++ put16 (blen (ext_data e)) ++ ext_data e.
Definition enc_exts (es : list extension) : bytes := es ≫= enc_ext.

(** [h_head] is the handshake header, the version and the random. *)
Definition enc_hello (h : hello) : bytes :=
  h_head h ++ [byte_of_Z (blen (h_session h))] ++ h_session h ++ put16 (blen (h_ciphers h)) ++ h_ciphers h ++
  [byte_of_Z (blen (h_compressions h))] ++ h_compressions h ++ put16 (blen (enc_exts (h_extensions h))) ++ enc_exts (h_extensions h).

Definition ext_ok (e : extension) : Prop :=
  blen (ext_data e) < 2 ^ 16 /\ match e with Names ns => True | Other t _ => 0 < t < 2 ^ 16 end.

Record hello_ok (h : hello) : Prop := {
  ok_head : blen (h_head h) = 38; ok_session : blen (h_session h) <= 32;
  ok_ciphers : blen (h_ciphers h) < 2 ^ 16; ok_even : blen (h_ciphers h) mod 2 = 0;
  ok_compressions : blen (h_compressions h) < 256;
  ok_exts : Forall ext_ok (h_extensions h); ok_size : blen (enc_exts (h_extensions h)) < 2 ^ 16
}.

(** The first host name, and what the parser says of it. *)
Definition host_name (ns : list (byte * bytes)) : option bytes := snd <$> head (filter (fun n => n.1 = x00) ns).
Definition names_of (e : extension) : list (byte * bytes) := match e with Names ns => ns | Other _ _ => [] end.
Definition hello_name (h : hello) : option bytes := host_name (h_extensions h ≫= names_of).

Definition verdict (n : option bytes) : outcome sniff_error (option bytes) :=
  match n with Some n => if HasSuffix n (bs ".") then Err errNotClientHello else Ok (Some n) | None => Ok None end.

(** ** Parsing what was encoded *)

Lemma blen_app {A} (a b : list A) : blen (a ++ b) = blen a + blen b.
Proof. unfold blen. rewrite length_app. lia. Qed.

Lemma blen_nonneg {A} (a : list A) : 0 <= blen a.
Proof. unfold blen. lia. Qed.

Lemma sub_from_app {E A} (a b : list A) n : n = blen a -> @sub_from E A (a ++ b) n = Ok b.
Proof.
  intros ->. rewrite sub_from_ok by (rewrite blen_app; unfold blen; lia). unfold blen. by rewrite Nat2Z.id, drop_app_length.
Qed.

Lemma sub_to_app {E A} (a b : list A) n : n = blen a -> @sub_to E A (a ++ b) n = Ok a.
Proof.
  intros ->. rewrite sub_to_ok by (rewrite blen_app; unfold blen; lia). unfold blen. by rewrite Nat2Z.id, take_app_length.
Qed.

(** A prefix of a list in two parts ends in the first or goes into the second. *)
Lemma prefix_app_cases {A} (d a b : list A) : d `prefix_of` a ++ b ->
  (length d < length a)%nat /\ d `prefix_of` a \/ exists d', d = a ++ d' /\ d' `prefix_of` b.
Proof.
  intros [k Hk]. destruct (Nat.lt_ge_cases (length d) (length a)).
  - left. split; [done|]. exists (take (length a - length d) k). transitivity (take (length a) (a ++ b)); [by rewrite take_app_length|].
    by rewrite Hk, take_app_ge by lia.
  - right. exists (drop (length a) d). assert (d = a ++ drop (length a) d) as Hd.
    { rewrite <-(take_drop (length a) d) at 1. f_equal. transitivity (take (length a) (a ++ b)); [by rewrite Hk, take_app_le by lia|by rewrite take_app_length]. }
    split; [done|]. exists k. apply (app_inv_head a). by rewrite Hk, app_assoc, <-Hd.
Qed.

Lemma name_loop_enc fuel ns dl el off : (length (enc_names ns) < fuel)%nat -> blen (enc_names ns) < 2 ^ 16 ->
  name_loop fuel (enc_names ns) dl el off None = verdict (host_name ns).
Proof.
  revert ns. induction fuel as [|fuel IH]; intros ns Hf Hl; [lia|]. destruct ns as [|[t n] ns]; [done|].
  change (enc_names ((t, n) :: ns)) with (([t] ++ put16 (blen n) ++ n) ++ enc_names ns) in *. rewrite <-!app_assoc in *.
  rewrite !blen_app in Hl. rewrite !length_app, length_put16 in Hf. pose proof (blen_nonneg n). pose proof (blen_nonneg (enc_names ns)).
  change (blen [t]) with 1 in Hl. unfold blen in Hl at 1. rewrite length_put16 in Hl. cbn [name_loop].
  destruct (Z.ltb_spec 0 (blen ([t] ++ put16 (blen n) ++ n ++ enc_names ns))) as [_|Hn]; cycle 1.
  { rewrite !blen_app in Hn. change (blen [t]) with 1 in Hn. pose proof (blen_nonneg (put16 (blen n))). lia. }
  destruct (Z.ltb_spec (blen ([t] ++ put16 (blen n) ++ n ++ enc_names ns)) 3) as [Hn|_].
  { rewrite !blen_app in Hn. change (blen [t]) with 1 in Hn. change (blen (put16 (blen n))) with 2 in Hn. lia. }
  cbn [negb]. rewrite (index_ok _ 0 t) by done. cbn [mbind outcome_bind].
  rewrite (word_at_put16 [t]) by (done || lia). cbn [mbind outcome_bind].
  rewrite (app_assoc [t]), sub_from_app by done. cbn [mbind outcome_bind].
  destruct (Z.ltb_spec (blen (n ++ enc_names ns)) (blen n)) as [Hn|_]; [rewrite blen_app in Hn; lia|].
  unfold host_name. rewrite filter_cons. case_decide as Ht; cbn in Ht.
  - subst t. change (byte_to_Z x00 =? 0) with true. cbn iota. rewrite sub_to_app by done. done.
  - destruct (Z.eqb_spec (byte_to_Z t) 0) as [Hz|_]; [by apply (inj byte_to_Z t x00) in Hz|].
    rewrite sub_from_app by done. cbn [mbind outcome_bind]. apply IH; lia.
Qed.

Lemma server_name_enc ns dl el off : blen (ext_data (Names ns)) < 2 ^ 16 -> server_name (ext_data (Names ns)) dl el off None = verdict (host_name ns).
Proof.
  cbn [ext_data]. rewrite blen_app. change (blen (put16 (blen (enc_names ns)))) with 2. intros Hl. pose proof (blen_nonneg (enc_names ns)).
  unfold server_name. destruct (Z.ltb_spec (blen (put16 (blen (enc_names ns)) ++ enc_names ns)) 2) as [Hn|_].
  { rewrite blen_app in Hn. change (blen (put16 (blen (enc_names ns)))) with 2 in Hn. lia. }
  rewrite <-(app_nil_l (put16 _ ++ _)), (word_at_put16 []) by (done || lia). cbn [mbind outcome_bind app].
  rewrite sub_from_app by done. cbn [mbind outcome_bind]. rewrite Z.eqb_refl. cbn [negb]. apply name_loop_enc; lia.
Qed.

Lemma host_name_app a b : host_name (a ++ b) = match host_name a with Some n => Some n | None => host_name b end.
Proof. unfold host_name. rewrite filter_app. by destruct (filter _ a). Qed.

Lemma blen_put16 z : blen (put16 z) = 2.
Proof. unfold blen. by rewrite length_put16. Qed.

Lemma cut_short_more {A} x y : x ≠ y -> @cut_short A x y = Err ErrProtoNeedMoreData.
Proof. intros. unfold cut_short. by destruct (Z.eqb_spec x y). Qed.

(** One extension that is all there, and what follows it. *)
Lemma extension_step fuel e data dl el off : ext_ok e ->
  extension_loop (S fuel) (enc_ext e ++ data) dl el off None =
    match verdict (host_name (names_of e)) with
    | Ok None => extension_loop fuel data dl el (off + 4 + blen (ext_data e)) None
    | r => r
    end.
Proof.
  intros [Hl Ht]. unfold enc_ext. set (d := ext_data e) in *. pose proof (blen_nonneg d). pose proof (blen_nonneg data).
  rewrite <-!app_assoc. cbn [extension_loop].
  assert (blen (put16 (ext_type e) ++ put16 (blen d) ++ d ++ data) = 4 + blen d + blen data) as Hn by (rewrite !blen_app, !blen_put16; lia).
  rewrite Hn. destruct (Z.eqb_spec (4 + blen d + blen data) 0); [lia|]. destruct (Z.ltb_spec (4 + blen d + blen data) 4); [lia|].
  assert (0 <= ext_type e < 2 ^ 16) as Hty by (destruct e; cbn; lia).
  rewrite <-(app_nil_l (put16 (ext_type e) ++ _)), (word_at_put16 [] _ _ 0) by (done || lia). cbn [mbind outcome_bind app].
  rewrite (word_at_put16 (put16 (ext_type e)) _ _ 2) by (rewrite ?blen_put16; lia). cbn [mbind outcome_bind].
  rewrite (app_assoc (put16 (ext_type e))), sub_from_app by (rewrite blen_app, !blen_put16; done). cbn [mbind outcome_bind].
  destruct (Z.ltb_spec (blen (d ++ data)) (blen d)) as [Hb|_]; [rewrite blen_app in Hb; lia|].
  rewrite sub_from_app by done. cbn [mbind outcome_bind].
  destruct e as [ns|t d']; cbn [ext_type names_of] in *.
  - change (0 =? 0) with true. cbn iota. rewrite sub_to_app by done. cbn [mbind outcome_bind]. unfold d. rewrite server_name_enc by done.
    by destruct (verdict (host_name ns)) as [[?|]|?|].
  - destruct (Z.eqb_spec t 0); [lia|]. done.
Qed.

Lemma extension_short fuel e data dl el off : ext_ok e -> (length data < length (enc_ext e))%nat -> data `prefix_of` enc_ext e -> dl ≠ el ->
  extension_loop (S fuel) data dl el off None = Err ErrProtoNeedMoreData \/ extension_loop (S fuel) data dl el off None = Ok None.
Proof.
  intros [Hl Ht] Hlen Hp Hne. cbn [extension_loop]. destruct (Z.eqb_spec (blen data) 0); [by right|]. left.
  destruct (Z.ltb_spec (blen data) 4); [by apply cut_short_more|].
  unfold enc_ext in *. set (d := ext_data e) in *. rewrite app_assoc in Hp.
  apply prefix_app_cases in Hp as [[Hs _] | (d' & -> & Hd')].
  { rewrite length_app, !length_put16 in Hs. unfold blen in *. lia. }
  rewrite <-app_assoc. assert (0 <= ext_type e < 2 ^ 16) as Hty by (destruct e; cbn; lia). pose proof (blen_nonneg d).
  rewrite <-(app_nil_l (put16 (ext_type e) ++ _)), (word_at_put16 [] _ _ 0) by (done || lia). cbn [mbind outcome_bind app].
  rewrite (word_at_put16 (put16 (ext_type e)) _ _ 2) by (rewrite ?blen_put16; lia). cbn [mbind outcome_bind].
  rewrite (app_assoc (put16 (ext_type e))), sub_from_app by (rewrite blen_app, !blen_put16; done). cbn [mbind outcome_bind].
  destruct (Z.ltb_spec (blen d') (blen d)) as [_|Hb]; [by apply cut_short_more|].
  rewrite !length_app, !length_put16 in Hlen. unfold blen in Hb. lia.
Qed.

(** The extensions seen up to any point: their verdict, or a wish for more. *)
Lemma extension_loop_prefix es fuel data dl el off : Forall ext_ok es -> data `prefix_of` enc_exts es -> (length data < fuel)%nat ->
  (data ≠ enc_exts es -> dl ≠ el) ->
  extension_loop fuel data dl el off None = verdict (host_name (es ≫= names_of)) \/
  data ≠ enc_exts es /\ (extension_loop fuel data dl el off None = Err ErrProtoNeedMoreData \/ extension_loop fuel data dl el off None = Ok None).
Proof.
  intros Hes. revert fuel data off. induction Hes as [|e es He Hes IH]; intros fuel data off Hp Hf Hne.
  - apply prefix_nil_inv in Hp as ->. left. by destruct fuel; [cbn in Hf; lia|].
  - destruct fuel as [|fuel]; [lia|]. change (enc_exts (e :: es)) with (enc_ext e ++ enc_exts es) in *.
    change ((e :: es) ≫= names_of) with (names_of e ++ (es ≫= names_of)). rewrite host_name_app.
    apply prefix_app_cases in Hp as [[Hs Hp] | (data' & -> & Hp)].
    + right. assert (data ≠ enc_ext e ++ enc_exts es) as Hd by (intros ->; rewrite length_app in Hs; lia). split; [done|]. apply (extension_short _ e); auto.
    + rewrite extension_step by done. destruct (host_name (names_of e)) as [n|]; cbn [verdict].
      { left. by destruct (HasSuffix n _). }
      assert (length (enc_ext e) > 0)%nat by (unfold enc_ext; rewrite !length_app, !length_put16; lia). rewrite length_app in Hf.
      destruct (IH fuel data' (off + 4 + blen (ext_data e)) Hp ltac:(lia)) as [Hv | [Hn Hv]]; [intros Hd; apply Hne; by intros ?%app_inv_head|by left|].
      right. split; [by intros ?%app_inv_head|done].
Qed.

(** ** The whole hello, or any beginning of it *)

(** What the parser answers when the header's domain was [domain]. *)
Definition answer (domain : bytes) (n : option bytes) : outcome sniff_error bytes :=
  match verdict n with Ok (Some n) => Ok n | Ok None => Ok domain | Err e => Err e | Panic => Panic end.

Lemma byte_to_of_len n : 0 <= n < 256 -> byte_to_Z (byte_of_Z n) = n.
Proof. intros. rewrite byte_to_of_Z. unfold u8. by rewrite Z.mod_small by lia. Qed.

Lemma prefix_long {A} (d a b : list A) : d `prefix_of` a ++ b -> blen a <= blen d -> exists d', d = a ++ d' /\ d' `prefix_of` b.
Proof. intros Hp Hl. apply prefix_app_cases in Hp as [[Hs _]|?]; [unfold blen in *; lia|done]. Qed.

Lemma prefix_blen {A} (p b : list A) : p `prefix_of` b -> p ≠ b -> blen p < blen b.
Proof.
  intros [k ->] Hd. rewrite blen_app. destruct k; [by rewrite app_nil_r in Hd|]. unfold blen. cbn. lia.
Qed.

(** The parser on a beginning [p] of [whole]. *)
Definition answers (whole : bytes) (r : bytes -> outcome sniff_error bytes) (a : outcome sniff_error bytes) : Prop :=
  forall p, p `prefix_of` whole -> r p = a \/ p ≠ whole /\ r p = Err ErrProtoNeedMoreData.

Lemma read_extensions_prefix es off domain : Forall ext_ok es -> blen (enc_exts es) < 2 ^ 16 ->
  answers (put16 (blen (enc_exts es)) ++ enc_exts es) (fun p => read_extensions p off domain None) (answer domain (host_name (es ≫= names_of))).
Proof.
  intros Hes Hsize p Hp. pose proof (blen_nonneg (enc_exts es)). unfold read_extensions.
  destruct (Z.ltb_spec (blen p) 2) as [Hs|]; [right; split; [intros ->; rewrite blen_app, blen_put16 in Hs; lia|done]|].
  apply prefix_long in Hp as (d & -> & Hp); [|by rewrite blen_put16].
  rewrite <-(app_nil_l (put16 _ ++ d)), (word_at_put16 [] _ _ 0) by (done || lia). cbn [mbind outcome_bind app].
  rewrite sub_from_app by done. cbn [mbind outcome_bind].
  assert (d ≠ enc_exts es -> blen d ≠ blen (enc_exts es)) as Hd by (intros Hd; pose proof (prefix_blen _ _ Hp Hd); lia).
  assert (d ≠ enc_exts es -> put16 (blen (enc_exts es)) ++ d ≠ put16 (blen (enc_exts es)) ++ enc_exts es) as Hne by (by intros ? ?%app_inv_head).
  assert (d ≠ enc_exts es -> (if blen d =? blen (enc_exts es) then Ok domain else Err ErrProtoNeedMoreData) = Err ErrProtoNeedMoreData) as Hmore.
  { intros Hn. by destruct (Z.eqb_spec (blen d) (blen (enc_exts es))); [by apply Hd in Hn|]. }
  destruct (extension_loop_prefix es (S (length d)) d (blen d) (blen (enc_exts es)) off Hes Hp ltac:(lia) Hd) as [-> | [Hn [-> | ->]]].
  - unfold answer. destruct (decide (d = enc_exts es)) as [->|Hn].
    + left. destruct (verdict _) as [[n|]|e|]; try done. cbn [mbind outcome_bind]. by rewrite Z.eqb_refl.
    + destruct (verdict _) as [[n|]|e|]; try by left. right. split; [by apply Hne|]. by apply Hmore.
  - right. split; [by apply Hne|done].
  - right. split; [by apply Hne|]. by apply Hmore.
Qed.

(** A field whose length was read, and what comes after it. *)
Lemma skip_field_prefix lenbytes field rest p : p `prefix_of` field ++ rest ->
  (exists d, p = field ++ d /\ d `prefix_of` rest /\ skip_field (lenbytes ++ p) (blen lenbytes + blen field) = Ok d) \/
  blen p < blen field /\ skip_field (lenbytes ++ p) (blen lenbytes + blen field) = Err ErrProtoNeedMoreData.
Proof.
  intros Hp. unfold skip_field. rewrite blen_app. destruct (Z.ltb_spec (blen lenbytes + blen p) (blen lenbytes + blen field)); [right; split; [lia|done]|].
  left. apply prefix_long in Hp as (d & -> & Hp); [|lia]. exists d. split; [done|]. split; [done|].
  rewrite app_assoc, sub_from_app; [done|by rewrite blen_app].
Qed.

Lemma read_compressions_prefix cm rest off domain a : blen cm < 256 ->
  answers rest (fun p => read_extensions p (off + blen cm) domain None) a ->
  answers ([byte_of_Z (blen cm)] ++ cm ++ rest) (fun p => read_compressions p off domain None) a.
Proof.
  intros Hcm Hrest p Hp. pose proof (blen_nonneg cm). unfold read_compressions.
  destruct (Z.ltb_spec (blen p) 1) as [Hs|]; [right; split; [intros ->; rewrite blen_app in Hs; change (blen [byte_of_Z (blen cm)]) with 1 in Hs; pose proof (blen_nonneg (cm ++ rest)); lia|done]|].
  apply prefix_long in Hp as (p1 & -> & Hp); [|done]. rewrite (index_ok _ 0 (byte_of_Z (blen cm))) by done. cbn [mbind outcome_bind].
  rewrite byte_to_of_len by lia. change (1 + blen cm) with (blen [byte_of_Z (blen cm)] + blen cm).
  destruct (skip_field_prefix [byte_of_Z (blen cm)] cm rest p1 Hp) as [(d & -> & Hd & ->) | [Hs ->]].
  - cbn [mbind outcome_bind]. destruct (Hrest d Hd) as [-> | [Hne ->]]; [by left|]. right. split; [by intros ?%app_inv_head%app_inv_head|done].
  - right. split; [|done]. intros ->%app_inv_head. rewrite blen_app in Hs. pose proof (blen_nonneg rest). lia.
Qed.

Lemma read_ciphers_prefix cs rest off domain a : blen cs < 2 ^ 16 -> blen cs mod 2 = 0 ->
  answers rest (fun p => read_compressions p (off + blen cs) domain None) a ->
  answers (put16 (blen cs) ++ cs ++ rest) (fun p => read_ciphers p off domain None) a.
Proof.
  intros Hcs Heven Hrest p Hp. pose proof (blen_nonneg cs). unfold read_ciphers.
  destruct (Z.ltb_spec (blen p) 2) as [Hs|]; [right; split; [intros ->; rewrite blen_app, blen_put16 in Hs; pose proof (blen_nonneg (cs ++ rest)); lia|done]|].
  apply prefix_long in Hp as (p1 & -> & Hp); [|by rewrite blen_put16].
  rewrite <-(app_nil_l (put16 _ ++ p1)), (word_at_put16 [] _ _ 0) by (done || lia). cbn [mbind outcome_bind app].
  rewrite Heven. change (0 =? 1) with false. cbn iota. replace (2 + blen cs) with (blen (put16 (blen cs)) + blen cs) by (by rewrite blen_put16).
  destruct (skip_field_prefix (put16 (blen cs)) cs rest p1 Hp) as [(d & -> & Hd & ->) | [Hs ->]].
  - cbn [mbind outcome_bind]. destruct (Hrest d Hd) as [-> | [Hne ->]]; [by left|]. right. split; [by intros ?%app_inv_head%app_inv_head|done].
  - right. split; [|done]. intros ->%app_inv_head. rewrite blen_app in Hs. pose proof (blen_nonneg rest). lia.
Qed.

Lemma ReadClientHello_prefix h domain : hello_ok h ->
  answers (enc_hello h) (fun p => ReadClientHello p domain None) (answer domain (hello_name h)).
Proof.
  intros [Hhead Hsid Hciph Heven Hcomp Hexts Hsize] p Hp. pose proof (blen_nonneg (h_session h)) as Hs0. unfold ReadClientHello, enc_hello in *.
  set (sid := h_session h) in *. set (rest := put16 (blen (h_ciphers h)) ++ _) in *.
  assert (answers rest (fun p => read_ciphers p (44 + blen sid) domain None) (answer domain (hello_name h))) as Hrest
    by (by apply read_ciphers_prefix, read_compressions_prefix, read_extensions_prefix).
  assert (5 <= blen rest) as Hr5.
  { unfold rest. rewrite !blen_app, !blen_put16. change (blen [byte_of_Z (blen (h_compressions h))]) with 1.
    pose proof (blen_nonneg (h_ciphers h)). pose proof (blen_nonneg (h_compressions h)). pose proof (blen_nonneg (enc_exts (h_extensions h))). lia. }
  assert (forall q, blen q < 44 + blen sid -> q ≠ h_head h ++ [byte_of_Z (blen sid)] ++ sid ++ rest) as Hlt.
  { intros q Hq ->. rewrite !blen_app in Hq. change (blen [byte_of_Z (blen sid)]) with 1 in Hq. lia. }
  destruct (Z.ltb_spec (blen p) 42); [right; split; [apply Hlt; lia|done]|].
  apply prefix_long in Hp as (p1 & -> & Hp); [|lia]. rewrite blen_app, Hhead in *.
  apply prefix_long in Hp as (p2 & -> & Hp); [|change (blen [byte_of_Z (blen sid)]) with 1; lia].
  rewrite (index_ok _ 38 (byte_of_Z (blen sid))); [|lia|by rewrite lookup_app_r by (unfold blen in *; lia); replace (Z.to_nat 38 - _)%nat with 0%nat by (unfold blen in *; lia)].
  cbn [mbind outcome_bind]. rewrite byte_to_of_len by lia. destruct (Z.ltb_spec 32 (blen sid)); [lia|]. cbn [orb].
  rewrite blen_app. change (blen [byte_of_Z (blen sid)]) with 1.
  destruct (Z.ltb_spec (38 + (1 + blen p2)) (39 + blen sid)).
  { right. split; [apply Hlt; rewrite !blen_app; change (blen [byte_of_Z (blen sid)]) with 1; lia|done]. }
  apply prefix_long in Hp as (p3 & -> & Hp); [|lia].
  rewrite (app_assoc (h_head h)), (app_assoc _ sid), sub_from_app by (rewrite !blen_app, Hhead; done). cbn [mbind outcome_bind].
  destruct (Hrest p3 Hp) as [-> | [Hne ->]]; [by left|]. right. split; [|done]. rewrite <-!app_assoc. by intros ?%app_inv_head%app_inv_head%app_inv_head.
Qed.

(** ** Records *)

(** A handshake record with the minor version and its fragment. *)
Definition enc_record (r : byte * bytes) : bytes := [x16; x03; r.1] ++ put16 (blen r.2) ++ r.2.

(** A hello cut into records of [n] bytes, of which the last may be shorter. *)
Fixpoint cut_evenly (n : Z) (rs : list (byte * bytes)) : Prop :=
  match rs with
  | [] => False
  | [r] => 0 < blen r.2 <= n
  | r :: rs' => blen r.2 = n /\ cut_evenly n rs'
  end.

Lemma blen_enc_record r : blen (enc_record r) = 5 + blen r.2.
Proof. unfold enc_record. rewrite !blen_app, blen_put16. change (blen [x16; x03; r.1]) with 3. lia. Qed.

Lemma Write_cap b d b' n : wf b -> Write b d = Ok (b', n) -> cap b' = cap b.
Proof.
  intros [Hc He Hi]. unfold Write. rewrite slice_of_ok by lia. cbn [mbind outcome_bind]. intros [= <- _].
  unfold cap, set_cursors, set_array, arr in *. cbn. destruct (v b) as [a|]; [|done]. cbn in *. rewrite length_splice; [done|]. rewrite length_take. lia.
Qed.

(** Cutting the next fragment off: it is whole although the length used is
    the first record's. *)
Lemma take_fragment n r rs : cut_evenly n (r :: rs) ->
  Z.min (5 + n) (blen (enc_record r ++ (rs ≫= enc_record))) = 5 + blen r.2.
Proof.
  intros Hc. rewrite blen_app, blen_enc_record. destruct rs as [|r' rs]; cbn in Hc.
  - change (blen ([] ≫= enc_record)) with 0. lia.
  - destruct Hc as [<- _]. pose proof (blen_nonneg ((r' :: rs) ≫= enc_record)). lia.
Qed.

Lemma tls_read_header r rest E : @index E _ (enc_record r ++ rest) 0 = Ok x16 /\ @index E _ (enc_record r ++ rest) 1 = Ok x03 /\
  @index E _ (enc_record r ++ rest) 2 = Ok r.1 /\ (0 <= blen r.2 < 2 ^ 16 -> @word_at E (enc_record r ++ rest) 3 = Ok (blen r.2)).
Proof.
  unfold enc_record. split; [done|]. split; [done|]. split; [done|]. intros Hr. rewrite <-!app_assoc. by apply (word_at_put16 [x16; x03; r.1]).
Qed.

Lemma records_length (rs : list (byte * bytes)) : (length (rs ≫= snd) + 5 * length rs = length (rs ≫= enc_record))%nat.
Proof.
  induction rs as [|r rs IH]; [done|]. change ((r :: rs) ≫= snd) with (r.2 ++ (rs ≫= snd)).
  change ((r :: rs) ≫= enc_record) with (enc_record r ++ (rs ≫= enc_record)). rewrite !length_app. pose proof (blen_enc_record r) as H. unfold blen in H. cbn [length]. lia.
Qed.

(** The answer of the parser ends the loop. *)
Lemma answer_final n : answer [] n = Err errNotClientHello \/ exists d, answer [] n = Ok d.
Proof. destruct n as [n|]; [|right; by eexists]. unfold answer, verdict. destruct (HasSuffix n (bs ".")); [by left|right; by eexists]. Qed.

Lemma record_loop_records h n rs fuel data done_ : hello_ok h -> 0 < n < 16384 -> cut_evenly n rs -> wf data -> 65536 <= cap data ->
  content data = done_ -> done_ ++ (rs ≫= snd) = enc_hello h -> (length (rs ≫= snd) <= room data)%nat ->
  blen (rs ≫= enc_record) <= 65536 -> (length rs <= fuel)%nat ->
  record_loop fuel (rs ≫= enc_record) data n = answer [] (hello_name h).
Proof.
  intros Hh Hn. revert rs data done_. induction fuel as [|fuel IH]; intros rs data done_ Hcut Hw Hcap Hdone Hwhole Hroom Hlen Hfuel.
  { destruct rs; [done|cbn in Hfuel; lia]. }
  destruct rs as [|r rs]; [done|]. change ((r :: rs) ≫= enc_record) with (enc_record r ++ (rs ≫= enc_record)) in *.
  change ((r :: rs) ≫= snd) with (r.2 ++ (rs ≫= snd)) in *. pose proof (take_fragment n r rs Hcut) as Hmin.
  cbn [record_loop]. pose proof (blen_nonneg r.2). pose proof (blen_nonneg (rs ≫= enc_record)).
  destruct (Z.ltb_spec 0 (blen (enc_record r ++ (rs ≫= enc_record)))) as [_|Hz]; [|rewrite blen_app, blen_enc_record in Hz; lia]. cbn [negb].
  unfold Cap. rewrite i32_small by (destruct Hw; lia). destruct (Z.ltb_spec (cap data) (blen (enc_record r ++ (rs ≫= enc_record)))); [lia|].
  rewrite Hmin, sub_ok by (rewrite ?blen_app, ?blen_enc_record; lia). cbn [mbind outcome_bind].
  assert (take (Z.to_nat (5 + blen r.2 - 5)) (drop (Z.to_nat 5) (enc_record r ++ (rs ≫= enc_record))) = r.2) as ->.
  { unfold enc_record. rewrite <-app_assoc, <-app_assoc, (app_assoc [x16; x03; r.1]).
    rewrite drop_app_length' by (rewrite length_app, length_put16; done). rewrite take_app_length' by (unfold blen; lia). done. }
  destruct (Write data r.2) as [[data' k]|?|] eqn:HW; cycle 1.
  1, 2: destruct (Write_ok data r.2 Hw) as (? & He & _); congruence.
  destruct (Write_ok data r.2 Hw) as (data1 & He & Hw' & Hc' & Hr'). rewrite HW in He. injection He as <- _.
  pose proof (Write_cap _ _ _ _ Hw HW) as Hcap'. rewrite length_app in Hroom. rewrite take_ge in Hc' by lia.
  cbn [must mbind outcome_bind]. rewrite Bytes_content by done. cbn [mbind outcome_bind must]. rewrite Hc', Hdone.
  destruct (ReadClientHello_prefix h [] Hh (done_ ++ r.2)) as [-> | [Hne ->]].
  { exists (rs ≫= snd). by rewrite <-app_assoc. }
  - destruct (answer_final (hello_name h)) as [-> | [d ->]]; done.
  - cbn [bool_decide decide]. rewrite !bool_decide_false by done. cbn [orb].
    rewrite sub_from_app by (by rewrite blen_enc_record). cbn [mbind outcome_bind].
    destruct rs as [|r' rs]; [by rewrite app_nil_r in Hwhole|]. destruct Hcut as [Hr Hcut].
    assert (0 < blen r'.2 < 16384) as Hr'n by (destruct rs; cbn in Hcut; [|destruct Hcut]; lia).
    pose proof (tls_read_header r' (rs ≫= enc_record) sniff_error) as (Hb0 & Hb1 & Hb2 & Hb3).
    change ((r' :: rs) ≫= enc_record) with (enc_record r' ++ (rs ≫= enc_record)) in *.
    destruct (Z.ltb_spec (blen (enc_record r' ++ (rs ≫= enc_record))) 5) as [Hz|_].
    { rewrite blen_app, blen_enc_record in Hz. pose proof (blen_nonneg (rs ≫= enc_record)). lia. }
    rewrite Hb0, Hb1, Hb2. cbn [mbind outcome_bind]. change (byte_to_Z x16 =? 22) with true. change (IsValidTLSVersion x03 r'.1) with true. cbn [negb].
    rewrite Hb3 by lia. cbn [mbind outcome_bind]. destruct (Z.eqb_spec (blen r'.2) 0); [lia|]. destruct (Z.leb_spec 16384 (blen r'.2)); [lia|]. cbn [orb].
    apply (IH (r' :: rs) data' (done_ ++ r.2)); try done.
    + lia.
    + by rewrite Hc', Hdone.
    + by rewrite <-app_assoc.
    + cbn [mbind list_bind] in *. lia.
    + rewrite blen_app, blen_enc_record in Hlen. change ((r' :: rs) ≫= enc_record) with (enc_record r' ++ (rs ≫= enc_record)). lia.
    + cbn in *. lia.
Qed.

Lemma SniffTLS_records garbage h n rs : pooled 32767 garbage -> hello_ok h -> 0 < n < 16384 -> (head rs ≫= fun r => Some (blen r.2)) = Some n ->
  cut_evenly n rs -> (rs ≫= snd) = enc_hello h -> blen (rs ≫= enc_record) <= 65536 ->
  SniffTLS garbage (rs ≫= enc_record) = answer [] (hello_name h).
Proof.
  intros Hg Hh Hn Hhd Hcut Hall Hlen. destruct rs as [|r rs]; [done|]. injection Hhd as Hrn.
  change ((r :: rs) ≫= enc_record) with (enc_record r ++ (rs ≫= enc_record)) in *. unfold SniffTLS.
  pose proof (blen_nonneg (rs ≫= enc_record)). destruct (Z.ltb_spec (blen (enc_record r ++ (rs ≫= enc_record))) 5) as [Hz|_].
  { rewrite blen_app, blen_enc_record in Hz. lia. }
  pose proof (tls_read_header r (rs ≫= enc_record) sniff_error) as (Hb0 & Hb1 & Hb2 & Hb3). rewrite Hb0, Hb1, Hb2. cbn [mbind outcome_bind].
  change (byte_to_Z x16 =? 22) with true. change (IsValidTLSVersion x03 r.1) with true. cbn [negb]. rewrite Hb3 by lia. cbn [mbind outcome_bind]. rewrite Hrn.
  apply (record_loop_records h n (r :: rs) _ (NewWithSize garbage) []); try done.
  - by apply (wf_NewWithSize 32767).
  - apply Hg.
  - pose proof (records_length (r :: rs)). apply pooled_sniff in Hg. unfold room, NewWithSize, arr. cbn [end_ v default from_option id].
    change ((r :: rs) ≫= enc_record) with (enc_record r ++ (rs ≫= enc_record)) in *. unfold blen in *. lia.
  - pose proof (records_length (r :: rs)). change ((r :: rs) ≫= enc_record) with (enc_record r ++ (rs ≫= enc_record)) in *. lia.
Qed.

(** C3: the sniffer finds the server name: for a ClientHello built as the
    specification says, with any random, session, ciphers, compressions and
    extensions, in one TLS record or in several of equal length below 16384
    (the last one may be shorter) that take up to 65536 bytes, which the
    pooled array of the sniffer holds, the answer is the first host name of its server name
    extensions, none if it has none, and a refusal if the name ends in a dot.
    And a hello that is seen only in part is never misjudged: the parser
    gives the final answer or asks for more data. *)
Theorem tls_server_name_found garbage h n rs : pooled 32767 garbage -> hello_ok h -> 0 < n < 16384 -> (head rs ≫= fun r => Some (blen r.2)) = Some n ->
  cut_evenly n rs -> (rs ≫= snd) = enc_hello h -> blen (rs ≫= enc_record) <= 65536 ->
  SniffTLS garbage (rs ≫= enc_record) = answer [] (hello_name h) /\
  forall p, p `prefix_of` enc_hello h -> ReadClientHello p [] None = answer [] (hello_name h) \/ p ≠ enc_hello h /\ ReadClientHello p [] None = Err ErrProtoNeedMoreData.
Proof. intros. split; [by eapply SniffTLS_records|by apply ReadClientHello_prefix]. Qed.

(** A hello in records of 100 bytes, and the same in two records of which the
    second is longer. *)
Definition example_hello : hello := {|
  h_head := replicate 38 x01; h_session := replicate 32 x02; h_ciphers := [x13; x01; x13; x02]; h_compressions := [x00];
  h_extensions := [Other 10 [x00; x02; x00; x1d]; Names [(x01, bs "not-a-host"); (x00, bs "example.com")]; Other 43 (replicate 60 x07)] |}.

Definition cut_at (n : nat) (b : bytes) : list (byte * bytes) := [(x01, take n b); (x01, drop n b)].

Lemma example_hello_ok : hello_ok example_hello.
Proof. split; try (vm_compute; done). repeat constructor; vm_compute; done. Qed.

Lemma tls_server_name_found_witness :
  SniffTLS (replicate (Z.to_nat 65536) x00) (cut_at 100 (enc_hello example_hello) ≫= enc_record) = Ok (bs "example.com").
Proof.
  assert (pooled 32767 (replicate (Z.to_nat 65536) x00)) as Hg by by apply (pooled_replicate 32767).
  apply (tls_server_name_found (replicate (Z.to_nat 65536) x00) example_hello 100 (cut_at 100 (enc_hello example_hello)) Hg example_hello_ok).
  - lia.
  - reflexivity.
  - vm_compute. repeat split; discriminate.
  - reflexivity.
  - vm_compute. discriminate.
Defined.

(** With a second record longer than the first the name is lost: the
    second record's length is read into another variable of the same name, so
    its first bytes only are taken and the rest is read as a record header.
    The same hello in one record, or cut evenly, is recognised. *)
Theorem tls_longer_second_record_missed : let garbage := replicate (Z.to_nat 65536) x00 in
  SniffTLS garbage (cut_at 60 (enc_hello example_hello) ≫= enc_record) = Err errNotTLS /\
  (cut_at 60 (enc_hello example_hello) ≫= snd) = enc_hello example_hello /\
  SniffTLS garbage (enc_record (x01, enc_hello example_hello)) = Ok (bs "example.com").
Proof. vm_compute. done. Qed.
