(* ===== verification/SniffQuic.v ===== *)
(** * The QUIC sniffer, [common/protocol/quic/sniff.go]

    The Initial packets of a datagram are decrypted with the keys anyone can
    derive, their CRYPTO frames collected, and the ClientHello in them given
    to the TLS parser.  The ciphers and key derivation of the language's
    crypto packages are a class.  As in the TLS sniffer, [Panic] is a run-time
    panic, and also a loop that runs out of fuel. *)

From S2P Require Import Prelude Buffer RangeList Sniffing SniffTls.

Local Open Scope Z_scope.

(** HKDF, AES and AES-GCM with the TLS 1.3 nonce; [None] is a failure. *)
Class QuicCrypto := {
  hkdf_Extract : bytes -> bytes -> bytes;              (* secret, salt *)
  hkdf_Expand : bytes -> bytes -> Z -> option bytes;   (* secret, info, bytes asked for *)
  aes_NewCipher : bytes -> option (bytes -> bytes);    (* the encryption of a block *)
  gcm_Open : bytes -> bytes -> bytes -> bytes -> bytes -> option bytes (* key, iv, nonce, data, additional data *)
}.

Definition BlockSize : Z := 16.

Definition versionDraft29 : Z := 0xff00001d.
Definition version1 : Z := 0x1.
Definition version2 : Z := 0x6b3343cf.

Definition hex_bytes (l : list Z) : bytes := map byte_of_Z l.

(** src/common/protocol/quic/sniff.go:42-44 quicSaltOld *)
Definition quicSalt (versionNumber : Z) : bytes :=
  if versionNumber =? version1 then hex_bytes [0x38; 0x76; 0x2c; 0xf7; 0xf5; 0x59; 0x34; 0xb3; 0x4d; 0x17; 0x9a; 0xe6; 0xa4; 0xc8; 0x0c; 0xad; 0xcc; 0xbb; 0x7f; 0x0a]
  else if versionNumber =? version2 then hex_bytes [0x0d; 0xed; 0xe3; 0xde; 0xf7; 0x00; 0xa6; 0xdb; 0x81; 0x93; 0x81; 0xbe; 0x6e; 0x26; 0x9d; 0xcb; 0xf9; 0xbd; 0x2e; 0xd9]
  else hex_bytes [0xaf; 0xbf; 0xec; 0x28; 0x99; 0x93; 0xd2; 0x4c; 0x9e; 0x97; 0x86; 0xf1; 0x9c; 0x61; 0x11; 0xe0; 0x43; 0x90; 0xa8; 0x99].

(** The labels of the key, the iv and the header protection.
    src/common/protocol/quic/sniff.go:49-56 hkdfLabelKeyV1 *)
Definition hkdfLabels (versionNumber : Z) : bytes * bytes * bytes :=
  if versionNumber =? version2 then (bs "quicv2 key", bs "quicv2 iv", bs "quicv2 hp") else (bs "quic key", bs "quic iv", bs "quic hp").

(** A failed buffer operation as the sniffer's error. *)
Definition or_err {A} (e : sniff_error) (r : outcome unit A) : outcome sniff_error A :=
  match r with Ok a => Ok a | Err _ => Err e | Panic => Panic end.

Fixpoint read_bytes_be (n : nat) (b : Buffer) (acc : Z) : outcome unit (Buffer * Z) :=
  match n with
  | O => Ok (b, acc)
  | S n' => '(b, x) ← ReadByte b; read_bytes_be n' b (acc * 256 + byte_to_Z x)
  end.

(** The first two bits are the length's logarithm.
    src/common/protocol/quic/sniff.go readUvarint *)
Definition readUvarint (b : Buffer) : outcome unit (Buffer * Z) :=
  '(b, firstByte) ← ReadByte b;
  let l := Z.shiftl 1 (Z.shiftr (Z.land (byte_to_Z firstByte) 0xc0) 6) in
  let b1 := Z.land (byte_to_Z firstByte) (0xff - 0xc0) in
  read_bytes_be (Z.to_nat (l - 1)) b b1.

(** ** Frames *)

(** What the packets so far have brought.
    src/common/protocol/quic/sniff.go:61-69 SniffQUIC *)
Record collected := { cryptoLen : Z; cryptoDataBuf : Buffer; validRange : RangeList }.

(** Skips padding; 0 is the type when there is nothing else.
    src/common/protocol/quic/sniff.go:245-251 SniffQUIC *)
Fixpoint read_type (fuel : nat) (buffer : Buffer) : outcome sniff_error (Buffer * byte) :=
  match fuel with
  | O => Panic
  | S fuel' =>
      if IsEmpty buffer then Ok (buffer, x00)
      else
        '(buffer, frameType) ← or_err ErrUnexpectedEOF (ReadByte buffer);
        if byte_to_Z frameType =? 0 then read_type fuel' buffer else Ok (buffer, frameType)
  end.

Fixpoint skip_varints (n : nat) (buffer : Buffer) : outcome sniff_error Buffer :=
  match n with
  | O => Ok buffer
  | S n' => '(buffer, _) ← or_err ErrUnexpectedEOF (readUvarint buffer); skip_varints n' buffer
  end.

(** The ranges of an ACK frame, two numbers each; the count comes from the
    peer, and every number takes a byte at least.
    src/common/protocol/quic/sniff.go:269-276 SniffQUIC *)
Fixpoint skip_ack_ranges (fuel : nat) (ackRangeCount : Z) (buffer : Buffer) : outcome sniff_error Buffer :=
  if negb (0 <? ackRangeCount) then Ok buffer
  else match fuel with
       | O => Panic
       | S fuel' => buffer ← skip_varints 2 buffer; skip_ack_ranges fuel' (ackRangeCount - 1) buffer
       end.

(** src/common/protocol/quic/sniff.go:255-287 SniffQUIC *)
Definition ack_frame (ecn : bool) (buffer : Buffer) : outcome sniff_error Buffer :=
  buffer ← skip_varints 2 buffer;
  '(buffer, ackRangeCount) ← or_err ErrUnexpectedEOF (readUvarint buffer);
  buffer ← skip_varints 1 buffer;
  buffer ← skip_ack_ranges (S (Z.to_nat (Len buffer))) ackRangeCount buffer;
  if ecn then skip_varints 3 buffer else Ok buffer.

(** The data goes into the buffer's array at its offset.
    src/common/protocol/quic/sniff.go:288-312 SniffQUIC *)
Definition crypto_frame (c : collected) (buffer : Buffer) : outcome sniff_error (collected * Buffer) :=
  '(buffer, offset) ← or_err ErrUnexpectedEOF (readUvarint buffer);
  '(buffer, length) ← or_err ErrUnexpectedEOF (readUvarint buffer);
  if Len buffer <? length then Err ErrUnexpectedEOF
  else if 2147483647 <? offset + length then Err ErrShortBuffer
  else
    c ← (if cryptoLen c <? offset + length then
           let data := cryptoDataBuf c in
           let cryptoLen := offset + length in
           if negb (Len data =? cryptoLen) then
             if i32 (Cap data - Len data) <? cryptoLen then Err ErrShortBuffer
             else '(data, _) ← must (Extend data (i32 (cryptoLen - Len data)));
                  Ok {| cryptoLen := cryptoLen; cryptoDataBuf := data; validRange := validRange c |}
           else Ok {| cryptoLen := cryptoLen; cryptoDataBuf := data; validRange := validRange c |}
         else Ok c);
    dst ← must (BytesRange (cryptoDataBuf c) (i32 offset) (i32 (offset + length)));
    '(buffer, data) ← or_err ErrUnexpectedEOF (Read buffer (List.length dst));
    let at_ := Z.to_nat (i32 (start (cryptoDataBuf c) + i32 offset)) in
    Ok ({| cryptoLen := cryptoLen c; cryptoDataBuf := set_array (cryptoDataBuf c) (splice at_ data (arr (cryptoDataBuf c)));
           validRange := Add (validRange c) offset (offset + length) |}, buffer).

(** src/common/protocol/quic/sniff.go:313-326 SniffQUIC *)
Definition close_frame (buffer : Buffer) : outcome sniff_error Buffer :=
  buffer ← skip_varints 2 buffer;
  '(buffer, length) ← or_err ErrUnexpectedEOF (readUvarint buffer);
  '(buffer, _) ← or_err ErrUnexpectedEOF (ReadBytes buffer (i32 length));
  Ok buffer.

(** The frames of a decrypted packet; each takes a byte at least.
    src/common/protocol/quic/sniff.go:244-332 SniffQUIC *)
Fixpoint frame_loop (fuel : nat) (c : collected) (buffer : Buffer) : outcome sniff_error collected :=
  if IsEmpty buffer then Ok c
  else match fuel with
       | O => Panic
       | S fuel' =>
           '(buffer, frameType) ← read_type (S (Z.to_nat (Len buffer))) buffer;
           let t := byte_to_Z frameType in
           '(c, buffer) ← (if (t =? 0) || (t =? 1) then Ok (c, buffer)
                           else if (t =? 2) || (t =? 3) then b ← ack_frame (t =? 3) buffer; Ok (c, b)
                           else if t =? 6 then crypto_frame c buffer
                           else if t =? 0x1c then b ← close_frame buffer; Ok (c, b)
                           else Err errNotQuicInitial);
           frame_loop fuel' c buffer
       end.

Definition read_frames (c : collected) (decrypted : bytes) : outcome sniff_error collected :=
  frame_loop (length decrypted) c (FromBytes decrypted).

(** ** Packets *)

(** What the unprotected part of a long header says; [hdrLen] is where the
    packet number begins. *)
Record long_header := { h_version : Z; h_initial : bool; h_destConnID : bytes; h_packetLen : Z; h_hdrLen : Z }.

(** src/common/protocol/quic/sniff.go:73-138 SniffQUIC *)
Definition read_header (b : bytes) : outcome sniff_error long_header :=
  let buffer := FromBytes b in
  '(buffer, typeByte) ← or_err errNotQuic (ReadByte buffer);
  let isLongHeader := 0 <? Z.land (byte_to_Z typeByte) 0x80 in
  if negb isLongHeader || (Z.land (byte_to_Z typeByte) 0x40 =? 0) then Err errNotQuicInitial
  else
    '(buffer, vb) ← or_err errNotQuic (ReadBytes buffer 4);
    let versionNumber := get32 vb in
    if negb (versionNumber =? 0) && (Z.land (byte_to_Z typeByte) 0x40 =? 0) then Err errNotQuic
    else if negb (versionNumber =? versionDraft29) && negb (versionNumber =? version1) && negb (versionNumber =? version2) then Err errNotQuic
    else
      let packetType := Z.shiftr (Z.land (byte_to_Z typeByte) 0x30) 4 in
      let isQuicInitial := if versionNumber =? version2 then packetType =? 1 else packetType =? 0 in
      '(buffer, l) ← or_err errNotQuic (ReadByte buffer);
      '(buffer, destConnID) ← or_err errNotQuic (ReadBytes buffer (byte_to_Z l));
      '(buffer, l) ← or_err errNotQuic (ReadByte buffer);
      '(buffer, _) ← or_err errNotQuic (ReadBytes buffer (byte_to_Z l));
      buffer ← (if isQuicInitial then
                  '(buffer, tokenLen) ← or_err errNotQuic (readUvarint buffer);
                  if blen b <? tokenLen then Err errNotQuic
                  else '(buffer, _) ← or_err errNotQuic (ReadBytes buffer (i32 tokenLen)); Ok buffer
                else Ok buffer);
      '(buffer, packetLen) ← or_err errNotQuic (readUvarint buffer);
      if packetLen <? 4 then Err errNotQuic
      else Ok {| h_version := versionNumber; h_initial := isQuicInitial; h_destConnID := destConnID; h_packetLen := packetLen;
                 h_hdrLen := blen b - Len buffer |}.

(** Zeros between packets are skipped.
    src/common/protocol/quic/sniff.go:146-153 SniffQUIC *)
Fixpoint skip_zeros (b : bytes) : bytes :=
  match b with x :: b' => if byte_to_Z x =? 0 then skip_zeros b' else b | [] => [] end.

Definition xor_byte (a m : byte) : byte := byte_of_Z (Z.lxor (byte_to_Z a) (byte_to_Z m)).

Section Packets.
Context `{QuicCrypto}.

(** src/common/protocol/quic/sniff.go hkdfExpandLabel *)
Definition hkdfExpandLabel (secret context label : bytes) (n : Z) : outcome sniff_error bytes :=
  let b := put16 n ++ [byte_of_Z (6 + blen label)] ++ bs "tls13 " ++ label ++ [byte_of_Z (blen context)] ++ context in
  match hkdf_Expand secret b n with
  | Some out => if blen out =? n then Ok out else Panic
  | None => Panic
  end.

(** The decryption of an Initial packet [b]; [b] is the code's clone, which is
    decrypted in place.
    src/common/protocol/quic/sniff.go:159-242 SniffQUIC *)
Definition open_initial (b : bytes) (h : long_header) : outcome sniff_error bytes :=
  let hdrLen := h_hdrLen h in
  let packetLen := h_packetLen h in
  origPNBytes ← sub b hdrLen (hdrLen + 4);
  let '(keyLabel, ivLabel, hpLabel) := hkdfLabels (h_version h) in
  let initialSecret := hkdf_Extract (h_destConnID h) (quicSalt (h_version h)) in
  secret ← hkdfExpandLabel initialSecret [] (bs "client in") 32;
  hpKey ← hkdfExpandLabel secret [] hpLabel 16;
  match aes_NewCipher hpKey with
  | None => Err ErrDecrypt
  | Some encrypt =>
      if blen b <? hdrLen + 4 + BlockSize then Err errNotQuic
      else if packetLen <? 4 + BlockSize then Err errNotQuic
      else
        sample ← sub b (hdrLen + 4) (hdrLen + 4 + BlockSize);
        let mask := encrypt sample in
        b0 ← index b 0; m0 ← index mask 0; m ← sub mask 1 5;
        let first := xor_byte b0 (byte_of_Z (Z.land (byte_to_Z m0) 0xf)) in
        let pn := zip_with xor_byte origPNBytes m in
        let packetNumberLength := Z.land (byte_to_Z first) 3 + 1 in
        if packetLen <? packetNumberLength then Err errNotQuic
        else
          let packetNumber := be_combine (take (Z.to_nat packetNumberLength) pn) in
          let extHdrLen := hdrLen + packetNumberLength in
          let b := splice (Z.to_nat hdrLen) (take (Z.to_nat packetNumberLength) pn ++ drop (Z.to_nat packetNumberLength) origPNBytes) (splice 0 [first] b) in
          data ← sub b extHdrLen (packetLen + hdrLen);
          key ← hkdfExpandLabel secret [] keyLabel 16;
          iv ← hkdfExpandLabel secret [] ivLabel 12;
          head ← sub_to b extHdrLen;
          match gcm_Open key iv (be_split 8 packetNumber) data head with
          | Some decrypted => Ok decrypted
          | None => Err ErrDecrypt
          end
  end.

(** The packets of a datagram; each is shorter than what held it.
    The hello is looked for again after each of them.
    src/common/protocol/quic/sniff.go:139-158 SniffQUIC *)
Fixpoint packet_loop (fuel : nat) (c : collected) (b : bytes) : outcome sniff_error bytes :=
  if negb (0 <? blen b) then Err ErrProtoNeedMoreData
  else match fuel with
       | O => Panic
       | S fuel' =>
           h ← read_header b;
           if blen b <? h_hdrLen h + h_packetLen h then Err ErrNoClue
           else
             rest ← sub_from b (h_hdrLen h + h_packetLen h);
             let restPayload := skip_zeros rest in
             if negb (h_initial h) then packet_loop fuel' c restPayload
             else
               decrypted ← open_initial b h;
               c ← read_frames c decrypted;
               hello ← must (BytesRange (cryptoDataBuf c) 0 (i32 (cryptoLen c)));
               match ReadClientHello hello [] (Some (validRange c)) with
               | Ok domain => Ok domain
               | Err _ => packet_loop fuel' c restPayload
               | Panic => Panic
               end
       end.

(** The domain found; [garbage] is the pool's array.
    src/common/protocol/quic/sniff.go:56-71 SniffQUIC *)
Definition SniffQUIC (garbage : bytes) (input : bytes) : outcome sniff_error bytes :=
  if blen input =? 0 then Err ErrNoClue
  else packet_loop (length input) {| cryptoLen := 0; cryptoDataBuf := NewWithSize garbage; validRange := NewRangeList |} input.
End Packets.
