(* ===== verification/SniffQuicFacts.v ===== *)
(** * Facts about the QUIC sniffer

    Variable-length integers and frames are read back as the specification
    writes them; the CRYPTO frames of a ClientHello, in any order, with
    repetitions and over any number of packets, rebuild it; and a
    CONNECTION_CLOSE frame makes the sniffer panic. *)

From S2P Require Import Prelude Buffer BufferFacts Matchers RangeList Sniffing SniffTls SniffQuic.

Local Open Scope Z_scope.

(** ** Variable-length integers *)

(** The encoding of [n] in [2 ^ l] bytes. *)
Definition vint : Type := nat * Z.
Definition vint_ok (i : vint) : Prop := (i.1 <= 3)%nat /\ 0 <= i.2 < 2 ^ (8 * 2 ^ Z.of_nat i.1 - 2).
Definition enc_vint (i : vint) : bytes := be_split (2 ^ i.1) (i.2 + Z.of_nat i.1 * 2 ^ (8 * 2 ^ Z.of_nat i.1 - 2)).

Lemma read_bytes_be_ok d b s acc : wf b -> content b = d ++ s ->
  exists b', read_bytes_be (length d) b acc = Ok (b', acc * 256 ^ Z.of_nat (length d) + be_sum d) /\ wf b' /\ content b' = s.
Proof.
  revert b acc. induction d as [|x d IH]; intros b acc Hb Hc.
  - exists b. split; [|done]. cbn. do 2 f_equal. unfold be_sum. cbn. lia.
  - cbn [length read_bytes_be]. destruct (ReadByte_ok b Hb) as [[Hn _] | (y & b1 & -> & Hc1 & Hw1)]; [by rewrite Hn in Hc|].
    cbn [mbind outcome_bind]. rewrite Hc in Hc1. injection Hc1 as <- Hc1. destruct (IH b1 (acc * 256 + byte_to_Z x) Hw1 (eq_sym Hc1)) as (b2 & -> & Hw2 & Hc2).
    exists b2. split; [|done]. do 2 f_equal. unfold be_sum at 2. cbn [foldl]. rewrite be_sum_acc, Nat2Z.inj_succ, Z.pow_succ_r by lia. lia.
Qed.

Lemma first_byte_bits x : 0 <= x < 256 -> Z.shiftl 1 (Z.shiftr (Z.land x 0xc0) 6) = 2 ^ (x / 64) /\ Z.land x (0xff - 0xc0) = x mod 64.
Proof.
  intros Hx. rewrite Z.shiftr_land. change (Z.shiftr 0xc0 6) with (Z.ones 2). change (0xff - 0xc0) with (Z.ones 6). rewrite !Z.land_ones, Z.shiftr_div_pow2, Z.shiftl_mul_pow2 by (try apply Z.mod_pos_bound; lia).
  change (2 ^ 6) with 64. split; [|done]. rewrite Z.mod_small by (change (2 ^ 2) with 4; solve_wrap). lia.
Qed.

Lemma readUvarint_enc b i s : wf b -> vint_ok i -> content b = enc_vint i ++ s ->
  exists b', readUvarint b = Ok (b', i.2) /\ wf b' /\ content b' = s.
Proof.
  intros Hb [Hl Hn] Hc. destruct i as [l n]. unfold enc_vint in Hc. cbn [fst snd] in *. set (k := (2 ^ l - 1)%nat) in *.
  assert (2 ^ l = S k)%nat as Hk by (unfold k; pose proof (Nat.pow_nonzero 2 l); lia). rewrite Hk in Hc. cbn [be_split] in Hc.
  unfold readUvarint. destruct (ReadByte_ok b Hb) as [[Hnil _] | (y & b1 & -> & Hc1 & Hw1)]; [by rewrite Hnil in Hc|].
  cbn [mbind outcome_bind]. rewrite Hc in Hc1. injection Hc1 as Hy Hc1. rewrite Z.shiftr_div_pow2 in Hy by lia.
  set (z := n + Z.of_nat l * 2 ^ (8 * 2 ^ Z.of_nat l - 2)) in *.
  pose proof (first_byte_bits _ (byte_to_Z_range y)) as [-> ->]. rewrite <-Hy, byte_to_of_Z. unfold u8.
  set (q := 2 ^ (8 * Z.of_nat k)) in *. assert (0 < q) by (unfold q; apply Z.pow_pos_nonneg; lia).
  assert (2 ^ Z.of_nat l = Z.of_nat k + 1) as Hkz by (pose proof (Nat2Z.inj_pow 2 l) as Hp; change (Z.of_nat 2) with 2 in Hp; lia).
  assert (2 ^ (8 * 2 ^ Z.of_nat l - 2) = 64 * q) as Hq.
  { rewrite Hkz. replace (8 * (Z.of_nat k + 1) - 2) with (6 + 8 * Z.of_nat k) by lia. by rewrite Z.pow_add_r by lia. }
  assert (256 ^ Z.of_nat k = q) as H256 by (unfold q; rewrite Z.pow_mul_r by lia; done).
  assert (z / q = n / q + 64 * Z.of_nat l) as Hz by (unfold z; rewrite Hq; replace (n + Z.of_nat l * (64 * q)) with (n + (64 * Z.of_nat l) * q) by lia; apply Z.div_add; lia).
  assert (0 <= n / q < 64) as Hnq by (split; [apply Z.div_pos; lia|apply Z.div_lt_upper_bound; lia]).
  assert (z mod q = n mod q) as Hm by (unfold z; rewrite Hq; replace (n + Z.of_nat l * (64 * q)) with (n + (64 * Z.of_nat l) * q) by lia; apply Z.mod_add; lia).
  rewrite Hz. rewrite (Z.mod_small _ (2 ^ 8)) by lia.
  replace ((n / q + 64 * Z.of_nat l) / 64) with (Z.of_nat l) by (rewrite (Z.mul_comm 64), Z.div_add, Z.div_small; lia).
  replace ((n / q + 64 * Z.of_nat l) mod 64) with (n / q) by (rewrite (Z.mul_comm 64), Z.mod_add, Z.mod_small; lia).
  rewrite Hkz. replace (Z.to_nat (Z.of_nat k + 1 - 1)) with k by lia.
  destruct (read_bytes_be_ok (be_split k z) b1 s (n / q) Hw1 (eq_sym Hc1)) as (b2 & He & Hw2 & Hc2). rewrite length_be_split in He. rewrite He.
  exists b2. split; [|done]. do 2 f_equal. rewrite be_sum_split, H256, Hm. pose proof (Z.div_mod n q). lia.
Qed.

(** ** Frames *)

(** The frames an Initial packet may have, with their numbers in any of the
    encodings; a count or length is that of the list that follows. *)
Inductive frame :=
  | Padding | Ping
  | Ack (largest delay count first : vint) (ranges : list (vint * vint)) (ecn : option (vint * vint * vint))
  | Crypto (offset size : vint) (data : bytes)
  | ConnectionClose (code type size : vint) (reason : bytes).

Definition ack_type (ecn : option (vint * vint * vint)) : byte := if ecn then x03 else x02.
Definition frame_type (f : frame) : byte :=
  match f with Padding => x00 | Ping => x01 | Ack _ _ _ _ _ ecn => ack_type ecn | Crypto _ _ _ => x06 | ConnectionClose _ _ _ _ => x1c end.

Definition pairs (l : list (vint * vint)) : list vint := l ≫= fun p => [p.1; p.2].
Definition triple (t : option (vint * vint * vint)) : list vint := match t with Some (a, b, c) => [a; b; c] | None => [] end.
Definition enc_vints (l : list vint) : bytes := l ≫= enc_vint.

Definition frame_body (f : frame) : bytes :=
  match f with
  | Padding | Ping => []
  | Ack largest delay count first ranges ecn => enc_vints ([largest; delay; count; first] ++ pairs ranges ++ triple ecn)
  | Crypto offset size data => enc_vints [offset; size] ++ data
  | ConnectionClose code type size reason => enc_vints [code; type; size] ++ reason
  end.
Definition enc_frame (f : frame) : bytes := frame_type f :: frame_body f.

(** The end of the hello up to which the buffer surely has room: its test asks
    for the whole length again behind what it has. *)
Definition crypto_limit : Z := 32768.

Definition frame_ok (f : frame) : Prop :=
  match f with
  | Padding | Ping => True
  | Ack largest delay count first ranges ecn => Forall vint_ok ([largest; delay; count; first] ++ pairs ranges ++ triple ecn) /\ count.2 = blen ranges
  | Crypto offset size data => vint_ok offset /\ vint_ok size /\ size.2 = blen data /\ data ≠ [] /\ offset.2 + size.2 <= crypto_limit
  | ConnectionClose code type size reason => Forall vint_ok [code; type; size] /\ size.2 = blen reason /\ size.2 < 2 ^ 31
  end.

(** What a frame adds: a hello under construction is the bytes' array, how
    far they reach and which have arrived. *)
Record stream := { s_len : Z; s_arr : bytes; s_ranges : RangeList }.

Definition place (s : stream) (f : frame) : stream :=
  match f with
  | Crypto offset size data =>
      {| s_len := Z.max (s_len s) (offset.2 + size.2); s_arr := splice (Z.to_nat offset.2) data (s_arr s);
         s_ranges := Add (s_ranges s) offset.2 (offset.2 + size.2) |}
  | _ => s
  end.

Definition conc (s : stream) : collected :=
  {| cryptoLen := s_len s; validRange := s_ranges s;
     cryptoDataBuf := {| v := Some (s_arr s); start := 0; end_ := s_len s; owner := bytespools; Endpoint := None |} |}.

Definition stream_ok (s : stream) : Prop := 0 <= s_len s <= crypto_limit /\ pooled 32767 (s_arr s).

Lemma vint_nonneg i : vint_ok i -> 0 <= i.2 < 2 ^ 62.
Proof.
  intros [Hl Hn]. split; [lia|]. destruct Hn as [_ Hn]. eapply Z.lt_le_trans; [exact Hn|]. apply Z.pow_le_mono_r; [lia|].
  assert (2 ^ Z.of_nat i.1 <= 2 ^ 3) by (apply Z.pow_le_mono_r; lia). lia.
Qed.

Lemma place_ok s f : stream_ok s -> frame_ok f -> stream_ok (place s f).
Proof.
  intros [Hl Ha] Hf. destruct f as [| | |offset size data|]; try done. destruct Hf as (Ho & Hs & Hsz & _ & Hlim).
  pose proof (vint_nonneg _ Ho). pose proof (vint_nonneg _ Hs). unfold crypto_limit, blen in *. cbn. split; [cbn; unfold crypto_limit; lia|].
  pose proof (pooled_sniff _ Ha). cbn. unfold pooled in *. rewrite length_splice; [done|]. lia.
Qed.

(** ** Reading them *)

Lemma skip_varints_ok l b s : wf b -> Forall vint_ok l -> content b = enc_vints l ++ s ->
  exists b', skip_varints (length l) b = Ok b' /\ wf b' /\ content b' = s.
Proof.
  intros Hb Hl. revert b Hb. induction Hl as [|i l Hi _ IH]; intros b Hb Hc; [by exists b|].
  change (enc_vints (i :: l)) with (enc_vint i ++ enc_vints l) in Hc. rewrite <-app_assoc in Hc.
  destruct (readUvarint_enc b i _ Hb Hi Hc) as (b1 & He & Hw1 & Hc1). cbn [length skip_varints]. rewrite He. cbn [or_err mbind outcome_bind]. by apply IH.
Qed.

Lemma skip_ack_ranges_ok fuel l b s : wf b -> Forall vint_ok (pairs l) -> content b = enc_vints (pairs l) ++ s -> (length l <= fuel)%nat ->
  exists b', skip_ack_ranges fuel (blen l) b = Ok b' /\ wf b' /\ content b' = s.
Proof.
  revert l b. induction fuel as [|fuel IH]; intros l b Hb Hl Hc Hf.
  { destruct l; [by exists b|cbn in Hf; lia]. }
  destruct l as [|[x y] l]; [by exists b|]. cbn [skip_ack_ranges]. destruct (Z.ltb_spec 0 (blen ((x, y) :: l))) as [_|Hz]; [|unfold blen in Hz; cbn in Hz; lia].
  cbn [negb]. change (pairs ((x, y) :: l)) with ([x; y] ++ pairs l) in *. apply Forall_app in Hl as [Hxy Hl].
  assert (enc_vints ([x; y] ++ pairs l) = enc_vints [x; y] ++ enc_vints (pairs l)) as He by apply bind_app. rewrite He, <-app_assoc in Hc.
  destruct (skip_varints_ok [x; y] b _ Hb Hxy Hc) as (b1 & Hsk & Hw1 & Hc1). change (length [x; y]) with 2%nat in Hsk. rewrite Hsk. cbn [mbind outcome_bind].
  replace (blen ((x, y) :: l) - 1) with (blen l) by (unfold blen; cbn [length]; lia). apply IH; [done|done|done|cbn in Hf; lia].
Qed.

Lemma length_enc_vint i : (0 < length (enc_vint i))%nat.
Proof. unfold enc_vint. rewrite length_be_split. pose proof (Nat.pow_nonzero 2 i.1). lia. Qed.

Lemma length_enc_vints l : (length l <= length (enc_vints l))%nat.
Proof.
  induction l as [|i l IH]; [done|]. change (enc_vints (i :: l)) with (enc_vint i ++ enc_vints l). rewrite length_app. pose proof (length_enc_vint i). cbn [length]. lia.
Qed.

Lemma length_pairs l : length (pairs l) = (2 * length l)%nat.
Proof. induction l as [|p l IH]; [done|]. change (pairs (p :: l)) with ([p.1; p.2] ++ pairs l). rewrite length_app, IH. cbn [length]. lia. Qed.

Lemma ack_frame_ok b s largest delay count first ranges ecn : wf b -> frame_ok (Ack largest delay count first ranges ecn) ->
  content b = frame_body (Ack largest delay count first ranges ecn) ++ s ->
  exists b', ack_frame (if ecn then true else false) b = Ok b' /\ wf b' /\ content b' = s.
Proof.
  intros Hb [Hf Hcount] Hc. cbn [frame_body] in Hc. apply Forall_app in Hf as [Hhd Hf]. apply Forall_app in Hf as [Hr Ht].
  assert (forall a c, enc_vints (a ++ c) = enc_vints a ++ enc_vints c) as Happ by (intros; apply bind_app).
  change ([largest; delay; count; first]) with ([largest; delay] ++ [count] ++ [first]) in *. rewrite !Happ, <-!app_assoc in Hc.
  apply Forall_app in Hhd as [Hld Hhd]. apply Forall_app in Hhd as [Hco Hfi]. inversion Hco as [|? ? Hco' _]; subst.
  unfold ack_frame. destruct (skip_varints_ok _ b _ Hb Hld Hc) as (b1 & He1 & Hw1 & Hc1). change (length [largest; delay]) with 2%nat in He1. rewrite He1. cbn [mbind outcome_bind].
  change (enc_vints [count]) with (enc_vint count ++ []) in Hc1. rewrite app_nil_r in Hc1.
  destruct (readUvarint_enc b1 count _ Hw1 Hco' Hc1) as (b2 & He2 & Hw2 & Hc2). rewrite He2. cbn [or_err mbind outcome_bind].
  destruct (skip_varints_ok _ b2 _ Hw2 Hfi Hc2) as (b3 & He3 & Hw3 & Hc3). change (length [first]) with 1%nat in He3. rewrite He3. cbn [mbind outcome_bind].
  rewrite Hcount. destruct (skip_ack_ranges_ok (S (Z.to_nat (Len b3))) ranges b3 _ Hw3 Hr Hc3) as (b4 & He4 & Hw4 & Hc4).
  { rewrite Len_content by done. rewrite Hc3, length_app. pose proof (length_enc_vints (pairs ranges)). rewrite length_pairs in *. lia. }
  rewrite He4. cbn [mbind outcome_bind]. destruct ecn as [[[x y] z]|]; [|by exists b4]. apply (skip_varints_ok [x; y; z]); done.
Qed.

Lemma close_frame_ok b s code type size reason : wf b -> frame_ok (ConnectionClose code type size reason) ->
  content b = frame_body (ConnectionClose code type size reason) ++ s ->
  exists b', close_frame b = Ok b' /\ wf b' /\ content b' = s.
Proof.
  intros Hb (Hf & Hsz & Hsm) Hc. cbn [frame_body] in Hc. change [code; type; size] with ([code; type] ++ [size]) in *.
  apply Forall_app in Hf as [Hct Hf]. inversion Hf as [|? ? Hsize _]; subst.
  assert (enc_vints ([code; type] ++ [size]) = enc_vints [code; type] ++ enc_vint size) as He by (unfold enc_vints; rewrite bind_app; f_equal; apply app_nil_r).
  rewrite He, <-!app_assoc in Hc. unfold close_frame. destruct (skip_varints_ok _ b _ Hb Hct Hc) as (b1 & He1 & Hw1 & Hc1).
  change (length [code; type]) with 2%nat in He1. rewrite He1. cbn [mbind outcome_bind].
  destruct (readUvarint_enc b1 size _ Hw1 Hsize Hc1) as (b2 & -> & Hw2 & Hc2). cbn [or_err mbind outcome_bind].
  pose proof (vint_nonneg _ Hsize). rewrite i32_small by lia.
  pose proof (ReadBytes_ok b2 size.2 Hw2 ltac:(lia)) as Hr. rewrite Hc2, length_app in Hr.
  rewrite decide_True in Hr by (unfold blen in *; lia). destruct Hr as (b3 & -> & Hw3 & Hc3). cbn [or_err mbind outcome_bind].
  exists b3. split; [done|]. split; [done|]. rewrite Hc3, Hsz. unfold blen. by rewrite Nat2Z.id, drop_app_length.
Qed.

(** The buffer made long enough for a frame. *)
Lemma quic_grow_ok s e : stream_ok s -> 0 <= e <= crypto_limit -> s_len s < e ->
  i32 (Cap (cryptoDataBuf (conc s)) - Len (cryptoDataBuf (conc s))) <? e = false /\
  Extend (cryptoDataBuf (conc s)) (i32 (e - Len (cryptoDataBuf (conc s)))) =
    Ok ({| v := Some (s_arr s); start := 0; end_ := e; owner := bytespools; Endpoint := None |}, (s_len s, e)).
Proof.
  intros [Hl Ha] He Hlt. apply pooled_sniff in Ha. unfold crypto_limit, blen in *. unfold Cap, Len, Extend, cap, arr. cbn [cryptoDataBuf conc v start end_ default from_option id].
  set (n := Z.of_nat (length (s_arr s))) in *. rewrite Z.sub_0_r, (i32_small n), (i32_small (s_len s)), (i32_small (n - _)), (i32_small (e - _)) by lia.
  destruct (Z.ltb_spec (n - s_len s) e); [lia|]. split; [done|]. rewrite i32_small by lia. replace (s_len s + (e - s_len s)) with e by lia.
  rewrite decide_False by lia. unfold slice_of. unfold arr. cbn [v default from_option id]. rewrite slice_ok by lia. done.
Qed.

Lemma crypto_frame_ok st b s offset size data : stream_ok st -> wf b -> frame_ok (Crypto offset size data) ->
  content b = frame_body (Crypto offset size data) ++ s ->
  exists b', crypto_frame (conc st) b = Ok (conc (place st (Crypto offset size data)), b') /\ wf b' /\ content b' = s.
Proof.
  intros Hst Hb (Ho & Hs & Hsz & Hne & Hlim) Hc. cbn [frame_body] in Hc. pose proof (vint_nonneg _ Ho). pose proof (vint_nonneg _ Hs). unfold crypto_limit in Hlim.
  change (enc_vints [offset; size]) with (enc_vint offset ++ enc_vint size ++ []) in Hc. rewrite app_nil_r, <-!app_assoc in Hc. unfold crypto_frame.
  destruct (readUvarint_enc b offset _ Hb Ho Hc) as (b1 & -> & Hw1 & Hc1). cbn [or_err mbind outcome_bind].
  destruct (readUvarint_enc b1 size _ Hw1 Hs Hc1) as (b2 & -> & Hw2 & Hc2). cbn [or_err mbind outcome_bind].
  rewrite Len_content, Hc2, length_app by done. set (e := offset.2 + size.2) in *. assert (e = offset.2 + size.2) as Hee by done. unfold blen in Hsz.
  destruct (Z.ltb_spec (Z.of_nat (length data + length s)) size.2); [lia|]. destruct (Z.ltb_spec 2147483647 e); [lia|].
  set (mid := (if cryptoLen (conc st) <? e then _ else _) : outcome sniff_error collected).
  assert (mid = Ok {| cryptoLen := Z.max (s_len st) e; cryptoDataBuf := {| v := Some (s_arr st); start := 0; end_ := Z.max (s_len st) e; owner := bytespools; Endpoint := None |}; validRange := s_ranges st |}) as ->.
  { unfold mid. cbn [cryptoLen conc]. destruct (Z.ltb_spec (s_len st) e) as [Hlt|Hge].
    - destruct (quic_grow_ok st e Hst ltac:(unfold crypto_limit; lia) Hlt) as [-> ->]. rewrite Z.max_r by lia.
      assert (Len (cryptoDataBuf (conc st)) =? e = false) as ->; [|done].
      destruct Hst as [Hl _]. unfold crypto_limit in Hl. unfold Len. cbn. rewrite i32_small by lia. destruct (Z.eqb_spec (s_len st - 0) e); [lia|done].
    - by rewrite Z.max_l by lia. }
  cbn [mbind outcome_bind]. destruct Hst as [Hl Ha]. apply pooled_sniff in Ha. unfold crypto_limit, blen in *. unfold BytesRange, from_end. cbn [start end_ cryptoDataBuf].
  rewrite (i32_small e), (i32_small offset.2) by lia. destruct (Z.ltb_spec offset.2 0); [lia|]. destruct (Z.ltb_spec e 0); [lia|]. rewrite !Z.add_0_l, (i32_small e), (i32_small offset.2) by lia.
  rewrite slice_of_ok by (unfold cap, arr; cbn; lia). cbn [must mbind outcome_bind]. unfold arr. cbn [v default from_option id].
  rewrite length_take, length_drop. replace (_ `min` _)%nat with (length data) by lia.
  destruct (Read_ok b2 (length data) Hw2) as (b3 & -> & Hw3 & Hc3); [rewrite Hc2; by destruct data|]. cbn [or_err mbind outcome_bind].
  rewrite Hc2, take_app_length. rewrite Hc2, drop_app_length in Hc3. exists b3. split; [|done]. done.
Qed.

(** ** Padding *)

Lemma read_type_padding k b s fuel : wf b -> content b = replicate k x00 ++ s -> (k < fuel)%nat ->
  match s with
  | [] => exists b', read_type fuel b = Ok (b', x00) /\ wf b' /\ content b' = []
  | t :: s' => t ≠ x00 -> exists b', read_type fuel b = Ok (b', t) /\ wf b' /\ content b' = s'
  end.
Proof.
  revert k b. induction fuel as [|fuel IH]; intros k b Hb Hc Hf; [lia|]. cbn [read_type]. rewrite IsEmpty_content by done.
  destruct (ReadByte_ok b Hb) as [[Hn _] | (y & b1 & -> & Hc1 & Hw1)].
  - rewrite bool_decide_true by done. rewrite Hn in Hc. destruct k; [|done]. destruct s; [|done]. by exists b.
  - rewrite bool_decide_false by (by rewrite Hc1). cbn [or_err mbind outcome_bind]. rewrite Hc in Hc1. destruct k as [|k]; cbn [replicate app] in Hc1.
    + destruct s as [|t s]; [done|]. injection Hc1 as -> Hc1. intros Ht. destruct (Z.eqb_spec (byte_to_Z y) 0) as [Hz|_]; [by apply (inj byte_to_Z y x00) in Hz|].
      exists b1. by rewrite Hc1.
    + injection Hc1 as <- Hc1. change (byte_to_Z x00 =? 0) with true. cbn iota. apply (IH k); [done|by rewrite Hc1|lia].
Qed.

Lemma split_padding fs : exists k rest, (fs ≫= enc_frame) = replicate k x00 ++ (rest ≫= enc_frame) /\ (length rest + k = length fs)%nat /\
  (forall s, foldl place s fs = foldl place s rest) /\ (Forall frame_ok fs -> Forall frame_ok rest) /\ match rest with Padding :: _ => False | _ => True end.
Proof.
  induction fs as [|f fs (k & rest & He & Hn & Hp & Hok & Hr)]; [by exists 0%nat, []|].
  destruct f; try (eexists 0%nat, (_ :: fs); split; [done|]; split; [cbn; lia|]; done).
  exists (S k), rest. change ((Padding :: fs) ≫= enc_frame) with (x00 :: (fs ≫= enc_frame)). rewrite He. split; [done|].
  split; [cbn; lia|]. split; [by intros; cbn; rewrite Hp|]. split; [|done]. intros Hf. inversion Hf; subst. by apply Hok.
Qed.

Lemma frame_type_nonzero f : f ≠ Padding -> frame_type f ≠ x00.
Proof. destruct f as [| |? ? ? ? ? [?|]| |]; done. Qed.

Lemma frame_loop_ok fuel st fs b : stream_ok st -> Forall frame_ok fs -> wf b -> content b = fs ≫= enc_frame -> (length (content b) <= fuel)%nat ->
  frame_loop fuel (conc st) b = Ok (conc (foldl place st fs)).
Proof.
  revert st fs b. induction fuel as [|fuel IH]; intros st fs b Hst Hfs Hb Hc Hf.
  { destruct (content b) eqn:E; [|cbn in Hf; lia]. cbn [frame_loop]. rewrite IsEmpty_content, bool_decide_true by done. destruct fs; [done|done]. }
  destruct (split_padding fs) as (k & rest & He & Hn & Hp & Hok & Hr). rewrite Hp. specialize (Hok Hfs). rewrite He in Hc. clear Hn.
  cbn [frame_loop]. rewrite IsEmpty_content by done. case_bool_decide as Hnil.
  { rewrite Hnil in Hc. destruct k; [|done]. by destruct rest. }
  pose proof (read_type_padding k b (rest ≫= enc_frame) (S (Z.to_nat (Len b))) Hb Hc) as Ht.
  specialize (Ht ltac:(rewrite Len_content, Hc, length_app, length_replicate by done; lia)).
  destruct rest as [|f rest].
  - change ([] ≫= enc_frame) with (@nil byte) in Ht. destruct Ht as (b1 & -> & Hw1 & Hc1). cbn [mbind outcome_bind].
    change (byte_to_Z x00 =? 0) with true. cbn [orb mbind outcome_bind]. apply (IH st [] b1); try done. by rewrite Hc1; cbn; lia.
  - assert (f ≠ Padding) as Hnp by (by intros ->). change ((f :: rest) ≫= enc_frame) with (frame_type f :: (frame_body f ++ (rest ≫= enc_frame))) in Ht, Hc.
    destruct (Ht (frame_type_nonzero f Hnp)) as (b1 & -> & Hw1 & Hc1). cbn [mbind outcome_bind]. clear Ht.
    inversion Hok as [|? ? Hfok Hrok]; subst. cbn [foldl].
    assert (length (rest ≫= enc_frame) <= fuel)%nat as Hfuel by (rewrite Hc, length_app in Hf; cbn [length] in Hf; rewrite length_app in Hf; lia).
    assert (forall b', wf b' -> content b' = rest ≫= enc_frame -> frame_loop fuel (conc (place st f)) b' = Ok (conc (foldl place (place st f) rest))) as Hrest.
    { intros b' Hw' Hc'. apply IH; try done; [by apply place_ok|by rewrite Hc']. }
    destruct f as [| |largest delay count first ranges ecn|offset size data|code type size reason]; [done| | | |].
    + cbn. by apply Hrest.
    + destruct (ack_frame_ok b1 _ _ _ _ _ _ _ Hw1 Hfok Hc1) as (b2 & Ha & Hw2 & Hc2).
      destruct ecn as [t|]; cbn [frame_type ack_type]; [change (byte_to_Z x03) with 3|change (byte_to_Z x02) with 2]; cbn [Z.eqb Pos.eqb orb]; rewrite Ha; cbn [mbind outcome_bind]; by apply Hrest.
    + destruct (crypto_frame_ok st b1 _ _ _ _ Hst Hw1 Hfok Hc1) as (b2 & Ha & Hw2 & Hc2). cbn [frame_type]. change (byte_to_Z x06) with 6. cbn [Z.eqb Pos.eqb orb].
      rewrite Ha. cbn [mbind outcome_bind]. by apply Hrest.
    + destruct (close_frame_ok b1 _ _ _ _ _ Hw1 Hfok Hc1) as (b2 & Ha & Hw2 & Hc2). cbn [frame_type]. change (byte_to_Z x1c) with 28. cbn [Z.eqb Pos.eqb orb].
      rewrite Ha. cbn [mbind outcome_bind]. by apply Hrest.
Qed.

Lemma read_frames_ok st fs : stream_ok st -> Forall frame_ok fs -> blen (fs ≫= enc_frame) < 2 ^ 31 ->
  read_frames (conc st) (fs ≫= enc_frame) = Ok (conc (foldl place st fs)).
Proof.
  intros Hst Hfs Hl. destruct (wf_FromBytes (fs ≫= enc_frame) Hl) as [Hw Hc]. unfold read_frames. apply frame_loop_ok; try done. by rewrite Hc.
Qed.

(** ** The hello, put together again *)

Lemma lookup_splice_out {A} at_ (src l : list A) x : (at_ + length src <= length l)%nat -> (x < at_ \/ at_ + length src <= x)%nat -> splice at_ src l !! x = l !! x.
Proof.
  intros Hl Hx. unfold splice. destruct (Nat.lt_ge_cases x at_).
  - rewrite lookup_app_l by (rewrite length_take; lia). by rewrite lookup_take_lt.
  - rewrite lookup_app_r by (rewrite length_take; lia). rewrite length_take, lookup_app_r by lia. rewrite lookup_drop. f_equal. lia.
Qed.

Lemma lookup_splice_in {A} at_ (src l : list A) x : (at_ + length src <= length l)%nat -> (at_ <= x < at_ + length src)%nat -> splice at_ src l !! x = src !! (x - at_)%nat.
Proof.
  intros Hl Hx. unfold splice. rewrite lookup_app_r by (rewrite length_take; lia). rewrite length_take, lookup_app_l by lia. f_equal. lia.
Qed.

(** Where the bytes of a sequence of frames go. *)
Definition frame_ranges (fs : list frame) : list (Z * Z) :=
  fs ≫= fun f => match f with Crypto offset size _ => [(offset.2, offset.2 + size.2)] | _ => [] end.

(** A frame carries its part of [whole]. *)
Definition piece_of (whole : bytes) (f : frame) : Prop :=
  match f with
  | Crypto offset size data => data = take (length data) (drop (Z.to_nat offset.2) whole) /\ offset.2 + size.2 <= blen whole
  | _ => True
  end.

Record partial (whole : bytes) (rs : list (Z * Z)) (s : stream) : Prop := {
  part_ranges : s_ranges s = add_all rs;
  part_bytes : forall x lo hi, (lo, hi) ∈ rs -> lo <= x < hi -> 0 <= x -> s_arr s !! Z.to_nat x = whole !! Z.to_nat x;
  part_len : s_len s <= blen whole;
  part_end : forall lo hi, (lo, hi) ∈ rs -> hi <= s_len s
}.

Lemma place_partial whole rs s f : stream_ok s -> frame_ok f -> piece_of whole f -> partial whole rs s ->
  partial whole (rs ++ frame_ranges [f]) (place s f).
Proof.
  intros Hs Hf Hp [Hr Hb Hl He]. destruct f as [| | |offset size data|]; try (unfold frame_ranges; cbn; rewrite app_nil_r; by split).
  destruct Hf as (Ho & Hsz & Hd & Hne & Hlim), Hp as [Hdata Hend], Hs as [Hsl Ha]. pose proof (vint_nonneg _ Ho). pose proof (vint_nonneg _ Hsz).
  apply pooled_sniff in Ha. unfold crypto_limit, blen in *. change (frame_ranges [Crypto offset size data]) with [(offset.2, offset.2 + size.2)]. split.
  - cbn [place s_ranges]. unfold add_all in *. by rewrite foldl_app, <-Hr.
  - intros x lo hi Hin Hx Hx0. cbn [place s_arr]. destruct (decide (offset.2 <= x < offset.2 + size.2)) as [Hx'|Hx'].
    + rewrite lookup_splice_in by lia. rewrite Hdata. rewrite lookup_take_lt by lia. rewrite lookup_drop. f_equal. lia.
    + rewrite lookup_splice_out by lia. apply elem_of_app in Hin as [Hin | [= -> ->]%list_elem_of_singleton]; [by apply (Hb x lo hi)|lia].
  - cbn [place s_len]. unfold blen. lia.
  - intros lo hi Hin. cbn [place s_len]. apply elem_of_app in Hin as [Hin | [= -> ->]%list_elem_of_singleton]; [specialize (He _ _ Hin); lia|lia].
Qed.

Lemma place_all whole rs s fs : stream_ok s -> Forall frame_ok fs -> Forall (piece_of whole) fs -> partial whole rs s ->
  stream_ok (foldl place s fs) /\ partial whole (rs ++ frame_ranges fs) (foldl place s fs).
Proof.
  intros Hs Hf. revert s rs Hs. induction Hf as [|f fs Hf _ IH]; intros s rs Hs Hp Hpart.
  - cbn. by rewrite app_nil_r.
  - inversion Hp; subst. cbn [foldl]. change (frame_ranges (f :: fs)) with (frame_ranges ([f] ++ fs)).
    assert (frame_ranges ([f] ++ fs) = frame_ranges [f] ++ frame_ranges fs) as -> by (unfold frame_ranges; apply bind_app). rewrite app_assoc.
    apply IH; [by apply place_ok|done|by apply place_partial].
Qed.

Definition covering (whole : bytes) (fs : list frame) : Prop := forall x, 0 <= x < blen whole -> exists lo hi, (lo, hi) ∈ frame_ranges fs /\ lo <= x < hi.

Lemma partial_whole whole s fs : whole ≠ [] -> stream_ok s -> partial whole (frame_ranges fs) s -> covering whole fs ->
  s_len s = blen whole /\ take (length whole) (s_arr s) = whole.
Proof.
  intros Hne [Hsl Ha] [Hr Hb Hl He] Hc. assert (0 < blen whole) by (destruct whole; [done|unfold blen; cbn; lia]).
  assert (s_len s = blen whole) as Hlen.
  { destruct (Hc (blen whole - 1)) as (lo & hi & Hin & Hx); [lia|]. specialize (He lo hi Hin). lia. }
  split; [done|]. apply pooled_sniff in Ha. unfold covering, crypto_limit, blen in *. apply list_eq. intros i. destruct (Nat.lt_ge_cases i (length whole)).
  - rewrite lookup_take_lt by done. destruct (Hc (Z.of_nat i)) as (lo & hi & Hin & Hx); [lia|].
    specialize (Hb (Z.of_nat i) lo hi Hin Hx ltac:(lia)). by rewrite !Nat2Z.id in Hb.
  - rewrite (proj2 (lookup_ge_None whole i)) by lia. apply lookup_ge_None. rewrite length_take. lia.
Qed.

(** ** The parser under a range list that has everything *)

Definition has_all (r : RangeList) (n : Z) : Prop := forall lo hi, 0 <= lo < hi -> hi <= n -> In r lo hi = Some true.

(** The two parsers agree, but for an empty name. *)
Definition same_or_empty (a b : outcome sniff_error (option bytes)) : Prop := a = b \/ b = Ok (Some []).

Lemma name_loop_ranges r n fuel d dl el off : has_all r n -> 0 <= off -> off + 2 + blen d <= n ->
  same_or_empty (name_loop fuel d dl el off (Some r)) (name_loop fuel d dl el off None).
Proof.
  intros Hr Hoff. revert d. induction fuel as [|fuel IH]; intros d Hd; [by left|]. cbn [name_loop]. destruct (negb (0 <? blen d)); cbn iota; [by left|].
  destruct (Z.ltb_spec (blen d) 3); cbn iota; [by left|]. step_index 0. step_word 1. step_from.
  assert (blen (drop (Z.to_nat 3) d) = blen d - 3) as Hd3 by (unfold blen; rewrite length_drop; unfold blen in *; lia).
  destruct (Z.ltb_spec (blen (drop (Z.to_nat 3) d)) x0); cbn iota; [by left|]. destruct (_ =? 0).
  - rewrite sub_to_ok by lia. cbn [mbind outcome_bind]. destruct (Z.eq_dec x0 0) as [->|Hx0].
    + right. change (take (Z.to_nat 0) (drop (Z.to_nat 3) d)) with (@nil byte). done.
    + rewrite (Hr (off + 5) (off + 5 + x0)) by lia. by left.
  - step_from. apply IH. unfold blen in *. rewrite length_drop. lia.
Qed.

Lemma server_name_ranges r n d dl el off : has_all r n -> 0 <= off -> off + blen d <= n ->
  same_or_empty (server_name d dl el off (Some r)) (server_name d dl el off None).
Proof.
  intros Hr Hoff Hd. unfold server_name. destruct (Z.ltb_spec (blen d) 2); cbn iota; [by left|]. step_word 0. step_from.
  destruct (negb _); cbn iota; [by left|]. apply (name_loop_ranges r n); try done. unfold blen in *. rewrite length_drop. lia.
Qed.

Lemma extension_loop_ranges r n fuel d dl el off : has_all r n -> 0 <= off -> off + blen d <= n ->
  same_or_empty (extension_loop fuel d dl el off (Some r)) (extension_loop fuel d dl el off None).
Proof.
  intros Hr. revert d off. induction fuel as [|fuel IH]; intros d off Hoff Hd; [by left|]. cbn [extension_loop]. destruct (_ =? 0); cbn iota; [by left|].
  destruct (Z.ltb_spec (blen d) 4); cbn iota; [by left|]. step_word 0. step_word 2. step_from. set (d1 := drop (Z.to_nat 4) d).
  assert (blen d1 = blen d - 4) as Hd1 by (unfold d1, blen; rewrite length_drop; unfold blen in *; lia).
  destruct (Z.ltb_spec (blen d1) x0); cbn iota; [by left|].
  assert (same_or_empty (extension_loop fuel (drop (Z.to_nat x0) d1) dl el (off + 4 + x0) (Some r)) (extension_loop fuel (drop (Z.to_nat x0) d1) dl el (off + 4 + x0) None)) as Hnext.
  { apply IH; [lia|]. unfold blen in *. rewrite length_drop. lia. }
  destruct (_ =? 0).
  - rewrite sub_to_ok by lia. cbn [mbind outcome_bind].
    destruct (server_name_ranges r n (take (Z.to_nat x0) d1) dl el (off + 4) Hr ltac:(lia)) as [-> | ->].
    { unfold blen in *. rewrite length_take. lia. }
    + destruct (server_name _ _ _ _ None) as [[?|]|?|]; cbn [mbind outcome_bind]; try by left. by rewrite sub_from_ok by lia.
    + by right.
  - cbn [mbind outcome_bind]. by rewrite sub_from_ok by lia.
Qed.

(** The same for a parser that is given the header's domain. *)
Definition same_or_none (r : RangeList) (parse : bytes -> option RangeList -> outcome sniff_error bytes) : Prop :=
  (forall domain, parse domain (Some r) = parse domain None) \/ (forall domain, parse domain None = Ok []).

Lemma blen_drop {A} (d : list A) n : 0 <= n <= blen d -> blen (drop (Z.to_nat n) d) = blen d - n.
Proof. intros Hn. unfold blen in *. rewrite length_drop. lia. Qed.

Lemma read_extensions_ranges r n d off : has_all r n -> 0 <= off -> off - 2 + blen d <= n -> same_or_none r (read_extensions d off).
Proof.
  intros Hr Hoff Hd. unfold same_or_none, read_extensions. destruct (Z.ltb_spec (blen d) 2); cbn iota; [by left|]. step_word 0. step_from.
  pose proof (blen_drop d 2 ltac:(lia)) as Hd1. set (d1 := drop _ d) in *.
  destruct (extension_loop_ranges r n (S (length d1)) d1 (blen d1) x off Hr Hoff ltac:(lia)) as [-> | ->]; [by left|by right].
Qed.

Lemma read_compressions_ranges r n d off : has_all r n -> 0 <= off -> off - 3 + blen d <= n -> same_or_none r (read_compressions d off).
Proof.
  intros Hr Hoff Hd. unfold same_or_none, read_compressions, skip_field. destruct (Z.ltb_spec (blen d) 1); cbn iota; [by left|]. step_index 0. pose proof (byte_to_Z_range x).
  destruct (Z.ltb_spec (blen d) (1 + byte_to_Z x)); cbn [mbind outcome_bind]; [by left|]. step_from. pose proof (blen_drop d (1 + byte_to_Z x) ltac:(lia)) as Hd1.
  apply (read_extensions_ranges r n); [done|lia|lia].
Qed.

Lemma read_ciphers_ranges r n d off : has_all r n -> 0 <= off -> off - 5 + blen d <= n -> same_or_none r (read_ciphers d off).
Proof.
  intros Hr Hoff Hd. unfold same_or_none, read_ciphers, skip_field. destruct (Z.ltb_spec (blen d) 2); cbn iota; [by left|]. step_word 0. destruct (_ =? 1); cbn iota; [by left|].
  destruct (Z.ltb_spec (blen d) (2 + x)); cbn [mbind outcome_bind]; [by left|]. step_from. pose proof (blen_drop d (2 + x) ltac:(lia)) as Hd1.
  apply (read_compressions_ranges r n); [done|lia|lia].
Qed.

Lemma ReadClientHello_ranges r d : has_all r (blen d) -> same_or_none r (ReadClientHello d).
Proof.
  intros Hr. unfold same_or_none, ReadClientHello. destruct (Z.ltb_spec (blen d) 42); cbn iota; [by left|]. step_index 38. pose proof (byte_to_Z_range x).
  destruct (Z.ltb_spec 32 (byte_to_Z x)); cbn [orb]; cbn iota; [by left|]. destruct (Z.ltb_spec (blen d) (39 + byte_to_Z x)); cbn iota; [by left|]. step_from.
  pose proof (blen_drop d (39 + byte_to_Z x) ltac:(lia)) as Hd1. apply (read_ciphers_ranges r (blen d)); [done|lia|lia].
Qed.

(** ** What the sniffer does with the packets *)

(** The CRYPTO frames of a sequence of packets. *)
Definition read_packets (c : collected) (packets : list (list frame)) : outcome sniff_error collected :=
  foldl (fun c p => c ← c; read_frames c (p ≫= enc_frame)) (Ok c) packets.

Lemma read_packets_ok st packets : stream_ok st -> Forall (fun p => Forall frame_ok p /\ blen (p ≫= enc_frame) < 2 ^ 31) packets ->
  read_packets (conc st) packets = Ok (conc (foldl place st (concat packets))).
Proof.
  unfold read_packets. intros Hst Hp. revert st Hst. induction Hp as [|p packets [Hf Hl] _ IH]; intros st Hst; [done|].
  cbn [foldl concat mbind outcome_bind]. rewrite read_frames_ok by done. rewrite foldl_app. apply IH.
  clear -Hst Hf. revert st Hst. induction Hf as [|f fs Hf _ IH]; intros st Hst; [done|]. cbn. by apply IH, place_ok.
Qed.

Definition fresh (garbage : bytes) : collected := {| cryptoLen := 0; cryptoDataBuf := NewWithSize garbage; validRange := NewRangeList |}.

Lemma add_all_has_all rs n : Forall (fun '(lo, hi) => lo <= hi) rs -> (forall x, 0 <= x < n -> exists lo hi, (lo, hi) ∈ rs /\ lo <= x < hi) -> has_all (add_all rs) n.
Proof.
  intros Hrs Hall lo hi Hlh Hn. destruct (add_all_spec rs Hrs) as [Ho Hc]. apply In_spec; [done|lia|]. intros x Hx. apply Hc, Hall. lia.
Qed.

Lemma frame_ranges_ok fs : Forall frame_ok fs -> Forall (fun '(lo, hi) => lo <= hi) (frame_ranges fs).
Proof.
  induction 1 as [|f fs Hf _ IH]; [constructor|]. unfold frame_ranges in *. cbn. apply Forall_app. split; [|done].
  destruct f as [| | |offset size data|]; try constructor; [|done]. destruct Hf as (_ & Hs & _). pose proof (vint_nonneg _ Hs). lia.
Qed.

(** C4: a ClientHello of at most 32768 bytes (half of the array, which is how
    far the code's test for room surely lets it grow) cut into CRYPTO frames is
    put together again: whatever
    the order of the frames, however often a part is repeated or overlaps,
    over however many packets and between whatever other frames, once every
    byte has arrived the buffer is the hello, although the array it lies in
    was not cleared, and the TLS parser, which accepts only what the list of
    received ranges has, finds its server name. *)
Theorem quic_hello_reassembled garbage h packets : pooled 32767 garbage -> hello_ok h -> hello_name h ≠ Some [] -> blen (enc_hello h) <= 32768 ->
  Forall (fun p => Forall frame_ok p /\ blen (p ≫= enc_frame) < 2 ^ 31) packets ->
  Forall (piece_of (enc_hello h)) (concat packets) -> covering (enc_hello h) (concat packets) ->
  exists c, read_packets (fresh garbage) packets = Ok c /\ BytesRange (cryptoDataBuf c) 0 (i32 (cryptoLen c)) = Ok (enc_hello h) /\
    ReadClientHello (enc_hello h) [] (Some (validRange c)) = answer [] (hello_name h).
Proof.
  intros Hg Hh Hname Hsize Hp Hpieces Hcov. set (st := {| s_len := 0; s_arr := garbage; s_ranges := NewRangeList |}).
  assert (Forall frame_ok (concat packets)) as Hfs by (apply Forall_concat; eapply Forall_impl; [exact Hp|]; by intros ? []).
  assert (stream_ok st) as Hst by (split; [cbn; unfold crypto_limit; lia|done]).
  assert (partial (enc_hello h) [] st) as Hpart by (split; [done|by intros ? ? ? ?%not_elem_of_nil|apply blen_nonneg|by intros ? ? ?%not_elem_of_nil]).
  destruct (place_all _ _ _ _ Hst Hfs Hpieces Hpart) as [Hst' Hpart']. rewrite app_nil_l in Hpart'.
  change (fresh garbage) with (conc st). rewrite read_packets_ok by done. set (st' := foldl place st (concat packets)) in *. exists (conc st'). split; [done|].
  assert (enc_hello h ≠ []) as Hne by (intros He; pose proof (ok_head _ Hh) as Hk; unfold enc_hello in He; destruct (h_head h); [done|done]).
  destruct (partial_whole _ _ _ Hne Hst' Hpart' Hcov) as [Hlen Hbytes]. split.
  - destruct Hst' as [Hl Ha]. apply pooled_sniff in Ha. unfold crypto_limit, blen in *. unfold BytesRange, from_end. cbn [conc cryptoDataBuf cryptoLen start].
    rewrite (i32_small (s_len st')) by lia. destruct (Z.ltb_spec (s_len st') 0); [lia|]. cbn [Z.ltb Z.compare]. rewrite !Z.add_0_l, (i32_small (s_len st')), (i32_small 0) by lia.
    rewrite slice_of_ok by (unfold cap, arr; cbn; lia). f_equal. unfold arr. cbn. rewrite Nat.sub_0_r, drop_0, Hlen, Nat2Z.id. exact Hbytes.
  - assert (has_all (validRange (conc st')) (blen (enc_hello h))) as Hall.
    { cbn [conc validRange]. rewrite (part_ranges _ _ _ Hpart'). apply add_all_has_all; [by apply frame_ranges_ok|done]. }
    assert (forall domain, ReadClientHello (enc_hello h) domain None = answer domain (hello_name h)) as Hfull.
    { intros domain. by destruct (ReadClientHello_prefix h domain Hh (enc_hello h)) as [|[]]. }
    destruct (ReadClientHello_ranges _ _ Hall) as [Hs | Hs]; [by rewrite Hs|]. exfalso. specialize (Hs [x00]). rewrite Hfull in Hs.
    destruct (hello_name h) as [n|]; [|done]. unfold answer, verdict in Hs. destruct (HasSuffix n _); [done|]. by injection Hs as ->.
Qed.

Definition piece (whole : bytes) (at_ n : nat) : frame :=
  let data := take n (drop at_ whole) in Crypto (1%nat, Z.of_nat at_) (1%nat, blen data) data.

Lemma piece_ok whole at_ n : (at_ < length whole)%nat -> (0 < n)%nat -> blen whole <= 16383 -> frame_ok (piece whole at_ n) /\ piece_of whole (piece whole at_ n).
Proof.
  intros Ha Hn Hw. unfold piece, frame_ok, piece_of, vint_ok, crypto_limit, blen in *. cbn [fst snd].
  assert (length (take n (drop at_ whole)) <= length whole - at_)%nat as Hl by (rewrite length_take, length_drop; lia).
  assert (take n (drop at_ whole) ≠ []) as Hne by (intros He; apply (f_equal length) in He; rewrite length_take, length_drop in He; cbn in He; lia).
  change (2 ^ (8 * 2 ^ Z.of_nat 1 - 2)) with 16384. split.
  - repeat split; try lia. done.
  - split; [|lia]. rewrite Nat2Z.id, length_take, length_drop. destruct (Nat.le_gt_cases n (length whole - at_)).
    + by rewrite Nat.min_l by lia.
    + rewrite Nat.min_r by lia. by rewrite !take_ge by (rewrite length_drop; lia).
Qed.

Definition example_ack : frame := Ack (0%nat, 2) (0%nat, 0) (0%nat, 1) (0%nat, 0) [((0%nat, 1), (0%nat, 1))] None.

Definition example_frames : list (list frame) :=
  let piece := piece (enc_hello example_hello) in
  [[Padding; Ping; piece 150 500; Padding]; [piece 0 60; example_ack; piece 40 120]]%nat.

Lemma example_frames_ok : Forall (fun p => Forall frame_ok p /\ blen (p ≫= enc_frame) < 2 ^ 31) example_frames /\
  Forall (piece_of (enc_hello example_hello)) (concat example_frames).
Proof.
  assert (forall at_ n, (at_ < 186)%nat -> (0 < n)%nat -> frame_ok (piece (enc_hello example_hello) at_ n) /\ piece_of (enc_hello example_hello) (piece (enc_hello example_hello) at_ n)) as Hp.
  { intros at_ n Ha Hn. apply piece_ok; [exact Ha|done|vm_compute; discriminate]. }
  destruct (Hp 150 500)%nat as [? ?]; [lia..|]. destruct (Hp 0 60)%nat as [? ?]; [lia..|]. destruct (Hp 40 120)%nat as [? ?]; [lia..|].
  assert (frame_ok example_ack) as Hack by (split; [|done]; repeat constructor; cbn; lia).
  unfold example_frames. cbn [concat app]. split.
  - apply Forall_cons; split; [split; [by repeat (apply Forall_cons; split)|by vm_compute]|].
    apply Forall_cons; split; [split; [by repeat (apply Forall_cons; split)|by vm_compute]|done].
  - by repeat (apply Forall_cons; split).
Qed.

Lemma quic_hello_reassembled_witness : let g := replicate (Z.to_nat 65536) xff in
  exists c, read_packets (fresh g) example_frames = Ok c /\ BytesRange (cryptoDataBuf c) 0 (i32 (cryptoLen c)) = Ok (enc_hello example_hello) /\
    ReadClientHello (enc_hello example_hello) [] (Some (validRange c)) = Ok (bs "example.com").
Proof.
  assert (pooled 32767 (replicate (Z.to_nat 65536) xff)) as Hg by by apply (pooled_replicate 32767).
  apply (quic_hello_reassembled (replicate (Z.to_nat 65536) xff) example_hello example_frames Hg example_hello_ok); [by vm_compute|vm_compute; discriminate| | |].
  - apply example_frames_ok.
  - apply example_frames_ok.
  - intros x Hx. assert (blen (enc_hello example_hello) = 186) as Hl by (vm_compute; reflexivity).
    assert (frame_ranges (concat example_frames) = [(150, 186); (0, 60); (40, 160)]) as -> by (vm_compute; reflexivity). rewrite Hl in Hx. clear Hl.
    destruct (Z.lt_ge_cases x 60); [exists 0, 60; split; [by right; left|lia]|]. destruct (Z.lt_ge_cases x 160); [exists 40, 160; split; [by right; right; left|lia]|].
    exists 150, 186. split; [by left|lia].
Defined.

(** A CONNECTION_CLOSE frame whose reason length has its 32nd bit set
    stops the program: the length is made an int32, which is negative, passes
    the test against what is left and is sliced with.  The keys of an Initial
    packet are public, so any peer can send one. *)
Theorem quic_close_frame_panics `{QuicCrypto} garbage input h code type size rest :
  read_header input = Ok h -> h_initial h = true -> 0 <= h_hdrLen h + h_packetLen h <= blen input ->
  open_initial input h = Ok (x1c :: enc_vints [code; type; size] ++ rest) ->
  Forall vint_ok [code; type; size] -> 2 ^ 31 <= size.2 < 2 ^ 32 -> blen (x1c :: enc_vints [code; type; size] ++ rest) < 2 ^ 31 ->
  SniffQUIC garbage input = Panic.
Proof.
  intros Hh Hi Hl Ho Hv Hsz Hlen. unfold SniffQUIC. destruct (Z.eqb_spec (blen input) 0) as [Hz|Hz]; [destruct input; [done|done]|].
  pose proof (blen_nonneg input). destruct input as [|x input']; [done|]. set (input := x :: input') in *. change (length input) with (S (length input')).
  cbn [packet_loop]. destruct (Z.ltb_spec 0 (blen input)); [|lia]. cbn [negb]. rewrite Hh. cbn [mbind outcome_bind].
  destruct (Z.ltb_spec (blen input) (h_hdrLen h + h_packetLen h)); [lia|]. rewrite sub_from_ok by lia. cbn [mbind outcome_bind]. rewrite Hi. cbn [negb]. rewrite Ho. cbn [mbind outcome_bind].
  set (payload := x1c :: enc_vints [code; type; size] ++ rest) in *.
  destruct (wf_FromBytes payload Hlen) as [Hw Hc]. unfold read_frames. set (b := FromBytes payload) in *.
  pose proof (read_type_padding 0 b payload (S (Z.to_nat (Len b))) Hw Hc ltac:(lia)) as Ht. cbn iota in Ht. destruct (Ht ltac:(done)) as (b1 & Hrt & Hw1 & Hc1).
  change (length payload) with (S (length (enc_vints [code; type; size] ++ rest))). cbn [frame_loop]. rewrite IsEmpty_content, Hc by done. rewrite bool_decide_false by done.
  rewrite Hrt. cbn [mbind outcome_bind]. change (byte_to_Z x1c) with 28. cbn [Z.eqb Pos.eqb orb]. unfold close_frame.
  change [code; type; size] with ([code; type] ++ [size]) in *. apply Forall_app in Hv as [Hct Hf]. inversion Hf as [|? ? Hsize _]; subst.
  assert (enc_vints ([code; type] ++ [size]) = enc_vints [code; type] ++ enc_vint size) as He by (unfold enc_vints; rewrite bind_app; f_equal; apply app_nil_r).
  rewrite He, <-!app_assoc in Hc1. destruct (skip_varints_ok _ b1 _ Hw1 Hct Hc1) as (b2 & He2 & Hw2 & Hc2). change (length [code; type]) with 2%nat in He2.
  rewrite He2. cbn [mbind outcome_bind]. destruct (readUvarint_enc b2 size _ Hw2 Hsize Hc2) as (b3 & -> & Hw3 & Hc3). cbn [or_err mbind outcome_bind].
  rewrite ReadBytes_negative; [done|done|]. unfold i32. solve_wrap.
Qed.

(** Ciphers that change nothing, for an example. *)
Definition plain_crypto : QuicCrypto := {|
  hkdf_Extract := fun _ _ => []; hkdf_Expand := fun _ _ n => Some (replicate (Z.to_nat n) x00);
  aes_NewCipher := fun _ => Some (fun _ => replicate 16 x00); gcm_Open := fun _ _ _ data _ => Some data |}.

(** An Initial packet of version 1 with empty identifiers and token. *)
Definition closing_packet : bytes :=
  [xc0; x00; x00; x00; x01; x00; x00; x00; x20; x00] ++ [x1c; x00; x00; xc0; x00; x00; x00; x80; x00; x00; x00] ++ replicate 20 x00.

Lemma quic_close_frame_panics_witness : @SniffQUIC plain_crypto [] closing_packet = Panic.
Proof.
  apply (@quic_close_frame_panics plain_crypto [] closing_packet
    {| h_version := 1; h_initial := true; h_destConnID := []; h_packetLen := 32; h_hdrLen := 9 |} (0%nat, 0) (0%nat, 0) (3%nat, 2 ^ 31) (replicate 20 x00)).
  - vm_compute. reflexivity.
  - reflexivity.
  - vm_compute. split; discriminate.
  - vm_compute. reflexivity.
  - repeat (apply Forall_cons; split); try apply Forall_nil; try exact I; unfold vint_ok; cbn [fst snd]; (split; [lia|vm_compute; split; [discriminate|reflexivity]]).
  - cbn [snd]. lia.
  - vm_compute. reflexivity.
Defined.
