(* ===== verification/NetText.v ===== *)
(** * Addresses as text

    What the program uses of the language's [net], [strconv] and [strings] to
    write addresses, to split a host from its port and to read numbers; and
    the texts of [common/net/address.go] and [destination.go]. *)

From S2P Require Import Prelude Matchers Net.

Local Open Scope Z_scope.

(** ** Numbers *)

(** The digits of [z] in base [base], most significant first; every turn
    divides, so as many turns as bits are enough. *)
Fixpoint digits (fuel : nat) (base z : Z) (acc : list Z) : list Z :=
  match fuel with
  | O => acc
  | S fuel' => let acc := z mod base :: acc in if z / base =? 0 then acc else digits fuel' base (z / base) acc
  end.
Definition digit_char (d : Z) : byte := byte_of_Z (if d <? 10 then 48 + d else 87 + d).
Definition format (base z : Z) : bytes := map digit_char (digits 64 base z []).
Definition Itoa (z : Z) : bytes := format 10 z.

(** [strconv.ParseUint(s, 0, bits)]: the base comes from a prefix, and
    underscores may part digits. *)
Definition lower (c : byte) : Z := Z.lor (byte_to_Z c) 32.

Definition number_prefix (s : bytes) : Z * bytes :=
  match s with
  | c :: s' =>
      if byte_to_Z c =? 48 then
        match s' with
        | d :: ((_ :: _) as s'') =>
            if lower d =? 98 then (2, s'') else if lower d =? 111 then (8, s'') else if lower d =? 120 then (16, s'') else (8, s')
        | _ => (8, s')
        end
      else (10, s)
  | [] => (10, [])
  end.

Fixpoint number_digits (base : Z) (s : bytes) (n : Z) (underscores : bool) (bits : Z) : option (Z * bool) :=
  match s with
  | [] => Some (n, underscores)
  | c :: s' =>
      if byte_to_Z c =? 95 then number_digits base s' n true bits
      else
        let d := if is_digit c then Some (byte_to_Z c - 48)
                 else if (97 <=? lower c) && (lower c <=? 122) then Some (lower c - 97 + 10) else None in
        match d with
        | None => None
        | Some d =>
            if base <=? d then None
            else let n := n * base + d in if 2 ^ bits <=? n then None else number_digits base s' n underscores bits
        end
  end.

(** Every underscore stands between digits, where a prefix counts as one; the
    second argument is what was seen last: a digit ('0'), an underscore or
    another character. *)
Fixpoint underscores_between (hex : bool) (saw : Z) (s : bytes) : bool :=
  match s with
  | [] => negb (saw =? 95)
  | c :: s' =>
      if is_digit c || (hex && (97 <=? lower c) && (lower c <=? 102)) then underscores_between hex 48 s'
      else if byte_to_Z c =? 95 then if saw =? 48 then underscores_between hex 95 s' else false
      else if saw =? 95 then false else underscores_between hex 33 s'
  end.
Definition underscoreOK (s : bytes) : bool :=
  let s := match s with c :: s' => if (byte_to_Z c =? 45) || (byte_to_Z c =? 43) then s' else s | [] => [] end in
  match s with
  | a :: b :: s' =>
      if (byte_to_Z a =? 48) && ((lower b =? 98) || (lower b =? 111) || (lower b =? 120)) then underscores_between (lower b =? 120) 48 s'
      else underscores_between false 94 s
  | _ => underscores_between false 94 s
  end.

Definition ParseUint0 (s : bytes) (bits : Z) : option Z :=
  match s with
  | [] => None
  | _ =>
      let '(base, digits) := number_prefix s in
      match number_digits base digits 0 false bits with
      | Some (n, true) => if underscoreOK s then Some n else None
      | Some (n, false) => Some n
      | None => None
      end
  end.

(** ** Texts *)

Fixpoint join (sep : bytes) (l : list bytes) : bytes :=
  match l with [] => [] | [x] => x | x :: l' => x ++ sep ++ join sep l' end.

(** [bytes.Split] at one byte; never empty. *)
Fixpoint Split (s : bytes) (sep : byte) : list bytes :=
  match s with
  | [] => [[]]
  | c :: s' =>
      if bool_decide (c = sep) then [] :: Split s' sep
      else match Split s' sep with h :: t => (c :: h) :: t | [] => [[c]] end
  end.

Fixpoint IndexByte (s : bytes) (c : byte) : option nat :=
  match s with [] => None | x :: s' => if bool_decide (x = c) then Some O else S <$> IndexByte s' c end.
Definition LastIndexByte (s : bytes) (c : byte) : option nat := (fun i => (length s - 1 - i)%nat) <$> IndexByte (rev s) c.

(** [netip.Addr.String] of an IPv6 address: the longest run of at least two
    zero groups, the first of them, is left out. *)
Fixpoint groups (ip : bytes) : list Z := match ip with a :: b :: ip' => get16 [a; b] :: groups ip' | _ => [] end.
Fixpoint zero_run (g : list Z) : nat := match g with z :: g' => if z =? 0 then S (zero_run g') else O | [] => O end.
Fixpoint longest_run (g : list Z) (i : nat) (best : nat * nat) : nat * nat :=
  match g with
  | [] => best
  | _ :: g' => let l := zero_run g in longest_run g' (S i) (if (2 <=? l)%nat && (snd best <? l)%nat then (i, l) else best)
  end.
Definition hex_groups (g : list Z) : bytes := join (bs ":") (map (format 16) g).
Definition ip6_text (ip : bytes) : bytes :=
  let g := groups ip in
  let '(at_, l) := longest_run g 0 (0, 0)%nat in
  if (l =? 0)%nat then hex_groups g else hex_groups (take at_ g) ++ bs "::" ++ hex_groups (drop (at_ + l) g).

Definition ip4_text (ip : bytes) : bytes := join (bs ".") (map (fun c => Itoa (byte_to_Z c)) ip).

(** [net.IP.String], for addresses of 4 or 16 bytes. *)
Definition IP_String (ip : bytes) : bytes := match To4 ip with Some ip4 => ip4_text ip4 | None => ip6_text ip end.

(** src/common/net/address.go:141-179 Address.String *)
Definition Address_String (a : Address) : bytes :=
  match a with
  | ipv4Address ip => IP_String ip
  | ipv6Address ip => bs "[" ++ IP_String ip ++ bs "]"
  | domainAddress d => d
  end.

Inductive split_error := missingPort | otherAddrError.

(** [net.SplitHostPort]; only the error "missing port" is told apart. *)
Definition SplitHostPort (hostport : bytes) : split_error + bytes * bytes :=
  match LastIndexByte hostport x3a with
  | None => inl missingPort
  | Some i =>
      let finish host j k :=
        match IndexByte (drop j hostport) x5b, IndexByte (drop k hostport) x5d with
        | None, None => inr (host, drop (i + 1) hostport)
        | _, _ => inl otherAddrError
        end in
      if bool_decide (head hostport = Some x5b) then
        match IndexByte hostport x5d with
        | None => inl otherAddrError
        | Some e =>
            if (e + 1 =? length hostport)%nat then inl missingPort
            else if (e + 1 =? i)%nat then finish (take (e - 1) (drop 1 hostport)) 1%nat (e + 1)%nat
            else if bool_decide (hostport !! (e + 1)%nat = Some x3a) then inl otherAddrError
            else inl missingPort
        end
      else
        match IndexByte (take i hostport) x3a with
        | Some _ => inl otherAddrError
        | None => finish (take i hostport) 0%nat 0%nat
        end
  end.

(** [net.JoinHostPort]. *)
Definition JoinHostPort (host port : bytes) : bytes :=
  match IndexByte host x3a with Some _ => bs "[" ++ host ++ bs "]:" ++ port | None => host ++ bs ":" ++ port end.

(** [net.isDomainName]. *)
Fixpoint domain_labels (s : bytes) (last : Z) (nonNumeric : bool) (partlen : Z) : bool :=
  match s with
  | [] => negb (last =? 45) && (partlen <=? 63) && nonNumeric
  | c :: s' =>
      let z := byte_to_Z c in
      if ((97 <=? z) && (z <=? 122)) || ((65 <=? z) && (z <=? 90)) || (z =? 95) then domain_labels s' z true (partlen + 1)
      else if is_digit c then domain_labels s' z nonNumeric (partlen + 1)
      else if z =? 45 then if last =? 46 then false else domain_labels s' z true (partlen + 1)
      else if z =? 46 then if (last =? 46) || (last =? 45) || (63 <? partlen) || (partlen =? 0) then false else domain_labels s' z nonNumeric 0
      else false
  end.
Definition isDomainName (s : bytes) : bool :=
  if bool_decide (s = bs ".") then true
  else
    let l := Z.of_nat (length s) in
    if (l =? 0) || (254 <? l) || ((l =? 254) && negb (bool_decide (last s = Some x2e))) then false
    else domain_labels s 46 false 0.

(** ** Destinations *)

(** [strconv.ParseUint(s, 10, bits)]. *)
Fixpoint decimal (s : bytes) (n : Z) (bits : Z) : option Z :=
  match s with
  | [] => Some n
  | c :: s' => if is_digit c then let n := n * 10 + (byte_to_Z c - 48) in if 2 ^ bits <=? n then None else decimal s' n bits else None
  end.
Definition ParseUint (s : bytes) (bits : Z) : option Z := match s with [] => None | _ => decimal s 0 bits end.

(** src/common/net/port.go PortFromInt *)
Definition PortFromInt (val : Z) : option Z := if 65535 <? val then None else Some val.
(** src/common/net/port.go PortFromString *)
Definition PortFromString (s : bytes) : option Z := val ← ParseUint s 32; PortFromInt val.
(** src/common/net/port.go Port.String *)
Definition Port_String (p : Z) : bytes := Itoa p.

(** A nil address panics.
    src/common/net/destination.go Destination.NetAddr *)
Definition NetAddr (d : Destination) : option bytes :=
  match dest_Network d with
  | Network_TCP | Network_UDP => a ← dest_Address d; Some (Address_String a ++ bs ":" ++ Port_String (dest_Port d))
  | Network_UNIX => Address_String <$> dest_Address d
  | Network_Unknown => Some []
  end.

(** src/common/net/destination.go Destination.String *)
Definition Destination_String (d : Destination) : option bytes :=
  let prefix := match dest_Network d with
                | Network_TCP => bs "tcp:" | Network_UDP => bs "udp:" | Network_UNIX => bs "unix:" | Network_Unknown => bs "unknown:" end in
  (fun a => prefix ++ a) <$> NetAddr d.

(** src/common/net/address.go:16-16 AnyIP *)
Definition AnyIP : option Address := IPAddress [x00; x00; x00; x00].

(** [None] is an error.
    src/common/net/destination.go ParseDestination *)
Definition ParseDestination (dest : bytes) : option Destination :=
  let parse network dest :=
    match SplitHostPort dest with
    | inl _ => None
    | inr (hstr, pstr) =>
        let a := match hstr with [] => AnyIP | _ => ParseAddress hstr end in
        match pstr with
        | [] => Some {| dest_Address := a; dest_Port := 0; dest_Network := network |}
        | _ => p ← PortFromString pstr; Some {| dest_Address := a; dest_Port := p; dest_Network := network |}
        end
    end in
  if HasPrefix dest (bs "tcp:") then parse Network_TCP (drop 4 dest)
  else if HasPrefix dest (bs "udp:") then parse Network_UDP (drop 4 dest)
  else if HasPrefix dest (bs "unix:") then Some (UnixDestination (Some (domainAddress (drop 5 dest))))
  else parse Network_Unknown dest.

Example format_v4 : Address_String (ipv4Address [x0a; x00; xff; x01]) = bs "10.0.255.1".
Proof. vm_compute. reflexivity. Qed.
Example format_v6 : ip6_text ([x20; x01; x0d; xb8] ++ zero_bytes 10 ++ [x00; x01]) = bs "2001:db8::1".
Proof. vm_compute. reflexivity. Qed.
Example format_v6_short : ip6_text ([x00; x01] ++ zero_bytes 4 ++ [x00; x02] ++ zero_bytes 8) = bs "1:0:0:2::".
Proof. vm_compute. reflexivity. Qed.
Example split_host : SplitHostPort (bs "example.com:0x1F") = inr (bs "example.com", bs "0x1F").
Proof. vm_compute. reflexivity. Qed.
Example split_host6 : SplitHostPort (bs "[::1]:80") = inr (bs "::1", bs "80").
Proof. vm_compute. reflexivity. Qed.
Example split_host_none : SplitHostPort (bs "[::1]") = inl missingPort.
Proof. vm_compute. reflexivity. Qed.
Example parse_octal : ParseUint0 (bs "010") 16 = Some 8.
Proof. vm_compute. reflexivity. Qed.
Example parse_dest : ParseDestination (bs "udp:[2001:db8::1]:53") = Some (UDPDestination (Some (ipv6Address ([x20; x01; x0d; xb8] ++ zero_bytes 10 ++ [x00; x01]))) 53).
Proof. vm_compute. reflexivity. Qed.
