(* ===== verification/SniffHttp.v ===== *)
(** * The HTTP, BitTorrent and DNS sniffers

    [common/protocol/http/], [common/protocol/bittorrent/] and
    [common/protocol/dns/sniffer.go].  DNS messages are unpacked by a
    third-party package, a class here. *)

From S2P Require Import Prelude Matchers Net NetText Buffer Sniffing.

Local Open Scope Z_scope.

(** ** HTTP *)

(** src/common/protocol/http/sniff.go:29-29 methods *)
Definition methods : list bytes := map bs ["get"; "post"; "head"; "put"; "delete"; "options"; "connect"; "patch"; "trace"; "query"]%string.

(** [strings.EqualFold] of a text with a method of as many bytes: a character
    above ASCII takes more bytes than the letter it folds to, so only ASCII
    letters are left to fold. *)
Definition EqualFold (s t : bytes) : bool := bool_decide (map lower_byte s = map lower_byte t).

(** src/common/protocol/http/sniff.go:35-45 beginWithHTTPMethod *)
Fixpoint try_methods (ms : list bytes) (b : bytes) : outcome sniff_error unit :=
  match ms with
  | [] => Err errNotHTTPMethod
  | m :: ms' =>
      if (blen m <=? blen b) && EqualFold (take (length m) b) m then Ok tt
      else if blen b <? blen m then Err ErrNoClue
      else try_methods ms' b
  end.

(** src/common/protocol/http/sniff.go beginWithHTTPMethod *)
Definition beginWithHTTPMethod (b : bytes) : outcome sniff_error unit := try_methods methods b.

(** src/common/protocol/http/headers.go ParseHost *)
Definition ParseHost (rawHost : bytes) (defaultPort : Z) : option Destination :=
  match SplitHostPort rawHost with
  | inl missingPort => Some (TCPDestination (ParseAddress rawHost) defaultPort)
  | inl otherAddrError => None
  | inr (host, []) => Some (TCPDestination (ParseAddress host) defaultPort)
  | inr (host, rawPort) => intPort ← ParseUint0 rawPort 16; Some (TCPDestination (ParseAddress host) intPort)
  end.

(** [bytes.SplitN(header, ":", 2)]. *)
Definition split_colon (header : bytes) : option (bytes * bytes) :=
  (fun i => (take i header, drop (S i) header)) <$> IndexByte header x3a.

Section Http.
Context `{StringLibs}.

(** src/common/protocol/http/sniff.go:56-74 SniffHTTP *)
Fixpoint host_loop (headers : list bytes) (host : bytes) : outcome sniff_error bytes :=
  match headers with
  | [] => Ok host
  | header :: headers' =>
      match header with
      | [] => Ok host
      | _ =>
          match split_colon header with
          | None => host_loop headers' host
          | Some (k, v) =>
              if bool_decide (ToLower k = bs "host") then
                match ParseHost (ToLower (TrimSpace v)) 80 with
                | None => Err errBadHost
                | Some dest =>
                    match dest_Address dest with
                    | Some a => host_loop headers' (Address_String a)
                    | None => Panic
                    end
                end
              else host_loop headers' host
          end
      end
  end.

(** The host of the header found.
    src/common/protocol/http/sniff.go SniffHTTP *)
Definition SniffHTTP (b : bytes) : outcome sniff_error bytes :=
  _ ← beginWithHTTPMethod b;
  host ← host_loop (tail (Split b x0a)) [];
  match host with [] => Err ErrNoClue | _ => Ok host end.

(** src/common/protocol/http/sniff.go SniffHeader.Domain *)
Definition http_Domain (host : bytes) : bytes :=
  match ParseAddress host with Some (domainAddress _) => host | _ => [] end.
End Http.

(** ** BitTorrent *)

(** src/common/protocol/bittorrent/bittorrent.go SniffBittorrent *)
Definition SniffBittorrent (b : bytes) : outcome sniff_error unit :=
  if blen b <? 20 then Err ErrNoClue
  else
    b0 ← index b 0; name ← sub b 1 20;
    if (byte_to_Z b0 =? 19) && bool_decide (name = bs "BitTorrent protocol") then Ok tt else Err errNotBittorrent.

(** The extensions; a turn reads two bytes at least. [binary.Read] takes one
    byte from the buffer.
    src/common/protocol/bittorrent/bittorrent.go:54-68 SniffUTP *)
Fixpoint utp_extensions (fuel : nat) (extension : byte) (buffer : Buffer) : outcome sniff_error unit :=
  if byte_to_Z extension =? 0 then Ok tt
  else match fuel with
       | O => Panic
       | S fuel' =>
           match Read buffer 1 with
           | Ok (buffer, [extension]) =>
               if 4 <? byte_to_Z extension then Err ErrNoClue
               else
                 match Read buffer 1 with
                 | Ok (buffer, [length]) =>
                     match ReadBytes buffer (byte_to_Z length) with
                     | Ok (buffer, _) => utp_extensions fuel' extension buffer
                     | Err _ => Err ErrNoClue
                     | Panic => Panic
                     end
                 | Panic => Panic
                 | _ => Err ErrNoClue
                 end
           | Panic => Panic
           | _ => Err ErrNoClue
           end
       end.

(** src/common/protocol/bittorrent/bittorrent.go SniffUTP *)
Definition SniffUTP (b : bytes) : outcome sniff_error unit :=
  if blen b <? 20 then Err ErrNoClue
  else
    b0 ← index b 0;
    if (4 <? Z.land (Z.shiftr (byte_to_Z b0) 4) 0xf) || negb (Z.land (byte_to_Z b0) 0xf =? 1) then Err errNotBittorrent
    else
      extension ← index b 1;
      rest ← sub_from b 20;
      utp_extensions (S (length b)) extension (FromBytes rest).

(** src/common/protocol/bittorrent/bittorrent.go SniffUDPTracker *)
Definition SniffUDPTracker (b : bytes) : outcome sniff_error unit :=
  if blen b <? 16 then Err ErrNoClue
  else
    magic ← sub b 0 8;
    if negb (be_combine magic =? 0x41727101980) then Err ErrNoClue
    else
      action ← sub b 8 12;
      if negb (be_combine action =? 0) then Err ErrNoClue else Ok tt.

(** ** DNS *)

(** What the sniffer looks at of a message: whether it is a response, the
    names asked for, and how many answers and authorities it has. *)
Record dns_summary := { msg_Response : bool; msg_Question : list bytes; msg_Answer : nat; msg_Ns : nat }.

Class DnsMessages := { msg_Unpack : bytes -> option dns_summary }.

Section Dns.
Context `{DnsMessages}.

(** src/common/protocol/dns/sniffer.go SniffDNS *)
Definition SniffDNS (b : bytes) : outcome sniff_error unit :=
  match msg_Unpack b with
  | None => Err errNotDNS
  | Some m =>
      if msg_Response m || bool_decide (msg_Question m = []) || (0 <? msg_Answer m)%nat || (0 <? msg_Ns m)%nat then Err errNotDNS
      else if forallb isDomainName (msg_Question m) then Ok tt else Err errNotDNS
  end.

(** [b] is a part of a large array, so [b[:2]] does not panic when it is
    shorter, and then no number equals its length less two.
    src/common/protocol/dns/sniffer.go SniffTCPDNS *)
Definition SniffTCPDNS (b : bytes) : outcome sniff_error unit :=
  if blen b <? 2 then Err errNotDNS
  else if negb (blen b - 2 =? get16 b) then Err errNotDNS
  else rest ← sub_from b 2; SniffDNS rest.
End Dns.
