(* ===== verification/Sniffer.v ===== *)
(** * The dispatcher's sniffers, [app/dispatcher/sniffer.go] and [default.go]

    The list of sniffers with its pending ones, the reader that keeps what
    the sniffers looked at for the outbound, and the loop that waits for
    enough bytes. *)

From S2P Require Import Prelude Matchers Net NetText Buffer BufReader Sniffing SniffTls SniffHttp SniffQuic Dispatcher.

Local Open Scope Z_scope.

(** ** The list of sniffers *)

(** A content sniffer with its network, or the one that asks the fake DNS
    about the target and needs no content.
    src/app/dispatcher/sniffer.go:21-30 protocolSnifferWithMetadata *)
Inductive protocolSniffer :=
  | ContentSniffer (f : bytes -> outcome sniff_error SniffResult) (network : Network)
  | FakeDnsSniffer.

Definition plain (protocol domain : bytes) : SniffResult := {| sr_Protocol := protocol; sr_Domain := domain; ProtocolForDomainResult := None |}.

Definition named {A} (protocol : bytes) (domain : A -> bytes) (r : outcome sniff_error A) : outcome sniff_error SniffResult :=
  a ← r; Ok (plain protocol (domain a)).

Section Sniffers.
Context `{StringLibs, QuicCrypto, DnsMessages}.

(** [garbage] is the array the pool gives the TLS and QUIC sniffers, and
    [fakedns] says whether the instance has a fake DNS engine.
    src/app/dispatcher/sniffer.go NewSniffer *)
Definition NewSniffer (garbage : bytes) (fakedns : bool) : list protocolSniffer :=
  [ContentSniffer (fun b => named (bs "http1") http_Domain (SniffHTTP b)) Network_TCP;
   ContentSniffer (fun b => named (bs "tls") id (SniffTLS garbage b)) Network_TCP;
   ContentSniffer (fun b => named (bs "quic") id (SniffQUIC garbage b)) Network_UDP;
   ContentSniffer (fun b => named (bs "bittorrent") (fun _ => []) (SniffBittorrent b)) Network_TCP;
   ContentSniffer (fun b => named (bs "bittorrent") (fun _ => []) (SniffUTP b)) Network_UDP;
   ContentSniffer (fun b => named (bs "bittorrent") (fun _ => []) (SniffUDPTracker b)) Network_UDP;
   ContentSniffer (fun b => named (bs "dns") (fun _ => []) (SniffDNS b)) Network_UDP;
   ContentSniffer (fun b => named (bs "dns") (fun _ => []) (SniffTCPDNS b)) Network_TCP]
  ++ if fakedns then [FakeDnsSniffer] else [].
End Sniffers.

(** The pending sniffers so far and the error, or a result.
    src/app/dispatcher/sniffer.go:58-86 Sniffer.Sniff *)
Fixpoint sniff_loop (ss : list protocolSniffer) (payload : bytes) (network : Network) (pending : list protocolSniffer) (sniffErr : option sniff_error) :
    outcome sniff_error (SniffResult + list protocolSniffer * option sniff_error) :=
  match ss with
  | [] => Ok (inr (pending, sniffErr))
  | FakeDnsSniffer :: ss' => sniff_loop ss' payload network pending sniffErr
  | (ContentSniffer f n as si) :: ss' =>
      if negb (bool_decide (n = network)) then sniff_loop ss' payload network pending sniffErr
      else
        match f payload with
        | Panic => Panic
        | Ok result => Ok (inl result)
        | Err err =>
            if bool_decide (err = ErrNoClue) then
              let sniffErr := if bool_decide (sniffErr = Some ErrProtoNeedMoreData) then sniffErr else Some err in
              sniff_loop ss' payload network (pending ++ [si]) sniffErr
            else if bool_decide (err = ErrProtoNeedMoreData) then sniff_loop ss' payload network (pending ++ [si]) (Some err)
            else sniff_loop ss' payload network pending sniffErr
        end
  end.

(** The sniffers left and the answer.
    src/app/dispatcher/sniffer.go Sniffer.Sniff *)
Definition Sniff (s : list protocolSniffer) (payload : bytes) (network : Network) : list protocolSniffer * outcome sniff_error SniffResult :=
  match sniff_loop s payload network [] None with
  | Panic => (s, Panic)
  | Err e => (s, Err e)
  | Ok (inl result) => (s, Ok result)
  | Ok (inr ([], _)) => (s, Err errUnknownContent)
  | Ok (inr (pending, sniffErr)) => (pending, Err (default errUnknownContent sniffErr))
  end.

Section Metadata.
(** The fake DNS engine, whose state a question may change. *)
Context {S : Type} (GetDomainFromFakeDNS : S -> Address -> outcome sniff_error (S * bytes)).

(** What is told to a caller that asks whether the address is in a pool is
    left out.
    src/app/dispatcher/fakednssniffer.go newFakeDNSSniffer *)
Definition fakeDNSSniffer (s : S) (Target : Destination) : outcome sniff_error (S * option SniffResult) :=
  match dest_Network Target with
  | Network_TCP | Network_UDP =>
      match dest_Address Target with
      | None => Panic
      | Some a =>
          '(s, domainFromFakeDNS) ← GetDomainFromFakeDNS s a;
          Ok (s, match domainFromFakeDNS with [] => None | _ => Some (plain (bs "fakedns") domainFromFakeDNS) end)
      end
  | _ => Ok (s, None)
  end.

(** src/app/dispatcher/sniffer.go:97-113 Sniffer.SniffMetadata *)
Fixpoint metadata_loop (ss : list protocolSniffer) (s : S) (Target : Destination) (pending : list protocolSniffer) :
    outcome sniff_error (S * (SniffResult + list protocolSniffer)) :=
  match ss with
  | [] => Ok (s, inr pending)
  | (ContentSniffer _ _ as si) :: ss' => metadata_loop ss' s Target (pending ++ [si])
  | FakeDnsSniffer :: ss' =>
      '(s, r) ← fakeDNSSniffer s Target;
      match r with
      | Some result => Ok (s, inl result)
      | None => metadata_loop ss' s Target (pending ++ [FakeDnsSniffer])
      end
  end.

(** src/app/dispatcher/sniffer.go Sniffer.SniffMetadata *)
Definition SniffMetadata (ss : list protocolSniffer) (s : S) (Target : Destination) : outcome sniff_error (S * list protocolSniffer * option SniffResult) :=
  '(s, r) ← metadata_loop ss s Target [];
  Ok (match r with
      | inl result => (s, ss, Some result)
      | inr [] => (s, ss, None)
      | inr pending => (s, pending, None)
      end).
End Metadata.

(** ** The cached reader *)

(** The pipe is the results its calls will still give; an error comes with no
    data.
    src/app/dispatcher/default.go cachedReader *)
Record cachedReader := { cr_reader : list (outcome io_error MultiBuffer); cache : MultiBuffer }.

Definition next_read (src : list (outcome io_error MultiBuffer)) : outcome io_error MultiBuffer * list (outcome io_error MultiBuffer) :=
  match src with [] => (Err EOF, []) | x :: src' => (x, src') end.

(** The buffer holds what it can of the cache.
    src/app/dispatcher/default.go cachedReader.Cache *)
Definition Cache (r : cachedReader) (b : Buffer) : cachedReader * outcome sniff_error Buffer :=
  let '(res, src) := next_read (cr_reader r) in
  match res with
  | Err _ => ({| cr_reader := src; cache := cache r |}, Err errCache)
  | Panic => ({| cr_reader := src; cache := cache r |}, Panic)
  | Ok mb =>
      let c := if negb (MultiBuffer_IsEmpty mb) then (MergeMulti (cache r) mb).1 else cache r in
      let b := Clear b in
      ({| cr_reader := src; cache := c |},
       '(b, (lo, hi)) ← SniffTls.must (Extend b (Cap b));
       data ← SniffTls.must (Buffer.Copy c (Z.to_nat (hi - lo)));
       let b := set_array b (splice (Z.to_nat lo) data (arr b)) in
       SniffTls.must (Resize b 0 (i32 (blen data))))
  end.

(** src/app/dispatcher/default.go cachedReader.readInternal *)
Definition readInternal (r : cachedReader) : cachedReader * option MultiBuffer :=
  if negb (MultiBuffer_IsEmpty (cache r)) then ({| cr_reader := cr_reader r; cache := [] |}, Some (cache r)) else (r, None).

(** The call with a timeout differs by what the pipe answers.
    src/app/dispatcher/default.go cachedReader.ReadMultiBuffer *)
Definition cached_ReadMultiBuffer (r : cachedReader) : cachedReader * outcome io_error MultiBuffer :=
  match readInternal r with
  | (r, Some mb) => (r, Ok mb)
  | (r, None) => let '(res, src) := next_read (cr_reader r) in ({| cr_reader := src; cache := cache r |}, res)
  end.

(** The pipe is interrupted too.
    src/app/dispatcher/default.go cachedReader.Interrupt *)
Definition cached_Interrupt (r : cachedReader) : cachedReader := {| cr_reader := []; cache := ReleaseMulti (cache r) |}.

(** ** Sniffing *)

(** 200 ms in nanoseconds. *)
Definition cacheDeadline0 : Z := 200000000.

(** The loop over the content: [done_ k] says whether the context is done at
    the [k]-th turn, and [elapsed k] how long its wait took.  [None] is fuel
    that ran out.
    src/app/dispatcher/default.go:270-300 sniffer *)
Fixpoint content_loop (fuel : nat) (done_ : nat -> bool) (elapsed : nat -> Z) (k : nat) (ss : list protocolSniffer) (r : cachedReader) (payload : Buffer)
    (network : Network) (cacheDeadline : Z) (totalAttempt : Z) : option (cachedReader * outcome sniff_error SniffResult) :=
  match fuel with
  | O => None
  | S fuel' =>
      if done_ k then Some (r, Err errContextDone)
      else
        match Cache r payload with
        | (r, Err e) => Some (r, Err e)
        | (r, Panic) => Some (r, Panic)
        | (r, Ok payload) =>
            let cacheDeadline := cacheDeadline - elapsed k in
            let next ss totalAttempt :=
              if (2 <=? totalAttempt) || (cacheDeadline <=? 0) then Some (r, Err errSniffingTimeout)
              else content_loop fuel' done_ elapsed (S k) ss r payload network cacheDeadline totalAttempt in
            if negb (IsEmpty payload) then
              match Bytes payload with
              | Ok content =>
                  match Sniff ss content network with
                  | (ss, Err ErrNoClue) => next ss (totalAttempt + 1)
                  | (ss, Err ErrProtoNeedMoreData) => next ss totalAttempt
                  | (_, result) => Some (r, result)
                  end
              | _ => Some (r, Panic)
              end
            else next ss (totalAttempt + 1)
        end
  end.

(** The results of the two kinds together.
    src/app/dispatcher/default.go:302-308 sniffer *)
Definition combine_results (metaresult : option SniffResult) (content : outcome sniff_error SniffResult) : outcome sniff_error SniffResult :=
  match content, metaresult with
  | Panic, _ => Panic
  | Err _, Some m => Ok m
  | Ok c, Some m => Ok (CompositeResult m c)
  | r, None => r
  end.

(** [payload] is the pool's array; the engine fails only by
    panicking.
    src/app/dispatcher/default.go sniffer *)
Definition sniffer {S} (GetDomainFromFakeDNS : S -> Address -> outcome sniff_error (S * bytes)) (fuel : nat) (done_ : nat -> bool) (elapsed : nat -> Z)
    (ss : list protocolSniffer) (s : S) (Target : Destination) (r : cachedReader) (payload : bytes) (metadataOnly : bool) (network : Network) :
    option (S * cachedReader * outcome sniff_error SniffResult) :=
  match SniffMetadata GetDomainFromFakeDNS ss s Target with
  | Panic | Err _ => Some (s, r, Panic)
  | Ok (s, ss, metaresult) =>
      if metadataOnly then Some (s, r, match metaresult with Some m => Ok m | None => Err ErrNoClue end)
      else
        '(r, content) ← content_loop fuel done_ elapsed 0 ss r (NewWithSize payload) network cacheDeadline0 0;
        Some (s, r, combine_results metaresult content)
  end.
