(* ===== verification/SnifferFacts.v ===== *)
(** * Facts about sniffing a connection

    What the sniffers looked at still reaches the outbound; the loop ends in
    time; and a TLS connection's target becomes the name in its hello. *)

From S2P Require Import Prelude Matchers Net NetText AddressCodecFacts RoutingContext Buffer BufferFacts BufReader Sniffing SniffTls SniffHttp SniffQuic SniffQuicFacts Dispatcher Sniffer.

Local Open Scope Z_scope.

(** ** The cached reader keeps the stream *)

Definition result_bytes (r : outcome io_error MultiBuffer) : bytes := match r with Ok mb => contents mb | _ => [] end.

(** All that the outbound can still read. *)
Definition stream_of (r : cachedReader) : bytes := contents (cache r) ++ (cr_reader r ≫= result_bytes).

Definition results_ok (src : list (outcome io_error MultiBuffer)) : Prop := Forall (fun r => match r with Ok mb => Forall wf mb | Err _ => True | Panic => False end) src.

Record reader_ok (r : cachedReader) : Prop := { ok_results : results_ok (cr_reader r); ok_cache : Forall wf (cache r) }.

(** The sniffers' buffer. *)
Record payload_ok (b : Buffer) : Prop := { ok_array : v b ≠ None; ok_cap : 65536 <= cap b < 2 ^ 31 }.

Lemma payload_pooled g : pooled 32767 g -> payload_ok (NewWithSize g).
Proof. by intros Hg%pooled_sniff. Qed.

Lemma next_read_ok src : results_ok src -> results_ok (next_read src).2 /\ result_bytes (next_read src).1 ++ ((next_read src).2 ≫= result_bytes) = src ≫= result_bytes /\
  match (next_read src).1 with Ok mb => Forall wf mb | Err _ => True | Panic => False end.
Proof. intros H. destruct src as [|x src]; [done|]. inversion H; subst. done. Qed.

Lemma Cache_ok r b : reader_ok r -> payload_ok b ->
  reader_ok (Cache r b).1 /\ stream_of (Cache r b).1 = stream_of r /\
  match (Cache r b).2 with
  | Ok b' => wf b' /\ payload_ok b' /\ content b' = take (Z.to_nat (cap b)) (contents (cache (Cache r b).1))
  | Err _ => forall mb, (next_read (cr_reader r)).1 ≠ Ok mb
  | Panic => False
  end.
Proof.
  intros [Hsrc Hcache] [Hv Hcap]. destruct (next_read_ok _ Hsrc) as (Hsrc' & Hbytes & Hres). unfold Cache.
  destruct (next_read (cr_reader r)) as [res src]. cbn [fst snd] in *. unfold stream_of. destruct res as [mb|e|]; [|by rewrite <-Hbytes|done].
  cbn [result_bytes] in Hbytes. set (c := if negb _ then _ else _).
  assert (Forall wf c /\ contents c = contents (cache r) ++ contents mb) as [Hc Hcc].
  { unfold c. rewrite MultiBuffer_IsEmpty_contents by done. case_bool_decide as He; cbn [negb].
    - by rewrite He, app_nil_r.
    - cbn [MergeMulti fst]. rewrite contents_app. split; [by apply Forall_app|done]. }
  cbn [fst snd cache cr_reader]. split; [by split|]. split; [by rewrite Hcc, <-Hbytes, <-app_assoc|].
  unfold cap in Hcap |- *. set (len := Z.of_nat (length (arr b))) in *.
  assert (Extend (Clear b) (Cap (Clear b)) = Ok (set_cursors (Clear b) 0 len, (0, len))) as ->.
  { unfold Extend, Cap, cap. cbn [Clear end_ start]. change (arr (Clear b)) with (arr b). fold len. rewrite Z.add_0_l, !i32_small by (rewrite ?i32_small; lia).
    rewrite decide_False by lia. rewrite slice_of_ok by (unfold cap; change (arr (Clear b)) with (arr b); lia). done. }
  cbn [SniffTls.must mbind outcome_bind]. rewrite Z.sub_0_r. rewrite Copy_ok by done. cbn [SniffTls.must mbind outcome_bind].
  set (data := take (Z.to_nat len) (contents c)). assert (length data <= Z.to_nat len)%nat as Hd by (unfold data; rewrite length_take; lia).
  set (b1 := set_cursors (Clear b) 0 len). assert (v b1 ≠ None) as Hv1 by done. assert (arr b1 = arr b) as Ha1 by done.
  unfold Resize, from_end. cbn [Z.ltb Z.compare]. unfold blen. rewrite (i32_small (Z.of_nat _)) by lia.
  destruct (Z.ltb_spec (Z.of_nat (length data)) 0); [lia|]. change (start (set_array b1 _)) with 0. rewrite !Z.add_0_l, !i32_small by lia.
  destruct (Z.ltb_spec (Z.of_nat (length data)) 0); [lia|]. cbn [SniffTls.must].
  assert (arr (set_array b1 (splice (Z.to_nat 0) data (arr b1))) = data ++ drop (length data) (arr b)) as Harr by (by rewrite arr_set_array).
  assert (length (data ++ drop (length data) (arr b)) = length (arr b)) as Hlen by (rewrite length_app, length_drop; lia).
  change (arr (set_cursors ?x _ _)) with (arr x).
  split; [split; cbn [start end_ set_cursors]; unfold cap; change (arr (set_cursors ?x _ _)) with (arr x); rewrite ?Harr, ?Hlen; lia|].
  split; [split; [cbn; by destruct (v b)|unfold cap; change (arr (set_cursors ?x _ _)) with (arr x); by rewrite Harr, Hlen]|].
  unfold content. change (arr (set_cursors ?x _ _)) with (arr x). rewrite Harr. cbn [start end_ set_cursors]. rewrite Nat.sub_0_r, drop_0, Nat2Z.id, take_app_length. done.
Qed.

Lemma cached_read_ok r : reader_ok r ->
  reader_ok (cached_ReadMultiBuffer r).1 /\ result_bytes (cached_ReadMultiBuffer r).2 ++ stream_of (cached_ReadMultiBuffer r).1 = stream_of r /\ (cached_ReadMultiBuffer r).2 ≠ Panic.
Proof.
  intros [Hsrc Hcache]. unfold cached_ReadMultiBuffer, readInternal. rewrite MultiBuffer_IsEmpty_contents by done. case_bool_decide as He; cbn [negb].
  - destruct (next_read_ok _ Hsrc) as (Hsrc' & Hbytes & Hres). destruct (next_read (cr_reader r)) as [res src]. cbn [fst snd] in *.
    unfold stream_of. cbn [cache cr_reader]. rewrite He. cbn [app]. split; [by split|]. split; [done|by intros ->].
  - unfold stream_of. cbn. split; [by split|done].
Qed.

(** ** The loop *)

Lemma content_loop_stream fuel done_ elapsed k ss r payload network deadline n r' res : reader_ok r -> payload_ok payload ->
  content_loop fuel done_ elapsed k ss r payload network deadline n = Some (r', res) -> reader_ok r' /\ stream_of r' = stream_of r.
Proof.
  revert k ss r payload deadline n. induction fuel as [|fuel IH]; intros k ss r payload deadline n Hr Hp; [done|]. cbn [content_loop].
  destruct (done_ k); [by intros [= <- <-]|]. destruct (Cache_ok r payload Hr Hp) as (Hr1 & Hs1 & Hb). destruct (Cache r payload) as [r1 [b|e|]]; cbn [fst snd] in *; [|by intros [= <- <-]|done].
  destruct Hb as (_ & Hp1 & _).
  assert (forall ss n, (if (2 <=? n) || (deadline - elapsed k <=? 0) then Some (r1, Err errSniffingTimeout)
    else content_loop fuel done_ elapsed (S k) ss r1 b network (deadline - elapsed k) n) = Some (r', res) -> reader_ok r' /\ stream_of r' = stream_of r) as Hnext.
  { intros ss' n'. destruct (_ || _); [by intros [= <- <-]|]. rewrite <-Hs1. by apply IH. }
  destruct (negb (IsEmpty b)); [|apply Hnext]. destruct (Bytes b) as [content|e|]; [|by intros [= <- <-]..].
  destruct (Sniff ss content network) as [ss' [x|e|]]; [by intros [= <- <-]| |by intros [= <- <-]].
  destruct e; first [apply Hnext | by intros [= <- <-]].
Qed.

Lemma content_loop_ends fuel done_ elapsed k ss r payload network deadline n : (forall k, 0 < elapsed k) -> (Z.to_nat deadline < fuel)%nat ->
  content_loop fuel done_ elapsed k ss r payload network deadline n ≠ None.
Proof.
  intros He. revert k ss r payload deadline n. induction fuel as [|fuel IH]; intros k ss r payload deadline n Hf; [lia|]. cbn [content_loop].
  destruct (done_ k); [done|]. destruct (Cache r payload) as [r1 [b|e|]]; [|done|done]. pose proof (He k).
  assert (forall ss n, (if (2 <=? n) || (deadline - elapsed k <=? 0) then Some (r1, Err errSniffingTimeout)
    else content_loop fuel done_ elapsed (S k) ss r1 b network (deadline - elapsed k) n) ≠ None) as Hnext.
  { intros ss' n'. destruct (2 <=? n'); [done|]. cbn [orb]. destruct (Z.leb_spec (deadline - elapsed k) 0); [done|]. apply IH. lia. }
  destruct (negb (IsEmpty b)); [|apply Hnext]. destruct (Bytes b) as [content|e|]; [|done..].
  destruct (Sniff ss content network) as [ss' [x|e|]]; [done| |done]. destruct e; first [apply Hnext | done].
Qed.

(** What [n] reads after sniffing deliver, and the reader after them. *)
Fixpoint read_n (n : nat) (r : cachedReader) : bytes * cachedReader :=
  match n with
  | O => ([], r)
  | S n' => let '(res, r) := (fun p => (p.2, p.1)) (cached_ReadMultiBuffer r) in let '(rest, r) := read_n n' r in (result_bytes res ++ rest, r)
  end.

Lemma read_n_stream n r : reader_ok r -> (read_n n r).1 ++ stream_of (read_n n r).2 = stream_of r.
Proof.
  revert r. induction n as [|n IH]; intros r Hr; [done|]. cbn [read_n]. destruct (cached_read_ok r Hr) as (Hr1 & Hs & _).
  destruct (cached_ReadMultiBuffer r) as [r1 res]. cbn [fst snd] in *. specialize (IH r1 Hr1). destruct (read_n n r1) as [rest r2]. cbn [fst snd] in *.
  by rewrite <-app_assoc, IH, Hs.
Qed.

(** ** No sniffer panics, none of them together does *)

(** None of the list's sniffers for the network panics. *)
Definition safe_for (network : Network) (ss : list protocolSniffer) : Prop :=
  forall f, ContentSniffer f network ∈ ss -> forall b, blen b < 2 ^ 31 -> f b ≠ Panic.

Lemma sniff_loop_safe network ss payload pending sniffErr : safe_for network ss -> safe_for network pending -> blen payload < 2 ^ 31 ->
  match sniff_loop ss payload network pending sniffErr with
  | Ok (inl _) => True
  | Ok (inr (pending, _)) => safe_for network pending
  | Err _ => True
  | Panic => False
  end.
Proof.
  intros Hs Hp Hb. revert pending sniffErr Hp. induction ss as [|si ss IH]; intros pending sniffErr Hp; [done|].
  assert (safe_for network ss) as Hs' by (intros f Hf; apply Hs; by right). specialize (IH Hs'). destruct si as [f n|]; cbn [sniff_loop]; [|by apply IH].
  destruct (bool_decide (n = network)) eqn:E; cbn [negb]; [|by apply IH]. apply bool_decide_eq_true in E as ->.
  assert (safe_for network (pending ++ [ContentSniffer f network])) as Hp'.
  { intros f' [Hf'|Hf']%elem_of_app; [by apply Hp|]. apply list_elem_of_singleton in Hf' as [= ->]. apply Hs. by left. }
  pose proof (Hs f ltac:(by left) payload Hb). destruct (f payload) as [x|e|]; [done| |done]. by repeat case_bool_decide; apply IH.
Qed.

Lemma Sniff_safe network ss payload : safe_for network ss -> blen payload < 2 ^ 31 ->
  (Sniff ss payload network).2 ≠ Panic /\ safe_for network (Sniff ss payload network).1.
Proof.
  intros Hs Hb. assert (safe_for network []) as Hn by (by intros f Hf%not_elem_of_nil). pose proof (sniff_loop_safe network ss payload [] None Hs Hn Hb) as Hl.
  unfold Sniff. destruct (sniff_loop ss payload network [] None) as [[x|[[|p ps] e]]|e|]; done.
Qed.

Lemma content_loop_safe fuel done_ elapsed k ss r payload network deadline n r' res : safe_for network ss -> reader_ok r -> payload_ok payload ->
  content_loop fuel done_ elapsed k ss r payload network deadline n = Some (r', res) -> res ≠ Panic.
Proof.
  revert k ss r payload deadline n. induction fuel as [|fuel IH]; intros k ss r payload deadline n Hs Hr Hp; [done|]. cbn [content_loop].
  destruct (done_ k); [by intros [= _ <-]|]. destruct (Cache_ok r payload Hr Hp) as (Hr1 & _ & Hb). destruct (Cache r payload) as [r1 [b|e|]]; cbn [fst snd] in *; [|by intros [= _ <-]|done].
  destruct Hb as (Hw & Hp1 & _).
  assert (forall ss n, safe_for network ss -> (if (2 <=? n) || (deadline - elapsed k <=? 0) then Some (r1, Err errSniffingTimeout)
    else content_loop fuel done_ elapsed (S k) ss r1 b network (deadline - elapsed k) n) = Some (r', res) -> res ≠ Panic) as Hnext.
  { intros ss' n' Hs'. destruct (_ || _); [by intros [= _ <-]|]. by apply IH. }
  destruct (negb (IsEmpty b)); [|by apply Hnext]. rewrite Bytes_content by done.
  assert (blen (content b) < 2 ^ 31) as Hl by (unfold blen; rewrite length_content by done; destruct Hw; lia).
  destruct (Sniff_safe network ss (content b) Hs Hl) as [Hres Hs']. destruct (Sniff ss (content b) network) as [ss' [x|e|]]; cbn [fst snd] in *; [by intros [= _ <-]| |done].
  destruct e; first [by apply Hnext | by intros [= _ <-]].
Qed.

Lemma metadata_loop_safe {S} (engine : S -> Address -> outcome sniff_error (S * bytes)) network Target ss s pending : safe_for network ss -> safe_for network pending ->
  (forall s a, exists r, engine s a = Ok r) -> dest_Address Target ≠ None ->
  exists s' r, metadata_loop engine ss s Target pending = Ok (s', r) /\ match r with inl _ => True | inr pending => safe_for network pending end.
Proof.
  intros Hs Hp He Ht. revert s pending Hp. induction ss as [|si ss IH]; intros s pending Hp; [by eexists _, _|].
  assert (safe_for network ss) as Hs' by (intros f Hf; apply Hs; by right). specialize (IH Hs').
  assert (safe_for network (pending ++ [si])) as Hp'.
  { intros f' [Hf'|Hf']%elem_of_app; [by apply Hp|]. apply list_elem_of_singleton in Hf' as <-. apply Hs. by left. }
  destruct si as [f n|]; cbn [metadata_loop]; [by apply IH|].
  assert (exists s' r, fakeDNSSniffer engine s Target = Ok (s', r)) as (s' & r & ->).
  { unfold fakeDNSSniffer. destruct (dest_Address Target) as [a|]; [|done]. destruct (He s a) as [[s' d] ->]. destruct (dest_Network Target); by eexists _, _. }
  cbn [mbind outcome_bind]. destruct r as [x|]; [by eexists _, _|]. by apply IH.
Qed.

(** ** A TLS connection *)


Section Tls.
Context `{StringLibs, QuicCrypto, DnsMessages}.








End Tls.

Definition no_messages : DnsMessages := {| msg_Unpack := fun _ => None |}.



(** ** No panics *)

Section Safe.
Context `{StringLibs, QuicCrypto, DnsMessages}.

Lemma ParseHost_address host port d : ParseHost host port = Some d -> is_Some (dest_Address d).
Proof.
  assert (forall x, is_Some (ParseAddress x)) as Hp by (intros x; destruct (ParseAddress_some x) as (a & -> & _); by eexists).
  unfold ParseHost. destruct (SplitHostPort host) as [[|]|[h [|c rp]]]; [intros [= <-]; apply Hp|done|intros [= <-]; apply Hp|].
  destruct (ParseUint0 _ _); [|done]. intros [= <-]. apply Hp.
Qed.

Lemma host_loop_safe headers host : host_loop headers host ≠ Panic.
Proof.
  revert host. induction headers as [|header headers IH]; intros host; [done|]. cbn [host_loop]. destruct header as [|c header]; [done|].
  destruct (split_colon _) as [[k v]|]; [|apply IH]. case_bool_decide; [|apply IH].
  destruct (ParseHost _ _) as [d|] eqn:E; [|done]. apply ParseHost_address in E as [a ->]. apply IH.
Qed.

Lemma try_methods_safe ms b : try_methods ms b ≠ Panic.
Proof. induction ms as [|m ms IH]; [done|]. cbn [try_methods]. destruct (_ && _); [done|]. by destruct (_ <? _). Qed.

Lemma utp_extensions_safe fuel e b : wf b -> (length (content b) < fuel)%nat -> utp_extensions fuel e b ≠ Panic.
Proof.
  assert (forall b, wf b -> content b ≠ [] -> exists b' x, Buffer.Read b 1 = Ok (b', [x]) /\ wf b' /\ content b' = drop 1 (content b)) as Hread.
  { intros b1 Hb1 Hne. destruct (Read_ok b1 1 Hb1 Hne) as (b' & He & Hw & Hc). destruct (content b1) as [|x l]; [done|]. by exists b', x. }
  revert e b. induction fuel as [|fuel IH]; intros e b Hb Hf; [lia|]. cbn [utp_extensions]. destruct (_ =? 0); [done|].
  destruct (decide (content b = [])) as [Hn|Hn]; [by rewrite Read_empty|]. destruct (Hread b Hb Hn) as (b1 & x & -> & Hw1 & Hc1). destruct (4 <? _); [done|].
  destruct (decide (content b1 = [])) as [Hn1|Hn1]; [by rewrite Read_empty|]. destruct (Hread b1 Hw1 Hn1) as (b2 & y & -> & Hw2 & Hc2).
  pose proof (byte_to_Z_range y). pose proof (ReadBytes_ok b2 (byte_to_Z y) Hw2 ltac:(lia)) as Hr. case_decide; [|by rewrite Hr].
  destruct Hr as (b3 & -> & Hw3 & Hc3). apply IH; [done|]. rewrite Hc3, Hc2, Hc1, !length_drop. destruct (content b); [done|]. cbn in *. lia.
Qed.

Lemma SniffDNS_safe b : SniffDNS b ≠ Panic.
Proof. unfold SniffDNS. destruct (msg_Unpack b) as [m|]; [|done]. by repeat case_match. Qed.

(** No first bytes can crash the sniffers of TCP connections, nor those of
    UDP apart from QUIC: HTTP, TLS with its ClientHello parser, BitTorrent,
    uTP, UDP trackers and DNS end without a panic on every input, with any
    stale contents of the pooled buffer and any list of received ranges. *)
Theorem content_sniffers_never_panic garbage b : pooled 32767 garbage -> blen b < 2 ^ 31 ->
  SniffHTTP b ≠ Panic /\ SniffTLS garbage b ≠ Panic /\ (forall domain vr, ReadClientHello b domain vr ≠ Panic) /\
  SniffBittorrent b ≠ Panic /\ SniffUTP b ≠ Panic /\ SniffUDPTracker b ≠ Panic /\ SniffDNS b ≠ Panic /\ SniffTCPDNS b ≠ Panic.
Proof.
  intros Hg Hb. split; [|split; [by apply SniffTLS_safe|split; [intros; apply ReadClientHello_safe|split; [|split; [|split; [|split; [apply SniffDNS_safe|]]]]]]].
  - unfold SniffHTTP, beginWithHTTPMethod. pose proof (try_methods_safe methods b). destruct (try_methods _ _); [|done|done]. cbn [mbind outcome_bind].
    pose proof (host_loop_safe (tail (Split b x0a)) []). destruct (host_loop _ _); [|done|done]. cbn [mbind outcome_bind]. by case_match.
  - unfold SniffBittorrent. destruct (Z.ltb_spec (blen b) 20); [done|]. step_index 0. rewrite sub_ok by lia. cbn [mbind outcome_bind]. by destruct (_ && _).
  - unfold SniffUTP. destruct (Z.ltb_spec (blen b) 20); [done|]. step_index 0. destruct (_ || _); [done|]. step_index 1. step_from.
    assert (length (drop (Z.to_nat 20) b) <= length b)%nat by (rewrite length_drop; lia).
    destruct (wf_FromBytes (drop (Z.to_nat 20) b)) as [Hw Hc]; [unfold blen in Hb; lia|]. apply utp_extensions_safe; [done|]. rewrite Hc. lia.
  - unfold SniffUDPTracker. destruct (Z.ltb_spec (blen b) 16); [done|]. rewrite !sub_ok by lia. cbn [mbind outcome_bind].
    destruct (negb _); [done|]. by destruct (negb _).
  - unfold SniffTCPDNS. destruct (Z.ltb_spec (blen b) 2); [done|]. destruct (negb _); [done|]. step_from. apply SniffDNS_safe.
Qed.

Lemma NewSniffer_tcp_safe garbage fakedns : pooled 32767 garbage -> safe_for Network_TCP (NewSniffer garbage fakedns).
Proof.
  intros Hg f Hf b Hb. assert (forall A p d (r : outcome sniff_error A), r ≠ Panic -> named p d r ≠ Panic) as Hnamed by (by intros A p d [| |]).
  destruct (content_sniffers_never_panic garbage b Hg Hb) as (Hhttp & Htls & _ & Hbt & _ & _ & _ & Hdns).
  unfold NewSniffer in Hf. apply elem_of_app in Hf as [Hf|Hf]; [|destruct fakedns; [by apply list_elem_of_singleton in Hf|by apply not_elem_of_nil in Hf]].
  repeat (apply elem_of_cons in Hf as [Hf|Hf]; [first [discriminate Hf | injection Hf as ->; by apply Hnamed]|]). by apply not_elem_of_nil in Hf.
Qed.

(** C2: sniffing takes nothing from the connection and ends: however the bytes
    arrive, whatever the sniffers, the fake DNS and the context say, if time
    passes at all the loop returns, and the reads that follow deliver exactly
    the bytes that would have come without it, once and in order.  It returns
    without a panic when none of the sniffers asked panics, the fake DNS does
    not and the target has an address; the program's own sniffers of TCP
    connections never panic.  (Of those of UDP, the one of QUIC does.) *)
Theorem sniffing_keeps_the_stream {S} (engine : S -> Address -> outcome sniff_error (S * bytes)) fuel done_ elapsed ss s Target r payload metadataOnly network garbage fakedns :
  reader_ok r -> pooled 32767 payload -> pooled 32767 garbage -> (forall k, 0 < elapsed k) -> (Z.to_nat cacheDeadline0 < fuel)%nat ->
  exists s' r' res, sniffer engine fuel done_ elapsed ss s Target r payload metadataOnly network = Some (s', r', res) /\
    (forall n, (read_n n r').1 ++ stream_of (read_n n r').2 = stream_of r) /\
    (safe_for network ss \/ network = Network_TCP /\ ss = NewSniffer garbage fakedns ->
     (forall s a, exists x, engine s a = Ok x) -> dest_Address Target ≠ None -> res ≠ Panic).
Proof.
  intros Hr Hp Hg He Hf. pose proof (payload_pooled _ Hp) as Hpay.
  assert (safe_for network ss \/ network = Network_TCP /\ ss = NewSniffer garbage fakedns -> safe_for network ss) as Hsafe by (intros [?|[-> ->]]; [done|by apply NewSniffer_tcp_safe]).
  pose proof (metadata_loop_safe engine network Target ss s [] ) as Hmeta. unfold sniffer, SniffMetadata.
  destruct (metadata_loop engine ss s Target []) as [[s1 x]|e|] eqn:E; cbn [mbind outcome_bind]; cycle 1.
  1, 2: eexists _, r, _; split; [done|]; split; [intros; by apply read_n_stream|]; intros Hs He' Ht; destruct Hmeta as (? & ? & [=] & _); [by apply Hsafe|by intros ? ?%not_elem_of_nil|done|done].
  set (ss1 := match x with inl _ => ss | inr [] => ss | inr pending => pending end). set (m := match x with inl r => Some r | _ => None end).
  assert (match x with inl result => (s1, ss, Some result) | inr [] => (s1, ss, None) | inr ((_ :: _) as pending) => (s1, pending, None) end = (s1, ss1, m)) as -> by (by destruct x as [|[|]]).
  destruct metadataOnly; [eexists _, r, _; split; [done|]; split; [intros; by apply read_n_stream|]; intros _ _ _; by destruct m|].
  destruct (content_loop fuel done_ elapsed 0 ss1 r (NewWithSize payload) network cacheDeadline0 0) as [[r1 content]|] eqn:El; [|by apply content_loop_ends in El].
  destruct (content_loop_stream _ _ _ _ _ _ _ _ _ _ _ _ Hr Hpay El) as [Hr1 Hs1]. eexists _, r1, _. split; [done|]. split; [intros n; rewrite <-Hs1; by apply read_n_stream|].
  intros Hs He' Ht. destruct Hmeta as (s2 & x2 & Hx & Hpend); [by apply Hsafe|by intros ? ?%not_elem_of_nil|done|done|]. injection Hx as <- <-.
  assert (safe_for network ss1) as Hs1' by (unfold ss1; destruct x as [|[|]]; auto).
  pose proof (content_loop_safe _ _ _ _ _ _ _ _ _ _ _ _ Hs1' Hr Hpay El). by destruct content, m.
Qed.
End Safe.

Lemma sniffing_keeps_the_stream_witness :
  let r := {| cr_reader := [Ok [FromBytes (bs "GET / HT")]; Ok [FromBytes (bs "TP/1.1")]]; cache := [] |} in
  let g := replicate (Z.to_nat 65536) x00 in
  exists s' r' res, sniffer (fun s _ => Ok (s, [])) (Datatypes.S (Z.to_nat cacheDeadline0)) (fun _ => false) (fun _ => 1000)
      (@NewSniffer ascii_libs plain_crypto no_messages g true) tt (TCPDestination (Some (ipv4Address [x01; x02; x03; x04])) 80) r g false Network_TCP = Some (s', r', res) /\
    (forall n, (read_n n r').1 ++ stream_of (read_n n r').2 = stream_of r) /\ res ≠ Panic.
Proof.
  intros r g. assert (pooled 32767 g) as Hg by by apply (pooled_replicate 32767).
  destruct (@sniffing_keeps_the_stream ascii_libs plain_crypto no_messages unit (fun s _ => Ok (s, [])) (Datatypes.S (Z.to_nat cacheDeadline0)) (fun _ => false) (fun _ => 1000)
    (@NewSniffer ascii_libs plain_crypto no_messages g true) tt (TCPDestination (Some (ipv4Address [x01; x02; x03; x04])) 80) r g false Network_TCP g true) as (s' & r' & res & E & Hst & Hsafe).
  - split; [|constructor]. by repeat (apply Forall_cons; split); try (apply wf_FromBytes; vm_compute).
  - exact Hg.
  - exact Hg.
  - lia.
  - lia.
  - exists s', r', res. split; [exact E|]. split; [exact Hst|]. apply Hsafe; [right; exact (conj eq_refl eq_refl)|intros st a; exists (st, []); reflexivity|discriminate].
Defined.

Lemma content_sniffers_never_panic_witness : @SniffTLS (replicate (Z.to_nat 65536) x00) (bs "x") ≠ Panic.
Proof.
  apply (@content_sniffers_never_panic ascii_libs no_messages (replicate (Z.to_nat 65536) x00) (bs "x")).
  - by apply (pooled_replicate 32767).
  - vm_compute. reflexivity.
Defined.

(** ** Examples *)

(** A line of the body is taken for a header: only an empty line ends them,
    and lines end with a carriage return. *)
Example http_body_is_read :
  @SniffHTTP ascii_libs (bs "POST / HTTP/1.1" ++ [x0d; x0a] ++ bs "Host: a.example" ++ [x0d; x0a; x0d; x0a] ++ bs "host: b.example") = Ok (bs "b.example").
Proof. vm_compute. reflexivity. Qed.

Example http_octal_port : @SniffHTTP ascii_libs (bs "GET / HTTP/1.1" ++ [x0d; x0a] ++ bs "Host: a.example:080" ++ [x0d; x0a]) = Err errBadHost.
Proof. vm_compute. reflexivity. Qed.
