(* ===== verification/Handshake.v ===== *)
(** * Reading and writing headers

    The proxies open a connection by reading from an [io.Reader] and writing
    to an [io.Writer] in turns.  A computation here has the bytes still to
    come and the writer's state, and keeps what it wrote when it fails.
    Reading past the end is an error; on a live connection the reader waits
    there instead, so that what two peers say to each other is the least
    fixed point of the two, as in a network of stream functions ([talk]). *)

From S2P Require Import Prelude Net Mux Segment Buffer BufferFacts AddressCodec AddressCodecFacts.

Local Open Scope Z_scope.

(** What a header's reader or writer reports; [ErrRefused] are the errors of
    the protocol itself. *)
Inductive fail (E : Type) :=
  | ErrReader
  | ErrWriter
  | ErrAddress (e : codec_error)
  | ErrRefused (e : E).
Arguments ErrReader {E}.
Arguments ErrWriter {E}.
Arguments ErrAddress {E} e.
Arguments ErrRefused {E} e.

Record stream (W : Type) := { incoming : bytes; writer : W }.
Arguments incoming {W} s.
Arguments writer {W} s.

(** A computation over a connection. *)
Definition io (E W A : Type) : Type := stream W -> outcome (fail E) A * stream W.

#[export] Instance io_ret E W : MRet (io E W) := fun A a s => (Ok a, s).
#[export] Instance io_bind E W : MBind (io E W) := fun A B f m s =>
  match m s with
  | (Ok a, s') => f a s'
  | (Err e, s') => (Err e, s')
  | (Panic, s') => (Panic, s')
  end.

Section Io.
Context {E W : Type}.

Definition refuse {A} (e : E) : io E W A := fun s => (Err (ErrRefused e), s).
Definition fails {A} (e : fail E) : io E W A := fun s => (Err e, s).

(** The buffer operations the code wraps in [Must] or lets panic. *)
Definition pure {A} (r : outcome unit A) : io E W A := fun s =>
  (match r with Ok a => Ok a | Err _ => Panic | Panic => Panic end, s).

(** Buffer operations whose error is returned. *)
Definition checked {A} (r : outcome unit A) : io E W A := fun s =>
  (match r with Ok a => Ok a | Err _ => Err ErrWriter | Panic => Panic end, s).

(** [b.ReadFullFrom(reader, n)]. *)
Definition read_into (b : Buffer) (n : Z) : io E W Buffer := fun s =>
  match read_full b (incoming s) n with
  | Ok (b', rest) => (Ok b', {| incoming := rest; writer := writer s |})
  | Err _ => (Err ErrReader, s)
  | Panic => (Panic, s)
  end.

(** [io.ReadFull(reader, p)] into a slice of [n] bytes. *)
Definition read_bytes (n : nat) : io E W bytes := fun s =>
  if (length (incoming s) <? n)%nat then (Err ErrReader, s)
  else (Ok (take n (incoming s)), {| incoming := drop n (incoming s); writer := writer s |}).

(** One [Read] of at most [n] bytes; what has arrived comes at once. *)
Definition read_some (n : nat) : io E W bytes := fun s =>
  match incoming s with
  | [] => (Err ErrReader, s)
  | i => (Ok (take n i), {| incoming := drop n i; writer := writer s |})
  end.

(** [addrParser.ReadAddressPort(buffer, reader)]. *)
Definition read_address_port (garbage : bytes) (p : AddressSerializer) (buffer : option Buffer) : io E W (option Address * Z) := fun s =>
  match ReadAddressPort garbage p buffer (incoming s) with
  | Ok (rest, a, port) => (Ok (a, port), {| incoming := rest; writer := writer s |})
  | Err e => (Err (ErrAddress e), s)
  | Panic => (Panic, s)
  end.

(** [addrParser.WriteAddressPort] into a buffer. *)
Definition put_address_port (p : AddressSerializer) (b : Buffer) (a : option Address) (port : Z) : io E W Buffer := fun s =>
  (match WriteAddressPort buffer_writer p b a port with
   | Ok b => Ok b | Err e => Err (ErrAddress e) | Panic => Panic
   end, s).

Context (write : W -> bytes -> W * bool).

(** One [Write] on the connection: all of the data, or an error. *)
Definition send (data : bytes) : io E W unit := fun s =>
  let '(w, failed) := write (writer s) data in
  (if failed : bool then Err ErrWriter else Ok tt, {| incoming := incoming s; writer := w |}).

(** A writer reports an error when it takes fewer bytes than it was given, so
    the loop runs at most once.
    src/common/buf/io.go WriteAllBytes *)
Definition WriteAllBytes (payload : bytes) : io E W unit :=
  match payload with [] => mret tt | _ => send payload end.

(** A write whose error nobody looks at. *)
Definition try_ {A} (m : io E W A) : io E W unit := fun s =>
  match m s with (Panic, s') => (Panic, s') | (_, s') => (Ok tt, s') end.
End Io.

(** ** Request headers *)

(** src/common/protocol/headers.go:16-20 RequestCommandTCP *)
Definition RequestCommandTCP : byte := x01.
Definition RequestCommandUDP : byte := x02.
Definition RequestCommandMux : byte := x03.

(** The account is the protocol's own type.
    src/common/protocol/user.go MemoryUser *)
Record MemoryUser (A : Type) := { Account : option A; Email : bytes; Level : Z }.
Arguments Account {A} m.
Arguments Email {A} m.
Arguments Level {A} m.

(** The options and the security type are VMess's.
    src/common/protocol/headers.go RequestHeader *)
Record RequestHeader (A : Type) := {
  h_Version : byte; h_Command : byte; h_Port : Z; h_Address : option Address; h_User : option (MemoryUser A)
}.
Arguments h_Version {A} r.
Arguments h_Command {A} r.
Arguments h_Port {A} r.
Arguments h_Address {A} r.
Arguments h_User {A} r.

(** src/common/protocol/headers.go RequestHeader.Destination *)
Definition header_Destination {A} (h : RequestHeader A) : Destination :=
  if decide (h_Command h = RequestCommandUDP) then UDPDestination (h_Address h) (h_Port h) else TCPDestination (h_Address h) (h_Port h).

(** src/common/protocol/headers.go RequestCommand.TransferType *)
Inductive TransferType := TransferTypeStream | TransferTypePacket.
Definition transfer_type (c : byte) : TransferType := if decide (c = RequestCommandUDP) then TransferTypePacket else TransferTypeStream.

(** A configured address; an empty message has none.
    src/common/net/address.pb.go:26-36 IPOrDomain *)
Inductive IPOrDomain := IPOrDomain_Ip (ip : bytes) | IPOrDomain_Domain (d : bytes) | IPOrDomain_unset.

(** The outer option is a nil message; [Panic] an invalid one.
    src/common/net/address.go IPOrDomain.AsAddress *)
Definition AsAddress (d : option IPOrDomain) : outcome unit (option Address) :=
  match d with
  | None => Ok None
  | Some (IPOrDomain_Ip ip) => Ok (IPAddress ip)
  | Some (IPOrDomain_Domain d) => Ok (Some (domainAddress d))
  | Some IPOrDomain_unset => Panic
  end.

(** The length of an address and a port in the formats of SOCKS, as three
    encoders compute it; [Panic] is a nil address.
    src/proxy/socks/protocol.go:391-404 EncodeUDPPacket *)
Definition addr_port_len (a : option Address) : outcome unit Z :=
  match a with
  | Some (domainAddress d) => if IsDomainTooLong d then Err tt else Ok (1 + 1 + i32 (Z.of_nat (length d)) + 2)
  | Some (ipv4Address _) => Ok (1 + 4 + 2)
  | Some (ipv6Address _) => Ok (1 + 16 + 2)
  | None => Panic
  end.

(** ** Two peers *)

(** A connection that takes every write. *)
Definition append (w : bytes) (data : bytes) : bytes * bool := (w ++ data, false).

Definition start_of (input : bytes) : stream bytes := {| incoming := input; writer := [] |}.

(** What a peer writes when it has been sent [input]. *)
Definition says {E A} (m : io E bytes A) (input : bytes) : bytes := writer (m (start_of input)).2.

(** What two peers have written after [n] turns each, from silence. *)
Fixpoint talk {E A B} (client : io E bytes A) (server : io E bytes B) (n : nat) : bytes * bytes :=
  match n with
  | O => ([], [])
  | S n' => let '(c, s) := talk client server n' in let c' := says client s in (c', says server c')
  end.

(** ** Running *)

Section Run.
Context {E W : Type}.

Lemma io_bind_Ok {A B} (m : io E W A) (f : A -> io E W B) s a s' : m s = (Ok a, s') -> (m ≫= f) s = f a s'.
Proof. intros H. unfold mbind, io_bind. by rewrite H. Qed.

Lemma io_bind_Err {A B} (m : io E W A) (f : A -> io E W B) s e s' : m s = (Err e, s') -> (m ≫= f) s = (Err e, s').
Proof. intros H. unfold mbind, io_bind. by rewrite H. Qed.

Lemma io_bind_pure {A B} (r : outcome unit A) (f : A -> io E W B) s a : r = Ok a -> (pure r ≫= f) s = f a s.
Proof. intros ->. done. Qed.

Lemma io_bind_checked {A B} (r : outcome unit A) (f : A -> io E W B) s a : r = Ok a -> (checked r ≫= f) s = f a s.
Proof. intros ->. done. Qed.

Lemma io_bind_ret {A B} (a : A) (f : A -> io E W B) s : (mret a ≫= f) s = f a s.
Proof. done. Qed.
End Run.

Lemma io_bind_send {E B} (f : unit -> io E bytes B) data input w :
  (send append data ≫= f) {| incoming := input; writer := w |} = f tt {| incoming := input; writer := w ++ data |}.
Proof. done. Qed.

Lemma io_bind_WriteAllBytes {E B} (f : unit -> io E bytes B) data input w :
  (WriteAllBytes append data ≫= f) {| incoming := input; writer := w |} = f tt {| incoming := input; writer := w ++ data |}.
Proof. destruct data; [by rewrite app_nil_r|done]. Qed.

(** * Facts about reading and writing headers

    A buffer of which the content and the room are known, and what each
    operation of a handshake makes of it. *)


(** A buffer of [k] bytes that was filled from its beginning with [s]. *)
Definition held (k : nat) (b : Buffer) (s : bytes) : Prop := holds 0 None b s (k - length s) /\ (length s <= k)%nat.

(** The buffers of the pool. *)
Lemma K_small : Z.of_nat (Z.to_nat Size) < 2 ^ 31.
Proof. unfold Size. lia. Qed.
Lemma K_large : (5000 <= Z.to_nat Size)%nat.
Proof. unfold Size. lia. Qed.

Section Held.
Context (k : nat) (Hk : Z.of_nat k < 2 ^ 31).

Lemma held_array own a : length a = k -> held k {| v := Some a; start := 0; end_ := 0; owner := own; Endpoint := None |} [].
Proof.
  intros Ha. split; [|cbn; lia]. split; [split; unfold cap, arr; cbn; lia|]. split; [done|].
  split; [unfold room, arr; cbn; lia|]. split; [done|]. split; done.
Qed.

Lemma held_end b s : held k b s -> wf b /\ content b = s /\ end_ b = Z.of_nat (length s) /\ start b = 0 /\ length (arr b) = k.
Proof.
  intros [(Hb & Hc & Hr & Hs & _) Hl]. pose proof (length_content b Hb) as HL. rewrite Hc, Hs in HL. destruct Hb as [? ? ?].
  do 4 (split; [done || lia|]). unfold room in Hr. unfold cap in *. lia.
Qed.

Lemma held_Clear b s : held k b s -> held k (Clear b) [].
Proof.
  intros H. destruct (held_end b s H) as (Hb & _ & _ & _ & Ha). destruct H as [(_ & _ & _ & _ & He & Hv) _].
  split; [|cbn; lia]. destruct (wf_Clear b Hb) as [Hw Hc]. split; [done|]. split; [done|]. split; [|done].
  unfold room. change (arr (Clear b)) with (arr b). cbn. lia.
Qed.

Lemma held_Write b s d : held k b s -> (length s + length d <= k)%nat ->
  exists b', Write b d = Ok (b', Z.of_nat (length d)) /\ held k b' (s ++ d).
Proof.
  intros [H Hl] Hd. destruct (buffer_writer_holds 0 None b s _ d H) as (b' & Hw & H'); [lia|].
  unfold buffer_writer in Hw. destruct H as (Hb & _ & Hr & _). destruct (Write_ok b d Hb) as (b'' & HW & _). rewrite HW in Hw. cbn in Hw.
  apply (inj Ok) in Hw. subst b''. exists b'. split; [rewrite HW; do 3 f_equal; lia|]. split; [|rewrite length_app; lia].
  rewrite length_app. by replace (k - (length s + length d))%nat with (k - length s - length d)%nat by lia.
Qed.

Lemma held_WriteByte b s x : held k b s -> (length s < k)%nat -> exists b', WriteByte b x = Ok b' /\ held k b' (s ++ [x]).
Proof.
  intros [H Hl] Hd. destruct (WriteByte_holds 0 None b s _ x H) as (b' & Hw & H'); [lia|]. exists b'. split; [done|].
  split; [|rewrite length_app; cbn; lia]. rewrite length_app. cbn [length]. by replace (k - (length s + 1))%nat with (k - length s - 1)%nat by lia.
Qed.

Lemma held_Extend b s d : held k b s -> (length s + length d <= k)%nat ->
  exists b1 lo hi, Extend b (Z.of_nat (length d)) = Ok (b1, (lo, hi)) /\ held k (set_array b1 (splice (Z.to_nat lo) d (arr b1))) (s ++ d).
Proof.
  intros [H Hl] Hd. destruct (Extend_holds 0 None b s _ d H) as (b1 & lo & hi & He & H'); [lia|]. exists b1, lo, hi. split; [done|].
  split; [|rewrite length_app; lia]. rewrite length_app. by replace (k - (length s + length d))%nat with (k - length s - length d)%nat by lia.
Qed.

Lemma held_Bytes b s : held k b s -> Bytes b = Ok s.
Proof. intros (Hb & Hc & _)%held_end. rewrite <-Hc. by apply Bytes_content. Qed.

Lemma held_Len b s : held k b s -> Len b = Z.of_nat (length s).
Proof. intros (Hb & Hc & _)%held_end. rewrite <-Hc. by apply Len_content. Qed.

Lemma held_Byte b s i x : held k b s -> 0 <= i -> s !! Z.to_nat i = Some x -> Byte b i = Ok x.
Proof. intros (Hb & <- & _)%held_end Hi Hx. rewrite <-(Z2Nat.id i) by done. by apply Byte_content. Qed.

Lemma held_BytesRange b s lo hi : held k b s -> 0 <= lo <= hi -> hi <= Z.of_nat (length s) ->
  BytesRange b lo hi = Ok (take (Z.to_nat (hi - lo)) (drop (Z.to_nat lo) s)).
Proof.
  intros H Hlo Hhi. destruct (held_end b s H) as (Hb & Hc & He & Hs & Ha). destruct H as [_ Hl]. unfold BytesRange, from_end.
  destruct (Z.ltb_spec lo 0); [lia|]. destruct (Z.ltb_spec hi 0); [lia|]. rewrite Hs, !i32_small, slice_of_ok by (unfold cap; lia).
  rewrite <-Hc. unfold content. rewrite Hs, He. cbn [Z.to_nat Z.add]. rewrite Nat.sub_0_r, drop_0, skipn_firstn_comm, take_take.
  do 2 f_equal. lia.
Qed.

Lemma held_Resize b s n : held k b s -> 0 <= n <= Z.of_nat (length s) -> exists b', Resize b 0 n = Ok b' /\ held k b' (take (Z.to_nat n) s).
Proof.
  intros H Hn. destruct (held_end b s H) as (Hb & Hc & He & Hs & Ha). destruct H as [(_ & _ & _ & _ & Hep & Hv) Hl].
  unfold Resize, from_end. destruct (Z.ltb_spec 0 0); [lia|]. destruct (Z.ltb_spec n 0); [lia|]. rewrite Hs, !i32_small, !Z.add_0_l by lia.
  destruct (Z.ltb_spec n 0); [lia|]. eexists. split; [done|]. pose proof Hb as [? ? ?]. split; [|rewrite length_take; lia].
  split; [split; unfold cap in *; change (arr (set_cursors _ _ _)) with (arr b); cbn [start end_ set_cursors]; lia|].
  split; [|split; [unfold room; change (arr (set_cursors _ _ _)) with (arr b); cbn [end_ set_cursors]; rewrite length_take; lia|done]].
  rewrite <-Hc. unfold content. cbn [start end_ set_cursors]. rewrite Hs, He. change (arr (set_cursors _ _ _)) with (arr b).
  cbn [Z.to_nat Z.add]. rewrite !Nat.sub_0_r, drop_0, take_take. f_equal. lia.
Qed.

Lemma held_IsFull b s : held k b s -> IsFull b = bool_decide (length s = k).
Proof.
  intros H. destruct (held_end b s H) as (Hb & Hc & He & Hs & Ha). unfold IsFull, cap. rewrite Ha, He, i32_small by lia.
  apply eq_true_iff_eq. rewrite Z.eqb_eq, bool_decide_eq_true. lia.
Qed.

Section Steps.
Context {E W : Type}.

(** Reading what has arrived. *)
Lemma read_into_ok b s x rest (w : W) n : held k b s -> length x = Z.to_nat n -> 0 <= n -> (length s + length x <= k)%nat ->
  exists b', read_into b n {| incoming := x ++ rest; writer := w |} = (@Ok (fail E) _ b', {| incoming := rest; writer := w |}) /\ held k b' (s ++ x).
Proof.
  intros [H Hl] Hx Hn Hs. pose proof H as (Hb & Hc & Hr & Hst & He & Hv). unfold read_into. cbn [incoming writer].
  pose proof (read_full_ok b (x ++ rest) (Z.to_nat n) Hb ltac:(lia)) as Hread. rewrite Z2Nat.id in Hread by done.
  rewrite decide_True in Hread by (rewrite length_app; lia). destruct Hread as (b' & Hrd & Hw' & Hc' & Hr'). rewrite Hrd.
  rewrite drop_app_length' by done. rewrite take_app_length' in Hc' by done. exists b'. split; [done|]. split; [|rewrite length_app; lia].
  split; [done|]. split; [by rewrite Hc', Hc|]. split; [rewrite length_app; lia|].
  unfold read_full, ReadFullFrom in Hrd. destruct (decide _); [done|]. destruct (slice_of _ _ _); [|done|done]. cbn [mbind outcome_bind] in Hrd.
  destruct (_ <? _)%nat; [done|]. apply (inj Ok) in Hrd. injection Hrd as <- _. cbn. split; [done|]. split; [done|]. by destruct (v b).
Qed.

(** Waiting for what has not. *)
Lemma read_into_short b s input (w : W) n : held k b s -> (length input < Z.to_nat n)%nat -> (length s + Z.to_nat n <= k)%nat -> 0 <= n ->
  read_into b n {| incoming := input; writer := w |} = (Err (@ErrReader E), {| incoming := input; writer := w |}).
Proof.
  intros [H Hl] Hx Hs Hn. pose proof H as (Hb & Hc & Hr & _). unfold read_into. cbn [incoming].
  pose proof (read_full_ok b input (Z.to_nat n) Hb ltac:(lia)) as Hread. rewrite Z2Nat.id in Hread by done.
  rewrite decide_False in Hread by lia. by rewrite Hread.
Qed.

Lemma put_address_port_pure p b s a port : family_ok (parser_of p) (Family a) -> addr_ok a -> held k b s -> (length s + length (enc_address_port p a port) <= k)%nat ->
  exists b', held k b' (s ++ enc_address_port p a port) /\ forall st : stream W, put_address_port p b (Some a) port st = (@Ok (fail E) _ b', st).
Proof.
  intros Hf Ha [H Hl] Hs. unfold put_address_port.
  destruct (WriteAddressPort_ok buffer_writer (holds 0 None) (buffer_writer_holds 0 None) p b s _ a port Hf Ha H) as (b' & Hw & H'); [lia|].
  rewrite Hw. exists b'. split; [|done]. split; [|rewrite length_app; lia]. rewrite length_app.
  by replace (k - (length s + length (enc_address_port p a port)))%nat with (k - length s - length (enc_address_port p a port))%nat by lia.
Qed.
End Steps.
End Held.

Lemma held_New g : length g = Z.to_nat Size -> held (Z.to_nat Size) (New g) [].
Proof. by apply held_array. Qed.

Lemma held_NewWithSize k g : Z.of_nat k < 2 ^ 31 -> length g = k -> held k (NewWithSize g) [].
Proof. intros Hk. by apply held_array. Qed.

(** ** Steps of a computation

    Each step of a handshake as an equation on the computation that it
    begins. *)

Section Binds.
Context (k : nat) (Hk : Z.of_nat k < 2 ^ 31) {E W B : Type}.
Implicit Types (f : Buffer -> io E W B) (st : stream W).

Lemma bind_read b s x rest n (w : W) : held k b s -> length x = Z.to_nat n -> 0 <= n -> (length s + length x <= k)%nat ->
  exists b', held k b' (s ++ x) /\ forall f, (read_into b n ≫= f) {| incoming := x ++ rest; writer := w |} = f b' {| incoming := rest; writer := w |}.
Proof.
  intros Hb Hx Hn Hs. destruct (read_into_ok (E := E) k b s x rest w n Hb Hx Hn Hs) as (b' & Hr & H'). exists b'. split; [done|]. intros f.
  by rewrite (io_bind_Ok _ _ _ _ _ Hr).
Qed.

Lemma bind_read_short b s input w n f : held k b s -> (length input < Z.to_nat n)%nat -> (length s + Z.to_nat n <= k)%nat -> 0 <= n ->
  (read_into b n ≫= f) {| incoming := input; writer := w |} = (Err ErrReader, {| incoming := input; writer := w |}).
Proof. intros. apply io_bind_Err. by eapply read_into_short. Qed.

Lemma bind_write b s d : held k b s -> (length s + length d <= k)%nat ->
  exists b', held k b' (s ++ d) /\ forall st (f : Buffer * Z -> io E W B), (pure (Write b d) ≫= f) st = f (b', Z.of_nat (length d)) st.
Proof.
  intros Hb Hd. destruct (held_Write k b s d Hb Hd) as (b' & Hw & H'). exists b'. split; [done|]. intros st f. by apply io_bind_pure.
Qed.

Lemma bind_write_byte b s x : held k b s -> (length s < k)%nat ->
  exists b', held k b' (s ++ [x]) /\ forall st f, (pure (WriteByte b x) ≫= f) st = f b' st.
Proof.
  intros Hb Hd. destruct (held_WriteByte k b s x Hb Hd) as (b' & Hw & H'). exists b'. split; [done|]. intros st f. by apply io_bind_pure.
Qed.

Lemma bind_checked_write b s d : held k b s -> (length s + length d <= k)%nat ->
  exists b', held k b' (s ++ d) /\ forall st (f : Buffer * Z -> io E W B), (checked (Write b d) ≫= f) st = f (b', Z.of_nat (length d)) st.
Proof.
  intros Hb Hd. destruct (held_Write k b s d Hb Hd) as (b' & Hw & H'). exists b'. split; [done|]. intros st f. by apply io_bind_checked.
Qed.

Lemma bind_checked_write_byte b s x : held k b s -> (length s < k)%nat ->
  exists b', held k b' (s ++ [x]) /\ forall st f, (checked (WriteByte b x) ≫= f) st = f b' st.
Proof.
  intros Hb Hd. destruct (held_WriteByte k b s x Hb Hd) as (b' & Hw & H'). exists b'. split; [done|]. intros st f. by apply io_bind_checked.
Qed.

Lemma bind_put16 b s port : held k b s -> (length s + 2 <= k)%nat ->
  exists b1 lo hi, held k (set_array b1 (splice (Z.to_nat lo) (put16 port) (arr b1))) (s ++ put16 port) /\
    forall st (f : Buffer * (Z * Z) -> io E W B), (pure (Extend b 2) ≫= f) st = f (b1, (lo, hi)) st.
Proof.
  intros Hb Hd. destruct (held_Extend k b s (put16 port) Hb) as (b1 & lo & hi & He & H'); [rewrite length_put16; lia|].
  exists b1, lo, hi. split; [done|]. intros st f. rewrite length_put16 in He. by apply io_bind_pure.
Qed.

Lemma bind_put_address_port p b s a port : family_ok (parser_of p) (Family a) -> addr_ok a -> held k b s ->
  (length s + length (enc_address_port p a port) <= k)%nat ->
  exists b', held k b' (s ++ enc_address_port p a port) /\ forall st f, (put_address_port p b (Some a) port ≫= f) st = f b' st.
Proof.
  intros Hf Ha Hb Hd. destruct (put_address_port_pure (E := E) (W := W) k p b s a port Hf Ha Hb Hd) as (b' & H' & Hw). exists b'. split; [done|].
  intros st f. by rewrite (io_bind_Ok _ _ _ _ _ (Hw st)).
Qed.

Lemma bind_bytes b s st (f : bytes -> io E W B) : held k b s -> (pure (Bytes b) ≫= f) st = f s st.
Proof. intros Hb. apply io_bind_pure. by apply held_Bytes with k. Qed.

Lemma bind_byte b s i x st (f : byte -> io E W B) : held k b s -> 0 <= i -> s !! Z.to_nat i = Some x -> (pure (Byte b i) ≫= f) st = f x st.
Proof. intros Hb Hi Hx. apply io_bind_pure. by apply held_Byte with k s. Qed.

Lemma bind_range b s lo hi st (f : bytes -> io E W B) : held k b s -> 0 <= lo <= hi -> hi <= Z.of_nat (length s) ->
  (pure (BytesRange b lo hi) ≫= f) st = f (take (Z.to_nat (hi - lo)) (drop (Z.to_nat lo) s)) st.
Proof. intros Hb Hlo Hhi. apply io_bind_pure. by eapply held_BytesRange. Qed.

Lemma bind_address g p a port rest w (f : option Address * Z -> io E W B) : length g = Z.to_nat Size ->
  family_ok (parser_of p) (Family a) -> addr_ok a -> 0 <= port < 2 ^ 16 ->
  (read_address_port g p None ≫= f) {| incoming := enc_address_port p a port ++ rest; writer := w |} = f (Some a, port) {| incoming := rest; writer := w |}.
Proof.
  intros Hg Hf Ha Hp. apply io_bind_Ok. unfold read_address_port. cbn [incoming writer]. by rewrite (ReadAddressPort_enc g p a port rest Hg Hf Ha Hp).
Qed.

Lemma bind_address_in g p b s a port rest w (f : option Address * Z -> io E W B) : held k b s -> (length s + 259 <= k)%nat ->
  family_ok (parser_of p) (Family a) -> addr_ok a -> 0 <= port < 2 ^ 16 ->
  (read_address_port g p (Some b) ≫= f) {| incoming := enc_address_port p a port ++ rest; writer := w |} = f (Some a, port) {| incoming := rest; writer := w |}.
Proof.
  intros [(Hb & _ & Hr & _) _] Hs Hf Ha Hp. apply io_bind_Ok. unfold read_address_port. cbn [incoming writer].
  rewrite (ReadAddressPort_enc_in g p (Some b) a port rest); [done|done| |done..]. change (default (New g) (Some b)) with b. lia.
Qed.
End Binds.

#[global] Arguments bind_read {k E W B b s x rest n w}.
#[global] Arguments bind_read_short {k E W B b s input w n f}.
#[global] Arguments bind_write {k E W B b s} d.
#[global] Arguments bind_write_byte {k E W B b s} x.
#[global] Arguments bind_checked_write {k E W B b s} d.
#[global] Arguments bind_checked_write_byte {k E W B b s} x.
#[global] Arguments bind_put16 {k E W B b s} port.
#[global] Arguments bind_put_address_port {k E W B p b s a port}.
#[global] Arguments bind_bytes {k E W B b s st f}.
#[global] Arguments bind_byte {k E W B b s i x st f}.
#[global] Arguments bind_range {k} _ {E W B b s lo hi st f}.

(** A held buffer after a step, in place of the one before it. *)
Tactic Notation "next" open_constr(lem) "as" ident(b) ident(Hb) := let He := fresh "He" in
  edestruct lem as (b & Hb & He); [..|erewrite He; clear He; cbv beta iota].

Lemma addr_port_len_ok p a port : addr_ok a -> addr_port_len (Some a) = Ok (Z.of_nat (length (enc_address_port p a port))).
Proof.
  intros Ha. assert (length (enc_address_port p a port) = length (enc_address (parser_of p) a) + 2)%nat as ->
    by (destruct p; cbn [enc_address_port parser_of]; rewrite length_app, length_put16; lia).
  unfold enc_address, addr_port_len. destruct a as [ip|ip|d]; cbn in Ha; [cbn [length app]; f_equal; lia|cbn [length app]; f_equal; lia|]. destruct Ha as (Hl & _).
  unfold IsDomainTooLong. destruct (Z.ltb_spec 255 (Z.of_nat (length d))); [lia|]. cbn [app length]. rewrite i32_small by lia. f_equal. lia.
Qed.

(** What the pool of larger arrays gives. *)
Definition allocates (alloc : Z -> bytes) : Prop := forall n, n < 2 ^ 31 -> n <= Z.of_nat (length (alloc n)) < 2 ^ 31.

Lemma held_alloc alloc n : allocates alloc -> n < 2 ^ 31 ->
  held (length (alloc n)) (NewWithSize (alloc n)) [] /\ n <= Z.of_nat (length (alloc n)) < 2 ^ 31.
Proof. intros Ha Hn. destruct (Ha n Hn). split; [by apply held_NewWithSize|done]. Qed.

(** ** Computations that never panic *)

(** Whatever the connection holds, [m] does not panic, and what it returns
    satisfies [P]. *)
Definition io_ok {E W A} (m : io E W A) (P : A -> Prop) : Prop :=
  forall st, match (m st).1 with Ok a => P a | Err _ => True | Panic => False end.

Section Safety.
Context {E W : Type}.

Lemma io_ok_bind {A B} (m : io E W A) (f : A -> io E W B) P Q : io_ok m P -> (forall a, P a -> io_ok (f a) Q) -> io_ok (m ≫= f) Q.
Proof.
  intros Hm Hf st. specialize (Hm st). unfold mbind, io_bind. destruct (m st) as [[a|e|] st']; cbn in *; [|done..]. by apply Hf.
Qed.

Lemma io_ok_mono {A} (m : io E W A) (P Q : A -> Prop) : io_ok m P -> (forall a, P a -> Q a) -> io_ok m Q.
Proof. intros Hm HPQ st. specialize (Hm st). destruct (m st).1; auto. Qed.

Lemma io_ok_ret {A} (a : A) (P : A -> Prop) : P a -> io_ok (mret a : io E W A) P.
Proof. by intros ? st. Qed.

Lemma io_ok_refuse {A} e (P : A -> Prop) : io_ok (refuse e : io E W A) P.
Proof. by intros st. Qed.

Lemma io_ok_fails {A} e (P : A -> Prop) : io_ok (fails e : io E W A) P.
Proof. by intros st. Qed.

Lemma io_ok_pure {A} (r : outcome unit A) a (P : A -> Prop) : r = Ok a -> P a -> io_ok (pure r : io E W A) P.
Proof. by intros -> ? st. Qed.

Lemma io_ok_try {A} (m : io E W A) P : io_ok m P -> io_ok (try_ m) (fun _ => True).
Proof. intros Hm st. specialize (Hm st). unfold try_. by destruct (m st) as [[a|e|] st']. Qed.

Lemma io_ok_send write data : io_ok (send write data : io E W unit) (fun _ => True).
Proof. intros st. unfold send. by destruct (write _ _) as [w []]. Qed.

Lemma io_ok_WriteAllBytes write data : io_ok (WriteAllBytes write data : io E W unit) (fun _ => True).
Proof. destruct data; [by apply io_ok_ret|apply io_ok_send]. Qed.

Lemma io_ok_read_bytes n : io_ok (read_bytes n : io E W bytes) (fun x => length x = n).
Proof.
  intros st. unfold read_bytes. destruct (Nat.ltb_spec (length (incoming st)) n); [done|]. cbn. rewrite length_take. lia.
Qed.

Lemma io_ok_read k b s n : held k b s -> (length s + Z.to_nat n <= k)%nat -> 0 <= n ->
  io_ok (read_into b n : io E W Buffer) (fun b' => exists x, length x = Z.to_nat n /\ held k b' (s ++ x)).
Proof.
  intros Hb Hs Hn [i w]. destruct (Nat.ltb_spec (length i) (Z.to_nat n)).
  - by rewrite (read_into_short (E := E) k b s i w n Hb) by lia.
  - rewrite <-(take_drop (Z.to_nat n) i). assert (length (take (Z.to_nat n) i) = Z.to_nat n) as Hl by (rewrite length_take; lia).
    destruct (read_into_ok (E := E) k b s (take (Z.to_nat n) i) (drop (Z.to_nat n) i) w n Hb) as (b' & -> & Hb'); [lia..|].
    cbn. by exists (take (Z.to_nat n) i).
Qed.

Lemma io_ok_address g p : length g = Z.to_nat Size -> length (addrTypeMap (parser_of p)) = 16%nat ->
  io_ok (read_address_port g p None : io E W (option Address * Z)) (fun '(a, port) => (exists a', a = Some a' /\ well_formed a') /\ 0 <= port < 2 ^ 16).
Proof.
  intros Hg Hp st. unfold read_address_port. pose proof (ReadAddressPort_safe g p (incoming st) Hg Hp) as H.
  destruct (ReadAddressPort g p None (incoming st)) as [[[rest a] port]| |]; [|done|done]. cbn. tauto.
Qed.

Lemma io_ok_address_in g p k b s : held k b s -> (length s + 259 <= k)%nat -> length (addrTypeMap (parser_of p)) = 16%nat ->
  io_ok (read_address_port g p (Some b) : io E W (option Address * Z)) (fun '(a, port) => (exists a', a = Some a' /\ well_formed a') /\ 0 <= port < 2 ^ 16).
Proof.
  intros [(Hb & _ & Hr & _) _] Hs Hp st. unfold read_address_port. pose proof (ReadAddressPort_safe_in g p (Some b) (incoming st) Hb) as H.
  change (default (New g) (Some b)) with b in H. specialize (H ltac:(lia) Hp).
  destruct (ReadAddressPort g p (Some b) (incoming st)) as [[[rest a] port]| |]; [|done|done]. cbn. tauto.
Qed.
End Safety.

(** Writing without knowing the room. *)
Lemma held_Write_any k b s d : held k b s -> exists b' n s', Write b d = Ok (b', n) /\ held k b' s'.
Proof.
  intros Hb. pose proof Hb as [(Hw & _ & Hr & _) Hl]. destruct (decide (length d <= k - length s)%nat) as [Hd|Hd].
  - destruct (held_Write k b s d Hb) as (b' & HW & H'); [lia|]. eauto.
  - assert (Write b d = Write b (take (k - length s) d)) as He.
    { unfold Write. destruct (slice_of b (end_ b) (cap b)) as [x| |] eqn:Es; [|done|done]. cbn [mbind outcome_bind].
      unfold room in Hr. rewrite Hr, length_take, Nat.min_assoc, Nat.min_id, take_take.
      by replace (Nat.min (Nat.min (k - length s) (length d)) (k - length s)) with (Nat.min (k - length s) (length d)) by lia. }
    destruct (held_Write k b s (take (k - length s) d) Hb) as (b' & HW & H'); [rewrite length_take; lia|]. rewrite <-He in HW. eauto.
Qed.

Lemma io_ok_put_address {E W} k p b s a port : (forall f, exists tb, addrByteMap (parser_of p) !! family_byte f = Some tb) -> held k b s ->
  io_ok (put_address_port p b (Some a) port : io E W Buffer) (fun b' => exists s', held k b' s').
Proof.
  intros Hp Hb st. unfold put_address_port. cbn [fst].
  assert (forall b s d, held k b s -> exists b' s', buffer_writer b d = Ok b' /\ held k b' s') as Hwr.
  { intros b0 s0 d H0. destruct (held_Write_any k b0 s0 d H0) as (b' & n & s' & HW & H'). unfold buffer_writer. rewrite HW. cbn. eauto. }
  assert (forall b s, held k b s -> match writeAddress buffer_writer (parser_of p) b (Some a) with Ok b' => exists s', held k b' s' | Err _ => True | Panic => False end) as Ha.
  { intros b0 s0 H0. unfold writeAddress. destruct (Hp (Family a)) as [tb ->]. case_bool_decide; [done|].
    assert (forall h d, match (w ← buffer_writer b0 h; buffer_writer w d) with Ok b' => exists s', held k b' s' | Err _ => True | Panic => False end) as Htwo.
    { intros h d. destruct (Hwr b0 s0 h H0) as (b1 & s1 & -> & H1). cbn [mbind outcome_bind]. destruct (Hwr b1 s1 d H1) as (b2 & s2 & -> & H2). eauto. }
    destruct a as [ip|ip|d]; [apply Htwo..|]. destruct (IsDomainTooLong d); [done|apply Htwo]. }
  destruct p as [ap|ap]; cbn [WriteAddressPort parser_of] in *; unfold portFirst_WriteAddressPort, portLast_WriteAddressPort, writePort.
  - destruct (Hwr b s (put16 port) Hb) as (b1 & s1 & -> & H1). cbn [mbind outcome_bind]. specialize (Ha b1 s1 H1). by destruct (writeAddress buffer_writer ap b1 (Some a)).
  - specialize (Ha b s Hb). destruct (writeAddress buffer_writer ap b (Some a)) as [b1| |]; [|done|done]. destruct Ha as [s1 H1]. cbn [mbind outcome_bind].
    destruct (Hwr b1 s1 (put16 port) H1) as (b2 & s2 & -> & H2). eauto.
Qed.

(** The server's first read, of what has arrived: at most what the buffer
    holds. *)
Lemma first_read array chunk (input : bytes) : Z.of_nat (length array) < 2 ^ 31 ->
  exists first, ReadFrom (Clear (FromBytes array)) (fun n => (take (Nat.min n chunk) input, bool_decide (input = []))) =
      Ok (first, Z.of_nat (length (content first)), bool_decide (input = [])) /\ wf first /\ content first = take (Nat.min (length array) chunk) input.
Proof.
  intros Harr. destruct (wf_FromBytes array Harr) as [Hw0 _]. destruct (wf_Clear _ Hw0) as [Hw Hc].
  assert (room (Clear (FromBytes array)) = length array) as Hroom by (unfold room; cbn; lia).
  edestruct (ReadFrom_some (Clear (FromBytes array)) (fun n => (take (Nat.min n chunk) input, bool_decide (input = [])))) as (b & Hr & Hb & Hct);
    [exact Hw|reflexivity|rewrite length_take; lia|].
  rewrite Hc, Hroom in Hct. cbn [app] in Hct. rewrite Hroom, <-Hct in Hr. exists b. exact (conj Hr (conj Hb Hct)).
Qed.

(** ** Fixed numbers of bytes *)

Lemma bind_read_bytes {E W B} n x rest (w : W) (f : bytes -> io E W B) : length x = n ->
  (read_bytes n ≫= f) {| incoming := x ++ rest; writer := w |} = f x {| incoming := rest; writer := w |}.
Proof.
  intros <-. apply io_bind_Ok. unfold read_bytes. cbn [incoming writer]. destruct (Nat.ltb_spec (length (x ++ rest)) (length x)); [rewrite length_app in *; lia|].
  by rewrite take_app_length, drop_app_length.
Qed.

(** A length on two bytes. *)
Lemma put16_bytes n : put16 n = [byte_of_Z (Z.shiftr n 8); byte_of_Z n].
Proof. reflexivity. Qed.

Lemma lor_put16 n : 0 <= n < 2 ^ 16 -> Z.lor (Z.shiftl (byte_to_Z (byte_of_Z (Z.shiftr n 8))) 8) (byte_to_Z (byte_of_Z n)) = n.
Proof.
  intros Hn. pose proof (get16_put16 n []) as H. rewrite u16_small in H by done. rewrite app_nil_r, put16_bytes in H. unfold get16 in H. cbn [take] in H.
  by rewrite (be_combine_snoc [_] _ : be_combine [byte_of_Z (Z.shiftr n 8); byte_of_Z n] = _) in H.
Qed.
