(* ===== verification/Socks.v ===== *)
(** * SOCKS, [proxy/socks/]

    Versions 4, 4a and 5: the server's and the client's handshakes, the
    answer the server may keep back until the connection is dispatched, and
    the packets of the UDP relay. *)

From S2P Require Import Prelude Net NetText Segment Buffer AddressCodec Handshake.

Local Open Scope Z_scope.

(** ** Constants, accounts and configuration *)

(** src/proxy/socks/protocol.go:14-40 socks5Version *)
Definition socks5Version : byte := x05.
Definition socks4Version : byte := x04.
Definition cmdTCPConnect : byte := x01.
Definition cmdTCPBind : byte := x02.
Definition cmdUDPAssociate : byte := x03.
Definition cmdTorResolve : byte := xf0.
Definition cmdTorResolvePTR : byte := xf1.
Definition socks4RequestGranted : byte := x5a.
Definition socks4RequestRejected : byte := x5b.
Definition authNotRequired : byte := x00.
Definition authPassword : byte := x02.
Definition authNoMatchingMethod : byte := xff.
Definition statusSuccess : byte := x00.
Definition statusConnRefused : byte := x05.
Definition statusCmdNotSupport : byte := x07.

(** src/proxy/socks/protocol.go:42-46 addrParser *)
Definition addrParser : AddressSerializer :=
  NewAddressParser (omap (fun o => match o with Ok f => Some f | _ => None end)
    [AddressFamilyByte x01 AddressFamilyIPv4; AddressFamilyByte x04 AddressFamilyIPv6; AddressFamilyByte x03 AddressFamilyDomain]).

(** src/proxy/socks/config.pb.go:119-125 Account *)
Record Account_ := { Username : bytes; Password : bytes }.

Definition RequestHeader_ := RequestHeader Account_.

(** src/proxy/socks/config.pb.go:21-28 AuthType *)
Inductive AuthType := AuthType_NO_AUTH | AuthType_PASSWORD.

#[export] Instance AuthType_eq_dec : EqDecision AuthType.
Proof. solve_decision. Defined.

(** The address is a nil message or one with an address in it; the user level
    is the policy's.
    src/proxy/socks/config.pb.go:172-182 ServerConfig *)
Record ServerConfig := {
  c_AuthType : AuthType; c_Accounts : option (gmap bytes bytes); c_Address : option IPOrDomain;
  c_UdpEnabled : bool; c_DeferLastReply : bool
}.

(** src/proxy/socks/config.go ServerConfig.HasAccount *)
Definition HasAccount (c : ServerConfig) (username password : bytes) : bool :=
  match c_Accounts c with
  | None => false
  | Some accounts =>
      match accounts !! username with
      | None => false
      | Some storedPassed => bool_decide (storedPassed = password)
      end
  end.

(** src/proxy/socks/config.go Account.Equals *)
Definition account_Equals (a b : Account_) : bool := bool_decide (Username a = Username b).

(** The answer a callback would give, once.
    src/proxy/socks/protocol.go:48-54 ServerSession *)
Inductive last_reply :=
  | no_reply
  | reply4
  | reply5 (responseAddress : option Address) (responsePort : Z).

(** [flushLastReply] is not a field here: it is passed along.
    src/proxy/socks/protocol.go ServerSession *)
Record ServerSession := { s_config : ServerConfig; s_address : option Address; s_port : Z; s_clientAddress : option Address }.

Inductive socks_error :=
  | errSocks4Auth | errUnsupportedCommand | errNoAuthMethod | errBadAccount
  | errUDPDisabled | errTCPBind | errUnknownCommand | errUnknownVersion | errBufferOverrun
  | errServerVersion | errAuthNotSupported | errLongUsername | errLongPassword
  | errAccountRejected | errRequestRejected | errIPv6 | errShortPacket | errFragment.

(** src/common/net/address.go:13-25 LocalHostIP *)
Definition LocalHostIP : option Address := IPAddress [x7f; x00; x00; x01].
Definition LocalHostIPv6 : option Address := IPAddress (zero_bytes 15 ++ [x01]).

(** src/proxy/socks/protocol.go hasAuthMethod *)
Definition hasAuthMethod (expectedAuth : byte) (authCandidates : bytes) : bool :=
  existsb (fun a => bool_decide (a = expectedAuth)) authCandidates.

(** [garbage] is the array of any buffer taken from the pool. *)
Section Handshakes.
Context {W : Type} (write : W -> bytes -> W * bool) (garbage : bytes).
Abbreviation M := (io socks_error W).

(** ** Answers *)

(** src/proxy/socks/protocol.go writeSocks5AuthenticationResponse *)
Definition writeSocks5AuthenticationResponse (version auth : byte) : M unit := WriteAllBytes write [version; auth].

(** src/proxy/socks/protocol.go writeSocks5Response *)
Definition writeSocks5Response (errCode : byte) (address : option Address) (port : Z) : M unit :=
  '(buffer, _) ← pure (Write (New garbage) [socks5Version; errCode; x00]);
  buffer ← put_address_port addrParser buffer address port;
  data ← pure (Bytes buffer);
  WriteAllBytes write data.

(** src/proxy/socks/protocol.go writeSocks4Response *)
Definition writeSocks4Response (errCode : byte) (address : option Address) (port : Z) : M unit :=
  buffer ← pure (WriteByte (StackNew garbage) x00);
  buffer ← pure (WriteByte buffer errCode);
  '(buffer, (lo, _)) ← pure (Extend buffer 2);
  let buffer := set_array buffer (splice (Z.to_nat lo) (put16 port) (arr buffer)) in
  ip ← pure (match address with Some a => match IP a with Some ip => Ok ip | None => Panic end | None => Panic end);
  '(buffer, _) ← pure (Write buffer ip);
  data ← pure (Bytes buffer);
  WriteAllBytes write data.

(** The callbacks the two handshakes set up.
    src/proxy/socks/protocol.go:90-98 ServerSession.handshake4 *)
Definition callback4 (ok : bool) : M unit :=
  writeSocks4Response (if ok then socks4RequestGranted else socks4RequestRejected) AnyIP 0.

(** src/proxy/socks/protocol.go:214-220 ServerSession.handshake5 *)
Definition callback5 (responseAddress : option Address) (responsePort : Z) (ok : bool) : M unit :=
  if ok then writeSocks5Response statusSuccess responseAddress responsePort
  else writeSocks5Response statusConnRefused AnyIP 0.

(** Whatever the callback does, it is replaced by one that does nothing.
    src/proxy/socks/protocol.go:229-237 ServerSession.setupLastReply *)
Definition flushLastReply (r : last_reply) (ok : bool) : M last_reply :=
  _ ← match r with
      | no_reply => mret tt
      | reply4 => callback4 ok
      | reply5 a p => callback5 a p ok
      end;
  mret no_reply.

(** src/proxy/socks/protocol.go ServerSession.setupLastReply *)
Definition setupLastReply (s : ServerSession) (r : last_reply) : M last_reply :=
  if c_DeferLastReply (s_config s) then mret r else flushLastReply r true.

(** ** Reading *)

(** Every turn reads a byte into the buffer, so its size is enough fuel.
    src/proxy/socks/protocol.go:313-325 ReadUntilNull *)
Fixpoint until_null (fuel : nat) (b : Buffer) : M bytes :=
  match fuel with
  | O => pure Panic
  | S fuel' =>
      b ← read_into b 1;
      c ← pure (Byte b (Len b - 1));
      if decide (c = x00) then
        b ← pure (Resize b 0 (Len b - 1));
        pure (String_ b)
      else if IsFull b then refuse errBufferOverrun
      else until_null fuel' b
  end.

(** src/proxy/socks/protocol.go ReadUntilNull *)
Definition ReadUntilNull : M bytes := until_null (S (length garbage)) (StackNew garbage).

(** src/proxy/socks/protocol.go ReadUsernamePassword *)
Definition ReadUsernamePassword : M (bytes * bytes) :=
  buffer ← read_into (StackNew garbage) 2;
  n ← pure (Byte buffer 1);
  buffer ← read_into (Clear buffer) (byte_to_Z n);
  username ← pure (String_ buffer);
  buffer ← read_into (Clear buffer) 1;
  n ← pure (Byte buffer 0);
  buffer ← read_into (Clear buffer) (byte_to_Z n);
  password ← pure (String_ buffer);
  mret (username, password).

(** ** The server *)

(** src/proxy/socks/protocol.go ServerSession.handshake4 *)
Definition handshake4 (s : ServerSession) (cmd : byte) : M (RequestHeader_ * last_reply) :=
  if decide (c_AuthType (s_config s) = AuthType_PASSWORD) then
    _ ← try_ (writeSocks4Response socks4RequestRejected AnyIP 0);
    refuse errSocks4Auth
  else
    buffer ← read_into (StackNew garbage) 6;
    p ← pure (BytesRange buffer 0 2);
    ip ← pure (BytesRange buffer 2 6);
    _ ← ReadUntilNull;
    address ← match ip with
              | [] => pure Panic
              | c :: _ => if decide (c = x00) then domain ← ReadUntilNull; mret (ParseAddress domain) else mret (IPAddress ip)
              end;
    if decide (cmd = cmdTCPConnect) then
      let request := {| h_Version := socks4Version; h_Command := RequestCommandTCP; h_Port := PortFromBytes p;
                        h_Address := address; h_User := None |} in
      r ← setupLastReply s reply4;
      mret (request, r)
    else
      _ ← try_ (writeSocks4Response socks4RequestRejected AnyIP 0);
      refuse errUnsupportedCommand.

(** src/proxy/socks/protocol.go ServerSession.auth5 *)
Definition auth5 (s : ServerSession) (nMethod : byte) : M bytes :=
  buffer ← read_into (StackNew garbage) (byte_to_Z nMethod);
  let expectedAuth := if decide (c_AuthType (s_config s) = AuthType_PASSWORD) then authPassword else authNotRequired in
  methods ← pure (BytesRange buffer 0 (byte_to_Z nMethod));
  if negb (hasAuthMethod expectedAuth methods) then
    _ ← try_ (writeSocks5AuthenticationResponse socks5Version authNoMatchingMethod);
    refuse errNoAuthMethod
  else
    _ ← writeSocks5AuthenticationResponse socks5Version expectedAuth;
    if decide (expectedAuth = authPassword) then
      '(username, password) ← ReadUsernamePassword;
      if negb (HasAccount (s_config s) username password) then
        _ ← try_ (writeSocks5AuthenticationResponse x01 xff);
        refuse errBadAccount
      else
        _ ← writeSocks5AuthenticationResponse x01 x00;
        mret username
    else mret [].

(** The command of the request, or the answer that refuses it.
    src/proxy/socks/protocol.go:172-188 ServerSession.handshake5 *)
Definition request_command (s : ServerSession) (cmd : byte) : M byte :=
  if decide (cmd = cmdTCPConnect) then mret RequestCommandTCP
  else if decide (cmd = cmdTorResolve) then mret RequestCommandTCP
  else if decide (cmd = cmdTorResolvePTR) then mret RequestCommandTCP
  else if decide (cmd = cmdUDPAssociate) then
    if negb (c_UdpEnabled (s_config s)) then _ ← try_ (writeSocks5Response statusCmdNotSupport AnyIP 0); refuse errUDPDisabled
    else mret RequestCommandUDP
  else if decide (cmd = cmdTCPBind) then _ ← try_ (writeSocks5Response statusCmdNotSupport AnyIP 0); refuse errTCPBind
  else _ ← try_ (writeSocks5Response statusCmdNotSupport AnyIP 0); refuse errUnknownCommand.

(** src/proxy/socks/protocol.go:199-213 ServerSession.handshake5 *)
Definition response_address (s : ServerSession) (command : byte) : outcome unit (option Address) :=
  if decide (command = RequestCommandUDP) then
    match c_Address (s_config s) with
    | Some a => AsAddress (Some a)
    | None =>
        if bool_decide (s_clientAddress s = LocalHostIP) || bool_decide (s_clientAddress s = LocalHostIPv6)
        then Ok (s_clientAddress s) else Ok (s_address s)
    end
  else Ok (s_address s).

(** src/proxy/socks/protocol.go ServerSession.handshake5 *)
Definition handshake5 (s : ServerSession) (nMethod : byte) : M (RequestHeader_ * last_reply) :=
  username ← auth5 s nMethod;
  buffer ← read_into (StackNew garbage) 3;
  cmd ← pure (Byte buffer 1);
  command ← request_command s cmd;
  '(addr, port) ← read_address_port garbage addrParser None;
  let request := {| h_Version := socks5Version; h_Command := command; h_Port := port; h_Address := addr;
                    h_User := match username with [] => None | _ => Some {| Account := None; Email := username; Level := 0 |} end |} in
  responseAddress ← pure (response_address s command);
  r ← setupLastReply s (reply5 responseAddress (s_port s));
  mret (request, r).

(** src/proxy/socks/protocol.go ServerSession.Handshake *)
Definition server_Handshake (s : ServerSession) : M (RequestHeader_ * last_reply) :=
  buffer ← read_into (StackNew garbage) 2;
  version ← pure (Byte buffer 0);
  cmd ← pure (Byte buffer 1);
  if decide (version = socks4Version) then handshake4 s cmd
  else if decide (version = socks5Version) then handshake5 s cmd
  else refuse errUnknownVersion.

(** What follows the handshake: a stream is dispatched, then answered; the
    link is closed again when the answer cannot be written. [dispatched] is
    whether the dispatcher gave a link; the result is whether it is kept.
    src/proxy/socks/server.go handshakeFinalizingDispatcher.Dispatch *)
Definition finalizing_Dispatch (r : last_reply) (dispatched : bool) : M bool :=
  if dispatched then _ ← flushLastReply r true; mret true
  else _ ← try_ (flushLastReply r false); mret false.

(** The decision after the handshake of a TCP connection; packets are read
    from another connection.
    src/proxy/socks/server.go:112-136 Server.processTCP *)
Definition after_handshake (request : RequestHeader_) (r : last_reply) (dispatched : bool) : M bool :=
  if decide (h_Command request = RequestCommandTCP) then finalizing_Dispatch r dispatched
  else _ ← flushLastReply r true; mret true.

(** The handshake, and the answer to it; the session has the inbound's own
    address and its client's. Deadlines and logging are left out.
    src/proxy/socks/server.go Server.processTCP *)
Definition processTCP (s : ServerSession) (dispatched : bool) : M (RequestHeader_ * bool) :=
  '(request, r) ← server_Handshake s;
  kept ← after_handshake request r dispatched;
  mret (request, kept).

(** ** The client *)

(** The user name and the password of the request's account.
    src/proxy/socks/protocol.go:564-582 ClientHandshake *)
Definition account_message (b : Buffer) (account : Account_) : M Buffer :=
  if 255 <? Z.of_nat (length (Username account)) then refuse errLongUsername
  else if 255 <? Z.of_nat (length (Password account)) then refuse errLongPassword
  else
    b ← pure (WriteByte b x01);
    b ← pure (WriteByte b (byte_of_Z (Z.of_nat (length (Username account)))));
    '(b, _) ← pure (WriteString b (Username account));
    b ← pure (WriteByte b (byte_of_Z (Z.of_nat (length (Password account)))));
    '(b, _) ← pure (WriteString b (Password account));
    mret b.

(** The greeting and the authentication. [user] is the request's.
    src/proxy/socks/protocol.go:537-593 ClientHandshake *)
Definition client_auth (b : Buffer) (user : option (MemoryUser Account_)) : M Buffer :=
  let authByte := if user then authPassword else authNotRequired in
  '(b, _) ← pure (Write b [socks5Version; x01; authByte]);
  data ← pure (Bytes b);
  _ ← WriteAllBytes write data;
  b ← read_into (Clear b) 2;
  version ← pure (Byte b 0);
  if decide (version ≠ socks5Version) then refuse errServerVersion
  else
    method ← pure (Byte b 1);
    if decide (method ≠ authByte) then refuse errAuthNotSupported
    else
      match user with
      | None => mret b
      | Some u =>
          match Account u with
          | None => pure Panic
          | Some account =>
              b ← account_message (Clear b) account;
              data ← pure (Bytes b);
              _ ← WriteAllBytes write data;
              b ← read_into (Clear b) 2;
              status ← pure (Byte b 1);
              if decide (status ≠ x00) then refuse errAccountRejected else mret b
          end
      end.

(** The request.
    src/proxy/socks/protocol.go:595-618 ClientHandshake *)
Definition client_ask (b : Buffer) (request : RequestHeader_) : M Buffer :=
  let command := if decide (h_Command request = RequestCommandUDP) then cmdUDPAssociate else cmdTCPConnect in
  '(b, _) ← pure (Write (Clear b) [socks5Version; command; x00]);
  b ← (if decide (h_Command request = RequestCommandUDP) then put_address_port addrParser b AnyIP 0
       else put_address_port addrParser b (h_Address request) (h_Port request));
  data ← pure (Bytes b);
  _ ← WriteAllBytes write data;
  mret b.

(** The answer to it.
    src/proxy/socks/protocol.go:620-647 ClientHandshake *)
Definition client_answer (b : Buffer) (request : RequestHeader_) : M (option RequestHeader_) :=
  b ← read_into (Clear b) 3;
  resp ← pure (Byte b 1);
  if decide (resp ≠ x00) then refuse errRequestRejected
  else
    '(address, port) ← read_address_port garbage addrParser (Some (Clear b));
    mret (if decide (h_Command request = RequestCommandUDP) then
            Some {| h_Version := socks5Version; h_Command := RequestCommandUDP; h_Port := port; h_Address := address; h_User := None |}
          else None).

(** src/proxy/socks/protocol.go ClientHandshake *)
Definition ClientHandshake (request : RequestHeader_) : M (option RequestHeader_) :=
  b ← client_auth (New garbage) (h_User request);
  b ← client_ask b request;
  client_answer b request.

(** src/proxy/socks/protocol.go ClientHandshake4 *)
Definition ClientHandshake4 (request : RequestHeader_) : M unit :=
  '(b, _) ← pure (Write (New garbage) [socks4Version; cmdTCPConnect]);
  '(b, (lo, _)) ← pure (Extend b 2);
  let b := set_array b (splice (Z.to_nat lo) (put16 (h_Port request)) (arr b)) in
  '(b, _) ← match h_Address request with
            | Some (ipv4Address ip) => pure (Write b ip)
            | Some (domainAddress _) => pure (Write b [x00; x00; x00; x01])
            | Some (ipv6Address _) => refuse errIPv6
            | None => pure Panic
            end;
  '(b, _) ← match h_User request with
            | None => mret (b, 0)
            | Some u => match Account u with Some account => pure (WriteString b (Username account)) | None => pure Panic end
            end;
  b ← pure (WriteByte b x00);
  b ← match h_Address request with
      | Some (domainAddress d) => '(b, _) ← pure (WriteString b d); pure (WriteByte b x00)
      | _ => mret b
      end;
  data ← pure (Bytes b);
  _ ← WriteAllBytes write data;
  b ← read_into (Clear b) 8;
  version ← pure (Byte b 0);
  if decide (version ≠ x00) then refuse errServerVersion
  else
    granted ← pure (Byte b 1);
    if decide (granted ≠ socks4RequestGranted) then refuse errRequestRejected else mret tt.
End Handshakes.

(** *** What the client asks for *)

(** src/proxy/socks/config.pb.go:69-75 Version *)
Inductive Version := Version_SOCKS5 | Version_SOCKS4 | Version_SOCKS4A.

#[export] Instance Version_eq_dec : EqDecision Version.
Proof. solve_decision. Defined.

(** src/common/net/uot/uot.go:26-29 MagicAddressV2 *)
Definition MagicAddressV2 : bytes := bs "sp.v2.udp-over-tcp.arpa".

Inductive client_error := errNoUDP | errNoIPv6 | errLookup | errEmptyResponse.

(** [lookup] is the DNS client's answer for IPv4 addresses.
    src/proxy/socks/client.go:95-120 Client.Process *)
Definition version_request (version : Version) (uot : bool) (lookup : bytes -> option (list bytes)) (destination : Destination)
    (request : RequestHeader_) : outcome client_error RequestHeader_ :=
  let ipv6 := match dest_Address destination with Some (ipv6Address _) => true | _ => false end in
  match version with
  | Version_SOCKS5 => Ok request
  | Version_SOCKS4 =>
      if decide (dest_Network destination = Network_UDP) then Err errNoUDP
      else if ipv6 : bool then Err errNoIPv6
      else
        match h_Address request with
        | Some (domainAddress d) =>
            match lookup d with
            | None => Err errLookup
            | Some [] => Err errEmptyResponse
            | Some (ip :: _) => Ok {| h_Version := h_Version request; h_Command := h_Command request; h_Port := h_Port request;
                                      h_Address := IPAddress ip; h_User := h_User request |}
            end
        | _ => Ok request
        end
  | Version_SOCKS4A =>
      if bool_decide (dest_Network destination = Network_UDP) && negb uot then Err errNoUDP
      else if ipv6 && bool_decide (dest_Network destination = Network_TCP) then Err errNoIPv6
      else Ok {| h_Version := socks4Version; h_Command := h_Command request; h_Port := h_Port request;
                 h_Address := h_Address request; h_User := h_User request |}
  end.

(** [user] is the one picked of the server's; a target without an address is
    refused before.
    src/proxy/socks/client.go:86-136 Client.Process *)
Definition client_request (version : Version) (uot : bool) (lookup : bytes -> option (list bytes)) (destination : Destination)
    (user : option (MemoryUser Account_)) : outcome client_error RequestHeader_ :=
  let request := {| h_Version := socks5Version; h_Command := RequestCommandTCP; h_Port := dest_Port destination;
                    h_Address := dest_Address destination; h_User := None |} in
  request ← version_request version uot lookup destination request;
  let request :=
    if decide (dest_Network destination = Network_UDP) then
      if uot : bool then {| h_Version := h_Version request; h_Command := RequestCommandTCP; h_Port := 0;
                            h_Address := Some (domainAddress MagicAddressV2); h_User := h_User request |}
      else {| h_Version := h_Version request; h_Command := RequestCommandUDP; h_Port := h_Port request;
              h_Address := h_Address request; h_User := h_User request |}
    else request in
  Ok {| h_Version := h_Version request; h_Command := h_Command request; h_Port := h_Port request; h_Address := h_Address request;
        h_User := match user with Some u => Some u | None => h_User request end |}.

(** The handshake of the request's version; [server] is the address dialed,
    used when the server's answer names none.
    src/proxy/socks/client.go:142-159 Client.Process *)
Definition client_handshake {W} (write : W -> bytes -> W * bool) (garbage : bytes) (server : option Address) (request : RequestHeader_) :
    io socks_error W (option RequestHeader_) :=
  if decide (h_Version request = socks4Version) then _ ← ClientHandshake4 write garbage request; mret None
  else
    r ← ClientHandshake write garbage request;
    mret match r with
         | Some u =>
             if bool_decide (h_Address u = AnyIP) || bool_decide (h_Address u = IPAddress (zero_bytes 16))
             then Some {| h_Version := h_Version u; h_Command := h_Command u; h_Port := h_Port u; h_Address := server; h_User := h_User u |}
             else Some u
         | None => None
         end.

(** ** Packets *)

Section Packets.
Context {W : Type} (garbage : bytes) (alloc : Z -> bytes).

(** [packet] as an [io.Reader]: what [Read] leaves when [n] bytes were taken. *)
Definition consume (packet : Buffer) (n : Z) : Buffer :=
  if n =? Len packet then Clear packet else set_cursors packet (i32 (start packet + n)) (end_ packet).

(** The request and what is left of the packet.
    src/proxy/socks/protocol.go DecodeUDPPacket *)
Definition DecodeUDPPacket (packet : Buffer) : outcome (fail socks_error) (RequestHeader_ * Buffer) :=
  if Len packet <? 5 then Err (ErrRefused errShortPacket)
  else
    match Byte packet 2 with
    | Panic | Err _ => Panic
    | Ok frag =>
        if decide (frag ≠ x00) then Err (ErrRefused errFragment)
        else
          let packet := Advance packet 3 in
          match Bytes packet with
          | Panic | Err _ => Panic
          | Ok data =>
              match ReadAddressPort garbage addrParser None data with
              | Panic => Panic
              | Err e => Err (ErrAddress e)
              | Ok (rest, addr, port) =>
                  Ok ({| h_Version := socks5Version; h_Command := RequestCommandUDP; h_Port := port; h_Address := addr; h_User := None |},
                      consume packet (Z.of_nat (length data) - Z.of_nat (length rest)))
              end
          end
    end.

(** [alloc n] is an array of at least [n] bytes.
    src/proxy/socks/protocol.go EncodeUDPPacketFromAddress *)
Definition EncodeUDPPacketFromAddress (address : Destination) (data : bytes) : io socks_error W Buffer :=
  addrPortLen ← (match addr_port_len (dest_Address address) with
                 | Ok n => mret n | Err _ => fails (ErrAddress ErrLongDomain) | Panic => pure Panic
                 end);
  '(b, _) ← pure (Write (NewWithSize (alloc (i32 (3 + addrPortLen + i32 (Z.of_nat (length data)))))) [x00; x00; x00]);
  b ← put_address_port addrParser b (dest_Address address) (dest_Port address);
  '(b, _) ← pure (Write b data);
  mret b.

(** The same body for a request's address.
    src/proxy/socks/protocol.go EncodeUDPPacket *)
Definition EncodeUDPPacket (request : RequestHeader_) (data : bytes) : io socks_error W Buffer :=
  addrPortLen ← (match addr_port_len (h_Address request) with
                 | Ok n => mret n | Err _ => fails (ErrAddress ErrLongDomain) | Panic => pure Panic
                 end);
  '(b, _) ← pure (Write (NewWithSize (alloc (i32 (3 + addrPortLen + i32 (Z.of_nat (length data)))))) [x00; x00; x00]);
  b ← put_address_port addrParser b (h_Address request) (h_Port request);
  '(b, _) ← pure (Write b data);
  mret b.

(** [packet] is what one read of the connection gives for a slice of the
    length it gets.
    src/proxy/socks/protocol.go UDPReader.ReadMultiBuffer *)
Definition UDPReader_ReadMultiBuffer (packet : nat -> bytes * bool) : outcome (fail socks_error) MultiBuffer :=
  match ReadFrom (New garbage) packet with
  | Panic => Panic
  | Err _ | Ok (_, _, true) => Err ErrReader
  | Ok (b, _, false) => '(req, b) ← DecodeUDPPacket b; Ok [set_endpoint b (Some (header_Destination req))]
  end.

(** A domain has no IP.
    src/proxy/socks/protocol.go UDPReader.ReadFrom *)
Definition UDPReader_ReadFrom (packet : nat -> bytes * bool) (n : nat) : outcome (fail socks_error) (bytes * (bytes * Z)) :=
  match ReadFrom (New garbage) packet with
  | Panic => Panic
  | Err _ | Ok (_, _, true) => Err ErrReader
  | Ok (b, _, false) =>
      '(req, b) ← DecodeUDPPacket b;
      match Bytes b, h_Address req ≫= IP with
      | Ok data, Some ip => Ok (take n data, (ip, h_Port req))
      | _, _ => Panic
      end
  end.

Context (write : W -> bytes -> W * bool).

(** src/proxy/socks/protocol.go UDPWriter.WriteMultiBuffer *)
Fixpoint UDPWriter_WriteMultiBuffer (request : RequestHeader_) (mb : MultiBuffer) : io socks_error W unit :=
  match mb with
  | [] => mret tt
  | b :: mb' =>
      let request' := match Endpoint b with
                      | Some e => {| h_Version := socks5Version; h_Command := RequestCommandUDP; h_Port := dest_Port e;
                                     h_Address := dest_Address e; h_User := None |}
                      | None => request
                      end in
      data ← pure (Bytes b);
      packet ← EncodeUDPPacket request' data;
      out ← pure (Bytes packet);
      _ ← send write out;
      UDPWriter_WriteMultiBuffer request mb'
  end.

(** src/proxy/socks/protocol.go UDPWriter.WriteTo *)
Definition UDPWriter_WriteTo (request : RequestHeader_) (payload : bytes) (ip : bytes) (port : Z) : io socks_error W Z :=
  packet ← EncodeUDPPacket {| h_Version := h_Version request; h_Command := RequestCommandUDP; h_Port := u16 port;
                              h_Address := IPAddress ip; h_User := h_User request |} payload;
  out ← pure (Bytes packet);
  _ ← send write out;
  mret (Z.of_nat (length payload)).

(** The answer to a client of the relay; the error of the encoder is logged,
    and the write then uses a nil buffer.
    src/proxy/socks/server.go:215-237 Server.handleUDPPayload *)
Definition udp_response (source : option Destination) (request : option RequestHeader_) (payload : bytes) : io socks_error W unit := fun s =>
  let packetSource := match source with
                      | Some d => d
                      | None => match request with
                                | Some r => UDPDestination (h_Address r) (h_Port r)
                                | None => {| dest_Address := None; dest_Port := 0; dest_Network := Network_Unknown |}
                                end
                      end in
  match EncodeUDPPacketFromAddress packetSource payload s with
  | (Ok b, s) => (out ← pure (Bytes b); try_ (send write out)) s
  | (_, s) => (Panic, s)
  end.
End Packets.

(** What the relay does with a client's packets: those it cannot read and the
    empty ones are dropped.
    src/proxy/socks/server.go:250-275 Server.handleUDPPayload *)
Fixpoint relay_packets (garbage : bytes) (mb : MultiBuffer) : outcome unit (list (Destination * Buffer)) :=
  match mb with
  | [] => Ok []
  | payload :: mb' =>
      match DecodeUDPPacket garbage payload with
      | Panic => Panic
      | Err _ => relay_packets garbage mb'
      | Ok (request, payload) =>
          if IsEmpty payload then relay_packets garbage mb'
          else rest ← relay_packets garbage mb'; Ok ((header_Destination request, payload) :: rest)
      end
  end.
