(* ===== verification/SocksFacts.v ===== *)
(** * Facts about SOCKS

    The two ends of a SOCKS 5 and of a SOCKS 4a handshake understand each
    other; the client hears once whether its connection was dispatched; a
    server never panics; and the packets of the relay are read as written. *)

From S2P Require Import Prelude Net NetText Segment Buffer BufferFacts AddressCodec AddressCodecFacts Handshake Socks.

Local Open Scope Z_scope.

Lemma socks_parser_last : addrParser = portLastAddressParser (parser_of addrParser).
Proof. reflexivity. Qed.

Lemma socks_parser_knows f : family_ok (parser_of addrParser) f.
Proof.
  destruct f; [exists x01|exists x04|exists x03]; (split; [reflexivity|]; split; [discriminate|]; split; [vm_compute; reflexivity|reflexivity]).
Qed.

#[local] Hint Resolve socks_parser_knows : go.

Lemma AnyIP_ok : exists a, AnyIP = Some a /\ addr_ok a.
Proof. exists (ipv4Address [x00; x00; x00; x00]). by split. Qed.

(** ** Messages *)

Definition msg_greeting (auth : byte) : bytes := [socks5Version; x01; auth].
Definition msg_choice (auth : byte) : bytes := [socks5Version; auth].
Definition msg_account (a : Account_) : bytes :=
  [x01; byte_of_Z (Z.of_nat (length (Username a)))] ++ Username a ++ [byte_of_Z (Z.of_nat (length (Password a)))] ++ Password a.
Definition msg_status (s : byte) : bytes := [x01; s].
Definition msg_address (code : byte) (a : Address) (port : Z) : bytes := [socks5Version; code; x00] ++ enc_address_port addrParser a port.

Definition account_ok (a : Account_) : Prop := (length (Username a) <= 255)%nat /\ (length (Password a) <= 255)%nat.

Section Runs.
Context (g : bytes) (Hg : length g = Z.to_nat Size).
Abbreviation K := (Z.to_nat Size).

#[local] Hint Resolve K_small : core.

(** Sides of steps: lengths of the buffer's content. *)
Ltac fits := pose proof K_large; unfold msg_choice, msg_greeting, msg_status; rewrite ?length_app; cbn [length]; lia.

Definition auth_of (user : option (MemoryUser Account_)) : byte := if user then authPassword else authNotRequired.

(** *** The client *)

Lemma account_message_ok b a st : held K b [] -> account_ok a ->
  exists b', held K b' (msg_account a) /\ account_message (W := bytes) b a st = (Ok b', st).
Proof.
  intros Hb [Hu Hp]. unfold account_message.
  destruct (Z.ltb_spec 255 (Z.of_nat (length (Username a)))); [lia|]. destruct (Z.ltb_spec 255 (Z.of_nat (length (Password a)))); [lia|].
  next (bind_write_byte x01 Hb) as b1 H1; [fits|].
  next (bind_write_byte (byte_of_Z (Z.of_nat (length (Username a)))) H1) as b2 H2; [fits|].
  next (bind_write (Username a) H2) as b3 H3; [fits|].
  next (bind_write_byte (byte_of_Z (Z.of_nat (length (Password a)))) H3) as b4 H4; [fits|].
  next (bind_write (Password a) H4) as b5 H5; [fits|].
  exists b5. split; [|done]. unfold msg_account. by rewrite <-!app_assoc in H5.
Qed.
Definition user_ok (user : option (MemoryUser Account_)) : Prop :=
  match user with None => True | Some u => exists a, Account u = Some a /\ account_ok a end.

Definition msg_login (user : option (MemoryUser Account_)) : bytes :=
  match user with Some u => match Account u with Some a => msg_account a | None => [] end | None => [] end.

(** What the two ends of the authentication say. *)
Definition auth_requests (user : option (MemoryUser Account_)) : bytes := msg_greeting (auth_of user) ++ msg_login user.
Definition auth_replies (user : option (MemoryUser Account_)) : bytes := msg_choice (auth_of user) ++ (if user then msg_status x00 else []).

Lemma client_auth_silent b user w : held K b [] ->
  client_auth append b user {| incoming := []; writer := w |} = (Err ErrReader, {| incoming := []; writer := w ++ msg_greeting (auth_of user) |}).
Proof.
  intros Hb. unfold client_auth. fold (auth_of user). next (bind_write [socks5Version; x01; auth_of user] Hb) as b1 H1; [fits|].
  rewrite (bind_bytes H1), io_bind_WriteAllBytes. apply held_Clear in H1. by rewrite (bind_read_short H1) by fits.
Qed.

Lemma client_auth_waits b u a w : held K b [] -> Account u = Some a -> account_ok a ->
  client_auth append b (Some u) {| incoming := msg_choice authPassword; writer := w |} =
    (Err ErrReader, {| incoming := []; writer := w ++ auth_requests (Some u) |}).
Proof.
  intros Hb Hu Ha. unfold client_auth, auth_requests, msg_login. rewrite Hu. cbv zeta iota. next (bind_write [socks5Version; x01; authPassword] Hb) as b1 H1; [fits|].
  rewrite (bind_bytes H1), io_bind_WriteAllBytes. apply held_Clear in H1. rewrite <-(app_nil_r (msg_choice _)).
  next (bind_read (x := msg_choice authPassword) H1) as b2 H2; [done|done|fits|].
  rewrite (bind_byte (x := socks5Version) H2) by done. rewrite decide_False by (intros Hx; by apply Hx).
  rewrite (bind_byte (x := authPassword) H2) by done. rewrite decide_False by (intros Hx; by apply Hx).
  apply held_Clear in H2. destruct (account_message_ok (Clear b2) a {| incoming := []; writer := w ++ [] ++ [socks5Version; x01; authPassword] |} H2 Ha) as (b3 & H3 & He).
  rewrite (io_bind_Ok _ _ _ _ _ He), (bind_bytes H3), io_bind_WriteAllBytes. apply held_Clear in H3. rewrite (bind_read_short H3) by fits.
  by rewrite <-!app_assoc.
Qed.

Lemma client_auth_done b user i w : held K b [] -> user_ok user ->
  exists b' s, held K b' s /\ client_auth append b user {| incoming := auth_replies user ++ i; writer := w |} =
    (Ok b', {| incoming := i; writer := w ++ auth_requests user |}).
Proof.
  intros Hb Hu. unfold client_auth, auth_requests, auth_replies. fold (auth_of user). rewrite <-app_assoc. next (bind_write [socks5Version; x01; auth_of user] Hb) as b1 H1; [fits|].
  rewrite (bind_bytes H1), io_bind_WriteAllBytes. apply held_Clear in H1.
  next (bind_read (x := msg_choice (auth_of user)) H1) as b2 H2; [done|done|fits|].
  rewrite (bind_byte (x := socks5Version) H2) by done. rewrite decide_False by (intros Hx; by apply Hx).
  rewrite (bind_byte (x := auth_of user) H2) by done. rewrite decide_False by (intros Hx; by apply Hx).
  destruct user as [u|]; [|by eauto]. destruct Hu as (a & Ha & Hok). unfold msg_login. rewrite Ha.
  apply held_Clear in H2. destruct (account_message_ok (Clear b2) a {| incoming := msg_status x00 ++ i; writer := w ++ [] ++ [socks5Version; x01; authPassword] |} H2 Hok) as (b3 & H3 & He).
  change (auth_of (Some u)) with authPassword.
  rewrite (io_bind_Ok _ _ _ _ _ He), (bind_bytes H3), io_bind_WriteAllBytes. apply held_Clear in H3.
  next (bind_read (x := msg_status x00) H3) as b4 H4; [done|done|fits|]. rewrite (bind_byte (x := x00) H4) by done.
  rewrite decide_False by (intros Hx; by apply Hx). exists b4, (msg_status x00). split; [done|]. by rewrite <-!app_assoc.
Qed.

(** What the request asks for. *)
Definition asks (r : RequestHeader_) (cmd : byte) (a : Address) (port : Z) : Prop :=
  user_ok (h_User r) /\ addr_ok a /\ 0 <= port < 2 ^ 16 /\
  ((h_Command r = RequestCommandUDP /\ cmd = cmdUDPAssociate /\ AnyIP = Some a /\ port = 0) \/
   (h_Command r = RequestCommandTCP /\ cmd = cmdTCPConnect /\ h_Address r = Some a /\ port = h_Port r)).

Lemma client_ask_ok b s r cmd a port i w : held K b s -> asks r cmd a port ->
  exists b' s', held K b' s' /\ client_ask append b r {| incoming := i; writer := w |} = (Ok b', {| incoming := i; writer := w ++ msg_address cmd a port |}).
Proof.
  intros Hb (_ & Ha & Hp & Hcase). unfold client_ask. cbv zeta. apply held_Clear in Hb. pose proof (enc_address_port_length addrParser a port Ha).
  set (c := if decide (h_Command r = RequestCommandUDP) then cmdUDPAssociate else cmdTCPConnect).
  next (bind_write [socks5Version; c; x00] Hb) as b1 H1; [fits|].
  assert (c = cmd /\ (if decide (h_Command r = RequestCommandUDP) then put_address_port addrParser b1 AnyIP 0
    else put_address_port addrParser b1 (h_Address r) (h_Port r)) = put_address_port (E := socks_error) (W := bytes) addrParser b1 (Some a) port) as [Hc Hput].
  { unfold c. destruct Hcase as [(Hc & -> & -> & ->)|(Hc & -> & -> & ->)]; rewrite Hc; by case_decide. }
  rewrite Hput. next (bind_put_address_port (port := port) (socks_parser_knows (Family a)) Ha H1) as b2 H2; [fits|].
  rewrite (bind_bytes H2), io_bind_WriteAllBytes. eexists b2, _. split; [exact H2|]. by rewrite Hc.
Qed.

Lemma client_answer_ok b s r code a port i w : held K b s -> addr_ok a -> 0 <= port < 2 ^ 16 ->
  client_answer (W := bytes) g b r {| incoming := msg_address code a port ++ i; writer := w |} =
  if decide (code = x00) then
    (Ok (if decide (h_Command r = RequestCommandUDP) then
           Some {| h_Version := socks5Version; h_Command := RequestCommandUDP; h_Port := port; h_Address := Some a; h_User := None |} else None),
     {| incoming := i; writer := w |})
  else (Err (ErrRefused errRequestRejected), {| incoming := enc_address_port addrParser a port ++ i; writer := w |}).
Proof.
  intros Hb Ha Hp. unfold client_answer, msg_address. apply held_Clear in Hb. rewrite <-app_assoc.
  next (bind_read (x := [socks5Version; code; x00]) Hb) as b1 H1; [done|done|fits|]. rewrite (bind_byte (x := code) H1) by done.
  destruct (decide (code = x00)) as [->|Hne]; [|by rewrite decide_True].
  rewrite decide_False by (intros Hx; by apply Hx). apply held_Clear in H1.
  by rewrite (bind_address_in _ _ _ _ _ _ _ _ _ _ H1) by (done || apply socks_parser_knows || fits).
Qed.

(** What the client has said after each message of the server. *)
Lemma client_says_greeting r : says (ClientHandshake append g r) [] = msg_greeting (auth_of (h_User r)).
Proof.
  unfold says, ClientHandshake. by rewrite (io_bind_Err _ _ _ _ _ (client_auth_silent (New g) (h_User r) [] (held_New g Hg))).
Qed.

Lemma client_says_login r u a : h_User r = Some u -> Account u = Some a -> account_ok a ->
  says (ClientHandshake append g r) (msg_choice authPassword) = auth_requests (h_User r).
Proof.
  intros Hr Hu Ha. unfold says, ClientHandshake. rewrite Hr.
  by rewrite (io_bind_Err _ _ _ _ _ (client_auth_waits (New g) u a [] (held_New g Hg) Hu Ha)).
Qed.

Lemma client_says_request r cmd a port : asks r cmd a port ->
  says (ClientHandshake append g r) (auth_replies (h_User r)) = auth_requests (h_User r) ++ msg_address cmd a port.
Proof.
  intros Hr. unfold says, ClientHandshake, start_of. pose proof (held_New g Hg) as H0. rewrite <-(app_nil_r (auth_replies _)).
  destruct (client_auth_done (New g) (h_User r) [] [] H0 (proj1 Hr)) as (b1 & s1 & H1 & He). rewrite (io_bind_Ok _ _ _ _ _ He).
  destruct (client_ask_ok b1 s1 r cmd a port [] ([] ++ auth_requests (h_User r)) H1 Hr) as (b2 & s2 & H2 & He2). rewrite (io_bind_Ok _ _ _ _ _ He2).
  unfold client_answer. apply held_Clear in H2. by rewrite (bind_read_short H2) by fits.
Qed.

Lemma client_hears r cmd a port code ra rp i : asks r cmd a port -> addr_ok ra -> 0 <= rp < 2 ^ 16 ->
  ClientHandshake append g r (start_of (auth_replies (h_User r) ++ msg_address code ra rp ++ i)) =
  if decide (code = x00) then
    (Ok (if decide (h_Command r = RequestCommandUDP) then
           Some {| h_Version := socks5Version; h_Command := RequestCommandUDP; h_Port := rp; h_Address := Some ra; h_User := None |} else None),
     {| incoming := i; writer := auth_requests (h_User r) ++ msg_address cmd a port |})
  else (Err (ErrRefused errRequestRejected),
        {| incoming := enc_address_port addrParser ra rp ++ i; writer := auth_requests (h_User r) ++ msg_address cmd a port |}).
Proof.
  intros Hr Hra Hrp. unfold ClientHandshake, start_of. pose proof (held_New g Hg) as H0.
  destruct (client_auth_done (New g) (h_User r) (msg_address code ra rp ++ i) [] H0 (proj1 Hr)) as (b1 & s1 & H1 & He). rewrite (io_bind_Ok _ _ _ _ _ He).
  destruct (client_ask_ok b1 s1 r cmd a port (msg_address code ra rp ++ i) ([] ++ auth_requests (h_User r)) H1 Hr) as (b2 & s2 & H2 & He2). rewrite (io_bind_Ok _ _ _ _ _ He2).
  by apply (client_answer_ok b2 s2).
Qed.

(** *** The server *)
Lemma writeSocks5Response_ok code a port i w : addr_ok a ->
  writeSocks5Response append g code (Some a) port {| incoming := i; writer := w |} = (Ok tt, {| incoming := i; writer := w ++ msg_address code a port |}).
Proof.
  intros Ha. unfold writeSocks5Response. pose proof (enc_address_port_length addrParser a port Ha).
  next (bind_write [socks5Version; code; x00] (held_New g Hg)) as b1 H1; [fits|].
  next (bind_put_address_port (port := port) (socks_parser_knows (Family a)) Ha H1) as b2 H2; [fits|].
  rewrite (bind_bytes H2). done.
Qed.

Lemma ReadUsernamePassword_ok a i (w : bytes) : account_ok a ->
  ReadUsernamePassword g {| incoming := msg_account a ++ i; writer := w |} = (Ok (Username a, Password a), {| incoming := i; writer := w |}).
Proof.
  intros [Hu Hp]. unfold ReadUsernamePassword, msg_account. rewrite <-!app_assoc.
  next (bind_read (x := [x01; byte_of_Z (Z.of_nat (length (Username a)))]) (held_New g Hg)) as b1 H1; [done|done|fits|].
  rewrite (bind_byte (x := byte_of_Z (Z.of_nat (length (Username a)))) H1) by done. rewrite byte_to_of_Z. unfold u8. rewrite Z.mod_small by lia.
  apply held_Clear in H1. next (bind_read (x := Username a) H1) as b2 H2; [lia|lia|fits|].
  unfold String_ at 1. rewrite (bind_bytes H2). apply held_Clear in H2.
  next (bind_read (x := [byte_of_Z (Z.of_nat (length (Password a)))]) H2) as b3 H3; [done|done|fits|].
  rewrite (bind_byte (x := byte_of_Z (Z.of_nat (length (Password a)))) H3) by done. rewrite byte_to_of_Z. unfold u8. rewrite Z.mod_small by lia.
  apply held_Clear in H3. next (bind_read (x := Password a) H3) as b4 H4; [lia|lia|fits|].
  unfold String_. by rewrite (bind_bytes H4).
Qed.

(** The server's account settings suit the client's. *)
Definition auth_suits (s : ServerSession) (user : option (MemoryUser Account_)) : Prop :=
  match user with
  | None => c_AuthType (s_config s) = AuthType_NO_AUTH
  | Some u => c_AuthType (s_config s) = AuthType_PASSWORD /\ exists a, Account u = Some a /\ account_ok a /\ HasAccount (s_config s) (Username a) (Password a) = true
  end.

Definition user_name (user : option (MemoryUser Account_)) : bytes :=
  match user with Some u => match Account u with Some a => Username a | None => [] end | None => [] end.

Lemma auth_suits_user s user : auth_suits s user -> user_ok user.
Proof. destruct user as [u|]; [|done]. intros (_ & a & Ha & Hok & _). by exists a. Qed.

Lemma auth_suits_method s user : auth_suits s user ->
  (if decide (c_AuthType (s_config s) = AuthType_PASSWORD) then authPassword else authNotRequired) = auth_of user.
Proof. destruct user as [u|]; cbn; [by intros [-> _]|by intros ->]. Qed.

Lemma hasAuthMethod_one m : hasAuthMethod m [m] = true.
Proof. unfold hasAuthMethod. cbn. by rewrite bool_decide_true. Qed.

Lemma bind_auth_response {B} (f : unit -> io socks_error bytes B) version auth i w :
  (writeSocks5AuthenticationResponse append version auth ≫= f) {| incoming := i; writer := w |} =
  f tt {| incoming := i; writer := w ++ [version; auth] |}.
Proof. done. Qed.

Lemma auth5_done s user i w : auth_suits s user ->
  auth5 append g s x01 {| incoming := auth_of user :: msg_login user ++ i; writer := w |} =
    (Ok (user_name user), {| incoming := i; writer := w ++ auth_replies user |}).
Proof.
  intros Hs. unfold auth5. rewrite (auth_suits_method s user Hs). cbv zeta. change (byte_to_Z x01) with 1.
  change (auth_of user :: msg_login user ++ i) with ([auth_of user] ++ msg_login user ++ i).
  next (bind_read (x := [auth_of user]) (held_New g Hg)) as b1 H1; [done|done|fits|].
  rewrite (bind_range K_small H1) by (cbn; lia). change (take _ (drop _ ([] ++ [auth_of user]))) with [auth_of user]. rewrite hasAuthMethod_one. cbn [negb].
  rewrite bind_auth_response.
  destruct user as [u|]; cbn [auth_of user_name msg_login]; [|done]. destruct Hs as (Ht & a & Ha & Hok & Hacc). rewrite Ha. rewrite decide_True by done.
  rewrite (io_bind_Ok _ _ _ _ _ (ReadUsernamePassword_ok a i (w ++ [socks5Version; authPassword]) Hok)). rewrite Hacc. cbn [negb].
  rewrite bind_auth_response. by rewrite <-app_assoc.
Qed.

Lemma auth5_waits s u w : auth_suits s (Some u) ->
  auth5 append g s x01 {| incoming := [authPassword]; writer := w |} = (Err ErrReader, {| incoming := []; writer := w ++ msg_choice authPassword |}).
Proof.
  intros Hs. unfold auth5. rewrite (auth_suits_method s (Some u) Hs). cbv zeta. change (byte_to_Z x01) with 1. cbn [auth_of].
  change [authPassword] with ([authPassword] ++ []) at 1.
  next (bind_read (x := [authPassword]) (rest := []) (held_New g Hg)) as b1 H1; [done|done|fits|].
  rewrite (bind_range K_small H1) by (cbn; lia). change (take _ (drop _ ([] ++ [authPassword]))) with [authPassword]. rewrite hasAuthMethod_one. cbn [negb].
  rewrite bind_auth_response. rewrite decide_True by done.
  apply io_bind_Err. unfold ReadUsernamePassword. by rewrite (bind_read_short (held_New g Hg)) by fits.
Qed.

(** The server does what the request asks for. *)
Definition allows (s : ServerSession) (cmd command : byte) (ra : Address) : Prop :=
  (cmd = cmdTCPConnect /\ command = RequestCommandTCP \/ cmd = cmdUDPAssociate /\ command = RequestCommandUDP /\ c_UdpEnabled (s_config s) = true) /\
  response_address s command = Ok (Some ra) /\ addr_ok ra /\ 0 <= s_port s < 2 ^ 16.

Lemma request_command_ok s cmd command ra st : allows s cmd command ra -> request_command append g s cmd st = (Ok command, st).
Proof.
  intros [[[-> ->]|(-> & -> & Hu)] _]; unfold request_command; [done|]. do 3 (rewrite decide_False by discriminate).
  rewrite decide_True by done. by rewrite Hu.
Qed.

(** What the server has made of the request. *)
Definition understood (command : byte) (a : Address) (port : Z) (email : bytes) : RequestHeader_ :=
  {| h_Version := socks5Version; h_Command := command; h_Port := port; h_Address := Some a;
     h_User := match email with [] => None | _ => Some {| Account := None; Email := email; Level := 0 |} end |}.

(** The answer the client gets. *)
Definition says_refused (s : ServerSession) (command : byte) (dispatched : bool) : bool :=
  bool_decide (command = RequestCommandTCP) && c_DeferLastReply (s_config s) && negb dispatched.

Definition msg_answer (s : ServerSession) (command : byte) (ra : Address) (dispatched : bool) : bytes :=
  if says_refused s command dispatched then msg_address statusConnRefused (ipv4Address [x00; x00; x00; x00]) 0
  else msg_address statusSuccess ra (s_port s).

Lemma flush_reply5 ra rp ok i w : addr_ok ra ->
  flushLastReply append g (reply5 (Some ra) rp) ok {| incoming := i; writer := w |} =
    (Ok no_reply, {| incoming := i; writer := w ++ (if ok then msg_address statusSuccess ra rp else msg_address statusConnRefused (ipv4Address [x00; x00; x00; x00]) 0) |}).
Proof.
  intros Ha. unfold flushLastReply, callback5.
  destruct ok; erewrite io_bind_Ok; [|by apply writeSocks5Response_ok| |change AnyIP with (Some (ipv4Address [x00; x00; x00; x00])); by apply writeSocks5Response_ok]; done.
Qed.

(** Whether the last answer was kept back or not, it is given once. *)
Lemma after_handshake_ok command a port email r dispatched i w ra rp : addr_ok ra -> r = no_reply \/ r = reply5 (Some ra) rp ->
  command = RequestCommandTCP \/ command = RequestCommandUDP ->
  after_handshake append g (understood command a port email) r dispatched {| incoming := i; writer := w |} =
  (Ok (bool_decide (command = RequestCommandUDP) || dispatched), {| incoming := i; writer := w ++
     match r with
     | no_reply | reply4 => []
     | reply5 _ _ => if bool_decide (command = RequestCommandTCP) && negb dispatched
                     then msg_address statusConnRefused (ipv4Address [x00; x00; x00; x00]) 0 else msg_address statusSuccess ra rp
     end |}).
Proof.
  intros Hra Hr Hc. unfold after_handshake, finalizing_Dispatch. cbn [understood h_Command].
  assert (forall ok, flushLastReply append g r ok {| incoming := i; writer := w |} = (Ok no_reply, {| incoming := i; writer := w ++
     match r with
     | no_reply | reply4 => []
     | reply5 _ _ => if ok then msg_address statusSuccess ra rp else msg_address statusConnRefused (ipv4Address [x00; x00; x00; x00]) 0
     end |})) as Hf.
  { intros ok. destruct Hr as [-> | ->]; [|by apply flush_reply5]. unfold flushLastReply. rewrite io_bind_ret. by rewrite app_nil_r. }
  destruct Hc as [-> | ->].
  - rewrite decide_True by done. destruct dispatched; [by rewrite (io_bind_Ok _ _ _ _ _ (Hf true))|].
    erewrite io_bind_Ok; [|unfold try_; by rewrite Hf]. by destruct Hr as [-> | ->].
  - rewrite decide_False by discriminate. rewrite (io_bind_Ok _ _ _ _ _ (Hf true)). by destruct Hr as [-> | ->].
Qed.

Lemma answered s cmd command ra a port email dispatched i w : allows s cmd command ra ->
  (r ← setupLastReply append g s (reply5 (Some ra) (s_port s));
   kept ← after_handshake append g (understood command a port email) r dispatched;
   mret (understood command a port email, kept)) {| incoming := i; writer := w |} =
  (Ok (understood command a port email, bool_decide (command = RequestCommandUDP) || dispatched),
   {| incoming := i; writer := w ++ msg_answer s command ra dispatched |}).
Proof.
  intros (Hcmd & _ & Hra & _). unfold setupLastReply, msg_answer, says_refused.
  assert (command = RequestCommandTCP \/ command = RequestCommandUDP) as Hc by (destruct Hcmd as [[_ ->]|(_ & -> & _)]; auto).
  destruct (c_DeferLastReply (s_config s)); rewrite ?andb_true_r, ?andb_false_r.
  - rewrite io_bind_ret. by erewrite io_bind_Ok by (apply (after_handshake_ok command a port email _ dispatched i w ra (s_port s) Hra); auto).
  - rewrite (io_bind_Ok _ _ _ _ _ (flush_reply5 ra (s_port s) true i w Hra)).
    erewrite io_bind_Ok by (apply (after_handshake_ok command a port email no_reply dispatched i _ ra (s_port s) Hra); auto). by rewrite app_nil_r.
Qed.

Lemma processTCP_greeted s user dispatched i w : auth_suits s user ->
  processTCP append g s dispatched {| incoming := msg_greeting (auth_of user) ++ i; writer := w |} =
  ('(request, r) ← handshake5 append g s x01; kept ← after_handshake append g request r dispatched; mret (request, kept))
    {| incoming := auth_of user :: i; writer := w |}.
Proof.
  intros Hs. unfold processTCP. unfold mbind at 1 3, io_bind at 1 3. unfold server_Handshake.
  change (msg_greeting (auth_of user) ++ i) with ([socks5Version; x01] ++ auth_of user :: i).
  next (bind_read (x := [socks5Version; x01]) (held_New g Hg)) as b1 H1; [done|done|fits|].
  rewrite (bind_byte (x := socks5Version) H1) by done. rewrite (bind_byte (x := x01) H1) by done.
  rewrite decide_False by discriminate. by rewrite decide_True.
Qed.

Lemma server_silent s dispatched w : processTCP append g s dispatched {| incoming := []; writer := w |} = (Err ErrReader, {| incoming := []; writer := w |}).
Proof. unfold processTCP. apply io_bind_Err. unfold server_Handshake. by rewrite (bind_read_short (held_New g Hg)) by fits. Qed.

(** After the greeting: with a password the server waits for the account,
    without one it waits for the request. *)
Lemma server_says_choice s user dispatched : auth_suits s user ->
  says (processTCP append g s dispatched) (msg_greeting (auth_of user)) = msg_choice (auth_of user).
Proof.
  intros Hs. unfold says, start_of. rewrite <-(app_nil_r (msg_greeting _)), (processTCP_greeted s user) by done.
  destruct user as [u|].
  - rewrite (io_bind_Err _ _ _ ErrReader {| incoming := []; writer := [] ++ msg_choice authPassword |}); [done|].
    unfold handshake5. by rewrite (io_bind_Err _ _ _ _ _ (auth5_waits s u [] Hs)).
  - rewrite (io_bind_Err _ _ _ ErrReader {| incoming := []; writer := [] ++ auth_replies None |}); [done|].
    unfold handshake5. change [auth_of None] with (auth_of None :: msg_login None ++ []). rewrite (io_bind_Ok _ _ _ _ _ (auth5_done s None [] [] Hs)).
    by rewrite (bind_read_short (held_New g Hg)) by fits.
Qed.

Lemma server_says_status s user dispatched : auth_suits s user ->
  says (processTCP append g s dispatched) (auth_requests user) = auth_replies user.
Proof.
  intros Hs. unfold says, start_of, auth_requests. rewrite (processTCP_greeted s user) by done.
  rewrite (io_bind_Err _ _ _ ErrReader {| incoming := []; writer := [] ++ auth_replies user |}); [done|].
  unfold handshake5. rewrite <-(app_nil_r (msg_login user)). rewrite (io_bind_Ok _ _ _ _ _ (auth5_done s user [] [] Hs)).
  by rewrite (bind_read_short (held_New g Hg)) by fits.
Qed.

Lemma server_answers s user cmd command ra a port dispatched i : auth_suits s user -> allows s cmd command ra -> addr_ok a -> 0 <= port < 2 ^ 16 ->
  processTCP append g s dispatched (start_of (auth_requests user ++ msg_address cmd a port ++ i)) =
  (Ok (understood command a port (user_name user), bool_decide (command = RequestCommandUDP) || dispatched),
   {| incoming := i; writer := auth_replies user ++ msg_answer s command ra dispatched |}).
Proof.
  intros Hs Hallow Ha Hp. unfold start_of, auth_requests. rewrite <-!app_assoc, (processTCP_greeted s user) by done.
  pose proof (answered s cmd command ra a port (user_name user) dispatched i ([] ++ auth_replies user) Hallow) as Hans.
  unfold mbind at 1, io_bind at 1. unfold handshake5. rewrite (io_bind_Ok _ _ _ _ _ (auth5_done s user (msg_address cmd a port ++ i) [] Hs)).
  unfold msg_address at 1. rewrite <-app_assoc.
  next (bind_read (x := [socks5Version; cmd; x00]) (held_New g Hg)) as b1 H1; [done|done|fits|].
  rewrite (bind_byte (x := cmd) H1) by done. rewrite (io_bind_Ok _ _ _ _ _ (request_command_ok s cmd command ra _ Hallow)).
  rewrite bind_address by (done || apply socks_parser_knows). destruct Hallow as (_ & Hra & _). rewrite (io_bind_pure _ _ _ _ Hra).
  fold (understood command a port (user_name user)). revert Hans. unfold mbind, io_bind.
  destruct (setupLastReply append g s (reply5 (Some ra) (s_port s)) _) as [[r'| |] st']; done.
Qed.
(** *** Both *)

Lemma asks_command r s cmd command a port ra : asks r cmd a port -> allows s cmd command ra -> h_Command r = command.
Proof. intros (_ & _ & _ & [(-> & -> & _)|(-> & -> & _)]) [[[? ?]|(? & ? & _)] _]; by subst. Qed.

Lemma auth_suits_login s u : auth_suits s (Some u) -> exists a, Account u = Some a /\ account_ok a.
Proof. intros (_ & a & Ha & Hok & _). by exists a. Qed.

(** The last message is heard by the client. *)
Lemma client_concludes r s cmd command a port ra dispatched : asks r cmd a port -> allows s cmd command ra ->
  (ClientHandshake append g r (start_of (auth_replies (h_User r) ++ msg_answer s command ra dispatched))).1 =
  (if says_refused s command dispatched then Err (ErrRefused errRequestRejected)
   else Ok (if decide (command = RequestCommandUDP) then
              Some {| h_Version := socks5Version; h_Command := RequestCommandUDP; h_Port := s_port s; h_Address := Some ra; h_User := None |}
            else None)) /\
  says (ClientHandshake append g r) (auth_replies (h_User r) ++ msg_answer s command ra dispatched) = auth_requests (h_User r) ++ msg_address cmd a port.
Proof.
  intros Hr Hallow. pose proof (asks_command r s cmd command a port ra Hr Hallow) as Hcmd. destruct Hallow as (_ & _ & Hra & Hrp).
  unfold says, msg_answer. rewrite <-Hcmd. destruct (says_refused _ _ _).
  - pose proof (client_hears r cmd a port statusConnRefused (ipv4Address [x00; x00; x00; x00]) 0 [] Hr eq_refl ltac:(lia)) as Hh.
    rewrite app_nil_r in Hh. by rewrite Hh.
  - pose proof (client_hears r cmd a port statusSuccess ra (s_port s) [] Hr Hra Hrp) as Hh. rewrite app_nil_r in Hh. by rewrite Hh.
Qed.
Lemma talk_settles r s cmd command a port ra dispatched : asks r cmd a port -> auth_suits s (h_User r) -> allows s cmd command ra ->
  talk (ClientHandshake append g r) (processTCP append g s dispatched) 3 =
  (auth_requests (h_User r) ++ msg_address cmd a port, auth_replies (h_User r) ++ msg_answer s command ra dispatched).
Proof.
  intros Hr Hs Hallow. pose proof Hr as (_ & Ha & Hp & _). pose proof Hallow as (_ & _ & Hra & Hrp).
  assert (says (processTCP append g s dispatched) (auth_requests (h_User r) ++ msg_address cmd a port) =
    auth_replies (h_User r) ++ msg_answer s command ra dispatched) as Hanswer.
  { unfold says. rewrite <-(app_nil_r (msg_address _ _ _)). by rewrite (server_answers s (h_User r) cmd command ra a port dispatched []). }
  cbn [talk]. rewrite client_says_greeting, (server_says_choice s (h_User r) dispatched Hs).
  destruct (h_User r) as [u|] eqn:Hu.
  - destruct (auth_suits_login s u Hs) as (ac & Hac & Hok). cbn [auth_of].
    rewrite (client_says_login r u ac Hu Hac Hok), Hu, (server_says_status s (Some u) dispatched Hs).
    by rewrite <-Hu, (client_says_request r cmd a port Hr), Hu, Hanswer.
  - change (msg_choice (auth_of None)) with (auth_replies None). rewrite <-Hu, (client_says_request r cmd a port Hr), Hu, Hanswer.
    destruct (client_concludes r s cmd command a port ra dispatched Hr Hallow) as [_ Hc]. rewrite Hu in Hc. by rewrite Hc, Hanswer.
Qed.
End Runs.

(** ** The server never panics *)

Section Safe.
Context (g : bytes) (Hg : length g = Z.to_nat Size) {W : Type} (write : W -> bytes -> W * bool).
Abbreviation K := (Z.to_nat Size).
Abbreviation any := (fun _ => True).
#[local] Hint Resolve K_small io_ok_refuse io_ok_ret io_ok_WriteAllBytes : core.

Ltac fits := pose proof K_large; rewrite ?length_app; cbn [length]; lia.

Lemma socks_parser_writes f : exists tb, addrByteMap (parser_of addrParser) !! family_byte f = Some tb.
Proof. destruct f; by eexists. Qed.

Lemma safe_Response5 code a port : io_ok (writeSocks5Response write g code (Some a) port) any.
Proof.
  unfold writeSocks5Response. destruct (held_Write K (New g) [] [socks5Version; code; x00] (held_New g Hg)) as (b1 & Hw & H1); [fits|].
  eapply io_ok_bind with (P := fun p => p.1 = b1); [by eapply io_ok_pure|]. intros [b n] [= ->].
  eapply io_ok_bind; [eapply io_ok_put_address; [apply socks_parser_writes|exact H1]|]. intros b2 (s2 & H2).
  eapply io_ok_bind; [eapply (io_ok_pure _ s2 any); [by eapply held_Bytes|done]|]. intros d _. apply io_ok_WriteAllBytes.
Qed.

Lemma safe_Response4 code : io_ok (writeSocks4Response write g code AnyIP 0) any.
Proof.
  unfold writeSocks4Response. destruct (held_WriteByte K (New g) [] x00 (held_New g Hg)) as (b1 & Hw1 & H1); [fits|].
  eapply io_ok_bind with (P := fun b => b = b1); [by eapply io_ok_pure|]. intros b ->.
  destruct (held_WriteByte K b1 _ code H1) as (b2 & Hw2 & H2); [fits|]. eapply io_ok_bind with (P := fun b => b = b2); [by eapply io_ok_pure|]. intros b ->.
  destruct (held_Extend K b2 _ (put16 0) H2) as (b3 & lo & hi & Hw3 & H3); [rewrite length_put16; fits|].
  eapply io_ok_bind with (P := fun p => p = (b3, (lo, hi))); [by eapply io_ok_pure|]. intros [b [lo' hi']] [= -> -> ->]. cbv zeta.
  eapply io_ok_bind with (P := fun ip => ip = [x00; x00; x00; x00]); [by eapply io_ok_pure|]. intros ip ->.
  destruct (held_Write K _ _ [x00; x00; x00; x00] H3) as (b4 & Hw4 & H4); [rewrite !length_app, length_put16; fits|].
  eapply io_ok_bind with (P := fun p => p.1 = b4); [by eapply io_ok_pure|]. intros [b n] [= ->].
  eapply io_ok_bind; [eapply (io_ok_pure _ _ any); [by eapply held_Bytes|done]|]. intros d _. apply io_ok_WriteAllBytes.
Qed.

(** A reply that can be written. *)
Definition reply_ok (r : last_reply) : Prop := match r with reply5 a _ => a ≠ None | _ => True end.

Lemma safe_flush r ok : reply_ok r -> io_ok (flushLastReply write g r ok) (fun r' => r' = no_reply).
Proof.
  intros Hr. eapply (io_ok_bind _ _ any); [|by intros; apply io_ok_ret]. destruct r as [| |[a|] p]; [by apply io_ok_ret|apply safe_Response4| |done].
  unfold callback5. change AnyIP with (Some (ipv4Address [x00; x00; x00; x00])). destruct ok; apply safe_Response5.
Qed.

Lemma safe_setup s r : reply_ok r -> io_ok (setupLastReply write g s r) reply_ok.
Proof.
  intros Hr. unfold setupLastReply. destruct (c_DeferLastReply _); [by apply io_ok_ret|]. eapply io_ok_mono; [by apply safe_flush|]. by intros ? ->.
Qed.

Lemma safe_until_null fuel b s : held K b s -> (length s < K)%nat -> (K - length s < fuel)%nat -> io_ok (until_null (W := W) fuel b) any.
Proof.
  revert b s. induction fuel as [|fuel IH]; intros b s Hb Hs Hf; [lia|]. cbn [until_null].
  eapply io_ok_bind; [eapply (io_ok_read K b s 1 Hb); lia|]. intros b1 (x & Hx & H1). destruct x as [|c [|]]; try done.
  assert (Len b1 - 1 = Z.of_nat (length s)) as HL by (rewrite (held_Len _ _ _ H1), length_app; cbn [length]; lia). rewrite HL.
  eapply io_ok_bind with (P := fun c' => c' = c).
  { eapply io_ok_pure; [|done]. eapply held_Byte; [exact H1|lia|]. rewrite Nat2Z.id. by apply list_lookup_middle. }
  intros ? ->. case_decide.
  - destruct (held_Resize K K_small b1 _ (Z.of_nat (length s)) H1) as (b2 & Hr & H2); [rewrite length_app; lia|].
    eapply io_ok_bind with (P := fun b => b = b2); [by eapply io_ok_pure|]. intros ? ->. eapply io_ok_pure; [by eapply held_Bytes|done].
  - rewrite (held_IsFull K K_small _ _ H1). case_bool_decide as Hfull; [apply io_ok_refuse|]. pose proof H1 as [_ Hle]. rewrite length_app in Hfull, Hle. cbn [length] in *.
    apply (IH b1 (s ++ [c]) H1); rewrite length_app; cbn [length]; lia.
Qed.

Lemma safe_ReadUntilNull : io_ok (ReadUntilNull (W := W) g) any.
Proof. unfold ReadUntilNull. eapply (safe_until_null _ _ [] (held_New g Hg)); [fits|rewrite Hg; cbn [length]; lia]. Qed.

Lemma safe_byte k b s i (P : byte -> Prop) : held k b s -> 0 <= i -> (Z.to_nat i < length s)%nat -> (forall x, P x) -> io_ok (pure (Byte b i) : io socks_error W byte) P.
Proof.
  intros Hb Hi Hl HP. destruct (lookup_lt_is_Some_2 s (Z.to_nat i) Hl) as [x Hx]. eapply io_ok_pure; [by eapply held_Byte|apply HP].
Qed.

Lemma byte_nat_small n : (Z.to_nat (byte_to_Z n) < 256)%nat /\ 0 <= byte_to_Z n.
Proof. pose proof (byte_to_Z_range n). lia. Qed.

Lemma safe_ReadUsernamePassword : io_ok (ReadUsernamePassword (W := W) g) any.
Proof.
  unfold ReadUsernamePassword. eapply io_ok_bind; [eapply (io_ok_read K _ _ 2 (held_New g Hg)); fits|]. intros b1 (x1 & Hx1 & H1).
  eapply io_ok_bind; [eapply (safe_byte _ _ _ _ any H1); [lia|fits|done]|]. intros n _. destruct (byte_nat_small n) as [Hn1 Hn2].
  apply held_Clear in H1. eapply io_ok_bind; [eapply (io_ok_read K _ _ _ H1); fits|]. intros b2 (x2 & Hx2 & H2).
  eapply io_ok_bind; [eapply (io_ok_pure _ _ any); [by eapply held_Bytes|done]|]. intros u _.
  apply held_Clear in H2. eapply io_ok_bind; [eapply (io_ok_read K _ _ _ H2); fits|]. intros b3 (x3 & Hx3 & H3).
  eapply io_ok_bind; [eapply (safe_byte _ _ _ _ any H3); [lia|fits|done]|]. intros m _. destruct (byte_nat_small m) as [Hm1 Hm2].
  apply held_Clear in H3. eapply io_ok_bind; [eapply (io_ok_read K _ _ _ H3); fits|]. intros b4 (x4 & Hx4 & H4).
  eapply io_ok_bind; [eapply (io_ok_pure _ _ any); [by eapply held_Bytes|done]|]. intros p _. by apply io_ok_ret.
Qed.

(** The session has an answer to give. *)
Definition answerable (s : ServerSession) : Prop := forall command, exists a, response_address s command = Ok (Some a).

Definition request_ok (p : RequestHeader_ * last_reply) : Prop := h_Address p.1 ≠ None /\ 0 <= h_Port p.1 < 2 ^ 16 /\ reply_ok p.2.

Lemma ParseAddress_ok d : ParseAddress d ≠ None.
Proof. destruct (ParseAddress_some d) as (a & -> & _). done. Qed.

Lemma safe_handshake4 s cmd : io_ok (handshake4 write g s cmd) request_ok.
Proof.
  unfold handshake4. case_decide.
  { eapply io_ok_bind; [eapply io_ok_try, safe_Response4|]. intros; apply io_ok_refuse. }
  eapply io_ok_bind; [eapply (io_ok_read K _ _ 6 (held_New g Hg)); fits|]. intros b1 (x1 & Hx1 & H1).
  change (Z.to_nat 6) with 6%nat in Hx1. change ([] ++ x1) with x1 in H1.
  eapply io_ok_bind; [eapply (io_ok_pure _ _ any); [eapply (held_BytesRange K K_small _ _ _ _ H1); lia|done]|]. intros p _.
  eapply io_ok_bind with (P := fun ip => length ip = 4%nat).
  { eapply io_ok_pure; [eapply (held_BytesRange K K_small _ _ _ _ H1); lia|]. rewrite length_take, length_drop. lia. }
  intros ip Hip. eapply io_ok_bind; [apply safe_ReadUntilNull|]. intros _ _.
  eapply io_ok_bind with (P := fun a => a ≠ None).
  { destruct ip as [|c ip]; [done|]. case_decide; [|apply io_ok_ret; unfold IPAddress; by rewrite Hip].
    eapply io_ok_bind; [apply safe_ReadUntilNull|]. intros d _. apply io_ok_ret, ParseAddress_ok. }
  intros a Ha. case_decide; [|eapply io_ok_bind; [eapply io_ok_try, safe_Response4|]; intros; apply io_ok_refuse].
  cbv zeta. eapply io_ok_bind; [by apply (safe_setup s reply4)|]. intros r Hr. apply io_ok_ret. split; [done|]. split; [|done]. apply get16_range.
Qed.

Lemma safe_auth5 s n : io_ok (auth5 write g s n) any.
Proof.
  unfold auth5. destruct (byte_nat_small n) as [Hn1 Hn2]. eapply io_ok_bind; [eapply (io_ok_read K _ _ _ (held_New g Hg)); fits|]. intros b1 (x1 & Hx1 & H1).
  cbv zeta. eapply io_ok_bind; [eapply (io_ok_pure _ _ any); [eapply (held_BytesRange K K_small _ _ _ _ H1); fits|done]|]. intros ms _.
  destruct (negb _). { eapply io_ok_bind; [eapply io_ok_try, io_ok_WriteAllBytes|]. intros; apply io_ok_refuse. }
  eapply io_ok_bind; [apply io_ok_WriteAllBytes|]. intros _ _. case_decide; [|by apply io_ok_ret].
  eapply io_ok_bind; [apply safe_ReadUsernamePassword|]. intros [u p] _. destruct (negb _).
  { eapply io_ok_bind; [eapply io_ok_try, io_ok_WriteAllBytes|]. intros; apply io_ok_refuse. }
  eapply io_ok_bind; [apply io_ok_WriteAllBytes|]. intros _ _. by apply io_ok_ret.
Qed.

Lemma safe_request_command s cmd : io_ok (request_command write g s cmd) any.
Proof.
  assert (forall e, io_ok (_ ← try_ (writeSocks5Response write g statusCmdNotSupport AnyIP 0); refuse e : io socks_error W byte) any) as Hno.
  { intros e. change AnyIP with (Some (ipv4Address [x00; x00; x00; x00])). eapply io_ok_bind; [eapply io_ok_try, safe_Response5|]. intros; apply io_ok_refuse. }
  unfold request_command. repeat case_decide; try by apply io_ok_ret. 2, 3: apply Hno. destruct (negb _); [apply Hno|by apply io_ok_ret].
Qed.

Lemma safe_handshake5 s n : answerable s -> io_ok (handshake5 write g s n) request_ok.
Proof.
  intros Hs. unfold handshake5. eapply io_ok_bind; [apply safe_auth5|]. intros u _.
  eapply io_ok_bind; [eapply (io_ok_read K _ _ 3 (held_New g Hg)); fits|]. intros b1 (x1 & Hx1 & H1).
  eapply io_ok_bind; [eapply (safe_byte _ _ _ _ any H1); [lia|fits|done]|]. intros cmd _.
  eapply io_ok_bind; [apply safe_request_command|]. intros command _.
  eapply io_ok_bind; [by apply io_ok_address|]. intros [a port] ((a' & -> & _) & Hport).
  cbv zeta. destruct (Hs command) as [ra Hra]. eapply io_ok_bind with (P := fun x => x = Some ra); [by eapply io_ok_pure|]. intros ? ->.
  eapply io_ok_bind; [by apply (safe_setup s (reply5 (Some ra) (s_port s)))|]. intros r Hr. by apply io_ok_ret.
Qed.

Lemma safe_server_Handshake s : answerable s -> io_ok (server_Handshake write g s) request_ok.
Proof.
  intros Hs. unfold server_Handshake. eapply io_ok_bind; [eapply (io_ok_read K _ _ 2 (held_New g Hg)); fits|]. intros b1 (x1 & Hx1 & H1).
  eapply io_ok_bind; [eapply (safe_byte _ _ _ _ any H1); [lia|fits|done]|]. intros v _.
  eapply io_ok_bind; [eapply (safe_byte _ _ _ _ any H1); [lia|fits|done]|]. intros c _.
  case_decide; [apply safe_handshake4|]. case_decide; [by apply safe_handshake5|apply io_ok_refuse].
Qed.

Lemma safe_processTCP s dispatched : answerable s ->
  io_ok (processTCP write g s dispatched) (fun '(request, _) => h_Address request ≠ None /\ 0 <= h_Port request < 2 ^ 16).
Proof.
  intros Hs. unfold processTCP. eapply io_ok_bind; [by apply safe_server_Handshake|]. intros [request r] (Ha & Hp & Hr).
  eapply (io_ok_bind _ _ any); [|by intros; apply io_ok_ret]. unfold after_handshake, finalizing_Dispatch.
  repeat case_match; eapply io_ok_bind; try (intros; by apply io_ok_ret); try by apply safe_flush. by eapply io_ok_try, safe_flush.
Qed.
End Safe.

(** ** SOCKS 4a *)

Section Runs4.
Context (g : bytes) (Hg : length g = Z.to_nat Size).
Abbreviation K := (Z.to_nat Size).

Ltac fits := pose proof K_large; rewrite ?length_app, ?length_put16; cbn [length]; lia.

Definition name4 (r : RequestHeader_) : bytes := user_name (h_User r).

Definition msg_request4 (r : RequestHeader_) (a : Address) : bytes :=
  [socks4Version; cmdTCPConnect] ++ put16 (h_Port r) ++ match a with ipv4Address ip => ip | _ => [x00; x00; x00; x01] end ++
  name4 r ++ [x00] ++ match a with domainAddress d => d ++ [x00] | _ => [] end.

Definition msg_answer4 (code : byte) : bytes := [x00; code] ++ put16 0 ++ [x00; x00; x00; x00].

(** A string that can be followed by a null byte. *)
Definition c_string (s : bytes) : Prop := x00 ∉ s /\ (length s < 1000)%nat.

(** What version 4a can ask for: an IPv4 address that does not begin with 0,
    or a name. *)
Definition asks4 (r : RequestHeader_) (a : Address) : Prop :=
  h_Address r = Some a /\ 0 <= h_Port r < 2 ^ 16 /\
  match a with
  | ipv4Address ip => length ip = 4%nat /\ head ip ≠ Some x00
  | domainAddress d => c_string d
  | ipv6Address _ => False
  end /\
  match h_User r with None => True | Some u => exists ac, Account u = Some ac /\ c_string (Username ac) end.

Lemma name4_string r a : asks4 r a -> c_string (name4 r).
Proof.
  intros (_ & _ & _ & Hu). unfold name4, user_name. destruct (h_User r) as [u|]; [|by split; [apply not_elem_of_nil|cbn; lia]].
  destruct Hu as (ac & -> & Hs). done.
Qed.

Lemma client4_sends r a i w : asks4 r a -> exists b s, held K b s /\
  ClientHandshake4 append g r {| incoming := i; writer := w |} =
  (b ← read_into b 8;
   version ← pure (Byte b 0);
   if decide (version ≠ x00) then refuse errServerVersion
   else
     granted ← pure (Byte b 1);
     if decide (granted ≠ socks4RequestGranted) then refuse errRequestRejected else mret tt)
    {| incoming := i; writer := w ++ msg_request4 r a |} /\ s = [].
Proof.
  intros Hr. pose proof (name4_string r a Hr) as [_ Hname]. destruct Hr as (Ha & Hp & Hcase & Hu). unfold ClientHandshake4.
  next (bind_write [socks4Version; cmdTCPConnect] (held_New g Hg)) as b1 H1; [fits|].
  destruct (bind_put16 (E := socks_error) (W := bytes) (B := unit) (h_Port r) H1) as (b2 & lo & hi & H2 & He2); [fits|]. rewrite He2. clear He2. cbv beta iota zeta. rewrite Ha.
  remember (match a with ipv4Address ip => ip | _ => [x00; x00; x00; x01] end) as ip eqn:Eip.
  assert (length ip = 4%nat) as Hip by (subst ip; by destruct a as [?|?|?]; [destruct Hcase|..]).
  assert (match a with
          | ipv4Address ip => pure (Write (set_array b2 (splice (Z.to_nat lo) (put16 (h_Port r)) (arr b2))) ip)
          | ipv6Address _ => refuse errIPv6
          | domainAddress _ => pure (Write (set_array b2 (splice (Z.to_nat lo) (put16 (h_Port r)) (arr b2))) [x00; x00; x00; x01])
          end = pure (E := socks_error) (W := bytes) (Write (set_array b2 (splice (Z.to_nat lo) (put16 (h_Port r)) (arr b2))) ip)) as ->
    by (subst ip; by destruct a).
  next (bind_write ip H2) as b3 H3; [fits|].
  set (user_step := match h_User r with Some u => _ | None => _ end).
  assert (exists b4 n, held K b4 ((((([] ++ [socks4Version; cmdTCPConnect]) ++ put16 (h_Port r)) ++ ip)) ++ name4 r) /\ forall st, user_step st = (Ok (b4, n), st)) as (b4 & n4 & H4 & He4).
  { unfold user_step, name4, user_name in *. destruct (h_User r) as [u|]; [|exists b3, 0; split; [by rewrite app_nil_r|done]].
    destruct Hu as (ac & Hac & _). rewrite Hac in *. unfold WriteString.
    destruct (held_Write K b3 _ (Username ac) H3) as (b4 & Hw & H4); [fits|]. exists b4, (Z.of_nat (length (Username ac))). split; [done|]. intros st. by rewrite Hw. }
  rewrite (io_bind_Ok _ _ _ _ _ (He4 _)). cbv beta iota.
  next (bind_write_byte x00 H4) as b5 H5; [fits|].
  set (tail := match a with domainAddress d => d ++ [x00] | _ => [] end).
  set (tail_step := match a with domainAddress d => _ | _ => _ end).
  assert (exists b6, held K b6 (((((([] ++ [socks4Version; cmdTCPConnect]) ++ put16 (h_Port r)) ++ ip) ++ name4 r) ++ [x00]) ++ tail) /\ forall st, tail_step st = (Ok b6, st)) as (b6 & H6 & He6).
  { unfold tail_step, tail. destruct a as [?|?|d]; [|done|]; [exists b5; split; [by rewrite app_nil_r|done]|]. destruct Hcase as [_ Hd]. unfold WriteString.
    destruct (held_Write K b5 _ d H5) as (b6 & Hw & H6); [fits|]. destruct (held_WriteByte K b6 _ x00 H6) as (b7 & Hw7 & H7); [fits|].
    exists b7. split; [by rewrite app_assoc|]. intros st. by rewrite (io_bind_pure _ _ _ _ Hw), Hw7. }
  rewrite (io_bind_Ok _ _ _ _ _ (He6 _)), (bind_bytes H6), io_bind_WriteAllBytes.
  exists (Clear b6), []. split; [by eapply held_Clear|]. split; [|done]. unfold msg_request4. rewrite <-Eip. fold tail. by rewrite <-!app_assoc.
Qed.

Lemma client4_waits r a : asks4 r a -> says (ClientHandshake4 append g r) [] = msg_request4 r a.
Proof.
  intros Hr. unfold says, start_of. destruct (client4_sends r a [] [] Hr) as (b & s & Hb & -> & ->). by rewrite (bind_read_short Hb) by fits.
Qed.

Lemma client4_hears r a code i : asks4 r a -> ClientHandshake4 append g r (start_of (msg_answer4 code ++ i)) =
  (if decide (code = socks4RequestGranted) then Ok tt else Err (ErrRefused errRequestRejected), {| incoming := i; writer := msg_request4 r a |}).
Proof.
  intros Hr. unfold start_of. destruct (client4_sends r a (msg_answer4 code ++ i) [] Hr) as (b & s & Hb & -> & ->).
  next (bind_read (x := msg_answer4 code) Hb) as b1 H1; [done|done|unfold msg_answer4; fits|].
  rewrite (bind_byte (x := x00) H1) by done. rewrite decide_False by (intros Hx; by apply Hx). rewrite (bind_byte (x := code) H1) by done.
  destruct (decide (code = socks4RequestGranted)) as [->|Hne]; [by rewrite decide_False by (intros Hx; by apply Hx)|by rewrite decide_True].
Qed.

Lemma until_null_ok fuel b s t rest (w : bytes) : held K b s -> x00 ∉ t -> (length s + length t < K)%nat -> (length t < fuel)%nat ->
  until_null fuel b {| incoming := t ++ [x00] ++ rest; writer := w |} = (Ok (s ++ t), {| incoming := rest; writer := w |}).
Proof.
  revert b s t. induction fuel as [|fuel IH]; intros b s t Hb Ht Hl Hf; [lia|]. cbn [until_null].
  destruct t as [|c t].
  - cbn [app]. change (x00 :: rest) with ([x00] ++ rest). next (bind_read (x := [x00]) Hb) as b1 H1; [done|done|cbn [length] in *; lia|].
    assert (Len b1 - 1 = Z.of_nat (length s)) as HL by (rewrite (held_Len _ _ _ H1), length_app; cbn [length]; lia). rewrite HL.
    rewrite (bind_byte (x := x00) H1); [|lia|rewrite Nat2Z.id; by apply list_lookup_middle]. rewrite decide_True by done.
    destruct (held_Resize K K_small b1 _ (Z.of_nat (length s)) H1) as (b2 & Hr & H2); [rewrite length_app; lia|].
    rewrite (io_bind_pure _ _ _ _ Hr). rewrite Nat2Z.id, take_app_length in H2. unfold String_, pure. by rewrite (held_Bytes _ _ _ H2), app_nil_r.
  - cbn [app length] in Hl, Hf |- *. change (c :: t ++ x00 :: rest) with ([c] ++ t ++ [x00] ++ rest). next (bind_read (x := [c]) Hb) as b1 H1; [done|done|cbn [length]; lia|].
    assert (Len b1 - 1 = Z.of_nat (length s)) as HL by (rewrite (held_Len _ _ _ H1), length_app; cbn [length]; lia). rewrite HL.
    rewrite (bind_byte (x := c) H1); [|lia|rewrite Nat2Z.id; by apply list_lookup_middle].
    apply not_elem_of_cons in Ht as [Hc Ht]. rewrite decide_False by congruence. rewrite (held_IsFull K K_small _ _ H1).
    rewrite bool_decide_false by (rewrite length_app; cbn [length]; lia).
    rewrite (IH b1 (s ++ [c]) t H1 Ht); [by rewrite <-app_assoc|rewrite length_app; cbn [length]; lia|lia].
Qed.

Lemma bind_string {B} (f : bytes -> io socks_error bytes B) s rest w : c_string s ->
  (ReadUntilNull g ≫= f) {| incoming := s ++ [x00] ++ rest; writer := w |} = f s {| incoming := rest; writer := w |}.
Proof.
  intros [Hs Hl]. apply io_bind_Ok. unfold ReadUntilNull. pose proof K_large. by rewrite (until_null_ok _ _ [] s rest w (held_New g Hg)) by (done || cbn; lia).
Qed.

Lemma writeSocks4Response_ok code i w :
  writeSocks4Response append g code AnyIP 0 {| incoming := i; writer := w |} = (Ok tt, {| incoming := i; writer := w ++ msg_answer4 code |}).
Proof.
  unfold writeSocks4Response. next (bind_write_byte x00 (held_New g Hg)) as b1 H1; [fits|]. next (bind_write_byte code H1) as b2 H2; [fits|].
  destruct (bind_put16 (E := socks_error) (W := bytes) (B := unit) 0 H2) as (b3 & lo & hi & H3 & He3); [fits|]. rewrite He3. clear He3. cbv beta iota zeta.
  rewrite (io_bind_pure _ _ _ [x00; x00; x00; x00]) by done. next (bind_write [x00; x00; x00; x00] H3) as b4 H4; [fits|].
  by rewrite (bind_bytes H4).
Qed.

(** What the server has understood. *)
Definition understood4 (r : RequestHeader_) (a : Address) : RequestHeader_ :=
  {| h_Version := socks4Version; h_Command := RequestCommandTCP; h_Port := h_Port r;
     h_Address := match a with domainAddress d => ParseAddress d | _ => Some a end; h_User := None |}.

Lemma server4_answers s r a dispatched i : asks4 r a -> c_AuthType (s_config s) ≠ AuthType_PASSWORD ->
  processTCP append g s dispatched (start_of (msg_request4 r a ++ i)) =
  (Ok (understood4 r a, dispatched),
   {| incoming := i; writer := msg_answer4 (if c_DeferLastReply (s_config s) && negb dispatched then socks4RequestRejected else socks4RequestGranted) |}).
Proof.
  intros Hr Hauth. pose proof (name4_string r a Hr) as Hname. destruct Hr as (Ha & Hp & Hcase & Hu). unfold processTCP, start_of, server_Handshake, msg_request4. rewrite <-!app_assoc.
  remember (match a with ipv4Address ip => ip | _ => [x00; x00; x00; x01] end) as ip eqn:Eip.
  remember (match a with domainAddress d => d ++ [x00] | _ => [] end) as tail eqn:Etail.
  assert (length ip = 4%nat) as Hip by (subst ip; by destruct a as [?|?|?]; [destruct Hcase|..]).
  match goal with |- (?m ≫= ?f) ?st = _ => assert (m st = (lr ← setupLastReply append g s reply4; mret (understood4 r a, lr)) {| incoming := i; writer := [] |}) as He end.
  { next (bind_read (x := [socks4Version; cmdTCPConnect]) (held_New g Hg)) as b1 H1; [done|done|fits|].
    rewrite (bind_byte (x := socks4Version) H1) by done. rewrite (bind_byte (x := cmdTCPConnect) H1) by done. rewrite decide_True by done.
    unfold handshake4. rewrite decide_False by done. rewrite (app_assoc (put16 _)).
    next (bind_read (x := put16 (h_Port r) ++ ip) (held_New g Hg)) as b2 H2; [rewrite length_app, length_put16, Hip; done|done|fits|].
    rewrite (bind_range K_small H2) by (cbn [app]; rewrite ?length_app, ?length_put16, ?Hip; lia).
    rewrite (bind_range K_small H2) by (cbn [app]; rewrite ?length_app, ?length_put16, ?Hip; lia).
    change (take (Z.to_nat (2 - 0)) (drop (Z.to_nat 0) ([] ++ put16 (h_Port r) ++ ip))) with (take 2 (put16 (h_Port r) ++ ip)).
    change (drop (Z.to_nat 2) ([] ++ put16 (h_Port r) ++ ip)) with ip. rewrite (take_ge ip) by (rewrite Hip; done).
    rewrite bind_string by done.
    assert (PortFromBytes (take 2 (put16 (h_Port r) ++ ip)) = h_Port r) as Hport.
    { change (take 2 (put16 (h_Port r) ++ ip)) with (put16 (h_Port r)). unfold PortFromBytes. rewrite <-(app_nil_r (put16 _)), get16_put16. by apply u16_small. }
    rewrite Hport. rewrite (io_bind_Ok _ _ _ (h_Address (understood4 r a)) {| incoming := i; writer := [] |}); [by rewrite decide_True|].
    unfold understood4. destruct a as [ip4|?|d]; [|done|]; subst ip tail.
    - destruct Hcase as [_ Hhead]. destruct ip4 as [|c ip4]; [done|]. rewrite decide_False by (intros ->; by apply Hhead). cbn [h_Address]. unfold IPAddress. by rewrite Hip.
    - rewrite decide_True by done. rewrite <-app_assoc. by rewrite bind_string. }
  unfold mbind at 1, io_bind at 1. rewrite He. clear He.
  assert (forall ok w, flushLastReply append g reply4 ok {| incoming := i; writer := w |} =
    (Ok no_reply, {| incoming := i; writer := w ++ msg_answer4 (if ok then socks4RequestGranted else socks4RequestRejected) |})) as Hflush.
  { intros ok w. unfold flushLastReply, callback4. by rewrite (io_bind_Ok _ _ _ _ _ (writeSocks4Response_ok _ i w)). }
  assert (forall lr w, lr = no_reply \/ lr = reply4 -> after_handshake append g (understood4 r a) lr dispatched {| incoming := i; writer := w |} =
    (Ok dispatched, {| incoming := i; writer := w ++ match lr with reply4 => msg_answer4 (if dispatched then socks4RequestGranted else socks4RequestRejected) | _ => [] end |})) as Hafter.
  { intros lr w Hlr. unfold after_handshake, finalizing_Dispatch. cbn [understood4 h_Command]. rewrite decide_True by done.
    assert (forall ok, flushLastReply append g lr ok {| incoming := i; writer := w |} = (Ok no_reply, {| incoming := i; writer := w ++ match lr with reply4 => msg_answer4 (if ok then socks4RequestGranted else socks4RequestRejected) | _ => [] end |})) as Hf.
    { intros ok. destruct Hlr as [-> | ->]; [unfold flushLastReply; by rewrite io_bind_ret, app_nil_r|apply Hflush]. }
    destruct dispatched; [by rewrite (io_bind_Ok _ _ _ _ _ (Hf true))|]. erewrite io_bind_Ok by (unfold try_; by rewrite (Hf false)).
    by destruct Hlr as [-> | ->]. }
  unfold setupLastReply. destruct (c_DeferLastReply _); cbn [andb].
  - rewrite io_bind_ret. unfold mret at 1, io_ret at 1. rewrite (io_bind_Ok _ _ _ _ _ (Hafter reply4 [] ltac:(auto))). by destruct dispatched.
  - rewrite (io_bind_Ok _ _ _ _ _ (Hflush true [])). unfold mret at 1, io_ret at 1.
    rewrite (io_bind_Ok _ _ _ _ _ (Hafter no_reply _ ltac:(auto))). by rewrite app_nil_r.
Qed.
End Runs4.

(** ** Packets *)

Section PacketFacts.
Context (g : bytes) (Hg : length g = Z.to_nat Size) (alloc : Z -> bytes).
Context (Halloc : allocates alloc).

Definition msg_packet (a : Address) (port : Z) (data : bytes) : bytes := [x00; x00; x00] ++ enc_address_port addrParser a port ++ data.

Lemma EncodeUDPPacket_ok {W} (r : RequestHeader_) a data (st : stream W) : h_Address r = Some a -> addr_ok a -> Z.of_nat (length data) < 2 ^ 30 ->
  exists k b, Z.of_nat k < 2 ^ 31 /\ held k b (msg_packet a (h_Port r) data) /\ EncodeUDPPacket alloc r data st = (Ok b, st).
Proof.
  intros Ha Hok Hd. unfold EncodeUDPPacket. rewrite Ha, (addr_port_len_ok addrParser a (h_Port r) Hok). rewrite io_bind_ret.
  pose proof (enc_address_port_length addrParser a (h_Port r) Hok) as Hl.
  rewrite (i32_small (Z.of_nat (length data))), i32_small by lia. set (n := 3 + _ + _). assert (n < 2 ^ 31) as Hn by (unfold n; lia). pose proof (Halloc n Hn) as [Hn1 Hn2].
  destruct (alloc n) as [|x arr'] eqn:Ea; [cbn in Hn1; lia|]. rewrite <-Ea in *. clear Ea x arr'.
  pose proof (held_NewWithSize _ (alloc n) Hn2 eq_refl) as H0.
  next (bind_write [x00; x00; x00] H0) as b1 H1; [cbn [length]; lia|].
  next (bind_put_address_port (port := h_Port r) (socks_parser_knows (Family a)) Hok H1) as b2 H2; [cbn [length app]; lia|].
  next (bind_write data H2) as b3 H3; [rewrite length_app; cbn [length app]; lia|].
  exists (length (alloc n)), b3. split; [done|]. split; [|done]. unfold msg_packet. by rewrite <-app_assoc in H3.
Qed.

Lemma consume_ok b n : wf b -> (n <= length (content b))%nat -> wf (consume b (Z.of_nat n)) /\ content (consume b (Z.of_nat n)) = drop n (content b).
Proof.
  intros Hb Hn. unfold consume. rewrite (Len_content b Hb). pose proof (length_content b Hb) as Hl. pose proof Hb as [? ? ?].
  destruct (Z.eqb_spec (Z.of_nat n) (Z.of_nat (length (content b)))).
  - destruct (wf_Clear b Hb) as [Hw ->]. split; [done|]. by rewrite drop_ge by lia.
  - rewrite i32_small by lia. by apply advance_content.
Qed.

Lemma DecodeUDPPacket_ok packet a port data : wf packet -> content packet = msg_packet a port data -> addr_ok a -> 0 <= port < 2 ^ 16 ->
  exists packet', DecodeUDPPacket g packet =
    Ok ({| h_Version := socks5Version; h_Command := RequestCommandUDP; h_Port := port; h_Address := Some a; h_User := None |}, packet') /\
    wf packet' /\ content packet' = data.
Proof.
  intros Hb Hc Ha Hp. unfold DecodeUDPPacket. rewrite (Len_content packet Hb), Hc.
  assert (4 <= length (enc_address_port addrParser a port))%nat as Henc.
  { rewrite socks_parser_last. cbn [enc_address_port]. rewrite length_app, length_put16. unfold enc_address. destruct a; cbn in Ha |- *; lia. }
  unfold msg_packet at 1. rewrite !length_app. cbn [length]. destruct (Z.ltb_spec (Z.of_nat (3 + (length (enc_address_port addrParser a port) + length data))) 5); [lia|].
  change (Byte packet 2) with (Byte packet (Z.of_nat 2)). rewrite (Byte_content packet 2 x00 Hb) by (by rewrite Hc).
  rewrite decide_False by (intros Hx; by apply Hx). cbv zeta. change 3 with (Z.of_nat 3).
  destruct (Advance_content packet 3 Hb) as [Hw Hca]; [rewrite Hc; unfold msg_packet; rewrite length_app; cbn [length]; lia|].
  rewrite (Bytes_content _ Hw), Hca, Hc. change (drop 3 (msg_packet a port data)) with (enc_address_port addrParser a port ++ data).
  rewrite (ReadAddressPort_enc g addrParser a port data Hg (socks_parser_knows _) Ha Hp).
  destruct (consume_ok (Advance packet (Z.of_nat 3)) (length (enc_address_port addrParser a port)) Hw) as [Hw' Hc'].
  { rewrite Hca, Hc. change (drop 3 (msg_packet a port data)) with (enc_address_port addrParser a port ++ data). rewrite length_app. lia. }
  rewrite length_app. replace (Z.of_nat (length (enc_address_port addrParser a port) + length data) - Z.of_nat (length data)) with (Z.of_nat (length (enc_address_port addrParser a port))) by lia.
  eexists. split; [done|]. split; [done|]. rewrite Hc', Hca, Hc. change (drop 3 (msg_packet a port data)) with (enc_address_port addrParser a port ++ data).
  apply drop_app_length.
Qed.
End PacketFacts.

(** ** Properties *)

(** C11: a SOCKS 5 client and server that start in silence and answer each
    other come to an end after three turns each, with or without a password:
    what both then have said makes both finish.  The server has understood
    the client's command, address and port under the account's name, keeps
    the link exactly when it was given one (a relay needs none), and has not
    touched what the client sent early; the client has the relay's address if
    it asked for one, and hears a refusal exactly when its stream was not
    dispatched and the server waited for that before answering. *)
Theorem socks5_handshake_agrees g s r cmd command a port ra dispatched :
  length g = Z.to_nat Size -> asks r cmd a port -> auth_suits s (h_User r) -> allows s cmd command ra ->
  let client := ClientHandshake append g r in
  let server := processTCP append g s dispatched in
  exists c t, talk client server 3 = (c, t) /\ says client t = c /\
    (client (start_of t)).1 =
      (if says_refused s command dispatched then Err (ErrRefused errRequestRejected)
       else Ok (if decide (command = RequestCommandUDP) then
                  Some {| h_Version := socks5Version; h_Command := RequestCommandUDP; h_Port := s_port s; h_Address := Some ra; h_User := None |}
                else None)) /\
    forall early, server (start_of (c ++ early)) =
      (Ok (understood command a port (user_name (h_User r)), bool_decide (command = RequestCommandUDP) || dispatched),
       {| incoming := early; writer := t |}).
Proof.
  intros Hg Hr Hs Hallow client server. destruct (client_concludes g Hg r s cmd command a port ra dispatched Hr Hallow) as [Hres Hsays].
  eexists _, _. split; [exact (talk_settles g Hg r s cmd command a port ra dispatched Hr Hs Hallow)|]. split; [exact Hsays|]. split; [exact Hres|].
  intros early. rewrite <-app_assoc. destruct Hr as (_ & Ha & Hp & _). by apply server_answers.
Qed.

(** A SOCKS 4a client and server that start in silence agree after one turn
    each: the server has the address, or the name as the text of an address
    is read, and the port; the client hears a refusal exactly when the server
    waited for the dispatch before answering and there was none. *)
Theorem socks4a_handshake_agrees g s r a dispatched :
  length g = Z.to_nat Size -> asks4 r a -> c_AuthType (s_config s) ≠ AuthType_PASSWORD ->
  let client := ClientHandshake4 append g r in
  let server := processTCP append g s dispatched in
  exists c t, talk client server 1 = (c, t) /\ says client t = c /\
    (client (start_of t)).1 = (if c_DeferLastReply (s_config s) && negb dispatched then Err (ErrRefused errRequestRejected) else Ok tt) /\
    forall early, server (start_of (c ++ early)) = (Ok (understood4 r a, dispatched), {| incoming := early; writer := t |}).
Proof.
  intros Hg Hr Hs client server. set (t := msg_answer4 (if c_DeferLastReply (s_config s) && negb dispatched then socks4RequestRejected else socks4RequestGranted)).
  exists (msg_request4 r a), t. pose proof (client4_hears g Hg r a (if c_DeferLastReply (s_config s) && negb dispatched then socks4RequestRejected else socks4RequestGranted) [] Hr) as Hh.
  rewrite app_nil_r in Hh. fold t in Hh. unfold client, server. split.
  - cbn [talk]. rewrite (client4_waits g Hg r a Hr). unfold says. pose proof (server4_answers g Hg s r a dispatched [] Hr Hs) as Hserve. rewrite app_nil_r in Hserve. by rewrite Hserve.
  - split; [unfold says; by rewrite Hh|]. split; [rewrite Hh; by destruct (_ && _)|]. intros early. by apply server4_answers.
Qed.

(** C13: whatever a client sends and however the connection's writes fail, a
    SOCKS server of any version that has an address to answer with never
    panics; when it accepts a request, the request has an address and a
    16-bit port. *)
Theorem socks_server_never_panics g {W} (write : W -> bytes -> W * bool) s dispatched (st : stream W) :
  length g = Z.to_nat Size -> answerable s ->
  match (processTCP write g s dispatched st).1 with
  | Ok (request, _) => h_Address request ≠ None /\ 0 <= h_Port request < 2 ^ 16
  | Err _ => True
  | Panic => False
  end.
Proof. intros Hg Hs. by apply safe_processTCP. Qed.

(** A packet of the relay is read as it was written: the payload behind
    the address and port it is for, cut only by the reader's buffer, and
    marked with where it goes. *)
Theorem socks_udp_roundtrip g alloc {W} r a data (st : stream W) :
  length g = Z.to_nat Size -> allocates alloc ->
  h_Address r = Some a -> addr_ok a -> 0 <= h_Port r < 2 ^ 16 -> Z.of_nat (length data) < 2 ^ 30 ->
  exists packet out, EncodeUDPPacket alloc r data st = (Ok packet, st) /\ Bytes packet = Ok out /\
    exists b, UDPReader_ReadMultiBuffer g (fun n => (take n out, false)) = Ok [b] /\ Endpoint b = Some (UDPDestination (Some a) (h_Port r)) /\
      content b = take (Z.to_nat Size - 3 - length (enc_address_port addrParser a (h_Port r))) data.
Proof.
  intros Hg Halloc Ha Hok Hp Hd. destruct (EncodeUDPPacket_ok g Hg alloc Halloc r a data st Ha Hok Hd) as (k & packet & Hk & Hh & He).
  exists packet, (msg_packet a (h_Port r) data). split; [done|]. split; [by apply held_Bytes with k|].
  destruct (wf_New g Hg) as [Hw Hc0]. destruct (ReadFrom_ok (New g) (msg_packet a (h_Port r) data) Hw) as (b & Hr & Hb & Hc).
  rewrite Hc0, (room_New g Hg) in Hc. cbn [app] in Hc. pose proof (enc_address_port_length addrParser a (h_Port r) Hok). pose proof K_large.
  set (n := (Z.to_nat Size - 3 - length (enc_address_port addrParser a (h_Port r)))%nat).
  assert (content b = msg_packet a (h_Port r) (take n data)) as Hcut.
  { rewrite Hc. unfold msg_packet. rewrite take_app_ge by (cbn [length]; lia). cbn [length]. rewrite take_app_ge by lia. by replace (Z.to_nat Size - 3 - length (enc_address_port addrParser a (h_Port r)))%nat with n. }
  destruct (DecodeUDPPacket_ok g Hg b a (h_Port r) (take n data) Hb Hcut Hok Hp) as (b' & Hdec & Hb' & Hc').
  exists (set_endpoint b' (Some (UDPDestination (Some a) (h_Port r)))). split; [|by split]. unfold UDPReader_ReadMultiBuffer. rewrite Hr, Hdec. done.
Qed.

(** A client configured for version 4 speaks version 5: the request made
    for any target it accepts keeps the version it starts with, and the
    first byte on the wire is 5. *)
Theorem socks4_setting_speaks_socks5 g server uot lookup destination user r :
  length g = Z.to_nat Size -> client_request Version_SOCKS4 uot lookup destination user = Ok r ->
  exists rest, says (client_handshake append g server r) [] = socks5Version :: rest.
Proof.
  intros Hg Hr. assert (h_Version r = socks5Version) as Hv.
  { unfold client_request, version_request in Hr. repeat (case_match || case_decide; simplify_eq/=; try done). }
  exists [x01; auth_of (h_User r)]. change (socks5Version :: _) with (msg_greeting (auth_of (h_User r))). rewrite <-(client_says_greeting g Hg r). unfold says, client_handshake. rewrite decide_False by (by rewrite Hv).
  unfold mbind, io_bind. by destruct (ClientHandshake append g r (start_of [])) as [[x| |] st'].
Qed.

(** The relay's answer from a source whose name is longer than the format
    allows: the encoder's error is only logged, and the packet it did not
    make is used. *)
Theorem socks_long_source_panics alloc {W} (write : W -> bytes -> W * bool) d request payload st :
  255 < Z.of_nat (length d) ->
  (udp_response alloc write (Some (UDPDestination (Some (domainAddress d)) 53)) request payload st).1 = Panic.
Proof.
  intros Hd. unfold udp_response, EncodeUDPPacketFromAddress. cbn [dest_Address UDPDestination addr_port_len]. unfold IsDomainTooLong.
  by rewrite (proj2 (Z.ltb_lt _ _) Hd).
Qed.

(** ** Witnesses *)

Definition sample_user : MemoryUser Account_ := {| Account := Some {| Username := bs "user"; Password := bs "pass" |}; Email := []; Level := 0 |}.

Definition sample_config : ServerConfig :=
  {| c_AuthType := AuthType_PASSWORD; c_Accounts := Some {[ bs "user" := bs "pass" ]}; c_Address := None; c_UdpEnabled := true; c_DeferLastReply := true |}.

Definition sample_session (c : ServerConfig) : ServerSession :=
  {| s_config := c; s_address := Some (ipv4Address [x0a; x00; x00; x01]); s_port := 1080; s_clientAddress := LocalHostIP |}.

Definition sample_request (user : option (MemoryUser Account_)) : RequestHeader_ :=
  {| h_Version := socks5Version; h_Command := RequestCommandTCP; h_Port := 443; h_Address := Some (domainAddress (bs "example.com")); h_User := user |}.

Lemma sample_answerable c : c_Address c = None -> answerable (sample_session c).
Proof. intros Hc command. unfold response_address. cbn [s_config sample_session]. rewrite Hc. case_decide; eauto. Qed.

Lemma socks5_handshake_agrees_witness :
  let client := ClientHandshake append zero_buffer (sample_request (Some sample_user)) in
  let server := processTCP append zero_buffer (sample_session sample_config) true in
  exists c t, talk client server 3 = (c, t) /\ says client t = c /\ (client (start_of t)).1 = Ok None /\
    forall early, server (start_of (c ++ early)) =
      (Ok (understood RequestCommandTCP (domainAddress (bs "example.com")) 443 (bs "user"), true), {| incoming := early; writer := t |}).
Proof.
  refine (socks5_handshake_agrees zero_buffer (sample_session sample_config) (sample_request (Some sample_user)) cmdTCPConnect RequestCommandTCP
    (domainAddress (bs "example.com")) 443 (ipv4Address [x0a; x00; x00; x01]) true zero_buffer_length _ _ _).
  - split; [eexists; split; [reflexivity|split; cbn; lia]|]. split; [apply example_name_ok|]. split; [lia|]. right. done.
  - split; [done|]. eexists. split; [reflexivity|]. split; [split; cbn; lia|reflexivity].
  - split; [by left|]. split; [reflexivity|]. split; [done|]. cbn. lia.
Defined.

Lemma socks_server_never_panics_witness :
  match (processTCP append zero_buffer (sample_session sample_config) true (start_of (bs "GET / HTTP/1.1"))).1 with
  | Ok (request, _) => h_Address request ≠ None /\ 0 <= h_Port request < 2 ^ 16
  | Err _ => True
  | Panic => False
  end.
Proof. apply (socks_server_never_panics zero_buffer append (sample_session sample_config) true); [apply zero_buffer_length|by apply sample_answerable]. Defined.

Lemma socks_udp_roundtrip_witness :
  exists packet out, EncodeUDPPacket (fun n => replicate (Z.to_nat n) x00) (sample_request None) (bs "hi") (start_of []) = (Ok packet, start_of []) /\
    Bytes packet = Ok out /\
    exists b, UDPReader_ReadMultiBuffer zero_buffer (fun n => (take n out, false)) = Ok [b] /\
      Endpoint b = Some (UDPDestination (Some (domainAddress (bs "example.com"))) 443) /\
      content b = take (Z.to_nat Size - 3 - length (enc_address_port addrParser (domainAddress (bs "example.com")) 443)) (bs "hi").
Proof.
  refine (socks_udp_roundtrip zero_buffer (fun n => replicate (Z.to_nat n) x00) (sample_request None) (domainAddress (bs "example.com")) (bs "hi") (start_of [])
    zero_buffer_length _ eq_refl example_name_ok _ _).
  - intros n Hn. rewrite length_replicate. lia.
  - cbn. lia.
  - cbn. lia.
Defined.

Lemma socks4_setting_speaks_socks5_witness :
  exists rest, says (client_handshake append zero_buffer (Some (ipv4Address [x0a; x00; x00; x01]))
    {| h_Version := socks5Version; h_Command := RequestCommandTCP; h_Port := 80; h_Address := Some (ipv4Address [x01; x02; x03; x04]); h_User := None |}) [] = socks5Version :: rest.
Proof.
  apply (socks4_setting_speaks_socks5 zero_buffer _ false (fun _ => Some [[x01; x02; x03; x04]]) (TCPDestination (Some (domainAddress (bs "example.com"))) 80) None);
    [apply zero_buffer_length|reflexivity].
Defined.

(** A whole conversation: the two ends evaluated against each other. *)
Example socks5_conversation :
  talk (ClientHandshake append zero_buffer (sample_request (Some sample_user))) (processTCP append zero_buffer (sample_session sample_config) false) 3 =
  ([x05; x01; x02] ++ ([x01; x04] ++ bs "user" ++ [x04] ++ bs "pass") ++ [x05; x01; x00; x03; x0b] ++ bs "example.com" ++ [x01; xbb],
   [x05; x02] ++ [x01; x00] ++ [x05; x05; x00; x01; x00; x00; x00; x00; x00; x00]).
Proof. vm_compute. reflexivity. Qed.
