(* ===== verification/Users.v ===== *)
(** * Users of an inbound: UUIDs and validators

    [common/uuid/uuid.go], and the validators of Trojan and VLESS
    ([proxy/trojan/validator.go], [proxy/vless/validator.go]), which keep users
    by their email and by the key that a connection shows. *)

From S2P Require Import Prelude Matchers Handshake.

Local Open Scope Z_scope.

(** ** Package [encoding/hex] *)

Definition hex_char (n : Z) : byte := byte_of_Z (if n <? 10 then 48 + n else 87 + n).

(** [hex.EncodeToString]. *)
Definition hex_encode (data : bytes) : bytes := data ≫= (fun b => [hex_char (byte_to_Z b / 16); hex_char (byte_to_Z b mod 16)]).

Definition hex_value (c : byte) : option Z :=
  let z := byte_to_Z c in
  if (48 <=? z) && (z <=? 57) then Some (z - 48)
  else if (97 <=? z) && (z <=? 102) then Some (z - 87)
  else if (65 <=? z) && (z <=? 70) then Some (z - 55)
  else None.

(** [hex.Decode]: the bytes decoded before the first character that is none,
    and whether there was one. *)
Fixpoint hex_decode (text : bytes) : bytes * bool :=
  match text with
  | a :: b :: text' =>
      match hex_value a, hex_value b with
      | Some x, Some y => let '(d, ok) := hex_decode text' in (byte_of_Z (x * 16 + y) :: d, ok)
      | _, _ => ([], false)
      end
  | [] => ([], true)
  | [_] => ([], false)
  end.

(** ** UUIDs *)

(** src/common/uuid/uuid.go:12-12 byteGroups *)
Definition byteGroups : list nat := [8; 4; 4; 4; 12]%nat.

Abbreviation UUID := bytes (only parsing).

(** The groups after the first.
    src/common/uuid/uuid.go:21-26 UUID.String *)
Fixpoint string_groups (groups : list nat) (rest : bytes) : bytes :=
  match groups with
  | [] => []
  | n :: groups' => bs "-" ++ hex_encode (take (n / 2) rest) ++ string_groups groups' (drop (n / 2) rest)
  end.

(** src/common/uuid/uuid.go UUID.String *)
Definition uuid_String (u : bytes) : bytes :=
  match byteGroups with
  | [] => []
  | n :: groups => hex_encode (take (n / 2) u) ++ string_groups groups (drop (n / 2) u)
  end.

(** src/common/uuid/uuid.go UUID.Equals *)
Definition uuid_Equals (u another : option bytes) : bool :=
  match u, another with
  | None, None => true
  | Some a, Some b => bool_decide (a = b)
  | _, _ => false
  end.

(** [random] are the bytes read.
    src/common/uuid/uuid.go New *)
Definition uuid_New (random : bytes) : bytes :=
  let set i mask value u := <[i := byte_of_Z (Z.lor (Z.land (byte_to_Z (u !!! i)) mask) value)]> u in
  set 8%nat 0x3f 0x80 (set 6%nat 0x0f 0x40 random).

(** src/common/uuid/uuid.go ParseBytes *)
Definition ParseBytes (b : bytes) : option bytes := if (length b =? 16)%nat then Some b else None.

(** The bytes read before an error are kept: an invalid text leaves some of
    them in the result. [Panic] is [text[0]] of nothing.
    src/common/uuid/uuid.go:76-93 ParseString *)
Fixpoint parse_groups (groups : list nat) (text : bytes) : outcome bytes bytes :=
  match groups with
  | [] => Ok []
  | n :: groups' =>
      match text with
      | [] => Panic
      | c :: text' =>
          let text := if decide (c = x2d) then text' else text in
          if (length text <? n)%nat then Err []
          else
            let '(b, ok) := hex_decode (take n text) in
            if ok : bool then
              match parse_groups groups' (drop n text) with
              | Ok bs => Ok (b ++ bs)
              | Err bs => Err (b ++ bs)
              | Panic => Panic
              end
            else Err b
      end
  end.

(** On an error, what was read of the bytes.
    src/common/uuid/uuid.go ParseString *)
Definition ParseString (str : bytes) : outcome bytes bytes :=
  if (length str <? 32)%nat then Err (replicate 16 x00)
  else
    match parse_groups byteGroups str with
    | Ok b => Ok b
    | Err b => Err (b ++ replicate (16 - length b) x00)
    | Panic => Panic
    end.

(** src/common/uuid/uuid.go ParseHexDashString *)
Definition ParseHexDashString (b : bytes) : option bytes :=
  if negb (length b =? 36)%nat || negb (bool_decide (b !! 8%nat = Some x2d)) || negb (bool_decide (b !! 13%nat = Some x2d)) ||
     negb (bool_decide (b !! 18%nat = Some x2d)) || negb (bool_decide (b !! 23%nat = Some x2d))
  then None
  else
    let part lo hi := let '(d, ok) := hex_decode (take (hi - lo) (drop lo b)) in if ok : bool then Some d else None in
    p1 ← part 0%nat 8%nat; p2 ← part 9%nat 13%nat; p3 ← part 14%nat 18%nat; p4 ← part 19%nat 23%nat; p5 ← part 24%nat 36%nat;
    Some (p1 ++ p2 ++ p3 ++ p4 ++ p5).

(** ** Validators *)

Inductive validator_error := errUserExists | errEmptyEmail | errUserNotFound.

(** Both protocols keep users in two maps; they differ in the key of an
    account. Users are compared by what they hold. *)
Section Validator.
Context `{StringLibs} {A : Type} (key : A -> bytes).

(** The account is never nil here: users come from configured accounts.
    src/proxy/trojan/validator.go Validator *)
Record Validator := { v_email : gmap bytes (MemoryUser A); v_users : gmap bytes (MemoryUser A) }.

Definition empty_validator : Validator := {| v_email := ∅; v_users := ∅ |}.

Definition user_key (u : MemoryUser A) : outcome validator_error bytes := match Account u with Some a => Ok (key a) | None => Panic end.

(** src/proxy/trojan/validator.go Validator.Add *)
Definition Add (v : Validator) (u : MemoryUser A) : outcome validator_error Validator :=
  let store (v : Validator) := k ← user_key u; Ok {| v_email := v_email v; v_users := <[k := u]> (v_users v) |} in
  match Email u with
  | [] => store v
  | _ =>
      match v_email v !! ToLower (Email u) with
      | Some _ => Err errUserExists
      | None => store {| v_email := <[ToLower (Email u) := u]> (v_email v); v_users := v_users v |}
      end
  end.

(** src/proxy/trojan/validator.go Validator.Del *)
Definition Del (v : Validator) (e : bytes) : outcome validator_error Validator :=
  match e with
  | [] => Err errEmptyEmail
  | _ =>
      let le := ToLower e in
      match v_email v !! le with
      | None => Err errUserNotFound
      | Some u => k ← user_key u; Ok {| v_email := delete le (v_email v); v_users := delete k (v_users v) |}
      end
  end.

(** src/proxy/trojan/validator.go Validator.Get *)
Definition Get (v : Validator) (hash : bytes) : option (MemoryUser A) := v_users v !! hash.
End Validator.
Arguments Validator A : clear implicits.

(** * Facts about users

    A UUID's text is read back, and a validator is a list of users as long as
    no two of them share a key. *)


(** ** UUIDs *)

Lemma hex_value_char n : 0 <= n < 16 -> hex_value (hex_char n) = Some n.
Proof.
  intros Hn. assert (Forall (fun n => hex_value (hex_char n) = Some n) (seqZ 0 16)) as Hall by (apply (bool_decide_unpack _); vm_compute; exact I).
  rewrite Forall_forall in Hall. apply Hall, elem_of_seqZ. lia.
Qed.

Lemma hex_decode_encode d : hex_decode (hex_encode d) = (d, true).
Proof.
  induction d as [|b d IH]; [done|]. change (hex_encode (b :: d)) with (hex_char (byte_to_Z b / 16) :: hex_char (byte_to_Z b mod 16) :: hex_encode d).
  cbn [hex_decode]. pose proof (byte_to_Z_range b). rewrite !hex_value_char by solve_wrap. rewrite IH. do 2 f_equal.
  rewrite <-(byte_of_to_Z b) at 3. f_equal. solve_wrap.
Qed.

Lemma length_hex_encode d : length (hex_encode d) = (2 * length d)%nat.
Proof. induction d as [|b d IH]; [done|]. change (hex_encode (b :: d)) with (hex_char (byte_to_Z b / 16) :: hex_char (byte_to_Z b mod 16) :: hex_encode d). cbn [length]. lia. Qed.

Lemma hex_char_not_dash n : 0 <= n < 16 -> hex_char n ≠ x2d.
Proof. intros Hn Hx. pose proof (hex_value_char n Hn) as Hv. rewrite Hx in Hv. vm_compute in Hv. discriminate. Qed.

Lemma hex_encode_head d : d ≠ [] -> exists c t, hex_encode d = c :: t /\ c ≠ x2d.
Proof.
  destruct d as [|b d]; [done|]. intros _. eexists _, _. split; [done|]. apply hex_char_not_dash. pose proof (byte_to_Z_range b). solve_wrap.
Qed.

(** One group, with or without its dash. *)
Lemma parse_groups_step n groups d rest dash : dash = [] \/ dash = [x2d] -> (length d * 2 = n)%nat -> d ≠ [] ->
  parse_groups (n :: groups) (dash ++ hex_encode d ++ rest) =
  match parse_groups groups rest with Ok bs => Ok (d ++ bs) | Err bs => Err (d ++ bs) | Panic => Panic end.
Proof.
  intros Hdash Hn Hd. destruct (hex_encode_head d Hd) as (c & t & Hh & Hc). pose proof (length_hex_encode d) as Hl.
  assert (match dash ++ hex_encode d ++ rest with [] => [] | c :: text' => if decide (c = x2d) then text' else dash ++ hex_encode d ++ rest end = hex_encode d ++ rest) as Htext.
  { destruct Hdash as [-> | ->]; cbn [app]; [|by rewrite decide_True]. rewrite Hh. cbn [app]. by rewrite decide_False. }
  cbn [parse_groups]. destruct (dash ++ hex_encode d ++ rest) as [|c0 t0] eqn:E; [exfalso; destruct Hdash as [-> | ->]; rewrite Hh in E; discriminate|].
  rewrite Htext. destruct (Nat.ltb_spec (length (hex_encode d ++ rest)) n); [rewrite length_app in *; lia|].
  rewrite take_app_length' by lia. rewrite drop_app_length' by lia. by rewrite hex_decode_encode.
Qed.

Lemma uuid_groups (u : bytes) : length u = 16%nat -> exists a b c d e : bytes, u = a ++ b ++ c ++ d ++ e /\
  length a = 4%nat /\ length b = 2%nat /\ length c = 2%nat /\ length d = 2%nat /\ length e = 6%nat.
Proof.
  intros Hu. do 16 (destruct u as [|? u]; [done|]). destruct u; [|done].
  eexists [_; _; _; _], [_; _], [_; _], [_; _], [_; _; _; _; _; _]. done.
Qed.

Lemma uuid_String_groups a b c d e : length a = 4%nat -> length b = 2%nat -> length c = 2%nat -> length d = 2%nat -> length e = 6%nat ->
  uuid_String (a ++ b ++ c ++ d ++ e) =
  hex_encode a ++ [x2d] ++ hex_encode b ++ [x2d] ++ hex_encode c ++ [x2d] ++ hex_encode d ++ [x2d] ++ hex_encode e.
Proof.
  intros Ha Hb Hc Hd He. unfold uuid_String, byteGroups. cbn [string_groups]. change (8 `div` 2)%nat with 4%nat. change (4 `div` 2)%nat with 2%nat. change (12 `div` 2)%nat with 6%nat.
  rewrite (take_app_length' a) by done. rewrite (drop_app_length' a) by done. do 3 (rewrite take_app_length' by done; rewrite drop_app_length' by done).
  rewrite take_ge by lia. rewrite app_nil_r. done.
Qed.

Lemma uuid_ParseString_String u : length u = 16%nat -> ParseString (uuid_String u) = Ok u.
Proof.
  intros Hu. destruct (uuid_groups u Hu) as (a & b & c & d & e & -> & Ha & Hb & Hc & Hd & He). rewrite uuid_String_groups by done.
  unfold ParseString. destruct (Nat.ltb_spec (length (hex_encode a ++ [x2d] ++ hex_encode b ++ [x2d] ++ hex_encode c ++ [x2d] ++ hex_encode d ++ [x2d] ++ hex_encode e)) 32) as [Hl|_].
  { rewrite !length_app, !length_hex_encode in Hl. cbn [length] in Hl. lia. }
  assert (forall x : bytes, length x ≠ 0%nat -> x ≠ []) as Hne by (by intros [|] ?).
  unfold byteGroups. rewrite <-(app_nil_l (hex_encode a ++ _)). rewrite (parse_groups_step 8 _ a _ []) by (auto || lia || apply Hne; lia).
  rewrite (parse_groups_step 4 _ b _ [x2d]) by (auto || lia || apply Hne; lia).
  rewrite (parse_groups_step 4 _ c _ [x2d]) by (auto || lia || apply Hne; lia).
  rewrite (parse_groups_step 4 _ d _ [x2d]) by (auto || lia || apply Hne; lia).
  rewrite <-(app_nil_r (hex_encode e)). rewrite (parse_groups_step 12 _ e _ [x2d]) by (auto || lia || apply Hne; lia).
  cbn [parse_groups]. by rewrite app_nil_r.
Qed.


(** ** Validators *)

Section ValidatorFacts.
Context `{StringLibs} {A : Type} (key : A -> bytes).

Inductive user_op := op_add (u : MemoryUser A) | op_del (e : bytes).

Definition key_of (u : MemoryUser A) : option bytes := key <$> Account u.

(** A validator told what to do, errors leaving it as it was. *)
Definition step_validator (v : Validator A) (o : user_op) : Validator A * option validator_error :=
  match match o with op_add u => Add key v u | op_del e => Del key v e end with
  | Ok v' => (v', None) | Err e => (v, Some e) | Panic => (v, None)
  end.

(** The same on the list of registered users. *)
Definition has_email (e : bytes) (u : MemoryUser A) : Prop := Email u ≠ [] /\ ToLower (Email u) = ToLower e.

#[local] Instance has_email_dec e u : Decision (has_email e u).
Proof. unfold has_email. apply _. Defined.

Definition step_users (l : list (MemoryUser A)) (o : user_op) : list (MemoryUser A) * option validator_error :=
  match o with
  | op_add u => if decide (Email u ≠ [] /\ Exists (has_email (Email u)) l) then (l, Some errUserExists) else (l ++ [u], None)
  | op_del e =>
      match e with
      | [] => (l, Some errEmptyEmail)
      | _ => if decide (Exists (has_email e) l) then (filter (fun u => ~ has_email e u) l, None) else (l, Some errUserNotFound)
      end
  end.

Fixpoint run_both (v : Validator A) (l : list (MemoryUser A)) (ops : list user_op) : Validator A * list (MemoryUser A) * bool :=
  match ops with
  | [] => (v, l, true)
  | o :: ops' =>
      let '(v, e) := step_validator v o in
      let '(l, e') := step_users l o in
      let '(v, l, same) := run_both v l ops' in
      (v, l, same && match e, e' with
                     | None, None | Some errUserExists, Some errUserExists | Some errEmptyEmail, Some errEmptyEmail
                     | Some errUserNotFound, Some errUserNotFound => true | _, _ => false end)
  end.

(** No one is given the key of a registered user. *)
Fixpoint keys_new (l : list (MemoryUser A)) (ops : list user_op) : Prop :=
  match ops with
  | [] => True
  | o :: ops' => match o with op_add u => exists k, key_of u = Some k /\ (forall u', u' ∈ l -> key_of u' ≠ Some k) | op_del _ => True end /\
                 keys_new (step_users l o).1 ops'
  end.

(** The validator holds exactly these users. *)
Record represents (v : Validator A) (l : list (MemoryUser A)) : Prop := {
  rep_email : forall e u, v_email v !! e = Some u <-> u ∈ l /\ Email u ≠ [] /\ ToLower (Email u) = e;
  rep_users : forall k u, v_users v !! k = Some u <-> u ∈ l /\ key_of u = Some k;
  rep_keys : forall u, u ∈ l -> is_Some (key_of u);
}.

Lemma user_key_ok u k : key_of u = Some k -> user_key key u = Ok k.
Proof. unfold key_of, user_key. by destruct (Account u); intros [= <-]. Qed.

Lemma email_taken v l e : represents v l -> Exists (has_email e) l <-> is_Some (v_email v !! ToLower e).
Proof.
  intros Hr. rewrite Exists_exists. split.
  - intros (u & Hu & Hne & He). exists u. apply (rep_email v l Hr). auto.
  - intros [u Hu]. apply (rep_email v l Hr) in Hu as (Hu & Hne & He). exists u. by repeat split.
Qed.

Lemma represents_add v l u k : represents v l -> key_of u = Some k -> (forall u', u' ∈ l -> key_of u' ≠ Some k) ->
  (Email u ≠ [] -> v_email v !! ToLower (Email u) = None) ->
  represents {| v_email := match Email u with [] => v_email v | _ => <[ToLower (Email u) := u]> (v_email v) end;
                v_users := <[k := u]> (v_users v) |} (l ++ [u]).
Proof.
  intros [He Hu Hk] Hkey Hnew Hfree. split; cbn [v_email v_users].
  - intros e u'. rewrite elem_of_app, list_elem_of_singleton. destruct (Email u) as [|c em] eqn:Eu.
    + rewrite He. split; [naive_solver|]. intros ([? | ->] & Hne & <-); [done|congruence].
    + specialize (Hfree ltac:(done)). rewrite lookup_insert_Some, He. split.
      * intros [[<- <-]|(Hne & Hin & Hne' & <-)]; [|by auto]. split; [by right|]. by rewrite Eu.
      * intros ([Hin | ->] & Hne & <-); [|left; by rewrite Eu]. right. split; [|by auto]. intros Heq.
        assert (v_email v !! ToLower (Email u') = Some u') as Hl by (apply He; auto). rewrite <-Heq in Hl. congruence.
  - intros k' u'. rewrite elem_of_app, list_elem_of_singleton, lookup_insert_Some, Hu. split.
    + intros [[<- <-]|(Hne & Hin & Hk')]; auto.
    + intros ([Hin | ->] & Hk'); [|left; by rewrite Hkey in Hk'; injection Hk' as ->]. right. split; [|done]. intros ->. by apply (Hnew u' Hin).
  - intros u'. rewrite elem_of_app, list_elem_of_singleton. intros [Hin | ->]; [by apply Hk|by rewrite Hkey].
Qed.

Lemma represents_del v l e u k : represents v l -> v_email v !! ToLower e = Some u -> key_of u = Some k ->
  represents {| v_email := delete (ToLower e) (v_email v); v_users := delete k (v_users v) |} (filter (fun u => ~ has_email e u) l).
Proof.
  intros Hr Hl Hkey. pose proof Hr as [He Hu Hk]. pose proof Hl as (Hin & Hne & Heu)%He.
  assert (forall u', u' ∈ l -> has_email e u' -> u' = u) as Huniq.
  { intros u' Hin' [Hne' He']. assert (v_email v !! ToLower e = Some u') as Hl' by (apply He; auto). congruence. }
  assert (forall k' u', v_users v !! k' = Some u' -> u' = u -> k' = k) as Hkk by (intros k' u' [_ Hk']%Hu ->; congruence).
  split; cbn [v_email v_users].
  - intros e' u'. rewrite lookup_delete_Some, He, list_elem_of_filter. unfold has_email. naive_solver.
  - intros k' u'. rewrite lookup_delete_Some, Hu, list_elem_of_filter. split.
    + intros (Hne' & Hin' & Hk'). split; [|done]. split; [|done]. intros Hem. rewrite (Huniq u' Hin' Hem) in Hk'. congruence.
    + intros ((Hnem & Hin') & Hk'). split; [|done]. intros <-. assert (v_users v !! k = Some u') as Hx by (by apply Hu).
      assert (v_users v !! k = Some u) as Hy by (by apply Hu). rewrite Hx in Hy. injection Hy as ->. by apply Hnem.
  - intros u' (_ & Hin')%list_elem_of_filter. by apply Hk.
Qed.

Lemma step_both v l o : represents v l -> keys_new l [o] ->
  represents (step_validator v o).1 (step_users l o).1 /\ (step_validator v o).2 = (step_users l o).2.
Proof.
  intros Hr [Ho _]. destruct o as [u|e]; unfold step_validator, step_users.
  - destruct Ho as (k & Hkey & Hnew). unfold Add. rewrite (user_key_ok u k Hkey). destruct (Email u) as [|c em] eqn:Eu.
    + rewrite decide_False by (by intros [? _]). cbn. split; [|done]. pose proof (represents_add v l u k Hr Hkey Hnew) as Hadd. rewrite Eu in Hadd. by apply Hadd.
    + rewrite <-Eu in *. destruct (v_email v !! ToLower (Email u)) as [u'|] eqn:El.
      * rewrite decide_True; [done|]. split; [by rewrite Eu|]. apply (email_taken v l _ Hr). by rewrite El.
      * rewrite decide_False; [|intros [_ Hx]; apply (email_taken v l _ Hr) in Hx as [? ?]; congruence].
        cbn [mbind outcome_bind fst snd]. split; [|done]. pose proof (represents_add v l u k Hr Hkey Hnew (fun _ => El)) as Hadd. by rewrite Eu in Hadd |- *.
  - unfold Del. destruct e as [|c e']; [done|]. set (e := c :: e') in *. destruct (v_email v !! ToLower e) as [u|] eqn:El.
    + rewrite decide_True by (apply (email_taken v l _ Hr); by rewrite El). pose proof El as (Hin & _)%(rep_email v l Hr).
      destruct (rep_keys v l Hr u Hin) as [k Hkey]. rewrite (user_key_ok u k Hkey). cbn. split; [|done]. by eapply represents_del.
    + rewrite decide_False; [done|]. intros [? ?]%(email_taken v l _ Hr). congruence.
Qed.

Lemma run_both_ok v l ops : represents v l -> keys_new l ops ->
  let '(v', l', same) := run_both v l ops in represents v' l' /\ same = true.
Proof.
  revert v l. induction ops as [|o ops IH]; intros v l Hr Hn; [done|]. cbn [run_both]. destruct Hn as [Ho Hn].
  destruct (step_both v l o Hr (conj Ho I)) as [Hr' He]. destruct (step_validator v o) as [v1 e1], (step_users l o) as [l1 e2]. cbn in *. subst e2.
  specialize (IH v1 l1 Hr' Hn). destruct (run_both v1 l1 ops) as [[v2 l2] same]. destruct IH as [IH ->]. split; [done|]. by destruct e1 as [[]|].
Qed.

Lemma represents_empty : represents empty_validator [].
Proof. split; cbn; intros; [rewrite lookup_empty; split; [done|by intros [?%not_elem_of_nil _]]..|by apply not_elem_of_nil in H0]. Qed.
End ValidatorFacts.

Lemma take_drop_middle' {A} m n (x y z : list A) : length x = m -> length y = n -> take n (drop m (x ++ y ++ z)) = y.
Proof. intros <- <-. by rewrite drop_app_length, take_app_length. Qed.

Lemma lookup_middle_at {A} i (x : list A) c z : length x = i -> (x ++ [c] ++ z) !! i = Some c.
Proof. intros <-. by apply list_lookup_middle. Qed.

Lemma uuid_ParseHexDashString_String u : length u = 16%nat -> ParseHexDashString (uuid_String u) = Some u.
Proof.
  intros Hu. destruct (uuid_groups u Hu) as (a & b & c & d & e & -> & Ha & Hb & Hc & Hd & He). rewrite uuid_String_groups by done.
  assert (forall x y z lo hi, length x = lo -> length (hex_encode y) = (hi - lo)%nat ->
    (let '(d, ok) := hex_decode (take (hi - lo) (drop lo (x ++ hex_encode y ++ z))) in if ok : bool then Some d else None) = Some y) as Hpart.
  { intros x y z lo hi Hx Hy. rewrite take_drop_middle' by done. by rewrite hex_decode_encode. }
  set (s := hex_encode a ++ _).
  assert (s = hex_encode a ++ [x2d] ++ hex_encode b ++ [x2d] ++ hex_encode c ++ [x2d] ++ hex_encode d ++ [x2d] ++ hex_encode e) as E0 by done.
  assert (s = (hex_encode a ++ [x2d]) ++ hex_encode b ++ [x2d] ++ hex_encode c ++ [x2d] ++ hex_encode d ++ [x2d] ++ hex_encode e) as E1 by (by rewrite E0, <-!app_assoc).
  assert (s = (hex_encode a ++ [x2d] ++ hex_encode b) ++ [x2d] ++ hex_encode c ++ [x2d] ++ hex_encode d ++ [x2d] ++ hex_encode e) as E2 by (by rewrite E0, <-!app_assoc).
  assert (s = (hex_encode a ++ [x2d] ++ hex_encode b ++ [x2d]) ++ hex_encode c ++ [x2d] ++ hex_encode d ++ [x2d] ++ hex_encode e) as E3 by (by rewrite E0, <-!app_assoc).
  assert (s = (hex_encode a ++ [x2d] ++ hex_encode b ++ [x2d] ++ hex_encode c) ++ [x2d] ++ hex_encode d ++ [x2d] ++ hex_encode e) as E4 by (by rewrite E0, <-!app_assoc).
  assert (s = (hex_encode a ++ [x2d] ++ hex_encode b ++ [x2d] ++ hex_encode c ++ [x2d]) ++ hex_encode d ++ [x2d] ++ hex_encode e) as E5 by (by rewrite E0, <-!app_assoc).
  assert (s = (hex_encode a ++ [x2d] ++ hex_encode b ++ [x2d] ++ hex_encode c ++ [x2d] ++ hex_encode d) ++ [x2d] ++ hex_encode e) as E6 by (by rewrite E0, <-!app_assoc).
  assert (s = (hex_encode a ++ [x2d] ++ hex_encode b ++ [x2d] ++ hex_encode c ++ [x2d] ++ hex_encode d ++ [x2d]) ++ hex_encode e ++ []) as E7 by (by rewrite E0, app_nil_r, <-!app_assoc).
  assert (length s = 36%nat) as Hs by (rewrite E0, !length_app, !length_hex_encode; cbn [length]; lia).
  assert (s !! 8%nat = Some x2d) as L1 by (rewrite E0; apply lookup_middle_at; rewrite length_hex_encode; lia).
  assert (s !! 13%nat = Some x2d) as L2 by (rewrite E2; apply lookup_middle_at; rewrite !length_app, !length_hex_encode; cbn [length]; lia).
  assert (s !! 18%nat = Some x2d) as L3 by (rewrite E4; apply lookup_middle_at; rewrite !length_app, !length_hex_encode; cbn [length]; lia).
  assert (s !! 23%nat = Some x2d) as L4 by (rewrite E6; apply lookup_middle_at; rewrite !length_app, !length_hex_encode; cbn [length]; lia).
  unfold ParseHexDashString. rewrite Hs, L1, L2, L3, L4, !bool_decide_true by done. cbn [negb orb Nat.eqb].
  assert (forall x y z lo hi, s = x ++ hex_encode y ++ z -> length x = lo -> length (hex_encode y) = (hi - lo)%nat ->
    (let '(d, ok) := hex_decode (take (hi - lo) (drop lo s)) in if ok : bool then Some d else None) = Some y) as Hp by (intros x y z lo hi ->; apply Hpart).
  pose proof (Hp [] a _ 0%nat 8%nat E0 eq_refl ltac:(rewrite length_hex_encode; lia)) as P1.
  pose proof (Hp _ b _ 9%nat 13%nat E1 ltac:(rewrite !length_app, !length_hex_encode; cbn [length]; lia) ltac:(rewrite length_hex_encode; lia)) as P2.
  pose proof (Hp _ c _ 14%nat 18%nat E3 ltac:(rewrite !length_app, !length_hex_encode; cbn [length]; lia) ltac:(rewrite length_hex_encode; lia)) as P3.
  pose proof (Hp _ d _ 19%nat 23%nat E5 ltac:(rewrite !length_app, !length_hex_encode; cbn [length]; lia) ltac:(rewrite length_hex_encode; lia)) as P4.
  pose proof (Hp _ e _ 24%nat 36%nat E7 ltac:(rewrite !length_app, !length_hex_encode; cbn [length]; lia) ltac:(rewrite length_hex_encode; lia)) as P5.
  clearbody s. cbv zeta. rewrite P1, P2, P3, P4, P5. done.
Qed.

(** ** Properties *)

(** The text of a UUID is read back by both parsers. *)
Theorem uuid_text_roundtrip u : length u = 16%nat -> ParseString (uuid_String u) = Ok u /\ ParseHexDashString (uuid_String u) = Some u.
Proof. intros Hu. split; [by apply uuid_ParseString_String|by apply uuid_ParseHexDashString_String]. Qed.

(** Told to add and to delete users in any order, a validator answers as
    the list of registered users does: a second user of an email is refused,
    upper and lower case being the same, an email nobody has cannot be
    deleted, and a key leads to the user it was given to; provided nobody is
    given the key of a registered user. *)
Theorem validator_is_user_list `{StringLibs} {A} (key : A -> bytes) ops :
  keys_new key [] ops ->
  let '(v, l, same) := run_both key empty_validator [] ops in
  same = true /\ forall k u, Get v k = Some u <-> u ∈ l /\ key_of key u = Some k.
Proof.
  intros Hn. pose proof (run_both_ok key empty_validator [] ops (represents_empty key) Hn) as Hr.
  destruct (run_both key empty_validator [] ops) as [[v l] same]. destruct Hr as [Hr ->]. split; [done|]. exact (rep_users key v l Hr).
Qed.

(** Two users who share a key: nothing refuses the second, and deleting the
    first takes the key away from both. *)
Theorem shared_key_locks_out `{StringLibs} {A} (key : A -> bytes) (a : A) e1 e2 :
  e1 ≠ [] -> e2 ≠ [] -> ToLower e1 ≠ ToLower e2 ->
  let u1 := {| Account := Some a; Email := e1; Level := 0 |} in
  let u2 := {| Account := Some a; Email := e2; Level := 0 |} in
  exists v, (v ← Add key empty_validator u1; v ← Add key v u2; Del key v e1) = Ok v /\ Get v (key a) = None /\ v_email v !! ToLower e2 = Some u2.
Proof.
  intros H1 H2 Hne u1 u2. unfold Add, Del. cbn [Email u1 u2]. destruct e1 as [|c1 e1]; [done|]. destruct e2 as [|c2 e2]; [done|].
  cbn [empty_validator v_email v_users]. rewrite lookup_empty.
  assert (user_key key u1 = Ok (key a) /\ user_key key u2 = Ok (key a)) as [Hk1 Hk2] by done. rewrite Hk1. cbn [mbind outcome_bind v_email v_users].
  rewrite lookup_insert_ne, lookup_empty by done. rewrite Hk2. cbn [mbind outcome_bind v_email v_users].
  rewrite lookup_insert_ne, lookup_insert_eq by done. rewrite Hk1. cbn [mbind outcome_bind].
  eexists. split; [done|]. unfold Get. cbn [v_users v_email]. split; [apply lookup_delete_eq|].
  rewrite lookup_delete_ne by done. apply lookup_insert_eq.
Qed.

(** ** Witnesses *)

Lemma validator_is_user_list_witness :
  let u n := {| Account := Some (bs n); Email := bs n; Level := 0 |} in
  let '(v, l, same) := run_both (H := ascii_libs) (fun k : bytes => k) empty_validator [] [op_add (u "Ann"%string); op_add (u "bob"%string); op_del (bs "ANN")] in
  same = true /\ forall k u, Get v k = Some u <-> u ∈ l /\ key_of (fun k : bytes => k) u = Some k.
Proof.
  apply (validator_is_user_list (H := ascii_libs) (fun k : bytes => k)). split; [eexists; split; [reflexivity|]; intros u' ?%not_elem_of_nil; done|].
  split; [|split; [done|done]]. eexists. split; [reflexivity|]. vm_compute. intros u' Hu. apply elem_of_cons in Hu as [-> | Hu%not_elem_of_nil]; [discriminate|done].
Defined.
