(* ===== verification/Trojan.v ===== *)
(** * Trojan, [proxy/trojan/]

    The header of a connection, the packets of a UDP connection, and the
    server's choice between serving a connection and falling back. *)

From S2P Require Import Prelude Matchers Net Segment Buffer BufferFacts AddressCodec AddressCodecFacts Handshake Users.

Local Open Scope Z_scope.

(** src/proxy/trojan/protocol.go:14-14 crlf *)
Definition crlf : bytes := [x0d; x0a].

(** src/proxy/trojan/protocol.go:16-20 addrParser *)
Definition addrParser : AddressSerializer :=
  NewAddressParser (omap (fun o => match o with Ok f => Some f | _ => None end)
    [AddressFamilyByte x01 AddressFamilyIPv4; AddressFamilyByte x04 AddressFamilyIPv6; AddressFamilyByte x03 AddressFamilyDomain]).

(** src/proxy/trojan/protocol.go:23-26 commandTCP *)
Definition commandTCP : byte := x01.
Definition commandUDP : byte := x03.

(** src/proxy/trojan/config.go MemoryAccount *)
Record MemoryAccount := { Password : bytes; Key : bytes }.

(** src/proxy/trojan/config.go MemoryAccount.Equals *)
Definition account_Equals (a b : MemoryAccount) : bool := bool_decide (Password a = Password b).

(** [sha224] is the hash, of 28 bytes.
    src/proxy/trojan/config.go hexSha224 *)
Definition hexSha224 (sha224 : bytes -> bytes) (password : bytes) : bytes := hex_encode (sha224 password).

(** src/proxy/trojan/config.go Account.AsAccount *)
Definition AsAccount (sha224 : bytes -> bytes) (password : bytes) : MemoryAccount :=
  {| Password := password; Key := hexSha224 sha224 password |}.

(** src/proxy/trojan/config.go hexString *)
Definition hexString (data : bytes) : bytes := hex_encode data.

Inductive trojan_error := errUnknownCommand (c : byte) | errNotTrojan | errNotUser.

Section Trojan.
Context {W : Type} (write : W -> bytes -> W * bool) (garbage : bytes) (alloc : Z -> bytes).
Abbreviation M := (io trojan_error W).

(** ** The connection *)

(** src/proxy/trojan/protocol.go ConnWriter *)
Record ConnWriter := { cw_Target : Destination; cw_Account : MemoryAccount; headerSent : bool }.

(** src/proxy/trojan/protocol.go ConnWriter.writeHeader *)
Definition writeHeader (c : ConnWriter) : M ConnWriter :=
  let command := if decide (dest_Network (cw_Target c) = Network_UDP) then commandUDP else commandTCP in
  '(buffer, _) ← checked (Write (StackNew garbage) (Key (cw_Account c)));
  '(buffer, _) ← checked (Write buffer crlf);
  buffer ← checked (WriteByte buffer command);
  buffer ← put_address_port addrParser buffer (dest_Address (cw_Target c)) (dest_Port (cw_Target c));
  '(buffer, _) ← checked (Write buffer crlf);
  data ← pure (Bytes buffer);
  _ ← send write data;
  mret {| cw_Target := cw_Target c; cw_Account := cw_Account c; headerSent := true |}.

(** src/proxy/trojan/protocol.go ConnWriter.WriteHeader *)
Definition WriteHeader (c : ConnWriter) : M ConnWriter := if headerSent c then mret c else writeHeader c.

(** src/proxy/trojan/protocol.go ConnWriter.Write *)
Definition ConnWriter_Write (c : ConnWriter) (p : bytes) : M ConnWriter :=
  c ← (if headerSent c then mret c else writeHeader c);
  _ ← send write p;
  mret c.

(** src/proxy/trojan/protocol.go ConnWriter.WriteMultiBuffer *)
Fixpoint ConnWriter_WriteMultiBuffer (c : ConnWriter) (mb : MultiBuffer) : M ConnWriter :=
  match mb with
  | [] => mret c
  | b :: mb' =>
      c ← (if negb (IsEmpty b) then data ← pure (Bytes b); ConnWriter_Write c data else mret c);
      ConnWriter_WriteMultiBuffer c mb'
  end.

(** src/proxy/trojan/protocol.go ConnReader *)
Record ConnReader := { cr_Target : Destination; headerParsed : bool }.

(** What the reader was before does not matter; the hash and the two line
    ends are read and not looked at.
    src/proxy/trojan/protocol.go ConnReader.ParseHeader *)
Definition ParseHeader : M ConnReader :=
  _ ← read_bytes 56;
  _ ← read_bytes 2;
  command ← read_bytes 1;
  network ← match command with
            | [c] => if decide (c = commandTCP) then mret Network_TCP
                     else if decide (c = commandUDP) then mret Network_UDP
                     else refuse (errUnknownCommand c)
            | _ => pure Panic
            end;
  '(addr, port) ← read_address_port garbage addrParser None;
  _ ← read_bytes 2;
  mret {| cr_Target := {| dest_Address := addr; dest_Port := port; dest_Network := network |}; headerParsed := true |}.

(** src/proxy/trojan/protocol.go ConnReader.Read *)
Definition ConnReader_Read (c : ConnReader) (n : nat) : M (ConnReader * bytes) :=
  c ← (if headerParsed c then mret c else ParseHeader);
  data ← read_some n;
  mret (c, data).

(** src/proxy/trojan/protocol.go ConnReader.ReadMultiBuffer *)
Definition ConnReader_ReadMultiBuffer (c : ConnReader) : M (ConnReader * MultiBuffer) :=
  '(c, data) ← ConnReader_Read c (length garbage);
  '(b, _, _) ← checked (ReadFrom (New garbage) (fun n => (take n data, false)));
  mret (c, [b]).

(** ** Packets *)

(** The writer below is the connection or a [ConnWriter] over it. *)
Section PacketWriter.
Context {S : Type} (under : S -> bytes -> M S).

(** The length is cut to 16 bits.
    src/proxy/trojan/protocol.go PacketWriter.writePacket *)
Definition writePacket (s : S) (payload : bytes) (dest : Destination) : M (S * Z) :=
  addrPortLen ← (match addr_port_len (dest_Address dest) with
                 | Ok n => mret n | Err _ => fails (ErrAddress ErrLongDomain) | Panic => pure Panic
                 end);
  let length_ := Z.of_nat (length payload) in
  let buffer := NewWithSize (alloc (i32 (addrPortLen + 2 + 2 + i32 length_))) in
  buffer ← put_address_port addrParser buffer (dest_Address dest) (dest_Port dest);
  '(buffer, _) ← checked (Write buffer (put16 (u16 length_)));
  '(buffer, _) ← checked (Write buffer crlf);
  '(buffer, _) ← checked (Write buffer payload);
  data ← pure (Bytes buffer);
  s ← under s data;
  mret (s, length_).

(** [target] is the writer's.
    src/proxy/trojan/protocol.go PacketWriter.WriteMultiBuffer *)
Fixpoint PacketWriter_WriteMultiBuffer (target : Destination) (s : S) (mb : MultiBuffer) : M S :=
  match mb with
  | [] => mret s
  | b :: mb' =>
      s ← (if IsEmpty b then mret s
           else data ← pure (Bytes b); '(s, _) ← writePacket s data (default target (Endpoint b)); mret s);
      PacketWriter_WriteMultiBuffer target s mb'
  end.

(** src/proxy/trojan/protocol.go PacketWriter.WriteMultiBufferWithMetadata *)
Fixpoint WriteMultiBufferWithMetadata (dest : Destination) (s : S) (mb : MultiBuffer) : M S :=
  match mb with
  | [] => mret s
  | b :: mb' =>
      s ← (if IsEmpty b then mret s else data ← pure (Bytes b); '(s, _) ← writePacket s data dest; mret s);
      WriteMultiBufferWithMetadata dest s mb'
  end.

(** src/proxy/trojan/protocol.go PacketWriter.WriteTo *)
Definition PacketWriter_WriteTo (s : S) (payload : bytes) (addr : net_Addr) : M (S * Z) :=
  dest ← pure (DestinationFromAddr addr);
  writePacket s payload dest.
End PacketWriter.

(** The reader below is the connection, whose header was read before.
    src/proxy/trojan/protocol.go PacketReader.ReadMultiBufferWithMetadata *)
Definition ReadMultiBufferWithMetadata : M (Destination * MultiBuffer) :=
  '(addr, port) ← read_address_port garbage addrParser None;
  lengthBuf ← read_bytes 2;
  let length_ := get16 lengthBuf in
  _ ← read_bytes 2;
  let dest := UDPDestination addr port in
  b ← read_into (NewWithSize (alloc length_)) length_;
  mret (dest, [set_endpoint b (Some dest)]).

(** src/proxy/trojan/protocol.go PacketReader.ReadMultiBuffer *)
Definition PacketReader_ReadMultiBuffer : M MultiBuffer :=
  '(_, mb) ← ReadMultiBufferWithMetadata;
  mret mb.
End Trojan.

(** ** The server *)

(** The users, by the hexadecimal text of their key.
    src/proxy/trojan/validator.go:25-25 Validator.Add *)
Definition trojan_key (a : MemoryAccount) : bytes := hexString (Key a).

(** Whose connection it is, by the first bytes read of it.
    src/proxy/trojan/server.go:164-190 Server.Process *)
Definition connection_user (v : Validator MemoryAccount) (first : Buffer) (firstLen : Z) : outcome trojan_error (MemoryUser MemoryAccount) :=
  match (if firstLen <? 58 then Ok None else b ← Byte first 56; Ok (Some b)) : outcome unit (option byte) with
  | Panic | Err _ => Panic
  | Ok None => Err errNotTrojan
  | Ok (Some b) =>
      if decide (b ≠ x0d) then Err errNotTrojan
      else match BytesTo first 56 with
           | Panic | Err _ => Panic
           | Ok hash => match Get v (hexString hash) with None => Err errNotUser | Some u => Ok u end
           end
  end.

(** What becomes of a connection. *)
Inductive served :=
  | served_packets (user : MemoryUser MemoryAccount)
  | served_stream (user : MemoryUser MemoryAccount) (destination : Destination)
  | fell_back.

(** [chunk] bytes come with the first read; what was read is read again by
    the header's reader. [isfb] is whether there are fallbacks.
    src/proxy/trojan/server.go Server.Process *)
Definition server_Process {W} (garbage array : bytes) (v : Validator MemoryAccount) (isfb : bool) (chunk : nat) : io trojan_error W served :=
  fun s =>
  match ReadFrom (Clear (FromBytes array)) (fun n => (take (Nat.min n chunk) (incoming s), bool_decide (incoming s = []))) with
  | Panic => (Panic, s)
  | Err _ | Ok (_, _, true) => (Err ErrReader, s)
  | Ok (first, firstLen, false) =>
      match connection_user v first firstLen with
      | Panic => (Panic, s)
      | Err e => if isfb : bool then (Ok fell_back, s) else (Err (ErrRefused e), s)
      | Ok user =>
          (c ← ParseHeader garbage;
           mret (if decide (dest_Network (cr_Target c) = Network_UDP) then served_packets user else served_stream user (cr_Target c)) : io trojan_error W served) s
      end
  end.

(** * Facts about Trojan

    What a client writes, a stream or packets behind the header, the server
    reads back; and no input makes the server panic. *)


Lemma trojan_parser_knows f : family_ok (parser_of addrParser) f.
Proof.
  destruct f; [exists x01|exists x04|exists x03]; (split; [reflexivity|]; split; [discriminate|]; split; [vm_compute; reflexivity|reflexivity]).
Qed.

(** ** Messages *)

Definition target_ok (d : Destination) (a : Address) : Prop := dest_Address d = Some a /\ addr_ok a /\ 0 <= dest_Port d < 2 ^ 16.

Definition command_of (d : Destination) : byte := if decide (dest_Network d = Network_UDP) then commandUDP else commandTCP.

Definition msg_header (c : ConnWriter) (a : Address) : bytes :=
  Key (cw_Account c) ++ crlf ++ [command_of (cw_Target c)] ++ enc_address_port addrParser a (dest_Port (cw_Target c)) ++ crlf.

Definition msg_datagram (a : Address) (port : Z) (payload : bytes) : bytes :=
  enc_address_port addrParser a port ++ put16 (Z.of_nat (length payload)) ++ crlf ++ payload.

Section Runs.
Context (g : bytes) (Hg : length g = Z.to_nat Size) (alloc : Z -> bytes) (Halloc : allocates alloc).
Abbreviation K := (Z.to_nat Size).

Ltac fits := pose proof K_large; unfold crlf; rewrite ?length_app, ?length_put16; cbn [length]; lia.

Definition sent (c : ConnWriter) : ConnWriter := {| cw_Target := cw_Target c; cw_Account := cw_Account c; headerSent := true |}.

Lemma writeHeader_ok c a i w : target_ok (cw_Target c) a -> length (Key (cw_Account c)) = 56%nat ->
  writeHeader append g c {| incoming := i; writer := w |} = (Ok (sent c), {| incoming := i; writer := w ++ msg_header c a |}).
Proof.
  intros (Ha & Hok & Hp) Hkey. unfold writeHeader. fold (command_of (cw_Target c)). cbv zeta. rewrite Ha.
  pose proof (enc_address_port_length addrParser a (dest_Port (cw_Target c)) Hok). pose proof (held_New g Hg) as H0. change (New g) with (StackNew g) in H0.
  next (bind_checked_write (Key (cw_Account c)) H0) as b1 H1; [fits|].
  next (bind_checked_write crlf H1) as b2 H2; [fits|].
  next (bind_checked_write_byte (command_of (cw_Target c)) H2) as b3 H3; [fits|].
  next (bind_put_address_port (port := dest_Port (cw_Target c)) (trojan_parser_knows (Family a)) Hok H3) as b4 H4; [fits|].
  next (bind_checked_write crlf H4) as b5 H5; [fits|].
  rewrite (bind_bytes H5), io_bind_send. unfold msg_header. by rewrite <-!app_assoc.
Qed.
Lemma WriteHeader_ok c a i w : target_ok (cw_Target c) a -> length (Key (cw_Account c)) = 56%nat ->
  WriteHeader append g c {| incoming := i; writer := w |} =
    (Ok (sent c), {| incoming := i; writer := w ++ (if headerSent c then [] else msg_header c a) |}).
Proof.
  intros Ha Hk. unfold WriteHeader. destruct (headerSent c) eqn:Es; [|by apply writeHeader_ok]. rewrite app_nil_r. unfold sent. rewrite <-Es at 1. by destruct c.
Qed.

(** The header goes before the first bytes. *)
Lemma ConnWriter_Write_ok c a p i w : target_ok (cw_Target c) a -> length (Key (cw_Account c)) = 56%nat ->
  ConnWriter_Write append g c p {| incoming := i; writer := w |} =
    (Ok (sent c), {| incoming := i; writer := w ++ (if headerSent c then [] else msg_header c a) ++ p |}).
Proof.
  intros Ha Hk. unfold ConnWriter_Write. pose proof (WriteHeader_ok c a i w Ha Hk) as Hw. unfold WriteHeader in Hw.
  rewrite (io_bind_Ok _ _ _ _ _ Hw), io_bind_send. by rewrite <-app_assoc.
Qed.

Lemma ConnWriter_WriteMultiBuffer_ok c a mb i w : target_ok (cw_Target c) a -> length (Key (cw_Account c)) = 56%nat -> Forall wf mb ->
  exists c', ConnWriter_WriteMultiBuffer append g c mb {| incoming := i; writer := w |} =
    (Ok c', {| incoming := i; writer := w ++ (if headerSent c || bool_decide (contents mb = []) then [] else msg_header c a) ++ contents mb |}).
Proof.
  intros Ha Hk Hmb. revert c w Ha Hk. induction Hmb as [|b mb Hb Hmb IH]; intros c w Ha Hk; cbn [ConnWriter_WriteMultiBuffer].
  { exists c. change (contents []) with (@nil byte). by rewrite orb_true_r, !app_nil_r. }
  rewrite contents_cons, (IsEmpty_content b Hb). destruct (bool_decide_reflect (content b = [])) as [Hc|Hc]; cbn [negb].
  - destruct (IH c w Ha Hk) as [c' He]. exists c'. by rewrite io_bind_ret, Hc.
  - destruct (IH (sent c) (w ++ (if headerSent c then [] else msg_header c a) ++ content b)) as [c' He]; [done|done|]. exists c'.
    erewrite io_bind_Ok; [|rewrite (io_bind_pure _ _ _ _ (Bytes_content b Hb)); by apply ConnWriter_Write_ok]. rewrite He. cbn [sent headerSent orb app].
    rewrite bool_decide_false by (by intros [? _]%app_nil). rewrite orb_false_r. by rewrite <-!app_assoc.
Qed.

(** *** The server *)

Lemma ParseHeader_ok c a i (w : bytes) : target_ok (cw_Target c) a -> length (Key (cw_Account c)) = 56%nat ->
  ParseHeader g {| incoming := msg_header c a ++ i; writer := w |} =
    (Ok {| cr_Target := {| dest_Address := Some a; dest_Port := dest_Port (cw_Target c);
                           dest_Network := if decide (dest_Network (cw_Target c) = Network_UDP) then Network_UDP else Network_TCP |}; headerParsed := true |},
     {| incoming := i; writer := w |}).
Proof.
  intros (Ha & Hok & Hp) Hk. unfold ParseHeader, msg_header. rewrite <-!app_assoc.
  rewrite bind_read_bytes by done. rewrite bind_read_bytes by done. rewrite bind_read_bytes by done. cbv iota.
  rewrite (io_bind_Ok _ _ _ (if decide (dest_Network (cw_Target c) = Network_UDP) then Network_UDP else Network_TCP)
    {| incoming := enc_address_port addrParser a (dest_Port (cw_Target c)) ++ crlf ++ i; writer := w |}); [|unfold command_of; by destruct (decide (dest_Network (cw_Target c) = Network_UDP))].
  rewrite bind_address by (done || apply trojan_parser_knows). by rewrite bind_read_bytes.
Qed.

(** The first read holds the whole key. *)
Lemma ReadFrom_ext b f f' : f (room b) = f' (room b) -> ReadFrom b f = ReadFrom b f'.
Proof. unfold ReadFrom, room. intros ->. done. Qed.

Lemma server_Process_ok v user array isfb chunk c a i : length array = K -> (58 <= chunk)%nat ->
  target_ok (cw_Target c) a -> length (Key (cw_Account c)) = 56%nat -> Get v (trojan_key (cw_Account c)) = Some user ->
  server_Process g array v isfb chunk (start_of (msg_header c a ++ i)) =
    (Ok (if decide (dest_Network (cw_Target c) = Network_UDP) then served_packets user
         else served_stream user {| dest_Address := Some a; dest_Port := dest_Port (cw_Target c); dest_Network := Network_TCP |}),
     {| incoming := i; writer := [] |}).
Proof.
  intros Harr Hch Ha Hk Hget. unfold server_Process, start_of. cbn [incoming]. pose proof K_large as HK.
  assert (msg_header c a ++ i = (Key (cw_Account c) ++ crlf) ++ ([command_of (cw_Target c)] ++ enc_address_port addrParser a (dest_Port (cw_Target c)) ++ crlf) ++ i) as Hsplit
    by (unfold msg_header; by rewrite <-!app_assoc).
  destruct (first_read array chunk (msg_header c a ++ i)) as (first & -> & Hb & Hct); [rewrite Harr; apply K_small|]. rewrite Harr in Hct.
  rewrite bool_decide_false. 2: { unfold msg_header. intros [Hx _]%app_nil. by destruct (Key (cw_Account c)). }
  assert (length (Key (cw_Account c) ++ crlf) = 58%nat) as Hlen by (rewrite length_app, Hk; done).
  assert (content first = (Key (cw_Account c) ++ crlf) ++ take (Nat.min K chunk - 58) (([command_of (cw_Target c)] ++ enc_address_port addrParser a (dest_Port (cw_Target c)) ++ crlf) ++ i)) as Hct'.
  { rewrite Hct, Hsplit, take_app_ge by lia. by rewrite Hlen. }
  assert (connection_user v first (Z.of_nat (length (content first))) = Ok user) as ->.
  { unfold connection_user. destruct (Z.ltb_spec (Z.of_nat (length (content first))) 58) as [Hlt|_].
    { rewrite Hct', length_app in Hlt. lia. }
    change 56 with (Z.of_nat 56) at 1. rewrite (Byte_content first 56 x0d Hb). 2: { rewrite Hct', lookup_app_l by lia. rewrite lookup_app_r by lia. by rewrite Hk. }
    cbn [mbind outcome_bind]. rewrite decide_False by (intros Hx; by apply Hx). change 56 with (Z.of_nat 56).
    rewrite (BytesTo_content first 56 Hb). 2: { rewrite Hct', length_app. lia. }
    rewrite Hct', <-app_assoc, take_app_length' by done. unfold trojan_key in Hget. by rewrite Hget. }
  rewrite (io_bind_Ok _ _ _ _ _ (ParseHeader_ok c a i [] Ha Hk)). cbn [cr_Target dest_Network]. by destruct (decide (dest_Network (cw_Target c) = Network_UDP)).
Qed.

(** *** Packets *)

Lemma writePacket_ok {S} (under : S -> bytes -> io trojan_error bytes S) s payload dest a st s' st' : target_ok dest a -> Z.of_nat (length payload) < 65536 ->
  under s (msg_datagram a (dest_Port dest) payload) st = (Ok s', st') ->
  writePacket alloc under s payload dest st = (Ok (s', Z.of_nat (length payload)), st').
Proof.
  intros (Ha & Hok & Hp) Hl Hu. unfold writePacket. rewrite Ha, (addr_port_len_ok addrParser a (dest_Port dest) Hok), io_bind_ret.
  pose proof (enc_address_port_length addrParser a (dest_Port dest) Hok) as Henc.
  rewrite (i32_small (Z.of_nat (length payload))), i32_small by lia. remember (Z.of_nat (length (enc_address_port _ _ _)) + 2 + 2 + _) as n eqn:En. assert (n < 2 ^ 31) as Hn by lia.
  destruct (held_alloc alloc n Halloc Hn) as [H0 Hn']. cbv zeta.
  assert (length (put16 (u16 (Z.of_nat (length payload)))) = 2%nat) as Hput by apply length_put16.
  next (bind_put_address_port (port := dest_Port dest) (trojan_parser_knows (Family a)) Hok H0) as b1 H1; [cbn [length]; lia|].
  next (bind_checked_write (put16 (u16 (Z.of_nat (length payload)))) H1) as b2 H2; [rewrite length_app, Hput; cbn [length]; lia|].
  next (bind_checked_write crlf H2) as b3 H3; [rewrite !length_app, Hput; unfold crlf; cbn [length]; lia|].
  next (bind_checked_write payload H3) as b4 H4; [rewrite !length_app, Hput; unfold crlf; cbn [length]; lia|].
  rewrite (bind_bytes H4). rewrite u16_small in H4 |- * by lia. rewrite <-!app_assoc. cbn [app]. fold (msg_datagram a (dest_Port dest) payload).
  unfold msg_datagram in Hu. by rewrite (io_bind_Ok _ _ _ _ _ Hu).
Qed.

Lemma packet_read a port payload i (w : bytes) : addr_ok a -> 0 <= port < 2 ^ 16 -> Z.of_nat (length payload) < 65536 ->
  exists b, ReadMultiBufferWithMetadata g alloc {| incoming := msg_datagram a port payload ++ i; writer := w |} =
    (Ok (UDPDestination (Some a) port, [b]), {| incoming := i; writer := w |}) /\
    wf b /\ content b = payload /\ Endpoint b = Some (UDPDestination (Some a) port).
Proof.
  intros Hok Hp Hl. unfold ReadMultiBufferWithMetadata, msg_datagram. rewrite <-!app_assoc. rewrite bind_address by (done || apply trojan_parser_knows).
  rewrite bind_read_bytes by apply length_put16. rewrite bind_read_bytes by done. cbv zeta.
  assert (get16 (put16 (Z.of_nat (length payload))) = Z.of_nat (length payload)) as Hget.
  { rewrite <-(app_nil_r (put16 _)), get16_put16. apply u16_small. lia. }
  rewrite Hget. destruct (held_alloc alloc (Z.of_nat (length payload)) Halloc) as [H0 Hn]; [lia|].
  next (bind_read (x := payload) H0) as b1 H1; [by rewrite Nat2Z.id|lia|cbn [length]; lia|].
  eexists. split; [done|]. destruct (held_end _ _ _ H1) as (Hb & Hc & _). destruct Hb as [? ? ?]. split; [by split|by split].
Qed.
(** A buffer that is one packet, and where it goes. *)
Definition goes_to (target : Destination) (b : Buffer) : Destination := default target (Endpoint b).

Definition packet_ok (target : Destination) (b : Buffer) : Prop :=
  wf b /\ content b ≠ [] /\ Z.of_nat (length (content b)) < 65536 /\ exists a, target_ok (goes_to target b) a.

Definition enc_packet (target : Destination) (b : Buffer) : bytes :=
  match dest_Address (goes_to target b) with Some a => msg_datagram a (dest_Port (goes_to target b)) (content b) | None => [] end.

Lemma enc_packet_to target b a : dest_Address (goes_to target b) = Some a -> enc_packet target b = msg_datagram a (dest_Port (goes_to target b)) (content b).
Proof. unfold enc_packet. by intros ->. Qed.

Lemma write_packets_ok c a target mb i w : target_ok (cw_Target c) a -> length (Key (cw_Account c)) = 56%nat -> Forall (packet_ok target) mb ->
  exists c', PacketWriter_WriteMultiBuffer alloc (ConnWriter_Write append g) target c mb {| incoming := i; writer := w |} =
    (Ok c', {| incoming := i; writer := w ++ (if headerSent c || bool_decide (mb = []) then [] else msg_header c a) ++ (mb ≫= enc_packet target) |}).
Proof.
  intros Ha Hk Hmb. revert c w Ha Hk. induction Hmb as [|b mb (Hb & Hne & Hl & a' & Ha') Hmb IH]; intros c w Ha Hk; cbn [PacketWriter_WriteMultiBuffer].
  { exists c. rewrite bool_decide_true, orb_true_r by done. by rewrite !app_nil_r. }
  destruct (IH (sent c) (w ++ (if headerSent c then [] else msg_header c a) ++ enc_packet target b)) as [c' He]; [done|done|]. exists c'.
  rewrite (IsEmpty_content b Hb), bool_decide_false by done. fold (goes_to target b). pose proof Ha' as (Haddr & _).
  erewrite io_bind_Ok; [|rewrite (io_bind_pure _ _ _ _ (Bytes_content b Hb));
    rewrite (io_bind_Ok _ _ _ _ _ (writePacket_ok (ConnWriter_Write append g) c (content b) (goes_to target b) a' _ _ _ Ha' Hl (ConnWriter_Write_ok c a _ i w Ha Hk))); done].
  rewrite (enc_packet_to _ _ _ Haddr) in He. rewrite He. cbn [sent headerSent orb app]. rewrite bool_decide_false by done. rewrite orb_false_r.
  by rewrite bind_cons, (enc_packet_to _ _ _ Haddr), <-!app_assoc.
Qed.

(** What the server hands on, packet by packet. *)
Fixpoint read_packets {W} (n : nat) : io trojan_error W (list (Destination * MultiBuffer)) :=
  match n with
  | O => mret []
  | S n' => p ← ReadMultiBufferWithMetadata g alloc; ps ← read_packets n'; mret (p :: ps)
  end.

Definition read_as (target : Destination) (b : Buffer) (p : Destination * MultiBuffer) : Prop :=
  let dest := UDPDestination (dest_Address (goes_to target b)) (dest_Port (goes_to target b)) in
  p.1 = dest /\ exists b', p.2 = [b'] /\ content b' = content b /\ Endpoint b' = Some dest.

Lemma packets_read_ok target mb i (w : bytes) : Forall (packet_ok target) mb ->
  exists ps, read_packets (length mb) {| incoming := (mb ≫= enc_packet target) ++ i; writer := w |} = (Ok ps, {| incoming := i; writer := w |}) /\
    Forall2 (read_as target) mb ps.
Proof.
  induction 1 as [|b mb (Hb & Hne & Hl & a' & Haddr & Hok & Hp) Hmb IH]; [by exists []|]. destruct IH as (ps & He & Hps).
  cbn [length read_packets]. rewrite bind_cons, <-app_assoc, (enc_packet_to _ _ _ Haddr).
  destruct (packet_read a' (dest_Port (goes_to target b)) (content b) ((mb ≫= enc_packet target) ++ i) w Hok Hp Hl) as (b' & Hr & Hb' & Hc' & He').
  eexists. split; [rewrite (io_bind_Ok _ _ _ _ _ Hr), (io_bind_Ok _ _ _ _ _ He); done|]. constructor; [|done]. unfold read_as. rewrite Haddr. eauto 6.
Qed.
End Runs.

(** ** No input makes the server panic *)

Section Safe.
Context (g : bytes) (Hg : length g = Z.to_nat Size) (alloc : Z -> bytes) (Halloc : allocates alloc) {W : Type}.
Abbreviation any := (fun _ => True).

Lemma safe_ParseHeader : io_ok (ParseHeader (W := W) g) (fun c => exists a, dest_Address (cr_Target c) = Some a /\ well_formed a).
Proof.
  unfold ParseHeader. eapply io_ok_bind; [apply io_ok_read_bytes|]. intros _ _. eapply io_ok_bind; [apply io_ok_read_bytes|]. intros _ _.
  eapply io_ok_bind; [apply io_ok_read_bytes|]. intros c Hc. eapply (io_ok_bind _ _ any).
  { destruct c as [|c [|]]; try done. repeat case_decide; try (by apply io_ok_ret). apply io_ok_refuse. }
  intros n _. eapply io_ok_bind; [by apply io_ok_address|]. intros [a port] ((a' & -> & Hw) & Hp).
  eapply io_ok_bind; [apply io_ok_read_bytes|]. intros _ _. apply io_ok_ret. by exists a'.
Qed.

Lemma safe_packet : io_ok (ReadMultiBufferWithMetadata (W := W) g alloc) (fun '(d, mb) => exists a b, d = UDPDestination (Some a) (dest_Port d) /\ mb = [b] /\ Endpoint b = Some d).
Proof.
  unfold ReadMultiBufferWithMetadata. eapply io_ok_bind; [by apply io_ok_address|]. intros [a port] ((a' & -> & Hw) & Hp).
  eapply io_ok_bind; [apply io_ok_read_bytes|]. intros l Hl. eapply io_ok_bind; [apply io_ok_read_bytes|]. intros _ _. cbv zeta.
  pose proof (get16_range l) as Hr. destruct (held_alloc alloc (get16 l) Halloc) as [H0 Hn]; [lia|].
  eapply io_ok_bind; [eapply (io_ok_read _ _ _ _ H0); cbn [length]; lia|]. intros b _. apply io_ok_ret. exists a'. eexists. split; [done|]. by split.
Qed.

Lemma connection_user_safe v first n : wf first -> 0 <= n <= Z.of_nat (length (content first)) ->
  match connection_user v first n with Panic => False | _ => True end.
Proof.
  intros Hb Hn. unfold connection_user. destruct (Z.ltb_spec n 58); [done|].
  destruct (lookup_lt_is_Some_2 (content first) 56) as [x Hx]; [lia|]. change 56 with (Z.of_nat 56) at 1. rewrite (Byte_content first 56 x Hb Hx). cbn [mbind outcome_bind].
  case_decide; [done|]. change 56 with (Z.of_nat 56). rewrite (BytesTo_content first 56 Hb) by lia. by destruct (Get _ _).
Qed.

Lemma safe_server_Process v array isfb chunk : length array = Z.to_nat Size -> io_ok (server_Process (W := W) g array v isfb chunk) any.
Proof.
  intros Harr st. unfold server_Process. destruct (first_read array chunk (incoming st)) as (b & Hr & Hb & _); [rewrite Harr; apply K_small|].
  rewrite Hr. case_bool_decide; [done|]. pose proof (connection_user_safe v b (Z.of_nat (length (content b))) Hb ltac:(lia)) as Hs.
  destruct (connection_user v b _) as [u| |]; [|by destruct isfb|done].
  eapply (io_ok_bind _ _ any); [eapply io_ok_mono; [apply safe_ParseHeader|done]|]. intros c _. by apply io_ok_ret.
Qed.
End Safe.

(** ** Properties *)

(** C12: what a client writes to a Trojan connection, the server reads: the
    header names the user, its target is the client's, and what follows it is
    what the client wrote after it, byte for byte. The server needs the whole
    key in its first read. *)
Theorem trojan_stream_roundtrip g array v user isfb chunk c a mb :
  length g = Z.to_nat Size -> length array = Z.to_nat Size -> (58 <= chunk)%nat ->
  target_ok (cw_Target c) a -> length (Key (cw_Account c)) = 56%nat -> Get v (trojan_key (cw_Account c)) = Some user ->
  headerSent c = false -> dest_Network (cw_Target c) = Network_TCP -> Forall wf mb ->
  exists c' out, (c ← WriteHeader append g c; ConnWriter_WriteMultiBuffer append g c mb) (start_of []) = (Ok c', {| incoming := []; writer := out |}) /\
    server_Process g array v isfb chunk (start_of out) = (Ok (served_stream user (TCPDestination (Some a) (dest_Port (cw_Target c)))), start_of (contents mb)) /\
    (contents mb ≠ [] -> exists c', ConnWriter_WriteMultiBuffer append g c mb (start_of []) = (Ok c', {| incoming := []; writer := out |})).
Proof.
  intros Hg Harr Hch Ha Hk Hget Hs Hnet Hmb. destruct (ConnWriter_WriteMultiBuffer_ok g Hg (sent c) a mb [] ([] ++ msg_header c a) Ha Hk Hmb) as [c' He].
  exists c', (msg_header c a ++ contents mb). pose proof (WriteHeader_ok g Hg c a [] [] Ha Hk) as Hh. rewrite Hs in Hh. split; [|split].
  - unfold start_of. rewrite (io_bind_Ok _ _ _ _ _ Hh), He. done.
  - rewrite (server_Process_ok g Hg v user array isfb chunk c a (contents mb) Harr Hch Ha Hk Hget), Hnet. done.
  - intros Hne. destruct (ConnWriter_WriteMultiBuffer_ok g Hg c a mb [] [] Ha Hk Hmb) as [c2 He2]. exists c2. unfold start_of. rewrite He2, Hs, bool_decide_false by done. done.
Qed.

(** Packets written through a Trojan client, each to its own destination,
    are read by the server one by one: as many as were written, in order,
    with their destinations. *)
Theorem trojan_packets_roundtrip g array alloc v user isfb chunk c a mb rest :
  length g = Z.to_nat Size -> length array = Z.to_nat Size -> allocates alloc -> (58 <= chunk)%nat ->
  target_ok (cw_Target c) a -> length (Key (cw_Account c)) = 56%nat -> Get v (trojan_key (cw_Account c)) = Some user ->
  headerSent c = false -> dest_Network (cw_Target c) = Network_UDP -> mb ≠ [] -> Forall (packet_ok (cw_Target c)) mb ->
  exists c' out, PacketWriter_WriteMultiBuffer alloc (ConnWriter_Write append g) (cw_Target c) c mb (start_of []) = (Ok c', {| incoming := []; writer := out |}) /\
    exists ps, (s ← server_Process g array v isfb chunk; ps ← read_packets g alloc (length mb); mret (s, ps)) (start_of (out ++ rest)) =
      (Ok (served_packets user, ps), start_of rest) /\ Forall2 (read_as (cw_Target c)) mb ps.
Proof.
  intros Hg Harr Halloc Hch Ha Hk Hget Hs Hnet Hne Hmb.
  destruct (write_packets_ok g Hg alloc Halloc c a (cw_Target c) mb [] [] Ha Hk Hmb) as [c' He]. rewrite Hs, bool_decide_false in He by done.
  exists c', (msg_header c a ++ (mb ≫= enc_packet (cw_Target c))). split; [exact He|].
  destruct (packets_read_ok g Hg alloc Halloc (cw_Target c) mb rest [] Hmb) as (ps & Hr & Hps). exists ps. split; [|done]. rewrite <-app_assoc.
  pose proof (server_Process_ok g Hg v user array isfb chunk c a ((mb ≫= enc_packet (cw_Target c)) ++ rest) Harr Hch Ha Hk Hget) as Hp. rewrite Hnet in Hp.
  rewrite (io_bind_Ok _ _ _ _ _ Hp). rewrite (io_bind_Ok _ _ _ _ _ Hr). done.
Qed.

(** Whatever arrives, the server's reading of the header and of packets ends
    without a panic. *)
Theorem trojan_server_never_panics g array alloc {W} v isfb chunk n (st : stream W) :
  length g = Z.to_nat Size -> length array = Z.to_nat Size -> allocates alloc ->
  match ((s ← server_Process g array v isfb chunk; ps ← read_packets g alloc n; mret (s, ps)) st).1 with Panic => False | _ => True end.
Proof.
  intros Hg Harr Halloc. assert (io_ok (W := W) (s ← server_Process g array v isfb chunk; ps ← read_packets g alloc n; mret (s, ps)) (fun _ => True)) as Hok.
  { eapply io_ok_bind; [by apply safe_server_Process|]. intros s _. eapply (io_ok_bind _ _ (fun _ => True)); [|by intros; apply io_ok_ret].
    induction n as [|n IH]; [by apply io_ok_ret|]. cbn [read_packets]. eapply io_ok_bind; [by apply safe_packet|]. intros p _.
    eapply io_ok_bind; [apply IH|]. intros ps _. by apply io_ok_ret. }
  specialize (Hok st). by destruct (fst _).
Qed.

(** *** Witnesses *)

Definition sample_account : MemoryAccount := AsAccount (fun _ => replicate 28 x2a) (bs "secret").
Definition sample_trojan_user : MemoryUser MemoryAccount := {| Account := Some sample_account; Email := bs "user"; Level := 0 |}.
Definition sample_users : Validator MemoryAccount := {| v_email := ∅; v_users := {[trojan_key sample_account := sample_trojan_user]} |}.
Definition sample_writer (n : Network) : ConnWriter :=
  {| cw_Target := {| dest_Address := Some (domainAddress (bs "example.com")); dest_Port := 443; dest_Network := n |}; cw_Account := sample_account; headerSent := false |}.
Definition sample_packet : Buffer := {| Buffer.v := Some (bs "hi"); start := 0; end_ := 2; owner := managed; Endpoint := Some (UDPDestination (Some (ipv4Address [x01; x01; x01; x01])) 53) |}.

Lemma trojan_stream_roundtrip_witness :
  exists c' out, (c ← WriteHeader append zero_buffer (sample_writer Network_TCP); ConnWriter_WriteMultiBuffer append zero_buffer c [sample_packet]) (start_of []) =
      (Ok c', {| incoming := []; writer := out |}) /\
    server_Process zero_buffer zero_buffer sample_users false 58 (start_of out) =
      (Ok (served_stream sample_trojan_user (TCPDestination (Some (domainAddress (bs "example.com"))) 443)), start_of (bs "hi")) /\
    (contents [sample_packet] ≠ [] -> exists c', ConnWriter_WriteMultiBuffer append zero_buffer (sample_writer Network_TCP) [sample_packet] (start_of []) =
      (Ok c', {| incoming := []; writer := out |})).
Proof.
  refine (trojan_stream_roundtrip zero_buffer zero_buffer sample_users sample_trojan_user false 58 (sample_writer Network_TCP) (domainAddress (bs "example.com")) [sample_packet]
    zero_buffer_length zero_buffer_length _ _ _ _ eq_refl eq_refl _); [lia|split; [done|split; [apply example_name_ok|by split]]|reflexivity|vm_compute; reflexivity|].
  constructor; [by split|done].
Defined.

Lemma trojan_packets_roundtrip_witness :
  exists c' out, PacketWriter_WriteMultiBuffer (fun n => replicate (Z.to_nat n) x00) (ConnWriter_Write append zero_buffer) (cw_Target (sample_writer Network_UDP))
      (sample_writer Network_UDP) [sample_packet] (start_of []) = (Ok c', {| incoming := []; writer := out |}) /\
    exists ps, (s ← server_Process zero_buffer zero_buffer sample_users false 100; ps ← read_packets zero_buffer (fun n => replicate (Z.to_nat n) x00) 1; mret (s, ps))
        (start_of (out ++ bs "rest")) = (Ok (served_packets sample_trojan_user, ps), start_of (bs "rest")) /\
      Forall2 (read_as (cw_Target (sample_writer Network_UDP))) [sample_packet] ps.
Proof.
  refine (trojan_packets_roundtrip zero_buffer zero_buffer (fun n => replicate (Z.to_nat n) x00) sample_users sample_trojan_user false 100 (sample_writer Network_UDP)
    (domainAddress (bs "example.com")) [sample_packet] (bs "rest") zero_buffer_length zero_buffer_length _ _ _ _ _ eq_refl eq_refl _ _);
    [|lia|split; [done|split; [apply example_name_ok|by split]]|reflexivity|vm_compute; reflexivity|done|].
  - intros n Hn. rewrite length_replicate. lia.
  - constructor; [|done]. split; [by split|split; [done|split; [vm_compute; reflexivity|]]]. eexists. by split; [reflexivity|split].
Defined.
