(* ===== verification/Vision.v ===== *)
(** * XTLS Vision, [proxy/vless/encoding/vision.go]

    The padding of the first buffers of a connection, its removal, the filter
    that recognises TLS in them, and the switch of both ends to the raw
    connection. A [nil] buffer is [None]. Logging and the counters are left
    out. *)

From S2P Require Import Prelude Net Segment Buffer Matchers.

Local Open Scope Z_scope.

(** src/proxy/vless/encoding/vision.go:25-29 Tls13SupportedVersions *)
Definition Tls13SupportedVersions : bytes := [x00; x2b; x00; x02; x03; x04].
Definition TlsClientHandShakeStart : bytes := [x16; x03].
Definition TlsServerHandShakeStart : bytes := [x16; x03; x03].
Definition TlsApplicationDataStart : bytes := [x17; x03; x03].

(** Only whether a suite is known, and whether it is the one without direct
    copy, counts.
    src/proxy/vless/encoding/vision.go:31-37 Tls13CipherSuiteDic *)
Definition Tls13CipherSuiteDic (cipher : Z) : option bytes :=
  if cipher =? 0x1301 then Some (bs "TLS_AES_128_GCM_SHA256")
  else if cipher =? 0x1302 then Some (bs "TLS_AES_256_GCM_SHA384")
  else if cipher =? 0x1303 then Some (bs "TLS_CHACHA20_POLY1305_SHA256")
  else if cipher =? 0x1304 then Some (bs "TLS_AES_128_CCM_SHA256")
  else if cipher =? 0x1305 then Some (bs "TLS_AES_128_CCM_8_SHA256")
  else None.

(** src/proxy/vless/encoding/vision.go:41-46 CommandPaddingContinue *)
Definition TlsHandshakeTypeClientHello : byte := x01.
Definition TlsHandshakeTypeServerHello : byte := x02.
Definition CommandPaddingContinue : byte := x00.
Definition CommandPaddingEnd : byte := x01.
Definition CommandPaddingDirect : byte := x02.

(** ** State *)

(** What is left of the block being read.
    src/proxy/vless/encoding/vision.go:67-70 InboundState *)
Record Block := { RemainingCommand : Z; RemainingContent : Z; RemainingPadding : Z; CurrentCommand : Z }.

(** The inbound's and the outbound's state have the same fields, but for the
    names of the two flags of direct copy.
    src/proxy/vless/encoding/vision.go:63-87 InboundState *)
Record HalfState := { block : Block; WithinPaddingBuffers : bool; ReaderDirectCopy : bool; IsPadding : bool; WriterDirectCopy : bool }.

(** The part of the state that the filter keeps.
    src/proxy/vless/encoding/vision.go:53-58 TrafficState *)
Record Filter := { NumberOfPacketToFilter : Z; EnableXtls : bool; IsTLS12orAbove : bool; IsTLS : bool; Cipher : Z; RemainingServerHello : Z }.

(** src/proxy/vless/encoding/vision.go TrafficState *)
Record TrafficState := { UserUUID : bytes; tls : Filter; Inbound : HalfState; Outbound : HalfState }.

Definition initial_block : Block := {| RemainingCommand := -1; RemainingContent := -1; RemainingPadding := -1; CurrentCommand := 0 |}.
Definition initial_half : HalfState :=
  {| block := initial_block; WithinPaddingBuffers := true; ReaderDirectCopy := false; IsPadding := true; WriterDirectCopy := false |}.

(** src/proxy/vless/encoding/vision.go NewTrafficState *)
Definition NewTrafficState (userUUID : bytes) : TrafficState := {|
  UserUUID := userUUID;
  tls := {| NumberOfPacketToFilter := 8; EnableXtls := false; IsTLS12orAbove := false; IsTLS := false; Cipher := 0; RemainingServerHello := -1 |};
  Inbound := initial_half; Outbound := initial_half
|}.

Definition set_block (h : HalfState) (k : Block) : HalfState :=
  {| block := k; WithinPaddingBuffers := WithinPaddingBuffers h; ReaderDirectCopy := ReaderDirectCopy h; IsPadding := IsPadding h; WriterDirectCopy := WriterDirectCopy h |}.
Definition set_reader (h : HalfState) (within direct : bool) : HalfState :=
  {| block := block h; WithinPaddingBuffers := within; ReaderDirectCopy := direct; IsPadding := IsPadding h; WriterDirectCopy := WriterDirectCopy h |}.
Definition set_writer (h : HalfState) (padding direct : bool) : HalfState :=
  {| block := block h; WithinPaddingBuffers := WithinPaddingBuffers h; ReaderDirectCopy := ReaderDirectCopy h; IsPadding := padding; WriterDirectCopy := direct |}.
Definition set_tls (s : TrafficState) (t : Filter) : TrafficState :=
  {| UserUUID := UserUUID s; tls := t; Inbound := Inbound s; Outbound := Outbound s |}.

(** A reader of the uplink and a writer of the downlink are the inbound's. *)
Definition half (s : TrafficState) (inbound : bool) : HalfState := if inbound then Inbound s else Outbound s.
Definition set_half (s : TrafficState) (inbound : bool) (h : HalfState) : TrafficState :=
  if inbound then {| UserUUID := UserUUID s; tls := tls s; Inbound := h; Outbound := Outbound s |}
  else {| UserUUID := UserUUID s; tls := tls s; Inbound := Inbound s; Outbound := h |}.

(** ** Methods of a buffer that may be nil *)

Definition opt_Len (b : option Buffer) : Z := match b with None => 0 | Some b => Len b end.

(** The first [n] bytes of a buffer, which is not nil. *)
Definition opt_BytesTo (b : option Buffer) (n : Z) : outcome unit bytes := match b with None => Panic | Some b => BytesTo b n end.

(** ** Padding *)

Section Vision.
Context (garbage : bytes).

(** [draw n] is a random number below [n].
    src/proxy/vless/encoding/vision.go XtlsPadding *)
Definition XtlsPadding (draw : Z -> Z) (b : option Buffer) (command : byte) (userUUID : option bytes) (longPadding : bool) : outcome unit Buffer :=
  let contentLen := opt_Len b in
  let paddingLen := if (contentLen <? 900) && longPadding then i32 (i32 (draw 500) + 900 - contentLen) else i32 (draw 256) in
  let paddingLen := if paddingLen >? Size - 21 - contentLen then Size - 21 - contentLen else paddingLen in
  '(newbuffer, _) ← match userUUID with Some u => Write (New garbage) u | None => Ok (New garbage, 0) end;
  '(newbuffer, _) ← Write newbuffer [command; byte_of_Z (Z.shiftr contentLen 8); byte_of_Z contentLen; byte_of_Z (Z.shiftr paddingLen 8); byte_of_Z paddingLen];
  newbuffer ← match b with Some b => content ← Bytes b; '(n, _) ← Write newbuffer content; Ok n | None => Ok newbuffer end;
  '(newbuffer, _) ← Extend newbuffer paddingLen;
  Ok newbuffer.

(** What follows a byte of the block's head.
    src/proxy/vless/encoding/vision.go:490-503 XtlsUnpadding *)
Definition head_byte (s : Block) (data : byte) : Block :=
  let z := byte_to_Z data in
  let rc := RemainingCommand s in
  {| RemainingCommand := rc - 1;
     RemainingContent := if rc =? 4 then Z.shiftl z 8 else if rc =? 3 then Z.lor (RemainingContent s) z else RemainingContent s;
     RemainingPadding := if rc =? 2 then Z.shiftl z 8 else if rc =? 1 then Z.lor (RemainingPadding s) z else RemainingPadding s;
     CurrentCommand := if rc =? 5 then z else CurrentCommand s |}.

(** One turn: the block's state, what is left of the buffer and what was
    made of it; [true] when a read fails and the function returns.
    src/proxy/vless/encoding/vision.go:484-523 XtlsUnpadding *)
Definition unpad_turn (s : Block) (b newbuffer : Buffer) : outcome unit (Block * Buffer * Buffer * bool) :=
  if RemainingCommand s >? 0 then
    match ReadByte b with
    | Ok (b, data) => Ok (head_byte s data, b, newbuffer, false)
    | Err _ => Ok (s, b, newbuffer, true)
    | Panic => Panic
    end
  else if RemainingContent s >? 0 then
    let len := if Len b <? RemainingContent s then Len b else RemainingContent s in
    match ReadBytes b len with
    | Ok (b, data) =>
        '(newbuffer, _) ← Write newbuffer data;
        Ok ({| RemainingCommand := RemainingCommand s; RemainingContent := RemainingContent s - len;
               RemainingPadding := RemainingPadding s; CurrentCommand := CurrentCommand s |}, b, newbuffer, false)
    | Err _ => Ok (s, b, newbuffer, true)
    | Panic => Panic
    end
  else
    let len := if Len b <? RemainingPadding s then Len b else RemainingPadding s in
    Ok ({| RemainingCommand := RemainingCommand s; RemainingContent := RemainingContent s;
           RemainingPadding := RemainingPadding s - len; CurrentCommand := CurrentCommand s |}, Advance b len, newbuffer, false).

Definition with_command (s : Block) (c : Z) : Block :=
  {| RemainingCommand := c; RemainingContent := RemainingContent s; RemainingPadding := RemainingPadding s; CurrentCommand := CurrentCommand s |}.
Definition idle_block (command : Z) : Block := {| RemainingCommand := -1; RemainingContent := -1; RemainingPadding := -1; CurrentCommand := command |}.

(** Every turn takes a byte of the buffer, so its length is enough fuel.
    src/proxy/vless/encoding/vision.go:483-539 XtlsUnpadding *)
Fixpoint unpad_loop (fuel : nat) (s : Block) (b newbuffer : Buffer) : outcome unit (Block * Buffer) :=
  if Len b >? 0 then
    match fuel with
    | O => Panic
    | S fuel' =>
        '(s, b, newbuffer, returned) ← unpad_turn s b newbuffer;
        if returned : bool then Ok (s, newbuffer)
        else if (RemainingCommand s <=? 0) && (RemainingContent s <=? 0) && (RemainingPadding s <=? 0) then
          if CurrentCommand s =? 0 then unpad_loop fuel' (with_command s 5) b newbuffer
          else if Len b >? 0 then
            rest ← Bytes b;
            '(newbuffer, _) ← Write newbuffer rest;
            Ok (idle_block (CurrentCommand s), newbuffer)
          else Ok (idle_block (CurrentCommand s), newbuffer)
        else unpad_loop fuel' s b newbuffer
    end
  else Ok (s, newbuffer).

Definition in_initial_state (s : Block) : bool := (RemainingCommand s =? -1) && (RemainingContent s =? -1) && (RemainingPadding s =? -1).

(** src/proxy/vless/encoding/vision.go XtlsUnpadding *)
Definition XtlsUnpadding (uuid : bytes) (s : Block) (b : Buffer) : outcome unit (Block * Buffer) :=
  if in_initial_state s then
    first ← (if Len b >=? 21 then x ← BytesTo b 16; Ok (bool_decide (uuid = x)) else Ok false);
    if first : bool then let b := Advance b 16 in unpad_loop (Z.to_nat (Len b)) (with_command s 5) b (New garbage)
    else Ok (s, b)
  else unpad_loop (Z.to_nat (Len b)) s b (New garbage).

(** ** Recognising TLS *)

(** A server's hello at the start of a buffer.
    src/proxy/vless/encoding/vision.go:552-570 XtlsFilterTls *)
Definition filter_start (t : Filter) (b : Buffer) : outcome unit Filter :=
  if Len b >=? 6 then
    startsBytes ← BytesTo b 6;
    if decide (take 3 startsBytes = TlsServerHandShakeStart /\ startsBytes !! 5%nat = Some TlsHandshakeTypeServerHello) then
      let remaining := Z.lor (Z.shiftl (byte_to_Z (startsBytes !!! 3%nat)) 8) (byte_to_Z (startsBytes !!! 4%nat)) + 5 in
      cipher ← (if (Len b >=? 79) && (remaining >=? 79) then
                  sessionIdLen ← Byte b 43;
                  cipherSuite ← BytesRange b (43 + byte_to_Z sessionIdLen + 1) (43 + byte_to_Z sessionIdLen + 3);
                  Ok (Z.lor (Z.shiftl (byte_to_Z (cipherSuite !!! 0%nat)) 8) (byte_to_Z (cipherSuite !!! 1%nat)))
                else Ok (Cipher t));
      Ok {| NumberOfPacketToFilter := NumberOfPacketToFilter t; EnableXtls := EnableXtls t; IsTLS12orAbove := true; IsTLS := true;
            Cipher := cipher; RemainingServerHello := remaining |}
    else if decide (take 2 startsBytes = TlsClientHandShakeStart /\ startsBytes !! 5%nat = Some TlsHandshakeTypeClientHello) then
      Ok {| NumberOfPacketToFilter := NumberOfPacketToFilter t; EnableXtls := EnableXtls t; IsTLS12orAbove := IsTLS12orAbove t; IsTLS := true;
            Cipher := Cipher t; RemainingServerHello := RemainingServerHello t |}
    else Ok t
  else Ok t.

Definition with_count (t : Filter) (n : Z) : Filter :=
  {| NumberOfPacketToFilter := n; EnableXtls := EnableXtls t; IsTLS12orAbove := IsTLS12orAbove t; IsTLS := IsTLS t;
     Cipher := Cipher t; RemainingServerHello := RemainingServerHello t |}.

(** The rest of the hello; [true] when the answer is found.
    src/proxy/vless/encoding/vision.go:571-594 XtlsFilterTls *)
Definition filter_hello (t : Filter) (b : Buffer) : outcome unit (Filter * bool) :=
  if RemainingServerHello t >? 0 then
    let end_ := if RemainingServerHello t >? Len b then Len b else RemainingServerHello t in
    let remaining := i32 (RemainingServerHello t - Len b) in
    part ← BytesTo b end_;
    let t := {| NumberOfPacketToFilter := NumberOfPacketToFilter t; EnableXtls := EnableXtls t; IsTLS12orAbove := IsTLS12orAbove t; IsTLS := IsTLS t;
                Cipher := Cipher t; RemainingServerHello := remaining |} in
    if Contains part Tls13SupportedVersions then
      let enable := match Tls13CipherSuiteDic (Cipher t) with
                    | None => EnableXtls t
                    | Some v => if negb (bool_decide (v = bs "TLS_AES_128_CCM_8_SHA256")) then true else EnableXtls t
                    end in
      Ok ({| NumberOfPacketToFilter := 0; EnableXtls := enable; IsTLS12orAbove := IsTLS12orAbove t; IsTLS := IsTLS t;
             Cipher := Cipher t; RemainingServerHello := remaining |}, true)
    else if remaining <=? 0 then Ok (with_count t 0, true)
    else Ok (t, false)
  else Ok (t, false).

(** src/proxy/vless/encoding/vision.go XtlsFilterTls *)
Fixpoint XtlsFilterTls (buffer : list (option Buffer)) (t : Filter) : outcome unit Filter :=
  match buffer with
  | [] => Ok t
  | None :: buffer' => XtlsFilterTls buffer' t
  | Some b :: buffer' =>
      t ← filter_start (with_count t (NumberOfPacketToFilter t - 1)) b;
      '(t, found) ← filter_hello t b;
      if found : bool then Ok t else XtlsFilterTls buffer' t
  end.

(** The loop; a body is skipped at once.
    src/proxy/vless/encoding/vision.go:339-379 IsCompleteRecord *)
Fixpoint complete_loop (fuel : nat) (headerLen recordLen : Z) (rest : bytes) : bool :=
  match rest, fuel with
  | [], _ => (headerLen =? 5) && (recordLen =? 0)
  | _, O => false
  | data :: rest', S fuel' =>
      if headerLen >? 0 then
        if (headerLen =? 5) && negb (bool_decide (data = x17)) then false
        else if ((headerLen =? 4) || (headerLen =? 3)) && negb (bool_decide (data = x03)) then false
        else
          let recordLen := if headerLen =? 2 then Z.shiftl (byte_to_Z data) 8
                           else if headerLen =? 1 then Z.lor recordLen (byte_to_Z data) else recordLen in
          complete_loop fuel' (headerLen - 1) recordLen rest'
      else if recordLen >? 0 then
        if Z.of_nat (length rest) <? recordLen then false else complete_loop fuel' 5 0 (drop (Z.to_nat recordLen) rest)
      else false
  end.

(** src/proxy/vless/encoding/vision.go IsCompleteRecord *)
Definition IsCompleteRecord (buffer : MultiBuffer) : outcome unit bool :=
  let n := MultiBuffer_Len buffer in
  if n <? 0 then Panic
  else
    b ← Copy buffer (Z.to_nat n);
    if negb (Z.of_nat (length b) =? n) then Panic else Ok (complete_loop (length b) 5 0 b).

(** ** Writing *)

(** Where a buffer is cut that has no room for the head.
    src/proxy/vless/encoding/vision.go:396-399 ReshapeMultiBuffer *)
Definition cut_at (content : bytes) : Z :=
  let index := match LastIndex content TlsApplicationDataStart with Some i => i32 (Z.of_nat i) | None => -1 end in
  if (index <? 21) || (index >? Size - 21) then Size / 2 else index.

(** src/proxy/vless/encoding/vision.go:394-410 ReshapeMultiBuffer *)
Fixpoint reshape_loop (buffer : list (option Buffer)) : outcome unit (list (option Buffer)) :=
  match buffer with
  | [] => Ok []
  | buffer1 :: buffer' =>
      match buffer1 with
      | Some b1 =>
          if Len b1 >=? Size - 21 then
            content ← Bytes b1;
            let index := cut_at content in
            tail ← BytesFrom b1 index;
            '(buffer2, _) ← Write (New garbage) tail;
            b1 ← Resize b1 0 index;
            mb2 ← reshape_loop buffer';
            Ok (Some b1 :: Some buffer2 :: mb2)
          else mb2 ← reshape_loop buffer'; Ok (buffer1 :: mb2)
      | None => mb2 ← reshape_loop buffer'; Ok (buffer1 :: mb2)
      end
  end.

(** src/proxy/vless/encoding/vision.go ReshapeMultiBuffer *)
Definition ReshapeMultiBuffer (buffer : list (option Buffer)) : outcome unit (list (option Buffer)) :=
  if existsb (fun b => opt_Len b >=? Size - 21) buffer then reshape_loop buffer else Ok buffer.

(** What the loop of a write changes. *)
Record Padder := { p_isPadding : bool; p_direct : bool; p_uuid : option bytes; p_long : bool }.

(** The loop over the buffers; [rand i] draws for the [i]-th one.
    src/proxy/vless/encoding/vision.go:303-331 VisionWriter.WriteMultiBuffer *)
Fixpoint pad_loop (rand : nat -> Z -> Z) (t : Filter) (isComplete : bool) (i : nat) (p : Padder) (mb : list (option Buffer))
    : outcome unit (Padder * list (option Buffer)) :=
  match mb with
  | [] => Ok (p, [])
  | b :: mb' =>
      let last := bool_decide (mb' = []) in
      application ← (if IsTLS t && (opt_Len b >=? 6) then x ← opt_BytesTo b 3; Ok (bool_decide (TlsApplicationDataStart = x) && isComplete) else Ok false);
      if application : bool then
        let command := if last then if EnableXtls t then CommandPaddingDirect else CommandPaddingEnd else CommandPaddingContinue in
        nb ← XtlsPadding (rand i) b command (p_uuid p) true;
        let p := {| p_isPadding := false; p_direct := if EnableXtls t then true else p_direct p; p_uuid := None; p_long := false |} in
        '(p, mb2) ← pad_loop rand t isComplete (S i) p mb';
        Ok (p, Some nb :: mb2)
      else if negb (IsTLS12orAbove t) && (NumberOfPacketToFilter t <=? 1) then
        nb ← XtlsPadding (rand i) b CommandPaddingEnd (p_uuid p) (p_long p);
        Ok ({| p_isPadding := false; p_direct := p_direct p; p_uuid := None; p_long := p_long p |}, Some nb :: mb')
      else
        let command := if last && negb (p_isPadding p) then if EnableXtls t then CommandPaddingDirect else CommandPaddingEnd else CommandPaddingContinue in
        nb ← XtlsPadding (rand i) b command (p_uuid p) (p_long p);
        '(p, mb2) ← pad_loop rand t isComplete (S i) {| p_isPadding := p_isPadding p; p_direct := p_direct p; p_uuid := None; p_long := p_long p |} mb';
        Ok (p, Some nb :: mb2)
  end.

(** [vw_raw]: whether the writer below is that of the raw connection.
    src/proxy/vless/encoding/vision.go VisionWriter *)
Record VisionWriter := { vw_isUplink : bool; writeOnceUserUUID : option bytes; vw_raw : bool }.

(** src/proxy/vless/encoding/vision.go NewVisionWriter *)
Definition NewVisionWriter (s : TrafficState) (isUplink : bool) : VisionWriter :=
  {| vw_isUplink := isUplink; writeOnceUserUUID := Some (UserUUID s); vw_raw := false |}.

(** What is written, and to which connection. A list that is longer than one
    holds no nil.
    src/proxy/vless/encoding/vision.go VisionWriter.WriteMultiBuffer *)
Definition vision_WriteMultiBuffer (rand : nat -> Z -> Z) (s : TrafficState) (w : VisionWriter) (mb : list (option Buffer))
    : outcome unit (TrafficState * VisionWriter * list (option Buffer)) :=
  let inbound := negb (vw_isUplink w) in
  let h := half s inbound in
  let raw := vw_raw w || WriterDirectCopy h in
  t ← (if NumberOfPacketToFilter (tls s) >? 0 then XtlsFilterTls mb (tls s) else Ok (tls s));
  let s := set_tls s t in
  if IsPadding h then
    match mb with
    | [None] =>
        nb ← XtlsPadding (rand 0%nat) None CommandPaddingContinue (writeOnceUserUUID w) true;
        Ok (set_half s inbound (set_writer h true false), {| vw_isUplink := vw_isUplink w; writeOnceUserUUID := None; vw_raw := raw |}, [Some nb])
    | _ =>
        match mapM id mb with
        | None => Panic
        | Some buffers =>
            isComplete ← IsCompleteRecord buffers;
            mb ← ReshapeMultiBuffer mb;
            '(p, mb) ← pad_loop rand t isComplete 0 {| p_isPadding := true; p_direct := false; p_uuid := writeOnceUserUUID w; p_long := IsTLS t |} mb;
            Ok (set_half s inbound (set_writer h (p_isPadding p) (p_direct p)),
                {| vw_isUplink := vw_isUplink w; writeOnceUserUUID := p_uuid p; vw_raw := raw |}, mb)
        end
    end
  else Ok (set_half s inbound (set_writer h false false), {| vw_isUplink := vw_isUplink w; writeOnceUserUUID := writeOnceUserUUID w; vw_raw := raw |}, mb).

(** ** Reading *)

(** Reading all of [data]; every turn takes a full buffer or the rest.
    src/common/buf/multi_buffer.go ReadFrom *)
Fixpoint read_all (fuel : nat) (data : bytes) : outcome unit MultiBuffer :=
  match fuel with
  | O => Panic
  | S fuel' =>
      '(b, n, _) ← ReadFullFrom (New garbage) (fun n => (take n data, bool_decide (length data < n)%nat)) Size;
      let mb := if IsEmpty b then [] else [b] in
      if n <? Size then Ok mb else rest ← read_all fuel' (drop (Z.to_nat n) data); Ok (mb ++ rest)
  end.

(** Whether a read looks for padding in each buffer.
    src/proxy/vless/encoding/vision.go:177-183 VisionReader.ReadMultiBuffer *)
Fixpoint unpad_all (uuid : bytes) (k : Block) (buffer : MultiBuffer) : outcome unit (Block * MultiBuffer) :=
  match buffer with
  | [] => Ok (k, [])
  | b :: buffer' =>
      '(k, newbuffer) ← XtlsUnpadding uuid k b;
      '(k, mb2) ← unpad_all uuid k buffer';
      Ok (k, if Len newbuffer >? 0 then newbuffer :: mb2 else mb2)
  end.

(** What a finished block means for the reader.
    src/proxy/vless/encoding/vision.go:185-194 VisionReader.ReadMultiBuffer *)
Definition after_unpadding (h : HalfState) : HalfState :=
  let k := block h in
  if (RemainingContent k >? 0) || (RemainingPadding k >? 0) || (CurrentCommand k =? 0) then set_reader h true (ReaderDirectCopy h)
  else if CurrentCommand k =? 1 then set_reader h false (ReaderDirectCopy h)
  else if CurrentCommand k =? 2 then set_reader h false true
  else h.

(** What the reader below has returned is [buffer], with its error, which is
    passed on; [input] and [rawInput] is what the outer connection holds,
    decrypted and not. The last result is whether the reader below becomes
    that of the raw connection.
    src/proxy/vless/encoding/vision.go VisionReader.ReadMultiBuffer *)
Definition vision_ReadMultiBuffer (s : TrafficState) (isUplink : bool) (buffer : MultiBuffer) (input rawInput : bytes)
    : outcome unit (TrafficState * MultiBuffer * bool) :=
  if MultiBuffer_IsEmpty buffer then Ok (s, buffer, false)
  else
    let h := half s isUplink in
    if ReaderDirectCopy h then Ok (s, buffer, false)
    else
      '(h, buffer) ← (if WithinPaddingBuffers h || (NumberOfPacketToFilter (tls s) >? 0) then
                        '(k, mb2) ← unpad_all (UserUUID s) (block h) buffer;
                        Ok (after_unpadding (set_block h k), mb2)
                      else Ok (h, buffer));
      t ← (if NumberOfPacketToFilter (tls s) >? 0 then XtlsFilterTls (Some <$> buffer) (tls s) else Ok (tls s));
      let s := set_tls (set_half s isUplink h) t in
      if ReaderDirectCopy h then
        inputBuffer ← read_all (S (length input)) input;
        rawInputBuffer ← read_all (S (length rawInput)) rawInput;
        Ok (s, buffer ++ inputBuffer ++ rawInputBuffer, true)
      else Ok (s, buffer, false).
End Vision.
