(* ===== verification/VisionFacts.v ===== *)
(** * Facts about XTLS Vision

    The removal of padding is a machine that reads a byte at a time, so it
    does not matter how the bytes arrive; what one end writes the other end
    reads, and both turn to the raw connection together. *)

From S2P Require Import Prelude Net Matchers Segment Buffer BufferFacts AddressCodecFacts Handshake Vision.

Local Open Scope Z_scope.

(** ** The machine that reads a byte at a time *)

Definition block_done (s : Block) : bool := (RemainingCommand s <=? 0) && (RemainingContent s <=? 0) && (RemainingPadding s <=? 0).

(** After a block comes the next one, or none. *)
Definition settle (s : Block) : Block :=
  if block_done s then if CurrentCommand s =? 0 then with_command s 5 else idle_block (CurrentCommand s) else s.

Definition less_content (s : Block) (n : Z) : Block :=
  {| RemainingCommand := RemainingCommand s; RemainingContent := RemainingContent s - n; RemainingPadding := RemainingPadding s; CurrentCommand := CurrentCommand s |}.
Definition less_padding (s : Block) (n : Z) : Block :=
  {| RemainingCommand := RemainingCommand s; RemainingContent := RemainingContent s; RemainingPadding := RemainingPadding s - n; CurrentCommand := CurrentCommand s |}.

(** A byte either belongs to the head, or is content, or padding; outside of
    blocks it is content. *)
Definition ustep (s : Block) (x : byte) : Block * bytes :=
  if in_initial_state s then (s, [x])
  else if RemainingCommand s >? 0 then (settle (head_byte s x), [])
  else if RemainingContent s >? 0 then (settle (less_content s 1), [x])
  else (settle (less_padding s 1), []).

Fixpoint urun (s : Block) (l : bytes) : Block * bytes :=
  match l with
  | [] => (s, [])
  | x :: l' => ((urun (ustep s x).1 l').1, (ustep s x).2 ++ (urun (ustep s x).1 l').2)
  end.

(** Inside of a block. *)
Definition busy (s : Block) : Prop := 0 < RemainingCommand s \/ 0 < RemainingContent s \/ 0 < RemainingPadding s.

Lemma busy_not_initial s : busy s -> in_initial_state s = false.
Proof. unfold busy, in_initial_state. intros Hs. lia. Qed.

Lemma busy_not_done s : busy s -> block_done s = false.
Proof. unfold busy, block_done. intros Hs. lia. Qed.

Lemma settle_busy s : busy s -> settle s = s.
Proof. intros Hs. unfold settle. by rewrite busy_not_done. Qed.

Lemma settle_cases s : busy (settle s) \/ exists c, settle s = idle_block c /\ c ≠ 0.
Proof.
  unfold settle. destruct (block_done s) eqn:Hd.
  - destruct (Z.eqb_spec (CurrentCommand s) 0); [left; left; cbn; lia|right; eauto].
  - left. unfold block_done in Hd. unfold busy. lia.
Qed.

Lemma urun_app s l1 l2 : urun s (l1 ++ l2) = ((urun (urun s l1).1 l2).1, (urun s l1).2 ++ (urun (urun s l1).1 l2).2).
Proof.
  revert s. induction l1 as [|x l1 IH]; intros s; cbn [app urun fst snd]; [by destruct (urun s l2)|]. rewrite IH. cbn [fst snd]. by rewrite app_assoc.
Qed.

Lemma urun_initial s l : in_initial_state s = true -> urun s l = (s, l).
Proof. intros Hs. induction l as [|x l IH]; [done|]. cbn [urun]. unfold ustep. rewrite Hs. cbn [fst snd]. by rewrite IH. Qed.

Lemma urun_content s d : RemainingCommand s <= 0 -> d ≠ [] -> Z.of_nat (length d) <= RemainingContent s ->
  urun s d = (settle (less_content s (Z.of_nat (length d))), d).
Proof.
  intros Hc. revert s Hc. induction d as [|x d IH]; intros s Hc Hne Hl; [done|]. cbn [urun length] in *.
  assert (ustep s x = (settle (less_content s 1), [x])) as ->.
  { unfold ustep. rewrite busy_not_initial by (unfold busy; lia). destruct (Z.gtb_spec (RemainingCommand s) 0); [lia|]. by destruct (Z.gtb_spec (RemainingContent s) 0); [|lia]. }
  destruct d as [|y d]; [done|]. cbn [fst snd]. rewrite settle_busy by (right; left; cbn in *; lia).
  rewrite IH by (done || cbn in *; lia). cbn [fst snd app]. f_equal. f_equal. unfold less_content. cbn [RemainingCommand RemainingContent RemainingPadding CurrentCommand]. f_equal. lia.
Qed.

Lemma urun_padding s d : RemainingCommand s <= 0 -> RemainingContent s <= 0 -> d ≠ [] -> Z.of_nat (length d) <= RemainingPadding s ->
  urun s d = (settle (less_padding s (Z.of_nat (length d))), []).
Proof.
  intros Hc Hn. revert s Hc Hn. induction d as [|x d IH]; intros s Hc Hn Hne Hl; [done|]. cbn [urun length] in *.
  assert (ustep s x = (settle (less_padding s 1), [])) as ->.
  { unfold ustep. rewrite busy_not_initial by (unfold busy; lia). destruct (Z.gtb_spec (RemainingCommand s) 0); [lia|]. by destruct (Z.gtb_spec (RemainingContent s) 0); [lia|]. }
  destruct d as [|y d]; [done|]. cbn [fst snd]. rewrite settle_busy by (right; right; cbn in *; lia).
  rewrite IH by (done || cbn in *; lia). cbn [fst snd app]. f_equal. f_equal. unfold less_padding. cbn [RemainingCommand RemainingContent RemainingPadding CurrentCommand]. f_equal. lia.
Qed.

(** ** The loop is that machine *)

Lemma unpad_turn_ok s b nb : wf b -> wf nb -> busy s -> content b ≠ [] -> (length (content b) <= room nb)%nat ->
  exists s' data b' nb' out, unpad_turn s b nb = Ok (s', b', nb', false) /\ wf b' /\ wf nb' /\
    content b = data ++ content b' /\ data ≠ [] /\ content nb' = content nb ++ out /\
    (length (content b') <= room nb')%nat /\ urun s data = (settle s', out).
Proof.
  intros Hb Hn Hs Hne Hr. unfold unpad_turn. destruct (Z.gtb_spec (RemainingCommand s) 0) as [Hc|Hc].
  { destruct (ReadByte_ok b Hb) as [[? _]|(x & b' & -> & Hx & Hb')]; [done|]. exists (head_byte s x), [x], b', nb, [].
    rewrite app_nil_r. do 3 (split; [done|]). split; [by rewrite Hx|]. do 2 (split; [done|]). split; [rewrite Hx in Hr; cbn in Hr; lia|].
    cbn [urun]. unfold ustep. rewrite (busy_not_initial s Hs). by destruct (Z.gtb_spec (RemainingCommand s) 0); [|lia]. }
  assert (0 < Z.of_nat (length (content b)) < 2 ^ 31) as Hlb.
  { pose proof (length_content b Hb). destruct Hb as [? ? ?], (content b); [done|]. cbn [length] in *. lia. }
  destruct (Z.gtb_spec (RemainingContent s) 0) as [Hk|Hk]; cbv zeta.
  - rewrite (Len_content b Hb). set (len := if _ <? _ then _ else _). assert (0 < len <= RemainingContent s /\ len <= Z.of_nat (length (content b))) as [Hl1 Hl2].
    { unfold len. destruct (Z.ltb_spec (Z.of_nat (length (content b))) (RemainingContent s)); lia. }
    pose proof (ReadBytes_ok b len Hb ltac:(lia)) as H. rewrite decide_True in H by lia. destruct H as (b' & -> & Hb' & Hc').
    destruct (Write_ok nb (take (Z.to_nat len) (content b)) Hn) as (nb' & Hw & Hn' & Hcn & Hrn). rewrite Hw. cbn [mbind outcome_bind].
    rewrite take_take, Nat.min_r in Hcn by lia. rewrite length_take in Hrn.
    exists (less_content s len), (take (Z.to_nat len) (content b)), b', nb', (take (Z.to_nat len) (content b)). do 3 (split; [done|]).
    assert (length (take (Z.to_nat len) (content b)) = Z.to_nat len) as Hlt by (rewrite length_take; lia).
    split; [by rewrite Hc', take_drop|]. assert (take (Z.to_nat len) (content b) ≠ []) as Hdne by (intros Hx; rewrite Hx in Hlt; cbn in Hlt; lia).
    split; [done|]. split; [done|]. split; [rewrite Hc', length_drop, Hrn; lia|]. rewrite urun_content by (done || lia). do 2 f_equal. rewrite Hlt. f_equal. lia.
  - rewrite (Len_content b Hb). set (len := if _ <? _ then _ else _). assert (0 < len <= RemainingPadding s /\ len <= Z.of_nat (length (content b))) as [Hl1 Hl2].
    { unfold busy in Hs. unfold len. destruct (Z.ltb_spec (Z.of_nat (length (content b))) (RemainingPadding s)); lia. }
    destruct (Advance_content b (Z.to_nat len) Hb) as [Hb' Hc']; [lia|]. rewrite Z2Nat.id in Hb', Hc' by lia.
    exists (less_padding s len), (take (Z.to_nat len) (content b)), (Advance b len), nb, []. do 3 (split; [done|]).
    assert (length (take (Z.to_nat len) (content b)) = Z.to_nat len) as Hlt by (rewrite length_take; lia).
    split; [by rewrite Hc', take_drop|]. assert (take (Z.to_nat len) (content b) ≠ []) as Hdne by (intros Hx; rewrite Hx in Hlt; cbn in Hlt; lia).
    split; [done|]. split; [by rewrite app_nil_r|]. split; [rewrite Hc', length_drop; lia|]. rewrite urun_padding by (done || lia). do 2 f_equal. rewrite Hlt. f_equal. lia.
Qed.

Lemma unpad_loop_ok fuel s b nb : wf b -> wf nb -> busy s -> (length (content b) <= room nb)%nat -> (length (content b) <= fuel)%nat ->
  exists nb', unpad_loop fuel s b nb = Ok ((urun s (content b)).1, nb') /\ wf nb' /\ content nb' = content nb ++ (urun s (content b)).2.
Proof.
  revert s b nb. induction fuel as [|fuel IH]; intros s b nb Hb Hn Hs Hr Hf; cbn [unpad_loop].
  all: rewrite (Len_content b Hb); destruct (Z.gtb_spec (Z.of_nat (length (content b))) 0) as [Hp|Hp]; [try lia|].
  1, 3: exists nb; assert (content b = []) as -> by (destruct (content b); [done|cbn in Hp; lia]); cbn [urun fst snd]; rewrite app_nil_r; done.
  destruct (unpad_turn_ok s b nb Hb Hn Hs) as (s' & data & b' & nb' & out & -> & Hb' & Hn' & Hcb & Hd & Hcn & Hr' & Hu); [intros Hx; rewrite Hx in Hp; cbn in Hp; lia|done|].
  cbn [mbind outcome_bind]. assert (length (content b') <= fuel)%nat as Hf'.
  { rewrite Hcb, length_app in Hf. destruct data; [done|]. cbn [length] in Hf. lia. }
  rewrite Hcb, urun_app, Hu. cbn [fst snd]. rewrite app_assoc, <-Hcn. fold (block_done s'). pose proof (settle_cases s') as Hcases. unfold settle in Hcases |- *.
  destruct (block_done s') eqn:Hdone; [|apply IH; try done; destruct Hcases as [Hc|(c & Hc & _)]; [done|]; rewrite Hc in Hdone; discriminate].
  destruct (Z.eqb_spec (CurrentCommand s') 0) as [H0|H0]; [apply IH; try done; left; cbn; lia|].
  rewrite urun_initial by done. cbn [fst snd]. rewrite (Len_content b' Hb').
  destruct (Z.gtb_spec (Z.of_nat (length (content b'))) 0) as [Hp'|Hp'].
  - rewrite (Bytes_content b' Hb'). cbn [mbind outcome_bind]. destruct (Write_ok nb' (content b') Hn') as (nb2 & -> & Hw2 & Hc2 & _). cbn [mbind outcome_bind].
    exists nb2. rewrite take_ge in Hc2 by lia. done.
  - exists nb'. assert (content b' = []) as -> by (destruct (content b'); [done|cbn in Hp'; lia]). by rewrite app_nil_r.
Qed.

(** The effect on one buffer: a connection that was not padded yet is when its
    first bytes are the user's. *)
Definition unpadded (uuid : bytes) (s : Block) (c : bytes) : Block * bytes :=
  if in_initial_state s then
    if decide (21 <= length c /\ take 16 c = uuid)%nat then urun (with_command s 5) (drop 16 c) else (s, c)
  else urun s c.

Section Unpadding.
Context (g : bytes) (Hg : length g = Z.to_nat Size) (uuid : bytes).
Abbreviation K := (Z.to_nat Size).

Lemma XtlsUnpadding_ok s b : wf b -> (length (content b) <= K)%nat -> in_initial_state s = true \/ busy s ->
  exists b', XtlsUnpadding g uuid s b = Ok ((unpadded uuid s (content b)).1, b') /\ wf b' /\ content b' = (unpadded uuid s (content b)).2.
Proof.
  intros Hb Hl Hs. unfold XtlsUnpadding, unpadded. destruct (wf_New g Hg) as [Hw0 Hc0]. pose proof (room_New g Hg) as Hr0.
  destruct (in_initial_state s) eqn:Hi.
  - rewrite (Len_content b Hb). destruct (Z.geb_spec (Z.of_nat (length (content b))) 21) as [H21|H21]; cbn [mbind outcome_bind].
    + change 16 with (Z.of_nat 16). rewrite (BytesTo_content b 16 Hb) by lia. cbn [mbind outcome_bind].
      destruct (decide _) as [[_ Hu]|Hu]; [rewrite bool_decide_true by done|rewrite bool_decide_false; [by exists b|intros ->; apply Hu; split; [lia|done]]].
      destruct (Advance_content b 16 Hb) as [Hb' Hc']; [lia|]. rewrite (Len_content _ Hb'), Nat2Z.id.
      destruct (unpad_loop_ok (length (content (Advance b (Z.of_nat 16)))) (with_command s 5) _ (New g) Hb' Hw0) as (nb & -> & Hn & Hcn); [left; cbn; lia|rewrite Hr0, Hc', length_drop; lia|done|].
      exists nb. rewrite Hcn, Hc0, Hc'. done.
    + destruct (decide _) as [[? _]|_]; [lia|]. by exists b.
  - destruct Hs as [?|Hs]; [done|]. rewrite (Len_content _ Hb), Nat2Z.id.
    destruct (unpad_loop_ok (length (content b)) s b (New g) Hb Hw0 Hs) as (nb & -> & Hn & Hcn); [lia|done|]. exists nb. by rewrite Hcn, Hc0.
Qed.

Lemma unpadded_keeps s c : in_initial_state s = true \/ busy s -> in_initial_state (unpadded uuid s c).1 = true \/ busy (unpadded uuid s c).1.
Proof.
  assert (forall l s, in_initial_state s = true \/ busy s -> in_initial_state (urun s l).1 = true \/ busy (urun s l).1) as Hrun.
  { clear s c. induction l as [|x l IH]; intros s Hs; [done|]. cbn [urun fst]. apply IH. unfold ustep. destruct (in_initial_state s) eqn:Hi; [by left|].
    assert (forall s', in_initial_state (settle s') = true \/ busy (settle s')) as Hset.
    { intros s'. destruct (settle_cases s') as [?|(c & -> & _)]; [by right|by left]. }
    repeat case_match; apply Hset. }
  intros Hs. unfold unpadded. destruct (in_initial_state s) eqn:Hi; [|by apply Hrun; rewrite Hi]. case_decide; [|by left]. apply Hrun. right. left. cbn. lia.
Qed.

(** Buffer after buffer. *)
Fixpoint unpadded_all (s : Block) (cs : list bytes) : Block * bytes :=
  match cs with
  | [] => (s, [])
  | c :: cs' => ((unpadded_all (unpadded uuid s c).1 cs').1, (unpadded uuid s c).2 ++ (unpadded_all (unpadded uuid s c).1 cs').2)
  end.

Lemma unpad_all_ok s mb : Forall (fun b => wf b /\ (length (content b) <= K)%nat) mb -> in_initial_state s = true \/ busy s ->
  exists mb', unpad_all g uuid s mb = Ok ((unpadded_all s (content <$> mb)).1, mb') /\ Forall wf mb' /\ contents mb' = (unpadded_all s (content <$> mb)).2.
Proof.
  intros Hmb. revert s. induction Hmb as [|b mb [Hb Hl] Hmb IH]; intros s Hs; [by exists []|]. cbn [unpad_all fmap list_fmap unpadded_all].
  destruct (XtlsUnpadding_ok s b Hb Hl Hs) as (b' & -> & Hb' & Hc'). cbn [mbind outcome_bind].
  destruct (IH (unpadded uuid s (content b)).1 (unpadded_keeps s (content b) Hs)) as (mb' & -> & Hmb' & Hcs). cbn [mbind outcome_bind fst snd].
  eexists. split; [done|]. rewrite (Len_content b' Hb'). destruct (Z.gtb_spec (Z.of_nat (length (content b'))) 0) as [Hp|Hp].
  - split; [by constructor|]. by rewrite contents_cons, Hcs, Hc'.
  - split; [done|]. rewrite Hcs, <-Hc'. destruct (content b'); [done|cbn in Hp; lia].
Qed.
End Unpadding.

(** ** Blocks *)

Record Padded := { pd_command : byte; pd_content : bytes; pd_padding : bytes }.

Definition enc_block (k : Padded) : bytes :=
  [pd_command k] ++ put16 (Z.of_nat (length (pd_content k))) ++ put16 (Z.of_nat (length (pd_padding k))) ++ pd_content k ++ pd_padding k.

Definition block_fits (k : Padded) : Prop := Z.of_nat (length (pd_content k)) < 2 ^ 16 /\ Z.of_nat (length (pd_padding k)) < 2 ^ 16.

Definition between_blocks : Block := {| RemainingCommand := 5; RemainingContent := 0; RemainingPadding := 0; CurrentCommand := 0 |}.

(** Where a block leaves its reader. *)
Definition block_end (command : byte) : Block := if decide (command = CommandPaddingContinue) then between_blocks else idle_block (byte_to_Z command).

Lemma settle_end c : settle {| RemainingCommand := 0; RemainingContent := 0; RemainingPadding := 0; CurrentCommand := byte_to_Z c |} = block_end c.
Proof.
  unfold settle, block_done, block_end. cbn [RemainingCommand RemainingContent RemainingPadding CurrentCommand Z.leb andb].
  change (0 ?= 0) with Eq. cbn iota. case_decide as Hc; [by subst c|]. destruct (Z.eqb_spec (byte_to_Z c) 0) as [H0|]; [|done].
  exfalso. apply Hc. apply (inj byte_to_Z). by rewrite H0.
Qed.

Lemma ustep_head s x : 1 < RemainingCommand s -> ustep s x = (head_byte s x, []).
Proof.
  intros Hs. unfold ustep. rewrite busy_not_initial by (left; lia). destruct (Z.gtb_spec (RemainingCommand s) 0); [|lia].
  by rewrite settle_busy by (left; unfold head_byte; cbn; lia).
Qed.

Lemma urun_skip s s' x l : ustep s x = (s', []) -> urun s (x :: l) = urun s' l.
Proof. intros Hx. cbn [urun]. rewrite Hx. cbn [fst snd app]. by destruct (urun s' l). Qed.

Lemma urun_head s c n m : RemainingCommand s = 5 -> 0 <= n < 2 ^ 16 -> 0 <= m < 2 ^ 16 ->
  urun s (c :: put16 n ++ put16 m) = (settle {| RemainingCommand := 0; RemainingContent := n; RemainingPadding := m; CurrentCommand := byte_to_Z c |}, []).
Proof.
  intros Hs Hn Hm. rewrite !put16_bytes. destruct s as [rc con pad cur]. cbn [RemainingCommand] in Hs. subst rc. cbn [app].
  do 4 (erewrite urun_skip; [|apply ustep_head; cbn; lia]). erewrite urun_skip; [|unfold ustep; cbn; reflexivity]. cbn [urun]. do 2 f_equal.
  unfold head_byte. cbn -[byte_of_Z Z.shiftl Z.lor].
  change (5 - 1) with 4. change (4 - 1) with 3. change (3 - 1) with 2. change (2 - 1) with 1. cbn -[byte_of_Z Z.shiftl Z.lor]. by rewrite !lor_put16.
Qed.

Lemma urun_cons_state s x l : (urun s (x :: l)).1 = (urun (ustep s x).1 l).1.
Proof. done. Qed.

(** *** The reader is inside of a block until its last byte *)

Definition stays (s : Block) (w : bytes) : Prop := forall p q, w = p ++ q -> q ≠ [] -> busy (urun s p).1.

Lemma stays_nil s : stays s [].
Proof. intros p q Hw Hq. by apply eq_sym, app_nil in Hw as [_ ->]. Qed.

Lemma stays_cons s x w : busy s -> stays (ustep s x).1 w -> stays s (x :: w).
Proof. intros Hs Hw p q Heq Hq. destruct p as [|y p]; [done|]. injection Heq as <- ->. cbn [urun fst]. by apply (Hw p q). Qed.

Lemma stays_app s w1 w2 : stays s w1 -> stays (urun s w1).1 w2 -> stays s (w1 ++ w2).
Proof.
  revert s. induction w1 as [|x w1 IH]; intros s H1 H2; [done|]. cbn [app]. apply stays_cons; [by apply (H1 [] (x :: w1))|].
  apply IH; [|by rewrite <-(urun_cons_state s x w1)]. intros p q -> Hq. by apply (H1 (x :: p) q).
Qed.

Lemma stays_content s d : RemainingCommand s <= 0 -> Z.of_nat (length d) <= RemainingContent s -> stays s d.
Proof.
  intros Hc Hl p q -> Hq. rewrite length_app in Hl. assert (0 < length q)%nat by (destruct q; [done|cbn; lia]).
  destruct (decide (p = [])) as [->|Hp]; [right; left; cbn; lia|]. rewrite urun_content by (done || lia). cbn [fst].
  rewrite settle_busy; right; left; cbn; lia.
Qed.

Lemma stays_padding s d : RemainingCommand s <= 0 -> RemainingContent s <= 0 -> Z.of_nat (length d) <= RemainingPadding s -> stays s d.
Proof.
  intros Hc Hn Hl p q -> Hq. rewrite length_app in Hl. assert (0 < length q)%nat by (destruct q; [done|cbn; lia]).
  destruct (decide (p = [])) as [->|Hp]; [right; right; cbn; lia|]. rewrite urun_padding by (done || lia). cbn [fst].
  rewrite settle_busy; right; right; cbn; lia.
Qed.

Lemma stays_head s c n m : RemainingCommand s = 5 -> stays s (c :: put16 n ++ put16 m).
Proof.
  intros Hs. rewrite !put16_bytes. destruct s as [rc con pad cur]. cbn [RemainingCommand] in Hs. subst rc. cbn [app].
  do 4 (apply stays_cons; [left; cbn; lia|rewrite ustep_head by (cbn; lia); cbn [fst]]). apply stays_cons; [left; cbn; lia|apply stays_nil].
Qed.

Definition body (k : Padded) : Block :=
  {| RemainingCommand := 0; RemainingContent := Z.of_nat (length (pd_content k)); RemainingPadding := Z.of_nat (length (pd_padding k));
     CurrentCommand := byte_to_Z (pd_command k) |}.

Lemma enc_block_parts k : enc_block k = (pd_command k :: put16 (Z.of_nat (length (pd_content k))) ++ put16 (Z.of_nat (length (pd_padding k)))) ++ pd_content k ++ pd_padding k.
Proof. unfold enc_block. cbn [app]. by rewrite <-!app_assoc. Qed.

(** The content and the padding, either of which may be empty. *)
Lemma urun_body k : urun (settle (body k)) (pd_content k ++ pd_padding k) = (block_end (pd_command k), pd_content k) /\ stays (settle (body k)) (pd_content k ++ pd_padding k).
Proof.
  destruct k as [c d p]. unfold body. cbn [pd_command pd_content pd_padding]. pose proof (settle_end c) as Hend.
  destruct (decide (d = [])) as [->|Hd], (decide (p = [])) as [->|Hp].
  - change (Z.of_nat (length (@nil byte))) with 0. rewrite Hend. split; [done|apply stays_nil].
  - change (Z.of_nat (length (@nil byte))) with 0. assert (0 < length p)%nat by (destruct p; [done|cbn; lia]). cbn [app]. rewrite settle_busy by (right; right; cbn; lia).
    split; [|apply stays_padding; cbn; lia]. rewrite urun_padding by (done || cbn; lia). unfold less_padding. cbn [RemainingCommand RemainingContent RemainingPadding CurrentCommand]. by rewrite Z.sub_diag, Hend.
  - change (Z.of_nat (length (@nil byte))) with 0. assert (0 < length d)%nat by (destruct d; [done|cbn; lia]). rewrite app_nil_r, settle_busy by (right; left; cbn; lia).
    split; [|apply stays_content; cbn; lia]. rewrite urun_content by (done || cbn; lia). unfold less_content. cbn [RemainingCommand RemainingContent RemainingPadding CurrentCommand]. by rewrite Z.sub_diag, Hend.
  - assert (0 < length d)%nat by (destruct d; [done|cbn; lia]). assert (0 < length p)%nat by (destruct p; [done|cbn; lia]).
    rewrite settle_busy by (right; left; cbn; lia). assert (forall b, RemainingContent b = Z.of_nat (length d) -> urun b d = (settle (less_content b (RemainingContent b)), d) \/ 0 < RemainingCommand b) as Hrun.
    { intros b Hb. destruct (decide (0 < RemainingCommand b)); [by right|left]. rewrite urun_content by (done || lia). by rewrite Hb. }
    destruct (Hrun {| RemainingCommand := 0; RemainingContent := Z.of_nat (length d); RemainingPadding := Z.of_nat (length p); CurrentCommand := byte_to_Z c |} eq_refl) as [Hu|?]; [|cbn in *; lia].
    unfold less_content in Hu. cbn [RemainingCommand RemainingContent RemainingPadding CurrentCommand] in Hu. rewrite Z.sub_diag, settle_busy in Hu by (right; right; cbn; lia).
    split; [|apply stays_app; [apply stays_content; cbn; lia|rewrite Hu; apply stays_padding; cbn; lia]].
    rewrite urun_app, Hu. cbn [fst snd]. rewrite urun_padding by (done || cbn; lia). unfold less_padding. cbn [RemainingCommand RemainingContent RemainingPadding CurrentCommand]. by rewrite Z.sub_diag, Hend, app_nil_r.
Qed.

Lemma urun_block s k : RemainingCommand s = 5 -> block_fits k -> urun s (enc_block k) = (block_end (pd_command k), pd_content k) /\ stays s (enc_block k).
Proof.
  intros Hs [H1 H2]. rewrite enc_block_parts. pose proof (urun_head s (pd_command k) _ _ Hs (conj (Nat2Z.is_nonneg _) H1) (conj (Nat2Z.is_nonneg _) H2)) as Hh.
  fold (body k) in Hh. destruct (urun_body k) as [Hb Hst]. split; [by rewrite urun_app, Hh; cbn [fst snd]; rewrite Hb|].
  apply stays_app; [by apply stays_head|]. by rewrite Hh.
Qed.

Definition continues (k : Padded) : Prop := block_fits k /\ pd_command k = CommandPaddingContinue.

Lemma urun_blocks s ks : RemainingCommand s = 5 -> Forall continues ks ->
  RemainingCommand (urun s (ks ≫= enc_block)).1 = 5 /\ (urun s (ks ≫= enc_block)).2 = ks ≫= pd_content /\ stays s (ks ≫= enc_block).
Proof.
  intros Hs Hks. revert s Hs. induction Hks as [|k ks [Hf Hc] Hks IH]; intros s Hs; [by split; [|split; [|apply stays_nil]]|]. rewrite !bind_cons.
  destruct (urun_block s k Hs Hf) as [Hu Hst]. rewrite Hc in Hu. change (block_end CommandPaddingContinue) with between_blocks in Hu.
  destruct (IH between_blocks eq_refl) as (H1 & H2 & H3). rewrite urun_app, Hu. cbn [fst snd]. split; [done|]. split; [by rewrite H2|].
  apply stays_app; [done|]. by rewrite Hu.
Qed.

(** A whole padded stream and what follows it. *)
Lemma urun_stream s ks k rest : RemainingCommand s = 5 -> Forall continues ks -> block_fits k -> pd_command k ≠ CommandPaddingContinue ->
  urun s ((ks ≫= enc_block) ++ enc_block k ++ rest) = (idle_block (byte_to_Z (pd_command k)), (ks ≫= pd_content) ++ pd_content k ++ rest) /\
  stays s ((ks ≫= enc_block) ++ enc_block k).
Proof.
  intros Hs Hks Hf Hc. destruct (urun_blocks s ks Hs Hks) as (H1 & H2 & H3). destruct (urun_block _ k H1 Hf) as [Hu Hst].
  unfold block_end in Hu. rewrite decide_False in Hu by done. split; [|by apply stays_app].
  rewrite !urun_app, H2, Hu. cbn [fst snd]. by rewrite urun_initial.
Qed.

(** *** In pieces *)

Lemma stays_busy s w : stays s w -> w ≠ [] -> busy s.
Proof. intros Hst Hw. by apply (Hst [] w). Qed.

Lemma stays_drop s p w : stays s (p ++ w) -> stays (urun s p).1 w.
Proof.
  intros Hst a q -> Hq. rewrite app_assoc in Hst. pose proof (Hst (p ++ a) q eq_refl Hq) as H. by rewrite urun_app in H.
Qed.

Lemma unpadded_busy uuid s c : busy s -> unpadded uuid s c = urun s c.
Proof. intros Hs. unfold unpadded. by rewrite busy_not_initial. Qed.

(** Up to the last piece the reader is inside of a block, so the pieces are
    read as one. *)
Lemma unpadded_all_pieces uuid s init c w q : stays s w -> w = concat init ++ q -> q ≠ [] ->
  unpadded_all uuid s (init ++ [c]) = urun s (concat init ++ c).
Proof.
  revert s w. induction init as [|c0 init IH]; intros s w Hst Hw Hq; cbn [app concat unpadded_all].
  { rewrite unpadded_busy by (apply (stays_busy s w Hst); by rewrite Hw). rewrite app_nil_r. by destruct (urun s c). }
  cbn [concat] in Hw. rewrite <-app_assoc in Hw.
  rewrite unpadded_busy by (apply (stays_busy s w Hst); rewrite Hw; by destruct c0, (concat init)).
  rewrite Hw in Hst. rewrite (IH (urun s c0).1 (concat init ++ q) (stays_drop _ _ _ Hst) eq_refl Hq). rewrite <-app_assoc. by rewrite (urun_app s c0).
Qed.

Lemma prefix_before {A} (a b w rest : list A) : a ++ b = w ++ rest -> (length a < length w)%nat -> exists q, w = a ++ q /\ q ≠ [].
Proof.
  intros Heq Hl. exists (drop (length a) w). split.
  - rewrite <-(take_drop (length a) w) at 1. f_equal. apply (f_equal (take (length a))) in Heq. rewrite take_app_length in Heq. by rewrite take_app_le in Heq by lia.
  - intros Hx. apply (f_equal length) in Hx. rewrite length_drop in Hx. cbn in Hx. lia.
Qed.

Definition ready_block : Block := with_command initial_block 5.

(** From the beginning of a connection. *)
Lemma unpadded_all_stream uuid init c ks k rest : length uuid = 16%nat -> Forall continues ks -> block_fits k -> pd_command k ≠ CommandPaddingContinue ->
  concat (init ++ [c]) = uuid ++ (ks ≫= enc_block) ++ enc_block k ++ rest ->
  (forall c0, head (init ++ [c]) = Some c0 -> 21 <= length c0)%nat ->
  (length (concat init) < 16 + length ((ks ≫= enc_block) ++ enc_block k))%nat ->
  unpadded_all uuid initial_block (init ++ [c]) = (idle_block (byte_to_Z (pd_command k)), (ks ≫= pd_content) ++ pd_content k ++ rest).
Proof.
  intros Hu Hks Hf Hc Hcs Hhead Hl. destruct (urun_stream ready_block ks k rest eq_refl Hks Hf Hc) as [Hrun Hst]. rewrite <-Hrun. clear Hrun.
  assert (forall c0 x, uuid ++ x = c0 ++ concat (tail (init ++ [c])) -> (21 <= length c0)%nat -> c0 = uuid ++ drop 16 c0) as Hfirst.
  { intros c0 x Hx H21. rewrite <-(take_drop 16 c0) at 1. f_equal. apply (f_equal (take 16)) in Hx. rewrite take_app_length' in Hx by done. by rewrite take_app_le in Hx by lia. }
  destruct init as [|c0 init]; cbn [app concat unpadded_all head tail] in *.
  - specialize (Hhead c eq_refl). pose proof (Hfirst c _ (eq_sym Hcs) Hhead) as Hcu. rewrite app_nil_r in Hcs.
    unfold unpadded. change (in_initial_state initial_block) with true. cbv iota.
    rewrite decide_True by (split; [done|]; rewrite Hcu; by apply take_app_length'). fold ready_block.
    rewrite app_nil_r. rewrite Hcs. rewrite drop_app_length' by done. by destruct (urun _ _).
  - specialize (Hhead c0 eq_refl). pose proof (Hfirst c0 _ (eq_sym Hcs) Hhead) as Hcu. unfold unpadded. change (in_initial_state initial_block) with true. cbv iota.
    rewrite decide_True by (split; [done|]; rewrite Hcu; by apply take_app_length'). fold ready_block.
    rewrite Hcu, <-app_assoc in Hcs. apply app_inv_head in Hcs. rewrite concat_app in Hcs. cbn [concat] in Hcs. rewrite app_nil_r in Hcs.
    rewrite app_assoc, (app_assoc _ (enc_block k)) in Hcs. destruct (prefix_before _ _ _ _ Hcs) as (q & Hq & Hqn).
    { rewrite length_app in Hl |- *. rewrite length_drop. lia. }
    pose proof (unpadded_all_pieces uuid ready_block (drop 16 c0 :: init) c _ q Hst Hq Hqn) as Hall. cbn [app unpadded_all concat] in Hall.
    rewrite unpadded_busy in Hall by (left; cbn; lia). rewrite Hall, (app_assoc _ (enc_block k)), <-Hcs. done.
Qed.

(** ** What the writer makes of a buffer *)

Lemma Extend_takes b n : wf b -> (n <= room b)%nat -> exists b' lh d, Extend b (Z.of_nat n) = Ok (b', lh) /\ wf b' /\ content b' = content b ++ d /\ length d = n.
Proof.
  intros Hb Hn. pose proof Hb as [? ? ?]. unfold room, cap in *. unfold Extend, cap. rewrite !i32_small by lia. rewrite decide_False by lia.
  rewrite slice_of_ok by (unfold cap; lia). cbn [mbind outcome_bind]. eexists _, _, (take n (drop (Z.to_nat (end_ b)) (arr b))). split; [done|].
  split; [split; unfold cap; change (arr (set_cursors _ _ _)) with (arr b); cbn; lia|]. split; [|rewrite length_take, length_drop; lia].
  unfold content. change (arr (set_cursors _ _ _)) with (arr b). cbn [start end_ set_cursors].
  replace (Z.to_nat (end_ b + Z.of_nat n) - Z.to_nat (start b))%nat with ((Z.to_nat (end_ b) - Z.to_nat (start b)) + n)%nat by lia.
  rewrite <-take_take_drop, drop_drop. do 3 f_equal. lia.
Qed.

Section Writing.
Context (g : bytes) (Hg : length g = Z.to_nat Size) (uuid : bytes) (Huuid : length uuid = 16%nat).
Abbreviation K := (Z.to_nat Size).

Definition opt_content (b : option Buffer) : bytes := match b with Some b => content b | None => [] end.

(** Small enough to be one block with its head. *)
Definition one_block (b : option Buffer) : Prop :=
  match b with Some b => wf b | None => True end /\ Z.of_nat (length (opt_content b)) <= Size - 21.

Definition draws (draw : Z -> Z) : Prop := forall n, 0 < n -> 0 <= draw n < n.

(** Before the first block comes the user's id. *)
Definition head_of (userUUID : option bytes) : bytes := default [] userUUID.

Lemma XtlsPadding_ok draw b command userUUID longPadding : draws draw -> one_block b -> (userUUID = None \/ userUUID = Some uuid) ->
  exists nb padding, XtlsPadding g draw b command userUUID longPadding = Ok nb /\ wf nb /\ (length (content nb) <= K)%nat /\
    block_fits {| pd_command := command; pd_content := opt_content b; pd_padding := padding |} /\
    content nb = head_of userUUID ++ enc_block {| pd_command := command; pd_content := opt_content b; pd_padding := padding |}.
Proof.
  intros Hd [Hb Hl] Hu. unfold XtlsPadding. pose proof (Hd 500 ltac:(lia)) as H500. pose proof (Hd 256 ltac:(lia)) as H256.
  assert (opt_Len b = Z.of_nat (length (opt_content b))) as -> by (destruct b as [b|]; [by apply Len_content|done]).
  set (contentLen := Z.of_nat (length (opt_content b))) in *. cbv zeta. assert (Size = 16384) as HS by done.
  set (p0 := if (contentLen <? 900) && longPadding then _ else _).
  assert (0 <= p0) as Hp0.
  { unfold p0. destruct (Z.ltb_spec contentLen 900), longPadding; cbn [andb]; rewrite ?i32_small; rewrite ?i32_small; lia. }
  set (p := if p0 >? _ then _ else p0). assert (0 <= p <= Size - 21 - contentLen) as Hp by (unfold p; destruct (Z.gtb_spec p0 (Size - 21 - contentLen)); lia).
  destruct (wf_New g Hg) as [Hw0 Hc0]. pose proof (room_New g Hg) as Hr0. pose proof (Z2Nat.id p ltac:(lia)) as Hpn.
  assert (exists b1, (match userUUID with Some u => Write (New g) u | None => Ok (New g, 0) end) = Ok (b1, Z.of_nat (length (head_of userUUID))) /\
    wf b1 /\ content b1 = head_of userUUID /\ (K - 16 <= room b1)%nat /\ room b1 = (K - length (head_of userUUID))%nat) as (b1 & -> & Hb1 & Hc1 & Hr1 & Hr1').
  { destruct Hu as [-> | ->]; cbn [head_of default]; [exists (New g); rewrite Hc0, Hr0; split; [done|split; [done|split; [done|cbn; lia]]]|].
    destruct (Write_ok (New g) uuid Hw0) as (b1 & -> & Hb1 & Hc1 & Hr1). exists b1. rewrite Hr0 in *. rewrite Nat.min_r by lia. split; [done|]. split; [done|].
    rewrite Hc1, Hc0, take_ge by lia. split; [done|]. unfold id. lia. }
  cbn [mbind outcome_bind]. assert (length (head_of userUUID) <= 16)%nat as Hlh by (destruct Hu as [-> | ->]; cbn; lia).
  match goal with |- context [Write b1 ?h] => set (hd := h) end.
  destruct (Write_ok b1 hd Hb1) as (b2 & -> & Hb2 & Hc2 & Hr2). cbn [mbind outcome_bind]. rewrite take_ge in Hc2 by (cbn [length hd]; lia). cbn [length hd] in Hr2.
  assert (exists b3, (match b with Some b => content ← Bytes b; '(n, _) ← Write b2 content; Ok n | None => Ok b2 end) = Ok b3 /\ wf b3 /\
    content b3 = content b2 ++ opt_content b /\ room b3 = (room b2 - length (opt_content b))%nat) as (b3 & -> & Hb3 & Hc3 & Hr3).
  { destruct b as [b|]; [|exists b2; cbn [opt_content length]; rewrite app_nil_r; split; [done|split; [done|split; [done|lia]]]].
    rewrite (Bytes_content b Hb). cbn [mbind outcome_bind]. destruct (Write_ok b2 (content b) Hb2) as (b3 & -> & Hb3 & Hc3 & Hr3). exists b3.
    cbn [mbind outcome_bind opt_content] in *. rewrite take_ge in Hc3 by (unfold contentLen in *; lia). done. }
  cbn [mbind outcome_bind]. rewrite <-Hpn. destruct (Extend_takes b3 (Z.to_nat p) Hb3) as (b4 & lh & d & -> & Hb4 & Hc4 & Hld); [unfold contentLen in *; lia|].
  cbn [mbind outcome_bind]. exists b4, d. split; [done|]. split; [done|].
  assert (content b4 = head_of userUUID ++ enc_block {| pd_command := command; pd_content := opt_content b; pd_padding := d |}) as Hcb4.
  { rewrite Hc4, Hc3, Hc2, Hc1. unfold enc_block, hd. cbn [pd_command pd_content pd_padding]. rewrite !put16_bytes, Hld, Hpn. fold contentLen. by rewrite <-!app_assoc. }
  split; [|split; [|done]].
  - rewrite Hcb4, enc_block_parts, !length_app. cbn [length pd_content pd_padding pd_command]. rewrite !length_app, !length_put16. unfold contentLen in *. lia.
  - split; cbn [pd_content pd_padding]; unfold contentLen in *; lia.
Qed.

(** Whose turn it is: the first block is found by the user's id. *)
Definition awaits (userUUID : option bytes) (s : Block) : Prop :=
  match userUUID with Some u => u = uuid /\ in_initial_state s = true | None => RemainingCommand s = 5 end.

(** A buffer of the padded part is read as the buffer it was made of. *)
Lemma padding_roundtrip draw b command userUUID longPadding s : draws draw -> one_block b -> awaits userUUID s ->
  exists nb, XtlsPadding g draw b command userUUID longPadding = Ok nb /\ wf nb /\ (length (content nb) <= K)%nat /\ content nb ≠ [] /\
    unpadded uuid s (content nb) = (block_end command, opt_content b).
Proof.
  intros Hd Hb Hs. assert (userUUID = None \/ userUUID = Some uuid) as Hu by (destruct userUUID; [right; by destruct Hs as [-> _]|by left]).
  destruct (XtlsPadding_ok draw b command userUUID longPadding Hd Hb Hu) as (nb & padding & Hx & Hw & Hl & Hf & Hc). exists nb. do 3 (split; [done|]).
  split; [rewrite Hc; intros [_ H]%app_nil; by apply (f_equal length) in H|]. rewrite Hc. destruct userUUID as [u|]; cbn [head_of default] in *.
  - destruct Hs as [-> Hi]. unfold unpadded, id. rewrite Hi, decide_True. 2: { rewrite length_app, enc_block_parts, length_app. cbn [length]. rewrite length_app, !length_put16. split; [lia|by apply take_app_length']. }
    rewrite drop_app_length' by done. by apply (urun_block (with_command s 5) _ eq_refl Hf).
  - rewrite unpadded_busy by (left; cbn in Hs; lia). by apply (urun_block s _ Hs Hf).
Qed.
End Writing.

(** ** Complete records *)

Definition enc_application (r : bytes) : bytes := TlsApplicationDataStart ++ put16 (Z.of_nat (length r)) ++ r.

Definition record_body (r : bytes) : Prop := r ≠ [] /\ Z.of_nat (length r) < 2 ^ 16.

Lemma complete_nil fuel h r : complete_loop fuel h r [] = (h =? 5) && (r =? 0).
Proof. by destruct fuel. Qed.
Lemma complete_5 fuel r x rest : complete_loop (S fuel) 5 r (x :: rest) = bool_decide (x = x17) && complete_loop fuel 4 r rest.
Proof. cbn [complete_loop]. by destruct (bool_decide (x = x17)). Qed.
Lemma complete_4 fuel r x rest : complete_loop (S fuel) 4 r (x :: rest) = bool_decide (x = x03) && complete_loop fuel 3 r rest.
Proof. cbn [complete_loop]. by destruct (bool_decide (x = x03)). Qed.
Lemma complete_3 fuel r x rest : complete_loop (S fuel) 3 r (x :: rest) = bool_decide (x = x03) && complete_loop fuel 2 r rest.
Proof. cbn [complete_loop]. by destruct (bool_decide (x = x03)). Qed.
Lemma complete_2 fuel r x rest : complete_loop (S fuel) 2 r (x :: rest) = complete_loop fuel 1 (Z.shiftl (byte_to_Z x) 8) rest.
Proof. done. Qed.
Lemma complete_1 fuel r x rest : complete_loop (S fuel) 1 r (x :: rest) = complete_loop fuel 0 (Z.lor r (byte_to_Z x)) rest.
Proof. done. Qed.

Lemma complete_body fuel n rest : 0 <= n -> (length rest <= fuel)%nat ->
  complete_loop fuel 0 n rest = (0 <? n) && (n <=? Z.of_nat (length rest)) && complete_loop (pred fuel) 5 0 (drop (Z.to_nat n) rest).
Proof.
  intros Hn Hf. destruct rest as [|z rest].
  { rewrite complete_nil. cbn [length]. change (0 =? 5) with false. destruct (Z.ltb_spec 0 n), (Z.leb_spec n (Z.of_nat 0)); cbn [andb]; try done; lia. }
  destruct fuel as [|fuel]; [cbn in Hf; lia|]. cbn [complete_loop pred]. change (0 >? 0) with false. cbv iota. rewrite Z.gtb_ltb. destruct (Z.ltb_spec 0 n); [|done]. cbn [andb].
  destruct (Z.ltb_spec (Z.of_nat (length (z :: rest))) n), (Z.leb_spec n (Z.of_nat (length (z :: rest)))); cbn [andb]; try done; lia.
Qed.

(** One record of the loop. *)
Lemma complete_record fuel a b c x y rest : (length rest <= fuel)%nat ->
  complete_loop (5 + fuel) 5 0 (a :: b :: c :: x :: y :: rest) =
    bool_decide (a = x17) && bool_decide (b = x03) && bool_decide (c = x03) &&
    ((0 <? get16 [x; y]) && (get16 [x; y] <=? Z.of_nat (length rest)) && complete_loop (pred fuel) 5 0 (drop (Z.to_nat (get16 [x; y])) rest)).
Proof.
  intros Hf. cbn [Nat.add]. rewrite complete_5, complete_4, complete_3, complete_2, complete_1.
  change (Z.lor (Z.shiftl (byte_to_Z x) 8) (byte_to_Z y)) with (get16 [x; y]). pose proof (get16_range [x; y]). by rewrite complete_body, !andb_assoc by (done || lia).
Qed.

Lemma complete_short fuel c : (0 < length c < 5)%nat -> complete_loop fuel 5 0 c = false.
Proof.
  intros Hc. destruct c as [|x1 [|x2 [|x3 [|x4 [|x5 c]]]]]; cbn [length] in Hc; try lia.
  all: destruct fuel as [|[|[|[|fuel]]]]; rewrite ?complete_5, ?complete_4, ?complete_3, ?complete_2, ?complete_nil; try done; cbn [complete_loop]; by rewrite ?andb_false_r.
Qed.

Lemma enc_application_length r : length (enc_application r) = (5 + length r)%nat.
Proof. unfold enc_application. by rewrite !length_app, length_put16. Qed.

Lemma complete_loop_iff fuel c : (length c <= fuel)%nat ->
  complete_loop fuel 5 0 c = true <-> exists rs, Forall record_body rs /\ c = rs ≫= enc_application.
Proof.
  revert c. induction fuel as [fuel IH] using lt_wf_ind. intros c Hf. destruct (decide (length c < 5)%nat) as [Hs|Hs].
  { destruct c as [|a c]; [split; [by exists []|by destruct fuel]|]. rewrite complete_short by (cbn in *; lia). split; [done|]. intros (rs & Hrs & Hc).
    destruct rs as [|r rs]; [done|]. apply (f_equal length) in Hc. rewrite bind_cons, length_app, enc_application_length in Hc. lia. }
  destruct c as [|a [|b [|d [|x [|y rest]]]]]; cbn [length] in *; try lia. destruct fuel as [|[|[|[|[|fuel]]]]]; try lia. change (S (S (S (S (S fuel))))) with (5 + fuel)%nat.
  rewrite complete_record by lia. pose proof (get16_range [x; y]) as Hr. split.
  - rewrite !andb_true_iff, !bool_decide_eq_true, Z.ltb_lt, Z.leb_le. intros [[[-> ->] ->] [[H0 Hn] Hrest]]. apply IH in Hrest as (rs & Hrs & Hd); [|lia|rewrite length_drop; lia].
    exists (take (Z.to_nat (get16 [x; y])) rest :: rs). assert (length (take (Z.to_nat (get16 [x; y])) rest) = Z.to_nat (get16 [x; y])) as Hl by (rewrite length_take; lia).
    split; [constructor; [split; [intros Hx; rewrite Hx in Hl; cbn in Hl; lia|lia]|done]|]. rewrite bind_cons, <-Hd. unfold enc_application. rewrite Hl, Z2Nat.id by lia.
    rewrite <-!app_assoc, take_drop. change (get16 [x; y]) with (be_combine [x; y]). unfold put16. by rewrite (be_split_combine 2 [x; y]).
  - intros (rs & Hrs & Hc). destruct Hrs as [|r rs [Hne Hlr] Hrs]; [done|]. rewrite bind_cons in Hc. unfold enc_application in Hc at 1. rewrite <-!app_assoc in Hc.
    rewrite put16_bytes in Hc. injection Hc as -> -> -> -> -> ->. rewrite <-put16_bytes. rewrite !bool_decide_true by done. cbn [andb].
    assert (get16 (put16 (Z.of_nat (length r))) = Z.of_nat (length r)) as ->. { rewrite <-(app_nil_r (put16 _)), get16_put16. apply u16_small. lia. }
    destruct r as [|z r]; [done|]. rewrite length_app in *. rewrite !andb_true_iff, Z.ltb_lt, Z.leb_le. cbn [length] in *. split; [lia|].
    apply IH; [lia|rewrite length_drop, length_app; cbn [length]; lia|]. exists rs. split; [done|]. rewrite Nat2Z.id. by apply drop_app_length'.
Qed.

Lemma IsCompleteRecord_ok mb : Forall wf mb -> Z.of_nat (length (contents mb)) < 2 ^ 31 ->
  IsCompleteRecord mb = Ok (complete_loop (length (contents mb)) 5 0 (contents mb)).
Proof.
  intros Hmb Hl. unfold IsCompleteRecord. rewrite (MultiBuffer_Len_contents mb Hmb), i32_small by lia. destruct (Z.ltb_spec (Z.of_nat (length (contents mb))) 0); [lia|].
  rewrite (Copy_ok mb _ Hmb), Nat2Z.id, firstn_all. cbn [mbind outcome_bind]. by rewrite Z.eqb_refl.
Qed.

(** ** The filter *)

(** What [BytesRange] may reach of a buffer that begins like a hello is
    within its array. *)
Definition roomy (b : Buffer) : Prop := start b + 301 <= cap b.

Definition filter_inv (t : Filter) : Prop := (EnableXtls t = true -> IsTLS12orAbove t = true) /\ (0 < RemainingServerHello t -> IsTLS12orAbove t = true).

Lemma BytesRange_ok b lo hi : wf b -> 0 <= lo <= hi -> start b + hi <= cap b ->
  BytesRange b lo hi = Ok (take (Z.to_nat (hi - lo)) (drop (Z.to_nat (start b + lo)) (arr b))).
Proof.
  intros [? ? ?] Hlo Hhi. unfold BytesRange, from_end. destruct (Z.ltb_spec lo 0); [lia|]. destruct (Z.ltb_spec hi 0); [lia|].
  rewrite !i32_small by lia. rewrite slice_of_ok by lia. do 2 f_equal. lia.
Qed.

Lemma filter_start_ok t b : wf b -> roomy b -> filter_inv t -> exists t', filter_start t b = Ok t' /\ filter_inv t'.
Proof.
  intros Hb Hr [H1 H2]. unfold filter_start. destruct (Len b >=? 6) eqn:H6; [|by exists t]. rewrite (Len_content b Hb) in *.
  change 6 with (Z.of_nat 6). rewrite (BytesTo_content b 6 Hb) by lia. cbn [mbind outcome_bind]. case_decide; [|by case_decide; eexists; (split; [done|]); split].
  cbv zeta. set (remaining := Z.lor _ _ + 5). destruct (_ && _) eqn:H79; [|by eexists; (split; [done|]); split].
  apply andb_true_iff in H79 as [H79 _]. pose proof (lookup_lt_is_Some_2 (content b) 43) as [x Hx]; [lia|]. rewrite (Byte_content b 43 x Hb Hx : Byte b 43 = Ok x). cbn [mbind outcome_bind].
  pose proof (byte_to_Z_range x). unfold roomy in Hr. rewrite BytesRange_ok by (done || lia). cbn [mbind outcome_bind]. by eexists; (split; [done|]); split.
Qed.

Lemma filter_hello_ok t b : wf b -> filter_inv t -> exists t' found, filter_hello t b = Ok (t', found) /\ filter_inv t'.
Proof.
  intros Hb [H1 H2]. unfold filter_hello. rewrite Z.gtb_ltb. destruct (Z.ltb_spec 0 (RemainingServerHello t)) as [Hp|Hp]; [|by exists t, false].
  specialize (H2 Hp). rewrite (Len_content b Hb). set (e := if _ >? _ then _ else _). assert (0 <= e <= Z.of_nat (length (content b))) as He.
  { unfold e. destruct (Z.gtb_spec (RemainingServerHello t) (Z.of_nat (length (content b)))); lia. }
  cbv zeta. rewrite <-(Z2Nat.id e) by lia. rewrite (BytesTo_content b (Z.to_nat e) Hb) by lia. cbn [mbind outcome_bind].
  destruct (Contains _ _); [by eexists _, _; (split; [done|]); split|]. destruct (_ <=? 0); by eexists _, _; (split; [done|]); split.
Qed.

Lemma XtlsFilterTls_ok mb t : Forall (fun b => match b with Some b => wf b /\ roomy b | None => True end) mb -> filter_inv t ->
  exists t', XtlsFilterTls mb t = Ok t' /\ filter_inv t'.
Proof.
  intros Hmb. revert t. induction Hmb as [|b mb Hb Hmb IH]; intros t Ht; cbn [XtlsFilterTls]; [by exists t|]. destruct b as [b|]; [|by apply IH]. destruct Hb as [Hb Hr].
  destruct (filter_start_ok (with_count t (NumberOfPacketToFilter t - 1)) b Hb Hr Ht) as (t1 & -> & Ht1). cbn [mbind outcome_bind].
  destruct (filter_hello_ok t1 b Hb Ht1) as (t2 & found & -> & Ht2). cbn [mbind outcome_bind]. destruct found; [by exists t2|by apply IH].
Qed.
