(* ===== verification/VisionSession.v ===== *)
(** * One write of a Vision connection

    Where the arrays of what is read lie, the cutting of large buffers, and
    what a write makes of its buffers, as a stream a reader makes sense of. *)

From S2P Require Import Prelude Net Matchers Segment Buffer BufferFacts AddressCodecFacts Handshake Vision VisionFacts.

Local Open Scope Z_scope.

(** ** The array of what is read *)

Lemma Write_shape b d b' n : Write b d = Ok (b', n) -> start b' = start b /\ cap b' = cap b.
Proof.
  unfold Write, slice_of, slice. destruct (decide _) as [Hd|]; [|done]. cbn [mbind outcome_bind]. intros [= <- _]. split; [done|].
  unfold cap in *. change (arr (set_cursors ?x _ _)) with (arr x). unfold set_array, arr in *. cbn [v]. destruct (v b) as [a|] eqn:Hv; [|done]. cbn [default] in *.
  unfold id in *. rewrite length_splice; [done|]. rewrite length_take. lia.
Qed.

Lemma unpad_turn_shape s b nb s' b' nb' r : unpad_turn s b nb = Ok (s', b', nb', r) -> start nb' = start nb /\ cap nb' = cap nb.
Proof.
  unfold unpad_turn. destruct (_ >? 0); [by destruct (ReadByte b) as [[? ?]| |]; intros [= <- <- <- <-]|]. destruct (_ >? 0); [|by intros [= <- <- <- <-]].
  destruct (ReadBytes _ _) as [[? d]| |]; [|by intros [= <- <- <- <-]|done]. destruct (Write nb d) as [[nb2 n]| |] eqn:Hw; [|done|done]. intros [= <- <- <- <-]. by apply Write_shape in Hw.
Qed.

Lemma unpad_loop_shape fuel s b nb s' nb' : unpad_loop fuel s b nb = Ok (s', nb') -> start nb' = start nb /\ cap nb' = cap nb.
Proof.
  revert s b nb. induction fuel as [|fuel IH]; intros s b nb; cbn [unpad_loop]; (destruct (Len b >? 0); [|by intros [= <- <-]]); [done|].
  destruct (unpad_turn s b nb) as [[[[s1 b1] nb1] r]| |] eqn:Ht; [|done|done]. apply unpad_turn_shape in Ht as [<- <-]. cbn [mbind outcome_bind].
  destruct r; [by intros [= <- <-]|]. destruct (_ && _); [|apply IH]. destruct (_ =? 0); [apply IH|]. destruct (Len b1 >? 0); [|by intros [= <- <-]].
  destruct (Bytes b1) as [x| |]; [|done|done]. cbn [mbind outcome_bind]. destruct (Write nb1 x) as [[nb2 n]| |] eqn:Hw; [|done|done]. intros [= <- <-]. by apply Write_shape in Hw.
Qed.

Lemma roomy_New g : length g = Z.to_nat Size -> roomy (New g).
Proof. intros Hg. unfold roomy. rewrite (cap_New g Hg). unfold Size. cbn. lia. Qed.

Lemma XtlsUnpadding_roomy g uuid s b s' b' : length g = Z.to_nat Size -> XtlsUnpadding g uuid s b = Ok (s', b') -> roomy b -> roomy b'.
Proof.
  intros Hg Hx Hr. assert (forall fuel k x, unpad_loop fuel k x (New g) = Ok (s', b') -> roomy b') as Hloop.
  { intros fuel k x [H1 H2]%unpad_loop_shape. unfold roomy. rewrite H1, H2. by apply roomy_New. }
  unfold XtlsUnpadding in Hx. destruct (in_initial_state s); [|by eapply Hloop]. destruct (if Len b >=? 21 then _ else _) as [[|]| |]; [|by injection Hx as <- <-|done|done].
  by eapply Hloop.
Qed.

Lemma unpad_all_roomy g uuid s mb s' mb' : length g = Z.to_nat Size -> unpad_all g uuid s mb = Ok (s', mb') -> Forall roomy mb -> Forall roomy mb'.
Proof.
  intros Hg Hx Hmb. revert s s' mb' Hx. induction Hmb as [|b mb Hb Hmb IH]; intros s s' mb'; cbn [unpad_all]; [by intros [= <- <-]|].
  destruct (XtlsUnpadding g uuid s b) as [[k nb]| |] eqn:Hu; [|done|done]. cbn [mbind outcome_bind]. destruct (unpad_all g uuid k mb) as [[k2 mb2]| |] eqn:Ha; [|done|done].
  intros [= <- <-]. apply IH in Ha. destruct (Len nb >? 0); [|done]. constructor; [|done]. by eapply XtlsUnpadding_roomy.
Qed.

(** ** Cutting large buffers *)

Lemma BytesFrom_content b n : wf b -> (n <= length (content b))%nat -> BytesFrom b (Z.of_nat n) = Ok (drop n (content b)).
Proof.
  intros Hb Hn. pose proof (length_content b Hb). pose proof Hb as [? ? ?]. unfold BytesFrom, from_end. destruct (Z.ltb_spec (Z.of_nat n) 0); [lia|].
  rewrite i32_small, slice_of_ok by lia. unfold content. rewrite skipn_firstn_comm, drop_drop. do 2 f_equal; [lia|f_equal; lia].
Qed.

Lemma Resize_content b n : wf b -> (n <= length (content b))%nat ->
  exists b', Resize b 0 (Z.of_nat n) = Ok b' /\ wf b' /\ content b' = take n (content b) /\ start b' = start b /\ cap b' = cap b.
Proof.
  intros Hb Hn. pose proof (length_content b Hb) as Hl. pose proof Hb as [? ? ?]. unfold Resize, from_end. destruct (Z.ltb_spec 0 0); [lia|]. destruct (Z.ltb_spec (Z.of_nat n) 0); [lia|].
  destruct (Z.ltb_spec (Z.of_nat n) 0); [lia|]. rewrite Z.add_0_r, !i32_small by lia. eexists. split; [done|]. unfold cap in *. change (arr (set_cursors ?x _ _)) with (arr x).
  split; [split; unfold cap; change (arr (set_cursors ?x _ _)) with (arr x); cbn; lia|]. split; [|done]. unfold content. change (arr (set_cursors ?x _ _)) with (arr x).
  cbn [start end_ set_cursors]. rewrite take_take. f_equal. lia.
Qed.

Lemma cut_at_range c : Size - 21 <= Z.of_nat (length c) <= Size -> 21 <= cut_at c <= Size - 21 /\ cut_at c <= Z.of_nat (length c).
Proof.
  intros Hc. unfold cut_at. change Size with 16384 in *. change (16384 / 2) with 8192. destruct (LastIndex c TlsApplicationDataStart) as [j|] eqn:Hj; [|cbn; lia].
  apply LastIndex_Some in Hj as [Hj _]. rewrite i32_small by lia. destruct (Z.ltb_spec (Z.of_nat j) 21), (Z.gtb_spec (Z.of_nat j) (16384 - 21)); cbn [orb]; lia.
Qed.

Section Session.
Context (g : bytes) (Hg : length g = Z.to_nat Size) (uuid : bytes) (Huuid : length uuid = 16%nat).
Abbreviation K := (Z.to_nat Size).

(** What may be written and what may arrive: a buffer of the usual size, with
    room behind a hello. *)
Definition arrives (b : Buffer) : Prop := wf b /\ (length (content b) <= K)%nat /\ roomy b.
Definition piece (b : Buffer) : Prop := arrives b /\ Z.of_nat (length (content b)) <= Size - 21.

Lemma reshape_loop_ok mb : Forall arrives mb ->
  exists mb', reshape_loop g (Some <$> mb) = Ok (Some <$> mb') /\ Forall piece mb' /\ contents mb' = contents mb /\ (mb = [] <-> mb' = []).
Proof.
  induction 1 as [|b mb (Hb & Hl & Hr) Hmb (mb' & He & Hmb' & Hc & Hnil)]; [by exists []|]. cbn [fmap list_fmap reshape_loop] in *.
  rewrite (Len_content b Hb), He. assert (Z.of_nat K = Size) as HK by done. destruct (Z.geb_spec (Z.of_nat (length (content b))) (Size - 21)) as [Hbig|Hsmall]; cbn [mbind outcome_bind].
  2: { exists (b :: mb'). split; [reflexivity|]. split; [constructor; [split; [exact (conj Hb (conj Hl Hr))|lia]|assumption]|]. rewrite !contents_cons, Hc. split; [reflexivity|by split]. }
  rewrite (Bytes_content b Hb). cbn [mbind outcome_bind]. cbv zeta. destruct (cut_at_range (content b)) as [Hcut1 Hcut2]; [lia|].
  rewrite <-(Z2Nat.id (cut_at (content b))) by lia. remember (Z.to_nat (cut_at (content b))) as n eqn:Hn.
  rewrite (BytesFrom_content b n Hb) by lia. cbn [mbind outcome_bind]. destruct (wf_New g Hg) as [Hw0 Hc0].
  destruct (Write (New g) (drop n (content b))) as [[b2 k]| |] eqn:Hw. 2,3: by destruct (Write_ok (New g) (drop n (content b)) Hw0) as (? & Hw' & _); rewrite Hw' in Hw.
  pose proof (Write_shape _ _ _ _ Hw) as [Hs2 Hcap2]. destruct (Write_ok (New g) (drop n (content b)) Hw0) as (b2' & Hw' & Hb2 & Hc2 & _). rewrite Hw' in Hw. injection Hw as -> <-.
  rewrite Hc0, (room_New g Hg), take_ge in Hc2 by (rewrite length_drop; lia). cbn [app mbind outcome_bind] in *.
  destruct (Resize_content b n Hb) as (b1 & -> & Hb1 & Hc1 & Hs1 & Hcap1); [lia|]. cbn [mbind outcome_bind]. exists (b1 :: b2 :: mb'). split; [done|].
  assert (roomy b2) as Hr2 by (unfold roomy; rewrite Hs2, Hcap2; by apply roomy_New). assert (roomy b1) as Hr1 by (unfold roomy in *; by rewrite Hs1, Hcap1).
  split; [|rewrite !contents_cons, Hc, Hc1, Hc2, app_assoc, take_drop; split; [reflexivity|by split]].
  constructor; [split; [split; [done|]|]; rewrite Hc1; [split; [rewrite length_take; lia|done]|rewrite length_take; lia]|].
  constructor; [split; [split; [done|]|]; rewrite Hc2; [split; [rewrite length_drop; lia|done]|rewrite length_drop; lia]|done].
Qed.

Lemma ReshapeMultiBuffer_ok mb : Forall arrives mb ->
  exists mb', ReshapeMultiBuffer g (Some <$> mb) = Ok (Some <$> mb') /\ Forall piece mb' /\ contents mb' = contents mb /\ (mb = [] <-> mb' = []).
Proof.
  intros Hmb. unfold ReshapeMultiBuffer. destruct (existsb _ _) eqn:He; [by apply reshape_loop_ok|]. exists mb. split; [done|]. split; [|done].
  apply Forall_forall. intros b Hin. pose proof (proj1 (Forall_forall _ _) Hmb b Hin) as Hb. split; [done|].
  assert (existsb (fun b => opt_Len b >=? Size - 21) (Some <$> mb) = false -> (Len b >=? Size - 21) = false) as H.
  { intros Hx. destruct (Len b >=? Size - 21) eqn:Hlen; [|done]. rewrite <-Hx. apply eq_sym, existsb_exists. exists (Some b). split; [|done].
    apply list_elem_of_In. by apply list_elem_of_fmap_2. }
  apply H in He. rewrite (Len_content b) in He by apply Hb. lia.
Qed.

(** ** A write in the padded part *)

Lemma contents_concat mb : concat (content <$> mb) = contents mb.
Proof. unfold contents. induction mb as [|b mb IH]; [done|]. cbn [fmap list_fmap concat]. by rewrite IH. Qed.

(** Where a write leaves the reader. *)
Definition phase (padding direct : bool) : Block := if padding then between_blocks else idle_block (if direct then 2 else 1).

Definition padder_ok (t : Filter) (p : Padder) : Prop := if p_isPadding p then p_direct p = false else p_direct p = EnableXtls t.

Lemma application_ok t c b : wf b ->
  exists a, (if IsTLS t && (opt_Len (Some b) >=? 6) then x ← opt_BytesTo (Some b) 3; Ok (bool_decide (TlsApplicationDataStart = x) && c) else Ok false) = @Ok unit _ a.
Proof.
  intros Hb. cbn [opt_Len opt_BytesTo]. destruct (IsTLS t && _) eqn:H; [|by exists false]. apply andb_true_iff in H as [_ H]. rewrite (Len_content b Hb) in H.
  rewrite (BytesTo_content b 3 Hb ltac:(lia) : BytesTo b 3 = _). cbn [mbind outcome_bind]. by eexists.
Qed.

Lemma XtlsPadding_roomy draw b command userUUID long nb : XtlsPadding g draw b command userUUID long = Ok nb -> roomy nb.
Proof.
  unfold XtlsPadding. cbv zeta. intros Hx.
  assert (forall x y n, roomy x -> Write x y = Ok n -> roomy n.1) as Hw by (intros x y [n k] Hr [H1 H2]%Write_shape; unfold roomy in *; cbn [fst]; by rewrite H1, H2).
  destruct (match userUUID with Some u => Write (New g) u | None => Ok (New g, 0) end) as [[b1 n1]| |] eqn:H1; [|done|done]. cbn [mbind outcome_bind] in Hx.
  assert (roomy b1) as Hr1 by (destruct userUUID; [by apply Hw in H1; [|by apply roomy_New]|injection H1 as <- _; by apply roomy_New]).
  destruct (Write b1 _) as [[b2 n2]| |] eqn:H2; [|done|done]. cbn [mbind outcome_bind] in Hx. apply Hw in H2; [|done]. cbn [fst] in H2.
  destruct (match b with Some b => content ← Bytes b; '(n, _) ← Write b2 content; Ok n | None => Ok b2 end) as [b3| |] eqn:H3; [|done|done]. cbn [mbind outcome_bind] in Hx.
  assert (roomy b3) as Hr3.
  { destruct b as [b|]; [|by injection H3 as <-]. destruct (Bytes b) as [x| |]; [|done|done]. cbn [mbind outcome_bind] in H3. destruct (Write b2 x) as [[b4 n4]| |] eqn:H4; [|done|done].
    injection H3 as <-. by apply Hw in H4. }
  destruct (Extend b3 _) as [[b4 lh]| |] eqn:H4; [|done|done]. injection Hx as <-. unfold Extend in H4. case_decide; [done|]. destruct (slice_of _ _ _); [|done|done]. by injection H4 as <- _.
Qed.

(** What has become of [mb]: behind the id, if it was still to be written, a
    reader that stands at the head of a block reads it back. *)
Definition padded_as (u : option bytes) (mb : MultiBuffer) (p' : Padder) (out : MultiBuffer) : Prop :=
  Forall arrives out /\ p_uuid p' = None /\ (p_isPadding p' = true -> p_direct p' = false) /\
  exists body, contents out = head_of u ++ body /\ forall s, RemainingCommand s = 5 -> urun s body = (phase (p_isPadding p') (p_direct p'), contents mb).

(** One padded buffer, whatever its command. *)
Lemma padded_buffer draw b command u long : draws draw -> one_block b -> (u = None \/ u = Some uuid) ->
  exists nb body, XtlsPadding g draw b command u long = Ok nb /\ arrives nb /\ content nb = head_of u ++ body /\
    forall s, RemainingCommand s = 5 -> urun s body = (block_end command, opt_content b).
Proof.
  intros Hd Hb Hu. destruct (XtlsPadding_ok g Hg uuid Huuid draw b command u long Hd Hb Hu) as (nb & padding & Hx & Hw & Hl & Hf & Hc).
  eexists nb, _. split; [exact Hx|]. split; [split; [exact Hw|split; [exact Hl|by eapply XtlsPadding_roomy]]|]. split; [exact Hc|]. intros s Hs. by apply (urun_block s _ Hs Hf).
Qed.

Lemma pad_loop_ok rand t c i p mb : (forall i, draws (rand i)) -> (EnableXtls t = true -> IsTLS12orAbove t = true) -> Forall piece mb -> mb ≠ [] ->
  (p_uuid p = None \/ p_uuid p = Some uuid) -> padder_ok t p ->
  exists p' out, pad_loop g rand t c i p (Some <$> mb) = Ok (p', Some <$> out) /\ padded_as (p_uuid p) mb p' out.
Proof.
  intros Hrand Ht Hmb. revert i p. induction Hmb as [|b mb [(Hb & Hl & Hroom) Hp] Hmb IH]; intros i p Hne Hu Hpad; [done|]. clear Hne.
  assert (one_block (Some b)) as Hone by (split; [exact Hb|exact Hp]).
  (* the buffer, and the rest of the loop *)
  assert (forall command long p1, p_uuid p1 = None -> padder_ok t p1 -> (mb ≠ [] -> command = CommandPaddingContinue) ->
    (mb = [] -> block_end command = phase (p_isPadding p1) (p_direct p1)) ->
    exists p' out, (nb ← XtlsPadding g (rand i) (Some b) command (p_uuid p) long; '(p', mb2) ← pad_loop g rand t c (S i) p1 (Some <$> mb); Ok (p', Some nb :: mb2)) = Ok (p', Some <$> out) /\
      padded_as (p_uuid p) (b :: mb) p' out) as Hgo.
  { intros command long p1 Hu1 Hp1 Hcont Hend. destruct (padded_buffer (rand i) (Some b) command (p_uuid p) long (Hrand i) Hone Hu) as (nb & body & -> & Harr & Hcnb & Hun). cbn [mbind outcome_bind]. destruct mb as [|b2 mb].
    - cbn [fmap list_fmap pad_loop mbind outcome_bind]. exists p1, [nb]. split; [reflexivity|]. split; [by constructor|]. split; [exact Hu1|].
      split; [intros Hx; unfold padder_ok in Hp1; by rewrite Hx in Hp1|]. exists body. rewrite contents_one. split; [exact Hcnb|]. intros s Hs. by rewrite Hun, Hend, contents_one.
    - destruct (IH (S i) p1) as (p' & out & -> & Hout & Hu' & Hd' & body' & Hcout & Hall); [done|by left|exact Hp1|]. cbn [mbind outcome_bind].
      exists p', (nb :: out). split; [reflexivity|]. split; [by constructor|]. split; [exact Hu'|]. split; [exact Hd'|]. exists (body ++ body').
      rewrite contents_cons, Hcout, Hcnb, Hu1. split; [by rewrite <-app_assoc|]. intros s Hs. rewrite Hcont in Hun by done. rewrite urun_app, Hun by done. cbn [fst snd].
      change (block_end CommandPaddingContinue) with between_blocks. by rewrite Hall, (contents_cons b). }
  cbn [fmap list_fmap pad_loop]. destruct (application_ok t c b Hb) as [a ->]. cbn [mbind outcome_bind]. unfold padder_ok in Hpad.
  assert (bool_decide (Some <$> mb = []) = bool_decide (mb = [])) as -> by (by destruct mb).
  destruct a; [|destruct (negb (IsTLS12orAbove t) && (NumberOfPacketToFilter t <=? 1)) eqn:H12].
  - apply Hgo; [reflexivity| | |]; cbn [padder_ok p_isPadding p_direct].
    + unfold padder_ok. cbn. destruct (p_isPadding p), (EnableXtls t); done.
    + intros Hm. by rewrite bool_decide_false.
    + intros Hm. rewrite bool_decide_true by done. destruct (p_isPadding p), (EnableXtls t); cbn; try reflexivity; by rewrite ?Hpad.
  - apply andb_true_iff in H12 as [H12 _]. destruct (padded_buffer (rand i) (Some b) CommandPaddingEnd (p_uuid p) (p_long p) (Hrand i) Hone Hu) as (nb & body & -> & Harr & Hcnb & Hun). cbn [mbind outcome_bind].
    assert (p_direct p = false) as Hdir.
    { destruct (p_isPadding p); [exact Hpad|]. rewrite Hpad. destruct (EnableXtls t); [|done]. by rewrite Ht in H12. }
    eexists _, (nb :: mb). split; [reflexivity|]. split; [constructor; [exact Harr|]; eapply Forall_impl; [exact Hmb|]; by intros x [? _]|].
    split; [reflexivity|]. split; [done|]. exists (body ++ contents mb). rewrite !contents_cons, Hcnb, <-app_assoc. split; [reflexivity|]. intros s Hs.
    cbn [p_isPadding p_direct phase]. rewrite Hdir, urun_app, Hun by done. cbn [fst snd]. change (block_end CommandPaddingEnd) with (idle_block 1). by rewrite urun_initial.
  - apply Hgo; [reflexivity|exact Hpad| |]; cbn [p_isPadding p_direct].
    + intros Hm. by rewrite bool_decide_false.
    + intros Hm. rewrite bool_decide_true by done. destruct (p_isPadding p), (EnableXtls t); cbn; try reflexivity; by rewrite ?Hpad.
Qed.

(** ** A write *)

Lemma mapM_id_Some {A} (l : list A) : mapM id (Some <$> l) = Some l.
Proof. induction l as [|x l IH]; [done|]. cbn [fmap list_fmap mapM id mbind option_bind]. by rewrite IH. Qed.

Lemma omap_id_Some {A} (l : list A) : omap id (Some <$> l) = l.
Proof. induction l as [|x l IH]; [done|]. cbn. by rewrite IH. Qed.

(** What may be written: buffers, or the [nil] that asks for padding alone. *)
Definition written (mb : list (option Buffer)) : Prop :=
  mb = [None] \/ exists bufs, mb = Some <$> bufs /\ Forall arrives bufs /\ Z.of_nat (length (contents bufs)) < 2 ^ 31.

Lemma written_filter mb : written mb -> Forall (fun b => match b with Some b => wf b /\ roomy b | None => True end) mb.
Proof.
  intros [-> | (bufs & -> & Hb & _)]; [by repeat constructor|]. apply Forall_fmap. eapply Forall_impl; [exact Hb|]. cbn. intros b (H1 & _ & H2). exact (conj H1 H2).
Qed.

Lemma maybe_filter mb t : Forall (fun b => match b with Some b => wf b /\ roomy b | None => True end) mb -> filter_inv t ->
  exists t', (if NumberOfPacketToFilter t >? 0 then XtlsFilterTls mb t else Ok t) = Ok t' /\ filter_inv t'.
Proof. intros Hmb Ht. destruct (_ >? 0); [by apply XtlsFilterTls_ok|by exists t]. Qed.

(** The result of a write in the padded part: nothing, or buffers that read
    back as what was written, the id before them if it was still to come. *)
Lemma write_padded rand s w mb : (forall i, draws (rand i)) -> filter_inv (tls s) -> written mb -> IsPadding (half s (negb (vw_isUplink w))) = true ->
  WriterDirectCopy (half s (negb (vw_isUplink w))) = false -> vw_raw w = false -> (writeOnceUserUUID w = None \/ writeOnceUserUUID w = Some uuid) ->
  exists s' w' out, vision_WriteMultiBuffer g rand s w mb = Ok (s', w', Some <$> out) /\ vw_isUplink w' = vw_isUplink w /\ vw_raw w' = false /\
    let h := half s' (negb (vw_isUplink w)) in
    (mb = [] /\ out = [] /\ IsPadding h = true /\ WriterDirectCopy h = false /\ writeOnceUserUUID w' = writeOnceUserUUID w \/
     writeOnceUserUUID w' = None /\ (IsPadding h = true -> WriterDirectCopy h = false) /\
     exists body, contents out = head_of (writeOnceUserUUID w) ++ body /\
       forall k, RemainingCommand k = 5 -> urun k body = (phase (IsPadding h) (WriterDirectCopy h), contents (omap id mb))).
Proof.
  intros Hrand Ht Hmb Hpad Hdir Hraw Hu. unfold vision_WriteMultiBuffer. rewrite Hpad, Hdir, Hraw. cbn [orb].
  destruct (maybe_filter mb (tls s) (written_filter mb Hmb) Ht) as (t & -> & Ht'). cbn [mbind outcome_bind].
  assert (forall h, half (set_half (set_tls s t) (negb (vw_isUplink w)) h) (negb (vw_isUplink w)) = h) as Hhalf by (intros h; by destruct (vw_isUplink w)).
  destruct Hmb as [-> | (bufs & -> & Hbufs & Hlen)].
  - destruct (padded_buffer (rand 0%nat) None CommandPaddingContinue (writeOnceUserUUID w) true (Hrand 0%nat)) as (nb & body & Hx & Harr & Hcnb & Hun); [split; [done|cbn; unfold Size; lia]|exact Hu|].
    rewrite Hx. cbn [mbind outcome_bind]. eexists _, _, [nb]. split; [reflexivity|]. split; [reflexivity|]. split; [reflexivity|]. cbv zeta. rewrite Hhalf. right.
    split; [reflexivity|]. split; [done|]. exists body. rewrite contents_one. split; [exact Hcnb|]. exact Hun.
  - assert (match Some <$> bufs with [None] => nb ← XtlsPadding g (rand 0%nat) None CommandPaddingContinue (writeOnceUserUUID w) true;
        Ok (set_half (set_tls s t) (negb (vw_isUplink w)) (set_writer (half s (negb (vw_isUplink w))) true false), {| vw_isUplink := vw_isUplink w; writeOnceUserUUID := None; vw_raw := false |}, [Some nb])
      | _ => match mapM id (Some <$> bufs) with
             | None => Panic
             | Some buffers => isComplete ← IsCompleteRecord buffers; mb ← ReshapeMultiBuffer g (Some <$> bufs);
                 '(p, mb) ← pad_loop g rand t isComplete 0 {| p_isPadding := true; p_direct := false; p_uuid := writeOnceUserUUID w; p_long := IsTLS t |} mb;
                 Ok (set_half (set_tls s t) (negb (vw_isUplink w)) (set_writer (half s (negb (vw_isUplink w))) (p_isPadding p) (p_direct p)),
                     {| vw_isUplink := vw_isUplink w; writeOnceUserUUID := p_uuid p; vw_raw := false |}, mb)
             end
      end = (isComplete ← IsCompleteRecord bufs; mb ← ReshapeMultiBuffer g (Some <$> bufs);
                 '(p, mb) ← pad_loop g rand t isComplete 0 {| p_isPadding := true; p_direct := false; p_uuid := writeOnceUserUUID w; p_long := IsTLS t |} mb;
                 Ok (set_half (set_tls s t) (negb (vw_isUplink w)) (set_writer (half s (negb (vw_isUplink w))) (p_isPadding p) (p_direct p)),
                     {| vw_isUplink := vw_isUplink w; writeOnceUserUUID := p_uuid p; vw_raw := false |}, mb))) as ->.
    { rewrite mapM_id_Some. by destruct bufs as [|b [|b2 bufs]]. }
    assert (Forall wf bufs) as Hwf by (eapply Forall_impl; [exact Hbufs|]; by intros b [? _]).
    rewrite (IsCompleteRecord_ok bufs Hwf Hlen). cbn [mbind outcome_bind]. destruct (ReshapeMultiBuffer_ok bufs Hbufs) as (bufs' & -> & Hpieces & Hc & Hnil). cbn [mbind outcome_bind].
    destruct (decide (bufs' = [])) as [->|Hne].
    + rewrite (proj2 Hnil eq_refl). cbn [fmap list_fmap pad_loop mbind outcome_bind]. eexists _, _, []. split; [reflexivity|]. split; [reflexivity|]. split; [reflexivity|].
      cbv zeta. rewrite Hhalf. by left.
    + destruct (pad_loop_ok rand t (complete_loop (length (contents bufs)) 5 0 (contents bufs)) 0
        {| p_isPadding := true; p_direct := false; p_uuid := writeOnceUserUUID w; p_long := IsTLS t |} bufs' Hrand (proj1 Ht') Hpieces Hne Hu eq_refl) as (p' & out & -> & Hout & Hu' & Hd & body & Hcb & Hall).
      cbn [mbind outcome_bind]. eexists _, _, out. split; [reflexivity|]. split; [reflexivity|]. split; [reflexivity|]. cbv zeta. rewrite Hhalf. right.
      split; [exact Hu'|]. split; [exact Hd|]. exists body. split; [exact Hcb|]. intros k Hk. by rewrite Hall, Hc, omap_id_Some.
Qed.

(** After the padded part a write passes through. *)
Lemma write_plain rand s w mb : filter_inv (tls s) -> written mb -> IsPadding (half s (negb (vw_isUplink w))) = false ->
  exists s' w', vision_WriteMultiBuffer g rand s w mb = Ok (s', w', mb) /\ vw_isUplink w' = vw_isUplink w /\
    vw_raw w' = vw_raw w || WriterDirectCopy (half s (negb (vw_isUplink w))) /\
    IsPadding (half s' (negb (vw_isUplink w))) = false /\ WriterDirectCopy (half s' (negb (vw_isUplink w))) = false.
Proof.
  intros Ht Hmb Hpad. unfold vision_WriteMultiBuffer. rewrite Hpad. destruct (maybe_filter mb (tls s) (written_filter mb Hmb) Ht) as (t & -> & Ht'). cbn [mbind outcome_bind].
  eexists _, _. split; [reflexivity|]. split; [reflexivity|]. split; [reflexivity|]. by destruct (vw_isUplink w).
Qed.
End Session.
