(* ===== verification/VisionStream.v ===== *)
(** * A Vision connection from end to end

    All that one end writes, in one direction, and all that the other end
    reads, which comes in any pieces: the padded blocks, the plain bytes behind
    them and those on the raw connection. [reading P] is what a reader has made
    of the first bytes [P] of the padded stream; [receive] is the reads of one
    direction, [send] its writes. *)

From S2P Require Import Prelude Net Matchers Segment Buffer BufferFacts AddressCodecFacts Handshake Vision VisionFacts VisionSession.

Local Open Scope Z_scope.

(** ** States of the machine *)





Lemma urun_cases s l : busy s -> busy (urun s l).1 \/ exists c, (urun s l).1 = idle_block c /\ c ≠ 0.
Proof.
  revert s. induction l as [|x l IH]; intros s Hs; [by left|]. cbn [urun fst].
  assert (busy (ustep s x).1 \/ exists c, (ustep s x).1 = idle_block c /\ c ≠ 0) as [Hb|(c & -> & Hc)].
  { unfold ustep. rewrite busy_not_initial by done. destruct (_ >? 0); [|destruct (_ >? 0)]; apply settle_cases. }
  - by apply IH.
  - right. exists c. by rewrite urun_initial.
Qed.

(** What a reader has made of the first bytes of a padded stream; its id takes
    the first sixteen. *)
Definition reading (P : bytes) : Block * bytes := if decide (P = []) then (initial_block, []) else urun ready_block (drop 16 P).

Lemma reading_cons P : P ≠ [] -> reading P = urun ready_block (drop 16 P).
Proof. intros HP. unfold reading. by rewrite decide_False. Qed.

Lemma reading_app P Q : (16 <= length P)%nat -> reading (P ++ Q) = ((urun (reading P).1 Q).1, (reading P).2 ++ (urun (reading P).1 Q).2).
Proof.
  intros HP. rewrite !reading_cons by (destruct P; [cbn in HP; lia|done]). rewrite drop_app_le by lia. apply urun_app.
Qed.

Lemma reading_cases P : P ≠ [] -> busy (reading P).1 \/ exists c, (reading P).1 = idle_block c /\ c ≠ 0.
Proof. intros HP. rewrite reading_cons by done. apply urun_cases. left. cbn. lia. Qed.


Section Stream.
Context (g : bytes) (Hg : length g = Z.to_nat Size) (uuid : bytes) (Huuid : length uuid = 16%nat).
Abbreviation K := (Z.to_nat Size).

(** Nowhere is the user's id: a reader that looks for padding would take what
    follows it for a block. *)
Definition without_id (c : bytes) : Prop := forall i, take 16 (drop i c) ≠ uuid.

Lemma without_id_drop c n : without_id c -> without_id (drop n c).
Proof. intros Hc i. rewrite drop_drop. apply Hc. Qed.

Lemma without_id_app_l a b : without_id (a ++ b) -> without_id a.
Proof.
  intros Hc i Hi. apply (Hc i). rewrite <-Hi. pose proof (f_equal length Hi) as Hl. rewrite length_take, length_drop, Huuid in Hl. rewrite drop_app_le by lia.
  apply take_app_le. rewrite length_drop. lia.
Qed.


(** A padded stream: the id first, and not again behind the last block. *)
Definition quiet (T : bytes) : Prop := forall P Q, T = P ++ Q -> P ≠ [] -> in_initial_state (reading P).1 = true -> without_id Q.
Definition padded_stream (T : bytes) : Prop := take 16 T = uuid /\ quiet T.

(** The first buffer has the id and the head of a block. *)
Definition first_ok (cs : list bytes) : Prop := forall c, head cs = Some c -> (21 <= length c)%nat.

Lemma take_first P c Q : take 16 (P ++ c ++ Q) = uuid -> P = [] -> (21 <= length c)%nat -> take 16 c = uuid /\ c ≠ [].
Proof. intros HT -> Hc. cbn [app] in HT. rewrite take_app_le in HT by lia. split; [done|]. destruct c; [cbn in Hc; lia|done]. Qed.

(** The next buffer of the stream. *)
Lemma unpadded_next T P c Q : padded_stream T -> T = P ++ c ++ Q -> (P = [] \/ (16 <= length P)%nat) -> (P = [] -> (21 <= length c)%nat) ->
  ((unpadded uuid (reading P).1 c).1 = (reading (P ++ c)).1 /\ (reading P).2 ++ (unpadded uuid (reading P).1 c).2 = (reading (P ++ c)).2).
Proof.
  intros [Hid Hq] HT HP Hc. destruct (decide (P = [])) as [HP0|HP0].
  - specialize (Hc HP0). rewrite HT in Hid. destruct (take_first P c Q Hid HP0 Hc) as [Htake Hcne]. subst P. cbn [app].
    rewrite (reading_cons c) by done. unfold unpadded, reading. rewrite decide_True by done. cbn [fst snd app]. change (in_initial_state initial_block) with true. cbv iota.
    rewrite decide_True by done. done.
  - destruct HP as [?|HP]; [done|]. rewrite reading_app by done. cbn [fst snd]. destruct (reading_cases P HP0) as [Hb|(k & Hk & _)].
    + by rewrite unpadded_busy.
    + assert (in_initial_state (reading P).1 = true) as Hi by (by rewrite Hk). rewrite urun_initial by done. unfold unpadded. rewrite Hi, decide_False; [done|].
      intros [_ Ht]. apply (without_id_app_l c Q (Hq P (c ++ Q) HT HP0 Hi) 0%nat). by rewrite drop_0.
Qed.

(** The next buffers. *)
Lemma unpadded_all_next T cs : padded_stream T -> forall P Q, T = P ++ concat cs ++ Q -> (P = [] \/ (16 <= length P)%nat) -> (P = [] -> first_ok cs) ->
  (unpadded_all uuid (reading P).1 cs).1 = (reading (P ++ concat cs)).1 /\
  (reading P).2 ++ (unpadded_all uuid (reading P).1 cs).2 = (reading (P ++ concat cs)).2.
Proof.
  intros HT. induction cs as [|c cs IH]; intros P Q HTe HP Hf; [cbn [concat unpadded_all fst snd]; by rewrite !app_nil_r|].
  cbn [concat unpadded_all fst snd]. cbn [concat] in HTe. rewrite <-app_assoc in HTe. assert (P = [] -> (21 <= length c)%nat) as Hc by (intros HP0; by apply (Hf HP0)).
  destruct (unpadded_next T P c (concat cs ++ Q) HT HTe HP Hc) as [H1 H2].
  assert (P ++ c = [] \/ (16 <= length (P ++ c))%nat) as HPc.
  { rewrite length_app. destruct HP as [HP|HP]; [right; specialize (Hc HP)|right]; lia. }
  destruct (IH (P ++ c) Q) as [H3 H4]; [by rewrite HTe, <-app_assoc|done| |].
  { intros HPn. exfalso. apply app_nil in HPn as [HP0 Hc0]. specialize (Hc HP0). rewrite Hc0 in Hc. cbn in Hc. lia. }
  rewrite H1, (app_assoc _ _ (unpadded_all _ _ _).2), H2, H3, H4. by rewrite <-app_assoc.
Qed.

(** ** One read *)








Lemma half_set_tls s t b : half (set_tls s t) b = half s b.
Proof. by destruct b. Qed.






(** ** All reads of one direction *)









(** ** All writes of one direction *)








(** ** The stream between them *)



(** ** Padding removed over many reads *)

(** The calls of the function on what the reads return, as long as a reader
    makes them. *)
Fixpoint unpad_reads (k : Block) (reads : list MultiBuffer) : outcome unit (Block * MultiBuffer) :=
  match reads with
  | [] => Ok (k, [])
  | mb :: reads' =>
      '(k, out) ← unpad_all g uuid k mb;
      '(k, outs) ← unpad_reads k reads';
      Ok (k, out ++ outs)
  end.

Lemma unpadded_all_app cs1 cs2 k : unpadded_all uuid k (cs1 ++ cs2) =
  ((unpadded_all uuid (unpadded_all uuid k cs1).1 cs2).1, (unpadded_all uuid k cs1).2 ++ (unpadded_all uuid (unpadded_all uuid k cs1).1 cs2).2).
Proof. revert k. induction cs1 as [|c cs1 IH]; intros k; [by destruct (unpadded_all _ _ _)|]. cbn [app unpadded_all fst snd]. by rewrite IH, <-app_assoc. Qed.

Lemma unpadded_all_keeps cs k : in_initial_state k = true \/ busy k -> in_initial_state (unpadded_all uuid k cs).1 = true \/ busy (unpadded_all uuid k cs).1.
Proof. revert k. induction cs as [|c cs IH]; intros k Hk; [exact Hk|]. apply IH. by apply (unpadded_keeps g). Qed.

Lemma unpad_reads_ok reads : Forall (Forall (fun b => wf b /\ (length (content b) <= K)%nat)) reads -> forall k, in_initial_state k = true \/ busy k ->
  exists out, unpad_reads k reads = Ok ((unpadded_all uuid k (content <$> concat reads)).1, out) /\ Forall wf out /\ contents out = (unpadded_all uuid k (content <$> concat reads)).2.
Proof.
  induction 1 as [|mb reads Hmb Hreads IH]; intros k Hk; [by exists []|]. cbn [unpad_reads concat].
  destruct (unpad_all_ok g Hg uuid k mb Hmb Hk) as (o1 & -> & Hw1 & Hc1). cbn [mbind outcome_bind].
  destruct (IH _ (unpadded_all_keeps (content <$> mb) k Hk)) as (o2 & -> & Hw2 & Hc2). cbn [mbind outcome_bind]. exists (o1 ++ o2).
  rewrite fmap_app, unpadded_all_app. cbn [fst snd]. split; [reflexivity|]. split; [by apply Forall_app|]. by rewrite contents_app, Hc1, Hc2.
Qed.

(** The id, blocks that continue, the last block, and plain bytes. *)
Lemma blocks_stream ks k rest : Forall continues ks -> block_fits k -> pd_command k ≠ CommandPaddingContinue -> without_id rest ->
  padded_stream (uuid ++ (ks ≫= enc_block) ++ enc_block k ++ rest) /\
  reading (uuid ++ (ks ≫= enc_block) ++ enc_block k ++ rest) = (idle_block (byte_to_Z (pd_command k)), (ks ≫= pd_content) ++ pd_content k ++ rest).
Proof.
  intros Hks Hf Hc Hid. destruct (urun_stream ready_block ks k rest eq_refl Hks Hf Hc) as [Hu Hst]. rewrite (app_assoc (ks ≫= enc_block)) in Hu |- *.
  set (W := (ks ≫= enc_block) ++ enc_block k) in *. assert (uuid ++ W ++ rest ≠ []) as Hne by (destruct uuid; [cbn in Huuid; lia|done]).
  assert (reading (uuid ++ W ++ rest) = urun ready_block (W ++ rest)) as Hread by (rewrite reading_cons by exact Hne; rewrite drop_app_le by lia; by rewrite drop_ge by lia).
  split; [|by rewrite Hread]. split; [by rewrite take_app_le, take_ge by lia|]. intros P Q HT HP Hi.
  destruct (decide (16 <= length P)%nat) as [HP16|HP16]; [|rewrite reading_cons, drop_ge in Hi by (done || lia); done]. rewrite reading_cons in Hi by exact HP.
  assert (drop 16 P ++ Q = W ++ rest) as HPQ.
  { apply (f_equal (drop 16)) in HT. rewrite (drop_app_le P) in HT by lia. rewrite (drop_app_le uuid), drop_ge in HT by lia. done. }
  destruct (decide (length (drop 16 P) < length W)%nat) as [Hlt|Hge].
  - destruct (prefix_before _ _ _ _ HPQ Hlt) as (q & Hq & Hqne). specialize (Hst _ _ Hq Hqne). by rewrite busy_not_initial in Hi.
  - assert (Q = drop (length (drop 16 P) - length W) rest) as ->; [|by apply without_id_drop].
    apply (f_equal (drop (length (drop 16 P)))) in HPQ. rewrite drop_app_length in HPQ. rewrite HPQ, drop_app_ge by lia. done.
Qed.
End Stream.

(** ** Properties *)


(** C7: the function that removes padding removes it exactly, called on the
    buffers of a padded stream one after the other, over any number of reads:
    blocks cut anywhere, even inside of their heads, give the contents of the
    blocks and what follows the last block, in the same buffer or in later
    ones. The first buffer must hold the id and a block's head, as the code
    asks, and the id must not occur in what follows the last block. Whether
    the reader makes all of these calls is another matter: it stops when a
    read ends behind the command of the last block. *)
Theorem vision_unpadding_exact g uuid (reads : list MultiBuffer) ks k rest : length g = Z.to_nat Size -> length uuid = 16%nat ->
  Forall continues ks -> block_fits k -> pd_command k ≠ CommandPaddingContinue -> without_id uuid rest ->
  Forall (Forall (fun b => wf b /\ (length (content b) <= Z.to_nat Size)%nat)) reads ->
  contents (concat reads) = uuid ++ (ks ≫= enc_block) ++ enc_block k ++ rest ->
  first_ok (content <$> concat reads) ->
  exists out, unpad_reads g uuid initial_block reads = Ok (idle_block (byte_to_Z (pd_command k)), out) /\ Forall wf out /\
    contents out = (ks ≫= pd_content) ++ pd_content k ++ rest.
Proof.
  intros Hg Hu Hks Hf Hc Hid Hreads Hcs Hfirst. destruct (blocks_stream g Hg uuid Hu ks k rest Hks Hf Hc Hid) as [HT Hread].
  destruct (unpad_reads_ok g Hg uuid reads Hreads initial_block (or_introl eq_refl)) as (out & -> & Hw & Ho).
  destruct (unpadded_all_next g Hg uuid Hu _ (content <$> concat reads) HT [] []) as [H1 H2]; [by rewrite contents_concat, app_nil_r|by left|done|].
  change (reading []) with (initial_block, @nil byte) in H1, H2. cbn [fst snd app] in H1, H2. rewrite contents_concat, Hcs, Hread in H1, H2.
  exists out. rewrite H1, Ho, H2. by split.
Qed.
(** A list of buffers is taken for complete records exactly when its bytes
    are application-data records one after the other, each with its whole
    body, and none empty. *)
Theorem complete_records_recognised mb : Forall wf mb -> Z.of_nat (length (contents mb)) < 2 ^ 31 ->
  exists complete, IsCompleteRecord mb = Ok complete /\
    (complete = true <-> exists rs, Forall record_body rs /\ contents mb = rs ≫= enc_application).
Proof. intros Hmb Hl. eexists. split; [by apply IsCompleteRecord_ok|]. by apply complete_loop_iff. Qed.

(** A block's head that is split behind its command ends the padded part for
    the reader: what is left of the head and the padding are handed on as
    content. *)
Theorem vision_split_head_is_content g s up command b : length g = Z.to_nat Size ->
  command = CommandPaddingEnd -> block (half s up) = between_blocks -> WithinPaddingBuffers (half s up) = true -> ReaderDirectCopy (half s up) = false ->
  NumberOfPacketToFilter (tls s) <= 0 -> wf b -> content b ≠ [] ->
  exists s', vision_ReadMultiBuffer g s up [FromBytes [command]] [] [] = Ok (s', [], false) /\
    vision_ReadMultiBuffer g s' up [b] [] [] = Ok (s', [b], false).
Proof.
  intros Hg -> Hk Hin Hd Hn Hb Hne. destruct (wf_FromBytes [CommandPaddingEnd]) as [Hw Hc]; [cbn; lia|].
  exists (set_tls (set_half s up (set_reader (set_block (half s up) (head_byte between_blocks CommandPaddingEnd)) false false)) (tls s)).
  assert (NumberOfPacketToFilter (tls s) >? 0 = false) as Hf by lia. split.
  - unfold vision_ReadMultiBuffer. change (MultiBuffer_IsEmpty [FromBytes [CommandPaddingEnd]]) with false. rewrite Hd, Hin, Hf, Hk. cbn [orb].
    destruct (XtlsUnpadding_ok g Hg (UserUUID s) between_blocks (FromBytes [CommandPaddingEnd]) Hw) as (nb & Hx & Hnb & Hcn);
      [rewrite Hc; pose proof K_large; cbn [length]; lia|right; left; done|]. rewrite Hc in Hx, Hcn.
    cbn [unpad_all]. rewrite Hx. cbn [mbind outcome_bind]. rewrite (Len_content nb Hnb), Hcn. change (length (unpadded (UserUUID s) between_blocks [CommandPaddingEnd]).2) with 0%nat.
    cbn [mbind outcome_bind]. change (unpadded (UserUUID s) between_blocks [CommandPaddingEnd]).1 with (head_byte between_blocks CommandPaddingEnd).
    change (after_unpadding (set_block (half s up) (head_byte between_blocks CommandPaddingEnd)))
      with (set_reader (set_block (half s up) (head_byte between_blocks CommandPaddingEnd)) false (ReaderDirectCopy (half s up))).
    rewrite Hd. reflexivity.
  - unfold vision_ReadMultiBuffer. unfold MultiBuffer_IsEmpty. cbn [forallb]. rewrite (IsEmpty_content b Hb), bool_decide_false by exact Hne. cbn [andb].
    rewrite half_set_tls. replace (half (set_half s up _) up) with (set_reader (set_block (half s up) (head_byte between_blocks CommandPaddingEnd)) false false) by (by destruct up).
    cbn [ReaderDirectCopy WithinPaddingBuffers set_reader orb]. change (tls (set_tls ?x ?t)) with t. rewrite Hf. cbn [mbind outcome_bind ReaderDirectCopy set_reader]. by destruct up.
Qed.

(** The session's length of a hello is not compared with the buffer: a hello
    of 79 bytes that claims a session of 255 bytes makes the filter cut
    behind the end of an array that is no larger. *)
Lemma filter_cuts_behind_array :
  let hello := FromBytes ([x16; x03; x03; x00; x4a; x02] ++ replicate 37 x00 ++ [xff] ++ replicate 35 x00) in
  wf hello /\ filter_start (tls (NewTrafficState [])) hello = Panic.
Proof. split; [by split|vm_compute; reflexivity]. Qed.

(** *** Witnesses *)

Definition sample_id : bytes := bs "0123456789abcdef".



Lemma sample_short d : (length d < 16)%nat -> without_id sample_id d.
Proof. intros Hd i Hi. apply (f_equal length) in Hi. rewrite length_take, length_drop in Hi. change (length sample_id) with 16%nat in Hi. lia. Qed.


(** Two reads, the first of which ends in the head of the last block. *)
Lemma vision_unpadding_exact_witness :
  let k1 := {| pd_command := CommandPaddingContinue; pd_content := bs "ab"; pd_padding := [x00] |} in
  let k2 := {| pd_command := CommandPaddingEnd; pd_content := bs "c"; pd_padding := [] |} in
  let wire := sample_id ++ enc_block k1 ++ enc_block k2 ++ bs "plain" in
  exists out, unpad_reads zero_buffer sample_id initial_block [[FromBytes (take 26 wire)]; [FromBytes (drop 26 wire)]] = Ok (idle_block 1, out) /\ Forall wf out /\
    contents out = bs "abcplain".
Proof.
  intros k1 k2 wire. refine (vision_unpadding_exact zero_buffer sample_id [[FromBytes (take 26 wire)]; [FromBytes (drop 26 wire)]] [k1] k2 (bs "plain") zero_buffer_length eq_refl _ _ _ _ _ _ _).
  - constructor; [|constructor]. split; [split; reflexivity|reflexivity].
  - split; reflexivity.
  - discriminate.
  - apply sample_short. vm_compute. lia.
  - pose proof K_large. constructor; [constructor; [split; [by split|vm_compute (content _); cbn [length]; lia]|constructor]|]. constructor; [|constructor].
    constructor; [split; [by split|vm_compute (content _); cbn [length]; lia]|constructor].
  - reflexivity.
  - intros b0 Hb0. injection Hb0 as <-. vm_compute (content _). cbn [length]. lia.
Defined.
Lemma complete_records_recognised_witness : exists complete, IsCompleteRecord [FromBytes (enc_application (bs "x"))] = Ok complete /\
  (complete = true <-> exists rs, Forall record_body rs /\ contents [FromBytes (enc_application (bs "x"))] = rs ≫= enc_application).
Proof. apply (complete_records_recognised [FromBytes (enc_application (bs "x"))]); [constructor; [by split|constructor]|reflexivity]. Defined.
