(* ===== verification/Vless.v ===== *)
(** * VLESS, [proxy/vless/]

    Accounts, the headers of requests and responses with their addons, the
    packets of a UDP request, the server's way from the first bytes to a
    request or a fallback, and the request a client makes for a target. The
    padded flow is in [Vision]. *)

From S2P Require Import Prelude Net Segment Buffer AddressCodec Handshake Users.

Local Open Scope Z_scope.

(** src/proxy/vless/vless.go:10-12 XRV *)
Definition XRV : bytes := bs "xtls-rprx-vision".

(** ** Accounts *)

(** The key derived from the id is VMess's.
    src/proxy/vless/account.go MemoryAccount *)
Record MemoryAccount := { ID : bytes; Flow_ : bytes; Encryption : bytes }.

(** [hash] is SHA-1. A text that is no UUID is hashed behind the bytes that
    were read of it.
    src/proxy/vless/account.go Account.AsAccount *)
Definition AsAccount (hash : bytes -> bytes) (id flow encryption : bytes) : outcome unit MemoryAccount :=
  let account u := Ok {| ID := u; Flow_ := flow; Encryption := encryption |} in
  match ParseString id with
  | Ok u => account u
  | Panic => Panic
  | Err part =>
      let u := take 16 (hash (part ++ id)) in
      let u := <[6%nat := byte_of_Z (Z.lor (Z.land (byte_to_Z (u !!! 6%nat)) 0x0f) (Z.shiftl 5 4))]> u in
      let u := <[8%nat := byte_of_Z (Z.lor (Z.land (byte_to_Z (u !!! 8%nat)) (Z.shiftr 0xff 2)) (Z.shiftl 0x02 6))]> u in
      account u
  end.

(** src/proxy/vless/account.go MemoryAccount.Equals *)
Definition vless_account_Equals (a b : MemoryAccount) : bool := bool_decide (ID a = ID b).

(** Two bytes of an id do not count.
    src/proxy/vless/validator.go ProcessUUID *)
Definition ProcessUUID (id : bytes) : bytes := <[7%nat := x00]> (<[6%nat := x00]> id).

(** The users are kept as [Users.Validator] does, by this key.
    src/proxy/vless/validator.go:32-32 Validator.Add *)
Definition vless_key (a : MemoryAccount) : bytes := ProcessUUID (ID a).

(** src/proxy/vless/validator.go Validator.Get *)
Definition vless_Get (v : Validator MemoryAccount) (id : bytes) : option (MemoryUser MemoryAccount) := Get v (ProcessUUID id).

(** ** Headers *)

(** src/proxy/vless/encoding/encoding.go:16-18 Version *)
Definition Version : byte := x00.

(** src/proxy/vless/encoding/encoding.go:20-25 addrParser *)
Definition vlessParser : AddressSerializer :=
  NewAddressParser (omap (fun o => match o with Ok f => Some f | _ => None end)
    [AddressFamilyByte x01 AddressFamilyIPv4; AddressFamilyByte x02 AddressFamilyDomain; AddressFamilyByte x03 AddressFamilyIPv6] ++ [PortThenAddress]).

(** The message of [addons.proto].
    src/proxy/vless/encoding/addons.pb.go:18-22 Addons *)
Record Addons := { Flow : bytes; Seed : bytes }.

(** Package [proto], which is not part of the repository: writing a message
    and reading it. *)
Class AddonsCodec := { Marshal : Addons -> option bytes; Unmarshal : bytes -> option Addons }.

(** What the headers need of it: a message is read as it was written, and one
    with the flow alone is short and not empty. *)
Class AddonsLaws `{AddonsCodec} := {
  unmarshal_marshal a d : Marshal a = Some d -> Unmarshal d = Some a;
  marshal_flow : exists d, Marshal {| Flow := XRV; Seed := [] |} = Some d /\ (0 < length d < 256)%nat
}.

Inductive vless_error :=
  | errMarshal | errUnmarshal | errUserID | errRequestVersion | errRequestAddress | errResponseVersion (expected got : byte)
  | errFallbackDirectly.

Definition VlessHeader := RequestHeader MemoryAccount.

Section Vless.
Context `{AddonsCodec} {W : Type} (write : W -> bytes -> W * bool) (garbage : bytes).
Abbreviation M := (io vless_error W).

(** src/proxy/vless/encoding/addons.go EncodeHeaderAddons *)
Definition EncodeHeaderAddons (buffer : Buffer) (addons : Addons) : M Buffer :=
  if decide (Flow addons = XRV) then
    match Marshal addons with
    | None => refuse errMarshal
    | Some data =>
        buffer ← checked (WriteByte buffer (byte_of_Z (Z.of_nat (length data))));
        '(buffer, _) ← checked (Write buffer data);
        mret buffer
    end
  else checked (WriteByte buffer x00).

(** The buffer is the caller's.
    src/proxy/vless/encoding/addons.go DecodeHeaderAddons *)
Definition DecodeHeaderAddons (buffer : Buffer) : M (Buffer * Addons) :=
  buffer ← read_into (Clear buffer) 1;
  length ← pure (Byte buffer 0);
  if decide (length = x00) then mret (buffer, {| Flow := []; Seed := [] |})
  else
    buffer ← read_into (Clear buffer) (byte_to_Z length);
    data ← pure (Bytes buffer);
    match Unmarshal data with
    | None => refuse errUnmarshal
    | Some addons => mret (buffer, addons)
    end.

(** [Panic] is a request without a user or an account.
    src/proxy/vless/encoding/encoding.go:34-34 EncodeRequestHeader *)
Definition request_id (request : VlessHeader) : outcome unit bytes :=
  match h_User request with
  | Some u => match Account u with Some a => Ok (ID a) | None => Panic end
  | None => Panic
  end.

(** src/proxy/vless/encoding/encoding.go EncodeRequestHeader *)
Definition EncodeRequestHeader (request : VlessHeader) (requestAddons : Addons) : M unit :=
  buffer ← checked (WriteByte (StackNew garbage) (h_Version request));
  id ← pure (request_id request);
  '(buffer, _) ← checked (Write buffer id);
  buffer ← EncodeHeaderAddons buffer requestAddons;
  buffer ← checked (WriteByte buffer (h_Command request));
  buffer ← (if decide (h_Command request ≠ RequestCommandMux) then put_address_port vlessParser buffer (h_Address request) (h_Port request) else mret buffer);
  data ← pure (Bytes buffer);
  send write data.

(** What a header is decoded to; a refusal says whether the connection may
    still be handed to a fallback. *)
Inductive decoded :=
  | accepted (id : bytes) (request : VlessHeader) (addons : Addons)
  | rejected (isfb : bool) (e : vless_error).

(** [first.Advance(17)]: the reader reads from that buffer. *)
Definition advance_first : M unit := fun s => (Ok tt, {| incoming := drop 17 (incoming s); writer := writer s |}).

(** The address; the error of its parser is dropped.
    src/proxy/vless/encoding/encoding.go:109-118 DecodeRequestHeader *)
Definition request_target (buffer : Buffer) (command : byte) : M (option Address * Z) :=
  if decide (command = RequestCommandMux) then mret (Some (domainAddress (bs "v1.mux.cool")), 0)
  else if decide (command = RequestCommandTCP \/ command = RequestCommandUDP) then
    (fun s => match read_address_port (E := vless_error) garbage vlessParser (Some buffer) s with
             | (Ok r, s') => (Ok r, s')
             | (Err _, s') => (Ok (None, 0), s')
             | (Panic, s') => (Panic, s')
             end)
  else mret (None, 0).

(** What follows the id.
    src/proxy/vless/encoding/encoding.go:98-122 DecodeRequestHeader *)
Definition decode_rest (version : byte) (id : bytes) (user : MemoryUser MemoryAccount) (buffer : Buffer) : M decoded :=
  '(buffer, requestAddons) ← DecodeHeaderAddons buffer;
  buffer ← read_into (Clear buffer) 1;
  command ← pure (Byte buffer 0);
  '(address, port) ← request_target buffer command;
  match address with
  | None => mret (rejected false errRequestAddress)
  | Some _ => mret (accepted id {| h_Version := version; h_Command := command; h_Port := port; h_Address := address; h_User := Some user |} requestAddons)
  end.

(** Errors of reading are returned without a fallback.
    src/proxy/vless/encoding/encoding.go DecodeRequestHeader *)
Definition DecodeRequestHeader (isfb : bool) (first : Buffer) (validator : Validator MemoryAccount) : M decoded :=
  let buffer := StackNew garbage in
  '(buffer, version) ← (if isfb then v ← pure (Byte first 0); mret (buffer, v)
                        else buffer ← read_into buffer 1; v ← pure (Byte buffer 0); mret (buffer, v));
  if decide (version = x00) then
    '(buffer, id) ← (if isfb then id ← pure (BytesRange first 1 17); mret (buffer, id)
                     else buffer ← read_into (Clear buffer) 16; id ← pure (Bytes buffer); mret (buffer, id));
    match vless_Get validator id with
    | None => mret (rejected isfb errUserID)
    | Some user =>
        _ ← (if isfb then advance_first else mret tt);
        decode_rest version id user buffer
    end
  else mret (rejected isfb errRequestVersion).

(** src/proxy/vless/encoding/encoding.go EncodeResponseHeader *)
Definition EncodeResponseHeader (request : VlessHeader) (responseAddons : Addons) : M unit :=
  buffer ← checked (WriteByte (StackNew garbage) (h_Version request));
  buffer ← EncodeHeaderAddons buffer responseAddons;
  data ← pure (Bytes buffer);
  send write data.

(** src/proxy/vless/encoding/encoding.go DecodeResponseHeader *)
Definition DecodeResponseHeader (request : VlessHeader) : M Addons :=
  buffer ← read_into (StackNew garbage) 1;
  version ← pure (Byte buffer 0);
  if decide (version ≠ h_Version request) then refuse (errResponseVersion (h_Version request) version)
  else '(_, responseAddons) ← DecodeHeaderAddons buffer; mret responseAddons.

(** ** The server *)

(** What becomes of a connection. *)
Inductive vless_served :=
  | served_request (id : bytes) (request : VlessHeader) (addons : Addons)
  | given_to_fallback (e : vless_error).

(** [chunk] bytes come with the first read, whose error is not looked at;
    what was read is read again by the header's reader. [isfb] is whether
    there are fallbacks. The decryption before and the deadline are left out.
    src/proxy/vless/inbound/inbound.go:258-281 Handler.Process *)
Definition vless_Process (array : bytes) (isfb : bool) (chunk : nat) (validator : Validator MemoryAccount) : M vless_served := fun s =>
  match ReadFrom (Clear (FromBytes array)) (fun n => (take (Nat.min n chunk) (incoming s), bool_decide (incoming s = []))) with
  | Panic => (Panic, s)
  | Err _ => (Panic, s)
  | Ok (first, firstLen, _) =>
      if isfb && (firstLen <? 18) then (Ok (given_to_fallback errFallbackDirectly), s)
      else
        match DecodeRequestHeader isfb first validator s with
        | (Ok (accepted id request addons), s') => (Ok (served_request id request addons), s')
        | (Ok (rejected fb e), s') => if fb : bool then (Ok (given_to_fallback e), s') else (Err (ErrRefused e), s')
        | (Err e, s') => (Err e, s')
        | (Panic, s') => (Panic, s')
        end
  end.

(** ** Packets *)

(** One packet: its length and its bytes in a buffer of their own; an empty
    one, and one without room, is left out.
    src/proxy/vless/encoding/addons.go:97-116 MultiLengthPacketWriter.WriteMultiBuffer *)
Fixpoint multi_length (mb : MultiBuffer) : outcome unit MultiBuffer :=
  match mb with
  | [] => Ok []
  | b :: mb' =>
      let length := Len b in
      if (length =? 0) || (length + 2 >? Size) then multi_length mb'
      else
        match (eb ← WriteByte (New garbage) (byte_of_Z (Z.shiftr length 8));
               eb ← WriteByte eb (byte_of_Z length);
               content ← Bytes b;
               '(eb, _) ← Write eb content;
               Ok eb) with
        | Ok eb => rest ← multi_length mb'; Ok (eb :: rest)
        | Err _ => multi_length mb'
        | Panic => Panic
        end
  end.

(** [None]: nothing is written. The limit of the list's length is left out,
    which no list reaches.
    src/proxy/vless/encoding/addons.go MultiLengthPacketWriter.WriteMultiBuffer *)
Definition MultiLength_WriteMultiBuffer (mb : MultiBuffer) : outcome unit (option MultiBuffer) :=
  mb2Write ← multi_length mb;
  Ok (if MultiBuffer_IsEmpty mb2Write then None else Some mb2Write).

(** The whole list as one packet; its length is cut to 16 bits.
    src/proxy/vless/encoding/addons.go LengthPacketWriter.WriteMultiBuffer *)
Definition Length_WriteMultiBuffer (mb : MultiBuffer) : M unit :=
  let length := MultiBuffer_Len mb in
  if length =? 0 then mret tt
  else
    data ← pure (foldr (fun b (acc : outcome unit bytes) => x ← Bytes b; y ← acc; Ok (x ++ y)) (Ok []) mb);
    send write ([byte_of_Z (Z.shiftr length 8); byte_of_Z length] ++ data).

(** Every turn reads a byte at least, so the length is enough fuel.
    src/proxy/vless/encoding/addons.go:166-179 LengthPacketReader.ReadMultiBuffer *)
Fixpoint read_packet (fuel : nat) (length : Z) : M MultiBuffer :=
  if length >? 0 then
    match fuel with
    | O => pure Panic
    | S fuel' =>
        let size := if length >? Size then Size else length in
        b ← read_into (New garbage) size;
        mb ← read_packet fuel' (length - size);
        mret (b :: mb)
    end
  else mret [].

(** src/proxy/vless/encoding/addons.go LengthPacketReader.ReadMultiBuffer *)
Definition Length_ReadMultiBuffer : M MultiBuffer :=
  cache ← read_bytes 2;
  let length := Z.lor (Z.shiftl (byte_to_Z (cache !!! 0%nat)) 8) (byte_to_Z (cache !!! 1%nat)) in
  read_packet (Z.to_nat length) length.
End Vless.

(** The readers and writers of a body.
    src/proxy/vless/encoding/addons.go EncodeBodyAddons *)
Inductive body_writer := multi_length_writer | vision_writer | plain_writer.
Definition EncodeBodyAddons (request : VlessHeader) (addons : Addons) : body_writer :=
  if decide (h_Command request = RequestCommandUDP) then multi_length_writer
  else if decide (Flow addons = XRV) then vision_writer else plain_writer.

(** src/proxy/vless/encoding/addons.go DecodeBodyAddons *)
Inductive body_reader := length_reader | plain_reader.
Definition DecodeBodyAddons (request : VlessHeader) : body_reader :=
  if decide (h_Command request = RequestCommandUDP) then length_reader else plain_reader.

(** *** What the server allows *)

Inductive flow_error := errFlowUDP | errFlowNotAllowed.

(** Whether the request may use its flow; whether it is padded. The checks of
    the outer connection are left out.
    src/proxy/vless/inbound/inbound.go:447-497 Handler.Process *)
Definition check_flow (request : VlessHeader) (addons : Addons) : outcome flow_error bool :=
  if decide (Flow addons = XRV) then
    match h_User request with
    | Some u =>
        match Account u with
        | Some account =>
            if decide (Flow_ account = Flow addons) then if decide (h_Command request = RequestCommandUDP) then Err errFlowUDP else Ok true
            else Err errFlowNotAllowed
        | None => Panic
        end
    | None => Panic
    end
  else Ok false.

(** *** What the client asks for *)

(** src/common/net/packetaddr/config.pb.go:18-24 PacketAddrType *)
Inductive PacketAddrType := PacketAddrType_None | PacketAddrType_Packet | PacketAddrType_XUDP.

#[export] Instance PacketAddrType_eq_dec : EqDecision PacketAddrType.
Proof. solve_decision. Defined.

(** src/common/net/packetaddr/special_address.go:3-3 SeqPacketMagicAddress *)
Definition SeqPacketMagicAddress : bytes := bs "sp.packet-addr.v2fly.arpa".

Definition is_domain (a : option Address) : bool := match a with Some (domainAddress _) => true | _ => false end.

(** The command for a target, whose address is not nil.
    src/proxy/vless/outbound/outbound.go:201-207 Handler.Process *)
Definition target_command (target : Destination) : byte :=
  let command := if decide (dest_Network target = Network_UDP) then RequestCommandUDP else RequestCommandTCP in
  if decide (dest_Address target = Some (domainAddress (bs "v1.mux.cool"))) then RequestCommandMux else command.

Inductive outbound_error := errUDP443.

(** The flow that is sent. The checks of the outer connection, which follow
    for the padded flow, are left out.
    src/proxy/vless/outbound/outbound.go:225-240 Handler.Process *)
Definition request_flow (flow : bytes) (command : byte) (port : Z) : outcome outbound_error bytes :=
  let '(flow, allowUDP443) := if decide (flow = XRV ++ bs "-udp443") then (take 16 flow, true) else (flow, false) in
  if bool_decide (flow = XRV) && bool_decide (command = RequestCommandUDP) && negb allowUDP443 && (port =? 443) then Err errUDP443
  else Ok flow.

(** How packets are written, and the request for that.
    src/proxy/vless/outbound/outbound.go:285-298 Handler.Process *)
Definition packet_request (packetEncoding : PacketAddrType) (flow : bytes) (request : VlessHeader) : VlessHeader * PacketAddrType :=
  let with_ command address := {| h_Version := h_Version request; h_Command := command; h_Port := 0; h_Address := address; h_User := h_User request |} in
  if bool_decide (h_Command request = RequestCommandUDP) && (h_Port request >? 0) then
    if bool_decide (flow = XRV) || (bool_decide (packetEncoding = PacketAddrType_XUDP) && negb (h_Port request =? 53) && negb (h_Port request =? 443)) then
      (with_ RequestCommandMux (Some (domainAddress (bs "v1.mux.cool"))), packetEncoding)
    else if bool_decide (packetEncoding = PacketAddrType_Packet) && negb (is_domain (h_Address request)) then
      (with_ (h_Command request) (Some (domainAddress SeqPacketMagicAddress)), packetEncoding)
    else (request, PacketAddrType_None)
  else (request, PacketAddrType_None).

(** The request, its addons and how packets are written.
    src/proxy/vless/outbound/outbound.go:209-221 Handler.Process *)
Definition outbound_request (packetEncoding : PacketAddrType) (user : MemoryUser MemoryAccount) (account : MemoryAccount) (target : Destination)
    : outcome outbound_error (VlessHeader * Addons * PacketAddrType) :=
  let command := target_command target in
  let request := {| h_Version := Version; h_Command := command; h_Port := dest_Port target; h_Address := dest_Address target; h_User := Some user |} in
  flow ← request_flow (Flow_ account) command (dest_Port target);
  let '(request, encoding) := packet_request packetEncoding flow request in
  Ok (request, {| Flow := flow; Seed := [] |}, encoding).
