(* ===== verification/VlessFacts.v ===== *)
(** * Facts about VLESS

    A request's header is read as it was written, with or without fallbacks;
    a fallback gets every byte, and only a user is served; packets are read
    as they were written, but for those that have no room. *)

From S2P Require Import Prelude Net Segment Buffer BufferFacts AddressCodec AddressCodecFacts Handshake Users Vless.

Local Open Scope Z_scope.

Lemma vless_parser_knows f : family_ok (parser_of vlessParser) f.
Proof.
  destruct f; [exists x01|exists x03|exists x02]; (split; [reflexivity|]; split; [discriminate|]; split; [vm_compute; reflexivity|reflexivity]).
Qed.

Section Headers.
Context {HC : AddonsCodec} {HL : AddonsLaws} (g : bytes) (Hg : length g = Z.to_nat Size).
Abbreviation K := (Z.to_nat Size).

#[local] Hint Resolve K_small : core.
Ltac fits := pose proof K_large; rewrite ?length_app; cbn [length]; lia.

(** [a] is written as [d] and read as [a']: only the padded flow has addons. *)
Definition sends (a : Addons) (d : bytes) (a' : Addons) : Prop :=
  (exists m, Flow a = XRV /\ Marshal a = Some m /\ (0 < length m < 256)%nat /\ d = byte_of_Z (Z.of_nat (length m)) :: m /\ a' = a) \/
  (Flow a ≠ XRV /\ d = [x00] /\ a' = {| Flow := []; Seed := [] |}).

Lemma sends_length a d a' : sends a d a' -> (1 <= length d <= 256)%nat.
Proof using Type. clear Hg. intros [(m & _ & _ & Hl & -> & _)|(_ & -> & _)]; cbn; lia. Qed.

Lemma flow_sends f : exists d, sends {| Flow := f; Seed := [] |} d (if decide (f = XRV) then {| Flow := XRV; Seed := [] |} else {| Flow := []; Seed := [] |}).
Proof.
  destruct (decide (f = XRV)) as [->|Hf]; [|exists [x00]; by right]. destruct marshal_flow as (m & Hm & Hl). exists (byte_of_Z (Z.of_nat (length m)) :: m). left. by exists m.
Qed.

Lemma bind_encode_addons {W B} b s a d a' : held K b s -> (length s + length d <= K)%nat -> sends a d a' ->
  exists b', held K b' (s ++ d) /\ forall st (f : Buffer -> io vless_error W B), (EncodeHeaderAddons b a ≫= f) st = f b' st.
Proof.
  intros Hb Hl Hs. unfold EncodeHeaderAddons. destruct Hs as [(m & Hf & Hm & Hlm & -> & _)|(Hf & -> & _)].
  - rewrite decide_True by done. rewrite Hm. cbn [length] in Hl. destruct (held_WriteByte K b s (byte_of_Z (Z.of_nat (length m))) Hb) as (b1 & Hw1 & H1); [lia|].
    destruct (held_Write K b1 _ m H1) as (b2 & Hw2 & H2); [rewrite length_app; cbn [length]; lia|]. exists b2. rewrite <-app_assoc in H2. split; [exact H2|].
    intros st f. apply io_bind_Ok. rewrite (io_bind_checked _ _ _ _ Hw1), (io_bind_checked _ _ _ _ Hw2). done.
  - rewrite decide_False by done. cbn [length] in Hl. destruct (held_WriteByte K b s x00 Hb) as (b1 & Hw1 & H1); [lia|]. exists b1. split; [exact H1|].
    intros st f. by apply io_bind_checked.
Qed.

Lemma bind_decode_addons {W B} b s a d a' rest (w : W) : held K b s -> sends a d a' ->
  exists b' s', held K b' s' /\ forall f : Buffer * Addons -> io vless_error W B,
    (DecodeHeaderAddons b ≫= f) {| incoming := d ++ rest; writer := w |} = f (b', a') {| incoming := rest; writer := w |}.
Proof.
  intros Hb Hs. pose proof K_large as HK. pose proof (held_Clear K b s Hb) as H0. unfold DecodeHeaderAddons. destruct Hs as [(m & Hf & Hm & Hlm & -> & ->)|(Hf & -> & ->)].
  - destruct (read_into_ok (E := vless_error) K (Clear b) [] [byte_of_Z (Z.of_nat (length m))] (m ++ rest) w 1 H0) as (b1 & Hr1 & H1); [done|lia|cbn; lia|].
    destruct (read_into_ok (E := vless_error) K (Clear b1) [] m rest w (Z.of_nat (length m)) (held_Clear K b1 _ H1)) as (b2 & Hr2 & H2); [by rewrite Nat2Z.id|lia|cbn; lia|].
    exists b2, ([] ++ m). split; [exact H2|]. intros f. apply io_bind_Ok. change ((byte_of_Z (Z.of_nat (length m)) :: m) ++ rest) with ([byte_of_Z (Z.of_nat (length m))] ++ m ++ rest).
    rewrite (io_bind_Ok _ _ _ _ _ Hr1). cbn [app]. rewrite (io_bind_pure _ _ _ _ (held_Byte K b1 _ 0 _ H1 ltac:(lia) eq_refl)).
    assert (byte_to_Z (byte_of_Z (Z.of_nat (length m))) = Z.of_nat (length m)) as Hbl by (rewrite byte_to_of_Z; unfold u8; apply Z.mod_small; lia).
    rewrite decide_False. 2: { intros Hx. rewrite Hx in Hbl. change (byte_to_Z x00) with 0 in Hbl. lia. }
    rewrite Hbl, (io_bind_Ok _ _ _ _ _ Hr2), (io_bind_pure _ _ _ _ (held_Bytes K b2 _ H2)). cbn [app]. by rewrite (unmarshal_marshal _ _ Hm).
  - destruct (read_into_ok (E := vless_error) K (Clear b) [] [x00] rest w 1 H0) as (b1 & Hr1 & H1); [done|lia|cbn; lia|].
    exists b1, ([] ++ [x00]). split; [exact H1|]. intros f. apply io_bind_Ok. rewrite (io_bind_Ok _ _ _ _ _ Hr1). cbn [app]. by rewrite (io_bind_pure _ _ _ _ (held_Byte K b1 _ 0 _ H1 ltac:(lia) eq_refl)).
Qed.

(** ** A request *)

(** A request with an account, and where it goes. *)
Definition asks_for (r : VlessHeader) (acc : MemoryAccount) (a : Address) (port : Z) : Prop :=
  h_Version r = x00 /\ (exists u, h_User r = Some u /\ Account u = Some acc) /\ length (ID acc) = 16%nat /\
  if decide (h_Command r = RequestCommandMux) then a = domainAddress (bs "v1.mux.cool") /\ port = 0
  else (h_Command r = RequestCommandTCP \/ h_Command r = RequestCommandUDP) /\ h_Address r = Some a /\ addr_ok a /\ h_Port r = port /\ 0 <= port < 2 ^ 16.

Definition msg_target (r : VlessHeader) (a : Address) (port : Z) : bytes := if decide (h_Command r = RequestCommandMux) then [] else enc_address_port vlessParser a port.
Definition msg_vless (r : VlessHeader) (acc : MemoryAccount) (d : bytes) (a : Address) (port : Z) : bytes :=
  [x00] ++ ID acc ++ d ++ [h_Command r] ++ msg_target r a port.

Lemma EncodeRequestHeader_ok r addons acc d a' a port i w : asks_for r acc a port -> sends addons d a' ->
  EncodeRequestHeader append g r addons {| incoming := i; writer := w |} = (Ok tt, {| incoming := i; writer := w ++ msg_vless r acc d a port |}).
Proof.
  intros (Hv & (u & Hu & Hacc) & Hid & Htarget) Hs. pose proof (sends_length _ _ _ Hs) as Hld. unfold EncodeRequestHeader. rewrite Hv. pose proof (held_New g Hg) as H0. change (New g) with (StackNew g) in H0.
  next (bind_checked_write_byte x00 H0) as b1 H1; [fits|]. assert (request_id r = Ok (ID acc)) as Hri by (unfold request_id; by rewrite Hu, Hacc). rewrite (io_bind_pure _ _ _ _ Hri).
  next (bind_checked_write (ID acc) H1) as b2 H2; [fits|]. destruct (bind_encode_addons (W := bytes) (B := unit) b2 _ addons d a' H2) as (b3 & H3 & ->); [fits|exact Hs|].
  next (bind_checked_write_byte (h_Command r) H3) as b4 H4; [fits|]. unfold msg_vless, msg_target. destruct (decide (h_Command r = RequestCommandMux)) as [Hm|Hm].
  - rewrite decide_False by (intros Hx; by apply Hx). rewrite io_bind_ret, (bind_bytes H4), app_nil_r. rewrite <-!app_assoc. done.
  - rewrite decide_True by done. destruct Htarget as (Hcmd & Ha & Hok & Hp & Hr). rewrite Ha, Hp. pose proof (enc_address_port_length vlessParser a port Hok).
    next (bind_put_address_port (port := port) (vless_parser_knows (Family a)) Hok H4) as b5 H5; [fits|]. rewrite (bind_bytes H5), <-!app_assoc. done.
Qed.

(** The request as the server has it. *)
Definition request_of (r : VlessHeader) (a : Address) (port : Z) (user : MemoryUser MemoryAccount) : VlessHeader :=
  {| h_Version := x00; h_Command := h_Command r; h_Port := port; h_Address := Some a; h_User := Some user |}.

Lemma decode_rest_ok {W} r acc addons d a' a port id user b s rest (w : W) : asks_for r acc a port -> sends addons d a' -> held K b s ->
  decode_rest g x00 id user b {| incoming := d ++ [h_Command r] ++ msg_target r a port ++ rest; writer := w |} =
    (Ok (accepted id (request_of r a port user) a'), {| incoming := rest; writer := w |}).
Proof.
  intros (_ & _ & _ & Htarget) Hs Hb. unfold decode_rest. pose proof K_large.
  destruct (bind_decode_addons (W := W) (B := decoded) b s addons d a' ([h_Command r] ++ msg_target r a port ++ rest) w Hb Hs) as (b1 & s1 & H1 & ->).
  pose proof (held_Clear K b1 s1 H1) as H1'. destruct (read_into_ok (E := vless_error) K (Clear b1) [] [h_Command r] (msg_target r a port ++ rest) w 1 H1') as (b2 & Hr2 & H2); [done|lia|cbn; lia|].
  rewrite (io_bind_Ok _ _ _ _ _ Hr2). rewrite (io_bind_pure _ _ _ _ (held_Byte K b2 _ 0 (h_Command r) H2 ltac:(lia) eq_refl)).
  assert (request_target g b2 (h_Command r) {| incoming := msg_target r a port ++ rest; writer := w |} = (Ok (Some a, port), {| incoming := rest; writer := w |})) as Ht.
  { unfold request_target, msg_target. destruct (decide (h_Command r = RequestCommandMux)) as [Hm|Hm]; [by destruct Htarget as [-> ->]|]. destruct Htarget as (Hcmd & Ha & Hok & Hp & Hr).
    rewrite decide_True by done.
    assert ((read_address_port g vlessParser (Some b2) ≫= mret) {| incoming := enc_address_port vlessParser a port ++ rest; writer := w |} =
      (mret (Some a, port) : io vless_error W (option Address * Z)) {| incoming := rest; writer := w |}) as Hx
      by (eapply bind_address_in; [exact H2|cbn; lia|apply vless_parser_knows|done|done]).
    unfold mbind, io_bind, mret, io_ret in Hx. by destruct (read_address_port g vlessParser (Some b2) _) as [[x| |] s']; simplify_eq Hx || rewrite Hx. }
  rewrite (io_bind_Ok _ _ _ _ _ Ht). done.
Qed.
End Headers.
(** *** The server *)

(** The parts of a header in its first bytes. *)
Lemma first_parts first : wf first -> (17 <= length (content first))%nat -> exists v id, length id = 16%nat /\
  Byte first 0 = Ok v /\ BytesRange first 1 17 = Ok id /\ take 17 (content first) = v :: id.
Proof.
  intros Hb Hl. destruct (content first) as [|v c] eqn:Hc; [cbn in Hl; lia|]. exists v, (take 16 c). cbn [length] in Hl. split; [rewrite length_take; lia|].
  split; [apply (Byte_content first 0 v Hb); by rewrite Hc|]. split; [|done]. pose proof (length_content first Hb) as HL. pose proof Hb as [? ? ?]. rewrite Hc in HL. cbn [length] in HL.
  unfold BytesRange, from_end. change (1 <? 0) with false. change (17 <? 0) with false. cbv iota. rewrite !i32_small, slice_of_ok by lia. f_equal.
  unfold content in Hc. replace (Z.to_nat (start first + 17) - Z.to_nat (start first + 1))%nat with 16%nat by lia.
  replace (Z.to_nat (start first + 1)) with (Z.to_nat (start first) + 1)%nat by lia. rewrite <-drop_drop.
  apply (f_equal (fun l => take 16 (drop 1 l))) in Hc. cbn [drop] in Hc. rewrite drop_0 in Hc. rewrite <-Hc, skipn_firstn_comm, take_take. f_equal. lia.
Qed.

Section Server.
Context {HC : AddonsCodec} (g : bytes) (Hg : length g = Z.to_nat Size).
Abbreviation K := (Z.to_nat Size).

#[local] Hint Resolve K_small : core.

(** A header is looked at in the first buffer when there are fallbacks, and
    nothing is read before its user is known; *)
Lemma decode_from_first {W} first v (st : stream W) version id : Byte first 0 = Ok version -> BytesRange first 1 17 = Ok id ->
  DecodeRequestHeader g true first v st =
    if decide (version = x00) then
      match vless_Get v id with
      | None => (Ok (rejected true errUserID), st)
      | Some user => decode_rest g x00 id user (StackNew g) {| incoming := drop 17 (incoming st); writer := writer st |}
      end
    else (Ok (rejected true errRequestVersion), st).
Proof.
  intros Hv Hid. unfold DecodeRequestHeader. unfold mbind at 1, io_bind at 1. rewrite (io_bind_pure _ _ _ _ Hv). unfold mret at 1, io_ret at 1. cbv beta iota.
  destruct (decide (version = x00)) as [->|]; [|done]. unfold mbind at 1, io_bind at 1. rewrite (io_bind_pure _ _ _ _ Hid). unfold mret at 1, io_ret at 1. cbv beta iota.
  by destruct (vless_Get v id).
Qed.

(** and it is read from the connection when there are none. *)
Lemma decode_from_stream {W} first v version id rest (w : W) : length id = 16%nat -> exists b s, held K b s /\
  DecodeRequestHeader g false first v {| incoming := version :: id ++ rest; writer := w |} =
    if decide (version = x00) then
      match vless_Get v id with
      | None => (Ok (rejected false errUserID), {| incoming := rest; writer := w |})
      | Some user => decode_rest g x00 id user b {| incoming := rest; writer := w |}
      end
    else (Ok (rejected false errRequestVersion), {| incoming := id ++ rest; writer := w |}).
Proof.
  intros Hid. pose proof K_large. unfold DecodeRequestHeader. pose proof (held_New g Hg) as H0. change (New g) with (StackNew g) in H0.
  destruct (read_into_ok (E := vless_error) K (StackNew g) [] [version] (id ++ rest) w 1 H0) as (b1 & Hr1 & H1); [done|lia|cbn; lia|].
  destruct (read_into_ok (E := vless_error) K (Clear b1) [] id rest w 16 (held_Clear K b1 _ H1)) as (b2 & Hr2 & H2); [done|lia|cbn; lia|].
  exists b2, ([] ++ id). split; [exact H2|]. change (version :: id ++ rest) with ([version] ++ id ++ rest).
  unfold mbind at 1, io_bind at 1. rewrite (io_bind_Ok _ _ _ _ _ Hr1), (io_bind_pure _ _ _ _ (held_Byte K b1 _ 0 version H1 ltac:(lia) eq_refl)). unfold mret at 1, io_ret at 1. cbv beta iota.
  destruct (decide (version = x00)) as [->|]; [|done].
  unfold mbind at 1, io_bind at 1. rewrite (io_bind_Ok _ _ _ _ _ Hr2), (io_bind_pure _ _ _ _ (held_Bytes K b2 _ H2)). unfold mret at 1, io_ret at 1. cbv beta iota. cbn [app].
  by destruct (vless_Get v id).
Qed.

(** What is left of a header never panics. *)
Lemma addons_safe {W} b s : held K b s -> io_ok (DecodeHeaderAddons b : io vless_error W _) (fun '(b', _) => exists s', held K b' s').
Proof.
  intros Hb. pose proof K_large. unfold DecodeHeaderAddons.
  eapply io_ok_bind; [apply (io_ok_read K (Clear b) [] 1); [exact (held_Clear K b s Hb)|cbn; lia|lia]|]. intros b1 (x & Hx & H1). destruct x as [|l [|]]; [done| |done].
  eapply io_ok_bind; [eapply (io_ok_pure _ l (fun l' => l' = l)); [exact (held_Byte K b1 _ 0 l H1 ltac:(lia) eq_refl)|reflexivity]|]. intros l' ->.
  destruct (decide (l = x00)); [apply io_ok_ret; eauto|]. pose proof (byte_to_Z_range l).
  eapply io_ok_bind; [apply (io_ok_read K (Clear b1) [] (byte_to_Z l)); [exact (held_Clear K b1 _ H1)|cbn; lia|lia]|]. intros b2 (m & Hm & H2).
  eapply io_ok_bind; [eapply (io_ok_pure _ _ (fun _ => True)); [exact (held_Bytes K b2 _ H2)|done]|]. intros d _.
  destruct (Unmarshal d); [apply io_ok_ret; eauto|apply io_ok_refuse].
Qed.

Lemma target_safe {W} b s command : held K b s -> (length s <= 1)%nat -> io_ok (request_target g b command : io vless_error W _) (fun _ => True).
Proof.
  intros Hb Hl. pose proof K_large. unfold request_target. destruct (decide _); [by apply io_ok_ret|]. destruct (decide _); [|by apply io_ok_ret].
  intros st. pose proof (io_ok_address_in (E := vless_error) (W := W) g vlessParser K b s Hb ltac:(lia) eq_refl st) as Ha.
  by destruct (read_address_port g vlessParser (Some b) st) as [[r|e|] st'].
Qed.

(** What a decoded request has. *)
Definition decodes (id : bytes) (user : MemoryUser MemoryAccount) (d : decoded) : Prop :=
  match d with
  | accepted id' r _ => id' = id /\ h_User r = Some user /\ is_Some (h_Address r)
  | rejected fb _ => fb = false
  end.

Lemma rest_safe {W} version id user b s : held K b s -> io_ok (decode_rest g version id user b : io vless_error W decoded) (decodes id user).
Proof.
  intros Hb. pose proof K_large. unfold decode_rest. eapply io_ok_bind; [by apply addons_safe with s|]. intros [b1 addons] [s1 H1].
  eapply io_ok_bind; [apply (io_ok_read K (Clear b1) [] 1); [exact (held_Clear K b1 _ H1)|cbn; lia|lia]|]. intros b2 (x & Hx & H2). destruct x as [|c [|]]; [done| |done].
  eapply io_ok_bind; [eapply (io_ok_pure _ c (fun c' => c' = c)); [exact (held_Byte K b2 _ 0 c H2 ltac:(lia) eq_refl)|reflexivity]|]. intros c' ->.
  eapply io_ok_bind; [by apply target_safe with [c]|]. intros [[a|] port] _; apply io_ok_ret; [|done]. split; [done|]. split; [done|]. by exists a.
Qed.

(** A header cut before its user is refused. *)
Lemma short_refused {W} first v i (w : W) : (length i < 17)%nat ->
  match DecodeRequestHeader g false first v {| incoming := i; writer := w |} with (Ok (accepted _ _ _), _) | (Panic, _) => False | (Ok (rejected fb _), _) => fb = false | (Err _, _) => True end.
Proof.
  intros Hl. pose proof K_large. unfold DecodeRequestHeader. pose proof (held_New g Hg) as H0. change (New g) with (StackNew g) in H0. destruct i as [|x i].
  - unfold mbind at 1, io_bind at 1. rewrite (bind_read_short H0) by (cbn; lia). done.
  - destruct (read_into_ok (E := vless_error) K (StackNew g) [] [x] i w 1 H0) as (b1 & Hr1 & H1); [done|lia|cbn; lia|]. change (x :: i) with ([x] ++ i).
    unfold mbind at 1, io_bind at 1. rewrite (io_bind_Ok _ _ _ _ _ Hr1), (io_bind_pure _ _ _ _ (held_Byte K b1 _ 0 x H1 ltac:(lia) eq_refl)). unfold mret at 1, io_ret at 1. cbv beta iota.
    destruct (decide (x = x00)); [|done]. unfold mbind at 1, io_bind at 1. cbn [length] in Hl. by rewrite (bind_read_short (held_Clear K b1 _ H1)) by (cbn; lia).
Qed.
End Server.

Section Process.
Context {HC : AddonsCodec} (g array : bytes) (Hg : length g = Z.to_nat Size) (Harr : length array = Z.to_nat Size).

Lemma first_of {W} (st : stream W) chunk : exists first,
  ReadFrom (Clear (FromBytes array)) (fun n => (take (Nat.min n chunk) (incoming st), bool_decide (incoming st = []))) =
    Ok (first, Z.of_nat (length (content first)), bool_decide (incoming st = [])) /\ wf first /\ content first = take (Nat.min (Z.to_nat Size) chunk) (incoming st).
Proof. pose proof (first_read array chunk (incoming st)) as H. rewrite Harr in H. apply H, K_small. Qed.

Lemma vless_Process_ok {HL : AddonsLaws} {W} r acc addons d a' a port user isfb chunk v i (w : W) : asks_for r acc a port -> sends addons d a' ->
  vless_Get v (ID acc) = Some user -> (isfb = true -> (18 <= chunk)%nat) ->
  vless_Process g array isfb chunk v {| incoming := msg_vless r acc d a port ++ i; writer := w |} =
    (Ok (served_request (ID acc) (request_of r a port user) a'), {| incoming := i; writer := w |}).
Proof.
  intros Hr Hs Hget Hch. pose proof Hr as (_ & _ & Hid & _). pose proof (sends_length _ _ _ Hs) as Hd.
  set (m := d ++ [h_Command r] ++ msg_target r a port ++ i). assert (1 <= length m)%nat as Hm by (unfold m; rewrite length_app; lia).
  assert (msg_vless r acc d a port ++ i = x00 :: ID acc ++ m) as -> by (unfold msg_vless, m; rewrite <-!app_assoc; done).
  unfold vless_Process. destruct (first_of {| incoming := x00 :: ID acc ++ m; writer := w |} chunk) as (first & -> & Hb & Hct). cbn [incoming] in Hct.
  pose proof K_large as HK. destruct isfb; cbn [andb].
  - specialize (Hch eq_refl). assert (17 < length (content first))%nat as Hl by (rewrite Hct, length_take; cbn [length]; rewrite length_app; lia).
    destruct (Z.ltb_spec (Z.of_nat (length (content first))) 18); [lia|]. destruct (first_parts first Hb) as (x & id & Hidl & Hx & Hrange & Htake); [lia|].
    rewrite Hct, take_take, Nat.min_l in Htake by lia. cbn [take] in Htake. rewrite take_app_length' in Htake by done. apply (inj2 cons) in Htake as [<- <-].
    rewrite (decode_from_first g first v _ _ _ Hx Hrange), decide_True, Hget by done. cbn [incoming writer]. change (drop 17 (x00 :: ID acc ++ m)) with (drop 16 (ID acc ++ m)).
    rewrite drop_app_length' by done. pose proof (held_New g Hg) as H0. change (New g) with (StackNew g) in H0. unfold m. by erewrite decode_rest_ok by eassumption.
  - destruct (decode_from_stream g Hg first v x00 (ID acc) m w Hid) as (b & s & H0 & ->). rewrite decide_True, Hget by done.
    unfold m. by erewrite decode_rest_ok by eassumption.
Qed.

(** What the server does with any connection. *)
Definition kept_or_served {W} (isfb : bool) (v : Validator MemoryAccount) (st : stream W) (r : outcome (fail vless_error) vless_served * stream W) : Prop :=
  match r with
  | (Panic, _) => False
  | (Ok (given_to_fallback _), st') => isfb = true /\ st' = st
  | (Ok (served_request id request _), _) =>
      exists user rest, incoming st = x00 :: id ++ rest /\ length id = 16%nat /\ vless_Get v id = Some user /\ h_User request = Some user /\ is_Some (h_Address request)
  | (Err _, _) => isfb = true -> exists id user rest, incoming st = x00 :: id ++ rest /\ length id = 16%nat /\ vless_Get v id = Some user
  end.

Lemma rest_kept {W} isfb v (st st' : stream W) id user rest b s : held (Z.to_nat Size) b s -> incoming st = x00 :: id ++ rest -> length id = 16%nat -> vless_Get v id = Some user ->
  kept_or_served isfb v st match decode_rest g x00 id user b st' with
    | (Ok (accepted id request addons), s') => (Ok (served_request id request addons), s')
    | (Ok (rejected fb e), s') => if fb : bool then (Ok (given_to_fallback e), s') else (Err (ErrRefused e), s')
    | (Err e, s') => (Err e, s')
    | (Panic, s') => (Panic, s')
    end.
Proof.
  intros Hb Hi Hl Hget. pose proof (rest_safe g Hg (W := W) x00 id user b s Hb st') as Hs. destruct (decode_rest g x00 id user b st') as [[[id' r addons|fb e]|e|] s']; cbn in Hs |- *.
  - destruct Hs as (-> & Hu & Ha). by exists user, rest.
  - rewrite Hs. intros _. by exists id, user, rest.
  - intros _. by exists id, user, rest.
  - done.
Qed.

Lemma vless_Process_kept {W} isfb chunk v (st : stream W) : kept_or_served isfb v st (vless_Process g array isfb chunk v st).
Proof.
  unfold vless_Process. destruct (first_of st chunk) as (first & -> & Hb & Hct). destruct isfb; cbn [andb].
  - destruct (Z.ltb_spec (Z.of_nat (length (content first))) 18) as [|Hl]; [by split|].
    destruct (first_parts first Hb) as (x & id & Hidl & Hx & Hrange & Htake); [lia|]. rewrite (decode_from_first g first v _ _ _ Hx Hrange).
    destruct (decide (x = x00)) as [->|]; [|by split]. destruct (vless_Get v id) as [user|] eqn:Hget; [|by split].
    pose proof (held_New g Hg) as H0. change (New g) with (StackNew g) in H0. apply (rest_kept true v st _ id user (drop 17 (incoming st)) _ _ H0); [|done..].
    assert (18 <= length (content first))%nat as Hl' by lia. rewrite Hct, length_take in Hl'. rewrite Hct, take_take, Nat.min_l in Htake by lia.
    change (x00 :: id ++ drop 17 (incoming st)) with ((x00 :: id) ++ drop 17 (incoming st)). by rewrite <-Htake, take_drop.
  - destruct st as [i w]. destruct (decide (17 <= length i)%nat) as [Hl|Hl].
    + destruct i as [|x i]; [cbn in Hl; lia|]. cbn [length] in Hl. rewrite <-(take_drop 16 i). assert (length (take 16 i) = 16%nat) as Hid by (rewrite length_take; lia).
      destruct (decode_from_stream g Hg first v x (take 16 i) (drop 16 i) w Hid) as (b & s & H0 & ->).
      destruct (decide (x = x00)) as [->|]; [|done]. destruct (vless_Get v (take 16 i)) as [user|] eqn:Hget; [|done].
      by apply (rest_kept false v _ _ (take 16 i) user (drop 16 i) _ _ H0).
    + pose proof (short_refused g Hg first v i w ltac:(lia)) as Hs. destruct (DecodeRequestHeader g false first v {| incoming := i; writer := w |}) as [[[id' r' a'|fb e]|e|] s']; [done|by rewrite Hs|done..].
Qed.
End Process.

(** ** Packets *)

(** As many packets as asked for. *)
Fixpoint Length_reads {W} (garbage : bytes) (n : nat) : io vless_error W (list MultiBuffer) :=
  match n with
  | O => mret []
  | S n' => mb ← Length_ReadMultiBuffer garbage; mbs ← Length_reads garbage n'; mret (mb :: mbs)
  end.

(** What a buffer has room for behind a length. *)
Definition fits_packet (p : bytes) : bool := (0 <? length p)%nat && (Z.of_nat (length p) + 2 <=? Size).

Definition enc_packet (p : bytes) : bytes := put16 (Z.of_nat (length p)) ++ p.

Section Packets.
Context (g : bytes) (Hg : length g = Z.to_nat Size).
Abbreviation K := (Z.to_nat Size).

#[local] Hint Resolve K_small : core.

Lemma multi_length_ok mb : Forall wf mb -> exists out, multi_length g mb = Ok out /\ Forall wf out /\ content <$> out = enc_packet <$> filter (fun p => fits_packet p = true) (content <$> mb).
Proof.
  induction 1 as [|b mb Hb _ (out & IH & Hw & Hout)]; [by exists []|]. cbn [multi_length fmap list_fmap]. rewrite filter_cons, (Len_content b Hb).
  assert (fits_packet (content b) = negb ((Z.of_nat (length (content b)) =? 0) || (Z.of_nat (length (content b)) + 2 >? Size))) as Hf.
  { unfold fits_packet. destruct (Nat.ltb_spec 0 (length (content b))), (Z.eqb_spec (Z.of_nat (length (content b))) 0), (Z.gtb_spec (Z.of_nat (length (content b)) + 2) Size),
      (Z.leb_spec (Z.of_nat (length (content b)) + 2) Size); done || lia. }
  destruct ((Z.of_nat (length (content b)) =? 0) || (Z.of_nat (length (content b)) + 2 >? Size)) eqn:HG.
  { rewrite decide_False by (by rewrite Hf). by exists out. }
  rewrite decide_True by (by rewrite Hf). apply orb_false_iff in HG as [HG0 HGl]. pose proof (held_New g Hg) as H1. pose proof K_large.
  assert (2 + length (content b) <= K)%nat as Hlk by (destruct (Z.gtb_spec (Z.of_nat (length (content b)) + 2) Size); [done|lia]).
  destruct (held_WriteByte K _ _ (byte_of_Z (Z.shiftr (Z.of_nat (length (content b))) 8)) H1) as (b1 & -> & H2); [cbn; lia|]. cbn [mbind outcome_bind].
  destruct (held_WriteByte K _ _ (byte_of_Z (Z.of_nat (length (content b)))) H2) as (b2 & -> & H3); [cbn; lia|]. cbn [mbind outcome_bind]. rewrite (Bytes_content b Hb). cbn [mbind outcome_bind].
  destruct (held_Write K _ _ (content b) H3) as (b3 & -> & H4); [cbn; lia|]. cbn [mbind outcome_bind]. rewrite IH. cbn [mbind outcome_bind]. exists (b3 :: out). split; [done|].
  destruct (held_end K b3 _ H4) as (Hw3 & Hc3 & _). split; [by constructor|]. cbn [fmap list_fmap]. by rewrite Hout, Hc3.
Qed.

Lemma Length_ReadMultiBuffer_ok {W} p rest (w : W) : fits_packet p = true ->
  exists b, Length_ReadMultiBuffer g {| incoming := enc_packet p ++ rest; writer := w |} = (Ok [b], {| incoming := rest; writer := w |}) /\ wf b /\ content b = p.
Proof.
  unfold fits_packet. intros [H0%Nat.ltb_lt Hl%Z.leb_le]%andb_true_iff. pose proof K_large. assert (Z.of_nat (length p) < 2 ^ 16) as H16 by (unfold Size in Hl; lia).
  unfold Length_ReadMultiBuffer, enc_packet. rewrite <-app_assoc, bind_read_bytes by apply length_put16. rewrite put16_bytes. cbn [lookup_total list_lookup_total]. rewrite lor_put16 by lia. cbv zeta.
  rewrite Nat2Z.id. remember (length p) as n eqn:Hn. destruct n as [|n]; [lia|]. cbn [read_packet]. rewrite Hn. destruct (Z.gtb_spec (Z.of_nat (length p)) 0); [|lia].
  destruct (Z.gtb_spec (Z.of_nat (length p)) Size); [lia|].
  destruct (read_into_ok (E := vless_error) K (New g) [] p rest w (Z.of_nat (length p)) (held_New g Hg)) as (b & Hr & Hb); [lia|lia|cbn; lia|].
  rewrite (io_bind_Ok _ _ _ _ _ Hr), Z.sub_diag. exists b. split; [by destruct n|]. destruct (held_end K b _ Hb) as (Hw & Hc & _). by split.
Qed.

Lemma Length_reads_ok {W} ps rest (w : W) : Forall (fun p => fits_packet p = true) ps ->
  exists mbs, Length_reads g (length ps) {| incoming := (ps ≫= enc_packet) ++ rest; writer := w |} = (Ok mbs, {| incoming := rest; writer := w |}) /\
    Forall2 (fun p mb => exists b, mb = [b] /\ wf b /\ content b = p) ps mbs.
Proof.
  induction 1 as [|p ps Hp _ (mbs & IH & Hf)]; [by exists []|]. cbn [length Length_reads mbind list_bind]. rewrite <-app_assoc.
  destruct (Length_ReadMultiBuffer_ok p ((ps ≫= enc_packet) ++ rest) w Hp) as (b & Hr & Hb & Hc). rewrite (io_bind_Ok _ _ _ _ _ Hr), (io_bind_Ok _ _ _ _ _ IH).
  exists ([b] :: mbs). split; [done|]. constructor; [by exists b|done].
Qed.
End Packets.

(** A response's header. *)
Lemma response_roundtrip {HC : AddonsCodec} {HL : AddonsLaws} g r addons d a' rest : length g = Z.to_nat Size -> sends addons d a' ->
  EncodeResponseHeader append g r addons (start_of []) = (Ok tt, {| incoming := []; writer := h_Version r :: d |}) /\
  DecodeResponseHeader (W := bytes) g r (start_of ((h_Version r :: d) ++ rest)) = (Ok a', start_of rest).
Proof.
  intros Hg Hs. pose proof (sends_length _ _ _ Hs). pose proof K_large. pose proof (held_New g Hg) as Hn. change (New g) with (StackNew g) in Hn. split.
  - unfold EncodeResponseHeader. next (bind_checked_write_byte (h_Version r) Hn) as b1 H1; [cbn; lia|].
    edestruct (bind_encode_addons g Hg (W := bytes) (B := unit) _ _ addons d a' H1) as (b2 & H2 & ->); [cbn; lia|exact Hs|]. by rewrite (bind_bytes H2).
  - unfold DecodeResponseHeader, start_of. destruct (read_into_ok (E := vless_error) (Z.to_nat Size) (StackNew g) [] [h_Version r] (d ++ rest) ([] : bytes) 1 Hn) as (b1 & Hr1 & H1); [done|lia|cbn; lia|].
    change ((h_Version r :: d) ++ rest) with ([h_Version r] ++ d ++ rest). rewrite (io_bind_Ok _ _ _ _ _ Hr1), (io_bind_pure _ _ _ _ (held_Byte _ b1 _ 0 (h_Version r) H1 ltac:(lia) eq_refl)).
    rewrite decide_False by (intros Hx; by apply Hx). edestruct (bind_decode_addons g Hg (W := bytes) (B := Addons)) as (b2 & s2 & H2 & ->); [exact H1|exact Hs|]. done.
Qed.

(** ** Properties *)

(** C8: the header a client writes is read as it was written, with or without
    fallbacks, as long as the first read brings as much as a header may have
    at least: the same command and target, the user of the id, and the flow
    if it is one that is sent; nothing of what follows is consumed. *)
Theorem vless_header_roundtrip {HC : AddonsCodec} {HL : AddonsLaws} g array isfb chunk v user r acc f a port rest :
  length g = Z.to_nat Size -> length array = Z.to_nat Size -> (isfb = true -> (18 <= chunk)%nat) ->
  asks_for r acc a port -> vless_Get v (ID acc) = Some user ->
  exists out, EncodeRequestHeader append g r {| Flow := f; Seed := [] |} (start_of []) = (Ok tt, {| incoming := []; writer := out |}) /\
    vless_Process g array isfb chunk v (start_of (out ++ rest)) =
      (Ok (served_request (ID acc) (request_of r a port user) {| Flow := if decide (f = XRV) then XRV else []; Seed := [] |}), start_of rest).
Proof.
  intros Hg Harr Hch Hr Hget. destruct (flow_sends f) as [d Hs]. exists (msg_vless r acc d a port). split; [exact (EncodeRequestHeader_ok g Hg r _ acc d _ a port [] [] Hr Hs)|].
  unfold start_of. erewrite vless_Process_ok by eassumption. by destruct (decide (f = XRV)).
Qed.

(** C9: no connection makes the server panic, only a connection that begins
    with the id of a user is served, and a connection handed to a fallback
    still has every byte that came. With fallbacks, none is refused but one
    that begins with the id of a user. *)
Theorem vless_fallback_untouched `{AddonsCodec} {W} g array isfb chunk v (st : stream W) :
  length g = Z.to_nat Size -> length array = Z.to_nat Size ->
  match vless_Process g array isfb chunk v st with
  | (Panic, _) => False
  | (Ok (given_to_fallback _), st') => isfb = true /\ st' = st
  | (Ok (served_request id request _), _) =>
      exists user rest, incoming st = x00 :: id ++ rest /\ length id = 16%nat /\ vless_Get v id = Some user /\ h_User request = Some user /\ is_Some (h_Address request)
  | (Err _, _) => isfb = true -> exists id user rest, incoming st = x00 :: id ++ rest /\ length id = 16%nat /\ vless_Get v id = Some user
  end.
Proof. intros Hg Harr. exact (vless_Process_kept g array Hg Harr isfb chunk v st). Qed.

(** The packets of a UDP request are read as they were written, one for
    one and in order, but for those that are empty or too long for a buffer
    with their length, which the writer leaves out. *)
Theorem vless_packets_roundtrip g {W} mb rest (w : W) : length g = Z.to_nat Size -> Forall wf mb ->
  exists out, MultiLength_WriteMultiBuffer g mb = Ok out /\
    let packets := filter (fun p => fits_packet p = true) (content <$> mb) in
    exists mbs, Length_reads g (length packets) {| incoming := contents (default [] out) ++ rest; writer := w |} = (Ok mbs, {| incoming := rest; writer := w |}) /\
      Forall2 (fun p mb => exists b, mb = [b] /\ wf b /\ content b = p) packets mbs.
Proof.
  intros Hg Hmb. destruct (multi_length_ok g Hg mb Hmb) as (out & Ho & Hw & Hc). unfold MultiLength_WriteMultiBuffer. rewrite Ho. cbn [mbind outcome_bind].
  eexists. split; [reflexivity|]. cbv zeta. set (ps := filter _ (content <$> mb)) in *.
  assert (contents (default [] (if MultiBuffer_IsEmpty out then None else Some out)) = ps ≫= enc_packet) as ->.
  { transitivity (contents out); [|transitivity ((content <$> out) ≫= id); [by rewrite list_fmap_bind|by rewrite Hc, list_fmap_bind]]. rewrite (MultiBuffer_IsEmpty_contents out Hw). case_bool_decide as He; [by rewrite He|done]. }
  apply (Length_reads_ok g Hg). apply Forall_forall. intros p Hp. by apply list_elem_of_filter in Hp as [? _].
Qed.

(** The writer of one packet cuts the length of the list to 16 bits, behind
    which it writes the whole list. *)
Lemma length_cut {W} (write : W -> bytes -> W * bool) b (st : stream W) : wf b -> Z.of_nat (length (content b)) = 2 ^ 16 ->
  Length_WriteMultiBuffer write [b] st = send write ([x00; x00] ++ content b) st.
Proof.
  intros Hb Hl. unfold Length_WriteMultiBuffer. rewrite MultiBuffer_Len_contents by (by constructor). unfold contents. cbn [mbind list_bind]. rewrite app_nil_r, Hl.
  change (i32 (2 ^ 16) =? 0) with false. cbv iota. cbn [foldr]. rewrite (Bytes_content b Hb). cbn [mbind outcome_bind]. rewrite io_bind_pure with (a := content b ++ []) by done. by rewrite app_nil_r.
Qed.

(** ** Examples *)

Section Samples.

(** A codec that knows messages with a short flow alone. *)
Definition flow_codec : AddonsCodec := {|
  Marshal a := match Seed a with [] => if (length (Flow a) <? 128)%nat then Some ([x0a; byte_of_Z (Z.of_nat (length (Flow a)))] ++ Flow a) else None | _ => None end;
  Unmarshal d := match d with
                 | x0a :: l :: f => if decide (byte_to_Z l = Z.of_nat (length f)) then Some {| Flow := f; Seed := [] |} else None
                 | _ => None
                 end |}.

#[local] Existing Instance flow_codec.

Lemma flow_laws : AddonsLaws.
Proof.
  split.
  - intros [f s] d. cbn [Marshal Unmarshal flow_codec Seed Flow]. destruct s; [|done]. destruct (Nat.ltb_spec (length f) 128); [|done]. intros [= <-]. cbn [app]. rewrite byte_to_of_Z. unfold u8.
    rewrite Z.mod_small by (change (2 ^ 8) with 256; lia). by rewrite decide_True.
  - eexists. split; [vm_compute; reflexivity|cbn; lia].
Qed.

Definition sample_vless_account : MemoryAccount := {| ID := bs "0123456789abcdef"; Flow_ := XRV; Encryption := [] |}.
Definition sample_vless_user : MemoryUser MemoryAccount := {| Account := Some sample_vless_account; Email := bs "user"; Level := 0 |}.
Definition sample_vless_users : Validator MemoryAccount := {| v_email := ∅; v_users := {[vless_key sample_vless_account := sample_vless_user]} |}.
Definition sample_vless_request : VlessHeader :=
  {| h_Version := x00; h_Command := RequestCommandTCP; h_Port := 443; h_Address := Some (domainAddress (bs "example.com")); h_User := Some sample_vless_user |}.

Lemma vless_header_roundtrip_witness :
  exists out, EncodeRequestHeader append zero_buffer sample_vless_request {| Flow := XRV; Seed := [] |} (start_of []) = (Ok tt, {| incoming := []; writer := out |}) /\
    vless_Process zero_buffer zero_buffer true 18 sample_vless_users (start_of (out ++ bs "hello")) =
      (Ok (served_request (bs "0123456789abcdef") (request_of sample_vless_request (domainAddress (bs "example.com")) 443 sample_vless_user)
        {| Flow := if decide (XRV = XRV) then XRV else []; Seed := [] |}), start_of (bs "hello")).
Proof.
  refine (vless_header_roundtrip (HL := flow_laws) zero_buffer zero_buffer true 18 sample_vless_users sample_vless_user sample_vless_request sample_vless_account XRV
    (domainAddress (bs "example.com")) 443 (bs "hello") zero_buffer_length zero_buffer_length (fun _ => le_n 18) _ _); [|vm_compute; reflexivity].
  split; [done|]. split; [by exists sample_vless_user|]. split; [done|]. rewrite decide_False by done. split; [by left|]. split; [done|]. split; [apply example_name_ok|done].
Defined.

Lemma vless_fallback_untouched_witness :
  match vless_Process zero_buffer zero_buffer true 2048 sample_vless_users (start_of (bs "GET / HTTP/1.1 and more")) with
  | (Panic, _) => False
  | (Ok (given_to_fallback _), st') => true = true /\ st' = start_of (bs "GET / HTTP/1.1 and more")
  | (Ok (served_request id request _), _) =>
      exists user rest, bs "GET / HTTP/1.1 and more" = x00 :: id ++ rest /\ length id = 16%nat /\ vless_Get sample_vless_users id = Some user /\ h_User request = Some user /\ is_Some (h_Address request)
  | (Err _, _) => true = true -> exists id user rest, bs "GET / HTTP/1.1 and more" = x00 :: id ++ rest /\ length id = 16%nat /\ vless_Get sample_vless_users id = Some user
  end.
Proof.
  exact (vless_fallback_untouched zero_buffer zero_buffer true 2048 sample_vless_users (start_of (bs "GET / HTTP/1.1 and more")) zero_buffer_length zero_buffer_length).
Defined.

Definition short_packet : Buffer := {| Buffer.v := Some (bs "hi"); start := 0; end_ := 2; owner := managed; Endpoint := None |}.

Lemma vless_packets_roundtrip_witness :
  exists out, MultiLength_WriteMultiBuffer zero_buffer [short_packet; New zero_buffer] = Ok out /\
    let packets := filter (fun p => fits_packet p = true) (content <$> [short_packet; New zero_buffer]) in
    exists mbs, Length_reads zero_buffer (length packets) {| incoming := contents (default [] out) ++ bs "rest"; writer := tt |} = (Ok mbs, {| incoming := bs "rest"; writer := tt |}) /\
      Forall2 (fun p mb => exists b, mb = [b] /\ wf b /\ content b = p) packets mbs.
Proof.
  refine (vless_packets_roundtrip zero_buffer [short_packet; New zero_buffer] (bs "rest") tt zero_buffer_length _).
  constructor; [by split|]. constructor; [|done]. apply wf_New, zero_buffer_length.
Defined.
End Samples.
