(* ===== verification/Fallback.v ===== *)
(** * Fallbacks, [proxy/vless/inbound/inbound.go] and [proxy/trojan/server.go]

    Where a connection goes that is no user's: a table by server name, ALPN
    and path that is filled up from its defaults when the inbound is made,
    and the choice of an entry for a connection. VLESS and Trojan have the
    same code; the table is VLESS's and the choice Trojan's. A Go map is a
    [gmap] here, and a nil map an absent key. *)

From S2P Require Import Prelude Matchers Segment Buffer BufferFacts.

Local Open Scope Z_scope.

(** src/proxy/vless/inbound/config.pb.go:20-30 Fallback *)
Record Fallback := { Name : bytes; Alpn : bytes; Path : bytes; Type_ : bytes; Dest : bytes; Xver : Z }.

Abbreviation by_path := (gmap bytes Fallback).
Abbreviation by_alpn := (gmap bytes by_path).
Abbreviation by_name := (gmap bytes by_alpn).

(** ** The table *)

(** A later entry replaces an earlier one with the same keys.
    src/proxy/vless/inbound/inbound.go:163-169 New *)
Definition put_fallback (t : by_name) (fb : Fallback) : by_name :=
  let apfb := default ∅ (t !! Name fb) in
  let pfb := default ∅ (apfb !! Alpn fb) in
  <[Name fb := <[Alpn fb := <[Path fb := fb]> pfb]> apfb]> t.

(** Every name gets the ALPNs of the default name, without paths as yet. The
    loops over maps add absent keys only, none of which another turn reads,
    so that a union with the left side first says what they do.
    src/proxy/vless/inbound/inbound.go:171-181 New *)
Definition share_alpns (t : by_name) : by_name :=
  match t !! [] with
  | None => t
  | Some base => map_imap (fun name (apfb : by_alpn) => Some (if decide (name = []) then apfb else apfb ∪ ((fun _ => ∅) <$> base))) t
  end.

(** The paths of the default ALPN, below the same name.
    src/proxy/vless/inbound/inbound.go:182-194 New *)
Definition share_paths (apfb : by_alpn) : by_alpn :=
  match apfb !! [] with
  | None => apfb
  | Some base => map_imap (fun alpn (pfb : by_path) => Some (if decide (alpn = []) then pfb else pfb ∪ base)) apfb
  end.

(** The paths of the default name, below the same ALPN, which every name has
    by now.
    src/proxy/vless/inbound/inbound.go:195-207 New *)
Definition share_default (t : by_name) : by_name :=
  match t !! [] with
  | None => t
  | Some base =>
      map_imap (fun name (apfb : by_alpn) =>
        Some (if decide (name = []) then apfb
              else map_imap (fun alpn (pfb : by_path) => Some (match base !! alpn with Some paths => pfb ∪ paths | None => pfb end)) apfb)) t
  end.

(** src/proxy/vless/inbound/inbound.go:160-208 New *)
Definition fallback_table (config : list Fallback) : by_name :=
  share_default (share_paths <$> share_alpns (foldl put_fallback ∅ config)).

(** ** The choice *)

Inductive fallback_error := errDefaultName | errDefaultAlpn | errDefaultPath.

(** [order] is the order in which Go goes through the map.
    src/proxy/trojan/server.go:345-351 Server.fallback *)
Definition best_name (order : list bytes) (name : bytes) : bytes :=
  foldl (fun match_ n => if negb (bool_decide (n = [])) && Contains name n && (length match_ <? length n)%nat then n else match_) [] order.

(** src/proxy/trojan/server.go:343-357 Server.fallback *)
Definition choose_name (order : list bytes) (napfb : by_name) (name : bytes) : bytes :=
  let name := if (1 <? size napfb)%nat || bool_decide (napfb !! [] = None) then
                if negb (bool_decide (name = [])) && bool_decide (napfb !! name = None) then best_name order name else name
              else name in
  if decide (napfb !! name = None) then [] else name.

(** Where the path of a request begins, from byte [i] on; [Panic] is an index
    behind the end.
    src/proxy/trojan/server.go:375-376 Server.fallback *)
Fixpoint path_start (turns : nat) (i : nat) (firstBytes : bytes) : outcome unit (option nat) :=
  match turns with
  | O => Ok None
  | S turns' =>
      match firstBytes !! i, firstBytes !! Nat.pred i with
      | Some x, Some y => if decide (x = x2f /\ y = x20) then Ok (Some i) else path_start turns' (S i) firstBytes
      | _, _ => Panic
      end
  end.

(** Where it ends: the bytes are those from [j] on, up to the limit of the
    search.
    src/proxy/trojan/server.go:378-391 Server.fallback *)
Fixpoint path_end (j : nat) (rest : bytes) : option nat :=
  match rest with
  | [] => None
  | k :: rest => if decide (k = x0d \/ k = x0a) then None else if decide (k = x20) then Some j else path_end (S j) rest
  end.

(** The path of the request; empty when there is none.
    src/proxy/trojan/server.go:373-395 Server.fallback *)
Definition request_path (first : Buffer) (firstLen : Z) : outcome unit bytes :=
  if firstLen >=? 18 then
    star ← Byte first 4;
    if decide (star ≠ x2a) then
      firstBytes ← Bytes first;
      start ← path_start 5 4 firstBytes;
      Ok (match start with
          | Some i =>
              match path_end (S i) (drop (S i) (take (Nat.min 64 (length firstBytes)) firstBytes)) with
              | Some j => take (j - i) (drop i firstBytes)
              | None => []
              end
          | None => []
          end)
    else Ok []
  else Ok [].

(** src/proxy/trojan/server.go:371-400 Server.fallback *)
Definition choose_path (pfb : by_path) (first : Buffer) (firstLen : Z) : outcome fallback_error Fallback :=
  let find path := match pfb !! path with Some fb => Ok fb | None => Err errDefaultPath end in
  if (1 <? size pfb)%nat || bool_decide (pfb !! [] = None) then
    match request_path first firstLen with
    | Ok path => find (if decide (pfb !! path = None) then [] else path)
    | _ => Panic
    end
  else find [].

(** [name] and [alpn] are what the outer TLS or REALITY connection agreed on,
    empty without one.
    src/proxy/trojan/server.go:324-400 Server.fallback *)
Definition fallback `{StringLibs} (order : list bytes) (napfb : by_name) (name alpn : bytes) (first : Buffer) (firstLen : Z) : outcome fallback_error Fallback :=
  let name := ToLower name in
  let alpn := ToLower alpn in
  match napfb !! choose_name order napfb name with
  | None => Err errDefaultName
  | Some apfb =>
      match apfb !! (if decide (apfb !! alpn = None) then [] else alpn) with
      | None => Err errDefaultAlpn
      | Some pfb => choose_path pfb first firstLen
      end
  end.

(** * Facts about fallbacks

    What the table holds for a name, an ALPN and a path, which entry is
    chosen for a connection, and when one is always found. *)


Local Notation named fb n a p := (Name fb = n /\ Alpn fb = a /\ Path fb = p).

(** ** What was configured *)

(** The last entry with these keys. *)
Definition entry (config : list Fallback) (n a p : bytes) : option Fallback :=
  foldl (fun found fb => if decide (named fb n a p) then Some fb else found) None config.

Definition has_name (config : list Fallback) (n : bytes) : bool := existsb (fun fb => bool_decide (Name fb = n)) config.
Definition has_alpn (config : list Fallback) (n a : bytes) : bool := existsb (fun fb => bool_decide (Name fb = n /\ Alpn fb = a)) config.

(** The ALPNs of a name, its own and those of the default name. *)
Definition knows_alpn (config : list Fallback) (n a : bytes) : bool := has_name config n && (has_alpn config n a || has_alpn config [] a).

(** An entry of its own comes first, then that of the name's default ALPN,
    then, if the default name has the ALPN, the default name's. *)
Definition inherits (config : list Fallback) (n a p : bytes) : option Fallback :=
  entry config n a p ∪ entry config n [] p ∪ (if has_alpn config [] a then entry config [] a p ∪ entry config [] [] p else None).

Lemma entry_app config fb n a p : entry (config ++ [fb]) n a p = if decide (named fb n a p) then Some fb else entry config n a p.
Proof. unfold entry. by rewrite foldl_app. Qed.

Lemma has_name_app config fb n : has_name (config ++ [fb]) n = has_name config n || bool_decide (Name fb = n).
Proof. unfold has_name. rewrite existsb_app. cbn. by rewrite orb_false_r. Qed.

Lemma has_alpn_app config fb n a : has_alpn (config ++ [fb]) n a = has_alpn config n a || bool_decide (Name fb = n /\ Alpn fb = a).
Proof. unfold has_alpn. rewrite existsb_app. cbn. by rewrite orb_false_r. Qed.

Lemma has_alpn_name config n a : has_alpn config n a = true -> has_name config n = true.
Proof. unfold has_alpn, has_name. rewrite !existsb_exists. intros (fb & Hin & [? _]%bool_decide_eq_true). exists fb. by rewrite bool_decide_true. Qed.

Lemma entry_Some config n a p fb : entry config n a p = Some fb -> fb ∈ config /\ named fb n a p.
Proof.
  induction config as [|x config IH] using rev_ind; [done|]. rewrite entry_app, elem_of_app, list_elem_of_singleton.
  case_decide; [intros [= <-]; by split; [right|]|]. intros [? ?]%IH. tauto.
Qed.

Lemma entry_has config n a p fb : entry config n a p = Some fb -> has_alpn config n a = true.
Proof. intros (Hin & Hn & Ha & _)%entry_Some. apply existsb_exists. exists fb. split; [by apply list_elem_of_In|]. by apply bool_decide_eq_true. Qed.

(** ** The table *)

(** The paths of a name and an ALPN. *)
Definition row (t : by_name) (n a : bytes) : option by_path := t !! n ≫= (fun apfb => apfb !! a).

Lemma row_put t fb n a : row (put_fallback t fb) n a =
  if decide (Name fb = n /\ Alpn fb = a) then Some (<[Path fb := fb]> (default ∅ (row t n a))) else row t n a.
Proof.
  unfold row, put_fallback. destruct (decide (Name fb = n)) as [<-|Hn].
  - rewrite lookup_insert_eq. cbn [mbind option_bind]. destruct (decide (Alpn fb = a)) as [<-|Ha].
    + rewrite lookup_insert_eq, decide_True by done. by destruct (t !! Name fb).
    + rewrite lookup_insert_ne, decide_False by naive_solver. by destruct (t !! Name fb).
  - by rewrite lookup_insert_ne, decide_False by naive_solver.
Qed.

Lemma name_put t fb n : is_Some (put_fallback t fb !! n) <-> is_Some (t !! n) \/ Name fb = n.
Proof. unfold put_fallback. rewrite lookup_insert_is_Some. destruct (decide (Name fb = n)); tauto. Qed.

Definition raw_table (config : list Fallback) : by_name := foldl put_fallback ∅ config.

Lemma raw_name config n : is_Some (raw_table config !! n) <-> has_name config n = true.
Proof.
  induction config as [|fb config IH] using rev_ind; [split; [by intros [? ?]|done]|]. unfold raw_table in *. rewrite foldl_app. cbn [foldl].
  by rewrite name_put, IH, has_name_app, orb_true_iff, bool_decide_eq_true.
Qed.

Lemma raw_alpn config n a : is_Some (row (raw_table config) n a) <-> has_alpn config n a = true.
Proof.
  induction config as [|fb config IH] using rev_ind; [split; [by intros [? ?]|done]|]. unfold raw_table in *. rewrite foldl_app. cbn [foldl].
  rewrite row_put, has_alpn_app, orb_true_iff, bool_decide_eq_true. case_decide; [|tauto]. split; [by right|by intros _; eexists].
Qed.

Lemma raw_entry config n a p : row (raw_table config) n a ≫= (fun pfb => pfb !! p) = entry config n a p.
Proof.
  induction config as [|fb config IH] using rev_ind; [done|]. unfold raw_table in *. rewrite foldl_app. cbn [foldl]. rewrite row_put, entry_app.
  destruct (decide (Name fb = n /\ Alpn fb = a)) as [[Hn Ha]|Hna]; [|by rewrite decide_False by tauto]. cbn [mbind option_bind]. destruct (decide (Path fb = p)) as [<-|Hp].
  - by rewrite lookup_insert_eq, decide_True by done.
  - rewrite lookup_insert_ne, decide_False by tauto. rewrite <-IH. by destruct (row _ n a).
Qed.

(** Each step of filling up, on one row; that a row is filled from itself
    changes nothing. *)
Lemma row_share_alpns t n a : row (share_alpns t) n a =
  t !! n ≫= (fun apfb => apfb !! a ∪ (if decide (n = []) then None else (fun _ => ∅) <$> row t [] a)).
Proof.
  unfold row, share_alpns. destruct (t !! []) as [base|] eqn:Hb.
  - rewrite map_lookup_imap. destruct (t !! n) as [apfb|] eqn:Hn; [|done]. cbn [mbind option_bind]. case_decide; [by destruct (apfb !! a)|]. by rewrite lookup_union, lookup_fmap.
  - destruct (t !! n) as [apfb|]; [|done]. cbn [mbind option_bind fmap option_fmap option_map]. by case_decide; destruct (apfb !! a).
Qed.

Lemma share_paths_lookup apfb a : share_paths apfb !! a = (fun pfb => pfb ∪ default ∅ (apfb !! [])) <$> apfb !! a.
Proof.
  unfold share_paths. destruct (apfb !! []) as [base|] eqn:Hb; cbn [default].
  - rewrite map_lookup_imap. destruct (apfb !! a) as [pfb|] eqn:Ha; [|done]. cbn. case_decide; [|done]. subst a. rewrite Hb in Ha. injection Ha as <-. by rewrite (idemp (∪)).
  - destruct (apfb !! a); [|done]. cbn. by rewrite (right_id ∅ (∪)).
Qed.

Lemma row_share_default t n a : row (share_default t) n a = (fun pfb => pfb ∪ default ∅ (row t [] a)) <$> row t n a.
Proof.
  unfold row, share_default. destruct (t !! []) as [base|] eqn:Hb; cbn [mbind option_bind].
  - rewrite map_lookup_imap. destruct (t !! n) as [apfb|] eqn:Hn; [|done]. cbn [mbind option_bind]. case_decide as Hd.
    + subst n. rewrite Hb in Hn. injection Hn as <-. destruct (base !! a); [|done]. cbn. by rewrite (idemp (∪)).
    + rewrite map_lookup_imap. destruct (apfb !! a); [|done]. cbn. destruct (base !! a); [done|]. cbn. by rewrite (right_id ∅ (∪)).
  - destruct (t !! n ≫= _); [|done]. cbn. by rewrite (right_id ∅ (∪)).
Qed.

Lemma row_share_paths t n a : row (share_paths <$> t) n a = (fun pfb => pfb ∪ default ∅ (row t n [])) <$> row t n a.
Proof. unfold row. rewrite lookup_fmap. destruct (t !! n) as [apfb|]; [|done]. cbn [fmap option_fmap option_map mbind option_bind]. apply share_paths_lookup. Qed.

(** The rows the table has. *)
Lemma table_row config n a : is_Some (row (fallback_table config) n a) <-> knows_alpn config n a = true.
Proof.
  unfold fallback_table, knows_alpn. rewrite row_share_default, fmap_is_Some, row_share_paths, fmap_is_Some, row_share_alpns, andb_true_iff, orb_true_iff, <-raw_name, <-!raw_alpn.
  change (foldl put_fallback ∅ config) with (raw_table config). unfold row at 2. destruct (raw_table config !! n) as [apfb|] eqn:Hn; cbn [mbind option_bind].
  - case_decide as Hd.
    + subst n. rewrite (right_id None (∪)). split; [by eauto|]. intros [_ [?|?]]; [done|]. by unfold row in *; rewrite Hn in *.
    + destruct (apfb !! a), (row (raw_table config) [] a); cbn; naive_solver.
  - split; [by intros [? ?]|]. by intros [[? ?] _].
Qed.

(** What the table holds. *)
Lemma table_entry config n a p : row (fallback_table config) n a ≫= (fun pfb => pfb !! p) = if knows_alpn config n a then inherits config n a p else None.
Proof.
  pose proof (table_row config n a) as Hrow. destruct (knows_alpn config n a) eqn:Hk.
  2: { destruct (row (fallback_table config) n a) eqn:Hr; [|done]. by destruct Hrow as [Hrow _]; discriminate Hrow. }
  apply proj2 in Hrow. specialize (Hrow eq_refl). revert Hrow. unfold fallback_table, inherits. set (t1 := share_alpns (foldl put_fallback ∅ config)).
  assert (forall n a, row t1 n a ≫= (fun pfb => pfb !! p) = entry config n a p) as Hentry.
  { intros n' a'. unfold t1. rewrite row_share_alpns, <-raw_entry. unfold row at 2. unfold raw_table. destruct (_ !! n') as [apfb|]; [|done]. cbn [mbind option_bind].
    destruct (apfb !! a') as [pfb|]; [by case_decide; [|destruct (row _ [] a')]|]. by case_decide; [|destruct (row _ [] a')]. }
  assert (forall n', (default ∅ (row t1 n' []) : by_path) !! p = entry config n' [] p) as Hdefault by (intros n'; rewrite <-Hentry; by destruct (row t1 n' [])).
  rewrite row_share_default, !row_share_paths, !fmap_is_Some. intros [pfb Hr]. rewrite Hr. cbn [fmap option_fmap option_map mbind option_bind].
  rewrite !lookup_union, Hdefault. rewrite <-(Hentry n a), Hr. cbn [mbind option_bind]. f_equal.
  assert (is_Some (row t1 [] a) <-> has_alpn config [] a = true) as Hb.
  { unfold t1. rewrite row_share_alpns, <-raw_alpn. unfold row, raw_table. destruct (_ !! []) as [apfb|]; [|done]. cbn [mbind option_bind]. by rewrite decide_True, (right_id None (∪)). }
  destruct (row t1 [] a) as [base|] eqn:Hbase; cbn [fmap option_fmap option_map default].
  - rewrite (proj1 Hb) by eauto. unfold id. rewrite lookup_union, Hdefault, <-(Hentry [] a), Hbase. done.
  - destruct (has_alpn config [] a); [|by rewrite lookup_empty]. destruct (proj2 Hb eq_refl) as [? ?]. done.
Qed.

Lemma table_name config n : is_Some (fallback_table config !! n) <-> has_name config n = true.
Proof.
  rewrite <-raw_name. unfold fallback_table. change (foldl put_fallback ∅ config) with (raw_table config).
  assert (forall t, is_Some (share_alpns t !! n) <-> is_Some (t !! n)) as H1.
  { intros t. unfold share_alpns. destruct (t !! []); [|done]. rewrite map_lookup_imap. destruct (t !! n); cbn; naive_solver. }
  assert (forall t, is_Some (share_default t !! n) <-> is_Some (t !! n)) as H2.
  { intros t. unfold share_default. destruct (t !! []); [|done]. rewrite map_lookup_imap. destruct (t !! n); cbn; naive_solver. }
  by rewrite H2, lookup_fmap, fmap_is_Some, H1.
Qed.

(** ** The name *)

(** No name, or the longest of those that the server name contains. *)
Definition best_of (order : list bytes) (name m : bytes) : Prop :=
  (m = [] \/ m ∈ order /\ Contains name m = true) /\ forall n, n ∈ order -> Contains name n = true -> (length n <= length m)%nat.

Lemma best_name_ok order name : best_of order name (best_name order name).
Proof.
  induction order as [|n order [Hin Hmax]] using rev_ind; [by split; [left|intros n []%not_elem_of_nil]|]. unfold best_name in *. rewrite foldl_app. cbn [foldl].
  set (m := foldl _ [] order) in *. destruct (negb (bool_decide (n = [])) && Contains name n && (length m <? length n)%nat) eqn:Hg.
  - apply andb_true_iff in Hg as [[_ Hc]%andb_true_iff Hl%Nat.ltb_lt]. split; [right; by rewrite elem_of_app, list_elem_of_singleton; split; [right|]|].
    intros n' [Hn'| ->%list_elem_of_singleton]%elem_of_app Hc'; [specialize (Hmax n' Hn' Hc'); lia|lia].
  - split; [destruct Hin as [?|[? ?]]; [by left|right; by rewrite elem_of_app; split; [left|]]|]. intros n' [Hn'| ->%list_elem_of_singleton]%elem_of_app Hc'; [by apply Hmax|].
    rewrite Hc', andb_true_r in Hg. case_bool_decide; [subst n; cbn; lia|]. cbn in Hg. apply Nat.ltb_ge in Hg. done.
Qed.

Lemma best_name_listed order name : (forall n, n ∈ order -> n = []) -> best_name order name = [].
Proof. intros Ho. destruct (best_name_ok order name) as [[?|[Hin _]] _]; [done|by apply Ho]. Qed.

(** Without an entry of its own a name is served as the longest one it
    contains, with or without the conditions the code looks at first. *)
Lemma choose_name_ok (order : list bytes) (t : by_name) (name : bytes) : order ≡ₚ (map_to_list t).*1 ->
  choose_name order t name = if decide (is_Some (t !! name)) then name else best_name order name.
Proof.
  intros Ho. assert (forall n, n ∈ order <-> is_Some (t !! n)) as Hin.
  { intros n. rewrite Ho, list_elem_of_fmap. split; [intros ([n' x] & -> & Hx%elem_of_map_to_list); by eexists|intros [x Hx]; exists (n, x); by rewrite elem_of_map_to_list]. }
  assert (forall m, best_of order name m -> (if decide (t !! m = None) then [] else m) = m) as Hbest.
  { intros m [[->|[Hm _]] _]; [by case_decide|]. apply Hin in Hm as [? Hm]. by rewrite decide_False by (by rewrite Hm). }
  unfold choose_name. destruct (decide (is_Some (t !! name))) as [[x Hx]|Hn].
  - rewrite (bool_decide_false (t !! name = None)), andb_false_r by (by rewrite Hx). destruct (_ || _); by rewrite decide_False by (by rewrite Hx).
  - apply eq_None_not_Some in Hn. rewrite (bool_decide_true (t !! name = None)), andb_true_r by done. destruct (_ || _) eqn:Hc.
    + destruct (decide (name = [])) as [He|He]; [|rewrite (bool_decide_false (name = [])) by done; apply Hbest, best_name_ok]. subst name. cbn. rewrite decide_True by done. destruct (best_name_ok order []) as [[?|[_ Hc']] _]; [done|].
      apply Contains_spec in Hc' as (x & y & He). apply (f_equal length) in He. rewrite !length_app in He. cbn in He. symmetry. apply nil_length_inv. lia.
    + apply orb_false_iff in Hc as [Hs%Nat.ltb_ge Hd%bool_decide_eq_false]. rewrite decide_True by done. symmetry. apply best_name_listed. intros n Hno%Hin.
      apply not_eq_None_Some in Hd. destruct (decide (n = [])) as [|Hne]; [done|]. exfalso. destruct Hno as [x Hx], Hd as [y Hy].
      rewrite <-(insert_delete_id _ _ _ Hy), map_size_insert_None in Hs by apply lookup_delete_eq.
      rewrite <-(insert_delete_id (delete [] t) n x), map_size_insert_None in Hs; [lia|apply lookup_delete_eq|by rewrite lookup_delete_ne].
Qed.

(** ** The path *)

Lemma path_start_total turns i b : (i + turns <= length b)%nat -> exists r, path_start turns i b = Ok r /\ match r with Some k => (k < length b)%nat | None => True end.
Proof.
  revert i. induction turns as [|turns IH]; intros i Hl; [by exists None|]. cbn [path_start].
  destruct (lookup_lt_is_Some_2 b i) as [x ->]; [lia|]. destruct (lookup_lt_is_Some_2 b (Nat.pred i)) as [y ->]; [lia|]. case_decide; [exists (Some i); split; [done|lia]|apply IH; lia].
Qed.

Lemma request_path_total first : wf first -> exists path, request_path first (Z.of_nat (length (content first))) = Ok path.
Proof.
  intros Hb. unfold request_path. destruct (Z.geb_spec (Z.of_nat (length (content first))) 18); [|by eexists].
  destruct (lookup_lt_is_Some_2 (content first) 4) as [x Hx]; [lia|]. change 4 with (Z.of_nat 4). rewrite (Byte_content first 4 x Hb Hx). cbn [mbind outcome_bind].
  case_decide; [|by eexists]. rewrite (Bytes_content first Hb). cbn [mbind outcome_bind]. destruct (path_start_total 5 4 (content first)) as (r & -> & _); [lia|]. by eexists.
Qed.

(** The first line of a request: a method of three to seven letters, and a
    path that ends within the bytes that are searched. *)
Definition http_line (m p rest : bytes) : Prop :=
  (3 <= length m <= 7)%nat /\ x20 ∉ m /\ x2a ∉ m /\ (exists p', p = x2f :: p' /\ x20 ∉ p' /\ x0d ∉ p' /\ x0a ∉ p') /\ (length m + 1 + length p < 64)%nat /\ (16 <= length m + length p + length rest)%nat.

Lemma path_end_ok j p rest : x20 ∉ p -> x0d ∉ p -> x0a ∉ p -> path_end j (p ++ x20 :: rest) = Some (j + length p)%nat.
Proof.
  revert j. induction p as [|x p IH]; intros j H1 H2 H3; cbn [app path_end length]; [by rewrite decide_False, decide_True, Nat.add_0_r by naive_solver|].
  apply not_elem_of_cons in H1 as [? ?], H2 as [? ?], H3 as [? ?]. rewrite !decide_False by naive_solver. rewrite IH by done. f_equal. lia.
Qed.

Lemma path_start_ok m rest turns i : (i <= S (length m))%nat -> (3 <= i)%nat -> (S (length m) < i + turns)%nat -> x20 ∉ m ->
  path_start turns i (m ++ [x20] ++ x2f :: rest) = Ok (Some (S (length m))).
Proof.
  revert i. induction turns as [|turns IH]; intros i Hi H3 Ht Hm; [lia|]. cbn [path_start]. set (b := m ++ [x20] ++ x2f :: rest). destruct (decide (i = S (length m))) as [->|Hne].
  - unfold b. replace (S (length m)) with (length m + 1)%nat by lia. rewrite lookup_app_r by lia. replace (length m + 1 - length m)%nat with 1%nat by lia. cbn [app lookup list_lookup].
    rewrite lookup_app_r by lia. replace (Nat.pred (length m + 1) - length m)%nat with 0%nat by lia. cbn [lookup list_lookup]. by rewrite decide_True.
  - assert (b !! Nat.pred i = m !! Nat.pred i) as -> by (unfold b; by rewrite lookup_app_l by lia).
    destruct (lookup_lt_is_Some_2 b i) as [x ->]; [unfold b; rewrite length_app; cbn; lia|]. destruct (lookup_lt_is_Some_2 m (Nat.pred i)) as [y Hy]; [lia|]. rewrite Hy.
    rewrite decide_False. 2: { intros [_ ->]. apply Hm; exact (list_elem_of_lookup_2 _ _ _ Hy). } apply IH; lia || done.
Qed.

Lemma request_path_line first m p rest : wf first -> content first = m ++ [x20] ++ p ++ [x20] ++ rest -> http_line m p rest ->
  request_path first (Z.of_nat (length (content first))) = Ok p.
Proof.
  intros Hb Hc (Hml & Hm & Hm' & (p' & -> & Hp1 & Hp2 & Hp3) & Hl & Hlong). unfold request_path. cbn [length] in *.
  assert (18 <= length (content first))%nat as Hlen by (rewrite Hc, !length_app; cbn [length]; lia). destruct (Z.geb_spec (Z.of_nat (length (content first))) 18); [|lia].
  destruct (lookup_lt_is_Some_2 (content first) 4) as [x Hx]; [lia|]. change 4 with (Z.of_nat 4). rewrite (Byte_content first 4 x Hb Hx). cbn [mbind outcome_bind].
  rewrite decide_True. 2: { intros ->. rewrite Hc in Hx. destruct (decide (4 < length m)%nat). { rewrite lookup_app_l in Hx by done. apply Hm'; exact (list_elem_of_lookup_2 _ _ _ Hx). }
    rewrite lookup_app_r in Hx by lia. destruct (decide (length m = 4%nat)) as [He|]; [rewrite He in Hx; done|]. replace (4 - length m)%nat with 1%nat in Hx by lia. done. }
  rewrite (Bytes_content first Hb). cbn [mbind outcome_bind]. rewrite Hc. change (m ++ [x20] ++ (x2f :: p') ++ [x20] ++ rest) with (m ++ [x20] ++ x2f :: (p' ++ [x20] ++ rest)).
  rewrite path_start_ok by (lia || done). cbn [mbind outcome_bind]. f_equal.
  set (k := Nat.min 64 _). assert (exists rest', drop (S (S (length m))) (take k (m ++ [x20] ++ x2f :: p' ++ [x20] ++ rest)) = p' ++ x20 :: rest') as [rest' Hd].
  { exists (take (k - (length m + 2 + length p' + 1)) rest). assert (length m + 2 + length p' + 1 <= k)%nat as Hk by (unfold k; rewrite !length_app; cbn [length]; rewrite !length_app; cbn [length]; lia).
    assert (m ++ [x20] ++ x2f :: p' ++ [x20] ++ rest = (m ++ [x20; x2f]) ++ p' ++ x20 :: rest) as -> by (rewrite <-app_assoc; done).
    rewrite skipn_firstn_comm, drop_app_length' by (rewrite length_app; cbn; lia). rewrite take_app_ge by lia. destruct (k - S (S (length m)) - length p')%nat as [|n] eqn:Hn; [lia|].
    cbn [firstn take]. do 3 f_equal. lia. }
  rewrite Hd, path_end_ok by done. rewrite drop_app_ge by lia. replace (S (length m) - length m)%nat with 1%nat by lia. cbn [app drop].
  replace (S (S (length m)) + length p' - S (length m))%nat with (S (length p')) by lia. cbn [take]. by rewrite take_app_length.
Qed.

Lemma path_start_sound turns i b k : (0 < i)%nat -> path_start turns i b = Ok (Some k) ->
  (i <= k < i + turns)%nat /\ b !! k = Some x2f /\ b !! Nat.pred k = Some x20.
Proof.
  revert i. induction turns as [|turns IH]; intros i Hi; cbn [path_start]; [done|]. destruct (b !! i) as [x|] eqn:Hx, (b !! Nat.pred i) as [y|] eqn:Hy; try done.
  case_decide as Hd; [|intros Hk; apply IH in Hk; [|lia]; split; [lia|apply Hk]]. destruct Hd as [-> ->]. intros [= <-]. split; [lia|]. by split.
Qed.

Lemma path_end_sound j rest k : path_end j rest = Some k -> exists p' rest', rest = p' ++ x20 :: rest' /\ k = (j + length p')%nat /\ x20 ∉ p' /\ x0d ∉ p' /\ x0a ∉ p'.
Proof.
  revert j. induction rest as [|x rest IH]; intros j; cbn [path_end]; [done|]. case_decide as H1; [done|]. case_decide as H2.
  - intros [= <-]. exists [], rest. subst x. rewrite Nat.add_0_r. split; [done|]. split; [done|]. split_and!; apply not_elem_of_nil.
  - intros Hk. destruct (IH _ Hk) as (p' & rest' & -> & -> & Ha & Hb & Hc). exists (x :: p'), rest'. split; [done|]. split; [cbn; lia|]. rewrite !not_elem_of_cons. naive_solver.
Qed.

(** A path that is found stands in the line, behind a space at one of the
    places where a method ends. *)
Definition stands (b p : bytes) : Prop := exists m p' rest, b = m ++ [x20] ++ p ++ [x20] ++ rest /\ p = x2f :: p' /\ (3 <= length m <= 7)%nat /\ x20 ∉ p' /\ x0d ∉ p' /\ x0a ∉ p'.

Lemma request_path_sound first p : wf first -> request_path first (Z.of_nat (length (content first))) = Ok p -> p ≠ [] -> stands (content first) p.
Proof.
  intros Hb. unfold request_path. destruct (_ >=? 18); [|by intros [= <-]]. destruct (Byte first 4) as [x| |]; [|done|done]. cbn [mbind outcome_bind].
  case_decide; [|by intros [= <-]]. rewrite (Bytes_content first Hb). cbn [mbind outcome_bind]. destruct (path_start 5 4 (content first)) as [[i|]| |] eqn:Hi; [|by intros [= <-]|done|done].
  cbn [mbind outcome_bind]. apply path_start_sound in Hi as (Hi & Hs & Hm); [|lia]. destruct (path_end _ _) as [j|] eqn:Hj; [|by intros [= <-]]. intros [= <-] _.
  apply path_end_sound in Hj as (p' & rest' & Hd & -> & Hp). set (b := content first) in *. set (k := Nat.min 64 (length b)) in *.
  assert (drop (S i) b = p' ++ x20 :: (rest' ++ drop k b)) as Hdrop.
  { assert (S i <= k)%nat as Hk by (destruct (decide (S i <= k)%nat); [done|]; rewrite drop_ge in Hd by (rewrite length_take; lia); by apply eq_sym, app_nil in Hd as [_ ?]).
    rewrite <-(take_drop k b) at 1. rewrite drop_app_le by (rewrite length_take; lia). rewrite Hd, <-app_assoc. done. }
  assert (drop i b = x2f :: p' ++ x20 :: rest' ++ drop k b) as Hdi by (rewrite (drop_S b x2f i Hs); by f_equal).
  assert (take (S i + length p' - i) (drop i b) = x2f :: p') as ->.
  { rewrite Hdi. replace (S i + length p' - i)%nat with (S (length p')) by lia. cbn [take]. f_equal. apply take_app_length. }
  exists (take (Nat.pred i) b), p', (rest' ++ drop k b). split; [|split; [done|split; [|exact Hp]]].
  - rewrite <-(take_drop (Nat.pred i) b) at 1. f_equal. rewrite (drop_S b x20 (Nat.pred i) Hm). replace (S (Nat.pred i)) with i by lia. by rewrite Hdi.
  - rewrite length_take. apply lookup_lt_Some in Hs. lia.
Qed.

Lemma choose_path_ok (pfb : by_path) first path : request_path first (Z.of_nat (length (content first))) = Ok path ->
  choose_path pfb first (Z.of_nat (length (content first))) = match pfb !! path ∪ pfb !! [] with Some fb => Ok fb | None => Err errDefaultPath end.
Proof.
  intros Hp. unfold choose_path. rewrite Hp. destruct ((1 <? size pfb)%nat || bool_decide (pfb !! [] = None)) eqn:Hc.
  - case_decide as Hd; [rewrite Hd; by destruct (pfb !! [])|]. destruct (pfb !! path); [by destruct (pfb !! [])|done].
  - apply orb_false_iff in Hc as [Hs%Nat.ltb_ge Hd%bool_decide_eq_false]. apply not_eq_None_Some in Hd as [d Hd]. rewrite Hd. destruct (decide (path = [])) as [->|Hne]; [by rewrite Hd|].
    rewrite <-(insert_delete_id _ _ _ Hd), map_size_insert_None in Hs by apply lookup_delete_eq.
    assert (delete [] pfb = ∅) as He by (apply map_size_empty_iff; lia). assert (pfb !! path = None) as ->; [|done]. rewrite <-(lookup_delete_ne pfb [] path) by done. by rewrite He.
Qed.

Section Fallbacks.
Context `{StringLibs}.

(** The choice for a connection, as the entry it comes to. *)
Definition chosen (config : list Fallback) (order : list bytes) (name alpn : bytes) (first : Buffer) : Prop :=
  exists n a path,
    (if has_name config (ToLower name) then n = ToLower name else best_of order (ToLower name) n) /\
    a = (if knows_alpn config n (ToLower alpn) then ToLower alpn else []) /\
    (forall m p rest, content first = m ++ [x20] ++ p ++ [x20] ++ rest -> http_line m p rest -> path = p) /\ (path ≠ [] -> stands (content first) path) /\
    fallback order (fallback_table config) name alpn first (Z.of_nat (length (content first))) =
      if has_name config n then
        if knows_alpn config n a then match inherits config n a path ∪ inherits config n a [] with Some fb => Ok fb | None => Err errDefaultPath end
        else Err errDefaultAlpn
      else Err errDefaultName.

Lemma fallback_chosen config order name alpn first : wf first -> order ≡ₚ (map_to_list (fallback_table config)).*1 -> chosen config order name alpn first.
Proof.
  intros Hb Ho. exists (choose_name order (fallback_table config) (ToLower name)). eexists. destruct (request_path_total first Hb) as [path Hpath]. exists path.
  rewrite (choose_name_ok _ _ _ Ho). set (n := if decide _ then _ else _). split; [|split; [reflexivity|split; [|split]]].
  - unfold n. case_decide as Hd; [by rewrite (proj1 (table_name _ _) Hd)|]. destruct (has_name config (ToLower name)) eqn:Hn; [by apply table_name in Hn|]. apply best_name_ok.
  - intros m p rest Hc Hline. pose proof (request_path_line first m p rest Hb Hc Hline) as Hp. rewrite Hpath in Hp. by injection Hp.
  - by apply request_path_sound.
  - unfold fallback. rewrite (choose_name_ok _ _ _ Ho). fold n. pose proof (table_name config n) as Htn. pose proof (table_row config n) as Htr. pose proof (fun a p => table_entry config n a p) as Hte.
    unfold row in Htr, Hte. destruct (fallback_table config !! n) as [apfb|] eqn:Hn. 2: { destruct (has_name config n); [|done]. destruct (proj2 Htn eq_refl) as [? ?]. done. }
    rewrite (proj1 Htn) by eauto. cbn [mbind option_bind] in Htr, Hte.
    assert ((if decide (apfb !! ToLower alpn = None) then [] else ToLower alpn) = if knows_alpn config n (ToLower alpn) then ToLower alpn else []) as ->.
    { specialize (Htr (ToLower alpn)). destruct (knows_alpn config n (ToLower alpn)); case_decide as Hd; [|done..|].
      - destruct (proj2 Htr eq_refl) as [? Hx]. by rewrite Hd in Hx.
      - apply not_eq_None_Some in Hd. by apply Htr in Hd. }
    set (a := if knows_alpn config n (ToLower alpn) then _ else _). specialize (Htr a). destruct (apfb !! a) as [pfb|] eqn:Ha.
    2: { destruct (knows_alpn config n a); [|done]. destruct (proj2 Htr eq_refl) as [? ?]. done. }
    rewrite (proj1 Htr) by eauto. rewrite (choose_path_ok pfb first path Hpath). pose proof (Hte a path) as H1. pose proof (Hte a []) as H2. rewrite Ha, (proj1 Htr) in H1, H2 by eauto.
    cbn [mbind option_bind] in H1, H2. by rewrite H1, H2.
Qed.

Lemma union_Some {A} (x y : option A) : is_Some (x ∪ y) <-> is_Some x \/ is_Some y.
Proof. destruct x, y; split; intros []; repeat destruct_or?; by eauto || destruct_and?. Qed.

(** With a default entry, and for every entry either its ALPN known to the
    default name or a default for its name, nothing is left without one. *)
Definition covered (config : list Fallback) : Prop :=
  is_Some (entry config [] [] []) /\ forall fb, fb ∈ config -> has_alpn config [] (Alpn fb) = true \/ is_Some (entry config (Name fb) [] []).

Lemma covered_inherits config n a : covered config -> knows_alpn config n a = true -> is_Some (inherits config n a []).
Proof.
  intros [[d Hd] Hall] [_ Ha%orb_true_iff]%andb_true_iff. unfold inherits. rewrite !union_Some.
  assert (has_alpn config [] a = true -> is_Some (if has_alpn config [] a then entry config [] a [] ∪ entry config [] [] [] else None)) as Hbase.
  { intros ->. rewrite union_Some, Hd. by right. }
  destruct Ha as [Ha|Ha]; [|by right; apply Hbase]. apply existsb_exists in Ha as (fb & Hin%list_elem_of_In & [<- <-]%bool_decide_eq_true).
  destruct (Hall fb Hin); [by right; apply Hbase|by left; right].
Qed.

Lemma inherits_configured config n a p fb : inherits config n a p = Some fb -> fb ∈ config.
Proof.
  unfold inherits. intros Hi. assert (exists n' a', entry config n' a' p = Some fb) as (n' & a' & ?%entry_Some); [|tauto].
  destruct (entry config n a p) as [x|] eqn:?, (entry config n [] p) as [y|] eqn:?, (has_alpn config [] a), (entry config [] a p) as [z|] eqn:?, (entry config [] [] p) as [w|] eqn:?;
    cbn in Hi; simplify_eq; by eauto.
Qed.

(** ** Properties *)

(** C10: the fallback of a connection. The name is the one that was agreed on
    if anything is configured for it, otherwise the longest configured name
    that is part of it, if any. The ALPN is the one that was agreed on if the
    name or the default name has it, otherwise the default. The path is the
    one of the request's first line, when the line has a method of three to
    seven letters and a path that ends in the first 64 bytes (a path that is
    found always stands there), if something is configured for it, otherwise
    the default. What is not configured for a name and an ALPN is what the
    name has for its own default ALPN; only when the default name has entries
    for this very ALPN itself, it is after that what the default name has for
    this ALPN, and then for the default one. For any other ALPN the default
    name's entries are not looked at, and the connection may be left without
    a fallback though one for everything is configured. *)
Theorem fallback_chooses config order name alpn first :
  wf first -> order ≡ₚ (map_to_list (fallback_table config)).*1 ->
  exists n a path,
    (if has_name config (ToLower name) then n = ToLower name else best_of order (ToLower name) n) /\
    a = (if knows_alpn config n (ToLower alpn) then ToLower alpn else []) /\
    (forall m p rest, content first = m ++ [x20] ++ p ++ [x20] ++ rest -> http_line m p rest -> path = p) /\ (path ≠ [] -> stands (content first) path) /\
    fallback order (fallback_table config) name alpn first (Z.of_nat (length (content first))) =
      if has_name config n then
        if knows_alpn config n a then match inherits config n a path ∪ inherits config n a [] with Some fb => Ok fb | None => Err errDefaultPath end
        else Err errDefaultAlpn
      else Err errDefaultName.
Proof. exact (fallback_chosen config order name alpn first). Qed.

(** When there is an entry for everything, with neither name, ALPN nor
    path, and every other entry has an ALPN that the default name has or a
    default for its own name, no connection is left without a fallback. *)
Theorem fallback_always_found config order name alpn first :
  wf first -> order ≡ₚ (map_to_list (fallback_table config)).*1 ->
  is_Some (entry config [] [] []) -> (forall fb, fb ∈ config -> has_alpn config [] (Alpn fb) = true \/ is_Some (entry config (Name fb) [] [])) ->
  exists fb, fb ∈ config /\ fallback order (fallback_table config) name alpn first (Z.of_nat (length (content first))) = Ok fb.
Proof.
  intros Hb Ho Hd Hall. destruct (fallback_chosen config order name alpn first Hb Ho) as (n & a & path & Hn & -> & _ & _ & ->). pose proof Hd as [d He%entry_has].
  assert (has_name config n = true) as Hname.
  { destruct (has_name config (ToLower name)) eqn:Hl; [by subst n|]. destruct Hn as [[->|[Hin _]] _]; [by apply has_alpn_name with []|].
    apply table_name. rewrite Ho in Hin. apply list_elem_of_fmap in Hin as ([n' x] & -> & Hx%elem_of_map_to_list). by eexists. }
  set (a := if knows_alpn config n (ToLower alpn) then ToLower alpn else []). assert (knows_alpn config n a = true) as Ha.
  { unfold a. destruct (knows_alpn config n (ToLower alpn)) eqn:Hk; [done|]. unfold knows_alpn. by rewrite Hname, He, orb_true_r. }
  rewrite Hname, Ha. assert (is_Some (inherits config n a path ∪ inherits config n a [])) as [fb Hfb] by (apply union_Some; right; apply covered_inherits; [by split|done]).
  rewrite Hfb. exists fb. split; [|done]. destruct (inherits config n a path) as [x|] eqn:Hx; [|rewrite (left_id None (∪)) in Hfb; by apply inherits_configured with n a []].
  apply inherits_configured with n a path. rewrite Hx. by destruct (inherits config n a []).
Qed.

End Fallbacks.

(** ** Examples *)

Section Samples.

#[local] Existing Instance ascii_libs.

Definition to_web : Fallback := {| Name := []; Alpn := []; Path := []; Type_ := bs "tcp"; Dest := bs "127.0.0.1:80"; Xver := 0 |}.
Definition to_h2 (name path : bytes) : Fallback := {| Name := name; Alpn := bs "h2"; Path := path; Type_ := bs "tcp"; Dest := bs "127.0.0.1:8002"; Xver := 1 |}.
Definition get_index : Buffer := FromBytes (bs "GET /index HTTP/1.1").

Lemma get_index_wf : wf get_index.
Proof. by split. Qed.

(** An entry for a name and an ALPN that the default name has not shuts the
    defaults out: the path of the request is not found, nor the default. *)
Lemma default_not_reached :
  fallback [[]; bs "a.com"] (fallback_table [to_web; to_h2 (bs "a.com") (bs "/x")]) (bs "a.com") (bs "h2") get_index 19 = Err errDefaultPath.
Proof. vm_compute. reflexivity. Qed.

(** Which of two names of the same length serves a server name that has both
    depends on the order of the map. *)
Lemma tie_by_order :
  let t := fallback_table [to_h2 (bs "a.com") []; to_h2 (bs "b.com") []] in
  fallback [bs "a.com"; bs "b.com"] t (bs "a.com.b.com") (bs "h2") get_index 19 = Ok (to_h2 (bs "a.com") []) /\
  fallback [bs "b.com"; bs "a.com"] t (bs "a.com.b.com") (bs "h2") get_index 19 = Ok (to_h2 (bs "b.com") []).
Proof. vm_compute. done. Qed.

Definition sample_fallbacks : list Fallback := [to_web; to_h2 [] []; to_h2 (bs "a.com") (bs "/index")].
Definition sample_order : list bytes := (map_to_list (fallback_table sample_fallbacks)).*1.

Lemma fallback_chooses_witness :
  exists n a path,
    (if has_name sample_fallbacks (ToLower (bs "www.a.com")) then n = ToLower (bs "www.a.com") else best_of sample_order (ToLower (bs "www.a.com")) n) /\
    a = (if knows_alpn sample_fallbacks n (ToLower (bs "h2")) then ToLower (bs "h2") else []) /\
    (forall m p rest, content get_index = m ++ [x20] ++ p ++ [x20] ++ rest -> http_line m p rest -> path = p) /\ (path ≠ [] -> stands (content get_index) path) /\
    fallback sample_order (fallback_table sample_fallbacks) (bs "www.a.com") (bs "h2") get_index (Z.of_nat (length (content get_index))) =
      if has_name sample_fallbacks n then
        if knows_alpn sample_fallbacks n a then match inherits sample_fallbacks n a path ∪ inherits sample_fallbacks n a [] with Some fb => Ok fb | None => Err errDefaultPath end
        else Err errDefaultAlpn
      else Err errDefaultName.
Proof. exact (fallback_chooses sample_fallbacks sample_order (bs "www.a.com") (bs "h2") get_index get_index_wf (Permutation_refl _)). Defined.

Lemma fallback_always_found_witness :
  exists fb, fb ∈ sample_fallbacks /\
    fallback sample_order (fallback_table sample_fallbacks) (bs "other.org") (bs "http/1.1") get_index (Z.of_nat (length (content get_index))) = Ok fb.
Proof.
  refine (fallback_always_found sample_fallbacks sample_order (bs "other.org") (bs "http/1.1") get_index get_index_wf (Permutation_refl _) _ _); [by eexists|].
  intros fb Hfb. left. assert (Alpn fb = [] \/ Alpn fb = bs "h2") as [-> | ->]; [|reflexivity..].
  unfold sample_fallbacks in Hfb. rewrite !elem_of_cons in Hfb. destruct Hfb as [->|[->|[->|[]%not_elem_of_nil]]]; first [by left|by right].
Defined.
End Samples.
