(* ===== verification/Dns.v ===== *)
(** * The DNS client, [app/dns/]

    The static hosts, the clients of the name servers with the strategies of
    their configuration, the order in which they are asked for a domain, and
    the lookup over them. What a name server answers is a parameter; the
    cache of the one over UDP is [DnsCache]. *)

From S2P Require Import Prelude Matchers MatcherGroups AcAutomaton Mph IndexMatchers Net Lru FakeDns Conditions.

Local Open Scope Z_scope.

(** ** Options, [features/dns/client.go] *)

(** src/features/dns/client.go IPOption *)
Record IPOption := { IPv4Enable : bool; IPv6Enable : bool; FakeEnable : bool }.

(** src/features/dns/client.go IPOption.With *)
Definition option_With (opt other : IPOption) : IPOption :=
  {| IPv4Enable := IPv4Enable opt && IPv4Enable other; IPv6Enable := IPv6Enable opt && IPv6Enable other; FakeEnable := FakeEnable opt && FakeEnable other |}.

(** src/features/dns/client.go IPOption.IsValid *)
Definition option_IsValid (opt : IPOption) : bool := IPv4Enable opt || IPv6Enable opt.

(** src/app/dns/config.pb.go:74-80 QueryStrategy *)
Inductive QueryStrategy := USE_IP | USE_IP4 | USE_IP6.
Inductive CacheStrategy := CacheEnabled | CacheDisabled.
Inductive FallbackStrategy := Fallback_Enabled | Fallback_Disabled | Fallback_DisabledIfAnyMatch.

(** src/app/dns/config.go toIPOption *)
Definition toIPOption (s : QueryStrategy) : IPOption :=
  match s with
  | USE_IP => {| IPv4Enable := true; IPv6Enable := true; FakeEnable := false |}
  | USE_IP4 => {| IPv4Enable := true; IPv6Enable := false; FakeEnable := false |}
  | USE_IP6 => {| IPv4Enable := false; IPv6Enable := true; FakeEnable := false |}
  end.

(** src/app/dns/dnscommon.go filterIP *)
Definition filterIP (ips : list Address) (opt : IPOption) : list Address :=
  filter (fun ip => match Family ip with
                    | AddressFamilyIPv4 => IPv4Enable opt
                    | AddressFamilyIPv6 => IPv6Enable opt
                    | AddressFamilyDomain => false
                    end = true) ips.

Inductive dns_error :=
  | errClosed | errEmptyDomain | errEmptyResponse | errCanceled | errDeadlineExceeded | errExpectedIPNonMatch | errConvert | errCombined | errOther (e : bytes)
  | errInvalidIP | errNoAddress | errMatcher | errGeoIP | errFakeDNS.
#[export] Instance dns_error_eq_dec : EqDecision dns_error.
Proof. solve_decision. Defined.

(** src/app/dns/config.go toNetIP *)
Fixpoint toNetIP (addrs : list Address) : outcome dns_error (list bytes) :=
  match addrs with
  | [] => Ok []
  | addr :: addrs' => match IP addr with Some ip => ips ← toNetIP addrs'; Ok (ip :: ips) | None => Err errConvert end
  end.

(** ** Configuration *)

Inductive DomainMatchingType := DMT_Full | DMT_Subdomain | DMT_Keyword | DMT_Regex | DMT_Unknown (n : Z).

(** src/app/dns/config.go:10-15 typeMap *)
Definition typeMap (t : DomainMatchingType) : option Type_ :=
  match t with
  | DMT_Full => Some Full
  | DMT_Subdomain => Some Matchers.Domain
  | DMT_Keyword => Some Substr
  | DMT_Regex => Some Regex
  | DMT_Unknown _ => None
  end.

(** src/app/dns/config.pb.go:346-356 HostMapping *)
Record HostMapping := { hm_Type : DomainMatchingType; hm_Domain : bytes; hm_Ip : list bytes; ProxiedDomain : bytes }.

(** What the address of a name server says without regard to case. *)
Inductive address_kind := addr_localhost | addr_fakedns | addr_other.
#[export] Instance address_kind_eq_dec : EqDecision address_kind.
Proof. solve_decision. Defined.

(** src/app/dns/config.pb.go:218-236 NameServer *)
Record NameServer := {
  ns_Kind : address_kind; ns_ClientIp : bytes; ns_Tag : bytes; PrioritizedDomain : list (DomainMatchingType * bytes); ns_Geoip : list GeoIP;
  OriginalRules : list (bytes * Z); ns_FakeDns : option (list FakeDnsPool); SkipFallback : bool;
  ns_QueryStrategy : option QueryStrategy; ns_CacheStrategy : option CacheStrategy; ns_FallbackStrategy : option FallbackStrategy }.

(** src/app/dns/config.pb.go:416-453 Config *)
Record Config := {
  cfg_NameServer : list NameServer; cfg_ClientIp : bytes; StaticHosts_ : list HostMapping; cfg_FakeDns : option (list FakeDnsPool); cfg_Tag : bytes; cfg_DomainMatcher : bytes;
  DisableCache : bool; DisableFallback : bool; DisableFallbackIfMatch : bool;
  cfg_QueryStrategy : QueryStrategy; cfg_CacheStrategy : CacheStrategy; cfg_FallbackStrategy : FallbackStrategy }.

(** src/app/dns/config.go:20-30 localTLDsAndDotlessDomains *)
Definition localTLDsAndDotlessDomains : list (DomainMatchingType * bytes) :=
  [(DMT_Regex, bs "^[^.]+$"); (DMT_Subdomain, bs "local"); (DMT_Subdomain, bs "localdomain"); (DMT_Subdomain, bs "localhost"); (DMT_Subdomain, bs "lan");
   (DMT_Subdomain, bs "home.arpa"); (DMT_Subdomain, bs "example"); (DMT_Subdomain, bs "invalid"); (DMT_Subdomain, bs "test")].
(** src/app/dns/config.go:32-35 localTLDsAndDotlessDomainsRule *)
Definition localTLDsAndDotlessDomainsRule : bytes * Z := (bs "geosite:private", Z.of_nat (length localTLDsAndDotlessDomains)).

Section Dns.
Context `{StringLibs, MphRuntime, SortSlice}.

(** [None] is an error; creating a matcher does not panic.
    src/app/dns/config.go toStrMatcher *)
Definition toStrMatcher (t : DomainMatchingType) (domain : bytes) : outcome unit Matcher :=
  match typeMap t with
  | None => Err tt
  | Some strMType => match Type_New strMType domain with Ok m => Ok m | Err _ => Err tt | Panic => Panic end
  end.

(** ** Static hosts *)

(** src/app/dns/hosts.go StaticHosts *)
Record StaticHosts := { ips : list (list Address); host_matchers : LinearIndexMatcher }.

(** src/app/dns/hosts.go:37-43 NewStaticHosts *)
Fixpoint all_ips (l : list bytes) : outcome dns_error (list Address) :=
  match l with
  | [] => Ok []
  | ip :: l' => match IPAddress ip with None => Err errInvalidIP | Some addr => r ← all_ips l'; Ok (addr :: r) end
  end.

(** The addresses of a mapping.
    src/app/dns/hosts.go:32-46 NewStaticHosts *)
Definition mapping_ips (mapping : HostMapping) : outcome dns_error (list Address) :=
  match ProxiedDomain mapping, hm_Ip mapping with
  | _ :: _, _ => Ok [domainAddress (ProxiedDomain mapping)]
  | [], [] => Err errNoAddress
  | [], l => all_ips l
  end.

(** A mapping whose pattern is none is left out, with a message in the log.
    src/app/dns/hosts.go:25-49 NewStaticHosts *)
Definition add_mapping (sh : StaticHosts) (mapping : HostMapping) : outcome dns_error StaticHosts :=
  match toStrMatcher (hm_Type mapping) (hm_Domain mapping) with
  | Panic => Panic
  | Err _ => Ok sh
  | Ok matcher =>
      let '(g, id) := lin_Add (host_matchers sh) matcher in
      l ← mapping_ips mapping;
      if id <? Z.of_nat (length (ips sh)) then Ok {| ips := <[Z.to_nat id := l]> (ips sh); host_matchers := g |} else Panic
  end.

Fixpoint add_mappings (sh : StaticHosts) (hosts : list HostMapping) : outcome dns_error StaticHosts :=
  match hosts with
  | [] => Ok sh
  | mapping :: hosts' => sh ← add_mapping sh mapping; add_mappings sh hosts'
  end.

(** src/app/dns/hosts.go NewStaticHosts *)
Definition NewStaticHosts (hosts : list HostMapping) : outcome dns_error StaticHosts :=
  add_mappings {| ips := replicate (length hosts + 16) []; host_matchers := NewLinearIndexMatcher |} hosts.

(** The fuel of the matcher is the length of the domain.
    src/app/dns/hosts.go StaticHosts.lookupInternal *)
Definition lookupInternal {E} (h : StaticHosts) (domain : bytes) : outcome E (list Address) :=
  let input := ToLower domain in
  match lin_Match (S (length input)) (host_matchers h) input with
  | None => Panic
  | Some ids => foldr (fun id (acc : outcome E (list Address)) => match ips h !! Z.to_nat id with None => Panic | Some l => r ← acc; Ok (l ++ r) end) (Ok []) ids
  end.

(** [None] is a nil list: the domain is not among the hosts. A domain that
    replaces another is looked up in turn, [maxDepth] times.
    src/app/dns/hosts.go StaticHosts.lookup *)
Fixpoint hosts_lookup {E} (maxDepth : nat) (h : StaticHosts) (domain : bytes) (opt : IPOption) : outcome E (option (list Address)) :=
  addrs ← lookupInternal h domain;
  match addrs with
  | [] => Ok None
  | [domainAddress d] =>
      match maxDepth with
      | O => Ok (Some addrs)
      | S maxDepth' =>
          unwrapped ← hosts_lookup maxDepth' h d opt;
          match unwrapped with Some u => Ok (Some u) | None => Ok (Some addrs) end
      end
  | _ => Ok (Some (filterIP addrs opt))
  end.

(** src/app/dns/hosts.go StaticHosts.Lookup *)
Definition hosts_Lookup {E} (h : StaticHosts) (domain : bytes) (opt : IPOption) : outcome E (option (list Address)) := hosts_lookup 5 h domain opt.

(** ** Clients *)

Context `{NetIPX}.

(** The server of a client is named by its place in the list of clients;
    [isFake] says whether it is a [FakeDNSServer]. A fake server of its own
    has a group of pools.
    src/app/dns/nameserver.go Client *)
Record Client := {
  isFake : bool; clientIP : bytes; tag : bytes; queryStrategy : IPOption; cacheStrategy : CacheStrategy; fallbackStrategy : FallbackStrategy;
  domains : list bytes; expectIPs : list GeoIPMatcher; fakeDNS : option HolderMulti }.

(** The strategies of a name server: its own, or those of the whole client,
    or what the deprecated settings say.
    src/app/dns/nameserver.go:142-151 NewClient *)
Definition cache_of (ns : NameServer) (dns : Config) : CacheStrategy :=
  match ns_CacheStrategy ns with
  | Some s => s
  | None => match cfg_CacheStrategy dns with
            | CacheEnabled => if DisableCache dns then CacheDisabled else CacheEnabled
            | s => s
            end
  end.

(** src/app/dns/nameserver.go:152-167 NewClient *)
Definition fallback_of (ns : NameServer) (dns : Config) : FallbackStrategy :=
  match ns_FallbackStrategy ns with
  | Some s => s
  | None =>
      if SkipFallback ns then Fallback_Disabled
      else match cfg_FallbackStrategy dns with
           | Fallback_Enabled => if DisableFallback dns then Fallback_Disabled else if DisableFallbackIfMatch dns then Fallback_DisabledIfAnyMatch else Fallback_Enabled
           | s => s
           end
  end.

(** The pools of fake addresses.
    src/app/dns/nameserver.go:168-188 NewClient *)
Definition fake_pools (ns : NameServer) (dns : Config) : option (list FakeDnsPool) :=
  let query := toIPOption (default (cfg_QueryStrategy dns) (ns_QueryStrategy ns)) in
  if match ns_FakeDns ns with Some pools => bool_decide (length pools = 0%nat) | None => bool_decide (ns_Kind ns = addr_fakedns) end then
    match cfg_FakeDns dns with
    | Some pools => Some pools
    | None => Some ((if IPv4Enable query then [{| IpPool := bs "198.18.0.0/15"; LruSize := 65535 |}] else []) ++
                    (if IPv6Enable query then [{| IpPool := bs "fc00::/18"; LruSize := 65535 |}] else []))
    end
  else ns_FakeDns ns.

(** The client, and the name server's message with the fields it fills in;
    [random] is the tag it draws.
    src/app/dns/nameserver.go NewClient *)
Definition NewClient (random : bytes) (ns : NameServer) (dns : Config) : Client * NameServer :=
  let tag' := match ns_Tag ns with [] => match cfg_Tag dns with [] => random | t => t end | t => t end in
  let clientIP' := match ns_ClientIp ns with [] => cfg_ClientIp dns | ip => ip end in
  let query := default (cfg_QueryStrategy dns) (ns_QueryStrategy ns) in
  let local := bool_decide (ns_Kind ns = addr_localhost) in
  ({| isFake := bool_decide (ns_Kind ns = addr_fakedns); clientIP := clientIP'; tag := tag'; queryStrategy := toIPOption query;
      cacheStrategy := cache_of ns dns; fallbackStrategy := fallback_of ns dns; domains := []; expectIPs := []; fakeDNS := None |},
   {| ns_Kind := ns_Kind ns; ns_ClientIp := clientIP'; ns_Tag := tag';
      PrioritizedDomain := if local then PrioritizedDomain ns ++ localTLDsAndDotlessDomains else PrioritizedDomain ns; ns_Geoip := ns_Geoip ns;
      OriginalRules := if local then OriginalRules ns ++ [localTLDsAndDotlessDomainsRule] else OriginalRules ns;
      ns_FakeDns := fake_pools ns dns; SkipFallback := SkipFallback ns;
      ns_QueryStrategy := Some query; ns_CacheStrategy := Some (cache_of ns dns); ns_FallbackStrategy := Some (fallback_of ns dns) |}).

(** The client of the system's resolver, all of whose settings are the zero
    values: its query strategy enables nothing.
    src/app/dns/nameserver_local.go NewLocalDNSClient *)
Definition NewLocalDNSClient : Client :=
  {| isFake := false; clientIP := []; tag := []; queryStrategy := {| IPv4Enable := false; IPv6Enable := false; FakeEnable := false |};
     cacheStrategy := CacheEnabled; fallbackStrategy := Fallback_Enabled; domains := []; expectIPs := []; fakeDNS := None |}.

(** ** The server *)

(** The implementations of [strmatcher.IndexMatcher] a DNS client may use. *)
Inductive IndexMatcher := linear_matcher (g : LinearIndexMatcher) | mph_matcher (g : MphIndexMatcher).

Definition index_Add (m : IndexMatcher) (r : Matcher) : option (IndexMatcher * Z) :=
  match m with
  | linear_matcher g => let '(g, id) := lin_Add g r in Some (linear_matcher g, id)
  | mph_matcher g => '(g, id) ← mph_Add g r; Some (mph_matcher g, id)
  end.

Definition index_Build (fuel : nat) (m : IndexMatcher) : option IndexMatcher :=
  match m with linear_matcher g => Some m | mph_matcher g => mph_matcher <$> mphi_Build fuel g end.

Definition index_Match (m : IndexMatcher) (input : bytes) : option (list Z) :=
  match m with linear_matcher g => lin_Match (S (length input)) g input | mph_matcher g => Some (mphi_Match g input) end.

(** src/app/dns/dns.go DomainMatcherInfo *)
Record DomainMatcherInfo := { clientIdx : Z; domainRuleIdx : Z }.

(** The lock, the list of running lookups and their end are
    [DnsTasks].
    src/app/dns/dns.go:32-46 DNS *)
Record DNS := {
  hosts : StaticHosts; clients : list Client; clientTags : list bytes; domainMatcher : IndexMatcher; matcherInfos : list DomainMatcherInfo;
  fakePools : list Holder; fakeHolders : option HolderMulti; fakeDefault : option HolderMulti }.

(** *** Domain rules *)

Record rule_state := { rs_matcher : IndexMatcher; rs_infos : list DomainMatcherInfo; rs_rules : list bytes; ruleCurr : nat; ruleIter : Z }.

(** One prioritized domain; the texts of the rules are for the log.
    src/app/dns/dns.go:128-154 establishDomainRules *)
Definition add_domain (client : Z) (original : list (bytes * Z)) (st : rule_state) (domain : DomainMatchingType * bytes) : outcome unit rule_state :=
  match toStrMatcher domain.1 domain.2 with
  | Panic => Panic
  | Err _ => Ok st
  | Ok domainRule =>
      let originalRuleIdx := ruleCurr st in
      let '(rules, curr, iter) :=
        match original !! ruleCurr st with
        | Some (rule, size) =>
            let rules := if (length (rs_rules st) <=? ruleCurr st)%nat then rs_rules st ++ [rule] else rs_rules st in
            if ruleIter st + 1 >=? size then (rules, S (ruleCurr st), 0) else (rules, ruleCurr st, ruleIter st + 1)
        | None => (rs_rules st ++ [matcher_String domainRule], S (ruleCurr st), ruleIter st)
        end in
      match index_Add (rs_matcher st) domainRule with
      | None => Panic
      | Some (m, midx) =>
          if midx <? Z.of_nat (length (rs_infos st)) then
            Ok {| rs_matcher := m; rs_infos := <[Z.to_nat midx := {| clientIdx := u16 client; domainRuleIdx := u16 (Z.of_nat originalRuleIdx) |}]> (rs_infos st);
                  rs_rules := rules; ruleCurr := curr; ruleIter := iter |}
          else Panic
      end
  end.

Fixpoint add_domains (client : Z) (original : list (bytes * Z)) (st : rule_state) (l : list (DomainMatchingType * bytes)) : outcome unit rule_state :=
  match l with
  | [] => Ok st
  | domain :: l' => st ← add_domain client original st domain; add_domains client original st l'
  end.

(** The rules of each name server, whose client has its place.
    src/app/dns/dns.go:123-156 establishDomainRules *)
Fixpoint add_servers (client : nat) (m : IndexMatcher) (infos : list DomainMatcherInfo) (servers : list NameServer) : outcome unit (IndexMatcher * list DomainMatcherInfo * list (list bytes)) :=
  match servers with
  | [] => Ok (m, infos, [])
  | ns :: servers' =>
      st ← add_domains (Z.of_nat client) (OriginalRules ns) {| rs_matcher := m; rs_infos := infos; rs_rules := []; ruleCurr := 0; ruleIter := 0 |} (PrioritizedDomain ns);
      '(m, infos, rules) ← add_servers (S client) (rs_matcher st) (rs_infos st) servers';
      Ok (m, infos, rs_rules st :: rules)
  end.

(** [fuel] is that of building the hash table.
    src/app/dns/dns.go establishDomainRules *)
Definition establishDomainRules (fuel : nat) (kind : bytes) (servers : list NameServer) : outcome unit (IndexMatcher * list DomainMatcherInfo * list (list bytes)) :=
  let domainRuleCount := length (concat (map PrioritizedDomain servers)) in
  let matcherInfos := replicate (domainRuleCount + 1) {| clientIdx := 0; domainRuleIdx := 0 |} in
  let m := if decide (kind = bs "linear") then linear_matcher NewLinearIndexMatcher else mph_matcher NewMphIndexMatcher in
  '(m, infos, rules) ← add_servers 0 m matcherInfos servers;
  match index_Build fuel m with Some m => Ok (m, infos, rules) | None => Err tt end.

(** *** Expected addresses *)

(** src/app/dns/dns.go establishExpectedIPs *)
Fixpoint establishExpectedIPs (c : GeoIPMatcherContainer) (servers : list NameServer) : outcome unit (list (list GeoIPMatcher)) :=
  match servers with
  | [] => Ok []
  | ns :: servers' =>
      match add_geoips c (ns_Geoip ns) with
      | (c, Ok matchers) => rest ← establishExpectedIPs c servers'; Ok (matchers :: rest)
      | (_, Err _) => Err tt
      | (_, Panic) => Panic
      end
  end.

(** *** Fake DNS *)

(** The group of each name server that has pools.
    src/app/dns/dns.go:192-203 establishFakeDNS *)
Fixpoint fake_groups (s : list Holder) (m : HolderMulti) (servers : list NameServer) : outcome unit (list Holder * HolderMulti * list (option HolderMulti)) :=
  match servers with
  | [] => Ok (s, m, [])
  | ns :: servers' =>
      match ns_FakeDns ns with
      | None => '(s, m, rest) ← fake_groups s m servers'; Ok (s, m, None :: rest)
      | Some pools =>
          match AddPoolMulti s m pools {| holders := [] |} with
          | (s, m, Ok group) => '(s, m, rest) ← fake_groups s m servers'; Ok (s, m, Some group :: rest)
          | (_, _, Err _) => Err tt
          | (_, _, Panic) => Panic
          end
      end
  end.

(** The engine is a feature of the instance unless another is.
    src/app/dns/dns.go:182-209 establishFakeDNS *)
Definition establishFakeDNS (servers : list NameServer) (pools : option (list FakeDnsPool)) : outcome unit (list Holder * HolderMulti * option HolderMulti * list (option HolderMulti)) :=
  '(s, m, def) ← match pools with
                 | None => Ok ([], {| holders := [] |}, None)
                 | Some pools => match AddPoolMulti [] {| holders := [] |} pools {| holders := [] |} with
                                 | (s, m, Ok group) => Ok (s, m, Some group)
                                 | (_, _, Err _) => Err tt
                                 | (_, _, Panic) => Panic
                                 end
                 end;
  '(s, m, groups) ← fake_groups s m servers;
  Ok (s, m, def, groups).

(** A client with what was established for it. *)
Definition established (c : Client) (rules : list bytes) (geo : list GeoIPMatcher) (group : option HolderMulti) : Client :=
  {| isFake := isFake c; clientIP := clientIP c; tag := tag c;
     queryStrategy := match group with
                      | Some _ => {| IPv4Enable := IPv4Enable (queryStrategy c); IPv6Enable := IPv6Enable (queryStrategy c); FakeEnable := true |}
                      | None => queryStrategy c
                      end;
     cacheStrategy := cacheStrategy c; fallbackStrategy := fallbackStrategy c; domains := rules; expectIPs := geo; fakeDNS := group |}.

Fixpoint all_established (cs : list Client) (rules : list (list bytes)) (geos : list (list GeoIPMatcher)) (groups : list (option HolderMulti)) : list Client :=
  match cs, rules, geos, groups with
  | c :: cs, r :: rules, g :: geos, f :: groups => established c r g f :: all_established cs rules geos groups
  | _, _, _, _ => cs
  end.

(** [random n] is the tag drawn for the [n]-th client.
    src/app/dns/dns.go New *)
Definition New (fuel : nat) (random : nat -> bytes) (config : Config) : outcome dns_error DNS :=
  h ← NewStaticHosts (StaticHosts_ config);
  let made := imap (fun i ns => NewClient (random i) ns config) (cfg_NameServer config) in
  let servers := map snd made in
  let cs := match made with [] => [NewLocalDNSClient] | _ => map fst made end in
  match establishDomainRules fuel (cfg_DomainMatcher config) servers with
  | Panic => Panic
  | Err _ => Err errMatcher
  | Ok (m, infos, rules) =>
      match establishExpectedIPs [] servers with
      | Panic => Panic
      | Err _ => Err errGeoIP
      | Ok geos =>
          match establishFakeDNS servers (cfg_FakeDns config) with
          | Panic => Panic
          | Err _ => Err errFakeDNS
          | Ok (s, holders, def, groups) =>
              Ok {| hosts := h; clients := all_established cs rules geos groups; clientTags := map tag cs; domainMatcher := m; matcherInfos := infos; fakePools := s;
                    fakeHolders := if multi_IsEmpty holders then None else Some holders; fakeDefault := if multi_IsEmpty holders then None else def |}
          end
      end
  end.

(** *** The order of the clients *)

(** A client is asked once.
    src/app/dns/dns.go:495-509 DNS.sortClients *)
Fixpoint matched_clients (s : DNS) (opt : IPOption) (used : list bool) (matches : list Z) : outcome dns_error (list nat * list bool) :=
  match matches with
  | [] => Ok ([], used)
  | m :: matches' =>
      match matcherInfos s !! Z.to_nat m with
      | None => Panic
      | Some info =>
          let i := Z.to_nat (clientIdx info) in
          match clients s !! i with
          | None => Panic
          | Some client =>
              match domains client !! Z.to_nat (domainRuleIdx info), used !! i with
              | Some _, Some u =>
                  if u || negb (FakeEnable opt) && isFake client then matched_clients s opt used matches'
                  else '(l, used) ← matched_clients s opt (<[i := true]> used) matches'; Ok (i :: l, used)
              | _, _ => Panic
              end
          end
      end
  end.

(** Whether a client is asked for a domain that is none of its own.
    src/app/dns/dns.go:514-523 DNS.sortClients *)
Definition asked_anyway (opt : IPOption) (hasDomainMatch : bool) (client : Client) : bool :=
  negb (negb (FakeEnable opt) && isFake client) &&
  match fallbackStrategy client with
  | Fallback_Disabled => false
  | Fallback_DisabledIfAnyMatch => negb hasDomainMatch
  | Fallback_Enabled => true
  end.

(** The places of the clients, in the order they are asked. The log is left
    out.
    src/app/dns/dns.go DNS.sortClients *)
Definition sortClients (s : DNS) (domain : bytes) (opt : IPOption) : outcome dns_error (list nat) :=
  match index_Match (domainMatcher s) (ToLower domain) with
  | None => Panic
  | Some matches =>
      '(l, used) ← matched_clients s opt (replicate (length (clients s)) false) matches;
      let hasDomainMatch := (0 <? length l)%nat in
      Ok (l ++ omap (fun '(i, client) => if negb (default false (used !! i)) && asked_anyway opt hasDomainMatch client then Some i else None)
                 (imap (fun i client => (i, client)) (clients s)))
  end.

(** *** Asking *)

(** What a name server says: addresses, when they expire ([0] is the zero
    time), an error. *)
Record answer := { a_ips : list bytes; expireAt : Z; a_err : option dns_error }.

(** src/app/dns/nameserver.go Client.MatchExpectedIPs *)
Definition MatchExpectedIPs (c : Client) (ips : list bytes) : list bytes * option dns_error :=
  match expectIPs c with
  | [] => (ips, None)
  | matchers =>
      match filter (fun ip => existsb (fun m => geo_Match m ip) matchers = true) ips with
      | [] => ([], Some errExpectedIPNonMatch)
      | newIps => (newIps, None)
      end
  end.

Context {S : Type}.

(** The [i]-th client's server, or its fake one: the domain, the client's
    address, the options, whether its cache is not to be used. *)
Variable query : nat -> bool -> bytes -> bytes -> IPOption -> bool -> S -> answer * S.
(** Whether the client was closed in the meantime. *)
Variable closed : S -> bool.
(** [time.Now().Add(600s)]. *)
Variable later : S -> Z.

(** src/app/dns/nameserver.go Client.QueryIPWithTTL *)
Definition QueryIPWithTTL (i : nat) (c : Client) (domain : bytes) (opt : IPOption) (s : S) : answer * S :=
  let queryOption := option_With opt (queryStrategy c) in
  if negb (option_IsValid queryOption) then ({| a_ips := []; expireAt := 0; a_err := Some errEmptyResponse |}, s)
  else
    let fake := FakeEnable queryOption && bool_decide (is_Some (fakeDNS c)) in
    let '(a, s) := query i fake domain (clientIP c) queryOption (match cacheStrategy c with CacheDisabled => true | CacheEnabled => false end) s in
    if bool_decide (a_err a ≠ None) || FakeEnable queryOption then (a, s)
    else let '(ips, err) := MatchExpectedIPs c (a_ips a) in ({| a_ips := ips; expireAt := expireAt a; a_err := err |}, s).

(** The clients in their order, up to one whose answer is final.
    src/app/dns/dns.go:462-486 DNS.lookupIPInternalWithTTL *)
Fixpoint ask_clients (d : DNS) (order : list nat) (failed : bool) (domain : bytes) (opt : IPOption) (s : S) : outcome dns_error (answer * S) :=
  match order with
  | [] => Ok ({| a_ips := []; expireAt := 0; a_err := Some (if failed then errCombined else errEmptyResponse) |}, s)
  | i :: order' =>
      match clients d !! i with
      | None => Panic
      | Some client =>
          if closed s then Ok ({| a_ips := []; expireAt := 0; a_err := Some errClosed |}, s)
          else
            let '(a, s) := QueryIPWithTTL i client domain opt s in
            match a_ips a with
            | _ :: _ => Ok ({| a_ips := a_ips a; expireAt := expireAt a; a_err := None |}, s)
            | [] =>
                match a_err a with
                | Some errCanceled | Some errDeadlineExceeded | Some errExpectedIPNonMatch => ask_clients d order' true domain opt s
                | err => Ok ({| a_ips := []; expireAt := expireAt a; a_err := err |}, s)
                end
            end
      end
  end.

(** [strings.TrimSuffix]. *)
Definition TrimSuffix (s suffix : bytes) : bytes := if HasSuffix s suffix then take (length s - length suffix) s else s.

(** The counting of running lookups is [DnsTasks].
    src/app/dns/dns.go DNS.lookupIPInternalWithTTL *)
Definition lookupIPInternalWithTTL (d : DNS) (domain : bytes) (opt : IPOption) (s : S) : outcome dns_error (answer * S) :=
  let refuse e := Ok ({| a_ips := []; expireAt := 0; a_err := Some e |}, s) in
  let ask domain := order ← sortClients d domain opt; ask_clients d order false domain opt s in
  if closed s then refuse errClosed
  else
    match domain with
    | [] => refuse errEmptyDomain
    | _ =>
        let domain := TrimSuffix domain (bs ".") in
        addrs ← hosts_Lookup (hosts d) domain opt;
        match addrs with
        | None => ask domain
        | Some [] => Ok ({| a_ips := []; expireAt := later s; a_err := Some errEmptyResponse |}, s)
        | Some [domainAddress replaced] => ask replaced
        | Some addrs =>
            match toNetIP addrs with
            | Ok ips => Ok ({| a_ips := ips; expireAt := later s; a_err := None |}, s)
            | Err e => Ok ({| a_ips := []; expireAt := later s; a_err := Some e |}, s)
            | Panic => Panic
            end
        end
    end.

(** *** Raw messages *)

(** Package [miekg/dns], which is not part of the repository: what it reads
    of a message, and the reply it writes for a question and its addresses. *)
Record Question := { q_Name : bytes; q_Type : Z; q_Class : Z }.
Record Msg := { Id : Z; Response : bool; Answers : nat; Questions : list Question }.
Variable Unpack : bytes -> option Msg.
Variable PackReply : Z -> Question -> list bytes -> bytes.

(** Whether a server takes raw messages, the identifier it draws, and its
    reply. *)
Variable serverRaw : nat -> bool -> bool.
Variable NewReqID : nat -> bool -> S -> Z * S.
Variable raw : nat -> bool -> bytes -> S -> outcome dns_error bytes * S.

(** [binary.BigEndian.PutUint16(b[:2], id)]; a message has two bytes. *)
Definition put_id (id : Z) (b : bytes) : bytes := put16 id ++ drop 2 b.

(** The request is the caller's array, whose identifier is replaced.
    src/app/dns/nameserver.go Client.QueryRaw *)
Definition client_QueryRaw (i : nat) (c : Client) (request : bytes) (fakeEnabled : bool) (s : S) : outcome dns_error bytes * bytes * S :=
  let fake := bool_decide (is_Some (fakeDNS c)) && fakeEnabled in
  if negb (serverRaw i fake) then (Err (errOther (bs "not implemented")), request, s)
  else
    match Unpack request with
    | None => (Err (errOther (bs "request")), request, s)
    | Some _ =>
        let id := get16 request in
        let '(fresh, s) := NewReqID i fake s in
        let request := put_id (u16 fresh) request in
        let '(r, s) := raw i fake request s in
        (match r with
         | Ok response => match Unpack response with None => Err (errOther (bs "response")) | Some _ => Ok (put_id id response) end
         | Err e => Err e
         | Panic => Panic
         end, request, s)
    end.

(** src/app/dns/dns.go:399-415 DNS.queryRaw *)
Fixpoint ask_raw (d : DNS) (order : list nat) (request : bytes) (fakeEnabled : bool) (s : S) : outcome dns_error bytes * bytes * S :=
  match order with
  | [] => (Err errCombined, request, s)
  | i :: order' =>
      match clients d !! i with
      | None => (Panic, request, s)
      | Some client =>
          if closed s then (Err errClosed, request, s)
          else
            match client_QueryRaw i client request fakeEnabled s with
            | (Err errCanceled, request, s) | (Err errDeadlineExceeded, request, s) => ask_raw d order' request fakeEnabled s
            | r => r
            end
      end
  end.

Definition TypeA : Z := 1.
Definition TypeAAAA : Z := 28.
Definition ClassINET : Z := 1.

(** The reply that says that nobody can be asked. *)
Definition not_implemented (request : bytes) : bytes := take 2 request ++ [x81; x84; x00; x00; x00; x00; x00; x00; x00; x00].

(** src/app/dns/dns.go DNS.queryRaw *)
Definition queryRaw (d : DNS) (request : bytes) (fakeEnabled : bool) (s : S) : outcome dns_error bytes * bytes * S :=
  if closed s then (Err errClosed, request, s)
  else
    match Unpack request with
    | None => (Err (errOther (bs "request")), request, s)
    | Some m =>
        if Response m || (0 <? Answers m)%nat then (Err (errOther (bs "not query")), request, s)
        else
          let '(domain, q) := match Questions m with
                              | [q] => (TrimSuffix (ToLower (q_Name q)) (bs "."), Some q)
                              | _ => ([], None)
                              end in
          let '(qType, qClass) := match q with Some q => (q_Type q, q_Class q) | None => (0, 0) end in
          let isIP := (qType =? TypeA) || (qType =? TypeAAAA) in
          let opt := {| IPv4Enable := qType =? TypeA; IPv6Enable := qType =? TypeAAAA; FakeEnable := fakeEnabled |} in
          let ask :=
            match sortClients d domain {| IPv4Enable := qType =? TypeA; IPv6Enable := qType =? TypeAAAA; FakeEnable := fakeEnabled && isIP |} with
            | Ok [] => (Ok (not_implemented request), request, s)
            | Ok order => ask_raw d order request (fakeEnabled && isIP) s
            | Err e => (Err e, request, s)
            | Panic => (Panic, request, s)
            end in
          match q with
          | Some question =>
              if isIP && (qClass =? ClassINET) then
                match hosts_Lookup (hosts d) domain opt with
                | Panic => (Panic, request, s)
                | Err e => (Err e, request, s)
                | Ok None | Ok (Some [domainAddress _]) => ask
                | Ok (Some addrs) => (ips ← toNetIP addrs; Ok (PackReply (Id m) question ips), request, s)
                end
              else ask
          | None => ask
          end
    end.

(** ** The fake DNS engine over the clients *)

(** The pools of the first client in the order that has some, or the default
    ones.
    src/app/dns/fakedns.go:88-105 FakeDNSEngine.GetFakeIPForDomain3 *)
Definition engine_group (d : DNS) (domain : bytes) (ipv4 ipv6 : bool) : outcome dns_error (option HolderMulti) :=
  order ← sortClients d domain {| IPv4Enable := ipv4; IPv6Enable := ipv6; FakeEnable := true |};
  Ok (match omap (fun i => c ← clients d !! i; fakeDNS c) order with group :: _ => Some group | [] => fakeDefault d end).

(** src/app/dns/dns.go DNS.IsOwnLink *)
Definition IsOwnLink (d : DNS) (inboundTag : option bytes) : bool :=
  match inboundTag with Some t => existsb (fun t' => bool_decide (t' = t)) (clientTags d) | None => false end.
End Dns.
