(* ===== verification/DnsFacts.v ===== *)
(** * Facts about the DNS client

    The order in which the clients are asked for a domain, against the list
    of rules of the configuration; what a lookup returns, and that it always
    returns. *)

From S2P Require Import Prelude Matchers MatcherGroups GroupFacts AcAutomaton AcFacts Mph MphFacts IndexMatchers Net NetFacts Lru FakeDns Conditions Dns.

Local Open Scope Z_scope.

(** ** What an index matcher promises *)

Section Index.
Context `{StringLibs, MphRuntime, SortSlice}.

(** The texts an index matcher is asked about. *)
Definition plain (input : bytes) : Prop := Forall (fun b => is_upper b = false) input /\ Z.of_nat (length input) <= 2 ^ 16.

(** The indices of the matchers that accept a text are those [ms] has them
    at. *)
Class Faithful (m : IndexMatcher) (ms : list Matcher) : Prop :=
  index_answers input : plain input -> exists l, index_Match m input = Some l /\ forall v, v ∈ l <-> accepted (numbered ms) input v.

Lemma linear_answers ms : lin_ok ms -> Faithful (linear_matcher (lin_add_all ms)) ms.
Proof.
  intros Hok input [_ Hin]. eexists. split; [by apply lin_Match_ok|]. intros v. by apply lin_reference_elem.
Qed.

Lemma mph_answers ms fuel g0 g : prepared ms -> mph_add_all ms = Some g0 -> mphi_Build fuel g0 = Some g -> Faithful (mph_matcher g) ms.
Proof.
  intros Hms Hadd Hb input [Hin _]. eexists. split; [reflexivity|]. intros v. by apply (mphi_Match_elem ms Hms fuel g0 g Hadd Hb input Hin).
Qed.

(** The matcher a configuration names, with matchers added to it. *)
Definition start_index (kind : bytes) : IndexMatcher :=
  if decide (kind = bs "linear") then linear_matcher NewLinearIndexMatcher else mph_matcher NewMphIndexMatcher.
Definition add_all (kind : bytes) (ms : list Matcher) : option IndexMatcher :=
  foldl (fun o r => m ← o; fst <$> index_Add m r) (Some (start_index kind)) ms.

Lemma add_all_eq kind ms : add_all kind ms = if decide (kind = bs "linear") then Some (linear_matcher (lin_add_all ms)) else mph_matcher <$> mph_add_all ms.
Proof.
  unfold add_all, start_index, lin_add_all, mph_add_all. induction ms as [|r ms IH] using rev_ind; [by case_decide|]. rewrite !foldl_snoc, IH. case_decide.
  - cbn [mbind option_bind index_Add]. by match goal with |- context [lin_Add ?g r] => destruct (lin_Add g r) end.
  - destruct (foldl _ (Some NewMphIndexMatcher) ms) as [g|]; [|done]. cbn [fmap option_fmap option_map mbind option_bind index_Add]. by destruct (mph_Add g r) as [[]|].
Qed.

Lemma index_Add_ok kind ms m r : add_all kind ms = Some m ->
  exists m', index_Add m r = Some (m', u32 (Z.of_nat (S (length ms)))) /\ add_all kind (ms ++ [r]) = Some m'.
Proof.
  intros Hm. assert (u32 (u32 (Z.of_nat (length ms)) + 1) = u32 (Z.of_nat (S (length ms)))) as Hu.
  { unfold u32. rewrite Zplus_mod_idemp_l. f_equal. lia. }
  pose proof (add_all_eq kind (ms ++ [r])) as Hnext. rewrite add_all_eq in Hm. case_decide.
  - injection Hm as <-. cbn [index_Add]. unfold lin_add_all in Hnext. rewrite foldl_snoc in Hnext. fold (lin_add_all ms) in Hnext.
    pose proof (f_equal l_count (lin_add_all_ok ms)) as Hc. cbn [l_count] in Hc. unfold lin_Add in *. rewrite Hc, Hu in *. eexists. split; [reflexivity|]. exact Hnext.
  - destruct (mph_add_all_ok ms) as (g & Hg & _ & Hc). rewrite Hg in Hm. injection Hm as <-. destruct (mph_add_all_ok (ms ++ [r])) as (g' & Hg' & _).
    rewrite Hg' in Hnext. unfold mph_add_all in Hg'. rewrite foldl_snoc in Hg'. fold (mph_add_all ms) in Hg'. rewrite Hg in Hg'. cbn [mbind option_bind] in Hg'. cbn [index_Add].
    destruct (mph_Add g r) as [[g2 id]|] eqn:Ha; [|done]. cbn [mbind option_bind] in *. injection Hg' as ->. exists (mph_matcher g'). split; [|exact Hnext].
    assert (id = u32 (m_count g + 1)) as ->; [|by rewrite Hc, Hu]. unfold mph_Add in Ha. destruct r; [destruct (mph_AddFullMatcher _ _ _); [|done]|destruct (mph_AddDomainMatcher _ _ _); [|done]| |]; by injection Ha as _ <-.
Qed.

Lemma built_answers kind ms m0 fuel m : indexable (bool_decide (kind = bs "linear")) ms -> add_all kind ms = Some m0 -> index_Build fuel m0 = Some m -> Faithful m ms.
Proof.
  intros Hms Hadd Hb. pose proof (indexable_lin _ _ Hms) as Hlin. rewrite add_all_eq in Hadd. case_decide as Hk.
  - injection Hadd as <-. injection Hb as <-. by apply linear_answers.
  - rewrite bool_decide_false in Hms by exact Hk. destruct (mph_add_all ms) as [g0|] eqn:Hg; [|done]. injection Hadd as <-. cbn in Hb. destruct (mphi_Build fuel g0) as [g|] eqn:Hbg; [|done]. injection Hb as <-.
    by eapply mph_answers.
Qed.
End Index.

(** ** The rules of a configuration *)

Section Rules.
Context `{StringLibs, MphRuntime, SortSlice}.

(** The matchers of a list of domains; what is no pattern is left out. *)
Definition made (l : list (DomainMatchingType * bytes)) : list Matcher :=
  omap (fun d => match toStrMatcher d.1 d.2 with Ok m => Some m | _ => None end) l.

Definition all_made (servers : list NameServer) : list Matcher := servers ≫= (fun ns => made (PrioritizedDomain ns)).

(** The client each of them is a rule of. *)
Fixpoint owners (client : nat) (servers : list NameServer) : list nat :=
  match servers with [] => [] | ns :: servers' => replicate (length (made (PrioritizedDomain ns))) client ++ owners (S client) servers' end.

Lemma length_owners c servers : length (owners c servers) = length (all_made servers).
Proof. revert c. induction servers as [|ns servers IH]; intros c; [done|]. cbn. rewrite !length_app, length_replicate. by rewrite IH. Qed.

Definition info_of (client rule : nat) : DomainMatcherInfo := {| clientIdx := u16 (Z.of_nat client); domainRuleIdx := u16 (Z.of_nat rule) |}.

(** The entries of the table for these rules, behind the first one. *)
Definition infos_ok (infos : list DomainMatcherInfo) (cs rs : list nat) : Prop :=
  forall k c r, cs !! k = Some c -> rs !! k = Some r -> infos !! S k = Some (info_of c r).

Lemma infos_ok_snoc infos cs rs c r : length cs = length rs -> (S (length cs) < length infos)%nat -> infos_ok infos cs rs ->
  infos_ok (<[S (length cs) := info_of c r]> infos) (cs ++ [c]) (rs ++ [r]).
Proof.
  intros Hl Hn Hok k c' r' Hc Hr. destruct (decide (k = length cs)) as [->|Hk].
  - rewrite lookup_app_r, Nat.sub_diag in Hc by lia. rewrite lookup_app_r, Hl, Nat.sub_diag in Hr by lia. injection Hc as <-. injection Hr as <-. by apply list_lookup_insert_eq.
  - pose proof (lookup_lt_Some _ _ _ Hc) as Hlt. rewrite length_app in Hlt. cbn in Hlt. rewrite list_lookup_insert_ne by lia.
    rewrite lookup_app_l in Hc by lia. rewrite lookup_app_l in Hr by lia. by apply Hok.
Qed.

(** One domain: it is left out, or has the next index and a text. *)
Lemma add_domain_ok kind client original st domain st' ms cs rs :
  add_domain (Z.of_nat client) original st domain = Ok st' -> add_all kind ms = Some (rs_matcher st) -> infos_ok (rs_infos st) cs rs ->
  length cs = length ms -> length rs = length ms -> Z.of_nat (length ms + length (made [domain])) < 2 ^ 32 -> (ruleCurr st <= length (rs_rules st) <= S (ruleCurr st))%nat ->
  exists new, length new = length (made [domain]) /\ Forall (fun r => (r < length (rs_rules st'))%nat) new /\ add_all kind (ms ++ made [domain]) = Some (rs_matcher st') /\
    infos_ok (rs_infos st') (cs ++ replicate (length new) client) (rs ++ new) /\
    (ruleCurr st' <= length (rs_rules st') <= S (ruleCurr st'))%nat /\ (length (rs_rules st) <= length (rs_rules st'))%nat /\ length (rs_infos st') = length (rs_infos st).
Proof.
  intros Had Hadd Hinfo Hcs Hrs H32 Hcur. unfold add_domain in Had. unfold made in *. cbn [omap list_omap] in *. destruct (toStrMatcher domain.1 domain.2) as [r|[]|] eqn:Hm; [| |done].
  2: { injection Had as <-. exists []. cbn. rewrite !app_nil_r. split; [done|]. split; [apply Forall_nil_2|]. split; [done|]. split; [done|lia]. }
  destruct (match original !! ruleCurr st with Some _ => _ | None => _ end) as [[rules curr] iter] eqn:Hrule. destruct (index_Add_ok kind ms (rs_matcher st) r Hadd) as (m' & Hix & Hnext). rewrite Hix in Had. cbn in H32. rewrite ?Hm in H32. cbn [length] in H32.
  assert (u32 (Z.of_nat (S (length ms))) = Z.of_nat (S (length ms))) as Hu by (unfold u32; apply Z.mod_small; lia). rewrite Hu, Nat2Z.id in Had. case_match eqn:Hlt; [|done].
  injection Had as <-. apply Z.ltb_lt in Hlt. cbn [rs_matcher rs_infos rs_rules ruleCurr]. exists [ruleCurr st].
  assert ((ruleCurr st < length rules)%nat /\ (curr <= length rules <= S curr)%nat /\ (length (rs_rules st) <= length rules)%nat) as (Hr1 & Hr2 & Hr3).
  { destruct (original !! ruleCurr st) as [[rule size]|].
    - destruct (Nat.leb_spec (length (rs_rules st)) (ruleCurr st)); destruct (_ >=? _); injection Hrule as <- <- <-; rewrite ?length_app; cbn; lia.
    - injection Hrule as <- <- <-. rewrite length_app. cbn. lia. }
  split; [done|]. split; [apply Forall_singleton; lia|]. split; [done|]. split; [|rewrite length_insert; lia]. cbn [length replicate]. rewrite <-Hcs. apply infos_ok_snoc; [by rewrite Hcs, Hrs|lia|done].
Qed.

Lemma add_domains_ok kind client original l st st' ms cs rs :
  add_domains (Z.of_nat client) original st l = Ok st' -> add_all kind ms = Some (rs_matcher st) -> infos_ok (rs_infos st) cs rs ->
  length cs = length ms -> length rs = length ms -> Z.of_nat (length ms + length (made l)) < 2 ^ 32 -> (ruleCurr st <= length (rs_rules st) <= S (ruleCurr st))%nat ->
  exists new, length new = length (made l) /\ Forall (fun r => (r < length (rs_rules st'))%nat) new /\ add_all kind (ms ++ made l) = Some (rs_matcher st') /\
    infos_ok (rs_infos st') (cs ++ replicate (length new) client) (rs ++ new) /\ (length (rs_rules st) <= length (rs_rules st'))%nat /\ length (rs_infos st') = length (rs_infos st).
Proof.
  revert st ms cs rs. induction l as [|domain l IH]; intros st ms cs rs; cbn [add_domains].
  - intros [= <-] Hadd Hinfo _ _ _ _. exists []. cbn. rewrite !app_nil_r. split; [done|]. split; [apply Forall_nil_2|]. split; [done|]. split; [done|lia].
  - intros Had Hadd Hinfo Hcs Hrs H32 Hcur. destruct (add_domain _ _ st domain) as [st1| |] eqn:He; [|done..]. cbn [mbind outcome_bind length] in *.
    assert (made (domain :: l) = made [domain] ++ made l) as Hmade by (unfold made; cbn; by destruct (toStrMatcher _ _)). rewrite Hmade, length_app in H32.
    destruct (add_domain_ok kind client original st domain st1 ms cs rs He Hadd Hinfo Hcs Hrs) as (n1 & Hl1 & Hf1 & Ha1 & Hi1 & Hc1 & Hr1 & Hli1); [lia|done|].
    destruct (IH st1 (ms ++ made [domain]) (cs ++ replicate (length n1) client) (rs ++ n1) Had Ha1 Hi1) as (n2 & Hl2 & Hf2 & Ha2 & Hi2 & Hr2 & Hli2).
    { rewrite !length_app, length_replicate. lia. } { rewrite !length_app. lia. } { rewrite length_app. lia. } { done. }
    rewrite Hmade. exists (n1 ++ n2).
    rewrite !length_app, replicate_add, !(assoc_L (++)). split; [lia|]. split; [|split; [done|split; [done|split; [lia|lia]]]].
    apply Forall_app. split; [|done]. eapply Forall_impl; [exact Hf1|]. cbn. lia.
Qed.

Lemma add_servers_ok kind client m infos servers m' infos' rules ms cs rs :
  add_servers client m infos servers = Ok (m', infos', rules) -> add_all kind ms = Some m -> infos_ok infos cs rs ->
  length cs = length ms -> length rs = length ms -> Z.of_nat (length ms + length (all_made servers)) < 2 ^ 32 ->
  exists new, length new = length (all_made servers) /\ add_all kind (ms ++ all_made servers) = Some m' /\ infos_ok infos' (cs ++ owners client servers) (rs ++ new) /\
    length rules = length servers /\
    forall k i r, owners client servers !! k = Some i -> new !! k = Some r -> exists j l, i = (client + j)%nat /\ rules !! j = Some l /\ (r < length l)%nat.
Proof.
  revert client m infos m' infos' rules ms cs rs. induction servers as [|ns servers IH]; intros client m infos m' infos' rules ms cs rs; cbn [add_servers].
  - intros [= <- <- <-] Hadd Hinfo _ _ _. exists []. cbn. rewrite !app_nil_r. by split_and!.
  - intros Had Hadd Hinfo Hcs Hrs H32. destruct (add_domains _ _ _ (PrioritizedDomain ns)) as [st| |] eqn:Hst; [|done..]. cbn [mbind outcome_bind] in Had.
    destruct (add_servers (S client) (rs_matcher st) (rs_infos st) servers) as [[[m2 infos2] rules2]| |] eqn:Hrest; [|done..]. cbn [mbind outcome_bind] in Had. injection Had as <- <- <-.
    change (all_made (ns :: servers)) with (made (PrioritizedDomain ns) ++ all_made servers) in *. rewrite length_app in H32.
    destruct (add_domains_ok kind client _ _ _ st ms cs rs Hst Hadd Hinfo Hcs Hrs) as (n1 & Hl1 & Hf1 & Ha1 & Hi1 & _ & _); [lia|cbn; lia|].
    destruct (IH (S client) _ _ _ _ _ (ms ++ made (PrioritizedDomain ns)) (cs ++ replicate (length n1) client) (rs ++ n1) Hrest Ha1 Hi1) as (n2 & Hl2 & Ha2 & Hi2 & Hlr & Hf2);
      [rewrite !length_app, length_replicate; lia|rewrite !length_app; lia|rewrite length_app; lia|].
    exists (n1 ++ n2). cbn [owners length]. rewrite length_app, !(assoc_L (++)), <-Hl1. split; [rewrite length_app; lia|]. split; [done|]. split; [done|]. split; [lia|].
    intros k i r Hk Hr. destruct (decide (k < length n1)%nat) as [Hlt|Hge].
    + rewrite lookup_app_l in Hk by (by rewrite length_replicate). rewrite lookup_app_l in Hr by done. apply lookup_replicate in Hk as [-> _].
      exists 0%nat, (rs_rules st). split; [lia|]. split; [done|]. eapply (Forall_lookup_1 _ _ _ _ Hf1 Hr).
    + rewrite lookup_app_r, length_replicate in Hk by (rewrite length_replicate; lia). rewrite lookup_app_r in Hr by lia. destruct (Hf2 _ _ _ Hk Hr) as (j & l & -> & Hj & Hl).
      exists (S j), l. split; [lia|]. by split.
Qed.
End Rules.

(** ** A client as it is made *)

Section Made.
Context `{StringLibs, MphRuntime, SortSlice, NetIPX}.

(** Every rule leads to a client that knows its text. *)
Record ordered (d : DNS) (ms : list Matcher) (own : list nat) : Prop := {
  od_answers : Faithful (domainMatcher d) ms;
  od_count : Z.of_nat (length ms) <= 2 ^ 16;
  od_own : length own = length ms;
  od_info : forall k i, own !! k = Some i -> exists info client, matcherInfos d !! S k = Some info /\ Z.to_nat (clientIdx info) = i /\
    clients d !! i = Some client /\ is_Some (domains client !! Z.to_nat (domainRuleIdx info))
}.

Lemma lookup_established cs rules geos groups i c r g f : cs !! i = Some c -> rules !! i = Some r -> geos !! i = Some g -> groups !! i = Some f ->
  all_established cs rules geos groups !! i = Some (established c r g f).
Proof.
  revert rules geos groups i. induction cs as [|c' cs IH]; intros [|r' rules] [|g' geos] [|f' groups] [|i]; cbn; try done; [by intros [= ->] [= ->] [= ->] [= ->]|by apply IH].
Qed.

Lemma length_expected c servers l : establishExpectedIPs c servers = Ok l -> length l = length servers.
Proof.
  revert c l. induction servers as [|ns servers IH]; intros c l; cbn [establishExpectedIPs]; [by intros [= <-]|].
  destruct (add_geoips c (ns_Geoip ns)) as [c' [matchers| |]]; [|done..]. destruct (establishExpectedIPs c' servers) eqn:Hr; [|done..]. cbn. intros [= <-]. cbn. by rewrite (IH _ _ Hr).
Qed.

Lemma length_fake_groups s m servers s' m' l : fake_groups s m servers = Ok (s', m', l) -> length l = length servers.
Proof.
  revert s m s' m' l. induction servers as [|ns servers IH]; intros s m s' m' l; cbn [fake_groups]; [by intros [= <- <- <-]|]. destruct (ns_FakeDns ns).
  - destruct (AddPoolMulti _ _ _ _) as [[s1 m1] [group| |]]; [|done..]. destruct (fake_groups s1 m1 servers) as [[[s2 m2] rest]| |] eqn:Hr; [|done..]. cbn. intros [= <- <- <-]. cbn. by rewrite (IH _ _ _ _ _ Hr).
  - destruct (fake_groups s m servers) as [[[s2 m2] rest]| |] eqn:Hr; [|done..]. cbn. intros [= <- <- <-]. cbn. by rewrite (IH _ _ _ _ _ Hr).
Qed.

(** The name servers with what [NewClient] fills in. *)
Definition filled (random : nat -> bytes) (config : Config) : list NameServer := imap (fun i ns => (NewClient (random i) ns config).2) (cfg_NameServer config).

Lemma u16_index i : Z.of_nat i < 2 ^ 16 -> Z.to_nat (u16 (Z.of_nat i)) = i.
Proof. intros Hi. unfold u16. rewrite Z.mod_small; lia. Qed.

Lemma New_ordered fuel random config d : New fuel random config = Ok d -> indexable (bool_decide (cfg_DomainMatcher config = bs "linear")) (all_made (filled random config)) -> Z.of_nat (length (cfg_NameServer config)) <= 2 ^ 16 ->
  ordered d (all_made (filled random config)) (owners 0 (filled random config)).
Proof.
  intros Hnew Hprep Hlen. unfold New in Hnew. destruct (NewStaticHosts _) as [h| |]; [|done..]. cbn [mbind outcome_bind] in Hnew. cbv zeta in Hnew.
  set (made := imap _ (cfg_NameServer config)) in Hnew. assert (map snd made = filled random config) as Hfilled.
  { unfold made, filled. change (map snd) with (fmap (M := list) (@snd Client NameServer)). rewrite fmap_imap. done. }
  rewrite Hfilled in Hnew. destruct (establishDomainRules _ _ _) as [[[m infos] rules]| |] eqn:Hrules; [|done..]. destruct (establishExpectedIPs _ _) as [geos| |] eqn:Hgeos; [|done..].
  destruct (establishFakeDNS _ _) as [[[[s holders] def] groups]| |] eqn:Hfake; [|done..]. injection Hnew as <-. set (servers := filled random config) in *.
  assert (length servers = length (cfg_NameServer config)) as Hsl by apply length_imap.
  pose proof (lo_count _ (indexable_lin _ _ Hprep)) as Hcount. unfold establishDomainRules in Hrules. cbv zeta in Hrules.
  destruct (add_servers _ _ _ servers) as [[[m1 infos1] rules1]| |] eqn:Hadd; [|done..]. cbn [mbind outcome_bind] in Hrules. destruct (index_Build fuel m1) as [m2|] eqn:Hb; [|done]. injection Hrules as <- <- <-.
  destruct (add_servers_ok (cfg_DomainMatcher config) 0 _ _ servers m1 infos1 rules1 [] [] [] Hadd) as (new & Hnl & Hall & Hinfo & Hrl & Hown); [done|by intros ? ? ?|done|done|cbn; lia|]. cbn [app] in *.
  split; cbn [domainMatcher matcherInfos clients].
  - by eapply built_answers.
  - done.
  - apply length_owners.
  - intros k i Hk. destruct (lookup_lt_is_Some_2 new k) as [r Hr]; [rewrite Hnl, <-(length_owners 0); by eapply lookup_lt_Some|]. destruct (Hown k i r Hk Hr) as (j & l & -> & Hj & Hl). cbn [Nat.add] in *.
    pose proof (lookup_lt_Some _ _ _ Hj) as Hjl. rewrite Hrl in Hjl. assert (length geos = length servers) as Hgl by (by eapply length_expected).
    assert (length groups = length servers) as Hfl. { unfold establishFakeDNS in Hfake. destruct (match cfg_FakeDns config with Some _ => _ | None => _ end) as [[[s0 m0] def0]| |]; [|done..]. cbn [mbind outcome_bind] in Hfake.
      destruct (fake_groups s0 m0 servers) as [[[s3 m3] groups3]| |] eqn:Hg; [|done..]. injection Hfake as <- <- <- <-. by eapply length_fake_groups. }
    destruct (lookup_lt_is_Some_2 geos j) as [g Hg]; [lia|]. destruct (lookup_lt_is_Some_2 groups j) as [f Hf]; [lia|].
    destruct (lookup_lt_is_Some_2 (cfg_NameServer config) j) as [ns Hns]; [lia|].
    assert (match made with [] => [NewLocalDNSClient] | _ => map fst made end !! j = Some (NewClient (random j) ns config).1) as Hc.
    { assert (map fst made !! j = Some (NewClient (random j) ns config).1) as Hx.
      { unfold made. change (map fst) with (fmap (M := list) (@fst Client NameServer)). rewrite list_lookup_fmap, list_lookup_imap, Hns. done. }
      destruct made; [done|exact Hx]. }
    eexists (info_of j r), _. split; [by apply (Hinfo k)|]. split; [apply u16_index; lia|]. split; [exact (lookup_established _ _ _ _ _ _ _ _ _ Hc Hj Hg Hf)|].
    apply lookup_lt_is_Some_2. cbn [established domains info_of domainRuleIdx]. unfold u16. pose proof (Z.mod_le (Z.of_nat r) (2 ^ 16)). lia.
Qed.
End Made.

(** ** The order of the clients *)

Section Order.
Context `{StringLibs, MphRuntime, SortSlice, NetIPX}.
Context (d : DNS) (ms : list Matcher) (own : list nat) (Hd : ordered d ms own).

(** A client that may be asked at all. *)
Definition may_ask (opt : IPOption) (i : nat) : Prop := exists c, clients d !! i = Some c /\ (FakeEnable opt = true \/ isFake c = false).

(** The rule an index stands for. *)
Lemma index_rule v m : (m, v) ∈ numbered ms -> exists k i, v = Z.of_nat (S k) /\ ms !! k = Some m /\ own !! k = Some i.
Proof.
  intros (k & m' & [= <- ->] & Hm)%elem_of_lookup_imap. pose proof (lookup_lt_Some _ _ _ Hm). destruct (lookup_lt_is_Some_2 own k) as [i Hi]; [rewrite (od_own _ _ _ Hd); lia|].
  exists k, i. split; [|done]. pose proof (od_count _ _ _ Hd). unfold u32. apply Z.mod_small. lia.
Qed.

Lemma matched_clients_ok opt matches used : length used = length (clients d) -> (forall v, v ∈ matches -> exists m, (m, v) ∈ numbered ms) ->
  exists l used', matched_clients d opt used matches = Ok (l, used') /\ NoDup l /\ length used' = length used /\
    (forall i, i ∈ l <-> used !! i = Some false /\ may_ask opt i /\ exists v k, v ∈ matches /\ v = Z.of_nat (S k) /\ own !! k = Some i) /\
    (forall i, used' !! i = Some true <-> used !! i = Some true \/ i ∈ l).
Proof.
  revert used. induction matches as [|v matches IH]; intros used Hused Hin; cbn [matched_clients].
  { exists [], used. split; [done|]. split; [constructor|]. split; [done|]. split; [|set_solver]. intros i. rewrite elem_of_nil. split; [done|]. by intros (_ & _ & v & k & Hv%elem_of_nil & _). }
  destruct (Hin v) as [m Hm]; [by left|]. destruct (index_rule v m Hm) as (k & i & Hv & _ & Hi). destruct (od_info _ _ _ Hd k i Hi) as (info & c & Hinfo & Hci & Hc & [t Ht]).
  rewrite Hv, Nat2Z.id, Hinfo, Hci, Hc, Ht. destruct (lookup_lt_is_Some_2 used i) as [u Hu]; [rewrite Hused; by eapply lookup_lt_Some|]. rewrite Hu. rewrite <-Hv.
  destruct (u || negb (FakeEnable opt) && isFake c) eqn:Hskip.
  - destruct (IH used Hused) as (l & used' & -> & Hnd & Hlen & Hl & Hu'); [intros; apply Hin; by right|]. exists l, used'. split_and!; try done. intros i'. rewrite Hl.
    split; intros (H1' & H2' & v' & k' & Hv' & Hk'); (split; [done|]; split; [done|]); [exists v', k'; split; [by right|done]|].
    apply elem_of_cons in Hv' as [->|Hv']; [|by exists v', k']. destruct Hk' as [Hvk Hk']. assert (k' = k) as -> by lia. assert (i' = i) as -> by congruence. exfalso.
    rewrite Hu in H1'. injection H1' as ->. destruct H2' as (c' & Hc' & Hf). assert (c' = c) as -> by congruence. cbn in Hskip. destruct Hf as [Hf|Hf]; rewrite Hf in Hskip; [done|by rewrite andb_false_r in Hskip].
  - apply orb_false_iff in Hskip as [-> Hfake]. destruct (IH (<[i := true]> used)) as (l & used' & -> & Hnd & Hlen & Hl & Hu'); [by rewrite length_insert|intros; apply Hin; by right|]. cbn [mbind outcome_bind].
    pose proof (lookup_lt_Some _ _ _ Hu) as Hlt. exists (i :: l), used'. split; [done|]. split; [|split; [by rewrite Hlen, length_insert|split]].
    + constructor; [|done]. rewrite Hl. intros [Hx _]. by rewrite list_lookup_insert_eq in Hx.
    + intros i'. rewrite elem_of_cons, Hl. split.
      * intros [->|(H1' & H2' & v' & k' & Hv' & Hk')].
        -- split; [done|]. split; [|exists v, k; split; [by left|done]]. exists c. split; [done|]. destruct (FakeEnable opt); [by left|right]. by destruct (isFake c).
        -- destruct (decide (i' = i)) as [->|Hne]; [by rewrite list_lookup_insert_eq in H1'|]. rewrite list_lookup_insert_ne in H1' by done. split; [done|]. split; [done|]. exists v', k'. split; [by right|done].
      * intros (H1' & H2' & v' & k' & Hv' & Hk'). destruct (decide (i' = i)) as [->|Hne]; [by left|right]. rewrite list_lookup_insert_ne by done. split; [done|]. split; [done|].
        apply elem_of_cons in Hv' as [->|Hv']; [|by exists v', k']. destruct Hk' as [Hvk Hk']. assert (k' = k) as -> by lia. congruence.
    + intros i'. rewrite Hu', elem_of_cons. destruct (decide (i' = i)) as [->|Hne]; [rewrite list_lookup_insert_eq by done; tauto|rewrite list_lookup_insert_ne by done; tauto].
Qed.

(** A rule of the client accepts the domain. *)
Definition claims (domain : bytes) (i : nat) : Prop := exists k m, ms !! k = Some m /\ own !! k = Some i /\ matcher_Match m (ToLower domain) = true.

(** Whether a client is asked although no rule of its own accepts. *)
Definition left_over (opt : IPOption) (matched : list nat) (i : nat) : bool :=
  bool_decide (i ∉ matched) && match clients d !! i with Some c => asked_anyway opt (0 <? length matched)%nat c | None => false end.

Lemma sortClients_ok domain opt : plain (ToLower domain) ->
  exists matched, sortClients d domain opt = Ok (matched ++ filter (fun i => left_over opt matched i = true) (seq 0 (length (clients d)))) /\
    NoDup matched /\ forall i, i ∈ matched <-> claims domain i /\ may_ask opt i.
Proof.
  intros Hp. unfold sortClients. destruct (od_answers _ _ _ Hd _ Hp) as (l & -> & Hl).
  destruct (matched_clients_ok opt l (replicate (length (clients d)) false)) as (matched & used & -> & Hnd & Hlen & Hin & Hused); [apply length_replicate|intros v (m & ? & _)%Hl; by exists m|].
  cbn [mbind outcome_bind]. exists matched. split; [|split; [done|]].
  - do 2 f_equal. set (n := length (clients d)) in *. rewrite length_replicate in Hlen.
    assert (forall i c, clients d !! i = Some c -> (negb (default false (used !! i)) && asked_anyway opt (0 <? length matched)%nat c) = left_over opt matched i) as Heq.
    { intros i c Hc. unfold left_over. rewrite Hc. f_equal. destruct (lookup_lt_is_Some_2 used i) as [u Hu]; [rewrite Hlen; by eapply lookup_lt_Some|]. rewrite Hu. cbn.
      specialize (Hused i). rewrite lookup_replicate_2 in Hused by (by eapply lookup_lt_Some). destruct u; [rewrite bool_decide_false; [done|]|rewrite bool_decide_true; [done|]].
      - destruct Hused as [[?|?] _]; [done|done|tauto].
      - intros Hx. destruct Hused as [_ Hux]. rewrite Hux in Hu by (by right). done. }
    clear Hin Hl. assert (forall cs k, (forall j c, cs !! j = Some c -> clients d !! (k + j)%nat = Some c) ->
      omap (fun '(i, client) => if negb (default false (used !! i)) && asked_anyway opt (0 <? length matched)%nat client then Some i else None) (imap (fun i client => ((k + i)%nat, client)) cs) =
      filter (fun i => left_over opt matched i = true) (seq k (length cs))) as Hgen.
    { induction cs as [|c cs IH]; intros k Hk; [done|]. cbn [imap length seq]. rewrite filter_cons, Nat.add_0_r. cbn [omap list_omap].
      pose proof (Hk 0%nat c eq_refl) as Hc. rewrite Nat.add_0_r in Hc. rewrite (Heq k c Hc).
      assert (imap (fun i client => ((k + S i)%nat, client)) cs = imap (fun i client => ((S k + i)%nat, client)) cs) as Hsh by (apply imap_ext; intros; cbn; f_equal; lia).
      assert (imap ((fun i client => ((k + i)%nat, client)) ∘ S) cs = imap (fun i client => ((S k + i)%nat, client)) cs) as -> by exact Hsh.
      rewrite (IH (S k)). 2: { intros j c' Hj. rewrite Nat.add_succ_comm. by apply Hk. } destruct (left_over opt matched k); [by rewrite decide_True|by rewrite decide_False]. }
    specialize (Hgen (clients d) 0%nat ltac:(done)). exact Hgen.
  - intros i. rewrite Hin. split.
    + intros (_ & Hm & v & k & Hv & -> & Hk). split; [|done]. apply Hl in Hv as (m & Hnum & Hacc). destruct (index_rule _ m Hnum) as (k' & i' & Hkk & Hmk & Hik). assert (k' = k) as -> by lia.
      assert (i' = i) as -> by congruence. by exists k, m.
    + intros [(k & m & Hmk & Hk & Hacc) Hm]. split; [|split; [done|]].
      * apply lookup_replicate_2. destruct Hm as (c & Hc & _). by eapply lookup_lt_Some.
      * exists (Z.of_nat (S k)), k. split; [|done]. apply Hl. exists m. split; [|done]. apply elem_of_lookup_imap. exists k, m. split; [|done]. f_equal. pose proof (od_count _ _ _ Hd).
        pose proof (lookup_lt_Some _ _ _ Hmk). unfold u32. symmetry. apply Z.mod_small. lia.
Qed.
End Order.

(** ** Static hosts *)

Section Hosts.
Context `{StringLibs, MphRuntime, SortSlice}.

(** The mappings whose pattern is one, with it. *)
Definition mapped (hosts : list HostMapping) : list (Matcher * HostMapping) :=
  omap (fun mp => match toStrMatcher (hm_Type mp) (hm_Domain mp) with Ok m => Some (m, mp) | _ => None end) hosts.

(** The mappings that have been added. *)
Record filled_hosts (sh : StaticHosts) (mps : list (Matcher * HostMapping)) : Prop := {
  fh_matchers : host_matchers sh = lin_add_all mps.*1;
  fh_ips : forall k m mp, mps !! k = Some (m, mp) -> exists l, mapping_ips mp = Ok l /\ ips sh !! S k = Some l
}.

Lemma add_mappings_ok sh hosts sh' mps : add_mappings sh hosts = Ok sh' -> filled_hosts sh mps -> Z.of_nat (length mps + length (mapped hosts)) < 2 ^ 32 ->
  filled_hosts sh' (mps ++ mapped hosts).
Proof.
  revert sh mps. induction hosts as [|mp hosts IH]; intros sh mps; cbn [add_mappings]; [intros [= <-] ? _; by rewrite app_nil_r|]. unfold add_mapping, mapped. cbn [omap list_omap].
  destruct (toStrMatcher (hm_Type mp) (hm_Domain mp)) as [m|[]|]; [|cbn [mbind outcome_bind]; intros Hadd Hf H32; by apply (IH sh)|done].
  destruct (lin_Add (host_matchers sh) m) as [g id] eqn:Hl. destruct (mapping_ips mp) as [l| |] eqn:Hips; [|done..]. cbn [mbind outcome_bind]. case_match eqn:Hlt; [|done]. cbn [mbind outcome_bind].
  intros Hadd [Hm Hi] H32. fold (mapped hosts) in *. cbn [length] in H32. change ((m, mp) :: mapped hosts) with ([(m, mp)] ++ mapped hosts). rewrite (assoc_L (++)). apply (IH _ _ Hadd); [|rewrite length_app; cbn; lia].
  apply Z.ltb_lt in Hlt. assert (g = lin_add_all (mps.*1 ++ [m]) /\ id = Z.of_nat (S (length mps))) as [-> ->].
  { rewrite Hm in Hl. pose proof (f_equal l_count (lin_add_all_ok mps.*1)) as Hc. cbn [l_count] in Hc. unfold lin_add_all. rewrite foldl_snoc. fold (lin_add_all mps.*1). rewrite Hl. split; [done|].
    unfold lin_Add in Hl. injection Hl as _ <-. rewrite Hc, length_fmap. unfold u32. rewrite Zplus_mod_idemp_l, Z.mod_small; lia. }
  rewrite Nat2Z.id. split; cbn [host_matchers ips]; [by rewrite fmap_app|]. intros k m' mp' Hk. destruct (decide (k = length mps)) as [->|Hne].
  - rewrite lookup_app_r, Nat.sub_diag in Hk by lia. injection Hk as <- <-. exists l. split; [done|]. apply list_lookup_insert_eq. lia.
  - pose proof (lookup_lt_Some _ _ _ Hk) as Hkl. rewrite length_app in Hkl. cbn in Hkl. rewrite lookup_app_l in Hk by lia. rewrite list_lookup_insert_ne by lia. by apply (Hi k m').
Qed.

Section Lookups.
Context (hosts : list HostMapping) (h : StaticHosts) (Hnew : NewStaticHosts hosts = Ok h) (Hok : lin_ok (mapped hosts).*1).

Lemma hosts_filled : filled_hosts h (mapped hosts).
Proof.
  change (mapped hosts) with ([] ++ mapped hosts). eapply add_mappings_ok; [exact Hnew|by split|]. pose proof (lo_count _ Hok) as Hc. rewrite length_fmap in Hc. cbn. lia.
Qed.

(** The addresses of a mapping whose pattern accepts the domain. *)
Definition mapped_to (domain : bytes) (a : Address) : Prop :=
  exists m mp l, (m, mp) ∈ mapped hosts /\ matcher_Match m (ToLower domain) = true /\ mapping_ips mp = Ok l /\ a ∈ l.

Lemma lookupInternal_ok {E} domain : Z.of_nat (length (ToLower domain)) <= 2 ^ 16 -> exists l, lookupInternal (E := E) h domain = Ok l /\ forall a, a ∈ l <-> mapped_to domain a.
Proof.
  intros Hlen. destruct hosts_filled as [Hm Hi]. unfold lookupInternal. rewrite Hm, (lin_Match_ok _ _ Hok Hlen). pose proof (lo_count _ Hok) as Hc.
  assert (forall v, v ∈ lin_reference (mapped hosts).*1 (ToLower domain) <-> exists k m mp l, v = Z.of_nat (S k) /\ mapped hosts !! k = Some (m, mp) /\ matcher_Match m (ToLower domain) = true /\
    mapping_ips mp = Ok l /\ ips h !! S k = Some l) as Hv.
  { intros v. rewrite (lin_reference_elem _ _ _ Hok). unfold accepted, numbered. split.
    - intros (m & (k & m' & [= <- ->] & Hk)%elem_of_lookup_imap & Hacc). pose proof (lookup_lt_Some _ _ _ Hk). apply list_lookup_fmap_Some in Hk as ([m' mp] & -> & Hk). destruct (Hi k m' mp Hk) as (l & Hl & Hil).
      exists k, m', mp, l. split; [|done]. unfold u32. apply Z.mod_small. lia.
    - intros (k & m & mp & l & -> & Hk & Hacc & _). exists m. split; [|done]. apply elem_of_lookup_imap. exists k, m. pose proof (lookup_lt_Some _ _ _ Hk) as Hlt. rewrite length_fmap in Hc.
      split; [|by rewrite list_lookup_fmap, Hk]. f_equal. unfold u32. symmetry. apply Z.mod_small. lia. }
  assert (forall ids, (forall v, v ∈ ids -> v ∈ lin_reference (mapped hosts).*1 (ToLower domain)) -> exists l,
    foldr (fun id (acc : outcome E (list Address)) => match ips h !! Z.to_nat id with None => Panic | Some l => r ← acc; Ok (l ++ r) end) (Ok []) ids = Ok l /\
    forall a, a ∈ l <-> exists v l', v ∈ ids /\ ips h !! Z.to_nat v = Some l' /\ a ∈ l') as Hfold.
  { induction ids as [|v ids IH]; intros Hall; cbn [foldr]; [exists []; split; [done|]; intros a; split; [by intros ?%elem_of_nil|by intros (v & l' & ?%elem_of_nil & _)]|].
    destruct IH as (l & -> & Hl); [intros; apply Hall; by right|]. destruct (Hv v) as [Hv1 _]. destruct (Hv1 (Hall v ltac:(by left))) as (k & m & mp & l' & -> & _ & _ & _ & Hk). rewrite Nat2Z.id, Hk. cbn [mbind outcome_bind].
    exists (l' ++ l). split; [done|]. intros a. rewrite elem_of_app, Hl. split.
    - intros [Ha|(v & l2 & Hv2 & Hl2)]; [exists (Z.of_nat (S k)), l'; rewrite Nat2Z.id; split; [by left|done]|exists v, l2; split; [by right|done]].
    - intros (v & l2 & [->|Hv2]%elem_of_cons & Hl2 & Ha); [left; rewrite Nat2Z.id, Hk in Hl2; by injection Hl2 as ->|right; by exists v, l2]. }
  destruct (Hfold _ ltac:(done)) as (l & -> & Hl). exists l. split; [done|]. intros a. rewrite Hl. unfold mapped_to. split.
  - intros (v & l' & Hv' & Hlk & Ha). apply Hv in Hv' as (k & m & mp & l2 & -> & Hk & Hacc & Hmp & Hk2). rewrite Nat2Z.id, Hk2 in Hlk. injection Hlk as ->. exists m, mp, l'. split; [by eapply list_elem_of_lookup_2|done].
  - intros (m & mp & l' & Hin & Hacc & Hmp & Ha). apply list_elem_of_lookup in Hin as [k Hk]. destruct (Hi k m mp Hk) as (l2 & Hl2 & Hil). assert (l2 = l') as -> by congruence.
    exists (Z.of_nat (S k)), l'. rewrite Nat2Z.id. split; [|done]. apply Hv. by exists k, m, mp, l'.
Qed.

(** What the hosts make of a domain, replaced by one name after another and
    [n] times more at most: the name that is then asked about, or addresses. *)
Inductive hosts_say : nat -> bytes -> bytes + list Address -> Prop :=
  | say_nothing n d : lookupInternal (E := dns_error) h d = Ok [] -> hosts_say n d (inl d)
  | say_last d d' : lookupInternal (E := dns_error) h d = Ok [domainAddress d'] -> hosts_say 0 d (inl d')
  | say_next n d d' r : lookupInternal (E := dns_error) h d = Ok [domainAddress d'] -> hosts_say n d' r -> hosts_say (S n) d r
  | say_addresses n d l : lookupInternal (E := dns_error) h d = Ok l -> l ≠ [] -> (forall d', l ≠ [domainAddress d']) -> hosts_say n d (inr l).

Lemma hosts_say_fun n d r r' : hosts_say n d r -> hosts_say n d r' -> r = r'.
Proof.
  intros Hr. revert r'. induction Hr as [n d Hl|d d' Hl|n d d' r Hl Hr IH|n d l Hl Hne Hnd]; intros r' Hr'; inversion Hr'; subst;
    (match goal with Ha : lookupInternal h ?x = _, Hb : lookupInternal h ?x = _ |- _ => rewrite Ha in Hb; simplify_eq end);
    try done; first [by apply IH|exfalso; match goal with Hx : forall d', _ ≠ [domainAddress d'] |- _ => by eapply Hx end].
Qed.

(** What the names of the configuration must be for the matchers. *)
Definition names_plain : Prop := Forall (fun mp => plain (ToLower (ProxiedDomain mp))) hosts.

Lemma replaced_plain domain d' : plain (ToLower domain) -> names_plain -> mapped_to domain (domainAddress d') -> plain (ToLower d').
Proof.
  intros Hp Hn (m & mp & l & Hin & _ & Hl & Ha). apply list_elem_of_omap in Hin as (mp' & Hin & Hmp). destruct (toStrMatcher _ _) as [m'| |]; [|done..]. injection Hmp as -> ->.
  assert (ProxiedDomain mp = d') as <-; [|by apply (proj1 (Forall_forall _ _) Hn)]. unfold mapping_ips in Hl. destruct (ProxiedDomain mp) as [|x y].
  - exfalso. assert (all_ips (hm_Ip mp) = Ok l) as Hall by (by destruct (hm_Ip mp)). clear Hl. revert l Hall Ha. induction (hm_Ip mp) as [|ip bs IH]; intros l Hl Ha; cbn [all_ips] in Hl.
    { injection Hl as <-. by apply elem_of_nil in Ha. }
    destruct (IPAddress ip) as [addr|] eqn:Haddr; [|done]. destruct (all_ips bs) as [r| |]; [|done..]. injection Hl as <-. apply elem_of_cons in Ha as [<-|Ha]; [|by apply (IH r)].
    unfold IPAddress in Haddr. by repeat case_match.
  - injection Hl as <-. apply list_elem_of_singleton in Ha. by injection Ha as ->.
Qed.

(** The lookup among the hosts gives that, the addresses of the families that
    are asked for. *)
Lemma hosts_lookup_ok n domain opt : names_plain -> plain (ToLower domain) -> exists r res, hosts_say n domain r /\ hosts_lookup (E := dns_error) n h domain opt = Ok res /\
  match r with
  | inl e => plain (ToLower e) /\ (res = None /\ e = domain \/ res = Some [domainAddress e])
  | inr l => res = Some (filterIP l opt) /\ forall a, a ∈ l -> exists d, mapped_to d a
  end.
Proof.
  intros Hnames. revert domain. induction n as [|n IH]; intros domain Hp; cbn [hosts_lookup]; destruct (lookupInternal_ok (E := dns_error) domain (proj2 Hp)) as (addrs & Hl & Hin); rewrite Hl; cbn [mbind outcome_bind].
  all: assert (forall d', addrs = [domainAddress d'] -> plain (ToLower d')) as Hplain by (intros d' ->; apply (replaced_plain domain); [done|done|apply Hin; by left]).
  all: assert (forall a, a ∈ addrs -> exists d, mapped_to d a) as Hmapped by (intros a Ha; exists domain; by apply Hin).
  all: destruct addrs as [|[ip|ip|d'] [|a2 addrs]]; try (exists (inl domain), None; split; [by apply say_nothing|]; split; [reflexivity|]; split; [exact Hp|]; left; by split);
    try (by eexists (inr _), _; split; [by eapply say_addresses; [exact Hl|done|intros ? [=]]|]; split; [reflexivity|]; split; [reflexivity|exact Hmapped]).
  - eexists (inl d'), _. split; [by apply say_last|]. split; [reflexivity|]. split; [by apply Hplain|by right].
  - destruct (IH d' (Hplain d' eq_refl)) as (r & res & Hr & -> & Hres). cbn [mbind outcome_bind]. exists r, (match res with Some u => Some u | None => Some [domainAddress d'] end). split; [by eapply say_next|]. split; [by destruct res|].
    destruct r as [e|l]; [|by destruct Hres as [-> Hres]; split]. destruct Hres as [He [[-> ->] | ->]]; (split; [exact He|by right]).
Qed.

(** The families that are asked for. *)
Definition family_asked (opt : IPOption) (f : AddressFamily) : bool :=
  match f with AddressFamilyIPv4 => IPv4Enable opt | AddressFamilyIPv6 => IPv6Enable opt | AddressFamilyDomain => false end.

Lemma toNetIP_filter l opt : toNetIP (filterIP l opt) = Ok (omap IP (filter (fun a => family_asked opt (Family a) = true) l)).
Proof.
  unfold filterIP. change (fun ip => _ = true) with (fun a => family_asked opt (Family a) = true). induction l as [|a l IH]; [done|]. rewrite !filter_cons.
  destruct (decide (family_asked opt (Family a) = true)) as [Ha|Ha]; [rewrite ?decide_True by exact Ha|rewrite ?decide_False by exact Ha; exact IH]. destruct a as [ip|ip|x]; [| |done]; cbn [toNetIP IP omap list_omap]; rewrite IH; done.
Qed.

(** An address of the families asked for, as it is given out. *)
Definition ip_asked (opt : IPOption) (ip : bytes) : Prop := length ip = 4%nat /\ IPv4Enable opt = true \/ length ip = 16%nat /\ IPv6Enable opt = true.

Lemma IPAddress_length b a : IPAddress b = Some a -> match a with ipv4Address ip => length ip = 4%nat | ipv6Address ip => length ip = 16%nat | domainAddress _ => False end.
Proof.
  unfold IPAddress. destruct (Nat.eqb_spec (length b) 4); [by intros [= <-]|]. destruct (Nat.eqb_spec (length b) 16); [|done].
  destruct (_ && _); intros [= <-]; [rewrite length_drop; lia|done].
Qed.

Lemma mapped_asked opt domain a ip : mapped_to domain a -> IP a = Some ip -> family_asked opt (Family a) = true -> ip_asked opt ip.
Proof.
  intros (m & mp & l & _ & _ & Hl & Ha) Hip Hf. destruct a as [ip'|ip'|x]; [injection Hip as ->..|done]; unfold mapping_ips in Hl.
  all: assert (all_ips (hm_Ip mp) = Ok l) as Hall by (destruct (ProxiedDomain mp); [by destruct (hm_Ip mp)|injection Hl as <-; by apply list_elem_of_singleton in Ha]).
  all: clear Hl; revert l Hall Ha; induction (hm_Ip mp) as [|b bs IH]; intros l Hl Ha; cbn [all_ips] in Hl; [injection Hl as <-; by apply elem_of_nil in Ha|].
  all: destruct (IPAddress b) as [addr|] eqn:Haddr; [|done]; destruct (all_ips bs) as [r| |]; [|done..]; injection Hl as <-; apply elem_of_cons in Ha as [<-|Ha]; [|by apply (IH r)].
  all: apply IPAddress_length in Haddr; first [by left|by right].
Qed.
End Lookups.
End Hosts.

(** ** Lookups *)

Section Answering.
Context `{StringLibs, MphRuntime, SortSlice, NetIPX} {S : Type}.
Context (query : nat -> bool -> bytes -> bytes -> IPOption -> bool -> S -> answer * S) (closed : S -> bool) (later : S -> Z).

(** What the server of a client answers: it is asked for the families of the
    query that are enabled for the client. *)
Definition asked_for (c : Client) (opt : IPOption) : IPOption := option_With opt (queryStrategy c).
Definition reply (i : nat) (c : Client) (domain : bytes) (opt : IPOption) (s : S) : answer * S :=
  query i (FakeEnable (asked_for c opt) && bool_decide (is_Some (fakeDNS c))) domain (clientIP c) (asked_for c opt)
    (match cacheStrategy c with CacheDisabled => true | CacheEnabled => false end) s.

(** What is kept of an answer: the addresses that are expected of the client,
    if any are; an answer with an error, or of a client that may give fake
    addresses, is kept as it is. *)
Definition kept (c : Client) (opt : IPOption) (a : answer) (ip : bytes) : Prop :=
  a_err a ≠ None \/ FakeEnable (asked_for c opt) = true \/ expectIPs c = [] \/ existsb (fun m => geo_Match m ip) (expectIPs c) = true.
#[local] Instance kept_dec c opt a ip : Decision (kept c opt a ip).
Proof. unfold kept. apply _. Defined.

(** Whether the next client is asked after an answer of which nothing is kept:
    after a timeout, or an answer without an expected address. *)
Definition goes_on (c : Client) (opt : IPOption) (a : answer) : Prop :=
  match a_err a with
  | Some errCanceled | Some errDeadlineExceeded | Some errExpectedIPNonMatch => True
  | Some _ => False
  | None => FakeEnable (asked_for c opt) = false /\ expectIPs c ≠ []
  end.

(** The addresses are what is kept of the answer of the first client in the
    order of whose answer anything is, and the lookup goes on from every
    client before it. *)
Inductive first_answer (d : DNS) (domain : bytes) (opt : IPOption) (got : list bytes) : list nat -> S -> Prop :=
  | answer_here i order c s : clients d !! i = Some c -> closed s = false -> option_IsValid (asked_for c opt) = true ->
      got = filter (kept c opt (reply i c domain opt s).1) (a_ips (reply i c domain opt s).1) -> first_answer d domain opt got (i :: order) s
  | answer_later i order c s : clients d !! i = Some c -> closed s = false -> option_IsValid (asked_for c opt) = true ->
      filter (kept c opt (reply i c domain opt s).1) (a_ips (reply i c domain opt s).1) = [] -> goes_on c opt (reply i c domain opt s).1 ->
      first_answer d domain opt got order (reply i c domain opt s).2 -> first_answer d domain opt got (i :: order) s.

Definition passes (e : option dns_error) : bool := match e with Some errCanceled | Some errDeadlineExceeded | Some errExpectedIPNonMatch => true | _ => false end.

Lemma all_kept c opt a : (forall ip, kept c opt a ip) -> filter (kept c opt a) (a_ips a) = a_ips a.
Proof. intros Hk. induction (a_ips a) as [|ip l IH]; [done|]. by rewrite filter_cons, decide_True, IH. Qed.

Lemma QueryIPWithTTL_ok i c domain opt s : let r := QueryIPWithTTL query i c domain opt s in
  if option_IsValid (asked_for c opt) then
    let a := (reply i c domain opt s).1 in
    r.2 = (reply i c domain opt s).2 /\ a_ips r.1 = filter (kept c opt a) (a_ips a) /\ (a_ips r.1 = [] -> passes (a_err r.1) = true <-> goes_on c opt a)
  else a_ips r.1 = [] /\ passes (a_err r.1) = false.
Proof.
  unfold QueryIPWithTTL, reply. cbv zeta. fold (asked_for c opt). destruct (option_IsValid (asked_for c opt)); cbn [negb]; [|by split].
  destruct (query _ _ _ _ _ _ s) as [a s'] eqn:Hq. unfold goes_on. destruct (bool_decide (a_err a ≠ None) || FakeEnable (asked_for c opt)) eqn:Hd; cbn [fst snd].
  - split; [done|]. assert (filter (kept c opt a) (a_ips a) = a_ips a) as ->.
    { apply all_kept. intros ip. apply orb_true_iff in Hd as [Hd%bool_decide_eq_true|Hd]; [by left|by right; left]. }
    split; [done|]. intros _. apply orb_true_iff in Hd. destruct (a_err a) as [[]|]; try done. destruct Hd as [Hd%bool_decide_eq_true|Hd]; [done|]. rewrite Hd. by split; [|intros [? _]].
  - apply orb_false_iff in Hd as [Herr%bool_decide_eq_false Hfake]. assert (a_err a = None) as Hnone by (destruct (a_err a); [by destruct Herr|done]). rewrite Hnone, Hfake. unfold MatchExpectedIPs.
    destruct (expectIPs c) as [|m matchers] eqn:He; cbn [fst snd a_ips a_err].
    + split; [done|]. assert (filter (kept c opt a) (a_ips a) = a_ips a) as -> by (apply all_kept; intros ip; by right; right; left).
      split; [done|]. intros _. by split; [|intros [_ ?]].
    + assert (filter (kept c opt a) (a_ips a) = filter (fun ip => existsb (fun m => geo_Match m ip) (m :: matchers) = true) (a_ips a)) as ->.
      { apply list_filter_iff. intros ip. unfold kept. rewrite Hnone, Hfake, He. naive_solver. }
      destruct (filter _ (a_ips a)) as [|x l]; cbn [fst snd a_ips a_err]; (split; [done|]; split; [done|]); [intros _; by split|done].
Qed.

Lemma ask_clients_ok d order failed domain opt s : (forall i, i ∈ order -> is_Some (clients d !! i)) ->
  exists a s', ask_clients query closed d order failed domain opt s = Ok (a, s') /\ (a_ips a ≠ [] -> a_err a = None) /\
    forall got, got ≠ [] -> (a_ips a = got <-> first_answer d domain opt got order s).
Proof.
  revert failed s. induction order as [|i order IH]; intros failed s Hin; cbn [ask_clients].
  { eexists _, _. split; [reflexivity|]. split; [done|]. intros got Hg. cbn [a_ips]. split; [by intros <-|]. intros Hf. inversion Hf. }
  destruct (Hin i) as [c Hc]; [by left|]. rewrite Hc. destruct (closed s) eqn:Hcl.
  { eexists _, _. split; [reflexivity|]. split; [done|]. intros got Hg. cbn [a_ips]. split; [by intros <-|]. intros Hf. inversion Hf; congruence. }
  pose proof (QueryIPWithTTL_ok i c domain opt s) as Hq. cbv zeta in Hq. destruct (QueryIPWithTTL query i c domain opt s) as [a s1]. cbn [fst snd] in Hq.
  assert (forall got order', first_answer d domain opt got (i :: order') s -> option_IsValid (asked_for c opt) = true) as Hvalid by (intros got order' Hf; inversion Hf; congruence).
  destruct (option_IsValid (asked_for c opt)) eqn:Hv.
  2: { destruct Hq as [Hips Herr]. rewrite Hips. assert (exists a' s', (match a_err a with Some errCanceled | Some errDeadlineExceeded | Some errExpectedIPNonMatch => ask_clients query closed d order true domain opt s1
         | err => Ok ({| a_ips := []; expireAt := expireAt a; a_err := err |}, s1) end) = Ok (a', s') /\ a_ips a' = []) as (a' & s' & -> & Ha').
       { destruct (a_err a) as [[]|]; first [discriminate Herr|by eexists _, _]. }
       exists a', s'. split; [done|]. rewrite Ha'. split; [done|]. intros got Hg. split; [by intros <-|]. intros Hf%Hvalid. done. }
  destruct Hq as (-> & Hips & Hpass). destruct (a_ips a) as [|x l] eqn:Hl.
  - assert (forall got, got ≠ [] -> first_answer d domain opt got (i :: order) s <-> goes_on c opt (reply i c domain opt s).1 /\ first_answer d domain opt got order (reply i c domain opt s).2) as Hfirst.
    { intros got Hg. split; [|intros [? ?]; by eapply answer_later]. intros Hf. inversion Hf; simplify_eq; try congruence; by split. }
    destruct (passes (a_err a)) eqn:Hp.
    + destruct (IH true (reply i c domain opt s).2) as (a' & s' & Ha' & Herr & Hiff); [intros; apply Hin; by right|]. exists a', s'.
      split; [destruct (a_err a) as [[]|]; first [exact Ha'|discriminate Hp]|]. split; [done|]. intros got Hg. rewrite (Hiff got Hg), (Hfirst got Hg). assert (goes_on c opt (reply i c domain opt s).1) as Hgo by (by apply Hpass). naive_solver.
    + exists {| a_ips := []; expireAt := expireAt a; a_err := a_err a |}, (reply i c domain opt s).2. split; [destruct (a_err a) as [[]|]; first [reflexivity|discriminate Hp]|]. split; [done|]. cbn [a_ips]. intros got Hg. rewrite (Hfirst got Hg), <-Hpass by done. naive_solver.
  - eexists _, _. split; [reflexivity|]. cbn [a_ips a_err]. split; [done|]. intros got Hg. rewrite Hips. split; [intros <-; by eapply answer_here|].
    intros Hf. inversion Hf as [i' order' c' s' Hc' _ _ Hgot|i' order' c' s' Hc' _ _ Hnone _ _]; subst i' order' s'; rewrite Hc in Hc'; injection Hc' as <-; congruence.
Qed.

(** The servers answer with addresses of the families they are asked for. *)
Definition families_kept : Prop := forall i fake domain ip opt noCache s, Forall (ip_asked opt) (a_ips (query i fake domain ip opt noCache s).1).

Lemma first_answer_asked d domain opt got order s : families_kept -> first_answer d domain opt got order s -> Forall (ip_asked opt) got.
Proof.
  intros Hq. induction 1 as [i order c s Hc Hcl Hv ->|]; [|done]. apply Forall_forall. intros ip [_ Hip]%list_elem_of_filter.
  assert (ip_asked (asked_for c opt) ip) as Hask by (by eapply (proj1 (Forall_forall _ _) (Hq _ _ _ _ _ _ _))).
  unfold ip_asked, asked_for, option_With in *. cbn [IPv4Enable IPv6Enable] in Hask. rewrite !andb_true_iff in Hask. naive_solver.
Qed.

(** What a lookup finds: the addresses the static hosts have for the last name
    they replace the domain by, of the families asked for; or, when they have
    none and end with a name, the first answer of the clients in the order for
    this name. *)
Definition found (d : DNS) (domain : bytes) (opt : IPOption) (s : S) (got : list bytes) : Prop :=
  exists r, hosts_say (hosts d) 5 domain r /\
  match r with
  | inl e => exists order, sortClients d e opt = Ok order /\ first_answer d e opt got order s
  | inr l => got = omap IP (filter (fun a => family_asked opt (Family a) = true) l)
  end.

Lemma sorted_known d ms own domain opt order : ordered d ms own -> plain (ToLower domain) -> sortClients d domain opt = Ok order -> forall i, i ∈ order -> is_Some (clients d !! i).
Proof.
  intros Hd Hp Ho i Hi. destruct (sortClients_ok d ms own Hd domain opt Hp) as (matched & Hs & _ & Hm). rewrite Hs in Ho. injection Ho as <-. apply elem_of_app in Hi as [Hi|Hi].
  - apply Hm in Hi as (_ & c & Hc & _). by exists c.
  - apply list_elem_of_filter in Hi as [_ Hi]. apply elem_of_seq in Hi. apply lookup_lt_is_Some_2. lia.
Qed.

Lemma lookup_ok d ms own mappings domain opt s : ordered d ms own -> NewStaticHosts mappings = Ok (hosts d) -> lin_ok (mapped mappings).*1 -> names_plain mappings ->
  plain (ToLower (TrimSuffix domain (bs "."))) ->
  exists a s', lookupIPInternalWithTTL query closed later d domain opt s = Ok (a, s') /\ (a_ips a ≠ [] -> a_err a = None) /\
    (forall got, got ≠ [] -> (a_ips a = got <-> closed s = false /\ domain ≠ [] /\ found d (TrimSuffix domain (bs ".")) opt s got)) /\
    (families_kept -> Forall (ip_asked opt) (a_ips a)).
Proof.
  intros Hd Hh Hok Hnames Hp. unfold lookupIPInternalWithTTL. cbv zeta. set (name := TrimSuffix domain (bs ".")) in *.
  destruct (closed s) eqn:Hcl; [eexists _, _; split; [reflexivity|]; split; [done|]; split; [intros got Hg; split; [by intros <-|by intros []]|intros _; apply Forall_nil_2]|].
  destruct (decide (domain = [])) as [->|Hne]; [eexists _, _; split; [reflexivity|]; split; [done|]; split; [intros got Hg; split; [by intros <-|by intros (_ & [] & _)]|intros _; apply Forall_nil_2]|].
  assert (forall {A} (x y : A), match domain with [] => x | _ => y end = y) as -> by (intros; by destruct domain).
  destruct (hosts_lookup_ok mappings (hosts d) Hh Hok 5 name opt Hnames Hp) as (r & res & Hsay & Hr & Hspec). unfold hosts_Lookup. rewrite Hr. cbn [mbind outcome_bind].
  assert (forall got, found d name opt s got <-> match r with inl e => exists order, sortClients d e opt = Ok order /\ first_answer d e opt got order s
    | inr l => got = omap IP (filter (fun a => family_asked opt (Family a) = true) l) end) as Hfound.
  { intros got. split; [intros (r' & Hr' & Hgot); by rewrite (hosts_say_fun _ _ _ _ _ Hsay Hr')|]. intros Hgot. by exists r. }
  destruct r as [e|l].
  - destruct Hspec as [He Hres]. destruct (sortClients_ok d ms own Hd e opt He) as (matched & Hs & _). pose proof (sorted_known d ms own e opt _ Hd He Hs) as Hknown.
    destruct (ask_clients_ok d _ false e opt s Hknown) as (a & s' & Ha & Herr & Hiff). exists a, s'.
    split; [destruct Hres as [[-> <-]| ->]; rewrite Hs; exact Ha|]. split; [exact Herr|]. split.
    + intros got Hg. rewrite (Hiff got Hg), Hfound. split; [intros Hf; split; [done|]; split; [done|]; by eexists|]. intros (_ & _ & order & Ho & Hf). rewrite Hs in Ho. by injection Ho as <-.
    + intros Hq. destruct (a_ips a) as [|x l] eqn:Hl; [apply Forall_nil_2|]. eapply first_answer_asked; [exact Hq|]. by apply Hiff.
  - destruct Hspec as [-> Hmapped]. set (out := omap IP (filter (fun a => family_asked opt (Family a) = true) l)) in *.
    match goal with |- exists a s', ?X = _ /\ _ => assert (exists a s', X = Ok (a, s') /\ a_ips a = out /\ (a_ips a ≠ [] -> a_err a = None)) as (a & s' & Ha & Hout & Herr) end.
    { pose proof (toNetIP_filter l opt) as Hnet. fold out in Hnet. destruct (filterIP l opt) as [|x rest] eqn:Hf; [injection Hnet as <-; by eexists _, _|].
      assert (family_asked opt (Family x) = true) as Hx. { assert (x ∈ filterIP l opt) as Hin by (rewrite Hf; by left). by apply list_elem_of_filter in Hin as [? _]. }
      destruct x as [ip|ip|x0]; [| |done]; rewrite Hnet; by eexists _, _. }
    exists a, s'. split; [exact Ha|]. split; [exact Herr|]. rewrite Hout. split.
    + intros got Hg. rewrite Hfound. split; [intros <-; by split_and!|by intros (_ & _ & ->)].
    + intros _. apply Forall_forall. intros ip (x & [Hx Hin]%list_elem_of_filter & Hip)%list_elem_of_omap. destruct (Hmapped x Hin) as [dm Hm]. by eapply mapped_asked.
Qed.
End Answering.

Lemma New_hosts `{StringLibs, MphRuntime, SortSlice, NetIPX} fuel random config d : New fuel random config = Ok d -> NewStaticHosts (StaticHosts_ config) = Ok (hosts d).
Proof.
  unfold New. destruct (NewStaticHosts _) as [h| |]; [|done..]. cbn [mbind outcome_bind]. cbv zeta. destruct (establishDomainRules _ _ _) as [[[m infos] rules]| |]; [|done..].
  destruct (establishExpectedIPs _ _) as [geos| |]; [|done..]. destruct (establishFakeDNS _ _) as [[[[s holders] def] groups]| |]; [|done..]. by intros [= <-].
Qed.

(** ** Properties *)

Section Properties.
Context `{StringLibs, MphRuntime, SortSlice, NetIPX}.

(** C22: the order in which the clients are asked for a domain. First come the
    clients of which a rule accepts the lower-case domain, each once; then, as
    they are configured, those whose strategy has them asked anyway. Fake
    servers are asked only when fake addresses are wanted. Nothing panics.
    With the linear matcher, the rules may have any patterns that are well
    formed (no empty substring, labels in a domain); with the other one, which
    hashes, the theorem asks for lower-case patterns of letters, digits,
    hyphens and dots without a leading dot, which the program does not see to.
    At most 65536 servers and rules, and a domain without capitals once it is
    lowered, of at most 65536 bytes. *)
Theorem dns_order fuel random config d domain opt :
  New fuel random config = Ok d -> indexable (bool_decide (cfg_DomainMatcher config = bs "linear")) (all_made (filled random config)) -> Z.of_nat (length (cfg_NameServer config)) <= 2 ^ 16 -> plain (ToLower domain) ->
  exists matched,
    sortClients d domain opt = Ok (matched ++ filter (fun i => left_over d opt matched i = true) (seq 0 (length (clients d)))) /\ NoDup matched /\
    forall i, i ∈ matched <-> claims (all_made (filled random config)) (owners 0 (filled random config)) domain i /\ may_ask d opt i.
Proof. intros Hnew Hprep Hlen Hp. exact (sortClients_ok d _ _ (New_ordered fuel random config d Hnew Hprep Hlen) domain opt Hp). Qed.

(** C23: a lookup always returns, and with addresses exactly when there is
    something to be found, and then with just these: the addresses which the
    static hosts have, of the families asked for, for the last of the at most
    five names they replace the domain by; or, when they end with a name, what
    is kept of the answer of the first client, in the order for this name, of
    whose answer anything is kept, if no client before it ends the lookup (only
    a timeout and an answer without an expected address do not). A client is
    asked, in the state the ones before it left, for the families of the query
    that are enabled for it; the addresses that are expected of it are kept,
    or all of them when none are expected, when the answer came with an error,
    or when the client may give fake addresses. With addresses there is no
    error, and if the servers keep to the families they are asked for, every
    address is of a family asked for. Rules are assumed to suit the matcher, as
    for the order, and the hosts' patterns to be well formed. *)
Theorem dns_lookup_returns {S} (query : nat -> bool -> bytes -> bytes -> IPOption -> bool -> S -> answer * S) closed later fuel random config d domain opt s :
  New fuel random config = Ok d -> indexable (bool_decide (cfg_DomainMatcher config = bs "linear")) (all_made (filled random config)) -> Z.of_nat (length (cfg_NameServer config)) <= 2 ^ 16 ->
  lin_ok (mapped (StaticHosts_ config)).*1 -> names_plain (StaticHosts_ config) -> plain (ToLower (TrimSuffix domain (bs "."))) ->
  exists a s', lookupIPInternalWithTTL query closed later d domain opt s = Ok (a, s') /\ (a_ips a ≠ [] -> a_err a = None) /\
    (forall got, got ≠ [] -> (a_ips a = got <-> closed s = false /\ domain ≠ [] /\ found query closed d (TrimSuffix domain (bs ".")) opt s got)) /\
    (families_kept query -> Forall (ip_asked opt) (a_ips a)).
Proof. intros Hnew Hprep Hlen Hok Hnames Hp. eapply lookup_ok; [by eapply New_ordered|by eapply New_hosts|done..]. Qed.

(** The client of the system's resolver that takes the place of name servers
    when none is configured is never asked. *)
Lemma local_client_never_asked {S} (query : nat -> bool -> bytes -> bytes -> IPOption -> bool -> S -> answer * S) i domain opt s :
  QueryIPWithTTL query i NewLocalDNSClient domain opt s = ({| a_ips := []; expireAt := 0; a_err := Some errEmptyResponse |}, s).
Proof. destruct opt as [[] [] f]; reflexivity. Qed.

(** A fake server that is not enabled answers with neither addresses nor an
    error, which ends the lookup. *)
Lemma no_answer_ends_lookup {S} (query : nat -> bool -> bytes -> bytes -> IPOption -> bool -> S -> answer * S) closed d i c order domain opt s t :
  clients d !! i = Some c -> closed s = false -> (QueryIPWithTTL query i c domain opt s).1 = {| a_ips := []; expireAt := t; a_err := None |} ->
  exists s', ask_clients query closed d (i :: order) false domain opt s = Ok ({| a_ips := []; expireAt := t; a_err := None |}, s').
Proof. intros Hc Hs Ha. cbn [ask_clients]. rewrite Hc, Hs. destruct (QueryIPWithTTL query i c domain opt s) as [a s']. cbn in Ha. rewrite Ha. by exists s'. Qed.

(** The identifier of a raw reply is that of the request when the first
    client replies. *)
Lemma raw_reply_id {S} closed Unpack serverRaw (NewReqID : nat -> bool -> S -> Z * S) raw d i order c request fake s response request' s' :
  clients d !! i = Some c -> (2 <= length request)%nat -> client_QueryRaw Unpack serverRaw NewReqID raw i c request fake s = (Ok response, request', s') -> closed s = false ->
  ask_raw closed Unpack serverRaw NewReqID raw d (i :: order) request fake s = (Ok response, request', s') /\ take 2 response = take 2 request.
Proof.
  intros Hc Hl Hr Hs. split; [cbn [ask_raw]; by rewrite Hc, Hs, Hr|]. unfold client_QueryRaw in Hr. destruct (negb _); [done|]. destruct (Unpack request); [|done].
  destruct (NewReqID _ _ s) as [fresh s1]. destruct (raw _ _ _ s1) as [[r| |] s2]; [|done..]. destruct (Unpack r); [|done]. injection Hr as <- _ _.
  destruct request as [|x [|y rest]]; [cbn in Hl; lia..|]. unfold put_id. change (take 2 (x :: y :: rest)) with [x; y].
  assert (put16 (get16 (x :: y :: rest)) = [x; y]) as ->; [|done]. exact (be_split_combine 2 [x; y] eq_refl).
Qed.
End Properties.

(** ** Examples *)

Section Samples.

#[local] Existing Instance ascii_libs.
#[local] Existing Instance sample_hash.
#[local] Existing Instance merge_sort_slice.

(** Sets of addresses as lists of prefixes. *)
Definition prefix_sets : NetIPX := {|
  IPSet := list Prefix;
  IPSet_of := Some;
  IPSet_Contains s ip := existsb (fun p => prefix_Contains p ip) s;
  FromStdIP ip := Unmap <$> AddrFromSlice ip;
|}.
#[local] Existing Instance prefix_sets.

Definition sample_server (l : list (DomainMatchingType * bytes)) (fallback : FallbackStrategy) : NameServer :=
  {| ns_Kind := addr_other; ns_ClientIp := []; ns_Tag := bs "dns"; PrioritizedDomain := l; ns_Geoip := []; OriginalRules := []; ns_FakeDns := None; SkipFallback := false;
     ns_QueryStrategy := None; ns_CacheStrategy := None; ns_FallbackStrategy := Some fallback |}.

(** Two name servers, the second one for the names below [example.com]. *)
Definition sample_dns_config : Config :=
  {| cfg_NameServer := [sample_server [] Fallback_Enabled; sample_server [(DMT_Subdomain, bs "example.com")] Fallback_Disabled]; cfg_ClientIp := [];
     StaticHosts_ := [{| hm_Type := DMT_Full; hm_Domain := bs "a.com"; hm_Ip := [[x01; x02; x03; x04]]; ProxiedDomain := [] |}];
     cfg_FakeDns := None; cfg_Tag := []; cfg_DomainMatcher := bs "linear"; DisableCache := false; DisableFallback := false; DisableFallbackIfMatch := false;
     cfg_QueryStrategy := USE_IP; cfg_CacheStrategy := CacheEnabled; cfg_FallbackStrategy := Fallback_Enabled |}.

Definition no_tag (n : nat) : bytes := [].

Definition no_dns : DNS :=
  {| hosts := {| ips := []; host_matchers := NewLinearIndexMatcher |}; clients := []; clientTags := []; domainMatcher := linear_matcher NewLinearIndexMatcher;
     matcherInfos := []; fakePools := []; fakeHolders := None; fakeDefault := None |}.

(** The value of a computation, when it has one. *)
Definition value_of {E A} (d : A) (r : outcome E A) : A := match r with Ok a => a | _ => d end.

Lemma value_of_ok {E A} (d : A) (r : outcome E A) : match r with Ok _ => true | _ => false end = true -> r = Ok (value_of d r).
Proof. by destruct r. Qed.

Definition sample_dns : DNS := value_of no_dns (New 10 no_tag sample_dns_config).

Lemma sample_dns_new : New 10 no_tag sample_dns_config = Ok sample_dns.
Proof. apply value_of_ok. vm_compute. reflexivity. Qed.

Lemma sample_dns_prepared : prepared (all_made (filled no_tag sample_dns_config)).
Proof.
  assert (all_made (filled no_tag sample_dns_config) = [DomainMatcher (bs "example.com")]) as -> by reflexivity.
  split; [split| | |].
  - intros p [[= ->]|Hin%elem_of_nil]%elem_of_cons; [|done]. vm_compute. done.
  - by intros p [?|Hin%elem_of_nil]%elem_of_cons.
  - cbn. lia.
  - by intros p [?|Hin%elem_of_nil]%elem_of_cons.
  - intros p [[= ->]|Hin%elem_of_nil]%elem_of_cons; [|done]. by vm_compute.
  - by intros p [?|Hin%elem_of_nil]%elem_of_cons.
Qed.

Lemma sample_hosts_ok : lin_ok (mapped (StaticHosts_ sample_dns_config)).*1.
Proof.
  assert ((mapped (StaticHosts_ sample_dns_config)).*1 = [FullMatcher (bs "a.com")]) as -> by reflexivity.
  split; [by intros p [?|Hin%elem_of_nil]%elem_of_cons..|cbn; lia].
Qed.

Lemma dns_order_witness : exists matched,
  sortClients sample_dns (bs "www.example.com") (toIPOption USE_IP) =
    Ok (matched ++ filter (fun i => left_over sample_dns (toIPOption USE_IP) matched i = true) (seq 0 (length (clients sample_dns)))) /\ NoDup matched /\
  forall i, i ∈ matched <-> claims (all_made (filled no_tag sample_dns_config)) (owners 0 (filled no_tag sample_dns_config)) (bs "www.example.com") i /\
    may_ask sample_dns (toIPOption USE_IP) i.
Proof.
  refine (dns_order 10 no_tag sample_dns_config sample_dns (bs "www.example.com") (toIPOption USE_IP) sample_dns_new (prepared_indexable _ _ sample_dns_prepared) _ _); [cbn; lia|].
  split; [by repeat constructor|vm_compute; discriminate].
Defined.

(** A name server that answers everything with one address of IPv4. *)
Definition one_address (i : nat) (fake : bool) (domain ip : bytes) (opt : IPOption) (noCache : bool) (s : unit) : answer * unit :=
  ({| a_ips := if IPv4Enable opt then [[x09; x09; x09; x09]] else []; expireAt := 60; a_err := None |}, s).

Lemma one_address_lawful : families_kept one_address.
Proof.
  intros i fake domain ip opt noCache s. unfold one_address. cbn [fst a_ips]. destruct (IPv4Enable opt) eqn:H4; [|apply Forall_nil_2]. apply Forall_cons_2; [by left|apply Forall_nil_2].
Qed.

Lemma dns_lookup_returns_witness : exists a s',
  lookupIPInternalWithTTL one_address (fun _ => false) (fun _ => 600) sample_dns (bs "www.example.com.") (toIPOption USE_IP) tt = Ok (a, s') /\ (a_ips a ≠ [] -> a_err a = None) /\
  (forall got, got ≠ [] -> (a_ips a = got <-> false = false /\ bs "www.example.com." ≠ [] /\
    found one_address (fun _ => false) sample_dns (TrimSuffix (bs "www.example.com.") (bs ".")) (toIPOption USE_IP) tt got)) /\
  Forall (ip_asked (toIPOption USE_IP)) (a_ips a).
Proof.
  assert (names_plain (StaticHosts_ sample_dns_config)) as Hnames by (apply Forall_singleton; by split; [constructor|]).
  assert (plain (ToLower (TrimSuffix (bs "www.example.com.") (bs ".")))) as Hplain by (split; [vm_compute; by repeat constructor|vm_compute; discriminate]).
  destruct (dns_lookup_returns one_address (fun _ => false) (fun _ => 600) 10 no_tag sample_dns_config sample_dns (bs "www.example.com.") (toIPOption USE_IP) tt
    sample_dns_new (prepared_indexable _ _ sample_dns_prepared) ltac:(cbn; lia) sample_hosts_ok Hnames Hplain) as (a & s' & H1 & H2 & H3 & H4).
  exists a, s'. split; [exact H1|]. split; [exact H2|]. split; [exact H3|exact (H4 one_address_lawful)].
Defined.

(** Two servers of which the first one does not reply in time: the reply of
    the second one has the identifier that was drawn for the first. *)
Definition two_clients : DNS :=
  {| hosts := hosts no_dns; clients := [NewLocalDNSClient; NewLocalDNSClient]; clientTags := []; domainMatcher := domainMatcher no_dns; matcherInfos := []; fakePools := [];
     fakeHolders := None; fakeDefault := None |}.

Lemma raw_id_lost :
  let unpack (b : bytes) := Some {| Id := get16 b; Response := false; Answers := 0; Questions := [] |} in
  let reply i (fake : bool) (request : bytes) (s : unit) := (match i with O => Err errDeadlineExceeded | _ => Ok request end, s) in
  (queryRaw (fun _ => false) unpack (fun _ _ _ => []) (fun _ _ => true) (fun i _ s => (Z.of_nat i + 100, s)) reply two_clients [x12; x34; x56] false tt).1.1 = Ok [x00; x64; x56].
Proof. vm_compute. reflexivity. Qed.
End Samples.
