(* ===== verification/DnsTasks.v ===== *)
(** * Closing the DNS client, [app/dns/dns.go]

    A lookup looks whether the client is closed, then, under the lock, enters
    the list of running lookups, and leaves it at the end; closing sets the
    flag, looks at the list under the lock, and waits until the list is empty
    before what the lookups use is taken away. The steps of any number of
    lookups and closings interleave. *)

From S2P Require Import Prelude.

(** [closed], the length of [taskList] and whether the channel [done] is
    closed, as the client has them. [looking] counts the lookups between
    their look at the flag and the list, [closing] the calls of [Close]
    between the flag and the lock, [waiting] the goroutines that wait for the
    channel; [taken] says whether hosts and clients are gone.
    src/app/dns/dns.go:32-46 DNS *)
Record task_state := { closed : bool; taskList : nat; closed_done : bool; looking : nat; closing : nat; waiting : nat; taken : bool }.

#[export] Instance task_state_dec : EqDecision task_state.
Proof. solve_decision. Defined.

(** The steps: of a lookup, its look at the flag, its entry, a use of the
    hosts or the clients, its leaving; of [Close], the flag, the part under
    the lock, and the end of the goroutine. *)
Inductive task_event := Look | Enter | Work | Leave | Flag | Locked | TakeAway.

(** A step is impossible, or leads to a state, or panics. *)
Inductive task_result := Stuck | Next (s : task_state) | Crash.

Definition task_start : task_state := {| closed := false; taskList := 0; closed_done := false; looking := 0; closing := 0; waiting := 0; taken := false |}.

(** Closing a closed channel panics.
    src/app/dns/dns.go:236-238 DNS.Close *)
Definition close_done (s : task_state) : task_result :=
  if closed_done s then Crash
  else Next {| closed := closed s; taskList := taskList s; closed_done := true; looking := looking s; closing := closing s; waiting := waiting s; taken := taken s |}.

(** src/app/dns/dns.go:424-426 DNS.lookupIPInternalWithTTL *)
Definition look (s : task_state) : task_result :=
  if closed s then Stuck
  else Next {| closed := closed s; taskList := taskList s; closed_done := closed_done s; looking := S (looking s); closing := closing s; waiting := waiting s; taken := taken s |}.

(** src/app/dns/dns.go:427-429 DNS.lookupIPInternalWithTTL *)
Definition enter (s : task_state) : task_result :=
  match looking s with
  | O => Stuck
  | S n => Next {| closed := closed s; taskList := S (taskList s); closed_done := closed_done s; looking := n; closing := closing s; waiting := waiting s; taken := taken s |}
  end.

(** A use of [s.hosts], which is a nil pointer once it is taken away.
    src/app/dns/dns.go:446-446 DNS.lookupIPInternalWithTTL *)
Definition work (s : task_state) : task_result :=
  match taskList s with
  | O => Stuck
  | S _ => if taken s then Crash else Next s
  end.

(** src/app/dns/dns.go:430-437 DNS.lookupIPInternalWithTTL *)
Definition leave (s : task_state) : task_result :=
  match taskList s with
  | O => Stuck
  | S n =>
      let s' := {| closed := closed s; taskList := n; closed_done := closed_done s; looking := looking s; closing := closing s; waiting := waiting s; taken := taken s |} in
      if (n =? 0)%nat && closed s then close_done s' else Next s'
  end.

(** src/app/dns/dns.go:234-234 DNS.Close *)
Definition close_flag (s : task_state) : task_result :=
  Next {| closed := true; taskList := taskList s; closed_done := closed_done s; looking := looking s; closing := S (closing s); waiting := waiting s; taken := taken s |}.

(** src/app/dns/dns.go:235-241 DNS.Close *)
Definition close_locked (s : task_state) : task_result :=
  match closing s with
  | O => Stuck
  | S n =>
      let s' := {| closed := closed s; taskList := taskList s; closed_done := closed_done s; looking := looking s; closing := n; waiting := S (waiting s); taken := taken s |} in
      if (taskList s =? 0)%nat then close_done s' else Next s'
  end.

(** src/app/dns/dns.go:241-252 DNS.Close *)
Definition take_away (s : task_state) : task_result :=
  match waiting s with
  | O => Stuck
  | S n => if closed_done s then Next {| closed := closed s; taskList := taskList s; closed_done := closed_done s; looking := looking s; closing := closing s; waiting := n; taken := true |} else Stuck
  end.

Definition task_step (s : task_state) (e : task_event) : task_result :=
  match e with
  | Look => look s | Enter => enter s | Work => work s | Leave => leave s
  | Flag => close_flag s | Locked => close_locked s | TakeAway => take_away s
  end.

Fixpoint task_run (s : task_state) (es : list task_event) : task_result :=
  match es with
  | [] => Next s
  | e :: es' => match task_step s e with Next s' => task_run s' es' | r => r end
  end.

(** ** Closings that meet no lookup on the threshold *)

(** [Close] is called once, no lookup is then between its look and its
    entry, and none leaves between the flag and the lock. *)
Definition calm (s : task_state) (e : task_event) : bool :=
  match e with
  | Flag => negb (closed s) && (looking s =? 0)%nat
  | Leave => (closing s =? 0)%nat
  | _ => true
  end.

Fixpoint calm_run (s : task_state) (es : list task_event) : bool :=
  match es with
  | [] => true
  | e :: es' => calm s e && match task_step s e with Next s' => calm_run s' es' | _ => true end
  end.

(** What holds between the steps of a calm run. *)
Record calm_state (s : task_state) : Prop := {
  calm_looking : closed s = true -> looking s = 0%nat;
  calm_once : (closing s + waiting s <= 1)%nat;
  calm_open : closed s = false -> closing s = 0%nat /\ waiting s = 0%nat /\ closed_done s = false;
  calm_done : closed_done s = true -> taskList s = 0%nat /\ closing s = 0%nat;
  calm_taken : taken s = true -> closed_done s = true;
  calm_last : closed s = true -> closing s = 0%nat -> taskList s = 0%nat -> closed_done s = true }.

Ltac task_bools := repeat match goal with
  | H : (_ =? _)%nat && true = _ |- _ => rewrite andb_true_r in H
  | H : (_ =? _)%nat = true |- _ => apply Nat.eqb_eq in H
  | H : (_ =? _)%nat = false |- _ => apply Nat.eqb_neq in H
  end.

Lemma calm_start : calm_state task_start.
Proof. split; cbn; intros; try congruence; try lia; auto. Qed.

Lemma calm_preserved s e s' : calm_state s -> calm s e = true -> task_step s e = Next s' -> calm_state s'.
Proof.
  destruct s as [c n d l k w t]. intros [Hl H1 Ho Hd Ht Hz] Hc Hs.
  destruct e; cbn in *; unfold look, enter, work, leave, close_flag, close_locked, take_away, close_done in Hs; cbn in Hs.
  all: destruct c, d, t; cbn in *; repeat (case_match; simplify_eq/=); simplify_eq/=; try done.
  all: task_bools; constructor; cbn in *; intros; try discriminate; try lia; intuition (try discriminate; try congruence; try lia).
Qed.

Lemma calm_safe s e : calm_state s -> calm s e = true -> task_step s e <> Crash.
Proof.
  destruct s as [c n d l k w t]. intros [Hl H1 Ho Hd Ht Hz] Hc.
  destruct e; cbn in *; unfold look, enter, work, leave, close_flag, close_locked, take_away, close_done; cbn; destruct c, d, t; cbn; repeat (case_match; simplify_eq/=); try done; task_bools; intuition (try discriminate; lia).
Qed.

(** In a calm run no channel is closed twice and no lookup uses what is taken
    away; what the lookups use goes only when none is running, and once the
    client is closed and the last lookup has left, it can go. *)
Lemma calm_close es : forall s, calm_state s -> calm_run s es = true ->
  task_run s es <> Crash /\ (forall s', task_run s es = Next s' -> calm_state s').
Proof.
  induction es as [|e es IH]; intros s Hs Hc; cbn in *; [split; [done|by intros ? [= <-]]|].
  apply andb_true_iff in Hc as [He Hr]. pose proof (calm_safe s e Hs He).
  destruct (task_step s e) as [|s1|] eqn:E; [done| |done]. eauto using calm_preserved.
Qed.

(** ** Lookups on the threshold

    A lookup that leaves between the flag and the lock closes the channel,
    and [Close] closes it again. *)
Lemma close_twice : task_run task_start [Look; Enter; Flag; Leave; Locked] = Crash.
Proof. reflexivity. Qed.

(** A lookup that has looked before the flag and enters after the hosts are
    taken away uses a nil pointer. *)
Lemma late_lookup : task_run task_start [Look; Flag; Locked; TakeAway; Enter; Work] = Crash.
Proof. reflexivity. Qed.

(** Closing twice closes the channel twice. *)
Lemma second_close : task_run task_start [Flag; Locked; Flag; Locked] = Crash.
Proof. reflexivity. Qed.
