(* ===== verification/DnsCache.v ===== *)
(** * The cache of a name server over UDP, [app/dns/nameserver_udp.go]

    Requests wait for responses by their identifier; a response becomes a
    record, which the cache keeps per domain and type. What runs under one
    lock is one operation here; a response and a look into the cache take the
    lock twice, and others may come in between ([cache_step]). *)

From S2P Require Import Prelude Net Lru FakeDns Dns.

Local Open Scope Z_scope.

(** ** Records, [dnscommon.go] *)

(** A zero [Expire] is the zero time; times are in nanoseconds. An address
    the packet does not have is nil.
    src/app/dns/dnscommon.go IPRecord *)
Record IPRecord := { ReqID : Z; rec_IP : list (option Address); Expire : Z; RCode : Z; TTL : Z }.

(** src/app/dns/dnscommon.go:24-27 record *)
Record record := { rec_A : option IPRecord; rec_AAAA : option IPRecord }.

(** What a look into the cache comes to: [errRecordNotFound] is kept apart,
    as it has a question asked. *)
Inductive cache_error := errRecordNotFound | errRCode (code : Z) | errEmpty | errConvertIP.
#[export] Instance cache_error_eq_dec : EqDecision cache_error.
Proof. solve_decision. Defined.

(** src/app/dns/dnscommon.go IPRecord.getIPs *)
Definition getIPs (now : Z) (r : option IPRecord) : list (option Address) * Z * option cache_error :=
  match r with
  | None => ([], 0, Some errRecordNotFound)
  | Some r =>
      if (TTL r >? 0) && (Expire r <? now) then ([], 0, Some errRecordNotFound)
      else if decide (RCode r ≠ 0) then ([], Expire r, Some (errRCode (RCode r)))
      else (rec_IP r, Expire r, None)
  end.

(** src/app/dns/dnscommon.go isNewer *)
Definition isNewer (baseRec newRec : option IPRecord) : bool :=
  match newRec, baseRec with
  | None, _ => false
  | Some _, None => true
  | Some n, Some b => Expire b <? Expire n
  end.

(** Package [miekg/dns], which is not part of the repository: the resource
    records of a message that are looked at, with their time to live. *)
Inductive RR := rr_A (ttl : Z) (ip : bytes) | rr_AAAA (ttl : Z) (ip : bytes) | rr_SOA (ttl minttl : Z) | rr_other (ttl : Z).
Record Message := { msg_Id : Z; Rcode : Z; Truncated : bool; Answer : list RR; Ns : list RR }.

Definition rr_ttl (r : RR) : Z := match r with rr_A t _ | rr_AAAA t _ | rr_SOA t _ | rr_other t => t end.

Definition second : Z := 1000000000.

Definition with_ttl (now ttl : Z) (r : IPRecord) : IPRecord :=
  {| ReqID := ReqID r; rec_IP := rec_IP r; Expire := now + ttl * second; RCode := RCode r; TTL := ttl |}.
Definition with_ip (ip : option Address) (r : IPRecord) : IPRecord :=
  {| ReqID := ReqID r; rec_IP := rec_IP r ++ [ip]; Expire := Expire r; RCode := RCode r; TTL := TTL r |}.

(** One answer.
    src/app/dns/dnscommon.go:179-191 parseResponse *)
Definition take_answer (now : Z) (r : IPRecord) (answer : RR) : IPRecord :=
  let r := with_ttl now (rr_ttl answer) r in
  match answer with
  | rr_A _ ip | rr_AAAA _ ip => with_ip (IPAddress ip) r
  | _ => r
  end.

(** src/app/dns/dnscommon.go:194-202 parseResponse *)
Definition take_authority (now : Z) (r : IPRecord) (ns : RR) : IPRecord :=
  match ns with rr_SOA ttl minttl => with_ttl now (Z.min ttl minttl) r | _ => r end.

Definition RcodeNameError : Z := 3.

(** The record, and whether the message was cut.
    src/app/dns/dnscommon.go parseResponse *)
Definition parseResponse (now : Z) (message : Message) : IPRecord * bool :=
  let r := {| ReqID := msg_Id message; rec_IP := []; Expire := now; RCode := Rcode message; TTL := 0 |} in
  if Truncated message then (r, true)
  else
    let r := foldl (take_answer now) r (Answer message) in
    (if bool_decide (rec_IP r = []) && (Rcode message =? 0) || (Rcode message =? RcodeNameError) then foldl (take_authority now) r (Ns message) else r, false).

(** ** The name server *)

Inductive req_type := req_A | req_AAAA.

(** src/app/dns/dnscommon.go dnsRequest *)
Record dnsRequest := { reqType : req_type; req_domain : bytes; req_expire : Z }.

(** The maps are nil once it is closed.
    src/app/dns/nameserver_udp.go:34-51 ClassicNameServer *)
Record ClassicNameServer := { cached : option (gmap bytes record); requests : option (gmap Z dnsRequest); reqID : Z }.

(** src/app/dns/nameserver_udp.go ClassicNameServer.NewReqID *)
Definition NewReqID (s : ClassicNameServer) : Z * ClassicNameServer :=
  let id := u32 (reqID s + 1) in (u16 id, {| cached := cached s; requests := requests s; reqID := id |}).

(** [Panic] is writing to a nil map.
    src/app/dns/nameserver_udp.go ClassicNameServer.addPendingRequest *)
Definition addPendingRequest (now : Z) (id : Z) (t : req_type) (domain : bytes) (s : ClassicNameServer) : outcome unit ClassicNameServer :=
  match requests s with
  | None => Panic
  | Some m => Ok {| cached := cached s; requests := Some (<[id := {| reqType := t; req_domain := domain; req_expire := now + 8 * second |}]> m); reqID := reqID s |}
  end.

(** The questions for a domain, each with an identifier.
    src/app/dns/dnscommon.go buildReqMsgs *)
Definition buildReqMsgs (opt : IPOption) (s : ClassicNameServer) : list (req_type * Z) * ClassicNameServer :=
  let '(l4, s) := if IPv4Enable opt then let '(id, s) := NewReqID s in ([(req_A, id)], s) else ([], s) in
  let '(l6, s) := if IPv6Enable opt then let '(id, s) := NewReqID s in ([(req_AAAA, id)], s) else ([], s) in
  (l4 ++ l6, s).

(** The first part of taking a response, under the lock: its request is no
    longer pending. A response nobody waits for is dropped.
    src/app/dns/nameserver_udp.go:227-237 ClassicNameServer.HandleResponse *)
Definition take_request (id : Z) (s : ClassicNameServer) : option dnsRequest * ClassicNameServer :=
  match requests s with
  | Some m => match m !! id with
              | Some req => (Some req, {| cached := cached s; requests := Some (delete id m); reqID := reqID s |})
              | None => (None, s)
              end
  | None => (None, s)
  end.

(** What is made of the response; [tcp] is what the question over TCP comes
    to, when the message was cut.
    src/app/dns/nameserver_udp.go:221-272 ClassicNameServer.HandleResponse *)
Definition HandleResponse (now : Z) (message : Message) (tcp : option Message) (s : ClassicNameServer) : option (bytes * record) * ClassicNameServer :=
  let '(ipRec, cut) := parseResponse now message in
  match take_request (msg_Id message) s with
  | (None, s) => (None, s)
  | (Some req, s) =>
      let ipRec := if cut : bool then match tcp with
                                     | Some m => let '(r, cut) := parseResponse now m in
                                                 if cut : bool then None else Some {| ReqID := msg_Id message; rec_IP := rec_IP r; Expire := Expire r; RCode := RCode r; TTL := TTL r |}
                                     | None => None
                                     end
                   else Some ipRec in
      (match ipRec with
       | None => None
       | Some r =>
           if decide (req_domain req = []) then None
           else Some (req_domain req, match reqType req with req_A => {| rec_A := Some r; rec_AAAA := None |} | req_AAAA => {| rec_A := None; rec_AAAA := Some r |} end)
       end, s)
  end.

(** src/app/dns/nameserver_udp.go ClassicNameServer.updateIP *)
Definition updateIP (domain : bytes) (newRec : record) (s : ClassicNameServer) : outcome unit ClassicNameServer :=
  let rec := default {| rec_A := None; rec_AAAA := None |} (m ← cached s; m !! domain) in
  let newA := isNewer (rec_A rec) (rec_A newRec) in
  let newAAAA := isNewer (rec_AAAA rec) (rec_AAAA newRec) in
  let rec := {| rec_A := if newA then rec_A newRec else rec_A rec; rec_AAAA := if newAAAA then rec_AAAA newRec else rec_AAAA rec |} in
  if newA || newAAAA then
    match cached s with
    | None => Panic
    | Some m => Ok {| cached := Some (<[domain := rec]> m); requests := requests s; reqID := reqID s |}
    end
  else Ok s.

(** The addresses for the caller; [Panic] is a nil address. *)
Fixpoint net_ips (addrs : list (option Address)) : outcome cache_error (list bytes) :=
  match addrs with
  | [] => Ok []
  | None :: _ => Panic
  | Some a :: addrs' => match IP a with Some ip => ips ← net_ips addrs'; Ok (ip :: ips) | None => Err errConvertIP end
  end.

(** A look into the cache, under the lock for reading: the addresses, when
    they expire, an error; and the record to be written back, without what
    may be used only once.
    src/app/dns/nameserver_udp.go ClassicNameServer.findIPsForDomain *)
Definition findIPsForDomain (now : Z) (domain : bytes) (opt : IPOption) (s : ClassicNameServer) : outcome unit (list bytes * Z * option cache_error * option record) :=
  match (m ← cached s; m !! domain) with
  | None => Ok ([], 0, Some errRecordNotFound, None)
  | Some rec =>
      let once (r : option IPRecord) := match r with Some r => TTL r =? 0 | None => false end in
      let '(a, expireAt, lastErr, u4) := if IPv4Enable opt then let '(a, e, err) := getIPs now (rec_A rec) in (a, e, err, once (rec_A rec)) else ([], 0, None, false) in
      let '(aaaa, expireAt, lastErr, u6) :=
        if IPv6Enable opt then let '(a, e, err) := getIPs now (rec_AAAA rec) in (a, e, match err with Some _ => err | None => lastErr end, once (rec_AAAA rec))
        else ([], expireAt, lastErr, false) in
      let back := if u4 || u6 then Some {| rec_A := if u4 : bool then None else rec_A rec; rec_AAAA := if u6 : bool then None else rec_AAAA rec |} else None in
      match a ++ aaaa with
      | [] => Ok ([], expireAt, Some (default errEmpty lastErr), back)
      | ips => match net_ips ips with
               | Ok l => Ok (l, expireAt, None, back)
               | Err e => Ok ([], expireAt, Some e, back)
               | Panic => Panic
               end
      end
  end.

(** The record is written back, under the lock.
    src/app/dns/nameserver_udp.go:442-446 ClassicNameServer.findIPsForDomain *)
Definition write_back (domain : bytes) (rec : record) (s : ClassicNameServer) : outcome unit ClassicNameServer :=
  match cached s with
  | None => Panic
  | Some m => Ok {| cached := Some (<[domain := rec]> m); requests := requests s; reqID := reqID s |}
  end.

(** src/app/dns/nameserver_udp.go:167-180 ClassicNameServer.Cleanup *)
Definition clean_record (now : Z) (rec : record) : option record :=
  let live (r : option IPRecord) := match r with Some x => if Expire x <? now then None else r | None => None end in
  match live (rec_A rec), live (rec_AAAA rec) with
  | None, None => None
  | a, aaaa => Some {| rec_A := a; rec_AAAA := aaaa |}
  end.

(** [false]: there was nothing to do, which ends the task.
    src/app/dns/nameserver_udp.go ClassicNameServer.Cleanup *)
Definition Cleanup (now : Z) (s : ClassicNameServer) : bool * ClassicNameServer :=
  let ips := default ∅ (cached s) in
  let reqs := default ∅ (requests s) in
  if bool_decide (ips = ∅) && bool_decide (reqs = ∅) then (false, s)
  else
    (true, {| cached := Some (omap (clean_record now) ips); requests := Some (filter (fun '(_, r) => ~ req_expire r < now) reqs); reqID := reqID s |}).

(** src/app/dns/nameserver_udp.go ClassicNameServer.Close *)
Definition cache_Close (s : ClassicNameServer) : ClassicNameServer := {| cached := None; requests := None; reqID := reqID s |}.

(** src/app/dns/nameserver_udp.go newClassicNameServer *)
Definition newClassicNameServer : ClassicNameServer := {| cached := Some ∅; requests := Some ∅; reqID := 0 |}.

(** ** Interleaving *)

(** The name server, the records on their way into it, and what was asked and
    answered so far: the messages received, with their time and the second
    message for one that was cut, and the records made of them. *)
Record cache_system := {
  server : ClassicNameServer;
  updates : list (bytes * record); backs : list (bytes * record);
  asked : list (Z * req_type * bytes); answered : list (req_type * bytes * IPRecord); received : list (Z * Message * option Message);
  crashed : bool }.

Definition with_server (c : cache_system) (s : ClassicNameServer) : cache_system :=
  {| server := s; updates := updates c; backs := backs c; asked := asked c; answered := answered c; received := received c; crashed := crashed c |}.

(** The answers in a record. *)
Definition answers_of (domain : bytes) (rec : record) : list (req_type * bytes * IPRecord) :=
  (match rec_A rec with Some r => [(req_A, domain, r)] | None => [] end) ++ (match rec_AAAA rec with Some r => [(req_AAAA, domain, r)] | None => [] end).

(** Some operation panics. *)
Definition panics (c : cache_system) : Prop :=
  (exists domain rec, (domain, rec) ∈ updates c /\ updateIP domain rec (server c) = Panic) \/
  (exists domain rec, (domain, rec) ∈ backs c /\ write_back domain rec (server c) = Panic) \/
  (exists now t domain id s, NewReqID (server c) = (id, s) /\ addPendingRequest now id t domain s = Panic) \/
  (exists now domain opt, findIPsForDomain now domain opt (server c) = Panic).

(** The operations, each of which holds the lock. *)
Inductive cache_step : cache_system -> cache_system -> Prop :=
  | step_ask now t domain c id s s' : NewReqID (server c) = (id, s) -> addPendingRequest now id t domain s = Ok s' ->
      cache_step c {| server := s'; updates := updates c; backs := backs c; asked := asked c ++ [(id, t, domain)]; answered := answered c; received := received c; crashed := crashed c |}
  | step_response now message tcp c s : HandleResponse now message tcp (server c) = (None, s) -> cache_step c (with_server c s)
  | step_answer now message tcp c domain rec s : HandleResponse now message tcp (server c) = (Some (domain, rec), s) ->
      cache_step c {| server := s; updates := updates c ++ [(domain, rec)]; backs := backs c; asked := asked c; answered := answered c ++ answers_of domain rec; received := received c ++ [(now, message, tcp)]; crashed := crashed c |}
  | step_update c l1 l2 domain rec s : updates c = l1 ++ (domain, rec) :: l2 -> updateIP domain rec (server c) = Ok s ->
      cache_step c {| server := s; updates := l1 ++ l2; backs := backs c; asked := asked c; answered := answered c; received := received c; crashed := crashed c |}
  | step_find now domain opt c ips t err : findIPsForDomain now domain opt (server c) = Ok (ips, t, err, None) -> cache_step c c
  | step_find_once now domain opt c ips t err rec : findIPsForDomain now domain opt (server c) = Ok (ips, t, err, Some rec) ->
      cache_step c {| server := server c; updates := updates c; backs := backs c ++ [(domain, rec)]; asked := asked c; answered := answered c; received := received c; crashed := crashed c |}
  | step_back c l1 l2 domain rec s : backs c = l1 ++ (domain, rec) :: l2 -> write_back domain rec (server c) = Ok s ->
      cache_step c {| server := s; updates := updates c; backs := l1 ++ l2; asked := asked c; answered := answered c; received := received c; crashed := crashed c |}
  | step_cleanup now c b s : Cleanup now (server c) = (b, s) -> cache_step c (with_server c s)
  | step_close c : cache_step c (with_server c (cache_Close (server c)))
  | step_crash c : panics c ->
      cache_step c {| server := server c; updates := updates c; backs := backs c; asked := asked c; answered := answered c; received := received c; crashed := true |}.

Definition cache_start : cache_system := {| server := newClassicNameServer; updates := []; backs := []; asked := []; answered := []; received := []; crashed := false |}.

Definition cache_reachable : cache_system -> Prop := rtc cache_step cache_start.

(** * Facts about the cache of a name server

    In every interleaving of its operations the cache holds only what was
    answered to a question of the same identifier, type and domain, and a look
    into it returns only what has not expired. *)


(** ** The invariant *)

Definition known (c : cache_system) (domain : bytes) (rec : record) : Prop := forall x, x ∈ answers_of domain rec -> x ∈ answered c.

(** The message that counts: over TCP when the first one was cut. *)
Definition counts (message : Message) (tcp : option Message) (used : Message) : Prop := (if Truncated message then tcp else Some message) = Some used /\ Truncated used = false.

(** A record and the messages it was made of. *)
Definition made_of (x : Z * Message * option Message) (r : IPRecord) : Prop :=
  exists used, counts x.1.2 x.2 used /\ let p := (parseResponse x.1.1 used).1 in
    r = {| ReqID := msg_Id x.1.2; rec_IP := rec_IP p; Expire := Expire p; RCode := RCode p; TTL := TTL p |}.

Record cache_inv (c : cache_system) : Prop := {
  ci_cached : forall m domain rec, cached (server c) = Some m -> m !! domain = Some rec -> known c domain rec;
  ci_updates : forall domain rec, (domain, rec) ∈ updates c -> known c domain rec;
  ci_backs : forall domain rec, (domain, rec) ∈ backs c -> known c domain rec;
  ci_requests : forall m id req, requests (server c) = Some m -> m !! id = Some req -> (id, reqType req, req_domain req) ∈ asked c;
  ci_answered : forall t domain r, (t, domain, r) ∈ answered c -> (ReqID r, t, domain) ∈ asked c /\ exists x, x ∈ received c /\ made_of x r
}.

Lemma elem_of_answers x domain rec : x ∈ answers_of domain rec <-> (exists r, rec_A rec = Some r /\ x = (req_A, domain, r)) \/ (exists r, rec_AAAA rec = Some r /\ x = (req_AAAA, domain, r)).
Proof.
  unfold answers_of. rewrite elem_of_app. destruct (rec_A rec), (rec_AAAA rec); rewrite ?list_elem_of_singleton, ?elem_of_nil; naive_solver.
Qed.

Lemma ReqID_parse now message : ReqID (parseResponse now message).1 = msg_Id message.
Proof.
  unfold parseResponse. destruct (Truncated message); [done|]. cbn [fst].
  assert (forall l r, ReqID (foldl (take_answer now) r l) = ReqID r) as Ha by (induction l as [|[] l IH]; intros r; [done|cbn [foldl]; by rewrite IH..]).
  assert (forall l r, ReqID (foldl (take_authority now) r l) = ReqID r) as Hn by (induction l as [|[] l IH]; intros r; [done|cbn [foldl]; by rewrite IH..]).
  destruct (_ || _); [by rewrite Hn, Ha|by rewrite Ha].
Qed.

Lemma RCode_parse now message : RCode (parseResponse now message).1 = Rcode message.
Proof.
  unfold parseResponse. destruct (Truncated message); [done|]. cbn [fst].
  assert (forall l r, RCode (foldl (take_answer now) r l) = RCode r) as Ha by (induction l as [|[] l IH]; intros r; [done|cbn [foldl]; by rewrite IH..]).
  assert (forall l r, RCode (foldl (take_authority now) r l) = RCode r) as Hn by (induction l as [|[] l IH]; intros r; [done|cbn [foldl]; by rewrite IH..]).
  destruct (_ || _); [by rewrite Hn, Ha|by rewrite Ha].
Qed.

Lemma parseResponse_cut now message : (parseResponse now message).2 = Truncated message.
Proof. unfold parseResponse. by destruct (Truncated message). Qed.

(** A response that is used is one to a request that was pending. *)
Lemma HandleResponse_ok now message tcp s o s' : HandleResponse now message tcp s = (o, s') ->
  cached s' = cached s /\ (forall m' id req, requests s' = Some m' -> m' !! id = Some req -> exists m, requests s = Some m /\ m !! id = Some req) /\
  match o with
  | None => True
  | Some (domain, rec) => exists m req, requests s = Some m /\ m !! msg_Id message = Some req /\ domain = req_domain req /\
      forall t d r, (t, d, r) ∈ answers_of domain rec -> t = reqType req /\ d = domain /\ ReqID r = msg_Id message /\ made_of (now, message, tcp) r
  end.
Proof.
  unfold HandleResponse, take_request. pose proof (ReqID_parse now message) as Hid. destruct (parseResponse now message) as [ipRec cut] eqn:Hparse. cbn [fst] in Hid.
  destruct (requests s) as [m|] eqn:Hm; [|intros [= <- <-]; split; [done|]; split; [by rewrite Hm|done]].
  destruct (m !! msg_Id message) as [req|] eqn:Hreq; [|intros [= <- <-]; split; [done|]; split; [intros m' id req' Hm' ?; exists m'; by rewrite <-Hm|done]].
  intros [= <- <-]. cbn [cached requests]. split; [done|]. split.
  { intros m' id req' [= <-] Hl. exists m. split; [done|]. by apply lookup_delete_Some in Hl as [_ ?]. }
  set (used := if cut then _ else Some ipRec). destruct used as [r|] eqn:Hused; [|done]. case_decide; [done|]. exists m, req. split; [done|]. split; [done|]. split; [done|].
  assert (ReqID r = msg_Id message /\ made_of (now, message, tcp) r) as [Hr Hmade].
  { pose proof (parseResponse_cut now message) as Hcut. rewrite Hparse in Hcut. cbn [snd] in Hcut. unfold used in Hused. destruct cut.
    - destruct tcp as [m'|]; [|done]. pose proof (parseResponse_cut now m') as Hcut'. destruct (parseResponse now m') as [r' [|]] eqn:Hp'; [done|]. injection Hused as <-. split; [done|]. exists m'. unfold counts. cbn [fst snd].
      rewrite <-Hcut, Hp'. by split.
    - injection Hused as <-. split; [exact Hid|]. exists message. unfold counts. cbn [fst snd]. rewrite <-Hcut, Hparse. split; [by split|]. cbn [fst]. rewrite <-Hid. by destruct ipRec. }
  intros t d r'. rewrite elem_of_answers. destruct (reqType req); cbn; intros [(r2 & [= <-] & [= -> -> ->])|(r2 & ? & ?)]; done || by simplify_eq.
Qed.

Lemma updateIP_ok domain rec s s' : updateIP domain rec s = Ok s' -> requests s' = requests s /\
  forall m' d r, cached s' = Some m' -> m' !! d = Some r -> (exists m, cached s = Some m /\ m !! d = Some r) \/
    d = domain /\ forall x, x ∈ answers_of d r -> x ∈ answers_of d rec \/ exists m old, cached s = Some m /\ m !! d = Some old /\ x ∈ answers_of d old.
Proof.
  unfold updateIP. cbv zeta. set (old := default _ _). destruct (_ || _); [|intros [= <-]; split; [done|]; by intros m' d r ? ?; left; exists m'].
  destruct (cached s) as [m|] eqn:Hm; [|done]. intros [= <-]. cbn [cached requests]. split; [done|]. intros m' d r [= <-] Hl.
  apply lookup_insert_Some in Hl as [[<- <-]|[Hne Hl]]; [|left; by exists m]. right. split; [done|]. intros x. rewrite elem_of_answers. cbn [rec_A rec_AAAA].
  assert (forall y, y ∈ answers_of domain old -> exists m0 o, Some m = Some m0 /\ m0 !! domain = Some o /\ y ∈ answers_of domain o) as Hold.
  { intros y Hy. unfold old in Hy. cbn [mbind option_bind] in Hy. destruct (m !! domain) as [o|] eqn:Ho; [by exists m, o|]. by apply elem_of_nil in Hy. }
  intros [(r' & Hr & ->)|(r' & Hr & ->)].
  - destruct (isNewer (rec_A old) (rec_A rec)); [left|right; apply Hold]; apply elem_of_answers; left; by exists r'.
  - destruct (isNewer (rec_AAAA old) (rec_AAAA rec)); [left|right; apply Hold]; apply elem_of_answers; right; by exists r'.
Qed.

Lemma find_back now domain opt s ips t err rec : findIPsForDomain now domain opt s = Ok (ips, t, err, Some rec) ->
  exists m old, cached s = Some m /\ m !! domain = Some old /\ forall x, x ∈ answers_of domain rec -> x ∈ answers_of domain old.
Proof.
  unfold findIPsForDomain. destruct (cached s) as [m|] eqn:Hm; cbn [mbind option_bind]; [|done]. destruct (m !! domain) as [old|] eqn:Ho; [|done]. cbv zeta.
  destruct (if IPv4Enable opt then _ else _) as [[[a e4] l4] u4]. destruct (if IPv6Enable opt then _ else _) as [[[aaaa e6] l6] u6].
  assert (forall rec', (if u4 || u6 then Some {| rec_A := if u4 : bool then None else rec_A old; rec_AAAA := if u6 : bool then None else rec_AAAA old |} else None) = Some rec' ->
    exists m0 o, Some m = Some m0 /\ m0 !! domain = Some o /\ forall x, x ∈ answers_of domain rec' -> x ∈ answers_of domain o) as Hback.
  { intros rec' Hr. destruct (u4 || u6); [|done]. injection Hr as <-. exists m, old. split; [done|]. split; [done|]. intros x. rewrite !elem_of_answers. cbn. destruct u4, u6; naive_solver. }
  destruct (a ++ aaaa); [intros [= _ _ _ Hr]; by apply Hback|]. destruct (net_ips _); [intros [= _ _ _ Hr]; by apply Hback|intros [= _ _ _ Hr]; by apply Hback|done].
Qed.

Lemma Cleanup_ok now s b s' : Cleanup now s = (b, s') ->
  (forall m' d r, cached s' = Some m' -> m' !! d = Some r -> exists m old, cached s = Some m /\ m !! d = Some old /\ forall x, x ∈ answers_of d r -> x ∈ answers_of d old) /\
  (forall m' id req, requests s' = Some m' -> m' !! id = Some req -> exists m, requests s = Some m /\ m !! id = Some req).
Proof.
  unfold Cleanup. destruct (_ && _); intros [= <- <-]; [by split; [intros m' d r ? ?; exists m', r|intros m' id req ? ?; exists m']|]. cbn [cached requests]. split.
  - intros m' d r [= <-] Hl. rewrite lookup_omap in Hl. destruct (cached s) as [m|]; cbn [default] in Hl; [|by rewrite lookup_empty in Hl].
    change (m !! d ≫= clean_record now = Some r) in Hl. destruct (m !! d) as [old|] eqn:Ho; cbn in Hl; [|discriminate Hl]. exists m, old. split; [done|]. split; [done|]. intros x. rewrite !elem_of_answers. unfold clean_record in Hl.
    destruct (rec_A old) as [a|]; destruct (rec_AAAA old) as [aaaa|]; repeat case_match; simplify_eq; cbn; naive_solver.
  - intros m' id req [= <-] Hl. destruct (requests s) as [m|]; cbn [default] in Hl; [|apply map_lookup_filter_Some in Hl as [Hl _]; by rewrite lookup_empty in Hl].
    apply map_lookup_filter_Some in Hl as [Hl _]. by exists m.
Qed.

Lemma cache_inv_step c c' : cache_inv c -> cache_step c c' -> cache_inv c'.
Proof.
  intros [Hc Hu Hb Hr Ha] Hstep. destruct Hstep as
    [now t domain c id s s' Hid Hadd|now message tcp c s Hresp|now message tcp c domain rec s Hresp|c l1 l2 domain rec s Hup Hs|now domain opt c ips t err Hf|
     now domain opt c ips t err rec Hf|c l1 l2 domain rec s Hbk Hs|now c b s Hcl|c|c Hp].
  - injection Hid as <- <-. unfold addPendingRequest in Hadd. cbn [cached requests reqID] in Hadd. destruct (requests (server c)) as [m|] eqn:Hm; [|done]. injection Hadd as <-.
    split; cbn; [done|done|done| |].
    + intros m' id req [= <-] Hl. rewrite elem_of_app. apply lookup_insert_Some in Hl as [[<- <-]|[_ Hl]]; [by right; left|left; by eapply Hr].
    + intros t' d r Hx. destruct (Ha _ _ _ Hx). split; [rewrite elem_of_app; by left|done].
  - destruct (HandleResponse_ok _ _ _ _ _ _ Hresp) as (H1 & H2 & _). split; cbn; [rewrite H1; exact Hc|done|done| |done].
    intros m' id req Hm' Hl. destruct (H2 _ _ _ Hm' Hl) as (m & Hm & Hl'). by eapply Hr.
  - destruct (HandleResponse_ok _ _ _ _ _ _ Hresp) as (H1 & H2 & m & req & Hm & Hreq & -> & Hans).
    assert (forall d r, known c d r -> forall x, x ∈ answers_of d r -> x ∈ answered c ++ answers_of (req_domain req) rec) as Hk by (intros d r Hx x Hin; rewrite elem_of_app; left; by apply Hx).
    split; cbn.
    + rewrite H1. intros m' d r Hm' Hl. exact (Hk d r (Hc m' d r Hm' Hl)).
    + intros d r. rewrite elem_of_app, list_elem_of_singleton. intros [Hx|[= -> ->]]; [exact (Hk d r (Hu d r Hx))|]. intros x Hx. cbn. rewrite elem_of_app. by right.
    + intros d r Hx. exact (Hk d r (Hb d r Hx)).
    + intros m' id req' Hm' Hl. destruct (H2 _ _ _ Hm' Hl) as (m2 & Hm2 & Hl'). by eapply Hr.
    + intros t d r. rewrite elem_of_app. intros [Hx|Hx]; [destruct (Ha _ _ _ Hx) as (? & y & Hy & Hmade); split; [done|]; exists y; rewrite elem_of_app; split; [by left|done]|].
      destruct (Hans t d r Hx) as (-> & -> & -> & Hmade). split; [by eapply Hr|]. exists (now, message, tcp). rewrite elem_of_app, list_elem_of_singleton. split; [by right|done].
  - destruct (updateIP_ok _ _ _ _ Hs) as [H1 H2]. assert (known c domain rec) as Hrec by (apply Hu; rewrite Hup, elem_of_app, elem_of_cons; by right; left).
    split; cbn; [|intros d r Hx; apply Hu; rewrite Hup; revert Hx; rewrite !elem_of_app, elem_of_cons; tauto|done|rewrite H1; exact Hr|done].
    intros m' d r Hm' Hl. destruct (H2 _ _ _ Hm' Hl) as [(m & Hm & Hl')|[-> Hx]]; [by eapply Hc|]. intros x Hin. destruct (Hx x Hin) as [Hy|(m & old & Hm & Hl' & Hy)]; [by apply Hrec|by eapply (Hc m domain old)].
  - by split.
  - destruct (find_back _ _ _ _ _ _ _ _ Hf) as (m & old & Hm & Hl & Hx). split; cbn; try done. intros d r. rewrite elem_of_app, list_elem_of_singleton. intros [Hin|[= -> ->]]; [by apply Hb|].
    intros x Hin. by eapply (Hc m domain old), Hx.
  - unfold write_back in Hs. destruct (cached (server c)) as [m|] eqn:Hm; [|done]. injection Hs as <-. assert (known c domain rec) as Hrec by (apply Hb; rewrite Hbk, elem_of_app, elem_of_cons; by right; left).
    split; cbn; [|done|intros d r Hx; apply Hb; rewrite Hbk; revert Hx; rewrite !elem_of_app, elem_of_cons; tauto|exact Hr|done].
    intros m' d r [= <-] Hl. apply lookup_insert_Some in Hl as [[<- <-]|[_ Hl]]; [done|by eapply Hc].
  - destruct (Cleanup_ok _ _ _ _ Hcl) as [H1 H2]. split; cbn; [|done|done| |done].
    + intros m' d r Hm' Hl. destruct (H1 _ _ _ Hm' Hl) as (m & old & Hm & Hl' & Hx). intros x Hin. by eapply (Hc m d old), Hx.
    + intros m' id req Hm' Hl. destruct (H2 _ _ _ Hm' Hl) as (m & Hm & Hl'). by eapply Hr.
  - by split.
  - by split.
Qed.

Lemma cache_inv_reachable c : cache_reachable c -> cache_inv c.
Proof.
  intros Hr. assert (forall c0, cache_inv c0 -> rtc cache_step c0 c -> cache_inv c) as Hall; [|apply (Hall cache_start); [|done]].
  - intros c0 H0 Hs. induction Hs as [|c0 c1 c2 Hs _ IH]; [done|]. by eapply IH, cache_inv_step.
  - split; cbn; [by intros m d r [= <-] ?|by intros d r ?%elem_of_nil|by intros d r ?%elem_of_nil|by intros m id req [= <-] ?|by intros t d r ?%elem_of_nil].
Qed.

(** ** What a look returns *)

(** A record that may be used at [now]. *)
Definition usable (now : Z) (r : IPRecord) : Prop := RCode r = 0 /\ (TTL r <= 0 \/ now <= Expire r).

Lemma getIPs_ok now r a : Some a ∈ (getIPs now r).1.1 -> exists x, r = Some x /\ usable now x /\ Some a ∈ rec_IP x.
Proof.
  unfold getIPs, usable. destruct r as [x|]; [|by intros ?%elem_of_nil]. destruct ((TTL x >? 0) && (Expire x <? now)) eqn:Ht; [by intros ?%elem_of_nil|].
  case_decide as Hc; [by intros ?%elem_of_nil|]. cbn. intros Ha. exists x. split; [done|]. split; [|done]. split; [by destruct (decide (RCode x = 0))|].
  apply andb_false_iff in Ht as [Ht|Ht]; [left|right; lia]. destruct (Z.gtb_spec (TTL x) 0); [done|lia].
Qed.

Lemma net_ips_ok l out ip : net_ips l = Ok out -> ip ∈ out -> exists a, Some a ∈ l /\ IP a = Some ip.
Proof.
  revert out. induction l as [|[a|] l IH]; intros out; cbn [net_ips]; [by intros [= <-] ?%elem_of_nil| |done]. destruct (IP a) as [x|] eqn:Hx; [|done].
  destruct (net_ips l) as [r| |]; [|done..]. cbn. intros [= <-] [->|Hin]%elem_of_cons; [exists a; split; [by left|done]|]. destruct (IH r eq_refl Hin) as (a' & ? & ?). exists a'. split; [by right|done].
Qed.

Lemma find_ok now domain opt s ips t err back ip : findIPsForDomain now domain opt s = Ok (ips, t, err, back) -> ip ∈ ips ->
  err = None /\ exists m rec ty r a, cached s = Some m /\ m !! domain = Some rec /\ (ty, domain, r) ∈ answers_of domain rec /\
    match ty with req_A => IPv4Enable opt | req_AAAA => IPv6Enable opt end = true /\ usable now r /\ Some a ∈ rec_IP r /\ IP a = Some ip.
Proof.
  unfold findIPsForDomain. destruct (cached s) as [m|] eqn:Hm; cbn [mbind option_bind]; [|by intros [= <- _ _ _] ?%elem_of_nil].
  destruct (m !! domain) as [rec|] eqn:Ho; [|by intros [= <- _ _ _] ?%elem_of_nil]. cbv zeta.
  destruct (if IPv4Enable opt then _ else _) as [[[l4 e4] f4] u4] eqn:H4. destruct (if IPv6Enable opt then _ else _) as [[[l6 e6] f6] u6] eqn:H6.
  assert (forall a, Some a ∈ l4 ++ l6 -> exists ty r, (ty, domain, r) ∈ answers_of domain rec /\ match ty with req_A => IPv4Enable opt | req_AAAA => IPv6Enable opt end = true /\ usable now r /\ Some a ∈ rec_IP r) as Hall.
  { intros a [Ha|Ha]%elem_of_app.
    - destruct (IPv4Enable opt) eqn:Hen; [|injection H4 as <- _ _ _; by apply elem_of_nil in Ha]. pose proof (getIPs_ok now (rec_A rec) a) as Hg.
      destruct (getIPs now (rec_A rec)) as [[l e] er]. injection H4 as <- _ _ _. destruct (Hg Ha) as (x & Hx & Hus & Hin). exists req_A, x. rewrite elem_of_answers. split; [left; by exists x|done].
    - destruct (IPv6Enable opt) eqn:Hen; [|injection H6 as <- _ _ _; by apply elem_of_nil in Ha]. pose proof (getIPs_ok now (rec_AAAA rec) a) as Hg.
      destruct (getIPs now (rec_AAAA rec)) as [[l e] er]. injection H6 as <- _ _ _. destruct (Hg Ha) as (x & Hx & Hus & Hin). exists req_AAAA, x. rewrite elem_of_answers. split; [right; by exists x|done]. }
  destruct (l4 ++ l6) as [|x l] eqn:Hl; [by intros [= <- _ _ _] ?%elem_of_nil|]. rewrite <-Hl in *. destruct (net_ips (l4 ++ l6)) as [out| |] eqn:Hn; [|by intros [= <- _ _ _] ?%elem_of_nil|done].
  intros [= <- _ <- _] Hip. split; [done|]. destruct (net_ips_ok _ _ _ Hn Hip) as (a & Ha & Hia). destruct (Hall a Ha) as (ty & r & Hin & Hen & Hus & Hr). by exists m, rec, ty, r, a.
Qed.

(** ** What a record says *)

Lemma take_answers_ips now l r x : x ∈ rec_IP (foldl (take_answer now) r l) -> x ∈ rec_IP r \/ exists ttl b, (rr_A ttl b ∈ l \/ rr_AAAA ttl b ∈ l) /\ x = IPAddress b.
Proof.
  induction l as [|y l IH] using rev_ind; [by left|]. rewrite foldl_snoc. intros Hx.
  assert (x ∈ rec_IP (foldl (take_answer now) r l) \/ exists ttl b, (y = rr_A ttl b \/ y = rr_AAAA ttl b) /\ x = IPAddress b) as [Hl|(ttl & b & Hy & ->)].
  { destruct y as [ttl ip|ttl ip|ttl m|ttl]; cbn [take_answer rec_IP with_ip with_ttl] in Hx; rewrite ?elem_of_app, ?list_elem_of_singleton in Hx; try (by left); destruct Hx as [Hx| ->]; [by left|right; exists ttl, ip; by split; [left|]|by left|right; exists ttl, ip; by split; [right|]]. }
  - destruct (IH Hl) as [?|(ttl & b & Hin & ->)]; [by left|]. right. exists ttl, b. rewrite !elem_of_app. split; [tauto|done].
  - right. exists ttl, b. rewrite !elem_of_app, !list_elem_of_singleton. split; [destruct Hy as [-> | ->]; tauto|done].
Qed.

Lemma take_authorities now l r : rec_IP (foldl (take_authority now) r l) = rec_IP r.
Proof. revert r. induction l as [|[] l IH]; intros r; [done|cbn [foldl]; by rewrite IH..]. Qed.

(** The time to live that counts is that of the last answer. *)
Definition last_ttl (m : Message) : Z := match last (Answer m) with Some r => rr_ttl r | None => 0 end.

Lemma take_answers_ttl now l r : l ≠ [] -> let r' := foldl (take_answer now) r l in
  TTL r' = match last l with Some x => rr_ttl x | None => 0 end /\ Expire r' = now + TTL r' * second.
Proof. destruct l as [|x l _] using rev_ind; [done|]. intros _. cbv zeta. rewrite foldl_snoc, last_snoc. by destruct x. Qed.

Lemma parse_says now m a : Rcode m = 0 -> Truncated m = false -> Some a ∈ rec_IP (parseResponse now m).1 ->
  (exists ttl b, (rr_A ttl b ∈ Answer m \/ rr_AAAA ttl b ∈ Answer m) /\ IPAddress b = Some a) /\
  TTL (parseResponse now m).1 = last_ttl m /\ Expire (parseResponse now m).1 = now + last_ttl m * second.
Proof.
  intros Hr Ht. unfold parseResponse. rewrite Ht, Hr. cbn [fst]. set (r0 := {| ReqID := msg_Id m |}). set (r1 := foldl (take_answer now) r0 (Answer m)).
  change (0 =? 0) with true. change (0 =? RcodeNameError) with false. rewrite andb_true_r, orb_false_r. case_bool_decide as He; [rewrite take_authorities, He; by intros ?%elem_of_nil|]. intros Ha.
  split; [apply take_answers_ips in Ha as [?%elem_of_nil|(ttl & b & Hin & Hb)]; [done|]; by exists ttl, b|].
  assert (Answer m ≠ []) as Hne by (intros Hx; apply He; unfold r1; by rewrite Hx). destruct (take_answers_ttl now (Answer m) r0 Hne) as [H1 H2]. fold r1 in H1, H2. rewrite H2, H1. done.
Qed.

Definition record_for (ty : req_type) (rec : record) : option IPRecord := match ty with req_A => rec_A rec | req_AAAA => rec_AAAA rec end.

(** ** Properties *)

(** C24: whatever questions, responses, looks, cleanings and the closing come
    in between, an address that a look into the cache returns is in the
    record that the cache has for this very domain and a family that is asked
    for now, and the record is what was made of a message that was received:
    one with the identifier of a question for this domain and family (or the
    one that came over TCP in its place, when it was cut), which reported no
    error, has the address among its answers, and has not expired by the time
    to live of its last answer, counted from when it was received, unless this
    is zero, for a record to be used once. *)
Theorem cache_answers_sound c now domain opt ips t err back ip :
  cache_reachable c -> findIPsForDomain now domain opt (server c) = Ok (ips, t, err, back) -> ip ∈ ips ->
  err = None /\ exists m rec ty r t0 message tcp used, cached (server c) = Some m /\ m !! domain = Some rec /\ record_for ty rec = Some r /\
    match ty with req_A => IPv4Enable opt | req_AAAA => IPv6Enable opt end = true /\
    (t0, message, tcp) ∈ received c /\ made_of (t0, message, tcp) r /\ counts message tcp used /\ (msg_Id message, ty, domain) ∈ asked c /\
    Rcode used = 0 /\ (last_ttl used <= 0 \/ now <= t0 + last_ttl used * second) /\
    exists ttl b a, (rr_A ttl b ∈ Answer used \/ rr_AAAA ttl b ∈ Answer used) /\ IPAddress b = Some a /\ IP a = Some ip.
Proof.
  intros Hc Hf Hip. destruct (cache_inv_reachable c Hc) as [Hcached _ _ _ Hans]. destruct (find_ok _ _ _ _ _ _ _ _ _ Hf Hip) as (-> & m & rec & ty & r & a & Hm & Hl & Hin & Hen & [Hcode Hlive] & Ha & Hia).
  split; [done|]. destruct (Hans ty domain r (Hcached _ _ _ Hm Hl _ Hin)) as (Hasked & [[t0 message] tcp] & Hrec & Hmade). pose proof Hmade as (used & Hcounts & Hr). cbn [fst snd] in Hcounts, Hr.
  assert (record_for ty rec = Some r) as Hfor by (apply elem_of_answers in Hin as [(r' & Hr' & [= -> ->])|(r' & Hr' & [= -> ->])]; done).
  exists m, rec, ty, r, t0, message, tcp, used. assert (Rcode used = 0) as Hrc by (rewrite Hr in Hcode; cbn in Hcode; by rewrite RCode_parse in Hcode).
  rewrite Hr in Ha, Hlive, Hasked. cbn in Ha, Hlive, Hasked. destruct (parse_says t0 used a Hrc (proj2 Hcounts) Ha) as ((ttl & b & Hb & Hba) & Httl & Hexp). rewrite Httl, Hexp in Hlive.
  do 10 (split; [done|]). by exists ttl, b, a.
Qed.

(** ** What can go wrong *)

Definition any_ip : IPOption := {| IPv4Enable := true; IPv6Enable := true; FakeEnable := false |}.

(** Of several answers the time of the last one counts for all. *)
Lemma last_ttl_counts now x y :
  let r := (parseResponse now {| msg_Id := 1; Rcode := 0; Truncated := false; Answer := [rr_A 10 x; rr_A 3600 y]; Ns := [] |}).1 in
  TTL r = 3600 /\ rec_IP r = [IPAddress x; IPAddress y].
Proof. done. Qed.

(** An address record without an address, which the library reads from a
    record without data, makes the next look panic. *)
Lemma empty_address_panics now domain : findIPsForDomain now domain any_ip
    {| cached := Some {[domain := {| rec_A := Some (parseResponse now {| msg_Id := 1; Rcode := 0; Truncated := false; Answer := [rr_A 60 []]; Ns := [] |}).1; rec_AAAA := None |}]};
       requests := Some ∅; reqID := 1 |} = Panic.
Proof.
  unfold findIPsForDomain. cbn [cached mbind option_bind]. rewrite lookup_singleton_eq. cbn -[second]. unfold getIPs. cbn -[second]. destruct (Z.ltb_spec (now + 60 * second) now); [unfold second in *; lia|]. done.
Qed.

Definition one_v4 : Address := ipv4Address [x01; x02; x03; x04].
Definition once : IPRecord := {| ReqID := 1; rec_IP := [Some one_v4]; Expire := 0; RCode := 0; TTL := 0 |}.
Definition lasting : IPRecord := {| ReqID := 2; rec_IP := [Some (ipv6Address (replicate 16 x01))]; Expire := 100; RCode := 0; TTL := 60 |}.

(** A record that comes in between reading and writing back is lost. *)
Lemma record_lost domain :
  let s := {| cached := Some {[domain := {| rec_A := Some once; rec_AAAA := None |}]}; requests := Some ∅; reqID := 2 |} in
  exists ips t err back s1 s2, findIPsForDomain 50 domain any_ip s = Ok (ips, t, err, Some back) /\
    updateIP domain {| rec_A := None; rec_AAAA := Some lasting |} s = Ok s1 /\ write_back domain back s1 = Ok s2 /\
    cached s1 = Some {[domain := {| rec_A := Some once; rec_AAAA := Some lasting |}]} /\ cached s2 = Some {[domain := {| rec_A := None; rec_AAAA := None |}]}.
Proof.
  cbv zeta. unfold findIPsForDomain, updateIP. cbn [cached mbind option_bind]. rewrite lookup_singleton_eq. cbn [default rec_A rec_AAAA isNewer orb].
  eexists _, _, _, _, _, _. split; [reflexivity|]. split; [reflexivity|]. split; [reflexivity|]. cbn [cached]. by rewrite !insert_singleton_eq.
Qed.

(** A response that was taken before the name server is closed is written to
    a map that is gone. *)
Lemma late_record_panics domain s : updateIP domain {| rec_A := Some once; rec_AAAA := None |} (cache_Close s) = Panic.
Proof. done. Qed.

(** ** An example *)

Definition asked_once : cache_system :=
  {| server := {| cached := Some ∅; requests := Some {[1 := {| reqType := req_A; req_domain := bs "a."; req_expire := 8 * second |}]}; reqID := 1 |};
     updates := []; backs := []; asked := [(1, req_A, bs "a.")]; answered := []; received := []; crashed := false |}.

Definition reply : Message := {| msg_Id := 1; Rcode := 0; Truncated := false; Answer := [rr_A 60 [x01; x02; x03; x04]]; Ns := [] |}.
Definition replied : IPRecord := (parseResponse 0 reply).1.

Definition answered_once : cache_system :=
  {| server := {| cached := Some {[bs "a." := {| rec_A := Some replied; rec_AAAA := None |}]}; requests := Some ∅; reqID := 1 |};
     updates := []; backs := []; asked := [(1, req_A, bs "a.")]; answered := [(req_A, bs "a.", replied)]; received := [(0, reply, None)]; crashed := false |}.

Lemma answered_once_reachable : cache_reachable answered_once.
Proof.
  eapply rtc_l; [eapply (step_ask 0 req_A (bs "a.")); vm_compute; reflexivity|]. eapply rtc_l; [eapply (step_answer 0 reply None); vm_compute; reflexivity|].
  eapply rtc_l; [eapply (step_update _ [] []); [reflexivity|vm_compute; reflexivity]|]. apply rtc_refl.
Qed.

Lemma cache_answers_sound_witness : (@None cache_error) = None /\ exists m rec ty r t0 message tcp used, cached (server answered_once) = Some m /\ m !! bs "a." = Some rec /\ record_for ty rec = Some r /\
    match ty with req_A => IPv4Enable any_ip | req_AAAA => IPv6Enable any_ip end = true /\
    (t0, message, tcp) ∈ received answered_once /\ made_of (t0, message, tcp) r /\ counts message tcp used /\ (msg_Id message, ty, bs "a.") ∈ asked answered_once /\
    Rcode used = 0 /\ (last_ttl used <= 0 \/ 5 <= t0 + last_ttl used * second) /\
    exists ttl b a, (rr_A ttl b ∈ Answer used \/ rr_AAAA ttl b ∈ Answer used) /\ IPAddress b = Some a /\ IP a = Some [x01; x02; x03; x04].
Proof.
  refine (cache_answers_sound answered_once 5 (bs "a.") any_ip [[x01; x02; x03; x04]] 0 None None [x01; x02; x03; x04] answered_once_reachable _ _); [vm_compute; reflexivity|by left].
Defined.
