(* ===== verification/Heap.v ===== *)
(** * Go's [container/heap] on a slice

    [heap.Push] and [heap.Pop] with their loops [up] and [down], over a slice
    whose [Less] compares a key; and that they keep the heap's order, lose
    nothing and give the least element first. *)

From S2P Require Import Prelude.

Section Heap.
Context {A : Type} (key : A -> Z).
Local Open Scope nat_scope.

(** [h[i], h[j] = h[j], h[i]]. *)
Definition heap_swap (i j : nat) (h : list A) : list A :=
  match h !! i, h !! j with Some a, Some b => <[i := b]> (<[j := a]> h) | _, _ => h end.

Definition heap_less (i j : nat) (h : list A) : bool :=
  match h !! i, h !! j with Some a, Some b => (key a <? key b)%Z | _, _ => false end.

(** [(j-1)/2], which is 0 for 0. *)
Definition heap_parent (j : nat) : nat := Nat.div (j - 1) 2.

Fixpoint heap_up (fuel : nat) (j : nat) (h : list A) : list A :=
  match fuel with
  | O => h
  | S fuel' => let i := heap_parent j in if (i =? j) || negb (heap_less j i h) then h else heap_up fuel' i (heap_swap i j h)
  end.

Fixpoint heap_down (fuel : nat) (i n : nat) (h : list A) : list A :=
  match fuel with
  | O => h
  | S fuel' =>
      let j1 := 2 * i + 1 in
      if n <=? j1 then h
      else
        let j := if (j1 + 1 <? n) && heap_less (j1 + 1) j1 h then j1 + 1 else j1 in
        if negb (heap_less j i h) then h else heap_down fuel' j n (heap_swap i j h)
  end.

Definition heap_Push (x : A) (h : list A) : list A := heap_up (S (length h)) (length h) (h ++ [x]).

(** The least element and the others; nothing on an empty heap, where Go
    panics. *)
Definition heap_Pop (h : list A) : option (A * list A) :=
  let n := length h - 1 in
  let h' := heap_down (length h) 0 n (heap_swap 0 n h) in
  x ← last h'; Some (x, removelast h').

(** ** The order *)

Definition le_at (h : list A) (i j : nat) : Prop := forall a b, h !! i = Some a -> h !! j = Some b -> (key a <= key b)%Z.

(** The first [n] elements are in heap order. *)
Definition heap_ok (n : nat) (h : list A) : Prop := forall k, 0 < k < n -> le_at h (heap_parent k) k.

(** All is in order but [j] with its parent. *)
Definition up_inv (j : nat) (h : list A) : Prop :=
  (forall k, 0 < k < length h -> k <> j -> le_at h (heap_parent k) k) /\
  (forall k, 0 < k < length h -> heap_parent k = j -> 0 < j -> le_at h (heap_parent j) k).

(** All is in order but [i] with its children. *)
Definition down_inv (i n : nat) (h : list A) : Prop :=
  (forall k, 0 < k < n -> heap_parent k <> i -> le_at h (heap_parent k) k) /\
  (forall k, 0 < k < n -> heap_parent k = i -> 0 < i -> le_at h (heap_parent i) k).

Lemma parent_spec k : 0 < k -> k = 2 * heap_parent k + 1 \/ k = 2 * heap_parent k + 2.
Proof. unfold heap_parent. intros. pose proof (Nat.div_mod_eq (k - 1) 2). pose proof (Nat.mod_upper_bound (k - 1) 2). lia. Qed.

Lemma parent_lt k : 0 < k -> heap_parent k < k.
Proof. intros H. pose proof (parent_spec k H). lia. Qed.

Lemma swap_length i j h : length (heap_swap i j h) = length h.
Proof. unfold heap_swap. repeat case_match; by rewrite ?length_insert. Qed.

Lemma swap_lookup i j h k : i < length h -> j < length h -> heap_swap i j h !! k = if decide (k = i) then h !! j else if decide (k = j) then h !! i else h !! k.
Proof.
  intros Hi Hj. destruct (lookup_lt_is_Some_2 h i Hi) as [a Ha]. destruct (lookup_lt_is_Some_2 h j Hj) as [b Hb].
  unfold heap_swap. rewrite Ha, Hb. destruct (decide (k = i)) as [->|Hk]; [by rewrite list_lookup_insert_eq by (rewrite length_insert; lia)|].
  rewrite list_lookup_insert_ne by done. destruct (decide (k = j)) as [->|]; [by rewrite list_lookup_insert_eq by lia|by rewrite list_lookup_insert_ne by done].
Qed.

Lemma insert_Permutation (l : list A) j a b : l !! j = Some b -> b :: <[j := a]> l ≡ₚ a :: l.
Proof.
  intros Hb. pose proof (take_drop_middle l j b Hb) as E. rewrite insert_take_drop by (by eapply lookup_lt_Some).
  rewrite <-E at 3. rewrite <-!Permutation_middle. apply Permutation_swap.
Qed.

Lemma swap_Permutation i j h : heap_swap i j h ≡ₚ h.
Proof.
  unfold heap_swap. destruct (h !! i) as [a|] eqn:Ha; [|done]. destruct (h !! j) as [b|] eqn:Hb; [|done].
  apply (Permutation_cons_inv (a := a)). etransitivity; [|by apply insert_Permutation].
  destruct (decide (i = j)) as [->|Hij]; [rewrite Ha in Hb; injection Hb as <-; by rewrite list_insert_insert_eq|].
  apply insert_Permutation. by rewrite list_lookup_insert_ne.
Qed.

Lemma swap_le i j h k l : i < length h -> j < length h ->
  le_at h (if decide (k = i) then j else if decide (k = j) then i else k) (if decide (l = i) then j else if decide (l = j) then i else l) -> le_at (heap_swap i j h) k l.
Proof. intros Hi Hj. unfold le_at. rewrite !swap_lookup by done. repeat case_decide; done. Qed.

Lemma less_spec i j h : i < length h -> j < length h -> if heap_less i j h then le_at h i j else le_at h j i.
Proof.
  intros Hi Hj. unfold heap_less, le_at. destruct (lookup_lt_is_Some_2 h i Hi) as [a ->]. destruct (lookup_lt_is_Some_2 h j Hj) as [b ->].
  case_match; intros; simplify_eq; lia.
Qed.

Lemma le_trans h i j k : j < length h -> le_at h i j -> le_at h j k -> le_at h i k.
Proof. intros Hj H1 H2 a b Ha Hb. destruct (lookup_lt_is_Some_2 h j Hj) as [c Hc]. specialize (H1 a c Ha Hc). specialize (H2 c b Hc Hb). lia. Qed.

Lemma up_step i j h : 0 < j < length h -> i = heap_parent j -> le_at h j i -> up_inv j h -> up_inv i (heap_swap i j h).
Proof.
  intros Hj -> Hl [H1 H2]. pose proof (parent_lt j ltac:(lia)) as Hi. set (i := heap_parent j) in *.
  split; intros k; rewrite swap_length; intros Hk; pose proof (parent_lt k ltac:(lia)) as Hpk.
  - intros Hki. apply swap_le; [lia..|]. rewrite (decide_False (P := k = i)) by done. destruct (decide (k = j)) as [->|Hkj]; [by rewrite decide_True by done|].
    specialize (H1 k Hk Hkj). destruct (decide (heap_parent k = i)) as [E|]; [rewrite E in H1; eapply le_trans, H1; [lia|done]|].
    destruct (decide (heap_parent k = j)) as [E|]; [|done]. apply H2; [done..|lia].
  - intros E Hi0. pose proof (parent_lt i Hi0). apply swap_le; [lia..|]. rewrite (decide_False (P := heap_parent i = i)), (decide_False (P := heap_parent i = j)), (decide_False (P := k = i)) by lia.
    pose proof (H1 i ltac:(lia) ltac:(lia)) as Hpi. destruct (decide (k = j)) as [->|Hkj]; [done|]. specialize (H1 k Hk Hkj). rewrite E in H1. by eapply le_trans, H1; [lia|].
Qed.

Lemma up_ok fuel : forall j h, j < fuel -> j < length h -> up_inv j h -> heap_ok (length h) (heap_up fuel j h) /\ heap_up fuel j h ≡ₚ h.
Proof.
  induction fuel as [|fuel IH]; intros j h Hf Hj Hinv; [lia|]. cbn [heap_up]. destruct (decide (j = 0)) as [->|Hj0].
  { cbn. split; [|done]. intros k Hk. apply Hinv; lia. }
  pose proof (parent_lt j ltac:(lia)) as Hij. destruct (Nat.eqb_spec (heap_parent j) j); [lia|]. cbn [orb].
  pose proof (less_spec j (heap_parent j) h ltac:(lia) ltac:(lia)) as Hl. destruct (heap_less j (heap_parent j) h); cbn [negb].
  - destruct (IH (heap_parent j) (heap_swap (heap_parent j) j h)) as [HI HP]; [lia|rewrite swap_length; lia|by apply up_step; [lia|..]|].
    rewrite swap_length in HI. split; [done|]. by rewrite HP, swap_Permutation.
  - split; [|done]. intros k Hk. destruct (decide (k = j)) as [->|]; [done|]. by apply Hinv.
Qed.

Lemma Push_ok x h : heap_ok (length h) h -> heap_ok (S (length h)) (heap_Push x h) /\ heap_Push x h ≡ₚ x :: h.
Proof.
  intros Hh. unfold heap_Push. assert (Hlen : length (h ++ [x]) = S (length h)) by (rewrite length_app; cbn; lia).
  destruct (up_ok (S (length h)) (length h) (h ++ [x])) as [HI HP]; [lia|lia| |rewrite Hlen in HI; split; [done|by rewrite HP, Permutation_app_comm]].
  split; intros k Hk; pose proof (parent_lt k ltac:(lia)).
  - intros Hkl a b. rewrite !lookup_app_l by lia. apply Hh. lia.
  - lia.
Qed.

Lemma Push_order x h : heap_ok (length h) h -> heap_ok (length (heap_Push x h)) (heap_Push x h).
Proof. intros Hh. destruct (Push_ok x h Hh) as [Ho HP]. by rewrite (Permutation_length HP). Qed.

Lemma down_step i j n h : n <= length h -> i < j < n -> heap_parent j = i -> le_at h j i -> (forall k, 0 < k < n -> heap_parent k = i -> le_at h j k) ->
  down_inv i n h -> down_inv j n (heap_swap i j h).
Proof.
  intros Hn Hj Hp Hl Hmin [H1 H2]. split; intros k Hk; pose proof (parent_lt k ltac:(lia)) as Hpk.
  - intros Hkj'. apply swap_le; [lia..|]. destruct (decide (heap_parent k = i)) as [E|].
    + rewrite (decide_False (P := k = i)) by lia. destruct (decide (k = j)); [done|by apply Hmin].
    + rewrite (decide_False (P := heap_parent k = j)) by done. destruct (decide (k = i)) as [->|]; [apply H2; [lia|done|lia]|].
      rewrite decide_False by congruence. by apply H1.
  - intros E Hj0. rewrite Hp. apply swap_le; [lia..|]. rewrite decide_True, !decide_False by lia. rewrite <-E. apply H1; lia.
Qed.

Lemma down_ok fuel : forall i n h, n - i <= fuel -> n <= length h -> down_inv i n h ->
  heap_ok n (heap_down fuel i n h) /\ heap_down fuel i n h ≡ₚ h /\ forall k, n <= k -> heap_down fuel i n h !! k = h !! k.
Proof.
  assert (Hleaf : forall i n h, n <= 2 * i + 1 -> down_inv i n h -> heap_ok n h).
  { intros i n h Hi [H1 _] k Hk. apply H1; [done|]. pose proof (parent_spec k ltac:(lia)). lia. }
  induction fuel as [|fuel IH]; intros i n h Hf Hn Hinv; cbn [heap_down]; [split; [eapply Hleaf; [|done]; lia|done]|].
  destruct (Nat.leb_spec n (2 * i + 1)); [split; [by eapply Hleaf|done]|].
  set (j := if _ && _ then _ else _).
  assert (Hj : (j = 2 * i + 1 \/ j = 2 * i + 2) /\ j < n /\ forall k, 0 < k < n -> heap_parent k = i -> le_at h j k).
  { subst j. destruct (Nat.ltb_spec (2 * i + 1 + 1) n); cbn [andb].
    - pose proof (less_spec (2 * i + 1 + 1) (2 * i + 1) h ltac:(lia) ltac:(lia)) as Hl. destruct (heap_less _ _ _); (split_and!; [lia..|]); intros k Hk E;
        (pose proof (parent_spec k ltac:(lia)) as [Hs|Hs]; rewrite E in Hs; [replace k with (2 * i + 1) by lia|replace k with (2 * i + 1 + 1) by lia]; try done; intros a b Ha Hb; simplify_eq; lia).
    - split_and!; [lia..|]. intros k Hk E. pose proof (parent_spec k ltac:(lia)). replace k with (2 * i + 1) by lia. intros a b Ha Hb. simplify_eq. lia. }
  clearbody j. destruct Hj as (Hj & Hjn & Hmin). assert (Hp : heap_parent j = i) by (pose proof (parent_spec j ltac:(lia)); lia).
  pose proof (less_spec j i h ltac:(lia) ltac:(lia)) as Hl. destruct (heap_less j i h); cbn [negb].
  - destruct (IH j n (heap_swap i j h)) as (HI & HP & HK); [lia|by rewrite swap_length|by apply down_step; [|lia|..]|].
    split_and!; [done|by rewrite HP, swap_Permutation|]. intros k Hk. rewrite HK, swap_lookup, !decide_False by lia. done.
  - split; [|done]. intros k Hk. destruct (decide (heap_parent k = i)) as [E|]; [|by apply Hinv].
    rewrite E. eapply le_trans, Hmin; [lia|done..].
Qed.

Lemma root_least n h k : heap_ok n h -> n <= length h -> k < n -> le_at h 0 k.
Proof.
  intros Hh Hn. induction k as [k IH] using lt_wf_ind. intros Hk. destruct (decide (k = 0)) as [->|]; [intros a b Ha Hb; simplify_eq; lia|].
  pose proof (parent_lt k ltac:(lia)). eapply le_trans, Hh; [..|lia]; [lia|apply IH; lia].
Qed.

Lemma heap_ok_app n h l : n <= length h -> heap_ok n (h ++ l) <-> heap_ok n h.
Proof.
  intros Hn. unfold heap_ok, le_at. split; intros Hh k Hk a b; pose proof (parent_lt k ltac:(lia)); specialize (Hh k Hk a b); rewrite !lookup_app_l in * by lia; done.
Qed.

(** Nothing is lost, what is left is in order, and no element left has a
    smaller key. *)
Lemma Pop_ok h : heap_ok (length h) h -> h <> [] ->
  exists x h', heap_Pop h = Some (x, h') /\ h ≡ₚ x :: h' /\ heap_ok (length h') h' /\ forall y, y ∈ h' -> (key x <= key y)%Z.
Proof.
  intros Hh Hne. assert (0 < length h) by (destruct h; [done|cbn; lia]). unfold heap_Pop. set (n := length h - 1).
  destruct (down_ok (length h) 0 n (heap_swap 0 n h)) as (HI & HP & HK); [lia|rewrite swap_length; lia| |].
  { split; [|lia]. intros k Hk Hk0. apply swap_le; [lia..|]. pose proof (parent_lt k ltac:(lia)). rewrite !decide_False by lia. apply Hh. lia. }
  set (h1 := heap_down _ _ _ _) in *. rewrite swap_Permutation in HP. pose proof (Permutation_length HP) as Hlen.
  destruct h1 as [|y l _] using rev_ind; [cbn in Hlen; lia|]. rewrite last_snoc. cbn [mbind option_bind]. rewrite removelast_last. exists y, l. rewrite length_app in Hlen. cbn in Hlen.
  split; [done|]. split; [by rewrite <-HP, Permutation_app_comm|]. rewrite heap_ok_app in HI by lia. replace (length l) with n by lia. split; [done|].
  intros z Hz. assert (Hzh : z ∈ h) by (rewrite <-HP; set_solver). apply list_elem_of_lookup_1 in Hzh as [k Hk]. specialize (HK n ltac:(lia)).
  rewrite swap_lookup, lookup_app_r in HK by lia. replace (n - length l) with 0 in HK by lia. cbn in HK.
  assert (Hy : h !! 0 = Some y) by (destruct (decide (n = 0)) as [E|]; [by rewrite E in HK|rewrite decide_True in HK; done]).
  exact (root_least (length h) h k Hh ltac:(lia) (lookup_lt_Some _ _ _ Hk) y z Hy Hk).
Qed.
End Heap.
