(* ===== verification/XhttpQueue.v ===== *)
(** * The upload queue of XHTTP, [transport/internet/splithttp/upload_queue.go]

    A client posts its data in packets with numbers; the requests arrive in
    any order, each pushes its packet into a channel, and one reader puts them
    in order with a heap. A request may instead bring a stream of its own,
    from which is then read. *)

From S2P Require Import Prelude Heap.
Local Open Scope Z_scope.

(** A request's stream is a number.
    src/transport/internet/splithttp/upload_queue.go:14-18 Packet *)
Record Packet := { Reader : option nat; Payload : bytes; Seq : Z }.

#[export] Instance Packet_eq_dec : EqDecision Packet.
Proof. solve_decision. Defined.

Abbreviation uploadHeap := (list Packet).

(** The package [heap] on a slice ordered by [Seq].
    src/transport/internet/splithttp/upload_queue.go:126-134 uploadHeap.Push *)
Definition upload_Push (p : Packet) (h : uploadHeap) : uploadHeap := heap_Push Seq p h.

(** src/transport/internet/splithttp/upload_queue.go:136-142 uploadHeap.Pop *)
Definition upload_Pop (h : uploadHeap) : option (Packet * uploadHeap) := heap_Pop Seq h.

(** The channel is the list of what is in it; [done.Instance] is whether it is
    done.
    src/transport/internet/splithttp/upload_queue.go:20-27 uploadQueue *)
Record uploadQueue := { reader : option nat; pushedPackets : list Packet; heap : uploadHeap; nextSeq : Z; maxPackets : Z; closed : bool }.

Definition with_heap (h : uploadQueue) (l : uploadHeap) (seq : Z) : uploadQueue :=
  {| reader := reader h; pushedPackets := pushedPackets h; heap := l; nextSeq := seq; maxPackets := maxPackets h; closed := closed h |}.
Definition with_pushed (h : uploadQueue) (l : list Packet) : uploadQueue :=
  {| reader := reader h; pushedPackets := l; heap := heap h; nextSeq := nextSeq h; maxPackets := maxPackets h; closed := closed h |}.

(** [make] panics on a negative size.
    src/transport/internet/splithttp/upload_queue.go NewUploadQueue *)
Definition NewUploadQueue (maxPackets : Z) : outcome unit uploadQueue :=
  if maxPackets <? 0 then Panic else Ok {| reader := None; pushedPackets := []; heap := []; nextSeq := 0; maxPackets := maxPackets; closed := false |}.

(** ** Pushing, in two steps

    Whether the queue takes packets still; a stream is put in its place by
    compare-and-swap.
    src/transport/internet/splithttp/upload_queue.go:40-42 uploadQueue.Push *)
Definition push_check (p : Packet) (h : uploadQueue) : option uploadQueue :=
  match reader h, Reader p with
  | Some _, _ => None
  | None, None => Some h
  | None, Some r => Some {| reader := Some r; pushedPackets := pushedPackets h; heap := heap h; nextSeq := nextSeq h; maxPackets := maxPackets h; closed := closed h |}
  end.

(** The channel takes a packet when it has room, and the pusher is told
    whether the queue was open.
    src/transport/internet/splithttp/upload_queue.go:43-51 uploadQueue.Push *)
Definition push_send (p : Packet) (h : uploadQueue) : option (uploadQueue * bool) :=
  if Z.of_nat (length (pushedPackets h)) <? maxPackets h then Some (with_pushed h (pushedPackets h ++ [p]), negb (closed h)) else None.

(** src/transport/internet/splithttp/upload_queue.go uploadQueue.Close *)
Definition upload_Close (h : uploadQueue) : uploadQueue * option nat :=
  ({| reader := reader h; pushedPackets := pushedPackets h; heap := heap h; nextSeq := nextSeq h; maxPackets := maxPackets h; closed := true |}, reader h).

(** ** Reading *)

(** What a read returns: it reads from a stream, has data, is at the end, or
    fails because too many packets are ahead. *)
Inductive read_result := FromReader (r : nat) | Data (b : bytes) | EOF | TooLarge.

(** Where a read of [n] bytes waits for the channel or the end: with an empty
    heap, or for a packet that is missing. *)
Inductive read_phase := Idle | First (n : nat) | Missing (n : nat).

Inductive turn := Wait (p : read_phase) | Done (r : read_result).

(** The loop pops at every turn.
    src/transport/internet/splithttp/upload_queue.go:83-120 uploadQueue.Read *)
Fixpoint read_loop (fuel : nat) (n : nat) (h : uploadQueue) : turn * uploadQueue :=
  match fuel with
  | O => (Done (Data []), h)
  | S fuel' =>
      match upload_Pop (heap h) with
      | None => (Done (Data []), h)
      | Some (packet, rest) =>
          if Seq packet =? nextSeq h then
            let k := Nat.min n (length (Payload packet)) in
            if (k <? length (Payload packet))%nat
            then (Done (Data (take k (Payload packet))), with_heap h (upload_Push {| Reader := Reader packet; Payload := drop k (Payload packet); Seq := Seq packet |} rest) (nextSeq h))
            else (Done (Data (take k (Payload packet))), with_heap h rest (u64 (Seq packet + 1)))
          else if Seq packet >? nextSeq h then
            if Z.of_nat (length rest) >? maxPackets h then (Done TooLarge, with_heap h rest (nextSeq h))
            else (Wait (Missing n), with_heap h (upload_Push packet rest) (nextSeq h))
          else read_loop fuel' n (with_heap h rest (nextSeq h))
      end
  end.

(** src/transport/internet/splithttp/upload_queue.go:83-120 uploadQueue.Read *)
Definition read_turns (n : nat) (h : uploadQueue) : turn * uploadQueue := read_loop (length (heap h)) n h.

(** src/transport/internet/splithttp/upload_queue.go:63-72 uploadQueue.Read *)
Definition read_start (n : nat) (h : uploadQueue) : turn * uploadQueue :=
  match reader h with
  | Some r => (Done (FromReader r), h)
  | None =>
      if closed h then (Done EOF, h)
      else if (length (heap h) =? 0)%nat then (Wait (First n), h)
      else read_turns n h
  end.

(** The first packet comes out of the channel; a stream may come instead.
    src/transport/internet/splithttp/upload_queue.go:73-77 uploadQueue.Read *)
Definition receive_first (n : nat) (p : Packet) (h : uploadQueue) : turn * uploadQueue :=
  match Reader p with
  | Some r => (Done (FromReader r), h)
  | None => read_turns n (with_heap h (upload_Push p (heap h)) (nextSeq h))
  end.

(** A further packet comes, of which only the number counts.
    src/transport/internet/splithttp/upload_queue.go:112-113 uploadQueue.Read *)
Definition receive_missing (n : nat) (p : Packet) (h : uploadQueue) : turn * uploadQueue :=
  read_turns n (with_heap h (upload_Push p (heap h)) (nextSeq h)).

(** src/transport/internet/splithttp/upload_queue.go:72-81 uploadQueue.Read *)
Definition read_receive (ph : read_phase) (h : uploadQueue) : option (turn * uploadQueue) :=
  match ph, pushedPackets h with
  | Idle, _ | _, [] => None
  | First n, p :: l => Some (receive_first n p (with_pushed h l))
  | Missing n, p :: l => Some (receive_missing n p (with_pushed h l))
  end.

(** ** The queue, its pushers and its reader

    [pending] are the pushes between their two steps; [given] are the packets
    pushed so far, [got] the data read, [torn] whether a read has failed for
    too many packets. *)
Record upload_system := { queue : uploadQueue; phase : read_phase; pending : list Packet; given : list Packet; got : bytes; torn : bool }.

Definition after_turn (s : upload_system) (t : turn * uploadQueue) : upload_system :=
  {| queue := t.2; phase := match t.1 with Wait p => p | Done _ => Idle end; pending := pending s; given := given s;
     got := match t.1 with Done (Data b) => got s ++ b | _ => got s end; torn := torn s || match t.1 with Done TooLarge => true | _ => false end |}.

Inductive upload_step : upload_system -> upload_system -> Prop :=
  | up_push s p q : push_check p (queue s) = Some q ->
      upload_step s {| queue := q; phase := phase s; pending := p :: pending s; given := p :: given s; got := got s; torn := torn s |}
  | up_send s p l q b : pending s ≡ₚ p :: l -> push_send p (queue s) = Some (q, b) ->
      upload_step s {| queue := q; phase := phase s; pending := l; given := given s; got := got s; torn := torn s |}
  | up_refuse s p l : pending s ≡ₚ p :: l -> closed (queue s) = true ->
      upload_step s {| queue := queue s; phase := phase s; pending := l; given := given s; got := got s; torn := torn s |}
  | up_read s n : phase s = Idle -> upload_step s (after_turn s (read_start n (queue s)))
  | up_receive s t : read_receive (phase s) (queue s) = Some t -> upload_step s (after_turn s t)
  | up_eof s : phase s <> Idle -> closed (queue s) = true -> upload_step s (after_turn s (Done EOF, queue s))
  | up_close s :
      upload_step s {| queue := (upload_Close (queue s)).1; phase := phase s; pending := pending s; given := given s; got := got s; torn := torn s |}.

Definition upload_start (q : uploadQueue) : upload_system := {| queue := q; phase := Idle; pending := []; given := []; got := []; torn := false |}.

Definition upload_reachable (max : Z) (s : upload_system) : Prop := exists q, NewUploadQueue max = Ok q /\ rtc upload_step (upload_start q) s.

(** * The upload queue of XHTTP puts packets in order

    Whatever the order in which requests arrive and interleave with the
    reader, what is read is the packets' payloads in the order of their
    numbers, and the reader waits only for a packet that has not come. *)

Section InOrder.
Context (payload : Z -> bytes).

(** The client gives every number to one packet and opens no stream. *)
Definition honest (l : list Packet) : Prop :=
  NoDup (Seq <$> l) /\ forall p, p ∈ l -> Reader p = None /\ 0 <= Seq p < 2 ^ 64 /\ Payload p = payload (Seq p).

(** The payloads of the first [m] packets and [k] bytes of the next. *)
Definition stream (m : Z) (k : nat) : bytes := concat (payload <$> seqZ 0 m) ++ take k (payload m).

(** A heap whose packets are those from [m] on, of the first of which [k]
    bytes have been read. *)
Record heap_inv (m : Z) (k : nat) (l : uploadHeap) : Prop := {
  hi_order : heap_ok Seq (length l) l;
  hi_nodup : NoDup (Seq <$> l);
  hi_all : forall p, p ∈ l -> Reader p = None /\ m <= Seq p < 2 ^ 64 /\ Payload p = if decide (Seq p = m) then drop k (payload m) else payload (Seq p);
  hi_part : (0 < k)%nat -> m ∈ Seq <$> l }.

Definition in_flight (s : upload_system) : list Packet := pushedPackets (queue s) ++ pending s.

Record upload_inv (m : Z) (k : nat) (s : upload_system) : Prop := {
  ui_got : got s = stream m k;
  ui_range : 0 <= m <= 2 ^ 64;
  ui_seq : nextSeq (queue s) = u64 m;
  ui_reader : reader (queue s) = None;
  ui_heap : heap_inv m k (heap (queue s));
  ui_nodup : NoDup ((Seq <$> heap (queue s)) ++ (Seq <$> in_flight s));
  ui_flight : forall p, p ∈ in_flight s -> p ∈ given s /\ m <= Seq p;
  ui_known : forall p, p ∈ heap (queue s) -> Seq p ∈ Seq <$> given s;
  ui_past : forall j, 0 <= j < m -> j ∈ Seq <$> given s;
  ui_given : torn s = false -> closed (queue s) = false ->
    forall p, p ∈ given s -> Seq p < m \/ Seq p ∈ (Seq <$> heap (queue s)) ++ (Seq <$> in_flight s);
  ui_phase : match phase s with Idle => True | First _ => heap (queue s) = [] | Missing _ => forall p, p ∈ heap (queue s) -> m < Seq p end }.

Lemma stream_more m k j : stream m k ++ take j (drop k (payload m)) = stream m (k + j).
Proof. unfold stream. by rewrite <-app_assoc, <-take_take_drop. Qed.

Lemma stream_next m k : 0 <= m -> stream m k ++ drop k (payload m) = stream (m + 1) 0.
Proof.
  intros Hm. unfold stream. rewrite <-app_assoc, take_drop, seqZ_app, fmap_app, concat_app by lia. change (take 0 (payload (m + 1))) with (@nil byte). rewrite (app_nil_r (concat _ ++ concat _)).
  do 2 f_equal. rewrite Z.add_0_l. assert (seqZ m 1 = [m]) as -> by (by rewrite seqZ_cons, seqZ_nil by lia). cbn. by rewrite app_nil_r.
Qed.

(** ** A turn of the reader *)

Lemma heap_inv_perm m k l l' : heap_inv m k l -> l' ≡ₚ l -> heap_ok Seq (length l') l' -> heap_inv m k l'.
Proof. intros [Ho Hn Ha Hp] E Ho'. split; [done|by rewrite E|intros p; rewrite E; apply Ha|by rewrite E]. Qed.

(** A turn leaves all but the heap and the number alone. *)
Definition turn_ok (m : Z) (k : nat) (h : uploadQueue) (t : turn * uploadQueue) : Prop :=
  exists l' ns, t.2 = with_heap h l' ns /\
  match t.1 with
  | Wait (Missing _) => l' ≡ₚ heap h /\ ns = nextSeq h /\ heap_inv m k l' /\ forall p, p ∈ l' -> m < Seq p
  | Done (Data b) => exists m' k', ns = u64 m' /\ heap_inv m' k' l' /\ stream m' k' = stream m k ++ b /\
      (m' = m /\ (Seq <$> l') ≡ₚ (Seq <$> heap h) \/ m' = m + 1 /\ m :: (Seq <$> l') ≡ₚ (Seq <$> heap h))
  | Done TooLarge => heap_inv m k l' /\ ns = nextSeq h /\ exists p, heap h ≡ₚ p :: l'
  | _ => False
  end.

Lemma read_turns_ok m k n h : 0 <= m -> heap_inv m k (heap h) -> nextSeq h = u64 m -> heap h <> [] -> turn_ok m k h (read_turns n h).
Proof.
  intros Hm Hi Hseq Hne. unfold read_turns. destruct (heap h) as [|q0 l0] eqn:El; [done|]. rewrite <-El in *. clear Hne. assert (heap h <> []) as Hne by by rewrite El.
  replace (length (heap h)) with (S (length l0)) by by rewrite El. cbn [read_loop]. clear El.
  destruct Hi as [Ho Hn Ha Hp]. destruct (Pop_ok Seq (heap h) Ho Hne) as (p & rest & Hpop & HP & Ho' & Hleast). unfold upload_Pop. rewrite Hpop. 
  assert (Hpin : p ∈ heap h) by (rewrite HP; set_solver). destruct (Ha p Hpin) as (Hr & Hrange & Hpay).
  assert (Hs : nextSeq h = m) by (rewrite Hseq; unfold u64; by rewrite Z.mod_small by lia).
  assert (Hn' := Hn). rewrite HP in Hn'. cbn in Hn'. apply NoDup_cons in Hn' as [Hpr Hnr].
  destruct (Z.eqb_spec (Seq p) (nextSeq h)) as [E|Hne'].
  - rewrite Hs in E. rewrite decide_True in Hpay by done. set (j := Nat.min n (length (Payload p))). case_match eqn:Hj.
    + set (p' := {| Reader := Reader p; Payload := drop j (Payload p); Seq := Seq p |}). destruct (Push_ok Seq p' rest Ho') as [Ho2 HP2]. exists (upload_Push p' rest), (nextSeq h). split; [done|].
      exists m, (k + j)%nat. assert (Hseqs : (Seq <$> upload_Push p' rest) ≡ₚ (Seq <$> heap h)) by (unfold upload_Push; by rewrite HP2, HP). split_and!; [done| |by rewrite Hpay, stream_more|by left].
      split; [by apply Push_order|by rewrite Hseqs| |intros _; rewrite Hseqs; apply list_elem_of_fmap; by exists p].
      intros q Hq. unfold upload_Push in Hq. rewrite HP2 in Hq. apply elem_of_cons in Hq as [->|Hq].
      * cbn. split_and!; [done|lia..|]. rewrite decide_True by done. by rewrite Hpay, drop_drop.
      * assert (Hqh : q ∈ heap h) by (rewrite HP; set_solver). destruct (Ha q Hqh) as (? & ? & Hq2). rewrite decide_False in * by (intros E2; apply Hpr; apply list_elem_of_fmap; exists q; by rewrite E, E2). done.
    + exists rest, (u64 (Seq p + 1)). split; [done|]. exists (m + 1), 0%nat. apply Nat.ltb_ge in Hj.
      split_and!; [by rewrite E| |by rewrite take_ge, Hpay, stream_next by lia|right; rewrite <-E; by rewrite HP].
      split; [done..| |lia]. intros q Hq. assert (Hqh : q ∈ heap h) by (rewrite HP; set_solver). destruct (Ha q Hqh) as (? & ? & Hq2).
      assert (Seq q <> m) by (intros E2; apply Hpr; apply list_elem_of_fmap; exists q; by rewrite E, E2). rewrite decide_False in Hq2 by done. split_and!; [done|lia..|].
      case_decide as E2; [|done]. by rewrite Hq2, E2.
  - assert (Hafter : forall q, q ∈ heap h -> m < Seq q) by (intros q; rewrite HP; intros [->|Hq]%elem_of_cons; [lia|specialize (Hleast q Hq); lia]).
    assert (Hk : k = 0%nat) by (destruct k as [|k]; [done|exfalso; destruct (proj1 (list_elem_of_fmap _ _ _) (Hp (Nat.lt_0_succ k))) as (q & Hq & Hqh); specialize (Hafter q Hqh); lia]).
    destruct (Z.gtb_spec (Seq p) (nextSeq h)); [|lia]. destruct (Z.of_nat (length rest) >? maxPackets h).
    + exists rest, (nextSeq h). split; [done|]. cbn [fst snd with_heap nextSeq]. split_and!; [|done|by exists p]. split; [done..| |lia]. intros q Hq. apply Ha. rewrite HP. set_solver.
    + destruct (Push_ok Seq p rest Ho') as [Ho2 HP2]. exists (upload_Push p rest), (nextSeq h). split; [done|]. cbn [fst snd with_heap nextSeq].
      assert (E : upload_Push p rest ≡ₚ heap h) by (unfold upload_Push; by rewrite HP2, HP).
      split_and!; [done..| |intros q; rewrite E; apply Hafter]. apply (heap_inv_perm m k (heap h)); [by constructor|done|]. by apply Push_order.
Qed.

(** ** The steps *)

Definition moved (s : upload_system) (p : Packet) (l : list Packet) : upload_system :=
  {| queue := with_heap (with_pushed (queue s) l) (upload_Push p (heap (queue s))) (nextSeq (queue s)); phase := Idle;
     pending := pending s; given := given s; got := got s; torn := torn s |}.

Lemma in_flight_honest m k s p : honest (given s) -> upload_inv m k s -> p ∈ in_flight s ->
  Reader p = None /\ m <= Seq p < 2 ^ 64 /\ Payload p = payload (Seq p) /\ Seq p ∉ Seq <$> heap (queue s).
Proof.
  intros [_ Hh] Hi Hp. destruct (ui_flight _ _ _ Hi p Hp) as [Hg Hm]. destruct (Hh p Hg) as (? & ? & ?). split_and!; [done|lia..|done|].
  pose proof (ui_nodup _ _ _ Hi) as (_ & Hd & _)%NoDup_app. intros Hin. apply (Hd _ Hin), list_elem_of_fmap. by exists p.
Qed.

(** A packet goes from the channel to the heap. *)
Lemma move_ok m k s p l : honest (given s) -> upload_inv m k s -> pushedPackets (queue s) = p :: l -> upload_inv m k (moved s p l).
Proof.
  intros Hh Hi Hl. assert (Hpf : p ∈ in_flight s) by (unfold in_flight; rewrite Hl; set_solver).
  destruct (in_flight_honest _ _ _ _ Hh Hi Hpf) as (Hr & Hm & Hpay & Hnew). destruct (ui_flight _ _ _ Hi p Hpf) as [Hg _].
  destruct Hi as [H1 H2 H3 H4 [Ho Hn Ha Hp] H6 H7 H8 H9 H10 H11]. unfold in_flight in *. rewrite Hl in *.
  destruct (Push_ok Seq p (heap (queue s)) Ho) as [_ HP].
  assert (Hseqs : (Seq <$> upload_Push p (heap (queue s))) ≡ₚ Seq p :: (Seq <$> heap (queue s))) by (unfold upload_Push; by rewrite HP).
  assert (Hall : (Seq <$> upload_Push p (heap (queue s))) ++ (Seq <$> l ++ pending s) ≡ₚ (Seq <$> heap (queue s)) ++ (Seq <$> (p :: l) ++ pending s)).
  { rewrite Hseqs. cbn. by rewrite Permutation_middle. }
  split; cbn; [done..| | | | |done| |done].
  - split; [by apply Push_order|rewrite Hseqs; by constructor| |intros Hk; rewrite Hseqs; set_solver].
    intros q Hq. unfold upload_Push in Hq. rewrite HP in Hq. apply elem_of_cons in Hq as [->|Hq]; [|by apply Ha]. split_and!; [done|lia..|].
    case_decide as E; [|done]. destruct k; [by rewrite Hpay, E|]. destruct Hnew. rewrite E. apply Hp. lia.
  - unfold in_flight. cbn. by rewrite Hall.
  - intros q Hq. apply H7. unfold in_flight in Hq. cbn in Hq. set_solver.
  - intros q Hq. unfold upload_Push in Hq. rewrite HP in Hq. apply elem_of_cons in Hq as [->|Hq]; [|by apply H8]. apply list_elem_of_fmap. by exists p.
  - intros Ht Hc q Hq. unfold in_flight. cbn. rewrite Hall. by apply H10.
Qed.

Lemma turn_inv m k n s : upload_inv m k s -> heap (queue s) <> [] -> exists m' k', upload_inv m' k' (after_turn s (read_turns n (queue s))).
Proof.
  intros Hi Hne. pose proof (read_turns_ok m k n (queue s)) as Ht. destruct Hi as [H1 H2 H3 H4 H5 H6 H7 H8 H9 H10 H11].
  destruct (Ht ltac:(lia) H5 H3 Hne) as (l' & ns & E & Hres). destruct (read_turns n (queue s)) as [t h']. cbn [fst snd] in *.
  assert (Hdrop : forall q, q ∈ l' -> Seq q ∈ Seq <$> l') by (intros q Hq; apply list_elem_of_fmap; by exists q).
  destruct t as [[| |n']|[r|b| |]]; try done.
  - destruct Hres as (Hl & -> & Hh & Hafter). exists m, k. subst h'.
    split; unfold in_flight in *; cbn; rewrite ?orb_false_r; [done..|by rewrite Hl|done|intros q; rewrite Hl; apply H8|done| |done].
    intros ?? q. rewrite Hl. by apply H10.
  - destruct Hres as (m' & k' & -> & Hh & Hst & Hm). exists m', k'. subst h'.
    assert (Hsub : forall j, j ∈ Seq <$> l' -> j ∈ Seq <$> heap (queue s)) by (intros j; destruct Hm as [[_ E]|[_ E]]; rewrite <-E; set_solver).
    assert (Hhead : m' = m + 1 -> m ∈ Seq <$> heap (queue s)) by (destruct Hm as [[-> _]|[_ E]]; [lia|intros _; rewrite <-E; set_solver]).
    assert (Hm' : m' = m \/ m' = m + 1) by tauto.
    assert (Hnin : m' = m + 1 -> m ∉ Seq <$> in_flight s).
    { intros E Hin. pose proof H6 as (_ & Hd & _)%NoDup_app. exact (Hd m (Hhead E) Hin). }
    assert (Hlt : m' = m + 1 -> m < 2 ^ 64) by (intros E; destruct (proj1 (list_elem_of_fmap _ _ _) (Hhead E)) as (q & Eq & Hq); destruct (hi_all _ _ _ H5 q Hq) as (_ & ? & _); lia).
    split; unfold in_flight in *; cbn; rewrite ?orb_false_r; [by rewrite Hst, H1|lia|done..| | | | | |done].
    + destruct Hm as [[_ E]|[_ E]]; [by rewrite E|]. rewrite <-E in H6. by inversion H6.
    + intros q Hq. destruct (H7 q Hq) as [Hg Hge]. split; [done|]. destruct Hm' as [->| ->]; [done|].
      assert (Seq q <> m); [|lia]. intros E. apply Hnin; [done|]. rewrite <-E. apply list_elem_of_fmap. by exists q.
    + intros q Hq. destruct (proj1 (list_elem_of_fmap _ _ _) (Hsub _ (Hdrop q Hq))) as (q' & -> & Hq'). by apply H8.
    + intros j Hj. destruct (decide (j < m)); [apply H9; lia|]. assert (j = m) as -> by lia.
      destruct (proj1 (list_elem_of_fmap _ _ _) (Hhead ltac:(lia))) as (q & -> & Hq). by apply H8.
    + intros Ht' Hc q Hq. destruct (H10 Ht' Hc q Hq) as [?|Hin]; [left; lia|]. destruct Hm as [[_ E]|[-> E]]; [by rewrite E; right|].
      rewrite <-E in Hin. cbn in Hin. apply elem_of_cons in Hin as [->|?]; [left; lia|by right].
  - destruct Hres as (Hh & -> & p & Hp). exists m, k. subst h'.
    split; unfold in_flight in *; cbn; rewrite ?orb_true_r; [done..| |done| |done|done|done].
    + rewrite Hp in H6. cbn in H6. by inversion H6.
    + intros q Hq. apply H8. rewrite Hp. set_solver.
Qed.

Lemma moved_turn m k s p l n t : honest (given s) -> upload_inv m k s -> pushedPackets (queue s) = p :: l ->
  t = read_turns n (queue (moved s p l)) -> exists m' k', upload_inv m' k' (after_turn s t).
Proof.
  intros Hh Hi Hl ->. pose proof (move_ok _ _ _ _ _ Hh Hi Hl) as Hm. destruct (Push_ok Seq p _ (hi_order _ _ _ (ui_heap _ _ _ Hi))) as [_ HP].
  apply (turn_inv m k n (moved s p l) Hm). change (upload_Push p (heap (queue s)) <> []). unfold upload_Push. intros E. rewrite E in HP. by apply Permutation_nil_cons in HP.
Qed.

Lemma honest_tail p l : honest (p :: l) -> honest l.
Proof. intros [Hn Hh]. cbn in Hn. inversion Hn. split; [done|]. intros q Hq. apply Hh. by right. Qed.

(** A push of a packet that is not among those given. *)
Lemma push_inv m k s p : honest (p :: given s) -> upload_inv m k s ->
  upload_inv m k {| queue := queue s; phase := phase s; pending := p :: pending s; given := p :: given s; got := got s; torn := torn s |}.
Proof.
  intros Hh [H1 H2 H3 H4 H5 H6 H7 H8 H9 H10 H11]. destruct Hh as [Hn Hh]. cbn in Hn. apply NoDup_cons in Hn as [Hpn Hn].
  destruct (Hh p ltac:(by left)) as (Hr & Hrange & Hpay).
  assert (Hfl : pushedPackets (queue s) ++ p :: pending s ≡ₚ p :: in_flight s) by (unfold in_flight; by rewrite Permutation_middle).
  assert (Hge : m <= Seq p) by (destruct (decide (m <= Seq p)); [done|]; destruct Hpn; apply H9; lia).
  split; [done..| | | | | |done].
  - unfold in_flight at 1. cbn. rewrite Hfl. cbn. rewrite <-Permutation_middle. apply NoDup_cons. split; [|done]. intros [Hin|Hin]%elem_of_app; apply Hpn.
    + apply list_elem_of_fmap in Hin as (q & -> & Hq). by apply H8.
    + apply list_elem_of_fmap in Hin as (q & -> & Hq). apply list_elem_of_fmap. exists q. split; [done|]. by apply H7.
  - intros q. unfold in_flight at 1. cbn. rewrite Hfl. intros [->|Hq]%elem_of_cons; [by split; [left|]|]. destruct (H7 q Hq). split; [by right|done].
  - intros q Hq. cbn. right. by apply H8.
  - intros j Hj. cbn. right. by apply H9.
  - intros Ht Hc q. unfold in_flight at 1. cbn. rewrite Hfl. cbn. rewrite <-Permutation_middle. intros [->|Hq]%elem_of_cons; [right; by left|].
    destruct (H10 Ht Hc q Hq); [by left|right; by right].
Qed.

Lemma step_inv s s' : upload_step s s' -> honest (given s') -> (exists m k, upload_inv m k s) -> exists m k, upload_inv m k s'.
Proof.
  intros Hs. destruct Hs as [s p q Hq|s p l q b Hp Hq|s p l Hp Hc|s n Hph|s t Ht|s Hph Hc|s]; intros Hh (m & k & Hi).
  - exists m, k. destruct (proj2 Hh p ltac:(by left)) as (Hr & _). unfold push_check in Hq. rewrite (ui_reader _ _ _ Hi), Hr in Hq. injection Hq as <-. by apply push_inv.
  - exists m, k. unfold push_send in Hq. case_match; [|done]. injection Hq as <- _.
    assert (Hfl : in_flight {| queue := with_pushed (queue s) (pushedPackets (queue s) ++ [p]); phase := phase s; pending := l; given := given s; got := got s; torn := torn s |} ≡ₚ in_flight s)
      by (unfold in_flight; cbn; rewrite Hp; by rewrite <-app_assoc).
    destruct Hi as [H1 H2 H3 H4 H5 H6 H7 H8 H9 H10 H11]. split; [done..|by rewrite Hfl|intros ?; rewrite Hfl; apply H7|done|done|intros ???; rewrite Hfl; by apply H10|done].
  - exists m, k. destruct Hi as [H1 H2 H3 H4 H5 H6 H7 H8 H9 H10 H11]. unfold in_flight in *.
    split; [done..| | |done|done|cbn; congruence|done]; unfold in_flight; cbn.
    + rewrite Hp, <-Permutation_middle in H6. cbn in H6. rewrite <-Permutation_middle in H6. by inversion H6.
    + intros r Hr. apply H7. rewrite Hp. set_solver.
  - unfold read_start. rewrite (ui_reader _ _ _ Hi). destruct (closed (queue s)).
    { exists m, k. destruct Hi. split; cbn; rewrite ?orb_false_r; done. }
    destruct (Nat.eqb_spec (length (heap (queue s))) 0) as [E|E]; [|eapply turn_inv; [done|by destruct (heap (queue s))]].
    exists m, k. apply nil_length_inv in E. destruct Hi. split; cbn; rewrite ?orb_false_r; done.
  - unfold read_receive in Ht. destruct (phase s) as [|n|n], (pushedPackets (queue s)) as [|p l] eqn:Hl; try done.
    + injection Ht as <-. cbn in Hh. destruct (in_flight_honest _ _ _ p Hh Hi) as (Hr & _); [unfold in_flight; rewrite Hl; set_solver|].
      unfold receive_first. rewrite Hr. by eapply moved_turn.
    + injection Ht as <-. by eapply moved_turn.
  - exists m, k. destruct Hi. split; cbn; rewrite ?orb_false_r; done.
  - exists m, k. destruct Hi as [H1 H2 H3 H4 H5 H6 H7 H8 H9 H10 H11]. by split.
Qed.

Lemma step_given s s' : upload_step s s' -> honest (given s') -> honest (given s).
Proof. intros []; cbn; [apply honest_tail|done..]. Qed.

Lemma upload_inv_reachable max s : upload_reachable max s -> honest (given s) -> exists m k, upload_inv m k s.
Proof.
  intros (q & Hq & Hr). unfold NewUploadQueue in Hq. case_match; [done|]. injection Hq as <-.
  pattern s. revert s Hr. apply rtc_ind_r; [|intros s s' _ Hs IH Hh; eapply step_inv; [done..|]; apply IH; by eapply step_given].
  intros _. exists 0, 0%nat. split; cbn; try done; try (intros; set_solver); try lia.
  - split; cbn; [intros k; lia|constructor|set_solver|lia].
  - constructor.
Qed.
End InOrder.

(** ** Properties *)

(** C20: a session in which the client gives each number to one packet and opens
    no stream. In whatever order the requests push their packets and however
    they interleave with the reads, what has been read is always the payloads
    of the first packets in the order of their numbers, and a part of the next
    one; and while no read has failed and the queue is open, a reader that
    waits with nothing on its way has read every packet up to the first number
    that was not pushed. *)
Theorem xhttp_upload_in_order payload max s :
  upload_reachable max s -> honest payload (given s) ->
  exists m k, got s = concat (payload <$> seqZ 0 m) ++ take k (payload m) /\ (forall j, 0 <= j < m -> j ∈ Seq <$> given s) /\
    (torn s = false -> closed (queue s) = false -> phase s <> Idle -> pushedPackets (queue s) = [] -> pending s = [] -> m ∉ Seq <$> given s).
Proof.
  intros Hr Hh. destruct (upload_inv_reachable payload max s Hr Hh) as (m & k & Hi). exists m, k. split; [apply Hi|]. split; [apply Hi|].
  intros Ht Hc Hph Hp Hpe Hin. apply list_elem_of_fmap in Hin as (p & Em & Hp'). destruct (ui_given _ _ _ _ Hi Ht Hc p Hp') as [?|Hin]; [lia|].
  unfold in_flight in Hin. rewrite Hp, Hpe in Hin. cbn in Hin. rewrite app_nil_r in Hin. apply list_elem_of_fmap in Hin as (q & Eq & Hq).
  pose proof (ui_phase _ _ _ _ Hi) as Hw. destruct (phase s); [done|by rewrite Hw in Hq; set_solver|specialize (Hw q Hq); lia].
Qed.

(** ** Examples *)

Definition packet (n : Z) (b : bytes) : Packet := {| Reader := None; Payload := b; Seq := n |}.

(** Two packets, pushed in the wrong order, and a reader that takes two bytes
    at a time. *)
Definition sample_payload (n : Z) : bytes := if n =? 0 then bs "abc" else if n =? 1 then bs "de" else [].
Definition sample_queue (h : list Packet) (pushed : list Packet) (n : Z) : uploadQueue :=
  {| reader := None; pushedPackets := pushed; heap := h; nextSeq := n; maxPackets := 30; closed := false |}.
Definition sample_end : upload_system :=
  {| queue := sample_queue [] [] 2; phase := First 2; pending := []; given := [packet 0 (bs "abc"); packet 1 (bs "de")]; got := bs "abcde"; torn := false |}.

Lemma sample_reached : upload_reachable 30 sample_end.
Proof.
  eexists. split; [reflexivity|].
  eapply rtc_l; [apply (up_push _ (packet 1 (bs "de"))); reflexivity|]. eapply rtc_l; [apply (up_push _ (packet 0 (bs "abc"))); reflexivity|].
  eapply rtc_l; [by apply up_read with (n := 2%nat)|].
  eapply rtc_l; [eapply (up_send _ (packet 1 (bs "de")) [packet 0 (bs "abc")]); [apply Permutation_swap|reflexivity]|].
  eapply rtc_l; [apply up_receive; vm_compute; reflexivity|].
  eapply rtc_l; [eapply (up_send _ (packet 0 (bs "abc")) []); [reflexivity|reflexivity]|].
  eapply rtc_l; [apply up_receive; vm_compute; reflexivity|].
  do 3 (eapply rtc_l; [apply (up_read _ 2%nat); reflexivity|]).
  vm_compute. apply rtc_refl.
Qed.

Lemma sample_honest : honest sample_payload (given sample_end).
Proof.
  split; [cbn; apply NoDup_cons; split; [set_solver|apply NoDup_singleton]|].
  intros p [->|[->|?%not_elem_of_nil]%elem_of_cons]%elem_of_cons; [by split_and!..|done].
Qed.

Lemma xhttp_upload_in_order_witness : exists m k, got sample_end = concat (sample_payload <$> seqZ 0 m) ++ take k (sample_payload m) /\
  (forall j, 0 <= j < m -> j ∈ Seq <$> given sample_end) /\
  (torn sample_end = false -> closed (queue sample_end) = false -> phase sample_end <> Idle -> pushedPackets (queue sample_end) = [] -> pending sample_end = [] ->
   m ∉ Seq <$> given sample_end).
Proof. exact (xhttp_upload_in_order sample_payload 30 sample_end sample_reached sample_honest). Defined.

(** A request that is repeated: the remainder of a packet and its copy have
    the same number, and what is read depends on which is on top. Here the
    copy is read after two bytes of the packet. *)
Lemma repeated_packet_read_twice :
  let h := sample_queue [packet 0 (bs "abc"); packet 0 (bs "abc")] [] 0 in
  let '(t1, h1) := read_start 2 h in let '(t2, _) := read_start 2 h1 in
  t1 = Done (Data (bs "ab")) /\ t2 = Done (Data (bs "ab")).
Proof. vm_compute. done. Qed.

(** What was pushed before the queue is closed is not read any more. *)
Lemma closing_drops_data :
  read_start 10 (upload_Close (sample_queue [packet 0 (bs "abc")] [] 0)).1 = (Done EOF, (upload_Close (sample_queue [packet 0 (bs "abc")] [] 0)).1).
Proof. reflexivity. Qed.

(** A negative number of buffered posts panics when a session begins. *)
Lemma negative_buffer_panics : NewUploadQueue (-1) = Panic.
Proof. reflexivity. Qed.
