(* ===== verification/NetIp.v ===== *)
(** * Go's [net/netip]: addresses and prefixes

    An address is a number of 32 or 128 bits; an IPv4 address in IPv6 form is
    one of 128 bits. *)

From S2P Require Import Prelude Net.
Local Open Scope Z_scope.

(** [netip.Addr]; the zero value is no address. *)
Inductive Addr := NoAddr | Addr4 (v : Z) | Addr6 (v : Z) (zone : bytes).

#[export] Instance Addr_eq_dec : EqDecision Addr.
Proof. solve_decision. Defined.

Definition value (a : Addr) : Z := match a with NoAddr => 0 | Addr4 v | Addr6 v _ => v end.
Definition Zone (a : Addr) : bytes := match a with Addr6 _ z => z | _ => [] end.
Definition BitLen (a : Addr) : Z := match a with NoAddr => 0 | Addr4 _ => 32 | Addr6 _ _ => 128 end.
Definition Is4 (a : Addr) : bool := match a with Addr4 _ => true | _ => false end.
Definition Is6 (a : Addr) : bool := match a with Addr6 _ _ => true | _ => false end.
Definition IsValid (a : Addr) : bool := match a with NoAddr => false | _ => true end.

Definition AddrFrom4 (b : bytes) : Addr := Addr4 (be_combine b).
Definition AddrFrom16 (b : bytes) : Addr := Addr6 (be_combine b) [].
Definition AsSlice (a : Addr) : bytes := match a with NoAddr => [] | Addr4 v => be_split 4 v | Addr6 v _ => be_split 16 v end.
Definition As16 (a : Addr) : bytes :=
  match a with NoAddr => zero_bytes 16 | Addr4 v => v4_in_v6_prefix ++ be_split 4 v | Addr6 v _ => be_split 16 v end.

(** The order of Go's strings. *)
Fixpoint compare_bytes (a b : bytes) : comparison :=
  match a, b with
  | [], [] => Eq
  | [], _ => Lt
  | _, [] => Gt
  | x :: a', y :: b' => match byte_to_Z x ?= byte_to_Z y with Eq => compare_bytes a' b' | c => c end
  end.

Definition Compare (a b : Addr) : comparison :=
  match BitLen a ?= BitLen b with
  | Eq => match value a ?= value b with Eq => compare_bytes (Zone a) (Zone b) | c => c end
  | c => c
  end.

Definition addr_le (a b : Addr) : bool := match Compare a b with Gt => false | _ => true end.
Definition addr_lt (a b : Addr) : bool := match Compare a b with Lt => true | _ => false end.

(** The next address; there is none after the last one. *)
Definition Next (a : Addr) : Addr :=
  match a with
  | NoAddr => NoAddr
  | Addr4 v => if v + 1 =? 2 ^ 32 then NoAddr else Addr4 (v + 1)
  | Addr6 v z => if v + 1 =? 2 ^ 128 then NoAddr else Addr6 (v + 1) z
  end.

(** [netip.Prefix]; [-1] bits when it is not valid. *)
Record Prefix := { p_Addr : Addr; p_Bits : Z }.

#[export] Instance Prefix_eq_dec : EqDecision Prefix.
Proof. solve_decision. Defined.

Definition zeroPrefix : Prefix := {| p_Addr := NoAddr; p_Bits := -1 |}.
Definition withoutZone (a : Addr) : Addr := match a with Addr6 v _ => Addr6 v [] | _ => a end.
Definition PrefixFrom (ip : Addr) (bits : Z) : Prefix :=
  {| p_Addr := withoutZone ip; p_Bits := if IsValid ip && (0 <=? bits) && (bits <=? BitLen ip) then bits else -1 |}.
Definition prefix_IsValid (p : Prefix) : bool := 0 <=? p_Bits p.

(** The bits behind the prefix are cleared. *)
Definition mask_value (len bits v : Z) : Z := Z.shiftl (Z.shiftr v (len - bits)) (len - bits).
Definition Masked (p : Prefix) : Prefix :=
  if p_Bits p <? 0 then zeroPrefix
  else match p_Addr p with
       | NoAddr => zeroPrefix
       | Addr4 v => PrefixFrom (Addr4 (mask_value 32 (p_Bits p) v)) (p_Bits p)
       | Addr6 v _ => PrefixFrom (Addr6 (mask_value 128 (p_Bits p) v) []) (p_Bits p)
       end.

Definition prefix_Contains (p : Prefix) (ip : Addr) : bool :=
  prefix_IsValid p && bool_decide (Zone ip = []) && negb (BitLen ip =? 0) && (BitLen ip =? BitLen (p_Addr p)) &&
  (Z.shiftr (Z.lxor (value ip) (value (p_Addr p))) (BitLen ip - p_Bits p) =? 0).

(** ** Addresses without zones *)

(** What the wire gives: no zone, and a value in its range. *)
Definition addr_ok (a : Addr) : Prop := IsValid a = true /\ Zone a = [] /\ 0 <= value a < 2 ^ BitLen a.

(** A number as an address of the family of [a]. *)
Definition with_value (a : Addr) (v : Z) : Addr := match a with NoAddr => NoAddr | Addr4 _ => Addr4 v | Addr6 _ z => Addr6 v z end.

Lemma addr_len a : addr_ok a -> BitLen a = 32 /\ Is4 a = true \/ BitLen a = 128 /\ Is4 a = false.
Proof. intros (Hv & _). destruct a; [done|by left|by right]. Qed.

Lemma addr_eta a : with_value a (value a) = a.
Proof. by destruct a. Qed.

Lemma addr_eq a b : addr_ok a -> addr_ok b -> BitLen a = BitLen b -> value a = value b -> a = b.
Proof. intros (H1 & H2 & _) (H3 & H4 & _). destruct a, b; cbn in *; congruence. Qed.

Lemma compare_bytes_refl b : compare_bytes b b = Eq.
Proof. induction b as [|x b IH]; [done|]. cbn. by rewrite Z.compare_refl. Qed.

(** Within a family the order is that of the values. *)
Lemma Compare_value a b : Zone a = [] -> Zone b = [] -> BitLen a = BitLen b -> Compare a b = (value a ?= value b).
Proof. intros Ha Hb Hl. unfold Compare. rewrite Hl, Z.compare_refl, Ha, Hb. by destruct (value a ?= value b). Qed.

Lemma Compare_family a b : BitLen a <> BitLen b -> Compare a b = (BitLen a ?= BitLen b).
Proof. intros H. unfold Compare. destruct (Z.compare_spec (BitLen a) (BitLen b)); done. Qed.

Lemma addr_le_value a b : Zone a = [] -> Zone b = [] -> BitLen a = BitLen b -> addr_le a b = (value a <=? value b).
Proof. intros. unfold addr_le. rewrite Compare_value by done. by destruct (Z.compare_spec (value a) (value b)), (Z.leb_spec (value a) (value b)); try lia. Qed.

Lemma addr_lt_value a b : Zone a = [] -> Zone b = [] -> BitLen a = BitLen b -> addr_lt a b = (value a <? value b).
Proof. intros. unfold addr_lt. rewrite Compare_value by done. by destruct (Z.compare_spec (value a) (value b)), (Z.ltb_spec (value a) (value b)); try lia. Qed.

(** A prefix is the interval from its first to its last address. *)
Definition prefix_ok (p : Prefix) : Prop := addr_ok (p_Addr p) /\ 0 <= p_Bits p <= BitLen (p_Addr p) /\ (2 ^ (BitLen (p_Addr p) - p_Bits p) | value (p_Addr p)).
Definition prefix_size (p : Prefix) : Z := 2 ^ (BitLen (p_Addr p) - p_Bits p).
Definition last_value (p : Prefix) : Z := value (p_Addr p) + prefix_size p - 1.

Lemma mask_value_spec len bits v : 0 <= bits <= len -> mask_value len bits v = v - v mod 2 ^ (len - bits).
Proof.
  intros. unfold mask_value. rewrite Z.shiftl_mul_pow2, Z.shiftr_div_pow2 by lia. pose proof (Z.pow_pos_nonneg 2 (len - bits) ltac:(lia) ltac:(lia)).
  rewrite (Z.div_mod v (2 ^ (len - bits))) at 2 by lia. lia.
Qed.

Lemma mask_fixed len bits v : 0 <= bits <= len -> mask_value len bits v = v <-> (2 ^ (len - bits) | v).
Proof.
  intros. rewrite mask_value_spec by done. pose proof (Z.pow_pos_nonneg 2 (len - bits) ltac:(lia) ltac:(lia)).
  rewrite <-Z.mod_divide by lia. lia.
Qed.

Lemma shiftr_eq_iff a b n : 0 <= n -> Z.shiftr (Z.lxor a b) n = 0 <-> a / 2 ^ n = b / 2 ^ n.
Proof. intros. rewrite Z.shiftr_lxor, Z.lxor_eq_0_iff, !Z.shiftr_div_pow2 by lia. done. Qed.

Lemma Contains_ok p a : prefix_ok p -> addr_ok a -> prefix_Contains p a = true <-> BitLen a = BitLen (p_Addr p) /\ value (p_Addr p) <= value a <= last_value p.
Proof.
  intros (Hp & Hb & [q Hq]) (Ha1 & Ha2 & Ha3). unfold prefix_Contains, prefix_IsValid, last_value, prefix_size. rewrite bool_decide_true by done.
  rewrite !andb_true_iff, !Z.eqb_eq, negb_true_iff, Z.eqb_neq.
  assert (BitLen a <> 0) by (by destruct a). split; [intros ((((? & _) & _) & E) & Hs)|intros (E & Hr)]; rewrite <-E in *.
  - split; [done|]. rewrite shiftr_eq_iff in Hs by lia. pose proof (Z.pow_pos_nonneg 2 (BitLen a - p_Bits p) ltac:(lia) ltac:(lia)) as Hpos.
    rewrite Hq, Z.div_mul in Hs by lia. rewrite Hq. pose proof (Z.div_mod (value a) (2 ^ (BitLen a - p_Bits p))). pose proof (Z.mod_pos_bound (value a) (2 ^ (BitLen a - p_Bits p))). rewrite Hs in *. lia.
  - split_and!; [apply Z.leb_le; lia|done..|]. rewrite shiftr_eq_iff by lia. pose proof (Z.pow_pos_nonneg 2 (BitLen a - p_Bits p) ltac:(lia) ltac:(lia)) as Hpos.
    rewrite Hq in *. rewrite Z.div_mul by lia. symmetry. apply Z.div_unique with (value a - q * 2 ^ (BitLen a - p_Bits p)); lia.
Qed.

Lemma masked_ok p : addr_ok (p_Addr p) -> 0 <= p_Bits p <= BitLen (p_Addr p) -> p = Masked p <-> prefix_ok p.
Proof.
  destruct p as [a n]. intros Ha Hn. pose proof Ha as (_ & Hz & _). unfold prefix_ok, Masked. cbn [p_Addr p_Bits] in *. destruct (Z.ltb_spec n 0); [lia|].
  destruct a as [|v|v z]; [by destruct Ha| |]; cbn [BitLen value] in *; unfold PrefixFrom; cbn [withoutZone IsValid BitLen andb].
  - rewrite (proj2 (Z.leb_le 0 n)), (proj2 (Z.leb_le n 32)) by lia. cbn. rewrite <-mask_fixed by lia. split; [intros [= E]; done|intros (_ & _ & E); by rewrite E].
  - rewrite (proj2 (Z.leb_le 0 n)), (proj2 (Z.leb_le n 128)) by lia. cbn in *. subst z. rewrite <-mask_fixed by lia. split; [intros [= E]; done|intros (_ & _ & E); by rewrite E].
Qed.

Lemma length_AsSlice a : addr_ok a -> Z.of_nat (length (AsSlice a)) = BitLen a / 8.
Proof. intros (Hv & _). destruct a; [done|unfold AsSlice; by rewrite length_be_split..]. Qed.

Lemma AddrFrom4_split v : 0 <= v < 2 ^ 32 -> AddrFrom4 (be_split 4 v) = Addr4 v.
Proof. intros. unfold AddrFrom4. rewrite be_combine_split. by rewrite Z.mod_small. Qed.

Lemma AddrFrom16_split v : 0 <= v < 2 ^ 128 -> AddrFrom16 (be_split 16 v) = Addr6 v [].
Proof. intros. unfold AddrFrom16. rewrite be_combine_split. by rewrite Z.mod_small. Qed.

Lemma AddrFrom4_ok b : length b = 4%nat -> addr_ok (AddrFrom4 b).
Proof. intros E. split_and!; [done..| |]; cbn; pose proof (be_combine_range b) as H; rewrite E in H; lia. Qed.

Lemma AddrFrom16_ok b : length b = 16%nat -> addr_ok (AddrFrom16 b).
Proof. intros E. split_and!; [done..| |]; cbn; pose proof (be_combine_range b) as H; rewrite E in H; lia. Qed.
