(* ===== verification/ConnectIp.v ===== *)
(** * The capsules of CONNECT-IP, [proxy/masque/internal/connectip/]

    Two ends that carry IP packets over HTTP tell each other, in capsules,
    which addresses they assign and request and which routes they offer. Here
    are the capsules with their checks, and the cutting of a range of
    addresses into prefixes. *)

From S2P Require Import Prelude Net NetIp.
Local Open Scope Z_scope.

(** The package [quicvarint]: appending a number, its length, and parsing one
    with the number of bytes that it takes. *)
Class QuicVarint := {
  varint_Append : Z -> bytes;
  varint_Len : Z -> Z;
  varint_Parse : bytes -> option (Z * nat) }.

(** As documented: numbers below [2^62]. *)
Class QuicVarintLaws `{QuicVarint} := {
  varint_parse_append z rest : 0 <= z < 2 ^ 62 -> varint_Parse (varint_Append z ++ rest) = Some (z, length (varint_Append z));
  varint_len z : 0 <= z < 2 ^ 62 -> varint_Len z = Z.of_nat (length (varint_Append z));
  varint_parsed b z n : varint_Parse b = Some (z, n) -> 0 <= z < 2 ^ 62 /\ (0 < n <= length b)%nat }.

(** ** Ranges of addresses *)

(** The host's bits of the last bytes are set, from the end on.
    src/proxy/masque/internal/connectip/iprange.go:55-60 lastIPInPrefix *)
Fixpoint set_host_bits (hostBits : Z) (rev_bits : bytes) : bytes :=
  match rev_bits with
  | [] => []
  | b :: rest =>
      if hostBits <=? 0 then rev_bits
      else
        let bitsInThisByte := Z.min 8 hostBits in
        byte_of_Z (Z.lor (byte_to_Z b) (Z.shiftl 1 bitsInThisByte - 1)) :: set_host_bits (hostBits - bitsInThisByte) rest
  end.

(** src/proxy/masque/internal/connectip/iprange.go lastIPInPrefix *)
Definition lastIPInPrefix (prefix : Prefix) : Addr :=
  let addr := p_Addr prefix in
  let bits := rev (set_host_bits (BitLen addr - p_Bits prefix) (rev (As16 addr))) in
  if Is4 addr then AddrFrom4 (drop 12 bits) else AddrFrom16 bits.

(** src/proxy/masque/internal/connectip/iprange.go:72-79 isAligned *)
Fixpoint host_bits_clear (hostBits : Z) (rev_bits : bytes) : bool :=
  match rev_bits with
  | [] => true
  | b :: rest =>
      if hostBits <=? 0 then true
      else
        let bitsInThisByte := Z.min 8 hostBits in
        if negb (Z.land (byte_to_Z b) (Z.shiftl 1 bitsInThisByte - 1) =? 0) then false
        else host_bits_clear (hostBits - bitsInThisByte) rest
  end.

(** src/proxy/masque/internal/connectip/iprange.go isAligned *)
Definition isAligned (addr : Addr) (prefixLen : Z) : bool := host_bits_clear (BitLen addr - prefixLen) (rev (As16 addr)).

(** The prefix grows while it begins at [start] and does not pass [end].
    src/proxy/masque/internal/connectip/iprange.go:40-45 findLargestPrefix *)
Fixpoint grow_prefix (prefixLen : nat) (start end_ : Addr) : nat :=
  match prefixLen with
  | O => O
  | S n =>
      let prefix := PrefixFrom start (Z.of_nat n) in
      if negb (addr_le (lastIPInPrefix prefix) end_) || negb (isAligned start (Z.of_nat n)) then prefixLen
      else grow_prefix n start end_
  end.

(** src/proxy/masque/internal/connectip/iprange.go findLargestPrefix *)
Definition findLargestPrefix (start end_ : Addr) : Prefix :=
  if decide (start = end_) then PrefixFrom start (BitLen start)
  else PrefixFrom start (Z.of_nat (grow_prefix (Z.to_nat (BitLen start)) start end_)).

(** src/proxy/masque/internal/connectip/iprange.go:21-30 rangeToPrefixes *)
Fixpoint prefixes_from (fuel : nat) (current end_ : Addr) : option (list Prefix) :=
  if negb (addr_le current end_) then Some []
  else
    match fuel with
    | O => None
    | S fuel' =>
        let prefix := findLargestPrefix current end_ in
        let lastIP := lastIPInPrefix prefix in
        if addr_le end_ lastIP then Some [prefix]
        else rest ← prefixes_from fuel' (Next lastIP) end_; Some (prefix :: rest)
    end.

(** Every turn but those with the largest prefixes of one length up and down
    takes a prefix of another length: two for each length are enough.
    src/proxy/masque/internal/connectip/iprange.go rangeToPrefixes *)
Definition rangeToPrefixes (start end_ : Addr) : option (list Prefix) := prefixes_from (S (2 * Z.to_nat (BitLen start))) start end_.

(** ** Addresses *)

(** src/proxy/masque/internal/connectip/address.go:23-26 rejectedIPv4Prefix *)
Definition rejectedIPv4Prefix : Prefix := PrefixFrom (Addr4 0) 32.
(** src/proxy/masque/internal/connectip/address.go:25-25 rejectedIPv6Prefix *)
Definition rejectedIPv6Prefix : Prefix := PrefixFrom (Addr6 0 []) 128.

(** src/proxy/masque/internal/connectip/capsule.go:42-45 AssignedAddress *)
Record AssignedAddress := { RequestID : Z; IPPrefix : Prefix }.

(** src/proxy/masque/internal/connectip/capsule.go AssignedAddress.Rejected *)
Definition Rejected (a : AssignedAddress) : bool := bool_decide (IPPrefix a = rejectedIPv4Prefix) || bool_decide (IPPrefix a = rejectedIPv6Prefix).

(** What goes wrong with a capsule. *)
Inductive capsule_error :=
  | errRead | errIPVersion | errPrefixLength | errLowerBits | errTooMany | errNoAddresses | errZeroRequestID
  | errInvalidAddress | errFamilies | errZones | errStartAfterEnd | errVersionOrder | errProtocolOrder | errNotDisjoint | errOverlap.

(** [http3.CapsuleReader]: the bytes of the capsule that the stream brings
    and the number of those that it does not. *)
Record CapsuleReader := { available : bytes; lacking : Z }.
Definition Remaining (r : CapsuleReader) : Z := Z.of_nat (length (available r)) + lacking r.

(** [io.ReadFull]. *)
Definition ReadFull (n : nat) (r : CapsuleReader) : outcome capsule_error (bytes * CapsuleReader) :=
  if (length (available r) <? n)%nat then Err errRead else Ok (take n (available r), {| available := drop n (available r); lacking := lacking r |}).

Definition read_byte (r : CapsuleReader) : outcome capsule_error (byte * CapsuleReader) :=
  match available r with [] => Err errRead | b :: l => Ok (b, {| available := l; lacking := lacking r |}) end.

Section Capsules.
Context `{QuicVarint}.

(** [quicvarint.Read]. *)
Definition read_varint (r : CapsuleReader) : outcome capsule_error (Z * CapsuleReader) :=
  match varint_Parse (available r) with
  | None => Err errRead
  | Some (z, n) => Ok (z, {| available := drop n (available r); lacking := lacking r |})
  end.

(** src/proxy/masque/internal/connectip/capsule.go AssignedAddress.len *)
Definition assigned_len (a : AssignedAddress) : Z := varint_Len (RequestID a) + 1 + BitLen (p_Addr (IPPrefix a)) / 8 + 1.

(** src/proxy/masque/internal/connectip/capsule.go:84-93 addressAssignCapsule.append *)
Definition append_address (id : Z) (p : Prefix) : bytes :=
  varint_Append id ++ (if Is4 (p_Addr p) then x04 else x06) :: AsSlice (p_Addr p) ++ [byte_of_Z (p_Bits p)].

(** src/proxy/masque/internal/connectip/capsule.go:27-27 capsuleTypeDatagram *)
Definition capsuleTypeDatagram : Z := 0.
(** src/proxy/masque/internal/connectip/capsule.go:28-28 capsuleTypeAddressAssign *)
Definition capsuleTypeAddressAssign : Z := 1.
(** src/proxy/masque/internal/connectip/capsule.go:29-29 capsuleTypeAddressRequest *)
Definition capsuleTypeAddressRequest : Z := 2.
(** src/proxy/masque/internal/connectip/capsule.go:30-30 capsuleTypeRouteAdvertisement *)
Definition capsuleTypeRouteAdvertisement : Z := 3.

Definition sum (l : list Z) : Z := foldr Z.add 0 l.

(** src/proxy/masque/internal/connectip/capsule.go addressAssignCapsule.append *)
Definition append_assign (c : list AssignedAddress) (b : bytes) : bytes :=
  let totalLen := sum (assigned_len <$> c) in
  b ++ varint_Append capsuleTypeAddressAssign ++ varint_Append totalLen ++ concat ((fun a => append_address (RequestID a) (IPPrefix a)) <$> c).

(** src/proxy/masque/internal/connectip/capsule.go parseAddress *)
Definition parseAddress (r : CapsuleReader) : outcome capsule_error (Z * Prefix * CapsuleReader) :=
  '(requestID, r) ← read_varint r;
  '(ipVersion, r) ← read_byte r;
  '(ip, r) ← (if decide (ipVersion = x04) then '(ipv4, r) ← ReadFull 4 r; Ok (AddrFrom4 ipv4, r)
              else if decide (ipVersion = x06) then '(ipv6, r) ← ReadFull 16 r; Ok (AddrFrom16 ipv6, r)
              else Err errIPVersion);
  '(prefixLen, r) ← read_byte r;
  if byte_to_Z prefixLen >? BitLen ip then Err errPrefixLength
  else
    let prefix := PrefixFrom ip (byte_to_Z prefixLen) in
    if decide (prefix = Masked prefix) then Ok (requestID, prefix, r) else Err errLowerBits.

(** src/proxy/masque/internal/connectip/capsule.go:34-34 maxAddressesPerCapsule *)
Definition maxAddressesPerCapsule : nat := 8192.
(** src/proxy/masque/internal/connectip/capsule.go:35-35 maxRoutesPerCapsule *)
Definition maxRoutesPerCapsule : nat := 8192.

(** src/proxy/masque/internal/connectip/capsule.go:62-71 parseAddressAssignCapsule *)
Fixpoint assign_loop (fuel : nat) (acc : list AssignedAddress) (r : CapsuleReader) : outcome capsule_error (list AssignedAddress) :=
  if Remaining r <=? 0 then Ok acc
  else
    match fuel with
    | O => Panic
    | S fuel' =>
        if (maxAddressesPerCapsule <=? length acc)%nat then Err errTooMany
        else
          '(requestID, prefix, r) ← parseAddress r;
          assign_loop fuel' (acc ++ [{| RequestID := requestID; IPPrefix := prefix |}]) r
    end.

(** An address takes a byte at least.
    src/proxy/masque/internal/connectip/capsule.go parseAddressAssignCapsule *)
Definition parseAddressAssignCapsule (r : CapsuleReader) : outcome capsule_error (list AssignedAddress) :=
  assign_loop (S (length (available r))) [] r.

(** src/proxy/masque/internal/connectip/capsule.go:55-58 addressRequestCapsule *)
Record addressRequestCapsule := { RequestIDs : list Z; Prefixes : list Prefix }.

(** src/proxy/masque/internal/connectip/capsule.go:102-115 parseAddressRequestCapsule *)
Fixpoint request_loop (fuel : nat) (c : addressRequestCapsule) (r : CapsuleReader) : outcome capsule_error addressRequestCapsule :=
  if Remaining r <=? 0 then Ok c
  else
    match fuel with
    | O => Panic
    | S fuel' =>
        if (maxAddressesPerCapsule <=? length (Prefixes c))%nat then Err errTooMany
        else
          '(requestID, prefix, r) ← parseAddress r;
          if requestID =? 0 then Err errZeroRequestID
          else request_loop fuel' {| RequestIDs := RequestIDs c ++ [requestID]; Prefixes := Prefixes c ++ [prefix] |} r
    end.

(** src/proxy/masque/internal/connectip/capsule.go parseAddressRequestCapsule *)
Definition parseAddressRequestCapsule (r : CapsuleReader) : outcome capsule_error addressRequestCapsule :=
  if Remaining r =? 0 then Err errNoAddresses else request_loop (S (length (available r))) {| RequestIDs := []; Prefixes := [] |} r.

(** An index past the identifiers would panic; there is one for each prefix.
    src/proxy/masque/internal/connectip/capsule.go addressRequestCapsule.append *)
Definition append_request (c : addressRequestCapsule) (b : bytes) : bytes :=
  let l := zip (RequestIDs c) (Prefixes c) in
  let totalLen := sum ((fun '(id, p) => varint_Len id + 1 + BitLen (p_Addr p) / 8 + 1) <$> l) in
  b ++ varint_Append capsuleTypeAddressRequest ++ varint_Append totalLen ++ concat ((fun '(id, p) => append_address id p) <$> l).

(** ** Routes *)

(** src/proxy/masque/internal/connectip/capsule.go:208-212 IPRoute *)
Record IPRoute := { StartIP : Addr; EndIP : Addr; IPProtocol : Z }.

(** src/proxy/masque/internal/connectip/capsule.go IPRoute.len *)
Definition route_len (r : IPRoute) : Z := 1 + BitLen (StartIP r) / 8 + BitLen (EndIP r) / 8 + 1.

(** src/proxy/masque/internal/connectip/capsule.go IPRoute.contains *)
Definition route_contains (r : IPRoute) (addr : Addr) : bool := addr_le (StartIP r) addr && addr_le addr (EndIP r).

(** src/proxy/masque/internal/connectip/capsule.go IPRoute.Prefixes *)
Definition route_Prefixes (r : IPRoute) : option (list Prefix) := rangeToPrefixes (StartIP r) (EndIP r).

(** src/proxy/masque/internal/connectip/capsule.go:195-204 routeAdvertisementCapsule.append *)
Definition append_route (r : IPRoute) : bytes :=
  (if Is4 (StartIP r) then x04 else x06) :: AsSlice (StartIP r) ++ AsSlice (EndIP r) ++ [byte_of_Z (IPProtocol r)].

(** src/proxy/masque/internal/connectip/capsule.go routeAdvertisementCapsule.append *)
Definition append_routes (c : list IPRoute) (b : bytes) : bytes :=
  let totalLen := sum (route_len <$> c) in
  b ++ varint_Append capsuleTypeRouteAdvertisement ++ varint_Append totalLen ++ concat (append_route <$> c).

(** src/proxy/masque/internal/connectip/capsule.go parseIPAddressRange *)
Definition parseIPAddressRange (r : CapsuleReader) : outcome capsule_error (IPRoute * CapsuleReader) :=
  '(ipVersion, r) ← read_byte r;
  '(startIP, endIP, r) ← (if decide (ipVersion = x04) then '(s, r) ← ReadFull 4 r; '(e, r) ← ReadFull 4 r; Ok (AddrFrom4 s, AddrFrom4 e, r)
              else if decide (ipVersion = x06) then '(s, r) ← ReadFull 16 r; '(e, r) ← ReadFull 16 r; Ok (AddrFrom16 s, AddrFrom16 e, r)
              else Err errIPVersion);
  '(ipProtocol, r) ← read_byte r;
  Ok ({| StartIP := startIP; EndIP := endIP; IPProtocol := byte_to_Z ipProtocol |}, r).
End Capsules.

(** *** The order of routes *)

(** src/proxy/masque/internal/connectip/capsule.go:229-240 validateRouteAdvertisement *)
Definition check_route (r : IPRoute) : outcome capsule_error unit :=
  if negb (IsValid (StartIP r)) || negb (IsValid (EndIP r)) then Err errInvalidAddress
  else if negb (Bool.eqb (Is4 (StartIP r)) (Is4 (EndIP r))) then Err errFamilies
  else if negb (bool_decide (Zone (StartIP r) = [])) || negb (bool_decide (Zone (EndIP r) = [])) then Err errZones
  else if negb (addr_le (StartIP r) (EndIP r)) then Err errStartAfterEnd
  else Ok tt.

(** src/proxy/masque/internal/connectip/capsule.go:228-249 validateRouteAdvertisement *)
Fixpoint check_routes (l : list IPRoute) : outcome capsule_error unit :=
  match l with [] => Ok tt | r :: l' => _ ← check_route r; check_routes l' end.

(** src/proxy/masque/internal/connectip/capsule.go:251-266 validateRouteAdvertisement *)
Definition check_pair (a b : IPRoute) : outcome capsule_error unit :=
  if BitLen (StartIP a) >? BitLen (StartIP b) then Err errVersionOrder
  else if negb (BitLen (StartIP a) =? BitLen (StartIP b)) then Ok tt
  else if IPProtocol a >? IPProtocol b then Err errProtocolOrder
  else if (IPProtocol a =? IPProtocol b) && negb (addr_lt (EndIP a) (StartIP b)) then Err errNotDisjoint
  else Ok tt.

(** src/proxy/masque/internal/connectip/capsule.go:251-266 validateRouteAdvertisement *)
Fixpoint check_pairs (l : list IPRoute) : outcome capsule_error unit :=
  match l with a :: (b :: _) as l' => _ ← check_pair a b; check_pairs l' | _ => Ok tt end.

(** The routes for all protocols from the [j]-th on, against one for a
    protocol: the new [j].
    src/proxy/masque/internal/connectip/capsule.go:282-292 validateNonOverlappingRoutes *)
Fixpoint pass_routes (fuel : nat) (all : list IPRoute) (b : IPRoute) (j : nat) : outcome capsule_error nat :=
  match fuel, all !! j with
  | S fuel', Some a =>
      if addr_lt (EndIP a) (StartIP b) then pass_routes fuel' all b (S j)
      else if addr_lt (EndIP b) (StartIP a) then Ok j
      else Err errOverlap
  | _, _ => Ok j
  end.

(** src/proxy/masque/internal/connectip/capsule.go:278-293 validateNonOverlappingRoutes *)
Fixpoint no_overlap (all : list IPRoute) (prev : option IPRoute) (specific : list IPRoute) (j : nat) : outcome capsule_error unit :=
  match specific with
  | [] => Ok tt
  | b :: specific' =>
      let j := match prev with Some p => if negb (IPProtocol p =? IPProtocol b) then O else j | None => j end in
      j ← pass_routes (S (length all)) all b j;
      no_overlap all (Some b) specific' j
  end.

(** src/proxy/masque/internal/connectip/capsule.go validateNonOverlappingRoutes *)
Definition validateNonOverlappingRoutes (all specific : list IPRoute) : outcome capsule_error unit := no_overlap all None specific 0.

(** src/proxy/masque/internal/connectip/capsule.go validateRouteAdvertisement *)
Definition validateRouteAdvertisement (routes : list IPRoute) : outcome capsule_error unit :=
  _ ← check_routes routes;
  _ ← check_pairs routes;
  let v4 r := Is4 (StartIP r) in
  let numIPv4 := length (filter (fun r => v4 r = true) routes) in
  let numIPv4Protocol0 := length (filter (fun r => v4 r && (IPProtocol r =? 0) = true) routes) in
  let numIPv6Protocol0 := length (filter (fun r => negb (v4 r) && (IPProtocol r =? 0) = true) routes) in
  let ipv4 := take numIPv4 routes in
  _ ← validateNonOverlappingRoutes (take numIPv4Protocol0 ipv4) (drop numIPv4Protocol0 ipv4);
  let ipv6 := drop numIPv4 routes in
  validateNonOverlappingRoutes (take numIPv6Protocol0 ipv6) (drop numIPv6Protocol0 ipv6).

(** src/proxy/masque/internal/connectip/capsule.go:299-308 parseRouteAdvertisementCapsule *)
Fixpoint route_loop (fuel : nat) (acc : list IPRoute) (r : CapsuleReader) : outcome capsule_error (list IPRoute) :=
  if Remaining r <=? 0 then Ok acc
  else
    match fuel with
    | O => Panic
    | S fuel' =>
        if (maxRoutesPerCapsule <=? length acc)%nat then Err errTooMany
        else '(range, r) ← parseIPAddressRange r; route_loop fuel' (acc ++ [range]) r
    end.

(** src/proxy/masque/internal/connectip/capsule.go parseRouteAdvertisementCapsule *)
Definition parseRouteAdvertisementCapsule (r : CapsuleReader) : outcome capsule_error (list IPRoute) :=
  ranges ← route_loop (S (length (available r))) [] r;
  _ ← validateRouteAdvertisement ranges;
  Ok ranges.
