(* ===== verification/Capsule.v ===== *)
(** * UDP over HTTP capsules, [proxy/http3/capsule.go]

    The HTTP outbounds carry UDP packets as capsules on a connection for each
    destination: a type, a length, a context and the packet, with numbers of
    variable length. ([proxy/http/capsule.go] is the same code.) *)

From S2P Require Import Prelude Net Buffer BufferFacts ConnectIp.
Local Open Scope Z_scope.

(** ** Numbers of variable length *)

(** src/proxy/http3/capsule.go varintLen *)
Definition varintLen (v : Z) : Z := if v <? 2 ^ 6 then 1 else if v <? 2 ^ 14 then 2 else if v <? 2 ^ 30 then 4 else 8.

(** src/proxy/http3/capsule.go:171-178 readVarint *)
Fixpoint read_varint_bytes (n : nat) (value : Z) (s : bytes) : option (Z * bytes) :=
  match n with
  | O => Some (value, s)
  | S n' => match s with [] => None | b :: s' => read_varint_bytes n' (u64 (Z.lor (Z.shiftl value 8) (byte_to_Z b))) s' end
  end.

(** The number, its length and what is left; nothing when the stream ends.
    src/proxy/http3/capsule.go readVarint *)
Definition readVarint (s : bytes) : option (Z * Z * bytes) :=
  match s with
  | [] => None
  | b :: s' =>
      let length := Z.shiftl 1 (Z.shiftr (byte_to_Z b) 6) in
      '(value, s') ← read_varint_bytes (Z.to_nat (length - 1)) (Z.land (byte_to_Z b) 0x3f) s';
      Some (value, length, s')
  end.

(** src/proxy/http3/capsule.go:219-235 uotReaderWriter.WriteMultiBuffer *)
Definition put_varint (v : Z) : bytes :=
  if varintLen v =? 1 then [byte_of_Z v]
  else if varintLen v =? 2 then put16 (Z.lor (u16 v) 0x4000)
  else if varintLen v =? 4 then put32 (Z.lor (u32 v) 0x80000000)
  else be_split 8 (Z.lor v 0xc000000000000000).

(** ** Reading *)

Inductive capsule_event := Datagram (payload : bytes) (endpoint : Destination) | ReadFailed.

(** What the loop hands on of a stream that ends after [s]; every turn takes a
    byte at least.
    src/proxy/http3/capsule.go:72-141 uotReaderWriter.readLoop *)
Fixpoint readLoop (fuel : nat) (dest : Destination) (s : bytes) : list capsule_event :=
  match fuel with
  | O => []
  | S fuel' =>
      match readVarint s with
      | None => [ReadFailed]
      | Some (capsuleType, _, s) =>
          match readVarint s with
          | None => [ReadFailed]
          | Some (capsuleLength, _, s) =>
              if capsuleLength >? 2147483647 then [ReadFailed]
              else if negb (capsuleType =? 0) then
                if Z.of_nat (length s) <? capsuleLength then [ReadFailed] else readLoop fuel' dest (drop (Z.to_nat capsuleLength) s)
              else
                match readVarint s with
                | None => [ReadFailed]
                | Some (contextID, contextIDLength, s) =>
                    let payloadLength := i32 (i32 capsuleLength - i32 contextIDLength) in
                    if payloadLength <? 0 then [ReadFailed]
                    else if negb (contextID =? 0) then
                      if Z.of_nat (length s) <? payloadLength then [ReadFailed] else readLoop fuel' dest (drop (Z.to_nat payloadLength) s)
                    else if Z.of_nat (length s) <? payloadLength then [ReadFailed]
                    else Datagram (take (Z.to_nat payloadLength) s) (UDPDestination (dest_Address dest) (dest_Port dest)) :: readLoop fuel' dest (drop (Z.to_nat payloadLength) s)
                end
          end
      end
  end.

(** ** Writing *)

(** Connections are numbers; the first one is that of the target. [output] is
    what has been written, and on which connection; a reading loop runs for
    each of [reading].
    src/proxy/http3/capsule.go:37-45 uotReaderWriter *)
Record uotReaderWriter := { conn : nat; dest : Destination; connMap : list (Destination * nat); output : list (nat * bytes); reading : list (nat * Destination) }.

#[export] Instance Destination_eq_dec : EqDecision Destination.
Proof. solve_decision. Defined.

(** src/proxy/http3/capsule.go newUoTReaderWriter *)
Definition newUoTReaderWriter (conn : nat) (dest : Destination) : uotReaderWriter :=
  {| conn := conn; dest := dest; connMap := []; output := []; reading := [(conn, dest)] |}.

Fixpoint conn_of (m : list (Destination * nat)) (d : Destination) : option nat :=
  match m with [] => None | (d', c) :: m' => if decide (d' = d) then Some c else conn_of m' d end.

Section Write.
(** The result of a dial after so many connections, whether the writer was
    closed meanwhile, and whether a write fails. *)
Variable dial : nat -> Destination -> option nat.
Variable closed : nat -> bool.
Variable failing : nat -> bytes -> bool.

(** The connection of a packet's destination, which is dialled at need. The
    packet is dropped when it cannot be.
    src/proxy/http3/capsule.go:184-214 uotReaderWriter.WriteMultiBuffer *)
Definition connection_for (w : uotReaderWriter) (d : Destination) : option (option nat * uotReaderWriter) :=
  if decide (d = dest w) then Some (Some (conn w), w)
  else
    match conn_of (connMap w) d with
    | Some c => Some (Some c, w)
    | None =>
        match dial (length (reading w)) d with
        | None => Some (None, w)
        | Some c =>
            if closed (length (reading w)) then None
            else Some (Some c, {| conn := conn w; dest := dest w; connMap := (d, c) :: connMap w; output := output w; reading := reading w ++ [(c, d)] |})
        end
    end.

(** src/proxy/http3/capsule.go:215-240 uotReaderWriter.WriteMultiBuffer *)
Definition encode_packet (payload : bytes) : bytes := x00 :: put_varint (1 + Z.of_nat (length payload)) ++ x00 :: payload.

(** Whether all was written, and the writer.
    src/proxy/http3/capsule.go:181-246 uotReaderWriter.WriteMultiBuffer *)
Fixpoint uot_WriteMultiBuffer (w : uotReaderWriter) (mb : MultiBuffer) : outcome unit (bool * uotReaderWriter) :=
  match mb with
  | [] => Ok (true, w)
  | b :: mb' =>
      match connection_for w (default (dest w) (Endpoint b)) with
      | None => Ok (false, w)
      | Some (None, w) => uot_WriteMultiBuffer w mb'
      | Some (Some c, w) =>
          content ← Bytes b;
          let payload := encode_packet content in
          let w' := {| conn := conn w; dest := dest w; connMap := connMap w; output := output w ++ [(c, payload)]; reading := reading w |} in
          if failing c payload then Ok (false, w') else uot_WriteMultiBuffer w' mb'
      end
  end.
End Write.

(** What was written on a connection. *)
Definition stream_of (w : uotReaderWriter) (c : nat) : bytes := concat (snd <$> filter (fun o => o.1 = c) (output w)).

(** * UDP packets come back out of their capsules *)

(** ** Numbers *)

Lemma lor_high v t k : 0 <= k -> 0 <= v < 2 ^ k -> Z.lor v (t * 2 ^ k) = v + t * 2 ^ k.
Proof.
  intros Hk Hv. rewrite <-Z.add_lor_land. assert (Z.land v (t * 2 ^ k) = 0) as ->; [|lia].
  apply Z.bits_inj'. intros n Hn. rewrite Z.land_spec, Z.bits_0. destruct (Z.lt_ge_cases n k); [by rewrite Z.mul_pow2_bits_low, andb_false_r by lia|].
  rewrite <-(Z.mod_small v (2 ^ k)) by lia. by rewrite Z.mod_pow2_bits_high by lia.
Qed.

Lemma read_bytes_value b rest : forall value, 0 <= value -> value * 256 ^ Z.of_nat (length b) + be_combine b < 2 ^ 64 ->
  read_varint_bytes (length b) value (b ++ rest) = Some (value * 256 ^ Z.of_nat (length b) + be_combine b, rest).
Proof.
  induction b as [|x b IH]; intros value Hv Hlt; [cbn; do 2 f_equal; change (be_combine []) with 0; lia|].
  pose proof (be_combine_range b). pose proof (byte_to_Z_range x).
  assert (E : be_combine (x :: b) = byte_to_Z x * 256 ^ Z.of_nat (length b) + be_combine b) by (rewrite !be_combine_sum; unfold be_sum at 1; cbn [foldl]; rewrite be_sum_acc; lia).
  rewrite E in *. cbn [length] in *. rewrite Nat2Z.inj_succ, Z.pow_succ_r in * by lia. cbn [app read_varint_bytes].
  assert (0 < 256 ^ Z.of_nat (length b)) by (apply Z.pow_pos_nonneg; lia).
  assert (Z.lor (Z.shiftl value 8) (byte_to_Z x) = value * 256 + byte_to_Z x) as -> by (rewrite Z.lor_comm, Z.shiftl_mul_pow2, lor_high by lia; lia).
  assert (u64 (value * 256 + byte_to_Z x) = value * 256 + byte_to_Z x) as -> by (unfold u64; apply Z.mod_small; nia).
  rewrite IH by nia. do 2 f_equal. lia.
Qed.

(** A number in [n] bytes below the two bits that tell [n]. *)
Lemma read_tagged (n : nat) tag v rest : (0 < n <= 8)%nat -> 0 <= tag < 4 -> Z.of_nat n = Z.shiftl 1 tag -> 0 <= v < 2 ^ (8 * Z.of_nat n - 2) ->
  readVarint (be_split n (v + tag * 2 ^ (8 * Z.of_nat n - 2)) ++ rest) = Some (v, Z.of_nat n, rest).
Proof.
  intros Hn Htag Hlen Hv. destruct n as [|n]; [lia|]. cbn [be_split app readVarint]. set (w := v + _).
  assert (Hpow : 2 ^ (8 * Z.of_nat (S n) - 2) = 64 * 256 ^ Z.of_nat n) by (change 64 with (2 ^ 6); change 256 with (2 ^ 8); rewrite <-Z.pow_mul_r, <-Z.pow_add_r by lia; f_equal; lia).
  assert (Hp : 0 < 256 ^ Z.of_nat n) by (apply Z.pow_pos_nonneg; lia). rewrite Hpow in *. set (P := 256 ^ Z.of_nat n) in *.
  assert (Hw : w = v + tag * 64 * P) by (unfold w; lia).
  assert (Hfirst : byte_to_Z (byte_of_Z (Z.shiftr w (8 * Z.of_nat n))) = tag * 64 + v / P).
  { rewrite byte_to_of_Z, Z.shiftr_div_pow2 by lia. replace (2 ^ (8 * Z.of_nat n)) with P by (unfold P; change 256 with (2 ^ 8); by rewrite Z.pow_mul_r by lia).
    rewrite Hw, Z.div_add by lia. pose proof (Z.div_pos v P). pose proof (Z.div_lt_upper_bound v P 64). unfold u8. rewrite Z.mod_small by lia. lia. }
  rewrite Hfirst. pose proof (Z.div_pos v P). pose proof (Z.div_lt_upper_bound v P 64).
  assert (Z.shiftr (tag * 64 + v / P) 6 = tag) as -> by (rewrite Z.shiftr_div_pow2 by lia; change (2 ^ 6) with 64; rewrite Z.div_add_l, Z.div_small by lia; lia).
  assert (Z.land (tag * 64 + v / P) 63 = v / P) as -> by (change 63 with (Z.ones 6); rewrite Z.land_ones by lia; change (2 ^ 6) with 64; rewrite Z.add_comm, Z.mod_add, Z.mod_small by lia; done).
  rewrite <-Hlen. replace (Z.to_nat (Z.of_nat (S n) - 1)) with (length (be_split n w)) by (rewrite length_be_split; lia).
  assert (Hsum : v / P * P + be_combine (be_split n w) = v).
  { rewrite be_combine_split. fold P. rewrite Hw, Z.mod_add by lia. pose proof (Z.div_mod v P). lia. }
  assert (64 * P <= 2 ^ 62) by (unfold P; change 256 with (2 ^ 8); rewrite <-Z.pow_mul_r by lia; change 64 with (2 ^ 6); rewrite <-Z.pow_add_r by lia; apply Z.pow_le_mono_r; lia).
  rewrite read_bytes_value by (rewrite ?length_be_split; fold P; lia).
  rewrite length_be_split. fold P. cbn [mbind option_bind]. by rewrite Hsum.
Qed.

Lemma readVarint_put v rest : 0 <= v < 2 ^ 62 -> readVarint (put_varint v ++ rest) = Some (v, varintLen v, rest).
Proof.
  intros Hv. unfold put_varint, varintLen. destruct (Z.ltb_spec v (2 ^ 6)); cbn [Z.eqb Pos.eqb].
  { replace [byte_of_Z v] with (be_split 1 (v + 0 * 2 ^ (8 * Z.of_nat 1 - 2))) by (cbn; rewrite Z.shiftr_0_r; do 2 f_equal; lia). apply read_tagged; done || lia. }
  destruct (Z.ltb_spec v (2 ^ 14)); cbn [Z.eqb Pos.eqb].
  { rewrite u16_small by lia. change 0x4000 with (1 * 2 ^ 14). rewrite lor_high by lia. apply (read_tagged 2 1); done || lia. }
  destruct (Z.ltb_spec v (2 ^ 30)); cbn [Z.eqb Pos.eqb].
  { rewrite u32_small by lia. change 0x80000000 with (2 * 2 ^ 30). rewrite lor_high by lia. apply (read_tagged 4 2); done || lia. }
  change 0xc000000000000000 with (3 * 2 ^ 62). rewrite lor_high by lia. apply (read_tagged 8 3); done || lia.
Qed.

Lemma length_put_varint v : Z.of_nat (length (put_varint v)) = varintLen v.
Proof. unfold put_varint, varintLen. repeat (case_match; try done); by rewrite ?length_be_split. Qed.

Lemma read_varint_bytes_length n : forall value s v s', read_varint_bytes n value s = Some (v, s') -> (length s' + n = length s)%nat.
Proof. induction n as [|n IH]; intros value s v s'; cbn; [intros [= _ <-]; lia|]. destruct s as [|b s]; [done|]. intros E. apply IH in E. cbn. lia. Qed.

Lemma read_varint_bytes_bound n : forall value k s v s', 0 <= k -> k + 8 * Z.of_nat n <= 62 -> 0 <= value < 2 ^ k -> read_varint_bytes n value s = Some (v, s') -> 0 <= v < 2 ^ 62.
Proof.
  induction n as [|n IH]; intros value k s v s' Hk Hn Hv; cbn [read_varint_bytes].
  - intros [= <- _]. assert (2 ^ k <= 2 ^ 62) by (apply Z.pow_le_mono_r; lia). lia.
  - destruct s as [|b s]; [done|]. pose proof (byte_to_Z_range b). apply (IH _ (k + 8)); [lia..|].
    assert (Z.lor (Z.shiftl value 8) (byte_to_Z b) = value * 256 + byte_to_Z b) as -> by (rewrite Z.lor_comm, Z.shiftl_mul_pow2, lor_high by lia; lia).
    assert (2 ^ (k + 8) <= 2 ^ 62) by (apply Z.pow_le_mono_r; lia). assert (2 ^ (k + 8) = 2 ^ k * 256) as E by (rewrite Z.pow_add_r by lia; done).
    unfold u64. rewrite Z.mod_small by nia. nia.
Qed.

Lemma readVarint_ok s v l s' : readVarint s = Some (v, l, s') -> 0 <= v < 2 ^ 62 /\ (length s' < length s)%nat.
Proof.
  unfold readVarint. destruct s as [|b s]; [done|]. destruct (read_varint_bytes _ _ s) as [[v' s'']|] eqn:E; [|done]. cbn. intros [= <- _ <-].
  pose proof (read_varint_bytes_length _ _ _ _ _ E). split; [|cbn; lia]. pose proof (byte_to_Z_range b).
  assert (0 <= Z.shiftr (byte_to_Z b) 6 < 4) as Ht by (rewrite Z.shiftr_div_pow2 by lia; split; [apply Z.div_pos; lia|apply Z.div_lt_upper_bound; lia]).
  eapply (read_varint_bytes_bound _ _ 6); [lia| | |exact E].
  - revert Ht. generalize (Z.shiftr (byte_to_Z b) 6). intros t Ht. assert (t = 0 \/ t = 1 \/ t = 2 \/ t = 3) as [->|[->|[->| ->]]] by lia; vm_compute; discriminate.
  - change 63 with (Z.ones 6). rewrite Z.land_ones by lia. apply Z.mod_pos_bound. lia.
Qed.

(** The numbers of this code as those of the package [quicvarint]. *)
#[export] Instance rfc_varint : QuicVarint := {|
  varint_Append := put_varint; varint_Len := varintLen;
  varint_Parse b := '(v, _, s) ← readVarint b; Some (v, (length b - length s)%nat) |}.

#[export] Instance rfc_varint_laws : QuicVarintLaws.
Proof.
  split; cbn.
  - intros z rest Hz. rewrite readVarint_put by done. cbn. do 2 f_equal. rewrite length_app. lia.
  - intros z _. by rewrite length_put_varint.
  - intros b z n. destruct (readVarint b) as [[[v l] s]|] eqn:E; [|done]. cbn. intros [= <- <-]. apply readVarint_ok in E as [? ?]. split; [done|lia].
Qed.

(** ** One connection *)

Definition short_enough (p : bytes) : Prop := Z.of_nat (length p) < 2 ^ 31 - 1.
Definition datagram (d : Destination) (p : bytes) : capsule_event := Datagram p (UDPDestination (dest_Address d) (dest_Port d)).

Lemma varintLen_small v : 0 <= v -> 1 <= varintLen v <= 8.
Proof. unfold varintLen. repeat case_match; lia. Qed.

Lemma readLoop_packet fuel d p rest : short_enough p -> readLoop (S fuel) d (encode_packet p ++ rest) = datagram d p :: readLoop fuel d rest.
Proof.
  intros Hp. unfold short_enough in Hp. unfold encode_packet. cbn [readLoop app]. change (x00 :: ?s) with (put_varint 0 ++ s) at 1. rewrite readVarint_put by lia.
  rewrite <-app_assoc, readVarint_put by lia. destruct (Z.gtb_spec (1 + Z.of_nat (length p)) 2147483647); [lia|]. cbn [Z.eqb negb app].
  change (x00 :: p ++ rest) with (put_varint 0 ++ p ++ rest). rewrite readVarint_put by lia. change (varintLen 0) with 1. rewrite !i32_small by (rewrite ?i32_small; lia).
  replace (1 + Z.of_nat (length p) - 1) with (Z.of_nat (length p)) by lia. rewrite (proj2 (Z.ltb_ge _ 0)) by lia. rewrite (proj2 (Z.ltb_ge _ (Z.of_nat (length p)))) by (rewrite length_app; lia).
  by rewrite Nat2Z.id, take_app_length, drop_app_length.
Qed.

Lemma readLoop_packets d ps : forall fuel, (length ps < fuel)%nat -> Forall short_enough ps ->
  readLoop fuel d (concat (encode_packet <$> ps)) = (datagram d <$> ps) ++ [ReadFailed].
Proof.
  induction ps as [|p ps IH]; intros [|fuel] Hf Hok; cbn [length] in *; [lia|done|lia|]. apply Forall_cons in Hok as [Hp Hok]. cbn [fmap list_fmap concat].
  rewrite readLoop_packet by done. cbn. f_equal. apply IH; [lia|done].
Qed.

Lemma packets_length ps : (length ps <= length (concat (encode_packet <$> ps)))%nat.
Proof. induction ps as [|p ps IH]; [done|]. cbn [fmap list_fmap concat length]. rewrite length_app. unfold encode_packet at 1. cbn [length]. lia. Qed.

(** ** All connections *)

Section Connections.
Context (main : nat) (target : Destination) (fresh : nat -> nat).
Context (Hfresh : forall k, (0 < k)%nat -> fresh k <> main) (Hinj : forall k l, fresh k = fresh l -> k = l).

Definition goes_to (b : Buffer) : Destination := default target (Endpoint b).
(** The payloads of a list of packets for one destination. *)
Definition payloads_for (d : Destination) (mb : MultiBuffer) : list bytes := content <$> filter (fun b => goes_to b = d) mb.

Record uot_inv (sent : MultiBuffer) (w : uotReaderWriter) : Prop := {
  uo_main : conn w = main /\ dest w = target /\ (main, target) ∈ reading w;
  uo_nodup : NoDup (reading w).*1;
  uo_dests : NoDup (reading w).*2;
  uo_fresh : forall c, c ∈ (reading w).*1 -> c = main \/ exists k, (0 < k < length (reading w))%nat /\ c = fresh k;
  uo_map : forall c d, conn_of (connMap w) d = Some c -> (c, d) ∈ reading w;
  uo_known : forall c d, (c, d) ∈ reading w -> d = target \/ conn_of (connMap w) d = Some c;
  uo_output : forall o, o ∈ output w -> o.1 ∈ (reading w).*1;
  uo_sent : forall b, b ∈ sent -> goes_to b ∈ (reading w).*2;
  uo_stream : forall c d, (c, d) ∈ reading w -> stream_of w c = concat (encode_packet <$> payloads_for d sent) }.

Lemma payloads_snoc d sent b : payloads_for d (sent ++ [b]) = payloads_for d sent ++ if decide (goes_to b = d) then [content b] else [].
Proof. unfold payloads_for. rewrite filter_app, fmap_app. f_equal. rewrite filter_cons, filter_nil. by case_decide. Qed.

Lemma NoDup_fmap_eq {A B} (f : A -> B) l x y : NoDup (f <$> l) -> x ∈ l -> y ∈ l -> f x = f y -> x = y.
Proof.
  intros Hn Hx Hy E. apply list_elem_of_lookup_1 in Hx as [i Hi]. apply list_elem_of_lookup_1 in Hy as [j Hj].
  assert (i = j) as ->; [|congruence]. eapply (NoDup_lookup _ _ _ (f x) Hn); rewrite list_lookup_fmap; [by rewrite Hi|by rewrite Hj, E].
Qed.

(** One packet on a connection that is known. *)
Lemma write_inv sent w b c : uot_inv sent w -> (c, goes_to b) ∈ reading w ->
  uot_inv (sent ++ [b]) {| conn := conn w; dest := dest w; connMap := connMap w; output := output w ++ [(c, encode_packet (content b))]; reading := reading w |}.
Proof.
  intros [H1 H2 H2' H3 H4 H5 H6 H7 H8] Hc. split; cbn; [done..| | |].
  - intros o [Ho|Ho%list_elem_of_singleton]%elem_of_app; [by apply H6|subst; cbn]. apply list_elem_of_fmap. by exists (c, goes_to b).
  - intros x [Hx|Hx%list_elem_of_singleton]%elem_of_app; [by apply H7|subst]. apply list_elem_of_fmap. by exists (c, goes_to b).
  - intros c' d Hd. unfold stream_of. cbn. rewrite filter_app, fmap_app, concat_app. fold (stream_of w c'). rewrite (H8 c' d Hd), payloads_snoc, fmap_app, concat_app. f_equal.
    rewrite filter_cons, filter_nil. cbn. destruct (decide (goes_to b = d)) as [<-|Hne].
    + pose proof (NoDup_fmap_eq _ _ _ _ H2' Hc Hd eq_refl) as E. injection E as ->. by rewrite decide_True.
    + rewrite decide_False; [done|]. intros ->. pose proof (NoDup_fmap_eq _ _ _ _ H2 Hc Hd eq_refl) as E. by injection E.
Qed.

(** A packet that is dropped: none of its kind was sent. *)
Definition dial_ok (k : nat) (d : Destination) : option nat := Some (fresh k).
Definition never_closed (k : nat) : bool := false.
Definition never_failing (c : nat) (b : bytes) : bool := false.

Lemma connection_inv sent w d : uot_inv sent w -> exists c w', connection_for dial_ok never_closed w d = Some (Some c, w') /\ uot_inv sent w' /\ (c, d) ∈ reading w'.
Proof.
  intros Hi. pose proof Hi as [(Hm1 & Hm2 & Hm3) H2 H2' H3 H4 H5 H6 H7 H8]. unfold connection_for. case_decide as Ed; [exists (conn w), w; split_and!; [done..|]; by rewrite Hm1, Ed, Hm2|].
  destruct (conn_of (connMap w) d) as [c|] eqn:E; [exists c, w; split_and!; [done..|]; by apply H4|]. cbn.
  set (k := length (reading w)). assert (0 < k)%nat by (unfold k; destruct (reading w); [by apply not_elem_of_nil in Hm3|cbn; lia]).
  assert (Hnew : fresh k ∉ (reading w).*1) by (intros [?|(l & Hl & El)]%H3; [by eapply Hfresh|apply Hinj in El; unfold k in *; lia]).
  assert (Hdn : d ∉ (reading w).*2).
  { intros ([c' d'] & E1 & Hin)%list_elem_of_fmap. cbn in E1. subst d'. destruct (H5 _ _ Hin); congruence. }
  eexists _, _. split_and!; [done| |cbn; set_solver]. split; cbn.
  - split_and!; [done..|set_solver].
  - rewrite fmap_app. cbn. rewrite Permutation_app_comm. by apply NoDup_cons.
  - rewrite fmap_app. cbn. rewrite Permutation_app_comm. by apply NoDup_cons.
  - intros c. rewrite fmap_app, length_app. cbn. intros [Hc|Hc%list_elem_of_singleton]%elem_of_app; [destruct (H3 c Hc) as [?|(l & ? & ?)]; [by left|right; exists l; lia]|right; exists k; split; [fold k; lia|done]].
  - intros c d'. case_decide as E'; [intros [= <-]; subst; set_solver|]. intros Hc%H4. set_solver.
  - intros c d' [Hc|Hc%list_elem_of_singleton]%elem_of_app; [|injection Hc as -> ->; right; by rewrite decide_True].
    destruct (H5 _ _ Hc) as [?|?]; [by left|right]. rewrite decide_False; [done|]. intros ->. congruence.
  - intros o Ho. rewrite fmap_app. apply elem_of_app. left. by apply H6.
  - intros b Hb. rewrite fmap_app. apply elem_of_app. left. by apply H7.
  - intros c d' [Hc|Hc%list_elem_of_singleton]%elem_of_app; [by apply H8|injection Hc as -> ->].
    unfold stream_of. cbn. assert (filter (fun o => o.1 = fresh k) (output w) = []) as ->.
    { destruct (filter _ _) as [|o l] eqn:Eo; [done|]. assert (o ∈ filter (fun o => o.1 = fresh k) (output w)) as Ho by (rewrite Eo; set_solver).
      apply list_elem_of_filter in Ho as [Eo1 Ho]. apply H6 in Ho. by rewrite Eo1 in Ho. }
    assert (payloads_for d sent = []) as ->; [|done]. unfold payloads_for. destruct (filter _ sent) as [|b l] eqn:Eb; [done|].
    assert (b ∈ filter (fun b => goes_to b = d) sent) as Hb by (rewrite Eb; set_solver). apply list_elem_of_filter in Hb as [Eb1 Hb]. apply H7 in Hb. by rewrite Eb1 in Hb.
Qed.

Lemma writes_inv mb : forall sent w, uot_inv sent w -> Forall wf mb ->
  exists w', uot_WriteMultiBuffer dial_ok never_closed never_failing w mb = Ok (true, w') /\ uot_inv (sent ++ mb) w'.
Proof.
  induction mb as [|b mb IH]; intros sent w Hi Hwf; [exists w; by rewrite app_nil_r|]. apply Forall_cons in Hwf as [Hb Hwf]. cbn [uot_WriteMultiBuffer].
  pose proof (uo_main _ _ Hi) as (_ & Hd & _). rewrite Hd. fold (goes_to b). destruct (connection_inv sent w (goes_to b) Hi) as (c & w' & -> & Hi' & Hc).
  rewrite Bytes_content by done. cbn [mbind outcome_bind never_failing]. pose proof (write_inv _ _ _ _ Hi' Hc) as Hi2.
  destruct (IH _ _ Hi2 Hwf) as (w2 & -> & Hw2). exists w2. split; [done|]. by rewrite <-app_assoc in Hw2.
Qed.

Lemma new_inv : uot_inv [] (newUoTReaderWriter main target).
Proof.
  split; cbn [newUoTReaderWriter conn dest connMap output reading].
  - split_and!; [done..|by apply list_elem_of_singleton].
  - apply NoDup_singleton.
  - apply NoDup_singleton.
  - intros c Hc%list_elem_of_singleton. by left.
  - done.
  - intros c d [= -> ->]%list_elem_of_singleton. by left.
  - by intros o ?%not_elem_of_nil.
  - by intros o ?%not_elem_of_nil.
  - done.
Qed.
End Connections.

(** C21: UDP packets through the HTTP outbounds. When every dial gives a new
    connection and no write fails, all packets are written, each to the
    connection of its destination (that of the target when it names none);
    there is a connection for each destination and one destination for each
    connection; and the loop that reads a connection hands on the payloads of
    the packets for its destination, in order and unchanged, until the stream
    ends. *)
Theorem udp_capsules_roundtrip main target fresh mb :
  (forall k, (0 < k)%nat -> fresh k <> main) -> (forall k l, fresh k = fresh l -> k = l) -> Forall (fun b => wf b /\ short_enough (content b)) mb ->
  exists w, uot_WriteMultiBuffer (dial_ok fresh) never_closed never_failing (newUoTReaderWriter main target) mb = Ok (true, w) /\
    NoDup (reading w).*1 /\ NoDup (reading w).*2 /\ (forall b, b ∈ mb -> goes_to target b ∈ (reading w).*2) /\
    forall c d, (c, d) ∈ reading w -> readLoop (S (length (stream_of w c))) d (stream_of w c) = (datagram d <$> payloads_for target d mb) ++ [ReadFailed].
Proof.
  intros Hf Hi Hmb. destruct (writes_inv main target fresh Hf Hi mb [] _ (new_inv main target fresh)) as (w & Hw & Hinv); [eapply Forall_impl; [exact Hmb|by intros b []]|].
  exists w. split; [done|]. destruct Hinv as [H1 H2 H2' H3 H4 H5 H6 H7 H8]. split_and!; [done..|]. intros c d Hc. rewrite (H8 c d Hc). change ([] ++ mb) with mb. apply readLoop_packets; [pose proof (packets_length (payloads_for target d mb)); lia|].
  unfold payloads_for. apply Forall_fmap, Forall_forall. intros b [_ Hb]%list_elem_of_filter. by apply (proj1 (Forall_forall _ _) Hmb).
Qed.

(** Three packets: for the target, for another destination, for the target. *)
Definition to_port (p : Z) : Destination := UDPDestination (Some (ipv4Address [x01; x02; x03; x04])) p.
Definition udp_packet (b : bytes) (e : option Destination) : Buffer := set_endpoint (FromBytes b) e.
Definition sample_packets : MultiBuffer := [udp_packet (bs "abc") None; udp_packet (bs "") (Some (to_port 53)); udp_packet (bs "de") (Some (to_port 80))].

Lemma sample_packets_ok : Forall (fun b => wf b /\ short_enough (content b)) sample_packets.
Proof. repeat (apply Forall_cons; split; [split; [split; cbn; try done; lia|by vm_compute]|]). by apply Forall_nil. Qed.

Lemma udp_capsules_roundtrip_witness : exists w, uot_WriteMultiBuffer (dial_ok S) never_closed never_failing (newUoTReaderWriter 0 (to_port 80)) sample_packets = Ok (true, w) /\
    NoDup (reading w).*1 /\ NoDup (reading w).*2 /\ (forall b, b ∈ sample_packets -> goes_to (to_port 80) b ∈ (reading w).*2) /\
    forall c d, (c, d) ∈ reading w -> readLoop (S (length (stream_of w c))) d (stream_of w c) = (datagram d <$> payloads_for (to_port 80) d sample_packets) ++ [ReadFailed].
Proof. apply (udp_capsules_roundtrip 0 (to_port 80) S sample_packets); [lia|lia|exact sample_packets_ok]. Defined.
