(* ===== verification/ConnectIpFacts.v ===== *)
(** * The capsules of CONNECT-IP: round trips, and what is accepted *)

From S2P Require Import Prelude Net NetIp ConnectIp Capsule.
From Stdlib Require Import Sorted.
Local Open Scope Z_scope.

Section Facts.
Context `{QuicVarintLaws}.

Definition reader (b : bytes) (lacking : Z) : CapsuleReader := {| available := b; lacking := lacking |}.

(** ** Reading *)

Lemma read_varint_append z rest m : 0 <= z < 2 ^ 62 -> read_varint (reader (varint_Append z ++ rest) m) = Ok (z, reader rest m).
Proof. intros Hz. unfold read_varint. cbn [available reader]. rewrite varint_parse_append by done. unfold reader. cbn [available lacking]. rewrite drop_app_length. done. Qed.

Lemma ReadFull_app b rest m : ReadFull (length b) (reader (b ++ rest) m) = Ok (b, reader rest m).
Proof. unfold ReadFull, reader. cbn [available lacking]. rewrite length_app. destruct (Nat.ltb_spec (length b + length rest) (length b)); [lia|]. rewrite take_app_length, drop_app_length. done. Qed.

Lemma read_split (n : nat) z rest m : ReadFull n (reader (be_split n z ++ rest) m) = Ok (be_split n z, reader rest m).
Proof. rewrite <-(length_be_split n z) at 1. apply ReadFull_app. Qed.

Lemma read_byte_cons b rest m : read_byte (reader (b :: rest) m) = Ok (b, reader rest m).
Proof. done. Qed.

Lemma parseAddress_append id p rest m : 0 <= id < 2 ^ 62 -> prefix_ok p -> parseAddress (reader (append_address id p ++ rest) m) = Ok (id, p, reader rest m).
Proof.
  intros Hid Hp. destruct p as [a n]. pose proof Hp as ((Hv & Hz & Hr) & Hn & _). cbn [p_Addr p_Bits] in *. unfold append_address, parseAddress. cbn [p_Addr p_Bits].
  rewrite <-app_assoc, read_varint_append by done. cbn [mbind outcome_bind app]. rewrite read_byte_cons. cbn [mbind outcome_bind].
  assert (Hm : {| p_Addr := a; p_Bits := n |} = Masked {| p_Addr := a; p_Bits := n |}) by (apply masked_ok; done).
  assert (Hn8 : byte_to_Z (byte_of_Z n) = n) by (rewrite byte_to_of_Z; apply Z.mod_small; destruct a; cbn in *; lia).
  assert (Hpre : PrefixFrom a n = {| p_Addr := a; p_Bits := n |}).
  { unfold PrefixFrom. rewrite Hv, (proj2 (Z.leb_le 0 n)), (proj2 (Z.leb_le n (BitLen a))) by lia. f_equal. destruct a; cbn in *; congruence. }
  destruct a as [|v|v z]; [done| |]; cbn [Is4 AsSlice Zone value BitLen] in *.
  - rewrite decide_True by done. rewrite <-app_assoc, read_split. cbn [mbind outcome_bind].
    rewrite AddrFrom4_split by done. cbn [app]. rewrite read_byte_cons. cbn [mbind outcome_bind]. rewrite Hn8, Hpre. cbn [BitLen]. destruct (Z.gtb_spec n 32); [lia|]. by rewrite decide_True by done.
  - subst z. rewrite decide_False, decide_True by done. rewrite <-app_assoc, read_split. cbn [mbind outcome_bind].
    rewrite AddrFrom16_split by done. cbn [app]. rewrite read_byte_cons. cbn [mbind outcome_bind]. rewrite Hn8, Hpre. cbn [BitLen]. destruct (Z.gtb_spec n 128); [lia|]. by rewrite decide_True by done.
Qed.

Lemma ReadFull_ok n r b r' : ReadFull n r = Ok (b, r') -> length b = n /\ lacking r' = lacking r /\ (length (available r') + n = length (available r))%nat.
Proof.
  unfold ReadFull. destruct (Nat.ltb_spec (length (available r)) n); [done|]. intros [= <- <-]. cbn [available lacking]. rewrite length_take, length_drop. lia.
Qed.

(** What is read of an address: it is valid, and at least a byte is gone. *)
Lemma parseAddress_ok r id p r' : parseAddress r = Ok (id, p, r') ->
  0 <= id < 2 ^ 62 /\ prefix_ok p /\ lacking r' = lacking r /\ (length (available r') < length (available r))%nat.
Proof.
  unfold parseAddress. rewrite outcome_bind_ok. intros ([id' r1] & Hid & Hb). unfold read_varint in Hid. destruct (varint_Parse (available r)) as [[z n]|] eqn:Ev; [|done].
  injection Hid as <- <-. apply varint_parsed in Ev as [Hz Hn]. apply outcome_bind_ok in Hb as ([v r2] & Hver & Hb). unfold read_byte in Hver. cbn [available lacking] in Hver.
  destruct (drop n (available r)) as [|v' l] eqn:Ed; [done|]. injection Hver as <- <-. apply (f_equal length) in Ed. rewrite length_drop in Ed. cbn in Ed.
  apply outcome_bind_ok in Hb as ([ip r3] & Hip & Hb). apply outcome_bind_ok in Hb as ([pl r4] & Hpl & Hb).
  assert (Haddr : addr_ok ip /\ lacking r3 = lacking r /\ (length (available r3) <= length l)%nat).
  { destruct (decide (v' = x04)); [|destruct (decide (v' = x06)); [|done]]; apply outcome_bind_ok in Hip as ([b r5] & Hb5 & [= <- <-]); apply ReadFull_ok in Hb5 as (Hlb & Hlk & Hlen); cbn [available lacking] in *.
    - split_and!; [by apply AddrFrom4_ok|done|lia].
    - split_and!; [by apply AddrFrom16_ok|done|lia].
    }
  destruct Haddr as (Ha & Hl3 & Hn3). unfold read_byte in Hpl. destruct (available r3) as [|x l3] eqn:E3; [done|]. injection Hpl as <- <-. cbn in Hn3.
  destruct (Z.gtb_spec (byte_to_Z x) (BitLen ip)); [done|]. pose proof (byte_to_Z_range x). case_decide as Hm; [|done]. injection Hb as <- <- <-. cbn [available lacking].
  split_and!; [lia|lia| |done|lia].
  assert (Hpre : PrefixFrom ip (byte_to_Z x) = {| p_Addr := ip; p_Bits := byte_to_Z x |}).
  { destruct Ha as (Hv & Hzn & _). unfold PrefixFrom. rewrite Hv, (proj2 (Z.leb_le 0 _)), (proj2 (Z.leb_le _ (BitLen ip))) by lia. f_equal. destruct ip; cbn in *; congruence. }
  rewrite Hpre in *. apply masked_ok; [exact Ha|cbn; lia|exact Hm].
Qed.

Lemma bind_no_panic {E A B} (m : outcome E A) (f : A -> outcome E B) : m <> Panic -> (forall a, f a <> Panic) -> m ≫= f <> Panic.
Proof. destruct m; cbn; auto. Qed.

Lemma read_varint_no_panic r : read_varint r <> Panic.
Proof. unfold read_varint. by destruct (varint_Parse _) as [[]|]. Qed.
Lemma read_byte_no_panic r : read_byte r <> Panic.
Proof. unfold read_byte. by destruct (available r). Qed.
Lemma ReadFull_no_panic n r : ReadFull n r <> Panic.
Proof. unfold ReadFull. by case_match. Qed.

Ltac no_panic := repeat first
  [ apply read_varint_no_panic | apply read_byte_no_panic | apply ReadFull_no_panic
  | apply bind_no_panic; [|intros []] | progress (repeat case_decide) | case_match; try done ]; try done.

Lemma parseAddress_no_panic r : parseAddress r <> Panic.
Proof. unfold parseAddress. no_panic. Qed.

Lemma parseIPAddressRange_no_panic r : parseIPAddressRange r <> Panic.
Proof. unfold parseIPAddressRange. no_panic. Qed.

(** ** The three capsules *)

Definition assigned_ok (a : AssignedAddress) : Prop := 0 <= RequestID a < 2 ^ 62 /\ prefix_ok (IPPrefix a).

Lemma append_address_length id p : 0 <= id < 2 ^ 62 -> prefix_ok p -> Z.of_nat (length (append_address id p)) = varint_Len id + 1 + BitLen (p_Addr p) / 8 + 1.
Proof. intros Hid (Ha & _). unfold append_address. rewrite varint_len by done. rewrite length_app. cbn [length]. rewrite length_app. cbn [length]. pose proof (length_AsSlice _ Ha). lia. Qed.

Lemma append_address_pos id p : (0 < length (append_address id p))%nat.
Proof. unfold append_address. rewrite length_app. cbn [length]. lia. Qed.

Lemma assign_loop_append l : forall fuel acc, (length l < fuel)%nat -> (length acc + length l <= maxAddressesPerCapsule)%nat -> Forall assigned_ok l ->
  assign_loop fuel acc (reader (concat ((fun a => append_address (RequestID a) (IPPrefix a)) <$> l)) 0) = Ok (acc ++ l).
Proof.
  induction l as [|a l IH]; intros fuel acc Hf Hl Hok; (destruct fuel as [|fuel]; [cbn in Hf; lia|]).
  - cbn [fmap list_fmap concat assign_loop]. by rewrite app_nil_r.
  - apply Forall_cons in Hok as [[Hid Hp] Hok]. cbn [length fmap list_fmap concat] in *. cbn [assign_loop].
    pose proof (append_address_pos (RequestID a) (IPPrefix a)). unfold Remaining at 1. cbn [available lacking reader]. rewrite length_app.
    rewrite (proj2 (Z.leb_gt _ 0)) by lia.
    destruct (Nat.leb_spec maxAddressesPerCapsule (length acc)); [lia|]. fold (reader (append_address (RequestID a) (IPPrefix a) ++ concat ((fun a => append_address (RequestID a) (IPPrefix a)) <$> l)) 0).
    rewrite parseAddress_append by done. cbn [mbind outcome_bind]. rewrite IH; [|lia|rewrite length_app; cbn [length]; lia|done].
    rewrite <-app_assoc. cbn. by destruct a.
Qed.

Lemma assign_loop_ok fuel : forall acc r, (length (available r) < fuel)%nat -> 0 <= lacking r ->
  assign_loop fuel acc r <> Panic /\ forall l, Forall assigned_ok acc -> (length acc <= maxAddressesPerCapsule)%nat -> assign_loop fuel acc r = Ok l -> Forall assigned_ok l /\ (length l <= maxAddressesPerCapsule)%nat.
Proof.
  induction fuel as [|fuel IH]; intros acc r Hf Hl; [lia|]. cbn [assign_loop].
  destruct (Remaining r <=? 0); [split; [done|by intros l ?? [= <-]]|]. destruct (Nat.leb_spec maxAddressesPerCapsule (length acc)); [done|].
  pose proof (parseAddress_no_panic r) as Hnp. destruct (parseAddress r) as [[[id p] r']| |] eqn:E; [|done..]. cbn [mbind outcome_bind].
  apply parseAddress_ok in E as (Hid & Hp & Hlack & Hlen). destruct (IH (acc ++ [{| RequestID := id; IPPrefix := p |}]) r') as [Hn Hok]; [lia|lia|]. split; [done|].
  intros l Ha Hc Hr. apply Hok; [apply Forall_app; split; [done|by apply Forall_singleton]|rewrite length_app; cbn [length]; lia|done].
Qed.

(** *** Requests *)

Definition request_ok (c : addressRequestCapsule) : Prop :=
  length (RequestIDs c) = length (Prefixes c) /\ Prefixes c <> [] /\ (length (Prefixes c) <= maxAddressesPerCapsule)%nat /\
  Forall (fun id => 0 < id < 2 ^ 62) (RequestIDs c) /\ Forall prefix_ok (Prefixes c).

Lemma request_loop_append ids : forall ps fuel c, length ids = length ps -> (length ps < fuel)%nat -> (length (Prefixes c) + length ps <= maxAddressesPerCapsule)%nat ->
  Forall (fun id => 0 < id < 2 ^ 62) ids -> Forall prefix_ok ps ->
  request_loop fuel c (reader (concat ((fun '(id, p) => append_address id p) <$> zip ids ps)) 0) = Ok {| RequestIDs := RequestIDs c ++ ids; Prefixes := Prefixes c ++ ps |}.
Proof.
  induction ids as [|id ids IH]; intros [|p ps] [|fuel] c Hl Hf Hm Hids Hps; cbn [length] in *; try lia.
  - cbn [zip_with fmap list_fmap concat request_loop]. rewrite !app_nil_r. by destruct c.
  - apply Forall_cons in Hids as [Hid Hids]. apply Forall_cons in Hps as [Hp Hps]. cbn [zip_with fmap list_fmap concat request_loop].
    pose proof (append_address_pos id p). unfold Remaining at 1. cbn [available lacking reader]. rewrite length_app, (proj2 (Z.leb_gt _ 0)) by lia.
    destruct (Nat.leb_spec maxAddressesPerCapsule (length (Prefixes c))); [lia|]. fold (reader (append_address id p ++ concat ((fun '(id, p) => append_address id p) <$> zip ids ps)) 0).
    rewrite parseAddress_append by (done || lia). cbn [mbind outcome_bind]. rewrite (proj2 (Z.eqb_neq id 0)) by lia.
    rewrite IH; [cbn [RequestIDs Prefixes]; by rewrite <-!app_assoc|lia|lia|cbn [Prefixes]; rewrite length_app; cbn [length]; lia|done..].
Qed.

Lemma request_loop_ok fuel : forall c r, (length (available r) < fuel)%nat -> 0 <= lacking r ->
  request_loop fuel c r <> Panic /\
  forall c', length (RequestIDs c) = length (Prefixes c) -> (length (Prefixes c) <= maxAddressesPerCapsule)%nat ->
    Forall (fun id => 0 < id < 2 ^ 62) (RequestIDs c) -> Forall prefix_ok (Prefixes c) -> Prefixes c <> [] \/ 0 < Remaining r -> request_loop fuel c r = Ok c' -> request_ok c'.
Proof.
  induction fuel as [|fuel IH]; intros c r Hf Hl; [lia|]. cbn [request_loop].
  destruct (Z.leb_spec (Remaining r) 0); [split; [done|]; intros c' ????? [= <-]; split_and!; try done; naive_solver lia|]. destruct (Nat.leb_spec maxAddressesPerCapsule (length (Prefixes c))); [done|].
  pose proof (parseAddress_no_panic r) as Hnp. destruct (parseAddress r) as [[[id p] r']| |] eqn:E; [|done..]. cbn [mbind outcome_bind].
  apply parseAddress_ok in E as (Hid & Hp & Hlack & Hlen). destruct (Z.eqb_spec id 0); [done|].
  destruct (IH {| RequestIDs := RequestIDs c ++ [id]; Prefixes := Prefixes c ++ [p] |} r') as [Hn Hok]; [lia|lia|]. split; [done|].
  intros c' Hlen' Hc Hi Hps _ Hr. apply Hok; cbn [RequestIDs Prefixes]; [rewrite !length_app; cbn [length]; lia|rewrite length_app; cbn [length]; lia| | | |done].
  - apply Forall_app. split; [done|apply Forall_singleton; lia].
  - apply Forall_app. split; [done|by apply Forall_singleton].
  - left. by destruct (Prefixes c).
Qed.

(** *** Routes *)

Definition route_ok (r : IPRoute) : Prop :=
  addr_ok (StartIP r) /\ addr_ok (EndIP r) /\ BitLen (StartIP r) = BitLen (EndIP r) /\ 0 <= IPProtocol r < 256.

Lemma parse_append_route r rest m : route_ok r -> parseIPAddressRange (reader (append_route r ++ rest) m) = Ok (r, reader rest m).
Proof.
  destruct r as [s e pr]. intros ((Hs1 & Hs2 & Hs3) & (He1 & He2 & He3) & Hl & Hp). cbn [StartIP EndIP IPProtocol] in *. unfold parseIPAddressRange, append_route. cbn [app]. rewrite read_byte_cons. cbn [mbind outcome_bind StartIP EndIP IPProtocol].
  assert (Hpr : byte_to_Z (byte_of_Z pr) = pr) by (rewrite byte_to_of_Z; by apply Z.mod_small).
  destruct s as [|v|v z], e as [|w|w z']; try done; cbn [Is4 AsSlice Zone value BitLen] in *.
  - rewrite decide_True by done. rewrite <-!app_assoc, read_split. cbn [mbind outcome_bind]. rewrite read_split. cbn [mbind outcome_bind app]. rewrite read_byte_cons. cbn [mbind outcome_bind].
    by rewrite !AddrFrom4_split, Hpr by done.
  - subst z z'. rewrite decide_False, decide_True by done. rewrite <-!app_assoc, read_split. cbn [mbind outcome_bind]. rewrite read_split. cbn [mbind outcome_bind app]. rewrite read_byte_cons. cbn [mbind outcome_bind].
    by rewrite !AddrFrom16_split, Hpr by done.
Qed.

Lemma parseIPAddressRange_ok r x r' : parseIPAddressRange r = Ok (x, r') -> route_ok x /\ lacking r' = lacking r /\ (length (available r') < length (available r))%nat.
Proof.
  unfold parseIPAddressRange. rewrite outcome_bind_ok. intros ([v r1] & Hv & Hb). unfold read_byte in Hv. destruct (available r) as [|v' l]; [done|]. injection Hv as <- <-.
  apply outcome_bind_ok in Hb as ([[s e] r2] & Hse & Hb). apply outcome_bind_ok in Hb as ([pr r3] & Hpr & [= <- <-]).
  assert (addr_ok s /\ addr_ok e /\ BitLen s = BitLen e /\ lacking r2 = lacking r /\ (length (available r2) <= length l)%nat) as (H1 & H2 & H3 & H4 & H5).
  { destruct (decide (v' = x04)); [|destruct (decide (v' = x06)); [|done]]; apply outcome_bind_ok in Hse as ([b rb] & Hb1 & Hse); apply outcome_bind_ok in Hse as ([b' rb'] & Hb2 & [= <- <- <-]);
      apply ReadFull_ok in Hb1 as (? & ? & ?); apply ReadFull_ok in Hb2 as (? & ? & ?); cbn [available lacking] in *; (split_and!; [by first [apply AddrFrom4_ok|apply AddrFrom16_ok]..|done|congruence|lia]). }
  unfold read_byte in Hpr. destruct (available r2) as [|x l2]; [done|]. injection Hpr as <- <-. pose proof (byte_to_Z_range x). cbn [available lacking length] in *.
  split_and!; [done..|lia].
Qed.

Lemma append_route_pos r : (0 < length (append_route r))%nat.
Proof. cbn. lia. Qed.

Lemma append_route_length r : route_ok r -> Z.of_nat (length (append_route r)) = route_len r.
Proof.
  intros (Hs & He & _ & _). unfold append_route, route_len. cbn [length]. rewrite !length_app. cbn [length].
  pose proof (length_AsSlice _ Hs). pose proof (length_AsSlice _ He). lia.
Qed.

Lemma route_loop_append l : forall fuel acc, (length l < fuel)%nat -> (length acc + length l <= maxRoutesPerCapsule)%nat -> Forall route_ok l ->
  route_loop fuel acc (reader (concat (append_route <$> l)) 0) = Ok (acc ++ l).
Proof.
  induction l as [|a l IH]; intros [|fuel] acc Hf Hl Hok; cbn [length] in *; try lia.
  - cbn [fmap list_fmap concat route_loop]. by rewrite app_nil_r.
  - apply Forall_cons in Hok as [Ha Hok]. cbn [fmap list_fmap concat route_loop].
    pose proof (append_route_pos a). unfold Remaining at 1. cbn [available lacking reader]. rewrite length_app, (proj2 (Z.leb_gt _ 0)) by lia.
    destruct (Nat.leb_spec maxRoutesPerCapsule (length acc)); [lia|]. fold (reader (append_route a ++ concat (append_route <$> l)) 0).
    rewrite parse_append_route by done. cbn [mbind outcome_bind]. rewrite IH; [by rewrite <-app_assoc|lia|rewrite length_app; cbn [length]; lia|done].
Qed.

Lemma route_loop_ok fuel : forall acc r, (length (available r) < fuel)%nat -> 0 <= lacking r ->
  route_loop fuel acc r <> Panic /\ forall l, Forall route_ok acc -> (length acc <= maxRoutesPerCapsule)%nat -> route_loop fuel acc r = Ok l -> Forall route_ok l /\ (length l <= maxRoutesPerCapsule)%nat.
Proof.
  induction fuel as [|fuel IH]; intros acc r Hf Hl; [lia|]. cbn [route_loop].
  destruct (Remaining r <=? 0); [split; [done|by intros l ?? [= <-]]|]. destruct (Nat.leb_spec maxRoutesPerCapsule (length acc)); [done|].
  pose proof (parseIPAddressRange_no_panic r) as Hnp. destruct (parseIPAddressRange r) as [[x r']| |] eqn:E; [|done..]. cbn [mbind outcome_bind].
  apply parseIPAddressRange_ok in E as (Hx & Hlack & Hlen). destruct (IH (acc ++ [x]) r') as [Hn Hok]; [lia|lia|]. split; [done|].
  intros l Ha Hc Hr. apply Hok; [apply Forall_app; split; [done|by apply Forall_singleton]|rewrite length_app; cbn [length]; lia|done].
Qed.

Lemma sum_lengths {A} (f : A -> bytes) (g : A -> Z) l : Forall (fun a => Z.of_nat (length (f a)) = g a) l -> sum (g <$> l) = Z.of_nat (length (concat (f <$> l))).
Proof. induction 1 as [|a l Ha _ IH]; [done|]. cbn [fmap list_fmap concat]. rewrite length_app. unfold sum in *. cbn [foldr]. rewrite IH, <-Ha. lia. Qed.

Lemma pieces_length {A} (f : A -> bytes) l : (forall a, (0 < length (f a))%nat) -> (length l <= length (concat (f <$> l)))%nat.
Proof. intros Hf. induction l as [|a l IH]; [done|]. cbn [fmap list_fmap concat length]. rewrite length_app. pose proof (Hf a). lia. Qed.

(** *** Whole capsules *)

(** The type, the length of the payload and the payload. *)
Definition capsule (type : Z) (payload : bytes) : bytes := varint_Append type ++ varint_Append (Z.of_nat (length payload)) ++ payload.

Lemma append_assign_capsule l : Forall assigned_ok l ->
  append_assign l [] = capsule capsuleTypeAddressAssign (concat ((fun a => append_address (RequestID a) (IPPrefix a)) <$> l)).
Proof.
  intros Hl. unfold append_assign, capsule. cbn [app]. do 3 f_equal. apply sum_lengths. eapply Forall_impl; [exact Hl|]. intros a [Hid Hp]. by apply append_address_length.
Qed.

Lemma append_request_capsule c : Forall (fun id => 0 < id < 2 ^ 62) (RequestIDs c) -> Forall prefix_ok (Prefixes c) ->
  append_request c [] = capsule capsuleTypeAddressRequest (concat ((fun '(id, p) => append_address id p) <$> zip (RequestIDs c) (Prefixes c))).
Proof.
  intros Hids Hps. unfold append_request, capsule. cbn [app]. do 3 f_equal. apply sum_lengths. apply Forall_forall. intros [id p] Hin.
  apply append_address_length; [pose proof (proj1 (Forall_forall _ _) Hids id (elem_of_zip_l _ _ _ _ Hin)); cbn in *; lia|exact (proj1 (Forall_forall _ _) Hps p (elem_of_zip_r _ _ _ _ Hin))].
Qed.

Lemma append_routes_capsule l : Forall route_ok l -> append_routes l [] = capsule capsuleTypeRouteAdvertisement (concat (append_route <$> l)).
Proof. intros Hl. unfold append_routes, capsule. cbn [app]. do 3 f_equal. apply sum_lengths. eapply Forall_impl; [exact Hl|]. intros a Ha. by apply append_route_length. Qed.

Lemma request_payload c : request_ok c -> parseAddressRequestCapsule (reader (concat ((fun '(id, p) => append_address id p) <$> zip (RequestIDs c) (Prefixes c))) 0) = Ok c.
Proof.
  intros (Hl & Hne & Hm & Hids & Hps). unfold parseAddressRequestCapsule, Remaining. cbn [available lacking reader].
  assert (Hlen : (length (Prefixes c) <= length (concat ((fun '(id, p) => append_address id p) <$> zip (RequestIDs c) (Prefixes c))))%nat).
  { rewrite <-Hl, <-(length_zip_with_l_eq pair (RequestIDs c) (Prefixes c)) by done. apply pieces_length. intros []. apply append_address_pos. }
  assert (0 < length (Prefixes c))%nat by (destruct (Prefixes c); [done|cbn; lia]). rewrite (proj2 (Z.eqb_neq _ 0)) by lia.
  rewrite request_loop_append; [by destruct c|done|lia|cbn [Prefixes length]; lia|done..].
Qed.

Lemma check_routes_no_panic l : check_routes l <> Panic.
Proof. induction l as [|r l IH]; [done|]. cbn [check_routes]. apply bind_no_panic; [unfold check_route; by repeat case_match|done]. Qed.
Lemma check_pairs_no_panic l : check_pairs l <> Panic.
Proof. induction l as [|a [|b l] IH]; [done..|]. cbn [check_pairs]. apply bind_no_panic; [unfold check_pair; by repeat case_match|done]. Qed.
Lemma pass_routes_no_panic fuel all b : forall j, pass_routes fuel all b j <> Panic.
Proof. induction fuel as [|fuel IH]; intros j; [done|]. cbn [pass_routes]. destruct (all !! j); [|done]. case_match; [apply IH|by case_match]. Qed.
Lemma no_overlap_no_panic all specific : forall prev j, no_overlap all prev specific j <> Panic.
Proof. induction specific as [|b l IH]; intros prev j; [done|]. cbn [no_overlap]. apply bind_no_panic; [apply pass_routes_no_panic|intros; apply IH]. Qed.

Lemma validate_no_panic l : validateRouteAdvertisement l <> Panic.
Proof.
  unfold validateRouteAdvertisement. repeat (apply bind_no_panic; [|intros []]); [apply check_routes_no_panic|apply check_pairs_no_panic|apply no_overlap_no_panic..].
Qed.
End Facts.

(** ** Properties *)

(** The three capsules of CONNECT-IP. What is written of assigned
    addresses, of requested ones and of accepted routes is the type, the
    length of the payload and the payload, and reading the payload gives the
    same addresses, requests or routes back. *)
Theorem connect_ip_capsules_roundtrip `{QuicVarintLaws} :
  (forall l, Forall assigned_ok l -> (length l <= maxAddressesPerCapsule)%nat ->
     exists payload, append_assign l [] = capsule capsuleTypeAddressAssign payload /\ parseAddressAssignCapsule (reader payload 0) = Ok l) /\
  (forall c, request_ok c ->
     exists payload, append_request c [] = capsule capsuleTypeAddressRequest payload /\ parseAddressRequestCapsule (reader payload 0) = Ok c) /\
  (forall l, Forall route_ok l -> (length l <= maxRoutesPerCapsule)%nat -> validateRouteAdvertisement l = Ok tt ->
     exists payload, append_routes l [] = capsule capsuleTypeRouteAdvertisement payload /\ parseRouteAdvertisementCapsule (reader payload 0) = Ok l).
Proof.
  split_and!.
  - intros l Hl Hm. eexists. split; [by apply append_assign_capsule|]. unfold parseAddressAssignCapsule. apply (assign_loop_append l); [|done..].
    cbn [available reader]. apply le_n_S, pieces_length. intros a. apply append_address_pos.
  - intros c Hc. eexists. split; [by apply append_request_capsule; apply Hc|]. by apply request_payload.
  - intros l Hl Hm Hv. eexists. split; [by apply append_routes_capsule|]. unfold parseRouteAdvertisementCapsule.
    rewrite (route_loop_append l); [cbn [mbind outcome_bind app]; by rewrite Hv|cbn [available reader]; apply le_n_S, pieces_length, append_route_pos|done..].
Qed.

(** Whatever bytes come as the payload of a capsule, reading it ends
    without a panic, and what is accepted is well formed: addresses with
    prefixes whose host bits are clear and numbers below [2^62], in requests
    at least one address and no number zero, routes with ends of one family
    that pass the check of their order, and never more of them than the
    limits. *)
Theorem connect_ip_capsules_checked `{QuicVarintLaws} r : 0 <= lacking r ->
  (parseAddressAssignCapsule r <> Panic /\ forall l, parseAddressAssignCapsule r = Ok l -> Forall assigned_ok l /\ (length l <= maxAddressesPerCapsule)%nat) /\
  (parseAddressRequestCapsule r <> Panic /\ forall c, parseAddressRequestCapsule r = Ok c -> request_ok c) /\
  (parseRouteAdvertisementCapsule r <> Panic /\ forall l, parseRouteAdvertisementCapsule r = Ok l ->
     Forall route_ok l /\ (length l <= maxRoutesPerCapsule)%nat /\ validateRouteAdvertisement l = Ok tt).
Proof.
  intros Hl. split; [|split].
  - destruct (assign_loop_ok (S (length (available r))) [] r) as [Hn Hok]; [lia|done|]. split; [done|]. intros l. by apply Hok; [apply Forall_nil|cbn [length]; lia].
  - unfold parseAddressRequestCapsule. destruct (Z.eqb_spec (Remaining r) 0); [done|].
    destruct (request_loop_ok (S (length (available r))) {| RequestIDs := []; Prefixes := [] |} r) as [Hn Hok]; [lia|done|]. split; [done|].
    intros c. apply Hok; cbn [RequestIDs Prefixes length]; [done|lia|by apply Forall_nil|by apply Forall_nil|right; unfold Remaining in *; lia].
  - unfold parseRouteAdvertisementCapsule. destruct (route_loop_ok (S (length (available r))) [] r) as [Hn Hok]; [lia|done|].
    destruct (route_loop _ [] r) as [l| |]; [|done..]. cbn [mbind outcome_bind]. pose proof (validate_no_panic l).
    destruct (validateRouteAdvertisement l) as [[]| |] eqn:E; [|done..]. cbn. split; [done|]. intros l' [= <-].
    destruct (Hok l) as [? ?]; [by apply Forall_nil|cbn [length]; lia|done|]. done.
Qed.

(** ** Witnesses, with the numbers of [proxy/http3/capsule.go] *)

Lemma connect_ip_capsules_roundtrip_witness :
  (forall l, Forall assigned_ok l -> (length l <= maxAddressesPerCapsule)%nat ->
     exists payload, append_assign l [] = capsule capsuleTypeAddressAssign payload /\ parseAddressAssignCapsule (reader payload 0) = Ok l) /\
  (forall c, request_ok c ->
     exists payload, append_request c [] = capsule capsuleTypeAddressRequest payload /\ parseAddressRequestCapsule (reader payload 0) = Ok c) /\
  (forall l, Forall route_ok l -> (length l <= maxRoutesPerCapsule)%nat -> validateRouteAdvertisement l = Ok tt ->
     exists payload, append_routes l [] = capsule capsuleTypeRouteAdvertisement payload /\ parseRouteAdvertisementCapsule (reader payload 0) = Ok l).
Proof. exact connect_ip_capsules_roundtrip. Defined.

Definition some_bytes : CapsuleReader := reader [x01; x04; x0a; x00; x00; x01; x20] 0.

Lemma connect_ip_capsules_checked_witness :
  (parseAddressAssignCapsule some_bytes <> Panic /\ forall l, parseAddressAssignCapsule some_bytes = Ok l -> Forall assigned_ok l /\ (length l <= maxAddressesPerCapsule)%nat) /\
  (parseAddressRequestCapsule some_bytes <> Panic /\ forall c, parseAddressRequestCapsule some_bytes = Ok c -> request_ok c) /\
  (parseRouteAdvertisementCapsule some_bytes <> Panic /\ forall l, parseRouteAdvertisementCapsule some_bytes = Ok l ->
     Forall route_ok l /\ (length l <= maxRoutesPerCapsule)%nat /\ validateRouteAdvertisement l = Ok tt).
Proof. apply (connect_ip_capsules_checked some_bytes). cbn. lia. Defined.

(** The bytes are an assigned address. *)
Lemma some_bytes_read : parseAddressAssignCapsule some_bytes = Ok [{| RequestID := 1; IPPrefix := {| p_Addr := Addr4 0x0a000001; p_Bits := 32 |} |}].
Proof. vm_compute. reflexivity. Qed.
