(* ===== verification/ConnectIpRoutes.v ===== *)
(** * Which routes a CONNECT-IP end accepts

    The check of a route advertisement, with its counts and its two indices,
    accepts exactly the lists that are in order and where no route for all
    protocols shares an address with one for a single protocol. *)

From S2P Require Import Prelude Net NetIp ConnectIp ConnectIpFacts.
From Stdlib Require Import Sorted.
From Stdlib Require Import Znumtheory.
Local Open Scope Z_scope.

(** ** The specification *)

(** Any addresses a caller may give: valid or not, with a zone or not. *)
Definition addr_typed (a : Addr) : Prop := 0 <= value a < 2 ^ BitLen a.
Definition route_typed (r : IPRoute) : Prop := addr_typed (StartIP r) /\ addr_typed (EndIP r) /\ 0 <= IPProtocol r < 256.

Definition good_route (r : IPRoute) : Prop := route_ok r /\ value (StartIP r) <= value (EndIP r).

(** By family, then by protocol, then by disjoint ranges. *)
Definition before (a b : IPRoute) : Prop :=
  BitLen (StartIP a) < BitLen (StartIP b) \/
  BitLen (StartIP a) = BitLen (StartIP b) /\
    (IPProtocol a < IPProtocol b \/ IPProtocol a = IPProtocol b /\ value (EndIP a) < value (StartIP b)).

Definition disjoint_routes (a b : IPRoute) : Prop := value (EndIP a) < value (StartIP b) \/ value (EndIP b) < value (StartIP a).

(** ** One route, two neighbours *)

Lemma check_route_ok r : route_typed r -> check_route r = Ok tt <-> good_route r.
Proof.
  intros (Hs & He & Hp). unfold check_route, good_route, route_ok, addr_ok. unfold addr_typed in *.
  destruct (IsValid (StartIP r)) eqn:Vs; cbn [negb orb]; [|split; [done|]; intros [((? & _) & _) _]; congruence].
  destruct (IsValid (EndIP r)) eqn:Ve; cbn [negb]; [|split; [done|]; intros [(_ & (? & _) & _) _]; congruence].
  assert (Hfam : Bool.eqb (Is4 (StartIP r)) (Is4 (EndIP r)) = true <-> BitLen (StartIP r) = BitLen (EndIP r)) by (destruct (StartIP r), (EndIP r); cbn; split; done).
  destruct (Bool.eqb _ _) eqn:F; cbn [negb]; [|split; [done|]; intros [(_ & _ & E & _) _]; apply Hfam in E; congruence].
  destruct (decide (Zone (StartIP r) = [])) as [Zs|Zs]; [rewrite (bool_decide_true (Zone (StartIP r) = []) Zs)|rewrite (bool_decide_false (Zone (StartIP r) = []) Zs); cbn; split; [done|]; intros [((_ & ? & _) & _) _]; congruence].
  destruct (decide (Zone (EndIP r) = [])) as [Ze|Ze]; [rewrite (bool_decide_true (Zone (EndIP r) = []) Ze)|rewrite (bool_decide_false (Zone (EndIP r) = []) Ze); cbn; split; [done|]; intros [(_ & (_ & ? & _) & _) _]; congruence].
  cbn [negb orb]. rewrite addr_le_value by (done || by apply Hfam). destruct (Z.leb_spec (value (StartIP r)) (value (EndIP r))); cbn [negb].
  - split; [intros _; split; [|done]; split_and!; try done; [lia..|by apply Hfam|lia|lia]|done].
  - split; [done|]. intros [_ ?]. lia.
Qed.

Lemma check_routes_ok l : Forall route_typed l -> check_routes l = Ok tt <-> Forall good_route l.
Proof.
  induction 1 as [|r l Hr _ IH]; [split; [by constructor|done]|]. cbn [check_routes]. rewrite outcome_bind_ok, Forall_cons, <-IH, <-check_route_ok by done.
  split; [by intros ([] & ? & ?)|intros [? ?]; by exists tt].
Qed.

Lemma check_pair_ok a b : good_route a -> good_route b -> check_pair a b = Ok tt <-> before a b.
Proof.
  intros [((_ & Hsa & _) & (_ & Hea & _) & Hla & _) _] [((_ & Hsb & _) & _ & Hlb & _) _]. unfold check_pair, before.
  destruct (Z.gtb_spec (BitLen (StartIP a)) (BitLen (StartIP b))); [split; [done|lia]|].
  destruct (Z.eqb_spec (BitLen (StartIP a)) (BitLen (StartIP b))) as [E|]; cbn [negb]; [|split; [lia|done]].
  destruct (Z.gtb_spec (IPProtocol a) (IPProtocol b)); [split; [done|lia]|].
  destruct (Z.eqb_spec (IPProtocol a) (IPProtocol b)); cbn [andb]; [|split; [lia|done]].
  rewrite addr_lt_value by congruence. destruct (Z.ltb_spec (value (EndIP a)) (value (StartIP b))); cbn [negb]; split; done || lia.
Qed.

Lemma before_trans a b c : good_route b -> before a b -> before b c -> before a c.
Proof. intros [_ Hb] Hab Hbc. unfold before in *. lia. Qed.

(** Neighbours in order are enough. *)
Lemma check_pairs_ok l : Forall good_route l -> check_pairs l = Ok tt <-> StronglySorted before l.
Proof.
  intros Hl. induction l as [|a l IH]; [split; [by constructor|done]|]. apply Forall_cons in Hl as [Ha Hl]. specialize (IH Hl).
  destruct l as [|b l]; [split; [intros _; by repeat constructor|done]|]. change (check_pairs (a :: b :: l)) with (_ ← check_pair a b; check_pairs (b :: l)).
  apply Forall_cons in Hl as [Hb Hl]. rewrite outcome_bind_ok. split.
  - intros ([] & H1%check_pair_ok & H2%IH); [|done..]. constructor; [done|]. inversion H2 as [|? ? Hs Hf]; subst. constructor; [done|].
    eapply List.Forall_impl; [|exact Hf]. intros c. by apply before_trans.
  - intros H. inversion H as [|? ? Hs Hf]; subst. exists tt. split; [|by apply IH]. apply check_pair_ok; [done..|]. by inversion Hf.
Qed.

(** ** Cutting a sorted list *)

Lemma sorted_cut {A} (R : A -> A -> Prop) (P : A -> Prop) `{forall x, Decision (P x)} (Q : A -> Prop) l :
  (forall a b, Q a -> Q b -> R a b -> P b -> P a) -> Forall Q l -> StronglySorted R l ->
  take (length (filter P l)) l = filter P l /\ drop (length (filter P l)) l = filter (fun x => ~ P x) l.
Proof.
  intros HP HQ. induction 1 as [|a l Hs IH Hf]; [done|]. apply Forall_cons in HQ as [Ha HQ]. specialize (IH HQ). rewrite !filter_cons. destruct (decide (P a)) as [Hp|Hp].
  - rewrite decide_False by tauto. cbn. destruct IH as [E1 E2]. by rewrite E1, E2.
  - rewrite decide_True by done. assert (filter P l = []) as ->.
    { destruct (filter P l) as [|b k] eqn:E; [done|]. assert (b ∈ filter P l) as [Hb Hin]%list_elem_of_filter by (rewrite E; set_solver).
      destruct Hp. eapply HP; [done| |eapply (proj1 (List.Forall_forall _ _) Hf); by apply list_elem_of_In|done]. by eapply (proj1 (Forall_forall _ _) HQ). }
    cbn. split; [done|]. f_equal. clear -Hp Hf HP HQ Ha. assert (Forall (fun x => ~ P x) l) as Hn.
    { apply Forall_forall. intros b Hin Hb. destruct Hp. eapply HP; [done| |eapply (proj1 (List.Forall_forall _ _) Hf); by apply list_elem_of_In|done]. by eapply (proj1 (Forall_forall _ _) HQ). }
    induction Hn as [|b k Hb Hk IH]; [done|]. rewrite filter_cons, decide_True by done. f_equal. apply IH; first [by apply List.Forall_inv_tail in Hf|by apply List.Forall_inv_tail in HQ].
Qed.

Lemma sorted_filtered {A} (R : A -> A -> Prop) (P : A -> Prop) `{forall x, Decision (P x)} l : StronglySorted R l -> StronglySorted R (filter P l).
Proof.
  induction 1 as [|a l Hs IH Hf]; [constructor|]. rewrite filter_cons. case_decide; [|done]. constructor; [done|].
  apply List.Forall_forall. intros b Hb%list_elem_of_In%list_elem_of_filter. apply (proj1 (List.Forall_forall _ _) Hf). apply list_elem_of_In, Hb.
Qed.

(** ** The two indices *)

Section Overlap.
Context (n : Z) (all : list IPRoute).
Definition member (r : IPRoute) : Prop := good_route r /\ BitLen (StartIP r) = n.
Context (Hall : Forall member all) (Hzero : forall a b, a ∈ all -> b ∈ all -> IPProtocol a = IPProtocol b) (Hsorted : StronglySorted before all).

Lemma all_lookup i a : all !! i = Some a -> member a.
Proof. intros H. by eapply (proj1 (Forall_lookup _ _) Hall). Qed.

Lemma all_increasing i j a b : (i < j)%nat -> all !! i = Some a -> all !! j = Some b -> value (EndIP a) < value (StartIP b).
Proof.
  intros Hij Hi Hj. pose proof (all_lookup _ _ Hi) as [_ Ea]. pose proof (all_lookup _ _ Hj) as [_ Eb].
  pose proof (Hzero a b ltac:(by eapply list_elem_of_lookup_2) ltac:(by eapply list_elem_of_lookup_2)) as Ep.
  assert (before a b) as Hb; [|unfold before in Hb; lia]. clear -Hij Hi Hj Hsorted. revert i j Hij Hi Hj.
  induction Hsorted as [|x l Hs IH Hf]; intros i j Hij Hi Hj; [done|]. destruct j as [|j]; [lia|]. cbn in Hj. destruct i as [|i]; cbn in Hi.
  - injection Hi as ->. apply (proj1 (List.Forall_forall _ _) Hf). apply list_elem_of_In. by eapply list_elem_of_lookup_2.
  - eapply (IH Hs i j); [lia|done..].
Qed.

Lemma member_lt a b : member a -> member b -> addr_lt (EndIP a) (StartIP b) = (value (EndIP a) <? value (StartIP b)).
Proof. intros [[((_ & _ & _) & (_ & ? & _) & ? & _) _] ?] [[((_ & ? & _) & _ & _ & _) _] ?]. apply addr_lt_value; congruence. Qed.

Lemma pass_routes_spec b : member b -> forall fuel j, (length all - j < fuel)%nat ->
  match pass_routes fuel all b j with
  | Ok j' => (j <= j')%nat /\ (forall i a, (j <= i < j')%nat -> all !! i = Some a -> value (EndIP a) < value (StartIP b)) /\
             (forall i a, (j' <= i)%nat -> all !! i = Some a -> value (EndIP b) < value (StartIP a))
  | Err _ => exists a, a ∈ all /\ ~ disjoint_routes a b
  | Panic => False
  end.
Proof.
  intros Hb. induction fuel as [|fuel IH]; intros j Hf; [lia|]. cbn [pass_routes]. destruct (all !! j) as [a|] eqn:Ea.
  - pose proof (all_lookup _ _ Ea) as Ha. pose proof (lookup_lt_Some _ _ _ Ea). rewrite (member_lt a b Ha Hb), (member_lt b a Hb Ha).
    destruct (Z.ltb_spec (value (EndIP a)) (value (StartIP b))).
    + specialize (IH (S j) ltac:(lia)). destruct (pass_routes fuel all b (S j)) as [j'| |]; [|done..]. destruct IH as (H1 & H2 & H3). split_and!; [lia| |done].
      intros i x Hi Hx. destruct (decide (i = j)) as [->|]; [congruence|]. apply (H2 i x); [lia|done].
    + destruct (Z.ltb_spec (value (EndIP b)) (value (StartIP a))).
      * split_and!; [lia|intros; lia|]. intros i x Hi Hx. destruct (decide (i = j)) as [->|]; [congruence|].
        pose proof (all_increasing j i a x ltac:(lia) Ea Hx). destruct Ha as [[_ ?] _]. lia.
      * exists a. split; [by eapply list_elem_of_lookup_2|]. unfold disjoint_routes. lia.
  - split_and!; [lia|intros; lia|]. intros i x Hi Hx. apply lookup_lt_Some in Hx. apply lookup_ge_None in Ea. lia.
Qed.

Lemma no_overlap_spec specific : forall prev j, Forall member specific -> StronglySorted before (option_list prev ++ specific) ->
  match prev with None => j = 0%nat | Some p => member p /\ forall i a, (i < j)%nat -> all !! i = Some a -> value (EndIP a) < value (StartIP p) end ->
  no_overlap all prev specific j = Ok tt <-> forall a b, a ∈ all -> b ∈ specific -> disjoint_routes a b.
Proof.
  induction specific as [|b specific IH]; intros prev j Hm Hs Hj; cbn [no_overlap]; [split; [by intros _ ?? _ ?%not_elem_of_nil|done]|].
  apply Forall_cons in Hm as [Hb Hm].
  set (j0 := match prev with Some p => if negb (IPProtocol p =? IPProtocol b) then 0%nat else j | None => j end).
  assert (Hj0 : forall i a, (i < j0)%nat -> all !! i = Some a -> value (EndIP a) < value (StartIP b)).
  { intros i a Hi Ha. subst j0. destruct prev as [p|]; [|lia]. destruct Hj as [[Hp Hpn] Hj]. destruct (Z.eqb_spec (IPProtocol p) (IPProtocol b)) as [E|]; cbn in Hi; [|lia].
    specialize (Hj i a Hi Ha). cbn in Hs. apply StronglySorted_inv in Hs as [_ Hs]. apply List.Forall_inv in Hs. destruct Hp as [_ Hp], Hb as [_ Hbn]. unfold before in Hs. lia. }
  pose proof (pass_routes_spec b Hb (S (length all)) j0 ltac:(lia)) as Hpass. destruct (pass_routes _ all b j0) as [j'|e|]; cbn [mbind outcome_bind]; [|split; [done|]|done].
  - destruct Hpass as (Hle & Hlow & Hhigh). assert (Hlow' : forall i a, (i < j')%nat -> all !! i = Some a -> value (EndIP a) < value (StartIP b)).
    { intros i a Hi Ha. destruct (decide (i < j0)%nat); [by eapply Hj0|apply (Hlow i); [lia|done]]. }
    rewrite IH; [|done| |by split].
    + split; [intros Hd a x Ha [->|Hx]%elem_of_cons; [|by apply Hd]|intros Hd a x Ha Hx; apply Hd; [done|by right]].
      apply list_elem_of_lookup_1 in Ha as [i Hi]. unfold disjoint_routes. destruct (decide (i < j')%nat); [left; by eapply Hlow'|right; apply (Hhigh i); [lia|done]].
    + cbn. destruct prev as [p|]; [by apply StronglySorted_inv in Hs as [Hs _]|done].
  - destruct Hpass as (a & Ha & Hn). intros Hd. destruct Hn. apply Hd; [done|by left].
Qed.
End Overlap.

(** The routes of one family, in order. *)
Lemma family_ok n l k : Forall (member n) l -> StronglySorted before l -> k = length (filter (fun r => (IPProtocol r =? 0) = true) l) ->
  validateNonOverlappingRoutes (take k l) (drop k l) = Ok tt <->
  forall a b, a ∈ l -> b ∈ l -> IPProtocol a = 0 -> IPProtocol b <> 0 -> disjoint_routes a b.
Proof.
  intros Hl Hs ->. destruct (sorted_cut before (fun r => (IPProtocol r =? 0) = true) (member n) l) as [E1 E2]; [|done|done|].
  { intros a b [[(_ & _ & _ & ?) _] ?] [_ ?] Hab E%Z.eqb_eq. apply Z.eqb_eq. unfold before in Hab. lia. }
  rewrite E1, E2. unfold validateNonOverlappingRoutes.
  assert (Hf : forall (P : IPRoute -> Prop) `{forall x, Decision (P x)}, Forall (member n) (filter P l)).
  { intros P ?. apply Forall_forall. intros a [_ Ha]%list_elem_of_filter. by apply (proj1 (Forall_forall _ _) Hl). }
  rewrite (no_overlap_spec n); [| | | | | |done].
  - split.
    + intros Hd a b Ha Hb Ea Eb. apply Hd; apply list_elem_of_filter; (split; [|done]); [by apply Z.eqb_eq|by intros ?%Z.eqb_eq].
    + intros Hd a b [Ea%Z.eqb_eq Ha]%list_elem_of_filter [Eb Hb]%list_elem_of_filter. apply Hd; [done..|]. by intros ?%Z.eqb_eq.
  - apply Hf.
  - by intros a b [->%Z.eqb_eq _]%list_elem_of_filter [->%Z.eqb_eq _]%list_elem_of_filter.
  - by apply sorted_filtered.
  - apply Hf.
  - cbn. by apply sorted_filtered.
Qed.

Lemma Is4_len r : good_route r -> Is4 (StartIP r) = true <-> BitLen (StartIP r) = 32.
Proof. intros [((? & _) & _) _]. by destruct (StartIP r). Qed.

Lemma not4_len r : good_route r -> Is4 (StartIP r) <> true <-> BitLen (StartIP r) = 128.
Proof. intros [((? & _) & _) _]. by destruct (StartIP r). Qed.

(** C18: the routes a CONNECT-IP end accepts and advertises. Whatever addresses
    and protocols a list of routes has, it is accepted if and only if every
    route has two valid addresses of one family, without zones, of which the
    first is not the greater; the routes are in order of family, protocol and
    range, so that those of one protocol share no address; and no route for
    all protocols shares an address with a route of its family for one
    protocol. *)
Theorem routes_accepted_exactly l : Forall route_typed l ->
  validateRouteAdvertisement l = Ok tt <->
  Forall good_route l /\ StronglySorted before l /\
  forall a b, a ∈ l -> b ∈ l -> BitLen (StartIP a) = BitLen (StartIP b) -> IPProtocol a = 0 -> IPProtocol b <> 0 -> disjoint_routes a b.
Proof.
  intros Ht. unfold validateRouteAdvertisement. rewrite <-(check_routes_ok l Ht).
  destruct (check_routes l) as [[]|e|] eqn:Hg'; cbn [mbind outcome_bind]; [|by split; [|intros [? _]]..].
  pose proof Hg' as Hg. apply (check_routes_ok l Ht) in Hg. rewrite <-(check_pairs_ok l Hg).
  destruct (check_pairs l) as [[]|e|] eqn:Hp'; cbn [mbind outcome_bind]; [|by split; [|intros (_ & ? & _)]..].
  pose proof Hp' as Hs. apply (check_pairs_ok l Hg) in Hs.
  destruct (sorted_cut before (fun r => Is4 (StartIP r) = true) good_route l) as [E4 E6]; [|done|done|].
  { intros a b Ha Hb Hab. rewrite !Is4_len by done. intros E. pose proof Ha as [((Hv & _) & _) _]. unfold before in Hab. destruct (StartIP a); cbn in *; done || lia. }
  rewrite E4, E6, outcome_bind_ok.
  assert (Hmem : forall a, a ∈ l -> good_route a) by (intros a; apply (proj1 (Forall_forall _ _) Hg)).
  pose proof (family_ok 32 (filter (fun r => Is4 (StartIP r) = true) l)) as H4. pose proof (family_ok 128 (filter (fun r => ~ Is4 (StartIP r) = true) l)) as H6.
  rewrite !list_filter_filter in H4, H6.
  assert (Hc : (exists a, validateNonOverlappingRoutes (take (length (filter (fun r => Is4 (StartIP r) && (IPProtocol r =? 0) = true) l)) (filter (fun r => Is4 (StartIP r) = true) l))
      (drop (length (filter (fun r => Is4 (StartIP r) && (IPProtocol r =? 0) = true) l)) (filter (fun r => Is4 (StartIP r) = true) l)) = Ok a /\
    validateNonOverlappingRoutes (take (length (filter (fun r => negb (Is4 (StartIP r)) && (IPProtocol r =? 0) = true) l)) (filter (fun r => ~ Is4 (StartIP r) = true) l))
      (drop (length (filter (fun r => negb (Is4 (StartIP r)) && (IPProtocol r =? 0) = true) l)) (filter (fun r => ~ Is4 (StartIP r) = true) l)) = Ok tt) <->
    forall a b, a ∈ l -> b ∈ l -> BitLen (StartIP a) = BitLen (StartIP b) -> IPProtocol a = 0 -> IPProtocol b <> 0 -> disjoint_routes a b); [|naive_solver].
  transitivity (validateNonOverlappingRoutes (take (length (filter (fun r => Is4 (StartIP r) && (IPProtocol r =? 0) = true) l)) (filter (fun r => Is4 (StartIP r) = true) l))
      (drop (length (filter (fun r => Is4 (StartIP r) && (IPProtocol r =? 0) = true) l)) (filter (fun r => Is4 (StartIP r) = true) l)) = Ok tt /\
    validateNonOverlappingRoutes (take (length (filter (fun r => negb (Is4 (StartIP r)) && (IPProtocol r =? 0) = true) l)) (filter (fun r => ~ Is4 (StartIP r) = true) l))
      (drop (length (filter (fun r => negb (Is4 (StartIP r)) && (IPProtocol r =? 0) = true) l)) (filter (fun r => ~ Is4 (StartIP r) = true) l)) = Ok tt).
  { split; [by intros ([] & ? & ?)|intros [? ?]; by exists tt]. }
  rewrite H4, H6.
  - split.
    + intros [F4 F6] a b Ha Hb El Ea Eb. destruct (decide (Is4 (StartIP a) = true)) as [Hi|Hi].
      * apply F4; [by apply list_elem_of_filter| |done|done]. apply list_elem_of_filter. split; [|done]. apply (Is4_len b (Hmem b Hb)). rewrite <-El. by apply Is4_len, Hi; apply Hmem.
      * apply F6; [by apply list_elem_of_filter| |done|done]. apply list_elem_of_filter. split; [|done]. apply (not4_len b (Hmem b Hb)). rewrite <-El. by apply not4_len, Hi; apply Hmem.
    + intros F. split; intros a b [Ia Ha]%list_elem_of_filter [Ib Hb]%list_elem_of_filter; apply F; try done.
      * by rewrite (proj1 (Is4_len a (Hmem a Ha)) Ia), (proj1 (Is4_len b (Hmem b Hb)) Ib).
      * by rewrite (proj1 (not4_len a (Hmem a Ha)) Ia), (proj1 (not4_len b (Hmem b Hb)) Ib).
  - apply Forall_forall. intros a [Ia Ha]%list_elem_of_filter. split; [by apply Hmem|]. by apply not4_len; [apply Hmem|].
  - by apply sorted_filtered.
  - f_equal. apply list_filter_iff. intros r. rewrite andb_true_iff, negb_true_iff, not_true_iff_false. tauto.
  - apply Forall_forall. intros a [Ia Ha]%list_elem_of_filter. split; [by apply Hmem|]. by apply Is4_len; [apply Hmem|].
  - by apply sorted_filtered.
  - f_equal. apply list_filter_iff. intros r. rewrite andb_true_iff. tauto.
Qed.

(** Three routes: all protocols, one protocol, and one of the other family. *)
Definition v4_route (s e : bytes) (p : Z) : IPRoute := {| StartIP := AddrFrom4 s; EndIP := AddrFrom4 e; IPProtocol := p |}.
Definition sample_routes : list IPRoute :=
  [v4_route [x0a; x00; x00; x00] [x0a; x00; x00; xff] 0; v4_route [x0a; x00; x01; x00] [x0a; x00; x01; xff] 6;
   {| StartIP := Addr6 0 []; EndIP := Addr6 (2 ^ 128 - 1) []; IPProtocol := 17 |}].

Lemma sample_routes_typed : Forall route_typed sample_routes.
Proof. repeat (apply Forall_cons; split; [repeat split; vm_compute; (reflexivity || discriminate)|]). by apply Forall_nil. Qed.

Lemma sample_routes_accepted : validateRouteAdvertisement sample_routes = Ok tt.
Proof. vm_compute. reflexivity. Qed.

Lemma routes_accepted_exactly_witness :
  validateRouteAdvertisement sample_routes = Ok tt <->
  Forall good_route sample_routes /\ StronglySorted before sample_routes /\
  forall a b, a ∈ sample_routes -> b ∈ sample_routes -> BitLen (StartIP a) = BitLen (StartIP b) -> IPProtocol a = 0 -> IPProtocol b <> 0 -> disjoint_routes a b.
Proof. exact (routes_accepted_exactly sample_routes sample_routes_typed). Defined.

(** * Ranges of addresses are cut into prefixes exactly *)

(** ** The host's bits *)

Lemma be_combine_last b x : be_combine (b ++ [x]) = be_combine b * 256 + byte_to_Z x.
Proof. rewrite !be_combine_sum. unfold be_sum. by rewrite foldl_app. Qed.

Lemma byte_host_bits b k : 1 <= k <= 8 -> byte_to_Z (byte_of_Z (Z.lor (byte_to_Z b) (Z.shiftl 1 k - 1))) = byte_to_Z b / 2 ^ k * 2 ^ k + 2 ^ k - 1.
Proof.
  intros Hk. assert (k = 1 \/ k = 2 \/ k = 3 \/ k = 4 \/ k = 5 \/ k = 6 \/ k = 7 \/ k = 8) as E by lia.
  destruct E as [->|[->|[->|[->|[->|[->|[->| ->]]]]]]]; by destruct b.
Qed.

Lemma pow_split h k : 0 <= k <= h -> 2 ^ h = 2 ^ (h - k) * 2 ^ k.
Proof. intros. rewrite <-Z.pow_add_r by lia. f_equal. lia. Qed.

Lemma div_pow_byte V b h : 8 <= h -> 0 <= b < 256 -> (V * 256 + b) / 2 ^ h = V / 2 ^ (h - 8).
Proof.
  intros Hh Hb. rewrite (pow_split h 8), (Z.mul_comm (2 ^ (h - 8))), <-Z.div_div by (try apply Z.pow_pos_nonneg; lia).
  change (2 ^ 8) with 256. by rewrite Z.div_add_l, (Z.div_small b), Z.add_0_r by lia.
Qed.

Lemma div_small_byte V b h : 0 <= h <= 8 -> (V * 256 + b) / 2 ^ h * 2 ^ h = V * 256 + b / 2 ^ h * 2 ^ h.
Proof.
  intros Hh. pose proof (Z.pow_pos_nonneg 2 h ltac:(lia) ltac:(lia)). change 256 with (2 ^ 8). rewrite (pow_split 8 h) by lia.
  rewrite Z.mul_assoc, Z.div_add_l by lia. lia.
Qed.

Lemma set_host_bits_0 l : set_host_bits 0 l = l.
Proof. by destruct l. Qed.

Lemma length_set_host_bits l : forall h, length (set_host_bits h l) = length l.
Proof. induction l as [|b l IH]; intros h; [done|]. cbn [set_host_bits]. case_match; [done|]. cbn [length]. by rewrite IH. Qed.

Lemma set_host_bits_app l l' : forall h, h <= 8 * Z.of_nat (length l) -> set_host_bits h (l ++ l') = set_host_bits h l ++ l'.
Proof.
  induction l as [|b l IH]; intros h Hh; cbn [length app set_host_bits] in *; [destruct l'; [done|]; cbn; by rewrite (proj2 (Z.leb_le h 0)) by lia|].
  case_match; [done|]. cbn. f_equal. apply IH. lia.
Qed.

Lemma set_host_bits_value l : forall h, 0 <= h <= 8 * Z.of_nat (length l) ->
  be_combine (rev (set_host_bits h l)) = be_combine (rev l) / 2 ^ h * 2 ^ h + 2 ^ h - 1.
Proof.
  induction l as [|b l IH]; intros h Hh.
  { cbn in Hh. assert (h = 0) as -> by lia. done. }
  cbn [set_host_bits length] in *. destruct (Z.leb_spec h 0); [assert (h = 0) as -> by lia; rewrite Z.pow_0_r, Z.div_1_r; lia|].
  cbn [rev]. rewrite !be_combine_last, byte_host_bits by lia. pose proof (byte_to_Z_range b). destruct (Z.le_gt_cases h 8).
  - rewrite Z.min_r by lia. rewrite Z.sub_diag, set_host_bits_0, div_small_byte by lia. lia.
  - rewrite Z.min_l by lia. rewrite IH, div_pow_byte by lia. rewrite (Z.div_small (byte_to_Z b)) by lia. rewrite (pow_split h 8) by lia. change (2 ^ 8) with 256. lia.
Qed.

Lemma host_bits_clear_app l l' : forall h, h <= 8 * Z.of_nat (length l) -> host_bits_clear h (l ++ l') = host_bits_clear h l.
Proof.
  induction l as [|b l IH]; intros h Hh; cbn [length app host_bits_clear] in *; [destruct l'; [done|]; cbn; by rewrite (proj2 (Z.leb_le h 0)) by lia|].
  case_match; [done|]. case_match; [done|]. apply IH. lia.
Qed.

Lemma host_bits_clear_value l : forall h, 0 <= h <= 8 * Z.of_nat (length l) -> host_bits_clear h l = true <-> be_combine (rev l) mod 2 ^ h = 0.
Proof.
  induction l as [|b l IH]; intros h Hh.
  { cbn in Hh. assert (h = 0) as -> by lia. done. }
  cbn [host_bits_clear length rev] in *. destruct (Z.leb_spec h 0); [assert (h = 0) as -> by lia; by rewrite Z.pow_0_r, Z.mod_1_r|].
  rewrite be_combine_last, Z.shiftl_1_l. assert (2 ^ Z.min 8 h - 1 = Z.ones (Z.min 8 h)) as -> by (rewrite Z.ones_equiv; lia). rewrite Z.land_ones by lia.
  pose proof (byte_to_Z_range b). set (V := be_combine (rev l)) in *. destruct (Z.le_gt_cases h 8).
  - rewrite Z.min_r by lia. rewrite Z.sub_diag. assert (host_bits_clear 0 l = true) as -> by (by destruct l).
    assert ((V * 256 + byte_to_Z b) mod 2 ^ h = byte_to_Z b mod 2 ^ h) as ->.
    { pose proof (Z.pow_pos_nonneg 2 h ltac:(lia) ltac:(lia)). change 256 with (2 ^ 8). rewrite (pow_split 8 h), Z.mul_assoc, Z.add_comm, Z.mod_add by lia. done. }
    destruct (Z.eqb_spec (byte_to_Z b mod 2 ^ h) 0); cbn; split; intros; done || lia.
  - rewrite Z.min_l by lia. change (2 ^ 8) with 256. rewrite (Z.mod_small (byte_to_Z b)) by lia.
    pose proof (Z.pow_pos_nonneg 2 (h - 8) ltac:(lia) ltac:(lia)). rewrite (pow_split h 8), (Z.mul_comm (2 ^ (h - 8))) by lia. change (2 ^ 8) with 256.
    rewrite Z.rem_mul_r by lia. rewrite (Z.add_comm (V * 256)), Z.mod_add, Z.mod_small, Z.div_add, (Z.div_small (byte_to_Z b)), Z.add_0_l by lia.
    pose proof (Z.mod_pos_bound V (2 ^ (h - 8)) ltac:(lia)). destruct (Z.eqb_spec (byte_to_Z b) 0) as [E|]; cbn; [|split; [done|lia]]. rewrite IH by lia. fold V. lia.
Qed.

(** ** The last address of a prefix, and alignment *)

Lemma div_add_size v h : 0 <= v -> 0 <= h -> v <= v / 2 ^ h * 2 ^ h + 2 ^ h - 1.
Proof. intros. pose proof (Z.pow_pos_nonneg 2 h ltac:(lia) ltac:(lia)). pose proof (Z.div_mod v (2 ^ h)). pose proof (Z.mod_pos_bound v (2 ^ h)). lia. Qed.

Lemma last_in_range v h n : 0 <= h <= n -> 0 <= v < 2 ^ n -> 0 <= v / 2 ^ h * 2 ^ h + 2 ^ h - 1 < 2 ^ n.
Proof.
  intros Hh Hv. pose proof (Z.pow_pos_nonneg 2 h ltac:(lia) ltac:(lia)). pose proof (Z.pow_pos_nonneg 2 (n - h) ltac:(lia) ltac:(lia)).
  pose proof (Z.div_pos v (2 ^ h)). assert (v / 2 ^ h < 2 ^ (n - h)) by (apply Z.div_lt_upper_bound; [lia|]; rewrite Z.mul_comm, <-pow_split; lia).
  rewrite (pow_split n h) by lia. nia.
Qed.

Lemma lastIP_value a bits : addr_ok a -> 0 <= bits <= BitLen a ->
  lastIPInPrefix {| p_Addr := a; p_Bits := bits |} = with_value a (value a / 2 ^ (BitLen a - bits) * 2 ^ (BitLen a - bits) + 2 ^ (BitLen a - bits) - 1).
Proof.
  intros (Hv & Hz & Hr) Hb. unfold lastIPInPrefix. cbn [p_Addr p_Bits]. destruct a as [|v|v z]; [done| |]; cbn [As16 BitLen Is4 value with_value Zone] in *.
  - rewrite rev_app_distr, set_host_bits_app by (rewrite length_rev, length_be_split; lia). rewrite rev_app_distr, rev_involutive.
    change 12%nat with (length v4_in_v6_prefix) at 1. rewrite drop_app_length. unfold AddrFrom4. f_equal.
    rewrite set_host_bits_value by (rewrite length_rev, length_be_split; lia). rewrite rev_involutive, be_combine_split, Z.mod_small by lia. done.
  - subst z. unfold AddrFrom16. f_equal. rewrite set_host_bits_value by (rewrite length_rev, length_be_split; lia). rewrite rev_involutive, be_combine_split, Z.mod_small by lia. done.
Qed.

Lemma with_value_ok a v : addr_ok a -> 0 <= v < 2 ^ BitLen a -> addr_ok (with_value a v) /\ BitLen (with_value a v) = BitLen a /\ value (with_value a v) = v.
Proof. intros (Hv & Hz & _) Hr. destruct a; [done|..]; cbn in *; by split_and!. Qed.

Lemma isAligned_value a bits : addr_ok a -> 0 <= bits <= BitLen a -> isAligned a bits = true <-> (2 ^ (BitLen a - bits) | value a).
Proof.
  intros (Hv & Hz & Hr) Hb. unfold isAligned. pose proof (Z.pow_pos_nonneg 2 (BitLen a - bits) ltac:(lia) ltac:(lia)). rewrite <-Z.mod_divide by lia.
  destruct a as [|v|v z]; [done| |]; cbn [As16 BitLen value] in *.
  - rewrite rev_app_distr, host_bits_clear_app, host_bits_clear_value by (rewrite length_rev, length_be_split; lia). by rewrite rev_involutive, be_combine_split, (Z.mod_small v) by lia.
  - rewrite host_bits_clear_value by (rewrite length_rev, length_be_split; lia). by rewrite rev_involutive, be_combine_split, (Z.mod_small v) by lia.
Qed.

(** ** The largest prefix *)

Lemma PrefixFrom_ok a n : addr_ok a -> 0 <= n <= BitLen a -> PrefixFrom a n = {| p_Addr := a; p_Bits := n |}.
Proof.
  intros (Hv & Hz & _) Hn. unfold PrefixFrom. rewrite Hv, (proj2 (Z.leb_le 0 n)), (proj2 (Z.leb_le n (BitLen a))) by lia. f_equal. destruct a; cbn in *; congruence.
Qed.

(** A block of [2^h] addresses fits at [v], up to [e]. *)
Definition fits (v e h : Z) : Prop := (2 ^ h | v) /\ v + 2 ^ h - 1 <= e.

Lemma grown_prefix_ok s e : addr_ok s -> addr_ok e -> BitLen s = BitLen e -> forall n, Z.of_nat n <= BitLen s -> fits (value s) (value e) (BitLen s - Z.of_nat n) ->
  exists h, 0 <= h <= BitLen s /\ Z.of_nat (grow_prefix n s e) = BitLen s - h /\ fits (value s) (value e) h /\ (h = BitLen s \/ ~ fits (value s) (value e) (h + 1)).
Proof.
  intros Hs He Hl. induction n as [|n IH]; intros Hn Hf; cbn [grow_prefix].
  { exists (BitLen s). split_and!; [destruct s; cbn; lia|lia|lia|by replace (BitLen s) with (BitLen s - Z.of_nat 0) by lia|by left]. }
  rewrite PrefixFrom_ok, lastIP_value by (done || lia). set (h := BitLen s - Z.of_nat n).
  pose proof Hs as (Hs1 & Hs2 & Hs3). pose proof He as (_ & He2 & _).
  destruct (with_value_ok s (value s / 2 ^ h * 2 ^ h + 2 ^ h - 1) Hs) as ((Hw1 & Hw2 & Hw3) & Hw4 & Hw5); [apply last_in_range; lia|].
  rewrite addr_le_value, Hw5 by congruence. pose proof (isAligned_value s (Z.of_nat n) Hs ltac:(lia)) as Ha. fold h in Ha.
  destruct (isAligned s (Z.of_nat n)).
  - assert (2 ^ h | value s) as Hd by by apply Ha. pose proof (Z.pow_pos_nonneg 2 h ltac:(lia) ltac:(lia)).
    assert (value s / 2 ^ h * 2 ^ h = value s) as -> by (destruct Hd as [q ->]; by rewrite Z.div_mul by lia).
    destruct (Z.leb_spec (value s + 2 ^ h - 1) (value e)); cbn [negb orb]; [apply IH; [lia|done]|].
    exists (h - 1). split_and!; [lia..| |right; replace (h - 1 + 1) with h by lia; intros [_ ?]; lia]. by replace (h - 1) with (BitLen s - Z.of_nat (S n)) by lia.
  - rewrite orb_true_r. exists (h - 1). split_and!; [lia..| |right; replace (h - 1 + 1) with h by lia; intros [Hd _]; by apply Ha in Hd].
    by replace (h - 1) with (BitLen s - Z.of_nat (S n)) by lia.
Qed.

Lemma largest_ok s e : addr_ok s -> addr_ok e -> BitLen s = BitLen e -> value s <= value e ->
  exists h, 0 <= h <= BitLen s /\ findLargestPrefix s e = {| p_Addr := s; p_Bits := BitLen s - h |} /\ fits (value s) (value e) h /\
    (h = BitLen s \/ ~ fits (value s) (value e) (h + 1)).
Proof.
  intros Hs He Hl Hv. assert (Hf0 : fits (value s) (value e) 0) by (split; [apply Z.divide_1_l|cbn; lia]). assert (0 <= BitLen s) by (destruct s; cbn; lia).
  unfold findLargestPrefix. case_decide as E.
  - subst e. exists 0. split_and!; [lia..| |done|]; [rewrite PrefixFrom_ok by (done || lia); by rewrite Z.sub_0_r|]. right. intros [_ ?]. cbn in *. lia.
  - destruct (grown_prefix_ok s e Hs He Hl (Z.to_nat (BitLen s))) as (h & Hh & Hg & Hf & Hm); [lia|by rewrite Z2Nat.id, Z.sub_diag by lia|].
    exists h. split_and!; [lia..| |done|done]. rewrite PrefixFrom_ok by (done || lia). by rewrite Hg.
Qed.

(** ** The loop *)

(** The prefixes lie end to end from [v] to [e]. *)
Fixpoint chain (a : Addr) (v e : Z) (ps : list Prefix) : Prop :=
  match ps with
  | [] => v = e + 1
  | p :: ps' => prefix_ok p /\ BitLen (p_Addr p) = BitLen a /\ value (p_Addr p) = v /\ last_value p <= e /\ chain a (last_value p + 1) e ps'
  end.

Lemma fits_prefix s h e : addr_ok s -> 0 <= h <= BitLen s -> fits (value s) e h ->
  prefix_ok {| p_Addr := s; p_Bits := BitLen s - h |} /\ last_value {| p_Addr := s; p_Bits := BitLen s - h |} = value s + 2 ^ h - 1.
Proof.
  intros Hs Hh [Hd _]. unfold prefix_ok, last_value, prefix_size. cbn [p_Addr p_Bits]. replace (BitLen s - (BitLen s - h)) with h by lia.
  split; [|done]. split_and!; [apply Hs..|lia|lia|done].
Qed.

(** One turn: the prefix, and the end or the next address. *)
Lemma turn_of_prefixes fuel s e : addr_ok s -> addr_ok e -> BitLen s = BitLen e -> value s <= value e ->
  exists h p, 0 <= h <= BitLen s /\ prefix_ok p /\ BitLen (p_Addr p) = BitLen s /\ value (p_Addr p) = value s /\ last_value p = value s + 2 ^ h - 1 /\
    fits (value s) (value e) h /\ (h = BitLen s \/ ~ fits (value s) (value e) (h + 1)) /\
    (value e = last_value p -> prefixes_from (S fuel) s e = Some [p]) /\
    (last_value p < value e -> exists s', addr_ok s' /\ BitLen s' = BitLen s /\ value s' = value s + 2 ^ h /\
       prefixes_from (S fuel) s e = (rest ← prefixes_from fuel s' e; Some (p :: rest))).
Proof.
  intros Hs He Hl Hv. destruct (largest_ok s e Hs He Hl Hv) as (h & Hh & Hp & Hf & Hm). set (p := {| p_Addr := s; p_Bits := BitLen s - h |}) in *.
  destruct (fits_prefix s h _ Hs Hh Hf) as [Hpok Hlast]. fold p in Hpok, Hlast. exists h, p.
  pose proof Hs as (Hs1 & Hs2 & Hs3). pose proof He as (He1 & He2 & He3). pose proof (Z.pow_pos_nonneg 2 h ltac:(lia) ltac:(lia)) as Hpos.
  assert (HlastIP : lastIPInPrefix p = with_value s (last_value p)).
  { unfold p at 1. rewrite lastIP_value, Hlast by (done || lia). f_equal. replace (BitLen s - (BitLen s - h)) with h by lia. destruct Hf as [[q ->] _]. by rewrite Z.div_mul by lia. }
  destruct Hf as [Hd Hle]. destruct (with_value_ok s (last_value p) Hs) as ((Hw1 & Hw2 & Hw3) & Hw4 & Hw5); [rewrite Hlast; rewrite Hl in *; lia|].
  split_and!; [lia|lia|done|done|done|done|by split|done| |]; cbn [prefixes_from]; rewrite (addr_le_value s e), (proj2 (Z.leb_le (value s) (value e))) by (done || lia); cbn [negb]; rewrite Hp, HlastIP, addr_le_value, Hw5 by congruence.
  - intros ->. by rewrite Z.leb_refl.
  - intros Hlt. rewrite (proj2 (Z.leb_gt (value e) (last_value p))) by lia. exists (with_value s (last_value p + 1)).
    destruct (with_value_ok s (last_value p + 1) Hs) as (Hn1 & Hn2 & Hn3); [rewrite Hlast; rewrite Hl in *; lia|]. split_and!; [done..|lia|].
    assert (Next (with_value s (last_value p)) = with_value s (last_value p + 1)) as ->; [|done].
    rewrite <-Hl in He3. clear -Hs1 He3 Hlt. destruct s; [done|..]; cbn [with_value Next BitLen] in *; by rewrite (proj2 (Z.eqb_neq _ _)) by lia.
Qed.

(** When the rest is smaller than the alignment the lengths go down. *)
Lemma prefixes_down fuel : forall b s e, addr_ok s -> addr_ok e -> BitLen s = BitLen e -> value s <= value e ->
  0 <= b <= BitLen s -> b <= Z.of_nat fuel -> (2 ^ b | value s) -> value e - value s + 1 < 2 ^ b ->
  exists ps, prefixes_from fuel s e = Some ps /\ chain s (value s) (value e) ps.
Proof.
  induction fuel as [|fuel IH]; intros b s e Hs He Hl Hv Hb Hf Hd Hr; [assert (b = 0) as -> by lia; cbn in Hr; lia|].
  destruct (turn_of_prefixes fuel s e Hs He Hl Hv) as (h & p & Hh & Hp & Hpl & Hpv & Hlast & [Hhd Hhe] & Hmax & Hend & Hnext).
  assert (h < b) as Hhb by (apply (Z.pow_lt_mono_r_iff 2); lia).
  destruct (decide (value e = last_value p)) as [E|E].
  { exists [p]. split; [by apply Hend|]. cbn. split_and!; [done..|lia|lia]. }
  destruct Hnext as (s' & Hs' & Hl' & Hv' & ->); [lia|].
  assert (value e - value s' + 1 < 2 ^ h) as Hr'.
  { destruct Hmax as [->|Hmax]; [lia|]. assert (2 ^ (h + 1) | value s) by (etransitivity; [|exact Hd]; exists (2 ^ (b - (h + 1))); apply pow_split; lia).
    assert (value e < value s + 2 ^ (h + 1) - 1) by (apply Z.nle_gt; intros ?; by apply Hmax). rewrite Z.pow_add_r in * by lia. lia. }
  destruct (IH h s' e) as (ps & -> & Hps); [done..|congruence|lia|lia|lia|rewrite Hv'; by apply Z.divide_add_r, Z.divide_refl|done|].
  exists (p :: ps). split; [done|]. cbn. split_and!; [done..|lia|]. replace (last_value p + 1) with (value s') by lia.
  clear -Hps Hl'. revert Hps. generalize (value s'). induction ps as [|q ps IH]; intros v; [done|]. cbn. intros (? & E & ? & ? & ?). split_and!; [done|by rewrite E|done..|by apply IH].
Qed.

Lemma chain_family a a' v e ps : BitLen a = BitLen a' -> chain a v e ps -> chain a' v e ps.
Proof. intros E. revert v. induction ps as [|p ps IH]; intros v; [done|]. cbn. rewrite E. intros (? & ? & ? & ? & ?). split_and!; auto. Qed.

(** Otherwise the alignment goes up, until the rest is smaller. *)
Lemma prefixes_up fuel : forall a s e, addr_ok s -> addr_ok e -> BitLen s = BitLen e -> value s <= value e ->
  0 <= a <= BitLen s -> 2 * BitLen s - a + 1 <= Z.of_nat fuel -> (2 ^ a | value s) ->
  exists ps, prefixes_from fuel s e = Some ps /\ chain s (value s) (value e) ps.
Proof.
  induction fuel as [|fuel IH]; intros a s e Hs He Hl Hv Ha Hf Hd; [lia|].
  destruct (Z.lt_ge_cases (value e - value s + 1) (2 ^ a)) as [Hr|Hr]; [by apply (prefixes_down (S fuel) a); try done; lia|].
  destruct (turn_of_prefixes fuel s e Hs He Hl Hv) as (h & p & Hh & Hp & Hpl & Hpv & Hlast & [Hhd Hhe] & Hmax & Hend & Hnext).
  pose proof Hs as (_ & _ & Hs3). pose proof He as (_ & _ & He3). rewrite <-Hl in He3.
  destruct (decide (value e = last_value p)) as [E|E].
  { exists [p]. split; [by apply Hend|]. cbn. split_and!; [done..|lia|lia]. }
  destruct Hnext as (s' & Hs' & Hl' & Hv' & ->); [lia|].
  assert (Hgo : exists ps, prefixes_from fuel s' e = Some ps /\ chain s' (value s') (value e) ps).
  2:{ destruct Hgo as (ps & -> & Hps). exists (p :: ps). split; [done|]. cbn. split_and!; [done..|lia|]. replace (last_value p + 1) with (value s') by lia. by eapply chain_family. }
  destruct Hmax as [->|Hmax]; [lia|]. assert (Hpow : 2 ^ (h + 1) = 2 * 2 ^ h) by (rewrite Z.pow_add_r by lia; lia).
  destruct (Znumtheory.Zdivide_dec (2 ^ (h + 1)) (value s)) as [Hd1|Hd1].
  - apply (prefixes_down fuel h); [done..|congruence|lia|lia| |rewrite Hv'; by apply Z.divide_add_r, Z.divide_refl|].
    + assert (h <= BitLen s) by lia. assert (a <= BitLen s) by lia. lia.
    + assert (value e < value s + 2 ^ (h + 1) - 1) by (apply Z.nle_gt; intros ?; by apply Hmax). lia.
  - assert (a <= h) as Hah.
    { apply Z.nlt_ge. intros ?. apply Hd1. etransitivity; [|exact Hd]. exists (2 ^ (a - (h + 1))). apply pow_split. lia. }
    destruct (decide (h = BitLen s)) as [->|]; [lia|].
    apply (IH (h + 1)); [done..|congruence|lia|lia|lia|]. rewrite Hv', Hpow. destruct Hhd as [q Hq]. rewrite Hq in *.
    assert (Z.odd q = true) as Ho. { destruct (Z.odd q) eqn:Eo; [done|]. destruct Hd1. rewrite <-Z.negb_even, negb_false_iff, Z.even_spec in Eo. destruct Eo as [k ->]. exists k. rewrite Hpow. lia. }
    apply Z.odd_spec in Ho as [k ->]. exists (k + 1). lia.
Qed.

(** Each number from [v] to [e] is in one prefix of a chain. *)
Lemma chain_counts a ps x : addr_ok x -> BitLen x = BitLen a -> forall v e, v <= e + 1 -> chain a v e ps ->
  length (filter (fun p => prefix_Contains p x = true) ps) = if decide (v <= value x <= e) then 1%nat else 0%nat.
Proof.
  intros Hx Hl. induction ps as [|p ps IH]; intros v e Hve; cbn [chain].
  - intros ->. case_decide; [lia|done].
  - intros (Hp & Hf & Hv & Hle & Hc). assert (v <= last_value p) as Hlast.
    { unfold last_value, prefix_size. destruct Hp as (_ & Hb & _). pose proof (Z.pow_pos_nonneg 2 (BitLen (p_Addr p) - p_Bits p) ltac:(lia) ltac:(lia)). lia. }
    rewrite filter_cons. pose proof (Contains_ok p x Hp Hx) as Hin. specialize (IH (last_value p + 1) e ltac:(lia) Hc). destruct (decide (prefix_Contains p x = true)) as [E|E]; cbn [length]; rewrite IH.
    + apply Hin in E as [_ ?]. repeat case_decide; lia.
    + assert (~ value (p_Addr p) <= value x <= last_value p) by (intros ?; apply E, Hin; split; congruence). repeat case_decide; lia.
Qed.

(** C19: the prefixes of a range of addresses. They are found, in at most two
    turns for each length of a prefix and one more; each of them is a prefix
    whose host bits are clear; they lie end to end from the first address to
    the last; and each address of the family is in exactly one of them when it
    is in the range and in none otherwise. *)
Theorem range_prefixes_exact r : addr_ok (StartIP r) -> addr_ok (EndIP r) -> BitLen (StartIP r) = BitLen (EndIP r) -> value (StartIP r) <= value (EndIP r) ->
  exists ps, route_Prefixes r = Some ps /\ Forall (fun p => p = Masked p) ps /\ chain (StartIP r) (value (StartIP r)) (value (EndIP r)) ps /\
    forall x, addr_ok x -> BitLen x = BitLen (StartIP r) -> length (filter (fun p => prefix_Contains p x = true) ps) = if route_contains r x then 1%nat else 0%nat.
Proof.
  intros Hs He Hl Hv. destruct (prefixes_up (S (2 * Z.to_nat (BitLen (StartIP r)))) 0 (StartIP r) (EndIP r)) as (ps & Hps & Hc); [done..| | |apply Z.divide_1_l|].
  { destruct (StartIP r); cbn; lia. } { destruct (StartIP r); cbn [BitLen] in *; lia. }
  exists ps. split; [done|]. split; [|split; [done|]].
  - clear Hps Hv. revert Hc. generalize (value (StartIP r)). induction ps as [|p ps IH]; intros v Hc; [done|]. destruct Hc as (Hp & _ & _ & _ & Hc).
    constructor; [apply masked_ok; [apply Hp..|done]|by eapply IH].
  - intros x Hx Hlx. rewrite (chain_counts (StartIP r) ps x Hx Hlx (value (StartIP r)) (value (EndIP r)) ltac:(lia) Hc). unfold route_contains.
    destruct Hs as (_ & ? & _), He as (_ & ? & _), Hx as (_ & ? & _). rewrite !addr_le_value by congruence.
    destruct (Z.leb_spec (value (StartIP r)) (value x)), (Z.leb_spec (value x) (value (EndIP r))); case_decide; cbn; done || lia.
Qed.

(** 10.0.0.1 to 10.0.0.6. *)
Definition sample_range : IPRoute := {| StartIP := AddrFrom4 [x0a; x00; x00; x01]; EndIP := AddrFrom4 [x0a; x00; x00; x06]; IPProtocol := 0 |}.

Lemma sample_prefixes : (fun p => (AsSlice (p_Addr p), p_Bits p)) <$> default [] (route_Prefixes sample_range) =
  [([x0a; x00; x00; x01], 32); ([x0a; x00; x00; x02], 31); ([x0a; x00; x00; x04], 31); ([x0a; x00; x00; x06], 32)].
Proof. vm_compute. reflexivity. Qed.

Lemma range_prefixes_exact_witness : exists ps, route_Prefixes sample_range = Some ps /\ Forall (fun p => p = Masked p) ps /\
  chain (StartIP sample_range) (value (StartIP sample_range)) (value (EndIP sample_range)) ps /\
  forall x, addr_ok x -> BitLen x = BitLen (StartIP sample_range) ->
    length (filter (fun p => prefix_Contains p x = true) ps) = if route_contains sample_range x then 1%nat else 0%nat.
Proof. apply (range_prefixes_exact sample_range); [by apply AddrFrom4_ok|by apply AddrFrom4_ok|reflexivity|vm_compute; discriminate]. Defined.
