(* ===== verification/ConnectIpPackets.v ===== *)
(** * The packets of CONNECT-IP, [proxy/masque/internal/connectip/]

    What an end reads of an IP packet's headers, which packets it lets into
    and out of the tunnel, and how it rewrites one that it sends. *)

From S2P Require Import Prelude Net NetIp ConnectIp.
Local Open Scope Z_scope.

(** Why a packet is refused. *)
Inductive packet_error :=
  | errEmpty | errTooShort | errVersion | errHeaderLength | errChecksum | errTotalLength | errPayloadLength
  | errHopByHop | errTruncatedExtension | errMalformedICMP | errICMPTarget | errICMPForeign | errSource | errDestination | errTTL | errMalformedDatagram.

(** Indexing and slicing with Go's checks. *)
Definition index (b : bytes) (i : nat) : outcome packet_error Z := match b !! i with Some x => Ok (byte_to_Z x) | None => Panic end.
Definition sub (b : bytes) (lo hi : nat) : outcome packet_error bytes :=
  if (lo <=? hi)%nat && (hi <=? length b)%nat then Ok (take (hi - lo) (drop lo b)) else Panic.
Definition uint16 (b : bytes) (i : nat) : outcome packet_error Z := get16 <$> sub b i (i + 2).

(** src/proxy/masque/internal/connectip/ip.go ipVersion *)
Definition ipVersion (b : bytes) : outcome packet_error Z := (fun x => Z.shiftr x 4) <$> index b 0.

Definition v4_HeaderLen : nat := 20.
Definition v6_HeaderLen : nat := 40.

(** ** IPv4 *)

(** The 16-bit words from the [i]-th byte on; that at [skip] is left out.
    src/proxy/masque/internal/connectip/ipv4.go:24-30 calculateIPv4Checksum *)
Fixpoint sum_words (skip : option nat) (i : nat) (header : bytes) : outcome packet_error Z :=
  match header with
  | [] => Ok 0
  | [_] => Panic
  | a :: b :: rest =>
      s ← sum_words skip (i + 2) rest;
      Ok (if decide (skip = Some i) then s else u32 (get16 [a; b] + s))
  end.

(** [for (sum >> 16) > 0]; a 32-bit sum needs three turns at most.
    src/proxy/masque/internal/connectip/ipv4.go:31-33 calculateIPv4Checksum *)
Fixpoint fold_sum (fuel : nat) (sum : Z) : Z :=
  match fuel with
  | O => sum
  | S fuel' => if 0 <? Z.shiftr sum 16 then fold_sum fuel' (u32 (Z.land sum 0xffff + Z.shiftr sum 16)) else sum
  end.

(** src/proxy/masque/internal/connectip/ipv4.go calculateIPv4Checksum *)
Definition calculateIPv4Checksum (header : bytes) : outcome packet_error Z :=
  sum ← sum_words (Some 10%nat) 0 header; Ok (0xffff - u16 (fold_sum 3 sum)).

(** src/proxy/masque/internal/connectip/ipv4.go validateIPv4Checksum *)
Definition validateIPv4Checksum (b : bytes) : outcome packet_error unit :=
  b0 ← index b 0;
  let hdrLen := Z.to_nat (Z.land b0 0x0f * 4) in
  if (hdrLen <? v4_HeaderLen)%nat || (length b <? hdrLen)%nat then Err errHeaderLength
  else
    sum ← sum_words None 0 (take hdrLen b);
    if negb (fold_sum 3 sum =? 0xffff) then Err errChecksum else Ok tt.

(** src/proxy/masque/internal/connectip/ipv4.go validateIPv4TotalLength *)
Definition validateIPv4TotalLength (b : bytes) : outcome packet_error unit :=
  l ← uint16 b 2; if negb (l =? Z.of_nat (length b)) then Err errTotalLength else Ok tt.

(** ** IPv6 *)

(** src/proxy/masque/internal/connectip/ipv6.go validateIPv6PayloadLength *)
Definition validateIPv6PayloadLength (b : bytes) : outcome packet_error unit :=
  l ← uint16 b 4; if negb (Z.of_nat v6_HeaderLen + l =? Z.of_nat (length b)) then Err errPayloadLength else Ok tt.

(** src/proxy/masque/internal/connectip/ipv6.go:23-29 ipProtoHopByHop *)
Definition ipProtoHopByHop : Z := 0.
(** src/proxy/masque/internal/connectip/ipv6.go:25-25 ipProtoRouting *)
Definition ipProtoRouting : Z := 43.
(** src/proxy/masque/internal/connectip/ipv6.go:26-26 ipProtoFragment *)
Definition ipProtoFragment : Z := 44.
(** src/proxy/masque/internal/connectip/ipv6.go:27-27 ipProtoAH *)
Definition ipProtoAH : Z := 51.
(** src/proxy/masque/internal/connectip/ipv6.go:28-28 ipProtoDestOpts *)
Definition ipProtoDestOpts : Z := 60.

(** src/proxy/masque/internal/connectip/ipv6.go:44-48 ipv6UpperLayerProtocol *)
Definition is_extension (next : Z) : bool :=
  (next =? ipProtoHopByHop) || (next =? ipProtoRouting) || (next =? ipProtoFragment) || (next =? ipProtoAH) || (next =? ipProtoDestOpts).

(** The chain of extension headers; each has eight bytes at least.
    src/proxy/masque/internal/connectip/ipv6.go:43-72 ipv6UpperLayerProtocol *)
Fixpoint upper_layer (fuel : nat) (b : bytes) (next : Z) (pos : nat) : outcome packet_error (Z * bytes) :=
  match fuel with
  | O => Panic
  | S fuel' =>
      if negb (is_extension next) then msg ← sub b pos (length b); Ok (next, msg)
      else if (next =? ipProtoHopByHop) && negb (pos =? v6_HeaderLen)%nat then Err errHopByHop
      else if (length b <? pos + 8)%nat then Err errTruncatedExtension
      else
        let go hdrLen :=
          if (length b <? pos + hdrLen)%nat then Err errTruncatedExtension
          else next' ← index b pos; upper_layer fuel' b next' (pos + hdrLen) in
        if next =? ipProtoFragment then
          w ← uint16 b (pos + 2);
          if negb (Z.shiftr w 3 =? 0) then Ok (ipProtoFragment, []) else go 8%nat
        else if next =? ipProtoAH then l ← index b (pos + 1); go (Z.to_nat ((l + 2) * 4))
        else l ← index b (pos + 1); go (Z.to_nat ((l + 1) * 8))
  end.

(** src/proxy/masque/internal/connectip/ipv6.go ipv6UpperLayerProtocol *)
Definition ipv6UpperLayerProtocol (b : bytes) : outcome packet_error (Z * bytes) :=
  next ← index b 6; upper_layer (S (length b)) b next v6_HeaderLen.

(** ** Both *)

(** src/proxy/masque/internal/connectip/ip.go parseTruncatedIPHeader *)
Definition parseTruncatedIPHeader (b : bytes) : outcome packet_error (Addr * Addr * Z) :=
  if (length b =? 0)%nat then Err errEmpty
  else
    v ← ipVersion b;
    if v =? 4 then
      if (length b <? v4_HeaderLen)%nat then Err errTooShort
      else
        src ← sub b 12 16; dst ← sub b 16 20; ipProto ← index b 9;
        Ok (AddrFrom4 src, AddrFrom4 dst, ipProto)
    else if v =? 6 then
      if (length b <? v6_HeaderLen)%nat then Err errTooShort
      else
        src ← sub b 8 24; dst ← sub b 24 40; '(ipProto, _) ← ipv6UpperLayerProtocol b;
        Ok (AddrFrom16 src, AddrFrom16 dst, ipProto)
    else Err errVersion.

(** src/proxy/masque/internal/connectip/ip.go parseIPHeader *)
Definition parseIPHeader (b : bytes) : outcome packet_error (Addr * Addr * Z) :=
  if (length b =? 0)%nat then Err errEmpty
  else
    v ← ipVersion b;
    _ ← (if v =? 4 then
           if (length b <? v4_HeaderLen)%nat then Err errTooShort
           else _ ← validateIPv4Checksum b; validateIPv4TotalLength b
         else if v =? 6 then
           if (length b <? v6_HeaderLen)%nat then Err errTooShort else validateIPv6PayloadLength b
         else Ok tt);
    parseTruncatedIPHeader b.

(** src/proxy/masque/internal/connectip/ip.go:26-26 ipProtoICMP *)
Definition ipProtoICMP : Z := 1.
(** src/proxy/masque/internal/connectip/ip.go:27-27 ipProtoICMPv6 *)
Definition ipProtoICMPv6 : Z := 58.

(** No list of prefixes allows every source; [nil] routes are none.
    src/proxy/masque/internal/connectip/ip.go isAllowedSource *)
Definition isAllowedSource (src : Addr) (prefixes : option (list Prefix)) (routes : list IPRoute) : bool :=
  match prefixes with
  | None => true
  | Some ps => existsb (fun p => prefix_Contains p src) ps || existsb (fun r => route_contains r src) routes
  end.

(** src/proxy/masque/internal/connectip/ip.go isAllowedDestination *)
Definition isAllowedDestination (dst : Addr) (ipProto : Z) (prefixes : option (list Prefix)) (routes : list IPRoute) : bool :=
  existsb (fun p => prefix_Contains p dst) (default [] prefixes) ||
  let isICMP := (Is4 dst && (ipProto =? ipProtoICMP)) || (Is6 dst && (ipProto =? ipProtoICMPv6)) in
  let isFragment := Is6 dst && (ipProto =? ipProtoFragment) in
  existsb (fun r => route_contains r dst && (isICMP || isFragment || (IPProtocol r =? 0) || (IPProtocol r =? ipProto))) routes.

(** The packet that an ICMP error message is about, as far as it is there;
    nothing when the packet is not such a message.
    src/proxy/masque/internal/connectip/icmp.go icmpInvokingPacket *)
Definition icmpInvokingPacket (b : bytes) (ipProto : Z) : outcome packet_error (option bytes) :=
  v ← ipVersion b;
  msg ← (if (v =? 4) && (ipProto =? ipProtoICMP) then
           w ← uint16 b 6;
           if negb (Z.land w 0x1fff =? 0) then Ok None
           else
             b0 ← index b 0;
             msg ← sub b (Z.to_nat (Z.land b0 0x0f * 4)) (length b);
             match msg with
             | [] => Ok None
             | t :: _ => Ok (if (byte_to_Z t =? 3) || (byte_to_Z t =? 11) || (byte_to_Z t =? 12) then Some msg else None)
             end
         else if (v =? 6) && (ipProto =? ipProtoICMPv6) then
           match ipv6UpperLayerProtocol b with
           | Panic => Panic
           | Err _ => Ok None
           | Ok (_, msg) => match msg with [] => Ok None | t :: _ => Ok (if 128 <=? byte_to_Z t then None else Some msg) end
           end
         else Ok None);
  Ok (match msg with None => None | Some msg => Some (if (length msg <? 8)%nat then [] else drop 8 msg) end).

(** ** Into and out of the tunnel *)

(** What an end knows of addresses and routes. [None] is that none have been
    assigned yet.
    src/proxy/masque/internal/connectip/conn.go:91-94 Conn *)
Record tunnel := { peerAddresses : option (list Prefix); localRoutes : list IPRoute; assignedAddresses : option (list Prefix); peerRoutes : list IPRoute }.

Definition guard (c : bool) (e : packet_error) : outcome packet_error unit := if c then Ok tt else Err e.

(** An ICMP error message: it goes to the source of the packet it is about.
    src/proxy/masque/internal/connectip/conn.go:476-489 Conn.handleIncomingProxiedPacket *)
Definition check_invoking (dst : Addr) (invoking : bytes) (source : Addr -> bool) (destination : Addr -> Z -> bool) : outcome packet_error unit :=
  '(invokingSrc, invokingDst, invokingProto) ← match parseTruncatedIPHeader invoking with Err _ => Err errMalformedICMP | r => r end;
  _ ← guard (bool_decide (invokingSrc = dst)) errICMPTarget;
  guard (source invokingSrc && destination invokingDst invokingProto) errICMPForeign.

(** src/proxy/masque/internal/connectip/conn.go Conn.handleIncomingProxiedPacket *)
Definition handleIncomingProxiedPacket (c : tunnel) (data : bytes) : outcome packet_error unit :=
  '(src, dst, ipProto) ← parseIPHeader data;
  _ ← (if isAllowedSource src (peerAddresses c) [] then Ok tt
       else
         m ← icmpInvokingPacket data ipProto;
         match m with
         | None => Err errSource
         | Some invoking =>
             check_invoking dst invoking (fun a => isAllowedSource a (assignedAddresses c) (localRoutes c))
               (fun a p => isAllowedDestination a p (peerAddresses c) (peerRoutes c))
         end);
  guard (isAllowedDestination dst ipProto (assignedAddresses c) (localRoutes c)) errDestination.

(** [b[i]--] and [PutUint16(b[i:i+2], z)]. *)
Definition decrement (i : nat) (b : bytes) : bytes := alter (fun x => byte_of_Z (byte_to_Z x - 1)) i b.

(** The hop count goes down by one, and the checksum is made anew.
    src/proxy/masque/internal/connectip/conn.go:569-584 Conn.composeDatagram *)
Definition forward (b : bytes) : outcome packet_error bytes :=
  v ← ipVersion b;
  if v =? 4 then
    ttl ← index b 8;
    if ttl <=? 1 then Err errTTL
    else
      let b := decrement 8 b in
      b0 ← index b 0;
      let hdrLen := Z.to_nat (Z.land b0 0x0f * 4) in
      header ← sub b 0 hdrLen;
      checksum ← calculateIPv4Checksum header;
      Ok (splice 10 (put16 checksum) b)
  else if v =? 6 then
    hopLimit ← index b 7;
    if hopLimit <=? 1 then Err errTTL else Ok (decrement 7 b)
  else Ok b.

(** src/proxy/masque/internal/connectip/conn.go:535-567 Conn.composeDatagram *)
Definition may_leave (c : tunnel) (b : bytes) : outcome packet_error unit :=
  '(src, dst, ipProto) ← parseIPHeader b;
  m ← icmpInvokingPacket b ipProto;
  _ ← match m with
      | Some invoking =>
          check_invoking dst invoking (fun a => isAllowedSource a (peerAddresses c) [])
            (fun a p => isAllowedDestination a p (assignedAddresses c) (localRoutes c))
      | None => guard (isAllowedSource src (assignedAddresses c) (localRoutes c)) errSource
      end;
  guard (isAllowedDestination dst ipProto (peerAddresses c) (peerRoutes c)) errDestination.

Section Datagrams.
Context `{QuicVarint}.

(** src/proxy/masque/internal/connectip/proxy.go contextIDZero *)
Definition contextIDZero : bytes := varint_Append 0.

(** The datagram, and the packet as it was rewritten in place.
    src/proxy/masque/internal/connectip/conn.go Conn.composeDatagram *)
Definition composeDatagram (c : tunnel) (enableDatagrams : bool) (b : bytes) : outcome packet_error (bytes * bytes) :=
  _ ← may_leave c b;
  b ← forward b;
  let data := contextIDZero ++ b in
  Ok (if enableDatagrams then data else varint_Append capsuleTypeDatagram ++ varint_Append (Z.of_nat (length data)) ++ data, b).

(** One datagram: an error ends the reading, nothing is to be taken from a
    datagram of another context or a refused packet, or there is a packet.
    src/proxy/masque/internal/connectip/conn.go:445-455 Conn.ReadPacket *)
Definition read_datagram (c : tunnel) (data : bytes) : outcome packet_error (option bytes) :=
  match varint_Parse data with
  | None => Err errMalformedDatagram
  | Some (contextID, n) =>
      if negb (contextID =? 0) then Ok None
      else match handleIncomingProxiedPacket c (drop n data) with
           | Panic => Panic
           | Err _ => Ok None
           | Ok _ => Ok (Some (drop n data))
           end
  end.
End Datagrams.

(** ** Packets that are too large *)

Section TooLarge.
(** [icmp.Message.Marshal]: the message with its type, code, MTU and data,
    and the pseudo header, for IPv6. *)
Variable Marshal : bool -> Z -> Z -> Z -> bytes -> option (bytes * bytes) -> option bytes.

(** src/proxy/masque/internal/connectip/icmp.go composeICMPTooLargePacket *)
Definition composeICMPTooLargePacket (b : bytes) (mtu : Z) : outcome packet_error bytes :=
  if (length b =? 0)%nat then Err errEmpty
  else
    v ← ipVersion b;
    if v =? 4 then
      if (length b <? v4_HeaderLen)%nat then Err errTooShort
      else
        match Marshal false 3 4 mtu (take (576 - v4_HeaderLen - 8) b) None with
        | None => Err errMalformedICMP
        | Some icmp =>
            let ipLen := Z.of_nat v4_HeaderLen + Z.of_nat (length icmp) in
            src ← sub b 16 20; dst ← sub b 12 16;
            let header := [x45; x00] ++ put16 (u16 ipLen) ++ zero_bytes 4 ++ [x40; x01] ++ zero_bytes 2 ++ src ++ dst in
            checksum ← calculateIPv4Checksum header;
            Ok (splice 10 (put16 checksum) header ++ icmp)
        end
    else if v =? 6 then
      if (length b <? v6_HeaderLen)%nat then Err errTooShort
      else
        src ← sub b 24 40; dst ← sub b 8 24;
        match Marshal true 2 0 mtu (take 1232 b) (Some (src, dst)) with
        | None => Err errMalformedICMP
        | Some icmp => Ok ([x60] ++ zero_bytes 3 ++ put16 (u16 (Z.of_nat (length icmp))) ++ [x3a; x40] ++ src ++ dst ++ icmp)
        end
    else Err errVersion.
End TooLarge.
