(* ===== verification/ConnectIpPacketsFacts.v ===== *)
(** * What one end of a CONNECT-IP tunnel sends, the other accepts *)

From S2P Require Import Prelude Net NetIp Capsule ConnectIp ConnectIpPackets.
Local Open Scope Z_scope.

(** ** Bytes that are there *)

Lemma byte_at_ok b i : (i < length b)%nat -> index b i = Ok (byte_to_Z (b !!! i)).
Proof. intros H. unfold index. by rewrite (list_lookup_lookup_total_lt _ _ H). Qed.

Lemma slice_at_ok b lo hi : (lo <= hi <= length b)%nat -> sub b lo hi = Ok (take (hi - lo) (drop lo b)).
Proof. intros H. unfold sub. by rewrite (proj2 (Nat.leb_le lo hi)), (proj2 (Nat.leb_le hi (length b))) by lia. Qed.

Lemma uint16_ok b i : (i + 2 <= length b)%nat -> uint16 b i = Ok (get16 (take 2 (drop i b))).
Proof. intros H. unfold uint16. rewrite slice_at_ok by lia. by replace (i + 2 - i)%nat with 2%nat by lia. Qed.

Lemma ipVersion_ok b : (0 < length b)%nat -> ipVersion b = Ok (Z.shiftr (byte_to_Z (b !!! 0%nat)) 4).
Proof. intros H. unfold ipVersion. by rewrite byte_at_ok. Qed.

(** ** Checksums *)

Lemma get16_two a b : get16 [a; b] = byte_to_Z a * 256 + byte_to_Z b.
Proof. unfold get16. rewrite be_combine_sum. unfold be_sum. cbn. lia. Qed.

Lemma even_ind (P : bytes -> Prop) : P [] -> (forall a b l, P l -> P (a :: b :: l)) -> forall l, Nat.Even (length l) -> P l.
Proof.
  intros H0 H2. fix IH 1. intros [|a [|b l]] He; [done|by destruct He as [k Hk]; cbn in Hk; lia|].
  apply H2, IH. destruct He as [k Hk]. exists (k - 1)%nat. cbn in Hk. lia.
Qed.

(** A header is short: the sum of its words does not wrap. *)
Lemma sum_words_bound skip l : Nat.Even (length l) -> Z.of_nat (length l) <= 2 ^ 16 -> forall i,
  exists s, sum_words skip i l = Ok s /\ 0 <= s <= 65535 * Z.of_nat (length l).
Proof.
  intros He. revert He. apply (even_ind (fun l => Z.of_nat (length l) <= 2 ^ 16 -> forall i, exists s, sum_words skip i l = Ok s /\ 0 <= s <= 65535 * Z.of_nat (length l))).
  - intros _ i. exists 0. split; [done|cbn; lia].
  - clear l. intros a b l IH Hl i. cbn [length] in *. destruct (IH ltac:(lia) (i + 2)%nat) as (s & Hs & Hb). cbn [sum_words]. rewrite Hs. cbn [mbind outcome_bind].
    pose proof (byte_to_Z_range a). pose proof (byte_to_Z_range b). rewrite get16_two, u32_small by lia. case_decide; eexists; (split; [done|lia]).
Qed.

Lemma sum_words_cons i a b l s : (i <> 10)%nat -> 0 <= s < 2 ^ 31 -> forall skip, skip = None \/ skip = Some 10%nat -> sum_words skip (i + 2) l = Ok s ->
  sum_words skip i (a :: b :: l) = Ok (get16 [a; b] + s).
Proof.
  intros Hi Hs skip Hskip E. cbn [sum_words]. rewrite E. cbn [mbind outcome_bind]. pose proof (byte_to_Z_range a). pose proof (byte_to_Z_range b).
  rewrite decide_False by (destruct Hskip as [->| ->]; congruence). rewrite get16_two. by rewrite u32_small by lia.
Qed.

Lemma sum_words_past l : Nat.Even (length l) -> forall i, (10 < i)%nat -> sum_words (Some 10%nat) i l = sum_words None i l.
Proof.
  intros He. revert He. apply (even_ind (fun l => forall i, (10 < i)%nat -> sum_words (Some 10%nat) i l = sum_words None i l)); [done|].
  clear l. intros a b l IH i Hi. cbn [sum_words]. rewrite IH by lia. destruct (sum_words None (i + 2) l); [|done..]. cbn. rewrite !decide_False by (intros [=]; lia). done.
Qed.

Lemma fold_sum_ok s : 0 < s < 2 ^ 31 -> 0 < fold_sum 3 s <= 65535 /\ fold_sum 3 s mod 65535 = s mod 65535.
Proof.
  assert (Hstep : forall s, 0 < s < 2 ^ 31 -> u32 (Z.land s 0xffff + Z.shiftr s 16) = s mod 65536 + s / 65536).
  { intros t Ht. change 0xffff with (Z.ones 16). rewrite Z.land_ones, Z.shiftr_div_pow2 by lia. change (2 ^ 16) with 65536. apply u32_small. Z.div_mod_to_equations. lia. }
  assert (Hmod : forall s, 0 < s -> (s mod 65536 + s / 65536) mod 65535 = s mod 65535).
  { intros t Ht. rewrite (Z.div_mod t 65536) at 3 by lia. replace (65536 * (t / 65536) + t mod 65536) with (t mod 65536 + t / 65536 + t / 65536 * 65535) by lia. by rewrite Z.mod_add. }
  assert (Hcond : forall s, 0 < s -> (0 <? Z.shiftr s 16) = negb (s <? 65536)).
  { intros t Ht. rewrite Z.shiftr_div_pow2 by lia. change (2 ^ 16) with 65536. destruct (Z.ltb_spec t 65536); cbn; [rewrite Z.div_small by lia; done|apply Z.ltb_lt; apply Z.div_str_pos; lia]. }
  intros Hs. cbn [fold_sum]. rewrite Hcond by lia. destruct (Z.ltb_spec s 65536); cbn [negb]; [lia|].
  rewrite Hstep by lia. set (t := s mod 65536 + s / 65536). assert (Ht : 0 < t < 98304) by (unfold t; Z.div_mod_to_equations; lia). assert (Et : t mod 65535 = s mod 65535) by (apply Hmod; lia). clearbody t.
  rewrite Hcond by lia. destruct (Z.ltb_spec t 65536); cbn [negb]; [lia|].
  rewrite Hstep by lia. set (w := t mod 65536 + t / 65536). assert (Hw : 0 < w <= 65535) by (unfold w; Z.div_mod_to_equations; lia). assert (Ew : w mod 65535 = t mod 65535) by (apply Hmod; lia). clearbody w.
  rewrite Hcond by lia. destruct (Z.ltb_spec w 65536); cbn [negb]; lia.
Qed.

(** The checksum makes the folded sum [0xffff]. *)
Lemma fold_complement w : 0 < w < 2 ^ 30 -> fold_sum 3 (w + (0xffff - u16 (fold_sum 3 w))) = 0xffff.
Proof.
  intros Hw. destruct (fold_sum_ok w ltac:(lia)) as [Hr Hm]. rewrite u16_small by lia. set (f := fold_sum 3 w) in *.
  destruct (fold_sum_ok (w + (0xffff - f)) ltac:(lia)) as [Hr' Hm']. set (g := fold_sum 3 (w + (0xffff - f))) in *.
  assert ((w + (65535 - f)) mod 65535 = 0) as E; [|rewrite E in Hm'; Z.div_mod_to_equations; lia].
  clear -Hm. Z.div_mod_to_equations. lia.
Qed.

(** ** Headers *)

Definition version (b : bytes) : Z := Z.shiftr (byte_to_Z (b !!! 0%nat)) 4.

(** A header that is read: its version, and what was checked. *)
Definition header_ok (b : bytes) : Prop :=
  version b = 4 /\ (20 <= length b)%nat /\ validateIPv4Checksum b = Ok tt /\ validateIPv4TotalLength b = Ok tt \/
  version b = 6 /\ (40 <= length b)%nat /\ validateIPv6PayloadLength b = Ok tt.

Lemma parseIPHeader_iff b r : parseIPHeader b = Ok r <-> header_ok b /\ parseTruncatedIPHeader b = Ok r.
Proof.
  unfold parseIPHeader, header_ok. destruct (Nat.eqb_spec (length b) 0) as [E0|E0].
  { unfold parseTruncatedIPHeader. rewrite E0. by split; [|intros [_ ?]]. }
  rewrite ipVersion_ok by lia. cbn [mbind outcome_bind]. fold (version b).
  destruct (Z.eqb_spec (version b) 4) as [E4|E4].
  - destruct (Nat.ltb_spec (length b) v4_HeaderLen) as [Hs|Hs]; unfold v4_HeaderLen in *; cbn [mbind outcome_bind].
    { split; [done|]. intros [[(_ & ? & _)|(? & _)] _]; lia. }
    destruct (validateIPv4Checksum b) as [[]|e|]; cbn [mbind outcome_bind]; [|split; [done|]; intros [[(_ & _ & ? & _)|(? & _)] _]; done || lia..].
    destruct (validateIPv4TotalLength b) as [[]|e|]; cbn [mbind outcome_bind]; [|split; [done|]; intros [[(_ & _ & _ & ?)|(? & _)] _]; done || lia..].
    split; [intros ?; split; [left|]; done|by intros [_ ?]].
  - destruct (Z.eqb_spec (version b) 6) as [E6|E6].
    + destruct (Nat.ltb_spec (length b) v6_HeaderLen) as [Hs|Hs]; unfold v6_HeaderLen in *; cbn [mbind outcome_bind].
      { split; [done|]. intros [[(? & _)|(_ & ? & _)] _]; lia. }
      destruct (validateIPv6PayloadLength b) as [[]|e|]; cbn [mbind outcome_bind]; [|split; [done|]; intros [[(? & _)|(_ & _ & ?)] _]; done || lia..].
      split; [intros ?; split; [right|]; done|by intros [_ ?]].
    + cbn [mbind outcome_bind]. unfold parseTruncatedIPHeader. rewrite (proj2 (Nat.eqb_neq _ _) E0), ipVersion_ok by lia. cbn [mbind outcome_bind]. fold (version b).
      rewrite (proj2 (Z.eqb_neq _ _) E4), (proj2 (Z.eqb_neq _ _) E6). split; [done|by intros [_ ?]].
Qed.

(** *** IPv4: the first twelve bytes and the others *)

Definition v4_packet (x0 x1 x2 x3 x4 x5 x6 x7 x8 x9 x10 x11 : byte) (rest : bytes) : bytes := x0 :: x1 :: x2 :: x3 :: x4 :: x5 :: x6 :: x7 :: x8 :: x9 :: x10 :: x11 :: rest.

Lemma v4_shape b : (20 <= length b)%nat -> exists x0 x1 x2 x3 x4 x5 x6 x7 x8 x9 x10 x11 rest, b = v4_packet x0 x1 x2 x3 x4 x5 x6 x7 x8 x9 x10 x11 rest /\ (8 <= length rest)%nat.
Proof.
  intros H. do 12 (destruct b as [|? b]; [cbn in H; lia|]). cbn [length] in H. do 13 eexists. split; [done|lia].
Qed.

Definition ihl (x0 : byte) : nat := Z.to_nat (Z.land (byte_to_Z x0) 0x0f * 4).

Lemma ihl_even x0 k : ihl x0 = (12 + k)%nat -> Nat.Even k.
Proof.
  intros H. unfold ihl in H. exists (Z.to_nat (Z.land (byte_to_Z x0) 15 * 2) - 6)%nat. pose proof (byte_to_Z_range x0).
  assert (0 <= Z.land (byte_to_Z x0) 15) by (apply Z.land_nonneg; lia). lia.
Qed.

Lemma ihl_bound x0 : (ihl x0 <= 60)%nat.
Proof. unfold ihl. change 15 with (Z.ones 4). rewrite Z.land_ones by lia. pose proof (Z.mod_pos_bound (byte_to_Z x0) (2 ^ 4) ltac:(lia)). lia. Qed.

(** The sums over a header, with the checksum's word and without. *)
Lemma header_sums x0 x1 x2 x3 x4 x5 x6 x7 x8 x9 x10 x11 t : Nat.Even (length t) -> (length t <= 60)%nat ->
  exists w, 0 <= w < 2 ^ 29 /\ get16 [x0; x1] <= w /\ sum_words (Some 10%nat) 0 (v4_packet x0 x1 x2 x3 x4 x5 x6 x7 x8 x9 x10 x11 t) = Ok w /\
    sum_words None 0 (v4_packet x0 x1 x2 x3 x4 x5 x6 x7 x8 x9 x10 x11 t) = Ok (get16 [x10; x11] + w) /\
    forall y10 y11, sum_words (Some 10%nat) 0 (v4_packet x0 x1 x2 x3 x4 x5 x6 x7 x8 x9 y10 y11 t) = Ok w /\
      sum_words None 0 (v4_packet x0 x1 x2 x3 x4 x5 x6 x7 x8 x9 y10 y11 t) = Ok (get16 [y10; y11] + w).
Proof.
  intros He Hl. destruct (sum_words_bound None t He ltac:(lia) 12%nat) as (s & Hs & Hb).
  assert (Hw : forall a b, 0 <= get16 [a; b] < 2 ^ 16) by (intros a b; rewrite get16_two; pose proof (byte_to_Z_range a); pose proof (byte_to_Z_range b); lia).
  set (w := get16 [x0; x1] + (get16 [x2; x3] + (get16 [x4; x5] + (get16 [x6; x7] + (get16 [x8; x9] + s))))).
  pose proof (Hw x0 x1). pose proof (Hw x2 x3). pose proof (Hw x4 x5). pose proof (Hw x6 x7). pose proof (Hw x8 x9).
  assert (Hall : forall y10 y11, sum_words (Some 10%nat) 0 (v4_packet x0 x1 x2 x3 x4 x5 x6 x7 x8 x9 y10 y11 t) = Ok w /\
      sum_words None 0 (v4_packet x0 x1 x2 x3 x4 x5 x6 x7 x8 x9 y10 y11 t) = Ok (get16 [y10; y11] + w)).
  { intros y10 y11. pose proof (Hw y10 y11). split; unfold v4_packet, w.
    - do 5 (apply sum_words_cons; [lia|lia|by right|]). cbn [Nat.add sum_words]. rewrite sum_words_past, Hs by (done || lia). by cbn.
    - replace (get16 [y10; y11] + _) with (get16 [x0; x1] + (get16 [x2; x3] + (get16 [x4; x5] + (get16 [x6; x7] + (get16 [x8; x9] + (get16 [y10; y11] + s)))))) by lia.
      do 5 (apply sum_words_cons; [lia|lia|by left|]). cbn [Nat.add sum_words]. rewrite Hs. cbn. by rewrite u32_small by lia. }
  exists w. destruct (Hall x10 x11). split_and!; [unfold w; lia|unfold w; lia|unfold w; lia|done|done|exact Hall].
Qed.

Section V4.
Context (x0 x1 x2 x3 x4 x5 x6 x7 x8 x9 x10 x11 : byte) (rest : bytes).
Let b := v4_packet x0 x1 x2 x3 x4 x5 x6 x7 x8 x9 x10 x11 rest.
Context (Hv : Z.shiftr (byte_to_Z x0) 4 = 4) (Hrest : (8 <= length rest)%nat) (Hck : validateIPv4Checksum b = Ok tt).

Lemma v4_length : exists k, ihl x0 = (12 + k)%nat /\ (8 <= k <= length rest)%nat.
Proof.
  unfold validateIPv4Checksum in Hck. cbn [index b v4_packet lookup list_lookup] in Hck. unfold index in Hck. cbn [b v4_packet lookup list_lookup mbind outcome_bind] in Hck. fold (ihl x0) in Hck.
  destruct (Nat.ltb_spec (ihl x0) v4_HeaderLen) as [?|H1]; [done|]. cbn [orb] in Hck.
  destruct (Nat.ltb_spec (length b) (ihl x0)) as [?|H2]; [done|]. unfold v4_HeaderLen in H1. cbn [b v4_packet length] in H2. exists (ihl x0 - 12)%nat. lia.
Qed.

Lemma v4_version t : version (x0 :: t) = 4.
Proof. exact Hv. Qed.

(** The hop count and the checksum do not matter to the other fields. *)
Lemma v4_parse_same y8 y10 y11 : parseTruncatedIPHeader (v4_packet x0 x1 x2 x3 x4 x5 x6 x7 y8 x9 y10 y11 rest) = parseTruncatedIPHeader b.
Proof.
  unfold parseTruncatedIPHeader. rewrite !ipVersion_ok by (cbn; lia). cbn [mbind outcome_bind]. fold (version b) (version (v4_packet x0 x1 x2 x3 x4 x5 x6 x7 y8 x9 y10 y11 rest)).
  unfold b, v4_packet. rewrite !v4_version. cbn [length Nat.eqb Z.eqb Pos.eqb].
  rewrite !slice_at_ok by (cbn [length]; lia). rewrite !byte_at_ok by (cbn [length]; lia). reflexivity.
Qed.

Lemma v4_icmp_same y8 y10 y11 p : icmpInvokingPacket (v4_packet x0 x1 x2 x3 x4 x5 x6 x7 y8 x9 y10 y11 rest) p = icmpInvokingPacket b p.
Proof.
  destruct v4_length as (k & Hk & Hkl). unfold icmpInvokingPacket. rewrite !ipVersion_ok by (cbn; lia). cbn [mbind outcome_bind].
  fold (version b) (version (v4_packet x0 x1 x2 x3 x4 x5 x6 x7 y8 x9 y10 y11 rest)). unfold b, v4_packet. rewrite !v4_version. cbn [Z.eqb Pos.eqb andb].
  destruct (p =? ipProtoICMP); [|done]. rewrite !uint16_ok by (cbn [length]; lia). cbn [drop take mbind outcome_bind].
  destruct (negb _); [done|]. rewrite !byte_at_ok by (cbn [length]; lia). cbn [mbind outcome_bind lookup_total list_lookup_total]. fold (ihl x0). rewrite Hk.
  rewrite !slice_at_ok by (cbn [length]; lia). cbn [length Nat.add drop]. reflexivity.
Qed.

Lemma v4_total_same y8 y10 y11 : validateIPv4TotalLength (v4_packet x0 x1 x2 x3 x4 x5 x6 x7 y8 x9 y10 y11 rest) = validateIPv4TotalLength b.
Proof. unfold validateIPv4TotalLength. rewrite !uint16_ok by (cbn; lia). reflexivity. Qed.

Lemma v4_forward : 1 < byte_to_Z x8 -> exists c1 c2,
  forward b = Ok (v4_packet x0 x1 x2 x3 x4 x5 x6 x7 (byte_of_Z (byte_to_Z x8 - 1)) x9 c1 c2 rest) /\
  validateIPv4Checksum (v4_packet x0 x1 x2 x3 x4 x5 x6 x7 (byte_of_Z (byte_to_Z x8 - 1)) x9 c1 c2 rest) = Ok tt.
Proof.
  intros H8. destruct v4_length as (k & Hk & Hkl). pose proof (ihl_bound x0) as H60. set (y8 := byte_of_Z (byte_to_Z x8 - 1)).
  assert (Htake : forall y8 y10 y11, take (ihl x0) (v4_packet x0 x1 x2 x3 x4 x5 x6 x7 y8 x9 y10 y11 rest) = v4_packet x0 x1 x2 x3 x4 x5 x6 x7 y8 x9 y10 y11 (take k rest)) by (intros; by rewrite Hk).
  destruct (header_sums x0 x1 x2 x3 x4 x5 x6 x7 y8 x9 x10 x11 (take k rest)) as (w & Hw & Hw0 & Hsum & _ & Hall).
  { rewrite length_take, Nat.min_l by lia. by eapply ihl_even. } { rewrite length_take. lia. }
  assert (Hpos : 0 < get16 [x0; x1]).
  { rewrite get16_two. pose proof (byte_to_Z_range x0). pose proof (byte_to_Z_range x1). rewrite Z.shiftr_div_pow2 in Hv by lia. destruct (Z.eq_dec (byte_to_Z x0) 0) as [E|]; [by rewrite E in Hv|lia]. }
  destruct (fold_sum_ok w ltac:(lia)) as [Hf _]. set (cs := 0xffff - u16 (fold_sum 3 w)).
  assert (Hcs : 0 <= cs < 2 ^ 16) by (unfold cs; rewrite u16_small by lia; lia).
  assert (Hput : put16 cs = [byte_of_Z (Z.shiftr cs 8); byte_of_Z (Z.shiftr cs 0)]) by done. set (c1 := byte_of_Z (Z.shiftr cs 8)) in *. set (c2 := byte_of_Z (Z.shiftr cs 0)) in *.
  assert (Hget : get16 [c1; c2] = cs) by (rewrite <-Hput, <-(app_nil_r (put16 cs)), get16_put16; by apply u16_small).
  exists c1, c2. split.
  - unfold forward. rewrite ipVersion_ok by (cbn; lia). cbn [mbind outcome_bind]. fold (version b). unfold b at 1, v4_packet at 1. rewrite v4_version. cbn [Z.eqb Pos.eqb].
    rewrite (byte_at_ok b 8) by (cbn; lia). cbn [mbind outcome_bind]. change (b !!! 8%nat) with x8. rewrite (proj2 (Z.leb_gt _ 1)) by lia.
    change (decrement 8 b) with (v4_packet x0 x1 x2 x3 x4 x5 x6 x7 y8 x9 x10 x11 rest). rewrite byte_at_ok by (cbn; lia). cbn [mbind outcome_bind].
    change (v4_packet x0 x1 x2 x3 x4 x5 x6 x7 y8 x9 x10 x11 rest !!! 0%nat) with x0. fold (ihl x0). rewrite slice_at_ok by (rewrite Hk; cbn [v4_packet length]; lia). rewrite Nat.sub_0_r. cbn [drop mbind outcome_bind].
    change (drop 0 ?l) with l. rewrite Htake. unfold calculateIPv4Checksum. rewrite Hsum. cbn [mbind outcome_bind]. fold cs. rewrite Hput. reflexivity.
  - unfold validateIPv4Checksum. rewrite byte_at_ok by (cbn; lia). cbn [mbind outcome_bind]. change (v4_packet x0 x1 x2 x3 x4 x5 x6 x7 y8 x9 c1 c2 rest !!! 0%nat) with x0. fold (ihl x0).
    destruct (Nat.ltb_spec (ihl x0) v4_HeaderLen); [unfold v4_HeaderLen in *; lia|]. destruct (Nat.ltb_spec (length (v4_packet x0 x1 x2 x3 x4 x5 x6 x7 y8 x9 c1 c2 rest)) (ihl x0)); [cbn [v4_packet length] in *; lia|].
    cbn [orb]. rewrite Htake. destruct (Hall c1 c2) as [_ ->]. cbn [mbind outcome_bind]. rewrite Hget, Z.add_comm. unfold cs. by rewrite fold_complement by lia.
Qed.
End V4.

(** *** IPv6: the first eight bytes and the others *)

Lemma upper_layer_same b b' : length b = length b' -> drop 8 b = drop 8 b' -> forall fuel next pos, (8 <= pos)%nat -> upper_layer fuel b next pos = upper_layer fuel b' next pos.
Proof.
  intros Hl Hd. assert (Hi : forall i, (8 <= i)%nat -> index b i = index b' i).
  { intros i Hi. unfold index. replace i with (8 + (i - 8))%nat by lia. by rewrite <-!lookup_drop, Hd. }
  assert (Hs : forall lo hi, (8 <= lo)%nat -> sub b lo hi = sub b' lo hi).
  { intros lo hi Hlo. unfold sub. rewrite Hl. replace lo with (8 + (lo - 8))%nat by lia. by rewrite <-!drop_drop, Hd. }
  induction fuel as [|fuel IH]; intros next pos Hp; [done|]. cbn [upper_layer]. rewrite Hl, (Hs pos), (Hi pos), (Hi (pos + 1)%nat) by lia. unfold uint16. rewrite (Hs (pos + 2)%nat) by lia.
  destruct (negb (is_extension next)); [done|]. destruct (_ && _); [done|]. destruct (Nat.ltb_spec (length b') (pos + 8)) as [?|E8]; [done|].
  assert (Hgo : forall h, (if (length b' <? pos + h)%nat then Err errTruncatedExtension else next' ← index b' pos; upper_layer fuel b next' (pos + h)) =
                          (if (length b' <? pos + h)%nat then Err errTruncatedExtension else next' ← index b' pos; upper_layer fuel b' next' (pos + h))).
  { intros h. destruct (length b' <? pos + h)%nat; [done|]. destruct (index b' pos) as [x| |]; [|done..]. cbn [mbind outcome_bind]. apply IH. lia. }
  destruct (next =? ipProtoFragment).
  - destruct (sub b' (pos + 2) _); [|done..]. cbn [fmap outcome_fmap mbind outcome_bind]. destruct (negb _); [done|]. specialize (Hgo 8%nat). by rewrite (proj2 (Nat.ltb_ge _ _) E8) in Hgo.
  - destruct (next =? ipProtoAH); (destruct (index b' (pos + 1)); [|done..]; cbn [mbind outcome_bind]; apply Hgo).
Qed.

Section V6.
Context (x0 x1 x2 x3 x4 x5 x6 x7 : byte) (rest : bytes).
Let b := x0 :: x1 :: x2 :: x3 :: x4 :: x5 :: x6 :: x7 :: rest.
Context (Hv : Z.shiftr (byte_to_Z x0) 4 = 6) (Hrest : (32 <= length rest)%nat).

Lemma v6_upper_same y7 : ipv6UpperLayerProtocol (x0 :: x1 :: x2 :: x3 :: x4 :: x5 :: x6 :: y7 :: rest) = ipv6UpperLayerProtocol b.
Proof.
  unfold ipv6UpperLayerProtocol. rewrite !byte_at_ok by (cbn; lia). cbn [mbind outcome_bind]. change (length b) with (length (x0 :: x1 :: x2 :: x3 :: x4 :: x5 :: x6 :: y7 :: rest)).
  by apply upper_layer_same; [| |unfold v6_HeaderLen; lia].
Qed.

Lemma v6_parse_same y7 : parseTruncatedIPHeader (x0 :: x1 :: x2 :: x3 :: x4 :: x5 :: x6 :: y7 :: rest) = parseTruncatedIPHeader b.
Proof.
  unfold parseTruncatedIPHeader. rewrite v6_upper_same, !ipVersion_ok by (cbn; lia). cbn [mbind outcome_bind]. unfold b. cbn [lookup_total list_lookup_total length Nat.eqb]. rewrite Hv. cbn [Z.eqb Pos.eqb].
  rewrite !slice_at_ok by (cbn [length]; lia). reflexivity.
Qed.

Lemma v6_icmp_same y7 p : icmpInvokingPacket (x0 :: x1 :: x2 :: x3 :: x4 :: x5 :: x6 :: y7 :: rest) p = icmpInvokingPacket b p.
Proof.
  unfold icmpInvokingPacket. rewrite v6_upper_same, !ipVersion_ok by (cbn; lia). cbn [mbind outcome_bind].
  change (b !!! 0%nat) with x0. cbn [lookup_total list_lookup_total]. by rewrite Hv.
Qed.

Lemma v6_payload_same y7 : validateIPv6PayloadLength (x0 :: x1 :: x2 :: x3 :: x4 :: x5 :: x6 :: y7 :: rest) = validateIPv6PayloadLength b.
Proof. unfold validateIPv6PayloadLength. rewrite !uint16_ok by (cbn; lia). reflexivity. Qed.
End V6.

(** *** Rewriting a packet *)

(** The place of the hop count. *)
Definition hops (b : bytes) : nat := if version b =? 4 then 8%nat else 7%nat.

(** What the rewriting leaves alone, and what it changes. *)
Record rewritten (b b' : bytes) : Prop := {
  rw_header : header_ok b';
  rw_parse : parseTruncatedIPHeader b' = parseTruncatedIPHeader b;
  rw_icmp : forall p, icmpInvokingPacket b' p = icmpInvokingPacket b p;
  rw_length : length b' = length b;
  rw_tail : drop 12 b' = drop 12 b;
  rw_version : version b' = version b;
  rw_hops : byte_to_Z (b' !!! hops b) = byte_to_Z (b !!! hops b) - 1 }.

Lemma forward_ok b b' : header_ok b -> forward b = Ok b' -> rewritten b b'.
Proof.
  intros [(Hv & Hl & Hc & Ht)|(Hv & Hl & Hp)] Hf.
  - destruct (v4_shape b Hl) as (x0 & x1 & x2 & x3 & x4 & x5 & x6 & x7 & x8 & x9 & x10 & x11 & rest & -> & Hrest). unfold version in Hv. change (v4_packet x0 x1 x2 x3 x4 x5 x6 x7 x8 x9 x10 x11 rest !!! 0%nat) with x0 in Hv.
    destruct (Z.le_gt_cases (byte_to_Z x8) 1) as [H8|H8].
    { unfold forward in Hf. rewrite ipVersion_ok in Hf by (cbn; lia). cbn [mbind outcome_bind] in Hf. change (v4_packet x0 x1 x2 x3 x4 x5 x6 x7 x8 x9 x10 x11 rest !!! 0%nat) with x0 in Hf. rewrite Hv in Hf. cbn [Z.eqb Pos.eqb] in Hf.
      rewrite (byte_at_ok _ 8) in Hf by (cbn; lia). cbn [mbind outcome_bind] in Hf. change (v4_packet x0 x1 x2 x3 x4 x5 x6 x7 x8 x9 x10 x11 rest !!! 8%nat) with x8 in Hf. by rewrite (proj2 (Z.leb_le _ 1)) in Hf by lia. }
    destruct (v4_forward x0 x1 x2 x3 x4 x5 x6 x7 x8 x9 x10 x11 rest Hv Hrest Hc ltac:(lia)) as (c1 & c2 & Hf' & Hck). rewrite Hf' in Hf. injection Hf as <-.
    split.
    + left. split_and!; [exact Hv|cbn; lia|done|]. by rewrite (v4_total_same x0 x1 x2 x3 x4 x5 x6 x7 x8 x9 x10 x11 rest).
    + by apply v4_parse_same.
    + intros p. by apply v4_icmp_same.
    + done.
    + done.
    + done.
    + unfold hops, version. change (v4_packet x0 x1 x2 x3 x4 x5 x6 x7 x8 x9 x10 x11 rest !!! 0%nat) with x0. rewrite Hv. cbn. rewrite byte_to_of_Z. pose proof (byte_to_Z_range x8). apply Z.mod_small. lia.
  - do 8 (destruct b as [|? b]; [cbn in Hl; lia|]). rename b0 into x0. cbn [length] in Hl. unfold version in Hv. cbn [lookup_total list_lookup_total] in Hv.
    unfold forward in Hf. rewrite ipVersion_ok in Hf by (cbn; lia). cbn [mbind outcome_bind lookup_total list_lookup_total] in Hf. rewrite Hv in Hf. cbn [Z.eqb Pos.eqb] in Hf.
    rewrite byte_at_ok in Hf by (cbn; lia). cbn [mbind outcome_bind lookup_total list_lookup_total] in Hf. destruct (Z.leb_spec (byte_to_Z b7) 1); [done|]. injection Hf as <-. unfold decrement. cbn [alter list_alter].
    split.
    + right. split_and!; [exact Hv|cbn; lia|]. rewrite (v6_payload_same x0 b1 b2 b3 b4 b5 b6 b7 b); [done|lia].
    + apply v6_parse_same; [done|lia].
    + intros p. apply v6_icmp_same; [done|lia].
    + done.
    + done.
    + done.
    + unfold hops, version. cbn [lookup_total list_lookup_total]. rewrite Hv. cbn. rewrite byte_to_of_Z. pose proof (byte_to_Z_range b7). apply Z.mod_small. lia.
Qed.

(** ** Any packet is judged *)

(** What is not a run-time panic. *)
Notation judged r := (r <> Panic).

Lemma upper_layer_judged b : forall fuel next pos, (length b - pos < fuel)%nat -> (pos <= length b)%nat -> judged (upper_layer fuel b next pos).
Proof.
  induction fuel as [|fuel IH]; intros next pos Hf Hp; [lia|]. cbn [upper_layer]. destruct (negb (is_extension next)); [by rewrite slice_at_ok by lia|].
  destruct (_ && _); [done|]. destruct (Nat.ltb_spec (length b) (pos + 8)) as [?|E8]; [done|].
  assert (Hgo : forall h, (8 <= h)%nat -> judged (if (length b <? pos + h)%nat then Err errTruncatedExtension else next' ← index b pos; upper_layer fuel b next' (pos + h))).
  { intros h Hh. destruct (Nat.ltb_spec (length b) (pos + h)) as [?|E]; [done|]. rewrite byte_at_ok by lia. cbn [mbind outcome_bind]. apply IH; lia. }
  pose proof (byte_to_Z_range (b !!! (pos + 1)%nat)). destruct (next =? ipProtoFragment).
  - rewrite uint16_ok by lia. cbn [mbind outcome_bind]. destruct (negb _); [done|]. specialize (Hgo 8%nat ltac:(lia)). by rewrite (proj2 (Nat.ltb_ge _ _) E8) in Hgo.
  - rewrite (byte_at_ok b (pos + 1)) by lia. cbn [mbind outcome_bind]. destruct (next =? ipProtoAH); apply Hgo; lia.
Qed.

Lemma ipv6UpperLayerProtocol_judged b : (40 <= length b)%nat -> judged (ipv6UpperLayerProtocol b).
Proof. intros H. unfold ipv6UpperLayerProtocol. rewrite byte_at_ok by lia. cbn [mbind outcome_bind]. apply upper_layer_judged; unfold v6_HeaderLen; lia. Qed.

Lemma parseTruncatedIPHeader_judged b : judged (parseTruncatedIPHeader b).
Proof.
  unfold parseTruncatedIPHeader. destruct (Nat.eqb_spec (length b) 0); [done|]. rewrite ipVersion_ok by lia. cbn [mbind outcome_bind]. fold (version b). unfold v4_HeaderLen, v6_HeaderLen.
  destruct (version b =? 4); [destruct (Nat.ltb_spec (length b) 20); [done|by rewrite !slice_at_ok, byte_at_ok by lia]|].
  destruct (version b =? 6); [|done]. destruct (Nat.ltb_spec (length b) 40); [done|]. rewrite !slice_at_ok by lia. cbn [mbind outcome_bind].
  pose proof (ipv6UpperLayerProtocol_judged b ltac:(lia)). by destruct (ipv6UpperLayerProtocol b) as [[]| |].
Qed.

Lemma validateIPv4Checksum_judged b : (20 <= length b)%nat -> judged (validateIPv4Checksum b).
Proof.
  intros H. unfold validateIPv4Checksum. rewrite byte_at_ok by lia. cbn [mbind outcome_bind]. fold (ihl (b !!! 0%nat)). unfold v4_HeaderLen. pose proof (ihl_bound (b !!! 0%nat)).
  destruct (Nat.ltb_spec (ihl (b !!! 0%nat)) 20); [done|]. destruct (Nat.ltb_spec (length b) (ihl (b !!! 0%nat))); [done|]. cbn [orb].
  destruct (sum_words_bound None (take (ihl (b !!! 0%nat)) b)) with (i := 0%nat) as (s & -> & _).
  { rewrite length_take, Nat.min_l by lia. exists (Z.to_nat (Z.land (byte_to_Z (b !!! 0%nat)) 15 * 2)). unfold ihl. assert (0 <= Z.land (byte_to_Z (b !!! 0%nat)) 15) by (apply Z.land_nonneg; lia). lia. }
  { rewrite length_take. lia. }
  cbn [mbind outcome_bind]. by destruct (negb _).
Qed.

Lemma parseIPHeader_judged b : judged (parseIPHeader b).
Proof.
  unfold parseIPHeader. destruct (Nat.eqb_spec (length b) 0); [done|]. rewrite ipVersion_ok by lia. cbn [mbind outcome_bind]. fold (version b). unfold v4_HeaderLen, v6_HeaderLen.
  pose proof (parseTruncatedIPHeader_judged b) as Hp. destruct (version b =? 4).
  - destruct (Nat.ltb_spec (length b) 20); [done|]. pose proof (validateIPv4Checksum_judged b ltac:(lia)) as Hc. destruct (validateIPv4Checksum b) as [[]| |]; [|done..]. cbn [mbind outcome_bind].
    unfold validateIPv4TotalLength. rewrite uint16_ok by lia. cbn [mbind outcome_bind]. by destruct (negb _).
  - destruct (version b =? 6); [|exact Hp]. destruct (Nat.ltb_spec (length b) 40); [done|]. unfold validateIPv6PayloadLength. rewrite uint16_ok by lia. cbn [mbind outcome_bind]. by destruct (negb _).
Qed.

Lemma header_ok_ihl b : header_ok b -> version b = 4 -> (20 <= ihl (b !!! 0%nat) <= length b)%nat.
Proof.
  intros [(_ & Hl & Hc & _)|(Hv & _)] H4; [|lia]. unfold validateIPv4Checksum in Hc. rewrite byte_at_ok in Hc by lia. cbn [mbind outcome_bind] in Hc. fold (ihl (b !!! 0%nat)) in Hc. unfold v4_HeaderLen in Hc.
  destruct (Nat.ltb_spec (ihl (b !!! 0%nat)) 20); [done|]. destruct (Nat.ltb_spec (length b) (ihl (b !!! 0%nat))); [done|lia].
Qed.

Lemma header_ok_length b : header_ok b -> (20 <= length b)%nat /\ (version b = 6 -> (40 <= length b)%nat).
Proof. intros [(? & ? & _)|(? & ? & _)]; lia. Qed.

Lemma icmpInvokingPacket_judged b p : header_ok b -> judged (icmpInvokingPacket b p).
Proof.
  intros Hb. destruct (header_ok_length b Hb) as [Hl H6]. unfold icmpInvokingPacket. rewrite ipVersion_ok by lia. cbn [mbind outcome_bind]. fold (version b).
  destruct ((version b =? 4) && (p =? ipProtoICMP)) eqn:E.
  - apply andb_true_iff in E as [E%Z.eqb_eq _]. pose proof (header_ok_ihl b Hb E). rewrite uint16_ok by lia. cbn [mbind outcome_bind]. destruct (negb _); [done|].
    rewrite byte_at_ok by lia. cbn [mbind outcome_bind]. fold (ihl (b !!! 0%nat)). rewrite slice_at_ok by lia. cbn [mbind outcome_bind]. by destruct (take _ _).
  - clear E. destruct ((version b =? 6) && (p =? ipProtoICMPv6)) eqn:E; [|done]. apply andb_true_iff in E as [E%Z.eqb_eq _].
    pose proof (ipv6UpperLayerProtocol_judged b (H6 E)). destruct (ipv6UpperLayerProtocol b) as [[? msg]| |]; [|done..]. by destruct msg.
Qed.

Lemma check_invoking_judged dst i f g : judged (check_invoking dst i f g).
Proof.
  unfold check_invoking. pose proof (parseTruncatedIPHeader_judged i) as H. destruct (parseTruncatedIPHeader i) as [[[a d] p]| |]; [|done..]. cbn [mbind outcome_bind]. unfold guard.
  case_bool_decide; [|done]. cbn [mbind outcome_bind]. by destruct (_ && _).
Qed.

Lemma may_leave_judged c b : judged (may_leave c b).
Proof.
  unfold may_leave. pose proof (parseIPHeader_judged b) as H. destruct (parseIPHeader b) as [[[src dst] p]| |] eqn:E; [|done..]. clear H. cbn [mbind outcome_bind].
  apply parseIPHeader_iff in E as [E _]. pose proof (icmpInvokingPacket_judged b p E) as H. destruct (icmpInvokingPacket b p) as [m| |]; [|done..]. cbn [mbind outcome_bind]. clear H.
  match goal with |- context [mbind ?k ?x] => assert (H : judged x); [|destruct x as [[]| |]; [|done..]] end.
  { destruct m; [apply check_invoking_judged|unfold guard; by destruct (isAllowedSource _ _ _)]. }
  cbn [mbind outcome_bind]. unfold guard. by destruct (isAllowedDestination _ _ _ _).
Qed.

Lemma may_leave_header c b : may_leave c b = Ok tt -> header_ok b.
Proof. unfold may_leave. destruct (parseIPHeader b) as [[[src dst] p]| |] eqn:E; [|done..]. by apply parseIPHeader_iff in E as [E _]. Qed.

Lemma forward_judged b : header_ok b -> judged (forward b).
Proof.
  intros Hb. destruct (header_ok_length b Hb) as [Hl H6]. unfold forward. rewrite ipVersion_ok by lia. cbn [mbind outcome_bind]. fold (version b). destruct (Z.eqb_spec (version b) 4) as [E|_].
  - rewrite (byte_at_ok b 8) by lia. cbn [mbind outcome_bind]. destruct (Z.leb_spec (byte_to_Z (b !!! 8%nat)) 1); [done|].
    destruct Hb as [(Hv & _ & Hc & _)|(Hv & _)]; [|lia]. destruct (v4_shape b Hl) as (x0 & x1 & x2 & x3 & x4 & x5 & x6 & x7 & x8 & x9 & x10 & x11 & rest & -> & Hrest).
    destruct (v4_forward x0 x1 x2 x3 x4 x5 x6 x7 x8 x9 x10 x11 rest Hv Hrest Hc) as (c1 & c2 & Hf & _); [exact H|]. unfold forward in Hf. rewrite ipVersion_ok in Hf by (cbn; lia). cbn [mbind outcome_bind] in Hf. fold (version (v4_packet x0 x1 x2 x3 x4 x5 x6 x7 x8 x9 x10 x11 rest)) in Hf.
    rewrite Hv in Hf. cbn [Z.eqb Pos.eqb] in Hf. rewrite (byte_at_ok _ 8) in Hf by (cbn; lia). cbn [mbind outcome_bind] in Hf. rewrite (proj2 (Z.leb_gt _ 1) H) in Hf. by rewrite Hf.
  - destruct (version b =? 6) eqn:E; [|done]. rewrite byte_at_ok by lia. cbn [mbind outcome_bind]. by destruct (_ <=? 1).
Qed.

Lemma handleIncoming_judged c b : judged (handleIncomingProxiedPacket c b).
Proof.
  unfold handleIncomingProxiedPacket. pose proof (parseIPHeader_judged b) as H. destruct (parseIPHeader b) as [[[src dst] p]| |] eqn:E; [|done..]. clear H. cbn [mbind outcome_bind].
  apply parseIPHeader_iff in E as [E _]. match goal with |- context [mbind ?k ?x] => assert (H : judged x); [|destruct x as [[]| |]; [|done..]] end.
  { destruct (isAllowedSource _ _ _); [done|]. pose proof (icmpInvokingPacket_judged b p E) as H. destruct (icmpInvokingPacket b p) as [[m|]| |]; [|done..]. cbn [mbind outcome_bind]. apply check_invoking_judged. }
  cbn [mbind outcome_bind]. unfold guard. by destruct (isAllowedDestination _ _ _ _).
Qed.

(** ** The two ends *)

(** The ends agree: what one has assigned and advertised, the other knows. *)
Definition mirrored (s r : tunnel) : Prop :=
  peerAddresses r = assignedAddresses s /\ assignedAddresses r = peerAddresses s /\ peerRoutes r = localRoutes s /\ localRoutes r = peerRoutes s.

Lemma check_invoking_ok dst i f g : check_invoking dst i f g = Ok tt <->
  exists src dst' p, parseTruncatedIPHeader i = Ok (src, dst', p) /\ src = dst /\ f src = true /\ g dst' p = true.
Proof.
  unfold check_invoking. destruct (parseTruncatedIPHeader i) as [[[a d] p]| |]; cbn [mbind outcome_bind]; [|split; [done|by intros (? & ? & ? & ? & _)]..]. unfold guard. split.
  - case_bool_decide; [|done]. cbn [mbind outcome_bind]. destruct (f a) eqn:Ef; [|done]. destruct (g d p) eqn:Eg; [|done]. intros _. by exists a, d, p.
  - intros (? & ? & ? & [= <- <- <-] & -> & -> & ->). by rewrite bool_decide_true.
Qed.

Lemma isAllowedSource_more src ps routes : isAllowedSource src ps [] = true -> isAllowedSource src ps routes = true.
Proof. destruct ps as [ps|]; [|done]. cbn. rewrite orb_false_r. by intros ->. Qed.

(** A packet that may leave one end may enter the other, when its source is
    an assigned one or it is an error message. *)
Lemma may_leave_enter s r b b' src dst p : mirrored s r -> parseTruncatedIPHeader b = Ok (src, dst, p) -> icmpInvokingPacket b p <> Ok None \/ isAllowedSource src (assignedAddresses s) [] = true ->
  may_leave s b = Ok tt -> rewritten b b' -> handleIncomingProxiedPacket r b' = Ok tt.
Proof.
  intros (Ea & Eb & Ec & Ed) Hp Hsrc Hl Hr. unfold may_leave in Hl. destruct (parseIPHeader b) as [[[? ?] ?]| |] eqn:E; [|done..]. pose proof E as E'. apply parseIPHeader_iff in E' as [_ Hp']. rewrite Hp in Hp'. injection Hp' as <- <- <-.
  unfold handleIncomingProxiedPacket. assert (parseIPHeader b' = Ok (src, dst, p)) as -> by (apply parseIPHeader_iff; split; [exact (rw_header _ _ Hr)|by rewrite (rw_parse _ _ Hr)]).
  cbn [mbind outcome_bind] in *. destruct (icmpInvokingPacket b p) as [m| |] eqn:Em; [|done..]. cbn [mbind outcome_bind] in Hl. rewrite (rw_icmp _ _ Hr), Em, Ea, Eb, Ec, Ed. cbn [mbind outcome_bind].
  match type of Hl with (mbind _ ?x) = _ => destruct x as [[]| |] eqn:Ex; [|done..] end. cbn [mbind outcome_bind] in Hl. rewrite Hl.
  destruct (isAllowedSource src (assignedAddresses s) []) eqn:Es; [done|]. destruct m as [i|]; [|by destruct Hsrc].
  apply check_invoking_ok in Ex as (a & d & q & Hi & -> & Hf & Hg). assert (check_invoking dst i (fun a => isAllowedSource a (peerAddresses s) (peerRoutes s)) (fun a p => isAllowedDestination a p (assignedAddresses s) (localRoutes s)) = Ok tt) as ->; [|done].
  apply check_invoking_ok. exists dst, d, q. split_and!; [done|done|by apply isAllowedSource_more|done].
Qed.

Section Tunnels.
Context `{QuicVarintLaws}.

Lemma composeDatagram_judged c e b : judged (composeDatagram c e b).
Proof.
  unfold composeDatagram. pose proof (may_leave_judged c b) as Hm. destruct (may_leave c b) as [[]| |] eqn:E; [|done..]. cbn [mbind outcome_bind]. apply may_leave_header in E.
  pose proof (forward_judged b E). by destruct (forward b).
Qed.

Lemma read_datagram_judged c data : judged (read_datagram c data).
Proof.
  unfold read_datagram. destruct (varint_Parse data) as [[id n]|]; [|done]. destruct (negb _); [done|]. pose proof (handleIncoming_judged c (drop n data)). by destruct (handleIncomingProxiedPacket c (drop n data)).
Qed.

Lemma read_datagram_zero c b : read_datagram c (contextIDZero ++ b) = match handleIncomingProxiedPacket c b with Panic => Panic | Err _ => Ok None | Ok _ => Ok (Some b) end.
Proof. unfold read_datagram, contextIDZero. rewrite varint_parse_append by lia. cbn [Z.eqb negb]. by rewrite drop_app_length. Qed.

(** C17: a datagram that one end of a tunnel makes of a packet, the other end,
    which knows the same addresses and routes, takes the packet from: its hop
    count one less, its checksum right, every other field as it was. The
    packet's source must be an assigned address, or the packet an ICMP error
    message; and whatever bytes come, neither end panics. *)
Theorem tunnel_ends_agree s r b data b' src dst p : mirrored s r ->
  composeDatagram s true b = Ok (data, b') -> parseTruncatedIPHeader b = Ok (src, dst, p) ->
  icmpInvokingPacket b p <> Ok None \/ isAllowedSource src (assignedAddresses s) [] = true ->
  read_datagram r data = Ok (Some b') /\ rewritten b b' /\ (forall c x, read_datagram c x <> Panic /\ composeDatagram c true x <> Panic).
Proof.
  intros Hm Hc Hp Hs. unfold composeDatagram in Hc. destruct (may_leave s b) as [[]| |] eqn:El; [|done..]. cbn [mbind outcome_bind] in Hc.
  destruct (forward b) as [f| |] eqn:Ef; [|done..]. cbn [mbind outcome_bind] in Hc. injection Hc as <- <-.
  pose proof (forward_ok b f (may_leave_header _ _ El) Ef) as Hr. rewrite read_datagram_zero, (may_leave_enter s r b f src dst p Hm Hp Hs El Hr).
  split_and!; [done|done|]. intros c x. split; [apply read_datagram_judged|apply composeDatagram_judged].
Qed.
End Tunnels.

(** From 10.0.0.2 to 192.168.1.1, in both directions of knowing. *)
Definition sample_packet : bytes :=
  [x45; x00; x00; x1c; x00; x00; x00; x00; x40; x11; xaf; x26; x0a; x00; x00; x02; xc0; xa8; x01; x01; x30; x39; x00; x35; x00; x08; x00; x00].
Definition sample_route (v : Z) : IPRoute := {| StartIP := Addr4 v; EndIP := Addr4 v; IPProtocol := 0 |}.
Definition sample_sender : tunnel := {|
  peerAddresses := Some []; localRoutes := []; assignedAddresses := Some [{| p_Addr := Addr4 0x0a000002; p_Bits := 32 |}]; peerRoutes := [sample_route 0xc0a80101] |}.
Definition other_end (s : tunnel) : tunnel := {|
  peerAddresses := assignedAddresses s; localRoutes := peerRoutes s; assignedAddresses := peerAddresses s; peerRoutes := localRoutes s |}.

Lemma other_end_mirrored s : mirrored s (other_end s).
Proof. done. Qed.

(** What is sent for the sample. *)
Definition sent (s : tunnel) : bytes * bytes := match composeDatagram s true sample_packet with Ok r => r | _ => ([], []) end.

Lemma tunnel_ends_agree_witness : read_datagram (other_end sample_sender) (fst (sent sample_sender)) = Ok (Some (snd (sent sample_sender))).
Proof.
  refine (proj1 (tunnel_ends_agree sample_sender (other_end sample_sender) sample_packet (fst (sent sample_sender)) (snd (sent sample_sender)) (Addr4 0x0a000002) (Addr4 0xc0a80101) 17 _ _ _ _)).
  - apply other_end_mirrored.
  - vm_compute. reflexivity.
  - vm_compute. reflexivity.
  - right. vm_compute. reflexivity.
Defined.

(** The source of a packet may be one of the end's own routes when it leaves,
    but not when it comes: the network behind an end can be sent to and cannot
    answer. *)
Definition gateway : tunnel := {|
  peerAddresses := Some [{| p_Addr := Addr4 0xc0a80101; p_Bits := 32 |}]; localRoutes := [sample_route 0x0a000002]; assignedAddresses := Some []; peerRoutes := [] |}.

Lemma routed_source_refused :
  read_datagram (other_end gateway) (fst (sent gateway)) = Ok None /\
  handleIncomingProxiedPacket (other_end gateway) (snd (sent gateway)) = Err errSource /\ fst (sent gateway) <> [].
Proof. split_and!; [vm_compute; reflexivity..|vm_compute; discriminate]. Qed.
