(* ===== verification/ConnectIpConn.v ===== *)
(** * A connection of CONNECT-IP, [proxy/masque/internal/connectip/conn.go]

    What an end keeps of assigned addresses and advertised routes, the
    capsules that it queues for its peer and those that it takes from the
    stream. The goroutines that read and write the stream are taken turn by
    turn; the stream itself and its deadlines are not here. *)

From S2P Require Import Prelude Net NetIp ConnectIp Capsule ConnectIpFacts ConnectIpRoutes ConnectIpPackets ConnectIpPacketsFacts.
Local Open Scope Z_scope.

(** src/proxy/masque/internal/connectip/conn.go:72-75 streamWrite *)
Inductive streamWrite := Data (b : bytes) | Fin.

(** [CloseError]: by the peer or by this end.
    src/proxy/masque/internal/connectip/conn.go:32-34 CloseError *)
Inductive close_cause := Remote | Local.

(** The channel [writeNotify], of one place. *)
Inductive notify_chan := Quiet | Notified | ClosedChan.

(** [stopped] is the cause with which the context was cancelled, [aborted]
    whether the stream's two directions were, with an error.
    src/proxy/masque/internal/connectip/conn.go:77-102 Conn *)
Record Conn := {
  enableDatagrams : bool;
  datagrams : list bytes;
  writeNotify : notify_chan;
  assignedAddressUpdates : list (list AssignedAddress);
  addressRequests : list addressRequestCapsule;
  availableRouteUpdates : option (list IPRoute);
  queuedWrites : list streamWrite;
  view : tunnel;
  lastAddressRequestID : Z;
  stopped : option close_cause;
  aborted : bool }.

(** src/proxy/masque/internal/connectip/conn.go:64-68 maxQueuedCapsules *)
Definition maxQueuedCapsules : nat := 128.
(** src/proxy/masque/internal/connectip/conn.go:66-66 maxQueuedDatagrams *)
Definition maxQueuedDatagrams : nat := 128.
(** src/proxy/masque/internal/connectip/conn.go:67-67 maxCapsulePacketSize *)
Definition maxCapsulePacketSize : Z := 2 ^ 16 - 1.

(** src/proxy/masque/internal/connectip/conn.go:104-121 newProxiedConn *)
Definition newProxiedConn (enable : bool) : Conn := {|
  enableDatagrams := enable; datagrams := []; writeNotify := Quiet; assignedAddressUpdates := []; addressRequests := []; availableRouteUpdates := None;
  queuedWrites := []; view := {| peerAddresses := None; localRoutes := []; assignedAddresses := None; peerRoutes := [] |};
  lastAddressRequestID := 0; stopped := None; aborted := false |}.

(** ** Updating fields *)

Definition with_queue (ws : list streamWrite) (n : notify_chan) (c : Conn) : Conn := {|
  enableDatagrams := enableDatagrams c; datagrams := datagrams c; writeNotify := n; assignedAddressUpdates := assignedAddressUpdates c; addressRequests := addressRequests c;
  availableRouteUpdates := availableRouteUpdates c; queuedWrites := ws; view := view c; lastAddressRequestID := lastAddressRequestID c; stopped := stopped c; aborted := aborted c |}.
Definition with_view (v : tunnel) (c : Conn) : Conn := {|
  enableDatagrams := enableDatagrams c; datagrams := datagrams c; writeNotify := writeNotify c; assignedAddressUpdates := assignedAddressUpdates c; addressRequests := addressRequests c;
  availableRouteUpdates := availableRouteUpdates c; queuedWrites := queuedWrites c; view := v; lastAddressRequestID := lastAddressRequestID c; stopped := stopped c; aborted := aborted c |}.
Definition with_id (id : Z) (c : Conn) : Conn := {|
  enableDatagrams := enableDatagrams c; datagrams := datagrams c; writeNotify := writeNotify c; assignedAddressUpdates := assignedAddressUpdates c; addressRequests := addressRequests c;
  availableRouteUpdates := availableRouteUpdates c; queuedWrites := queuedWrites c; view := view c; lastAddressRequestID := id; stopped := stopped c; aborted := aborted c |}.
Definition with_received (d : list bytes) (a : list (list AssignedAddress)) (r : list addressRequestCapsule) (u : option (list IPRoute)) (c : Conn) : Conn := {|
  enableDatagrams := enableDatagrams c; datagrams := d; writeNotify := writeNotify c; assignedAddressUpdates := a; addressRequests := r;
  availableRouteUpdates := u; queuedWrites := queuedWrites c; view := view c; lastAddressRequestID := lastAddressRequestID c; stopped := stopped c; aborted := aborted c |}.
Definition with_stopped (s : close_cause) (a : bool) (c : Conn) : Conn := {|
  enableDatagrams := enableDatagrams c; datagrams := datagrams c; writeNotify := writeNotify c; assignedAddressUpdates := assignedAddressUpdates c; addressRequests := addressRequests c;
  availableRouteUpdates := availableRouteUpdates c; queuedWrites := queuedWrites c; view := view c; lastAddressRequestID := lastAddressRequestID c; stopped := Some s; aborted := a || aborted c |}.

Definition set_localRoutes (l : list IPRoute) (v : tunnel) : tunnel := {| peerAddresses := peerAddresses v; localRoutes := l; assignedAddresses := assignedAddresses v; peerRoutes := peerRoutes v |}.
Definition set_peerAddresses (l : list Prefix) (v : tunnel) : tunnel := {| peerAddresses := Some l; localRoutes := localRoutes v; assignedAddresses := assignedAddresses v; peerRoutes := peerRoutes v |}.
Definition set_assignedAddresses (l : list Prefix) (v : tunnel) : tunnel := {| peerAddresses := peerAddresses v; localRoutes := localRoutes v; assignedAddresses := Some l; peerRoutes := peerRoutes v |}.
Definition set_peerRoutes (l : list IPRoute) (v : tunnel) : tunnel := {| peerAddresses := peerAddresses v; localRoutes := localRoutes v; assignedAddresses := assignedAddresses v; peerRoutes := l |}.

(** ** Writing *)

(** Why an operation fails. *)
Inductive conn_error :=
  | errInvalidRoutes (e : capsule_error) | errNoPrefix | errInvalidPrefix | errClosed (cause : close_cause) | errQueueFull
  | errAnswers | errAnswered | errCapsule (e : capsule_error) | errCapsuleLimit.

(** Closing a closed channel panics. *)
Definition close_notify (c : Conn) : option Conn := match writeNotify c with ClosedChan => None | _ => Some (with_queue (queuedWrites c) ClosedChan c) end.

(** [None] is a panic; a write is queued, or there is no room and the
    connection is aborted.
    src/proxy/masque/internal/connectip/conn.go Conn.queueWrite *)
Definition queueWrite (c : Conn) (w : streamWrite) : option (Conn * bool) :=
  let enqueue := match writeNotify c with
                 | ClosedChan => None
                 | _ => Some (with_queue (queuedWrites c ++ [w]) Notified c, true)
                 end in
  match w with
  | Fin => enqueue
  | Data _ =>
      if (maxQueuedCapsules <=? length (queuedWrites c))%nat then c ← close_notify (with_stopped Local true c); Some (c, false)
      else enqueue
  end.

(** What an operation leaves and gives back; [None] is a panic. *)
Definition answer (A : Type) : Type := option (Conn * (conn_error + A)).
Definition refuse {A} (c : Conn) (e : conn_error) : answer A := Some (c, inl e).

(** A capsule is queued, unless the context is done; the connection changes
    when there was room.
    src/proxy/masque/internal/connectip/conn.go:159-174 Conn.AdvertiseRoute *)
Definition queue_capsule {A} (c : Conn) (data : bytes) (change : Conn -> Conn) (a : A) : answer A :=
  match stopped c with
  | Some cause => refuse c (errClosed cause)
  | None =>
      match queueWrite c (Data data) with
      | None => None
      | Some (c, ok) => if ok then Some (change c, inr a) else refuse c errQueueFull
      end
  end.

(** [!p.IsValid() || p != p.Masked()]. *)
Definition bad_prefix (p : Prefix) : bool := negb (prefix_IsValid p) || negb (bool_decide (p = Masked p)).

(** The prefixes that were not rejected.
    src/proxy/masque/internal/connectip/conn.go:260-265 Conn.sendAddressAssignment *)
Definition accepted (l : list AssignedAddress) : list Prefix := IPPrefix <$> filter (fun a => Rejected a = false) l.

Section Conn.
Context `{QuicVarint}.

(** src/proxy/masque/internal/connectip/conn.go Conn.AdvertiseRoute *)
Definition AdvertiseRoute (c : Conn) (routes : list IPRoute) : answer unit :=
  match validateRouteAdvertisement routes with
  | Panic => None
  | Err e => refuse c (errInvalidRoutes e)
  | Ok _ => queue_capsule c (append_routes routes []) (fun c => with_view (set_localRoutes routes (view c)) c) tt
  end.

(** src/proxy/masque/internal/connectip/conn.go Conn.RequestAddresses *)
Definition RequestAddresses (c : Conn) (prefixes : list Prefix) : answer (list Z) :=
  if (length prefixes =? 0)%nat then refuse c errNoPrefix
  else if existsb bad_prefix prefixes then refuse c errInvalidPrefix
  else
    let ids := (fun i => u64 (lastAddressRequestID c + Z.of_nat i + 1)) <$> seq 0 (length prefixes) in
    queue_capsule c (append_request {| RequestIDs := ids; Prefixes := prefixes |} []) (with_id (List.last ids 0)) ids.

(** src/proxy/masque/internal/connectip/conn.go Conn.sendAddressAssignment *)
Definition sendAddressAssignment (c : Conn) (l : list AssignedAddress) : answer unit :=
  if existsb (fun a => bad_prefix (IPPrefix a)) l then refuse c errInvalidPrefix
  else queue_capsule c (append_assign l []) (fun c => with_view (set_peerAddresses (accepted l) (view c)) c) tt.

(** *** Answering a request *)

(** src/proxy/masque/internal/connectip/address.go:30-36 AddressRequest *)
Record AddressRequest := { requested : addressRequestCapsule; responded : bool }.

(** [None] is an index out of range.
    src/proxy/masque/internal/connectip/address.go:63-77 AddressRequest.Respond *)
Fixpoint answers (ids : list Z) (asked assignments : list Prefix) : option (conn_error + list AssignedAddress) :=
  match assignments with
  | [] => Some (inr [])
  | p :: assignments' =>
      match ids with
      | [] => None
      | id :: ids' =>
          p ← (if decide (p = zeroPrefix) then match asked with [] => None | q :: _ => Some (inr (if Is4 (p_Addr q) then rejectedIPv4Prefix else rejectedIPv6Prefix)) end
               else if bad_prefix p then Some (inl errInvalidPrefix) else Some (inr p));
          match p with
          | inl e => Some (inl e)
          | inr p =>
              rest ← answers ids' (List.tl asked) assignments';
              Some (match rest with inl e => inl e | inr l => inr ({| RequestID := id; IPPrefix := p |} :: l) end)
          end
      end
  end.

(** The request is marked while its answer is sent, and again open when that
    fails; the request's mark afterwards comes with the answer.
    src/proxy/masque/internal/connectip/address.go AddressRequest.Respond *)
Definition Respond (c : Conn) (r : AddressRequest) (assignments additional : list Prefix) : option (Conn * AddressRequest * (conn_error + unit)) :=
  if negb (length assignments =? length (RequestIDs (requested r)))%nat then Some (c, r, inl errAnswers)
  else
    l ← answers (RequestIDs (requested r)) (Prefixes (requested r)) assignments;
    match l with
    | inl e => Some (c, r, inl e)
    | inr l =>
        if existsb bad_prefix additional then Some (c, r, inl errInvalidPrefix)
        else if responded r then Some (c, r, inl errAnswered)
        else
          match sendAddressAssignment c (l ++ ((fun p => {| RequestID := 0; IPPrefix := p |}) <$> additional)) with
          | None => None
          | Some (c, res) => Some (c, {| requested := requested r; responded := match res with inl _ => false | inr _ => true end |}, res)
          end
    end.

(** ** Reading *)

(** [Discard]. *)
Definition Discard (r : CapsuleReader) : option capsule_error := if 0 <? lacking r then Some errRead else None.

(** What a turn of the reading loop does: it goes on, ends with an error, or
    waits for room. *)
Inductive read_turn := Next | Ends (e : conn_error) | Waits.
Definition after_discard (c : Conn) (r : CapsuleReader) : Conn * read_turn := (c, match Discard r with None => Next | Some e => Ends (errCapsule e) end).

(** src/proxy/masque/internal/connectip/conn.go Conn.queueDatagram *)
Definition queueDatagram (c : Conn) (r : CapsuleReader) : Conn * read_turn :=
  if Remaining r >? Z.of_nat (length contextIDZero) + maxCapsulePacketSize then after_discard c r
  else if 0 <? lacking r then (c, Ends (errCapsule errRead))
  else if (length (datagrams c) <? maxQueuedDatagrams)%nat then
    (with_received (datagrams c ++ [available r]) (assignedAddressUpdates c) (addressRequests c) (availableRouteUpdates c) c, Next)
  else match stopped c with Some cause => (c, Ends (errClosed cause)) | None => (c, Waits) end.

(** A result of a parser that is an error ends the loop. A full queue does,
    too, after the addresses have changed.
    src/proxy/masque/internal/connectip/conn.go:314-377 Conn.readFromStream *)
Definition read_capsule (c : Conn) (t : Z) (r : CapsuleReader) : option (Conn * read_turn) :=
  let parsed {A} (o : outcome capsule_error A) (k : A -> Conn * read_turn) : option (Conn * read_turn) :=
    match o with Panic => None | Err e => Some (c, Ends (errCapsule e)) | Ok a => Some (k a) end in
  if t =? capsuleTypeAddressAssign then
    parsed (parseAddressAssignCapsule r) (fun l =>
      let c := with_view (set_assignedAddresses (accepted l) (view c)) c in
      if (length (assignedAddressUpdates c) <? maxQueuedCapsules)%nat
      then (with_received (datagrams c) (assignedAddressUpdates c ++ [l]) (addressRequests c) (availableRouteUpdates c) c, Next)
      else (c, Ends errCapsuleLimit))
  else if t =? capsuleTypeAddressRequest then
    parsed (parseAddressRequestCapsule r) (fun q =>
      if (length (addressRequests c) <? maxQueuedCapsules)%nat
      then (with_received (datagrams c) (assignedAddressUpdates c) (addressRequests c ++ [q]) (availableRouteUpdates c) c, Next)
      else (c, Ends errCapsuleLimit))
  else if t =? capsuleTypeRouteAdvertisement then
    parsed (parseRouteAdvertisementCapsule r) (fun l =>
      let c := with_view (set_peerRoutes l (view c)) c in
      (with_received (datagrams c) (assignedAddressUpdates c) (addressRequests c) (Some l) c, Next))
  else if t =? capsuleTypeDatagram then Some (if negb (enableDatagrams c) then queueDatagram c r else after_discard c r)
  else Some (after_discard c r).

(** The reading goroutine after its loop, which ended with an error or with
    the stream.
    src/proxy/masque/internal/connectip/conn.go:122-133 newProxiedConn *)
Definition reader_done (c : Conn) (failed : bool) : option Conn :=
  match stopped c with
  | Some _ => Some c
  | None => if failed then close_notify (with_stopped Remote true c) else fst <$> queueWrite (with_stopped Remote false c) Fin
  end.

(** ** The writing goroutine *)

(** What it takes next, for good: a capsule whose write then fails is lost.
    src/proxy/masque/internal/connectip/conn.go:383-391 Conn.writeToStream *)
Definition next_write (c : Conn) : option (streamWrite * Conn) :=
  match queuedWrites c with [] => None | w :: ws => Some (w, with_queue ws (writeNotify c) c) end.

(** What becomes of the connection when a write failed.
    src/proxy/masque/internal/connectip/conn.go:137-147 newProxiedConn *)
Definition writer_failed (c : Conn) : Conn := match stopped c with None => with_stopped Remote true c | Some _ => c end.

(** The part of [Close] under the mutex.
    src/proxy/masque/internal/connectip/conn.go:601-606 Conn.Close *)
Definition Close (c : Conn) : option Conn :=
  match stopped c with Some _ => Some c | None => fst <$> queueWrite (with_stopped Local false c) Fin end.

(** ** What was received *)

(** An answer that is there, none yet, or the cause of the end.
    src/proxy/masque/internal/connectip/conn.go Conn.ReceiveAddressAssignment *)
Definition ReceiveAddressAssignment (c : Conn) : Conn * option (conn_error + list AssignedAddress) :=
  match assignedAddressUpdates c with
  | l :: ls => (with_received (datagrams c) ls (addressRequests c) (availableRouteUpdates c) c, Some (inr l))
  | [] => (c, (fun s => inl (errClosed s)) <$> stopped c)
  end.

(** src/proxy/masque/internal/connectip/conn.go Conn.ReceiveAddressRequest *)
Definition ReceiveAddressRequest (c : Conn) : Conn * option (conn_error + AddressRequest) :=
  match addressRequests c with
  | q :: qs => (with_received (datagrams c) (assignedAddressUpdates c) qs (availableRouteUpdates c) c, Some (inr {| requested := q; responded := false |}))
  | [] => (c, (fun s => inl (errClosed s)) <$> stopped c)
  end.

(** When both are there, the end of the connection may win over the routes.
    src/proxy/masque/internal/connectip/conn.go Conn.Routes *)
Definition ReceiveRoutes (c : Conn) (closed_first : bool) : Conn * option (conn_error + list IPRoute) :=
  match availableRouteUpdates c, stopped c with
  | _, Some s => if closed_first then (c, Some (inl (errClosed s))) else
      match availableRouteUpdates c with
      | None => (c, Some (inl (errClosed s)))
      | Some l => (with_received (datagrams c) (assignedAddressUpdates c) (addressRequests c) None c, Some (inr l))
      end
  | Some l, None => (with_received (datagrams c) (assignedAddressUpdates c) (addressRequests c) None c, Some (inr l))
  | None, None => (c, None)
  end.
End Conn.

(** * What the operations of a CONNECT-IP connection tell the peer *)

(** ** Capsules that are read back *)

(** What comes back is what was written, however much it was. *)
Lemma assign_loop_same `{QuicVarintLaws} l : forall fuel acc l', Forall assigned_ok l ->
  assign_loop fuel acc (reader (concat ((fun a => append_address (RequestID a) (IPPrefix a)) <$> l)) 0) = Ok l' -> l' = acc ++ l.
Proof.
  induction l as [|a l IH]; intros fuel acc l' Hok E.
  - destruct fuel; cbn [fmap list_fmap concat assign_loop] in E; injection E as <-; by rewrite app_nil_r.
  - apply Forall_cons in Hok as [[Hid Hp] Hok]. cbn [fmap list_fmap concat] in E. pose proof (append_address_pos (RequestID a) (IPPrefix a)).
    assert (Hrem : (Remaining (reader (append_address (RequestID a) (IPPrefix a) ++ concat ((fun a => append_address (RequestID a) (IPPrefix a)) <$> l)) 0) <=? 0) = false)
      by (unfold Remaining; cbn [available lacking reader]; rewrite length_app; apply Z.leb_gt; lia).
    destruct fuel as [|fuel]; cbn [assign_loop] in E; rewrite Hrem in E; [done|]. destruct (_ <=? _)%nat; [done|].
    rewrite parseAddress_append in E by done. cbn [mbind outcome_bind] in E. apply IH in E; [|done]. rewrite E, <-app_assoc. by destruct a.
Qed.

Lemma route_loop_same l : forall fuel acc l', Forall route_ok l -> route_loop fuel acc (reader (concat (append_route <$> l)) 0) = Ok l' -> l' = acc ++ l.
Proof.
  induction l as [|a l IH]; intros fuel acc l' Hok E.
  - destruct fuel; cbn [fmap list_fmap concat route_loop] in E; injection E as <-; by rewrite app_nil_r.
  - apply Forall_cons in Hok as [Ha Hok]. cbn [fmap list_fmap concat] in E. pose proof (append_route_pos a).
    assert (Hrem : (Remaining (reader (append_route a ++ concat (append_route <$> l)) 0) <=? 0) = false)
      by (unfold Remaining; cbn [available lacking reader]; rewrite length_app; apply Z.leb_gt; lia).
    destruct fuel as [|fuel]; cbn [route_loop] in E; rewrite Hrem in E; [done|]. destruct (_ <=? _)%nat; [done|].
    rewrite parse_append_route in E by done. cbn [mbind outcome_bind] in E. apply IH in E; [|done]. by rewrite E, <-app_assoc.
Qed.

(** ** Prefixes *)

(** What a value of the type [netip.Prefix] is. *)
Definition prefix_typed (p : Prefix) : Prop := p_Bits p = -1 \/ addr_ok (p_Addr p) /\ 0 <= p_Bits p <= BitLen (p_Addr p).

Lemma good_prefix p : prefix_typed p -> bad_prefix p = false -> prefix_ok p.
Proof.
  intros Ht Hb. unfold bad_prefix, prefix_IsValid in Hb. apply orb_false_iff in Hb as [Hv%negb_false_iff%Z.leb_le Hm%negb_false_iff%bool_decide_eq_true]. destruct Ht as [|[Ha Hn]]; [lia|].
  by apply masked_ok.
Qed.

Lemma good_prefixes ps : Forall prefix_typed ps -> existsb bad_prefix ps = false -> Forall prefix_ok ps.
Proof.
  induction ps as [|p ps IH]; [by intros; apply Forall_nil|]. intros [Hp Hps]%Forall_cons E. cbn in E. apply orb_false_iff in E as [E1 E2]. apply Forall_cons. split; [by apply good_prefix|by apply IH].
Qed.

Lemma rejected_ok (b : bool) : prefix_ok (if b then rejectedIPv4Prefix else rejectedIPv6Prefix).
Proof. destruct b; split_and!; cbn; try lia; try done; apply Z.divide_0_r. Qed.

(** ** What one end tells and the other hears *)

(** What an end knows from its peer, and what the peer ought to know. *)
Definition heard (v : tunnel) : option (list Prefix) * list IPRoute := (assignedAddresses v, peerRoutes v).
Definition told (v : tunnel) : option (list Prefix) * list IPRoute := (peerAddresses v, localRoutes v).

Inductive message := Assigns (l : list AssignedAddress) | Requests (q : addressRequestCapsule) | Routes (l : list IPRoute) | Packet (data : bytes).

Definition hear (k : option (list Prefix) * list IPRoute) (m : message) : option (list Prefix) * list IPRoute :=
  match m with Assigns l => (Some (accepted l), snd k) | Routes l => (fst k, l) | _ => k end.

Section Messages.
Context `{QuicVarintLaws}.

Definition encode (m : message) : bytes :=
  match m with Assigns l => append_assign l [] | Requests q => append_request q [] | Routes l => append_routes l [] | Packet d => capsule capsuleTypeDatagram d end.

Definition kind (m : message) : Z :=
  match m with Assigns _ => capsuleTypeAddressAssign | Requests _ => capsuleTypeAddressRequest | Routes _ => capsuleTypeRouteAdvertisement | Packet _ => capsuleTypeDatagram end.

Definition payload (m : message) : bytes :=
  match m with
  | Assigns l => concat ((fun a => append_address (RequestID a) (IPPrefix a)) <$> l)
  | Requests q => concat ((fun '(id, p) => append_address id p) <$> zip (RequestIDs q) (Prefixes q))
  | Routes l => concat (append_route <$> l)
  | Packet d => d
  end.

(** What the operations put into a capsule, whose length a varint can say. *)
Definition message_ok (m : message) : Prop :=
  match m with
  | Assigns l => Forall assigned_ok l
  | Requests q => Forall (fun id => 0 < id < 2 ^ 62) (RequestIDs q) /\ Forall prefix_ok (Prefixes q)
  | Routes l => Forall route_ok l
  | Packet _ => True
  end.

Lemma encode_capsule m : message_ok m -> encode m = capsule (kind m) (payload m).
Proof.
  destruct m as [l|q|l|d]; cbn [message_ok]; [apply append_assign_capsule| |apply append_routes_capsule|done].
  intros [Hids Hps]. by apply append_request_capsule.
Qed.

(** The parser sees what was sent. *)
Lemma read_capsule_hears c m c' t : message_ok m -> read_capsule c (kind m) (reader (payload m) 0) = Some (c', t) ->
  told (view c') = told (view c) /\ queuedWrites c' = queuedWrites c /\ (t = Next -> heard (view c') = hear (heard (view c)) m).
Proof.
  intros Hm E. destruct m as [l|q|l|d]; unfold read_capsule in E; cbn [kind payload message_ok] in *.
  - cbn [Z.eqb Pos.eqb capsuleTypeAddressAssign] in E. destruct (parseAddressAssignCapsule _) as [l'| |] eqn:Ep; [|injection E as <- <-; by split_and!|done].
    unfold parseAddressAssignCapsule in Ep. apply assign_loop_same in Ep; [|done]. cbn [app] in Ep. subst l'. destruct (_ <? _)%nat; injection E as <- <-; by split_and!.
  - cbn [Z.eqb Pos.eqb capsuleTypeAddressAssign capsuleTypeAddressRequest] in E. destruct (parseAddressRequestCapsule _) as [q'| |] eqn:Ep; [|injection E as <- <-; by split_and!|done].
    destruct (_ <? _)%nat; injection E as <- <-; by split_and!.
  - cbn [Z.eqb Pos.eqb capsuleTypeAddressAssign capsuleTypeAddressRequest capsuleTypeRouteAdvertisement] in E. destruct (parseRouteAdvertisementCapsule _) as [l'| |] eqn:Ep; [|injection E as <- <-; by split_and!|done].
    unfold parseRouteAdvertisementCapsule in Ep. apply outcome_bind_ok in Ep as (l2 & Ep & Hv). apply outcome_bind_ok in Hv as ([] & _ & [= <-]). apply route_loop_same in Ep; [|done]. cbn [app] in Ep. subst l2.
    injection E as <- <-. by split_and!.
  - cbn [Z.eqb Pos.eqb capsuleTypeAddressAssign capsuleTypeAddressRequest capsuleTypeRouteAdvertisement capsuleTypeDatagram] in E. injection E as E. unfold queueDatagram, after_discard in E.
    repeat case_match; simplify_eq; by split_and!.
Qed.
End Messages.

(** ** One end *)

(** The channel is closed only when the context is done, and the requests that
    wait were checked. *)
Record conn_ok (c : Conn) : Prop := {
  co_notify : writeNotify c = ClosedChan -> stopped c <> None;
  co_requests : Forall request_ok (addressRequests c);
  co_id : 0 <= lastAddressRequestID c }.

(** The capsules that are queued. *)
Definition datas (ws : list streamWrite) : list bytes := omap (fun w => match w with Data d => Some d | Fin => None end) ws.

(** What an operation does for the peer: nothing, or one message is queued
    that tells the peer what this end then knows of it. *)
Definition tells `{QuicVarint} (c c' : Conn) : Prop :=
  heard (view c') = heard (view c) /\
  (told (view c') = told (view c) /\ datas (queuedWrites c') = datas (queuedWrites c) \/
   exists m, message_ok m /\ told (view c') = hear (told (view c)) m /\ datas (queuedWrites c') = datas (queuedWrites c) ++ [encode m]).

Lemma queueWrite_ok c w : conn_ok c -> stopped c = None -> exists c' ok, queueWrite c w = Some (c', ok) /\ conn_ok c' /\ view c' = view c /\
  addressRequests c' = addressRequests c /\ lastAddressRequestID c' = lastAddressRequestID c /\
  datas (queuedWrites c') = datas (queuedWrites c) ++ (if ok then datas [w] else []).
Proof.
  intros [Hn Hr Hi] Hs. assert (Hne : writeNotify c <> ClosedChan) by (intros E; by apply Hn). unfold queueWrite.
  destruct w as [d|]; [destruct (_ <=? _)%nat|].
  - unfold close_notify. cbn [writeNotify with_stopped]. exists (with_queue (queuedWrites c) ClosedChan (with_stopped Local true c)), false. split_and!; [by destruct (writeNotify c)|by split|done..|by rewrite app_nil_r].
  - exists (with_queue (queuedWrites c ++ [Data d]) Notified c), true. split_and!; [by destruct (writeNotify c)|by split|done..|]. by unfold datas; cbn [queuedWrites with_queue]; rewrite omap_app.
  - exists (with_queue (queuedWrites c ++ [Fin]) Notified c), true. split_and!; [by destruct (writeNotify c)|by split|done..|]. by unfold datas; cbn [queuedWrites with_queue]; rewrite omap_app.
Qed.

Lemma last_nonneg l : Forall (fun id => 0 <= id) l -> 0 <= List.last l 0.
Proof. induction 1 as [|x l Hx Hl IH]; [done|]. destruct l; [exact Hx|exact IH]. Qed.

Section End.
Context `{QuicVarintLaws}.

(** The operations that queue a capsule and change the connection when it was
    queued. *)
Lemma queue_capsule_ok {A} c m change (a : A) : conn_ok c -> message_ok m ->
  (forall c, conn_ok c -> conn_ok (change c) /\ heard (view (change c)) = heard (view c) /\ told (view (change c)) = hear (told (view c)) m /\ queuedWrites (change c) = queuedWrites c) ->
  exists c' r, queue_capsule c (encode m) change a = Some (c', r) /\ conn_ok c' /\ tells c c'.
Proof.
  intros Hc Hm Hch. unfold queue_capsule. destruct (stopped c) as [s|] eqn:Es; [do 2 eexists; split; [done|]; split; [done|]; split; [done|by left]|].
  destruct (queueWrite_ok c (Data (encode m)) Hc Es) as (c' & ok & -> & Hc' & Hv & _ & _ & Hd). destruct ok.
  - destruct (Hch c' Hc') as (Hok & Hh & Ht & Hq). do 2 eexists. split; [done|]. split; [done|]. split; [by rewrite Hh, Hv|]. right. exists m. by rewrite Ht, Hq, Hv, Hd.
  - do 2 eexists. split; [done|]. split; [done|]. split; [by rewrite Hv|]. left. by rewrite Hv, Hd, app_nil_r.
Qed.

Lemma tells_same c c' : view c' = view c -> datas (queuedWrites c') = datas (queuedWrites c) -> tells c c'.
Proof. intros Ev Ed. split; [by rewrite Ev|left; by rewrite Ev]. Qed.

Lemma AdvertiseRoute_ok c routes : conn_ok c -> Forall route_typed routes -> exists c' r, AdvertiseRoute c routes = Some (c', r) /\ conn_ok c' /\ tells c c'.
Proof.
  intros Hc Ht. unfold AdvertiseRoute. pose proof (validate_no_panic routes). destruct (validateRouteAdvertisement routes) as [[]|e|] eqn:E; [|by do 2 eexists; split; [|split; [|by apply tells_same]]|done].
  apply (queue_capsule_ok c (Routes routes)); [done| |].
  - unfold validateRouteAdvertisement in E. apply outcome_bind_ok in E as ([] & E & _). apply (check_routes_ok routes Ht) in E. eapply Forall_impl; [exact E|]. by intros r [].
  - intros c0 Hc0. split_and!; [by destruct Hc0; split|done..].
Qed.

Lemma sendAddressAssignment_ok c l : conn_ok c -> Forall (fun a => 0 <= RequestID a < 2 ^ 62 /\ prefix_typed (IPPrefix a)) l ->
  exists c' r, sendAddressAssignment c l = Some (c', r) /\ conn_ok c' /\ tells c c'.
Proof.
  intros Hc Hl. unfold sendAddressAssignment. destruct (existsb _ l) eqn:E; [by do 2 eexists; split; [|split; [|by apply tells_same]]|].
  apply (queue_capsule_ok c (Assigns l)); [done| |].
  - cbn [message_ok]. revert E. induction Hl as [|a l [Hid Hp] Hl IH]; [by intros; apply Forall_nil|]. cbn. intros [E1 E2]%orb_false_iff. apply Forall_cons. split; [split; [done|by apply good_prefix]|by apply IH].
  - intros c0 Hc0. split_and!; [by destruct Hc0; split|done..].
Qed.

Lemma RequestAddresses_ok c ps : conn_ok c -> Forall prefix_typed ps -> lastAddressRequestID c + Z.of_nat (length ps) < 2 ^ 62 ->
  exists c' r, RequestAddresses c ps = Some (c', r) /\ conn_ok c' /\ tells c c'.
Proof.
  intros Hc Ht Hid. unfold RequestAddresses. destruct (_ =? _)%nat; [by do 2 eexists; split; [|split; [|by apply tells_same]]|].
  destruct (existsb bad_prefix ps) eqn:E; [by do 2 eexists; split; [|split; [|by apply tells_same]]|]. pose proof (co_id c Hc) as Hid0.
  set (ids := (fun i => u64 (lastAddressRequestID c + Z.of_nat i + 1)) <$> seq 0 (length ps)).
  assert (Hids : Forall (fun id => 0 < id < 2 ^ 62) ids).
  { apply Forall_forall. intros id. unfold ids. rewrite list_elem_of_fmap. intros (i & -> & Hi). apply elem_of_seq in Hi. unfold u64. rewrite Z.mod_small by lia. lia. }
  apply (queue_capsule_ok c (Requests {| RequestIDs := ids; Prefixes := ps |})); [done|split; [done|by apply good_prefixes]|].
  intros c0 Hc0. split_and!; [|done..]. destruct Hc0 as [Hn Hr Hi]. split; [done|done|]. cbn [lastAddressRequestID with_id].
  apply last_nonneg. eapply Forall_impl; [exact Hids|]. intros id Hlt. cbn in Hlt. lia.
Qed.

(** *** Answers *)

Lemma answers_ok : forall assignments ids asked, length ids = length assignments -> length asked = length assignments ->
  Forall (fun id => 0 < id < 2 ^ 62) ids -> Forall prefix_typed assignments ->
  exists r, answers ids asked assignments = Some r /\ match r with inl _ => True | inr l => Forall (fun a => 0 <= RequestID a < 2 ^ 62 /\ prefix_typed (IPPrefix a)) l end.
Proof.
  induction assignments as [|p ps IH]; intros [|id ids] [|q qs] Hi Hq Hids Hps; cbn [length] in *; try lia; [by exists (inr []); split; [|apply Forall_nil]|].
  apply Forall_cons in Hids as [Hid Hids]. apply Forall_cons in Hps as [Hp Hps]. destruct (IH ids qs ltac:(lia) ltac:(lia) Hids Hps) as (r & Er & Hr). cbn [answers List.tl].
  assert (Hgo : forall p, prefix_typed p -> exists r, (rest ← answers ids qs ps; Some (match rest with inl e => inl e | inr l => inr ({| RequestID := id; IPPrefix := p |} :: l) end)) = Some r /\
    match r with inl _ => True | inr l => Forall (fun a => 0 <= RequestID a < 2 ^ 62 /\ prefix_typed (IPPrefix a)) l end).
  { intros p' Hp'. rewrite Er. cbn. eexists. split; [done|]. destruct r as [|l]; [done|]. apply Forall_cons. split; [split; [cbn; lia|done]|done]. }
  destruct (decide (p = zeroPrefix)); cbn [mbind option_bind].
  - apply Hgo. right. split; [apply rejected_ok|]. by destruct (Is4 (p_Addr q)).
  - destruct (bad_prefix p); cbn [mbind option_bind]; [by exists (inl errInvalidPrefix)|by apply Hgo].
Qed.

Lemma Respond_ok c r assignments additional : conn_ok c -> request_ok (requested r) -> Forall prefix_typed assignments -> Forall prefix_typed additional ->
  exists c' r' res, Respond c r assignments additional = Some (c', r', res) /\ conn_ok c' /\ tells c c'.
Proof.
  intros Hc (Hl & _ & _ & Hids & _) Ha Hd. unfold Respond. destruct (Nat.eqb_spec (length assignments) (length (RequestIDs (requested r)))) as [E|]; [|by do 3 eexists; split; [|split; [|by apply tells_same]]].
  destruct (answers_ok assignments (RequestIDs (requested r)) (Prefixes (requested r))) as ([e|l] & -> & Hr); [done|by rewrite <-Hl|done|done| |]; cbn [mbind option_bind negb].
  { by do 3 eexists; split; [|split; [|by apply tells_same]]. }
  destruct (existsb bad_prefix additional); [by do 3 eexists; split; [|split; [|by apply tells_same]]|]. destruct (responded r); [by do 3 eexists; split; [|split; [|by apply tells_same]]|].
  destruct (sendAddressAssignment_ok c (l ++ ((fun p => {| RequestID := 0; IPPrefix := p |}) <$> additional)) Hc) as (c' & res & -> & Hc' & Ht).
  { apply Forall_app. split; [done|]. apply Forall_fmap. eapply Forall_impl; [exact Hd|]. intros p Hp. by split. }
  by do 3 eexists.
Qed.

(** *** Ends of the goroutines *)

Lemma conn_Close_ok c : conn_ok c -> exists c', Close c = Some c' /\ conn_ok c' /\ tells c c'.
Proof.
  intros Hc. unfold Close. destruct (stopped c) eqn:Es; [by exists c; split_and!; [..|apply tells_same]|]. pose proof (co_notify c Hc) as Hn. rewrite Es in Hn. unfold queueWrite. cbn [writeNotify with_stopped queuedWrites].
  exists (with_queue (queuedWrites c ++ [Fin]) Notified (with_stopped Local false c)). split_and!; [by destruct (writeNotify c); [..|by destruct (Hn eq_refl)]|destruct Hc; by split|apply tells_same; [done|]].
  unfold datas. cbn [queuedWrites with_queue]. by rewrite omap_app, app_nil_r.
Qed.

Lemma reader_done_ok c failed : conn_ok c -> exists c', reader_done c failed = Some c' /\ conn_ok c' /\ view c' = view c /\ datas (queuedWrites c') = datas (queuedWrites c).
Proof.
  intros Hc. unfold reader_done. destruct (stopped c) eqn:Es; [by exists c|]. pose proof (co_notify c Hc) as Hn. rewrite Es in Hn. destruct failed.
  - unfold close_notify. cbn [writeNotify with_stopped]. exists (with_queue (queuedWrites c) ClosedChan (with_stopped Remote true c)). split_and!; [by destruct (writeNotify c); [..|by destruct (Hn eq_refl)]|destruct Hc; by split|done..].
  - unfold queueWrite. cbn [writeNotify with_stopped queuedWrites]. exists (with_queue (queuedWrites c ++ [Fin]) Notified (with_stopped Remote false c)).
    split_and!; [by destruct (writeNotify c); [..|by destruct (Hn eq_refl)]|destruct Hc; by split|done|]. unfold datas. cbn [queuedWrites with_queue]. by rewrite omap_app, app_nil_r.
Qed.

Lemma read_capsule_ok c t r : conn_ok c -> 0 <= lacking r -> exists c' turn, read_capsule c t r = Some (c', turn) /\ conn_ok c' /\ told (view c') = told (view c) /\ queuedWrites c' = queuedWrites c.
Proof.
  intros Hc Hl. pose proof Hc as [Hn Hr Hi]. unfold read_capsule. destruct (t =? capsuleTypeAddressAssign); [|destruct (t =? capsuleTypeAddressRequest); [|destruct (t =? capsuleTypeRouteAdvertisement)]].
  - destruct (assign_loop_ok (S (length (available r))) [] r ltac:(lia) Hl) as [Hp _]. fold (parseAddressAssignCapsule r) in Hp. destruct (parseAddressAssignCapsule r); [|by do 2 eexists; split; [done|split_and!]|done].
    destruct (_ <? _)%nat; by do 2 eexists; split; [done|split_and!; [by split|..]].
  - assert (Hq : parseAddressRequestCapsule r <> Panic /\ forall q, parseAddressRequestCapsule r = Ok q -> request_ok q).
    { unfold parseAddressRequestCapsule. destruct (Z.eqb_spec (Remaining r) 0); [done|].
      destruct (request_loop_ok (S (length (available r))) {| RequestIDs := []; Prefixes := [] |} r) as [Hp Hok]; [lia|done|]. split; [done|].
      intros q. apply Hok; cbn [RequestIDs Prefixes length]; [done|lia|by apply Forall_nil|by apply Forall_nil|right; unfold Remaining in *; lia]. }
    destruct Hq as [Hp Hok]. destruct (parseAddressRequestCapsule r) as [q| |]; [|by do 2 eexists; split; [done|split_and!]|done].
    destruct (_ <? _)%nat; do 2 eexists; (split; [done|]); split_and!; try done. split; [done| |done]. cbn [addressRequests with_received]. apply Forall_app. split; [done|]. apply Forall_singleton. by apply Hok.
  - destruct (route_loop_ok (S (length (available r))) [] r ltac:(lia) Hl) as [Hp _]. unfold parseRouteAdvertisementCapsule. destruct (route_loop _ [] r) as [l| |]; [|by do 2 eexists; split; [done|split_and!]|done].
    cbn [mbind outcome_bind]. pose proof (validate_no_panic l). destruct (validateRouteAdvertisement l) as [[]| |]; [|by do 2 eexists; split; [done|split_and!]|done]. cbn [mbind outcome_bind].
    by do 2 eexists; split; [done|split_and!; [by split|..]].
  - destruct (t =? capsuleTypeDatagram); [|by do 2 eexists; split; [done|split_and!]]. eexists _, _. split; [by rewrite <-surjective_pairing|]. unfold queueDatagram, after_discard.
    destruct (enableDatagrams c); cbn [negb]; repeat case_match; split_and!; cbn; try done; by split.
Qed.
End End.
