(* ===== verification/ConnectIpSystem.v ===== *)
(** * Two ends of a CONNECT-IP connection as a transition system

    The ends' operations and goroutine turns in any order, the capsules on the
    stream between them, writes that fail and lose what they were to write,
    and what the ends then know of each other. *)

From S2P Require Import Prelude Net NetIp Capsule ConnectIp ConnectIpFacts ConnectIpRoutes ConnectIpPackets ConnectIpPacketsFacts ConnectIpConn.
Local Open Scope Z_scope.

(** ** Both ends *)

(** [http3.CapsuleParser]: the type and the payload of a capsule that is there
    as a whole, and what follows it. *)
Class CapsuleParser := parse_capsule : bytes -> option (Z * bytes * bytes).
Class CapsuleParserLaws `{QuicVarint} `{CapsuleParser} := {
  parse_capsule_app t p rest : 0 <= t < 2 ^ 62 -> Z.of_nat (length p) < 2 ^ 62 -> parse_capsule (capsule t p ++ rest) = Some (t, p, rest);
  parse_capsule_nil : parse_capsule [] = None }.

(** An end, the bytes that its peer wrote and it has not read, whether its
    reading and its writing loop run, and whether a write of its has failed. *)
Record end_state := { conn : Conn; inbox : bytes; reading : bool; writing : bool; broken : bool }.

Section System.
Context `{QuicVarintLaws} `{CapsuleParser} `{!CapsuleParserLaws}.

(** What the user of a connection does, with values of their types. *)
Inductive act (c : Conn) : Conn -> Prop :=
  | act_advertise routes c' r : Forall route_typed routes -> AdvertiseRoute c routes = Some (c', r) -> act c c'
  | act_request ps c' r : Forall prefix_typed ps -> lastAddressRequestID c + Z.of_nat (length ps) < 2 ^ 62 -> RequestAddresses c ps = Some (c', r) -> act c c'
  | act_respond q assignments additional c' q' r : request_ok (requested q) -> Forall prefix_typed assignments -> Forall prefix_typed additional ->
      Respond c q assignments additional = Some (c', q', r) -> act c c'
  | act_close c' : Close c = Some c' -> act c c'
  | act_assignment : act c (fst (ReceiveAddressAssignment c))
  | act_requests : act c (fst (ReceiveAddressRequest c))
  | act_routes closed_first : act c (fst (ReceiveRoutes c closed_first)).

(** No write is larger than a varint can say. *)
Definition sizes_ok (c : Conn) : Prop := Forall (fun d => Z.of_nat (length d) < 2 ^ 62) (datas (queuedWrites c)).

Definition system : Type := bool -> end_state.
Definition update (b : bool) (e : end_state) (s : system) : system := fun x => if Bool.eqb x b then e else s x.
Definition with_conn (c : Conn) (e : end_state) : end_state := {| conn := c; inbox := inbox e; reading := reading e; writing := writing e; broken := broken e |}.
Definition arrive (d : bytes) (e : end_state) : end_state := {| conn := conn e; inbox := inbox e ++ d; reading := reading e; writing := writing e; broken := broken e |}.
Definition read_on (c : Conn) (rest : bytes) (on : bool) (e : end_state) : end_state := {| conn := c; inbox := rest; reading := on; writing := writing e; broken := broken e |}.
Definition writer_gone (c : Conn) (e : end_state) : end_state := {| conn := c; inbox := inbox e; reading := reading e; writing := false; broken := broken e |}.
Definition break (e : end_state) : end_state := {| conn := conn e; inbox := inbox e; reading := reading e; writing := writing e; broken := true |}.

(** A write may fail at any time, as it does once [Close] has set the
    deadline or a direction is cancelled: some of the bytes may arrive, the
    capsule that was taken from the queue is lost, and the writing goroutine
    ends. It ends, too, after [Fin], which closes the stream, and when it finds
    the channel closed. A packet is written by its user, past the queue. *)
Inductive step (s : system) : system -> Prop :=
  | step_act b c' : act (conn (s b)) c' -> sizes_ok c' -> step s (update b (with_conn c' (s b)) s)
  | step_write b d c' : writing (s b) = true -> next_write (conn (s b)) = Some (Data d, c') ->
      step s (update b (with_conn c' (s b)) (update (negb b) (arrive d (s (negb b))) s))
  | step_write_fails b d c' n : writing (s b) = true -> next_write (conn (s b)) = Some (Data d, c') ->
      step s (update b (break (writer_gone (writer_failed c') (s b))) (update (negb b) (arrive (take n d) (s (negb b))) s))
  | step_write_fin b c' : writing (s b) = true -> next_write (conn (s b)) = Some (Fin, c') -> step s (update b (writer_gone c' (s b)) s)
  | step_writer_ends b : writing (s b) = true -> writeNotify (conn (s b)) = ClosedChan -> step s (update b (writer_gone (writer_failed (conn (s b))) (s b)) s)
  | step_packet b packet data packet' : composeDatagram (view (conn (s b))) false packet = Ok (data, packet') -> Z.of_nat (length data) < 2 ^ 62 ->
      step s (update (negb b) (arrive data (s (negb b))) s)
  | step_packet_fails b packet data packet' n : composeDatagram (view (conn (s b))) false packet = Ok (data, packet') ->
      step s (update b (break (s b)) (update (negb b) (arrive (take n data) (s (negb b))) s))
  | step_read b t p rest c' : reading (s b) = true -> parse_capsule (inbox (s b)) = Some (t, p, rest) -> read_capsule (conn (s b)) t (reader p 0) = Some (c', Next) ->
      step s (update b (read_on c' rest true (s b)) s)
  | step_read_fails b t p rest c' e c'' : reading (s b) = true -> parse_capsule (inbox (s b)) = Some (t, p, rest) -> read_capsule (conn (s b)) t (reader p 0) = Some (c', Ends e) ->
      reader_done c' true = Some c'' -> step s (update b (read_on c'' rest false (s b)) s)
  | step_stream_ends b failed c' : reading (s b) = true -> reader_done (conn (s b)) failed = Some c' -> step s (update b (read_on c' (inbox (s b)) false (s b)) s).

Definition start (enable : bool) : system := fun _ => {| conn := newProxiedConn enable; inbox := []; reading := true; writing := true; broken := false |}.

Inductive reachable : system -> Prop :=
  | reach_start enable : reachable (start enable)
  | reach_step s s' : reachable s -> step s s' -> reachable s'.

(** *** The messages under way *)

Definition message_fits (m : message) : Prop := message_ok m /\ Z.of_nat (length (payload m)) < 2 ^ 62.

(** What the sender's peer ought to know is what the receiver knows after the
    messages that are on the stream and in the queue. *)
Definition link (c : Conn) (e : end_state) : Prop :=
  reading e = true -> exists ms1 ms2, inbox e = concat (encode <$> ms1) /\ datas (queuedWrites c) = encode <$> ms2 /\ Forall message_fits (ms1 ++ ms2) /\
    told (view c) = foldl hear (heard (view (conn e))) (ms1 ++ ms2).

Lemma link_tells c c' e : link c e -> tells c c' -> sizes_ok c' -> link c' e.
Proof.
  intros Hl [_ [[Ht Hd]|(m & Hm & Ht & Hd)]] Hs Hr; destruct (Hl Hr) as (ms1 & ms2 & Hi & Hq & Hf & Hk).
  - exists ms1, ms2. by rewrite Ht, Hd.
  - exists ms1, (ms2 ++ [m]). rewrite Ht, Hd, Hk, Hq, fmap_app. split_and!; [done|done| |by rewrite !foldl_app].
    rewrite app_assoc. apply Forall_app. split; [done|]. apply Forall_singleton. split; [done|]. unfold sizes_ok in Hs. rewrite Hd in Hs. apply Forall_app in Hs as [_ Hs]. apply (proj1 (Forall_singleton _ _)) in Hs. rewrite (encode_capsule m Hm) in Hs. unfold capsule in Hs. rewrite !length_app in Hs. lia.
Qed.

Lemma link_same c c' e e' : link c e -> told (view c') = told (view c) -> datas (queuedWrites c') = datas (queuedWrites c) ->
  heard (view (conn e')) = heard (view (conn e)) -> inbox e' = inbox e -> (reading e' = true -> reading e = true) -> link c' e'.
Proof. intros Hl Ht Hq Hh Hi Hr Hr'. destruct (Hl (Hr Hr')) as (ms1 & ms2 & ? & ? & ? & ?). exists ms1, ms2. rewrite Ht, Hq, Hh, Hi. done. Qed.

Lemma link_write c d c' e : next_write c = Some (Data d, c') -> link c e -> link c' (arrive d e).
Proof.
  unfold next_write. destruct (queuedWrites c) as [|w' ws] eqn:Eq; [done|]. intros [= -> <-] Hl Hr. destruct (Hl Hr) as (ms1 & ms2 & Hi & Hq & Hf & Hk). rewrite Eq in Hq. cbn in Hq.
  destruct ms2 as [|m ms2]; [done|]. cbn in Hq. injection Hq as -> Hq. exists (ms1 ++ [m]), ms2. cbn [inbox arrive]. rewrite <-app_assoc, Hi, fmap_app, concat_app. cbn [fmap list_fmap concat]. rewrite app_nil_r. cbn [app]. done.
Qed.

Lemma link_fin c c' e : next_write c = Some (Fin, c') -> link c e -> link c' e.
Proof.
  unfold next_write. destruct (queuedWrites c) as [|w' ws] eqn:Eq; [done|]. intros [= -> <-] Hl Hr. destruct (Hl Hr) as (ms1 & ms2 & Hi & Hq & Hf & Hk). rewrite Eq in Hq. by exists ms1, ms2.
Qed.

Lemma foldl_hear_packet k ms1 d ms2 : foldl hear k ((ms1 ++ [Packet d]) ++ ms2) = foldl hear k (ms1 ++ ms2).
Proof. by rewrite !foldl_app. Qed.

Lemma link_packet c v packet data packet' e : composeDatagram v false packet = Ok (data, packet') -> Z.of_nat (length data) < 2 ^ 62 -> link c e -> link c (arrive data e).
Proof.
  intros Hc Hd Hl Hr. unfold composeDatagram in Hc. destruct (may_leave v packet) as [[]| |]; [|done..]. cbn [mbind outcome_bind] in Hc. destruct (forward packet) as [f| |]; [|done..]. cbn [mbind outcome_bind] in Hc.
  injection Hc as <- <-. destruct (Hl Hr) as (ms1 & ms2 & Hi & Hq & Hf & Hk). exists (ms1 ++ [Packet (contextIDZero ++ f)]), ms2. cbn [inbox arrive conn]. rewrite foldl_hear_packet, Hi, fmap_app, concat_app. cbn [fmap list_fmap concat encode]. rewrite app_nil_r.
  split_and!; [done|done| |done]. rewrite <-app_assoc. apply Forall_app in Hf as [Hf1 Hf2]. apply Forall_app. split; [done|]. apply Forall_cons. split; [split; [done|]|done]. cbn [payload]. rewrite !length_app in *. lia.
Qed.

Lemma encode_fits m rest : message_fits m -> parse_capsule (encode m ++ rest) = Some (kind m, payload m, rest).
Proof. intros [Hm Hl]. rewrite encode_capsule by done. apply parse_capsule_app; [|done]. destruct m; split; vm_compute; congruence. Qed.

(** The next capsule is the first of the messages. *)
Lemma link_first c e t p rest : link c e -> reading e = true -> parse_capsule (inbox e) = Some (t, p, rest) ->
  exists m ms1 ms2, t = kind m /\ p = payload m /\ rest = concat (encode <$> ms1) /\ message_ok m /\ datas (queuedWrites c) = encode <$> ms2 /\ Forall message_fits (ms1 ++ ms2) /\
    told (view c) = foldl hear (hear (heard (view (conn e))) m) (ms1 ++ ms2).
Proof.
  intros Hl Hr Hp. destruct (Hl Hr) as ([|m ms1] & ms2 & Hi & Hq & Hf & Hk); [by rewrite Hi in Hp; cbn [fmap list_fmap concat] in Hp; rewrite parse_capsule_nil in Hp|].
  cbn [app] in Hf. apply Forall_cons in Hf as [Hm Hf]. cbn [fmap list_fmap concat] in Hi. rewrite Hi, encode_fits in Hp by done. injection Hp as <- <- <-. exists m, ms1, ms2. split_and!; try done. apply Hm.
Qed.

(** *** Every step *)

Record inv (s : system) : Prop := { inv_conn b : conn_ok (conn (s b)); inv_link b : broken (s b) = false -> link (conn (s b)) (s (negb b)) }.

Lemma inv_start enable : inv (start enable).
Proof.
  split; intros b; [by split; cbn; [|apply Forall_nil_2|]|].
  intros _ _. exists [], []. split_and!; [done|done|apply Forall_nil_2|done].
Qed.

Lemma update_same b e s : update b e s b = e.
Proof. unfold update. by rewrite Bool.eqb_reflx. Qed.
Lemma update_other b e s : update b e s (negb b) = s (negb b).
Proof. by destruct b. Qed.
Lemma update_this b e s : update (negb b) e s b = s b.
Proof. by destruct b. Qed.

Lemma both (P : bool -> Prop) b : P b -> P (negb b) -> forall x, P x.
Proof. destruct b; intros ?? []; done. Qed.

(** One end changes, and what it is to each link. *)
Lemma inv_update s b e : inv s -> conn_ok (conn e) -> (broken e = false -> link (conn e) (s (negb b))) -> (broken (s (negb b)) = false -> link (conn (s (negb b))) e) -> inv (update b e s).
Proof.
  intros [Hc Hl] He Hout Hin. split; refine (both (fun x => _) b _ _); cbn beta; rewrite ?negb_involutive, ?update_same, ?update_other; done.
Qed.

Lemma inv_update_both s b e e' : conn_ok (conn e) -> conn_ok (conn e') -> (broken e = false -> link (conn e) e') -> (broken e' = false -> link (conn e') e) -> inv (update b e (update (negb b) e' s)).
Proof.
  intros He He' Hout Hin. split; refine (both (fun x => _) b _ _); cbn beta; rewrite ?negb_involutive, ?update_same, ?update_other, ?update_same; done.
Qed.

Lemma act_ok c c' : conn_ok c -> act c c' -> conn_ok c' /\ tells c c'.
Proof.
  intros Hc [routes c0 r Hr E|ps c0 r Hp Hi E|q a d c0 q' r Hq Ha Hd E|c0 E| | |cf].
  - destruct (AdvertiseRoute_ok c routes Hc Hr) as (c1 & r1 & E1 & ?). by rewrite E in E1; injection E1 as -> ->.
  - destruct (RequestAddresses_ok c ps Hc Hp Hi) as (c1 & r1 & E1 & ?). by rewrite E in E1; injection E1 as -> ->.
  - destruct (Respond_ok c q a d Hc Hq Ha Hd) as (c1 & r1 & r2 & E1 & ?). by rewrite E in E1; injection E1 as -> -> ->.
  - destruct (conn_Close_ok c Hc) as (c1 & E1 & ?). by rewrite E in E1; injection E1 as ->.
  - unfold ReceiveAddressAssignment. destruct (assignedAddressUpdates c); (split; [|by apply tells_same]); [done|]. destruct Hc. by split.
  - unfold ReceiveAddressRequest. destruct (addressRequests c) eqn:Eq; (split; [|by apply tells_same]); [done|]. destruct Hc as [? Hr ?]. rewrite Eq in Hr. apply Forall_cons in Hr as [_ Hr]. by split.
  - unfold ReceiveRoutes. destruct (availableRouteUpdates c), (stopped c), cf; (split; [|by apply tells_same]); try done; destruct Hc; by split.
Qed.

Lemma link_heard c e e' : link c e -> heard (view (conn e')) = heard (view (conn e)) -> inbox e' = inbox e -> (reading e' = true -> reading e = true) -> link c e'.
Proof. intros. by eapply link_same. Qed.

Lemma next_write_ok c w c' : next_write c = Some (w, c') -> conn_ok c -> conn_ok c' /\ view c' = view c.
Proof. unfold next_write. destruct (queuedWrites c); [done|]. intros [= <- <-] []. by split; [split|]. Qed.

Lemma writer_failed_ok c : conn_ok c -> conn_ok (writer_failed c) /\ view (writer_failed c) = view c /\ queuedWrites (writer_failed c) = queuedWrites c.
Proof. intros Hc. unfold writer_failed. destruct (stopped c) eqn:Es; [done|]. split; [|done]. destruct Hc. by split. Qed.

Lemma pair_inv_step s s' : inv s -> step s s' -> inv s'.
Proof.
  intros Hi. pose proof Hi as [Hc Hl]. assert (forall b, broken (s (negb b)) = false -> link (conn (s (negb b))) (s b)) as Hl2 by (intros b; specialize (Hl (negb b)); by rewrite negb_involutive in Hl).
  intros [b c' Ha Hs|b d c' _ Hw|b d c' n _ Hw|b c' _ Hw|b _ _|b packet data packet' Hd Hs|b packet data packet' n Hd|b t p rest c' Hr Hp Hcap|b t p rest c' e c'' Hr Hp Hcap Hd|b failed c' Hr Hd].
  - destruct (act_ok _ _ (Hc b) Ha) as [Hok Ht]. apply inv_update; [done|done|intros Hb; apply (link_tells (conn (s b))); [by apply Hl|done|done]|].
    intros Hb. apply (link_heard _ (s b)); [by apply Hl2|apply Ht|done..].
  - destruct (next_write_ok _ _ _ Hw (Hc b)) as [Hok Hv]. apply inv_update_both; [done|apply Hc|intros Hb; apply (link_write (conn (s b))); [done|by apply Hl]|].
    intros Hb. apply (link_heard _ (s b)); [by apply Hl2|by cbn; rewrite Hv|done..].
  - destruct (next_write_ok _ _ _ Hw (Hc b)) as [Hok Hv]. destruct (writer_failed_ok c' Hok) as (Hok' & Hv' & _). apply inv_update_both; [done|apply Hc|done|].
    intros Hb. apply (link_heard _ (s b)); [by apply Hl2|by cbn; rewrite Hv', Hv|done..].
  - destruct (next_write_ok _ _ _ Hw (Hc b)) as [Hok Hv]. apply inv_update; [done|done|intros Hb; apply (link_fin (conn (s b))); [done|by apply Hl]|].
    intros Hb. apply (link_heard _ (s b)); [by apply Hl2|by cbn; rewrite Hv|done..].
  - destruct (writer_failed_ok _ (Hc b)) as (Hok & Hv & Hq). apply inv_update; [done|done| |].
    + intros Hb. apply (link_same (conn (s b)) _ (s (negb b))); [by apply Hl|by cbn; rewrite Hv|by cbn; rewrite Hq|done..].
    + intros Hb. apply (link_heard _ (s b)); [by apply Hl2|by cbn; rewrite Hv|done..].
  - apply inv_update; rewrite ?negb_involutive; [done|apply Hc|intros Hb; by apply Hl2|]. intros Hb. eapply link_packet; [done|done|by apply Hl].
  - apply inv_update_both; [apply Hc|apply Hc|done|]. intros Hb. by apply (link_heard _ (s b)); [apply Hl2|..].
  - destruct (read_capsule_ok (conn (s b)) t (reader p 0) (Hc b) ltac:(done)) as (c1 & t1 & E & Hok & Ht & Hq). rewrite Hcap in E. injection E as <- <-. apply inv_update; [done|done| |].
    { intros Hb. eapply link_same; [exact (Hl b Hb)|done|by cbn; rewrite Hq|done..]. }
    intros Hb. destruct (link_first _ _ _ _ _ (Hl2 b Hb) Hr Hp) as (m & ms1 & ms2 & -> & -> & -> & Hm & Hd & Hf & Hk). destruct (read_capsule_hears _ m _ _ Hm Hcap) as (_ & _ & Hh).
    intros _. exists ms1, ms2. cbn [conn inbox read_on]. rewrite (Hh eq_refl). done.
  - destruct (read_capsule_ok (conn (s b)) t (reader p 0) (Hc b) ltac:(done)) as (c1 & t1 & E & Hok & Ht & Hq). rewrite Hcap in E. injection E as <- <-.
    destruct (reader_done_ok c' true Hok) as (c2 & E & Hok2 & Hv2 & Hd2). rewrite Hd in E. injection E as <-. apply inv_update; [done|done| |done].
    intros Hb. eapply link_same; [exact (Hl b Hb)|by cbn; rewrite Hv2|by cbn; rewrite Hd2, Hq|done..].
  - destruct (reader_done_ok (conn (s b)) failed (Hc b)) as (c2 & E & Hok2 & Hv2 & Hd2). rewrite Hd in E. injection E as <-. apply inv_update; [done|done| |done].
    intros Hb. eapply link_same; [exact (Hl b Hb)|by cbn; rewrite Hv2|by cbn; rewrite Hd2|done..].
Qed.

Lemma pair_inv_reachable s : reachable s -> inv s.
Proof. induction 1; [apply inv_start|by eapply pair_inv_step]. Qed.

(** *** Nothing under way *)

Lemma encode_some m : message_fits m -> encode m <> [].
Proof.
  intros Hm E. pose proof (encode_fits m [] Hm) as H'. rewrite E in H'. cbn in H'. by rewrite parse_capsule_nil in H'.
Qed.

Lemma no_messages ms : Forall message_fits ms -> concat (encode <$> ms) = [] -> ms = [].
Proof. destruct ms as [|m ms]; [done|]. intros [Hm _]%Forall_cons E. cbn [fmap list_fmap concat] in E. apply app_eq_nil in E as [E _]. by apply encode_some in E. Qed.

(** The reading loops run, nothing is on the stream, no capsule is queued, and
    no write has failed. *)
Definition settled (s : system) : Prop := forall b, reading (s b) = true /\ inbox (s b) = [] /\ datas (queuedWrites (conn (s b))) = [] /\ broken (s b) = false.

(** No operation panics, whatever it is given of its types. *)
Definition never_panics (c : Conn) : Prop :=
  (forall routes, Forall route_typed routes -> AdvertiseRoute c routes <> None) /\
  (forall ps, Forall prefix_typed ps -> lastAddressRequestID c + Z.of_nat (length ps) < 2 ^ 62 -> RequestAddresses c ps <> None) /\
  (forall q a d, request_ok (requested q) -> Forall prefix_typed a -> Forall prefix_typed d -> Respond c q a d <> None) /\
  Close c <> None /\ forall t r, 0 <= lacking r -> exists c' turn, read_capsule c t r = Some (c', turn) /\ forall failed, reader_done c' failed <> None.

Lemma ok_never_panics c : conn_ok c -> never_panics c.
Proof.
  intros Hc. split_and!.
  - intros l Hl. destruct (AdvertiseRoute_ok c l Hc Hl) as (? & ? & -> & _). done.
  - intros l Hl Hi. destruct (RequestAddresses_ok c l Hc Hl Hi) as (? & ? & -> & _). done.
  - intros q a d Hq Ha Hd. destruct (Respond_ok c q a d Hc Hq Ha Hd) as (? & ? & ? & -> & _). done.
  - destruct (conn_Close_ok c Hc) as (? & -> & _). done.
  - intros t r Hr. destruct (read_capsule_ok c t r Hc Hr) as (c' & turn & E & Hok & _). exists c', turn. split; [done|]. intros failed. destruct (reader_done_ok c' failed Hok) as (? & -> & _). done.
Qed.

Lemma settled_link s b : inv s -> settled s -> told (view (conn (s b))) = heard (view (conn (s (negb b)))).
Proof.
  intros [_ Hl] Hs. destruct (Hs b) as (_ & _ & Hq & Hb). destruct (Hs (negb b)) as (Hr & Hi & _). destruct (Hl b Hb Hr) as (ms1 & ms2 & Hi' & Hq' & Hf & Hk).
  rewrite Hq in Hq'. destruct ms2; [|done]. rewrite app_nil_r in *. rewrite Hi in Hi'. rewrite (no_messages ms1) in Hk; done.
Qed.

(** C16: two ends of a connection, whose users advertise routes, ask for
    addresses, answer, receive and close in any order, while the goroutines
    write and read the capsules, packets pass between them, and writes fail
    at any time. As long as no write has failed, whenever both ends still read
    and nothing is under way, each knows of the other what the other has of
    itself: the addresses and the routes mirror each other, which is what the
    packets of a tunnel are checked by. A write that fails, as it does after
    [Close], loses the capsule it had taken from the queue, and then nothing
    is said of what the peer knows. And no operation panics, on the closed
    channel or otherwise, whether writes failed or not. *)
Theorem tunnel_states_agree s : reachable s ->
  (settled s -> mirrored (view (conn (s true))) (view (conn (s false)))) /\ forall b, never_panics (conn (s b)).
Proof.
  intros Hi%pair_inv_reachable. split; [|intros b; apply ok_never_panics, Hi]. intros Hs.
  pose proof (settled_link s true Hi Hs) as Ht. pose proof (settled_link s false Hi Hs) as Hf. cbn in Ht, Hf. injection Ht as Ha Hb. injection Hf as Hc Hd. by split_and!.
Qed.
End System.

(** ** A run *)

(** A parser made of the numbers' parser. *)
Definition take_capsule `{QuicVarint} : CapsuleParser := fun b =>
  '(t, n) ← varint_Parse b; '(l, k) ← varint_Parse (drop n b);
  let p := drop k (drop n b) in
  if (length p <? Z.to_nat l)%nat then None else Some (t, take (Z.to_nat l) p, drop (Z.to_nat l) p).

Lemma take_capsule_laws `{QuicVarintLaws} : @CapsuleParserLaws _ take_capsule.
Proof.
  split.
  - intros t p rest Ht Hp. unfold parse_capsule, take_capsule, capsule. rewrite <-!app_assoc, varint_parse_append by done. cbn [mbind option_bind]. rewrite drop_app_length, varint_parse_append by lia. cbn [mbind option_bind].
    rewrite drop_app_length, Nat2Z.id, length_app. destruct (Nat.ltb_spec (length p + length rest) (length p)); [lia|]. by rewrite take_app_length, drop_app_length.
  - unfold parse_capsule, take_capsule. destruct (varint_Parse []) as [[z n]|] eqn:E; [|done]. apply varint_parsed in E as [_ E]. cbn in E. lia.
Qed.

#[local] Instance sample_parser : CapsuleParser := take_capsule.
#[local] Instance sample_parser_laws : CapsuleParserLaws := take_capsule_laws.

(** One end advertises its routes, writes them, and the other reads them. *)
Definition advertised : Conn := match AdvertiseRoute (newProxiedConn true) sample_routes with Some (c, _) => c | None => newProxiedConn true end.
Definition flushed : streamWrite * Conn := match next_write advertised with Some r => r | None => (Fin, advertised) end.
Definition told_one : Conn := match read_capsule (newProxiedConn true) capsuleTypeRouteAdvertisement (reader (payload (Routes sample_routes)) 0) with Some (c, _) => c | None => newProxiedConn true end.

Definition after_advertising : system := update true (with_conn advertised (start true true)) (start true).
Definition sent : bytes := match fst flushed with Data d => d | Fin => [] end.
Definition after_writing : system :=
  update true (with_conn (snd flushed) (after_advertising true)) (update false (arrive sent (after_advertising false)) after_advertising).
Definition after_reading : system := update false (read_on told_one [] true (after_writing false)) after_writing.

Lemma advertising_run : reachable after_advertising.
Proof.
  apply (reach_step (start true)); [apply reach_start|]. apply (step_act (start true) true advertised).
  - apply (act_advertise _ sample_routes _ (inr tt)); [apply sample_routes_typed|vm_compute; reflexivity].
  - apply Forall_singleton. vm_compute. reflexivity.
Qed.

Lemma sample_run : reachable after_reading.
Proof.
  apply (reach_step after_writing).
  - apply (reach_step after_advertising); [apply advertising_run|]. apply (step_write after_advertising true sent (snd flushed)); vm_compute; reflexivity.
  - apply (step_read after_writing false capsuleTypeRouteAdvertisement (payload (Routes sample_routes)) [] told_one); vm_compute; reflexivity.
Qed.

(** The routes are advertised, which succeeds, and the connection is closed
    before they are written: the write fails, as the deadline has passed, and
    the peer, which still reads, is never told. *)
Definition closed_after : Conn := match Close advertised with Some c => c | None => advertised end.
Definition after_close : system := update true (with_conn closed_after (after_advertising true)) after_advertising.
Definition unsent : streamWrite * Conn := match next_write closed_after with Some r => r | None => (Fin, closed_after) end.
Definition after_loss : system :=
  update true (break (writer_gone (writer_failed (snd unsent)) (after_close true))) (update false (arrive (take 0 sent) (after_close false)) after_close).

Lemma close_loses_capsules : reachable after_loss /\ localRoutes (view (conn (after_loss true))) = sample_routes /\ queuedWrites (conn (after_loss true)) = [Fin] /\
  reading (after_loss false) = true /\ inbox (after_loss false) = [] /\ peerRoutes (view (conn (after_loss false))) = [].
Proof.
  split; [|split_and!; vm_compute; reflexivity]. apply (reach_step after_close).
  - apply (reach_step after_advertising); [apply advertising_run|]. apply (step_act after_advertising true closed_after); [apply act_close; vm_compute; reflexivity|]. apply Forall_singleton. vm_compute. reflexivity.
  - apply (step_write_fails after_close true sent (snd unsent) 0); vm_compute; reflexivity.
Qed.

Lemma tunnel_states_agree_witness :
  mirrored (view (conn (after_reading true))) (view (conn (after_reading false))) /\ peerRoutes (view (conn (after_reading false))) = sample_routes.
Proof.
  split; [|vm_compute; reflexivity]. apply (proj1 (tunnel_states_agree after_reading sample_run)). intros []; split_and!; vm_compute; reflexivity.
Defined.
